(* ===== verification/_CoqProject ===== *)
-Q . S2P
Prelude.v
Ranges.v
Bitmap.v
Doubles.v
TextFile.v
ResNum.v
Index.v
Entlim.v
SchedData.v
Counts.v
LimitSet.v
LimitCheck.v
LimitPeak.v
LimitProps.v
AvlTree.v
AvlProps.v
AvlIndex.v
Dis.v
DisProps.v
DisSafe.v
TcpDis.v
TcpProps.v
Batch.v
BatchProps.v
Client.v
ClientProps.v
Reply.v
ReplyProps.v
JobData.v
SubjobTable.v
SubjobProps.v
SubjobIds.v
JobState.v
JobInv.v
JobSteps.v
JobQueue.v
JobCounts.v
JobScenes.v
FairTree.v
FairShape.v
FairWf.v
FairOps.v
FairGroups.v
FairUsage.v
FairRead.v
FairOrder.v
FairCopy.v
FairProps.v
TimeData.v
PrimeTime.v
PrimeProps.v
HolFile.v
DedTime.v
TimeCheck.v
TimeProps.v
TimeScenes.v
EventList.v
EventSim.v
EventHeap.v
EventCal.v
EventNext.v
EventRun.v
EventMake.v
EventProps.v
EventScan.v
EventDup.v
EventScenes.v
Sorting.v
QsortProps.v
JobSort.v
JobOrder.v
JobSortProps.v
NodeSort.v
NodeOrder.v
Resources.v
ResourceProps.v
RunCheck.v
RunCheckProps.v
EventCalc.v
NextJob.v
