(* ===== verification/Prelude.v ===== *)
(** * OpenPBS: the scheduler's decisions, the batch protocol and the jobs of the server

    OpenPBS is a batch system: a server keeps jobs and queues, a scheduler asks
    it which jobs are queued and what resources there are, decides which jobs
    run, and execution daemons run them.  This development models, function by
    function, the part of the scheduler that decides whether a job may run
    now: the limits of users, groups and projects, the resources of server, queue
    and nodes, prime and dedicated times, and the function that asks all these
    checks; the libraries that part calls, and two data structures of the
    scheduler; its fairshare tree, which says whose job is next; the calendar of
    events it simulates to see what will be; the order it sorts jobs and nodes
    in and considers jobs in; the protocol in which commands and the
    scheduler ask the server, from the request of a command to the reply it
    gets, down to the buffers of a tcp connection; and the jobs of the server:
    their lists and queues, the state of a job and the counts by state, array
    jobs with their subjobs, and the history of finished jobs.  All paths are
    under [src/src/].

    ** Parts, files and sources

    - [Prelude]: machine integers with their wrap, C strings as lists of
      characters, [strtol] and decimal text, arrays, and the monad of functions
      on a state that may crash.
    - [Doubles] ([Double], [Float]): the C types [double] and [float], as the
      binary64 and binary32 numbers of the standard library's [SpecFloat], and the
      order of floating point numbers; the lemmas named [_exact] say that integers
      below 2^53 are added, subtracted, multiplied and compared without error,
      and [dbl_div_trunc] that a quotient of theirs has the right integer part.
    - [ResNum] ([ResNum]): [is_num] and [res_to_num] of [scheduler/misc.c].
    - [Index] ([Index], [IndexLaws], [ListIndex]): what
      [lib/Libutil/entlim.c] uses of the index of [lib/Libutil/avltree.c], as a
      class of operations, a class of laws and a reference instance on lists.
    - [AvlTree] ([Avl]): [lib/Libutil/avltree.c], the balanced tree and the
      functions on an index; [AvlProps], [AvlIndex]: the theorems on them, and in
      [AvlIndex] the tree as an instance of the index interface ([TreeIndex],
      [Refinement]).
    - [Entlim] ([Entlim], [EntlimParse]): the keys and the store of
      [lib/Libutil/entlim.c], over any [Index], and the parser of
      [lib/Libifl/entlim_parse.c].
    - [SchedData]: constants of [scheduler/constant.h] and the structures of
      [scheduler/data_types.h], with the fields the model uses ([Data]); scans over the
      events ([scheduler/simulate.c]) and [calc_time_left] ([Calendar]).
    - [Counts] ([ReqList], [Counts]): resource request lists
      ([scheduler/resource_resv.c]), counts of running jobs and total counts
      ([scheduler/server_info.c]), [find_counts_elm] ([scheduler/check.c]).
    - [LimitSet] ([LimitSet]): setting, copying and reading limits
      ([scheduler/limits.c]).
    - [LimitCheck] ([LimitCheck]): the limit functions and their tables,
      [check_limits] and [check_soft_limits] ([scheduler/limits.c]).
    - [LimitPeak], [LimitProps]: the theorems on these.
    - [Ranges] ([Range]): [scheduler/range.c], ranges of subjob indices.
    - [Bitmap] ([Bitmap]): [scheduler/pbs_bitmap.c], growable bitmaps.
    - [Dis]: the functions of a stream ([lib/Libdis/dis.c]) as classes of
      operations and of laws, plain texts as an instance ([TextStream]), and
      [lib/Libdis], numbers and strings as text, over any stream ([Dis]);
      [DisProps], [DisSafe]: the theorems on it.
    - [TcpDis] ([Tcp]): the buffers of a connection ([lib/Libifl/tcp_dis.c]);
      [TcpProps]: they keep the laws of a stream.
    - [Batch] ([Batch]): encoders and decoders of requests
      ([lib/Libifl/enc_*.c], [dec_*.c]) and [dis_request_read]
      ([server/dis_read.c]); [BatchProps]: what an encoder sends and what a
      decoder reads, composed.
    - [Client]: the functions of [lib/Libifl] that send a request ([Client]), and
      a request with its arguments, its conditions and what the server is to get
      ([Calls]); [ClientProps]: that the server gets it, and requests it does not
      get right ([BatchLimits]).
    - [Reply] ([Reply]): [lib/Libifl/enc_reply.c], [dec_rpyc.c], [int_rdrpy.c] and
      the server's decoder; [ReplyProps]: the theorems on them.
    - [JobData]: jobs, queues, attributes and the globals of the server
      ([include/job.h], [queue.h], [attribute.h], [server/pbsd_main.c]) as a heap
      and a record, the world ([Job]); counts by state against lists ([Counters]).
    - [SubjobTable] ([Subjobs]): the table of subjobs of an array job, its text
      forms and the ids of subjobs ([server/array_func.c]), and the check of a
      range in a command ([lib/Libcmds/chk_Jrange.c]).
    - [JobState] ([State]): the functions of [server/svr_jobfunc.c],
      [job_func.c], [array_func.c] and [queue_func.c] that find, queue, dequeue,
      end, abort and purge a job, set and evaluate its state, and sweep the
      history; the lists of [lib/Libifl/list_link.c].
    - [SubjobProps], [SubjobIds]: the theorems on tables, ranges and ids; [JobInv]:
      the invariant of the world; [JobSteps], [JobQueue] ([JobQueue],
      [JobHistory]): each function keeps it; [JobCounts]: operations, reachable
      worlds and the theorems on them; [JobScenes]: a server with an array job, and
      what goes wrong.
    - [TextFile] ([Text]): [fgets], [strtok] and [sscanf] on the lines of a file.
    - [FairTree] ([Fair]): [scheduler/fairshare.c] and what
      [scheduler/fifo.c] does with the tree: groups and users as nodes of a heap
      that point at each other, the paths from a node to the root, the resource
      group file, the usage file, decay, and the order of users.
    - [FairShape]: trees and the part of the heap that holds one; [FairWf]: the
      nodes met from the root, and what putting a node into the tree does;
      [FairOps]: the invariant of the tree, finding and adding nodes;
      [FairGroups]: preparing the tree and reading the resource group file;
      [FairUsage]: usage, decay and targets, and the usage file as it is written
      ([FairFile]); [FairRead]: as it is read; [FairOrder]: which of two users is
      next; [FairCopy]: copying and freeing a tree; [FairProps]: the theorems, and a
      tree with groups and users, and what goes wrong ([FairScenes]).
    - [TimeData] ([Conf]): the configuration and the policy of times, and calendar
      time as a class; [PrimeTime] ([Prime]): [scheduler/prime.c]; [DedTime] ([Ded]):
      [scheduler/dedtime.c]; [TimeCheck]: the checks of [scheduler/check.c] against
      prime and dedicated time, the shrinking of a job to their boundaries, and the
      times [scheduler/fifo.c] sets at start and in every cycle.
    - [PrimeProps], [HolFile], [DedTime] ([DedProps], [DedFile]), [TimeProps]
      ([TimeProps], [TimeBounds]): the theorems on these; [TimeScenes]: the clock of
      UTC, and what goes wrong.
    - [EventList] ([Events]): the events of [scheduler/simulate.c] as objects of a
      heap: making, finding, adding and deleting them; [EventSim]: the calendar of
      a universe, the next event, performing events, copies.
    - [EventHeap]: the part of the heap that holds a list of events; [EventCal]: the
      invariant of a calendar, adding and deleting keep it; [EventNext]: the next
      event; [EventRun]: the loop of the simulation; [EventMake]: the calendar that
      is made; [EventProps]: the theorems on the simulation; [EventScan]: scans
      against those of [Calendar]; [EventDup]: copies; [EventScenes]: calendars, and
      what goes wrong.
    - [Sorting]: what a sorting routine promises ([Sorter]) and asks of a comparison
      ([Orders]), and the quicksort of [scheduler/sort.c] ([Qsort]); [QsortProps]:
      it keeps the promise.
    - [JobSort]: the comparisons of jobs and reservations and [sort_jobs]
      ([scheduler/sort.c]); [JobOrder]: the order they stand for; [JobSortProps]: the
      theorems, and jobs of a fairshare tree ([JobSortScenes]).
    - [NodeSort]: the comparisons of nodes and of what is made of them
      ([scheduler/sort.c]) and [reorder_nodes] ([scheduler/node_info.c]);
      [NodeOrder]: the theorems, and nodes on two hosts, and what goes wrong
      ([NodeScenes]).
    - [Resources]: lists of resources ([scheduler/server_info.c]), the check of a
      request against one ([scheduler/check.c]) and the most that will be assigned
      before a time ([simulate_resmin] of [scheduler/simulate.c]); [ResourceProps]:
      the theorems.
    - [RunCheck]: [is_ok_to_run] ([scheduler/check.c]), which asks whether a job may
      run now, and the check against all nodes ([scheduler/node_partition.c]);
      [RunCheckProps]: the theorems, and jobs on a small server, and what goes wrong
      ([RunCheckScenes]).
    - [EventCalc]: when a job will run, the simulation with [is_ok_to_run] in its loop
      ([calc_run_time]), and the lists of events of a node ([scheduler/simulate.c],
      [Calc]); the theorem ([CalcProps]), and what goes wrong ([CalcScenes]).
    - [NextJob]: which job a cycle considers next, [next_job] with its static variables
      and its searches ([scheduler/fifo.c], [NextJob]); the order of a cycle
      ([NextJobProps]), and the queues of the picture in its comment, and what goes
      wrong ([NextJobScenes]); the loop of a cycle, [main_sched_loop], the jobs it
      holds back and those it backfills ([MainLoop]; [update_jobs_cant_run] is in
      [scheduler/job_info.c]), the theorems on it ([MainLoopProps]) and cycles with
      answers ([MainLoopScenes]).

    ** How the parts interact

    A limit attribute of the server or of a queue is parsed
    ([EntlimParse.entlim_parse]); for each limit in it [LimitSet.lim_callback]
    stores the text of the value under a key that names the kind of entity, the
    entity and the resource ([Entlim.entlim_mk_keystr]).  A check makes the keys
    of the job's user, group and project, reads the limits back
    ([LimitSet.lim_get], which calls [ResNum.res_to_num]) and compares them with
    the counts of the entity.  The counts are those of the running jobs, or, when
    other jobs will start before the job ends, the largest met in a replay of the
    calendar ([LimitCheck.event_loop]).

    A function of [Client] clears the buffers of its connection, encodes the
    header, the body and the extension of the request ([Client.request]) and
    flushes.  An encoder is a sequence of [Dis] writes, each of which puts a text
    into the stream and commits it; the stream of a connection is
    [Tcp.wsock].  The server reads the type, decodes the body with the decoder
    for it ([Batch.decode_body]) and the extension ([Batch.dis_request_read]),
    from the stream [Tcp.rsock], in which the other end and the kernel are a list
    of events.  Before that it drops what was read ahead, unless the request comes
    over rpp ([Dis.dis_setup]).  The reply goes back the same way ([Reply.encode_DIS_reply],
    [Reply.PBSD_rdrpy]).  Everything above the streams is proved against the
    laws of the stream classes in [Dis], so it holds of texts and of tcp alike.

    The functions of [JobState] take and return a world.  [svr_enquejob] links a
    job into the list of all jobs, the index of ids (any [Index]; in the server
    the tree of [AvlTree]) and its queue, and counts it; [svr_setjobstate] and
    [svr_histjob_update] move the counts from one state to the other; and
    [svr_dequejob] takes it out again.  A subjob tells its array job
    ([update_subjob_state]), whose end ([chk_array_doneness]) goes through the
    history or the purge of the array job, which are functions of the same
    group: the ones in between take the end of an array job as an argument.
    The ranges of [SubjobTable] are written for the parser of the scheduler,
    [Range.range_parse] of [Ranges].

    The functions of [Fair] take and return a heap of nodes.  A node knows its
    parent, its first child, its next sibling and its path to the root, a list
    whose cells are in the heap too.  [preload_tree] makes the root and the group
    of the users nobody listed, [parse_group] adds the groups and users of the
    resource group file, [read_usage] the usage of the last run;
    [find_alloc_ginfo] adds users as jobs of theirs come up;
    [update_usage_on_run] charges the path of the user, [decay_fairshare_tree]
    multiplies all usage by the factor of the configuration, and [compare_path]
    compares two users from the root down.

    [TimeCheck.schedinit] reads the holidays and the dedicated times into the
    configuration; [update_cycle_status] drops a dedicated time that has passed,
    changes the policy when prime time begins or ends, and notes when it ends.  The
    checks of a queue or a job read the policy and the dedicated times; a job that
    crosses a boundary is shrunk to it.

    A calendar is a list of events in the heap, in the order of their times, and
    the one that is next.  [next_event] makes an event of the policy on the fly when
    the end of prime time comes first; performing it changes the policy with
    [init_prime_time] and [init_non_prime_time] of [Prime].  What the end or the run
    of a job does to nodes and queues is an action in a list; whether a job can be
    run is any function of the actions before ([run_ok]).

    Where the code calls [qsort], the model has any routine that is a [Sorter]; the
    theorems on jobs and nodes need no more, and [Qsort.sort] is one.  A
    comparison that orders on the elements with a property is built of simple
    orders one after the other ([Sorting.lexi]); [cmp_sort] reads the fairshare tree
    with [compare_path] and the state of a job with [in_runnable_state].

    [RunCheck.is_ok_to_run] is where the parts of the scheduler meet.  It asks for the
    state of the job ([EventSim.in_runnable_state]), the limits
    ([LimitCheck.check_limits]), prime and dedicated time ([TimeCheck]), licenses,
    and what the job requests of its queue and of the server
    ([Resources.check_avail_resources]).  Other jobs may start or end before the job
    does, so the last two look at what is the most assigned at any event of the
    calendar up to its end ([Resources.simulate_resmin]).  Each check is a function of
    the error it fills in; a job is sent to the search of nodes, any function
    here, when they all pass.  [Calc.calc_run_time] asks it about a job again after
    every event the simulation performs until it says yes.

    [NextJob.next_job] has the jobs sorted by [JobSort.sort_jobs] and then goes along
    the arrays; queues, their lists by priority and the queues of reservations share
    the arrays, so a queue is its index in the server.  What a cycle does to a job it
    has considered is a mark that no search returns it again.
    [MainLoop.main_sched_loop] takes jobs until there is none; what it calls to run a job,
    to preempt others or to add it to the calendar is a record of functions of the jobs
    and the rest of the world ([MainLoop.calls]).

    ** Conventions

    A linked list is a list, NULL the empty one; a function that finds or adds
    an element returns the list and the position.  A pointer that may be NULL is
    an option.  A pointer that is only compared is an address in the record.
    In the server a pointer to a job or a queue is a key of a heap, a list is the
    list of its keys, and freeing a job takes it from the heap: using it after
    that is a crash.  The members of a union are separate fields.  A function of
    the server that is not modelled is recorded as a [Job.call], and where its
    result is used it is [answer] of the calls so far, any function.
    The result [None] is a crash, in the protocol also an access outside an
    array and the use of a variable that was never set, or, for a loop with fuel, not enough fuel; the
    theorems give results, so they exclude both.  The conversion of a [double]
    out of the range of [int] is the smallest [int], as on the processors the
    program runs on.  Allocation always succeeds; log messages and deallocation
    are not modelled, except where the memory released is the point
    ([Entlim.entlim_replace], [Entlim.entlim_free_ctx]).

    ** Theorems

    - Safety of the checks: [LimitProps.limits_hold_while_running] and
      [limits_hold_now]: a job let through has room under every hard run limit of
      at least one on its user, group, project and on all jobs, of a server and a
      queue with hard limits, now and after every event of the calendar before its
      end.  They rest on [LimitPeak.replay_covers], an invariant of the replay, and
      hold when the counts are within the range of [int].  When another job starts
      before the end, some job has to have run in the server and the queue: without
      overall counts no limit is checked ([LimitPeak.run_event_skips_limits]).
    - Meaning of the checks: [run_limit_text], [entity_run_spec],
      [entity_res_spec], [soft_limits_spec]; [return_all_errors] relates the two
      ways [check_limits] reports failures; [calendar_counts_some] says when
      limits are checked at all.
    - May a job run: a request fits as often as the scarcest resource allows, and
      the errors name those that do not ([ResourceProps.check_avail_resources_spec]);
      a job [is_ok_to_run] accepts finds what it asks of its queue and of the server
      now and after every event of the calendar before its end
      ([RunCheckProps.accepted_resources_hold]); the answer is that of the first check
      that fails, or of the search of nodes ([is_ok_to_run_answers]), and with
      [RETURN_ALL_ERR] the errors are those of every check that fails
      ([is_ok_to_run_collects]).  Amounts are whole numbers below 2^53 there.
      [RunCheckScenes] holds what goes wrong.
    - Counts: what running and ending a job does to counts and totals, and what
      the maximum of two lists is.
    - Limits as text and as keys: round trips of keys and of the text form,
      distinctness of keys, what setting, replacing, copying and freeing do.
    - Index: adding to and deleting from the tree keep it in order and in
      balance ([AvlIndex.add_key_spec], [delete_key_spec]), its height is
      logarithmic ([reachable_height]), iteration meets every record
      ([iteration_spec]), and no client of the interface can tell it from an
      association list ([Refinement.tree_refines_list]); so what is proved of
      the limit store over any index holds of the store on the tree.
    - Amounts: [res_to_num] on numbers with units and on times.
    - Ranges and bitmaps: sets of integers against their operations.
    - The protocol: what is written is what is read, for numbers and strings
      ([DisProps.dis_roundtrip]), requests ([ClientProps.request_roundtrip]) and
      replies ([ReplyProps.reply_roundtrip]); a client's function puts the whole
      request on the wire unless a write fails, and the server gets it however it
      is cut ([ClientProps.request_arrives], with a condition on
      [PBSD_modify_resv]); most reads of a number or a string end
      inside their memory and leave the stream alone when they fail
      ([DisSafe.read_or_reset] names them); the text of a number fits its buffer
      ([DisProps.text_fits]).  [BatchLimits] and the ends of [TcpProps],
      [DisSafe] and [ReplyProps] hold what goes wrong.
    - The jobs of the server: an operation returns from a world that satisfies
      the invariant and has what it needs, and keeps the invariant
      ([JobCounts.operations_return]), so in every
      reachable world the counts of the server and its queues are exact and the
      queues are in order ([JobCounts.reachable_counts]); [find_job] finds the
      job with an id ([JobCounts.find_job_finds]); an array job ends when all its
      subjobs are expired and not while one is queued, running or exiting
      ([JobCounts.array_ends]); the state a job evaluates to
      ([JobQueue.evaljobstate_spec]).  [JobCounts.guard] says what an operation
      needs; a subjob needs its array job, which the sweep of the history does
      not see to.  [JobScenes] holds that and what else goes wrong.
    - Array jobs: the table a range makes ([SubjobIds.submitted_range_makes_table]),
      its counts ([SubjobProps.subjob_state_counts]), the remaining indices as
      the scheduler and another server read them ([remaining_read],
      [moved_array_restored]), and the ids of subjobs
      ([SubjobIds.subjob_id_roundtrip]).  Indices have at most six digits and
      steps four where a text has to fit the buffer of [cvt_range]
      ([SubjobProps.narrow]).
    - Fairshare: every sequence of operations on the tree runs, and the pointers
      of the heap form a tree with the right paths after each
      ([FairProps.fairshare_runs]); the usage file restores the usage it was
      written from ([usage_roundtrip]); [compare_path] prefers the user whose
      branch has used less of its share ([compare_path_order]); a cycle decays the tree once for every whole
      decay time since the last decay, unless the time since is a multiple of it
      ([decay_cycle_spec]); a copy is equal to and apart
      from its original, and freeing it frees exactly its cells
      ([copy_and_free]).  [FairScenes] holds what goes wrong.
    - Times: the dedicated times of the file hold in every cycle
      ([TimeProps.dedicated_times_kept]); what the holidays file says is what is
      read ([HolFile.holidays_file_read]); [end_prime_status] returns, on regular
      weeks the right time ([PrimeProps.end_prime_status_returns],
      [end_prime_status_right]); a job passes the check of dedicated time when it
      stays on one side of it ([TimeBounds.ded_boundary_constant]), and a job shrunk
      to the boundaries passes the checks ([boundary_duration_passes]).
      [TimeScenes] holds what goes wrong.
    - The calendar: what is made of jobs, nodes and dedicated times is a calendar
      ([EventMake.create_event_list_makes]), adding an event keeps it and deleting
      undoes that ([EventProps.add_event_keeps], [add_delete_restores]); a simulation
      up to a time ends and performs the events up to it ([simulate_performs]),
      and leaves the right status of prime time ([simulate_prime_right]); the scans
      of the heap are those of the list ([EventScan.scans_refine]) and tell whether a
      job or a reservation starts by a time ([scans_tell]); a copy has the
      same events ([EventDup.dup_event_list_copies]).  [EventScenes] holds what goes
      wrong, and [EventProps.simulate_never_ends] when a simulation does not end.
    - Sorting: the quicksort ends, stays in its array and sorts
      ([QsortProps.qsort_sorts]); [cmp_sort] is an order
      ([JobSortProps.cmp_sort_orders]), [sort_jobs] sorts what each policy
      asks for, the queues, the server's jobs or both ([sort_jobs_sorts]), and the result does not depend on the routine
      ([any_sort_same]).  The values of the jobs must be numbers and their fairshare
      groups at one depth of the tree.  [NodeOrder.reorder_nodes_spec]: every node
      once, and where a round robin begins.
    - When a job will run: the time [calc_run_time] gives is one that [is_ok_to_run]
      accepts, and before it the job is refused for every event that frees resources,
      with the fuzziness of backfill ([CalcProps.calc_run_time_first]).  [CalcScenes] holds what goes wrong.
    - The order of a cycle: while nothing is sorted again the calls of [next_job]
      return the jobs of the running reservations and then those of the policy in its
      order, [NULL] last ([NextJobProps.next_job_order]); a cycle ends and considers
      every eligible job once ([cycle_considers_once]).  The arrays end with [NULL],
      a job is in one queue, and by queue the express, preempted and starving jobs are
      in front, as the comment of [find_non_normal_job_ind] assumes.  [NextJobScenes]
      shows what happens with fairshare, where they are not.
    - The loop of a cycle: under a strict order without backfilling nothing is considered
      after a job that was not run ([MainLoopProps.strict_order_holds]); without
      preemption no job is considered twice, though jobs are run and sorted in between
      ([loop_considers_once]).  The calls keep an invariant ([CycleInv]: every job held
      anywhere is in the server's array) and marks ([RunMarks]).

    ** Fuel

    [LimitCheck.event_loop] gets one more than the number of events and drops
    one in each round ([LimitPeak.event_loop_fuel]: more changes nothing);
    [EntlimParse.parse_loop] gets one more than the length of the text;
    [Entlim.entlim_free_ctx] and [LimitSet.lim_dup_ctx] take their fuel as an
    argument and their theorems ask for more than the number of records;
    [Bitmap.alloc_fuel] is computed from the sizes; [Tcp.tcp_gets] gets one more
    than what may still come; [Dis.disr_] has the limit of the code for its
    recursion; [Batch.read_carray] takes its fuel from [dis_request_read], and
    [Calls.call_fuel] says how much a request needs.  [Range.range_intersection]
    takes its fuel as an argument: the loop does not end on every input.
    [State.chk_array_doneness] calls itself through the end of a job, but the end
    of an array job that is no subjob has no parent to tell: one level is enough
    ([JobSteps.chk_array_doneness_step]) and [State.DONE_DEPTH] is two;
    [State.clean_loop] gets one more than the number of jobs
    ([JobHistory.clean_loop_step]); [Subjobs.queue_sections] one more than the
    length of the text, [Subjobs.cvt_loop] one more than the entries of the table.
    The recursions and loops of [Fair] over the tree get one more than the number
    of cells of the heap, which is more than the nodes of any tree in it.
    [Prime.end_prime_status] gets one more than the seconds of a week: each level
    moves on by a second at least.  The loops over the lines of a file get one more
    than its characters.  A loop over the events of a list gets one more than the
    cells of the heap; [simulate_events] takes its fuel as an argument, and a
    simulation up to a time needs one more than the events and the seconds up to it.
    [Resources.resmin_loop] gets one more than the events of the calendar.
    [Calc.calc_run_time] takes its fuel as an argument, as the simulation it makes does.
    [NextJob.rr_while] gets one more than two for each priority: a priority is gone
    over at most twice, from the queue that is next and then from the first;
    [NextJob.bq_while] gets one more than the queues.  [MainLoop.main_sched_loop] gives the
    first jobs of a cycle, as many as its argument says.
    The loops of [Qsort] get one more than what is left of the array, its recursion
    one more than the elements.

    ** Not modelled

    Of the scheduler: the search of nodes and placement sets for a job, querying the
    server and running jobs, preemption, and node buckets.  These change several linked structures at once and
    query the server in between; here they are parameters.  The execution daemon, the commands, the hooks, TPP and
    the database are processes, sockets, an interpreter and statements of SQL,
    and are left aside.  Of the protocol:
    floating point numbers, streams over TPP, the requests that only a server
    sends to an execution daemon, locks and time limits, the verification of
    attributes, and the lists of status made of a reply.  Of the server: the
    handlers of requests, the database, nodes, reservations, entity limits,
    accounting and dependencies, which are calls that are recorded; creating a
    subjob, which copies attributes through the generated table of their
    definitions; the time between two sweeps of the history. *)

From Stdlib Require Import ZArith Lia Ascii String.
From stdpp Require Export base list strings sets.

#[global] Open Scope Z_scope.

(** ** Machine integers

    A C integer is a [Z]; an operation that can leave the range of its type is
    followed by the wrap of that type (two's complement). *)

Definition wrap_s (w z : Z) : Z := (z + 2 ^ (w - 1)) mod 2 ^ w - 2 ^ (w - 1).

Definition int32 (z : Z) : Z := wrap_s 32 z.
Definition int64 (z : Z) : Z := wrap_s 64 z.
Definition uint32 (z : Z) : Z := z mod 2 ^ 32.
Definition uint64 (z : Z) : Z := z mod 2 ^ 64.

Definition INT_MAX : Z := 2147483647.
Definition INT_MIN : Z := -2147483648.
Definition UINT_MAX : Z := 4294967295.
Definition LONG_MAX : Z := 9223372036854775807.
Definition LONG_MIN : Z := -9223372036854775808.
Definition ULONG_MAX : Z := 18446744073709551615.

Definition in_int (z : Z) : Prop := INT_MIN <= z <= INT_MAX.

Lemma int32_id (z : Z) : in_int z -> int32 z = z.
Proof.
  unfold in_int, int32, wrap_s, INT_MIN, INT_MAX. intros Hz.
  change (2 ^ (32 - 1)) with 2147483648. change (2 ^ 32) with 4294967296.
  rewrite Z.mod_small; lia.
Qed.

Lemma int64_id (z : Z) : LONG_MIN <= z <= LONG_MAX -> int64 z = z.
Proof.
  unfold int64, wrap_s, LONG_MIN, LONG_MAX. intros Hz.
  change (2 ^ (64 - 1)) with 9223372036854775808.
  change (2 ^ 64) with 18446744073709551616.
  rewrite Z.mod_small; lia.
Qed.

Lemma int32_range (z : Z) : in_int (int32 z).
Proof.
  unfold in_int, int32, wrap_s, INT_MIN, INT_MAX.
  change (2 ^ (32 - 1)) with 2147483648. change (2 ^ 32) with 4294967296.
  pose proof (Z.mod_pos_bound (z + 2147483648) 4294967296 ltac:(lia)). lia.
Qed.

Lemma uint32_id (z : Z) : 0 <= z <= UINT_MAX -> uint32 z = z.
Proof. unfold uint32, UINT_MAX. intros. apply Z.mod_small. lia. Qed.

Lemma uint64_id (z : Z) : 0 <= z <= ULONG_MAX -> uint64 z = z.
Proof. unfold uint64, ULONG_MAX. intros. apply Z.mod_small. lia. Qed.

(** ** Characters and C strings

    A [char *] is the list of the characters before the terminating NUL; a
    pointer into the text is the suffix that starts there, and reading the
    character at the pointer gives NUL at the end. *)

Abbreviation cstring := (list ascii).

Definition lit (s : string) : cstring := list_ascii_of_string s.

Definition code (c : ascii) : Z := Z.of_N (N_of_ascii c).
Definition chr (z : Z) : ascii := ascii_of_N (Z.to_N z).

Definition NUL : ascii := zero.

(** [*pc] *)
Definition deref (s : cstring) : ascii :=
  match s with [] => NUL | c :: _ => c end.

Definition is_char (a b : ascii) : bool := bool_decide (a = b).

(** [isspace] and [isdigit] of the C locale *)
Definition isspace (c : ascii) : bool :=
  (code c =? 32) || ((9 <=? code c) && (code c <=? 13)).
Definition isdigit (c : ascii) : bool := (48 <=? code c) && (code c <=? 57).

(** [tolower] of the C locale *)
Definition tolower (c : ascii) : ascii :=
  if (65 <=? code c) && (code c <=? 90) then chr (code c + 32) else c.

(** [!strcmp(a, b)] and [!strcasecmp(a, b)] *)
Definition streq (a b : cstring) : bool := bool_decide (a = b).
Definition strcaseeq (a b : cstring) : bool := bool_decide (map tolower a = map tolower b).

Fixpoint skip_space (s : cstring) : cstring :=
  match s with
  | c :: s' => if isspace c then skip_space s' else s
  | [] => []
  end.

Lemma is_char_refl (c : ascii) : is_char c c = true.
Proof. by apply bool_decide_eq_true. Qed.

Lemma code_range (c : ascii) : 0 <= code c <= 255.
Proof.
  unfold code. pose proof (N_ascii_bounded c). lia.
Qed.

Lemma code_chr (z : Z) : 0 <= z <= 255 -> code (chr z) = z.
Proof.
  intros Hz. unfold code, chr. rewrite N_ascii_embedding; lia.
Qed.

Lemma chr_code (c : ascii) : chr (code c) = c.
Proof. unfold chr, code. rewrite N2Z.id. apply ascii_N_embedding. Qed.

(** ** Decimal text *)

Definition digit_char (d : Z) : ascii := chr (d + 48).
Definition digit_val (c : ascii) : Z := code c - 48.

Lemma digit_val_char (d : Z) : 0 <= d <= 9 -> digit_val (digit_char d) = d.
Proof. intros. unfold digit_val, digit_char. rewrite code_chr; lia. Qed.

Lemma isdigit_digit_char (d : Z) : 0 <= d <= 9 -> isdigit (digit_char d) = true.
Proof. intros. unfold isdigit, digit_char. rewrite code_chr; lia. Qed.

(** The digits are produced from the last to the first, in front of the text
    already built: [while (v > 9) { *--cp = v % 10 + '0'; v /= 10; }
    *--cp = v + '0';]. *)
Fixpoint dec_loop (fuel : nat) (v : Z) (cp : cstring) : cstring :=
  match fuel with
  | O => cp
  | S fuel' =>
      if v >? 9 then dec_loop fuel' (v / 10) (digit_char (v mod 10) :: cp)
      else digit_char v :: cp
  end.

Definition dec_fuel (v : Z) : nat := S (Z.to_nat (Z.log2 v)).

Definition dec_nat (v : Z) : cstring := dec_loop (dec_fuel v) v [].

(** [sprintf("%d")] *)
Definition dec_int (v : Z) : cstring :=
  if v <? 0 then "-"%char :: dec_nat (- v) else dec_nat v.

(** The value of a run of digits, most significant first. *)
Definition digits_val (acc : Z) (s : cstring) : Z :=
  fold_left (fun a c => 10 * a + digit_val c) s acc.

Fixpoint span_digits (s : cstring) : cstring * cstring :=
  match s with
  | c :: s' =>
      if isdigit c then let '(d, r) := span_digits s' in (c :: d, r) else ([], s)
  | [] => ([], [])
  end.

(** [strtol(s, &endp, 10)] *)
Definition strtol10 (s : cstring) : Z * cstring :=
  let s1 := skip_space s in
  let '(neg, s2) :=
    match s1 with
    | c :: r => if is_char c "-"%char then (true, r)
                else if is_char c "+"%char then (false, r) else (false, s1)
    | [] => (false, [])
    end in
  match span_digits s2 with
  | ([], _) => (0, s)
  | (ds, r) =>
      let v := digits_val 0 ds in
      (if neg then Z.max LONG_MIN (- v) else Z.min LONG_MAX v, r)
  end.

Definition all_digits (s : cstring) : Prop := Forall (fun c => isdigit c = true) s.

Lemma digits_val_app (acc : Z) (s t : cstring) :
  digits_val acc (s ++ t) = digits_val (digits_val acc s) t.
Proof. apply fold_left_app. Qed.

Lemma digits_val_shift (s : cstring) (acc : Z) :
  digits_val acc s = acc * 10 ^ Z.of_nat (length s) + digits_val 0 s.
Proof.
  revert acc; induction s as [|c s IH]; intros acc.
  - cbn. lia.
  - cbn [digits_val fold_left length].
    fold (digits_val (10 * acc + digit_val c) s).
    change (fold_left (fun a c0 => 10 * a + digit_val c0) s (10 * 0 + digit_val c))
      with (digits_val (10 * 0 + digit_val c) s).
    rewrite (IH (10 * acc + digit_val c)), (IH (10 * 0 + digit_val c)).
    rewrite Nat2Z.inj_succ, Z.pow_succ_r by lia. ring.
Qed.

Lemma isdigit_val (c : ascii) : isdigit c = true -> 0 <= digit_val c <= 9.
Proof. unfold isdigit, digit_val. lia. Qed.

Lemma digits_val_bound (s : cstring) :
  all_digits s -> 0 <= digits_val 0 s < 10 ^ Z.of_nat (length s).
Proof.
  induction 1 as [|c s Hc Hs IH]; [cbn; lia|].
  apply isdigit_val in Hc.
  cbn [digits_val fold_left length].
  change (fold_left (fun a c0 => 10 * a + digit_val c0) s (10 * 0 + digit_val c))
    with (digits_val (10 * 0 + digit_val c) s).
  rewrite digits_val_shift, Nat2Z.inj_succ, Z.pow_succ_r by lia.
  generalize dependent (10 ^ Z.of_nat (length s)). intros P IH.
  assert (0 <= digit_val c * P <= 9 * P) by (split; nia).
  replace (10 * 0 + digit_val c) with (digit_val c) by lia. lia.
Qed.

Lemma dec_loop_S (fuel : nat) (v : Z) (cp : cstring) :
  dec_loop (S fuel) v cp
  = if v >? 9 then dec_loop fuel (v / 10) (digit_char (v mod 10) :: cp)
    else digit_char v :: cp.
Proof. done. Qed.

(** The text of a number is a run of digits, not empty, whose value is the
    number. *)
Lemma dec_loop_spec (fuel : nat) : forall (v : Z) (cp : cstring),
  0 <= v -> v < 2 ^ Z.of_nat (S fuel) ->
  exists ds, dec_loop (S fuel) v cp = ds ++ cp /\ all_digits ds /\ ds <> []
             /\ digits_val 0 ds = v.
Proof.
  induction fuel as [|fuel IH]; intros v cp Hv Hf;
    rewrite dec_loop_S; destruct (Z.gtb_spec v 9) as [Hg|Hg].
  2, 4: exists [digit_char v]; split_and!; [done| |done|];
    [repeat constructor; apply isdigit_digit_char; lia
    |cbn; rewrite digit_val_char; lia].
  - change (2 ^ Z.of_nat 1) with 2 in Hf. lia.
  - assert (v / 10 < 2 ^ Z.of_nat (S fuel)) as Hd.
    { rewrite (Nat2Z.inj_succ (S fuel)), Z.pow_succ_r in Hf by lia.
      apply Z.div_lt_upper_bound; lia. }
    destruct (IH (v / 10) (digit_char (v mod 10) :: cp)
                ltac:(apply Z.div_pos; lia) Hd) as (ds & -> & Hall & Hne & Hval).
    pose proof (Z.mod_pos_bound v 10 ltac:(lia)).
    exists (ds ++ [digit_char (v mod 10)]). split_and!.
    + by rewrite <-app_assoc.
    + apply Forall_app. split; [done|].
      constructor; [apply isdigit_digit_char; lia|constructor].
    + by destruct ds.
    + rewrite digits_val_app, Hval. cbn. rewrite digit_val_char by lia.
      pose proof (Z.div_mod v 10 ltac:(lia)). lia.
Qed.

Lemma dec_nat_spec (v : Z) :
  0 <= v ->
  all_digits (dec_nat v) /\ dec_nat v <> [] /\ digits_val 0 (dec_nat v) = v.
Proof.
  intros Hv. unfold dec_nat, dec_fuel.
  assert (v < 2 ^ Z.of_nat (S (Z.to_nat (Z.log2 v)))) as Hb.
  { rewrite Nat2Z.inj_succ, Z2Nat.id by apply Z.log2_nonneg.
    destruct (decide (v = 0)) as [->|]; [cbn; lia|].
    apply Z.log2_spec. lia. }
  destruct (dec_loop_spec _ v [] Hv Hb) as (ds & -> & ? & ? & ?).
  rewrite app_nil_r. done.
Qed.

Lemma dec_loop_app (fuel : nat) : forall v cp, dec_loop fuel v cp = match fuel with O => cp | _ => dec_loop fuel v [] ++ cp end.
Proof.
  induction fuel as [|fuel IH]; intros v cp; [done|]. rewrite !dec_loop_S.
  destruct (v >? 9); [|done]. rewrite (IH _ (_ :: cp)), (IH _ [_]).
  destruct fuel; [done|]. by rewrite <-app_assoc.
Qed.

(** The number of digits *)
Lemma dec_loop_length (fuel : nat) : forall v (n : nat),
  0 <= v < 10 ^ Z.of_nat n -> (0 < n)%nat -> (length (dec_loop fuel v []) <= n)%nat.
Proof.
  induction fuel as [|fuel IH]; intros v n Hv Hn; [cbn; lia|]. rewrite dec_loop_S.
  destruct (Z.gtb_spec v 9) as [Hg|Hg]; [|cbn; lia].
  destruct n as [|n]; [lia|]. destruct n as [|n]; [change (10 ^ Z.of_nat 1) with 10 in Hv; lia|].
  rewrite dec_loop_app. destruct fuel; [cbn; lia|].
  rewrite length_app. cbn [length].
  rewrite (Nat2Z.inj_succ (S n)), Z.pow_succ_r in Hv by lia.
  assert (0 <= v / 10 < 10 ^ Z.of_nat (S n)) as Hd.
  { split; [apply Z.div_pos; lia|apply Z.div_lt_upper_bound; lia]. }
  specialize (IH (v / 10) (S n) Hd ltac:(lia)). lia.
Qed.

Lemma dec_nat_length (v : Z) (n : nat) :
  0 <= v < 10 ^ Z.of_nat n -> (0 < n)%nat -> (0 < length (dec_nat v) <= n)%nat.
Proof.
  intros Hv Hn. split; [|by apply dec_loop_length].
  destruct (dec_nat_spec v ltac:(lia)) as (_ & Hne & _). destruct (dec_nat v); [done|cbn; lia].
Qed.

Lemma span_digits_app (ds s : cstring) :
  all_digits ds -> isdigit (deref s) = false -> span_digits (ds ++ s) = (ds, s).
Proof.
  induction 1 as [|c ds Hc _ IH]; intros Hs; cbn.
  - destruct s as [|c s]; [done|]. cbn in Hs. cbn. by rewrite Hs.
  - by rewrite Hc, IH.
Qed.

Lemma isdigit_not_space (c : ascii) : isdigit c = true -> isspace c = false.
Proof. unfold isdigit, isspace. lia. Qed.

Lemma isdigit_not_char (c d : ascii) :
  isdigit c = true -> isdigit d = false -> is_char c d = false.
Proof. intros Hc Hd. apply bool_decide_eq_false. congruence. Qed.

(** [strtol] reads back the text of a number that stands before a character
    that is not a digit. *)
Lemma strtol10_dec_nat (v : Z) (s : cstring) :
  0 <= v <= LONG_MAX -> isdigit (deref s) = false ->
  strtol10 (dec_nat v ++ s) = (v, s).
Proof.
  intros Hv Hs. destruct (dec_nat_spec v ltac:(lia)) as (Hall & Hne & Hval).
  destruct (dec_nat v) as [|c ds] eqn:E; [done|].
  pose proof (Forall_inv Hall) as Hc; cbn in Hc.
  unfold strtol10. cbn [app skip_space]. rewrite isdigit_not_space by done.
  rewrite !isdigit_not_char by done.
  change (c :: ds ++ s) with ((c :: ds) ++ s).
  rewrite span_digits_app by done. rewrite Hval. f_equal. lia.
Qed.

(** ** Arrays

    [a[i]] and [a[i] = v]; [None] is an access outside the array. *)

Definition rd {A : Type} (a : list A) (i : Z) : option A :=
  if i <? 0 then None else a !! Z.to_nat i.
Definition wr {A : Type} (a : list A) (i : Z) (v : A) : option (list A) :=
  if (0 <=? i) && (i <? Z.of_nat (length a)) then Some (<[Z.to_nat i := v]> a) else None.

Lemma rd_in {A : Type} (a : list A) (i : Z) :
  0 <= i < Z.of_nat (length a) -> exists w, rd a i = Some w /\ a !! Z.to_nat i = Some w.
Proof.
  intros Hi. unfold rd. rewrite (proj2 (Z.ltb_ge i 0)) by lia.
  destruct (lookup_lt_is_Some_2 a (Z.to_nat i) ltac:(lia)) as [w ->]. eauto.
Qed.

Lemma wr_in {A : Type} (a : list A) (i : Z) (v : A) :
  0 <= i < Z.of_nat (length a) -> wr a i v = Some (<[Z.to_nat i := v]> a).
Proof.
  intros Hi. unfold wr. by rewrite (proj2 (Z.leb_le 0 i)), (proj2 (Z.ltb_lt i _)) by lia.
Qed.

(** ** Functions with a state

    A function of the program on a state [S] is an [M S A]: [None] is an access
    outside an object or the use of a variable that has no value. *)

Definition M (S A : Type) : Type := S -> option (A * S).

Definition ret {S A : Type} (a : A) : M S A := fun s => Some (a, s).
Definition bind {S A B : Type} (m : M S A) (f : A -> M S B) : M S B :=
  fun s => match m s with Some (a, s) => f a s | None => None end.
Definition crash {S A : Type} : M S A := fun _ => None.

Declare Scope mon_scope.
Delimit Scope mon_scope with mon.
Notation "'let*' x ':=' m 'in' k" := (bind m (fun x => k))
  (at level 10, x pattern, m at level 200, k at level 200) : mon_scope.
#[global] Open Scope mon_scope.

Lemma bind_eq {S A B : Type} (m : M S A) (f : A -> M S B) (s s' : S) (a : A) :
  m s = Some (a, s') -> bind m f s = f a s'.
Proof. unfold bind. by intros ->. Qed.

Lemma bind_ret {S A B : Type} (a : A) (f : A -> M S B) (s : S) : bind (ret a) f s = f a s.
Proof. done. Qed.

Lemma bind_bind {S A B C : Type} (m : M S A) (f : A -> M S B) (g : B -> M S C) (s : S) :
  bind (bind m f) g s = bind m (fun a => bind (f a) g) s.
Proof. unfold bind. by destruct (m s) as [[a s']|]. Qed.

Lemma bind_inv {S A B : Type} (m : M S A) (f : A -> M S B) (s s' : S) (b : B) :
  bind m f s = Some (b, s') -> exists a s1, m s = Some (a, s1) /\ f a s1 = Some (b, s').
Proof. unfold bind. destruct (m s) as [[a s1]|]; [eauto|done]. Qed.

(** [msimp] runs the steps whose outcome is known. *)
Ltac msimp := repeat (cbn beta iota; first [rewrite bind_ret | rewrite bind_bind]); cbn beta iota.
Ltac mstep H := erewrite bind_eq by exact H; msimp.

(** ** Automation

    [simp_bool] turns the boolean tests of the C conditions into arithmetic and
    equalities; [case_if] splits the first conditional of the goal. *)

Ltac simp_bool :=
  repeat match goal with
  | H : (_ && _)%bool = true |- _ => apply andb_true_iff in H as [? ?]
  | H : (_ || _)%bool = false |- _ => apply orb_false_iff in H as [? ?]
  | H : negb _ = true |- _ => apply negb_true_iff in H
  | H : negb _ = false |- _ => apply negb_false_iff in H
  | H : bool_decide _ = true |- _ => apply bool_decide_eq_true in H
  | H : bool_decide _ = false |- _ => apply bool_decide_eq_false in H
  | H : (_ =? _) = true |- _ => apply Z.eqb_eq in H
  | H : (_ =? _) = false |- _ => apply Z.eqb_neq in H
  | H : (_ <=? _) = true |- _ => apply Z.leb_le in H
  | H : (_ <=? _) = false |- _ => apply Z.leb_gt in H
  | H : (_ <? _) = true |- _ => apply Z.ltb_lt in H
  | H : (_ <? _) = false |- _ => apply Z.ltb_ge in H
  | H : (_ >? _) = _ |- _ => rewrite Z.gtb_ltb in H
  | H : (_ >=? _) = _ |- _ => rewrite Z.geb_leb in H
  end.

Ltac case_if :=
  match goal with
  | |- context [if ?b then _ else _] =>
      lazymatch b with
      | context [if _ then _ else _] => fail
      | _ => let E := fresh "E" in destruct b eqn:E
      end
  end; simp_bool.

Create HintDb pbs.
Create Rewrite HintDb pbs_text.
Create Rewrite HintDb pbs_dbl.
#[export] Hint Resolve code_range int32_range : pbs.
#[export] Hint Rewrite digit_val_char isdigit_digit_char using lia : pbs_text.
