(* ===== verification/Ranges.v ===== *)
(** * Ranges of integers: [src/scheduler/range.c]

    A [range *] is the list of the records reached through [next]; NULL is the
    empty list.  Allocation is taken to succeed. *)

From Stdlib Require Import ZArith Lia Ascii String.
From S2P Require Import Prelude.

Module Range.

(** ** Data *)

Record range := Range { r_start : Z; r_end : Z; r_step : Z; r_count : Z }.

Inductive range_step_type := DISABLE_SUBRANGE_STEPPING | ENABLE_SUBRANGE_STEPPING.

Definition new_range : range :=
  {| r_start := 0; r_end := 0; r_step := 1; r_count := 0 |}.

Definition set_start (r : range) (v : Z) : range :=
  {| r_start := v; r_end := r_end r; r_step := r_step r; r_count := r_count r |}.
Definition set_end (r : range) (v : Z) : range :=
  {| r_start := r_start r; r_end := v; r_step := r_step r; r_count := r_count r |}.
Definition set_step (r : range) (v : Z) : range :=
  {| r_start := r_start r; r_end := r_end r; r_step := v; r_count := r_count r |}.
Definition set_count (r : range) (v : Z) : range :=
  {| r_start := r_start r; r_end := r_end r; r_step := r_step r; r_count := v |}.

(** ** Operations *)

Definition dup_range (old_r : range) : range :=
  let new_r := new_range in
  let new_r := set_start new_r (r_start old_r) in
  let new_r := set_end new_r (r_end old_r) in
  let new_r := set_step new_r (r_step old_r) in
  set_count new_r (r_count old_r).

Fixpoint dup_range_list (old_r : list range) : list range :=
  match old_r with
  | [] => []
  | cur_old_r :: next => dup_range cur_old_r :: dup_range_list next
  end.

Definition range_contains_single (r : range) (val : Z) : bool :=
  if (r_start r <=? val) && (val <=? r_end r)
  then Z.rem (int32 (val - r_start r)) (r_step r) =? 0
  else false.

Fixpoint range_contains (r : list range) (val : Z) : bool :=
  match r with
  | [] => false
  | cur :: next => if range_contains_single cur val then true else range_contains next val
  end.

(** The loop of [range_next_value]; [ret_val] starts at -2. *)
Fixpoint next_value_loop (cur : list range) (cur_value ret_val : Z) : Z :=
  match cur with
  | [] => ret_val
  | c :: next =>
      if ret_val <? 0 then
        let ret_val :=
          if range_contains_single c cur_value then
            if cur_value =? r_end c then
              match next with
              | n :: _ => r_start n
              | [] => ret_val
              end
            else int32 (cur_value + r_step c)
          else ret_val in
        next_value_loop next cur_value ret_val
      else ret_val
  end.

Definition range_next_value (r : list range) (cur_value : Z) : Z :=
  match r with
  | [] => -1
  | hd :: _ =>
      if cur_value <? 0 then r_start hd
      else if negb (range_contains r cur_value) then -1
      else next_value_loop r cur_value (-2)
  end.

(** The loop of [range_remove_value] with the unlinking that follows it: [None]
    when no section starts or ends with the value. *)
Fixpoint remove_loop (cur : list range) (val : Z) : option (list range) :=
  match cur with
  | [] => None
  | c :: next =>
      let unlink (c' : range) :=
        if r_start c' >? r_end c' then next else c' :: next in
      if r_start c =? val then
        Some (unlink (set_count (set_start c (int32 (r_start c + r_step c)))
                                (int32 (r_count c - 1))))
      else if r_end c =? val then
        Some (unlink (set_count (set_end c (int32 (r_end c - r_step c)))
                                (int32 (r_count c - 1))))
      else option_map (cons c) (remove_loop next val)
  end.

Definition range_remove_value (r : list range) (val : Z) : Z * list range :=
  match r with
  | [] => (0, r)
  | _ =>
      if negb (range_contains r val) then (0, r)
      else match remove_loop r val with
           | Some r' => (1, r')
           | None => (0, r)
           end
  end.

(** The loop of [range_add_value]: the first section that can take the value. *)
Fixpoint add_loop (cur : list range) (val : Z) : option (list range) :=
  match cur with
  | [] => None
  | c :: next =>
      if r_count c =? 0 then
        Some (set_count (set_end (set_start c val) val) (int32 (r_count c + 1)) :: next)
      else if val =? int32 (r_start c - r_step c) then
        Some (set_count (set_start c val) (int32 (r_count c + 1)) :: next)
      else if val =? int32 (r_end c + r_step c) then
        Some (set_count (set_end c val) (int32 (r_count c + 1)) :: next)
      else option_map (cons c) (add_loop next val)
  end.

(** The end of the list, when no section could take the value. *)
Fixpoint add_at_end (r : list range) (val : Z) (type : range_step_type) : list range :=
  match r with
  | [] => []
  | [prev] =>
      match type with
      | ENABLE_SUBRANGE_STEPPING =>
          if r_count prev =? 1 then
            let prev := if r_start prev <? val then set_end prev val
                        else set_start prev val in
            let prev := set_step prev (int32 (r_end prev - r_start prev)) in
            [set_count prev (int32 (r_count prev + 1))]
          else [prev; set_count (set_end (set_start new_range val) val) 1]
      | DISABLE_SUBRANGE_STEPPING =>
          [prev; set_count (set_end (set_start new_range val) val) 1]
      end
  | c :: next => c :: add_at_end next val type
  end.

Definition range_add_value (r : list range) (val : Z) (type : range_step_type)
  : Z * list range :=
  match r with
  | [] => (0, r)
  | _ =>
      if range_contains r val then (0, r)
      else match add_loop r val with
           | Some r' => (1, r')
           | None => (1, add_at_end r val type)
           end
  end.

(** [while (cur >= 0)] of [range_intersection]; [None] is a loop that has not
    ended within the fuel. *)
Fixpoint intersection_loop (fuel : nat) (r1 r2 : list range) (cur : Z)
    (intersection : list range) : option (list range) :=
  match fuel with
  | O => None
  | S fuel' =>
      if cur <? 0 then Some intersection
      else
        let intersection :=
          if range_contains r2 cur then
            match intersection with
            | [] => [set_count (set_step (set_end (set_start new_range cur) cur) 1) 1]
            | _ => snd (range_add_value intersection cur ENABLE_SUBRANGE_STEPPING)
            end
          else intersection in
        intersection_loop fuel' r1 r2 (range_next_value r1 cur) intersection
  end.

Definition range_intersection (fuel : nat) (r1 r2 : list range) : option (list range) :=
  match r1, r2 with
  | [], _ | _, [] => Some []
  | _, _ => intersection_loop fuel r1 r2 (range_next_value r1 (-1)) []
  end.

(** [parse_subjob_index]: [None] is the return value 1; otherwise the end
    pointer and the four numbers. *)
Definition parse_subjob_index (pc : cstring) : option (cstring * Z * Z * Z * Z) :=
  let pc := if is_char (deref pc) ","%char || isspace (deref pc) then tl pc else pc in
  if negb (isdigit (deref pc)) then None
  else
    let '(xl, pc) := strtol10 pc in
    let x := int32 xl in
    let yz :=
      if is_char (deref pc) ","%char || is_char (deref pc) NUL then Some (x, 1, pc)
      else if negb (is_char (deref pc) "-"%char) then None
      else
        let '(yl, pc) := strtol10 (tl pc) in
        let y := int32 yl in
        if is_char (deref pc) NUL || is_char (deref pc) ","%char then Some (y, 1, pc)
        else if negb (is_char (deref pc) ":"%char) then None
        else
          let '(zl, pc) := strtol10 (tl pc) in
          let z := int32 zl in
          if negb (is_char (deref pc) ","%char) && negb (is_char (deref pc) NUL)
          then None else Some (y, z, pc) in
    match yz with
    | None => None
    | Some (y, z, pc) =>
        if (y <? x) || (z <? 1) then None
        else Some (pc, x, y, z, Z.quot (int32 (int32 (y - x) + z)) z)
    end.

(** [while (range_contains(r, y) == 0 && y > x) y--;] *)
Fixpoint snap_end (fuel : nat) (r : range) (x y : Z) : Z :=
  match fuel with
  | O => y
  | S fuel' =>
      if negb (range_contains [r] y) && (x <? y)
      then snap_end fuel' r x (int32 (y - 1)) else y
  end.

(** The [do ... while] of [range_parse]; [acc] is the list built so far, from
    its end. *)
Fixpoint parse_loop (fuel : nat) (p : cstring) (acc : list range)
  : option (list range) :=
  match fuel with
  | O => None
  | S fuel' =>
      match parse_subjob_index p with
      | None => None
      | Some (endp, x, y, z, count) =>
          let r := {| r_start := x; r_end := y; r_step := z; r_count := count |} in
          let y := snap_end (Z.to_nat (y - x)) r x y in
          if range_contains [r] y then
            let acc := set_end r y :: acc in
            if is_char (deref endp) ","%char then parse_loop fuel' endp acc
            else Some (rev acc)
          else None
      end
  end.

Definition range_parse (str : option cstring) : list range :=
  match str with
  | None => []
  | Some str => default [] (parse_loop (S (length str)) str [])
  end.

(** One section of [range_to_str], with the comma that follows it. *)
Definition section_to_str (cur_r : range) : cstring :=
  (if r_count cur_r >? 1
   then dec_int (r_start cur_r) ++ "-"%char :: dec_int (r_end cur_r)
   else dec_int (r_start cur_r)) ++
  (if r_step cur_r >? 1 then ":"%char :: dec_int (r_step cur_r) else []) ++
  [","%char].

Definition range_to_str (r : list range) : cstring :=
  match r with
  | [] => []
  | _ => removelast (concat (map section_to_str r))
  end.

(** ** Meaning of a range list

    [elems] lists the values a range stands for, in the order
    [range_next_value] gives them. *)

Fixpoint arith (n : nat) (s step : Z) : list Z :=
  match n with O => [] | S n' => s :: arith n' (s + step) step end.

Definition elems1 (r : range) : list Z :=
  arith (Z.to_nat (r_count r)) (r_start r) (r_step r).

Definition elems (l : list range) : list Z := concat (map elems1 l).

(** The theorems are about values up to [2 ^ 30 - 1] and steps up to [2 ^ 30]:
    a value plus a step, and the number of values of a section, are then in the
    range of [int]. *)
Definition VAL_MAX : Z := 1073741823.

(** A section is well formed when its end is the last of its [count] values. *)
Definition wf1 (r : range) : Prop :=
  0 <= r_start r /\ r_end r <= VAL_MAX /\ 1 <= r_step r <= VAL_MAX + 1 /\
  1 <= r_count r /\ r_end r = r_start r + (r_count r - 1) * r_step r.

Definition wf (l : list range) : Prop := Forall wf1 l.

(** No value is in two sections. *)
Fixpoint disjoint (l : list range) : Prop :=
  match l with
  | [] => True
  | c :: next => (forall v, v ∈ elems1 c -> v ∉ elems next) /\ disjoint next
  end.

(** Sections in increasing order. *)
Fixpoint ascending (l : list range) : Prop :=
  match l with
  | [] => True
  | c :: next => Forall (fun n => r_end c < r_start n) next /\ ascending next
  end.

Lemma elem_of_arith (n : nat) (s step v : Z) :
  v ∈ arith n s step <-> exists k, 0 <= k < Z.of_nat n /\ v = s + k * step.
Proof.
  revert s; induction n as [|n IH]; intros s; cbn [arith].
  - rewrite elem_of_nil. split; [done|]. intros (k & ? & ?). lia.
  - rewrite elem_of_cons, IH. split.
    + intros [->|(k & ? & ->)]; [exists 0|exists (k + 1)]; lia.
    + intros (k & ? & ->). destruct (decide (k = 0)) as [->|]; [left; lia|].
      right. exists (k - 1). lia.
Qed.

Lemma elem_of_elems1 (r : range) (v : Z) :
  v ∈ elems1 r <-> exists k, 0 <= k < r_count r /\ v = r_start r + k * r_step r.
Proof.
  unfold elems1. rewrite elem_of_arith.
  split; intros (k & ? & ?); exists k; lia.
Qed.

Lemma elem_of_elems_cons (c : range) (l : list range) (v : Z) :
  v ∈ elems (c :: l) <-> v ∈ elems1 c \/ v ∈ elems l.
Proof. unfold elems. cbn [map concat]. apply elem_of_app. Qed.

Lemma wf1_bounds (r : range) (v : Z) :
  wf1 r -> v ∈ elems1 r -> r_start r <= v <= r_end r.
Proof.
  intros (? & ? & ? & ? & He). rewrite elem_of_elems1. intros (k & ? & ->).
  rewrite He. nia.
Qed.

Lemma wf1_start (r : range) : wf1 r -> r_start r ∈ elems1 r.
Proof. intros (? & ? & ? & ? & ?). apply elem_of_elems1. exists 0. lia. Qed.

Lemma wf1_end (r : range) : wf1 r -> r_end r ∈ elems1 r.
Proof.
  intros (? & ? & ? & ? & ?). apply elem_of_elems1. exists (r_count r - 1). lia.
Qed.

Lemma contains_single_spec (r : range) (v : Z) :
  wf1 r -> range_contains_single r v = true <-> v ∈ elems1 r.
Proof.
  intros Hwf. pose proof Hwf as (? & Hmax & ? & ? & He).
  unfold VAL_MAX in *. unfold range_contains_single.
  rewrite elem_of_elems1. case_if.
  - rewrite int32_id by (unfold in_int, INT_MIN, INT_MAX; lia).
    rewrite Z.rem_mod_nonneg, Z.eqb_eq by lia. split.
    + intros Hm. exists ((v - r_start r) / r_step r).
      pose proof (Z.div_mod (v - r_start r) (r_step r) ltac:(lia)) as Hd.
      rewrite Hm in Hd. split; [|lia]. split; [apply Z.div_pos; lia|].
      apply Z.div_lt_upper_bound; nia.
    + intros (k & ? & ->). replace (r_start r + k * r_step r - r_start r)
        with (k * r_step r) by lia. apply Z.mod_mul. lia.
  - split; [done|]. intros (k & ? & ->). exfalso.
    apply andb_false_iff in E. rewrite !Z.leb_gt in E. nia.
Qed.

(** [range_contains] decides membership in the values of a well-formed list. *)
Lemma range_contains_spec (l : list range) (v : Z) :
  wf l -> range_contains l v = true <-> v ∈ elems l.
Proof.
  induction 1 as [|c l Hc Hl IH]; cbn [range_contains].
  - split; [done|]. intros Hv. by apply elem_of_nil in Hv.
  - rewrite elem_of_elems_cons, <-(contains_single_spec c v Hc), <-IH.
    destruct (range_contains_single c v); intuition congruence.
Qed.

Lemma range_contains_false (l : list range) (v : Z) :
  wf l -> range_contains l v = false <-> v ∉ elems l.
Proof.
  intros Hl. rewrite <-(range_contains_spec l v Hl).
  destruct (range_contains l v); naive_solver.
Qed.

#[local] Hint Resolve wf1_start wf1_end : pbs.

Lemma not_elem_of_elems_nil (v : Z) : v ∉ elems [].
Proof. apply not_elem_of_nil. Qed.

Lemma disjoint_singleton (c : range) : disjoint [c].
Proof. split; [|done]. intros v _. apply not_elem_of_elems_nil. Qed.

#[local] Hint Resolve disjoint_singleton not_elem_of_elems_nil : core.

(** ** Removing a value *)

(** [c'] is what is left of the section [c] without its end value [v]; it is
    empty, and unlinked, when its start is above its end. *)
Definition shrinks (c c' : range) (v : Z) : Prop :=
  if r_start c' >? r_end c' then forall w, w ∈ elems1 c <-> w = v
  else wf1 c' /\ forall w, w ∈ elems1 c' <-> w ∈ elems1 c /\ w <> v.

Ltac int_ids :=
  unfold in_int, VAL_MAX, INT_MAX, INT_MIN in *;
  rewrite ?int32_id by (unfold in_int, INT_MAX, INT_MIN; nia).

Lemma shrink_start (c : range) :
  wf1 c ->
  shrinks c (set_count (set_start c (int32 (r_start c + r_step c)))
                       (int32 (r_count c - 1))) (r_start c).
Proof.
  intros (? & ? & ? & ? & He). unfold shrinks, wf1. int_ids. cbn.
  case_if.
  - intros w. rewrite elem_of_elems1. split; [|intros ->; exists 0; lia].
    intros (k & ? & ->). assert (k = 0) as -> by nia. lia.
  - split; [nia|]. intros w. rewrite !elem_of_elems1. cbn. split.
    + intros (k & ? & ->). split; [exists (k + 1); lia|nia].
    + intros [(k & ? & ->) Hne]. exists (k - 1).
      assert (k <> 0) by (intros ->; lia). lia.
Qed.

Lemma shrink_end (c : range) :
  wf1 c ->
  shrinks c (set_count (set_end c (int32 (r_end c - r_step c)))
                       (int32 (r_count c - 1))) (r_end c).
Proof.
  intros (? & ? & ? & ? & He). unfold shrinks, wf1. int_ids. cbn.
  case_if.
  - intros w. rewrite elem_of_elems1. split; [|intros ->; exists (r_count c - 1); lia].
    assert (r_count c = 1) by nia.
    intros (k & ? & ->). assert (k = 0) as -> by lia. nia.
  - split; [nia|]. intros w. rewrite !elem_of_elems1. cbn. split.
    + intros (k & ? & ->). split; [exists k; lia|nia].
    + intros [(k & ? & ->) Hne]. exists k.
      assert (k <> r_count c - 1) by (intros ->; lia). lia.
Qed.

(** Replacing the head section by what is left of it removes the value. *)
Lemma unlink_spec (c c' : range) (l : list range) (v : Z) :
  wf (c :: l) -> disjoint (c :: l) -> shrinks c c' v -> v ∈ elems1 c ->
  let l' := if r_start c' >? r_end c' then l else c' :: l in
  wf l' /\ disjoint l' /\ forall w, w ∈ elems l' <-> w ∈ elems (c :: l) /\ w <> v.
Proof.
  intros [Hc Hl]%Forall_cons [Hd Hdl] Hs Hv. unfold shrinks in Hs. cbv zeta.
  destruct (r_start c' >? r_end c').
  - split_and!; [done..|]. intros w. rewrite elem_of_elems_cons, Hs. set_solver.
  - destruct Hs as [Hc' Hs]. split; [by constructor|]. split.
    + split; [|done]. intros w Hw%Hs. set_solver.
    + intros w. rewrite !elem_of_elems_cons, Hs. set_solver.
Qed.

Lemma remove_loop_elem (l l' : list range) (v : Z) :
  wf l -> remove_loop l v = Some l' -> v ∈ elems l.
Proof.
  intros Hl. revert l'. induction Hl as [|c l Hc Hl IH]; intros l'; cbn [remove_loop]; [done|].
  rewrite elem_of_elems_cons. case_if; [|case_if]; [subst; auto with pbs..|].
  destruct (remove_loop l v); naive_solver.
Qed.

Lemma remove_loop_spec (l l' : list range) (v : Z) :
  wf l -> disjoint l -> remove_loop l v = Some l' ->
  wf l' /\ disjoint l' /\ forall w, w ∈ elems l' <-> w ∈ elems l /\ w <> v.
Proof.
  revert l'. induction l as [|c l IH]; intros l' Hwf Hd; cbn [remove_loop]; [done|].
  pose proof Hwf as [Hc Hl]%Forall_cons.
  case_if; [|case_if].
  - intros [= <-]. subst v. exact (unlink_spec c _ l _ Hwf Hd (shrink_start c Hc) (wf1_start c Hc)).
  - intros [= <-]. subst v. exact (unlink_spec c _ l _ Hwf Hd (shrink_end c Hc) (wf1_end c Hc)).
  - destruct Hd as [Hd Hdl].
    destruct (remove_loop l v) as [l''|] eqn:E1; [|done]. intros [= <-].
    destruct (IH l'' Hl Hdl eq_refl) as (Hwf' & Hd' & Hin).
    assert (v ∉ elems1 c) as Hcv.
    { intros Hv. apply (Hd v Hv). exact (remove_loop_elem l l'' v Hl E1). }
    split; [by constructor|]. split.
    + split; [|done]. intros w Hw Hw'%Hin. apply (Hd w Hw); tauto.
    + intros w. rewrite !elem_of_elems_cons, Hin. split; [|tauto].
      intros [Hw|Hw]; [split; [tauto|by intros ->]|tauto].
Qed.

(** ** Adding a value *)

Definition grows (c c' : range) (v : Z) : Prop :=
  wf1 c' /\ forall w, w ∈ elems1 c' <-> w ∈ elems1 c \/ w = v.

Lemma grow_start (c : range) (v : Z) :
  wf1 c -> 0 <= v -> v = r_start c - r_step c ->
  grows c (set_count (set_start c v) (int32 (r_count c + 1))) v.
Proof.
  intros (? & ? & ? & ? & He) Hv ->. unfold grows, wf1. int_ids. cbn.
  split; [nia|]. intros w. rewrite !elem_of_elems1. cbn. split.
  - intros (k & ? & ->). destruct (decide (k = 0)) as [->|]; [right; lia|].
    left. exists (k - 1). lia.
  - intros [(k & ? & ->)| ->]; [exists (k + 1)|exists 0]; lia.
Qed.

Lemma grow_end (c : range) (v : Z) :
  wf1 c -> v <= VAL_MAX -> v = r_end c + r_step c ->
  grows c (set_count (set_end c v) (int32 (r_count c + 1))) v.
Proof.
  intros (? & ? & ? & ? & He) Hv ->. unfold grows, wf1. int_ids. cbn.
  split; [nia|]. intros w. rewrite !elem_of_elems1. cbn. split.
  - intros (k & ? & ->). destruct (decide (k = r_count c)) as [->|]; [right; lia|].
    left. exists k. lia.
  - intros [(k & ? & ->)| ->]; [exists k|exists (r_count c)]; lia.
Qed.

(** The stepping case of [add_at_end]: a section of one value takes a second
    one and the difference becomes the step. *)
Definition step_up (c : range) (v : Z) : range :=
  let c := if r_start c <? v then set_end c v else set_start c v in
  let c := set_step c (int32 (r_end c - r_start c)) in
  set_count c (int32 (r_count c + 1)).

Lemma grow_step (c : range) (v : Z) :
  wf1 c -> 0 <= v <= VAL_MAX -> r_count c = 1 -> v ∉ elems1 c ->
  grows c (step_up c v) v.
Proof.
  intros (? & ? & ? & _ & He) Hv Hc1 Hn. rewrite Hc1 in He.
  assert (v <> r_start c) as Hne.
  { intros ->. apply Hn. apply elem_of_elems1. exists 0. lia. }
  unfold grows, wf1, step_up. case_if; cbn; int_ids; rewrite Hc1;
    (split; [cbn; lia|]); intros w; rewrite !elem_of_elems1; cbn; rewrite Hc1;
    (split; [intros (k & ? & ->)|intros [(k & ? & ->)| ->]]).
  - destruct (decide (k = 0)) as [->|]; [left; exists 0; lia|].
    right. replace k with 1 by lia. lia.
  - exists 0. lia.
  - exists 1. lia.
  - destruct (decide (k = 0)) as [->|]; [right; lia|].
    left. exists 0. replace k with 1 by lia. lia.
  - exists 1. lia.
  - exists 0. lia.
Qed.

Lemma singleton_spec (v : Z) :
  0 <= v <= VAL_MAX ->
  let n := set_count (set_end (set_start new_range v) v) 1 in
  wf1 n /\ forall w, w ∈ elems1 n <-> w = v.
Proof.
  intros Hv n. unfold VAL_MAX in *. split; [unfold wf1, n, VAL_MAX; cbn; lia|].
  intros w. rewrite elem_of_elems1. cbn. split.
  - intros (k & ? & ->). lia.
  - intros ->. exists 0. lia.
Qed.

Lemma grow_head (c c' : range) (l : list range) (v : Z) :
  wf (c :: l) -> disjoint (c :: l) -> v ∉ elems (c :: l) -> grows c c' v ->
  wf (c' :: l) /\ disjoint (c' :: l) /\
  forall w, w ∈ elems (c' :: l) <-> w ∈ elems (c :: l) \/ w = v.
Proof.
  intros [Hc Hl]%Forall_cons [Hd Hdl] Hn [Hc' Hg].
  rewrite elem_of_elems_cons in Hn. split_and!; [by constructor| |].
  - split; [|done]. intros w [Hw| ->]%Hg; [by apply Hd|tauto].
  - intros w. rewrite !elem_of_elems_cons, Hg. tauto.
Qed.

Lemma keep_head (c : range) (l l' : list range) (v : Z) :
  wf1 c -> disjoint (c :: l) -> v ∉ elems (c :: l) ->
  wf l' /\ disjoint l' /\ (forall w, w ∈ elems l' <-> w ∈ elems l \/ w = v) ->
  wf (c :: l') /\ disjoint (c :: l') /\
  forall w, w ∈ elems (c :: l') <-> w ∈ elems (c :: l) \/ w = v.
Proof.
  intros Hc [Hd Hdl] Hn (Hl' & Hd' & Hin). rewrite elem_of_elems_cons in Hn.
  split_and!; [by constructor| |].
  - split; [|done]. intros w Hw [Hw'| ->]%Hin; [by apply (Hd w)|tauto].
  - intros w. rewrite !elem_of_elems_cons, Hin. tauto.
Qed.

Lemma add_loop_spec (l l' : list range) (v : Z) :
  wf l -> disjoint l -> 0 <= v <= VAL_MAX -> v ∉ elems l ->
  add_loop l v = Some l' ->
  wf l' /\ disjoint l' /\ forall w, w ∈ elems l' <-> w ∈ elems l \/ w = v.
Proof.
  revert l'. induction l as [|c l IH]; intros l' Hwf Hd Hv Hn; cbn [add_loop]; [done|].
  pose proof Hwf as [Hc Hl]%Forall_cons. pose proof Hc as (? & ? & ? & ? & ?).
  rewrite (proj2 (Z.eqb_neq (r_count c) 0)) by lia.
  rewrite (int32_id (r_start c - r_step c)) by (int_ids; lia).
  rewrite (int32_id (r_end c + r_step c)) by (int_ids; nia).
  case_if; [|case_if].
  - intros [= <-]. apply grow_head; auto. apply grow_start; auto; lia.
  - intros [= <-]. apply grow_head; auto. apply grow_end; auto; lia.
  - destruct (add_loop l v) as [l''|]; [|done]. intros [= <-].
    apply keep_head; [done..|]. destruct Hd as [_ Hdl].
    apply IH; auto. rewrite elem_of_elems_cons in Hn. tauto.
Qed.

Lemma append_singleton (c : range) (v : Z) :
  wf1 c -> 0 <= v <= VAL_MAX -> v ∉ elems [c] ->
  let n := set_count (set_end (set_start new_range v) v) 1 in
  wf [c; n] /\ disjoint [c; n] /\
  forall w, w ∈ elems [c; n] <-> w ∈ elems [c] \/ w = v.
Proof.
  intros Hc Hv Hn n. destruct (singleton_spec v Hv) as [Hn1 Hn2]. fold n in Hn1, Hn2.
  apply (keep_head c [] [n] v); [done|auto|done|].
  split; [by apply Forall_singleton|]. split; [auto|].
  intros w. rewrite elem_of_elems_cons, Hn2. pose proof (not_elem_of_elems_nil w). tauto.
Qed.

Lemma add_at_end_spec (l : list range) (v : Z) (type : range_step_type) :
  wf l -> disjoint l -> l <> [] -> 0 <= v <= VAL_MAX -> v ∉ elems l ->
  let l' := add_at_end l v type in
  wf l' /\ disjoint l' /\ forall w, w ∈ elems l' <-> w ∈ elems l \/ w = v.
Proof.
  induction l as [|c l IH]; intros Hwf Hd Hne Hv Hn; [done|].
  pose proof Hwf as [Hc Hl]%Forall_cons. destruct l as [|c2 l].
  - cbn [add_at_end].
    destruct type; [by apply append_singleton|].
    destruct (r_count c =? 1) eqn:E; [|by apply append_singleton]. simp_bool.
    change (let l' := [step_up c v] in
            wf l' /\ disjoint l' /\ forall w, w ∈ elems l' <-> w ∈ elems [c] \/ w = v).
    apply grow_head; [done..|]. apply grow_step; auto.
    rewrite elem_of_elems_cons in Hn. tauto.
  - change (add_at_end (c :: c2 :: l) v type) with (c :: add_at_end (c2 :: l) v type).
    apply keep_head; [done..|]. destruct Hd as [_ Hdl].
    apply IH; auto. rewrite elem_of_elems_cons in Hn. tauto.
Qed.

(** Adding to a non-empty list: the values grow by the one added, whichever
    section takes it; nothing changes when it is already there. *)
Lemma range_add_value_elems (l : list range) (v : Z) (type : range_step_type) :
  wf l -> disjoint l -> l <> [] -> 0 <= v <= VAL_MAX ->
  let '(rc, l') := range_add_value l v type in
  rc = (if range_contains l v then 0 else 1) /\
  wf l' /\ disjoint l' /\ l' <> [] /\ forall w, w ∈ elems l' <-> w ∈ elems l \/ w = v.
Proof.
  intros Hwf Hd Hne Hv. unfold range_add_value.
  destruct l as [|c l]; [done|]. set (l0 := c :: l) in *.
  destruct (range_contains l0 v) eqn:Hc.
  - apply range_contains_spec in Hc; [|done].
    split_and!; [done..|]. intros w. split; [tauto|]. by intros [?| ->].
  - apply range_contains_false in Hc; [|done].
    assert (forall l', (forall w, w ∈ elems l' <-> w ∈ elems l0 \/ w = v) -> l' <> [])
      as Hnn.
    { intros l' Hin ->. apply (not_elem_of_nil v). change [] with (elems []).
      apply Hin. by right. }
    destruct (add_loop l0 v) as [l'|] eqn:Ha.
    + destruct (add_loop_spec l0 l' v) as (? & ? & ?); eauto 10.
    + destruct (add_at_end_spec l0 v type) as (? & ? & ?); eauto 10.
Qed.

(** ** The successor of a value *)

Fixpoint succ_of (l : list Z) (v : Z) : option Z :=
  match l with
  | [] => None
  | a :: l' => if a =? v then head l' else succ_of l' v
  end.

Lemma succ_of_app_notin (l1 l2 : list Z) (v : Z) :
  v ∉ l1 -> succ_of (l1 ++ l2) v = succ_of l2 v.
Proof.
  induction l1 as [|a l1 IH]; [done|]. rewrite not_elem_of_cons. intros [Hne Hn].
  cbn. rewrite (proj2 (Z.eqb_neq a v)) by congruence. auto.
Qed.

Lemma succ_of_arith (n : nat) (s step k : Z) (rest : list Z) :
  1 <= step -> 0 <= k < Z.of_nat n ->
  succ_of (arith n s step ++ rest) (s + k * step)
  = if k =? Z.of_nat n - 1 then head rest else Some (s + k * step + step).
Proof.
  intros Hst. revert s k. induction n as [|n IH]; intros s k Hk; [lia|].
  cbn [arith app succ_of]. destruct (Z.eqb_spec s (s + k * step)) as [He|He].
  - assert (k = 0) as -> by nia. case_if.
    + destruct n; [done|lia].
    + destruct n; [lia|]. cbn. f_equal. lia.
  - assert (k <> 0) by (intros ->; lia).
    replace (s + k * step) with (s + step + (k - 1) * step) by lia.
    rewrite IH by lia.
    destruct (Z.eqb_spec k (Z.of_nat (S n) - 1)), (Z.eqb_spec (k - 1) (Z.of_nat n - 1));
      auto; lia.
Qed.

Lemma next_value_loop_done (l : list range) (v ret : Z) :
  0 <= ret -> next_value_loop l v ret = ret.
Proof. destruct l; [done|]. intros. cbn. by rewrite (proj2 (Z.ltb_ge ret 0)) by lia. Qed.

Lemma head_elems (c : range) (l : list range) :
  wf1 c -> head (elems (c :: l)) = Some (r_start c).
Proof.
  intros (? & ? & ? & ? & ?). unfold elems. cbn [map concat]. unfold elems1.
  destruct (Z.to_nat (r_count c)) eqn:E; [lia|done].
Qed.

Lemma next_value_loop_spec (l : list range) (v : Z) :
  wf l -> v ∈ elems l -> next_value_loop l v (-2) = default (-2) (succ_of (elems l) v).
Proof.
  induction 1 as [|c l Hc Hl IH]; [intros Hv; by apply elem_of_nil in Hv|].
  rewrite elem_of_elems_cons. cbn [next_value_loop]. change (-2 <? 0) with true.
  cbv iota zeta. unfold elems. cbn [map concat]. fold (elems l). intros Hv.
  destruct (range_contains_single c v) eqn:E.
  - apply contains_single_spec in E; [|done].
    pose proof Hc as (? & ? & ? & ? & He).
    pose proof E as (k & Hk & ->)%elem_of_elems1.
    unfold elems1. rewrite succ_of_arith by lia. rewrite Z2Nat.id by lia.
    destruct (Z.eqb_spec k (r_count c - 1)) as [->|Hne].
    + rewrite He, Z.eqb_refl. destruct l as [|n l]; [done|].
      apply Forall_cons in Hl as [Hn Hl].
      rewrite head_elems by done. cbn [default].
      apply next_value_loop_done. by destruct Hn.
    + rewrite (proj2 (Z.eqb_neq _ (r_end c))) by nia.
      assert (0 <= k * r_step c /\ r_start c + k * r_step c + r_step c <= r_end c) by nia.
      rewrite int32_id by (int_ids; lia). cbn [from_option id].
      apply next_value_loop_done. lia.
  - assert (v ∉ elems1 c) as Hn by (rewrite <-contains_single_spec by done; congruence).
    rewrite succ_of_app_notin by done. apply IH. tauto.
Qed.

(** [range_next_value] of a value of the list is the value after it, or -2. *)
Lemma range_next_value_elem (l : list range) (v : Z) :
  wf l -> v ∈ elems l -> 0 <= v ->
  range_next_value l v = default (-2) (succ_of (elems l) v).
Proof.
  intros Hl Hv H0. unfold range_next_value. destruct l as [|c l].
  { by apply elem_of_nil in Hv. }
  rewrite (proj2 (Z.ltb_ge v 0)) by lia.
  rewrite (proj2 (range_contains_spec _ v Hl) Hv). by apply next_value_loop_spec.
Qed.

Lemma ascending_above (c : range) (l : list range) (w : Z) :
  wf l -> ascending (c :: l) -> w ∈ elems l -> r_end c < w.
Proof.
  intros Hl [Ha _]. revert Ha. induction Hl as [|n l Hn Hl IH];
    intros Ha Hw; [by apply elem_of_nil in Hw|].
  apply Forall_cons in Ha as [Hcn Ha].
  apply elem_of_elems_cons in Hw as [Hw|Hw]; [|auto].
  apply wf1_bounds in Hw; [lia|done].
Qed.

Lemma NoDup_arith (n : nat) (s step : Z) : 1 <= step -> NoDup (arith n s step).
Proof.
  intros Hst. revert s. induction n as [|n IH]; intros s; constructor; [|auto].
  rewrite elem_of_arith. intros (k & ? & ?). nia.
Qed.

(** The values of an increasing list are all different. *)
Lemma ascending_NoDup (l : list range) : wf l -> ascending l -> NoDup (elems l).
Proof.
  induction 1 as [|c l Hc Hl IH]; [constructor|]. intros Ha.
  unfold elems. cbn [map concat]. apply NoDup_app. split_and!.
  - apply NoDup_arith. destruct Hc as (_ & _ & ? & _). lia.
  - intros w Hw Hw'. apply wf1_bounds in Hw; [|done].
    pose proof (ascending_above c l w Hl Ha Hw'). lia.
  - apply IH. by destruct Ha.
Qed.

Lemma elems_nonneg (l : list range) (v : Z) : wf l -> v ∈ elems l -> 0 <= v <= VAL_MAX.
Proof.
  induction 1 as [|c l Hc Hl IH]; [intros Hv; by apply elem_of_nil in Hv|].
  intros [Hv|Hv]%elem_of_elems_cons; [|auto].
  apply wf1_bounds in Hv; [|done]. destruct Hc. lia.
Qed.

Lemma next_after_prefix (l : list range) (pre suf : list Z) (v : Z) :
  wf l -> ascending l -> elems l = pre ++ v :: suf ->
  range_next_value l v = default (-2) (head suf).
Proof.
  intros Hl Ha He. pose proof (ascending_NoDup l Hl Ha) as Hnd.
  assert (v ∈ elems l) as Hv by (rewrite He; set_solver).
  pose proof (elems_nonneg l v Hl Hv) as [Hv0 _].
  rewrite range_next_value_elem by done.
  rewrite He in Hnd |- *. apply NoDup_app in Hnd as (_ & Hnd & _).
  rewrite succ_of_app_notin by (intros Hw; apply (Hnd v Hw); set_solver).
  cbn. by rewrite Z.eqb_refl.
Qed.

(** ** Intersection *)

(** What the loop of [range_intersection] does with the value [cur]. *)
Definition inter_step (r2 : list range) (cur : Z) (inter : list range) : list range :=
  if range_contains r2 cur then
    match inter with
    | [] => [set_count (set_step (set_end (set_start new_range cur) cur) 1) 1]
    | _ => snd (range_add_value inter cur ENABLE_SUBRANGE_STEPPING)
    end
  else inter.

Lemma inter_step_spec (r2 inter : list range) (cur : Z) :
  wf r2 -> wf inter -> disjoint inter -> 0 <= cur <= VAL_MAX ->
  let inter' := inter_step r2 cur inter in
  wf inter' /\ disjoint inter' /\
  forall w, w ∈ elems inter' <-> w ∈ elems inter \/ (w = cur /\ w ∈ elems r2).
Proof.
  intros H2 Hi Hd Hv. unfold inter_step. destruct (range_contains r2 cur) eqn:Hc.
  - apply range_contains_spec in Hc; [|done]. destruct inter as [|c inter].
    + destruct (singleton_spec cur Hv) as [Hn Hin]. cbv zeta.
      split_and!; [by apply Forall_singleton|auto|].
      intros w. rewrite elem_of_elems_cons. pose proof (not_elem_of_elems_nil w).
      unfold set_step. cbn in Hin |- *. rewrite Hin. naive_solver.
    + pose proof (range_add_value_elems (c :: inter) cur ENABLE_SUBRANGE_STEPPING
                    Hi Hd ltac:(done) Hv) as Hadd.
      destruct (range_add_value (c :: inter) cur ENABLE_SUBRANGE_STEPPING) as [rc l'].
      destruct Hadd as (_ & ? & ? & _ & Hin). cbn [snd].
      split_and!; [done..|]. intros w. rewrite Hin. naive_solver.
  - apply range_contains_false in Hc; [|done].
    split_and!; [done..|]. intros w. split; [tauto|]. intros [?|[-> ?]]; tauto.
Qed.

Lemma intersection_loop_spec (r1 r2 : list range) :
  wf r1 -> ascending r1 -> wf r2 ->
  forall (suf pre : list Z) (v : Z) (inter : list range) (fuel : nat),
  elems r1 = pre ++ v :: suf -> (S (length suf) < fuel)%nat ->
  wf inter -> disjoint inter ->
  exists res, intersection_loop fuel r1 r2 v inter = Some res /\
    wf res /\ disjoint res /\
    forall w, w ∈ elems res <-> w ∈ elems inter \/ (w ∈ v :: suf /\ w ∈ elems r2).
Proof.
  intros H1 Ha H2. induction suf as [|v' suf IH]; intros pre v inter fuel He Hf Hi Hd;
    (destruct fuel as [|fuel]; [lia|]);
    (assert (0 <= v <= VAL_MAX) as Hv
       by (apply (elems_nonneg r1); [done|rewrite He; set_solver]));
    cbn [intersection_loop]; rewrite (proj2 (Z.ltb_ge v 0)) by lia;
    rewrite (next_after_prefix r1 pre _ v H1 Ha He); fold (inter_step r2 v inter);
    destruct (inter_step_spec r2 inter v H2 Hi Hd Hv) as (Hi' & Hd' & Hin).
  - destruct fuel as [|fuel]; [cbn in Hf; lia|]. cbn.
    eexists. split_and!; [done..|]. intros w. rewrite Hin. set_solver.
  - cbn [head from_option id].
    destruct (IH (pre ++ [v]) v' (inter_step r2 v inter) fuel) as (res & Hr & ? & ? & Hres);
      [by rewrite He, <-app_assoc|cbn in Hf; lia|done..|].
    exists res. split_and!; [done..|]. intros w. rewrite Hres, Hin, !elem_of_cons.
    tauto.
Qed.

Lemma range_intersection_elems (r1 r2 : list range) (fuel : nat) :
  wf r1 -> ascending r1 -> wf r2 -> (length (elems r1) < fuel)%nat ->
  exists res, range_intersection fuel r1 r2 = Some res /\ wf res /\ disjoint res /\
    forall w, w ∈ elems res <-> w ∈ elems r1 /\ w ∈ elems r2.
Proof.
  intros H1 Ha H2 Hf. unfold range_intersection.
  pose proof not_elem_of_elems_nil as Hnil.
  destruct r1 as [|c1 r1]; [exists []; split_and!; [done|constructor|done|set_solver]|].
  destruct r2 as [|c2 r2]; [exists []; split_and!; [done|constructor|done|set_solver]|].
  pose proof (head_elems c1 r1 (Forall_inv H1)) as Hh.
  destruct (elems (c1 :: r1)) as [|v suf] eqn:He; [done|].
  injection Hh as ->. cbn [range_next_value]. change (-1 <? 0) with true. cbv iota.
  destruct (intersection_loop_spec (c1 :: r1) (c2 :: r2) H1 Ha H2 suf [] (r_start c1)
              [] fuel) as (res & ? & ? & ? & Hin); [done|done|constructor|done|].
  exists res. split_and!; [done..|]. intros w. rewrite Hin. set_solver.
Qed.

(** ** Text *)

(** A section that [range_to_str] prints in a form [range_parse] accepts: one
    value alone must have the step 1. *)
Definition printable1 (r : range) : Prop :=
  wf1 r /\ (r_count r = 1 -> r_step r = 1).

Definition body (c : range) : cstring :=
  (if r_count c >? 1
   then dec_int (r_start c) ++ "-"%char :: dec_int (r_end c)
   else dec_int (r_start c)) ++
  (if r_step c >? 1 then ":"%char :: dec_int (r_step c) else []).

Lemma section_to_str_body (c : range) : section_to_str c = body c ++ [","%char].
Proof. unfold section_to_str, body. by rewrite app_assoc. Qed.

Lemma range_to_str_join (c : range) (l : list range) :
  range_to_str (c :: l) = body c ++ concat (map (fun d => ","%char :: body d) l).
Proof.
  unfold range_to_str. revert c. induction l as [|d l IH]; intros c.
  - cbn [map concat]. by rewrite section_to_str_body, !app_nil_r, removelast_last.
  - specialize (IH d). cbn [map concat] in IH |- *.
    rewrite section_to_str_body, removelast_app; rewrite section_to_str_body in *.
    + rewrite IH. by rewrite <-app_assoc.
    + by destruct (body d).
Qed.

Definition stops (s : cstring) : Prop := s = [] \/ exists s', s = ","%char :: s'.

Lemma stops_deref (s : cstring) :
  stops s ->
  isdigit (deref s) = false /\ is_char (deref s) ","%char || is_char (deref s) NUL = true
  /\ is_char (deref s) "-"%char = false /\ is_char (deref s) ":"%char = false.
Proof. intros [->|[s' ->]]; done. Qed.

Lemma dec_int_nonneg (v : Z) : 0 <= v -> dec_int v = dec_nat v.
Proof. intros. unfold dec_int. by rewrite (proj2 (Z.ltb_ge v 0)) by lia. Qed.

Lemma deref_dec_nat (v : Z) (s : cstring) :
  0 <= v -> isdigit (deref (dec_nat v ++ s)) = true.
Proof.
  intros Hv. destruct (dec_nat_spec v Hv) as (Hall & Hne & _).
  destruct (dec_nat v) as [|c ds]; [done|]. by apply Forall_inv in Hall.
Qed.

Lemma printable_body (c : range) :
  printable1 c ->
  body c =
    if r_count c >? 1
    then dec_nat (r_start c) ++ "-"%char :: dec_nat (r_end c) ++
         (if r_step c >? 1 then ":"%char :: dec_nat (r_step c) else [])
    else dec_nat (r_start c).
Proof.
  intros [(? & ? & ? & ? & He) Hone]. unfold body.
  rewrite !dec_int_nonneg by nia. destruct (Z.gtb_spec (r_count c) 1) as [Hg|Hg].
  - by rewrite <-app_assoc.
  - rewrite (Hone ltac:(lia)). apply app_nil_r.
Qed.

Lemma deref_body (c : range) (s : cstring) :
  printable1 c -> isdigit (deref (body c ++ s)) = true.
Proof.
  intros Hp. pose proof Hp as [(? & _) _]. rewrite printable_body by done.
  destruct (r_count c >? 1); rewrite <-?app_assoc; by apply deref_dec_nat.
Qed.

Lemma parse_leading_comma (s : cstring) :
  isdigit (deref s) = true ->
  parse_subjob_index (","%char :: s) = parse_subjob_index s.
Proof.
  intros Hs. unfold parse_subjob_index. cbn [deref tl].
  change (is_char ","%char ","%char) with true. cbn [orb].
  rewrite (isdigit_not_char _ ","%char Hs), (isdigit_not_space _ Hs) by done.
  done.
Qed.

Lemma int32_small (v : Z) : 0 <= v <= 2147483647 -> int32 v = v.
Proof. intros. apply int32_id. unfold in_int, INT_MIN, INT_MAX. lia. Qed.

Lemma count_formula (c : range) :
  wf1 c ->
  Z.quot (int32 (int32 (r_end c - r_start c) + r_step c)) (r_step c) = r_count c.
Proof.
  intros (? & ? & ? & ? & He). unfold VAL_MAX in *.
  assert (0 <= r_start c <= r_end c) as Hse by nia.
  rewrite (int32_small (_ - _)), int32_small by lia.
  replace (r_end c - r_start c + r_step c) with (r_count c * r_step c) by lia.
  apply Z.quot_mul. lia.
Qed.

(** Reading one printed section gives its three numbers and its count. *)
Lemma parse_section (c : range) (rest : cstring) :
  printable1 c -> stops rest ->
  parse_subjob_index (body c ++ rest)
  = Some (rest, r_start c, r_end c, r_step c, r_count c).
Proof.
  intros Hp Hr. pose proof (deref_body c rest Hp) as Hd.
  destruct (stops_deref rest Hr) as (Hr1 & Hr2 & Hr3 & Hr4).
  pose proof Hp as [(H0 & H1 & H2 & H3 & He) H4]. unfold VAL_MAX in *.
  assert (0 <= r_start c <= r_end c) as Hse by nia.
  unfold parse_subjob_index.
  rewrite (isdigit_not_char _ ","%char Hd), (isdigit_not_space _ Hd) by done.
  cbn [orb]. rewrite Hd. cbn [negb]. rewrite printable_body by done.
  pose proof (count_formula c (proj1 Hp)) as Hct.
  destruct (Z.gtb_spec (r_count c) 1) as [Hg|Hg].
  - rewrite <-app_assoc. cbn [app]. rewrite strtol10_dec_nat by (unfold LONG_MAX; done || lia).
    cbn [deref tl]. change (is_char "-" ",") with false. change (is_char "-" NUL) with false.
    change (is_char "-" "-") with true. cbn [orb negb].
    rewrite <-app_assoc. destruct (Z.gtb_spec (r_step c) 1) as [Hs|Hs].
    + cbn [app]. rewrite strtol10_dec_nat by (unfold LONG_MAX; done || lia).
      cbn [deref tl]. change (is_char ":" ",") with false. change (is_char ":" NUL) with false.
      change (is_char ":" ":") with true. cbn [orb negb].
      rewrite strtol10_dec_nat by (unfold LONG_MAX; done || lia).
      rewrite <-negb_orb, Hr2. cbn [negb]. rewrite !(int32_small (r_start c)),
        !(int32_small (r_end c)), !(int32_small (r_step c)) by lia.
      rewrite (proj2 (Z.ltb_ge (r_end c) _)), (proj2 (Z.ltb_ge (r_step c) _)) by lia.
      cbn [orb]. by rewrite Hct.
    + cbn [app]. rewrite strtol10_dec_nat by (unfold LONG_MAX; done || lia).
      rewrite orb_comm, Hr2. replace (r_step c) with 1 in * by lia.
      rewrite !(int32_small (r_start c)), !(int32_small (r_end c)) by lia.
      rewrite (proj2 (Z.ltb_ge (r_end c) _)) by lia. cbn [orb Z.ltb Z.compare].
      by rewrite Hct.
  - rewrite strtol10_dec_nat by (unfold LONG_MAX; done || lia). rewrite Hr2.
    assert (r_count c = 1) as Hc1 by lia. rewrite (H4 Hc1) in *.
    assert (r_end c = r_start c) as Hee by nia.
    rewrite !(int32_small (r_start c)) by lia. rewrite Hee in *.
    rewrite Z.ltb_irrefl. cbn [orb Z.ltb Z.compare]. by rewrite Hct.
Qed.

Lemma parse_loop_printed (l : list range) : forall (c : range) (p : cstring)
    (acc : list range) (fuel : nat),
  Forall printable1 (c :: l) -> (length l < fuel)%nat ->
  p = body c \/ p = ","%char :: body c ->
  parse_loop fuel (p ++ concat (map (fun d => ","%char :: body d) l)) acc
  = Some (rev acc ++ c :: l).
Proof.
  induction l as [|d l IH]; intros c p acc fuel [Hc Hl]%Forall_cons Hf Hp;
    (destruct fuel as [|fuel]; [lia|]); cbn [parse_loop];
    set (rest := concat _);
    (assert (stops rest) as Hr
       by (unfold rest; first [by left | right; by eexists]));
    (assert (parse_subjob_index (p ++ rest)
             = Some (rest, r_start c, r_end c, r_step c, r_count c)) as ->
       by (destruct Hp as [->| ->]; cbn [app];
           rewrite ?parse_leading_comma by (by apply deref_body); by apply parse_section));
    (replace {| r_start := r_start c; r_end := r_end c; r_step := r_step c;
                r_count := r_count c |} with c by (by destruct c));
    (assert (range_contains [c] (r_end c) = true) as Hin
       by (destruct Hc as [Hc _]; apply range_contains_spec;
           [by apply Forall_singleton|apply elem_of_elems_cons; left; by apply wf1_end]));
    (assert (snap_end (Z.to_nat (r_end c - r_start c)) c (r_start c) (r_end c) = r_end c)
       as -> by (destruct (Z.to_nat _); [done|]; cbn [snap_end]; by rewrite Hin));
    rewrite Hin; (replace (set_end c (r_end c)) with c by (by destruct c)).
  - done.
  - unfold rest. cbn [map concat deref app]. change (is_char "," ",") with true. cbv iota.
    change (","%char :: body d ++ concat (map (fun d => ","%char :: body d) l))
      with ((","%char :: body d) ++ concat (map (fun d => ","%char :: body d) l)).
    rewrite (IH d _ _ _ Hl); [|cbn in Hf; lia|by right].
    cbn [rev]. by rewrite <-app_assoc.
Qed.

Lemma length_printed (l : list range) :
  (length l <= length (concat (map (fun d => ","%char :: body d) l)))%nat.
Proof. induction l as [|d l IH]; cbn; [lia|]. rewrite length_app. lia. Qed.

(** [range_parse] on what [range_to_str] prints *)
Lemma parse_printed (l : list range) : l <> [] -> Forall printable1 l -> range_parse (Some (range_to_str l)) = l.
Proof.
  intros Hne Hp. destruct l as [|c l]; [done|]. rewrite range_to_str_join. unfold range_parse.
  rewrite (parse_loop_printed l c (body c)); [done|done| |by left].
  rewrite length_app. pose proof (length_printed l). lia.
Qed.

(** ** Properties *)

(** C1: [range_add_value] on a well-formed, duplicate-free list of sections:
    a value already in the range is refused with 0; any other value is added
    with 1, in every branch (filling, extending at either end, turning a
    single value into a stepped section, appending a section), and the list
    stays well formed and duplicate-free and holds exactly one value more. *)
Theorem range_add_value_correct (l : list range) (val : Z) (type : range_step_type)
  (Hwf : wf l) (Hd : disjoint l) (Hne : l <> []) (Hv : 0 <= val <= VAL_MAX) :
  let '(rc, l') := range_add_value l val type in
  rc = (if range_contains l val then 0 else 1) /\ wf l' /\ disjoint l' /\
  forall w, range_contains l' w = range_contains l w || (w =? val).
Proof.
  pose proof (range_add_value_elems l val type Hwf Hd Hne Hv) as Hadd.
  destruct (range_add_value l val type) as [rc l'].
  destruct Hadd as (? & Hwf' & ? & _ & Hin). split_and!; [done..|]. intros w.
  apply eq_true_iff_eq. rewrite orb_true_iff, Z.eqb_eq, !range_contains_spec by done.
  apply Hin.
Qed.

(** [range_remove_value] on such a list: 0 leaves the list unchanged; 1 is
    returned only for a value that was there, and afterwards the list is well
    formed, duplicate-free and holds every value but that one. *)
Theorem range_remove_value_correct (l : list range) (val : Z)
  (Hwf : wf l) (Hd : disjoint l) :
  let '(rc, l') := range_remove_value l val in
  (rc = 0 /\ l' = l) \/
  (rc = 1 /\ range_contains l val = true /\ wf l' /\ disjoint l' /\
   forall w, range_contains l' w = range_contains l w && negb (w =? val)).
Proof.
  unfold range_remove_value. destruct l as [|c l]; [by left|]. set (l0 := c :: l) in *.
  destruct (range_contains l0 val) eqn:Hc; [|by left]. cbn [negb].
  destruct (remove_loop l0 val) as [l'|] eqn:Hr; [|by left].
  destruct (remove_loop_spec l0 l' val Hwf Hd Hr) as (Hwf' & Hd' & Hin).
  right. split_and!; [done..|]. intros w. apply eq_true_iff_eq.
  rewrite andb_true_iff, negb_true_iff, Z.eqb_neq, !range_contains_spec by done.
  apply Hin.
Qed.

(** C40. C3: [range_intersection] of an increasing range with any range ends (one
    round per value of the first range and one to stop) and is a well-formed
    range of exactly the values both contain. *)
Theorem range_intersection_correct (r1 r2 : list range) (fuel : nat)
  (H1 : wf r1) (Ha : ascending r1) (H2 : wf r2)
  (Hf : (length (elems r1) < fuel)%nat) :
  exists res, range_intersection fuel r1 r2 = Some res /\ wf res /\ disjoint res /\
    forall v, range_contains res v = range_contains r1 v && range_contains r2 v.
Proof.
  destruct (range_intersection_elems r1 r2 fuel H1 Ha H2 Hf) as (res & ? & Hwf & ? & Hin).
  exists res. split_and!; [done..|]. intros v. apply eq_true_iff_eq.
  rewrite andb_true_iff, !range_contains_spec by done. apply Hin.
Qed.

(** Parsing what [range_to_str] prints gives the range back, section by
    section, when every section of one value has the step 1. *)
Theorem range_parse_to_str (l : list range)
  (Hne : l <> []) (Hp : Forall printable1 l) :
  range_parse (Some (range_to_str l)) = l.
Proof. by apply parse_printed. Qed.

(** ** Witnesses and instances *)

Definition sample : list range :=
  [Range 1 9 4 3; Range 12 12 1 1; Range 20 30 1 11].

Lemma sample_wf : wf sample.
Proof. repeat constructor; cbn; unfold VAL_MAX; try lia. Qed.

Lemma sample_ascending : ascending sample.
Proof. cbn. repeat constructor; cbn; lia. Qed.

Lemma ascending_disjoint (l : list range) : wf l -> ascending l -> disjoint l.
Proof.
  induction 1 as [|c l Hc Hl IH]; [done|]. intros Ha. split.
  - intros v Hv Hv'. apply wf1_bounds in Hv; [|done].
    pose proof (ascending_above c l v Hl Ha Hv'). lia.
  - apply IH. by destruct Ha.
Qed.

Lemma sample_disjoint : disjoint sample.
Proof. apply ascending_disjoint; [apply sample_wf|apply sample_ascending]. Qed.

Lemma sample_printable : Forall printable1 sample.
Proof. repeat constructor; cbn; unfold VAL_MAX; try lia. Qed.

Lemma range_add_value_witness :
  range_add_value sample 13 ENABLE_SUBRANGE_STEPPING
  = (1, [Range 1 13 4 4; Range 12 12 1 1; Range 20 30 1 11]) /\
  (let '(rc, l') := range_add_value sample 13 ENABLE_SUBRANGE_STEPPING in
   rc = (if range_contains sample 13 then 0 else 1) /\ wf l' /\ disjoint l' /\
   forall w, range_contains l' w = range_contains sample w || (w =? 13)).
Proof.
  split; [vm_compute; reflexivity|].
  apply (range_add_value_correct sample 13 ENABLE_SUBRANGE_STEPPING sample_wf
           sample_disjoint); [discriminate|unfold VAL_MAX; lia].
Defined.

Lemma range_remove_value_witness :
  range_remove_value sample 12 = (1, [Range 1 9 4 3; Range 20 30 1 11]) /\
  (let '(rc, l') := range_remove_value sample 12 in
   (rc = 0 /\ l' = sample) \/
   (rc = 1 /\ range_contains sample 12 = true /\ wf l' /\ disjoint l' /\
    forall w, range_contains l' w = range_contains sample w && negb (w =? 12))).
Proof.
  split; [vm_compute; reflexivity|].
  apply (range_remove_value_correct sample 12 sample_wf sample_disjoint).
Defined.

Lemma range_intersection_witness :
  range_intersection 16 sample [Range 1 40 3 14]
    = Some [Range 1 22 21 2; Range 25 28 3 2] /\
  exists res, range_intersection 16 sample [Range 1 40 3 14] = Some res /\
    wf res /\ disjoint res /\
    forall v, range_contains res v
              = range_contains sample v && range_contains [Range 1 40 3 14] v.
Proof.
  split; [vm_compute; reflexivity|].
  apply (range_intersection_correct sample [Range 1 40 3 14] 16 sample_wf
           sample_ascending); [|vm_compute; lia].
  repeat constructor; cbn; unfold VAL_MAX; lia.
Defined.

Lemma range_parse_to_str_witness :
  range_to_str sample = lit "1-9:4,12,20-30" /\
  range_parse (Some (range_to_str sample)) = sample.
Proof.
  split; [vm_compute; reflexivity|].
  apply (range_parse_to_str sample); [discriminate|apply sample_printable].
Defined.

(** ** Where the text form and the loops go wrong *)

(** Removing a value from a stepped section can leave one value with a step;
    [range_to_str] prints it as [X:Z], which [range_parse] rejects. *)
Lemma to_str_unparsable :
  let l := snd (range_remove_value (range_parse (Some (lit "2-5:3"))) 2) in
  wf l /\ range_to_str l = lit "5:3" /\ range_parse (Some (range_to_str l)) = [].
Proof.
  cbv zeta. split_and!; [|by vm_compute..].
  replace (snd _) with [Range 5 5 3 1] by (by vm_compute).
  repeat constructor; cbn; unfold VAL_MAX; lia.
Qed.

(** On a first range whose sections overlap, the value after the last one is
    the first one again and [range_intersection] never ends. *)
Lemma intersection_diverges (fuel : nat) (c2 : range) (r2 : list range) :
  range_intersection fuel (range_parse (Some (lit "1-2,1-2"))) (c2 :: r2) = None.
Proof.
  replace (range_parse _) with [Range 1 2 1 2; Range 1 2 1 2] by (by vm_compute).
  unfold range_intersection. cbn [range_next_value]. change (-1 <? 0) with true.
  cbv iota. change (r_start (Range 1 2 1 2)) with 1.
  assert (forall inter v, v = 1 \/ v = 2 ->
    intersection_loop fuel [Range 1 2 1 2; Range 1 2 1 2] (c2 :: r2) v inter = None)
    as H by (induction fuel as [|fuel IH]; [done|];
             intros inter v [-> | ->]; cbn [intersection_loop];
             [change (1 <? 0) with false|change (2 <? 0) with false]; cbv iota;
             apply IH; vm_compute; auto).
  apply H. by left.
Qed.

(** The entry count of a section is computed in [int] and overflows. *)
Lemma parse_count_overflow :
  parse_subjob_index (lit "1-2147483647:2") = Some ([], 1, 2147483647, 2, -1073741824).
Proof. by vm_compute. Qed.

End Range.
