(* ===== verification/Bitmap.v ===== *)
(** * Growable bitmaps: [src/scheduler/pbs_bitmap.c]

    The words of a bitmap are 64-bit [unsigned long]s held as [Z].  Every
    operation is in [option]: [None] is an access outside the [bits] array (or
    a loop that has not ended within its fuel), which the theorems exclude. *)

From Stdlib Require Import ZArith Lia.
From S2P Require Import Prelude.

Module Bitmap.

(** ** Data *)

Record pbs_bitmap := PbsBitmap { bits : list Z; num_longs : Z; num_bits : Z }.

Definition set_bits (bm : pbs_bitmap) (b : list Z) : pbs_bitmap :=
  {| bits := b; num_longs := num_longs bm; num_bits := num_bits bm |}.
Definition set_num_bits (bm : pbs_bitmap) (n : Z) : pbs_bitmap :=
  {| bits := bits bm; num_longs := num_longs bm; num_bits := n |}.

(** [BYTES_TO_BITS(sizeof(unsigned long))] *)
Definition LONG_BITS : Z := 64.

(** [1UL << i] *)
Definition bit_mask (i : Z) : Z := uint64 (Z.shiftl 1 i).

(** [for (; i < 64; i++) if (w & (1UL << i)) ...]: the index found, if any. *)
Fixpoint scan_word (fuel : nat) (w i : Z) : option Z :=
  match fuel with
  | O => None
  | S fuel' =>
      if i <? LONG_BITS then
        if negb (Z.land w (bit_mask i) =? 0) then Some i else scan_word fuel' w (i + 1)
      else None
  end.

(** [for (; long_ind < num_longs && bits[long_ind] == 0; long_ind++);] *)
Fixpoint skip_zero (fuel : nat) (bm : pbs_bitmap) (long_ind : Z) : option Z :=
  match fuel with
  | O => None
  | S fuel' =>
      if long_ind <? num_longs bm then
        w ← rd (bits bm) long_ind;
        if w =? 0 then skip_zero fuel' bm (long_ind + 1) else Some long_ind
      else Some long_ind
  end.

(** The second part of [pbs_bitmap_next_on_bit], from a word on. *)
Definition next_from_word (pbm : pbs_bitmap) (long_ind : Z) : option Z :=
  long_ind ← skip_zero (S (length (bits pbm))) pbm long_ind;
  if long_ind =? num_longs pbm then Some (-1)
  else
    w ← rd (bits pbm) long_ind;
    match scan_word 65 w 0 with
    | Some i => Some (int32 (long_ind * LONG_BITS + i))
    | None => Some (-1)
    end.

Definition pbs_bitmap_next_on_bit (pbm : option pbs_bitmap) (start_bit : Z) : option Z :=
  match pbm with
  | None => Some (-1)
  | Some pbm =>
      if start_bit >=? num_bits pbm then Some (-1)
      else
        let long_ind := Z.quot start_bit LONG_BITS in
        let bit := Z.rem start_bit LONG_BITS in
        w ← rd (bits pbm) long_ind;
        if negb (w =? 0) then
          match scan_word 65 w (bit + 1) with
          | Some i => Some (int32 (long_ind * LONG_BITS + i))
          | None => next_from_word pbm (if long_ind <? num_longs pbm then long_ind + 1 else long_ind)
          end
        else next_from_word pbm long_ind
  end.

(** The last lines of [pbs_bitmap_bit_off]:
    [bm->bits[long_ind] &= ~(b)] *)
Definition clear_word (bm : pbs_bitmap) (bit : Z) : option (Z * option pbs_bitmap) :=
  let long_ind := Z.quot bit LONG_BITS in
  let b := bit_mask (Z.rem bit LONG_BITS) in
  w ← rd (bits bm) long_ind;
  bs ← wr (bits bm) long_ind (Z.land w (ULONG_MAX - b));
  Some (1, Some (set_bits bm bs)).

(** [pbs_bitmap_bit_off] with the allocation it calls as an argument: the two
    functions are mutually recursive in the source. *)
Definition bit_off_with (alloc : option pbs_bitmap -> Z -> option (option pbs_bitmap))
    (pbm : option pbs_bitmap) (bit : Z) : option (Z * option pbs_bitmap) :=
  match pbm with
  | None => Some (0, None)
  | Some bm =>
      if bit >=? num_bits bm then
        r ← alloc (Some bm) (bit + 1);
        match r with
        | None => Some (0, Some bm)
        | Some bm => clear_word bm bit
        end
      else clear_word bm bit
  end.

(** [for ( ; i < num_longs; i++) bits[i] = 0;] *)
Fixpoint zero_words (fuel : nat) (bm : pbs_bitmap) (i : Z) : option pbs_bitmap :=
  match fuel with
  | O => None
  | S fuel' =>
      if i <? num_longs bm then
        bs ← wr (bits bm) i 0;
        zero_words fuel' (set_bits bm bs) (i + 1)
      else Some bm
  end.

(** [for (; i != -1; i = next_on_bit(bm, i)) bit_off(bm, i);] *)
Fixpoint clear_loop (fuel : nat)
    (off : option pbs_bitmap -> Z -> option (Z * option pbs_bitmap))
    (bm : pbs_bitmap) (i : Z) : option pbs_bitmap :=
  match fuel with
  | O => None
  | S fuel' =>
      if i =? -1 then Some bm
      else
        r ← off (Some bm) i;
        match r with
        | (_, Some bm) =>
            i ← pbs_bitmap_next_on_bit (Some bm) i;
            clear_loop fuel' off bm i
        | (_, None) => None
        end
  end.

(** [calloc] of [n] words and the copy of the [num_longs] previous ones *)
Definition grow_words (bm : pbs_bitmap) (n : Z) : option (list Z) :=
  if (num_longs bm <=? n) && (num_longs bm <=? Z.of_nat (length (bits bm)))
  then Some (take (Z.to_nat (num_longs bm)) (bits bm)
             ++ replicate (Z.to_nat (n - num_longs bm)) 0)
  else None.

Fixpoint alloc_fuel (fuel : nat) (pbm : option pbs_bitmap) (nbits : Z)
  : option (option pbs_bitmap) :=
  match fuel with
  | O => None
  | S fuel' =>
      if nbits <=? 0 then Some None
      else
        let bm := default {| bits := []; num_longs := 0; num_bits := 0 |} pbm in
        bm ← (if nbits <? num_bits bm then
                bm ← zero_words (S (length (bits bm))) bm
                       (int32 (Z.quot nbits LONG_BITS + 1));
                i ← pbs_bitmap_next_on_bit (Some bm) nbits;
                clear_loop fuel (bit_off_with (alloc_fuel fuel')) bm i
              else Some bm);
        if num_longs bm * LONG_BITS >=? nbits then Some (Some (set_num_bits bm nbits))
        else
          let n := Z.quot nbits LONG_BITS in
          let n := if Z.rem nbits LONG_BITS >? 0 then n + 1 else n in
          tmp_bits ← grow_words bm n;
          Some (Some {| bits := tmp_bits; num_longs := n; num_bits := nbits |})
  end.

(** The recursion is one level deep and the clearing loop makes at most one
    round per bit of a word, so this fuel is enough. *)
Definition pbs_bitmap_alloc : option pbs_bitmap -> Z -> option (option pbs_bitmap) :=
  alloc_fuel 66.

Definition pbs_bitmap_bit_off : option pbs_bitmap -> Z -> option (Z * option pbs_bitmap) :=
  bit_off_with pbs_bitmap_alloc.

(** The last lines of [pbs_bitmap_bit_on]: [bm->bits[long_ind] |= b] *)
Definition set_word (bm : pbs_bitmap) (bit : Z) : option (Z * option pbs_bitmap) :=
  let long_ind := Z.quot bit LONG_BITS in
  let b := bit_mask (Z.rem bit LONG_BITS) in
  w ← rd (bits bm) long_ind;
  bs ← wr (bits bm) long_ind (Z.lor w b);
  Some (1, Some (set_bits bm bs)).

Definition pbs_bitmap_bit_on (pbm : option pbs_bitmap) (bit : Z)
  : option (Z * option pbs_bitmap) :=
  match pbm with
  | None => Some (0, None)
  | Some bm =>
      if bit >=? num_bits bm then
        r ← pbs_bitmap_alloc (Some bm) (bit + 1);
        match r with
        | None => Some (0, Some bm)
        | Some bm => set_word bm bit
        end
      else set_word bm bit
  end.

(** [bit] is an [unsigned long]; the comparison converts [num_bits] to one. *)
Definition pbs_bitmap_get_bit (pbm : option pbs_bitmap) (bit : Z) : option Z :=
  match pbm with
  | None => Some 0
  | Some pbm =>
      if bit >=? uint64 (num_bits pbm) then Some 0
      else
        w ← rd (bits pbm) (bit / LONG_BITS);
        Some (if negb (Z.land w (bit_mask (bit mod LONG_BITS)) =? 0) then 1 else 0)
  end.

Definition pbs_bitmap_first_on_bit (bm : option pbs_bitmap) : option Z :=
  g ← pbs_bitmap_get_bit bm 0;
  if negb (g =? 0) then Some 0 else pbs_bitmap_next_on_bit bm 0.

(** [for (i = 0; i < R->num_longs; i++) L->bits[i] = R->bits[i];] *)
Fixpoint copy_words (fuel : nat) (L : list Z) (R : pbs_bitmap) (i : Z) : option (list Z) :=
  match fuel with
  | O => None
  | S fuel' =>
      if i <? num_longs R then
        w ← rd (bits R) i;
        L ← wr L i w;
        copy_words fuel' L R (i + 1)
      else Some L
  end.

(** [pbs_bitmap_assign] once [L] is long enough *)
Definition copy_bits (R L : pbs_bitmap) : option (Z * option pbs_bitmap) :=
  bs ← copy_words (S (length (bits R))) (bits L) R 0;
  L' ← (if num_longs R <? num_longs L
        then zero_words (S (length bs)) (set_bits L bs) (num_longs R)
        else Some (set_bits L bs));
  Some (1, Some (set_num_bits L' (num_bits R))).

Definition pbs_bitmap_assign (L R : option pbs_bitmap) : option (Z * option pbs_bitmap) :=
  match L, R with
  | Some L, Some R =>
      if num_longs R >? num_longs L then
        r ← pbs_bitmap_alloc (Some L) (LONG_BITS * num_longs R);
        match r with
        | None => Some (0, Some L)
        | Some L => copy_bits R L
        end
      else copy_bits R L
  | _, _ => Some (0, L)
  end.

(** [for(i = 0; i < L->num_longs; i++) if(L->bits[i] != R->bits[i]) return 0;] *)
Fixpoint equal_words (fuel : nat) (L R : pbs_bitmap) (i : Z) : option Z :=
  match fuel with
  | O => None
  | S fuel' =>
      if i <? num_longs L then
        a ← rd (bits L) i;
        b ← rd (bits R) i;
        if negb (a =? b) then Some 0 else equal_words fuel' L R (i + 1)
      else Some 1
  end.

Definition pbs_bitmap_is_equal (L R : option pbs_bitmap) : option Z :=
  match L, R with
  | Some L, Some R =>
      if negb (num_bits L =? num_bits R) then Some 0
      else equal_words (S (length (bits L))) L R 0
  | _, _ => Some 0
  end.

(** ** Meaning of a bitmap

    [view bm b] is the bit [b] of the storage, whether or not it is below
    [num_bits]; a bitmap is [clean] when no bit at or above [num_bits] is on. *)

Definition wget (a : list Z) (b : Z) : bool :=
  match a !! Z.to_nat (b / LONG_BITS) with
  | Some w => Z.testbit w (b mod LONG_BITS)
  | None => false
  end.

Definition view (bm : pbs_bitmap) (b : Z) : bool :=
  if b <? 0 then false else wget (bits bm) b.

Definition is_word (w : Z) : Prop := 0 <= w < 2 ^ LONG_BITS.

Record wf (bm : pbs_bitmap) : Prop := {
  wf_longs : num_longs bm = Z.of_nat (length (bits bm));
  wf_words : Forall is_word (bits bm);
  wf_bits : 0 <= num_bits bm <= LONG_BITS * num_longs bm }.

Definition clean (bm : pbs_bitmap) : Prop :=
  forall b, num_bits bm <= b -> view bm b = false.

(** The number of bits is an [int], as the return type of
    [pbs_bitmap_next_on_bit] needs. *)
Definition small (bm : pbs_bitmap) : Prop := LONG_BITS * num_longs bm <= INT_MAX.

Lemma bit_mask_pow (i : Z) : 0 <= i < LONG_BITS -> bit_mask i = 2 ^ i.
Proof.
  intros Hi. unfold bit_mask. rewrite Z.shiftl_1_l. apply uint64_id.
  unfold ULONG_MAX, LONG_BITS in *. pose proof (Z.pow_pos_nonneg 2 i ltac:(lia) ltac:(lia)).
  pose proof (Z.pow_le_mono_r 2 i 63 ltac:(lia) ltac:(lia)).
  change (2 ^ 63) with 9223372036854775808 in *. lia.
Qed.

(** [w & (1UL << i)] is the test of the bit [i]. *)
Lemma land_mask (w i : Z) :
  0 <= i < LONG_BITS -> negb (Z.land w (bit_mask i) =? 0) = Z.testbit w i.
Proof.
  intros Hi. rewrite bit_mask_pow by done. apply eq_true_iff_eq.
  rewrite negb_true_iff, Z.eqb_neq. split.
  - intros Hne. destruct (Z.testbit w i) eqn:E; [done|]. exfalso. apply Hne.
    apply Z.bits_inj'. intros n Hn. rewrite Z.land_spec, Z.bits_0, Z.pow2_bits_eqb by lia.
    destruct (Z.eqb_spec i n) as [->|]; [by rewrite E|by rewrite andb_false_r].
  - intros E Hz. apply (f_equal (fun x => Z.testbit x i)) in Hz.
    rewrite Z.land_spec, Z.bits_0, Z.pow2_bits_eqb, E, Z.eqb_refl in Hz by lia. done.
Qed.

Lemma testbit_set (w i j : Z) :
  0 <= i < LONG_BITS -> 0 <= j ->
  Z.testbit (Z.lor w (bit_mask i)) j = (j =? i) || Z.testbit w j.
Proof.
  intros Hi Hj. rewrite bit_mask_pow, Z.lor_spec, Z.pow2_bits_eqb, orb_comm by lia.
  by rewrite Z.eqb_sym.
Qed.

Lemma testbit_clear (w i j : Z) :
  0 <= i < LONG_BITS -> 0 <= j < LONG_BITS ->
  Z.testbit (Z.land w (ULONG_MAX - bit_mask i)) j = negb (j =? i) && Z.testbit w j.
Proof.
  intros Hi Hj. rewrite bit_mask_pow, Z.land_spec by done.
  replace (ULONG_MAX - 2 ^ i) with (Z.ldiff (Z.ones LONG_BITS) (2 ^ i)).
  - rewrite Z.ldiff_spec, Z.ones_spec_low, Z.pow2_bits_eqb, Z.eqb_sym by lia.
    by rewrite andb_comm.
  - rewrite <-Z.sub_nocarry_ldiff; [done|]. apply Z.bits_inj'. intros n Hn.
    rewrite Z.ldiff_spec, Z.bits_0, Z.pow2_bits_eqb by lia.
    destruct (Z.eqb_spec i n) as [->|]; [by rewrite Z.ones_spec_low by lia|done].
Qed.

Lemma lor_word (w i : Z) :
  0 <= i < LONG_BITS -> is_word w -> is_word (Z.lor w (bit_mask i)).
Proof.
  unfold is_word. intros Hi Hw. rewrite bit_mask_pow by done.
  assert (0 <= 2 ^ i) by (apply Z.pow_nonneg; lia).
  assert (2 ^ i < 2 ^ LONG_BITS) by (apply Z.pow_lt_mono_r; lia).
  rewrite <-(Z.mod_small w (2 ^ LONG_BITS)) by done.
  rewrite <-(Z.mod_small (2 ^ i) (2 ^ LONG_BITS)) by lia.
  rewrite <-!Z.land_ones, <-Z.land_lor_distr_l, Z.land_ones by (unfold LONG_BITS; lia).
  apply Z.mod_pos_bound. done.
Qed.

Lemma land_word (w m : Z) : is_word w -> 0 <= m -> is_word (Z.land w m).
Proof.
  unfold is_word. intros [? ?] Hm. split; [apply Z.land_nonneg; lia|].
  rewrite <-(Z.mod_small w (2 ^ LONG_BITS)) by done.
  rewrite <-Z.land_ones by (unfold LONG_BITS; lia).
  rewrite <-Z.land_assoc, (Z.land_comm (Z.ones _)), Z.land_assoc.
  rewrite Z.land_ones by (unfold LONG_BITS; lia). by apply Z.mod_pos_bound.
Qed.

(** Writing one word changes the bits of that word only. *)
Lemma wget_insert (a : list Z) (i v c : Z) :
  0 <= i < Z.of_nat (length a) -> 0 <= c ->
  wget (<[Z.to_nat i := v]> a) c
  = if c / LONG_BITS =? i then Z.testbit v (c mod LONG_BITS) else wget a c.
Proof.
  intros Hi Hc. unfold wget.
  assert (0 <= c / LONG_BITS) by (apply Z.div_pos; unfold LONG_BITS; lia).
  destruct (Z.eqb_spec (c / LONG_BITS) i) as [->|Hne].
  - rewrite list_lookup_insert_eq by lia. done.
  - rewrite list_lookup_insert_ne by lia. done.
Qed.

Lemma div_mod_eqb (b c : Z) :
  (c =? b) = (c / LONG_BITS =? b / LONG_BITS) && (c mod LONG_BITS =? b mod LONG_BITS).
Proof.
  unfold LONG_BITS. apply eq_true_iff_eq. rewrite andb_true_iff, !Z.eqb_eq. split.
  - by intros ->.
  - intros [Hd Hm]. rewrite (Z.div_mod c 64), (Z.div_mod b 64) by lia. congruence.
Qed.

(** ** Growing, setting and clearing *)

Lemma mod_range (b : Z) : 0 <= b mod LONG_BITS < LONG_BITS.
Proof. apply Z.mod_pos_bound. unfold LONG_BITS. lia. Qed.

Lemma bit_word_index (bm : pbs_bitmap) (b : Z) :
  wf bm -> 0 <= b < num_bits bm ->
  0 <= b / LONG_BITS < Z.of_nat (length (bits bm)).
Proof.
  intros [Hl _ Hb] Hr. rewrite Hl in Hb. unfold LONG_BITS in *.
  split; [apply Z.div_pos; lia|apply Z.div_lt_upper_bound; lia].
Qed.

Lemma wget_app_zero (a : list Z) (n : nat) (b : Z) :
  wget (a ++ replicate n 0) b = wget a b.
Proof.
  unfold wget. destruct (decide (Z.to_nat (b / LONG_BITS) < length a)%nat) as [Hlt|Hge].
  - by rewrite lookup_app_l.
  - rewrite lookup_app_r, (lookup_ge_None_2 a) by lia.
    destruct (replicate n 0 !! _) as [w|] eqn:E; [|done].
    apply lookup_replicate in E as [-> _]. apply Z.bits_0.
Qed.

(** Growing keeps every bit; all the new bits are off. *)
Lemma alloc_grow_spec (fuel : nat) (bm : pbs_bitmap) (n : Z) :
  wf bm -> 0 < n -> num_bits bm <= n ->
  exists bm', alloc_fuel (S fuel) (Some bm) n = Some (Some bm') /\ wf bm' /\
    num_bits bm' = n /\ (forall b, view bm' b = view bm b) /\
    num_longs bm' = Z.max (num_longs bm) ((n + 63) / LONG_BITS).
Proof.
  intros [Hl Hw Hb] Hn Hge. cbn [alloc_fuel from_option id].
  rewrite (proj2 (Z.leb_gt n 0)), (proj2 (Z.ltb_ge n (num_bits bm))) by done.
  cbn [mbind option_bind]. unfold LONG_BITS in *. case_if.
  - exists (set_num_bits bm n). split_and!; [done|constructor; cbn; unfold LONG_BITS; [done|done|lia]|done..|].
    cbn. pose proof (Z.div_le_upper_bound (n + 63) 64 (num_longs bm + 1)).
    assert ((n + 63) / 64 <= num_longs bm); [|lia].
    apply Z.lt_succ_r. apply Z.div_lt_upper_bound; lia.
  - rewrite Z.quot_div_nonneg, Z.rem_mod_nonneg by lia.
    pose proof (Z.div_mod n 64 ltac:(lia)) as Hdm.
    pose proof (Z.mod_pos_bound n 64 ltac:(lia)) as Hmb.
    set (k := if n mod 64 >? 0 then n / 64 + 1 else n / 64).
    assert (k = (n + 63) / 64) as Hk.
    { unfold k. case_if; [apply Z.div_unique with (n mod 64 - 1)
                         |apply Z.div_unique with 63]; lia. }
    assert (num_longs bm < k) by (unfold k; case_if; lia).
    unfold grow_words. rewrite (proj2 (Z.leb_le _ k)), (proj2 (Z.leb_le _ _)) by lia.
    cbn [andb mbind option_bind]. rewrite take_ge by lia.
    eexists. split; [done|]. split_and!.
    + constructor; cbn; rewrite ?length_app, ?length_replicate; try lia.
      * apply Forall_app. split; [done|]. apply Forall_replicate.
        split; [lia|]. unfold LONG_BITS. lia.
      * unfold LONG_BITS. unfold k. case_if; lia.
    + done.
    + intros b. unfold view. cbn. by rewrite wget_app_zero.
    + cbn. lia.
Qed.

Lemma view_word_update (bm : pbs_bitmap) (i v : Z) (f : Z -> bool) :
  0 <= i < Z.of_nat (length (bits bm)) ->
  (forall c, 0 <= c -> c / LONG_BITS = i -> Z.testbit v (c mod LONG_BITS) = f c) ->
  (forall c, 0 <= c -> c / LONG_BITS <> i -> f c = view bm c) ->
  forall c, 0 <= c -> view (set_bits bm (<[Z.to_nat i := v]> (bits bm))) c = f c.
Proof.
  intros Hi Hv Hf c Hc. unfold view at 1. rewrite (proj2 (Z.ltb_ge c 0)) by done. cbn.
  rewrite wget_insert by done. destruct (Z.eqb_spec (c / LONG_BITS) i) as [He|Hne].
  - by apply Hv.
  - rewrite Hf by done. unfold view. by rewrite (proj2 (Z.ltb_ge c 0)) by done.
Qed.

Lemma wf_set_bits (bm : pbs_bitmap) (i : nat) (v : Z) :
  wf bm -> is_word v -> wf (set_bits bm (<[i := v]> (bits bm))).
Proof.
  intros [Hl Hw Hb] Hv. constructor; cbn; rewrite ?length_insert; [done| |done].
  by apply Forall_insert.
Qed.

Lemma view_word (bm : pbs_bitmap) (b w : Z) :
  0 <= b -> bits bm !! Z.to_nat (b / LONG_BITS) = Some w ->
  view bm b = Z.testbit w (b mod LONG_BITS).
Proof.
  intros Hb Hw. unfold view, wget. by rewrite (proj2 (Z.ltb_ge b 0)), Hw by done.
Qed.

(** The word update of [pbs_bitmap_bit_on]. *)
Lemma set_word_spec (bm : pbs_bitmap) (bit : Z) :
  wf bm -> 0 <= bit < num_bits bm ->
  exists w, rd (bits bm) (bit / LONG_BITS) = Some w /\
    let bs := <[Z.to_nat (bit / LONG_BITS) := Z.lor w (bit_mask (bit mod LONG_BITS))]> (bits bm) in
    wr (bits bm) (bit / LONG_BITS) (Z.lor w (bit_mask (bit mod LONG_BITS))) = Some bs /\
    wf (set_bits bm bs) /\
    forall b, 0 <= b -> view (set_bits bm bs) b = (b =? bit) || view bm b.
Proof.
  intros Hwf Hb. pose proof (bit_word_index bm bit Hwf Hb) as Hi.
  destruct (rd_in _ _ Hi) as (w & Hrd & Hw). exists w. split; [done|]. cbv zeta.
  rewrite wr_in by done. pose proof (mod_range bit) as Hm.
  split_and!; [done| |].
  - apply wf_set_bits; [done|]. apply lor_word; [done|].
    destruct Hwf as [_ Hall _]. by eapply Forall_lookup_1.
  - apply view_word_update; [done| |].
    + intros c Hc He. rewrite testbit_set, (div_mod_eqb bit c), He, Z.eqb_refl by (apply mod_range || lia).
      cbn. f_equal. symmetry. apply view_word; [done|]. by rewrite He.
    + intros c Hc He. rewrite (div_mod_eqb bit c).
      by rewrite (proj2 (Z.eqb_neq (c / LONG_BITS) _)) by done.
Qed.

(** The word update of [pbs_bitmap_bit_off]. *)
Lemma clear_word_spec (bm : pbs_bitmap) (bit : Z) :
  wf bm -> 0 <= bit < num_bits bm ->
  exists w, rd (bits bm) (bit / LONG_BITS) = Some w /\
    let v := Z.land w (ULONG_MAX - bit_mask (bit mod LONG_BITS)) in
    let bs := <[Z.to_nat (bit / LONG_BITS) := v]> (bits bm) in
    wr (bits bm) (bit / LONG_BITS) v = Some bs /\ wf (set_bits bm bs) /\
    forall b, 0 <= b -> view (set_bits bm bs) b = negb (b =? bit) && view bm b.
Proof.
  intros Hwf Hb. pose proof (bit_word_index bm bit Hwf Hb) as Hi.
  destruct (rd_in _ _ Hi) as (w & Hrd & Hw). exists w. split; [done|]. cbv zeta.
  rewrite wr_in by done. pose proof (mod_range bit) as Hm.
  split_and!; [done| |].
  - apply wf_set_bits; [done|]. apply land_word.
    + destruct Hwf as [_ Hall _]. by eapply Forall_lookup_1.
    + unfold ULONG_MAX, bit_mask, uint64.
      pose proof (Z.mod_pos_bound (Z.shiftl 1 (bit mod LONG_BITS)) (2 ^ 64) ltac:(lia)).
      change (2 ^ 64) with 18446744073709551616 in *. lia.
  - apply view_word_update; [done| |].
    + intros c Hc He. rewrite testbit_clear, (div_mod_eqb bit c), He, Z.eqb_refl
        by (apply mod_range || lia).
      cbn. f_equal. symmetry. apply view_word; [done|]. by rewrite He.
    + intros c Hc He. rewrite (div_mod_eqb bit c).
      by rewrite (proj2 (Z.eqb_neq (c / LONG_BITS) _)) by done.
Qed.

(** ** Searching *)

Lemma scan_word_spec (w : Z) (fuel : nat) (i : Z) :
  0 <= i <= LONG_BITS -> (LONG_BITS - i < Z.of_nat fuel) ->
  match scan_word fuel w i with
  | Some j => i <= j < LONG_BITS /\ Z.testbit w j = true /\
              forall k, i <= k < j -> Z.testbit w k = false
  | None => forall k, i <= k < LONG_BITS -> Z.testbit w k = false
  end.
Proof.
  revert i. induction fuel as [|fuel IH]; intros i Hi Hf; [lia|]. cbn [scan_word].
  destruct (Z.ltb_spec i LONG_BITS) as [Hlt|Hge]; [|intros k ?; lia].
  rewrite land_mask by lia. destruct (Z.testbit w i) eqn:E.
  { split_and!; [lia..|done|]. intros k ?. lia. }
  specialize (IH (i + 1) ltac:(lia) ltac:(lia)).
  assert (forall k, i <= k -> k = i \/ i + 1 <= k) as Hk by lia.
  destruct (scan_word fuel w (i + 1)) as [j|].
  - destruct IH as (? & ? & IH). split_and!; [lia..|done|].
    intros k ?. destruct (Hk k) as [->|]; [lia|done|]. apply IH. lia.
  - intros k ?. destruct (Hk k) as [->|]; [lia|done|]. apply IH. lia.
Qed.

Lemma skip_zero_spec (bm : pbs_bitmap) (fuel : nat) (k : Z) :
  wf bm -> 0 <= k <= num_longs bm -> num_longs bm - k < Z.of_nat fuel ->
  exists r, skip_zero fuel bm k = Some r /\ k <= r <= num_longs bm /\
    (forall j, k <= j < r -> bits bm !! Z.to_nat j = Some 0) /\
    (r < num_longs bm -> exists w, bits bm !! Z.to_nat r = Some w /\ w <> 0).
Proof.
  intros Hwf. pose proof (wf_longs _ Hwf) as Hl. revert k.
  induction fuel as [|fuel IH]; intros k Hk Hf; [lia|]. cbn [skip_zero].
  destruct (Z.ltb_spec k (num_longs bm)) as [Hlt|Hge].
  - destruct (rd_in (bits bm) k ltac:(lia)) as (w & -> & Hw). cbn [mbind option_bind].
    destruct (Z.eqb_spec w 0) as [->|Hne].
    + destruct (IH (k + 1) ltac:(lia) ltac:(lia)) as (r & -> & ? & Hz & ?).
      exists r. split_and!; [done|lia..| |done]. intros j ?.
      destruct (decide (j = k)) as [->|]; [done|]. apply Hz. lia.
    + exists k. split_and!; [done|lia..| |eauto]. intros j ?. lia.
  - exists k. split_and!; [done|lia..| |lia]. intros j ?. lia.
Qed.

Lemma word_zero (w : Z) :
  is_word w -> (forall k, 0 <= k < LONG_BITS -> Z.testbit w k = false) -> w = 0.
Proof.
  intros Hw Hk. rewrite <-(Z.mod_small w (2 ^ LONG_BITS)) by done.
  apply Z.bits_inj'. intros n Hn. rewrite Z.bits_0.
  destruct (decide (n < LONG_BITS)) as [Hlt|Hge].
  - rewrite Z.mod_pow2_bits_low by done. by apply Hk.
  - apply Z.mod_pow2_bits_high. unfold LONG_BITS in *. lia.
Qed.

(** [r] is the first bit that is on from the bit [from] on, or -1. *)
Definition first_from (bm : pbs_bitmap) (from r : Z) : Prop :=
  (r = -1 /\ forall b, from <= b -> view bm b = false) \/
  (from <= r /\ view bm r = true /\ forall b, from <= b < r -> view bm b = false).

Lemma first_from_skip (bm : pbs_bitmap) (from to r : Z) :
  from <= to -> (forall b, from <= b < to -> view bm b = false) ->
  first_from bm to r -> first_from bm from r.
Proof.
  intros Hle Hz [[-> Hn]|(? & ? & Hn)]; [left|right; split_and!; [lia|done|]].
  - split; [done|]. intros b ?. destruct (decide (b < to)); [apply Hz|apply Hn]; lia.
  - intros b ?. destruct (decide (b < to)); [apply Hz|apply Hn]; lia.
Qed.

Lemma view_beyond (bm : pbs_bitmap) (b : Z) :
  wf bm -> LONG_BITS * num_longs bm <= b -> view bm b = false.
Proof.
  intros [Hl _ Hb] Hge. unfold view, wget, LONG_BITS in *.
  destruct (b <? 0); [done|]. rewrite lookup_ge_None_2; [done|].
  assert (num_longs bm <= b / 64) by (apply Z.div_le_lower_bound; lia). lia.
Qed.

Lemma view_at (bm : pbs_bitmap) (k j w : Z) :
  0 <= k -> 0 <= j < LONG_BITS -> bits bm !! Z.to_nat k = Some w ->
  view bm (k * LONG_BITS + j) = Z.testbit w j.
Proof.
  unfold LONG_BITS. intros Hk Hj Hw.
  assert ((k * 64 + j) / 64 = k) as Hd by (symmetry; apply Z.div_unique with j; lia).
  assert ((k * 64 + j) mod 64 = j) as Hm by (symmetry; apply Z.mod_unique with k; lia).
  rewrite (view_word _ _ w) by (unfold LONG_BITS; rewrite ?Hd; done || lia).
  unfold LONG_BITS. by rewrite Hm.
Qed.

Lemma split_bit (b : Z) : b = b / LONG_BITS * LONG_BITS + b mod LONG_BITS.
Proof. unfold LONG_BITS. pose proof (Z.div_mod b 64). lia. Qed.

(** The search inside one word, from its bit [i] on, continued by [rest]. *)
Lemma scan_in_word (bm : pbs_bitmap) (k i w r : Z) (rest : option Z) :
  wf bm -> small bm -> 0 <= k < num_longs bm -> 0 <= i <= LONG_BITS ->
  bits bm !! Z.to_nat k = Some w ->
  (scan_word 65 w i = None -> exists r', rest = Some r' /\
     first_from bm ((k + 1) * LONG_BITS) r') ->
  exists r, match scan_word 65 w i with
            | Some j => Some (int32 (k * LONG_BITS + j))
            | None => rest
            end = Some r /\ first_from bm (k * LONG_BITS + i) r.
Proof.
  intros Hwf Hs Hk Hi Hw Hrest.
  pose proof (scan_word_spec w 65 i Hi ltac:(unfold LONG_BITS in *; lia)) as Hscan.
  destruct (scan_word 65 w i) as [j|].
  - destruct Hscan as (Hj & Hon & Hoff). eexists. split; [done|].
    unfold small, LONG_BITS in *. rewrite int32_id
      by (unfold in_int, INT_MIN, INT_MAX in *; lia).
    right. split_and!; [lia| |].
    + rewrite (view_at _ _ _ w) by (unfold LONG_BITS; done || lia). done.
    + intros b Hb. replace b with (k * 64 + (b - k * 64)) by lia.
      rewrite (view_at _ _ _ w) by (unfold LONG_BITS; done || lia). apply Hoff. lia.
  - destruct (Hrest eq_refl) as (r' & -> & Hf). exists r'. split; [done|].
    apply (first_from_skip bm _ ((k + 1) * LONG_BITS)); [unfold LONG_BITS in *; lia| |done].
    intros b Hb. unfold LONG_BITS in *. replace b with (k * 64 + (b - k * 64)) by lia.
    rewrite (view_at _ _ _ w) by (unfold LONG_BITS; done || lia). apply Hscan. lia.
Qed.

Lemma next_from_word_spec (bm : pbs_bitmap) (k : Z) :
  wf bm -> small bm -> 0 <= k <= num_longs bm ->
  exists r, next_from_word bm k = Some r /\ first_from bm (k * LONG_BITS) r.
Proof.
  intros Hwf Hs Hk. pose proof (wf_longs _ Hwf) as Hl. unfold next_from_word.
  destruct (skip_zero_spec bm (S (length (bits bm))) k Hwf Hk ltac:(lia))
    as (q & -> & Hq & Hz & Hnz). cbn [mbind option_bind].
  assert (forall b, k * LONG_BITS <= b < q * LONG_BITS -> view bm b = false) as Hskip.
  { intros b Hb. unfold LONG_BITS in *. rewrite (split_bit b).
    assert (k <= b / 64 < q) by (split; [apply Z.div_le_lower_bound|
                                         apply Z.div_lt_upper_bound]; lia).
    rewrite (view_at _ _ _ 0) by first [apply mod_range|apply Hz; unfold LONG_BITS; lia|unfold LONG_BITS; lia].
    apply Z.bits_0. }
  destruct (Z.eqb_spec q (num_longs bm)) as [->|Hne].
  - exists (-1). split; [done|]. apply (first_from_skip bm _ (num_longs bm * LONG_BITS));
      [unfold LONG_BITS; lia|done|].
    left. split; [done|]. intros b Hb. apply view_beyond; [done|lia].
  - destruct (Hnz ltac:(lia)) as (w & Hw & Hw0).
    unfold rd. rewrite (proj2 (Z.ltb_ge q 0)), Hw by lia. cbn [mbind option_bind].
    destruct (scan_in_word bm q 0 w 0 (Some (-1)) Hwf Hs ltac:(lia)
                ltac:(unfold LONG_BITS; lia) Hw) as (r & Hr & Hf).
    { intros Hnone. exfalso. apply Hw0. apply word_zero.
      - pose proof (wf_words _ Hwf). by eapply Forall_lookup_1.
      - pose proof (scan_word_spec w 65 0 ltac:(unfold LONG_BITS; lia)
                      ltac:(unfold LONG_BITS; lia)) as Hsc. by rewrite Hnone in Hsc. }
    exists r. split; [done|]. rewrite Z.add_0_r in Hf.
    apply (first_from_skip bm _ (q * LONG_BITS)); [unfold LONG_BITS; lia|done|done].
Qed.

Lemma next_on_bit_spec (bm : pbs_bitmap) (start : Z) :
  wf bm -> small bm -> 0 <= start < num_bits bm ->
  exists r, pbs_bitmap_next_on_bit (Some bm) start = Some r /\
            first_from bm (start + 1) r.
Proof.
  intros Hwf Hs Hst. pose proof (wf_longs _ Hwf) as Hl.
  pose proof (bit_word_index bm start Hwf Hst) as Hi. pose proof (mod_range start) as Hm.
  unfold pbs_bitmap_next_on_bit.
  rewrite Z.geb_leb, (proj2 (Z.leb_gt _ start)) by lia.
  rewrite Z.quot_div_nonneg, Z.rem_mod_nonneg by (unfold LONG_BITS; lia).
  destruct (rd_in _ _ Hi) as (w & -> & Hw). cbn [mbind option_bind].
  set (k := start / LONG_BITS) in *. set (j := start mod LONG_BITS) in *.
  assert (start = k * LONG_BITS + j) as He by (apply split_bit).
  destruct (Z.eqb_spec w 0) as [->|Hw0]; cbn [negb].
  - destruct (next_from_word_spec bm k Hwf Hs ltac:(lia)) as (r & -> & Hf).
    exists r. split; [done|].
    destruct (decide (r = -1)) as [->|]; [left|].
    + destruct Hf as [[_ Hn]|[? _]]; [|unfold LONG_BITS in *; lia].
      split; [done|]. intros b ?. apply Hn. lia.
    + destruct Hf as [[? _]|(? & Hon & Hn)]; [done|].
      assert (start < r).
      { destruct (decide (start < r)); [done|exfalso].
        replace r with (k * LONG_BITS + (r - k * LONG_BITS)) in Hon by lia.
        rewrite (view_at _ _ _ 0), Z.bits_0 in Hon; [done|lia..|done]. }
      right. split_and!; [lia|done|]. intros b ?. apply Hn. lia.
  - rewrite (proj2 (Z.ltb_lt k (num_longs bm))) by lia.
    replace (start + 1) with (k * LONG_BITS + (j + 1)) by lia.
    apply (scan_in_word bm k (j + 1) w 0); try done; [lia..|].
    intros _. apply next_from_word_spec; [done..|lia].
Qed.

(** ** Copying, zeroing and comparing words *)

Lemma copy_words_spec (R : pbs_bitmap) (fuel : nat) : forall (L : list Z) (i : Z),
  wf R -> 0 <= i <= num_longs R -> num_longs R <= Z.of_nat (length L) ->
  num_longs R - i < Z.of_nat fuel ->
  exists L', copy_words fuel L R i = Some L' /\ length L' = length L /\
    forall k : nat, L' !! k = if decide (i <= Z.of_nat k < num_longs R)
                              then bits R !! k else L !! k.
Proof.
  induction fuel as [|fuel IH]; intros L i Hwf Hi HL Hf; [lia|]; cbn [copy_words];
    pose proof (wf_longs _ Hwf) as Hl;
    destruct (Z.ltb_spec i (num_longs R)) as [Hlt|Hge].
  - destruct (rd_in (bits R) i ltac:(lia)) as (w & -> & Hw). cbn [mbind option_bind].
    rewrite wr_in by lia. cbn [mbind option_bind].
    destruct (IH (<[Z.to_nat i := w]> L) (i + 1) Hwf ltac:(lia)
                ltac:(rewrite length_insert; lia) ltac:(lia)) as (L' & -> & Hlen & Hk).
    exists L'. split; [done|]. split; [by rewrite Hlen, length_insert|].
    intros k. rewrite Hk. repeat case_decide; try lia; try done.
    + assert (Z.to_nat i = k) as <- by lia.
      by rewrite list_lookup_insert_eq, Hw by lia.
    + by rewrite list_lookup_insert_ne by lia.
  - exists L. split_and!; [done..|]. intros k. case_decide; [lia|done].
Qed.

Lemma zero_words_spec (fuel : nat) : forall (bm : pbs_bitmap) (i : Z),
  0 <= i -> num_longs bm = Z.of_nat (length (bits bm)) ->
  num_longs bm - i <= Z.of_nat fuel ->
  exists bm', zero_words (S fuel) bm i = Some bm' /\
    num_longs bm' = num_longs bm /\ num_bits bm' = num_bits bm /\
    length (bits bm') = length (bits bm) /\
    forall k : nat, bits bm' !! k = if decide (i <= Z.of_nat k < num_longs bm)
                                    then Some 0 else bits bm !! k.
Proof.
  induction fuel as [|fuel IH]; intros bm i Hi Hl Hf.
  - cbn. rewrite (proj2 (Z.ltb_ge i _)) by lia.
    exists bm. split_and!; [done..|]. intros k. case_decide; [lia|done].
  - remember (S fuel) as f. cbn [zero_words]. subst f.
    destruct (Z.ltb_spec i (num_longs bm)) as [Hlt|Hge].
    + rewrite wr_in by lia. cbn [mbind option_bind].
      destruct (IH (set_bits bm (<[Z.to_nat i:=0]> (bits bm))) (i + 1) ltac:(lia))
        as (bm' & -> & Hnl & Hnb & Hlen & Hk); cbn in *; rewrite ?length_insert; try lia.
      exists bm'. rewrite length_insert in Hlen. split_and!; [done..|].
      intros k. rewrite Hk. repeat case_decide; try lia; try done.
      * assert (Z.to_nat i = k) as <- by lia. by rewrite list_lookup_insert_eq by lia.
      * by rewrite list_lookup_insert_ne by lia.
    + exists bm. split_and!; [done..|]. intros k. case_decide; [lia|done].
Qed.

Lemma wget_ext (a b : list Z) (c : Z) :
  default 0 (a !! Z.to_nat (c / LONG_BITS)) = default 0 (b !! Z.to_nat (c / LONG_BITS)) ->
  wget a c = wget b c.
Proof.
  unfold wget. destruct (a !! _), (b !! _); cbn; intros Hd; subst; by rewrite ?Z.bits_0.
Qed.

Lemma view_ext (a b : pbs_bitmap) :
  (forall k : nat, default 0 (bits a !! k) = default 0 (bits b !! k)) ->
  forall c, view a c = view b c.
Proof. intros Hk c. unfold view. destruct (c <? 0); [done|]. by apply wget_ext. Qed.

Lemma is_word_0 : is_word 0.
Proof. unfold is_word, LONG_BITS. lia. Qed.

(** The copy of [pbs_bitmap_assign], once [L] is at least as long as [R]. *)
Lemma assign_copy_spec (L R : pbs_bitmap) :
  wf L -> wf R -> num_longs R <= num_longs L ->
  exists L',
    copy_bits R L = Some (1, Some L') /\
    wf L' /\ num_bits L' = num_bits R /\ num_longs L' = num_longs L /\
    forall b, view L' b = view R b.
Proof.
  intros [HlL HwL HbL] HR Hle. pose proof HR as [HlR HwR HbR]. unfold copy_bits.
  destruct (copy_words_spec R (S (length (bits R))) (bits L) 0 HR ltac:(lia) ltac:(lia)
              ltac:(lia)) as (bs & -> & Hlen & Hk). cbn [mbind option_bind].
  assert (exists L', (if num_longs R <? num_longs L
           then zero_words (S (length bs)) (set_bits L bs) (num_longs R)
           else Some (set_bits L bs)) = Some L' /\ num_longs L' = num_longs L /\
         length (bits L') = length (bits L) /\
         forall k, default 0 (bits L' !! k) = default 0 (bits R !! k)) as (L' & -> & Hnl & Hll & Hbits).
  { destruct (Z.ltb_spec (num_longs R) (num_longs L)) as [Hlt|Hge].
    - destruct (zero_words_spec (length bs) (set_bits L bs) (num_longs R))
        as (L' & -> & ? & ? & ? & Hz); cbn in *; [lia..|].
      exists L'. split_and!; [done..|lia|]. intros k. rewrite Hz, Hk.
      repeat case_decide; try lia; rewrite (lookup_ge_None_2 (bits R)) by lia; [done|].
      by rewrite lookup_ge_None_2 by lia.
    - exists (set_bits L bs). split_and!; [done..|]. cbn. intros k. rewrite Hk.
      case_decide; [done|]. by rewrite !lookup_ge_None_2 by lia. }
  cbn [mbind option_bind]. eexists. split; [done|]. split_and!; cbn; [|done|done|].
  - constructor; cbn; [lia| |unfold LONG_BITS in *; lia].
    apply Forall_lookup_2. intros k w Hw. specialize (Hbits k). rewrite Hw in Hbits.
    cbn in Hbits. subst w. destruct (bits R !! k) eqn:E; cbn; [|apply is_word_0].
    by eapply Forall_lookup_1.
  - by apply view_ext.
Qed.

Lemma equal_words_spec (L R : pbs_bitmap) (fuel : nat) : forall i,
  num_longs L = Z.of_nat (length (bits L)) -> num_longs L <= Z.of_nat (length (bits R)) ->
  0 <= i <= num_longs L -> num_longs L - i < Z.of_nat fuel ->
  exists r, equal_words fuel L R i = Some r /\ (r = 0 \/ r = 1) /\
    (r = 1 <-> forall k : nat, i <= Z.of_nat k < num_longs L -> bits L !! k = bits R !! k).
Proof.
  induction fuel as [|fuel IH]; intros i Hl Hle Hi Hf; cbn [equal_words].
  { lia. }
  destruct (Z.ltb_spec i (num_longs L)) as [Hlt|Hge].
  - destruct (rd_in (bits L) i ltac:(lia)) as (a & -> & Ha). cbn [mbind option_bind].
    destruct (rd_in (bits R) i ltac:(lia)) as (b & -> & Hb). cbn [mbind option_bind].
    destruct (Z.eqb_spec a b) as [->|Hne]; cbn [negb].
    + destruct (IH (i + 1) Hl Hle ltac:(lia) ltac:(lia)) as (r & -> & Hr & Hiff).
      exists r. split_and!; [done..|]. rewrite Hiff. split; intros Hk k ?.
      * destruct (decide (Z.of_nat k = i)); [|apply Hk; lia].
        replace k with (Z.to_nat i) by lia. congruence.
      * apply Hk. lia.
    + exists 0. split_and!; [done|by left|]. split; [done|]. intros Hk.
      specialize (Hk (Z.to_nat i) ltac:(lia)). congruence.
  - exists 1. split_and!; [done|by right|]. split; [|done]. intros _ k ?. lia.
Qed.

(** ** Shrinking *)

(** The clearing loop of [pbs_bitmap_alloc], started at the first bit that is
    on above [nb]: it ends, and leaves the bits up to [nb] alone. *)
Lemma clear_loop_spec (alloc : option pbs_bitmap -> Z -> option (option pbs_bitmap))
    (nb top : Z) (fuel : nat) : forall (bm : pbs_bitmap) (i : Z),
  wf bm -> small bm -> clean bm -> 0 <= nb ->
  (forall b, top <= b -> view bm b = false) ->
  first_from bm (nb + 1) i -> (i = -1 \/ top - i < Z.of_nat fuel) -> (0 < fuel)%nat ->
  exists bm', clear_loop fuel (bit_off_with alloc) bm i = Some bm' /\ wf bm' /\
    num_bits bm' = num_bits bm /\ num_longs bm' = num_longs bm /\
    forall b, 0 <= b -> view bm' b = (b <=? nb) && view bm b.
Proof.
  induction fuel as [|fuel IH]; intros bm i Hwf Hs Hc Hnb Htop Hff Hf Hf0; [lia|].
  cbn [clear_loop]. destruct (Z.eqb_spec i (-1)) as [->|Hne].
  - exists bm. split_and!; [done..|]. intros b Hb. destruct (Z.leb_spec b nb); [done|].
    destruct Hff as [[_ Hn]|[? _]]; [|lia]. by rewrite Hn by lia.
  - destruct Hff as [[? _]|(Hi & Hon & Hoff)]; [done|].
    assert (i < num_bits bm) as Hlt.
    { destruct (decide (i < num_bits bm)) as [|Hge]; [done|]. by rewrite Hc in Hon by lia. }
    assert (i < top) by (destruct (decide (i < top)); [done|]; by rewrite Htop in Hon by lia).
    unfold bit_off_with. rewrite Z.geb_leb, (proj2 (Z.leb_gt _ i)) by lia.
    unfold clear_word. rewrite Z.quot_div_nonneg, Z.rem_mod_nonneg by (unfold LONG_BITS; lia).
    destruct (clear_word_spec bm i Hwf ltac:(lia)) as (w & -> & Hwr & Hwf1 & Hv).
    cbv zeta in Hwr. cbn [mbind option_bind]. rewrite Hwr. cbn [mbind option_bind].
    set (bm1 := set_bits bm _) in *.
    destruct (next_on_bit_spec bm1 i Hwf1 Hs ltac:(cbn; lia)) as (r & Hr & Hffr).
    rewrite Hr. cbn [mbind option_bind].
    assert (forall b, nb < b -> view bm b = false -> view bm1 b = false) as Hoff1.
    { intros b ? Hb. rewrite Hv, Hb by lia. by rewrite andb_false_r. }
    assert (forall b, nb + 1 <= b < i + 1 -> view bm1 b = false) as Hmid.
    { intros b Hb. rewrite Hv by lia. destruct (Z.eqb_spec b i) as [->|]; [done|].
      cbn. apply Hoff. lia. }
    destruct (IH bm1 r) as (bm' & Hcl & ? & ? & ? & Hview); try done.
    + intros b Hb. cbn in Hb. apply Hoff1; [lia|by apply Hc].
    + intros b Hb. apply Hoff1; [lia|by apply Htop].
    + by apply (first_from_skip bm1 _ (i + 1)); [lia|..].
    + destruct Hffr as [[? _]|[? _]]; [by left|right; lia].
    + lia.
    + exists bm'. split_and!; [done..|]. intros b Hb. rewrite Hview, Hv by done.
      destruct (Z.leb_spec b nb); [|done]. by rewrite (proj2 (Z.eqb_neq b i)) by lia.
Qed.

Lemma alloc_shrink_spec (fuel : nat) (bm : pbs_bitmap) (n : Z) :
  wf bm -> small bm -> clean bm -> 0 < n < num_bits bm -> (65 <= fuel)%nat ->
  exists bm', alloc_fuel (S fuel) (Some bm) n = Some (Some bm') /\ wf bm' /\
    num_bits bm' = n /\ num_longs bm' = num_longs bm /\
    forall b, 0 <= b -> view bm' b = (b <=? n) && view bm b.
Proof.
  intros Hwf Hs Hc Hn Hf. pose proof Hwf as [Hl Hw Hb].
  cbn [alloc_fuel from_option id]. remember (S fuel) as f eqn:Ef.
  rewrite (proj2 (Z.leb_gt n 0)), (proj2 (Z.ltb_lt n (num_bits bm))) by lia.
  rewrite Z.quot_div_nonneg by (unfold LONG_BITS; lia).
  assert (0 <= n / LONG_BITS < num_longs bm) as Hk.
  { unfold LONG_BITS in *. split; [apply Z.div_pos|apply Z.div_lt_upper_bound]; lia. }
  unfold small in Hs. rewrite int32_id by (unfold in_int, INT_MIN, LONG_BITS, INT_MAX in *; lia).
  destruct (zero_words_spec (length (bits bm)) bm (n / LONG_BITS + 1) ltac:(lia) Hl
              ltac:(lia)) as (bm0 & -> & Hnl & Hnb & Hlen & Hz). cbn [mbind option_bind].
  assert (wf bm0) as Hwf0.
  { constructor; [lia| |lia]. apply Forall_lookup_2. intros k w. rewrite Hz.
    case_decide; [intros [= <-]; apply is_word_0|]. intros. by eapply Forall_lookup_1. }
  set (top := (n / LONG_BITS + 1) * LONG_BITS).
  assert (forall b, 0 <= b -> view bm0 b = (b <? top) && view bm b) as Hv0.
  { intros b Hb0. unfold view, wget. rewrite (proj2 (Z.ltb_ge b 0)), Hz by done.
    assert (0 <= b / LONG_BITS) by (apply Z.div_pos; unfold LONG_BITS; lia).
    pose proof (split_bit b). pose proof (mod_range b). unfold top.
    case_decide as Hd.
    - rewrite (proj2 (Z.ltb_ge _ _)) by (unfold LONG_BITS in *; lia). apply Z.bits_0.
    - destruct (bits bm !! Z.to_nat (b / LONG_BITS)) eqn:E; [|by rewrite andb_false_r].
      apply lookup_lt_Some in E.
      by rewrite (proj2 (Z.ltb_lt _ _)) by (unfold LONG_BITS in *; lia). }
  assert (n < top) by (pose proof (split_bit n); pose proof (mod_range n); unfold top, LONG_BITS in *; lia).
  destruct (next_on_bit_spec bm0 n Hwf0 ltac:(unfold small; by rewrite Hnl) ltac:(lia))
    as (i & -> & Hi). cbn [mbind option_bind].
  destruct (clear_loop_spec (alloc_fuel fuel) n top f bm0 i)
    as (bm' & -> & Hwf' & Hnb' & Hnl' & Hv'); try done.
  - unfold small. by rewrite Hnl.
  - intros b Hb'. rewrite Hnb in Hb'. rewrite Hv0, Hc by lia. apply andb_false_r.
  - lia.
  - intros b ?. rewrite Hv0, (proj2 (Z.ltb_ge b top)) by lia. done.
  - destruct Hi as [[? _]|[? _]]; [by left|right].
    pose proof (split_bit n). pose proof (mod_range n).
    unfold top, LONG_BITS in *. lia.
  - lia.
  - cbn [mbind option_bind]. rewrite Z.geb_leb, (proj2 (Z.leb_le n _))
      by (rewrite Hnl', Hnl; unfold LONG_BITS in *; lia).
    eexists. split; [done|]. split_and!; cbn; [|done|lia|].
    + destruct Hwf' as [? ? ?]. constructor; cbn; [done|done|]. rewrite Hnl', Hnl.
      unfold LONG_BITS in *. lia.
    + intros b Hb'. change (view (set_num_bits bm' n) b) with (view bm' b).
      rewrite Hv', Hv0 by done. destruct (Z.leb_spec b n); [|done].
      by rewrite (proj2 (Z.ltb_lt b top)) by lia.
Qed.

(** ** The operations on a well-formed bitmap *)

(** An update at or past the end first grows the bitmap to hold the bit. *)
Lemma grow_for_bit (bm : pbs_bitmap) (bit : Z) :
  wf bm -> 0 <= bit ->
  exists bm1,
    (if bit >=? num_bits bm then pbs_bitmap_alloc (Some bm) (bit + 1)
     else Some (Some bm)) = Some (Some bm1) /\
    wf bm1 /\ num_bits bm1 = Z.max (num_bits bm) (bit + 1) /\
    (forall b, view bm1 b = view bm b) /\
    num_longs bm1 = Z.max (num_longs bm) ((num_bits bm1 + 63) / LONG_BITS).
Proof.
  intros Hwf Hb. rewrite Z.geb_leb. destruct (Z.leb_spec (num_bits bm) bit).
  - destruct (alloc_grow_spec 65 bm (bit + 1) Hwf ltac:(lia) ltac:(lia))
      as (bm1 & He & Hwf1 & Hn & Hv & Hl).
    exists bm1. split_and!; [exact He|done|lia|done|by rewrite Hn].
  - exists bm. split_and!; [done..|lia|done|].
    destruct Hwf as [? ? ?]. unfold LONG_BITS in *.
    assert ((num_bits bm + 63) / 64 < num_longs bm + 1)
      by (apply Z.div_lt_upper_bound; lia). lia.
Qed.

Lemma with_grow {A : Type} (c : bool) (g : option (option pbs_bitmap)) (bm : pbs_bitmap)
    (k : pbs_bitmap -> option (A * option pbs_bitmap)) (z : A) (bm1 : pbs_bitmap) :
  (if c then g else Some (Some bm)) = Some (Some bm1) ->
  (if c then r ← g; match r with None => Some (z, Some bm) | Some b => k b end
   else k bm) = k bm1.
Proof. destruct c; [intros ->; done|congruence]. Qed.

(** Setting a bit: it always succeeds, within the storage, growing the bitmap
    when the bit is past its end, and turns on that bit alone. *)
Theorem bit_on_spec (bm : pbs_bitmap) (bit : Z) :
  wf bm -> 0 <= bit ->
  exists bm', pbs_bitmap_bit_on (Some bm) bit = Some (1, Some bm') /\ wf bm' /\
    num_bits bm' = Z.max (num_bits bm) (bit + 1) /\
    (clean bm -> clean bm') /\
    forall b, 0 <= b -> view bm' b = (b =? bit) || view bm b.
Proof.
  intros Hwf Hb. destruct (grow_for_bit bm bit Hwf Hb) as (bm1 & Hg & Hwf1 & Hn & Hv & _).
  unfold pbs_bitmap_bit_on. rewrite (with_grow _ _ _ (fun b => set_word b bit) _ _ Hg).
  unfold set_word.
  rewrite Z.quot_div_nonneg, Z.rem_mod_nonneg by (unfold LONG_BITS; lia).
  destruct (set_word_spec bm1 bit Hwf1 ltac:(lia)) as (w & -> & Hwr & Hwf2 & Hv2).
  cbv zeta in Hwr. cbn [mbind option_bind]. rewrite Hwr. cbn [mbind option_bind].
  assert (forall b, 0 <= b -> view (set_bits bm1 (<[Z.to_nat (bit / LONG_BITS):=
    Z.lor w (bit_mask (bit mod LONG_BITS))]> (bits bm1))) b = (b =? bit) || view bm b) as Hv3
    by (intros b ?; rewrite Hv2, Hv by done; done).
  eexists. split; [done|]. split_and!; [done|done| |done].
  intros Hc b Hge. cbn in Hge. rewrite Hv3, Hc by lia.
  by rewrite (proj2 (Z.eqb_neq b bit)) by lia.
Qed.

(** Clearing a bit: likewise, it turns off that bit alone. *)
Theorem bit_off_spec (bm : pbs_bitmap) (bit : Z) :
  wf bm -> 0 <= bit ->
  exists bm', pbs_bitmap_bit_off (Some bm) bit = Some (1, Some bm') /\ wf bm' /\
    num_bits bm' = Z.max (num_bits bm) (bit + 1) /\
    (clean bm -> clean bm') /\
    forall b, 0 <= b -> view bm' b = negb (b =? bit) && view bm b.
Proof.
  intros Hwf Hb. destruct (grow_for_bit bm bit Hwf Hb) as (bm1 & Hg & Hwf1 & Hn & Hv & _).
  unfold pbs_bitmap_bit_off, bit_off_with. rewrite (with_grow _ _ _ (fun b => clear_word b bit) _ _ Hg).
  unfold clear_word.
  rewrite Z.quot_div_nonneg, Z.rem_mod_nonneg by (unfold LONG_BITS; lia).
  destruct (clear_word_spec bm1 bit Hwf1 ltac:(lia)) as (w & -> & Hwr & Hwf2 & Hv2).
  cbv zeta in Hwr. cbn [mbind option_bind]. rewrite Hwr. cbn [mbind option_bind].
  eexists. split; [done|]. split_and!; [done|done| |].
  - intros Hc b Hge. cbn in Hge. rewrite Hv2, Hv, Hc by lia. apply andb_false_r.
  - intros b ?. by rewrite Hv2, Hv.
Qed.

Lemma get_bit_spec (bm : pbs_bitmap) (bit : Z) :
  wf bm -> clean bm -> 0 <= bit -> num_bits bm <= INT_MAX ->
  pbs_bitmap_get_bit (Some bm) bit = Some (if view bm bit then 1 else 0).
Proof.
  intros Hwf Hc Hb Hs. unfold pbs_bitmap_get_bit. rewrite Z.geb_leb.
  rewrite uint64_id by (pose proof (wf_bits _ Hwf); unfold INT_MAX, ULONG_MAX in *; lia).
  destruct (Z.leb_spec (num_bits bm) bit) as [Hge|Hlt].
  { by rewrite Hc. }
  destruct (rd_in _ _ (bit_word_index bm bit Hwf ltac:(lia))) as (w & -> & Hw).
  cbn [mbind option_bind]. rewrite land_mask by apply mod_range.
  by rewrite (view_word _ _ w).
Qed.

(** Iteration: the first-bit and next-bit searches find the lowest bit that is
    on from the start or after the given bit, and [-1] when there is none; on
    a clean bitmap the bit found is one of the bitmap's. *)
Theorem iterate_spec (bm : pbs_bitmap) (start : Z) :
  wf bm -> small bm -> clean bm -> 0 < num_bits bm -> 0 <= start ->
  (exists f, pbs_bitmap_first_on_bit (Some bm) = Some f /\ first_from bm 0 f /\
             f < num_bits bm) /\
  (exists r, pbs_bitmap_next_on_bit (Some bm) start = Some r /\
             first_from bm (start + 1) r /\ r < num_bits bm).
Proof.
  intros Hwf Hs Hc Hn Hst.
  assert (forall from r, first_from bm from r -> r < num_bits bm) as Hlt.
  { intros from r [[-> _]|(_ & Hon & _)]; [lia|].
    destruct (decide (r < num_bits bm)); [done|]. by rewrite Hc in Hon by lia. }
  split.
  - unfold pbs_bitmap_first_on_bit.
    rewrite get_bit_spec by (try done; pose proof (wf_bits _ Hwf);
      unfold small, LONG_BITS in *; lia). cbn [mbind option_bind].
    destruct (view bm 0) eqn:E; cbn [negb Z.eqb].
    + exists 0. split_and!; [done| |done]. right. split_and!; [done..|lia].
    + destruct (next_on_bit_spec bm 0 Hwf Hs ltac:(lia)) as (r & -> & Hr).
      exists r. split_and!; [done| |by eapply Hlt].
      apply (first_from_skip bm 0 1); [lia| |done]. intros b ?. by replace b with 0 by lia.
  - destruct (decide (start < num_bits bm)) as [Hin|Hout].
    + destruct (next_on_bit_spec bm start Hwf Hs ltac:(lia)) as (r & -> & Hr). eauto.
    + exists (-1). unfold pbs_bitmap_next_on_bit.
      rewrite Z.geb_leb, (proj2 (Z.leb_le _ _)) by lia.
      split_and!; [done| |lia]. left. split; [done|]. intros b ?. apply Hc. lia.
Qed.

(** Assignment makes [L] the same set of bits as [R], growing it if needed. *)
Theorem assign_spec (L R : pbs_bitmap) :
  wf L -> wf R ->
  exists L', pbs_bitmap_assign (Some L) (Some R) = Some (1, Some L') /\ wf L' /\
    num_bits L' = num_bits R /\ (clean R -> clean L') /\
    forall b, view L' b = view R b.
Proof.
  intros HL HR. pose proof HL as [HlL HwL HbL]. pose proof HR as [HlR HwR HbR].
  assert (exists L1, (if num_longs R >? num_longs L
            then pbs_bitmap_alloc (Some L) (LONG_BITS * num_longs R)
            else Some (Some L)) = Some (Some L1) /\ wf L1 /\ num_longs R <= num_longs L1)
    as (L1 & Hg & HL1 & Hle).
  { rewrite Z.gtb_ltb. destruct (Z.ltb_spec (num_longs L) (num_longs R)) as [Hlt|Hge].
    - destruct (alloc_grow_spec 65 L (LONG_BITS * num_longs R) HL) as (L1 & He & H1 & _ & _ & Hn);
        [unfold LONG_BITS in *; lia..|].
      exists L1. split_and!; [exact He|done|]. rewrite Hn. unfold LONG_BITS.
      assert (num_longs R <= (64 * num_longs R + 63) / 64)
        by (apply Z.div_le_lower_bound; lia). lia.
    - exists L. split_and!; [done..|lia]. }
  unfold pbs_bitmap_assign. rewrite (with_grow _ _ _ (copy_bits R) _ _ Hg).
  destruct (assign_copy_spec L1 R HL1 HR Hle) as (L' & -> & Hwf & Hn & _ & Hv).
  exists L'. split_and!; try done. intros Hc b Hb. rewrite Hv. apply Hc. lia.
Qed.

Lemma view_lookup (bm : pbs_bitmap) (k : nat) (w j : Z) :
  bits bm !! k = Some w -> 0 <= j < LONG_BITS ->
  view bm (Z.of_nat k * LONG_BITS + j) = Z.testbit w j.
Proof. intros Hk Hj. apply view_at; [lia|done|by rewrite Nat2Z.id]. Qed.

(** Words that show the same bits are equal. *)
Lemma word_ext (v w : Z) :
  is_word v -> is_word w ->
  (forall j, 0 <= j < LONG_BITS -> Z.testbit v j = Z.testbit w j) -> v = w.
Proof.
  intros Hv Hw Hj. rewrite <-(Z.mod_small v (2 ^ LONG_BITS)), <-(Z.mod_small w (2 ^ LONG_BITS)) by done.
  apply Z.bits_inj'. intros n Hn. destruct (decide (n < LONG_BITS)) as [Hlt|Hge].
  - rewrite !Z.mod_pow2_bits_low by done. by apply Hj.
  - rewrite !Z.mod_pow2_bits_high by (unfold LONG_BITS in *; lia). done.
Qed.

(** Comparison decides whether the two bitmaps have the same length and the
    same bits, when [R] has at least the storage of [L]. *)
Theorem is_equal_spec (L R : pbs_bitmap) :
  wf L -> wf R -> clean L -> clean R -> num_longs L <= num_longs R ->
  exists r, pbs_bitmap_is_equal (Some L) (Some R) = Some r /\ (r = 0 \/ r = 1) /\
    (r = 1 <-> num_bits L = num_bits R /\ forall b, view L b = view R b).
Proof.
  intros HL HR HcL HcR Hle. pose proof HL as [HlL HwL HbL]. pose proof HR as [HlR HwR HbR].
  unfold pbs_bitmap_is_equal.
  destruct (Z.eqb_spec (num_bits L) (num_bits R)) as [He|Hne]; cbn [negb].
  2:{ exists 0. split_and!; [done|by left|]. split; [done|]. by intros [? _]. }
  destruct (equal_words_spec L R (S (length (bits L))) 0 HlL ltac:(lia) ltac:(lia) ltac:(lia))
    as (r & -> & Hr & Hiff).
  exists r. split_and!; [done..|]. rewrite Hiff. split.
  - intros Hk. split; [done|]. intros b.
    destruct (decide (b < LONG_BITS * num_longs L)) as [Hin|Hout].
    + unfold view. destruct (Z.ltb_spec b 0); [done|]. unfold wget. rewrite Hk; [done|].
      unfold LONG_BITS in *. assert (b / 64 < num_longs L) by (apply Z.div_lt_upper_bound; lia).
      pose proof (Z.div_pos b 64). lia.
    + rewrite HcL, HcR by lia. done.
  - intros [_ Hv] k Hk.
    destruct (lookup_lt_is_Some_2 (bits L) k ltac:(lia)) as [v Ev].
    destruct (lookup_lt_is_Some_2 (bits R) k ltac:(lia)) as [w Ew].
    rewrite Ev, Ew. f_equal.
    apply word_ext; [exact (Forall_lookup_1 _ _ _ _ HwL Ev)|exact (Forall_lookup_1 _ _ _ _ HwR Ew)|].
    intros j Hj. by rewrite <-(view_lookup L k), <-(view_lookup R k), Hv.
Qed.

(** Resizing.  Growing keeps every bit.  Shrinking to [n] ends, keeps the
    storage and the bits below [n] and turns off those above [n]; the bit [n]
    itself, the first one past the new end, keeps its value. *)
Theorem alloc_spec (bm : pbs_bitmap) (n : Z) :
  wf bm -> small bm -> clean bm -> 0 < n ->
  exists bm', pbs_bitmap_alloc (Some bm) n = Some (Some bm') /\ wf bm' /\
    num_bits bm' = n /\
    num_longs bm' = Z.max (num_longs bm) ((n + 63) / LONG_BITS) /\
    forall b, 0 <= b -> view bm' b = ((num_bits bm <=? n) || (b <=? n)) && view bm b.
Proof.
  intros Hwf Hs Hc Hn. destruct (Z.leb_spec (num_bits bm) n) as [Hle|Hgt].
  - destruct (alloc_grow_spec 65 bm n Hwf Hn Hle) as (bm' & He & ? & ? & Hv & ?).
    exists bm'. split_and!; [exact He|done..|]. intros b _. by rewrite Hv.
  - destruct (alloc_shrink_spec 65 bm n Hwf Hs Hc ltac:(lia) ltac:(lia))
      as (bm' & He & ? & ? & Hl & Hv).
    exists bm'. split_and!; [exact He|done..| |exact Hv].
    pose proof (wf_bits _ Hwf). unfold LONG_BITS in *.
    assert ((n + 63) / 64 < num_longs bm + 1) by (apply Z.div_lt_upper_bound; lia). lia.
Qed.

(** ** Concrete bitmaps *)

Definition bits_on (n : Z) (l : list Z) : option (option pbs_bitmap) :=
  bm ← pbs_bitmap_alloc None n;
  foldl (fun acc i => bm ← acc; r ← pbs_bitmap_bit_on bm i; Some (snd r)) (Some bm) l.

Definition bm70 : pbs_bitmap :=
  {| bits := [Z.shiftl 1 3; Z.shiftl 1 5]; num_longs := 2; num_bits := 70 |}.

Lemma wf_bm70 : wf bm70.
Proof.
  constructor; [done| |unfold LONG_BITS; cbn; lia].
  repeat apply Forall_cons_2; [by cbv..|apply Forall_nil_2].
Qed.

Lemma clean_bm70 : clean bm70.
Proof.
  intros b Hb. cbn in Hb. unfold view, wget, LONG_BITS. rewrite (proj2 (Z.ltb_ge b 0)) by lia.
  assert (1 <= b / 64) by (apply Z.div_le_lower_bound; lia).
  destruct (Z.to_nat (b / 64)) as [|[|k]] eqn:E; [lia| |done]. cbn [bits bm70 lookup list_lookup].
  change (Z.shiftl 1 5) with (2 ^ 5). rewrite Z.pow2_bits_eqb by lia.
  apply Z.eqb_neq. assert (b / 64 = 1) by lia.
  pose proof (Z.div_mod b 64). lia.
Qed.

Lemma small_bm70 : small bm70.
Proof. unfold small, LONG_BITS, INT_MAX. cbn. lia. Qed.

Lemma bit_on_spec_witness :
  exists bm', pbs_bitmap_bit_on (Some bm70) 200 = Some (1, Some bm') /\ wf bm' /\
    num_bits bm' = 201 /\ (clean bm70 -> clean bm') /\
    forall b, 0 <= b -> view bm' b = (b =? 200) || view bm70 b.
Proof. apply (bit_on_spec bm70 200 wf_bm70). lia. Defined.

Lemma bit_off_spec_witness :
  exists bm', pbs_bitmap_bit_off (Some bm70) 69 = Some (1, Some bm') /\ wf bm' /\
    num_bits bm' = 70 /\ (clean bm70 -> clean bm') /\
    forall b, 0 <= b -> view bm' b = negb (b =? 69) && view bm70 b.
Proof. apply (bit_off_spec bm70 69 wf_bm70). lia. Defined.

Lemma iterate_spec_witness :
  (exists f, pbs_bitmap_first_on_bit (Some bm70) = Some f /\ first_from bm70 0 f /\ f < 70) /\
  (exists r, pbs_bitmap_next_on_bit (Some bm70) 3 = Some r /\ first_from bm70 4 r /\ r < 70).
Proof.
  apply (iterate_spec bm70 3 wf_bm70 small_bm70 clean_bm70); cbn; lia.
Defined.

Lemma assign_spec_witness :
  exists L', pbs_bitmap_assign (Some {| bits := [5]; num_longs := 1; num_bits := 4 |}) (Some bm70)
             = Some (1, Some L') /\ wf L' /\ num_bits L' = 70 /\ (clean bm70 -> clean L') /\
             forall b, view L' b = view bm70 b.
Proof.
  apply (assign_spec {| bits := [5]; num_longs := 1; num_bits := 4 |} bm70); [|apply wf_bm70].
  constructor; [done| |unfold LONG_BITS; cbn; lia].
  repeat apply Forall_cons_2; [by cbv..|apply Forall_nil_2].
Defined.

Lemma is_equal_spec_witness :
  exists r, pbs_bitmap_is_equal (Some bm70) (Some bm70) = Some r /\ (r = 0 \/ r = 1) /\
    (r = 1 <-> num_bits bm70 = num_bits bm70 /\ forall b, view bm70 b = view bm70 b).
Proof. apply (is_equal_spec bm70 bm70 wf_bm70 wf_bm70 clean_bm70 clean_bm70). lia. Defined.

Lemma alloc_spec_witness :
  exists bm', pbs_bitmap_alloc (Some bm70) 20 = Some (Some bm') /\ wf bm' /\
    num_bits bm' = 20 /\ num_longs bm' = 2 /\
    forall b, 0 <= b -> view bm' b = ((num_bits bm70 <=? 20) || (b <=? 20)) && view bm70 b.
Proof. apply (alloc_spec bm70 20 wf_bm70 small_bm70 clean_bm70). lia. Defined.

(** ** What the code does at its edges *)

(** Shrinking to [n] bits leaves the bit [n] on, and the iteration then gives
    a bit that is not below the new length. *)
Lemma shrink_keeps_a_bit :
  let bm := {| bits := [0; 2112]; num_longs := 2; num_bits := 128 |} in
  let bm' := {| bits := [0; 64]; num_longs := 2; num_bits := 70 |} in
  bits_on 128 [70; 75] = Some (Some bm) /\ pbs_bitmap_alloc (Some bm) 70 = Some (Some bm') /\
  pbs_bitmap_next_on_bit (Some bm') 3 = Some 70.
Proof. split_and!; vm_compute; reflexivity. Qed.

(** A comparison whose left side has more words than the right side, as after
    an assignment into a longer bitmap, reads past the end of the right side. *)
Lemma is_equal_out_of_bounds :
  let L := {| bits := [1; 0]; num_longs := 2; num_bits := 128 |} in
  let R := {| bits := [2]; num_longs := 1; num_bits := 10 |} in
  let L' := {| bits := [2; 0]; num_longs := 2; num_bits := 10 |} in
  bits_on 128 [0] = Some (Some L) /\ bits_on 10 [1] = Some (Some R) /\
  pbs_bitmap_assign (Some L) (Some R) = Some (1, Some L') /\
  pbs_bitmap_is_equal (Some L') (Some R) = None.
Proof. split_and!; vm_compute; reflexivity. Qed.

End Bitmap.
