(* ===== verification/Doubles.v ===== *)
(** * C doubles

    The scheduler's [sch_resource_t] is a [double] ([src/scheduler/config.h],
    [src/scheduler/data_types.h]).  A double is a [spec_float] of the Standard
    Library's executable specification of IEEE 754, at the format binary64;
    the arithmetic rounds to nearest, ties to even.  The lemmas show that it is
    exact on the integers below 2^53. *)

From Stdlib Require Import ZArith Lia SpecFloat.
From S2P Require Import Prelude.

Module Double.

Definition double := spec_float.
Definition prec : Z := 53.
Definition emax : Z := 1024.

Definition dbl_add : double -> double -> double := SFadd prec emax.
Definition dbl_sub : double -> double -> double := SFsub prec emax.
Definition dbl_mul : double -> double -> double := SFmul prec emax.
Definition dbl_div : double -> double -> double := SFdiv prec emax.
Definition dbl_opp : double -> double := SFopp.

(** [a == b], [a < b], [a <= b]; the other comparisons swap the operands. *)
Definition dbl_eqb : double -> double -> bool := SFeqb.
Definition dbl_ltb : double -> double -> bool := SFltb.
Definition dbl_leb : double -> double -> bool := SFleb.
Definition dbl_gtb (a b : double) : bool := SFltb b a.

(** [(double) n] *)
Definition dbl_of_Z (n : Z) : double := binary_normalize prec emax n 0 false.

(** The double nearest to [n / d], for [0 <= n] and [0 < d] *)
Definition dbl_of_ratio (sign : bool) (n d : Z) : double :=
  if n =? 0 then S754_zero sign
  else let '(m, e, l) := SFdiv_core_binary prec emax n 0 d 0 in
       binary_round_aux prec emax sign m e l.

(** The integer part, rounded towards zero, of a finite double *)
Definition dbl_trunc (x : double) : option Z :=
  match x with
  | S754_zero _ => Some 0
  | S754_finite s m e =>
      let v := if e <? 0 then Z.shiftr (Zpos m) (- e) else Z.shiftl (Zpos m) e in
      Some (if s then - v else v)
  | _ => None
  end.

(** [(int) x].  C leaves a value outside [int] undefined; as the hardware does,
    it is then the smallest [int]. *)
Definition int_of_dbl (x : double) : Z :=
  match dbl_trunc x with
  | Some v => if (INT_MIN <=? v) && (v <=? INT_MAX) then v else INT_MIN
  | None => INT_MIN
  end.

(** [ceil(x)] *)
Definition dbl_ceil (x : double) : double :=
  match x with
  | S754_finite s m e =>
      if 0 <=? e then x
      else
        let v := Z.shiftr (Zpos m) (- e) in
        if s then (if v =? 0 then S754_zero true else dbl_of_Z (- v))
        else dbl_of_Z (if Z.shiftl v (- e) =? Zpos m then v else v + 1)
  | _ => x
  end.

(** ** Exactness on integers *)

(** The double of a positive integer below 2^53, with its sign *)
Definition canon (s : bool) (q : Z) : double :=
  S754_finite s (Z.to_pos (q * 2 ^ (52 - Z.log2 q))) (Z.log2 q - 52).

Lemma digits2_log2 (p : positive) : Zpos (digits2_pos p) = Z.log2 (Zpos p) + 1.
Proof.
  induction p as [p IH|p IH|]; cbn [digits2_pos]; [| |done]; rewrite Pos2Z.inj_succ, IH.
  - rewrite (Pos2Z.inj_xI p), Z.log2_succ_double by lia. lia.
  - rewrite (Pos2Z.inj_xO p), Z.log2_double by lia. lia.
Qed.

Lemma iter_xO (p n : positive) : Zpos (Pos.iter xO p n) = Zpos p * 2 ^ Zpos n.
Proof.
  induction n as [|n IH] using Pos.peano_ind; [cbn; lia|].
  rewrite Pos.iter_succ, Pos2Z.inj_succ, Z.pow_succ_r, (Pos2Z.inj_xO (Pos.iter _ _ _)), IH by lia. lia.
Qed.

Lemma iter_pos_nat {A : Type} (f : A -> A) (n : positive) :
  forall x, SpecFloat.iter_pos f n x = Nat.iter (Pos.to_nat n) f x.
Proof.
  induction n as [n IH|n IH|]; intros x; cbn [SpecFloat.iter_pos]; rewrite ?IH.
  - rewrite Pos2Nat.inj_xI. replace (S (2 * Pos.to_nat n))%nat
      with (Pos.to_nat n + (Pos.to_nat n + 1))%nat by lia. by rewrite !Nat.iter_add.
  - rewrite Pos2Nat.inj_xO. replace (2 * Pos.to_nat n)%nat
      with (Pos.to_nat n + Pos.to_nat n)%nat by lia. by rewrite Nat.iter_add.
  - done.
Qed.

Lemma shr_1_iter (n : nat) (q : Z) :
  0 < q ->
  Nat.iter n shr_1 {| shr_m := q * 2 ^ Z.of_nat n; shr_r := false; shr_s := false |}
  = {| shr_m := q; shr_r := false; shr_s := false |}.
Proof.
  revert q. induction n as [|n IH]; intros q Hq.
  - cbn. by rewrite Z.mul_1_r.
  - rewrite Nat.iter_succ. rewrite Nat2Z.inj_succ, Z.pow_succ_r by lia.
    replace (q * (2 * 2 ^ Z.of_nat n)) with ((2 * q) * 2 ^ Z.of_nat n) by lia.
    rewrite IH by lia. destruct q as [|q|]; [lia|done|lia].
Qed.

Lemma log2_shift (q k : Z) : 0 < q -> 0 <= k -> Z.log2 (q * 2 ^ k) = Z.log2 q + k.
Proof. intros. rewrite Z.log2_mul_pow2 by lia. lia. Qed.

(** Rounding aux on a mantissa that only has zeros to drop. *)
Lemma round_aux_exact (s : bool) (q k e : Z) :
  0 < q -> 0 <= k -> Z.log2 q = 52 -> -1074 <= e + k <= 971 ->
  binary_round_aux prec emax s (q * 2 ^ k) e loc_Exact = S754_finite s (Z.to_pos q) (e + k).
Proof.
  intros Hq Hk Hl He. unfold binary_round_aux, shr_fexp.
  assert (0 < q * 2 ^ k) as Hpos by (apply Z.mul_pos_pos; [lia|apply Z.pow_pos_nonneg; lia]).
  assert (forall z e', 0 < z -> fexp prec emax (Zdigits2 z + e') = Z.max (Z.log2 z + 1 + e' - 53) (-1074)) as Hf.
  { intros z e' Hz. destruct z as [|z|]; [lia| |lia]. cbn [Zdigits2]. by rewrite digits2_log2. }
  rewrite Hf, log2_shift, Hl by done.
  replace (Z.max (52 + k + 1 + e - 53) (-1074) - e) with k by lia.
  cbn [shr_record_of_loc].
  assert (shr {| shr_m := q * 2 ^ k; shr_r := false; shr_s := false |} e k
          = ({| shr_m := q; shr_r := false; shr_s := false |}, e + k)) as ->.
  { destruct k as [|k|]; cbn [shr]; [by rewrite Z.mul_1_r, Z.add_0_r| |lia].
    rewrite iter_pos_nat. rewrite <-(positive_nat_Z k). by rewrite shr_1_iter. }
  cbn [shr_m loc_of_shr_record round_nearest_even].
  rewrite Hf, Hl by done. replace (Z.max (52 + 1 + (e + k) - 53) (-1074) - (e + k)) with 0 by lia.
  cbn [shr shr_record_of_loc shr_m]. destruct q as [|q|]; [lia| |lia].
  rewrite (proj2 (Z.leb_le _ _)) by (unfold prec, emax; lia). done.
Qed.

(** Rounding an integer below 2^53 scaled by a power of two that cancels. *)
Lemma round_exact (s : bool) (p : positive) (q k : Z) :
  0 < q < 2 ^ 53 -> 0 <= k <= 200 -> Zpos p = q * 2 ^ k ->
  binary_round prec emax s p (- k) = canon s q.
Proof.
  intros Hq Hk Hp. assert (0 <= Z.log2 q <= 52) as Hl.
  { split; [apply Z.log2_nonneg|]. assert (Z.log2 q < 53); [|lia]. apply Z.log2_lt_pow2; lia. }
  unfold binary_round. rewrite digits2_log2, Hp, log2_shift by lia.
  unfold fexp, emin. change (3 - emax - prec) with (-1074). unfold prec at 1.
  replace (Z.max (Z.log2 q + k + 1 + - k - 53) (-1074)) with (Z.log2 q - 52) by lia.
  unfold shl_align, canon. set (m := q * 2 ^ (52 - Z.log2 q)).
  assert (0 < m) by (apply Z.mul_pos_pos; [lia|apply Z.pow_pos_nonneg; lia]).
  assert (Z.log2 m = 52) by (unfold m; rewrite log2_shift; lia).
  destruct (Z.log2 q - 52 - - k) as [|d|d] eqn:Ed.
  - replace (Zpos p) with (m * 2 ^ 0) by (rewrite Hp; unfold m; replace k with (52 - Z.log2 q) by lia; lia).
    rewrite round_aux_exact by lia. f_equal. lia.
  - replace (Zpos p) with (m * 2 ^ Zpos d).
    + rewrite round_aux_exact by lia. f_equal. lia.
    + rewrite Hp. unfold m. rewrite <-Z.mul_assoc, <-Z.pow_add_r by lia. f_equal. f_equal. lia.
  - rewrite iter_xO, Hp, <-Z.mul_assoc, <-Z.pow_add_r by lia.
    replace (q * 2 ^ (k + Zpos d)) with (m * 2 ^ 0)
      by (unfold m; replace (k + Zpos d) with (52 - Z.log2 q) by lia; lia).
    rewrite round_aux_exact by lia. f_equal. lia.
Qed.

(** The exact value of an integer double *)
Definition dbl_int (n : Z) : double :=
  if n =? 0 then S754_zero false else canon (n <? 0) (Z.abs n).

Lemma normalize_exact (m n k : Z) :
  - 2 ^ 53 < n < 2 ^ 53 -> 0 <= k <= 200 -> m = n * 2 ^ k ->
  binary_normalize prec emax m (- k) false = dbl_int n.
Proof.
  intros Hn Hk Hm. unfold dbl_int. assert (0 < 2 ^ k) by (apply Z.pow_pos_nonneg; lia).
  destruct m as [|p|p]; cbn [binary_normalize].
  - by rewrite (proj2 (Z.eqb_eq n 0)) by nia.
  - rewrite (proj2 (Z.eqb_neq n 0)), (proj2 (Z.ltb_ge n 0)) by nia.
    apply round_exact; [nia|done|nia].
  - rewrite (proj2 (Z.eqb_neq n 0)), (proj2 (Z.ltb_lt n 0)) by nia.
    apply round_exact; [nia|done|nia].
Qed.

Lemma dbl_of_Z_exact (n : Z) : - 2 ^ 53 < n < 2 ^ 53 -> dbl_of_Z n = dbl_int n.
Proof.
  intros Hn. unfold dbl_of_Z. change 0 with (- 0) at 1. apply normalize_exact; [done|lia|lia].
Qed.

(** Every integer below 2^53 in absolute value *)
Definition exact (n : Z) : Prop := - 2 ^ 53 < n < 2 ^ 53.

(** The mantissa and the exponent of a canonical double give the integer back. *)
Lemma canon_value (q : Z) :
  0 < q < 2 ^ 53 ->
  -52 <= Z.log2 q - 52 <= 0 /\
  Zpos (Z.to_pos (q * 2 ^ (52 - Z.log2 q))) = q * 2 ^ (52 - Z.log2 q).
Proof.
  intros Hq. assert (0 <= Z.log2 q < 53) as Hl.
  { split; [apply Z.log2_nonneg|]. apply Z.log2_lt_pow2; lia. }
  split; [lia|]. rewrite Z2Pos.id; [done|].
  apply Z.mul_pos_pos; [lia|apply Z.pow_pos_nonneg; lia].
Qed.

Lemma shl_align_value (q ez : Z) :
  0 < q < 2 ^ 53 -> ez <= Z.log2 q - 52 ->
  Zpos (fst (shl_align (Z.to_pos (q * 2 ^ (52 - Z.log2 q))) (Z.log2 q - 52) ez)) = q * 2 ^ (- ez).
Proof.
  intros Hq Hez. destruct (canon_value q Hq) as [Hr Hv]. unfold shl_align.
  destruct (ez - (Z.log2 q - 52)) as [|d|d] eqn:Ed; cbn [fst]; [| lia |].
  - rewrite Hv. f_equal. f_equal. lia.
  - rewrite iter_xO, Hv, <-Z.mul_assoc, <-Z.pow_add_r by lia. f_equal. f_equal. lia.
Qed.

Lemma cond_Zopp_abs (n : Z) (p : positive) (k : Z) :
  Zpos p = Z.abs n * 2 ^ k -> cond_Zopp (n <? 0) (Zpos p) = n * 2 ^ k.
Proof.
  intros ->. unfold cond_Zopp. destruct (Z.ltb_spec n 0).
  - rewrite Z.abs_neq by lia. lia.
  - by rewrite Z.abs_eq by lia.
Qed.

Lemma log2_small (q : Z) : 0 < q < 2 ^ 53 -> 0 <= Z.log2 q <= 52.
Proof. intros Hq. pose proof (canon_value q Hq). lia. Qed.

(** Addition, subtraction of the integers below 2^53 *)
Lemma dbl_add_exact (a b : Z) :
  exact a -> exact b -> exact (a + b) ->
  dbl_add (dbl_of_Z a) (dbl_of_Z b) = dbl_of_Z (a + b).
Proof.
  unfold exact. intros Ha Hb Hab. rewrite !dbl_of_Z_exact by done. unfold dbl_int at 1 2.
  destruct (Z.eqb_spec a 0) as [->|Ha0]; destruct (Z.eqb_spec b 0) as [->|Hb0].
  - done.
  - unfold dbl_int. by rewrite (proj2 (Z.eqb_neq (0 + b) 0)) by lia.
  - unfold dbl_int. by rewrite Z.add_0_r, (proj2 (Z.eqb_neq a 0)) by lia.
  - unfold dbl_add, canon. cbn [SFadd]. set (ez := Z.min _ _).
    pose proof (log2_small (Z.abs a) ltac:(lia)). pose proof (log2_small (Z.abs b) ltac:(lia)).
    rewrite (cond_Zopp_abs a _ (- ez)) by (apply shl_align_value; lia).
    rewrite (cond_Zopp_abs b _ (- ez)) by (apply shl_align_value; lia).
    rewrite <-Z.mul_add_distr_r. rewrite <-(Z.opp_involutive ez) at 2.
    apply normalize_exact; [lia|unfold ez; lia|done].
Qed.

Lemma dbl_mul_exact (a b : Z) :
  exact a -> exact b -> a <> 0 -> b <> 0 -> exact (a * b) ->
  dbl_mul (dbl_of_Z a) (dbl_of_Z b) = dbl_of_Z (a * b).
Proof.
  unfold exact. intros Ha Hb Ha0 Hb0 Hab. rewrite !dbl_of_Z_exact by done. unfold dbl_int.
  rewrite !(proj2 (Z.eqb_neq _ 0)) by nia. unfold dbl_mul, canon. cbn [SFmul].
  assert (Z.abs (a * b) = Z.abs a * Z.abs b) as Hm by apply Z.abs_mul.
  destruct (canon_value (Z.abs a) ltac:(lia)) as [Hra Hva].
  destruct (canon_value (Z.abs b) ltac:(lia)) as [Hrb Hvb].
  destruct (canon_value (Z.abs (a * b)) ltac:(lia)) as [Hrc Hvc].
  pose proof (Z.log2_mul_below (Z.abs a) (Z.abs b) ltac:(lia) ltac:(lia)) as Hlog.
  rewrite Pos2Z.inj_mul, Hva, Hvb.
  set (la := Z.log2 (Z.abs a)) in *. set (lb := Z.log2 (Z.abs b)) in *.
  rewrite <-Hm in Hlog. set (lc := Z.log2 (Z.abs (a * b))) in *.
  replace (Z.abs a * 2 ^ (52 - la) * (Z.abs b * 2 ^ (52 - lb)))
    with (Z.abs (a * b) * 2 ^ (52 - lc) * 2 ^ (52 + lc - la - lb)).
  - rewrite round_aux_exact.
    + f_equal; [|lia]. by destruct (Z.ltb_spec a 0), (Z.ltb_spec b 0), (Z.ltb_spec (a * b) 0); cbn; nia || done.
    + apply Z.mul_pos_pos; [lia|apply Z.pow_pos_nonneg; lia].
    + lia.
    + rewrite log2_shift by lia. unfold lc. lia.
    + lia.
  - rewrite Hm, <-Z.mul_assoc, <-Z.pow_add_r by lia.
    replace (52 - lc + (52 + lc - la - lb)) with ((52 - la) + (52 - lb)) by lia.
    rewrite Z.pow_add_r by lia. lia.
Qed.

Lemma dbl_sub_exact (a b : Z) :
  exact a -> exact b -> exact (a - b) ->
  dbl_sub (dbl_of_Z a) (dbl_of_Z b) = dbl_of_Z (a - b).
Proof.
  unfold exact. intros Ha Hb Hab. rewrite !dbl_of_Z_exact by done. unfold dbl_int at 1 2.
  destruct (Z.eqb_spec a 0) as [->|Ha0]; destruct (Z.eqb_spec b 0) as [->|Hb0].
  - done.
  - unfold dbl_int. rewrite (proj2 (Z.eqb_neq (0 - b) 0)) by lia.
    cbn [dbl_sub SFsub canon]. unfold dbl_sub, canon. cbn [SFsub].
    replace (Z.abs (0 - b)) with (Z.abs b) by lia. f_equal.
    destruct (Z.ltb_spec b 0), (Z.ltb_spec (0 - b) 0); cbn; done || lia.
  - unfold dbl_int. by rewrite Z.sub_0_r, (proj2 (Z.eqb_neq a 0)) by lia.
  - unfold dbl_sub, canon. cbn [SFsub]. set (ez := Z.min _ _).
    pose proof (log2_small (Z.abs a) ltac:(lia)). pose proof (log2_small (Z.abs b) ltac:(lia)).
    rewrite (cond_Zopp_abs a _ (- ez)) by (apply shl_align_value; lia).
    rewrite (cond_Zopp_abs b _ (- ez)) by (apply shl_align_value; lia).
    rewrite <-Z.mul_sub_distr_r. rewrite <-(Z.opp_involutive ez) at 2.
    apply normalize_exact; [lia|unfold ez; lia|done].
Qed.

(** Comparison of canonical doubles is comparison of the integers. *)
Lemma canon_compare (a b : Z) :
  0 < a < 2 ^ 53 -> 0 < b < 2 ^ 53 ->
  match Z.compare (Z.log2 a - 52) (Z.log2 b - 52) with
  | Lt => Lt
  | Gt => Gt
  | Eq => Pos.compare_cont Eq (Z.to_pos (a * 2 ^ (52 - Z.log2 a)))
                              (Z.to_pos (b * 2 ^ (52 - Z.log2 b)))
  end = Z.compare a b.
Proof.
  intros Ha Hb. destruct (Z.compare_spec (Z.log2 a - 52) (Z.log2 b - 52)) as [He|Hl|Hg].
  - assert (Z.log2 a = Z.log2 b) as Hlog by lia.
    destruct (canon_value a Ha) as [_ Hva]. destruct (canon_value b Hb) as [Hr Hvb].
    rewrite Hlog in *. change (Pos.compare_cont Eq) with Pos.compare.
    rewrite Pos2Z.inj_compare, Hva, Hvb. symmetry.
    assert (0 < 2 ^ (52 - Z.log2 b)) by (apply Z.pow_pos_nonneg; lia).
    rewrite (Z.mul_comm a), (Z.mul_comm b). by rewrite <-Zmult_compare_compat_l by lia.
  - symmetry. apply Z.compare_lt_iff. apply Z.log2_lt_cancel. lia.
  - symmetry. apply Z.compare_gt_iff. apply Z.log2_lt_cancel. lia.
Qed.

Lemma dbl_compare_exact (a b : Z) :
  exact a -> exact b -> SFcompare (dbl_of_Z a) (dbl_of_Z b) = Some (Z.compare a b).
Proof.
  unfold exact. intros Ha Hb. rewrite !dbl_of_Z_exact by done. unfold dbl_int, canon.
  destruct (Z.eqb_spec a 0) as [->|Ha0]; destruct (Z.eqb_spec b 0) as [->|Hb0]; cbn [SFcompare].
  - done.
  - f_equal. by destruct b; [lia|..].
  - f_equal. by destruct a; [lia|..].
  - f_equal. pose proof (canon_compare (Z.abs a) (Z.abs b) ltac:(lia) ltac:(lia)) as Hc.
    destruct (Z.ltb_spec a 0), (Z.ltb_spec b 0).
    + assert ((a ?= b) = CompOpp (Z.abs a ?= Z.abs b)) as ->
        by (rewrite <-Z.compare_antisym, !Z.abs_neq, Z.compare_opp by lia; done).
      rewrite <-Hc.
      by destruct (Z.compare (Z.log2 (Z.abs a) - 52) _).
    + symmetry. apply Z.compare_lt_iff. lia.
    + symmetry. apply Z.compare_gt_iff. lia.
    + rewrite Hc, !Z.abs_eq by lia. done.
Qed.

Lemma dbl_ltb_exact (a b : Z) :
  exact a -> exact b -> dbl_ltb (dbl_of_Z a) (dbl_of_Z b) = (a <? b).
Proof.
  intros Ha Hb. unfold dbl_ltb, SFltb. rewrite dbl_compare_exact by done.
  unfold Z.ltb. by destruct (a ?= b).
Qed.

Lemma dbl_gtb_exact (a b : Z) :
  exact a -> exact b -> dbl_gtb (dbl_of_Z a) (dbl_of_Z b) = (b <? a).
Proof. intros. by apply dbl_ltb_exact. Qed.

Lemma dbl_leb_exact (a b : Z) :
  exact a -> exact b -> dbl_leb (dbl_of_Z a) (dbl_of_Z b) = (a <=? b).
Proof.
  intros Ha Hb. unfold dbl_leb, SFleb. rewrite dbl_compare_exact by done.
  unfold Z.leb. by destruct (a ?= b).
Qed.

Lemma dbl_eqb_exact (a b : Z) :
  exact a -> exact b -> dbl_eqb (dbl_of_Z a) (dbl_of_Z b) = (a =? b).
Proof.
  intros Ha Hb. unfold dbl_eqb, SFeqb. rewrite dbl_compare_exact by done.
  rewrite Z.eqb_compare. by destruct (a ?= b).
Qed.

Lemma dbl_trunc_exact (n : Z) : exact n -> dbl_trunc (dbl_of_Z n) = Some n.
Proof.
  unfold exact. intros Hn. rewrite dbl_of_Z_exact by done. unfold dbl_int, canon, dbl_trunc.
  destruct (Z.eqb_spec n 0) as [->|Hn0]; [done|]. f_equal.
  destruct (canon_value (Z.abs n) ltac:(lia)) as [Hr Hv]. rewrite Hv.
  assert ((if Z.log2 (Z.abs n) - 52 <? 0
           then Z.shiftr (Z.abs n * 2 ^ (52 - Z.log2 (Z.abs n))) (- (Z.log2 (Z.abs n) - 52))
           else Z.shiftl (Z.abs n * 2 ^ (52 - Z.log2 (Z.abs n))) (Z.log2 (Z.abs n) - 52)) = Z.abs n) as ->.
  { destruct (Z.ltb_spec (Z.log2 (Z.abs n) - 52) 0).
    - rewrite Z.shiftr_div_pow2 by lia.
      replace (- (Z.log2 (Z.abs n) - 52)) with (52 - Z.log2 (Z.abs n)) by lia.
      apply Z.div_mul. apply Z.pow_nonzero; lia.
    - replace (Z.log2 (Z.abs n)) with 52 by lia. change (52 - 52) with 0. rewrite Z.shiftl_0_r, Z.pow_0_r. lia. }
  destruct (Z.ltb_spec n 0); lia.
Qed.

Lemma int_of_dbl_exact (n : Z) : in_int n -> int_of_dbl (dbl_of_Z n) = n.
Proof.
  unfold in_int, INT_MIN, INT_MAX. intros Hn. unfold int_of_dbl.
  rewrite dbl_trunc_exact by (unfold exact; lia).
  by rewrite (proj2 (Z.leb_le INT_MIN n)), (proj2 (Z.leb_le n INT_MAX))
    by (unfold INT_MIN, INT_MAX; lia).
Qed.

Lemma int_exact (n : Z) : in_int n -> exact n.
Proof. unfold in_int, exact, INT_MIN, INT_MAX. lia. Qed.

(** ** Sums of amounts *)

Definition sum_Z (zs : list Z) : Z := fold_right Z.add 0 zs.

Lemma sum_Z_bounds (zs : list Z) (B : Z) :
  Forall (fun z => 0 <= z <= B) zs -> 0 <= sum_Z zs <= B * Z.of_nat (length zs).
Proof.
  induction 1 as [|z zs Hz _ IH]; [cbn; lia|]. cbn [sum_Z fold_right length].
  fold (sum_Z zs). rewrite Nat2Z.inj_succ. lia.
Qed.

(** Amounts that are small integers add up exactly, and taking them off again
    gives the first amount back. *)
Lemma fold_add_exact (zs : list Z) (B z0 : Z) :
  Forall (fun z => 0 <= z <= B) zs -> 0 <= z0 -> z0 + B * Z.of_nat (length zs) < 2 ^ 53 ->
  fold_left dbl_add (map dbl_of_Z zs) (dbl_of_Z z0) = dbl_of_Z (z0 + sum_Z zs).
Proof.
  intros Hzs. revert z0. induction Hzs as [|z zs Hz Hzs IH]; intros z0 H0 Hb.
  - cbn. f_equal. lia.
  - cbn [length] in Hb. rewrite Nat2Z.inj_succ in Hb. cbn [map fold_left sum_Z fold_right].
    fold (sum_Z zs). rewrite dbl_add_exact by (unfold exact; nia). rewrite IH by nia. f_equal. lia.
Qed.

Lemma fold_sub_exact (zs : list Z) (B z0 : Z) :
  Forall (fun z => 0 <= z <= B) zs -> 0 <= z0 -> z0 + B * Z.of_nat (length zs) < 2 ^ 53 ->
  fold_left dbl_sub (map dbl_of_Z zs) (dbl_of_Z (z0 + sum_Z zs)) = dbl_of_Z z0.
Proof.
  intros Hzs. revert z0. induction Hzs as [|z zs Hz Hzs IH]; intros z0 H0 Hb.
  - cbn. f_equal. lia.
  - cbn [length] in Hb. rewrite Nat2Z.inj_succ in Hb. cbn [map fold_left sum_Z fold_right].
    fold (sum_Z zs). pose proof (sum_Z_bounds zs B Hzs).
    rewrite dbl_sub_exact by (unfold exact; nia).
    replace (z0 + (z + sum_Z zs) - z) with (z0 + sum_Z zs) by lia. apply IH; nia.
Qed.

(** ** Division *)

Lemma loc_record (q : Z) (l : location) : loc_of_shr_record (shr_record_of_loc q l) = l /\ shr_m (shr_record_of_loc q l) = q.
Proof. by destruct l as [|[]]. Qed.

Lemma fexp_log2 (q e : Z) : 0 < q -> -1074 <= Z.log2 q + 1 + e - 53 ->
  fexp prec emax (Zdigits2 q + e) = Z.log2 q + 1 + e - 53.
Proof.
  intros Hq He. destruct q as [|q|]; [lia| |lia]. cbn [Zdigits2]. rewrite digits2_log2.
  unfold fexp, emin, prec, emax in *. lia.
Qed.

Lemma log2_between (q k : Z) : 0 <= k -> 2 ^ k <= q < 2 ^ (k + 1) -> Z.log2 q = k.
Proof. intros Hk Hq. apply Z.log2_unique; [done|]. by replace (Z.succ k) with (k + 1) by lia. Qed.

(** Dropping the last bit *)
Lemma shr_1_half (q : Z) (l : location) : 0 < q ->
  shr_m (shr_1 (shr_record_of_loc q l)) = q / 2 /\
  (Z.odd q = false ->
     loc_of_shr_record (shr_1 (shr_record_of_loc q l)) = loc_Exact \/
     loc_of_shr_record (shr_1 (shr_record_of_loc q l)) = loc_Inexact Lt).
Proof.
  intros Hq. destruct q as [|q|]; [lia| |lia]. rewrite <-Z.div2_div.
  destruct q, l as [|[]]; cbn; split; try done; auto.
Qed.

Lemma round_even_near (q : Z) (l : location) : round_nearest_even q l = q \/
  round_nearest_even q l = q + 1 /\ (l = loc_Inexact Eq \/ l = loc_Inexact Gt).
Proof. destruct l as [|[]]; cbn; auto. destruct (Z.even q); auto. Qed.

(** A mantissa of 53 bits, or one more, is put in its place. *)
Lemma normal_near (M e : Z) : 2 ^ 52 <= M <= 2 ^ 53 -> -1074 <= e <= 900 ->
  exists m e'', e <= e'' <= e + 1 /\ Zpos m * 2 ^ (e'' - e) = M /\
    (let '(mrs, e'') := shr_fexp prec emax M e loc_Exact in
     match shr_m mrs with
     | Z0 => S754_zero false
     | Zpos m => if Z.leb e'' (emax - prec) then S754_finite false m e'' else S754_infinity false
     | _ => S754_nan
     end) = S754_finite false m e''.
Proof.
  intros HM He. unfold shr_fexp. destruct (Z.eq_dec M (2 ^ 53)) as [->|Hne].
  - exists (Z.to_pos (2 ^ 52)), (e + 1). split; [lia|]. split; [replace (e + 1 - e) with 1 by lia; done|].
    rewrite fexp_log2 by (rewrite ?Z.log2_pow2; lia). rewrite Z.log2_pow2 by lia.
    replace (53 + 1 + e - 53 - e) with 1 by lia. cbn. unfold emax, prec.
    by rewrite (proj2 (Z.leb_le _ _)) by lia.
  - assert (Z.log2 M = 52) as Hl by (apply log2_between; lia).
    exists (Z.to_pos M), e. split; [lia|]. split; [rewrite Z.sub_diag, Z2Pos.id by lia; lia|].
    rewrite fexp_log2 by lia. rewrite Hl. replace (52 + 1 + e - 53 - e) with 0 by lia. cbn.
    destruct M as [|M|]; [lia| |lia]. unfold emax, prec. by rewrite (proj2 (Z.leb_le _ _)) by lia.
Qed.

(** Rounding a mantissa of 53 or 54 bits, in units of 1 or 2 *)
Lemma round_aux_near (q e : Z) (l : location) : 2 ^ 52 <= q < 2 ^ 54 -> -1074 <= e <= 800 ->
  exists u M m e'', (u = 1 /\ q < 2 ^ 53 \/ u = 2 /\ 2 ^ 53 <= q) /\
    binary_round_aux prec emax false q e l = S754_finite false m e'' /\
    e <= e'' <= e + 2 /\ Zpos m * 2 ^ (e'' - e) = M * u /\
    (M = q / u \/ M = q / u + 1 /\ (u = 1 -> l = loc_Inexact Eq \/ l = loc_Inexact Gt) /\ (u = 2 -> Z.odd q = true)).
Proof.
  intros Hq He. unfold binary_round_aux. unfold shr_fexp at 1. destruct (Z.lt_ge_cases q (2 ^ 53)) as [H|H].
  - assert (Z.log2 q = 52) as Hl by (apply log2_between; lia).
    rewrite fexp_log2, Hl by lia. replace (52 + 1 + e - 53 - e) with 0 by lia. cbn [shr].
    destruct (loc_record q l) as [-> ->].
    destruct (round_even_near q l) as [->|[-> Hloc]].
    + destruct (normal_near q e) as (m & e'' & H1 & H2 & ->); [lia|lia|].
      exists 1, q, m, e''. rewrite Z.div_1_r. split_and!; [by left|done|lia|lia|lia|by left].
    + destruct (normal_near (q + 1) e) as (m & e'' & H1 & H2 & ->); [lia|lia|].
      exists 1, (q + 1), m, e''. rewrite Z.div_1_r. split_and!; [by left|done|lia|lia|lia|right]. split_and!; done.
  - assert (Z.log2 q = 53) as Hl by (apply log2_between; lia).
    rewrite fexp_log2, Hl by lia. replace (53 + 1 + e - 53 - e) with 1 by lia. cbn [shr SpecFloat.iter_pos].
    destruct (shr_1_half q l) as [-> Hodd]; [lia|].
    assert (2 ^ 52 <= q / 2 < 2 ^ 53) as Hh.
    { split; [apply Z.div_le_lower_bound; lia|apply Z.div_lt_upper_bound; lia]. }
    destruct (round_even_near (q / 2) (loc_of_shr_record (shr_1 (shr_record_of_loc q l)))) as [->|[-> Hloc]].
    + destruct (normal_near (q / 2) (e + 1)) as (m & e'' & H1 & H2 & ->); [lia|lia|].
      exists 2, (q / 2), m, e''. split_and!; [by right|done|lia|lia| |by left].
      rewrite <-H2. replace (e'' - e) with (Z.succ (e'' - (e + 1))) by lia. rewrite Z.pow_succ_r by lia. lia.
    + destruct (normal_near (q / 2 + 1) (e + 1)) as (m & e'' & H1 & H2 & ->); [lia|lia|].
      exists 2, (q / 2 + 1), m, e''. split_and!; [by right|done|lia|lia| |right].
      { rewrite <-H2. replace (e'' - e) with (Z.succ (e'' - (e + 1))) by lia. rewrite Z.pow_succ_r by lia. lia. }
      split_and!; [done|lia|]. intros _. destruct (Z.odd q) eqn:Eo; [done|].
      destruct (Hodd eq_refl) as [E|E]; rewrite E in Hloc; by destruct Hloc.
Qed.

Lemma new_location_half (n k : Z) : 0 < n -> 0 <= k < n ->
  new_location n k = loc_Inexact Eq \/ new_location n k = loc_Inexact Gt -> n <= 2 * k.
Proof.
  intros Hn Hk. unfold new_location, new_location_even, new_location_odd.
  destruct (Z.even n) eqn:E; destruct (Z.eqb_spec k 0); try (intros [H|H]; discriminate).
  - destruct (Z.compare_spec (2 * k) n); [lia|intros [H'|H']; discriminate|lia].
  - destruct (Z.compare_spec (2 * k + 1) n) as [H|H|H]; try (intros [H'|H']; discriminate). lia.
Qed.

(** The quotient of the mantissas is that of the numbers, and its remainder is at
    least half when it is rounded up. *)
Lemma div_core (a b : Z) : 0 < b <= a -> a < 2 ^ 53 ->
  let D := 2 ^ (53 - Z.log2 a + Z.log2 b) in
  exists l, SFdiv_core_binary prec emax (a * 2 ^ (52 - Z.log2 a)) (Z.log2 a - 52) (b * 2 ^ (52 - Z.log2 b)) (Z.log2 b - 52)
    = (a * D / b, Z.log2 a - Z.log2 b - 53, l) /\
    (l = loc_Inexact Eq \/ l = loc_Inexact Gt -> b <= 2 * (a * D mod b)).
Proof.
  intros Hb Ha D. pose proof (log2_small a ltac:(lia)) as Hla. pose proof (log2_small b ltac:(lia)) as Hlb.
  set (A := a * 2 ^ (52 - Z.log2 a)). set (P := 2 ^ (52 - Z.log2 b)).
  assert (0 < P) by (apply Z.pow_pos_nonneg; lia).
  assert (0 < A) by (apply Z.mul_pos_pos; [lia|apply Z.pow_pos_nonneg; lia]).
  assert (forall q k, 0 < q -> Z.log2 q = k -> Zdigits2 q = k + 1) as Hd.
  { intros q k Hq <-. destruct q; [lia| |lia]. cbn [Zdigits2]. apply digits2_log2. }
  unfold SFdiv_core_binary. rewrite (Hd A 52), (Hd (b * P) 52); cycle 1.
  { lia. } { unfold P. rewrite log2_shift; lia. } { done. } { unfold A. rewrite log2_shift; lia. }
  unfold fexp, emin. change (3 - emax - prec) with (-1074). unfold prec.
  replace (Z.min _ _) with (Z.log2 a - Z.log2 b - 53) by lia.
  replace (Z.log2 a - 52 - (Z.log2 b - 52) - (Z.log2 a - Z.log2 b - 53)) with 53 by lia.
  cbn iota. rewrite Z.shiftl_mul_pow2 by lia.
  assert (A * 2 ^ 53 = a * D * P) as ->.
  { unfold A, D, P. rewrite <-!Z.mul_assoc, <-!Z.pow_add_r by lia. do 2 f_equal. lia. }
  assert (Z.div_eucl (a * D * P) (b * P) = (a * D * P / (b * P), (a * D * P) mod (b * P))) as ->.
  { unfold Z.div, Z.modulo. by destruct (Z.div_eucl _ _). }
  rewrite Z.div_mul_cancel_r, Z.mul_mod_distr_r by lia.
  eexists. split; [done|]. intros Hloc. apply new_location_half in Hloc; [nia|nia|].
  pose proof (Z.mod_pos_bound (a * D) b). nia.
Qed.

(** A mantissa next to the quotient [q] of [a * D] and [b], in units [u] that divide
    [D], has the integer part of [a / b]. *)
Lemma near_quotient (a b D D' q r u M : Z) : 0 < b <= a -> a < 2 ^ 53 -> 0 < D -> D = u * D' -> 0 <= r < b ->
  a * D = b * q + r -> u = 1 \/ u = 2 -> 2 ^ 52 * u <= q ->
  M = q / u \/ M = q / u + 1 /\ (u = 1 -> b <= 2 * r) /\ (u = 2 -> Z.odd q = true) ->
  M * u / D = a / b.
Proof.
  intros Hb Ha HD HD' Hr Hdiv Hu Huq HM.
  pose proof (Z.div_mod a b ltac:(lia)) as Hab'. pose proof (Z.mod_pos_bound a b ltac:(lia)).
  set (Q := a / b) in *. symmetry. apply (Z.div_unique _ _ _ (M * u - D * Q)); [left|lia].
  pose proof (Z.div_mod q u ltac:(lia)) as Hqu. pose proof (Z.mod_pos_bound q u ltac:(lia)) as Hmod.
  set (t := q / u) in *.
  assert (Q * D' <= t) as Ht.
  { apply Z.div_le_lower_bound; [lia|]. replace (u * (Q * D')) with (Q * D) by lia.
    assert (b * Q * D <= a * D) by (apply Z.mul_le_mono_nonneg_r; lia).
    apply Z.nlt_ge. intros Hlt. assert (b * (q + 1) <= b * (Q * D)) by (apply Z.mul_le_mono_nonneg_l; lia). lia. }
  assert (u * b < 2 * D) as Hub.
  { apply (Z.mul_lt_mono_pos_r (2 ^ 52)); [lia|].
    assert (2 ^ 52 * u * b <= q * b) by (apply Z.mul_le_mono_nonneg_r; lia).
    assert (a * D < 2 ^ 53 * D) by (apply Z.mul_lt_mono_pos_r; lia). lia. }
  assert (b * D * Q + b * D >= a * D + D) as Hup.
  { replace (b * D * Q + b * D) with ((b * Q + b) * D) by lia.
    replace (a * D + D) with ((a + 1) * D) by lia. apply Z.le_ge, Z.mul_le_mono_nonneg_r; lia. }
  assert (Q * D <= M * u) as Hlow.
  { rewrite HD'. replace (Q * (u * D')) with (Q * D' * u) by lia.
    apply Z.mul_le_mono_nonneg_r; [lia|]. destruct HM as [->|[-> _]]; lia. }
  split; [lia|]. apply (Z.mul_lt_mono_pos_l (2 * b)); [lia|].
  assert (2 * b * (M * u) <= 2 * (a * D) + u * b); [|lia].
  destruct HM as [->|(-> & H1 & H2)].
  { assert (b * (t * u) <= b * q) by (apply Z.mul_le_mono_nonneg_l; lia). lia. }
  destruct Hu as [-> | ->].
  - specialize (H1 eq_refl). replace ((t + 1) * 1) with (q + 1) by lia. lia.
  - specialize (H2 eq_refl). rewrite Zmod_odd, H2 in Hqu. replace ((t + 1) * 2) with (q + 1) by lia. lia.
Qed.

(** The integer part of the quotient of two numbers is their integer quotient. *)
Lemma dbl_div_trunc (a b : Z) : 0 < b <= a -> a < 2 ^ 53 ->
  dbl_trunc (dbl_div (dbl_of_Z a) (dbl_of_Z b)) = Some (a / b).
Proof.
  intros Hb Ha. rewrite !dbl_of_Z_exact by lia. unfold dbl_int.
  rewrite !(proj2 (Z.eqb_neq _ 0)), !(proj2 (Z.ltb_ge _ 0)), !Z.abs_eq by lia.
  unfold dbl_div, canon, SFdiv. rewrite (proj2 (canon_value a ltac:(lia))), (proj2 (canon_value b ltac:(lia))).
  change (xorb false false) with false. destruct (div_core a b Hb Ha) as (l & -> & Hl).
  pose proof (log2_small a ltac:(lia)) as Hla. pose proof (log2_small b ltac:(lia)) as Hlb.
  pose proof (Z.log2_le_mono b a ltac:(lia)) as Hab. set (k := 53 - Z.log2 a + Z.log2 b) in *.
  replace (Z.log2 a - Z.log2 b - 53) with (- k) by (unfold k; lia).
  set (D := 2 ^ k) in *. assert (0 < D) by (apply Z.pow_pos_nonneg; lia).
  assert (a * D = b * (a * D / b) + (a * D) mod b) as Hdiv by (apply Z.div_mod; lia).
  pose proof (Z.mod_pos_bound (a * D) b ltac:(lia)) as Hr.
  set (q := a * D / b) in *. set (r := (a * D) mod b) in *.
  assert (2 ^ Z.log2 a <= a < 2 ^ (Z.log2 a + 1)) as Ba by (apply Z.log2_spec; lia).
  assert (2 ^ Z.log2 b <= b < 2 ^ (Z.log2 b + 1)) as Bb by (apply Z.log2_spec; lia).
  assert (2 ^ Z.log2 a * D = 2 ^ 53 * 2 ^ Z.log2 b) as HD.
  { unfold D, k. rewrite <-!Z.pow_add_r by lia. f_equal. lia. }
  rewrite !Z.pow_add_r in Ba, Bb by lia. change (2 ^ 1) with 2 in *.
  assert (2 ^ 52 <= q < 2 ^ 54) as Hq52 by nia.
  destruct (round_aux_near q (- k) l) as (u & M & m & e'' & Hu & -> & He & Hm & HM); [done|lia|].
  cbn [dbl_trunc]. f_equal.
  assert ((if e'' <? 0 then Z.shiftr (Zpos m) (- e'') else Z.shiftl (Zpos m) e'') = M * u / D) as ->.
  { rewrite <-Hm. replace (e'' - - k) with (e'' + k) by lia. destruct (Z.ltb_spec e'' 0).
    - rewrite Z.shiftr_div_pow2 by lia.
      assert (D = 2 ^ (- e'') * 2 ^ (e'' + k)) as -> by (unfold D; rewrite <-Z.pow_add_r by lia; f_equal; lia).
      by rewrite Z.div_mul_cancel_r by (apply Z.pow_nonzero; lia).
    - rewrite Z.shiftl_mul_pow2 by lia. rewrite Z.pow_add_r, Z.mul_assoc by lia. unfold D. by rewrite Z.div_mul by lia. }
  assert (exists D', D = u * D') as [D' HD'].
  { destruct Hu as [[-> _]|[-> _]]; [exists D; lia|]. exists (2 ^ (k - 1)). unfold D.
    replace k with (Z.succ (k - 1)) at 1 by lia. by rewrite Z.pow_succ_r by lia. }
  apply (near_quotient a b D D' q r u M); try done; [tauto|destruct Hu as [[-> ?]|[-> ?]]; lia|].
  destruct HM as [?|(? & H1 & ?)]; [by left|right]. split_and!; [done| |done]. intros Hu1. by apply Hl, H1.
Qed.

End Double.

#[export] Hint Rewrite Double.dbl_ltb_exact Double.dbl_gtb_exact Double.dbl_leb_exact
  Double.dbl_eqb_exact Double.dbl_add_exact Double.dbl_sub_exact
  Double.int_of_dbl_exact using done : pbs_dbl.

(** * C floats

    The percentages of the fairshare tree are C [float]s
    ([src/scheduler/data_types.h]).  A float is a [spec_float] at the format
    binary32; an expression of floats is computed in floats, one that also has
    a double in doubles, as C converts them.  The order of the comparisons [<]
    and [==] is shown to be a weak order on the values that are numbers. *)

Import Double.

Module Float.

Definition float := spec_float.
Definition fprec : Z := 24.
Definition femax : Z := 128.

Definition flt_add : float -> float -> float := SFadd fprec femax.
Definition flt_sub : float -> float -> float := SFsub fprec femax.
Definition flt_mul : float -> float -> float := SFmul fprec femax.
Definition flt_div : float -> float -> float := SFdiv fprec femax.
Definition flt_eqb : float -> float -> bool := SFeqb.
Definition flt_ltb : float -> float -> bool := SFltb.
Definition flt_leb : float -> float -> bool := SFleb.

(** [(float) n] of an int *)
Definition flt_of_Z (n : Z) : float := binary_normalize fprec femax n 0 false.

(** Rounding a number to a format: [(float) d] and [(double) f] *)
Definition to_format (p e : Z) (x : spec_float) : spec_float :=
  match x with
  | S754_finite s m ex => binary_round p e s m ex
  | _ => x
  end.
Definition flt_of_dbl (x : double) : float := to_format fprec femax x.
Definition dbl_of_flt (x : float) : double := to_format prec emax x.

Definition flt_zero : float := S754_zero false.
Definition flt_one : float := flt_of_Z 1.

(** ** The order of the numbers *)

Definition is_num (x : spec_float) : bool := match x with S754_nan => false | _ => true end.

(** The place of a number on the line: its sign and size class, its exponent and
    its mantissa, compared one after the other. *)
Definition place (x : spec_float) : Z * Z * Z :=
  match x with
  | S754_infinity true => (-2, 0, 0)
  | S754_finite true m e => (-1, - e, - Zpos m)
  | S754_zero _ => (0, 0, 0)
  | S754_finite false m e => (1, e, Zpos m)
  | S754_infinity false => (2, 0, 0)
  | S754_nan => (0, 0, 0)
  end.

Definition lex (a b : Z * Z * Z) : comparison :=
  let '(a1, a2, a3) := a in let '(b1, b2, b3) := b in
  match Z.compare a1 b1 with
  | Eq => match Z.compare a2 b2 with Eq => Z.compare a3 b3 | c => c end
  | c => c
  end.

Lemma SFcompare_place (x y : spec_float) :
  is_num x = true -> is_num y = true -> SFcompare x y = Some (lex (place x) (place y)).
Proof.
  destruct x as [s|[]| |[] m e], y as [s'|[]| |[] m' e']; try done; intros _ _; cbn [SFcompare place lex].
  change (Pos.compare_cont Eq m m') with (Pos.compare m m'). cbn [Z.compare].
  rewrite Z.compare_opp, (Z.compare_antisym e e'). cbn. by destruct (Z.compare e e').
Qed.

Lemma lex_trans_lt (a b c : Z * Z * Z) : lex a b = Lt -> lex b c = Lt -> lex a c = Lt.
Proof.
  destruct a as [[a1 a2] a3], b as [[b1 b2] b3], c as [[c1 c2] c3]. cbn.
  destruct (Z.compare_spec a1 b1), (Z.compare_spec b1 c1), (Z.compare_spec a1 c1); try done; try lia;
    destruct (Z.compare_spec a2 b2), (Z.compare_spec b2 c2), (Z.compare_spec a2 c2); try done; try lia.
  rewrite !Z.compare_lt_iff. lia.
Qed.

Lemma lex_eq (a b : Z * Z * Z) : lex a b = Eq <-> a = b.
Proof.
  destruct a as [[a1 a2] a3], b as [[b1 b2] b3]. cbn. split.
  - destruct (Z.compare_spec a1 b1), (Z.compare_spec a2 b2), (Z.compare_spec a3 b3); congruence.
  - intros [= -> -> ->]. by rewrite !Z.compare_refl.
Qed.

Lemma lex_antisym (a b : Z * Z * Z) : lex b a = CompOpp (lex a b).
Proof.
  destruct a as [[a1 a2] a3], b as [[b1 b2] b3]. cbn.
  rewrite (Z.compare_antisym a1 b1), (Z.compare_antisym a2 b2), (Z.compare_antisym a3 b3).
  by destruct (Z.compare a1 b1), (Z.compare a2 b2).
Qed.

(** [x < y] on numbers is the order of their places, and neither [x < y] nor
    [y < x] holds only at the same place. *)
Lemma ltb_place (x y : spec_float) :
  is_num x = true -> is_num y = true -> SFltb x y = true <-> lex (place x) (place y) = Lt.
Proof.
  intros Hx Hy. unfold SFltb. rewrite SFcompare_place by done. by destruct (lex _ _).
Qed.

Lemma ltb_num (x y : spec_float) : SFltb x y = true -> is_num x = true /\ is_num y = true.
Proof. destruct x as [|s| |s], y as [|s'| |s']; try done; by destruct s. Qed.

Lemma ltb_trans (x y z : spec_float) : SFltb x y = true -> SFltb y z = true -> SFltb x z = true.
Proof.
  intros Hxy Hyz.
  destruct (ltb_num _ _ Hxy), (ltb_num _ _ Hyz).
  apply ltb_place; [done..|]. apply (lex_trans_lt _ (place y)); by apply ltb_place.
Qed.

Lemma ltb_irrefl (x : spec_float) : SFltb x x = false.
Proof.
  destruct (is_num x) eqn:E; [|by destruct x].
  unfold SFltb. rewrite SFcompare_place by done. by rewrite (proj2 (lex_eq _ _) eq_refl).
Qed.

Lemma ltb_asym (x y : spec_float) : SFltb x y = true -> SFltb y x = false.
Proof.
  intros H. destruct (SFltb y x) eqn:E; [|done].
  pose proof (ltb_trans _ _ _ H E) as Hc. by rewrite ltb_irrefl in Hc.
Qed.

Lemma ltb_tie (x y : spec_float) :
  is_num x = true -> is_num y = true -> SFltb x y = false -> SFltb y x = false -> place x = place y.
Proof.
  intros Hx Hy. unfold SFltb. rewrite !SFcompare_place by done. rewrite (lex_antisym (place x)).
  destruct (lex (place x) (place y)) eqn:E; try done. by apply lex_eq in E.
Qed.

Lemma ltb_same_place (x x' y : spec_float) :
  is_num x = true -> is_num x' = true -> is_num y = true -> place x = place x' ->
  SFltb x y = SFltb x' y /\ SFltb y x = SFltb y x'.
Proof.
  intros Hx Hx' Hy He. unfold SFltb. by rewrite !SFcompare_place, He by done.
Qed.

End Float.
