(* ===== verification/TextFile.v ===== *)
(** * Reading configuration files

    What the scheduler's readers of its configuration files use: [skip_line] of
    [src/scheduler/misc.c], and [fgets], [strtok] and the integers of [sscanf]
    of the C library.  A [FILE *] is the characters not read yet. *)

From Stdlib Require Import ZArith Lia Ascii String.
From S2P Require Import Prelude.

Module Text.

(** The text a [char] array holds: its characters before the first null *)
Fixpoint cstr (l : list ascii) : cstring :=
  match l with
  | [] => []
  | c :: l' => if is_char c NUL then [] else c :: cstr l'
  end.

Definition NEWLINE : ascii := chr 10.
Definition TAB : ascii := chr 9.

(** At most [n] characters, up to a newline and with it *)
Fixpoint fgets_chars (n : nat) (fp : list ascii) : list ascii * list ascii :=
  match n, fp with
  | S n', c :: fp' =>
      if is_char c NEWLINE then ([c], fp')
      else let '(l, rest) := fgets_chars n' fp' in (c :: l, rest)
  | _, _ => ([], fp)
  end.

(** [fgets(buf, size, fp)]; [None] is [NULL]. *)
Definition fgets (size : Z) (fp : list ascii) : option (cstring * list ascii) :=
  match fp with
  | [] => None
  | _ => let '(l, rest) := fgets_chars (Z.to_nat (size - 1)) fp in Some (cstr l, rest)
  end.

(** [if (buf[strlen(buf)-1] == '\n') buf[strlen(buf)-1] = '\0';], which is an
    access before the array when the text is empty *)
Definition chop_newline (buf : cstring) : option cstring :=
  match List.rev buf with
  | [] => None
  | c :: r => Some (if is_char c NEWLINE then List.rev r else buf)
  end.

(** [strtok]: the next token and what is kept for the next call *)
Fixpoint skip_delims (delims : list ascii) (s : cstring) : cstring :=
  match s with
  | c :: s' => if bool_decide (c ∈ delims) then skip_delims delims s' else s
  | [] => []
  end.
Fixpoint token (delims : list ascii) (s : cstring) : cstring * cstring :=
  match s with
  | [] => ([], [])
  | c :: s' =>
      if bool_decide (c ∈ delims) then ([], s')
      else let '(t, r) := token delims s' in (c :: t, r)
  end.
Definition strtok (delims : list ascii) (s : cstring) : option cstring * cstring :=
  match skip_delims delims s with
  | [] => (None, [])
  | s' => let '(t, r) := token delims s' in (Some t, r)
  end.

Definition BLANKS : list ascii := [" "%char; TAB].

Definition skip_line (line : cstring) : bool :=
  let c := deref (skip_space line) in
  is_char c NUL || is_char c "#"%char || is_char c "*"%char.

(** [%d] of [sscanf]: white space, a sign and at least one digit *)
Definition scan_int (s : cstring) : option (Z * cstring) :=
  let s1 := skip_space s in
  let '(neg, s2) :=
    match s1 with
    | c :: r => if is_char c "-"%char then (true, r)
                else if is_char c "+"%char then (false, r) else (false, s1)
    | [] => (false, [])
    end in
  match span_digits s2 with
  | ([], _) => None
  | (ds, r) =>
      let v := digits_val 0 ds in
      Some (int32 (if neg : bool then Z.max LONG_MIN (- v) else Z.min LONG_MAX v), r)
  end.

(** A directive of a format: [%d], white space, or a character to match *)
Inductive directive := Int | Space | Lit (c : ascii).

(** The integers a format reads when all of it matches *)
Fixpoint sscanf (fmt : list directive) (s : cstring) : option (list Z) :=
  match fmt with
  | [] => Some []
  | Int :: fmt' =>
      match scan_int s with
      | Some (v, s') => (fun vs => v :: vs) <$> sscanf fmt' s'
      | None => None
      end
  | Space :: fmt' => sscanf fmt' (skip_space s)
  | Lit c :: fmt' =>
      match s with
      | c' :: s' => if is_char c c' then sscanf fmt' s' else None
      | [] => None
      end
  end.

(** ** Every read shortens the file *)

Lemma fgets_chars_length (n : nat) : forall fp,
  length (fgets_chars n fp).1 = (length fp - length (fgets_chars n fp).2)%nat /\
  (length (fgets_chars n fp).2 <= length fp)%nat /\
  (n <> O -> fp <> [] -> (length (fgets_chars n fp).2 < length fp)%nat).
Proof.
  induction n as [|n IH]; intros [|c fp]; cbn [fgets_chars]; try (cbn; split_and!; lia || done).
  destruct (is_char c NEWLINE); [cbn; split_and!; lia|].
  specialize (IH fp). destruct (fgets_chars n fp) as [l rest]. cbn in *. split_and!; lia.
Qed.

Lemma fgets_shorter (fp : list ascii) (size : Z) (buf : cstring) (rest : list ascii) :
  1 < size -> fgets size fp = Some (buf, rest) -> (length rest < length fp)%nat.
Proof.
  intros Hs. unfold fgets. destruct fp as [|c fp]; [done|].
  pose proof (fgets_chars_length (Z.to_nat (size - 1)) (c :: fp)) as (_ & _ & Hlt).
  destruct (fgets_chars _ _) as [l r]. intros [= <- <-]. apply Hlt; [lia|done].
Qed.

Lemma cstr_app_nul (s t : list ascii) : NUL ∉ s -> cstr (s ++ NUL :: t) = s.
Proof.
  induction s as [|c s IH]; cbn; intros Hs.
  - unfold is_char. by rewrite bool_decide_true.
  - unfold is_char. rewrite bool_decide_false by set_solver. f_equal. apply IH. set_solver.
Qed.

Lemma cstr_id (s : list ascii) : NUL ∉ s -> cstr s = s.
Proof.
  induction s as [|c s IH]; cbn; intros Hs; [done|].
  unfold is_char. rewrite bool_decide_false by set_solver. f_equal. apply IH. set_solver.
Qed.

(** ** Files of lines *)

Definition text_of (ls : list cstring) : list ascii := mjoin ((fun s => s ++ [NEWLINE]) <$> ls).

Lemma text_of_cons (s : cstring) (ls : list cstring) :
  text_of (s :: ls) = s ++ NEWLINE :: text_of ls.
Proof. unfold text_of. cbn. by rewrite <-app_assoc. Qed.

(** A line that a buffer of [size] holds *)
Record line_ok (size : Z) (s : cstring) : Prop := {
  line_nul : (NUL ∉ s);
  line_newline : (NEWLINE ∉ s);
  line_length : Z.of_nat (length s) <= size - 2 }.

Lemma is_char_false (a b : ascii) : a <> b -> is_char a b = false.
Proof. apply bool_decide_eq_false_2. Qed.

Lemma fgets_chars_line (s rest : list ascii) : (NEWLINE ∉ s) -> forall n, (length s < n)%nat ->
  fgets_chars n (s ++ NEWLINE :: rest) = (s ++ [NEWLINE], rest).
Proof.
  induction s as [|c s IH]; intros Hs [|n] Hn; cbn in Hn; try lia; cbn [app fgets_chars].
  - by rewrite is_char_refl.
  - apply not_elem_of_cons in Hs as [Hc Hs]. rewrite is_char_false by done.
    by rewrite IH by (done || lia).
Qed.

Lemma fgets_line_text (size : Z) (s rest : list ascii) : line_ok size s ->
  fgets size (s ++ NEWLINE :: rest) = Some (s ++ [NEWLINE], rest).
Proof.
  intros [H0 Hn Hl]. unfold fgets. rewrite fgets_chars_line by (done || lia).
  destruct (s ++ NEWLINE :: rest) eqn:E; [by destruct s|].
  rewrite cstr_id; [done|]. intros H. rewrite elem_of_app, list_elem_of_singleton in H. by destruct H.
Qed.

Lemma chop_newline_line (s : cstring) : chop_newline (s ++ [NEWLINE]) = Some s.
Proof.
  unfold chop_newline. rewrite List.rev_app_distr. cbn. by rewrite is_char_refl, List.rev_involutive.
Qed.

(** ** Numbers with leading zeros: [%0nd] *)

Definition zpad (n : nat) (v : Z) : cstring :=
  replicate (n - length (dec_nat v)) "0"%char ++ dec_nat v.

Lemma zpad_spec (n : nat) (v : Z) : 0 <= v ->
  all_digits (zpad n v) /\ zpad n v <> [] /\ digits_val 0 (zpad n v) = v.
Proof.
  intros Hv. destruct (dec_nat_spec v Hv) as (Ha & Hne & Hval). unfold zpad. split_and!.
  - apply Forall_app. split; [|done]. apply Forall_forall. intros c Hc. by apply elem_of_replicate in Hc as [-> _].
  - intros H. apply app_eq_nil in H. naive_solver.
  - rewrite digits_val_app.
    assert (forall k, digits_val 0 (replicate k "0"%char) = 0) as ->; [|done].
    induction k as [|k IH]; [done|exact IH].
Qed.

Lemma zpad_length (n m : nat) (v : Z) : 0 <= v < 10 ^ Z.of_nat m -> (0 < m)%nat -> (n <= m)%nat ->
  (length (zpad n v) <= m)%nat.
Proof.
  intros Hv Hm Hn. pose proof (dec_nat_length v m Hv Hm). unfold zpad.
  rewrite length_app, length_replicate. lia.
Qed.

(** Characters of a text of digits *)
Lemma digit_not (c : ascii) (s : cstring) : all_digits s -> isdigit c = false -> (c ∉ s).
Proof.
  intros Hs Hc H. unfold all_digits in Hs. rewrite Forall_forall in Hs.
  specialize (Hs c H). congruence.
Qed.

Lemma skip_space_digits (ds s : cstring) : all_digits ds -> ds <> [] ->
  skip_space (ds ++ s) = ds ++ s.
Proof.
  intros Hd Hne. destruct ds as [|c ds]; [done|]. pose proof (Forall_inv Hd) as Hc. cbn in Hc.
  cbn. by rewrite isdigit_not_space.
Qed.

Lemma scan_int_digits (ds s : cstring) : all_digits ds -> ds <> [] -> isdigit (deref s) = false ->
  digits_val 0 ds <= INT_MAX -> scan_int (ds ++ s) = Some (digits_val 0 ds, s).
Proof.
  intros Hd Hne Hs Hv. unfold scan_int. rewrite skip_space_digits by done.
  pose proof (digits_val_bound ds Hd) as Hb.
  destruct ds as [|c ds]; [done|]. pose proof (Forall_inv Hd) as Hc. cbn in Hc.
  cbn [app]. rewrite !isdigit_not_char by done.
  change (c :: ds ++ s) with ((c :: ds) ++ s). rewrite span_digits_app by done.
  unfold INT_MAX in Hv. rewrite int32_id; [|unfold in_int, INT_MIN, INT_MAX, LONG_MAX; lia].
  do 2 f_equal. unfold LONG_MAX. lia.
Qed.

Lemma scan_int_zpad (n : nat) (v : Z) (s : cstring) : 0 <= v <= INT_MAX ->
  isdigit (deref s) = false -> scan_int (zpad n v ++ s) = Some (v, s).
Proof.
  intros Hv Hs. destruct (zpad_spec n v ltac:(lia)) as (Ha & Hne & Hval).
  rewrite scan_int_digits by (rewrite ?Hval; done || lia). by rewrite Hval.
Qed.

Lemma skip_space_zpad (n : nat) (v : Z) (s : cstring) : 0 <= v ->
  skip_space (zpad n v ++ s) = zpad n v ++ s.
Proof. intros Hv. destruct (zpad_spec n v Hv) as (Ha & Hne & _). by apply skip_space_digits. Qed.

Lemma strtol10_zpad (n : nat) (v : Z) (s : cstring) : 0 <= v <= LONG_MAX ->
  isdigit (deref s) = false -> strtol10 (zpad n v ++ s) = (v, s).
Proof.
  intros Hv Hs. destruct (zpad_spec n v ltac:(lia)) as (Hall & Hne & Hval).
  unfold strtol10. rewrite skip_space_digits by done.
  destruct (zpad n v) as [|c ds] eqn:E; [done|].
  pose proof (Forall_inv Hall) as Hc; cbn in Hc. cbn [app]. rewrite !isdigit_not_char by done.
  change (c :: ds ++ s) with ((c :: ds) ++ s).
  rewrite span_digits_app by done. rewrite Hval. f_equal. lia.
Qed.

Lemma skip_line_char (c : ascii) (s : cstring) : isspace c = false ->
  c <> NUL -> c <> "#"%char -> c <> "*"%char -> skip_line (c :: s) = false.
Proof.
  intros Hs H0 H1 H2. unfold skip_line. cbn. rewrite Hs. cbn.
  by rewrite !is_char_false.
Qed.

Lemma skip_line_digits (ds s : cstring) : all_digits ds -> ds <> [] -> skip_line (ds ++ s) = false.
Proof.
  intros Hd Hne. destruct ds as [|c ds]; [done|]. pose proof (Forall_inv Hd) as Hc. cbn in Hc.
  apply skip_line_char; [by apply isdigit_not_space|..]; intros ->; done.
Qed.

(** ** [strtok] *)

Lemma token_spec (ds t s : cstring) (d : ascii) :
  Forall (fun c => (c ∉ ds)) t -> (d ∈ ds) -> token ds (t ++ d :: s) = (t, s).
Proof.
  induction 1 as [|c t Hc _ IH]; intros Hd; cbn.
  - by rewrite bool_decide_true.
  - by rewrite bool_decide_false, IH by done.
Qed.

Lemma token_end (ds t : cstring) : Forall (fun c => (c ∉ ds)) t -> token ds t = (t, []).
Proof.
  induction 1 as [|c t Hc _ IH]; [done|]. cbn. by rewrite bool_decide_false, IH by done.
Qed.

Lemma strtok_token (ds t s : cstring) (d : ascii) : t <> [] ->
  Forall (fun c => (c ∉ ds)) t -> (d ∈ ds) -> strtok ds (t ++ d :: s) = (Some t, s).
Proof.
  intros Hne Ht Hd. unfold strtok. destruct t as [|c t]; [done|]. cbn [app skip_delims].
  pose proof (Forall_inv Ht) as Hc. cbn in Hc. rewrite bool_decide_false by done.
  change (c :: t ++ d :: s) with ((c :: t) ++ d :: s). by rewrite token_spec.
Qed.

Lemma strtok_end (ds t : cstring) : t <> [] -> Forall (fun c => (c ∉ ds)) t ->
  strtok ds t = (Some t, []).
Proof.
  intros Hne Ht. unfold strtok. destruct t as [|c t]; [done|]. cbn [skip_delims].
  pose proof (Forall_inv Ht) as Hc. cbn in Hc. rewrite bool_decide_false by done.
  by rewrite token_end.
Qed.

End Text.
