(* ===== verification/ResNum.v ===== *)
(** * Resource values as text: [src/scheduler/misc.c]

    [is_num] decides whether a resource value is a number, a size or a time,
    and [res_to_num] converts it to the scheduler's amounts: kilobytes for a
    size, seconds for a time.  The text is a C string, the amount a double. *)

From Stdlib Require Import ZArith Lia Ascii String SpecFloat.
From S2P Require Import Prelude Doubles.
Import Double.

Module ResNum.

(** ** The type bits of a resource *)

Record resource_type := {
  is_non_consumable : bool; is_string : bool; is_boolean : bool;
  is_consumable : bool; is_num_type : bool; is_long : bool; is_float : bool;
  is_size : bool; is_time : bool }.

Definition no_type : resource_type :=
  {| is_non_consumable := false; is_string := false; is_boolean := false;
     is_consumable := false; is_num_type := false; is_long := false;
     is_float := false; is_size := false; is_time := false |}.

Definition mark_boolean (t : resource_type) : resource_type :=
  {| is_non_consumable := true; is_string := is_string t; is_boolean := true;
     is_consumable := is_consumable t; is_num_type := is_num_type t; is_long := is_long t;
     is_float := is_float t; is_size := is_size t; is_time := is_time t |}.

Definition mark_string (t : resource_type) : resource_type :=
  {| is_non_consumable := true; is_string := true; is_boolean := is_boolean t;
     is_consumable := is_consumable t; is_num_type := is_num_type t; is_long := is_long t;
     is_float := is_float t; is_size := is_size t; is_time := is_time t |}.

Definition mark_consumable (size time : bool) (t : resource_type) : resource_type :=
  {| is_non_consumable := is_non_consumable t; is_string := is_string t;
     is_boolean := is_boolean t; is_consumable := true;
     is_num_type := is_num_type t || (negb size && negb time); is_long := is_long t;
     is_float := is_float t; is_size := is_size t || size;
     is_time := is_time t || (negb size && time) |}.

(** ** Constants of [constant.h] and [pbs_internal.h] *)

Definition SCHD_INFINITY : Z := -2.
Definition KILO : Z := 1024.
Definition MEGATOKILO : Z := 1024.
Definition GIGATOKILO : Z := 1048576.
Definition TERATOKILO : Z := 1073741824.
Definition SIZEOF_WORD : Z := 8.
Definition ATR_TRUE : cstring := lit "True".
Definition ATR_FALSE : cstring := lit "False".

(** [a op b op ...] over the characters the code lists *)
Definition one_of (c : ascii) (l : cstring) : bool := existsb (is_char c) l.

(** ** [is_num] *)

(** The loop over digits and colons: what is left, and the colons seen. *)
Fixpoint skip_digits_colons (s : cstring) (colon_count : Z) : cstring * Z :=
  match s with
  | c :: s' =>
      if is_char c ":"%char then skip_digits_colons s' (colon_count + 1)
      else if isdigit c then skip_digits_colons s' colon_count
      else (s, colon_count)
  | [] => (s, colon_count)
  end.

(** The suffix of a size: [k], [m], [g], [t] with [b], [w] or nothing after,
    or [b] or [w] alone. *)
Definition is_size_suffix (rest : cstring) : bool :=
  match rest with
  | [c] => one_of (tolower c) (lit "kmgt") || one_of (tolower c) (lit "bw")
  | [c; d] => one_of (tolower c) (lit "kmgt") && one_of (tolower d) (lit "bw" ++ [NUL])
  | _ => false
  end.

Definition is_num (str : option cstring) : Z :=
  match str with
  | None => -1
  | Some str =>
      let str := if one_of (deref str) (lit "-+") then tl str else str in
      let '(rest, colon_count) := skip_digits_colons str 0 in
      match rest with
      | [] => if colon_count <=? 2 then 1 else 0
      | c :: rest' =>
          if is_size_suffix rest then 1
          else if is_char c "."%char then
            match span_digits rest' with
            | (_, []) => 1
            | _ => 0
            end
          else 0
      end
  end.

(** ** [strtod] on the texts that [is_num] accepts

    These have a sign, digits and a decimal point, never an exponent, a
    hexadecimal or a named form.  With no digit at all nothing is converted. *)

Definition strtod (s : cstring) : double * cstring :=
  let s1 := skip_space s in
  let '(neg, s2) :=
    match s1 with
    | c :: r => if is_char c "-"%char then (true, r)
                else if is_char c "+"%char then (false, r) else (false, s1)
    | [] => (false, [])
    end in
  let '(ip, r1) := span_digits s2 in
  let '(fp, r2) := if is_char (deref r1) "."%char then span_digits (tl r1) else ([], r1) in
  match ip ++ fp with
  | [] => (dbl_of_Z 0, s)
  | ds => (dbl_of_ratio neg (digits_val 0 ds) (10 ^ Z.of_nat (length fp)), r2)
  end.

(** ** [res_to_num] *)

(** The branch for a value that is a number, a size or a time: the count, its
    multiplier, the text left, and whether it is a size or a time. *)
Definition number_parts (res_str : cstring) : double * Z * cstring * bool * bool :=
  let '(count, endp) := strtod res_str in
  let c := deref endp in
  if is_char c ":"%char then
    let '(count2, endp2) := strtod (tl endp) in
    if is_char (deref endp2) ":"%char then
      let '(secs, endp) := strtol10 (tl endp2) in
      let count := dbl_mul count (dbl_of_Z 3600) in
      let count := dbl_add count (dbl_mul count2 (dbl_of_Z 60)) in
      let count := dbl_add count (dbl_of_Z secs) in
      let count := match endp with [] => count | _ => dbl_of_Z SCHD_INFINITY end in
      (count, 1, endp, false, true)
    else
      (dbl_add (dbl_mul count (dbl_of_Z 60)) count2, 1, endp, false, true)
  else if one_of c (lit "kK") then (count, 1, endp, true, false)
  else if one_of c (lit "mM") then (count, MEGATOKILO, endp, true, false)
  else if one_of c (lit "gG") then (count, GIGATOKILO, endp, true, false)
  else if one_of c (lit "tT") then (count, TERATOKILO, endp, true, false)
  else if one_of c (lit "bB") then
    (dbl_ceil (dbl_div count (dbl_of_Z KILO)), 1, endp, true, false)
  else if is_char c "w"%char then
    (dbl_ceil (dbl_div count (dbl_of_Z KILO)), SIZEOF_WORD, endp, true, false)
  else (count, 1, endp, false, false).

(** The result is the amount and the type after the marks the call makes. *)
Definition res_to_num (res_str : option cstring) (type : option resource_type)
  : double * option resource_type :=
  match res_str with
  | None => (dbl_of_Z SCHD_INFINITY, type)
  | Some str =>
      let '(count, multiplier, type) :=
        if strcaseeq ATR_TRUE str then (dbl_of_Z 1, 1, option_map mark_boolean type)
        else if strcaseeq ATR_FALSE str then (dbl_of_Z 0, 1, option_map mark_boolean type)
        else if is_num (Some str) =? 0 then
          (dbl_of_Z SCHD_INFINITY, 1, option_map mark_string type)
        else
          let '(count, multiplier, endp, size, time) := number_parts str in
          let multiplier :=
            if is_char (deref (tl endp)) "w"%char then multiplier * SIZEOF_WORD
            else multiplier in
          (count, multiplier, option_map (mark_consumable size time) type) in
      (dbl_mul count (dbl_of_Z multiplier), type)
  end.

(** ** Numbers, sizes and times read back *)

Lemma ratio_1 (n : Z) : 0 <= n < 2 ^ 53 -> dbl_of_ratio false n 1 = dbl_of_Z n.
Proof.
  intros Hn. unfold dbl_of_ratio. destruct (Z.eqb_spec n 0) as [->|Hn0]; [done|].
  rewrite dbl_of_Z_exact by lia. unfold dbl_int.
  rewrite (proj2 (Z.eqb_neq n 0)), (proj2 (Z.ltb_ge n 0)), Z.abs_eq by lia.
  destruct (canon_value n ltac:(lia)) as [Hr Hv].
  unfold SFdiv_core_binary. cbn [Zdigits2].
  replace (Zdigits2 n) with (Z.log2 n + 1)
    by (destruct n; [lia|cbn [Zdigits2]; by rewrite digits2_log2|lia]).
  unfold fexp, emin, prec, emax.
  replace (Z.min (Z.max (Z.log2 n + 1 + 0 - (Z.pos (digits2_pos 1) + 0) - 53) (3 - 1024 - 53)) (0 - 0))
    with (Z.log2 n - 53) by (cbn [digits2_pos]; lia).
  replace (0 - 0 - (Z.log2 n - 53)) with (53 - Z.log2 n) by lia.
  destruct (53 - Z.log2 n) as [|k|k] eqn:Ek; [lia| |lia].
  rewrite Z.shiftl_mul_pow2 by lia.
  pose proof (Z.div_eucl_eq (n * 2 ^ Z.pos k) 1 ltac:(lia)) as He.
  pose proof (Z_mod_lt (n * 2 ^ Z.pos k) 1 ltac:(lia)) as Hm. unfold Z.modulo in Hm.
  destruct (Z.div_eucl (n * 2 ^ Z.pos k) 1) as [q r]. assert (r = 0) as -> by lia.
  assert (q = n * 2 ^ (52 - Z.log2 n) * 2 ^ 1) as ->.
  { rewrite <-Z.mul_assoc, <-Z.pow_add_r by lia.
    replace (52 - Z.log2 n + 1) with (Z.pos k) by lia. lia. }
  change (new_location 1 0) with loc_Exact.
  pose proof (round_aux_exact false (n * 2 ^ (52 - Z.log2 n)) 1 (Z.log2 n - 53)) as Hra.
  unfold prec, emax in Hra. rewrite Hra.
  - unfold canon. f_equal. lia.
  - apply Z.mul_pos_pos; [lia|apply Z.pow_pos_nonneg; lia].
  - lia.
  - rewrite log2_shift by lia. lia.
  - lia.
Qed.

(** A run of digits before a character that ends the number *)
Lemma strtod_dec_nat (n : Z) (s : cstring) :
  0 <= n < 2 ^ 53 -> isdigit (deref s) = false -> is_char (deref s) "."%char = false ->
  strtod (dec_nat n ++ s) = (dbl_of_Z n, s).
Proof.
  intros Hn Hs Hdot. destruct (dec_nat_spec n ltac:(lia)) as (Hall & Hne & Hval).
  destruct (dec_nat n) as [|c ds] eqn:E; [done|].
  pose proof (Forall_inv Hall) as Hc; cbn in Hc.
  unfold strtod. cbn [app skip_space]. rewrite isdigit_not_space by done.
  rewrite !isdigit_not_char by done.
  change (c :: ds ++ s) with ((c :: ds) ++ s). rewrite span_digits_app, Hdot by done.
  rewrite app_nil_r. f_equal. cbn [length]. rewrite Z.pow_0_r, Hval. by apply ratio_1.
Qed.

Lemma skip_digits_app (ds s : cstring) (k : Z) :
  all_digits ds -> skip_digits_colons (ds ++ s) k = skip_digits_colons s k.
Proof.
  induction 1 as [|c ds Hc _ IH]; [done|]. cbn.
  by rewrite isdigit_not_char, Hc by done.
Qed.

Lemma tolower_digit (c : ascii) : isdigit c = true -> tolower c = c.
Proof. unfold isdigit, tolower. intros Hc. case_if; [lia|done]. Qed.

(** The words for the booleans do not start with a digit. *)
Lemma not_boolean (c : ascii) (w s : cstring) (d : ascii) :
  isdigit c = true -> isdigit (tolower d) = false -> strcaseeq (d :: w) (c :: s) = false.
Proof.
  intros Hc Hd. unfold strcaseeq. apply bool_decide_eq_false. cbn. intros [= He _].
  rewrite (tolower_digit c) in He by done. congruence.
Qed.

(** The type of the value aside, a text that starts with a digit is read by
    [number_parts] when [is_num] accepts it. *)
Lemma res_to_num_number (n : Z) (s : cstring) (count : double) (m : Z) (endp : cstring)
    (size time : bool) :
  0 <= n -> is_num (Some (dec_nat n ++ s)) = 1 ->
  number_parts (dec_nat n ++ s) = (count, m, endp, size, time) ->
  fst (res_to_num (Some (dec_nat n ++ s)) None)
  = dbl_mul count (dbl_of_Z (if is_char (deref (tl endp)) "w"%char then m * SIZEOF_WORD else m)).
Proof.
  intros Hn Hnum Hparts. destruct (dec_nat_spec n Hn) as (Hall & Hne & _).
  unfold res_to_num. rewrite Hnum, Hparts.
  destruct (dec_nat n) as [|c ds] eqn:E; [done|]. pose proof (Forall_inv Hall) as Hc; cbn in Hc.
  unfold ATR_TRUE, ATR_FALSE. cbn [app lit list_ascii_of_string].
  by rewrite !not_boolean by done.
Qed.

Lemma is_num_dec_nat (n : Z) (s : cstring) :
  0 <= n ->
  is_num (Some (dec_nat n ++ s)) =
    let '(rest, k) := skip_digits_colons s 0 in
    match rest with
    | [] => if k <=? 2 then 1 else 0
    | c :: rest' =>
        if is_size_suffix rest then 1
        else if is_char c "."%char
        then match span_digits rest' with (_, []) => 1 | _ => 0 end else 0
    end.
Proof.
  intros Hn. destruct (dec_nat_spec n Hn) as (Hall & Hne & _). unfold is_num.
  destruct (dec_nat n) as [|c ds] eqn:E; [done|]. pose proof (Forall_inv Hall) as Hc; cbn in Hc.
  unfold one_of. cbn [app deref existsb lit list_ascii_of_string].
  rewrite !isdigit_not_char by done. cbn [orb].
  change (c :: ds ++ s) with ((c :: ds) ++ s). by rewrite skip_digits_app.
Qed.

(** The multiplier a suffix stands for *)
Definition unit_of (s : cstring) : option Z :=
  if bool_decide (s ∈ [lit ""; lit "k"; lit "kb"; lit "K"; lit "KB"]) then Some 1
  else if bool_decide (s ∈ [lit "m"; lit "mb"; lit "M"; lit "MB"]) then Some 1024
  else if bool_decide (s ∈ [lit "g"; lit "gb"; lit "G"; lit "GB"]) then Some 1048576
  else if bool_decide (s ∈ [lit "t"; lit "tb"; lit "T"; lit "TB"]) then Some 1073741824
  else if bool_decide (s = lit "kw") then Some 8
  else if bool_decide (s = lit "mw") then Some 8192
  else if bool_decide (s = lit "gw") then Some 8388608
  else None.

(** The facts about the unit suffixes that evaluation decides *)
Definition unit_ok (s : cstring) (m : Z) : bool :=
  negb (isdigit (deref s)) && negb (is_char (deref s) "."%char) &&
  bool_decide (skip_digits_colons s 0 = (s, 0)) &&
  (bool_decide (s = []) || is_size_suffix s) &&
  negb (is_char (deref s) ":"%char) &&
  bool_decide (
    (if one_of (deref s) (lit "kK") then Some 1
     else if one_of (deref s) (lit "mM") then Some MEGATOKILO
     else if one_of (deref s) (lit "gG") then Some GIGATOKILO
     else if one_of (deref s) (lit "tT") then Some TERATOKILO
     else if one_of (deref s) (lit "bB") then None
     else if is_char (deref s) "w"%char then None else Some 1)
    = Some (if is_char (deref (tl s)) "w"%char then m / SIZEOF_WORD else m)) &&
  (negb (is_char (deref (tl s)) "w"%char) || (m / SIZEOF_WORD * SIZEOF_WORD =? m)) &&
  (1 <=? m) && (m <=? TERATOKILO).

Lemma unit_of_ok (s : cstring) (m : Z) : unit_of s = Some m -> unit_ok s m = true.
Proof.
  unfold unit_of. intros Hu. repeat case_bool_decide; try done; injection Hu as <-.
  all: repeat match goal with
    | H : _ ∈ _ :: _ |- _ => apply elem_of_cons in H as [->|H]
    | H : _ ∈ [] |- _ => by apply elem_of_nil in H
    end; subst; vm_compute; reflexivity.
Qed.

(** A number with a unit *)
Lemma res_to_num_unit_eq (n m : Z) (s : cstring) :
  0 <= n -> unit_of s = Some m -> n * m < 2 ^ 53 ->
  fst (res_to_num (Some (dec_nat n ++ s)) None) = dbl_of_Z (n * m).
Proof.
  intros Hn Hu Hb. pose proof (unit_of_ok s m Hu) as Hok.
  unfold unit_ok in Hok. rewrite !andb_true_iff, !negb_true_iff, !bool_decide_eq_true in Hok.
  destruct Hok as [[[[[[[[Hd Hdot] Hskip] Hsuf] Hcol] Hmul] Hw] Hm] Hmax].
  apply Z.leb_le in Hm, Hmax. unfold TERATOKILO in Hmax.
  assert (n < 2 ^ 53) by nia.
  assert (is_num (Some (dec_nat n ++ s)) = 1) as Hnum.
  { rewrite is_num_dec_nat, Hskip by done. destruct s as [|c s]; [done|].
    apply orb_true_iff in Hsuf as [E| ->]; [by apply bool_decide_eq_true in E|done]. }
  assert (exists size, number_parts (dec_nat n ++ s)
     = (dbl_of_Z n, if is_char (deref (tl s)) "w"%char then m / SIZEOF_WORD else m, s, size, false))
    as [size Hp].
  { unfold number_parts. rewrite strtod_dec_nat, Hcol by done.
    destruct (one_of _ (lit "kK")); [injection Hmul as <-; eauto|].
    destruct (one_of _ (lit "mM")); [injection Hmul as <-; eauto|].
    destruct (one_of _ (lit "gG")); [injection Hmul as <-; eauto|].
    destruct (one_of _ (lit "tT")); [injection Hmul as <-; eauto|].
    destruct (one_of _ (lit "bB")); [done|].
    destruct (is_char (deref s) "w"%char); [done|]. injection Hmul as <-; eauto. }
  rewrite (res_to_num_number _ _ _ _ _ _ _ Hn Hnum Hp).
  assert ((if is_char (deref (tl s)) "w"%char
    then (if is_char (deref (tl s)) "w"%char then m / SIZEOF_WORD else m) * SIZEOF_WORD
    else (if is_char (deref (tl s)) "w"%char then m / SIZEOF_WORD else m)) = m) as ->.
  { destruct (is_char (deref (tl s)) "w"%char); [|done]. by apply Z.eqb_eq in Hw. }
  destruct (decide (n = 0)) as [->|]; [|by apply dbl_mul_exact; unfold exact; nia].
  rewrite (dbl_of_Z_exact m) by nia. unfold dbl_int, canon.
  rewrite (proj2 (Z.eqb_neq m 0)), (proj2 (Z.ltb_ge m 0)) by lia. done.
Qed.

(** A count with a unit suffix is read as that count times the kilobytes the
    unit stands for (a plain number keeps its value, a word is eight bytes). *)
Theorem res_to_num_units (n m : Z) (s : cstring) :
  0 <= n -> unit_of s = Some m -> n * m < 2 ^ 53 ->
  fst (res_to_num (Some (dec_nat n ++ s)) None) = dbl_of_Z (n * m).
Proof. apply res_to_num_unit_eq. Qed.

Lemma res_to_num_units_witness :
  fst (res_to_num (Some (lit "3gb")) None) = dbl_of_Z (3 * 1048576).
Proof. apply (res_to_num_units 3 1048576 (lit "gb")); [lia|vm_compute; reflexivity|lia]. Defined.

(** A time in the form hours, minutes and seconds is read in seconds. *)
Theorem res_to_num_time (h m s : Z) :
  0 <= h -> 0 <= m -> 0 <= s -> h * 3600 + m * 60 + s < 2 ^ 53 ->
  fst (res_to_num (Some (dec_nat h ++ ":"%char :: dec_nat m ++ ":"%char :: dec_nat s)) None)
  = dbl_of_Z (h * 3600 + m * 60 + s).
Proof.
  intros Hh Hm Hs Hb.
  assert (forall n : Z, 0 <= n -> skip_digits_colons (dec_nat n) 2 = ([], 2)) as Hskip.
  { intros n Hn. destruct (dec_nat_spec n Hn) as (Ha & _).
    by rewrite <-(app_nil_r (dec_nat n)), skip_digits_app. }
  destruct (dec_nat_spec m Hm) as (Ham & _).
  assert (is_num (Some (dec_nat h ++ ":"%char :: dec_nat m ++ ":"%char :: dec_nat s)) = 1) as Hnum.
  { rewrite is_num_dec_nat by done. cbn [skip_digits_colons].
    change (is_char ":"%char ":"%char) with true. cbv iota.
    rewrite skip_digits_app by done. cbn [skip_digits_colons].
    change (is_char ":"%char ":"%char) with true. cbv iota. by rewrite Hskip. }
  assert (strtol10 (dec_nat s) = (s, [])) as Hsec.
  { rewrite <-(app_nil_r (dec_nat s)). apply strtol10_dec_nat; [unfold LONG_MAX; lia|done]. }
  assert (forall n k, 0 <= n -> 0 < k -> n * k < 2 ^ 53 -> k < 2 ^ 53 ->
            dbl_mul (dbl_of_Z n) (dbl_of_Z k) = dbl_of_Z (n * k)) as Hmul.
  { intros n k ? ? ? ?. destruct (decide (n = 0)) as [->|]; [|apply dbl_mul_exact; unfold exact; nia].
    rewrite (dbl_of_Z_exact k) by lia. unfold dbl_int, canon.
    rewrite (proj2 (Z.eqb_neq k 0)), (proj2 (Z.ltb_ge k 0)) by lia. done. }
  erewrite (res_to_num_number h) by
    (first [done|unfold number_parts; rewrite strtod_dec_nat by (done || lia); cbn [deref tl];
     change (is_char ":"%char ":"%char) with true; cbv iota;
     rewrite strtod_dec_nat by (done || lia); cbn [deref tl];
     change (is_char ":"%char ":"%char) with true; cbv iota; rewrite Hsec; reflexivity]).
  cbn [deref tl]. change (is_char NUL "w"%char) with false. cbv iota.
  rewrite (Hmul h), (Hmul m) by lia.
  rewrite !dbl_add_exact by (unfold exact; lia).
  rewrite Hmul by lia. f_equal. lia.
Qed.

Lemma res_to_num_time_witness :
  fst (res_to_num (Some (lit "1:0:30")) None) = dbl_of_Z (1 * 3600 + 0 * 60 + 30).
Proof. apply (res_to_num_time 1 0 30); lia. Defined.

(** ** The case of the unit letters

    [is_num] accepts a word suffix in either case, but [res_to_num] only knows
    the lower-case one: a capital [W] is read as kilobytes. *)
Lemma word_suffix_case :
  is_num (Some (lit "4kW")) = 1 /\
  dbl_trunc (fst (res_to_num (Some (lit "4kw")) None)) = Some 32 /\
  dbl_trunc (fst (res_to_num (Some (lit "4kW")) None)) = Some 4.
Proof. by vm_compute. Qed.

End ResNum.
