(* ===== verification/Index.v ===== *)
(** * The keyed index the limit contexts are stored in

    [src/lib/Libutil/entlim.c] keeps its records in an index of
    [src/lib/Libutil/avltree.c], created with no duplicate keys.  [Index] is
    what it uses of that index and [IndexLaws] is what the index promises; the
    clients are proved against the two.  [ListIndex] is the reference
    implementation, an association list with its cursor. *)

From Stdlib Require Import ZArith Lia Ascii String.
From S2P Require Import Prelude.

(** An operation returns the index after it: [ix_add] is [avl_add_key],
    [ix_find] is [avl_find_key], [ix_delete] is [avl_delete_key] with the
    record deleted, [ix_first] is [avl_first_key], which places the cursor
    before the first key, and [ix_next] is [avl_next_key]. *)
Class Index (I V : Type) := {
  ix_create : I;
  ix_find : cstring -> I -> option V;
  ix_add : cstring -> V -> I -> I * bool;
  ix_delete : cstring -> I -> I * option V;
  ix_first : I -> I;
  ix_next : I -> I * option (cstring * V) }.

(** [ix_elems] are the records in the order of the iteration and [ix_rest] the
    ones after the cursor. *)
Class IndexLaws (I V : Type) `{Index I V} := {
  ix_wf : I -> Prop;
  ix_elems : I -> list (cstring * V);
  ix_rest : I -> list (cstring * V);
  ix_create_wf : ix_wf ix_create;
  ix_create_elems : ix_elems ix_create = [];
  ix_nodup : forall i, ix_wf i -> NoDup (map fst (ix_elems i));
  ix_find_elem : forall i k v, ix_wf i -> (ix_find k i = Some v <-> (k, v) ∈ ix_elems i);
  ix_add_wf : forall i k v, ix_wf i -> ix_wf (fst (ix_add k v i));
  ix_add_ok : forall i k v, ix_wf i ->
    snd (ix_add k v i) = bool_decide (ix_find k i = None);
  ix_add_find : forall i k v k', ix_wf i ->
    ix_find k' (fst (ix_add k v i)) =
      if bool_decide (k' = k) then Some (default v (ix_find k i)) else ix_find k' i;
  ix_delete_wf : forall i k, ix_wf i -> ix_wf (fst (ix_delete k i));
  ix_delete_ok : forall i k, ix_wf i -> snd (ix_delete k i) = ix_find k i;
  ix_delete_find : forall i k k', ix_wf i ->
    ix_find k' (fst (ix_delete k i)) = if bool_decide (k' = k) then None else ix_find k' i;
  ix_first_wf : forall i, ix_wf i -> ix_wf (ix_first i);
  ix_first_elems : forall i, ix_wf i -> ix_elems (ix_first i) = ix_elems i;
  ix_first_rest : forall i, ix_wf i -> ix_rest (ix_first i) = ix_elems i;
  ix_next_wf : forall i, ix_wf i -> ix_wf (fst (ix_next i));
  ix_next_elems : forall i, ix_wf i -> ix_elems (fst (ix_next i)) = ix_elems i;
  ix_next_rest : forall i, ix_wf i -> ix_rest (fst (ix_next i)) = tl (ix_rest i);
  ix_next_head : forall i, ix_wf i -> snd (ix_next i) = head (ix_rest i) }.

Lemma ix_find_none {I V : Type} `{IndexLaws I V} (i : I) (k : cstring) :
  ix_wf i -> (ix_find k i = None <-> forall v, (k, v) ∉ ix_elems i).
Proof.
  intros Hwf. split.
  - intros Hn v Hv. apply ix_find_elem in Hv; [congruence|done].
  - intros Hn. destruct (ix_find k i) as [v|] eqn:E; [|done].
    apply ix_find_elem in E; [by apply Hn in E|done].
Qed.

(** An empty iteration is an index in which nothing is found. *)
Lemma ix_elems_nil {I V : Type} `{IndexLaws I V} (i : I) :
  ix_wf i -> (ix_elems i = [] <-> forall k, ix_find k i = None).
Proof.
  intros Hwf. split.
  - intros He k. apply ix_find_none; [done|]. intros v. rewrite He. apply not_elem_of_nil.
  - intros Hn. destruct (ix_elems i) as [|[k v] l] eqn:E; [done|].
    assert (ix_find k i = Some v) as Hf.
    { apply ix_find_elem; [done|]. rewrite E. by left. }
    by rewrite Hn in Hf.
Qed.

(** ** The reference implementation *)

Module ListIndex.

Section Ops.
Context {V : Type}.

Record t := Ix { elems : list (cstring * V); rest : list (cstring * V) }.

Fixpoint assoc (k : cstring) (l : list (cstring * V)) : option V :=
  match l with
  | [] => None
  | (k', v) :: l' => if streq k k' then Some v else assoc k l'
  end.

Fixpoint remove (k : cstring) (l : list (cstring * V)) : list (cstring * V) :=
  match l with
  | [] => []
  | p :: l' => if streq (fst p) k then remove k l' else p :: remove k l'
  end.

Definition add (k : cstring) (v : V) (i : t) : t * bool :=
  match assoc k (elems i) with
  | Some _ => (i, false)
  | None => ({| elems := elems i ++ [(k, v)]; rest := rest i |}, true)
  end.

Definition delete (k : cstring) (i : t) : t * option V :=
  match assoc k (elems i) with
  | Some v => ({| elems := remove k (elems i); rest := remove k (rest i) |}, Some v)
  | None => (i, None)
  end.

Definition next (i : t) : t * option (cstring * V) :=
  ({| elems := elems i; rest := tl (rest i) |}, head (rest i)).

#[export] Instance list_index : Index t V := {
  ix_create := {| elems := []; rest := [] |};
  ix_find k i := assoc k (elems i);
  ix_add := add;
  ix_delete := delete;
  ix_first i := {| elems := elems i; rest := elems i |};
  ix_next := next }.

Lemma streq_spec (a b : cstring) : reflect (a = b) (streq a b).
Proof. apply iff_reflect. unfold streq. by rewrite bool_decide_eq_true. Qed.

Lemma assoc_elem (l : list (cstring * V)) (k : cstring) (v : V) :
  NoDup (map fst l) -> (assoc k l = Some v <-> (k, v) ∈ l).
Proof.
  induction l as [|[k' v'] l IH]; cbn; intros Hnd.
  - split; [done|]. intros Hin. by apply not_elem_of_nil in Hin.
  - apply NoDup_cons in Hnd as [Hni Hnd]. rewrite elem_of_cons.
    destruct (streq_spec k k') as [->|Hne].
    + split; [intros [= ->]; by left|]. intros [[= ->]|Hin]; [done|].
      destruct Hni. apply list_elem_of_fmap. by exists (k', v).
    + rewrite IH by done. split; [by right|]. by intros [[= -> ->]|Hin].
Qed.

Lemma assoc_app (a b : list (cstring * V)) (k : cstring) :
  assoc k (a ++ b) = match assoc k a with Some v => Some v | None => assoc k b end.
Proof.
  induction a as [|[k' v'] a IH]; cbn; [done|]. by destruct (streq k k').
Qed.

Lemma assoc_remove (l : list (cstring * V)) (k k' : cstring) :
  assoc k' (remove k l) = if bool_decide (k' = k) then None else assoc k' l.
Proof.
  induction l as [|[k0 v0] l IH]; cbn; [by case_bool_decide|].
  destruct (streq_spec k0 k) as [->|Hne]; cbn; rewrite IH.
  - case_bool_decide as Hk; [done|]. by destruct (streq_spec k' k).
  - destruct (streq_spec k' k0) as [->|]; [by rewrite bool_decide_eq_false_2|done].
Qed.

Lemma assoc_none (l : list (cstring * V)) (k : cstring) :
  assoc k l = None -> k ∉ map fst l.
Proof.
  induction l as [|[k' v'] l IH]; cbn; [intros _; apply not_elem_of_nil|].
  destruct (streq_spec k k') as [->|Hne]; [done|]. intros Ha. apply not_elem_of_cons. auto.
Qed.

Lemma remove_incl (l : list (cstring * V)) (k : cstring) (p : cstring * V) :
  p ∈ remove k l -> p ∈ l.
Proof.
  induction l as [|q l IH]; cbn; [done|]. destruct (streq (fst q) k); rewrite !elem_of_cons; tauto.
Qed.

Lemma remove_nodup (l : list (cstring * V)) (k : cstring) :
  NoDup (map fst l) -> NoDup (map fst (remove k l)).
Proof.
  induction l as [|[k' v'] l IH]; cbn; [done|]. intros Hnd. apply NoDup_cons in Hnd as [Hni Hnd].
  destruct (streq_spec k' k) as [->|Hne]; cbn; [by apply IH|].
  apply NoDup_cons. split; [|by apply IH]. intros Hin. apply Hni.
  apply list_elem_of_fmap in Hin as (p & -> & Hin). apply list_elem_of_fmap.
  exists p. split; [done|]. by eapply remove_incl.
Qed.

#[export] Program Instance list_index_laws : IndexLaws t V := {
  ix_wf i := NoDup (map fst (elems i));
  ix_elems := elems;
  ix_rest := rest }.
Next Obligation. constructor. Qed.
Next Obligation. done. Qed.
Next Obligation. done. Qed.
Next Obligation. intros i k v Hwf. by apply assoc_elem. Qed.
Next Obligation.
  intros i k v Hwf. cbn. unfold add. destruct (assoc k (elems i)) eqn:E; cbn; [exact Hwf|].
  rewrite map_app. apply NoDup_app. split_and!; [done| |cbn; apply NoDup_singleton].
  intros x Hx Hx'. apply list_elem_of_singleton in Hx' as ->. by apply assoc_none in E.
Qed.
Next Obligation.
  intros i k v Hwf. cbn. unfold add. destruct (assoc k (elems i)) eqn:E; done.
Qed.
Next Obligation.
  intros i k v k' Hwf. cbn. unfold add. destruct (assoc k (elems i)) eqn:E; cbn.
  - case_bool_decide; by subst.
  - rewrite assoc_app. cbn. destruct (streq_spec k' k) as [->|Hne].
    + by rewrite E, bool_decide_eq_true_2.
    + rewrite bool_decide_eq_false_2 by done. by destruct (assoc k' (elems i)).
Qed.
Next Obligation.
  intros i k Hwf. cbn. unfold delete. destruct (assoc k (elems i)) eqn:E; cbn; [|done].
  by apply remove_nodup.
Qed.
Next Obligation. intros i k Hwf. cbn. unfold delete. by destruct (assoc k (elems i)). Qed.
Next Obligation.
  intros i k k' Hwf. cbn. unfold delete. destruct (assoc k (elems i)) eqn:E; cbn.
  - apply assoc_remove.
  - case_bool_decide; by subst.
Qed.
Next Obligation. done. Qed.
Next Obligation. done. Qed.
Next Obligation. done. Qed.
Next Obligation. done. Qed.
Next Obligation. done. Qed.
Next Obligation. done. Qed.
Next Obligation. done. Qed.

End Ops.
Arguments t : clear implicits.
End ListIndex.

#[export] Existing Instance ListIndex.list_index.
#[export] Existing Instance ListIndex.list_index_laws.
