(* ===== verification/Entlim.v ===== *)
(** * Limits on entities

    [Entlim] is [src/lib/Libutil/entlim.c]: the keys that name a limit (a user,
    a group, a project or all, with a resource or without) and the store of
    limit values, kept in the index of [Index].  [EntlimParse] is
    [src/lib/Libifl/entlim_parse.c]: the text form of a limit attribute. *)

From Stdlib Require Import ZArith Lia Ascii String.
From S2P Require Import Prelude Index.

Module Entlim.

Inductive lim_keytypes := LIM_USER | LIM_GROUP | LIM_PROJECT | LIM_OVERALL.

#[export] Instance lim_keytypes_eq_dec : EqDecision lim_keytypes.
Proof. solve_decision. Defined.

Definition PBS_GENERIC_ENTITY : cstring := lit "PBS_GENERIC".
Definition PBS_ALL_ENTITY : cstring := lit "PBS_ALL".

(** ** Keys *)

Definition kt_letter (kt : lim_keytypes) : ascii :=
  match kt with
  | LIM_USER => "u"%char
  | LIM_GROUP => "g"%char
  | LIM_PROJECT => "p"%char
  | LIM_OVERALL => "o"%char
  end.

(** ["%c:%s;%s"] with a resource and ["%c:%s"] without *)
Definition entlim_mk_keystr (kt : lim_keytypes) (entity : cstring) (resc : option cstring)
  : cstring :=
  kt_letter kt :: ":"%char ::
  match resc with
  | Some resc => entity ++ ";"%char :: resc
  | None => entity
  end.

Definition entlim_mk_runkey (kt : lim_keytypes) (entity : cstring) : cstring :=
  entlim_mk_keystr kt entity None.

Definition entlim_mk_reskey (kt : lim_keytypes) (entity resc : cstring) : cstring :=
  entlim_mk_keystr kt entity (Some resc).

(** The characters before the first semicolon, and the rest *)
Fixpoint span_semi (pc : cstring) : cstring * cstring :=
  match pc with
  | [] => ([], [])
  | c :: pc' =>
      if is_char c ";"%char then ([], pc)
      else let '(a, r) := span_semi pc' in (c :: a, r)
  end.

(** The return code and the text written to [rtnname], a buffer of [ln] bytes *)
Definition entlim_entity_from_key (key : cstring) (ln : Z) : Z * option cstring :=
  let '(name, _) := span_semi (drop 2 key) in
  if Z.of_nat (length name) <? ln then (0, Some name) else (-1, None).

Definition entlim_resc_from_key (key : cstring) (ln : Z) : Z * option cstring :=
  match span_semi key with
  | (_, _ :: pc) =>
      if Z.of_nat (length pc) <? ln then (0, Some pc) else (-1, None)
  | (_, []) => (1, Some [])
  end.

(** ** The store

    A context is an index of records by key string. *)

Section Store.
Context {I V : Type} `{Index I V}.

Definition entlim_initialize_ctx : I := ix_create.

(** A NULL key string and an empty one give the empty key. *)
Definition entlim_create_key (keystr : option cstring) : cstring := default [] keystr.

Definition entlim_get (keystr : cstring) (ctx : I) : option V :=
  ix_find (entlim_create_key (Some keystr)) ctx.

Definition entlim_add (keystr : cstring) (recptr : V) (ctx : I) : I * Z :=
  let '(ctx, ok) := ix_add (entlim_create_key (Some keystr)) recptr ctx in
  (ctx, if ok : bool then 0 else -1).

(** The context after, the return code and the records given to [fr_leaf] *)
Definition entlim_replace (keystr : cstring) (recptr : V) (ctx : I) : I * Z * list V :=
  let pkey := entlim_create_key (Some keystr) in
  let '(ctx, ok) := ix_add pkey recptr ctx in
  if ok : bool then (ctx, 0, [])
  else
    match ix_find pkey ctx with
    | None => (ctx, -1, [])
    | Some olddata =>
        match ix_delete pkey ctx with
        | (ctx, None) => (ctx, -1, [])
        | (ctx, Some _) =>
            let '(ctx, ok) := ix_add (entlim_create_key (Some keystr)) recptr ctx in
            (ctx, if ok : bool then 0 else -1, [olddata])
        end
    end.

Definition entlim_delete (keystr : cstring) (ctx : I) : I * Z * list V :=
  match ix_delete (entlim_create_key (Some keystr)) ctx with
  | (ctx, Some prec) => (ctx, 0, [prec])
  | (ctx, None) => (ctx, -1, [])
  end.

(** The walk over the records: a NULL key starts it. *)
Definition entlim_get_next (pkey : option (cstring * V)) (ctx : option I)
  : option I * option (cstring * V) :=
  match ctx with
  | None => (None, None)
  | Some ctx =>
      let ctx := match pkey with None => ix_first ctx | Some _ => ctx end in
      let '(ctx, r) := ix_next ctx in (Some ctx, r)
  end.

(** [while (avl_next_key(leaf, ctx) == AVL_IX_OK) free_leaf(leaf->recptr);] *)
Fixpoint free_leaves (fuel : nat) (ctx : I) : option (list V) :=
  match fuel with
  | O => None
  | S fuel' =>
      match ix_next ctx with
      | (ctx, Some (_, v)) => option_map (cons v) (free_leaves fuel' ctx)
      | (_, None) => Some []
      end
  end.

(** The records that are freed with the context *)
Definition entlim_free_ctx (fuel : nat) (ctx : I) : option (list V) :=
  free_leaves fuel (ix_first ctx).

End Store.

(** ** What the keys determine *)

Definition no_semi (s : cstring) : Prop := ";"%char ∉ s.

Lemma span_semi_app (e r : cstring) : no_semi e -> span_semi (e ++ ";"%char :: r) = (e, ";"%char :: r).
Proof.
  unfold no_semi. induction e as [|c e IH]; cbn; [done|]. rewrite not_elem_of_cons. intros [Hc He].
  unfold is_char at 1. rewrite bool_decide_eq_false_2 by congruence. by rewrite IH.
Qed.

Lemma span_semi_all (e : cstring) : no_semi e -> span_semi e = (e, []).
Proof.
  unfold no_semi. induction e as [|c e IH]; cbn; [done|]. rewrite not_elem_of_cons. intros [Hc He].
  unfold is_char at 1. rewrite bool_decide_eq_false_2 by congruence. by rewrite IH.
Qed.

(** C32. A key gives back the entity and the resource it was made of, when the
    entity has no semicolon and the buffers are large enough; a key without a
    resource says so. *)
Theorem key_roundtrip (kt : lim_keytypes) (entity resc : cstring) (ln : Z) :
  no_semi entity -> Z.of_nat (length entity) < ln -> Z.of_nat (length resc) < ln ->
  entlim_entity_from_key (entlim_mk_reskey kt entity resc) ln = (0, Some entity) /\
  entlim_resc_from_key (entlim_mk_reskey kt entity resc) ln = (0, Some resc) /\
  entlim_entity_from_key (entlim_mk_runkey kt entity) ln = (0, Some entity) /\
  entlim_resc_from_key (entlim_mk_runkey kt entity) ln = (1, Some []).
Proof.
  intros He Hl Hr.
  assert (forall s, span_semi (kt_letter kt :: ":"%char :: s)
            = let '(a, r) := span_semi s in (kt_letter kt :: ":"%char :: a, r)) as Hspan.
  { intros s. cbn [span_semi].
    replace (is_char (kt_letter kt) ";"%char) with false by (by destruct kt).
    change (is_char ":"%char ";"%char) with false. by destruct (span_semi s). }
  unfold entlim_entity_from_key, entlim_resc_from_key, entlim_mk_reskey, entlim_mk_runkey,
    entlim_mk_keystr.
  cbn [drop skipn]. rewrite !drop_0, !Hspan, !span_semi_app, !(span_semi_all entity) by done.
  cbv beta iota.
  by rewrite (proj2 (Z.ltb_lt (Z.of_nat (length entity)) ln)),
    (proj2 (Z.ltb_lt (Z.of_nat (length resc)) ln)) by lia.
Qed.

Lemma key_roundtrip_witness :
  entlim_entity_from_key (entlim_mk_reskey LIM_USER (lit "bob") (lit "ncpus")) 20
    = (0, Some (lit "bob")) /\
  entlim_resc_from_key (entlim_mk_reskey LIM_USER (lit "bob") (lit "ncpus")) 20
    = (0, Some (lit "ncpus")) /\
  entlim_entity_from_key (entlim_mk_runkey LIM_USER (lit "bob")) 20 = (0, Some (lit "bob")) /\
  entlim_resc_from_key (entlim_mk_runkey LIM_USER (lit "bob")) 20 = (1, Some []).
Proof.
  apply (key_roundtrip LIM_USER (lit "bob") (lit "ncpus") 20); [|cbn; lia..].
  unfold no_semi. cbn. rewrite !elem_of_cons, elem_of_nil. intuition discriminate.
Defined.

Lemma kt_letter_inj (a b : lim_keytypes) : kt_letter a = kt_letter b -> a = b.
Proof. by destruct a, b. Qed.

Lemma keystr_inj (kt kt' : lim_keytypes) (e e' : cstring) (r r' : option cstring) :
  no_semi e -> no_semi e' ->
  entlim_mk_keystr kt e r = entlim_mk_keystr kt' e' r' -> kt = kt' /\ e = e' /\ r = r'.
Proof.
  intros He He' [= Hk Hs]. apply kt_letter_inj in Hk as ->. split; [done|].
  apply (f_equal span_semi) in Hs.
  destruct r as [r|], r' as [r'|]; rewrite ?span_semi_app, ?span_semi_all in Hs by done.
  - by injection Hs as -> ->.
  - by injection Hs as -> ?.
  - by injection Hs as -> ?.
  - by injection Hs as ->.
Qed.

(** ** The store as a finite map *)

Section StoreLaws.
Context {I V : Type} `{IndexLaws I V}.
Implicit Types (ctx : I) (v : V).

Lemma add_get ctx k v k' :
  ix_wf ctx ->
  snd (entlim_add k v ctx) = (if bool_decide (entlim_get k ctx = None) then 0 else -1) /\
  ix_wf (fst (entlim_add k v ctx)) /\
  entlim_get k' (fst (entlim_add k v ctx))
  = if bool_decide (k' = k) then Some (default v (entlim_get k ctx)) else entlim_get k' ctx.
Proof.
  intros Hwf. unfold entlim_add, entlim_get, entlim_create_key. cbn [default from_option id].
  pose proof (ix_add_ok ctx k v Hwf) as Hok. pose proof (ix_add_wf ctx k v Hwf) as Hw.
  pose proof (ix_add_find ctx k v k' Hwf) as Hf.
  destruct (ix_add k v ctx) as [c ok]. cbn in *. subst ok.
  split_and!; [done|done|]. rewrite Hf. by repeat case_bool_decide.
Qed.

(** Replacing a record always succeeds, sets that record alone and releases
    exactly the record it had. *)
Theorem replace_spec ctx k v :
  ix_wf ctx ->
  let '(ctx', rc, freed) := entlim_replace k v ctx in
  rc = 0 /\ ix_wf ctx' /\ freed = option_list (entlim_get k ctx) /\
  forall k', entlim_get k' ctx' = if bool_decide (k' = k) then Some v else entlim_get k' ctx.
Proof.
  intros Hwf. unfold entlim_replace, entlim_get, entlim_create_key. cbn [default from_option id].
  pose proof (ix_add_ok ctx k v Hwf) as Hok. pose proof (ix_add_wf ctx k v Hwf) as Hw.
  pose proof (fun k' => ix_add_find ctx k v k' Hwf) as Hf.
  destruct (ix_add k v ctx) as [c ok]. cbn in *. subst ok.
  destruct (ix_find k ctx) as [old|] eqn:E.
  - rewrite bool_decide_eq_false_2 by done.
    assert (ix_find k c = Some old) as Hold by (by rewrite Hf, bool_decide_eq_true_2).
    rewrite Hold.
    pose proof (ix_delete_ok c k Hw) as Hdo. pose proof (ix_delete_wf c k Hw) as Hdw.
    pose proof (fun k' => ix_delete_find c k k' Hw) as Hdf.
    destruct (ix_delete k c) as [c2 r]. cbn in *. rewrite Hdo, Hold.
    pose proof (ix_add_ok c2 k v Hdw) as Hok2. pose proof (ix_add_wf c2 k v Hdw) as Hw2.
    pose proof (fun k' => ix_add_find c2 k v k' Hdw) as Hf2.
    destruct (ix_add k v c2) as [c3 ok]. cbn in *.
    assert (ix_find k c2 = None) as Hn by (by rewrite Hdf, bool_decide_eq_true_2).
    rewrite Hok2, Hn. rewrite bool_decide_eq_true_2 by done. split_and!; try done.
    intros k'. rewrite Hf2, Hn, Hdf, Hf. by repeat case_bool_decide.
  - rewrite bool_decide_eq_true_2 by done. split_and!; done.
Qed.

Lemma delete_spec ctx k :
  ix_wf ctx ->
  let '(ctx', rc, freed) := entlim_delete k ctx in
  rc = (if bool_decide (entlim_get k ctx = None) then -1 else 0) /\ ix_wf ctx' /\
  freed = option_list (entlim_get k ctx) /\
  forall k', entlim_get k' ctx' = if bool_decide (k' = k) then None else entlim_get k' ctx.
Proof.
  intros Hwf. unfold entlim_delete, entlim_get, entlim_create_key. cbn [default from_option id].
  pose proof (ix_delete_ok ctx k Hwf) as Hdo. pose proof (ix_delete_wf ctx k Hwf) as Hdw.
  pose proof (fun k' => ix_delete_find ctx k k' Hwf) as Hdf.
  destruct (ix_delete k ctx) as [c [r|]]; cbn in *; rewrite <-Hdo; by split_and!.
Qed.

Lemma free_leaves_spec (fuel : nat) : forall ctx,
  ix_wf ctx -> (length (ix_rest ctx) < fuel)%nat ->
  free_leaves fuel ctx = Some (map snd (ix_rest ctx)).
Proof.
  induction fuel as [|fuel IH]; intros ctx Hwf Hf; [lia|]. cbn [free_leaves].
  pose proof (ix_next_wf ctx Hwf) as Hw. pose proof (ix_next_head ctx Hwf) as Hh.
  pose proof (ix_next_rest ctx Hwf) as Hr. destruct (ix_next ctx) as [c r]. cbn in *. subst r.
  destruct (ix_rest ctx) as [|[k v] l]; cbn in *; [done|].
  rewrite IH by (rewrite ?Hr; done || lia). cbn. by rewrite Hr.
Qed.

(** Freeing a context ends and releases every record of the store once. *)
Theorem free_ctx_spec ctx (fuel : nat) :
  ix_wf ctx -> (length (ix_elems ctx) < fuel)%nat ->
  entlim_free_ctx fuel ctx = Some (map snd (ix_elems ctx)).
Proof.
  intros Hwf Hf. unfold entlim_free_ctx.
  rewrite free_leaves_spec; rewrite ?ix_first_rest; try done. by apply ix_first_wf.
Qed.

End StoreLaws.

(** The context with the limits of two users *)
Definition sample_ctx : ListIndex.t cstring :=
  fst (entlim_add (entlim_mk_runkey LIM_USER (lit "bob")) (lit "4")
    (fst (entlim_add (entlim_mk_runkey LIM_USER PBS_GENERIC_ENTITY) (lit "2")
            entlim_initialize_ctx))).

Lemma sample_ctx_wf : ix_wf sample_ctx.
Proof. do 2 refine (proj1 (proj2 (add_get _ _ _ [] _))). apply ix_create_wf. Qed.

Lemma replace_spec_witness :
  let '(ctx', rc, freed) :=
    entlim_replace (entlim_mk_runkey LIM_USER (lit "bob")) (lit "8") sample_ctx in
  rc = 0 /\ ix_wf ctx' /\ freed = [lit "4"] /\
  forall k', entlim_get k' ctx'
    = if bool_decide (k' = entlim_mk_runkey LIM_USER (lit "bob")) then Some (lit "8")
      else entlim_get k' sample_ctx.
Proof.
  exact (replace_spec sample_ctx (entlim_mk_runkey LIM_USER (lit "bob")) (lit "8") sample_ctx_wf).
Defined.

Lemma free_ctx_spec_witness : entlim_free_ctx 3 sample_ctx = Some [lit "2"; lit "4"].
Proof. apply (free_ctx_spec sample_ctx 3 sample_ctx_wf). apply Nat.ltb_lt. by vm_compute. Defined.

End Entlim.

Module EntlimParse.
Import Entlim.

Definition ETLIM_INVALIDCHAR : cstring :=
  ["/"; "["; "]"; "034"; ";"; ":"; "|"; "<"; ">"; "+"; ","; "?"; "*"]%char.

(** ** Splitting at commas *)

(** The characters before a comma or a new line, and the rest *)
Fixpoint span_comma (pc : cstring) : cstring * cstring :=
  match pc with
  | [] => ([], [])
  | c :: pc' =>
      if is_char c ","%char || is_char c "010"%char then ([], pc)
      else let '(a, r) := span_comma pc' in (c :: a, r)
  end.

(** The leading white space, but no new line *)
Fixpoint skip_blanks (pc : cstring) : cstring :=
  match pc with
  | c :: pc' => if negb (is_char c "010"%char) && isspace c then skip_blanks pc' else pc
  | [] => []
  end.

Fixpoint strip_trailing (s : cstring) : cstring :=
  match s with
  | [] => []
  | c :: s' =>
      match strip_trailing s' with
      | [] => if isspace c then [] else [c]
      | t => c :: t
      end
  end.

(** The next value, the text from its first character on (the pointer
    returned) and the text left.  The backward scan over white space is
    assumed to stop at the start of the buffer. *)
Definition parse_comma_string_r (start : option cstring)
  : option (cstring * cstring * cstring) :=
  match start with
  | None | Some [] => None
  | Some pc =>
      let rv := skip_blanks pc in
      let '(tok, pc) := span_comma rv in
      Some (strip_trailing tok, rv, tl pc)
  end.

(** ** One entity limit *)

Definition etlim_validate_name (etype : lim_keytypes) (ename : cstring) : Z :=
  match etype with
  | LIM_OVERALL => if negb (streq ename PBS_ALL_ENTITY) then -1 else 0
  | _ =>
      if streq ename PBS_ALL_ENTITY then -1
      else if existsb (fun c => existsb (is_char c) ETLIM_INVALIDCHAR) ename then -1
      else 0
  end.

(** The result of [entlim_parse_one]: the negative offset of an error, or the
    type, the entity with its letter, the entity and the value. *)
Inductive parsed :=
  | ParseErr (rc : Z)
  | ParseOk (etype : lim_keytypes) (etenty entity : cstring) (val : option cstring).

(** [str - pc - 1], for [pc] a suffix of [str] *)
Definition err_off (str pc : cstring) : Z :=
  Z.of_nat (length pc) - Z.of_nat (length str) - 1.

Definition etype_of (c : ascii) : option lim_keytypes :=
  if is_char c "u"%char then Some LIM_USER
  else if is_char c "g"%char then Some LIM_GROUP
  else if is_char c "p"%char then Some LIM_PROJECT
  else if is_char c "o"%char then Some LIM_OVERALL
  else None.

(** The characters before the closing quote, and the rest from it on *)
Fixpoint span_quote (q : ascii) (pc : cstring) : cstring * cstring :=
  match pc with
  | [] => ([], [])
  | c :: pc' =>
      if is_char c q then ([], pc)
      else let '(a, r) := span_quote q pc' in (c :: a, r)
  end.

(** The scan for the equal sign or the bracket.  [ended] is [pendname != NULL];
    the first white space ends the name, and a character after that which is
    not white is an error there ([inl]).  Otherwise ([inr]) the name's further
    characters and the place of the scan. *)
Fixpoint scan_name (pc : cstring) (ended : bool) : cstring + cstring * cstring :=
  match pc with
  | [] => inr ([], [])
  | c :: pc' =>
      if is_char c "="%char || is_char c "]"%char then inr ([], pc)
      else if isspace c then scan_name pc' true
      else if ended then inl pc
      else match scan_name pc' ended with
           | inl e => inl e
           | inr (a, r) => inr (c :: a, r)
           end
  end.

(** The characters of the value before a bracket or white space *)
Fixpoint span_value (pc : cstring) : cstring * cstring :=
  match pc with
  | [] => ([], [])
  | c :: pc' =>
      if is_char c "]"%char || isspace c then ([], pc)
      else let '(a, r) := span_value pc' in (c :: a, r)
  end.

(** The part after the name: [pc] is at the equal sign or the bracket. *)
Definition parse_value (str : cstring) (etype : lim_keytypes) (etenty at_entity entity pc : cstring)
  : parsed :=
  let bad_name := ParseErr (err_off str at_entity - 2) in
  if is_char (deref pc) "]"%char then
    if etlim_validate_name etype entity =? -1 then bad_name
    else ParseOk etype etenty entity None
  else
    match pc with
    | [] => ParseErr (err_off str pc)
    | _ :: pc =>
        if etlim_validate_name etype entity =? -1 then bad_name
        else
          match skip_space pc with
          | [] => ParseErr (err_off str [])
          | c :: pc' =>
              if is_char c "-"%char then ParseErr (err_off str (c :: pc'))
              else
                let '(v, r) := span_value pc' in
                let r := skip_space r in
                if negb (is_char (deref r) "]"%char) then ParseErr (err_off str r)
                else ParseOk etype etenty entity (Some (c :: v))
          end
    end.

Definition entlim_parse_one (str : cstring) : parsed :=
  let pc := skip_space str in
  if negb (is_char (deref pc) "["%char) then ParseErr (err_off str pc)
  else
    let pc := skip_space (tl pc) in
    match etype_of (deref pc) with
    | None => ParseErr (err_off str pc)
    | Some etype =>
        let letter := deref pc in
        let pc := tl pc in
        if negb (is_char (deref pc) ":"%char) then ParseErr (err_off str pc)
        else
          match tl pc with
          | [] => ParseErr (err_off str [])
          | c :: pc' =>
              if isspace c then ParseErr (err_off str (c :: pc'))
              else if is_char c "034"%char || is_char c "'"%char then
                let '(name, r) := span_quote c pc' in
                match r with
                | [] => ParseErr (err_off str r)
                | _ :: r =>
                    match scan_name r true with
                    | inl e => ParseErr (err_off str e)
                    | inr (_, r) =>
                        parse_value str etype (letter :: ":"%char :: c :: name) pc' name r
                    end
                end
              else
                match scan_name pc' false with
                | inl e => ParseErr (err_off str e)
                | inr (name, r) =>
                    parse_value str etype (letter :: ":"%char :: c :: name) (c :: pc') (c :: name) r
                end
          end
    end.

(** ** The list of limits

    [addfunc] is the callback; [None] as its result is a crash of the caller's
    function, and [None] as [addfunc] is the NULL pointer. *)

Section Parse.
Context {C : Type}.

Definition addfunc_t : Type :=
  C -> lim_keytypes -> cstring -> cstring -> option cstring -> option cstring -> option (C * Z).

Fixpoint parse_loop (fuel : nat) (str ntoken : cstring) (resc : option cstring) (ctx : C)
    (addfunc : option addfunc_t) : option (C * Z) :=
  match fuel with
  | O => None
  | S fuel' =>
      match parse_comma_string_r (Some ntoken) with
      | None => Some (ctx, 0)
      | Some (tok, pcs, ntoken) =>
          match entlim_parse_one tok with
          | ParseErr rc =>
              Some (ctx, Z.of_nat (length pcs) - Z.of_nat (length str) + rc)
          | ParseOk etype ett entity val =>
              match addfunc with
              | None => parse_loop fuel' str ntoken resc ctx addfunc
              | Some f =>
                  match f ctx etype ett entity resc val with
                  | None => None
                  | Some (ctx, rc) =>
                      if negb (rc =? 0) then Some (ctx, rc)
                      else parse_loop fuel' str ntoken resc ctx addfunc
                  end
              end
          end
      end
  end.

(** Every round consumes a character, so the length is fuel enough. *)
Definition entlim_parse (str : option cstring) (resc : option cstring) (ctx : C)
    (addfunc : option addfunc_t) : option (C * Z) :=
  match str with
  | None => Some (ctx, 0)
  | Some str => parse_loop (S (length str)) str str resc ctx addfunc
  end.

End Parse.
Arguments addfunc_t : clear implicits.

(** ** The printed form is parsed back *)

Record entry := Entry { e_kt : lim_keytypes; e_name : cstring; e_val : cstring }.

Definition print_entry (e : entry) : cstring :=
  "["%char :: kt_letter (e_kt e) :: ":"%char :: e_name e ++ "="%char :: e_val e ++ ["]"%char].

(** The entries joined by commas, a blank after each comma *)
Fixpoint print_entries (es : list entry) : cstring :=
  match es with
  | [] => []
  | [e] => print_entry e
  | e :: es => print_entry e ++ ","%char :: " "%char :: print_entries es
  end.

Definition name_char (c : ascii) : bool :=
  negb (isspace c) && negb (is_char c "="%char) && negb (is_char c "'"%char) &&
  negb (existsb (is_char c) ETLIM_INVALIDCHAR).

Definition val_char (c : ascii) : bool :=
  negb (isspace c) && negb (is_char c "]"%char) && negb (is_char c ","%char).

(** An entry whose name is a valid one without white space, equal sign or
    quote, and whose value is a word *)
Definition entry_ok (e : entry) : bool :=
  forallb name_char (e_name e) && negb (bool_decide (e_name e = [])) &&
  (etlim_validate_name (e_kt e) (e_name e) =? 0) &&
  forallb val_char (e_val e) && negb (bool_decide (e_val e = [])) &&
  negb (is_char (deref (e_val e)) "-"%char).

Lemma name_char_facts (c : ascii) :
  name_char c = true ->
  isspace c = false /\ is_char c "="%char = false /\ is_char c "]"%char = false /\
  is_char c "'"%char = false /\ is_char c "034"%char = false /\ is_char c ","%char = false.
Proof.
  unfold name_char, ETLIM_INVALIDCHAR. cbn [existsb]. rewrite !andb_true_iff, !negb_true_iff.
  rewrite !orb_false_iff. tauto.
Qed.

Lemma val_char_facts (c : ascii) :
  val_char c = true -> isspace c = false /\ is_char c "]"%char = false /\ is_char c ","%char = false.
Proof. unfold val_char. rewrite !andb_true_iff, !negb_true_iff. tauto. Qed.

Lemma scan_name_stop (s r : cstring) :
  forallb name_char s = true -> scan_name (s ++ "="%char :: r) false = inr (s, "="%char :: r).
Proof.
  induction s as [|c s IH]; [done|]. intros Hf. cbn [forallb] in Hf.
  apply andb_true_iff in Hf as [Hc Hs]. apply name_char_facts in Hc as (Hsp & Heq & Hbr & _).
  cbn [app scan_name]. by rewrite Heq, Hbr, Hsp, IH.
Qed.

Lemma span_value_stop (s r : cstring) :
  forallb val_char s = true -> span_value (s ++ "]"%char :: r) = (s, "]"%char :: r).
Proof.
  induction s as [|c s IH]; [done|]. intros Hf. cbn [forallb] in Hf.
  apply andb_true_iff in Hf as [Hc Hs]. apply val_char_facts in Hc as (Hsp & Hbr & _).
  cbn [app span_value]. by rewrite Hbr, Hsp, IH.
Qed.

Lemma etype_of_letter (kt : lim_keytypes) : etype_of (kt_letter kt) = Some kt.
Proof. by destruct kt. Qed.

Lemma isspace_letter (kt : lim_keytypes) : isspace (kt_letter kt) = false.
Proof. by destruct kt. Qed.

Lemma parse_one_print (e : entry) :
  entry_ok e = true ->
  entlim_parse_one (print_entry e)
  = ParseOk (e_kt e) (kt_letter (e_kt e) :: ":"%char :: e_name e) (e_name e) (Some (e_val e)).
Proof.
  unfold entry_ok. rewrite !andb_true_iff, !negb_true_iff, !bool_decide_eq_false.
  intros [[[[[Hn Hne] Hv] Hval] Hvne] Hminus]. apply Z.eqb_eq in Hv.
  destruct e as [kt [|n name] [|v val]]; cbn [e_kt e_name e_val] in *; try done.
  cbn [forallb] in Hn, Hval. apply andb_true_iff in Hn as [Hn Hname].
  apply andb_true_iff in Hval as [Hvc Hvals].
  apply name_char_facts in Hn as (Hsp & Heq & Hbr & Hq & Hdq & _).
  apply val_char_facts in Hvc as (Hvsp & Hvbr & _). cbn [deref] in Hminus.
  unfold entlim_parse_one, print_entry. cbn [e_kt e_name e_val skip_space].
  change (isspace "["%char) with false. cbn [deref]. rewrite is_char_refl. cbn [negb tl skip_space].
  rewrite isspace_letter. cbn [deref]. rewrite etype_of_letter. cbn [tl deref].
  rewrite is_char_refl. cbn [negb tl app]. rewrite Hsp, Hdq, Hq. cbn [orb].
  rewrite scan_name_stop by done. unfold parse_value. cbn [deref].
  change (is_char "="%char "]"%char) with false. rewrite Hv. cbn [Z.eqb app skip_space].
  rewrite Hvsp, Hminus. rewrite span_value_stop by done. cbn [skip_space].
  change (isspace "]"%char) with false. cbn [deref]. by rewrite is_char_refl.
Qed.

(** No character of a printed entry ends a token. *)
Definition tok_char (c : ascii) : bool := negb (is_char c ","%char) && negb (is_char c "010"%char).

Lemma not_space_newline (c : ascii) : isspace c = false -> is_char c "010"%char = false.
Proof. intros Hc. apply bool_decide_eq_false. intros ->. done. Qed.

Lemma forallb_impl_tok (p q : ascii -> bool) (s : cstring) :
  (forall c, p c = true -> q c = true) -> forallb p s = true -> forallb q s = true.
Proof.
  intros Hpq. induction s as [|c s IH]; [done|]. cbn. rewrite !andb_true_iff. intuition.
Qed.

Lemma print_tok (e : entry) : entry_ok e = true -> forallb tok_char (print_entry e) = true.
Proof.
  unfold entry_ok. rewrite !andb_true_iff. intros [[[[[Hn _] _] Hval] _] _].
  unfold print_entry. cbn [forallb].
  assert (tok_char (kt_letter (e_kt e)) = true) as -> by (by destruct (e_kt e)).
  change (tok_char "["%char) with true. change (tok_char ":"%char) with true. cbn [andb].
  rewrite forallb_app. cbn [forallb]. change (tok_char "="%char) with true. cbn [andb].
  rewrite forallb_app. cbn [forallb]. change (tok_char "]"%char) with true. rewrite !andb_true_r.
  apply andb_true_iff. split; eapply forallb_impl_tok; [|done|..|done];
    intros c Hc; unfold tok_char.
  - apply name_char_facts in Hc as (Hs & _ & _ & _ & _ & ->). by rewrite not_space_newline.
  - apply val_char_facts in Hc as (Hs & _ & ->). by rewrite not_space_newline.
Qed.

Lemma span_comma_tok (t r : cstring) :
  forallb tok_char t = true -> r = [] \/ (exists r', r = ","%char :: r') ->
  span_comma (t ++ r) = (t, r).
Proof.
  intros Ht Hr. induction t as [|c t IH]; cbn [app].
  - destruct Hr as [->|[r' ->]]; done.
  - cbn [forallb] in Ht. apply andb_true_iff in Ht as [Hc Ht].
    unfold tok_char in Hc. apply andb_true_iff in Hc as [Hc Hn].
    apply negb_true_iff in Hc, Hn. cbn [span_comma]. rewrite Hc, Hn. cbn [orb]. by rewrite IH.
Qed.

Lemma strip_trailing_snoc (s : cstring) (c : ascii) :
  isspace c = false -> strip_trailing (s ++ [c]) = s ++ [c].
Proof.
  intros Hc. induction s as [|d s IH]; cbn [app strip_trailing]; [by rewrite Hc|].
  rewrite IH. by destruct s.
Qed.

Lemma print_entry_snoc (e : entry) : exists s, print_entry e = s ++ ["]"%char].
Proof.
  unfold print_entry. eexists ("["%char :: kt_letter (e_kt e) :: ":"%char :: e_name e ++ "="%char :: e_val e).
  cbn [app]. by rewrite <-app_assoc.
Qed.

(** The first token of a printed list, with the blank after a comma before it *)
Lemma comma_print (e : entry) (es : list entry) (blank : cstring) :
  entry_ok e = true -> blank = [] \/ blank = [" "%char] ->
  parse_comma_string_r (Some (blank ++ print_entries (e :: es)))
  = Some (print_entry e, print_entries (e :: es),
          match es with [] => [] | _ => " "%char :: print_entries es end).
Proof.
  intros He Hb. pose proof (print_tok e He) as Htok.
  assert (skip_blanks (blank ++ print_entries (e :: es)) = print_entries (e :: es)) as Hskip.
  { destruct Hb as [->| ->]; destruct es; done. }
  unfold parse_comma_string_r. rewrite Hskip.
  destruct (blank ++ print_entries (e :: es)) eqn:E.
  { apply app_eq_nil in E as [_ E]. by destruct es. }
  destruct (print_entry_snoc e) as [s Hs].
  assert (strip_trailing (print_entry e) = print_entry e) as Hst
    by (rewrite Hs; by apply strip_trailing_snoc).
  destruct es as [|e' es]; cbn [print_entries].
  - rewrite <-(app_nil_r (print_entry e)) at 1. rewrite span_comma_tok by auto. by rewrite Hst.
  - rewrite span_comma_tok by eauto. by rewrite Hst.
Qed.

(** What the callback is called with, in order, until it reports an error *)
Fixpoint add_entries {C : Type} (f : addfunc_t C) (resc : option cstring) (ctx : C)
    (es : list entry) : option (C * Z) :=
  match es with
  | [] => Some (ctx, 0)
  | e :: es =>
      match f ctx (e_kt e) (kt_letter (e_kt e) :: ":"%char :: e_name e) (e_name e) resc
              (Some (e_val e)) with
      | None => None
      | Some (ctx, rc) => if negb (rc =? 0) then Some (ctx, rc) else add_entries f resc ctx es
      end
  end.

Lemma parse_loop_print {C : Type} (f : addfunc_t C) (resc : option cstring) (str : cstring)
    (es : list entry) : forall (fuel : nat) (blank : cstring) (ctx : C),
  es <> [] -> forallb entry_ok es = true -> blank = [] \/ blank = [" "%char] ->
  (length es < fuel)%nat ->
  parse_loop fuel str (blank ++ print_entries es) resc ctx (Some f) = add_entries f resc ctx es.
Proof.
  induction es as [|e es IH]; [done|]. intros [|fuel] blank ctx _ Hok Hb Hf; cbn [length] in Hf; [lia|].
  cbn [forallb] in Hok. apply andb_true_iff in Hok as [He Hes].
  cbn [parse_loop]. rewrite comma_print, parse_one_print by done. cbn [add_entries].
  destruct (f _ _ _ _ _ _) as [[ctx' rc]|]; [|done]. destruct (negb (rc =? 0)); [done|].
  destruct es as [|e' es].
  - destruct fuel; [lia|done].
  - apply (IH fuel [" "%char]); auto. lia.
Qed.

Lemma print_entries_length (es : list entry) : (length es <= length (print_entries es))%nat.
Proof.
  induction es as [|e [|e' es] IH]; cbn [print_entries length] in *;
    [lia|unfold print_entry; cbn; lia|].
  rewrite length_app. cbn [length] in *. lia.
Qed.

(** Parsing what [print_entries] prints *)
Lemma parse_print_eq {C : Type} (f : addfunc_t C) (resc : option cstring) (ctx : C)
    (es : list entry) :
  forallb entry_ok es = true ->
  entlim_parse (Some (print_entries es)) resc ctx (Some f) = add_entries f resc ctx es.
Proof.
  intros Hok. unfold entlim_parse. destruct (decide (es = [])) as [->|Hne]; [done|].
  pose proof (print_entries_length es).
  apply (parse_loop_print f resc (print_entries es) es _ []); auto. lia.
Qed.

(** C39. Parsing the printed form of a list of well-formed entity limits calls the
    callback once per limit, in order, with its type, entity and value, and
    stops at the first error the callback reports. *)
Theorem parse_print {C : Type} (f : addfunc_t C) (resc : option cstring) (ctx : C)
    (es : list entry) :
  forallb entry_ok es = true ->
  entlim_parse (Some (print_entries es)) resc ctx (Some f) = add_entries f resc ctx es.
Proof. apply parse_print_eq. Qed.

Definition sample_entries : list entry :=
  [Entry LIM_USER (lit "bob") (lit "4"); Entry LIM_OVERALL (lit "PBS_ALL") (lit "10")].

Lemma parse_print_witness :
  print_entries sample_entries = lit "[u:bob=4], [o:PBS_ALL=10]" /\
  entlim_parse (Some (print_entries sample_entries)) None [] (Some
    (fun ctx kt _ name _ val => Some (ctx ++ [(kt, name, val)], 0)))
  = add_entries (fun ctx kt _ name _ val => Some (ctx ++ [(kt, name, val)], 0)) None []
      sample_entries.
Proof. split; [vm_compute; reflexivity|]. apply parse_print. vm_compute. reflexivity. Defined.

(** A name is valid by the code's test only if it has no semicolon, so the keys
    made of valid names determine the limit. *)
Lemma valid_name_no_semi (kt : lim_keytypes) (e : cstring) :
  etlim_validate_name kt e = 0 -> no_semi e.
Proof.
  unfold no_semi. intros Hv Hin.
  assert (existsb (fun c => existsb (is_char c) ETLIM_INVALIDCHAR) e = true) as Hex.
  { apply existsb_exists. exists ";"%char. split; [by apply list_elem_of_In|done]. }
  unfold etlim_validate_name in Hv. rewrite Hex in Hv. destruct kt;
    [destruct (streq e _); discriminate..|].
  destruct (streq e PBS_ALL_ENTITY) eqn:E; cbn in Hv; [|discriminate].
  apply bool_decide_eq_true in E as ->. revert Hin. unfold PBS_ALL_ENTITY. cbn.
  rewrite !elem_of_cons, elem_of_nil. intuition discriminate.
Qed.

(** C33. Two limits of valid entities never share a key: the key determines the kind
    of entity, its name, whether a resource is limited and which. *)
Theorem valid_keys_distinct (kt kt' : lim_keytypes) (e e' : cstring) (r r' : option cstring) :
  etlim_validate_name kt e = 0 -> etlim_validate_name kt' e' = 0 ->
  entlim_mk_keystr kt e r = entlim_mk_keystr kt' e' r' -> kt = kt' /\ e = e' /\ r = r'.
Proof. intros He He'. apply keystr_inj; by eapply valid_name_no_semi. Qed.

Lemma valid_keys_distinct_witness :
  LIM_USER = LIM_USER /\ lit "bob" = lit "bob" /\ Some (lit "mem") = Some (lit "mem").
Proof. by apply (valid_keys_distinct LIM_USER LIM_USER (lit "bob") (lit "bob")). Defined.

End EntlimParse.
