(* ===== verification/SchedData.v ===== *)
(** * The scheduler's data: [src/scheduler/data_types.h]

    The structures the limit code works on.  A linked list is a list.  A pointer
    the code only compares ([resdef *], [queue_info *], [resource_resv *]) is
    kept as an address, a number carried by the structure.  A pointer that may
    be NULL is an [option].  The four count lists that a server, a queue or a
    [limcounts] holds (user, group, project, all) are one record.

    Module [Data] has the structures, module [Calendar] at the end the scans over the
    events of a calendar ([src/scheduler/simulate.c]). *)

From Stdlib Require Import ZArith Lia Ascii String.
From S2P Require Import Prelude Doubles ResNum Entlim.
Import Double ResNum Entlim.

Module Data.

(** ** Constants of [constant.h] *)

(** [enum sched_error], with [RET_BASE] 16300; only the codes used here *)
Definition RET_BASE : Z := 16300.
Definition SUCCESS : Z := RET_BASE + 1.
Definition SCHD_ERROR : Z := RET_BASE + 2.
Definition QUEUE_NOT_STARTED : Z := RET_BASE + 4.
Definition QUEUE_NOT_EXEC : Z := RET_BASE + 5.
Definition QUEUE_JOB_LIMIT_REACHED : Z := RET_BASE + 6.
Definition SERVER_JOB_LIMIT_REACHED : Z := RET_BASE + 7.
Definition SERVER_USER_LIMIT_REACHED : Z := RET_BASE + 8.
Definition QUEUE_USER_LIMIT_REACHED : Z := RET_BASE + 9.
Definition SERVER_GROUP_LIMIT_REACHED : Z := RET_BASE + 10.
Definition QUEUE_GROUP_LIMIT_REACHED : Z := RET_BASE + 11.
Definition DED_TIME : Z := RET_BASE + 12.
Definition CROSS_DED_TIME_BOUNDRY : Z := RET_BASE + 13.
Definition PRIME_ONLY : Z := RET_BASE + 18.
Definition NONPRIME_ONLY : Z := RET_BASE + 19.
Definition CROSS_PRIME_BOUNDARY : Z := RET_BASE + 20.
Definition QUEUE_USER_RES_LIMIT_REACHED : Z := RET_BASE + 24.
Definition SERVER_USER_RES_LIMIT_REACHED : Z := RET_BASE + 25.
Definition QUEUE_GROUP_RES_LIMIT_REACHED : Z := RET_BASE + 26.
Definition SERVER_GROUP_RES_LIMIT_REACHED : Z := RET_BASE + 27.
Definition QUEUE_BYGROUP_JOB_LIMIT_REACHED : Z := RET_BASE + 48.
Definition QUEUE_BYUSER_JOB_LIMIT_REACHED : Z := RET_BASE + 49.
Definition SERVER_BYGROUP_JOB_LIMIT_REACHED : Z := RET_BASE + 50.
Definition SERVER_BYUSER_JOB_LIMIT_REACHED : Z := RET_BASE + 51.
Definition SERVER_BYGROUP_RES_LIMIT_REACHED : Z := RET_BASE + 52.
Definition SERVER_BYUSER_RES_LIMIT_REACHED : Z := RET_BASE + 53.
Definition QUEUE_BYGROUP_RES_LIMIT_REACHED : Z := RET_BASE + 54.
Definition QUEUE_BYUSER_RES_LIMIT_REACHED : Z := RET_BASE + 55.
Definition QUEUE_RESOURCE_LIMIT_REACHED : Z := RET_BASE + 56.
Definition SERVER_RESOURCE_LIMIT_REACHED : Z := RET_BASE + 57.
Definition SERVER_PROJECT_LIMIT_REACHED : Z := RET_BASE + 69.
Definition SERVER_PROJECT_RES_LIMIT_REACHED : Z := RET_BASE + 70.
Definition SERVER_BYPROJECT_RES_LIMIT_REACHED : Z := RET_BASE + 71.
Definition SERVER_BYPROJECT_JOB_LIMIT_REACHED : Z := RET_BASE + 72.
Definition QUEUE_PROJECT_LIMIT_REACHED : Z := RET_BASE + 73.
Definition QUEUE_PROJECT_RES_LIMIT_REACHED : Z := RET_BASE + 74.
Definition QUEUE_BYPROJECT_RES_LIMIT_REACHED : Z := RET_BASE + 75.
Definition QUEUE_BYPROJECT_JOB_LIMIT_REACHED : Z := RET_BASE + 76.

(** [enum schd_err_status] *)
Inductive schd_err_status := SCHD_UNKWN | NOT_RUN | NEVER_RUN.

Definition UNSPECIFIED : Z := -1.
Definition SCHD_INFINITY : Z := -2.

(** Which of the count lists an update concerns *)
Inductive counts_mode := SERVER | QUEUE | ALL.

#[export] Instance counts_mode_eq_dec : EqDecision counts_mode.
Proof. solve_decision. Defined.

(** [enum timed_event_types] *)
Definition TIMED_NOEVENT : Z := 1.
Definition TIMED_ERROR : Z := 2.
Definition TIMED_RUN_EVENT : Z := 4.
Definition TIMED_END_EVENT : Z := 8.
Definition TIMED_POLICY_EVENT : Z := 16.
Definition TIMED_DED_START_EVENT : Z := 32.
Definition TIMED_DED_END_EVENT : Z := 64.
Definition TIMED_NODE_DOWN_EVENT : Z := 128.
Definition TIMED_NODE_UP_EVENT : Z := 256.

(** [enum preempt] and [PREEMPT_TO_BIT] *)
Definition PREEMPT_OVER_QUEUE_LIMIT : Z := 2.
Definition PREEMPT_OVER_SERVER_LIMIT : Z := 3.
Definition PREEMPT_ERR : Z := 7.
Definition PREEMPT_TO_BIT (x : Z) : Z := Z.shiftl 1 x.

(** The flags of [check_limits] *)
Definition RETURN_ALL_ERR : Z := 1.
Definition CHECK_LIMIT : Z := 2.
Definition CHECK_CUMULATIVE_LIMIT : Z := 4.

(** ** Resources *)

Record resdef := ResDef { def_addr : Z; def_name : cstring; def_type : resource_type }.

(** [a == b] on [resdef] pointers *)
Definition same_def (a b : option resdef) : bool :=
  match a, b with
  | None, None => true
  | Some a, Some b => def_addr a =? def_addr b
  | _, _ => false
  end.

(** The name of a request is that of its definition; [None] is NULL. *)
Record resource_req := ResReq {
  rq_name : option cstring; rq_type : resource_type; rq_amount : double;
  rq_res_str : option cstring; rq_def : option resdef }.

Definition rq_set_amount (r : resource_req) (a : double) : resource_req :=
  {| rq_name := rq_name r; rq_type := rq_type r; rq_amount := a;
     rq_res_str := rq_res_str r; rq_def := rq_def r |}.

(** The fields of [schd_resource] that the list of limited resources uses *)
Record schd_resource := SchdRes { res_name : cstring; res_def : option resdef }.

(** ** Counts *)

Record counts := Counts {
  ct_name : option cstring; ct_running : Z; ct_rescts : list resource_req }.

(** [struct limcounts], and the four lists of a server or a queue *)
Record limcounts := LimCounts {
  lc_user : list counts; lc_group : list counts;
  lc_project : list counts; lc_all : list counts }.

Definition no_counts : limcounts := LimCounts [] [] [] [].

Definition lc_set_user (l : limcounts) (c : list counts) : limcounts :=
  LimCounts c (lc_group l) (lc_project l) (lc_all l).
Definition lc_set_group (l : limcounts) (c : list counts) : limcounts :=
  LimCounts (lc_user l) c (lc_project l) (lc_all l).
Definition lc_set_project (l : limcounts) (c : list counts) : limcounts :=
  LimCounts (lc_user l) (lc_group l) c (lc_all l).
Definition lc_set_all (l : limcounts) (c : list counts) : limcounts :=
  LimCounts (lc_user l) (lc_group l) (lc_project l) c.

(** ** Jobs and reservations

    [rr_queue] is the address of [job->queue], [None] when [job] is NULL. *)
Record resource_resv := ResourceResv {
  rr_addr : Z; rr_name : cstring; rr_is_job : bool; rr_is_resv : bool;
  rr_user : option cstring; rr_group : option cstring; rr_project : option cstring;
  rr_duration : Z; rr_hard_duration : Z; rr_resreq : list resource_req;
  rr_queue : option Z; rr_used_walltime : Z;
  rr_start : Z; rr_end : Z; rr_min_duration : Z }.

(** ** The calendar

    The events from the current one on.  A run or an end event carries its job
    or reservation; [None] is an event of another kind. *)
Record timed_event := TimedEvent {
  te_disabled : bool; te_type : Z; te_time : Z; te_ptr : option resource_resv }.

(** ** Limits, queues and servers, over the index the limits are stored in *)

Section Store.
Context {I : Type}.

(** [struct limit_info] of [limits.c]: the hard and the soft limits *)
Record limit_info := LimitInfo { li_ctxh : I; li_ctxs : I }.

(** [sc.running] is [qi_sc_running]; the counts of running jobs are
    [qi_counts] and those of all jobs [qi_total]. *)
Record queue_info := QueueInfo {
  qi_addr : Z; qi_name : cstring; qi_has_hard_limit : bool; qi_has_soft_limit : bool;
  qi_liminfo : limit_info; qi_sc_running : Z; qi_counts : limcounts; qi_total : limcounts;
  qi_running_jobs : list resource_resv;
  qi_is_started : bool; qi_is_exec : bool;
  qi_is_ded_queue : bool; qi_is_prime_queue : bool; qi_is_nonprime_queue : bool }.

(** [si_calendar] is the list of events from [calendar->next_event] on. *)
Record server_info := ServerInfo {
  si_has_hard_limit : bool; si_has_soft_limit : bool;
  si_liminfo : limit_info; si_sc_running : Z; si_counts : limcounts; si_total : limcounts;
  si_running_jobs : list resource_resv; si_calendar : option (list timed_event);
  si_server_time : Z; si_queues : list queue_info }.

Definition qi_set_total (q : queue_info) (t : limcounts) : queue_info :=
  {| qi_addr := qi_addr q; qi_name := qi_name q; qi_has_hard_limit := qi_has_hard_limit q;
     qi_has_soft_limit := qi_has_soft_limit q; qi_liminfo := qi_liminfo q;
     qi_sc_running := qi_sc_running q; qi_counts := qi_counts q; qi_total := t;
     qi_running_jobs := qi_running_jobs q; qi_is_started := qi_is_started q;
     qi_is_exec := qi_is_exec q; qi_is_ded_queue := qi_is_ded_queue q;
     qi_is_prime_queue := qi_is_prime_queue q; qi_is_nonprime_queue := qi_is_nonprime_queue q |}.

Definition si_set_total (s : server_info) (t : limcounts) : server_info :=
  {| si_has_hard_limit := si_has_hard_limit s; si_has_soft_limit := si_has_soft_limit s;
     si_liminfo := si_liminfo s; si_sc_running := si_sc_running s; si_counts := si_counts s;
     si_total := t; si_running_jobs := si_running_jobs s; si_calendar := si_calendar s;
     si_server_time := si_server_time s; si_queues := si_queues s |}.

Definition si_set_queues (s : server_info) (q : list queue_info) : server_info :=
  {| si_has_hard_limit := si_has_hard_limit s; si_has_soft_limit := si_has_soft_limit s;
     si_liminfo := si_liminfo s; si_sc_running := si_sc_running s; si_counts := si_counts s;
     si_total := si_total s; si_running_jobs := si_running_jobs s;
     si_calendar := si_calendar s; si_server_time := si_server_time s; si_queues := q |}.

End Store.
Arguments limit_info : clear implicits.
Arguments queue_info : clear implicits.
Arguments server_info : clear implicits.

(** ** Error structures

    [None] is a NULL argument; [err_next] is the list that follows. *)
Record schd_error := SchdErr {
  err_code : Z; err_status : schd_err_status;
  err_arg1 : option cstring; err_arg2 : option cstring; err_arg3 : option cstring }.

Definition new_schd_error : schd_error := SchdErr SUCCESS SCHD_UNKWN None None None.

End Data.

(** * The calendar of events: [src/scheduler/simulate.c] and [misc.c]

    Module [Calendar]: the scans over the timed events that [check_limits] makes.  A
    pointer into the calendar is the list of events from it on; NULL is the empty list. *)

Module Calendar.
Import Data.

Definition get_next_event (elist : option (list timed_event)) : list timed_event :=
  default [] elist.

(** The first event of a type in the mask that is not disabled, or disabled too *)
Fixpoint find_init_timed_event (event : list timed_event) (ignore_disabled : bool)
    (search_type_mask : Z) : list timed_event :=
  match event with
  | [] => []
  | e :: next =>
      if ignore_disabled && te_disabled e then
        find_init_timed_event next ignore_disabled search_type_mask
      else if Z.land (te_type e) search_type_mask =? 0 then
        find_init_timed_event next ignore_disabled search_type_mask
      else event
  end.

Definition find_next_timed_event (event : list timed_event) (ignore_disabled : bool)
    (search_type_mask : Z) : list timed_event :=
  match event with
  | [] => []
  | _ :: next => find_init_timed_event next ignore_disabled search_type_mask
  end.

Definition exists_run_event (calendar : option (list timed_event)) (end_ : Z) : bool :=
  match find_init_timed_event (get_next_event calendar) true TIMED_RUN_EVENT with
  | [] => false
  | te :: _ => if negb (end_ =? 0) && (te_time te >? end_) then false else true
  end.

(** The loop of [exists_resv_event]; each round drops an event. *)
Fixpoint exists_resv_loop (fuel : nat) (te_list : list timed_event) (end_ : Z) : bool :=
  match fuel, te_list with
  | S fuel', te :: _ =>
      if te_time te <=? end_ then
        let is_resv := match te_ptr te with Some rr => rr_is_resv rr | None => false end in
        if (te_type te =? TIMED_RUN_EVENT) && is_resv then true
        else exists_resv_loop fuel' (find_next_timed_event te_list false TIMED_RUN_EVENT) end_
      else false
  | _, _ => false
  end.

Definition exists_resv_event (calendar : option (list timed_event)) (end_ : Z) : bool :=
  let te_list := get_next_event calendar in
  exists_resv_loop (S (length te_list)) te_list end_.

(** The result is an [int]; the time used is a field of the job here. *)
Definition calc_time_left (resresv : resource_resv) (use_hard_duration : bool) : Z :=
  let duration := if use_hard_duration then rr_hard_duration resresv else rr_duration resresv in
  if duration =? UNSPECIFIED then -1
  else int32 (Z.max 0 (duration - rr_used_walltime resresv)).

(** ** What the scans find *)

Definition wanted (ignore_disabled : bool) (mask : Z) (e : timed_event) : bool :=
  negb (ignore_disabled && te_disabled e) && negb (Z.land (te_type e) mask =? 0).

(** The events of the calendar a scan stops at, in order *)
Definition scan (ignore_disabled : bool) (mask : Z) (l : list timed_event) : list timed_event :=
  List.filter (wanted ignore_disabled mask) l.

Lemma find_init_scan (l : list timed_event) (ig : bool) (mask : Z) :
  match find_init_timed_event l ig mask with
  | [] => scan ig mask l = []
  | e :: r => scan ig mask l = e :: scan ig mask r
  end.
Proof.
  induction l as [|e l IH]; [done|]. cbn [find_init_timed_event].
  assert (scan ig mask (e :: l) = if wanted ig mask e then e :: scan ig mask l else scan ig mask l)
    as Hs by done.
  unfold wanted in Hs. destruct (ig && te_disabled e); [by rewrite Hs|].
  destruct (Z.land (te_type e) mask =? 0); [by rewrite Hs|exact Hs].
Qed.

Lemma find_init_suffix (l : list timed_event) (ig : bool) (mask : Z) :
  (length (find_init_timed_event l ig mask) <= length l)%nat.
Proof.
  induction l as [|e l IH]; cbn; [lia|].
  destruct (ig && te_disabled e); [lia|]. destruct (_ =? 0); cbn; lia.
Qed.

End Calendar.
