(* ===== verification/Counts.v ===== *)
(** * Resource requests and counts

    [ReqList] models the resource request lists of
    [src/scheduler/resource_resv.c]; [Counts] the running counts of
    [src/scheduler/server_info.c], [find_counts_elm] of [check.c] and the total
    counts over running and to-be-run jobs.

    A pointer into a list is the position in it.  A function that finds or adds
    an element returns the list after it and the position; a NULL list gives a
    new list of one element, which the caller may adopt as its list or lose. *)

From Stdlib Require Import ZArith Lia Ascii String.
From S2P Require Import Prelude Doubles ResNum Entlim SchedData.
Import Double ResNum Entlim Data.

Module ReqList.

Definition new_resource_req : resource_req :=
  {| rq_name := None; rq_type := no_type; rq_amount := dbl_of_Z 0;
     rq_res_str := None; rq_def := None |}.

(** The name follows the definition: it stays NULL when there is none. *)
Definition dup_resource_req (oreq : resource_req) : resource_req :=
  {| rq_name := option_map def_name (rq_def oreq); rq_type := rq_type oreq;
     rq_amount := rq_amount oreq; rq_res_str := rq_res_str oreq; rq_def := rq_def oreq |}.

Fixpoint dup_resource_req_list (oreq : list resource_req) : list resource_req :=
  match oreq with
  | [] => []
  | req :: next => dup_resource_req req :: dup_resource_req_list next
  end.

(** [resdef_exists_in_array]; a NULL array duplicates every request. *)
Fixpoint dup_selective_resource_req_list (oreq : list resource_req)
    (deflist : option (list resdef)) : list resource_req :=
  match oreq with
  | [] => []
  | req :: next =>
      let rest := dup_selective_resource_req_list next deflist in
      match deflist with
      | None => dup_resource_req req :: rest
      | Some defs =>
          if existsb (fun d => same_def (Some d) (rq_def req)) defs
          then dup_resource_req req :: rest else rest
      end
  end.

(** The position and the request found *)
Fixpoint find_resource_req (reqlist : list resource_req) (def : option resdef)
  : option (nat * resource_req) :=
  match reqlist with
  | [] => None
  | r :: next =>
      if same_def (rq_def r) def then Some (O, r)
      else option_map (fun p => (S (fst p), snd p)) (find_resource_req next def)
  end.

(** [!strcmp(a, b)] on a name that may be NULL, which equals nothing here *)
Definition name_is (a : option cstring) (b : cstring) : bool :=
  match a with Some a => streq a b | None => false end.

Fixpoint find_resource_req_by_str (reqlist : list resource_req) (name : cstring)
  : option (nat * resource_req) :=
  match reqlist with
  | [] => None
  | r :: next =>
      if name_is (rq_name r) name then Some (O, r)
      else option_map (fun p => (S (fst p), snd p)) (find_resource_req_by_str next name)
  end.

(** NULL for a NULL definition; else the list with the request in it. *)
Definition find_alloc_resource_req (reqlist : list resource_req) (def : option resdef)
  : option (list resource_req * nat) :=
  match def with
  | None => None
  | Some d =>
      match find_resource_req reqlist def with
      | Some (i, _) => Some (reqlist, i)
      | None =>
          Some (reqlist ++
                [{| rq_name := Some (def_name d); rq_type := def_type d;
                    rq_amount := dbl_of_Z 0; rq_res_str := None; rq_def := def |}],
                length reqlist)
      end
  end.

(** ** What is found *)

(** The amount a list holds of a resource, zero when it has none *)
Definition amount_of (l : list resource_req) (def : option resdef) : double :=
  match find_resource_req l def with Some (_, r) => rq_amount r | None => dbl_of_Z 0 end.

Lemma same_def_refl (d : option resdef) : same_def d d = true.
Proof. destruct d; [apply Z.eqb_refl|done]. Qed.

Lemma same_def_sym (a b : option resdef) : same_def a b = same_def b a.
Proof. destruct a, b; cbn; auto using Z.eqb_sym. Qed.

Lemma same_def_trans (a b c : option resdef) :
  same_def a b = true -> same_def a c = same_def b c.
Proof.
  destruct a as [a|], b as [b|], c as [c|]; cbn; try done.
  intros Hab. apply Z.eqb_eq in Hab. by rewrite Hab.
Qed.

Lemma find_req_some (l : list resource_req) (def : option resdef) (i : nat) (r : resource_req) :
  find_resource_req l def = Some (i, r) -> l !! i = Some r /\ same_def (rq_def r) def = true.
Proof.
  revert i. induction l as [|q l IH]; intros i; cbn; [done|].
  destruct (same_def (rq_def q) def) eqn:E; [by intros [= <- <-]|].
  destruct (find_resource_req l def) as [[j q']|]; [|done]. intros [= <- <-]. by apply IH.
Qed.

Lemma find_req_app (a b : list resource_req) (def : option resdef) :
  find_resource_req (a ++ b) def
  = match find_resource_req a def with
    | Some p => Some p
    | None => option_map (fun p => ((length a + fst p)%nat, snd p)) (find_resource_req b def)
    end.
Proof.
  induction a as [|q a IH]; cbn.
  - by destruct (find_resource_req b def) as [[j r]|].
  - destruct (same_def (rq_def q) def); [done|]. rewrite IH.
    by destruct (find_resource_req a def) as [[j r]|], (find_resource_req b def) as [[j' r']|].
Qed.

(** Changing the amount at a position changes what is found there only. *)
Lemma find_req_alter (l : list resource_req) (g : resource_req -> double)
    (d d' : option resdef) (i : nat) (r : resource_req) :
  find_resource_req l d = Some (i, r) ->
  find_resource_req (alter (fun q => rq_set_amount q (g q)) i l) d'
  = if same_def d d' then Some (i, rq_set_amount r (g r)) else find_resource_req l d'.
Proof.
  revert i. induction l as [|q l IH]; intros i; cbn; [done|].
  destruct (same_def (rq_def q) d) eqn:E.
  - intros [= <- <-]. cbn. rewrite (same_def_trans _ _ d' E). by destruct (same_def d d').
  - destruct (find_resource_req l d) as [[j q']|] eqn:El; [|done]. intros [= <- <-]. cbn.
    rewrite (IH j eq_refl). destruct (same_def (rq_def q) d') eqn:E'; [|by destruct (same_def d d')].
    destruct (same_def d d') eqn:Ed; [|done].
    rewrite (same_def_trans _ _ d E'), same_def_sym, Ed in E. done.
Qed.

(** The search only depends on the definition's address. *)
Lemma find_req_same (l : list resource_req) (a b : option resdef) :
  same_def a b = true -> find_resource_req l a = find_resource_req l b.
Proof.
  intros Hab. induction l as [|q l IH]; cbn; [done|].
  by rewrite IH, same_def_sym, (same_def_trans _ _ _ Hab), same_def_sym.
Qed.

Lemma find_dup_list (l : list resource_req) (def : option resdef) :
  find_resource_req (dup_resource_req_list l) def
  = option_map (fun p => (fst p, dup_resource_req (snd p))) (find_resource_req l def).
Proof.
  induction l as [|q l IH]; cbn; [done|]. destruct (same_def (rq_def q) def); [done|].
  rewrite IH. by destruct (find_resource_req l def) as [[j r]|].
Qed.

Lemma amount_dup_list (l : list resource_req) (def : option resdef) :
  amount_of (dup_resource_req_list l) def = amount_of l def.
Proof.
  unfold amount_of. rewrite find_dup_list. by destruct (find_resource_req l def) as [[j r]|].
Qed.

End ReqList.

Module Counts.
Import ReqList.

(** ** Count lists *)

Definition new_counts : counts := {| ct_name := None; ct_running := 0; ct_rescts := [] |}.

Definition dup_counts (octs : counts) : counts :=
  {| ct_name := ct_name octs; ct_running := ct_running octs;
     ct_rescts := dup_resource_req_list (ct_rescts octs) |}.

Fixpoint dup_counts_list (ctslist : list counts) : list counts :=
  match ctslist with
  | [] => []
  | cur :: next => dup_counts cur :: dup_counts_list next
  end.

Fixpoint find_name (l : list counts) (name : cstring) : option (nat * counts) :=
  match l with
  | [] => None
  | c :: next =>
      if name_is (ct_name c) name then Some (O, c)
      else option_map (fun p => (S (fst p), snd p)) (find_name next name)
  end.

Definition find_counts (ctslist : list counts) (name : option cstring)
  : option (nat * counts) :=
  match name with None => None | Some name => find_name ctslist name end.

(** NULL for a NULL name; else the list with the counts in it. *)
Definition find_alloc_counts (ctslist : list counts) (name : option cstring)
  : option (list counts * nat) :=
  match name with
  | None => None
  | Some n =>
      match find_name ctslist n with
      | Some (i, _) => Some (ctslist, i)
      | None =>
          Some (ctslist ++ [{| ct_name := name; ct_running := 0; ct_rescts := [] |}],
                length ctslist)
      end
  end.

(** ** Updates when a job runs or ends *)

(** The body of the loop of [update_counts_on_run] over the requests *)
Definition add_amount (rescts : list resource_req) (req : resource_req) : list resource_req :=
  match find_alloc_resource_req rescts (rq_def req) with
  | None => rescts
  | Some (rescts, i) =>
      alter (fun r => rq_set_amount r (dbl_add (rq_amount r) (rq_amount req))) i rescts
  end.

Definition update_counts_on_run (cts : counts) (resreq : list resource_req) : counts :=
  {| ct_name := ct_name cts; ct_running := int32 (ct_running cts + 1);
     ct_rescts := fold_left add_amount resreq (ct_rescts cts) |}.

Definition sub_amount (rescts : list resource_req) (req : resource_req) : list resource_req :=
  match find_resource_req rescts (rq_def req) with
  | None => rescts
  | Some (i, _) =>
      alter (fun r => rq_set_amount r (dbl_sub (rq_amount r) (rq_amount req))) i rescts
  end.

(** A job without requests is not counted out. *)
Definition update_counts_on_end (cts : counts) (resreq : list resource_req) : counts :=
  match resreq with
  | [] => cts
  | _ =>
      {| ct_name := ct_name cts; ct_running := int32 (ct_running cts - 1);
         ct_rescts := fold_left sub_amount resreq (ct_rescts cts) |}
  end.

(** ** The maximum of two lists *)

(** The loop over the resources of one element: a new one goes in front. *)
Definition max_res (max : list resource_req) (cur_res : resource_req) : list resource_req :=
  match find_resource_req max (rq_def cur_res) with
  | None => dup_resource_req cur_res :: max
  | Some (i, m) =>
      if dbl_gtb (rq_amount cur_res) (rq_amount m)
      then alter (fun r => rq_set_amount r (rq_amount cur_res)) i max
      else max
  end.

Definition max_one (fmax cur : counts) : counts :=
  {| ct_name := ct_name fmax;
     ct_running := if ct_running cur >? ct_running fmax then ct_running cur else ct_running fmax;
     ct_rescts := fold_left max_res (ct_rescts cur) (ct_rescts fmax) |}.

(** The loop over [new].  The search is in [cmax], the list the call was given;
    the elements added go in front of it ([added]) and are not searched. *)
Fixpoint max_loop (new added cmax : list counts) : list counts :=
  match new with
  | [] => added ++ cmax
  | cur :: next =>
      match find_counts cmax (ct_name cur) with
      | None => max_loop next (dup_counts cur :: added) cmax
      | Some (i, _) => max_loop next added (alter (fun m => max_one m cur) i cmax)
      end
  end.

Definition counts_max (cmax new : list counts) : list counts :=
  match new, cmax with
  | [], _ => cmax
  | _, [] => dup_counts_list new
  | _, _ => max_loop new [] cmax
  end.

(** ** Reading a count: [check.c] *)

(** A NULL resource asks for the number of running jobs. *)
Definition find_counts_elm (cts_list : list counts) (name : option cstring)
    (res : option cstring) : double :=
  match find_counts cts_list name with
  | None => dbl_of_Z 0
  | Some (_, cts) =>
      match res with
      | None => dbl_of_Z (ct_running cts)
      | Some res =>
          match find_resource_req_by_str (ct_rescts cts) res with
          | Some (_, req) => rq_amount req
          | None => dbl_of_Z 0
          end
      end
  end.

(** The usage of a user, from the counts or, failing that, from the jobs *)
Definition count_res_by_user (resresv_arr : option (list resource_resv)) (user res : option cstring)
    (cts_list : list counts) : double :=
  match resresv_arr, user, res with
  | Some arr, Some u, Some res =>
      let from_jobs :=
        fold_left (fun used rr =>
          if name_is (rr_user rr) u then
            match find_resource_req_by_str (rr_resreq rr) res with
            | Some (_, req) => dbl_add used (rq_amount req)
            | None => used
            end
          else used) arr (dbl_of_Z 0) in
      match find_counts cts_list user with
      | Some (_, cts) =>
          match find_resource_req_by_str (ct_rescts cts) res with
          | Some (_, req) => rq_amount req
          | None => from_jobs
          end
      | None => from_jobs
      end
  | _, _, _ => dbl_of_Z 0
  end.

(** ** The total counts of a server and its queues *)

(** [NULL] is an empty list: what [find_alloc_counts] made of a NULL list is
    adopted here as the list. *)
Definition adopt (name : option cstring) : list counts :=
  match find_alloc_counts [] name with Some (l, _) => l | None => [] end.

(** One of the four lists: a list in place stays, else the counts of the
    running jobs are copied, else the job's name gets fresh counts. *)
Definition fill_total (total run : list counts) (name : option (option cstring)) : list counts :=
  match total, run, name with
  | _ :: _, _, _ => total
  | [], _ :: _, _ => dup_counts_list run
  | [], [], Some name => adopt name
  | [], [], None => []
  end.

Definition all_name : option cstring := Some (lit "o:" ++ PBS_ALL_ENTITY).

(** The lists of a server ([server]) or of a queue: only the former makes the
    overall counts without a job. *)
Definition fill_totals (server : bool) (total run : limcounts) (resresv : option resource_resv)
  : limcounts :=
  LimCounts
    (fill_total (lc_user total) (lc_user run) (option_map rr_user resresv))
    (fill_total (lc_group total) (lc_group run) (option_map rr_group resresv))
    (fill_total (lc_project total) (lc_project run) (option_map rr_project resresv))
    (fill_total (lc_all total) (lc_all run)
       (if server then Some all_name else option_map (fun _ => all_name) resresv)).

Definition mode_server (mode : counts_mode) : bool :=
  match mode with SERVER | ALL => true | QUEUE => false end.
Definition mode_queue (mode : counts_mode) : bool :=
  match mode with QUEUE | ALL => true | SERVER => false end.

Section Totals.
Context {I : Type}.
Implicit Types (sinfo : option (server_info I)) (qinfo : option (queue_info I)).

(** [None] is the use of a NULL server or queue. *)
Definition create_total_counts sinfo qinfo (resresv : option resource_resv) (mode : counts_mode)
  : option (option (server_info I) * option (queue_info I)) :=
  sinfo ← (if mode_server mode then
             s ← sinfo;
             Some (Some (si_set_total s (fill_totals true (si_total s) (si_counts s) resresv)))
           else Some sinfo);
  qinfo ← (if mode_queue mode then
             q ← qinfo;
             Some (Some (qi_set_total q (fill_totals false (qi_total q) (qi_counts q) resresv)))
           else Some qinfo);
  Some (sinfo, qinfo).

(** [update(find_alloc_counts(cts, name), resreq)]: counts made for a NULL list
    are not kept. *)
Definition update_named (update : counts -> list resource_req -> counts)
    (cts : list counts) (name : option cstring) (resreq : list resource_req) : list counts :=
  match find_alloc_counts cts name, cts with
  | Some (cts', i), _ :: _ => alter (fun c => update c resreq) i cts'
  | _, _ => cts
  end.

(** [update(cts, resreq)], on the first of a list *)
Definition update_first (update : counts -> list resource_req -> counts)
    (cts : list counts) (resreq : list resource_req) : list counts :=
  match cts with c :: l => update c resreq :: l | [] => [] end.

Definition update_totals (update : counts -> list resource_req -> counts)
    (total : limcounts) (rr : resource_resv) : limcounts :=
  LimCounts
    (update_named update (lc_user total) (rr_user rr) (rr_resreq rr))
    (update_named update (lc_group total) (rr_group rr) (rr_resreq rr))
    (update_named update (lc_project total) (rr_project rr) (rr_resreq rr))
    (update_first update (lc_all total) (rr_resreq rr)).

(** The two functions differ in the update they make. *)
Definition update_total_with (update : counts -> list resource_req -> counts)
    sinfo qinfo (rr : resource_resv) (mode : counts_mode)
  : option (option (server_info I) * option (queue_info I)) :=
  r ← create_total_counts sinfo qinfo (Some rr) mode;
  let '(si, qi) := r in
  match si, qi with
  | Some s, _ =>
      if mode_server mode && si_has_hard_limit s then
        Some (Some (si_set_total s (update_totals update (si_total s) rr)), qi)
      else
        match qi with
        | Some q =>
            if mode_queue mode && qi_has_hard_limit q then
              Some (si, Some (qi_set_total q (update_totals update (qi_total q) rr)))
            else Some (si, qi)
        | None => Some (si, qi)
        end
  | None, Some q =>
      if mode_queue mode && qi_has_hard_limit q then
        Some (si, Some (qi_set_total q (update_totals update (qi_total q) rr)))
      else Some (si, qi)
  | None, None => Some (si, qi)
  end.

Definition update_total_counts sinfo qinfo rr mode :=
  update_total_with update_counts_on_run sinfo qinfo rr mode.

Definition update_total_counts_on_end sinfo qinfo rr mode :=
  update_total_with update_counts_on_end sinfo qinfo rr mode.

(** Every total list is dropped and made again from the running counts. *)
Definition refresh_total_counts sinfo : option (option (server_info I)) :=
  match sinfo with
  | None => Some None
  | Some s =>
      let s := si_set_total s no_counts in
      r ← create_total_counts (Some s) None None SERVER;
      s ← fst r;
      qs ← mapM (fun q =>
             r ← create_total_counts None (Some (qi_set_total q no_counts)) None QUEUE;
             snd r) (si_queues s);
      Some (Some (si_set_queues s qs))
  end.

End Totals.

(** ** Running and ending jobs *)

Definition of_def (d : option resdef) (r : resource_req) : bool := same_def (rq_def r) d.

(** The amounts a request list asks of a resource *)
Definition asked (d : option resdef) (l : list resource_req) : list double :=
  map rq_amount (List.filter (of_def d) l).

Lemma add_amount_of (l : list resource_req) (req : resource_req) (d : option resdef) :
  rq_def req <> None ->
  amount_of (add_amount l req) d
  = if of_def d req then dbl_add (amount_of l d) (rq_amount req) else amount_of l d.
Proof.
  intros Hd. unfold add_amount, find_alloc_resource_req.
  destruct (rq_def req) as [rd|] eqn:Erd; [|done]. unfold of_def. rewrite Erd.
  destruct (find_resource_req l (Some rd)) as [[i r]|] eqn:E.
  - unfold amount_of. rewrite (find_req_alter _ _ _ d _ _ E).
    destruct (same_def (Some rd) d) eqn:Es; [|done]. by rewrite <-(find_req_same _ _ _ Es), E.
  - set (nr := {| rq_name := _ |}).
    assert (find_resource_req (l ++ [nr]) (Some rd) = Some (length l, nr)) as Hn.
    { rewrite find_req_app, E. cbn [find_resource_req nr rq_def]. rewrite same_def_refl. cbn.
      by rewrite Nat.add_0_r. }
    unfold amount_of. rewrite (find_req_alter _ _ _ d _ _ Hn).
    destruct (same_def (Some rd) d) eqn:Es; [by rewrite <-(find_req_same _ _ _ Es), E|].
    rewrite find_req_app. destruct (find_resource_req l d) as [[j r]|]; [done|].
    cbn [find_resource_req nr rq_def]. by rewrite Es.
Qed.

Lemma sub_amount_find (l : list resource_req) (req : resource_req) (d : option resdef) :
  find_resource_req (sub_amount l req) d = None <-> find_resource_req l d = None.
Proof.
  unfold sub_amount. destruct (find_resource_req l (rq_def req)) as [[i r]|] eqn:E; [|done].
  rewrite (find_req_alter _ _ _ d _ _ E).
  destruct (same_def (rq_def req) d) eqn:Es; [|done]. by rewrite <-(find_req_same _ _ _ Es), E.
Qed.

Lemma sub_amount_of (l : list resource_req) (req : resource_req) (d : option resdef) :
  find_resource_req l d <> None ->
  amount_of (sub_amount l req) d
  = if of_def d req then dbl_sub (amount_of l d) (rq_amount req) else amount_of l d.
Proof.
  intros Hf. unfold sub_amount, of_def, amount_of.
  destruct (find_resource_req l (rq_def req)) as [[i r]|] eqn:E.
  - rewrite (find_req_alter _ _ _ d _ _ E).
    destruct (same_def (rq_def req) d) eqn:Es; [|done]. by rewrite <-(find_req_same _ _ _ Es), E.
  - destruct (same_def (rq_def req) d) eqn:Es; [|done]. by rewrite <-(find_req_same _ _ _ Es), E in Hf.
Qed.

Lemma fold_add_of (req l : list resource_req) (d : option resdef) :
  Forall (fun r => rq_def r <> None) req ->
  amount_of (fold_left add_amount req l) d = fold_left dbl_add (asked d req) (amount_of l d).
Proof.
  intros Hall. revert l. induction Hall as [|r req Hr _ IH]; intros l; cbn; [done|].
  rewrite IH, add_amount_of by done. unfold asked. cbn. by destruct (of_def d r).
Qed.

Lemma fold_sub_of (req : list resource_req) (d : option resdef) : forall l,
  find_resource_req l d <> None \/ asked d req = [] ->
  amount_of (fold_left sub_amount req l) d = fold_left dbl_sub (asked d req) (amount_of l d).
Proof.
  unfold asked. induction req as [|r req IH]; intros l Hf; cbn; [done|]. cbn in Hf.
  destruct (of_def d r) eqn:Er; cbn in *.
  - assert (find_resource_req l d <> None) by (by destruct Hf).
    rewrite IH by (left; by rewrite sub_amount_find). by rewrite sub_amount_of, Er.
  - destruct (find_resource_req l d) eqn:El.
    + rewrite IH by (left; rewrite sub_amount_find; congruence).
      rewrite sub_amount_of, Er by congruence. done.
    + destruct Hf as [?|Hn]; [done|]. rewrite IH by (by right). rewrite Hn. cbn.
      unfold amount_of. pose proof (proj2 (sub_amount_find l r d) El) as ->. by rewrite El.
Qed.

Lemma add_amount_found (l : list resource_req) (req : resource_req) (d : option resdef) :
  find_resource_req l d <> None \/ (rq_def req <> None /\ of_def d req = true) ->
  find_resource_req (add_amount l req) d <> None.
Proof.
  unfold add_amount, find_alloc_resource_req, of_def. intros Hf.
  destruct (rq_def req) as [rd|] eqn:Erd; [|by destruct Hf as [?|[? _]]].
  destruct (find_resource_req l (Some rd)) as [[i r]|] eqn:E.
  - rewrite (find_req_alter _ _ _ d _ _ E). destruct (same_def (Some rd) d) eqn:Es; [done|].
    by destruct Hf as [?|[_ ?]].
  - set (nr := {| rq_name := _ |}).
    assert (find_resource_req (l ++ [nr]) (Some rd) = Some (length l, nr)) as Hn.
    { rewrite find_req_app, E. cbn [find_resource_req nr rq_def]. rewrite same_def_refl. cbn.
      by rewrite Nat.add_0_r. }
    rewrite (find_req_alter _ _ _ d _ _ Hn). destruct (same_def (Some rd) d) eqn:Es; [done|].
    rewrite find_req_app. destruct Hf as [?|[_ ?]]; [|done]. by destruct (find_resource_req l d).
Qed.

Lemma fold_add_found (req : list resource_req) (d : option resdef) : forall l,
  Forall (fun r => rq_def r <> None) req ->
  find_resource_req l d <> None \/ asked d req <> [] ->
  find_resource_req (fold_left add_amount req l) d <> None.
Proof.
  unfold asked. induction req as [|r req IH]; intros l Hall Hf; cbn in *; [by destruct Hf|].
  apply Forall_cons in Hall as [Hr Hall]. apply IH; [done|].
  destruct (of_def d r) eqn:Er; cbn in Hf; [left; apply add_amount_found; auto|].
  destruct Hf as [Hf|Hf]; [left; apply add_amount_found; auto|by right].
Qed.

(** A request list of integer amounts, as the resources of a job are *)
Definition plain_req (B : Z) (l : list resource_req) : Prop :=
  Forall (fun r => rq_def r <> None /\ exists z, rq_amount r = dbl_of_Z z /\ 0 <= z <= B) l.

Lemma asked_plain (B : Z) (l : list resource_req) (d : option resdef) :
  plain_req B l ->
  exists zs, asked d l = map dbl_of_Z zs /\ Forall (fun z => 0 <= z <= B) zs /\
             (length zs <= length l)%nat.
Proof.
  unfold asked. induction 1 as [|r l [_ (z & Hz & Hb)] _ (zs & IH & Hzs & Hl)]; cbn.
  - exists []. split_and!; [done|by apply Forall_nil_2|cbn; lia].
  - destruct (of_def d r); cbn.
    + exists (z :: zs). split_and!; [by rewrite Hz, IH|by apply Forall_cons_2|cbn; lia].
    + exists zs. split_and!; [done..|cbn; lia].
Qed.

Lemma plain_req_def (B : Z) (l : list resource_req) :
  plain_req B l -> Forall (fun r => rq_def r <> None) l.
Proof. intros Hp. eapply Forall_impl; [exact Hp|]. by intros r [? _]. Qed.

Lemma on_end_eq (c : counts) (req : list resource_req) :
  req <> [] ->
  update_counts_on_end c req
  = {| ct_name := ct_name c; ct_running := int32 (ct_running c - 1);
       ct_rescts := fold_left sub_amount req (ct_rescts c) |}.
Proof. by destruct req. Qed.

(** Counting a job in raises the number of running jobs by one and adds, for
    every resource, each amount the job asks of it. *)
Theorem on_run_spec (c : counts) (req : list resource_req) (d : option resdef) :
  Forall (fun r => rq_def r <> None) req ->
  ct_name (update_counts_on_run c req) = ct_name c /\
  ct_running (update_counts_on_run c req) = int32 (ct_running c + 1) /\
  amount_of (ct_rescts (update_counts_on_run c req)) d
  = fold_left dbl_add (asked d req) (amount_of (ct_rescts c) d).
Proof. intros Hall. split_and!; [done..|]. by apply fold_add_of. Qed.

(** Ending a job undoes the count of it. *)
Lemma run_end_eq (c : counts) (req : list resource_req) (d : option resdef) (z0 : Z) :
  req <> [] -> plain_req (2 ^ 40) req -> Z.of_nat (length req) < 4096 ->
  in_int (ct_running c) -> ct_running c < INT_MAX ->
  amount_of (ct_rescts c) d = dbl_of_Z z0 -> 0 <= z0 <= 2 ^ 52 ->
  let c' := update_counts_on_end (update_counts_on_run c req) req in
  ct_name c' = ct_name c /\ ct_running c' = ct_running c /\
  amount_of (ct_rescts c') d = amount_of (ct_rescts c) d.
Proof.
  intros Hne Hp Hlen Hrun Hmax H0 Hz0. pose proof (plain_req_def _ _ Hp) as Hdef.
  unfold in_int, INT_MIN, INT_MAX in *.
  cbv zeta. rewrite on_end_eq by done. split_and!; [done| |].
  - cbn. rewrite !int32_id by (unfold in_int, INT_MIN, INT_MAX; rewrite ?int32_id;
      unfold in_int, INT_MIN, INT_MAX; lia). lia.
  - cbn [ct_rescts update_counts_on_run]. destruct (asked_plain _ req d Hp) as (zs & Ha & Hzs & Hl).
    rewrite fold_sub_of.
    + rewrite fold_add_of, Ha, H0 by done.
      rewrite (fold_add_exact _ (2 ^ 40)), (fold_sub_exact _ (2 ^ 40)) by (try done; lia). done.
    + destruct (asked d req) as [|a l] eqn:E; [by right|left].
      apply fold_add_found; [done|]. right. by rewrite E.
Qed.

(** Counting a job out after it was counted in restores the number of running
    jobs and the amount of every resource, for a job that asks for something,
    in integer amounts. *)
Theorem run_end_restores (c : counts) (req : list resource_req) (d : option resdef) (z0 : Z) :
  req <> [] -> plain_req (2 ^ 40) req -> Z.of_nat (length req) < 4096 ->
  in_int (ct_running c) -> ct_running c < INT_MAX ->
  amount_of (ct_rescts c) d = dbl_of_Z z0 -> 0 <= z0 <= 2 ^ 52 ->
  let c' := update_counts_on_end (update_counts_on_run c req) req in
  ct_name c' = ct_name c /\ ct_running c' = ct_running c /\
  amount_of (ct_rescts c') d = amount_of (ct_rescts c) d.
Proof. apply run_end_eq. Qed.

(** A job that asks for nothing is counted in but never counted out. *)
Lemma run_end_no_request (c : counts) :
  ct_running (update_counts_on_end (update_counts_on_run c []) []) = int32 (ct_running c + 1).
Proof. done. Qed.

(** ** The maximum, element by element *)

(** The counts of a name *)
Definition look (l : list counts) (n : cstring) : option counts :=
  option_map snd (find_name l n).

(** The number of running jobs of a name, and the amount of a resource *)
Definition run_of (l : list counts) (n : cstring) : option Z := option_map ct_running (look l n).

Definition res_in (l : list resource_req) (d : option resdef) : option double :=
  option_map (fun p => rq_amount (snd p)) (find_resource_req l d).

Definition res_of (l : list counts) (n : cstring) (d : option resdef) : option double :=
  c ← look l n; res_in (ct_rescts c) d.

Definition dmax (a b : double) : double := if dbl_gtb b a then b else a.

(** A resource appears at most once. *)
Fixpoint distinct (l : list resource_req) : Prop :=
  match l with
  | [] => True
  | r :: l => find_resource_req l (rq_def r) = None /\ distinct l
  end.

(** Every element is named, once, and has distinct resources. *)
Definition wf_counts (l : list counts) : Prop :=
  NoDup (map ct_name l) /\ Forall (fun c => ct_name c <> None /\ distinct (ct_rescts c)) l.

Lemma max_res_in (m : list resource_req) (r : resource_req) (d : option resdef) :
  res_in (max_res m r) d
  = if of_def d r then
      Some (match res_in m d with Some a => dmax a (rq_amount r) | None => rq_amount r end)
    else res_in m d.
Proof.
  unfold max_res, res_in, of_def. destruct (find_resource_req m (rq_def r)) as [[i q]|] eqn:E.
  - destruct (dbl_gtb (rq_amount r) (rq_amount q)) eqn:Eg.
    + rewrite (find_req_alter _ _ _ d _ _ E).
      destruct (same_def (rq_def r) d) eqn:Es; [|done]. rewrite <-(find_req_same _ _ _ Es), E.
      cbn. unfold dmax. by rewrite Eg.
    + destruct (same_def (rq_def r) d) eqn:Es; [|done]. rewrite <-(find_req_same _ _ _ Es), E.
      cbn. unfold dmax. by rewrite Eg.
  - cbn [find_resource_req dup_resource_req rq_def].
    destruct (same_def (rq_def r) d) eqn:Es; cbn.
    + by rewrite <-(find_req_same _ _ _ Es), E.
    + by destruct (find_resource_req m d) as [[j q]|].
Qed.

Lemma res_in_cons (r : resource_req) (l : list resource_req) (d : option resdef) :
  res_in (r :: l) d = if same_def (rq_def r) d then Some (rq_amount r) else res_in l d.
Proof.
  unfold res_in. cbn. destruct (same_def (rq_def r) d); [done|].
  by destruct (find_resource_req l d) as [[j q]|].
Qed.

Lemma fold_max_res (rs : list resource_req) (d : option resdef) : forall m,
  distinct rs ->
  res_in (fold_left max_res rs m) d
  = union_with (fun a b => Some (dmax a b)) (res_in m d) (res_in rs d).
Proof.
  induction rs as [|r rs IH]; intros m Hd; cbn [fold_left].
  - by destruct (res_in m d).
  - destruct Hd as [Hn Hd]. rewrite IH, max_res_in by done. unfold of_def.
    rewrite res_in_cons. destruct (same_def (rq_def r) d) eqn:Es; [|done].
    assert (res_in rs d = None) as -> by (unfold res_in; by rewrite <-(find_req_same _ _ _ Es), Hn).
    by destruct (res_in m d).
Qed.

Lemma name_is_some (a : option cstring) (b : cstring) : name_is a b = true <-> a = Some b.
Proof.
  destruct a as [a|]; cbn; [|done]. unfold streq. rewrite bool_decide_eq_true. naive_solver.
Qed.

Lemma look_cons (c : counts) (l : list counts) (n : cstring) :
  look (c :: l) n = if name_is (ct_name c) n then Some c else look l n.
Proof.
  unfold look. cbn. destruct (name_is (ct_name c) n); [done|]. by destruct (find_name l n) as [[]|].
Qed.

Lemma look_app (a b : list counts) (n : cstring) :
  look (a ++ b) n = match look a n with Some c => Some c | None => look b n end.
Proof.
  induction a as [|c a IH]; cbn [app]; [done|]. rewrite !look_cons, IH.
  by destruct (name_is (ct_name c) n).
Qed.

Lemma look_name (l : list counts) (n : cstring) (c : counts) :
  look l n = Some c -> ct_name c = Some n /\ c ∈ l.
Proof.
  induction l as [|c' l IH]; [done|]. rewrite look_cons, elem_of_cons.
  destruct (name_is (ct_name c') n) eqn:E.
  - intros [= <-]. apply name_is_some in E. auto.
  - intros Hl. apply IH in Hl as [? ?]. auto.
Qed.

Lemma look_none (l : list counts) (n : cstring) :
  Some n ∉ map ct_name l -> look l n = None.
Proof.
  induction l as [|c l IH]; [done|]. cbn. rewrite not_elem_of_cons, look_cons. intros [Hc Hl].
  destruct (name_is (ct_name c) n) eqn:E; [|by apply IH]. apply name_is_some in E. congruence.
Qed.

Lemma look_alter (l : list counts) (f : counts -> counts) (n n' : cstring) (i : nat) (c : counts) :
  (forall c, ct_name (f c) = ct_name c) -> find_name l n = Some (i, c) ->
  look (alter f i l) n' = if bool_decide (n' = n) then Some (f c) else look l n'.
Proof.
  intros Hf. revert i. induction l as [|q l IH]; intros i; cbn; [done|].
  destruct (name_is (ct_name q) n) eqn:E.
  - intros [= <- <-]. cbn. rewrite !look_cons, Hf. apply name_is_some in E. rewrite E. cbn.
    unfold streq. case_bool_decide; case_bool_decide; congruence.
  - destruct (find_name l n) as [[j q']|] eqn:El; [|done]. intros [= <- <-]. cbn.
    rewrite !look_cons, (IH j eq_refl).
    destruct (name_is (ct_name q) n') eqn:E'; [|done]. apply name_is_some in E'.
    case_bool_decide; [|done]. subst n'. apply name_is_some in E'. congruence.
Qed.

(** What the loop makes of a name *)
Definition max_look (m c : option counts) : option counts :=
  match m, c with
  | Some m, Some c => Some (max_one m c)
  | Some m, None => Some m
  | None, Some c => Some (dup_counts c)
  | None, None => None
  end.

Lemma max_loop_look (new : list counts) (n : cstring) : forall (added cmax : list counts),
  NoDup (map ct_name new) -> Forall (fun c => ct_name c <> None) new ->
  (forall m, look new m <> None -> look added m = None) ->
  look added n = None \/ look cmax n = None ->
  look (max_loop new added cmax) n
  = match look added n with
    | Some a => Some a
    | None => max_look (look cmax n) (look new n)
    end.
Proof.
  induction new as [|cur new IH]; intros added cmax Hnd Hnm Hdis Hac; cbn [max_loop].
  { rewrite look_app. destruct (look added n); [done|]. by destruct (look cmax n). }
  cbn in Hnd. apply NoDup_cons in Hnd as [Hni Hnd]. apply Forall_cons in Hnm as [Hc Hnm].
  destruct (ct_name cur) as [nc|] eqn:Enc; [|done]. pose proof (look_none _ _ Hni) as Hnone.
  assert (forall m, look (cur :: new) m = if bool_decide (m = nc) then Some cur else look new m) as Hcons.
  { intros m. rewrite look_cons, Enc. cbn. unfold streq. do 2 case_bool_decide; congruence. }
  assert (forall m, look new m <> None -> look (cur :: new) m <> None) as Hsub.
  { intros m Hm. rewrite Hcons. by case_bool_decide. }
  cbn [find_counts]. destruct (find_name cmax nc) as [[i m]|] eqn:E.
  - rewrite IH; [|done|done|by auto|].
    + rewrite Hcons, (look_alter _ (fun q => max_one q cur) _ _ _ _ (fun _ => eq_refl) E).
      case_bool_decide; [|done]. subst n.
      assert (look cmax nc = Some m) as -> by (unfold look; by rewrite E). by rewrite Hnone.
    + rewrite (look_alter _ (fun q => max_one q cur) _ _ _ _ (fun _ => eq_refl) E). case_bool_decide; [|done].
      subst n. left. apply Hdis. rewrite Hcons. by rewrite bool_decide_eq_true_2.
  - assert (look cmax nc = None) as Hcm by (unfold look; by rewrite E).
    assert (forall m, look (dup_counts cur :: added) m
              = if bool_decide (m = nc) then Some (dup_counts cur) else look added m) as Hadd.
    { intros m. rewrite look_cons. cbn. rewrite Enc. cbn. unfold streq.
      do 2 case_bool_decide; congruence. }
    rewrite IH; [|done|done| |].
    + rewrite Hadd, Hcons. case_bool_decide; [|done]. subst n.
      rewrite Hdis by (rewrite Hcons; by rewrite bool_decide_eq_true_2). by rewrite Hcm.
    + intros m Hm. rewrite Hadd. case_bool_decide; [subst m; done|]. by apply Hdis, Hsub.
    + rewrite Hadd. case_bool_decide; [subst n; by right|done].
Qed.

Lemma look_dup (l : list counts) (n : cstring) :
  look (dup_counts_list l) n = option_map dup_counts (look l n).
Proof.
  induction l as [|c l IH]; cbn [dup_counts_list]; [done|]. rewrite !look_cons, IH. cbn.
  by destruct (name_is (ct_name c) n).
Qed.

(** Every element is named, once. *)
Definition named (l : list counts) : Prop :=
  NoDup (map ct_name l) /\ Forall (fun c => ct_name c <> None) l.

Lemma wf_named (l : list counts) : wf_counts l -> named l.
Proof.
  intros [Hnd Hall]. split; [done|]. eapply Forall_impl; [exact Hall|]. by intros c [? _].
Qed.

Lemma counts_max_look (cmax new : list counts) (n : cstring) :
  named new ->
  look (counts_max cmax new) n = max_look (look cmax n) (look new n).
Proof.
  intros [Hnd Hnm].
  destruct new as [|c new]; [cbn [counts_max]; by destruct (look cmax n)|].
  destruct cmax as [|m cmax]; cbn [counts_max].
  - rewrite look_dup. by destruct (look (c :: new) n).
  - rewrite max_loop_look by first [done|by left]. done.
Qed.

Lemma res_in_dup (l : list resource_req) (d : option resdef) :
  res_in (dup_resource_req_list l) d = res_in l d.
Proof. unfold res_in. rewrite find_dup_list. by destruct (find_resource_req l d) as [[]|]. Qed.

(** The maximum of two count lists has, for every name, the larger number of
    running jobs and, for every resource, the larger amount; a name or a
    resource that only one of the two lists has is taken from that list. *)
Theorem counts_max_spec (cmax new : list counts) (n : cstring) (d : option resdef) :
  wf_counts new ->
  run_of (counts_max cmax new) n
    = union_with (fun a b => Some (Z.max a b)) (run_of cmax n) (run_of new n) /\
  res_of (counts_max cmax new) n d
    = union_with (fun a b => Some (dmax a b)) (res_of cmax n d) (res_of new n d).
Proof.
  intros Hwf. unfold run_of, res_of. rewrite counts_max_look by by apply wf_named.
  destruct Hwf as [_ Hall]. destruct (look new n) as [c|] eqn:Ec.
  - apply look_name in Ec as [_ Hin]. rewrite Forall_forall in Hall.
    destruct (Hall c Hin) as [_ Hd]. destruct (look cmax n) as [m|]; cbn [max_look].
    + cbn. split; [|by apply fold_max_res]. f_equal. destruct (Z.gtb_spec (ct_running c) (ct_running m)); lia.
    + cbn. rewrite res_in_dup. by destruct (res_in (ct_rescts c) d).
  - destruct (look cmax n) as [m|]; cbn; [|done]. by destruct (res_in (ct_rescts m) d).
Qed.

(** ** The totals *)

Definition fresh_counts (n : cstring) : counts :=
  {| ct_name := Some n; ct_running := 0; ct_rescts := [] |}.

Lemma find_name_app (a b : list counts) (n : cstring) :
  find_name (a ++ b) n
  = match find_name a n with
    | Some p => Some p
    | None => option_map (fun p => ((length a + fst p)%nat, snd p)) (find_name b n)
    end.
Proof.
  induction a as [|q a IH]; cbn.
  - by destruct (find_name b n) as [[j r]|].
  - destruct (name_is (ct_name q) n); [done|]. rewrite IH.
    by destruct (find_name a n) as [[j r]|], (find_name b n) as [[j' r']|].
Qed.

(** Finding or making the counts of a name, and changing them in place *)
Lemma alloc_alter_look (f : counts -> counts) (cts : list counts) (n n' : cstring) :
  (forall c, ct_name (f c) = ct_name c) ->
  exists cts' i, find_alloc_counts cts (Some n) = Some (cts', i) /\
    (exists c, cts' !! i = Some c /\ ct_name c = Some n) /\
    (map ct_name cts' = map ct_name cts \/
     (look cts n = None /\ map ct_name cts' = map ct_name cts ++ [Some n])) /\
    look (alter f i cts') n'
    = if bool_decide (n' = n) then Some (f (default (fresh_counts n) (look cts n)))
      else look cts n'.
Proof.
  intros Hf. cbn [find_alloc_counts]. destruct (find_name cts n) as [[i c]|] eqn:E.
  - exists cts, i. split; [done|]. split; [|split; [by left|]].
    + exists c. revert i E. clear. induction cts as [|q cts IH]; intros i; cbn; [done|].
      destruct (name_is (ct_name q) n) eqn:Eq.
      * intros [= <- <-]. split; [done|]. by apply name_is_some.
      * destruct (find_name cts n) as [[j q']|]; [|done]. intros [= <- <-]. by apply IH.
    + rewrite (look_alter _ f n n' i c Hf E).
      assert (look cts n = Some c) as -> by (unfold look; by rewrite E). done.
  - assert (look cts n = None) as Hn by (unfold look; by rewrite E).
    exists (cts ++ [fresh_counts n]), (length cts). split; [done|]. split; [|split].
    + exists (fresh_counts n). split; [|done]. rewrite lookup_app_r by lia. by rewrite Nat.sub_diag.
    + right. split; [done|]. by rewrite map_app.
    + assert (find_name (cts ++ [fresh_counts n]) n = Some (length cts, fresh_counts n)) as Hfn.
      { rewrite find_name_app, E. cbn. unfold streq. rewrite bool_decide_eq_true_2 by done. cbn.
        by rewrite Nat.add_0_r. }
      rewrite (look_alter _ f n n' _ _ Hf Hfn), Hn.
      case_bool_decide; [done|]. rewrite look_app. destruct (look cts n'); [done|].
      rewrite look_cons. cbn. unfold streq. by rewrite bool_decide_eq_false_2.
Qed.

(** Updating the counts of a name changes, or makes, those of that name only. *)
Lemma update_named_look (f : counts -> list resource_req -> counts) (cts : list counts)
    (n n' : cstring) (req : list resource_req) :
  (forall c, ct_name (f c req) = ct_name c) -> cts <> [] ->
  look (update_named f cts (Some n) req) n'
  = if bool_decide (n' = n) then Some (f (default (fresh_counts n) (look cts n)) req)
    else look cts n'.
Proof.
  intros Hf Hne. destruct (alloc_alter_look (fun c => f c req) cts n n' Hf)
    as (cts' & i & He & _ & _ & Hl).
  unfold update_named. rewrite He. by destruct cts.
Qed.

(** The jobs a name runs and what they use of a resource *)
Definition usage (l : list counts) (n : cstring) (d : option resdef) : Z * double :=
  (default 0 (run_of l n), default (dbl_of_Z 0) (res_of l n d)).

(** Counts within the range of [int], with integer amounts up to 2^52 *)
Definition counts_ok (c : counts) : Prop :=
  in_int (ct_running c) /\ ct_running c < INT_MAX /\
  forall d, exists z, amount_of (ct_rescts c) d = dbl_of_Z z /\ 0 <= z <= 2 ^ 52.

Lemma usage_look (l : list counts) (n : cstring) (d : option resdef) :
  usage l n d
  = (ct_running (default (fresh_counts n) (look l n)),
     amount_of (ct_rescts (default (fresh_counts n) (look l n))) d).
Proof.
  unfold usage, run_of, res_of. destruct (look l n) as [c|]; [|done]. cbn. f_equal.
  unfold res_in, amount_of. by destruct (find_resource_req (ct_rescts c) d) as [[]|].
Qed.

Lemma fresh_ok (n : cstring) : counts_ok (fresh_counts n).
Proof.
  split_and!; cbn; [unfold in_int, INT_MIN, INT_MAX; lia|unfold INT_MAX; lia|].
  intros d. exists 0. split; [done|lia].
Qed.

Lemma update_named_ne (f : counts -> list resource_req -> counts) (cts : list counts)
    (name : option cstring) (req : list resource_req) :
  cts <> [] -> update_named f cts name req <> [].
Proof.
  intros Hne. unfold update_named. destruct (find_alloc_counts cts name) as [[l i]|] eqn:E; [|done].
  destruct cts as [|c cts]; [done|]. destruct name as [n|]; [|done]. cbn [find_alloc_counts] in E.
  destruct (find_name (c :: cts) n) as [[j q]|]; injection E as <- <-.
  - by destruct j.
  - cbn. done.
Qed.

Definition plain_job (req : list resource_req) : Prop :=
  req <> [] /\ plain_req (2 ^ 40) req /\ Z.of_nat (length req) < 4096.

Lemma named_run_end (cts : list counts) (n n' : cstring) (req : list resource_req)
    (d : option resdef) :
  cts <> [] -> Forall counts_ok cts -> plain_job req ->
  usage (update_named update_counts_on_end
           (update_named update_counts_on_run cts (Some n) req) (Some n) req) n' d
  = usage cts n' d.
Proof.
  intros Hne Hok (Hreq & Hp & Hlen). rewrite !usage_look.
  rewrite update_named_look; [|by intros c; rewrite on_end_eq|by apply update_named_ne].
  rewrite !update_named_look by done. rewrite (bool_decide_eq_true_2 (n = n)) by done.
  case_bool_decide as En; [subst n'|done]. cbn [default from_option id].
  set (c := default (fresh_counts n) (look cts n)).
  assert (counts_ok c) as (Hi & Hm & Hz).
  { unfold c. destruct (look cts n) as [c'|] eqn:E; [|apply fresh_ok].
    apply look_name in E as [_ Hin]. rewrite Forall_forall in Hok. by apply Hok. }
  destruct (Hz d) as (z & Ha & Hb).
  destruct (run_end_eq c req d z Hreq Hp Hlen Hi Hm Ha Hb) as (_ & -> & ->). done.
Qed.

Lemma fill_total_ne (total run : list counts) (n : cstring) :
  fill_total total run (Some (Some n)) <> [].
Proof. destruct total as [|c total]; [|done]. by destruct run. Qed.

Lemma fill_total_id (total run : list counts) (name : option (option cstring)) :
  total <> [] -> fill_total total run name = total.
Proof. by destruct total. Qed.

(** On a server with hard limits, running a job and then ending it leaves the
    usage of every user, group and project in the total counts as it was after
    the lists were filled in, and in between the job's user runs one more. *)
Theorem total_run_end {I : Type} (s : server_info I) (rr : resource_resv) (u g p : cstring) :
  let t := fill_totals true (si_total s) (si_counts s) (Some rr) in
  si_has_hard_limit s = true ->
  rr_user rr = Some u -> rr_group rr = Some g -> rr_project rr = Some p ->
  plain_job (rr_resreq rr) ->
  Forall counts_ok (lc_user t) -> Forall counts_ok (lc_group t) -> Forall counts_ok (lc_project t) ->
  exists s1 s2,
    update_total_counts (Some s) None rr SERVER = Some (Some s1, None) /\
    update_total_counts_on_end (Some s1) None rr SERVER = Some (Some s2, None) /\
    forall n d,
      fst (usage (lc_user (si_total s1)) u d) = fst (usage (lc_user t) u d) + 1 /\
      usage (lc_user (si_total s2)) n d = usage (lc_user t) n d /\
      usage (lc_group (si_total s2)) n d = usage (lc_group t) n d /\
      usage (lc_project (si_total s2)) n d = usage (lc_project t) n d.
Proof.
  intros t Hh Hu Hg Hp Hjob Hou Hog Hop.
  assert (lc_user t <> []) as Hnu by (unfold t; cbn; rewrite Hu; apply fill_total_ne).
  assert (lc_group t <> []) as Hng by (unfold t; cbn; rewrite Hg; apply fill_total_ne).
  assert (lc_project t <> []) as Hnp by (unfold t; cbn; rewrite Hp; apply fill_total_ne).
  set (s1 := si_set_total (si_set_total s t) (update_totals update_counts_on_run t rr)).
  assert (update_total_counts (Some s) None rr SERVER = Some (Some s1, None)) as H1.
  { unfold update_total_counts, update_total_with, create_total_counts. cbn. by rewrite Hh. }
  set (t1 := fill_totals true (si_total s1) (si_counts s1) (Some rr)).
  set (s2 := si_set_total (si_set_total s1 t1) (update_totals update_counts_on_end t1 rr)).
  assert (update_total_counts_on_end (Some s1) None rr SERVER = Some (Some s2, None)) as H2.
  { unfold update_total_counts_on_end, update_total_with, create_total_counts. cbn. by rewrite Hh. }
  exists s1, s2. split_and!; [done..|]. intros n d. cbn [s1 s2 t1 si_total si_set_total update_totals
    lc_user lc_group lc_project fill_totals si_counts].
  rewrite Hu, Hg, Hp. rewrite !fill_total_id by (by apply update_named_ne).
  split_and!; [|by apply named_run_end..].
  rewrite !usage_look, update_named_look by done. rewrite bool_decide_eq_true_2 by done.
  set (c := default (fresh_counts u) (look (lc_user t) u)).
  cbn [fst default from_option id update_counts_on_run ct_running].
  assert (counts_ok c) as (Hi & Hm & _).
  { unfold c. destruct (look (lc_user t) u) as [c'|] eqn:E; [|apply fresh_ok].
    apply look_name in E as [_ Hin]. rewrite Forall_forall in Hou. by apply Hou. }
  unfold in_int, INT_MIN, INT_MAX in *. rewrite int32_id; unfold in_int, INT_MIN, INT_MAX; lia.
Qed.

(** When the server has hard limits, an update for both the server and the
    queue leaves the total counts of the queue as they were filled in. *)
Lemma update_all_skips_queue {I : Type} (s : server_info I) (q : queue_info I)
    (rr : resource_resv) :
  si_has_hard_limit s = true ->
  exists s', update_total_counts (Some s) (Some q) rr ALL
    = Some (Some s', Some (qi_set_total q (fill_totals false (qi_total q) (qi_counts q) (Some rr)))).
Proof.
  intros Hh. unfold update_total_counts, update_total_with, create_total_counts. cbn.
  rewrite Hh. eauto.
Qed.

(** ** Concrete counts *)

Definition ncpus : resdef := ResDef 1 (lit "ncpus") no_type.
Definition mem : resdef := ResDef 2 (lit "mem") no_type.

Definition req_of (d : resdef) (n : Z) : resource_req :=
  {| rq_name := Some (def_name d); rq_type := def_type d; rq_amount := dbl_of_Z n;
     rq_res_str := None; rq_def := Some d |}.

Definition bob_counts : counts :=
  {| ct_name := Some (lit "bob"); ct_running := 2; ct_rescts := [req_of ncpus 8; req_of mem 100] |}.
Definition ann_counts : counts :=
  {| ct_name := Some (lit "ann"); ct_running := 5; ct_rescts := [req_of ncpus 3] |}.

Lemma on_run_spec_witness :
  ct_name (update_counts_on_run bob_counts [req_of ncpus 4]) = Some (lit "bob") /\
  ct_running (update_counts_on_run bob_counts [req_of ncpus 4]) = int32 3 /\
  amount_of (ct_rescts (update_counts_on_run bob_counts [req_of ncpus 4])) (Some ncpus)
  = fold_left dbl_add [dbl_of_Z 4] (dbl_of_Z 8).
Proof.
  apply (on_run_spec bob_counts [req_of ncpus 4] (Some ncpus)).
  by apply Forall_cons_2; [|apply Forall_nil_2].
Defined.

Lemma plain_ncpus (n : Z) : 0 <= n <= 2 ^ 40 -> plain_req (2 ^ 40) [req_of ncpus n].
Proof.
  intros Hn. apply Forall_cons_2; [|apply Forall_nil_2]. split; [done|]. by exists n.
Qed.

Lemma run_end_restores_witness :
  let c' := update_counts_on_end (update_counts_on_run bob_counts [req_of ncpus 4]) [req_of ncpus 4] in
  ct_name c' = Some (lit "bob") /\ ct_running c' = 2 /\
  amount_of (ct_rescts c') (Some ncpus) = amount_of (ct_rescts bob_counts) (Some ncpus).
Proof.
  apply (run_end_restores bob_counts [req_of ncpus 4] (Some ncpus) 8); try done.
  apply plain_ncpus. lia.
Defined.

Lemma counts_max_spec_witness :
  run_of (counts_max [bob_counts] [ann_counts]) (lit "ann")
    = union_with (fun a b => Some (Z.max a b)) (run_of [bob_counts] (lit "ann"))
        (run_of [ann_counts] (lit "ann")) /\
  res_of (counts_max [bob_counts] [ann_counts]) (lit "ann") (Some ncpus)
    = union_with (fun a b => Some (dmax a b)) (res_of [bob_counts] (lit "ann") (Some ncpus))
        (res_of [ann_counts] (lit "ann") (Some ncpus)).
Proof.
  apply counts_max_spec. split; [apply NoDup_singleton|].
  by apply Forall_cons_2; [|apply Forall_nil_2].
Defined.

Definition job_ncpus (n : Z) : resource_resv :=
  {| rr_addr := 7; rr_name := lit "1.svr"; rr_is_job := true; rr_is_resv := false;
     rr_user := Some (lit "bob"); rr_group := Some (lit "staff"); rr_project := Some (lit "p1");
     rr_duration := 60; rr_hard_duration := 60; rr_resreq := [req_of ncpus n];
     rr_queue := Some 1; rr_used_walltime := 0;
     rr_start := UNSPECIFIED; rr_end := UNSPECIFIED; rr_min_duration := UNSPECIFIED |}.

Definition empty_server {I : Type} (i : I) : server_info I :=
  {| si_has_hard_limit := true; si_has_soft_limit := false; si_liminfo := LimitInfo i i;
     si_sc_running := 0; si_counts := no_counts; si_total := no_counts; si_running_jobs := [];
     si_calendar := None; si_server_time := 0; si_queues := [] |}.

Lemma total_run_end_witness :
  let t := fill_totals true no_counts no_counts (Some (job_ncpus 4)) in
  exists s1 s2,
    update_total_counts (Some (empty_server tt)) None (job_ncpus 4) SERVER = Some (Some s1, None) /\
    update_total_counts_on_end (Some s1) None (job_ncpus 4) SERVER = Some (Some s2, None) /\
    forall n d,
      fst (usage (lc_user (si_total s1)) (lit "bob") d) = fst (usage (lc_user t) (lit "bob") d) + 1 /\
      usage (lc_user (si_total s2)) n d = usage (lc_user t) n d /\
      usage (lc_group (si_total s2)) n d = usage (lc_group t) n d /\
      usage (lc_project (si_total s2)) n d = usage (lc_project t) n d.
Proof.
  apply (total_run_end (empty_server tt) (job_ncpus 4) (lit "bob") (lit "staff") (lit "p1")); try done.
  - split_and!; [done| |done]. apply plain_ncpus. lia.
  - apply Forall_cons_2; [apply (fresh_ok (lit "bob"))|apply Forall_nil_2].
  - apply Forall_cons_2; [apply (fresh_ok (lit "staff"))|apply Forall_nil_2].
  - apply Forall_cons_2; [apply (fresh_ok (lit "p1"))|apply Forall_nil_2].
Defined.

End Counts.
