(* ===== verification/LimitSet.v ===== *)
(** * Setting the limits of a server or a queue: [src/scheduler/limits.c]

    The limit attributes are parsed and stored in the hard and the soft context
    of the server or the queue; the resources that have a limit are collected in
    the list [limres].  The list of all resource definitions ([allres]) is an
    argument. *)

From Stdlib Require Import ZArith Lia Ascii String.
From S2P Require Import Prelude Doubles ResNum Index Entlim SchedData Counts.
Import Double ResNum Entlim EntlimParse Data ReqList.

Module LimitSet.

(** ** Attributes *)

Record attrl := Attrl { a_name : cstring; a_resource : option cstring; a_value : option cstring }.

Definition ATTR_maxrun : cstring := lit "max_running".
Definition ATTR_max_run : cstring := lit "max_run".
Definition ATTR_max_run_res : cstring := lit "max_run_res".
Definition ATTR_max_run_soft : cstring := lit "max_run_soft".
Definition ATTR_max_run_res_soft : cstring := lit "max_run_res_soft".
Definition ATTR_maxgrprun : cstring := lit "max_group_run".
Definition ATTR_maxgrprunsoft : cstring := lit "max_group_run_soft".
Definition ATTR_maxuserrun : cstring := lit "max_user_run".
Definition ATTR_maxuserrunsoft : cstring := lit "max_user_run_soft".
Definition ATTR_maxuserres : cstring := lit "max_user_res".
Definition ATTR_maxuserressoft : cstring := lit "max_user_res_soft".
Definition ATTR_maxgroupres : cstring := lit "max_group_res".
Definition ATTR_maxgroupressoft : cstring := lit "max_group_res_soft".

(** [struct lim_old2new] *)
Record lim_old2new := Old2New { lim_attr : cstring; lim_param : cstring; lim_isreslim : bool }.

Definition old2new : list lim_old2new :=
  [Old2New ATTR_maxgroupres (lit "g:" ++ PBS_GENERIC_ENTITY) true;
   Old2New ATTR_maxgrprun (lit "g:" ++ PBS_GENERIC_ENTITY) false;
   Old2New ATTR_maxrun (lit "o:" ++ PBS_ALL_ENTITY) false;
   Old2New ATTR_maxuserres (lit "u:" ++ PBS_GENERIC_ENTITY) true;
   Old2New ATTR_maxuserrun (lit "u:" ++ PBS_GENERIC_ENTITY) false].

Definition old2new_soft : list lim_old2new :=
  [Old2New ATTR_max_run_soft (lit "o:" ++ PBS_ALL_ENTITY) false;
   Old2New ATTR_max_run_res_soft (lit "o:" ++ PBS_ALL_ENTITY) true;
   Old2New ATTR_maxgroupressoft (lit "g:" ++ PBS_GENERIC_ENTITY) true;
   Old2New ATTR_maxgrprunsoft (lit "g:" ++ PBS_GENERIC_ENTITY) false;
   Old2New ATTR_maxuserressoft (lit "u:" ++ PBS_GENERIC_ENTITY) true;
   Old2New ATTR_maxuserrunsoft (lit "u:" ++ PBS_GENERIC_ENTITY) false].

(** The entry of a table for an attribute name *)
Fixpoint lookup_old (table : list lim_old2new) (name : cstring) : option lim_old2new :=
  match table with
  | [] => None
  | e :: table => if streq name (lim_attr e) then Some e else lookup_old table name
  end.

Definition is_reslimattr (a : attrl) : bool :=
  streq (a_name a) ATTR_max_run_res || streq (a_name a) ATTR_max_run_res_soft.

Definition is_runlimattr (a : attrl) : bool :=
  streq (a_name a) ATTR_max_run || streq (a_name a) ATTR_max_run_soft.

Definition convert_oldlim_to_new (a : attrl) : option cstring :=
  match lookup_old old2new (a_name a) with
  | Some e => Some (lim_param e)
  | None => option_map lim_param (lookup_old old2new_soft (a_name a))
  end.

Definition is_oldlimattr (a : attrl) : bool :=
  match convert_oldlim_to_new a with Some _ => true | None => false end.

Definition is_hardlimit (a : attrl) : bool :=
  streq (a_name a) ATTR_max_run || streq (a_name a) ATTR_max_run_res.

(** ** The resources that have limits *)

Fixpoint find_resdef (deflist : list resdef) (name : cstring) : option resdef :=
  match deflist with
  | [] => None
  | d :: next => if streq (def_name d) name then Some d else find_resdef next name
  end.

(** [create_resource(name, NULL, RF_NONE)] *)
Definition create_resource (allres : list resdef) (name : cstring) : option schd_resource :=
  match find_resdef allres name with
  | Some rdef => Some {| res_name := def_name rdef; res_def := Some rdef |}
  | None => None
  end.

(** The list after: a resource that is not in it is added at its end, if it is
    defined.  The caller takes a new list over when it had none. *)
Definition find_alloc_resource_by_str (allres : list resdef) (resplist : list schd_resource)
    (name : option cstring) : list schd_resource :=
  match name with
  | None => resplist
  | Some name =>
      if existsb (fun r => streq (res_name r) name) resplist then resplist
      else match create_resource allres name with
           | Some r => resplist ++ [r]
           | None => resplist
           end
  end.

(** ** Storing a limit *)

Section Store.
Context {I : Type} `{Index I cstring}.

(** [strdup] of a NULL value crashes ([None]). *)
Definition lim_callback : addfunc_t I :=
  fun ctx kt _ namestring res val =>
    let key := match res with
               | Some res => entlim_mk_reskey kt namestring res
               | None => entlim_mk_runkey kt namestring
               end in
    match val with
    | None => None
    | Some v =>
        let '(ctx, rc) := entlim_add key v ctx in
        Some (ctx, if negb (rc =? 0) then -1 else 0)
    end.

(** The list of limited resources, the context and the return code *)
Definition lim_setreslimits (allres : list resdef) (limres : list schd_resource) (a : attrl)
    (ctx : I) : option (list schd_resource * I * Z) :=
  let limres := find_alloc_resource_by_str allres limres (a_resource a) in
  r ← entlim_parse (a_value a) (a_resource a) ctx (Some lim_callback);
  Some (limres, fst r, if snd r =? 0 then 0 else 1).

Definition lim_setrunlimits (a : attrl) (ctx : I) : option (I * Z) :=
  r ← entlim_parse (a_value a) None ctx (Some lim_callback);
  Some (fst r, if snd r =? 0 then 0 else 1).

Definition kt_of_param (p : cstring) : option lim_keytypes :=
  let c := deref p in
  if is_char c "g"%char then Some LIM_GROUP
  else if is_char c "o"%char then Some LIM_OVERALL
  else if is_char c "u"%char then Some LIM_USER
  else None.

(** One entry of the tables: the context given is the one it goes to.  A limit
    that is not on a resource passes [res_else] as its resource. *)
Definition set_old_entry (allres : list resdef) (limres : list schd_resource) (a : attrl)
    (avalue : lim_old2new) (res_else : option cstring) (ctx : I)
  : option (list schd_resource * I * Z) :=
  let p := lim_param avalue in
  match kt_of_param p with
  | None => Some (limres, ctx, -1)
  | Some kt =>
      let e := drop 2 p in
      let '(limres, res) :=
        if lim_isreslim avalue
        then (find_alloc_resource_by_str allres limres (a_resource a), a_resource a)
        else (limres, res_else) in
      r ← lim_callback ctx kt p e res (a_value a);
      Some (limres, fst r, snd r)
  end.

Definition lim_setoldlimits (allres : list resdef) (limres : list schd_resource) (a : attrl)
    (lip : limit_info I) : option (list schd_resource * limit_info I * Z) :=
  match lookup_old old2new_soft (a_name a) with
  | Some avalue =>
      r ← set_old_entry allres limres a avalue None (li_ctxs lip);
      let '(limres, ctx, rc) := r in
      Some (limres, LimitInfo (li_ctxh lip) ctx, rc)
  | None =>
      match lookup_old old2new (a_name a) with
      | Some avalue =>
          r ← set_old_entry allres limres a avalue (a_resource a) (li_ctxh lip);
          let '(limres, ctx, rc) := r in
          Some (limres, LimitInfo ctx (li_ctxs lip), rc)
      | None => Some (limres, lip, 1)
      end
  end.

Inductive limtype := LIM_RES | LIM_RUN | LIM_OLD.

Definition lim_setlimits (allres : list resdef) (limres : list schd_resource) (a : attrl)
    (lt : limtype) (lip : limit_info I) : option (list schd_resource * limit_info I * Z) :=
  match lt with
  | LIM_RES =>
      if is_hardlimit a then
        r ← lim_setreslimits allres limres a (li_ctxh lip);
        let '(limres, ctx, rc) := r in Some (limres, LimitInfo ctx (li_ctxs lip), rc)
      else
        r ← lim_setreslimits allres limres a (li_ctxs lip);
        let '(limres, ctx, rc) := r in Some (limres, LimitInfo (li_ctxh lip) ctx, rc)
  | LIM_RUN =>
      if is_hardlimit a then
        r ← lim_setrunlimits a (li_ctxh lip);
        Some (limres, LimitInfo (fst r) (li_ctxs lip), snd r)
      else
        r ← lim_setrunlimits a (li_ctxs lip);
        Some (limres, LimitInfo (li_ctxh lip) (fst r), snd r)
  | LIM_OLD => lim_setoldlimits allres limres a lip
  end.

(** ** Whole contexts *)

Definition lim_alloc_liminfo : limit_info I :=
  LimitInfo entlim_initialize_ctx entlim_initialize_ctx.

(** The walk that copies a context; [None] is a walk not ended in its fuel, and
    [Some None] a record that could not be added. *)
Fixpoint dup_loop (fuel : nat) (pkey : option (cstring * cstring)) (ctx newctx : I)
  : option (option I) :=
  match fuel with
  | O => None
  | S fuel' =>
      match entlim_get_next pkey (Some ctx) with
      | (Some ctx, Some (key, recptr)) =>
          let '(newctx, rc) := entlim_add key recptr newctx in
          if negb (rc =? 0) then Some None
          else dup_loop fuel' (Some (key, recptr)) ctx newctx
      | _ => Some (Some newctx)
      end
  end.

Definition lim_dup_ctx (fuel : nat) (ctx : I) : option (option I) :=
  dup_loop fuel None ctx entlim_initialize_ctx.

Definition lim_dup_liminfo (fuel : nat) (p : option (limit_info I))
  : option (option (limit_info I)) :=
  match p with
  | None => Some None
  | Some oldlip =>
      h ← lim_dup_ctx fuel (li_ctxh oldlip);
      match h with
      | None => Some None
      | Some h =>
          s ← lim_dup_ctx fuel (li_ctxs oldlip);
          match s with
          | None => Some None
          | Some s => Some (Some (LimitInfo h s))
          end
      end
  end.

(** The hard limits on resources and on running jobs share one context, so the
    second test of the code never looks. *)
Definition has_limits (ctx : I) : bool :=
  match snd (entlim_get_next None (Some ctx)) with Some _ => true | None => false end.

Definition has_hardlimits (lip : limit_info I) : bool := has_limits (li_ctxh lip).
Definition has_softlimits (lip : limit_info I) : bool := has_limits (li_ctxs lip).

(** ** Reading a limit *)

Definition lim_get (param : cstring) (ctx : I) : double :=
  match entlim_get param ctx with
  | Some retptr => fst (res_to_num (Some retptr) None)
  | None => dbl_of_Z SCHD_INFINITY
  end.

End Store.

Definition allparam : cstring := PBS_ALL_ENTITY.
Definition genparam : cstring := PBS_GENERIC_ENTITY.

Definition lim_gengroupreskey (res : cstring) : cstring := entlim_mk_reskey LIM_GROUP genparam res.
Definition lim_genprojectreskey (res : cstring) : cstring :=
  entlim_mk_reskey LIM_PROJECT genparam res.
Definition lim_genuserreskey (res : cstring) : cstring := entlim_mk_reskey LIM_USER genparam res.

(** ** What setting a limit does *)

Section Laws.
Context {I : Type} `{IndexLaws I cstring}.
Implicit Types (ctx : I) (lip : limit_info I).

Definition entry_key (res : option cstring) (e : entry) : cstring :=
  entlim_mk_keystr (e_kt e) (e_name e) res.

(** The value a list of entries gives a key *)
Fixpoint entry_value (res : option cstring) (es : list entry) (k : cstring) : option cstring :=
  match es with
  | [] => None
  | e :: es => if streq k (entry_key res e) then Some (e_val e) else entry_value res es k
  end.

Lemma callback_key (kt : lim_keytypes) (name : cstring) (res : option cstring) :
  match res with
  | Some r => entlim_mk_reskey kt name r
  | None => entlim_mk_runkey kt name
  end = entlim_mk_keystr kt name res.
Proof. by destruct res. Qed.

Lemma entry_value_none (res : option cstring) (es : list entry) (k : cstring) :
  k ∉ map (entry_key res) es -> entry_value res es k = None.
Proof.
  induction es as [|e es IH]; cbn; [done|]. rewrite not_elem_of_cons. intros [Hk Hes].
  unfold streq. rewrite bool_decide_eq_false_2 by done. by apply IH.
Qed.

(** Adding entries with new, distinct keys succeeds and stores each value. *)
Lemma add_entries_spec (res : option cstring) (es : list entry) : forall ctx,
  ix_wf ctx -> NoDup (map (entry_key res) es) ->
  (forall e, e ∈ es -> entlim_get (entry_key res e) ctx = None) ->
  exists ctx', add_entries lim_callback res ctx es = Some (ctx', 0) /\ ix_wf ctx' /\
    forall k, entlim_get k ctx'
      = match entry_value res es k with Some v => Some v | None => entlim_get k ctx end.
Proof.
  induction es as [|e es IH]; intros ctx Hwf Hnd Hnew; cbn [add_entries].
  { exists ctx. done. }
  cbn [map] in Hnd. apply NoDup_cons in Hnd as [Hni Hnd].
  unfold lim_callback at 1. rewrite callback_key.
  change (entlim_mk_keystr (e_kt e) (e_name e) res) with (entry_key res e).
  pose proof (fun k' => add_get ctx (entry_key res e) (e_val e) k' Hwf) as Hadd.
  rewrite (Hnew e) in Hadd by (by left).
  destruct (entlim_add (entry_key res e) (e_val e) ctx) as [ctx1 rc]. cbn [fst snd] in Hadd.
  destruct (Hadd []) as (Hrc & Hw & _). rewrite bool_decide_eq_true_2 in Hrc by done. subst rc.
  cbn [negb Z.eqb]. destruct (IH ctx1 Hw Hnd) as (ctx' & -> & Hw' & Hget).
  { intros e' He'. destruct (Hadd (entry_key res e')) as (_ & _ & ->).
    rewrite bool_decide_eq_false_2.
    - apply Hnew. by right.
    - intros Hk. apply Hni. rewrite <-Hk. by apply list_elem_of_fmap_2. }
  exists ctx'. split_and!; [done..|]. intros k. rewrite Hget. cbn [entry_value].
  destruct (Hadd k) as (_ & _ & ->). clear Hadd. unfold streq. case_bool_decide as Hk.
  - subst k. by rewrite entry_value_none.
  - done.
Qed.

(** C31. Setting a limit attribute whose value is the text of well-formed, distinct
    and new limits succeeds: each limit is then found with its value in the
    context of that attribute, every other key keeps its value, and the other
    context does not change.  [max_run] and [max_run_res] are hard, their soft
    forms are not; the limits of the former are on running jobs and those of
    the latter on the attribute's resource. *)
Theorem setlimits_spec (allres : list resdef) (limres : list schd_resource)
    (name : cstring) (res : option cstring) (lt : limtype) (lip : limit_info I) (es : list entry) :
  (lt = LIM_RUN /\ res = None) \/ (lt = LIM_RES /\ res <> None) ->
  let a := Attrl name res (Some (print_entries es)) in
  let ctx := if is_hardlimit a then li_ctxh lip else li_ctxs lip in
  ix_wf ctx -> forallb entry_ok es = true -> NoDup (map (entry_key res) es) ->
  (forall e, e ∈ es -> entlim_get (entry_key res e) ctx = None) ->
  exists limres' ctx',
    lim_setlimits allres limres a lt lip
      = Some (limres', if is_hardlimit a then LimitInfo ctx' (li_ctxs lip)
                       else LimitInfo (li_ctxh lip) ctx', 0) /\
    ix_wf ctx' /\
    forall k, entlim_get k ctx'
      = match entry_value res es k with Some v => Some v | None => entlim_get k ctx end.
Proof.
  intros Hlt a ctx Hwf Hok Hnd Hnew.
  destruct (add_entries_spec res es ctx Hwf Hnd Hnew) as (ctx' & Hadd & Hw & Hget).
  assert (entlim_parse (Some (print_entries es)) res ctx (Some lim_callback) = Some (ctx', 0)) as Hp
    by (by rewrite parse_print_eq).
  exists (match lt with
          | LIM_RES => find_alloc_resource_by_str allres limres res
          | _ => limres end), ctx'.
  split; [|done]. unfold lim_setlimits, lim_setreslimits, lim_setrunlimits.
  destruct Hlt as [[-> ->]|[-> _]]; unfold ctx in Hp; destruct (is_hardlimit a);
    cbn [a a_value a_resource]; rewrite Hp; done.
Qed.

(** ** Copying the limits of a server or a queue *)

Lemma dup_loop_spec (fuel : nat) : forall ctx newctx key,
  ix_wf ctx -> ix_wf newctx -> NoDup (map fst (ix_rest ctx)) ->
  (forall k v, (k, v) ∈ ix_rest ctx -> entlim_get k newctx = None) ->
  (length (ix_rest ctx) < fuel)%nat ->
  exists c, dup_loop fuel (Some key) ctx newctx = Some (Some c) /\ ix_wf c /\
    forall k, entlim_get k c
      = match ListIndex.assoc k (ix_rest ctx) with
        | Some v => Some v
        | None => entlim_get k newctx
        end.
Proof.
  induction fuel as [|fuel IH]; intros ctx newctx key Hwf Hwn Hnd Hnew Hf; [lia|].
  cbn [dup_loop entlim_get_next].
  pose proof (ix_next_wf ctx Hwf) as Hw. pose proof (ix_next_head ctx Hwf) as Hh.
  pose proof (ix_next_rest ctx Hwf) as Hr. destruct (ix_next ctx) as [c r]. cbn [fst snd] in *.
  subst r. destruct (ix_rest ctx) as [|[k v] l] eqn:E; cbn [head tl] in *.
  { exists newctx. done. }
  cbn [map fst] in Hnd. apply NoDup_cons in Hnd as [Hni Hnd].
  pose proof (fun k' => add_get newctx k v k' Hwn) as Hadd.
  rewrite (Hnew k v) in Hadd by (by left).
  destruct (entlim_add k v newctx) as [n1 rc]. cbn [fst snd] in Hadd.
  destruct (Hadd []) as (Hrc & Hw1 & _). rewrite bool_decide_eq_true_2 in Hrc by done. subst rc.
  cbn [negb Z.eqb]. destruct (IH c n1 (k, v)) as (c' & -> & Hw' & Hget).
  - done.
  - done.
  - by rewrite Hr.
  - rewrite Hr. intros k' v' Hin. destruct (Hadd k') as (_ & _ & ->).
    rewrite bool_decide_eq_false_2; [apply (Hnew k' v'); by right|].
    intros ->. apply Hni. apply list_elem_of_fmap. by exists (k, v').
  - rewrite Hr. cbn [length] in Hf. lia.
  - exists c'. split_and!; [done..|]. intros k'. rewrite Hget, Hr. cbn [ListIndex.assoc].
    destruct (Hadd k') as (_ & _ & ->). clear Hadd. unfold streq. case_bool_decide as Hk; [|done].
    subst k'. cbn [default from_option id].
    destruct (ListIndex.assoc k l) as [v'|] eqn:Ea; [|done].
    apply ListIndex.assoc_elem in Ea; [|done]. destruct Hni.
    apply list_elem_of_fmap. by exists (k, v').
Qed.

Lemma dup_ctx_spec ctx (fuel : nat) :
  ix_wf ctx -> (length (ix_elems ctx) < fuel)%nat ->
  exists c, lim_dup_ctx fuel ctx = Some (Some c) /\ ix_wf c /\
    forall k, entlim_get k c = entlim_get k ctx.
Proof.
  intros Hwf Hf. assert (forall newctx key, dup_loop fuel (Some key) (ix_first ctx) newctx
    = dup_loop fuel None ctx newctx) as Hstart by (by destruct fuel).
  unfold lim_dup_ctx. rewrite <-(Hstart _ ([], [])).
  pose proof (ix_first_wf ctx Hwf) as Hw. pose proof (ix_first_rest ctx Hwf) as Hr.
  assert (forall k, entlim_get k (entlim_initialize_ctx (I := I)) = None) as Hinit.
  { intros k. unfold entlim_get, entlim_initialize_ctx. apply ix_elems_nil;
      [apply ix_create_wf|apply ix_create_elems]. }
  destruct (dup_loop_spec fuel (ix_first ctx) entlim_initialize_ctx ([], [])) as (c & -> & Hc & Hget).
  - done.
  - apply ix_create_wf.
  - rewrite Hr. by apply ix_nodup.
  - intros k v _. apply Hinit.
  - by rewrite Hr.
  - exists c. split_and!; [done..|]. intros k. rewrite Hget, Hr, Hinit.
    unfold entlim_get, entlim_create_key. cbn [default from_option id].
    pose proof (ix_nodup ctx Hwf) as Hnd.
    destruct (ListIndex.assoc k (ix_elems ctx)) as [v|] eqn:E.
    + symmetry. apply ix_find_elem; [done|]. by apply ListIndex.assoc_elem.
    + symmetry. apply ix_find_none; [done|]. intros v Hin.
      apply ListIndex.assoc_elem in Hin; [congruence|done].
Qed.

(** A copy of the limits of a server or a queue is made, and finds what the
    original finds for every key, hard or soft. *)
Theorem dup_liminfo_spec lip (fuel : nat) :
  ix_wf (li_ctxh lip) -> ix_wf (li_ctxs lip) ->
  (length (ix_elems (li_ctxh lip)) < fuel)%nat -> (length (ix_elems (li_ctxs lip)) < fuel)%nat ->
  exists lip', lim_dup_liminfo fuel (Some lip) = Some (Some lip') /\
    ix_wf (li_ctxh lip') /\ ix_wf (li_ctxs lip') /\
    forall k, lim_get k (li_ctxh lip') = lim_get k (li_ctxh lip) /\
              lim_get k (li_ctxs lip') = lim_get k (li_ctxs lip).
Proof.
  intros Hh Hs Hfh Hfs. unfold lim_dup_liminfo.
  destruct (dup_ctx_spec (li_ctxh lip) fuel Hh Hfh) as (h & -> & Hwh & Hgh).
  destruct (dup_ctx_spec (li_ctxs lip) fuel Hs Hfs) as (s & -> & Hws & Hgs).
  exists (LimitInfo h s). split_and!; [done..|]. intros k. unfold lim_get. cbn.
  by rewrite Hgh, Hgs.
Qed.

(** The test for limits says whether any key has a limit. *)
Lemma has_limits_spec ctx :
  ix_wf ctx -> (has_limits ctx = true <-> exists k, entlim_get k ctx <> None).
Proof.
  intros Hwf. unfold has_limits. cbn [entlim_get_next].
  pose proof (ix_first_wf ctx Hwf) as Hw. pose proof (ix_next_head _ Hw) as Hh.
  rewrite ix_first_rest in Hh by done. destruct (ix_next (ix_first ctx)) as [c r].
  cbn [snd] in *. subst r. unfold entlim_get, entlim_create_key. cbn [default from_option id].
  destruct (ix_elems ctx) as [|[k v] l] eqn:E; cbn [head].
  - split; [done|]. intros (k & Hk). by rewrite (proj1 (ix_elems_nil ctx Hwf) E) in Hk.
  - split; [|done]. intros _. exists k.
    assert (ix_find k ctx = Some v) as ->; [|done]. apply ix_find_elem; [done|].
    rewrite E. by left.
Qed.

End Laws.

(** ** Concrete limits *)

Definition empty_limits : limit_info (ListIndex.t cstring) := lim_alloc_liminfo.

Lemma setlimits_spec_witness :
  let a := Attrl ATTR_max_run None (Some (print_entries sample_entries)) in
  exists limres' ctx',
    lim_setlimits [] [] a LIM_RUN empty_limits
      = Some (limres', LimitInfo ctx' (li_ctxs empty_limits), 0) /\
    ix_wf ctx' /\
    forall k, entlim_get k ctx'
      = match entry_value None sample_entries k with
        | Some v => Some v
        | None => entlim_get k (li_ctxh empty_limits)
        end.
Proof.
  apply (setlimits_spec [] [] ATTR_max_run None LIM_RUN empty_limits sample_entries).
  - by left.
  - apply ix_create_wf.
  - by vm_compute.
  - apply (bool_decide_unpack (NoDup (map (entry_key None) sample_entries))). by vm_compute.
  - intros e He. done.
Defined.

Lemma dup_liminfo_spec_witness :
  exists lip', lim_dup_liminfo 3 (Some (LimitInfo sample_ctx sample_ctx)) = Some (Some lip') /\
    ix_wf (li_ctxh lip') /\ ix_wf (li_ctxs lip') /\
    forall k, lim_get k (li_ctxh lip') = lim_get k sample_ctx /\
              lim_get k (li_ctxs lip') = lim_get k sample_ctx.
Proof.
  apply (dup_liminfo_spec (LimitInfo sample_ctx sample_ctx) 3); try apply sample_ctx_wf;
    apply Nat.ltb_lt; by vm_compute.
Defined.

(** ** Limits without a value

    The text form allows a limit without a value; the callback copies the
    missing value and crashes. *)
Lemma missing_value_crashes :
  entlim_parse_one (lit "[u:bob]") = ParseOk LIM_USER (lit "u:bob") (lit "bob") None /\
  lim_setlimits [] [] (Attrl ATTR_max_run None (Some (lit "[u:bob]"))) LIM_RUN empty_limits = None.
Proof. split; vm_compute; reflexivity. Qed.

End LimitSet.
