(* ===== verification/LimitCheck.v ===== *)
(** * Checking limits: [src/scheduler/limits.c]

    The sixteen hard and the sixteen soft limit functions, with the tables they
    are in, [check_limits] and [check_soft_limits].  A check is on the server
    or the queue, on a user, a group, a project or all jobs, and on the number
    of running jobs or the amount of a resource.

    The result of a check is in [option]: [None] is a crash (the text of a
    resource limit key is made of a NULL name).  The job and the error structure
    are never NULL here.  Log messages are not modelled. *)

From Stdlib Require Import ZArith Lia Ascii String SpecFloat.
From S2P Require Import Prelude Doubles ResNum Index Entlim SchedData Counts LimitSet.
Import Double ResNum Entlim Data ReqList Counts Calendar LimitSet.

Module LimitCheck.

(** ** Error arguments *)

(** [set_schd_error_arg]: a NULL argument changes nothing. *)
Definition set_arg1 (err : schd_error) (arg : option cstring) : schd_error :=
  match arg with
  | None => err
  | Some _ => SchdErr (err_code err) (err_status err) arg (err_arg2 err) (err_arg3 err)
  end.
Definition set_arg2 (err : schd_error) (arg : option cstring) : schd_error :=
  match arg with
  | None => err
  | Some _ => SchdErr (err_code err) (err_status err) (err_arg1 err) arg (err_arg3 err)
  end.
Definition set_arg3 (err : schd_error) (arg : option cstring) : schd_error :=
  match arg with
  | None => err
  | Some _ => SchdErr (err_code err) (err_status err) (err_arg1 err) (err_arg2 err) arg
  end.

(** The codes used are all in the range the function accepts. *)
Definition set_schd_error_codes (err : schd_error) (status : schd_err_status) (code : Z)
  : schd_error :=
  SchdErr code status (err_arg1 err) (err_arg2 err) (err_arg3 err).

Definition schderr_args_q (qname : cstring) (entity : option cstring) (err : schd_error)
  : schd_error :=
  set_arg2 (set_arg1 err (Some qname)) entity.

Definition schderr_args_q_res (qname : cstring) (entity : option cstring) (res : cstring)
    (err : schd_error) : schd_error :=
  set_arg3 (set_arg2 (set_arg1 err (Some qname)) (Some res)) entity.

Definition schderr_args_server (entity : option cstring) (err : schd_error) : schd_error :=
  set_arg1 err entity.

Definition schderr_args_server_res (entity : option cstring) (res : cstring) (err : schd_error)
  : schd_error :=
  set_arg2 (set_arg1 err (Some res)) entity.

(** [svr_counts] with [svr_counts_max], or those of the queue, when in use *)
Definition tracked : Type := option (limcounts * limcounts).

Section Checks.
Context {I : Type} `{Index I cstring}.

(** [static schd_resource *limres]: the resources that have limits *)
Variable limres : list schd_resource.

(** [LI2RESCTX] and [LI2RUNCTX], and their soft forms *)
Definition LI2RESCTX (li : limit_info I) : I := li_ctxh li.
Definition LI2RUNCTX (li : limit_info I) : I := li_ctxh li.
Definition LI2RESCTXSOFT (li : limit_info I) : I := li_ctxs li.
Definition LI2RUNCTXSOFT (li : limit_info I) : I := li_ctxs li.

(** [(int) lim_get(key, ctx)] *)
Definition run_max (key : cstring) (ctx : I) : Z := int_of_dbl (lim_get key ctx).

(** [max == SCHD_INFINITY] on amounts *)
Definition unset (max : double) : bool := dbl_eqb max (dbl_of_Z SCHD_INFINITY).

(** ** The common bodies *)

(** How a limit compares: not exceeded, or the generic or the individual limit
    exceeded *)
Inductive verdict := Within | OverGeneric | OverOwn.

(** The body shared by the hard run limits of an entity *)
Definition entity_run (kt : lim_keytypes) (name : cstring) (cts : list counts) (ctx : I) : verdict :=
  let max_run := run_max (entlim_mk_runkey kt name) ctx in
  let max_gen := run_max (entlim_mk_runkey kt genparam) ctx in
  if (max_run =? SCHD_INFINITY) && (max_gen =? SCHD_INFINITY) then Within
  else
    let used := int_of_dbl (find_counts_elm cts (Some name) None) in
    if negb (max_run =? SCHD_INFINITY) then
      if max_run <=? used then OverOwn else Within
    else if max_gen <=? used then OverGeneric
    else Within.

(** The body shared by the soft run limits of an entity: [true] is over. *)
Definition entity_run_soft (kt : lim_keytypes) (name : cstring) (cts : list counts) (ctx : I)
  : bool :=
  let max_run := run_max (entlim_mk_runkey kt name) ctx in
  let max_gen := run_max (entlim_mk_runkey kt genparam) ctx in
  if (max_run =? SCHD_INFINITY) && (max_gen =? SCHD_INFINITY) then false
  else
    let used := int_of_dbl (find_counts_elm cts (Some name) None) in
    if negb (max_run =? SCHD_INFINITY) then max_run <? used else max_gen <? used.

(** The loop over [limres] of the hard resource limits of an entity: the
    verdict and the resource.  [genkey] makes the key of the generic limit. *)
Fixpoint entity_res (l : list schd_resource) (kt : lim_keytypes) (genkey : cstring -> cstring)
    (name : option cstring) (rr : resource_resv) (cts_list : list counts) (limitctx : I)
  : option (verdict * option cstring) :=
  match l with
  | [] => Some (Within, None)
  | res :: next =>
      match find_resource_req (rr_resreq rr) (res_def res) with
      | None => entity_res next kt genkey name rr cts_list limitctx
      | Some (_, req) =>
          name ← name;
          let max_res := lim_get (entlim_mk_reskey kt name (res_name res)) limitctx in
          let max_gen := lim_get (genkey (res_name res)) limitctx in
          if unset max_res && unset max_gen then
            entity_res next kt genkey (Some name) rr cts_list limitctx
          else
            let used := find_counts_elm cts_list (Some name) (Some (res_name res)) in
            let total := dbl_add used (rq_amount req) in
            if negb (unset max_res) then
              if dbl_gtb total max_res then Some (OverOwn, Some (res_name res))
              else entity_res next kt genkey (Some name) rr cts_list limitctx
            else if dbl_gtb total max_gen then Some (OverGeneric, Some (res_name res))
            else entity_res next kt genkey (Some name) rr cts_list limitctx
      end
  end.

(** The same for the soft limits, which look at what is used already *)
Fixpoint entity_res_soft (l : list schd_resource) (kt : lim_keytypes) (genkey : cstring -> cstring)
    (name : option cstring) (rr : resource_resv) (cts_list : list counts) (limitctx : I)
  : option bool :=
  match l with
  | [] => Some false
  | res :: next =>
      match find_resource_req (rr_resreq rr) (res_def res) with
      | None => entity_res_soft next kt genkey name rr cts_list limitctx
      | Some (_, req) =>
          name ← name;
          let max_res := lim_get (entlim_mk_reskey kt name (res_name res)) limitctx in
          let max_gen := lim_get (genkey (res_name res)) limitctx in
          if unset max_res && unset max_gen then
            entity_res_soft next kt genkey (Some name) rr cts_list limitctx
          else
            let used := find_counts_elm cts_list (Some name) (Some (res_name res)) in
            if negb (unset max_res) then
              if dbl_ltb max_res used then Some true
              else entity_res_soft next kt genkey (Some name) rr cts_list limitctx
            else if dbl_ltb max_gen used then Some true
            else entity_res_soft next kt genkey (Some name) rr cts_list limitctx
      end
  end.

(** The loop of the overall resource limits: the resource that is over *)
Fixpoint overall_res (l : list schd_resource) (rr : resource_resv) (c : counts) (ctx : I)
  : option cstring :=
  match l with
  | [] => None
  | res :: next =>
      match find_resource_req (rr_resreq rr) (res_def res) with
      | None => overall_res next rr c ctx
      | Some (_, req) =>
          let max_res := lim_get (entlim_mk_reskey LIM_OVERALL allparam (res_name res)) ctx in
          if unset max_res then overall_res next rr c ctx
          else
            let used := amount_of (ct_rescts c) (res_def res) in
            if dbl_gtb (dbl_add used (rq_amount req)) max_res then Some (res_name res)
            else overall_res next rr c ctx
      end
  end.

Fixpoint overall_res_soft (l : list schd_resource) (rr : resource_resv) (c : counts) (ctx : I)
  : bool :=
  match l with
  | [] => false
  | res :: next =>
      match find_resource_req (rr_resreq rr) (res_def res) with
      | None => overall_res_soft next rr c ctx
      | Some (_, req) =>
          let max_res := lim_get (entlim_mk_reskey LIM_OVERALL allparam (res_name res)) ctx in
          if unset max_res then overall_res_soft next rr c ctx
          else
            let used := amount_of (ct_rescts c) (res_def res) in
            if dbl_ltb max_res used then true else overall_res_soft next rr c ctx
      end
  end.

(** ** The resource limits of an entity *)

Definition check_max_user_res (rr : resource_resv) (cts_list : list counts) (limitctx : I) :=
  match rr_resreq rr with
  | [] => Some (Within, None)
  | _ => entity_res limres LIM_USER lim_genuserreskey (rr_user rr) rr cts_list limitctx
  end.

Definition check_max_group_res (rr : resource_resv) (cts_list : list counts) (limitctx : I) :=
  match rr_resreq rr with
  | [] => Some (Within, None)
  | _ => entity_res limres LIM_GROUP lim_gengroupreskey (rr_group rr) rr cts_list limitctx
  end.

Definition check_max_project_res (rr : resource_resv) (cts_list : list counts) (limitctx : I) :=
  match rr_resreq rr, rr_project rr with
  | [], _ | _, None => Some (Within, None)
  | _, Some project =>
      entity_res limres LIM_PROJECT lim_genprojectreskey (Some project) rr cts_list limitctx
  end.

Definition check_max_user_res_soft (rr : resource_resv) (cts_list : list counts) (limitctx : I) :=
  match rr_resreq rr with
  | [] => Some false
  | _ => entity_res_soft limres LIM_USER lim_genuserreskey (rr_user rr) rr cts_list limitctx
  end.

Definition check_max_group_res_soft (rr : resource_resv) (cts_list : list counts) (limitctx : I) :=
  match rr_resreq rr with
  | [] => Some false
  | _ => entity_res_soft limres LIM_GROUP lim_gengroupreskey (rr_group rr) rr cts_list limitctx
  end.

Definition check_max_project_res_soft (rr : resource_resv) (cts_list : list counts)
    (limitctx : I) :=
  match rr_resreq rr, rr_project rr with
  | [], _ | _, None => Some false
  | _, Some project =>
      entity_res_soft limres LIM_PROJECT lim_genprojectreskey (Some project) rr cts_list limitctx
  end.

(** ** The hard limit functions

    All have the type of [limfunc_t]: the return code, 0 when the limit is not
    exceeded, and the error structure. *)

Definition limfunc_t : Type :=
  option (server_info I) -> option (queue_info I) -> resource_resv ->
  option limcounts -> option limcounts -> schd_error -> option (Z * schd_error).

Definition check_server_max_user_run : limfunc_t := fun si qi rr sc qc err =>
  match si, rr_user rr, sc with
  | Some si, Some user, Some sc =>
      match entity_run LIM_USER user (lc_user sc) (LI2RUNCTX (si_liminfo si)) with
      | Within => Some (0, err)
      | OverOwn => Some (SERVER_BYUSER_JOB_LIMIT_REACHED, schderr_args_server (Some user) err)
      | OverGeneric => Some (SERVER_USER_LIMIT_REACHED, schderr_args_server None err)
      end
  | _, _, _ => Some (SCHD_ERROR, err)
  end.

Definition check_server_max_group_run : limfunc_t := fun si qi rr sc qc err =>
  match si, rr_group rr, sc with
  | Some si, Some group, Some sc =>
      match entity_run LIM_GROUP group (lc_group sc) (LI2RUNCTX (si_liminfo si)) with
      | Within => Some (0, err)
      | OverOwn => Some (SERVER_BYGROUP_JOB_LIMIT_REACHED, schderr_args_server (Some group) err)
      | OverGeneric => Some (SERVER_GROUP_LIMIT_REACHED, schderr_args_server None err)
      end
  | _, _, _ => Some (SCHD_ERROR, err)
  end.

(** A job without a project is within the limits of projects. *)
Definition check_server_max_project_run : limfunc_t := fun si qi rr sc qc err =>
  match si, sc with
  | Some si, Some sc =>
      match rr_project rr with
      | None => Some (0, err)
      | Some project =>
          match entity_run LIM_PROJECT project (lc_project sc) (LI2RUNCTX (si_liminfo si)) with
          | Within => Some (0, err)
          | OverOwn =>
              Some (SERVER_BYPROJECT_JOB_LIMIT_REACHED, schderr_args_server (Some project) err)
          | OverGeneric => Some (SERVER_PROJECT_LIMIT_REACHED, schderr_args_server None err)
          end
      end
  | _, _ => Some (SCHD_ERROR, err)
  end.

Definition check_queue_max_user_run : limfunc_t := fun si qi rr sc qc err =>
  match qi, rr_user rr, qc with
  | Some qi, Some user, Some qc =>
      match entity_run LIM_USER user (lc_user qc) (LI2RUNCTX (qi_liminfo qi)) with
      | Within => Some (0, err)
      | OverOwn =>
          Some (QUEUE_BYUSER_JOB_LIMIT_REACHED, schderr_args_q (qi_name qi) (Some user) err)
      | OverGeneric => Some (QUEUE_USER_LIMIT_REACHED, schderr_args_q (qi_name qi) None err)
      end
  | _, _, _ => Some (SCHD_ERROR, err)
  end.

Definition check_queue_max_group_run : limfunc_t := fun si qi rr sc qc err =>
  match qi, rr_group rr, qc with
  | Some qi, Some group, Some qc =>
      match entity_run LIM_GROUP group (lc_group qc) (LI2RUNCTX (qi_liminfo qi)) with
      | Within => Some (0, err)
      | OverOwn =>
          Some (QUEUE_BYGROUP_JOB_LIMIT_REACHED, schderr_args_q (qi_name qi) (Some group) err)
      | OverGeneric => Some (QUEUE_GROUP_LIMIT_REACHED, schderr_args_q (qi_name qi) None err)
      end
  | _, _, _ => Some (SCHD_ERROR, err)
  end.

Definition check_queue_max_project_run : limfunc_t := fun si qi rr sc qc err =>
  match qi, qc with
  | Some qi, Some qc =>
      match rr_project rr with
      | None => Some (0, err)
      | Some project =>
          match entity_run LIM_PROJECT project (lc_project qc) (LI2RUNCTX (qi_liminfo qi)) with
          | Within => Some (0, err)
          | OverOwn =>
              Some (QUEUE_BYPROJECT_JOB_LIMIT_REACHED,
                    schderr_args_q (qi_name qi) (Some project) err)
          | OverGeneric =>
              Some (QUEUE_PROJECT_LIMIT_REACHED, schderr_args_q (qi_name qi) None err)
          end
      end
  | _, _ => Some (SCHD_ERROR, err)
  end.

(** The resource argument of an error is set for the verdicts that are over. *)
Definition resname_of (r : option cstring) : cstring := default [] r.

Definition check_server_max_user_res : limfunc_t := fun si qi rr sc qc err =>
  match si, sc with
  | Some si, Some sc =>
      r ← check_max_user_res rr (lc_user sc) (LI2RESCTX (si_liminfo si));
      match r with
      | (Within, _) => Some (0, err)
      | (OverGeneric, resname) =>
          Some (SERVER_USER_RES_LIMIT_REACHED, schderr_args_server_res None (resname_of resname) err)
      | (OverOwn, resname) =>
          Some (SERVER_BYUSER_RES_LIMIT_REACHED,
                schderr_args_server_res (rr_user rr) (resname_of resname) err)
      end
  | _, _ => Some (SCHD_ERROR, err)
  end.

Definition check_server_max_group_res : limfunc_t := fun si qi rr sc qc err =>
  match si, sc with
  | Some si, Some sc =>
      r ← check_max_group_res rr (lc_group sc) (LI2RESCTX (si_liminfo si));
      match r with
      | (Within, _) => Some (0, err)
      | (OverGeneric, resname) =>
          Some (SERVER_GROUP_RES_LIMIT_REACHED, schderr_args_server_res None (resname_of resname) err)
      | (OverOwn, resname) =>
          Some (SERVER_BYGROUP_RES_LIMIT_REACHED,
                schderr_args_server_res (rr_group rr) (resname_of resname) err)
      end
  | _, _ => Some (SCHD_ERROR, err)
  end.

Definition check_server_max_project_res : limfunc_t := fun si qi rr sc qc err =>
  match si, sc with
  | Some si, Some sc =>
      match rr_project rr with
      | None => Some (0, err)
      | Some _ =>
          r ← check_max_project_res rr (lc_project sc) (LI2RESCTX (si_liminfo si));
          match r with
          | (Within, _) => Some (0, err)
          | (OverGeneric, resname) =>
              Some (SERVER_PROJECT_RES_LIMIT_REACHED,
                    schderr_args_server_res None (resname_of resname) err)
          | (OverOwn, resname) =>
              Some (SERVER_BYPROJECT_RES_LIMIT_REACHED,
                    schderr_args_server_res (rr_project rr) (resname_of resname) err)
          end
      end
  | _, _ => Some (SCHD_ERROR, err)
  end.

Definition check_queue_max_user_res : limfunc_t := fun si qi rr sc qc err =>
  match qi, qc with
  | Some qi, Some qc =>
      r ← check_max_user_res rr (lc_user qc) (LI2RESCTX (qi_liminfo qi));
      match r with
      | (Within, _) => Some (0, err)
      | (OverGeneric, resname) =>
          Some (QUEUE_USER_RES_LIMIT_REACHED,
                schderr_args_q_res (qi_name qi) None (resname_of resname) err)
      | (OverOwn, resname) =>
          Some (QUEUE_BYUSER_RES_LIMIT_REACHED,
                schderr_args_q_res (qi_name qi) (rr_user rr) (resname_of resname) err)
      end
  | _, _ => Some (SCHD_ERROR, err)
  end.

Definition check_queue_max_group_res : limfunc_t := fun si qi rr sc qc err =>
  match qi, qc with
  | Some qi, Some qc =>
      r ← check_max_group_res rr (lc_group qc) (LI2RESCTX (qi_liminfo qi));
      match r with
      | (Within, _) => Some (0, err)
      | (OverGeneric, resname) =>
          Some (QUEUE_GROUP_RES_LIMIT_REACHED,
                schderr_args_q_res (qi_name qi) None (resname_of resname) err)
      | (OverOwn, resname) =>
          Some (QUEUE_BYGROUP_RES_LIMIT_REACHED,
                schderr_args_q_res (qi_name qi) (rr_group rr) (resname_of resname) err)
      end
  | _, _ => Some (SCHD_ERROR, err)
  end.

Definition check_queue_max_project_res : limfunc_t := fun si qi rr sc qc err =>
  match qi, qc with
  | Some qi, Some qc =>
      match rr_project rr with
      | None => Some (0, err)
      | Some _ =>
          r ← check_max_project_res rr (lc_project qc) (LI2RESCTX (qi_liminfo qi));
          match r with
          | (Within, _) => Some (0, err)
          | (OverGeneric, resname) =>
              Some (QUEUE_PROJECT_RES_LIMIT_REACHED,
                    schderr_args_q_res (qi_name qi) None (resname_of resname) err)
          | (OverOwn, resname) =>
              Some (QUEUE_BYPROJECT_RES_LIMIT_REACHED,
                    schderr_args_q_res (qi_name qi) (rr_project rr) (resname_of resname) err)
          end
      end
  | _, _ => Some (SCHD_ERROR, err)
  end.

(** Missing overall counts are within the overall limits. *)
Definition check_server_max_res : limfunc_t := fun si qi rr sc qc err =>
  match si with
  | None => Some (SCHD_ERROR, err)
  | Some si =>
      match sc with
      | None => Some (0, err)
      | Some sc =>
          match find_counts (lc_all sc) all_name with
          | None => Some (0, err)
          | Some (_, c) =>
              match overall_res limres rr c (LI2RESCTX (si_liminfo si)) with
              | Some res => Some (SERVER_RESOURCE_LIMIT_REACHED, schderr_args_server_res None res err)
              | None => Some (0, err)
              end
          end
      end
  end.

Definition check_queue_max_res : limfunc_t := fun si qi rr sc qc err =>
  match qi with
  | None => Some (SCHD_ERROR, err)
  | Some qi =>
      match qc with
      | None => Some (0, err)
      | Some qc =>
          match find_counts (lc_all qc) all_name with
          | None => Some (0, err)
          | Some (_, c) =>
              match overall_res limres rr c (LI2RESCTX (qi_liminfo qi)) with
              | Some res =>
                  Some (QUEUE_RESOURCE_LIMIT_REACHED, schderr_args_q_res (qi_name qi) None res err)
              | None => Some (0, err)
              end
          end
      end
  end.

(** The body shared by the overall run limits: [true] is over. *)
Definition overall_run (cts : list counts) (ctx : I) : bool :=
  let max_running := run_max (entlim_mk_runkey LIM_OVERALL allparam) ctx in
  let running := int_of_dbl (find_counts_elm cts all_name None) in
  negb ((max_running =? SCHD_INFINITY) || (max_running >? running)).

Definition check_server_max_run : limfunc_t := fun si qi rr sc qc err =>
  match si with
  | None => Some (SCHD_ERROR, err)
  | Some si =>
      match sc with
      | None | Some (LimCounts _ _ _ []) => Some (0, err)
      | Some sc =>
          if overall_run (lc_all sc) (LI2RUNCTX (si_liminfo si))
          then Some (SERVER_JOB_LIMIT_REACHED, schderr_args_server None err)
          else Some (0, err)
      end
  end.

Definition check_queue_max_run : limfunc_t := fun si qi rr sc qc err =>
  match qi with
  | None => Some (SCHD_ERROR, err)
  | Some qi =>
      match qc with
      | None | Some (LimCounts _ _ _ []) => Some (0, err)
      | Some qc =>
          if overall_run (lc_all qc) (LI2RUNCTX (qi_liminfo qi))
          then Some (QUEUE_JOB_LIMIT_REACHED, schderr_args_q (qi_name qi) None err)
          else Some (0, err)
      end
  end.

(** [static limfunc_t limfuncs[]] *)
Definition limfuncs : list limfunc_t :=
  [check_queue_max_group_run; check_queue_max_project_run; check_queue_max_run;
   check_queue_max_user_run; check_server_max_group_run; check_server_max_project_run;
   check_server_max_run; check_server_max_user_run; check_queue_max_group_res;
   check_queue_max_project_res; check_queue_max_res; check_queue_max_user_res;
   check_server_max_group_res; check_server_max_project_res; check_server_max_res;
   check_server_max_user_res].

(** ** The soft limit functions

    The result is a bit mask of preemption levels, 0 when within the limit. *)

Definition softlimfunc_t : Type :=
  option (server_info I) -> option (queue_info I) -> resource_resv -> option Z.

Definition ERR_BIT : Z := PREEMPT_TO_BIT PREEMPT_ERR.
Definition QUEUE_BIT : Z := PREEMPT_TO_BIT PREEMPT_OVER_QUEUE_LIMIT.
Definition SERVER_BIT : Z := PREEMPT_TO_BIT PREEMPT_OVER_SERVER_LIMIT.

(** The body of the overall soft run limits, which look at the jobs counted in
    the running state *)
Definition overall_run_soft (running : Z) (ctx : I) : bool :=
  let max_running := run_max (entlim_mk_runkey LIM_OVERALL allparam) ctx in
  negb ((max_running =? SCHD_INFINITY) || (max_running >? running)).

Definition check_queue_max_run_soft : softlimfunc_t := fun si qi rr =>
  match qi with
  | None => Some ERR_BIT
  | Some qi =>
      Some (if overall_run_soft (qi_sc_running qi) (LI2RUNCTXSOFT (qi_liminfo qi))
            then QUEUE_BIT else 0)
  end.

Definition check_server_max_run_soft : softlimfunc_t := fun si qi rr =>
  match si with
  | None => Some ERR_BIT
  | Some si =>
      Some (if overall_run_soft (si_sc_running si) (LI2RUNCTXSOFT (si_liminfo si))
            then SERVER_BIT else 0)
  end.

Definition check_queue_max_user_run_soft : softlimfunc_t := fun si qi rr =>
  match qi, rr_user rr with
  | Some qi, Some user =>
      Some (if entity_run_soft LIM_USER user (lc_user (qi_counts qi)) (LI2RUNCTXSOFT (qi_liminfo qi))
            then QUEUE_BIT else 0)
  | _, _ => Some ERR_BIT
  end.

Definition check_queue_max_group_run_soft : softlimfunc_t := fun si qi rr =>
  match qi, rr_group rr with
  | Some qi, Some group =>
      Some (if entity_run_soft LIM_GROUP group (lc_group (qi_counts qi))
                 (LI2RUNCTXSOFT (qi_liminfo qi))
            then QUEUE_BIT else 0)
  | _, _ => Some ERR_BIT
  end.

Definition check_queue_max_project_run_soft : softlimfunc_t := fun si qi rr =>
  match qi with
  | None => Some ERR_BIT
  | Some qi =>
      match rr_project rr with
      | None => Some 0
      | Some project =>
          Some (if entity_run_soft LIM_PROJECT project (lc_project (qi_counts qi))
                     (LI2RUNCTXSOFT (qi_liminfo qi))
                then QUEUE_BIT else 0)
      end
  end.

Definition check_server_max_user_run_soft : softlimfunc_t := fun si qi rr =>
  match si, rr_user rr with
  | Some si, Some user =>
      Some (if entity_run_soft LIM_USER user (lc_user (si_counts si)) (LI2RUNCTXSOFT (si_liminfo si))
            then SERVER_BIT else 0)
  | _, _ => Some ERR_BIT
  end.

Definition check_server_max_group_run_soft : softlimfunc_t := fun si qi rr =>
  match si, rr_group rr with
  | Some si, Some group =>
      Some (if entity_run_soft LIM_GROUP group (lc_group (si_counts si))
                 (LI2RUNCTXSOFT (si_liminfo si))
            then SERVER_BIT else 0)
  | _, _ => Some ERR_BIT
  end.

Definition check_server_max_project_run_soft : softlimfunc_t := fun si qi rr =>
  match si with
  | None => Some ERR_BIT
  | Some si =>
      match rr_project rr with
      | None => Some 0
      | Some project =>
          Some (if entity_run_soft LIM_PROJECT project (lc_project (si_counts si))
                     (LI2RUNCTXSOFT (si_liminfo si))
                then SERVER_BIT else 0)
      end
  end.

Definition check_queue_max_user_res_soft : softlimfunc_t := fun si qi rr =>
  match qi with
  | None => Some ERR_BIT
  | Some qi =>
      r ← check_max_user_res_soft rr (lc_user (qi_counts qi)) (LI2RESCTXSOFT (qi_liminfo qi));
      Some (if r : bool then QUEUE_BIT else 0)
  end.

Definition check_queue_max_group_res_soft : softlimfunc_t := fun si qi rr =>
  match qi with
  | None => Some ERR_BIT
  | Some qi =>
      r ← check_max_group_res_soft rr (lc_group (qi_counts qi)) (LI2RESCTXSOFT (qi_liminfo qi));
      Some (if r : bool then QUEUE_BIT else 0)
  end.

Definition check_queue_max_project_res_soft : softlimfunc_t := fun si qi rr =>
  match qi with
  | None => Some ERR_BIT
  | Some qi =>
      r ← check_max_project_res_soft rr (lc_project (qi_counts qi)) (LI2RESCTXSOFT (qi_liminfo qi));
      Some (if r : bool then QUEUE_BIT else 0)
  end.

Definition check_server_max_user_res_soft : softlimfunc_t := fun si qi rr =>
  match si with
  | None => Some ERR_BIT
  | Some si =>
      r ← check_max_user_res_soft rr (lc_user (si_counts si)) (LI2RESCTXSOFT (si_liminfo si));
      Some (if r : bool then SERVER_BIT else 0)
  end.

Definition check_server_max_group_res_soft : softlimfunc_t := fun si qi rr =>
  match si with
  | None => Some ERR_BIT
  | Some si =>
      r ← check_max_group_res_soft rr (lc_group (si_counts si)) (LI2RESCTXSOFT (si_liminfo si));
      Some (if r : bool then SERVER_BIT else 0)
  end.

Definition check_server_max_project_res_soft : softlimfunc_t := fun si qi rr =>
  match si with
  | None => Some ERR_BIT
  | Some si =>
      r ← check_max_project_res_soft rr (lc_project (si_counts si)) (LI2RESCTXSOFT (si_liminfo si));
      Some (if r : bool then SERVER_BIT else 0)
  end.

Definition check_server_max_res_soft : softlimfunc_t := fun si qi rr =>
  match si with
  | None => Some ERR_BIT
  | Some si =>
      match find_counts (lc_all (si_counts si)) all_name with
      | None => Some 0
      | Some (_, c) =>
          Some (if overall_res_soft limres rr c (LI2RESCTXSOFT (si_liminfo si))
                then SERVER_BIT else 0)
      end
  end.

Definition check_queue_max_res_soft : softlimfunc_t := fun si qi rr =>
  match qi with
  | None => Some ERR_BIT
  | Some qi =>
      match find_counts (lc_all (qi_counts qi)) all_name with
      | None => Some 0
      | Some (_, c) =>
          Some (if overall_res_soft limres rr c (LI2RESCTXSOFT (qi_liminfo qi))
                then QUEUE_BIT else 0)
      end
  end.

(** [static softlimfunc_t softlimfuncs[]] *)
Definition softlimfuncs : list softlimfunc_t :=
  [check_queue_max_run_soft; check_queue_max_user_run_soft; check_queue_max_group_run_soft;
   check_queue_max_project_run_soft; check_server_max_run_soft; check_server_max_user_run_soft;
   check_server_max_group_run_soft; check_server_max_project_run_soft;
   check_queue_max_user_res_soft; check_queue_max_group_res_soft;
   check_queue_max_project_res_soft; check_server_max_user_res_soft;
   check_server_max_group_res_soft; check_server_max_project_res_soft;
   check_server_max_res_soft; check_queue_max_res_soft].

(** [rc |= (softlimfuncs[i])(si, qi, rr)] over the table *)
Fixpoint run_soft (funcs : list softlimfunc_t) (si : option (server_info I))
    (qi : option (queue_info I)) (rr : resource_resv) (rc : Z) : option Z :=
  match funcs with
  | [] => Some rc
  | f :: funcs => r ← f si qi rr; run_soft funcs si qi rr (Z.lor rc r)
  end.

Definition check_soft_limits (si : option (server_info I)) (qi : option (queue_info I))
    (rr : resource_resv) : option Z :=
  run_soft softlimfuncs si qi rr 0.

(** ** The counts while the job would run

    The calendar is replayed up to the end of the job: every job that starts or
    ends in between is counted in or out of a copy of the counts, and the
    largest counts met are kept. *)

Definition make_limcounts (c : limcounts) : limcounts :=
  LimCounts (dup_counts_list (lc_user c)) (dup_counts_list (lc_group c))
    (dup_counts_list (lc_project c)) (dup_counts_list (lc_all c)).

(** One list on a run event.  The counts found or made and the ones after them
    in the list are merged into the maximum; an empty maximum is an error. *)
Definition run_named (cts max : list counts) (name : option cstring) (req : list resource_req)
  : option (list counts * list counts) :=
  let '(cts, new) :=
    match find_alloc_counts cts name with
    | None => (cts, [])
    | Some (cts, i) =>
        let cts := alter (fun c => update_counts_on_run c req) i cts in (cts, drop i cts)
    end in
  match counts_max max new with
  | [] => None
  | max => Some (cts, max)
  end.

Definition run_all (cts max : list counts) (req : list resource_req)
  : option (list counts * list counts) :=
  let cts := update_first update_counts_on_run cts req in
  match counts_max max cts with
  | [] => None
  | max => Some (cts, max)
  end.

(** The counts of a server or a queue on a run event *)
Definition run_event (cts max : limcounts) (rr : resource_resv) : option (limcounts * limcounts) :=
  u ← run_named (lc_user cts) (lc_user max) (rr_user rr) (rr_resreq rr);
  g ← run_named (lc_group cts) (lc_group max) (rr_group rr) (rr_resreq rr);
  p ← run_named (lc_project cts) (lc_project max) (rr_project rr) (rr_resreq rr);
  a ← run_all (lc_all cts) (lc_all max) (rr_resreq rr);
  Some (LimCounts (fst u) (fst g) (fst p) (fst a), LimCounts (snd u) (snd g) (snd p) (snd a)).

(** One list on an end event *)
Definition end_named (cts : list counts) (name : option cstring) (req : list resource_req)
  : list counts :=
  match find_alloc_counts cts name with
  | None => cts
  | Some (cts, i) => alter (fun c => update_counts_on_end c req) i cts
  end.

Definition end_event (cts : limcounts) (rr : resource_resv) : limcounts :=
  LimCounts (end_named (lc_user cts) (rr_user rr) (rr_resreq rr))
    (end_named (lc_group cts) (rr_group rr) (rr_resreq rr))
    (end_named (lc_project cts) (rr_project rr) (rr_resreq rr))
    (update_first update_counts_on_end (lc_all cts) (rr_resreq rr)).

(** [Some None] is counts not in use; [None] is the error. *)
Definition track (f : limcounts -> limcounts -> option (limcounts * limcounts)) (t : tracked)
  : option tracked :=
  match t with
  | None => Some None
  | Some (c, m) => r ← f c m; Some (Some r)
  end.

(** The body of the loop over the events *)
Definition one_event (qi : queue_info I) (rr : resource_resv) (te : timed_event)
    (svr que : tracked) : option (tracked * tracked) :=
  match te_ptr te with
  | None => Some (svr, que)
  | Some te_rr =>
      if negb (rr_addr te_rr =? rr_addr rr) && rr_is_job te_rr then
        let step :=
          if te_type te =? TIMED_RUN_EVENT then (fun c m => run_event c m te_rr)
          else if te_type te =? TIMED_END_EVENT then (fun c m => Some (end_event c te_rr, m))
          else (fun c m => Some (c, m)) in
        svr ← track step svr;
        que ← (if bool_decide (rr_queue te_rr = Some (qi_addr qi)) then track step que else Some que);
        Some (svr, que)
      else Some (svr, que)
  end.

(** The loop itself: each round drops an event. *)
Fixpoint event_loop (fuel : nat) (qi : queue_info I) (rr : resource_resv) (end_ : Z)
    (te : list timed_event) (svr que : tracked) : option (tracked * tracked) :=
  match fuel, te with
  | S fuel', e :: _ =>
      if te_time e <? end_ then
        r ← one_event qi rr e svr que;
        event_loop fuel' qi rr end_
          (find_next_timed_event te true (Z.lor TIMED_RUN_EVENT TIMED_END_EVENT)) (fst r) (snd r)
      else Some (svr, que)
  | _, _ => Some (svr, que)
  end.

Definition has_flag (flags f : Z) : bool := negb (Z.land flags f =? 0).

(** The time left of a job: on its hard duration when a reservation starts
    before that is over *)
Definition job_time_left (si : server_info I) (rr : resource_resv) : Z :=
  if negb (rr_duration rr =? rr_hard_duration rr) &&
     exists_resv_event (si_calendar si) (si_server_time si + rr_hard_duration rr)
  then calc_time_left rr true else calc_time_left rr false.

(** The copy of the counts and of their maximum the replay starts from *)
Definition start (hard : bool) (c : limcounts) : tracked :=
  if hard then Some (make_limcounts c, make_limcounts c) else None.

(** The events of the replay, and the replay of the first [fuel] of them *)
Definition replayed_events (cal : list timed_event) : list timed_event :=
  find_init_timed_event (get_next_event (Some cal)) true
    (Z.lor TIMED_RUN_EVENT TIMED_END_EVENT).

Definition replay (fuel : nat) (si : server_info I) (qi : queue_info I) (rr : resource_resv)
    (end_ : Z) (cal : list timed_event) : option (tracked * tracked) :=
  event_loop fuel qi rr end_ (replayed_events cal)
    (start (si_has_hard_limit si) (si_counts si)) (start (qi_has_hard_limit qi) (qi_counts qi)).

(** The part of [check_limits] on the calendar: the largest counts of the
    server and of the queue, when in use; [None] is the error. *)
Definition calendar_counts (si : server_info I) (qi : queue_info I) (rr : resource_resv)
    (flags : Z) : option (option limcounts * option limcounts) :=
  match si_calendar si with
  | Some cal =>
      if has_flag flags CHECK_CUMULATIVE_LIMIT then Some (None, None)
      else
        let end_ := si_server_time si + job_time_left si rr in
        if exists_run_event (Some cal) end_ then
          r ← replay (S (length cal)) si qi rr end_ cal;
          Some (option_map snd (fst r), option_map snd (snd r))
        else Some (None, None)
  | None => Some (None, None)
  end.

(** The counts the limits are checked against, or [None] to return 0 *)
Definition limit_counts (si : server_info I) (qi : queue_info I) (flags : Z)
    (max : option limcounts * option limcounts) : option (option limcounts * option limcounts) :=
  if has_flag flags CHECK_LIMIT then
    Some (Some (default (make_limcounts (si_counts si)) (fst max)),
          Some (default (make_limcounts (qi_counts qi)) (snd max)))
  else if has_flag flags CHECK_CUMULATIVE_LIMIT then
    if negb (si_has_hard_limit si) && negb (qi_has_hard_limit qi) then None
    else Some (Some (make_limcounts (si_total si)), Some (make_limcounts (qi_total qi)))
  else Some (None, None).

(** The loop over the table that stops at the first failure *)
Fixpoint run_first (funcs : list limfunc_t) (si : server_info I) (qi : queue_info I)
    (rr : resource_resv) (sc qc : option limcounts) (err : schd_error) : option (Z * schd_error) :=
  match funcs with
  | [] => Some (0, err)
  | f :: funcs =>
      r ← f (Some si) (Some qi) rr sc qc err;
      let '(rc, err) := r in
      if rc =? 0 then run_first funcs si qi rr sc qc err
      else Some (rc, set_schd_error_codes err NOT_RUN rc)
  end.

(** The loop that goes on: the first failure's code, the errors filled in and
    the one that is filled in next *)
Fixpoint run_every (funcs : list limfunc_t) (si : server_info I) (qi : queue_info I)
    (rr : resource_resv) (sc qc : option limcounts) (any_fail_rc : Z) (errs : list schd_error)
    (err : schd_error) : option (Z * list schd_error * schd_error) :=
  match funcs with
  | [] => Some (any_fail_rc, errs, err)
  | f :: funcs =>
      r ← f (Some si) (Some qi) rr sc qc err;
      let '(rc, err) := r in
      if rc =? 0 then run_every funcs si qi rr sc qc any_fail_rc errs err
      else
        run_every funcs si qi rr sc qc (if any_fail_rc =? 0 then rc else any_fail_rc)
          (errs ++ [set_schd_error_codes err NOT_RUN rc]) new_schd_error
  end.

(** The code and the list of errors headed by [err] *)
Definition check_limits (si : option (server_info I)) (qi : option (queue_info I))
    (rr : option resource_resv) (err : schd_error) (flags : Z) : option (Z * list schd_error) :=
  match si, qi, rr with
  | Some si, Some qi, Some rr =>
      match (max ← calendar_counts si qi rr flags; limit_counts si qi flags max) with
      | None => Some (0, [err])
      | Some (sc, qc) =>
          if has_flag flags RETURN_ALL_ERR then
            r ← run_every limfuncs si qi rr sc qc 0 [] err;
            let '(rc, errs, last) := r in
            Some (rc, match errs with [] => [last] | _ => errs end)
          else
            r ← run_first limfuncs si qi rr sc qc err;
            Some (fst r, [snd r])
      end
  | _, _, _ => Some (0, [err])
  end.

End Checks.
End LimitCheck.
