(* ===== verification/LimitPeak.v ===== *)
(** * The counts a limit is checked against

    [check_limits] replays the calendar up to the end of the job and keeps the
    largest counts it meets.  The theorem: the number of running jobs kept for
    every user, group, project and for all jobs is at least the number at every
    point of the replay. *)

From Stdlib Require Import ZArith Lia.
From S2P Require Import Prelude Doubles ResNum Index Entlim SchedData Counts.
From S2P Require Import LimitSet LimitCheck SchedData.
Import Double ResNum Entlim Data ReqList Counts Calendar LimitSet LimitCheck.

Module LimitPeak.

(** The jobs a name runs, none if it has no counts *)
Definition peak (l : list counts) (n : cstring) : Z := Z.max 0 (default 0 (run_of l n)).

(** [k] more updates stay within the range of [int]. *)
Definition room (k : Z) (l : list counts) : Prop :=
  forall n a, run_of l n = Some a -> INT_MIN + k <= a <= INT_MAX - k.

(** The state of the replay of one list: [cts] now, [max] the largest so far *)
Record good (k : Z) (cts max : list counts) : Prop := {
  good_k : 0 <= k < 2 ^ 30;
  good_named : named cts;
  good_room : room k cts;
  good_int : forall n a, run_of max n = Some a -> in_int a;
  good_le : forall n, peak cts n <= peak max n }.

Definition grows (m m' : list counts) : Prop := forall n, peak m n <= peak m' n.

Lemma peak_look (l : list counts) (n : cstring) :
  peak l n = match look l n with Some c => Z.max 0 (ct_running c) | None => 0 end.
Proof. unfold peak, run_of. by destruct (look l n). Qed.

(** Merging into the maximum raises it to the merged counts. *)
Lemma counts_max_peak (max new : list counts) (n : cstring) :
  named new -> peak (counts_max max new) n = Z.max (peak max n) (peak new n).
Proof.
  intros Hn. rewrite !peak_look, counts_max_look by done.
  destruct (look max n) as [m|], (look new n) as [c|]; cbn; try lia.
  destruct (Z.gtb_spec (ct_running c) (ct_running m)); lia.
Qed.

(** and does not leave the range of [int]. *)
Lemma counts_max_int (k : Z) (max new : list counts) :
  0 <= k -> named new -> room k new -> (forall n a, run_of max n = Some a -> in_int a) ->
  forall n a, run_of (counts_max max new) n = Some a -> in_int a.
Proof.
  intros Hk Hn Hr Hm n a. specialize (Hr n). specialize (Hm n). unfold run_of in *.
  rewrite counts_max_look by done. unfold in_int.
  destruct (look max n) as [m|], (look new n) as [c|]; cbn in *; intros [= <-].
  - specialize (Hr _ eq_refl). specialize (Hm _ eq_refl). unfold in_int in Hm.
    destruct (_ >? _); lia.
  - by apply Hm.
  - specialize (Hr _ eq_refl). lia.
Qed.

Lemma room_drop (k : Z) (l : list counts) (i : nat) : named l -> room k l -> room k (drop i l).
Proof.
  intros Hn Hr n a Ha. apply (Hr n a). revert Ha. unfold run_of. revert i Hn. clear Hr.
  induction l as [|c l IH]; intros i Hn; [by destruct i|]. destruct i as [|i]; [done|].
  intros Ha. cbn [drop] in Ha. pose proof Hn as [Hnd Hall]. cbn in Hnd.
  apply NoDup_cons in Hnd as [Hni Hnd]. apply Forall_cons in Hall as [Hc Hall].
  assert (named l) as Hl by done. specialize (IH i Hl Ha). rewrite look_cons.
  destruct (name_is (ct_name c) n) eqn:E; [|done]. apply name_is_some in E.
  destruct (look l n) as [q|] eqn:El; [|done]. apply look_name in El as [Hq Hin].
  destruct Hni. rewrite E, <-Hq. by apply list_elem_of_fmap_2.
Qed.

Lemma named_alter (f : counts -> counts) (l : list counts) (i : nat) :
  (forall c, ct_name (f c) = ct_name c) -> map ct_name (alter f i l) = map ct_name l.
Proof.
  intros Hf. revert i. induction l as [|c l IH]; intros [|i]; cbn; [done..| |].
  - by rewrite Hf.
  - f_equal. apply IH.
Qed.

Lemma named_map (l : list counts) :
  named l <-> NoDup (map ct_name l) /\ Forall (fun x => x <> None) (map ct_name l).
Proof. unfold named. by rewrite (List.Forall_map ct_name). Qed.

Lemma named_names (l l' : list counts) : map ct_name l = map ct_name l' -> named l -> named l'.
Proof. rewrite !named_map. by intros ->. Qed.

Lemma named_snoc (l l' : list counts) (n : cstring) :
  map ct_name l' = map ct_name l ++ [Some n] -> look l n = None -> named l -> named l'.
Proof.
  rewrite !named_map. intros He Hn [Hnd Hall]. rewrite He.
  assert (Some n ∉ map ct_name l) as Hni.
  { intros Hin. apply list_elem_of_fmap in Hin as (c & Hc & Hin). revert Hn. clear -Hc Hin.
    induction l as [|q l IH]; [by apply not_elem_of_nil in Hin|]. rewrite look_cons.
    apply elem_of_cons in Hin as [->|Hin].
    - rewrite (proj2 (name_is_some (ct_name q) n)) by done. done.
    - destruct (name_is (ct_name q) n); [done|]. by apply IH. }
  split.
  - apply NoDup_app. split_and!; [done| |apply NoDup_singleton].
    intros x Hx Hx'. apply list_elem_of_singleton in Hx' as ->. done.
  - apply Forall_app. split; [done|]. by apply Forall_cons_2; [|apply Forall_nil_2].
Qed.

Lemma named_drop (l : list counts) (i : nat) : named l -> named (drop i l).
Proof.
  intros [Hnd Hall]. split; [|by apply Forall_drop].
  rewrite <-(take_drop i l), map_app in Hnd. by apply NoDup_app in Hnd as (_ & _ & ?).
Qed.

(** An update of the counts of a name: what becomes of the list *)
Lemma update_list (f : counts -> counts) (cts : list counts) (n : cstring) :
  (forall c, ct_name (f c) = ct_name c) -> named cts ->
  exists cts' i, find_alloc_counts cts (Some n) = Some (cts', i) /\ named (alter f i cts') /\
    (forall n', look (alter f i cts') n'
       = if bool_decide (n' = n) then Some (f (default (fresh_counts n) (look cts n)))
         else look cts n') /\
    look (drop i (alter f i cts')) n = Some (f (default (fresh_counts n) (look cts n))) /\
    (i < length cts')%nat.
Proof.
  intros Hf Hnm. destruct (alloc_alter_look f cts n n Hf) as (cts' & i & He & (c & Hi & Hc) & Hnames & Hl).
  exists cts', i. split; [done|]. split_and!.
  - destruct Hnames as [Hn|[Hn Hs]].
    + eapply named_names; [|exact Hnm]. by rewrite named_alter.
    + eapply named_snoc; [|exact Hn|exact Hnm]. by rewrite named_alter.
  - intros n'. destruct (alloc_alter_look f cts n n' Hf) as (c2 & i2 & He2 & _ & _ & Hl2).
    rewrite He in He2. injection He2 as <- <-. exact Hl2.
  - rewrite bool_decide_eq_true_2 in Hl by done.
    assert (alter f i cts' !! i = Some (f c)) as Ha by (by rewrite list_lookup_alter_eq, Hi).
    rewrite (drop_S _ _ _ Ha), look_cons, Hf.
    rewrite (proj2 (name_is_some (ct_name c) n)) by done. rewrite <-Hl. symmetry.
    assert (forall l j x, l !! j = Some x -> NoDup (map ct_name l) -> ct_name x = Some n ->
              look l n = Some x) as Hgen.
    { clear. induction l as [|q l IH]; intros [|j] x; cbn; try done.
      - intros [= ->] _ Hx. rewrite look_cons. by rewrite (proj2 (name_is_some _ n) Hx).
      - intros Hj Hnd Hx. apply NoDup_cons in Hnd as [Hni Hnd]. rewrite look_cons.
        destruct (name_is (ct_name q) n) eqn:E; [|by eapply IH].
        apply name_is_some in E. destruct Hni. rewrite E, <-Hx.
        apply list_elem_of_fmap_2. by eapply list_elem_of_lookup_2. }
    apply (Hgen _ i); [done| |by rewrite Hf].
    rewrite named_alter by done. destruct Hnames as [->|[Hn ->]]; [by destruct Hnm|].
    apply NoDup_app. destruct Hnm as [Hnd _]. split_and!; [done| |apply NoDup_singleton].
    intros y Hy Hy'. apply list_elem_of_singleton in Hy' as ->.
    apply list_elem_of_fmap in Hy as (q & Hq & Hy). clear -Hn Hq Hy.
    induction cts as [|p l IH]; [by apply not_elem_of_nil in Hy|]. rewrite look_cons in Hn.
    apply elem_of_cons in Hy as [->|Hy].
    + by rewrite (proj2 (name_is_some (ct_name p) n)) in Hn.
    + destruct (name_is (ct_name p) n); [done|]. by apply IH.
  - by apply lookup_lt_Some in Hi.
Qed.

Lemma good_weaken (k k' : Z) (cts max : list counts) :
  good k' cts max -> 0 <= k <= k' -> good k cts max.
Proof.
  intros [Hk Hn Hr Hi Hl] Hk'. split; [lia|done| |done|done]. intros n a Ha. specialize (Hr n a Ha). lia.
Qed.

Lemma grows_refl (m : list counts) : grows m m.
Proof. intros n. lia. Qed.

Lemma grows_trans (a b c : list counts) : grows a b -> grows b c -> grows a c.
Proof. intros Hab Hbc n. specialize (Hab n). specialize (Hbc n). lia. Qed.

(** An update by one in either direction stays in range. *)
Lemma room_update (f : counts -> counts) (k : Z) (cts cts' : list counts) (n : cstring) :
  0 <= k -> (forall c, ct_running (f c) = ct_running c \/
             ct_running (f c) = int32 (ct_running c + 1) \/
             ct_running (f c) = int32 (ct_running c - 1)) ->
  k < 2 ^ 30 -> room (k + 1) cts ->
  (forall n', look cts' n'
     = if bool_decide (n' = n) then Some (f (default (fresh_counts n) (look cts n)))
       else look cts n') ->
  room k cts'.
Proof.
  intros Hk Hf Hkb Hr Hl m a. unfold run_of. rewrite Hl. case_bool_decide as Em.
  - intros [= <-]. set (c := default _ _).
    assert (INT_MIN + (k + 1) <= ct_running c <= INT_MAX - (k + 1)) as Hb.
    { unfold c. destruct (look cts n) as [c'|] eqn:E; cbn.
      - apply (Hr n). unfold run_of. by rewrite E.
      - unfold INT_MIN, INT_MAX. lia. }
    destruct (Hf c) as [->|[->| ->]]; [lia|rewrite int32_id by (unfold in_int; lia); lia..].
  - intros Ha. specialize (Hr m a Ha). lia.
Qed.

Lemma on_end_running (c : counts) (req : list resource_req) :
  ct_running (update_counts_on_end c req) = ct_running c \/
  ct_running (update_counts_on_end c req) = int32 (ct_running c - 1).
Proof. destruct req; [by left|by right]. Qed.

Lemma on_end_name (c : counts) (req : list resource_req) :
  ct_name (update_counts_on_end c req) = ct_name c.
Proof. by destruct req. Qed.

(** A job that starts is counted in the list, and in its maximum. *)
Lemma run_named_good (k : Z) (cts max cts' max' : list counts) (name : option cstring)
    (req : list resource_req) :
  0 <= k -> good (k + 1) cts max -> run_named cts max name req = Some (cts', max') ->
  good k cts' max' /\ grows max max'.
Proof.
  intros Hk Hg. pose proof Hg as [Hkb Hn Hr Hi Hle]. unfold run_named.
  destruct name as [n|].
  2: { cbn [find_alloc_counts counts_max]. destruct max; [done|]. intros [= <- <-].
       split; [by (eapply good_weaken; [done|lia])|apply grows_refl]. }
  set (f := fun c => update_counts_on_run c req).
  destruct (update_list f cts n (fun _ => eq_refl) Hn) as (l & i & He & Hnm & Hl & Hd & _).
  rewrite He. cbn zeta beta iota. fold f. pose proof (named_drop _ i Hnm) as Hnd.
  destruct (counts_max max (drop i (alter f i l))) as [|c m'] eqn:Em; [done|].
  intros [= <- <-]. rewrite <-Em.
  assert (room k (alter f i l)) as Hrk.
  { eapply (room_update f); [lia| |lia|exact Hr|exact Hl]. intros c'. right. by left. }
  split.
  - split; [lia|done|done| |].
    + eapply counts_max_int; [done|done|by apply room_drop|done].
    + intros n'. rewrite counts_max_peak by done. rewrite !(peak_look _ n'), Hl.
      case_bool_decide as En; [subst n'; rewrite Hd; lia|].
      specialize (Hle n'). rewrite !peak_look in Hle. lia.
  - intros n'. rewrite counts_max_peak by done. lia.
Qed.

Lemma update_first_list (f : counts -> list resource_req -> counts) (cts : list counts)
    (req : list resource_req) :
  (forall c, ct_name (f c req) = ct_name c) -> named cts -> cts <> [] ->
  exists n, named (update_first f cts req) /\
    forall n', look (update_first f cts req) n'
      = if bool_decide (n' = n) then Some (f (default (fresh_counts n) (look cts n)) req)
        else look cts n'.
Proof.
  intros Hf Hn Hne. destruct cts as [|c l]; [done|]. cbn [update_first].
  destruct (ct_name c) as [n|] eqn:Ec.
  2: { destruct Hn as [_ Hall]. by apply Forall_cons in Hall as [? _]. }
  exists n. split.
  - eapply named_names; [|exact Hn]. cbn. by rewrite Hf.
  - intros n'. rewrite !look_cons, Hf, Ec. cbn. unfold streq.
    do 2 case_bool_decide; subst; try done. by rewrite bool_decide_eq_true_2.
Qed.

Lemma run_all_good (k : Z) (cts max cts' max' : list counts) (req : list resource_req) :
  0 <= k -> good (k + 1) cts max -> run_all cts max req = Some (cts', max') ->
  good k cts' max' /\ grows max max'.
Proof.
  intros Hk Hg. pose proof Hg as [Hkb Hn Hr Hi Hle]. unfold run_all.
  destruct (decide (cts = [])) as [->|Hne].
  { cbn [update_first counts_max]. destruct max; [done|]. intros [= <- <-].
    split; [by (eapply good_weaken; [done|lia])|apply grows_refl]. }
  destruct (update_first_list update_counts_on_run cts req (fun _ => eq_refl) Hn Hne)
    as (n & Hnm & Hl).
  destruct (counts_max max _) as [|c m'] eqn:Em; [done|]. intros [= <- <-]. rewrite <-Em.
  assert (room k (update_first update_counts_on_run cts req)) as Hrk.
  { eapply (room_update (fun c => update_counts_on_run c req)); [lia| |lia|exact Hr|exact Hl].
    intros c'. right. by left. }
  split.
  - split; [lia|done|done| |].
    + by eapply counts_max_int.
    + intros n'. rewrite counts_max_peak by done. lia.
  - intros n'. rewrite counts_max_peak by done. lia.
Qed.

(** A job that ends only lowers the counts. *)
Lemma end_good (k : Z) (cts cts' max : list counts) (n : cstring) (req : list resource_req) :
  0 <= k -> good (k + 1) cts max -> named cts' ->
  (forall n', look cts' n'
     = if bool_decide (n' = n)
       then Some (update_counts_on_end (default (fresh_counts n) (look cts n)) req)
       else look cts n') ->
  good k cts' max.
Proof.
  intros Hk [Hkb Hn Hr Hi Hle] Hnm Hl. split; [lia|done| |done|].
  - eapply (room_update (fun c => update_counts_on_end c req)); [lia| |lia|exact Hr|exact Hl].
    intros c. destruct (on_end_running c req) as [?|?]; [by left|by right; right].
  - intros n'. rewrite (peak_look cts'), Hl. specialize (Hle n'). rewrite (peak_look cts) in Hle.
    case_bool_decide as En; [subst n'|lia].
    assert (peak max n >= 0) as Hp by (unfold peak; lia).
    specialize (Hr n). unfold run_of in Hr.
    destruct (look cts n) as [c|]; cbn [default from_option id option_map] in *.
    + specialize (Hr _ eq_refl). destruct (on_end_running c req) as [->| ->]; [lia|].
      rewrite int32_id by (unfold in_int; lia). lia.
    + destruct (on_end_running (fresh_counts n) req) as [->| ->]; cbn [fresh_counts ct_running];
        [|rewrite int32_id by (unfold in_int, INT_MIN, INT_MAX; lia)]; lia.
Qed.

Lemma end_named_good (k : Z) (cts max : list counts) (name : option cstring)
    (req : list resource_req) :
  0 <= k -> good (k + 1) cts max -> good k (end_named cts name req) max.
Proof.
  intros Hk Hg. unfold end_named.
  destruct name as [n|]; [|by (eapply good_weaken; [done|lia])].
  destruct (update_list (fun c => update_counts_on_end c req) cts n
              (fun c => on_end_name c req) (good_named _ _ _ Hg)) as (l & i & -> & Hnm & Hl & _).
  by eapply end_good.
Qed.

Lemma end_first_good (k : Z) (cts max : list counts) (req : list resource_req) :
  0 <= k -> good (k + 1) cts max -> good k (update_first update_counts_on_end cts req) max.
Proof.
  intros Hk Hg. destruct (decide (cts = [])) as [->|Hne]; [by (eapply good_weaken; [done|lia])|].
  destruct (update_first_list update_counts_on_end cts req
              (fun c => on_end_name c req) (good_named _ _ _ Hg) Hne) as (n & Hnm & Hl).
  by eapply end_good.
Qed.

(** ** The four lists of a server or a queue *)

Record lgood (k : Z) (c m : limcounts) : Prop := {
  lg_user : good k (lc_user c) (lc_user m);
  lg_group : good k (lc_group c) (lc_group m);
  lg_project : good k (lc_project c) (lc_project m);
  lg_all : good k (lc_all c) (lc_all m) }.

(** Every name runs at most as many jobs in [c] as in [m]. *)
Definition below (c m : limcounts) : Prop :=
  forall n, peak (lc_user c) n <= peak (lc_user m) n /\ peak (lc_group c) n <= peak (lc_group m) n /\
            peak (lc_project c) n <= peak (lc_project m) n /\ peak (lc_all c) n <= peak (lc_all m) n.

Lemma below_refl (c : limcounts) : below c c.
Proof. intros n. lia. Qed.

Lemma below_trans (a b c : limcounts) : below a b -> below b c -> below a c.
Proof. intros Hab Hbc n. specialize (Hab n). specialize (Hbc n). lia. Qed.

Lemma lgood_below (k : Z) (c m : limcounts) : lgood k c m -> below c m.
Proof. intros [[] [] [] []] n. auto. Qed.

Lemma lgood_weaken (k k' : Z) (c m : limcounts) : lgood k' c m -> 0 <= k <= k' -> lgood k c m.
Proof. intros [] Hk. split; by eapply good_weaken. Qed.

Lemma run_event_good (k : Z) (c m c' m' : limcounts) (rr : resource_resv) :
  0 <= k -> lgood (k + 1) c m -> run_event c m rr = Some (c', m') -> lgood k c' m' /\ below m m'.
Proof.
  intros Hk [Hu Hg Hp Ha]. unfold run_event.
  destruct (run_named (lc_user c) _ _ _) as [[cu mu]|] eqn:Eu; cbn [mbind option_bind]; [|done].
  destruct (run_named (lc_group c) _ _ _) as [[cg mg]|] eqn:Eg; cbn [mbind option_bind]; [|done].
  destruct (run_named (lc_project c) _ _ _) as [[cp mp]|] eqn:Ep; cbn [mbind option_bind]; [|done].
  destruct (run_all (lc_all c) _ _) as [[ca ma]|] eqn:Ea; cbn [mbind option_bind]; [|done].
  intros [= <- <-].
  apply (run_named_good k) in Eu as [? Gu]; [|done..].
  apply (run_named_good k) in Eg as [? Gg]; [|done..].
  apply (run_named_good k) in Ep as [? Gp]; [|done..].
  apply (run_all_good k) in Ea as [? Ga]; [|done..].
  split; [by split|]. intros n. split_and!; auto.
Qed.

Lemma end_event_good (k : Z) (c m : limcounts) (rr : resource_resv) :
  0 <= k -> lgood (k + 1) c m -> lgood k (end_event c rr) m.
Proof.
  intros Hk [Hu Hg Hp Ha].
  split; cbn [end_event lc_user lc_group lc_project lc_all];
    by first [apply end_named_good|apply end_first_good].
Qed.

Section Replay.
Context {I : Type}.
Implicit Types (qi : queue_info I).

Definition tgood (k : Z) (t : tracked) : Prop :=
  match t with Some (c, m) => lgood k c m | None => True end.

(** The counts of [t] are below the maximum. *)
Definition covered (t : tracked) (m : option limcounts) : Prop :=
  match t, m with Some (c, _), Some m => below c m | None, None => True | _, _ => False end.

Definition raised (t t' : tracked) : Prop :=
  match t, t' with Some (_, m), Some (_, m') => below m m' | None, None => True | _, _ => False end.

Lemma raised_refl (t : tracked) : raised t t.
Proof. destruct t as [[c m]|]; [apply below_refl|done]. Qed.

Lemma raised_trans (a b c : tracked) : raised a b -> raised b c -> raised a c.
Proof.
  destruct a as [[]|], b as [[]|], c as [[]|]; cbn; try done. apply below_trans.
Qed.

Lemma raised_covered (k : Z) (t t' : tracked) :
  tgood k t -> raised t t' -> covered t (option_map snd t').
Proof.
  destruct t as [[]|], t' as [[]|]; cbn; try done. intros Hg Hb. eapply below_trans; [|exact Hb].
  by eapply lgood_below.
Qed.

Lemma tgood_weaken (k k' : Z) (t : tracked) : tgood k' t -> 0 <= k <= k' -> tgood k t.
Proof. destruct t as [[]|]; [apply lgood_weaken|done]. Qed.

Lemma track_good (k : Z) (f : limcounts -> limcounts -> option (limcounts * limcounts))
    (t t' : tracked) :
  (forall c m c' m', lgood (k + 1) c m -> f c m = Some (c', m') -> lgood k c' m' /\ below m m') ->
  tgood (k + 1) t -> track f t = Some t' -> tgood k t' /\ raised t t'.
Proof.
  intros Hf Hg. destruct t as [[c m]|]; cbn [track]; [|by intros [= <-]].
  destruct (f c m) as [[c' m']|] eqn:E; cbn [mbind option_bind]; [|done]. intros [= <-].
  by eapply Hf.
Qed.

Lemma one_event_good (k : Z) qi (rr : resource_resv) (te : timed_event)
    (svr que svr' que' : tracked) :
  0 <= k -> tgood (k + 1) svr -> tgood (k + 1) que ->
  one_event qi rr te svr que = Some (svr', que') ->
  (tgood k svr' /\ raised svr svr') /\ (tgood k que' /\ raised que que').
Proof.
  intros Hk Hs Hq.
  assert ((tgood k svr /\ raised svr svr) /\ tgood k que /\ raised que que) as Hsame.
  { split; (split; [eapply tgood_weaken; [done|lia]|apply raised_refl]). }
  unfold one_event. destruct (te_ptr te) as [tr|]; [|by intros [= <- <-]].
  destruct (negb _ && _); [|by intros [= <- <-]]. cbn zeta.
  set (step := if _ =? _ then _ else _).
  assert (forall c m c' m', lgood (k + 1) c m -> step c m = Some (c', m') ->
            lgood k c' m' /\ below m m') as Hstep.
  { intros c m c' m' Hg. subst step. destruct (te_type te =? TIMED_RUN_EVENT).
    { by apply run_event_good. }
    destruct (te_type te =? TIMED_END_EVENT); intros [= <- <-]; (split; [|apply below_refl]).
    - by apply end_event_good.
    - eapply lgood_weaken; [done|lia]. }
  destruct (track step svr) as [s|] eqn:Es; cbn [mbind option_bind]; [|done].
  apply (track_good k) in Es as Hs'; [|done..].
  case_bool_decide; cbn [mbind option_bind].
  - destruct (track step que) as [q|] eqn:Eq; cbn [mbind option_bind]; [|done].
    intros [= <- <-]. split; [done|]. by eapply (track_good k).
  - intros [= <- <-]. split; [done|]. by destruct Hsame.
Qed.

(** The loop never lowers the maximum, and the counts after each of its rounds
    are below the maximum at its end. *)
Lemma event_loop_good (fuel : nat) qi (rr : resource_resv) (end_ : Z) : forall te svr que svr' que' j,
  tgood (Z.of_nat fuel) svr -> tgood (Z.of_nat fuel) que ->
  event_loop fuel qi rr end_ te svr que = Some (svr', que') -> (j <= fuel)%nat ->
  (tgood 0 svr' /\ raised svr svr') /\ (tgood 0 que' /\ raised que que') /\
  exists svrj quej, event_loop j qi rr end_ te svr que = Some (svrj, quej) /\
    covered svrj (option_map snd svr') /\ covered quej (option_map snd que').
Proof.
  induction fuel as [|fuel IH]; intros te svr que svr' que' j Hs Hq He Hj.
  { destruct j; [|lia]. cbn in He. injection He as <- <-.
    split_and!; [done|apply raised_refl|done|apply raised_refl|]. exists svr, que. split; [done|].
    split; (eapply raised_covered; [done|apply raised_refl]). }
  replace (Z.of_nat (S fuel)) with (Z.of_nat fuel + 1) in Hs, Hq by lia.
  assert (forall s q, raised svr s -> raised que q ->
            covered svr (option_map snd s) /\ covered que (option_map snd q)) as Hcov.
  { intros s q Hrs Hrq. split; eapply raised_covered; eauto. }
  cbn [event_loop] in He. destruct te as [|e te]; [|destruct (te_time e <? end_) eqn:Et].
  1,3: injection He as <- <-; split_and!; [eapply tgood_weaken; [done|lia]|apply raised_refl|
    eapply tgood_weaken; [done|lia]|apply raised_refl|]; exists svr, que;
    split; [destruct j; cbn [event_loop]; rewrite ?Et; done|apply Hcov; apply raised_refl].
  destruct (one_event qi rr e svr que) as [[s q]|] eqn:E1; cbn [mbind option_bind fst snd] in He; [|done].
  destruct (one_event_good (Z.of_nat fuel) _ _ _ _ _ _ _ ltac:(lia) Hs Hq E1)
    as [[Hs1 Rs1] [Hq1 Rq1]].
  destruct j as [|j].
  - destruct (IH _ _ _ _ _ O Hs1 Hq1 He ltac:(lia)) as ([G1 Rs2] & [G2 Rq2] & _).
    pose proof (raised_trans _ _ _ Rs1 Rs2) as Rs. pose proof (raised_trans _ _ _ Rq1 Rq2) as Rq.
    split_and!; [done..|]. exists svr, que. split; [done|by apply Hcov].
  - destruct (IH _ _ _ _ _ j Hs1 Hq1 He ltac:(lia)) as ([G1 Rs2] & [G2 Rq2] & Hj2).
    split_and!; [done|by eapply raised_trans|done|by eapply raised_trans|].
    cbn [event_loop]. by rewrite Et, E1.
Qed.

(** Each round drops an event, so fuel beyond the number of events changes
    nothing. *)
Lemma event_loop_fuel (f1 : nat) qi (rr : resource_resv) (end_ : Z) : forall f2 te svr que,
  (length te < f1)%nat -> (length te < f2)%nat ->
  event_loop f1 qi rr end_ te svr que = event_loop f2 qi rr end_ te svr que.
Proof.
  induction f1 as [|f1 IH]; intros [|f2] te svr que H1 H2; try lia.
  cbn [event_loop]. destruct te as [|e te]; [done|]. destruct (te_time e <? end_); [|done].
  destruct (one_event qi rr e svr que) as [[s q]|]; cbn [mbind option_bind fst snd]; [|done].
  pose proof (find_init_suffix te true (Z.lor TIMED_RUN_EVENT TIMED_END_EVENT)) as Hl.
  apply IH; cbn [find_next_timed_event length] in *; lia.
Qed.

(** Counts that are named and have room for an update by every event *)
Definition startable (k : Z) (c : limcounts) : Prop :=
  forall l, l = lc_user c \/ l = lc_group c \/ l = lc_project c \/ l = lc_all c ->
  named l /\ room k l.

Lemma dup_good (k : Z) (l : list counts) :
  0 <= k < 2 ^ 30 -> named l -> room k l -> good k (dup_counts_list l) (dup_counts_list l).
Proof.
  intros Hk Hn Hr.
  assert (forall n a, run_of (dup_counts_list l) n = Some a -> run_of l n = Some a) as Hd.
  { intros n a. unfold run_of. rewrite look_dup. by destruct (look l n). }
  split; [done| | | |done].
  - eapply named_names; [|exact Hn]. clear. induction l as [|c l IH]; cbn; [done|by f_equal].
  - intros n a Ha. by apply (Hr n), Hd.
  - intros n a Ha. specialize (Hr n a (Hd n a Ha)). unfold in_int. lia.
Qed.

Lemma start_good (k : Z) (hard : bool) (c : limcounts) :
  0 <= k < 2 ^ 30 -> startable k c -> tgood k (start hard c).
Proof.
  intros Hk Hs. destruct hard; [|done]. cbn.
  split; cbn [make_limcounts lc_user lc_group lc_project lc_all]; apply dup_good;
    try done; apply Hs; tauto.
Qed.

Lemma replayed_length (cal : list timed_event) : (length (replayed_events cal) <= length cal)%nat.
Proof. apply find_init_suffix. Qed.

(** The numbers of jobs of a maximum are in the range of [int]. *)
Definition in_range (m : option limcounts) : Prop :=
  match m with
  | None => True
  | Some m =>
      forall l n a, l = lc_user m \/ l = lc_group m \/ l = lc_project m \/ l = lc_all m ->
      run_of l n = Some a -> in_int a
  end.

Lemma good_in_range (t : tracked) : tgood 0 t -> in_range (option_map snd t).
Proof.
  destruct t as [[c m]|]; [|done]. cbn. intros [Hu Hg Hp Ha] l n a Hl Hn.
  destruct Hl as [->|[->|[->| ->]]]; [exact (good_int _ _ _ Hu n a Hn)|exact (good_int _ _ _ Hg n a Hn)|
    exact (good_int _ _ _ Hp n a Hn)|exact (good_int _ _ _ Ha n a Hn)].
Qed.

(** ** A calendar without a job that starts before the end

    The replay then counts jobs out only, and the largest counts stay those it
    starts from. *)

Fixpoint quiet (end_ : Z) (te : list timed_event) : Prop :=
  match te with
  | [] => True
  | e :: te => if wanted true TIMED_RUN_EVENT e then end_ <= te_time e else quiet end_ te
  end.

Lemma no_run_quiet (cal : option (list timed_event)) (end_ : Z) :
  exists_run_event cal end_ = false -> quiet end_ (default [] cal).
Proof.
  unfold exists_run_event, get_next_event. induction (default [] cal) as [|e l IH]; [done|].
  cbn [find_init_timed_event quiet]. unfold wanted.
  destruct (te_disabled e); cbn [andb negb]; [exact IH|].
  destruct (Z.land (te_type e) TIMED_RUN_EVENT =? 0); cbn [andb negb]; [exact IH|].
  rewrite Z.gtb_ltb. destruct (end_ =? 0), (Z.ltb_spec end_ (te_time e)); cbn; done || lia.
Qed.

Lemma quiet_init (end_ : Z) (te : list timed_event) : quiet end_ te ->
  quiet end_ (find_init_timed_event te true (Z.lor TIMED_RUN_EVENT TIMED_END_EVENT)).
Proof.
  induction te as [|e te IH]; [done|]. cbn [find_init_timed_event]. intros Hq. pose proof Hq as Hq'.
  cbn [quiet] in Hq'. unfold wanted in Hq'. destruct (te_disabled e); cbn [andb negb] in *; [auto|].
  destruct (Z.eqb_spec (Z.land (te_type e) (Z.lor TIMED_RUN_EVENT TIMED_END_EVENT)) 0) as [Hm|Hm]; [|done].
  destruct (Z.eqb_spec (Z.land (te_type e) TIMED_RUN_EVENT) 0) as [Hr|Hr]; cbn [negb] in Hq'; [auto|].
  destruct Hr. rewrite Z.land_lor_distr_r in Hm. by apply Z.lor_eq_0_iff in Hm as [? _].
Qed.

Lemma init_enabled (te : list timed_event) (mask : Z) :
  match find_init_timed_event te true mask with [] => True | e :: _ => te_disabled e = false end.
Proof.
  induction te as [|e te IH]; [done|]. cbn. destruct (te_disabled e) eqn:E; cbn; [done|].
  by destruct (Z.land _ _ =? 0).
Qed.

Lemma track_same (f : limcounts -> limcounts -> option (limcounts * limcounts)) (t : tracked) :
  (forall c m, exists c', f c m = Some (c', m)) ->
  exists t', track f t = Some t' /\ option_map snd t' = option_map snd t.
Proof.
  intros Hf. destruct t as [[c m]|]; cbn; [|eauto]. destruct (Hf c m) as (c' & ->). cbn. eauto.
Qed.

Lemma one_event_same qi (rr : resource_resv) (te : timed_event) (svr que : tracked) :
  te_type te <> TIMED_RUN_EVENT -> exists svr' que', one_event qi rr te svr que = Some (svr', que') /\
    option_map snd svr' = option_map snd svr /\ option_map snd que' = option_map snd que.
Proof.
  intros Ht. unfold one_event. destruct (te_ptr te) as [tr|]; [|eauto].
  destruct (negb _ && _); [|eauto]. cbn zeta. rewrite (proj2 (Z.eqb_neq _ _) Ht).
  set (step := if _ =? _ then _ else _).
  assert (forall c m, exists c', step c m = Some (c', m)) as Hstep.
  { intros c m. subst step. destruct (_ =? _); eauto. }
  destruct (track_same step svr Hstep) as (s & -> & Hs). cbn [mbind option_bind].
  case_bool_decide; cbn [mbind option_bind]; [|eauto].
  destruct (track_same step que Hstep) as (q & -> & Hq). cbn. eauto.
Qed.

Lemma quiet_loop (fuel : nat) qi (rr : resource_resv) (end_ : Z) : forall te svr que,
  quiet end_ te -> exists svr' que',
    event_loop fuel qi rr end_
      (find_init_timed_event te true (Z.lor TIMED_RUN_EVENT TIMED_END_EVENT)) svr que = Some (svr', que') /\
    option_map snd svr' = option_map snd svr /\ option_map snd que' = option_map snd que.
Proof.
  induction fuel as [|fuel IH]; intros te svr que Hq; cbn [event_loop]; [eauto|].
  pose proof (init_enabled te (Z.lor TIMED_RUN_EVENT TIMED_END_EVENT)) as He. apply quiet_init in Hq.
  destruct (find_init_timed_event te true _) as [|e r]; [eauto|].
  destruct (Z.ltb_spec (te_time e) end_) as [Ht|Ht]; [|eauto].
  cbn [quiet] in Hq. unfold wanted in Hq. rewrite He in Hq. cbn [andb negb] in Hq.
  destruct (Z.land (te_type e) TIMED_RUN_EVENT =? 0) eqn:Hr; cbn [negb] in Hq; [|lia].
  assert (te_type e <> TIMED_RUN_EVENT) as Hty by (intros Hty; by rewrite Hty in Hr).
  destruct (one_event_same qi rr e svr que Hty) as (s & q & -> & Hs & Hqm).
  cbn [mbind option_bind fst snd find_next_timed_event].
  destruct (IH r s q Hq) as (svr' & que' & He' & Hs' & Hq'). exists svr', que'.
  by rewrite Hs', Hq'.
Qed.

Section Covers.
Context (si : server_info I) (qi : queue_info I) (rr : resource_resv) (cal : list timed_event).
Let end_ := si_server_time si + job_time_left si rr.
Hypothesis (Hlen : Z.of_nat (length cal) < 2 ^ 29).
Hypothesis (Hs : startable (Z.of_nat (S (length cal))) (si_counts si))
  (Hq : startable (Z.of_nat (S (length cal))) (qi_counts qi)).

(** The maximum at the end of the replay covers the counts after any number of
    its events. *)
Lemma replay_covers (s q : tracked) (j : nat) :
  replay (S (length cal)) si qi rr end_ cal = Some (s, q) ->
  in_range (option_map snd s) /\ in_range (option_map snd q) /\
  exists svr que, replay j si qi rr end_ cal = Some (svr, que) /\
    covered svr (option_map snd s) /\ covered que (option_map snd q).
Proof.
  intros E. unfold replay in *.
  pose proof (replayed_length cal) as Hrl. set (k := Z.of_nat (S (length cal))) in *.
  assert (exists j', (j' <= S (length cal))%nat /\ forall svr que,
    event_loop j qi rr end_ (replayed_events cal) svr que
    = event_loop j' qi rr end_ (replayed_events cal) svr que) as (j' & Hj & He).
  { destruct (decide (j <= S (length cal))%nat) as [Hj|Hj]; [by exists j|].
    exists (S (length cal)). split; [done|]. intros svr que. apply event_loop_fuel; lia. }
  rewrite He.
  destruct (event_loop_good _ _ _ _ _ _ _ _ _ j'
      (start_good k (si_has_hard_limit si) (si_counts si) ltac:(lia) Hs)
      (start_good k (qi_has_hard_limit qi) (qi_counts qi) ltac:(lia) Hq) E Hj)
    as ([Gs _] & [Gq _] & H).
  split_and!; [by apply good_in_range..|done].
Qed.

Lemma calendar_covers (flags : Z) (sm qm : option limcounts) (j : nat) :
  si_calendar si = Some cal -> has_flag flags CHECK_CUMULATIVE_LIMIT = false ->
  exists_run_event (Some cal) end_ = true ->
  calendar_counts si qi rr flags = Some (sm, qm) ->
  in_range sm /\ in_range qm /\
  exists svr que, replay j si qi rr end_ cal = Some (svr, que) /\ covered svr sm /\ covered que qm.
Proof.
  intros Hc Hf Hr. unfold calendar_counts. rewrite Hc, Hf. fold end_. rewrite Hr.
  destruct (replay (S (length cal)) si qi rr end_ cal) as [[s q]|] eqn:E;
    cbn [mbind option_bind fst snd]; [|done].
  intros [= <- <-]. by apply replay_covers.
Qed.

(** Without a job that starts before the end, the counts at the start cover all. *)
Lemma quiet_covers (j : nat) : quiet end_ cal ->
  exists svr que, replay j si qi rr end_ cal = Some (svr, que) /\
    (forall c m, svr = Some (c, m) -> below c (make_limcounts (si_counts si))) /\
    (forall c m, que = Some (c, m) -> below c (make_limcounts (qi_counts qi))).
Proof.
  intros Hqt.
  destruct (quiet_loop (S (length cal)) qi rr end_ cal (start (si_has_hard_limit si) (si_counts si))
    (start (qi_has_hard_limit qi) (qi_counts qi)) Hqt) as (s & q & He & Ms & Mq).
  destruct (replay_covers s q j He) as (_ & _ & svr & que & Hj & Cs & Cq).
  exists svr, que. split; [done|]. rewrite Ms in Cs. rewrite Mq in Cq.
  split; intros c m ->; unfold start in *.
  - by destruct (si_has_hard_limit si).
  - by destruct (qi_has_hard_limit qi).
Qed.

End Covers.

(** The counts a job is checked against cover the whole time it would run:
    when the calendar has a run event before the end of the job, the counts
    that [check_limits] keeps for the server and for the queue are, for every
    user, group, project and for all jobs, at least the number of running jobs
    after any number [j] of the events it replays. *)
Theorem calendar_counts_peak (si : server_info I) (qi : queue_info I) (rr : resource_resv)
    (flags : Z) (cal : list timed_event) (sm qm : option limcounts) (j : nat) :
  let end_ := si_server_time si + job_time_left si rr in
  si_calendar si = Some cal -> Z.of_nat (length cal) < 2 ^ 29 ->
  startable (Z.of_nat (S (length cal))) (si_counts si) ->
  startable (Z.of_nat (S (length cal))) (qi_counts qi) ->
  has_flag flags CHECK_CUMULATIVE_LIMIT = false -> exists_run_event (Some cal) end_ = true ->
  calendar_counts si qi rr flags = Some (sm, qm) ->
  exists svr que, replay j si qi rr end_ cal = Some (svr, que) /\ covered svr sm /\ covered que qm.
Proof. intros end_ Hc Hlen Hs Hq Hf Hr Hcc. by eapply calendar_covers. Qed.

(** A replay of jobs that name their user, group and project fails only when
    the server, or the queue, has no overall counts. *)
Definition entity_job (te : timed_event) : Prop :=
  match te_ptr te with
  | Some rr => rr_user rr <> None /\ rr_group rr <> None /\ rr_project rr <> None
  | None => True
  end.

Definition has_all (t : tracked) : Prop :=
  match t with Some (c, _) => lc_all c <> [] | None => True end.

Lemma counts_max_ne (max new : list counts) : new <> [] -> counts_max max new <> [].
Proof.
  intros Hn. destruct new as [|c new]; [done|]. destruct max as [|m max]; [done|].
  cbn [counts_max]. intros He.
  assert (forall new added cmax, added <> [] \/ cmax <> [] -> max_loop new added cmax <> []) as Hl.
  { clear. induction new as [|c new IH]; intros added cmax Hne; cbn [max_loop].
    - destruct added; [|done]. by destruct Hne.
    - destruct (find_counts cmax (ct_name c)) as [[i m]|]; [|apply IH; by left].
      apply IH. destruct Hne as [?|Hne]; [by left|right]. by destruct cmax, i. }
  revert He. apply Hl. by right.
Qed.

Lemma run_named_some (cts max : list counts) (name : option cstring) (req : list resource_req) :
  name <> None -> run_named cts max name req <> None.
Proof.
  intros Hn. destruct name as [n|]; [|done]. unfold run_named.
  assert (exists l i, find_alloc_counts cts (Some n) = Some (l, i) /\ (i < length l)%nat)
    as (l & i & -> & Hi).
  { destruct (alloc_alter_look id cts n n (fun _ => eq_refl)) as (l & i & He & (c & Hc & _) & _).
    exists l, i. split; [done|]. by apply lookup_lt_Some in Hc. }
  set (f := fun c => update_counts_on_run c req).
  destruct (counts_max max (drop i (alter f i l))) eqn:E; [|done].
  exfalso. revert E. apply counts_max_ne. intros Hd. apply (f_equal length) in Hd.
  rewrite length_drop, length_alter in Hd. cbn in Hd. lia.
Qed.

Lemma run_all_some (cts max : list counts) (req : list resource_req) :
  cts <> [] -> exists m, run_all cts max req = Some (update_first update_counts_on_run cts req, m).
Proof.
  intros Hc. unfold run_all.
  destruct (counts_max max (update_first update_counts_on_run cts req)) eqn:E; [|eauto].
  exfalso. revert E. apply counts_max_ne. by destruct cts.
Qed.

Lemma run_event_some (c m : limcounts) (rr : resource_resv) :
  rr_user rr <> None -> rr_group rr <> None -> rr_project rr <> None -> lc_all c <> [] ->
  exists c' m', run_event c m rr = Some (c', m') /\ lc_all c' <> [].
Proof.
  intros Hu Hg Hp Ha. unfold run_event.
  destruct (run_named (lc_user c) _ _ _) as [[cu mu]|] eqn:Eu; [|by apply run_named_some in Eu].
  destruct (run_named (lc_group c) _ _ _) as [[cg mg]|] eqn:Eg; [|by apply run_named_some in Eg].
  destruct (run_named (lc_project c) _ _ _) as [[cp mp]|] eqn:Ep; [|by apply run_named_some in Ep].
  destruct (run_all_some (lc_all c) (lc_all m) (rr_resreq rr) Ha) as (ma & ->). cbn.
  eexists _, _. split; [done|]. cbn. by destruct (lc_all c).
Qed.

Lemma track_some (f : limcounts -> limcounts -> option (limcounts * limcounts)) (t : tracked) :
  (forall c m, lc_all c <> [] -> exists c' m', f c m = Some (c', m') /\ lc_all c' <> []) ->
  has_all t -> exists t', track f t = Some t' /\ has_all t'.
Proof.
  intros Hf Ht. destruct t as [[c m]|]; cbn; [|eauto].
  destruct (Hf c m Ht) as (c' & m' & -> & Hc'). cbn. eauto.
Qed.

Lemma one_event_some qi (rr : resource_resv) (te : timed_event) (svr que : tracked) :
  entity_job te -> has_all svr -> has_all que ->
  exists svr' que', one_event qi rr te svr que = Some (svr', que') /\ has_all svr' /\ has_all que'.
Proof.
  intros He Hs Hq. unfold one_event, entity_job in *. destruct (te_ptr te) as [tr|]; [|eauto].
  destruct (negb _ && _); [|eauto]. cbn zeta. set (step := if _ =? _ then _ else _).
  assert (forall c m, lc_all c <> [] ->
            exists c' m', step c m = Some (c', m') /\ lc_all c' <> []) as Hstep.
  { intros c m Ha. subst step. destruct (te_type te =? TIMED_RUN_EVENT).
    { destruct He as (? & ? & ?). by apply run_event_some. }
    destruct (te_type te =? TIMED_END_EVENT); eexists _, _; (split; [done|]); [|done].
    cbn. by destruct (lc_all c). }
  destruct (track_some step svr Hstep Hs) as (s & -> & Hs'). cbn [mbind option_bind].
  case_bool_decide; cbn [mbind option_bind]; [|eauto].
  destruct (track_some step que Hstep Hq) as (q & -> & Hq'). cbn. eauto.
Qed.

Lemma event_loop_some (fuel : nat) qi (rr : resource_resv) (end_ : Z) : forall te svr que,
  Forall entity_job te -> has_all svr -> has_all que ->
  exists r, event_loop fuel qi rr end_ te svr que = Some r.
Proof.
  induction fuel as [|fuel IH]; intros te svr que He Hs Hq; cbn [event_loop]; [eauto|].
  destruct te as [|e te]; [eauto|]. destruct (te_time e <? end_); [|eauto].
  apply Forall_cons in He as [He Hte].
  destruct (one_event_some qi rr e svr que He Hs Hq) as (s & q & -> & Hs' & Hq').
  cbn [mbind option_bind fst snd]. apply IH; [|done|done]. cbn [find_next_timed_event].
  clear -Hte. induction Hte as [|e' te He' Hte IH]; cbn; [by apply Forall_nil_2|].
  destruct (te_disabled e'); [done|]. destruct (_ =? 0); [done|]. by apply Forall_cons_2.
Qed.

End Replay.

(** ** Concrete servers *)

(** At most [n] jobs for a user, a user's run limit key being that of everyone *)
Definition one_limit (n : cstring) : limit_info (ListIndex.t cstring) :=
  LimitInfo (fst (entlim_add (entlim_mk_runkey LIM_USER PBS_GENERIC_ENTITY) n
               entlim_initialize_ctx)) entlim_initialize_ctx.

Definition with_addr (a : Z) (rr : resource_resv) : resource_resv :=
  {| rr_addr := a; rr_name := rr_name rr; rr_is_job := rr_is_job rr; rr_is_resv := rr_is_resv rr;
     rr_user := rr_user rr; rr_group := rr_group rr; rr_project := rr_project rr;
     rr_duration := rr_duration rr; rr_hard_duration := rr_hard_duration rr;
     rr_resreq := rr_resreq rr; rr_queue := rr_queue rr; rr_used_walltime := rr_used_walltime rr;
     rr_start := rr_start rr; rr_end := rr_end rr; rr_min_duration := rr_min_duration rr |}.

(** A server with that limit; another job of the same user starts at time 10. *)
Definition busy_server (n : cstring) (c : limcounts) (cal : option (list timed_event))
  : server_info (ListIndex.t cstring) :=
  {| si_has_hard_limit := true; si_has_soft_limit := false; si_liminfo := one_limit n;
     si_sc_running := 0; si_counts := c; si_total := no_counts; si_running_jobs := [];
     si_calendar := cal; si_server_time := 0; si_queues := [] |}.

Definition other_starts : list timed_event :=
  [TimedEvent false TIMED_RUN_EVENT 10 (Some (with_addr 8 (job_ncpus 1)))].

Definition plain_queue : queue_info (ListIndex.t cstring) :=
  {| qi_addr := 1; qi_name := lit "workq"; qi_has_hard_limit := false; qi_has_soft_limit := false;
     qi_liminfo := LimitInfo entlim_initialize_ctx entlim_initialize_ctx; qi_sc_running := 0;
     qi_counts := no_counts; qi_total := no_counts; qi_running_jobs := [];
     qi_is_started := true; qi_is_exec := true; qi_is_ded_queue := false;
     qi_is_prime_queue := false; qi_is_nonprime_queue := false |}.

(** One running job of the user, counted for all jobs too *)
Definition one_running : limcounts :=
  LimCounts [{| ct_name := Some (lit "bob"); ct_running := 1; ct_rescts := [] |}] [] []
    [{| ct_name := all_name; ct_running := 1; ct_rescts := [] |}].

(** When nothing runs, a server has no overall counts, and the first run event
    of the replay takes the maximum of two NULL lists for a failure:
    [check_limits] returns 0 and no limit is checked.  With a limit of no job
    at all the job is refused without the event, and let through with it. *)
Lemma run_event_skips_limits :
  check_limits [] (Some (busy_server (lit "0") no_counts (Some []))) (Some plain_queue)
    (Some (job_ncpus 1)) new_schd_error CHECK_LIMIT
  = Some (SERVER_USER_LIMIT_REACHED,
          [SchdErr SERVER_USER_LIMIT_REACHED NOT_RUN None None None]) /\
  check_limits [] (Some (busy_server (lit "0") no_counts (Some other_starts))) (Some plain_queue)
    (Some (job_ncpus 1)) new_schd_error CHECK_LIMIT
  = Some (0, [new_schd_error]).
Proof. split; vm_compute; reflexivity. Qed.

(** With overall counts in place the other job is counted: of a limit of two,
    one runs and one will start. *)
Example run_event_counts :
  option_map fst (check_limits [] (Some (busy_server (lit "2") one_running (Some other_starts)))
    (Some plain_queue) (Some (job_ncpus 1)) new_schd_error CHECK_LIMIT)
  = Some SERVER_USER_LIMIT_REACHED.
Proof. vm_compute. reflexivity. Qed.

Lemma no_counts_startable (k : Z) : startable k no_counts.
Proof.
  intros l Hl. assert (l = []) as -> by (by destruct Hl as [->|[->|[->| ->]]]).
  split; [|done]. split; [apply NoDup_nil_2|by apply Forall_nil_2].
Qed.

Lemma one_startable (k : Z) (n : cstring) :
  k < 2 ^ 30 -> let l := [{| ct_name := Some n; ct_running := 1; ct_rescts := [] |}] in
  named l /\ room k l.
Proof.
  intros Hk l. split.
  - split; [apply NoDup_singleton|by apply Forall_cons_2; [|apply Forall_nil_2]].
  - intros m a. unfold run_of. unfold look. cbn. destruct (streq n m); [|done]. intros [= <-].
    cbn. unfold INT_MIN, INT_MAX. lia.
Qed.

Lemma calendar_counts_peak_witness :
  exists svr que,
    replay 1 (busy_server (lit "2") one_running (Some other_starts)) plain_queue (job_ncpus 1) 60
      other_starts = Some (svr, que) /\
    covered svr (option_map snd (fst (default (None, None)
      (replay 2 (busy_server (lit "2") one_running (Some other_starts)) plain_queue (job_ncpus 1) 60
         other_starts)))) /\ covered que None.
Proof.
  assert (startable 2 one_running) as Hs.
  { intros l Hl. destruct (one_startable 2 (lit "bob") ltac:(lia)).
    destruct (one_startable 2 (lit "o:PBS_ALL") ltac:(lia)).
    destruct (no_counts_startable 2 [] ltac:(auto)).
    by destruct Hl as [->|[->|[->| ->]]]. }
  exact (calendar_counts_peak (busy_server (lit "2") one_running (Some other_starts)) plain_queue
           (job_ncpus 1) CHECK_LIMIT other_starts _ _ 1 eq_refl ltac:(done) Hs
           (no_counts_startable 2) ltac:(vm_compute; reflexivity) ltac:(vm_compute; reflexivity)
           ltac:(vm_compute; reflexivity)).
Defined.

(** The replay goes through: a server (and its queue) with overall counts,
    and a calendar of jobs that name their user, group and project, give
    largest counts to check against, so [check_limits] does check the limits. *)
Lemma calendar_counts_some {I : Type} (si : server_info I) (qi : queue_info I)
    (rr : resource_resv) (flags : Z) (cal : list timed_event) :
  si_calendar si = Some cal -> Forall entity_job (replayed_events cal) ->
  (si_has_hard_limit si = true -> lc_all (si_counts si) <> []) ->
  (qi_has_hard_limit qi = true -> lc_all (qi_counts qi) <> []) ->
  exists sm qm, calendar_counts si qi rr flags = Some (sm, qm).
Proof.
  intros Hc Hj Hs Hq. unfold calendar_counts. rewrite Hc.
  destruct (has_flag flags CHECK_CUMULATIVE_LIMIT); [eauto|].
  destruct (exists_run_event _ _); [|eauto]. unfold replay.
  assert (forall hard c, (hard = true -> lc_all c <> []) -> has_all (start hard c)) as Hst.
  { intros [] c Hne; [|done]. cbn. specialize (Hne eq_refl). by destruct (lc_all c). }
  destruct (event_loop_some (S (length cal)) qi rr (si_server_time si + job_time_left si rr) _ _ _
    Hj (Hst (si_has_hard_limit si) _ Hs) (Hst (qi_has_hard_limit qi) _ Hq)) as ([s q] & ->).
  cbn. eauto.
Qed.

Lemma calendar_counts_some_witness :
  exists sm qm,
    calendar_counts (busy_server (lit "2") one_running (Some other_starts))
      plain_queue (job_ncpus 1) CHECK_LIMIT = Some (sm, qm).
Proof.
  apply (calendar_counts_some (busy_server (lit "2") one_running (Some other_starts)) plain_queue
    (job_ncpus 1) CHECK_LIMIT other_starts); try done.
  by apply Forall_cons_2; [|apply Forall_nil_2].
Defined.

End LimitPeak.
