(* ===== verification/LimitProps.v ===== *)
(** * What the limit checks guarantee

    The value of a limit as the text that was set, the verdict of the checks of
    an entity, the jobs [check_limits] lets through, and the two ways in which
    it reports failures. *)

From Stdlib Require Import ZArith Lia Ascii String SpecFloat.
From S2P Require Import Prelude Doubles ResNum Index Entlim SchedData Counts.
From S2P Require Import LimitSet LimitCheck LimitPeak SchedData.
Import Double ResNum Entlim Data ReqList Counts Calendar LimitSet LimitCheck LimitPeak.

Module LimitProps.

(** ** The value of a limit *)

Section Limits.
Context {I : Type} `{Index I cstring}.
Implicit Types (ctx : I).

(** A run limit as a number, [None] when it is not set *)
Definition run_limit (key : cstring) ctx : option Z :=
  let m := run_max key ctx in if m =? SCHD_INFINITY then None else Some m.

(** The limit that applies to an entity: its own, else the generic one *)
Definition applicable (kt : lim_keytypes) (name : cstring) ctx : option Z :=
  match run_limit (entlim_mk_runkey kt name) ctx with
  | Some n => Some n
  | None => run_limit (entlim_mk_runkey kt genparam) ctx
  end.

(** The number of jobs a name runs *)
Definition running (cts : list counts) (name : cstring) : Z := default 0 (run_of cts name).

Definition counts_in_range (cts : list counts) : Prop :=
  forall n a, run_of cts n = Some a -> in_int a.

Lemma run_elm (cts : list counts) (name : cstring) :
  counts_in_range cts ->
  int_of_dbl (find_counts_elm cts (Some name) None) = running cts name.
Proof.
  intros Hr. specialize (Hr name). unfold find_counts_elm, running, run_of, look in *. cbn [find_counts].
  destruct (find_name cts name) as [[i c]|]; cbn in *.
  - apply int_of_dbl_exact. by apply Hr.
  - done.
Qed.

(** A run limit set to the text of a number in the range of [int] is that
    number, with the unit the text gives; a limit that is not set is none. *)
Theorem run_limit_text (key : cstring) ctx (n m : Z) (unit : cstring) :
  0 <= n -> unit_of unit = Some m -> n * m <= INT_MAX ->
  (entlim_get key ctx = None -> run_limit key ctx = None) /\
  (entlim_get key ctx = Some (dec_nat n ++ unit) -> run_limit key ctx = Some (n * m)).
Proof.
  intros Hn Hu Hm. assert (0 < m) as Hpos.
  { revert Hu. unfold unit_of. repeat case_bool_decide; intros [= <-]; lia. }
  unfold run_limit, run_max, lim_get. split; intros ->.
  - by rewrite int_of_dbl_exact.
  - rewrite (res_to_num_unit_eq n m unit) by (unfold INT_MAX in *; lia || done).
    rewrite int_of_dbl_exact by (unfold in_int, INT_MIN; nia).
    destruct (Z.eqb_spec (n * m) SCHD_INFINITY) as [He|]; [|done]. unfold SCHD_INFINITY in He. nia.
Qed.

(** The check of an entity's run limit uses its own limit when it has one,
    else the generic limit, and fails exactly when the entity runs that many
    jobs; without either it passes. *)
Theorem entity_run_spec (kt : lim_keytypes) (name : cstring) (cts : list counts) ctx :
  counts_in_range cts ->
  entity_run kt name cts ctx =
    match run_limit (entlim_mk_runkey kt name) ctx, run_limit (entlim_mk_runkey kt genparam) ctx with
    | Some own, _ => if own <=? running cts name then OverOwn else Within
    | None, Some gen => if gen <=? running cts name then OverGeneric else Within
    | None, None => Within
    end.
Proof.
  intros Hr. unfold entity_run, run_limit. rewrite run_elm by done.
  destruct (run_max (entlim_mk_runkey kt name) ctx =? SCHD_INFINITY); cbn [negb andb].
  - by destruct (run_max (entlim_mk_runkey kt genparam) ctx =? SCHD_INFINITY).
  - done.
Qed.

(** ** Resource limits on whole amounts *)

(** An amount that is a whole number, as those of jobs and limits are *)
Definition whole (d : double) : Prop := exists z, d = dbl_of_Z z /\ - 2 ^ 51 <= z <= 2 ^ 51.
Definition amt (d : double) : Z := default 0 (dbl_trunc d).

Lemma whole_amt (d : double) : whole d -> d = dbl_of_Z (amt d) /\ - 2 ^ 51 <= amt d <= 2 ^ 51.
Proof.
  intros (z & -> & Hz). unfold amt. rewrite dbl_trunc_exact by (unfold exact; lia). done.
Qed.

Lemma whole_gtb (a b m : double) :
  whole a -> whole b -> whole m -> dbl_gtb (dbl_add a b) m = (amt m <? amt a + amt b).
Proof.
  intros Ha Hb Hm. apply whole_amt in Ha as [Ea Ha], Hb as [Eb Hb], Hm as [Em Hm].
  rewrite Ea, Eb, Em at 1. rewrite dbl_add_exact by (unfold exact; lia).
  apply dbl_gtb_exact; unfold exact; lia.
Qed.

(** The limit on a resource that applies to an entity *)
Definition res_applicable (kt : lim_keytypes) (name : cstring) (genkey : cstring -> cstring)
    (res : cstring) ctx : option double :=
  let own := lim_get (entlim_mk_reskey kt name res) ctx in
  let gen := lim_get (genkey res) ctx in
  if negb (unset own) then Some own else if negb (unset gen) then Some gen else None.

Section Amounts.
Context (kt : lim_keytypes) (genkey : cstring -> cstring) (name : cstring) (rr : resource_resv)
  (cts : list counts) (ctx : I).

Definition used_amount (res : schd_resource) : double :=
  find_counts_elm cts (Some name) (Some (res_name res)).

(** The job asks for more of the resource than is left. *)
Definition exceeds (res : schd_resource) : Prop :=
  exists i req lim, find_resource_req (rr_resreq rr) (res_def res) = Some (i, req) /\
    res_applicable kt name genkey (res_name res) ctx = Some lim /\
    amt lim < amt (used_amount res) + amt (rq_amount req).

Definition whole_amounts (res : schd_resource) : Prop :=
  forall i req, find_resource_req (rr_resreq rr) (res_def res) = Some (i, req) ->
  whole (rq_amount req) /\ whole (used_amount res) /\
  forall lim, res_applicable kt name genkey (res_name res) ctx = Some lim -> whole lim.

(** C37. The resource limits of an entity pass exactly when no limited resource
    is asked for beyond what the limit that applies leaves; when they fail, the
    resource reported is one that is. *)
Theorem entity_res_spec (l : list schd_resource) :
  Forall whole_amounts l ->
  exists v r, entity_res l kt genkey (Some name) rr cts ctx = Some (v, r) /\
    (v = Within <-> Forall (fun res => ~ exceeds res) l) /\
    (v <> Within -> exists res, res ∈ l /\ exceeds res /\ r = Some (res_name res)).
Proof.
  intros Hw. induction Hw as [|res l Hres _ (v & r & He & Hv & Hr)]; cbn [entity_res].
  { exists Within, None. split_and!; [done|by split|done]. }
  assert (forall v' r', ~ exceeds res -> v' = v -> r' = r ->
    (v' = Within <-> Forall (fun res => ~ exceeds res) (res :: l)) /\
    (v' <> Within -> exists res', res' ∈ res :: l /\ exceeds res' /\ r' = Some (res_name res')))
    as Hnext.
  { intros v' r' Hx -> ->. rewrite Forall_cons. split; [tauto|]. intros Hne.
    destruct (Hr Hne) as (res' & Hin & Hx' & ->). exists res'. split; [by right|done]. }
  assert (forall v', exceeds res -> v' <> Within ->
    (v' = Within <-> Forall (fun res => ~ exceeds res) (res :: l)) /\
    (v' <> Within -> exists res', res' ∈ res :: l /\ exceeds res' /\
       Some (res_name res) = Some (res_name res'))) as Hover.
  { intros v' Hx Hne. rewrite Forall_cons. split; [tauto|]. intros _. exists res.
    split; [by left|done]. }
  unfold exceeds at 1 3 in Hnext. unfold exceeds at 1 3 in Hover. unfold whole_amounts in Hres.
  destruct (find_resource_req (rr_resreq rr) (res_def res)) as [[i req]|] eqn:Ef.
  2: { exists v, r. split; [done|]. apply Hnext; try done. by intros (? & ? & ? & ? & _). }
  destruct (Hres i req eq_refl) as (Wa & Wu & Wl).
  unfold res_applicable in Wl, Hnext, Hover. cbn [mbind option_bind].
  fold (used_amount res).
  set (own := lim_get (entlim_mk_reskey kt name (res_name res)) ctx) in *.
  set (gen := lim_get (genkey (res_name res)) ctx) in *.
  destruct (unset own) eqn:Eo, (unset gen) eqn:Eg; cbn [negb andb] in *.
  1: { exists v, r. split; [done|]. apply Hnext; try done. by intros (? & ? & ? & ? & ? & _). }
  all: rewrite whole_gtb by auto.
  all: match goal with |- context [?a <? ?b] => destruct (Z.ltb_spec a b) as [Hlt|Hle] end.
  all: first
    [ eexists _, _; split; [reflexivity|]; apply Hover; [|done]; exists i, req; eexists; done
    | exists v, r; split; [done|]; apply Hnext; try done;
      intros (? & ? & ? & [= <- <-] & [= <-] & Hx); lia ].
Qed.

End Amounts.

(** ** The table of the hard limits *)

Variable limres : list schd_resource.
Implicit Types (si : server_info I) (qi : queue_info I).

(** A check that passes leaves the error structure alone. *)
Definition pure (f : limfunc_t (I := I)) : Prop :=
  forall (si : option (server_info I)) (qi : option (queue_info I)) rr sc qc err err',
  f si qi rr sc qc err = Some (0, err') -> err' = err.

Lemma limfuncs_pure : Forall pure (limfuncs limres).
Proof.
  unfold limfuncs. repeat apply Forall_cons_2; try apply Forall_nil_2.
  all: intros si qi rr sc qc err err'.
  all: unfold check_queue_max_group_run, check_queue_max_project_run, check_queue_max_run,
    check_queue_max_user_run, check_server_max_group_run, check_server_max_project_run,
    check_server_max_run, check_server_max_user_run, check_queue_max_group_res,
    check_queue_max_project_res, check_queue_max_res, check_queue_max_user_res,
    check_server_max_group_res, check_server_max_project_res, check_server_max_res,
    check_server_max_user_res.
  all: repeat first
    [ progress (intros [= <-]); done
    | done
    | match goal with
      | |- (r ← ?x; _) = _ -> _ => destruct x as [[[] ?]|]; cbn [mbind option_bind]
      | |- match ?x with _ => _ end = _ -> _ => destruct x
      | |- (if ?x then _ else _) = _ -> _ => destruct x
      end ].
Qed.

(** What a check adds to the errors of a job *)
Definition failure (f : limfunc_t) (si : server_info I) (qi : queue_info I) (rr : resource_resv)
    (sc qc : option limcounts) : option schd_error :=
  match f (Some si) (Some qi) rr sc qc new_schd_error with
  | Some (rc, err) => if rc =? 0 then None else Some (set_schd_error_codes err NOT_RUN rc)
  | None => None
  end.

Definition first_code (errs : list schd_error) : Z :=
  match errs with [] => 0 | e :: _ => err_code e end.

(** The loop that goes on collects the failures of all checks, in the order of
    the table. *)
Lemma run_every_spec (fs : list limfunc_t) si qi rr sc qc : forall rc0 errs rc errs' last,
  Forall pure fs ->
  run_every fs si qi rr sc qc rc0 errs new_schd_error = Some (rc, errs', last) ->
  errs' = errs ++ omap (fun f => failure f si qi rr sc qc) fs /\ last = new_schd_error /\
  rc = (if rc0 =? 0 then first_code (omap (fun f => failure f si qi rr sc qc) fs) else rc0).
Proof.
  induction fs as [|f fs IH]; intros rc0 errs rc errs' last Hp; cbn [run_every omap list_omap].
  { intros [= <- <- <-]. rewrite app_nil_r. split_and!; [done..|].
    cbn. by destruct (Z.eqb_spec rc0 0). }
  apply Forall_cons in Hp as [Hf Hp].
  destruct (f (Some si) (Some qi) rr sc qc new_schd_error) as [[rcf e]|] eqn:Ef;
    cbn [mbind option_bind]; [|done].
  assert (failure f si qi rr sc qc
    = if rcf =? 0 then None else Some (set_schd_error_codes e NOT_RUN rcf)) as ->
    by (unfold failure; by rewrite Ef).
  destruct (Z.eqb_spec rcf 0) as [->|Hne].
  - rewrite (Hf _ _ _ _ _ _ _ Ef). apply IH. done.
  - intros Hr. apply IH in Hr as (-> & -> & ->); [|done]. rewrite <-app_assoc.
    split_and!; [done..|]. cbn. destruct (Z.eqb_spec rc0 0) as [->|]; [|by rewrite (proj2 (Z.eqb_neq rc0 0))].
    by rewrite (proj2 (Z.eqb_neq rcf 0)).
Qed.

(** The loop that stops reports the first of the same failures. *)
Lemma run_first_spec (fs : list limfunc_t) si qi rr sc qc : forall rc errs,
  Forall pure fs ->
  (exists rc0 errs0 r, run_every fs si qi rr sc qc rc0 errs0 new_schd_error = Some r) ->
  errs = omap (fun f => failure f si qi rr sc qc) fs -> rc = first_code errs ->
  run_first fs si qi rr sc qc new_schd_error = Some (rc, default new_schd_error (head errs)).
Proof.
  induction fs as [|f fs IH]; intros rc errs Hp (rc0 & errs0 & r & Hr);
    cbn [run_every run_first omap list_omap] in *; [by intros -> ->|].
  apply Forall_cons in Hp as [Hf Hp].
  destruct (f (Some si) (Some qi) rr sc qc new_schd_error) as [[rcf e]|] eqn:Ef;
    cbn [mbind option_bind] in *; [|done].
  assert (failure f si qi rr sc qc
    = if rcf =? 0 then None else Some (set_schd_error_codes e NOT_RUN rcf)) as ->
    by (unfold failure; by rewrite Ef).
  destruct (Z.eqb_spec rcf 0) as [->|Hne].
  - rewrite (Hf _ _ _ _ _ _ _ Ef) in *. intros -> ->. apply IH; [done|by eauto|done..].
  - intros -> ->. done.
Qed.

(** Asking [check_limits] for all errors does not change its verdict: the
    errors are those of all failed checks in the order of the table, the code
    returned is that of the first, and without the flag it returns the same
    code with that first error alone. *)
Theorem return_all_errors si qi rr (flags rc : Z) (errs : list schd_error)
    (max : option limcounts * option limcounts) (sc qc : option limcounts) :
  has_flag flags RETURN_ALL_ERR = false ->
  calendar_counts si qi rr flags = Some max -> limit_counts si qi flags max = Some (sc, qc) ->
  check_limits limres (Some si) (Some qi) (Some rr) new_schd_error (Z.lor flags RETURN_ALL_ERR)
    = Some (rc, errs) ->
  let failed := omap (fun f => failure f si qi rr sc qc) (limfuncs limres) in
  rc = first_code failed /\ errs = (match failed with [] => [new_schd_error] | _ => failed end) /\
  check_limits limres (Some si) (Some qi) (Some rr) new_schd_error flags
    = Some (rc, [default new_schd_error (head failed)]).
Proof.
  intros Hf Hc Hl. unfold check_limits. pose proof limfuncs_pure as Hp.
  set (fs := limfuncs limres) in *. clearbody fs.
  assert (forall b, b <> RETURN_ALL_ERR -> 0 <= b -> Z.land b RETURN_ALL_ERR = 0 ->
            has_flag (Z.lor flags RETURN_ALL_ERR) b = has_flag flags b) as Hflag.
  { intros b _ _ Hb. unfold has_flag. rewrite Z.land_lor_distr_l, (Z.land_comm RETURN_ALL_ERR b), Hb.
    by rewrite Z.lor_0_r. }
  assert (calendar_counts si qi rr (Z.lor flags RETURN_ALL_ERR) = Some max) as ->.
  { unfold calendar_counts in *. by rewrite (Hflag CHECK_CUMULATIVE_LIMIT) by done. }
  rewrite Hc. cbn [mbind option_bind].
  assert (limit_counts si qi (Z.lor flags RETURN_ALL_ERR) max = Some (sc, qc)) as ->.
  { unfold limit_counts in *.
    by rewrite (Hflag CHECK_CUMULATIVE_LIMIT), (Hflag CHECK_LIMIT) by done. }
  rewrite Hl, Hf.
  assert (has_flag (Z.lor flags RETURN_ALL_ERR) RETURN_ALL_ERR = true) as ->.
  { unfold has_flag. rewrite Z.land_lor_distr_l, Z.land_diag. apply negb_true_iff, Z.eqb_neq.
    intros He. apply Z.lor_eq_0_iff in He as [_ ?]. done. }
  destruct (run_every _ _ _ _ _ _ _ _ _) as [[[rc' errs'] last]|] eqn:Er;
    cbn [mbind option_bind]; [|done].
  pose proof (run_every_spec _ _ _ _ _ _ _ _ _ _ _ Hp Er) as (Ee & El & Erc).
  cbn in Ee, Erc. subst errs' last rc'. intros [= <- <-].
  split_and!; [done|done|].
  rewrite (run_first_spec _ _ _ _ _ _ _ _ Hp ltac:(eauto) eq_refl eq_refl). done.
Qed.

(** ** The jobs that are let through *)

(** A job that [check_limits] lets through passed every check. *)
Definition passes (f : limfunc_t) (si : server_info I) (qi : queue_info I) (rr : resource_resv)
    (sc qc : option limcounts) : Prop :=
  exists err err', f (Some si) (Some qi) rr sc qc err = Some (0, err').

Lemma run_first_passes (fs : list limfunc_t) si qi rr sc qc : forall err err',
  run_first fs si qi rr sc qc err = Some (0, err') -> Forall (fun f => passes f si qi rr sc qc) fs.
Proof.
  induction fs as [|f fs IH]; intros err err'; cbn [run_first]; [intros; by apply Forall_nil_2|].
  destruct (f (Some si) (Some qi) rr sc qc err) as [[rcf e]|] eqn:Ef; cbn [mbind option_bind]; [|done].
  destruct (Z.eqb_spec rcf 0) as [->|Hne]; [|by intros [= -> _]].
  intros Hr. apply Forall_cons_2; [by exists err, e|]. by eapply IH.
Qed.

Lemma run_every_passes (fs : list limfunc_t) si qi rr sc qc : forall rc0 errs err errs' last,
  run_every fs si qi rr sc qc rc0 errs err = Some (0, errs', last) ->
  rc0 = 0 /\ Forall (fun f => passes f si qi rr sc qc) fs.
Proof.
  induction fs as [|f fs IH]; intros rc0 errs err errs' last; cbn [run_every].
  { intros [= -> _ _]. split; [done|by apply Forall_nil_2]. }
  destruct (f (Some si) (Some qi) rr sc qc err) as [[rcf e]|] eqn:Ef; cbn [mbind option_bind]; [|done].
  destruct (Z.eqb_spec rcf 0) as [->|Hne]; intros Hr; apply IH in Hr as [Hz Hr].
  - split; [done|]. apply Forall_cons_2; [by exists err, e|done].
  - by destruct (Z.eqb_spec rc0 0).
Qed.

Lemma check_limits_passes si qi rr err (flags : Z) (errs : list schd_error)
    (max : option limcounts * option limcounts) (sc qc : option limcounts) :
  calendar_counts si qi rr flags = Some max -> limit_counts si qi flags max = Some (sc, qc) ->
  check_limits limres (Some si) (Some qi) (Some rr) err flags = Some (0, errs) ->
  Forall (fun f => passes f si qi rr sc qc) (limfuncs limres).
Proof.
  intros Hc Hl. unfold check_limits. rewrite Hc. cbn [mbind option_bind]. rewrite Hl.
  generalize (limfuncs limres). intros fs. destruct (has_flag flags RETURN_ALL_ERR).
  - destruct (run_every _ _ _ _ _ _ _ _ _) as [[[rc' errs'] last]|] eqn:Er;
      cbn [mbind option_bind]; [|done]. intros [= -> _]. by eapply run_every_passes.
  - destruct (run_first _ _ _ _ _ _ _) as [[rc' e]|] eqn:Er; cbn; [|done].
    intros [= -> _]. by eapply run_first_passes.
Qed.

(** One more job of a name stays within a limit of at least one. *)
Definition room_for_one (limit : option Z) (cts : list counts) (name : cstring) : Prop :=
  forall lim, limit = Some lim -> 1 <= lim -> running cts name + 1 <= lim.

(** The run limits of a server or a queue leave room for the job. *)
Definition run_limits_allow (rr : resource_resv) (c : limcounts) ctx : Prop :=
  (forall n, rr_user rr = Some n -> room_for_one (applicable LIM_USER n ctx) (lc_user c) n) /\
  (forall n, rr_group rr = Some n -> room_for_one (applicable LIM_GROUP n ctx) (lc_group c) n) /\
  (forall n, rr_project rr = Some n ->
     room_for_one (applicable LIM_PROJECT n ctx) (lc_project c) n) /\
  room_for_one (run_limit (entlim_mk_runkey LIM_OVERALL allparam) ctx) (lc_all c)
    (lit "o:" ++ PBS_ALL_ENTITY).

Lemma running_peak (cts : list counts) (n : cstring) : running cts n <= peak cts n.
Proof. unfold peak, running. lia. Qed.

Lemma within_room (kt : lim_keytypes) (n : cstring) (cts max : list counts) ctx :
  counts_in_range max -> peak cts n <= peak max n ->
  entity_run kt n max ctx = Within -> room_for_one (applicable kt n ctx) cts n.
Proof.
  intros Hr Hp He lim Hl H1. pose proof (running_peak cts n).
  assert (peak max n = Z.max 0 (running max n)) as Hm by done.
  unfold applicable, entity_run in *. rewrite run_elm in He by done. unfold run_limit in *.
  destruct (run_max (entlim_mk_runkey kt n) ctx =? SCHD_INFINITY); cbn [negb andb] in *.
  - destruct (run_max (entlim_mk_runkey kt genparam) ctx =? SCHD_INFINITY); [done|].
    injection Hl as <-. destruct (Z.leb_spec (run_max (entlim_mk_runkey kt genparam) ctx) (running max n));
      [done|lia].
  - injection Hl as <-. destruct (Z.leb_spec (run_max (entlim_mk_runkey kt n) ctx) (running max n));
      [done|lia].
Qed.

Lemma overall_room (cts max : list counts) ctx :
  counts_in_range max -> peak cts (lit "o:" ++ PBS_ALL_ENTITY) <= peak max (lit "o:" ++ PBS_ALL_ENTITY) ->
  max = [] \/ overall_run max ctx = false ->
  room_for_one (run_limit (entlim_mk_runkey LIM_OVERALL allparam) ctx) cts
    (lit "o:" ++ PBS_ALL_ENTITY).
Proof.
  intros Hr Hp He lim Hl H1. pose proof (running_peak cts (lit "o:" ++ PBS_ALL_ENTITY)).
  set (n := lit "o:" ++ PBS_ALL_ENTITY) in *.
  assert (peak max n = Z.max 0 (running max n)) as Hm by done.
  destruct He as [->|He]; [cbn in *; lia|].
  unfold overall_run, all_name in He. fold n in He. rewrite run_elm in He by done.
  unfold run_limit in Hl.
  destruct (run_max (entlim_mk_runkey LIM_OVERALL allparam) ctx =? SCHD_INFINITY) eqn:E; [done|].
  injection Hl as <-. cbn [orb] in He. apply negb_false_iff in He. rewrite Z.gtb_ltb in He.
  apply Z.ltb_lt in He. lia.
Qed.

Lemma in_range_lists (m : limcounts) :
  in_range (Some m) -> counts_in_range (lc_user m) /\ counts_in_range (lc_group m) /\
                       counts_in_range (lc_project m) /\ counts_in_range (lc_all m).
Proof. cbn. intros Hm. split_and!; intros n a; apply Hm; tauto. Qed.

(** What the checks of the server and of the queue say of the counts *)
Lemma server_allows si qi rr (c m : limcounts) (qc : option limcounts) :
  below c m -> in_range (Some m) ->
  Forall (fun f => passes f si qi rr (Some m) qc) (limfuncs limres) ->
  run_limits_allow rr c (li_ctxh (si_liminfo si)).
Proof.
  intros Hb (Mu & Mg & Mp & Ma)%in_range_lists Hall. unfold limfuncs in Hall. rewrite !Forall_cons in Hall.
  destruct Hall as (_ & _ & _ & _ & Hg & Hp & Ho & Hu & _).
  split; [|split; [|split]].
  - intros n Hn. apply (within_room _ _ _ (lc_user m)); [done|apply Hb|].
    destruct Hu as (e & e' & Hu). unfold check_server_max_user_run in Hu. rewrite Hn in Hu.
    by destruct (entity_run _ _ _ _).
  - intros n Hn. apply (within_room _ _ _ (lc_group m)); [done|apply Hb|].
    destruct Hg as (e & e' & Hg). unfold check_server_max_group_run in Hg. rewrite Hn in Hg.
    by destruct (entity_run _ _ _ _).
  - intros n Hn. apply (within_room _ _ _ (lc_project m)); [done|apply Hb|].
    destruct Hp as (e & e' & Hp). unfold check_server_max_project_run in Hp. rewrite Hn in Hp.
    by destruct (entity_run _ _ _ _).
  - apply (overall_room _ (lc_all m)); [done|apply Hb|].
    destruct Ho as (e & e' & Ho). unfold check_server_max_run in Ho.
    destruct m as [mu mg mp [|q ma]]; [by left|right]. cbn [lc_all] in *.
    by destruct (overall_run _ _).
Qed.

Lemma queue_allows si qi rr (c m : limcounts) (sc : option limcounts) :
  below c m -> in_range (Some m) ->
  Forall (fun f => passes f si qi rr sc (Some m)) (limfuncs limres) ->
  run_limits_allow rr c (li_ctxh (qi_liminfo qi)).
Proof.
  intros Hb (Mu & Mg & Mp & Ma)%in_range_lists Hall. unfold limfuncs in Hall. rewrite !Forall_cons in Hall.
  destruct Hall as (Hg & Hp & Ho & Hu & _).
  split; [|split; [|split]].
  - intros n Hn. apply (within_room _ _ _ (lc_user m)); [done|apply Hb|].
    destruct Hu as (e & e' & Hu). unfold check_queue_max_user_run in Hu. rewrite Hn in Hu.
    by destruct (entity_run _ _ _ _).
  - intros n Hn. apply (within_room _ _ _ (lc_group m)); [done|apply Hb|].
    destruct Hg as (e & e' & Hg). unfold check_queue_max_group_run in Hg. rewrite Hn in Hg.
    by destruct (entity_run _ _ _ _).
  - intros n Hn. apply (within_room _ _ _ (lc_project m)); [done|apply Hb|].
    destruct Hp as (e & e' & Hp). unfold check_queue_max_project_run in Hp. rewrite Hn in Hp.
    by destruct (entity_run _ _ _ _).
  - apply (overall_room _ (lc_all m)); [done|apply Hb|].
    destruct Ho as (e & e' & Ho). unfold check_queue_max_run in Ho.
    destruct m as [mu mg mp [|q ma]]; [by left|right]. cbn [lc_all] in *.
    by destruct (overall_run _ _).
Qed.

Lemma startable_in_range (k : Z) (c : limcounts) :
  0 <= k < 2 ^ 30 -> startable k c -> in_range (Some (make_limcounts c)).
Proof.
  intros Hk Hs. pose proof (start_good k true c Hk Hs) as Hg.
  apply (tgood_weaken 0) in Hg; [|lia]. by apply good_in_range in Hg.
Qed.

(** The counts the checks are made on cover the replay of the calendar. *)
Lemma checked_counts si qi rr (flags : Z) (j : nat) :
  let cal := default [] (si_calendar si) in
  let end_ := si_server_time si + job_time_left si rr in
  Z.of_nat (length cal) < 2 ^ 29 ->
  startable (Z.of_nat (S (length cal))) (si_counts si) ->
  startable (Z.of_nat (S (length cal))) (qi_counts qi) ->
  has_flag flags CHECK_LIMIT = true -> has_flag flags CHECK_CUMULATIVE_LIMIT = false ->
  (exists_run_event (Some cal) end_ = true ->
     Forall entity_job (replayed_events cal) /\
     (si_has_hard_limit si = true -> lc_all (si_counts si) <> []) /\
     (qi_has_hard_limit qi = true -> lc_all (qi_counts qi) <> [])) ->
  exists max sc qc svr que, calendar_counts si qi rr flags = Some max /\
    limit_counts si qi flags max = Some (Some sc, Some qc) /\
    in_range (Some sc) /\ in_range (Some qc) /\ replay j si qi rr end_ cal = Some (svr, que) /\
    (forall c m, svr = Some (c, m) -> below c sc) /\ (forall c m, que = Some (c, m) -> below c qc).
Proof.
  intros cal end_ Hlen Hs Hq Hl Hf Hrun.
  assert (forall max, limit_counts si qi flags max
    = Some (Some (default (make_limcounts (si_counts si)) (fst max)),
            Some (default (make_limcounts (qi_counts qi)) (snd max)))) as Hlc
    by (intros max; unfold limit_counts; by rewrite Hl).
  pose proof (startable_in_range (Z.of_nat (S (length cal))) _ ltac:(lia) Hs) as Rs.
  pose proof (startable_in_range (Z.of_nat (S (length cal))) _ ltac:(lia) Hq) as Rq.
  destruct (exists_run_event (Some cal) end_) eqn:Hr.
  - assert (si_calendar si = Some cal) as Hc by (unfold cal in *; by destruct (si_calendar si)).
    destruct (Hrun eq_refl) as (Hj & Ha & Hb).
    destruct (calendar_counts_some si qi rr flags cal Hc Hj Ha Hb) as (sm & qm & Hcc).
    destruct (calendar_covers si qi rr cal Hlen Hs Hq flags sm qm j Hc Hf Hr Hcc)
      as (Is & Iq & svr & que & Hrep & Cs & Cq).
    eexists (sm, qm), _, _, svr, que. split; [done|]. split; [apply Hlc|]. cbn [fst snd].
    split; [by destruct sm|]. split; [by destruct qm|]. split; [done|].
    split; intros c m ->; [by destruct sm|by destruct qm].
  - destruct (quiet_covers si qi rr cal Hlen Hs Hq j (no_run_quiet (Some cal) end_ Hr))
      as (svr & que & Hrep & Bs & Bq).
    eexists (None, None), _, _, svr, que. split; [|split; [apply Hlc|done]].
    unfold calendar_counts. unfold cal in Hr. destruct (si_calendar si) as [cal'|] eqn:E; [|done].
    rewrite Hf. unfold cal in Hr. cbn [default from_option id] in Hr. unfold end_ in Hr. by rewrite Hr.
Qed.

(** C1. A job that [check_limits] lets through breaks no hard run limit while
    it runs: after any number [j] of the events the calendar has before the
    end of the job, every limit of at least one on its user, group, project
    and on all jobs, of a server or queue that has hard limits, has room for
    it.  Where the calendar has another job start before the end, a server or
    queue with hard limits has to have overall counts, which it has once a job
    ran in it, and the jobs of the calendar name their user, group and project:
    without, [check_limits] checks nothing
    ([LimitPeak.run_event_skips_limits]). *)
Theorem limits_hold_while_running si qi rr err (flags : Z) (errs : list schd_error) (j : nat) :
  let cal := default [] (si_calendar si) in
  let end_ := si_server_time si + job_time_left si rr in
  Z.of_nat (length cal) < 2 ^ 29 ->
  startable (Z.of_nat (S (length cal))) (si_counts si) ->
  startable (Z.of_nat (S (length cal))) (qi_counts qi) ->
  has_flag flags CHECK_LIMIT = true -> has_flag flags CHECK_CUMULATIVE_LIMIT = false ->
  (exists_run_event (Some cal) end_ = true ->
     Forall entity_job (replayed_events cal) /\
     (si_has_hard_limit si = true -> lc_all (si_counts si) <> []) /\
     (qi_has_hard_limit qi = true -> lc_all (qi_counts qi) <> [])) ->
  check_limits limres (Some si) (Some qi) (Some rr) err flags = Some (0, errs) ->
  exists svr que, replay j si qi rr end_ cal = Some (svr, que) /\
    (forall c m, svr = Some (c, m) -> run_limits_allow rr c (li_ctxh (si_liminfo si))) /\
    (forall c m, que = Some (c, m) -> run_limits_allow rr c (li_ctxh (qi_liminfo qi))).
Proof.
  intros cal end_ Hlen Hs Hq Hl Hf Hrun Hck.
  destruct (checked_counts si qi rr flags j Hlen Hs Hq Hl Hf Hrun)
    as (max & sc & qc & svr & que & Hcc & Hlc & Is & Iq & Hrep & Bs & Bq).
  pose proof (check_limits_passes _ _ _ _ _ _ _ _ _ Hcc Hlc Hck) as Hall.
  exists svr, que. split; [done|]. split; intros c m E.
  - by eapply server_allows; [apply (Bs c m E)|..].
  - by eapply queue_allows; [apply (Bq c m E)|..].
Qed.

(** Without a job that would start before its end, a job that
    [check_limits] lets through has room under every run limit of at least one
    on the counts of the server and of the queue as they are. *)
Theorem limits_hold_now si qi rr err (flags : Z) (errs : list schd_error) :
  has_flag flags CHECK_LIMIT = true -> calendar_counts si qi rr flags = Some (None, None) ->
  in_range (Some (make_limcounts (si_counts si))) ->
  in_range (Some (make_limcounts (qi_counts qi))) ->
  check_limits limres (Some si) (Some qi) (Some rr) err flags = Some (0, errs) ->
  run_limits_allow rr (make_limcounts (si_counts si)) (li_ctxh (si_liminfo si)) /\
  run_limits_allow rr (make_limcounts (qi_counts qi)) (li_ctxh (qi_liminfo qi)).
Proof.
  intros Hl Hcc Is Iq Hck.
  assert (limit_counts si qi flags (None, None)
    = Some (Some (make_limcounts (si_counts si)), Some (make_limcounts (qi_counts qi)))) as Hlc
    by (unfold limit_counts; by rewrite Hl).
  pose proof (check_limits_passes _ _ _ _ _ _ _ _ _ Hcc Hlc Hck) as Hall.
  split; [by eapply server_allows, Hall; [apply below_refl|]|].
  by eapply queue_allows, Hall; [apply below_refl|].
Qed.

(** ** The soft limits *)

Definition soft_result (z : Z) : Prop :=
  z = 0 \/ z = ERR_BIT \/ z = QUEUE_BIT \/ z = SERVER_BIT.

Lemma softlimfuncs_result :
  Forall (fun f => forall (si : option (server_info I)) (qi : option (queue_info I)) rr z,
            f si qi rr = Some z -> soft_result z) (softlimfuncs limres).
Proof.
  unfold softlimfuncs. repeat apply Forall_cons_2; try apply Forall_nil_2.
  all: intros si qi rr z.
  all: unfold check_queue_max_run_soft, check_queue_max_user_run_soft,
    check_queue_max_group_run_soft, check_queue_max_project_run_soft, check_server_max_run_soft,
    check_server_max_user_run_soft, check_server_max_group_run_soft,
    check_server_max_project_run_soft, check_queue_max_user_res_soft,
    check_queue_max_group_res_soft, check_queue_max_project_res_soft,
    check_server_max_user_res_soft, check_server_max_group_res_soft,
    check_server_max_project_res_soft, check_server_max_res_soft, check_queue_max_res_soft.
  all: unfold soft_result.
  all: repeat first
    [ progress (intros [= <-]); tauto
    | done
    | match goal with
      | |- (r ← ?x; _) = _ -> _ => destruct x; cbn [mbind option_bind]
      | |- match ?x with _ => _ end = _ -> _ => destruct x
      | |- Some (if ?x then _ else _) = _ -> _ => destruct x
      end ].
Qed.

Lemma run_soft_bits (fs : list softlimfunc_t) (si : option (server_info I))
    (qi : option (queue_info I)) (rr : resource_resv) : forall rc m b,
  Forall (fun f => forall z, f si qi rr = Some z -> soft_result z) fs ->
  b = PREEMPT_OVER_QUEUE_LIMIT \/ b = PREEMPT_OVER_SERVER_LIMIT \/ b = PREEMPT_ERR ->
  run_soft fs si qi rr rc = Some m ->
  Z.testbit m b = true <->
  Z.testbit rc b = true \/ exists f, f ∈ fs /\ f si qi rr = Some (PREEMPT_TO_BIT b).
Proof.
  induction fs as [|f fs IH]; intros rc m b Hall Hb; cbn [run_soft].
  { intros [= ->]. split; [by left|]. intros [?|(f & Hf & _)]; [done|].
    by apply not_elem_of_nil in Hf. }
  apply Forall_cons in Hall as [Hf Hall].
  destruct (f si qi rr) as [z|] eqn:Ef; cbn [mbind option_bind]; [|done].
  intros Hr. rewrite (IH _ _ _ Hall Hb Hr), Z.lor_spec, orb_true_iff.
  assert (Z.testbit z b = true <-> z = PREEMPT_TO_BIT b) as Hz.
  { destruct (Hf z eq_refl) as [->|[->|[->| ->]]]; destruct Hb as [->|[->| ->]];
      vm_compute; split; congruence. }
  rewrite Hz. split.
  - intros [[?|Heq]|(g & Hg & Hgr)]; [by left| |].
    + right. exists f. split; [by left|congruence].
    + right. exists g. split; [by right|done].
  - intros [?|(g & Hg & Hgr)]; [by left; left|]. apply elem_of_cons in Hg as [->|Hg].
    + left. right. congruence.
    + right. eauto.
Qed.

(** The soft limit check tells preemption exactly what is over: the bit of
    the queue is set when some soft limit of the queue is exceeded, the bit of
    the server when one of the server is, and the error bit when a check could
    not be made. *)
Theorem soft_limits_spec (si : option (server_info I)) (qi : option (queue_info I))
    (rr : resource_resv) (m b : Z) :
  b = PREEMPT_OVER_QUEUE_LIMIT \/ b = PREEMPT_OVER_SERVER_LIMIT \/ b = PREEMPT_ERR ->
  check_soft_limits limres si qi rr = Some m ->
  Z.testbit m b = true <->
  exists f, f ∈ softlimfuncs limres /\ f si qi rr = Some (PREEMPT_TO_BIT b).
Proof.
  intros Hb Hm. unfold check_soft_limits in Hm.
  assert (Forall (fun f => forall z, f si qi rr = Some z -> soft_result z) (softlimfuncs limres))
    as Hall by (eapply Forall_impl; [apply softlimfuncs_result|]; cbn; eauto).
  rewrite (run_soft_bits _ _ _ _ _ _ _ Hall Hb Hm). rewrite Z.testbit_0_l.
  split; [by intros [?|?]|by right].
Qed.

End Limits.

(** ** Concrete limits *)

(** A server with one run limit, on a user, and a running job of the user *)
Definition sample_server (n : cstring) (cal : option (list timed_event)) :=
  busy_server n one_running cal.

Lemma run_limit_text_witness :
  let ctx := li_ctxh (one_limit (lit "2k")) in
  let key := entlim_mk_runkey LIM_USER PBS_GENERIC_ENTITY in
  (entlim_get key ctx = None -> run_limit key ctx = None) /\
  (entlim_get key ctx = Some (dec_nat 2 ++ lit "k") -> run_limit key ctx = Some (2 * 1)).
Proof. apply (run_limit_text _ _ 2 1 (lit "k")); [lia|by vm_compute|unfold INT_MAX; lia]. Defined.

Lemma one_in_range (n : cstring) :
  counts_in_range [{| ct_name := Some n; ct_running := 1; ct_rescts := [] |}].
Proof.
  intros m a. unfold run_of, look. cbn. destruct (streq n m); [|done]. intros [= <-].
  unfold in_int, INT_MIN, INT_MAX. cbn. lia.
Qed.

Lemma nil_in_range : counts_in_range [].
Proof. done. Qed.

Lemma entity_run_spec_witness :
  let ctx := li_ctxh (one_limit (lit "1")) in
  entity_run LIM_USER (lit "bob") (lc_user one_running) ctx
  = match run_limit (entlim_mk_runkey LIM_USER (lit "bob")) ctx,
          run_limit (entlim_mk_runkey LIM_USER genparam) ctx with
    | Some own, _ => if own <=? running (lc_user one_running) (lit "bob") then OverOwn else Within
    | None, Some gen =>
        if gen <=? running (lc_user one_running) (lit "bob") then OverGeneric else Within
    | None, None => Within
    end.
Proof. apply (entity_run_spec LIM_USER (lit "bob")). apply one_in_range. Defined.

(** A limit of 10 cpus for a user who has 8 *)
Definition cpu_limit : ListIndex.t cstring :=
  fst (entlim_add (entlim_mk_reskey LIM_USER (lit "bob") (lit "ncpus")) (lit "10")
         entlim_initialize_ctx).

Lemma whole_small (n : Z) : - 2 ^ 51 <= n <= 2 ^ 51 -> whole (dbl_of_Z n).
Proof. intros Hn. by exists n. Qed.

Lemma entity_res_spec_witness :
  exists v r,
    entity_res [SchdRes (lit "ncpus") (Some ncpus)] LIM_USER lim_genuserreskey (Some (lit "bob"))
      (job_ncpus 4) [bob_counts] cpu_limit = Some (v, r) /\
    (v = Within <->
       Forall (fun res => ~ exceeds LIM_USER lim_genuserreskey (lit "bob") (job_ncpus 4) [bob_counts]
                              cpu_limit res) [SchdRes (lit "ncpus") (Some ncpus)]) /\
    (v <> Within -> exists res, res ∈ [SchdRes (lit "ncpus") (Some ncpus)] /\
       exceeds LIM_USER lim_genuserreskey (lit "bob") (job_ncpus 4) [bob_counts] cpu_limit res /\
       r = Some (res_name res)).
Proof.
  apply entity_res_spec. apply Forall_cons_2; [|apply Forall_nil_2].
  intros i req Hf. vm_compute in Hf. injection Hf as <- <-. split_and!.
  - exact (whole_small 4 ltac:(lia)).
  - exact (whole_small 8 ltac:(lia)).
  - intros lim Hl. vm_compute in Hl. injection Hl as <-. exact (whole_small 10 ltac:(lia)).
Defined.

(** Two limits fail at once, that on the user and that on all jobs. *)
Definition full_server : server_info (ListIndex.t cstring) :=
  {| si_has_hard_limit := true; si_has_soft_limit := false;
     si_liminfo := LimitInfo (fst (entlim_add (entlim_mk_runkey LIM_OVERALL PBS_ALL_ENTITY) (lit "1")
                     (li_ctxh (one_limit (lit "1"))))) entlim_initialize_ctx;
     si_sc_running := 1; si_counts := one_running; si_total := no_counts; si_running_jobs := [];
     si_calendar := None; si_server_time := 0; si_queues := [] |}.

Example all_errors :
  option_map fst (check_limits [] (Some full_server) (Some plain_queue) (Some (job_ncpus 1))
    new_schd_error (Z.lor CHECK_LIMIT RETURN_ALL_ERR)) = Some SERVER_JOB_LIMIT_REACHED /\
  option_map (map err_code ∘ snd) (check_limits [] (Some full_server) (Some plain_queue)
    (Some (job_ncpus 1)) new_schd_error (Z.lor CHECK_LIMIT RETURN_ALL_ERR))
  = Some [SERVER_JOB_LIMIT_REACHED; SERVER_USER_LIMIT_REACHED].
Proof. split; vm_compute; reflexivity. Qed.

Definition two_errors : list schd_error :=
  [SchdErr SERVER_JOB_LIMIT_REACHED NOT_RUN None None None;
   SchdErr SERVER_USER_LIMIT_REACHED NOT_RUN None None None].

Lemma return_all_errors_witness :
  let failed := omap (fun f => failure f full_server plain_queue (job_ncpus 1)
                  (Some (make_limcounts one_running)) (Some (make_limcounts no_counts)))
                  (limfuncs []) in
  SERVER_JOB_LIMIT_REACHED = first_code failed /\
  two_errors = (match failed with [] => [new_schd_error] | _ => failed end) /\
  check_limits [] (Some full_server) (Some plain_queue) (Some (job_ncpus 1)) new_schd_error CHECK_LIMIT
    = Some (SERVER_JOB_LIMIT_REACHED, [default new_schd_error (head failed)]).
Proof.
  apply (return_all_errors [] full_server plain_queue (job_ncpus 1) CHECK_LIMIT
    SERVER_JOB_LIMIT_REACHED two_errors (None, None)); [done..|].
  vm_compute. reflexivity.
Defined.

Lemma one_running_startable : startable 2 one_running.
Proof.
  intros l Hl. destruct (one_startable 2 (lit "bob") ltac:(lia)).
  destruct (one_startable 2 (lit "o:PBS_ALL") ltac:(lia)).
  destruct (no_counts_startable 2 [] ltac:(auto)).
  by destruct Hl as [->|[->|[->| ->]]].
Qed.

(** One job runs, one will start, and the limit is three; and nothing runs and
    there is no calendar. *)
Lemma limits_hold_while_running_witness :
  (exists svr que,
    replay 1 (sample_server (lit "3") (Some other_starts)) plain_queue (job_ncpus 1) 60 other_starts
      = Some (svr, que) /\
    (forall c m, svr = Some (c, m) ->
       run_limits_allow (job_ncpus 1) c (li_ctxh (one_limit (lit "3")))) /\
    (forall c m, que = Some (c, m) ->
       run_limits_allow (job_ncpus 1) c (entlim_initialize_ctx (I := ListIndex.t cstring)))) /\
  exists svr que,
    replay 0 (busy_server (lit "2") no_counts None) plain_queue (job_ncpus 1) 60 [] = Some (svr, que) /\
    (forall c m, svr = Some (c, m) ->
       run_limits_allow (job_ncpus 1) c (li_ctxh (one_limit (lit "2")))) /\
    (forall c m, que = Some (c, m) ->
       run_limits_allow (job_ncpus 1) c (entlim_initialize_ctx (I := ListIndex.t cstring))).
Proof.
  split.
  - apply (limits_hold_while_running [] (sample_server (lit "3") (Some other_starts)) plain_queue
      (job_ncpus 1) new_schd_error CHECK_LIMIT [new_schd_error] 1); [done|apply one_running_startable|
      apply no_counts_startable|done|done|..|vm_compute; reflexivity].
    intros _. split; [|done]. by apply Forall_cons_2; [|apply Forall_nil_2].
  - apply (limits_hold_while_running [] (busy_server (lit "2") no_counts None) plain_queue
      (job_ncpus 1) new_schd_error CHECK_LIMIT [new_schd_error] 0); [done|apply no_counts_startable|
      apply no_counts_startable|done|done|done|vm_compute; reflexivity].
Defined.

Lemma limits_hold_now_witness :
  run_limits_allow (job_ncpus 1) (make_limcounts one_running) (li_ctxh (one_limit (lit "3"))) /\
  run_limits_allow (job_ncpus 1) (make_limcounts no_counts)
    (entlim_initialize_ctx (I := ListIndex.t cstring)).
Proof.
  apply (limits_hold_now [] (sample_server (lit "3") None) plain_queue (job_ncpus 1) new_schd_error
    CHECK_LIMIT [new_schd_error]).
  - reflexivity.
  - reflexivity.
  - intros l n a [->|[->|[->| ->]]]; [apply (one_in_range (lit "bob"))|done|done|].
    apply (one_in_range (lit "o:PBS_ALL")).
  - intros l n a [->|[->|[->| ->]]]; done.
  - vm_compute. reflexivity.
Defined.

(** A server with a soft limit of one on all jobs *)
Definition soft_server : server_info (ListIndex.t cstring) :=
  {| si_has_hard_limit := false; si_has_soft_limit := true;
     si_liminfo := LimitInfo entlim_initialize_ctx
       (fst (entlim_add (entlim_mk_runkey LIM_OVERALL PBS_ALL_ENTITY) (lit "1")
               entlim_initialize_ctx));
     si_sc_running := 1; si_counts := one_running; si_total := no_counts; si_running_jobs := [];
     si_calendar := None; si_server_time := 0; si_queues := [] |}.

Lemma soft_limits_spec_witness :
  Z.testbit 8 PREEMPT_OVER_SERVER_LIMIT = true <->
  exists f, f ∈ softlimfuncs [] /\
    f (Some soft_server) (Some plain_queue) (job_ncpus 1)
    = Some (PREEMPT_TO_BIT PREEMPT_OVER_SERVER_LIMIT).
Proof.
  apply (soft_limits_spec [] (Some soft_server) (Some plain_queue) (job_ncpus 1) 8); [tauto|].
  vm_compute. reflexivity.
Defined.

(** With one job running, a soft limit of one on all jobs is exceeded and one
    on the user is not: the two kinds of run limit compare differently. *)
Lemma soft_limits_differ :
  overall_run_soft 1 (li_ctxs (si_liminfo soft_server)) = true /\
  entity_run_soft LIM_USER (lit "bob") (lc_user one_running) (li_ctxh (one_limit (lit "1"))) = false.
Proof. split; vm_compute; reflexivity. Qed.

End LimitProps.
