(* ===== verification/AvlTree.v ===== *)
(** * The balanced index: [src/lib/Libutil/avltree.c]

    Module [Avl]: the tree, its search, insertion and deletion, and the
    functions on an index that the rest of the program calls.  Keys are
    null-terminated strings ([keylength] 0).

    A node is a value; [node **], the address of a child field, is the path to
    that field from the root, a list of directions.  A loop that follows such an
    address down the tree is a recursion on the subtree it stands at.  [None] is
    the use of a NULL node or an exit of the program. *)

From Stdlib Require Import ZArith Lia Ascii String.
From S2P Require Import Prelude Index.

Module Avl.

(** [way3]: [-1], [0] and [1] *)
Inductive way3 := way3left | way3stop | way3right.

#[export] Instance way3_eq_dec : EqDecision way3.
Proof. solve_decision. Defined.

Definition way3eq (x y : way3) : bool :=
  match x, y with
  | way3left, way3left | way3stop, way3stop | way3right, way3right => true
  | _, _ => false
  end.

(** [x + y], for two different arguments or two stops *)
Definition way3sum (x y : way3) : way3 :=
  match x, y with
  | way3stop, z => z
  | z, way3stop => z
  | way3left, way3left => way3left
  | way3right, way3right => way3right
  | _, _ => way3stop
  end.

Definition way3opp (x : way3) : way3 :=
  match x with way3left => way3right | way3stop => way3stop | way3right => way3left end.

Definition way3opp2 (x y : way3) : way3 := if way3eq x y then way3opp x else way3stop.

Definition makeway3 (n : comparison) : way3 :=
  match n with Lt => way3left | Eq => way3stop | Gt => way3right end.

(** The sign of [strcmp], which compares as unsigned characters *)
Fixpoint strcmp (a b : cstring) : comparison :=
  match a, b with
  | [], [] => Eq
  | [], _ => Lt
  | _, [] => Gt
  | c :: a, d :: b => match Z.compare (code c) (code d) with Eq => strcmp a b | r => r end
  end.

(** How an index treats repeated keys *)
Inductive dup_mode := AVL_NO_DUP_KEYS | AVL_DUP_KEYS_OK | AVL_COUNT_DUPS.

#[export] Instance dup_mode_eq_dec : EqDecision dup_mode.
Proof. solve_decision. Defined.

Section Tree.
Context {V : Type}.

Record rectype := Rec { recptr : V; count : Z; key : cstring }.

(** [node]; [Nil] is NULL *)
Inductive tree :=
  | Nil
  | Node (left right : tree) (balance trace : way3) (data : rectype).

(** ** Fields of a node *)

Definition balance (n : tree) : way3 :=
  match n with Nil => way3stop | Node _ _ b _ _ => b end.
Definition trace (n : tree) : way3 :=
  match n with Nil => way3stop | Node _ _ _ t _ => t end.

(** [n->ptr[way3ix(x)]]: a stop is taken for the left. *)
Definition stepway (n : tree) (x : way3) : tree :=
  match n with
  | Nil => Nil
  | Node l r _ _ _ => match x with way3right => r | _ => l end
  end.
Definition stepopp (n : tree) (x : way3) : tree := stepway n (way3opp x).

Definition set_way (n : tree) (x : way3) (c : tree) : tree :=
  match n with
  | Nil => Nil
  | Node l r b t d =>
      match x with way3right => Node l c b t d | _ => Node c r b t d end
  end.
Definition set_opp (n : tree) (x : way3) (c : tree) : tree := set_way n (way3opp x) c.
Definition set_balance (n : tree) (b : way3) : tree :=
  match n with Nil => Nil | Node l r _ t d => Node l r b t d end.
Definition set_trace (n : tree) (t : way3) : tree :=
  match n with Nil => Nil | Node l r b _ d => Node l r b t d end.
Definition set_data (n : tree) (d : rectype) : tree :=
  match n with Nil => Nil | Node l r b t _ => Node l r b t d end.

Definition is_nil (n : tree) : bool := match n with Nil => true | _ => false end.

(** ** Addresses of child fields *)

Definition path := list way3.

(** [*at_] *)
Fixpoint slot (at_ : path) (t : tree) : tree :=
  match at_ with [] => t | w :: at_ => slot at_ (stepway t w) end.

(** A change of the subtree at an address *)
Fixpoint alter_slot (at_ : path) (f : tree -> option tree) (t : tree) : option tree :=
  match at_ with
  | [] => f t
  | w :: at_ =>
      match t with
      | Nil => None
      | _ => c ← alter_slot at_ f (stepway t w); Some (set_way t w c)
      end
  end.

(** ** Comparison *)

Variable ptrcmp : V -> V -> comparison.
Variable dup : dup_mode.

(** [ptrcmp] is the comparison of two record pointers by [memcmp]. *)
Definition compkey (r1 r2 : rectype) : comparison :=
  match strcmp (key r1) (key r2) with
  | Eq => match dup with AVL_NO_DUP_KEYS => Eq | _ => ptrcmp (recptr r1) (recptr r2) end
  | n => n
  end.

(** ** Rotations *)

(** [restruct]: [avl_s] is the subtree given, and the result, whether a single
    rotation was made and the subtree after, has [avl_r] at its root in that
    case and [avl_s] on the side away from [avl_wayhand]. *)
Definition restruct (op_del : bool) (wayhand : way3) (s : tree) : option (bool * tree) :=
  let r := stepway s wayhand in
  if is_nil r then None
  else
    let n := balance r in
    let g := if way3eq n way3stop then op_del else way3eq n wayhand in
    if g then
      Some (g, set_opp r wayhand (set_way s wayhand (stepopp r wayhand)))
    else
      let p := stepopp r wayhand in
      if is_nil p then None
      else
        let r := set_opp r wayhand (stepway p wayhand) in
        let c := balance p in
        let s := set_balance s (way3opp2 c wayhand) in
        let r := set_balance r (way3opp2 c (way3opp wayhand)) in
        let p := set_balance (set_way p wayhand r) way3stop in
        Some (g, set_opp p wayhand (set_way s wayhand (stepopp p wayhand))).

(** ** Search *)

Definition SRF_FINDEQUAL : Z := 1.
Definition SRF_FINDLESS : Z := 2.
Definition SRF_FINDGREAT : Z := 4.
Definition SRF_SETMARK : Z := 8.
Definition SRF_FROMMARK : Z := 16.

Definition srf (searchflags f : Z) : bool := negb (Z.land searchflags f =? 0).

(** The inner loop: as far as it goes in a direction, from a node *)
Fixpoint extreme (setmark : bool) (way : way3) (q : tree) : tree * option rectype :=
  match q with
  | Nil => (Nil, None)
  | Node l r b t d =>
      let '(c, res) :=
        match way with way3right => extreme setmark way r | _ => extreme setmark way l end in
      match res with
      | None => (if setmark then set_trace q way3stop else q, Some d)
      | Some _ => (let q := set_way q way c in if setmark then set_trace q way else q, res)
      end
  end.

(** The outer loop.  The code keeps in [p] the last node where it went against
    [waydir]: a search below that finds nothing ends at the nearest such node
    above. *)
Fixpoint search_loop (searchflags : Z) (waydir : way3) (k : rectype) (pp : tree)
  : tree * option rectype :=
  match pp with
  | Nil => (Nil, None)
  | Node l r b t d =>
      let setmark := srf searchflags SRF_SETMARK in
      let aa := if srf searchflags SRF_FROMMARK then t else makeway3 (compkey k d) in
      let mark (w : way3) (n : tree) := if setmark then set_trace n w else n in
      if way3eq aa way3stop then
        if srf searchflags SRF_FINDEQUAL then (mark aa pp, Some d)
        else
          let q := stepway pp waydir in
          if is_nil q then (mark aa pp, None)
          else
            let '(q, res) := extreme setmark (way3opp waydir) q in
            (mark waydir (set_way pp waydir q), res)
      else
        let '(c, res) :=
          match aa with
          | way3right => search_loop searchflags waydir k r
          | _ => search_loop searchflags waydir k l
          end in
        let pp := mark aa (set_way pp aa c) in
        match res with
        | Some _ => (pp, res)
        | None =>
            if way3eq aa (way3opp waydir) then (mark way3stop pp, Some d) else (pp, None)
        end
  end.

Definition avltree_search (at_ : tree) (k : rectype) (searchflags : Z) : tree * option rectype :=
  if srf searchflags SRF_FINDGREAT && srf searchflags SRF_FINDLESS then (at_, None)
  else if negb (srf searchflags (Z.lor SRF_FINDGREAT (Z.lor SRF_FINDEQUAL SRF_FINDLESS)))
  then (at_, None)
  else
    let waydir :=
      if srf searchflags SRF_FINDGREAT then way3right
      else if srf searchflags SRF_FINDLESS then way3left else way3stop in
    search_loop searchflags waydir k at_.

Fixpoint avltree_first (at_ : tree) : tree :=
  match at_ with
  | Nil => Nil
  | Node l r b _ d => Node (avltree_first l) r b way3left d
  end.

Fixpoint avltree_last (at_ : tree) : tree :=
  match at_ with
  | Nil => Nil
  | Node l r b _ d => Node l (avltree_last r) b way3right d
  end.

(** ** Insertion *)

Definition set_count (d : rectype) (n : Z) : rectype :=
  {| recptr := recptr d; count := n; key := key d |}.

(** [duprec]: the program ends when the count would overflow. *)
Definition duprec (d : rectype) : option rectype :=
  if count d =? UINT_MAX then None else Some (set_count d (count d + 1)).

(** The way down: the tree with the new leaf, the address [avl_t] of the last
    node that is not balanced and whether a leaf was added *)
Fixpoint insert_walk (k : rectype) (pp : tree) (at_ avl_t : path) : option (tree * path * bool) :=
  match pp with
  | Nil => Some (Node Nil Nil way3stop way3stop (set_count k 1), avl_t, true)
  | Node l r b t d =>
      let aa := makeway3 (compkey k d) in
      if way3eq aa way3stop then
        match dup with
        | AVL_COUNT_DUPS => d ← duprec d; Some (set_data pp d, avl_t, false)
        | _ => Some (pp, avl_t, false)
        end
      else
        let avl_t := if way3eq b way3stop then avl_t else at_ in
        x ← match aa with
            | way3right => insert_walk k r (at_ ++ [aa]) avl_t
            | _ => insert_walk k l (at_ ++ [aa]) avl_t
            end;
        let '(c, avl_t, added) := x in
        Some (set_way (set_trace pp aa) aa c, avl_t, added)
  end.

(** [for (p = avl_r; p != NULL; p = stepway(p, b)) b = p->balance = p->trace;] *)
Fixpoint trace_balances (p : tree) : tree :=
  match p with
  | Nil => Nil
  | Node l r _ t d =>
      match t with
      | way3right => Node l (trace_balances r) t t d
      | _ => Node (trace_balances l) r t t d
      end
  end.

(** The part that follows at [avl_t] *)
Definition insert_balance (s : tree) : option tree :=
  let wayhand := trace s in
  if way3eq wayhand way3stop then Some s
  else
    let s := set_way s wayhand (trace_balances (stepway s wayhand)) in
    let b := balance s in
    if negb (way3eq b wayhand) then Some (set_balance s (way3sum wayhand b))
    else
      x ← restruct false wayhand s;
      let '(g, p) := x in
      if g : bool
      then Some (set_opp (set_balance p way3stop) wayhand
                   (set_balance (stepopp p wayhand) way3stop))
      else Some p.

(** The tree and whether the record was added *)
Definition avltree_insert (at_ : tree) (k : rectype) : option (tree * bool) :=
  x ← insert_walk k at_ [] [];
  let '(t, avl_t, added) := x in
  if added : bool then t ← alter_slot avl_t insert_balance t; Some (t, true)
  else Some (t, false).

(** ** Deletion *)

(** The variables of the way down: the address of the node to delete is [qq1]
    with its record [q], [tt1] that of the last node visited, and [t1] and
    [avl_t] those where the heights stop to change. *)
Record walk := Walk {
  w_aaa : way3; w_t : path; w_t1 : path; w_tt1 : path; w_qq1 : path; w_rr : path;
  w_q : option rectype }.

Fixpoint delete_walk (frommark : bool) (k : rectype) (pp : tree) (at_ : path) (w : walk)
  : option (tree * walk) :=
  match pp with
  | Nil => Some (Nil, w)
  | Node l r b t d =>
      let aa :=
        if negb (way3eq (w_aaa w) way3stop) then w_aaa w
        else if frommark then t else makeway3 (compkey k d) in
      let '(aa, w) :=
        if way3eq aa way3stop then
          let aa := if negb (way3eq b way3stop) then b else way3left in
          (aa, Walk (way3opp aa) (w_t w) (w_t1 w) (w_tt1 w) at_ (w_t1 w) (Some d))
        else (aa, w) in
      stop_here ←
        (if way3eq b way3stop then Some true
         else if way3eq b aa then Some false
         else if is_nil (stepopp pp aa) then None
         else Some (way3eq (balance (stepopp pp aa)) way3stop));
      let w := Walk (w_aaa w) (w_t1 w) (if stop_here : bool then at_ else w_t1 w) at_
                 (w_qq1 w) (w_rr w) (w_q w) in
      x ← match aa with
          | way3right => delete_walk frommark k r (at_ ++ [aa]) w
          | _ => delete_walk frommark k l (at_ ++ [aa]) w
          end;
      let '(c, w) := x in
      Some (set_way (set_trace pp aa) aa c, w)
  end.

(** The loop from [avl_t] down to the node [p1] that took the place of the one
    removed; [rem] is what is left of the way there. *)
Fixpoint delete_balance (rem : path) (s : tree) : option tree :=
  match rem with
  | [] => Some s
  | _ :: rem =>
      if is_nil s then None
      else
        let wayhand := way3opp (trace s) in
        let b := balance s in
        if negb (way3eq b wayhand) then
          c ← delete_balance rem (stepopp s wayhand);
          Some (set_opp (set_balance s (way3sum wayhand b)) wayhand c)
        else
          x ← restruct true wayhand s;
          let '(g, p) := x in
          let s := stepopp p wayhand in
          let bb := balance p in
          let s := if g && negb (way3eq bb way3stop) then set_balance s way3stop else s in
          let p := if g : bool then set_balance p (way3sum (way3opp wayhand) bb) else p in
          c ← delete_balance rem (stepopp s wayhand);
          Some (set_opp p wayhand (set_opp s wayhand c))
  end.

(** The traces of the nodes from [rr] down, towards the place of a record *)
Fixpoint retrace (k : rectype) (p : tree) : tree :=
  match p with
  | Nil => Nil
  | Node l r b _ d =>
      let aa := makeway3 (compkey k d) in
      match aa with
      | way3right => Node l (retrace k r) b aa d
      | _ => Node (retrace k l) r b aa d
      end
  end.

(** The tree, and the record deleted if there was one *)
Definition avltree_delete (at_ : tree) (k : rectype) (frommark : bool)
  : option (tree * option rectype) :=
  x ← delete_walk frommark k at_ [] (Walk way3stop [] [] [] [] [] None);
  let '(t, w) := x in
  match w_aaa w, w_q w with
  | way3stop, _ | _, None => Some (t, None)
  | _, Some q =>
      let p := slot (w_tt1 w) t in
      let p1 := stepopp p (trace p) in
      t ← alter_slot (w_tt1 w) (fun _ => Some p1) t;
      t ← (if bool_decide (w_tt1 w = w_qq1 w) then Some t
           else match p with
                | Nil => None
                | Node _ _ _ _ d => alter_slot (w_qq1 w) (fun n => Some (set_data n d)) t
                end);
      t ← alter_slot (w_t w) (delete_balance (drop (length (w_t w)) (w_tt1 w))) t;
      t ← alter_slot (w_rr w) (fun n => Some (retrace q n)) t;
      Some (t, Some q)
  end.

End Tree.
Arguments rectype : clear implicits.
Arguments tree : clear implicits.
Arguments walk : clear implicits.

(** ** Indexes *)

Record AVL_IX_DESC {V : Type} := Desc { root : tree V; dup_keys : dup_mode }.
Arguments AVL_IX_DESC : clear implicits.
Arguments Desc {V}.

Section Index.
Context {V : Type}.
Variable ptrcmp : V -> V -> comparison.
(** The record pointer the search functions start from, [NULL] *)
Variable null : V.
Implicit Types (pe : rectype V) (pix : AVL_IX_DESC V).

Definition avl_create_index (dup : dup_mode) : AVL_IX_DESC V := Desc Nil dup.

Definition set_recptr (d : rectype V) (v : V) : rectype V :=
  {| recptr := v; count := count d; key := key d |}.

(** The result: the index, the record given as the code leaves it and whether
    the code is [AVL_IX_OK]. *)
Definition avl_find_key pe pix : AVL_IX_DESC V * rectype V * bool :=
  let pe := set_recptr pe null in
  let '(t, ptr) := avltree_search ptrcmp (dup_keys pix) (root pix) pe
    (Z.lor SRF_FINDEQUAL (Z.lor SRF_SETMARK SRF_FINDGREAT)) in
  let pix := Desc t (dup_keys pix) in
  match ptr with
  | None => (pix, pe, false)
  | Some d =>
      let pe := {| recptr := recptr d; count := count d; key := key pe |} in
      (pix, pe, match compkey ptrcmp (dup_keys pix) pe d with Eq => true | _ => false end)
  end.

Definition avl_add_key pe pix : option (AVL_IX_DESC V * bool) :=
  x ← avltree_insert ptrcmp (dup_keys pix) (root pix) pe;
  let '(t, added) := x in
  Some (Desc t (dup_keys pix),
        added || match dup_keys pix with AVL_COUNT_DUPS => true | _ => false end).

(** The count that is decremented is that of the record given. *)
Definition avl_delete_key pe pix : option (AVL_IX_DESC V * rectype V * bool) :=
  let '(t, ptr) := avltree_search ptrcmp (dup_keys pix) (root pix) pe
    (Z.lor SRF_FINDEQUAL SRF_SETMARK) in
  match ptr with
  | None => Some (Desc t (dup_keys pix), pe, false)
  | Some _ =>
      let pe' := match dup_keys pix with
                 | AVL_COUNT_DUPS => set_count pe (uint32 (count pe - 1))
                 | _ => pe
                 end in
      if bool_decide (dup_keys pix = AVL_COUNT_DUPS) && negb (count pe' =? 0)
      then Some (Desc t (dup_keys pix), pe', true)
      else
        x ← avltree_delete ptrcmp (dup_keys pix) t pe' true;
        let '(t, q) := x in
        Some (Desc t (dup_keys pix), default pe' q, true)
  end.

Definition avl_first_key pix : AVL_IX_DESC V := Desc (avltree_first (root pix)) (dup_keys pix).
Definition avl_last_key pix : AVL_IX_DESC V := Desc (avltree_last (root pix)) (dup_keys pix).

(** The next or the previous record, if there is one *)
Definition avl_next_key pe pix : AVL_IX_DESC V * option (rectype V) :=
  let '(t, ptr) := avltree_search ptrcmp (dup_keys pix) (root pix) pe
    (Z.lor SRF_FROMMARK (Z.lor SRF_SETMARK SRF_FINDGREAT)) in
  (Desc t (dup_keys pix), ptr).

Definition avl_prev_key pe pix : AVL_IX_DESC V * option (rectype V) :=
  let '(t, ptr) := avltree_search ptrcmp (dup_keys pix) (root pix) pe
    (Z.lor SRF_FROMMARK (Z.lor SRF_SETMARK SRF_FINDLESS)) in
  (Desc t (dup_keys pix), ptr).

(** [tree_add_del] and [find_tree], over keys *)
Definition find_tree pix (k : cstring) : AVL_IX_DESC V * option V :=
  let '(pix, pe, ok) := avl_find_key (Rec null 0 k) pix in
  (pix, if ok : bool then Some (recptr pe) else None).

Definition tree_add pix (k : cstring) (data : V) : option (AVL_IX_DESC V * Z) :=
  x ← avl_add_key (Rec data 0 k) pix;
  let '(pix, ok) := x in Some (pix, if ok : bool then 0 else -1).

Definition tree_del pix (k : cstring) (data : V) : option (AVL_IX_DESC V * Z) :=
  x ← avl_delete_key (Rec data 0 k) pix;
  let '(pix, _, ok) := x in Some (pix, if ok : bool then 0 else 1).

End Index.

End Avl.
