(* ===== verification/AvlProps.v ===== *)
(** * The balanced index is a sorted map

    Order and balance of the trees of [AvlTree], what search, insertion,
    deletion and iteration do to them, and the index laws for the tree. *)

From Stdlib Require Import ZArith Lia Ascii String Sorted.
From S2P Require Import Prelude Index AvlTree.
Import Avl.

Module AvlProps.

(** ** [strcmp] is a total order *)

Lemma code_inj (c d : ascii) : code c = code d -> c = d.
Proof. intros Hc. rewrite <-(chr_code c), <-(chr_code d). by f_equal. Qed.

Lemma strcmp_eq (a b : cstring) : strcmp a b = Eq <-> a = b.
Proof.
  revert b. induction a as [|c a IH]; intros [|d b]; cbn; try done.
  destruct (Z.compare_spec (code c) (code d)) as [He|Hl|Hg].
  - apply code_inj in He as ->. rewrite IH. split; [by intros ->|by intros [= ->]].
  - split; [done|]. intros [= -> ->]. lia.
  - split; [done|]. intros [= -> ->]. lia.
Qed.

Lemma strcmp_opp (a b : cstring) : strcmp b a = CompOpp (strcmp a b).
Proof.
  revert b. induction a as [|c a IH]; intros [|d b]; cbn; try done.
  rewrite (Z.compare_antisym (code c) (code d)). destruct (code c ?= code d); cbn; [apply IH|done..].
Qed.

Lemma strcmp_trans (a b c : cstring) : strcmp a b = Lt -> strcmp b c = Lt -> strcmp a c = Lt.
Proof.
  revert b c. induction a as [|x a IH]; intros [|y b] [|z c]; cbn; try done.
  destruct (Z.compare_spec (code x) (code y)); destruct (Z.compare_spec (code y) (code z));
    try done; intros Ha Hb.
  - apply code_inj in H as ->. apply code_inj in H0 as ->. rewrite Z.compare_refl. by eapply IH.
  - apply code_inj in H as ->. by rewrite (proj2 (Z.compare_lt_iff _ _) H0).
  - apply code_inj in H0 as <-. by rewrite (proj2 (Z.compare_lt_iff _ _) H).
  - by rewrite (proj2 (Z.compare_lt_iff (code x) (code z))) by lia.
Qed.

(** A comparison is a total order: equality of the arguments is up to the
    comparison. *)
Record total_order {A : Type} (c : A -> A -> comparison) : Prop := {
  to_opp : forall a b, c b a = CompOpp (c a b);
  to_trans : forall a b d, c a b = Lt -> c b d = Lt -> c a d = Lt;
  to_eq : forall a b d, c a b = Eq -> c a d = c b d }.

Lemma compkey_order {V : Type} (ptrcmp : V -> V -> comparison) (dup : dup_mode) :
  dup = AVL_NO_DUP_KEYS \/ total_order ptrcmp -> total_order (compkey ptrcmp dup).
Proof.
  intros Ho. split.
  - intros a b. unfold compkey. rewrite (strcmp_opp (key a)).
    destruct (strcmp (key a) (key b)); cbn; [|done..].
    destruct Ho as [->|[Hopp _ _]]; [done|]. destruct dup; [done|apply Hopp..].
  - intros a b d. unfold compkey.
    destruct (strcmp (key a) (key b)) eqn:Eab; [|intros _|done].
    + apply strcmp_eq in Eab as ->. destruct (strcmp (key b) (key d)); [|done..].
      destruct Ho as [->|[_ Htr _]]; [done|]. destruct dup; [done|apply Htr..].
    + destruct (strcmp (key b) (key d)) eqn:Ebd; [|intros _|done].
      * apply strcmp_eq in Ebd as <-. by rewrite Eab.
      * by rewrite (strcmp_trans _ _ _ Eab Ebd).
  - intros a b d. unfold compkey. destruct (strcmp (key a) (key b)) eqn:Eab; [|done..].
    apply strcmp_eq in Eab as ->. intros Hp. destruct (strcmp (key b) (key d)); [|done..].
    destruct Ho as [->|[_ _ Heq]]; [done|]. destruct dup; [done|by apply Heq..].
Qed.

(** ** Order *)

Section Order.
Context {A : Type} (cmp : A -> A -> comparison) (Hcmp : total_order cmp).

Definition lt_by (a b : A) : Prop := cmp a b = Lt.
Definition sorted (l : list A) : Prop := StronglySorted lt_by l.

Lemma lt_trans (a b c : A) : lt_by a b -> lt_by b c -> lt_by a c.
Proof. apply (to_trans _ Hcmp). Qed.

Lemma cmp_refl (a : A) : cmp a a = Eq.
Proof. pose proof (to_opp _ Hcmp a a) as H. by destruct (cmp a a). Qed.

Lemma cmp_gt (a b : A) : cmp a b = Gt <-> lt_by b a.
Proof. unfold lt_by. rewrite (to_opp _ Hcmp a b). by destruct (cmp a b). Qed.

Lemma cmp_eq_l (a b c : A) : cmp a b = Eq -> cmp a c = cmp b c.
Proof. apply (to_eq _ Hcmp). Qed.

Lemma cmp_eq_sym (a b : A) : cmp a b = Eq -> cmp b a = Eq.
Proof. intros H. by rewrite (to_opp _ Hcmp a b), H. Qed.

Lemma lt_irrefl (a : A) : ~ lt_by a a.
Proof. unfold lt_by. by rewrite cmp_refl. Qed.

(** A sorted list around one of its elements *)
Lemma sorted_mid (a b : list A) (x : A) :
  sorted (a ++ x :: b) <->
  sorted a /\ sorted b /\ Forall (fun y => lt_by y x) a /\ Forall (lt_by x) b.
Proof.
  unfold sorted. induction a as [|y a IH]; cbn.
  - split.
    + intros Hs. apply StronglySorted_inv in Hs as [? ?]. split_and!; try done. constructor.
    + intros (_ & ? & _ & ?). by constructor.
  - split.
    + intros Hs. apply StronglySorted_inv in Hs as [Hs Hf]. apply IH in Hs as (? & ? & ? & ?).
      apply Forall_app in Hf as [? Hf]. apply Forall_cons in Hf as [? ?].
      split_and!; try done; [by constructor|by apply Forall_cons_2].
    + intros (Ha & Hb & Hf & Hx). apply StronglySorted_inv in Ha as [Ha Hy].
      apply Forall_cons in Hf as [Hyx Hf]. constructor; [by apply IH|].
      apply Forall_app. split; [done|]. apply Forall_cons_2; [done|].
      eapply Forall_impl; [exact Hx|]. intros z Hz. exact (lt_trans _ _ _ Hyx Hz).
Qed.

Lemma sorted_insert (a b : list A) (x : A) :
  sorted (a ++ b) -> Forall (fun y => lt_by y x) a -> Forall (lt_by x) b -> sorted (a ++ x :: b).
Proof.
  intros Hs Ha Hb. apply sorted_mid. unfold sorted in *.
  assert (StronglySorted lt_by a /\ StronglySorted lt_by b) as [? ?]; [|done].
  clear Ha Hb. induction a as [|y a IH]; cbn in *; [split; [constructor|done]|].
  apply StronglySorted_inv in Hs as [Hs Hf]. apply IH in Hs as [? ?].
  apply Forall_app in Hf as [? _]. split; [by constructor|done].
Qed.

Lemma sorted_remove (a b : list A) (x : A) : sorted (a ++ x :: b) -> sorted (a ++ b).
Proof.
  unfold sorted. induction a as [|y a IH]; cbn; intros Hs; apply StronglySorted_inv in Hs as [Hs Hf];
    [done|].
  constructor; [by apply IH|]. apply Forall_app in Hf as [? Hf]. apply Forall_cons in Hf as [_ ?].
  by apply Forall_app.
Qed.

(** An element before [k], the same as [k] or after it *)
Lemma forall_lt_trans_l (l : list A) (x y : A) :
  Forall (fun z => lt_by z x) l -> lt_by x y -> Forall (fun z => lt_by z y) l.
Proof. intros Hl Hx. eapply Forall_impl; [exact Hl|]. intros z Hz. exact (lt_trans _ _ _ Hz Hx). Qed.

Lemma forall_lt_trans_r (l : list A) (x y : A) :
  Forall (lt_by x) l -> lt_by y x -> Forall (lt_by y) l.
Proof. intros Hl Hx. eapply Forall_impl; [exact Hl|]. intros z Hz. exact (lt_trans _ _ _ Hx Hz). Qed.

End Order.

(** ** Shape *)

Section Shape.
Context {V : Type}.
Implicit Types (t l r : tree V).

Fixpoint inorder t : list (rectype V) :=
  match t with Nil => [] | Node l r _ _ d => inorder l ++ d :: inorder r end.

Fixpoint height t : nat :=
  match t with Nil => 0 | Node l r _ _ _ => S (Nat.max (height l) (height r)) end.

(** What a balance says of the heights *)
Definition leans (b : way3) (hl hr : nat) : Prop :=
  match b with way3left => hl = S hr | way3stop => hl = hr | way3right => hr = S hl end.

Fixpoint balanced t : Prop :=
  match t with
  | Nil => True
  | Node l r b _ _ => balanced l /\ balanced r /\ leans b (height l) (height r)
  end.

Lemma height_nil t : height t = 0%nat -> t = Nil.
Proof. by destruct t. Qed.

(** The traces do not matter for any of these. *)
Lemma set_trace_shape t w :
  inorder (set_trace t w) = inorder t /\ height (set_trace t w) = height t /\
  (balanced (set_trace t w) <-> balanced t).
Proof. by destruct t. Qed.

End Shape.

(** Splits the balance facts of a goal into equations on heights. *)
Ltac shape :=
  cbn in *; rewrite <-?app_assoc in *; cbn [app] in *;
  rewrite <-?app_assoc in *; cbn [app] in *; split_and?; try done; try lia.

(** ** Insertion *)

Section Insert.
Context {V : Type}.
Variable ptrcmp : V -> V -> comparison.
Variable dup : dup_mode.
Implicit Types (t l r : tree V) (d k : rectype V).

(** A single or a double rotation on the side that has grown by one *)
Lemma restruct_left (l r : tree V) (tr : way3) d :
  balanced l -> balanced r -> balance l <> way3stop -> height l = S (S (height r)) ->
  exists t,
  (g ← restruct false way3left (Node l r way3left tr d);
   let '(g, p) := g in
   if g : bool
   then Some (set_opp (set_balance p way3stop) way3left (set_balance (stepopp p way3left) way3stop))
   else Some p) = Some t /\
  balanced t /\ height t = height l /\ inorder t = inorder l ++ d :: inorder r.
Proof.
  intros Bl Br Hb Hh. destruct l as [|a m b t0 d0]; [done|].
  destruct b; [|done|]; cbn in Bl; destruct Bl as (Ba & Bm & Hl).
  - eexists. split; [reflexivity|]. shape.
  - destruct m as [|m1 m2 b1 t1 d1]; [cbn in *; lia|]. cbn in Bm. destruct Bm as (B1 & B2 & Hl1).
    eexists. split; [reflexivity|]. destruct b1; shape.
Qed.

Lemma restruct_right (l r : tree V) (tr : way3) d :
  balanced l -> balanced r -> balance r <> way3stop -> height r = S (S (height l)) ->
  exists t,
  (g ← restruct false way3right (Node l r way3right tr d);
   let '(g, p) := g in
   if g : bool
   then Some (set_opp (set_balance p way3stop) way3right (set_balance (stepopp p way3right) way3stop))
   else Some p) = Some t /\
  balanced t /\ height t = height r /\ inorder t = inorder l ++ d :: inorder r.
Proof.
  intros Bl Br Hb Hh. destruct r as [|m a b t0 d0]; [done|].
  destruct b; [|done|]; cbn in Br; destruct Br as (Bm & Ba & Hl).
  - destruct m as [|m1 m2 b1 t1 d1]; [cbn in *; lia|]. cbn in Bm. destruct Bm as (B1 & B2 & Hl1).
    eexists. split; [reflexivity|]. destruct b1; shape.
  - eexists. split; [reflexivity|]. shape.
Qed.

(** The tree below the last node out of balance: the trace is the new balance. *)
Definition grown (t t' : tree V) : Prop :=
  balanced (trace_balances t') /\ height (trace_balances t') = S (height t) /\
  inorder (trace_balances t') = inorder t' /\
  (t <> Nil -> trace t' <> way3stop /\ insert_balance t' = Some (trace_balances t')) /\
  (t = Nil -> insert_balance t' = Some t' /\ balanced t').

(** The tree once it is balanced at an address *)
Definition settled (t t' : tree V) (p : path) : Prop :=
  exists t2, alter_slot p insert_balance t' = Some t2 /\ balanced t2 /\ height t2 = height t /\
    inorder t2 = inorder t'.

Lemma trace_balances_balance t : trace t <> way3stop \/ t = Nil -> balance (trace_balances t) = trace t.
Proof. destruct t as [|l r b [] d]; cbn; tauto. Qed.

Lemma insert_walk_shape (k : rectype V) t : forall at_ a t' a',
  balanced t -> insert_walk ptrcmp dup k t at_ a = Some (t', a', true) ->
  (a' = a /\ grown t t') \/ (exists p, a' = at_ ++ p /\ settled t t' p).
Proof.
  induction t as [|l IHl r IHr b tr d]; intros at_ a t' a'; cbn [insert_walk].
  { intros _ [= <- <-]. left. split; [done|]. by split_and!. }
  intros (Bl & Br & Hb). destruct (makeway3 (compkey ptrcmp dup k d)) eqn:Ew; cbn [way3eq].
  - destruct (insert_walk ptrcmp dup k l _ _) as [[[c ac] add]|] eqn:E; cbn [mbind option_bind]; [|done].
    intros [= <- <- ->]. cbn [set_way set_trace].
    apply IHl in E as [[-> (G1 & G2 & G3 & G4 & G5)]|(p & -> & t2 & Ht2 & B2 & H2 & I2)]; [| |done].
    + destruct b; cbn [way3eq] in *.
      * right. exists []. split; [by rewrite app_nil_r|]. unfold settled. cbn [alter_slot].
        destruct (restruct_left (trace_balances c) r way3left d G1 Br) as (t2 & Ht2 & ? & ? & Hi).
        { destruct l as [|ll lr lb lt ld]; [cbn in Hb; lia|]. destruct G4 as [Ht _]; [done|].
          rewrite trace_balances_balance by (by left). done. }
        { cbn in Hb. lia. }
        exists t2. split; [exact Ht2|]. split; [done|]. cbn [height inorder] in *. rewrite Hi, G3.
        split; [cbn in Hb; lia|done].
      * left. split; [done|]. unfold grown. cbn. rewrite G3, G2. cbn in Hb.
        split_and!; try done; try lia; try (intros _; by split).
      * right. exists []. split; [by rewrite app_nil_r|]. unfold settled. cbn. eexists.
        split; [reflexivity|]. cbn in *. rewrite G3, G2. split_and!; try done; lia.
    + right. exists (way3left :: p). split; [by rewrite <-app_assoc|]. exists (Node t2 r b way3left d).
      cbn [alter_slot stepway]. rewrite Ht2. cbn. rewrite H2, I2. done.
  - destruct dup; [done|done|]. by destruct (duprec d).
  - destruct (insert_walk ptrcmp dup k r _ _) as [[[c ac] add]|] eqn:E; cbn [mbind option_bind]; [|done].
    intros [= <- <- ->]. cbn [set_way set_trace].
    apply IHr in E as [[-> (G1 & G2 & G3 & G4 & G5)]|(p & -> & t2 & Ht2 & B2 & H2 & I2)]; [| |done].
    + destruct b; cbn [way3eq] in *.
      * right. exists []. split; [by rewrite app_nil_r|]. unfold settled. cbn. eexists.
        split; [reflexivity|]. cbn in *. rewrite G3, G2. split_and!; try done; lia.
      * left. split; [done|]. unfold grown. cbn. rewrite G3, G2. cbn in Hb.
        split_and!; try done; try lia; try (intros _; by split).
      * right. exists []. split; [by rewrite app_nil_r|]. unfold settled. cbn [alter_slot].
        destruct (restruct_right l (trace_balances c) way3right d Bl G1) as (t2 & Ht2 & ? & ? & Hi).
        { destruct r as [|ll lr lb lt ld]; [cbn in Hb; lia|]. destruct G4 as [Ht _]; [done|].
          rewrite trace_balances_balance by (by left). done. }
        { cbn in Hb. lia. }
        exists t2. split; [exact Ht2|]. split; [done|]. cbn [height inorder] in *. rewrite Hi, G3.
        split; [cbn in Hb; lia|done].
    + right. exists (way3right :: p). split; [by rewrite <-app_assoc|]. exists (Node l t2 b way3right d).
      cbn [alter_slot stepway]. rewrite Ht2. cbn. rewrite H2, I2. done.
Qed.

Hypothesis Hord : dup = AVL_NO_DUP_KEYS \/ total_order ptrcmp.
Let cmp := compkey ptrcmp dup.

Definition ordered t : Prop := sorted (compkey ptrcmp dup) (inorder t).

Lemma cmp_order : total_order cmp.
Proof. by apply compkey_order. Qed.

Lemma ordered_node l r (b tr : way3) d :
  ordered (Node l r b tr d) <->
  ordered l /\ ordered r /\ Forall (fun y => lt_by cmp y d) (inorder l) /\
  Forall (lt_by cmp d) (inorder r).
Proof. apply sorted_mid, cmp_order. Qed.

(** Where a record is put, or the record that was there already *)
Lemma insert_walk_order (k : rectype V) t : forall at_ a t' a' added,
  dup <> AVL_COUNT_DUPS -> ordered t -> insert_walk ptrcmp dup k t at_ a = Some (t', a', added) ->
  if added : bool then
    exists a1 a2, inorder t = a1 ++ a2 /\ inorder t' = a1 ++ set_count k 1 :: a2 /\
      Forall (fun y => lt_by cmp y k) a1 /\ Forall (lt_by cmp k) a2
  else inorder t' = inorder t /\ height t' = height t /\ (balanced t -> balanced t') /\
       exists d, d ∈ inorder t /\ cmp k d = Eq.
Proof.
  intros at_ a t' a' added Hd. revert at_ a t' a' added.
  induction t as [|l IHl r IHr b tr d]; intros at_ a t' a' added; cbn [insert_walk].
  { intros _ [= <- <- <-]. by exists [], []. }
  intros (Ol & Or & Fl & Fr)%ordered_node. fold cmp.
  destruct (cmp k d) eqn:Ek; cbn [makeway3 way3eq].
  - intros Hi. assert (Some (Node l r b tr d, a, false) = Some (t', a', added)) as [= <- <- <-].
    { rewrite <-Hi. clear -Hd. by destruct dup. }
    split_and!; try done. exists d. split; [|done]. cbn. set_solver.
  - destruct (insert_walk ptrcmp dup k l _ _) as [[[c ac] add]|] eqn:E; cbn [mbind option_bind]; [|done].
    intros [= <- <- <-]. apply IHl in E; [|done]. cbn [set_way set_trace inorder height balanced].
    destruct add.
    + destruct E as (l1 & l2 & -> & -> & F1 & F2). exists l1, (l2 ++ d :: inorder r).
      rewrite <-!app_assoc. split_and!; try done. apply Forall_app. split; [done|].
      apply Forall_cons_2; [done|]. eapply forall_lt_trans_r; [apply cmp_order|done|done].
    + destruct E as (-> & -> & Hb & d' & Hd' & He). split_and!; try done; [tauto|].
      exists d'. split; [set_solver|done].
  - destruct (insert_walk ptrcmp dup k r _ _) as [[[c ac] add]|] eqn:E; cbn [mbind option_bind]; [|done].
    apply (cmp_gt cmp cmp_order) in Ek.
    intros [= <- <- <-]. apply IHr in E; [|done]. cbn [set_way set_trace inorder height balanced].
    destruct add.
    + destruct E as (l1 & l2 & -> & -> & F1 & F2). exists (inorder l ++ d :: l1), l2.
      rewrite <-!app_assoc. split_and!; try done. apply Forall_app.
      split; [|by apply Forall_cons_2]. eapply forall_lt_trans_l; [apply cmp_order|done|done].
    + destruct E as (-> & -> & Hb & d' & Hd' & He). split_and!; try done; [tauto|].
      exists d'. split; [set_solver|done].
Qed.

Lemma insert_walk_some (k : rectype V) t : forall at_ a,
  dup <> AVL_COUNT_DUPS -> insert_walk ptrcmp dup k t at_ a <> None.
Proof.
  intros at_ a Hd. revert at_ a.
  induction t as [|l IHl r IHr b tr d]; intros at_ a; cbn [insert_walk]; [done|].
  destruct (makeway3 _); cbn [way3eq].
  - specialize (IHl (at_ ++ [way3left]) (if way3eq b way3stop then a else at_)).
    by destruct (insert_walk ptrcmp dup k l _ _) as [[[]]|].
  - by destruct dup.
  - specialize (IHr (at_ ++ [way3right]) (if way3eq b way3stop then a else at_)).
    by destruct (insert_walk ptrcmp dup k r _ _) as [[[]]|].
Qed.

(** Adding a record *)
Lemma insert_eq t (k : rectype V) :
  dup <> AVL_COUNT_DUPS -> ordered t -> balanced t ->
  exists t' added, avltree_insert ptrcmp dup t k = Some (t', added) /\ balanced t' /\
    if added : bool then
      exists a1 a2, inorder t = a1 ++ a2 /\ inorder t' = a1 ++ set_count k 1 :: a2 /\
        Forall (fun y => lt_by cmp y k) a1 /\ Forall (lt_by cmp k) a2
    else inorder t' = inorder t /\ exists d, d ∈ inorder t /\ cmp k d = Eq.
Proof.
  intros Hd Ho Hb. unfold avltree_insert.
  destruct (insert_walk ptrcmp dup k t [] []) as [[[t1 a] added]|] eqn:E;
    [|by apply insert_walk_some in E]. cbn [mbind option_bind].
  pose proof (insert_walk_order _ _ _ _ _ _ _ Hd Ho E) as Hi. destruct added.
  - assert (exists t2, alter_slot a insert_balance t1 = Some t2 /\ balanced t2 /\
              inorder t2 = inorder t1) as (t2 & -> & B2 & I2).
    { apply insert_walk_shape in E as [[-> (G1 & G2 & G3 & G4 & G5)]|(p & -> & t2 & Ht2 & B & _ & I)];
        [| |done].
      - cbn [alter_slot]. destruct t as [|l r b tr d].
        + destruct G5 as [Ht ?]; [done|]. by exists t1.
        + destruct G4 as [_ Ht]; [done|]. by exists (trace_balances t1).
      - cbn [app]. rewrite Ht2. by exists t2. }
    cbn. exists t2, true. rewrite I2. done.
  - exists t1, false. destruct Hi as (Hi & _ & Hbal & Hd'). auto.
Qed.

End Insert.

(** ** Trees up to their traces *)

Section Strip.
Context {V : Type}.
Implicit Types (t l r : tree V) (d k : rectype V).

Fixpoint strip t : tree V :=
  match t with Nil => Nil | Node l r b _ d => Node (strip l) (strip r) b way3stop d end.

Lemma strip_inorder t : inorder (strip t) = inorder t.
Proof. induction t as [|l IHl r IHr b tr d]; cbn; congruence. Qed.
Lemma strip_height t : height (strip t) = height t.
Proof. induction t as [|l IHl r IHr b tr d]; cbn; congruence. Qed.
Lemma strip_balanced t : balanced (strip t) <-> balanced t.
Proof. induction t as [|l IHl r IHr b tr d]; cbn; [done|]. by rewrite IHl, IHr, !strip_height. Qed.

Lemma strip_same t t' :
  strip t = strip t' -> inorder t = inorder t' /\ height t = height t' /\ (balanced t <-> balanced t').
Proof.
  intros Hs. by rewrite <-(strip_inorder t), <-(strip_height t), <-(strip_balanced t), Hs,
    strip_inorder, strip_height, strip_balanced.
Qed.

Lemma strip_set_trace t w : strip (set_trace t w) = strip t.
Proof. by destruct t. Qed.

Lemma strip_set_way t w c : strip c = strip (stepway t w) -> strip (set_way t w c) = strip t.
Proof. destruct t; [done|]. destruct w; cbn; by intros ->. Qed.

(** The records after the mark and before it: the mark is where the traces
    lead, a node or a place between two. *)
Fixpoint after_mark t : list (rectype V) :=
  match t with
  | Nil => []
  | Node l r _ w d =>
      match w with
      | way3left => after_mark l ++ d :: inorder r
      | way3stop => inorder r
      | way3right => after_mark r
      end
  end.

Fixpoint before_mark t : list (rectype V) :=
  match t with
  | Nil => []
  | Node l r _ w d =>
      match w with
      | way3left => before_mark l
      | way3stop => inorder l
      | way3right => inorder l ++ d :: before_mark r
      end
  end.

Lemma first_spec t :
  strip (avltree_first t) = strip t /\ after_mark (avltree_first t) = inorder t /\
  before_mark (avltree_first t) = [].
Proof.
  induction t as [|l (Hs & Ha & Hb) r _ b tr d]; [done|]. cbn. by rewrite Hs, Ha, Hb.
Qed.

Lemma last_spec t :
  strip (avltree_last t) = strip t /\ after_mark (avltree_last t) = [] /\
  before_mark (avltree_last t) = inorder t.
Proof.
  induction t as [|l _ r (Hs & Ha & Hb) b tr d]; [done|]. cbn. by rewrite Hs, Ha, Hb.
Qed.

(** The walk to the least or the greatest record of a subtree *)
Lemma extreme_left_spec t :
  t <> Nil ->
  let '(t', res) := extreme true way3left t in
  strip t' = strip t /\ res = head (inorder t) /\ res <> None /\ after_mark t' = tail (inorder t) /\
  before_mark t' = [].
Proof.
  induction t as [|l IHl r _ b tr d]; [done|]. intros _. cbn [extreme].
  destruct l as [|ll lr lb lt ld]; [done|]. set (l := Node ll lr lb lt ld) in *.
  specialize (IHl ltac:(done)). destruct (extreme true way3left l) as [c res].
  destruct IHl as (Hs & Hr & Hne & Ha & Hb). destruct res as [x|]; [|done].
  cbn [set_way set_trace strip inorder after_mark before_mark]. rewrite Hs, Ha, Hb.
  destruct (inorder l) as [|y ys]; [done|]. cbn in Hr |- *. by injection Hr as ->.
Qed.

Lemma extreme_right_spec t :
  t <> Nil ->
  let '(t', res) := extreme true way3right t in
  strip t' = strip t /\ res = last (inorder t) /\ res <> None /\
  (forall x, res = Some x -> inorder t = before_mark t' ++ [x]) /\ after_mark t' = [].
Proof.
  induction t as [|l _ r IHr b tr d]; [done|]. intros _. cbn [extreme].
  destruct r as [|rl rr rb rt rd].
  { cbn. rewrite last_snoc. split_and!; try done. by intros x [= <-]. }
  set (r := Node rl rr rb rt rd) in *.
  specialize (IHr ltac:(done)). destruct (extreme true way3right r) as [c res].
  destruct IHr as (Hs & Hr & Hne & Hb & Ha). destruct res as [x|]; [|done].
  cbn [set_way set_trace strip inorder after_mark before_mark]. rewrite Hs, Ha.
  specialize (Hb x eq_refl). rewrite Hb. split_and!; try done.
  - rewrite app_comm_cons, app_assoc. by rewrite last_snoc.
  - intros y [= <-]. by rewrite <-app_assoc.
Qed.

Variable ptrcmp : V -> V -> comparison.
Variable dup : dup_mode.

Definition next_flags : Z := Z.lor SRF_FROMMARK (Z.lor SRF_SETMARK SRF_FINDGREAT).
Definition prev_flags : Z := Z.lor SRF_FROMMARK (Z.lor SRF_SETMARK SRF_FINDLESS).

(** One step of the iteration *)
Lemma next_loop_spec k t :
  let '(t', res) := search_loop ptrcmp dup next_flags way3right k t in
  strip t' = strip t /\ res = head (after_mark t) /\ after_mark t' = tail (after_mark t).
Proof.
  induction t as [|l IHl r IHr b tr d]; [done|]. cbn [search_loop].
  change (srf next_flags SRF_SETMARK) with true. change (srf next_flags SRF_FROMMARK) with true.
  change (srf next_flags SRF_FINDEQUAL) with false. cbn iota. destruct tr; cbn [way3eq].
  - destruct (search_loop _ _ _ _ _ l) as [c res]. destruct IHl as (Hs & Hr & Ha).
    cbn [set_way set_trace after_mark]. destruct res as [x|].
    + cbn [strip]. cbn [after_mark]. rewrite Hs, Ha. destruct (after_mark l); [done|].
      by injection Hr as ->.
    + cbn. rewrite Hs. destruct (after_mark l); [done|]. done.
  - cbn [stepway]. destruct (is_nil r) eqn:En.
    + destruct r; [done|discriminate].
    + pose proof (extreme_left_spec r) as He. cbn [way3opp].
      destruct (extreme true way3left r) as [q res].
      destruct He as (Hs & Hr & _ & Ha & _); [by destruct r|]. cbn. by rewrite Hs, Ha.
  - destruct (search_loop _ _ _ _ _ r) as [c res]. destruct IHr as (Hs & Hr & Ha).
    cbn [set_way set_trace after_mark]. destruct res as [x|]; cbn; rewrite Hs, Ha; done.
Qed.

Lemma prev_loop_spec k t :
  let '(t', res) := search_loop ptrcmp dup prev_flags way3left k t in
  strip t' = strip t /\ res = last (before_mark t) /\
  (forall x, res = Some x -> before_mark t = before_mark t' ++ [x]) /\
  (res = None -> before_mark t' = []).
Proof.
  induction t as [|l IHl r IHr b tr d]; [done|]. cbn [search_loop].
  change (srf prev_flags SRF_SETMARK) with true. change (srf prev_flags SRF_FROMMARK) with true.
  change (srf prev_flags SRF_FINDEQUAL) with false. cbn iota. destruct tr; cbn [way3eq].
  - destruct (search_loop _ _ _ _ _ l) as [c res]. destruct IHl as (Hs & Hr & Ha & Hn).
    cbn [set_way set_trace before_mark]. destruct res as [x|]; cbn; rewrite Hs; done.
  - cbn [stepway]. destruct (is_nil l) eqn:En.
    + destruct l; [done|discriminate].
    + pose proof (extreme_right_spec l) as He. cbn [way3opp].
      destruct (extreme true way3right l) as [q res].
      destruct He as (Hs & Hr & Hne & Ha & _); [by destruct l|]. cbn. by rewrite Hs.
  - destruct (search_loop _ _ _ _ _ r) as [c res]. destruct IHr as (Hs & Hr & Ha & Hn).
    cbn [set_way set_trace before_mark]. destruct res as [x|].
    + cbn. rewrite Hs. specialize (Ha x eq_refl). rewrite Ha. split_and!; try done.
      * rewrite app_comm_cons, app_assoc. by rewrite last_snoc.
      * intros y [= <-]. by rewrite <-app_assoc.
    + cbn. rewrite Hs. assert (before_mark r = []) as ->.
      { destruct (before_mark r) as [|y ys] using rev_ind; [done|].
        by rewrite last_snoc in Hr. }
      split_and!; try done; [by rewrite last_snoc|]. by intros y [= <-].
Qed.

Definition find_flags : Z := Z.lor SRF_FINDEQUAL (Z.lor SRF_SETMARK SRF_FINDGREAT).
Definition mark_flags : Z := Z.lor SRF_FINDEQUAL SRF_SETMARK.

Hypothesis Hord : dup = AVL_NO_DUP_KEYS \/ total_order ptrcmp.
Let cmp := compkey ptrcmp dup.

Lemma ordered_strip t t' : strip t = strip t' -> ordered ptrcmp dup t -> ordered ptrcmp dup t'.
Proof. intros Hs%strip_same. unfold ordered. by destruct Hs as (-> & _). Qed.

(** The search for a key finds the least record that is not before it, and
    marks it. *)
Lemma find_loop_spec k t :
  ordered ptrcmp dup t ->
  let '(t', res) := search_loop ptrcmp dup find_flags way3right k t in
  strip t' = strip t /\
  exists a b, inorder t = a ++ b /\ Forall (fun y => lt_by cmp y k) a /\
    Forall (fun y => cmp k y <> Gt) b /\ res = head b /\ after_mark t' = tail b.
Proof.
  induction t as [|l IHl r IHr b tr d]; intros Ho; [split; [done|by exists [], []]|]. cbn [search_loop].
  change (srf find_flags SRF_SETMARK) with true. change (srf find_flags SRF_FROMMARK) with false.
  change (srf find_flags SRF_FINDEQUAL) with true. cbn iota. fold cmp.
  apply (ordered_node ptrcmp dup Hord) in Ho as (Ol & Or & Fl & Fr). fold cmp in Fl, Fr.
  pose proof (compkey_order ptrcmp dup Hord) as Hc. fold cmp in Hc.
  assert (forall y, lt_by cmp k y -> cmp k y <> Gt) as Hng by (by intros y ->).
  destruct (cmp k d) eqn:Ek; cbn [makeway3 way3eq].
  - cbn. split; [done|]. exists (inorder l), (d :: inorder r). split_and!; try done.
    + eapply Forall_impl; [exact Fl|]. intros y Hy. apply (proj1 (cmp_gt cmp Hc k y)).
      rewrite (cmp_eq_l cmp Hc k d y Ek). exact (proj2 (cmp_gt cmp Hc d y) Hy).
    + apply Forall_cons_2; [congruence|]. eapply Forall_impl; [exact Fr|]. intros y Hy.
      rewrite (cmp_eq_l cmp Hc k d y Ek). unfold lt_by in Hy. congruence.
  - specialize (IHl Ol). destruct (search_loop _ _ _ _ _ l) as [c res].
    destruct IHl as (Hs & a1 & b1 & Hi & F1 & F2 & Hr & Ha).
    assert (Forall (fun y => cmp k y <> Gt) (b1 ++ d :: inorder r)) as F3.
    { apply Forall_app. split; [done|]. apply Forall_cons_2; [congruence|].
      eapply Forall_impl; [exact Fr|]. intros y Hy. apply Hng. by eapply (lt_trans cmp Hc k d y). }
    cbn [set_way set_trace after_mark]. destruct res as [x|]; cbn; rewrite Hs, Hi, <-app_assoc;
      (split; [done|]); exists a1, (b1 ++ d :: inorder r); (split_and!; [done..| |]).
    + by destruct b1.
    + rewrite Ha. by destruct b1.
    + by destruct b1.
    + by destruct b1.
  - apply (cmp_gt cmp Hc) in Ek. specialize (IHr Or).
    destruct (search_loop _ _ _ _ _ r) as [c res].
    destruct IHr as (Hs & a1 & b1 & Hi & F1 & F2 & Hr & Ha).
    cbn [set_way set_trace after_mark].
    assert (Forall (fun y => lt_by cmp y k) (inorder l ++ d :: a1)) as F3.
    { apply Forall_app. split; [|by apply Forall_cons_2].
      eapply (forall_lt_trans_l cmp Hc); [exact Fl|exact Ek]. }
    destruct res as [x|]; cbn; rewrite Hs, Hi; (split; [done|]);
      exists (inorder l ++ d :: a1), b1; rewrite <-app_assoc; split_and!; done.
Qed.

(** The traces lead to a key. *)
Fixpoint marks k t : Prop :=
  match t with
  | Nil => True
  | Node l r _ w d =>
      w = makeway3 (cmp k d) /\
      match w with way3left => marks k l | way3stop => True | way3right => marks k r end
  end.

Lemma mark_loop_spec k t :
  ordered ptrcmp dup t ->
  let '(t', res) := search_loop ptrcmp dup mark_flags way3stop k t in
  strip t' = strip t /\ marks k t' /\
  match res with
  | Some d => cmp k d = Eq /\ d ∈ inorder t
  | None => Forall (fun y => cmp k y <> Eq) (inorder t)
  end.
Proof.
  induction t as [|l IHl r IHr b tr d]; intros Ho; [done|]. cbn [search_loop].
  change (srf mark_flags SRF_SETMARK) with true. change (srf mark_flags SRF_FROMMARK) with false.
  change (srf mark_flags SRF_FINDEQUAL) with true. cbn iota. fold cmp.
  apply (ordered_node ptrcmp dup Hord) in Ho as (Ol & Or & Fl & Fr). fold cmp in Fl, Fr.
  pose proof (compkey_order ptrcmp dup Hord) as Hc. fold cmp in Hc.
  destruct (cmp k d) eqn:Ek; cbn [makeway3 way3eq].
  - cbn. rewrite Ek. split_and!; try done. set_solver.
  - specialize (IHl Ol). destruct (search_loop _ _ _ _ _ l) as [c res].
    destruct IHl as (Hs & Hm & Hr). cbn [set_way set_trace way3opp way3eq].
    assert (marks k (Node c r b way3left d)) as Hm' by (cbn; by rewrite Ek).
    destruct res as [x|]; (split; [cbn; by rewrite Hs|]); (split; [done|]); cbn.
    + destruct Hr as [? ?]. split; [done|set_solver].
    + apply Forall_app. split; [done|]. apply Forall_cons_2; [congruence|].
      eapply Forall_impl; [exact Fr|]. intros y Hy.
      assert (lt_by cmp k y) as Hky by (by eapply (lt_trans cmp Hc k d y)).
      unfold lt_by in Hky. congruence.
  - specialize (IHr Or). destruct (search_loop _ _ _ _ _ r) as [c res].
    destruct IHr as (Hs & Hm & Hr). cbn [set_way set_trace way3opp way3eq].
    assert (marks k (Node l c b way3right d)) as Hm' by (cbn; by rewrite Ek).
    destruct res as [x|]; (split; [cbn; by rewrite Hs|]); (split; [done|]); cbn.
    + destruct Hr as [? ?]. split; [done|set_solver].
    + apply Forall_app. split; [|apply Forall_cons_2; [congruence|done]].
      eapply Forall_impl; [exact Fl|]. intros y Hy. apply (cmp_gt cmp Hc) in Ek.
      assert (lt_by cmp y k) as Hyk by (by eapply (lt_trans cmp Hc y d k)).
      apply (cmp_gt cmp Hc) in Hyk. congruence.
Qed.

(** From the mark or by comparing, the way down of a deletion is the same. *)
Lemma delete_walk_marks k t : forall at_ w,
  marks k t \/ w_aaa w <> way3stop ->
  delete_walk ptrcmp dup true k t at_ w = delete_walk ptrcmp dup false k t at_ w.
Proof.
  induction t as [|l IHl r IHr b tr d]; intros at_ w Hm; [done|]. cbn [delete_walk]. fold cmp.
  destruct (decide (w_aaa w = way3stop)) as [Hw|Hw].
  - destruct Hm as [[Htr Hm]|?]; [|done]. rewrite Hw. cbn [way3eq negb]. rewrite <-Htr.
    destruct tr; cbn [way3eq].
    + destruct (if way3eq b way3stop then _ else _) as [h|]; cbn [mbind option_bind]; [|done].
      rewrite IHl; [done|by left].
    + destruct b; cbn [way3eq negb way3opp];
        (destruct (if _ then Some true else _) as [h|] || idtac);
        cbn [mbind option_bind way3eq is_nil]; try rewrite IHl by (by right); try rewrite IHr by (by right);
        try done.
      all: repeat case_match; cbn [mbind option_bind]; try rewrite IHl by (by right);
        try rewrite IHr by (by right); done.
    + destruct (if way3eq b way3stop then _ else _) as [h|]; cbn [mbind option_bind]; [|done].
      rewrite IHr; [done|by left].
  - destruct (w_aaa w) eqn:Ew; cbn [way3eq negb]; [|done|].
    + destruct (if way3eq b way3stop then _ else _) as [h|]; cbn [mbind option_bind]; [|done].
      rewrite IHl; [done|right; cbn; congruence].
    + destruct (if way3eq b way3stop then _ else _) as [h|]; cbn [mbind option_bind]; [|done].
      rewrite IHr; [done|right; cbn; congruence].
Qed.

End Strip.

(** ** Deletion *)

Section Delete.
Context {V : Type}.
Implicit Types (t l r : tree V) (d : rectype V).

(** A node whose smaller side has shrunk absorbs it, or shrinks itself. *)
Definition absorbs (t : tree V) (aa : way3) : bool :=
  way3eq (balance t) way3stop ||
  (negb (way3eq (balance t) aa) && way3eq (balance (stepopp t aa)) way3stop).

Lemma shrink_left l1 l2 r (b x : way3) d (rem : path) :
  delete_balance rem l1 = Some l2 -> balanced l2 -> balanced r ->
  leans b (S (height l2)) (height r) ->
  exists t2, delete_balance (x :: rem) (Node l1 r b way3left d) = Some t2 /\ balanced t2 /\
    inorder t2 = inorder l2 ++ d :: inorder r /\
    height t2 = if absorbs (Node l1 r b way3left d) way3left
                then S (Nat.max (S (height l2)) (height r)) else Nat.max (S (height l2)) (height r).
Proof.
  intros Hd Bl Br Hb. destruct b.
  - eexists. split; [cbn; rewrite Hd; reflexivity|]. shape.
  - eexists. split; [cbn; rewrite Hd; reflexivity|]. shape.
  - destruct r as [|m a rb rt rd]; [cbn in Hb; lia|]. cbn in Br. destruct Br as (Bm & Ba & Hr).
    destruct rb.
    + destruct m as [|m1 m2 mb mt md]; [cbn in *; lia|]. cbn in Bm. destruct Bm as (B1 & B2 & Hm).
      eexists. split; [cbn; rewrite Hd; reflexivity|]. destruct mb; shape.
    + eexists. split; [cbn; rewrite Hd; reflexivity|]. shape.
    + eexists. split; [cbn; rewrite Hd; reflexivity|]. shape.
Qed.

Lemma shrink_right r1 r2 l (b x : way3) d (rem : path) :
  delete_balance rem r1 = Some r2 -> balanced r2 -> balanced l ->
  leans b (height l) (S (height r2)) ->
  exists t2, delete_balance (x :: rem) (Node l r1 b way3right d) = Some t2 /\ balanced t2 /\
    inorder t2 = inorder l ++ d :: inorder r2 /\
    height t2 = if absorbs (Node l r1 b way3right d) way3right
                then S (Nat.max (height l) (S (height r2))) else Nat.max (height l) (S (height r2)).
Proof.
  intros Hd Br Bl Hb. destruct b.
  - destruct l as [|a m lb lt ld]; [cbn in Hb; lia|]. cbn in Bl. destruct Bl as (Ba & Bm & Hl).
    destruct lb.
    + eexists. split; [cbn; rewrite Hd; reflexivity|]. shape.
    + eexists. split; [cbn; rewrite Hd; reflexivity|]. shape.
    + destruct m as [|m1 m2 mb mt md]; [cbn in *; lia|]. cbn in Bm. destruct Bm as (B1 & B2 & Hm).
      eexists. split; [cbn; rewrite Hd; reflexivity|]. destruct mb; shape.
  - eexists. split; [cbn; rewrite Hd; reflexivity|]. shape.
  - eexists. split; [cbn; rewrite Hd; reflexivity|]. shape.
Qed.

(** The test of the way down, which never meets a NULL sibling *)
Lemma stop_here_eq l r (b tr aa : way3) d :
  balanced (Node l r b tr d) -> aa <> way3stop ->
  (if way3eq b way3stop then Some true
   else if way3eq b aa then Some false
   else if is_nil (stepopp (Node l r b tr d) aa) then None
   else Some (way3eq (balance (stepopp (Node l r b tr d) aa)) way3stop))
  = Some (absorbs (Node l r b aa d) aa).
Proof.
  intros (Bl & Br & Hb) Ha. unfold absorbs. cbn [balance].
  destruct b, aa; try done; cbn in *.
  - destruct l; [cbn in Hb; lia|done].
  - destruct r; [cbn in Hb; lia|done].
Qed.

(** The tree once it is balanced along the way down, from its root or from an
    address in it *)
Definition shrunk t t1 (rem : path) : Prop :=
  exists t2, delete_balance rem t1 = Some t2 /\ balanced t2 /\ height t = S (height t2) /\
    inorder t2 = inorder t1.
Definition absorbed t t1 (p rem : path) : Prop :=
  exists t2, alter_slot p (delete_balance rem) t1 = Some t2 /\ balanced t2 /\
    height t2 = height t /\ inorder t2 = inorder t1.

(** What the way down through [t] at [at_] has found: [t1] is the tree without
    the node at [p], the last one. *)
Definition outcome (at_ : path) (w w' : walk V) t t1 (p : path) : Prop :=
  w_tt1 w' = at_ ++ p /\
  ((w_t w' = w_t1 w /\ shrunk t t1 p) \/
   exists p1 p2, w_t w' = at_ ++ p1 /\ p = p1 ++ p2 /\ absorbed t t1 p1 p2).

Lemma outcome_left at_ (w w1 w' : walk V) l l1 r (b tr : way3) d d' (p : path) :
  balanced (Node l r b tr d) ->
  w_t1 w1 = (if absorbs (Node l r b way3left d) way3left then at_ else w_t1 w) ->
  outcome (at_ ++ [way3left]) w1 w' l l1 p ->
  outcome at_ w w' (Node l r b tr d) (Node l1 r b way3left d') (way3left :: p).
Proof.
  intros (Bl & Br & Hb) Hw [Htt Hout]. split; [by rewrite Htt, <-app_assoc|].
  destruct Hout as [[Ht (l2 & Hd & B2 & H2 & I2)]|(p1 & p2 & Ht & -> & l2 & Hd & B2 & H2 & I2)].
  - rewrite H2 in Hb.
    destruct (shrink_left l1 l2 r b way3left d' p Hd B2 Br Hb) as (t2 & Hd2 & Bt & It & Hh).
    change (absorbs (Node l1 r b way3left d') way3left)
      with (absorbs (Node l r b way3left d) way3left) in Hh.
    rewrite Ht, Hw. destruct (absorbs (Node l r b way3left d) way3left).
    + right. exists [], (way3left :: p). split; [by rewrite app_nil_r|]. split; [done|].
      exists t2. cbn [alter_slot]. split; [done|]. split; [done|]. cbn. rewrite It, I2, H2. done.
    + left. split; [done|]. exists t2. split; [done|]. split; [done|]. cbn.
      rewrite It, I2, H2, Hh. done.
  - right. exists (way3left :: p1), p2. split; [by rewrite Ht, <-app_assoc|]. split; [done|].
    exists (Node l2 r b way3left d'). cbn [alter_slot stepway]. rewrite Hd. cbn. rewrite I2, H2. done.
Qed.

Lemma outcome_right at_ (w w1 w' : walk V) l r r1 (b tr : way3) d d' (p : path) :
  balanced (Node l r b tr d) ->
  w_t1 w1 = (if absorbs (Node l r b way3right d) way3right then at_ else w_t1 w) ->
  outcome (at_ ++ [way3right]) w1 w' r r1 p ->
  outcome at_ w w' (Node l r b tr d) (Node l r1 b way3right d') (way3right :: p).
Proof.
  intros (Bl & Br & Hb) Hw [Htt Hout]. split; [by rewrite Htt, <-app_assoc|].
  destruct Hout as [[Ht (r2 & Hd & B2 & H2 & I2)]|(p1 & p2 & Ht & -> & r2 & Hd & B2 & H2 & I2)].
  - rewrite H2 in Hb.
    destruct (shrink_right r1 r2 l b way3right d' p Hd B2 Bl Hb) as (t2 & Hd2 & Bt & It & Hh).
    change (absorbs (Node l r1 b way3right d') way3right)
      with (absorbs (Node l r b way3right d) way3right) in Hh.
    rewrite Ht, Hw. destruct (absorbs (Node l r b way3right d) way3right).
    + right. exists [], (way3right :: p). split; [by rewrite app_nil_r|]. split; [done|].
      exists t2. cbn [alter_slot]. split; [done|]. split; [done|]. cbn. rewrite It, I2, H2. done.
    + left. split; [done|]. exists t2. split; [done|]. split; [done|]. cbn.
      rewrite It, I2, H2, Hh. done.
  - right. exists (way3right :: p1), p2. split; [by rewrite Ht, <-app_assoc|]. split; [done|].
    exists (Node l r2 b way3right d'). cbn [alter_slot stepway]. rewrite Hd. cbn. rewrite I2, H2. done.
Qed.

(** Taking the node at [p] out, with its data moved to [pq] *)
Definition unlink (n : tree V) : option (tree V) := Some (stepopp n (trace n)).
Definition data_at (t : tree V) (d : rectype V) : Prop :=
  match t with Nil => False | Node _ _ _ _ d' => d' = d end.

Definition prepare (p pq : path) t : option (tree V) :=
  t1 ← alter_slot p unlink t;
  if bool_decide (p = pq) then Some t1
  else match slot p t with
       | Nil => None
       | Node _ _ _ _ d => alter_slot pq (fun n => Some (set_data n d)) t1
       end.

Lemma prepare_left (p pq : path) l l1 r (b tr : way3) d :
  prepare p pq l = Some l1 ->
  prepare (way3left :: p) (way3left :: pq) (Node l r b tr d) = Some (Node l1 r b tr d).
Proof.
  unfold prepare. cbn [alter_slot slot stepway].
  destruct (alter_slot p unlink l) as [l2|]; cbn [mbind option_bind set_way]; [|done].
  rewrite (bool_decide_ext (way3left :: p = way3left :: pq) (p = pq)) by (split; congruence).
  case_bool_decide; [by intros [= ->]|]. destruct (slot p l); [done|]. intros Hs.
  cbn [alter_slot stepway]. by rewrite Hs.
Qed.

Lemma prepare_right (p pq : path) l r r1 (b tr : way3) d :
  prepare p pq r = Some r1 ->
  prepare (way3right :: p) (way3right :: pq) (Node l r b tr d) = Some (Node l r1 b tr d).
Proof.
  unfold prepare. cbn [alter_slot slot stepway].
  destruct (alter_slot p unlink r) as [r2|]; cbn [mbind option_bind set_way]; [|done].
  rewrite (bool_decide_ext (way3right :: p = way3right :: pq) (p = pq)) by (split; congruence).
  case_bool_decide; [by intros [= ->]|]. destruct (slot p r); [done|]. intros Hs.
  cbn [alter_slot stepway]. by rewrite Hs.
Qed.

Variable ptrcmp : V -> V -> comparison.
Variable dup : dup_mode.

(** The fields that the way down keeps once the record is found *)
Definition same_target (w w' : walk V) : Prop :=
  w_aaa w' = w_aaa w /\ w_qq1 w' = w_qq1 w /\ w_rr w' = w_rr w /\ w_q w' = w_q w.

(** The way to the greatest record of a subtree *)
Lemma walk_greatest k t : forall at_ w,
  t <> Nil -> balanced t -> w_aaa w = way3right ->
  exists t' w' p t1 d, delete_walk ptrcmp dup false k t at_ w = Some (t', w') /\ same_target w w' /\
    alter_slot p unlink t' = Some t1 /\ data_at (slot p t') d /\ outcome at_ w w' t t1 p /\
    inorder t = inorder t1 ++ [d].
Proof.
  induction t as [|l _ r IHr b tr d]; [done|]. intros at_ w _ Hbal Hw.
  cbn [delete_walk]. rewrite Hw. cbn [way3eq negb]. rewrite stop_here_eq by done.
  cbn [mbind option_bind w_t1 w_aaa w_qq1 w_rr w_q].
  set (w1 := Walk _ _ _ _ _ _ _). pose proof Hbal as (Bl & Br & Hb).
  destruct r as [|rl rr rb rt rd].
  - cbn [delete_walk mbind option_bind].
    eexists _, _, [], l, d. split; [reflexivity|]. split; [by split_and!|]. split; [done|].
    split; [done|]. split; [|done]. split; [by rewrite app_nil_r|]. left. split; [done|].
    exists l. split_and!; try done. destruct b; cbn in *; lia.
  - set (r := Node rl rr rb rt rd) in *.
    destruct (IHr (at_ ++ [way3right]) w1) as (r' & w' & p & r1 & pd & Hw' & Hsame & Hun & Hdat & Hout & Hin);
      [done|done|done|].
    rewrite Hw'. cbn [mbind option_bind].
    eexists _, w', (way3right :: p), (Node l r1 b way3right d), pd.
    split; [reflexivity|]. split; [|split; [|split; [|split]]].
    + destruct Hsame as (Sa & Sq & Sr & Sd). unfold same_target.
      rewrite Sa, Sq, Sr, Sd. by split_and!.
    + cbn. by rewrite Hun.
    + done.
    + eapply outcome_right; [exact Hbal| |exact Hout]. done.
    + cbn [inorder]. rewrite Hin, <-app_assoc. done.
Qed.

Lemma walk_least k t : forall at_ w,
  t <> Nil -> balanced t -> w_aaa w = way3left ->
  exists t' w' p t1 d, delete_walk ptrcmp dup false k t at_ w = Some (t', w') /\ same_target w w' /\
    alter_slot p unlink t' = Some t1 /\ data_at (slot p t') d /\ outcome at_ w w' t t1 p /\
    inorder t = d :: inorder t1.
Proof.
  induction t as [|l IHl r _ b tr d]; [done|]. intros at_ w _ Hbal Hw.
  cbn [delete_walk]. rewrite Hw. cbn [way3eq negb]. rewrite stop_here_eq by done.
  cbn [mbind option_bind w_t1 w_aaa w_qq1 w_rr w_q].
  set (w1 := Walk _ _ _ _ _ _ _). pose proof Hbal as (Bl & Br & Hb).
  destruct l as [|ll lr lb lt ld].
  - cbn [delete_walk mbind option_bind].
    eexists _, _, [], r, d. split; [reflexivity|]. split; [by split_and!|]. split; [done|].
    split; [done|]. split; [|done]. split; [by rewrite app_nil_r|]. left. split; [done|].
    exists r. by split_and!.
  - set (l := Node ll lr lb lt ld) in *.
    destruct (IHl (at_ ++ [way3left]) w1) as (l' & w' & p & l1 & pd & Hw' & Hsame & Hun & Hdat & Hout & Hin);
      [done|done|done|].
    rewrite Hw'. cbn [mbind option_bind].
    eexists _, w', (way3left :: p), (Node l1 r b way3left d), pd.
    split; [reflexivity|]. split; [|split; [|split; [|split]]].
    + destruct Hsame as (Sa & Sq & Sr & Sd). unfold same_target.
      rewrite Sa, Sq, Sr, Sd. by split_and!.
    + cbn. by rewrite Hun.
    + done.
    + eapply outcome_left; [exact Hbal| |exact Hout]. done.
    + cbn [inorder]. by rewrite Hin.
Qed.

Hypothesis Hord : dup = AVL_NO_DUP_KEYS \/ total_order ptrcmp.
Let cmp := compkey ptrcmp dup.

(** The way to the record and on to the node that is taken out *)
Definition target k (at_ : path) (w w' : walk V) t t' t1 (p pq : path) : Prop :=
  w_aaa w' <> way3stop /\ w_qq1 w' = at_ ++ pq /\ prepare p pq t' = Some t1 /\
  outcome at_ w w' t t1 p /\
  (exists x, w_t w' = w_rr w' ++ x) /\
  exists q a b, w_q w' = Some q /\ cmp k q = Eq /\ inorder t = a ++ q :: b /\ inorder t1 = a ++ b.

(** The variable [t1] of the way down at a child *)
Lemma t1_prefix (at_ : path) (w w1 : walk V) (here : bool) (aa : way3) :
  w_t1 w1 = (if here then at_ else w_t1 w) -> (exists x, at_ = w_t1 w ++ x) ->
  exists x, at_ ++ [aa] = w_t1 w1 ++ x.
Proof.
  intros -> [x Hx]. destruct here; [by exists [aa]|]. exists (x ++ [aa]). by rewrite app_assoc, <-Hx.
Qed.

Lemma outcome_prefix at_ (w w' : walk V) t t1 (p rr : path) :
  outcome at_ w w' t t1 p -> (exists x, at_ = rr ++ x) -> (exists x, w_t1 w = rr ++ x) ->
  exists x, w_t w' = rr ++ x.
Proof.
  intros [_ [[-> _]|(p1 & _ & -> & _)]] [x Hx] Hw; [done|]. exists (x ++ p1). by rewrite app_assoc, <-Hx.
Qed.

Lemma walk_found k t : forall at_ w,
  balanced t -> ordered ptrcmp dup t -> w_aaa w = way3stop -> (exists x, at_ = w_t1 w ++ x) ->
  (exists d, d ∈ inorder t /\ cmp k d = Eq) ->
  exists t' w' t1 p pq, delete_walk ptrcmp dup false k t at_ w = Some (t', w') /\
    target k at_ w w' t t' t1 p pq.
Proof.
  induction t as [|l IHl r IHr b tr d]; intros at_ w Hbal Ho Hw Hpre (d0 & Hd0 & He0);
    [by apply not_elem_of_nil in Hd0|].
  cbn [delete_walk]. rewrite Hw. cbn [way3eq negb]. fold cmp.
  apply (ordered_node ptrcmp dup Hord) in Ho as (Ol & Or & Fl & Fr). fold cmp in Fl, Fr.
  pose proof (compkey_order ptrcmp dup Hord) as Hc. fold cmp in Hc.
  pose proof Hbal as (Bl & Br & Hb). cbn in Hd0.
  destruct (cmp k d) eqn:Ek; cbn [makeway3 way3eq].
  - clear IHl IHr. destruct (way3eq b way3right) eqn:Ebr.
    + (* the right side is higher: its least record takes the place *)
      set (aa := if negb (way3eq b way3stop) then b else way3left).
      assert (aa = way3right) as -> by (subst aa; by destruct b). cbn [way3opp].
      rewrite stop_here_eq by done.
      cbn [mbind option_bind w_t1 w_aaa w_qq1 w_rr w_q]. set (w1 := Walk _ _ _ _ _ _ _).
      destruct (walk_least k r (at_ ++ [way3right]) w1)
        as (r' & w' & p & r1 & pd & Hw' & (Ha & Hqq & Hrr & Hqd) & Hun & Hdat & Hout & Hin);
        [destruct b, r; cbn in Hb; done || lia|done|done|].
      rewrite Hw'. cbn [mbind option_bind].
      eexists _, w', (Node l r1 b way3right pd), (way3right :: p), [].
      split; [reflexivity|]. unfold target. split_and!.
      * by rewrite Ha.
      * by rewrite Hqq, app_nil_r.
      * unfold prepare. cbn [set_trace set_way alter_slot stepway slot]. rewrite Hun. cbn.
        destruct (slot p r'); cbn in Hdat; [done|by subst].
      * eapply outcome_right; [exact Hbal| |exact Hout]; done.
      * rewrite Hrr. cbn [w1 w_rr]. eapply outcome_prefix; [exact Hout| |].
        -- destruct Hpre as [x Hx]. exists (x ++ [way3right]). by rewrite app_assoc, <-Hx.
        -- cbn. destruct (absorbs _ _); [done|]. exists []. by rewrite app_nil_r.
      * exists d, (inorder l), (inorder r). rewrite Hqd. split_and!; try done.
        cbn. by rewrite Hin.
    + set (aa := if negb (way3eq b way3stop) then b else way3left).
      assert (aa = way3left) as -> by (subst aa; by destruct b). cbn [way3opp].
      rewrite stop_here_eq by done.
      cbn [mbind option_bind w_t1 w_aaa w_qq1 w_rr w_q]. set (w1 := Walk _ _ _ _ _ _ _).
      destruct (is_nil l) eqn:El.
      * destruct l; [|discriminate]. assert (r = Nil) as ->.
        { apply height_nil. destruct b; cbn in Hb; try done; lia. }
        assert (b = way3stop) as -> by (by destruct b). cbn [delete_walk mbind option_bind].
        eexists _, w1, Nil, [], []. split; [reflexivity|]. unfold target. split_and!.
        -- done.
        -- by rewrite app_nil_r.
        -- done.
        -- split; [by rewrite app_nil_r|]. left. split; [done|]. by exists Nil.
        -- exists []. by rewrite app_nil_r.
        -- by exists d, [], [].
      * destruct (walk_greatest k l (at_ ++ [way3left]) w1)
          as (l' & w' & p & l1 & pd & Hw' & (Ha & Hqq & Hrr & Hqd) & Hun & Hdat & Hout & Hin);
          [by destruct l|done|done|].
        rewrite Hw'. cbn [mbind option_bind].
        eexists _, w', (Node l1 r b way3left pd), (way3left :: p), [].
        split; [reflexivity|]. unfold target. split_and!.
        -- by rewrite Ha.
        -- by rewrite Hqq, app_nil_r.
        -- unfold prepare. cbn [set_trace set_way alter_slot stepway slot]. rewrite Hun. cbn.
           destruct (slot p l'); cbn in Hdat; [done|by subst].
        -- eapply outcome_left; [exact Hbal| |exact Hout]; done.
        -- rewrite Hrr. cbn [w1 w_rr]. eapply outcome_prefix; [exact Hout| |].
           ++ destruct Hpre as [x Hx]. exists (x ++ [way3left]). by rewrite app_assoc, <-Hx.
           ++ cbn. destruct (absorbs _ _); [done|]. exists []. by rewrite app_nil_r.
        -- exists d, (inorder l), (inorder r). rewrite Hqd. split_and!; try done.
           cbn. rewrite Hin, <-app_assoc. done.
  - rewrite stop_here_eq by done.
    cbn [mbind option_bind w_t1 w_aaa w_qq1 w_rr w_q]. set (w1 := Walk _ _ _ _ _ _ _).
    destruct (IHl (at_ ++ [way3left]) w1)
      as (l' & w' & l1 & p & pq & Hw' & Ha & Hqq & Hp & Hout & Hrr & q & a & b' & Hq & Hqe & Hi & Hi1);
      [done|done|done|by eapply t1_prefix| |].
    { exists d0. split; [|done]. apply elem_of_app in Hd0 as [?|Hd0]; [done|].
      apply elem_of_cons in Hd0 as [->|Hd0]; [congruence|]. rewrite Forall_forall in Fr.
      assert (lt_by cmp k d0) as Hlt by (eapply (lt_trans cmp Hc k d); [done|by apply Fr]).
      unfold lt_by in Hlt. congruence. }
    rewrite Hw'. cbn [mbind option_bind].
    eexists _, w', (Node l1 r b way3left d), (way3left :: p), (way3left :: pq).
    split; [reflexivity|]. unfold target. split_and!; try done.
    + by rewrite Hqq, <-app_assoc.
    + by apply prepare_left.
    + eapply outcome_left; [exact Hbal| |exact Hout]; done.
    + exists q, a, (b' ++ d :: inorder r). cbn. rewrite Hi, Hi1, <-!app_assoc. done.
  - rewrite stop_here_eq by done. apply (cmp_gt cmp Hc) in Ek.
    cbn [mbind option_bind w_t1 w_aaa w_qq1 w_rr w_q]. set (w1 := Walk _ _ _ _ _ _ _).
    destruct (IHr (at_ ++ [way3right]) w1)
      as (r' & w' & r1 & p & pq & Hw' & Ha & Hqq & Hp & Hout & Hrr & q & a & b' & Hq & Hqe & Hi & Hi1);
      [done|done|done|by eapply t1_prefix| |].
    { exists d0. split; [|done]. apply elem_of_app in Hd0 as [Hd0|Hd0].
      - rewrite Forall_forall in Fl.
        assert (lt_by cmp d0 k) as Hlt by (eapply (lt_trans cmp Hc d0 d); [by apply Fl|done]).
        apply (cmp_gt cmp Hc) in Hlt. congruence.
      - apply elem_of_cons in Hd0 as [->|Hd0]; [|done]. apply (cmp_gt cmp Hc) in Ek. congruence. }
    rewrite Hw'. cbn [mbind option_bind].
    eexists _, w', (Node l r1 b way3right d), (way3right :: p), (way3right :: pq).
    split; [reflexivity|]. unfold target. split_and!; try done.
    + by rewrite Hqq, <-app_assoc.
    + by apply prepare_right.
    + eapply outcome_right; [exact Hbal| |exact Hout]; done.
    + exists q, (inorder l ++ d :: a), b'. cbn. rewrite Hi, Hi1, <-!app_assoc. done.
Qed.

Lemma unlink_slot (p : path) t :
  alter_slot p (fun _ => Some (stepopp (slot p t) (trace (slot p t)))) t = alter_slot p unlink t.
Proof.
  revert t. induction p as [|x p IH]; intros t; [done|]. cbn [alter_slot slot].
  destruct t as [|l r b tr d]; [done|]. by rewrite IH.
Qed.

(** A change of the traces above a place that was changed *)
Lemma alter_traces (f : tree V -> option (tree V)) (g : tree V -> tree V) (p x : path) :
  (forall n, strip (g n) = strip n) -> forall t1 t2,
  alter_slot (p ++ x) f t1 = Some t2 ->
  exists t3, alter_slot p (fun n => Some (g n)) t2 = Some t3 /\ strip t3 = strip t2.
Proof.
  intros Hg. induction p as [|y p IH]; intros t1 t2; cbn [app alter_slot].
  { intros _. by exists (g t2). }
  destruct t1 as [|l r b tr d]; [done|].
  destruct (alter_slot (p ++ x) f _) as [c|] eqn:E; cbn [mbind option_bind]; [|done].
  intros [= <-]. apply IH in E as (c3 & Hc & Hs).
  destruct y; cbn [set_way stepway]; rewrite Hc; cbn; eexists; (split; [done|]); cbn; by rewrite Hs.
Qed.

Lemma retrace_strip k t : strip (retrace ptrcmp dup k t) = strip t.
Proof.
  induction t as [|l IHl r IHr b tr d]; [done|]. cbn.
  destruct (makeway3 _); cbn; by rewrite ?IHl, ?IHr.
Qed.

(** Deleting the record that the mark is at *)
Lemma delete_eq k t :
  balanced t -> ordered ptrcmp dup t -> marks ptrcmp dup k t ->
  (exists d, d ∈ inorder t /\ cmp k d = Eq) ->
  exists t' q a b, avltree_delete ptrcmp dup t k true = Some (t', Some q) /\ balanced t' /\
    cmp k q = Eq /\ inorder t = a ++ q :: b /\ inorder t' = a ++ b.
Proof.
  intros Hb Ho Hm Hk. unfold avltree_delete. rewrite delete_walk_marks by (by left).
  set (w0 := Walk way3stop [] [] [] [] [] None).
  destruct (walk_found k t [] w0) as (t0 & w & t1 & p & pq & -> & Ha & Hqq & Hp & [Htt Hout] & [x Hrr] &
    q & a & b & Hq & Hqe & Hi & Hi1); [done|done|done|by exists []|done|].
  cbn [mbind option_bind]. rewrite Hq. cbn [app] in *.
  assert (exists t2, alter_slot (w_t w) (delete_balance (drop (length (w_t w)) (w_tt1 w))) t1 = Some t2 /\
    balanced t2 /\ inorder t2 = inorder t1) as (t2 & H2 & B2 & I2).
  { rewrite Htt. destruct Hout as [[-> (t2 & Hd & B2 & _ & I2)]|(p1 & p2 & -> & -> & t2 & Hd & B2 & _ & I2)].
    - cbn. by exists t2.
    - cbn [app]. rewrite drop_app_length. by exists t2. }
  assert (exists t3, alter_slot (w_rr w) (fun n => Some (retrace ptrcmp dup q n)) t2 = Some t3 /\
    strip t3 = strip t2) as (t3 & H3 & S3).
  { rewrite Hrr in H2. eapply alter_traces; [apply retrace_strip|exact H2]. }
  exists t3, q, a, b. apply strip_same in S3 as (I3 & _ & B3).
  split; [|split; [by apply B3|]]; [|by rewrite I3, I2].
  rewrite Htt, Hqq. revert Hp. unfold prepare. rewrite <-unlink_slot.
  destruct (alter_slot p _ t0) as [u|] eqn:Eu; cbn [mbind option_bind]; [|done]. intros Hp.
  assert ((if bool_decide (p = pq) then Some u
           else match slot p t0 with
                | Nil => None
                | Node _ _ _ _ d => alter_slot pq (fun n => Some (set_data n d)) u
                end) = Some t1) as Hp' by exact Hp.
  rewrite Htt in H2.
  destruct (w_aaa w); [|done|]; rewrite Hp'; cbn [mbind option_bind]; rewrite H2;
    cbn [mbind option_bind]; by rewrite H3.
Qed.

End Delete.

End AvlProps.
