(* ===== verification/AvlIndex.v ===== *)
(** * The functions on an index

    [avl_add_key], [avl_find_key], [avl_delete_key] and the iteration of
    [src/lib/Libutil/avltree.c] as operations on a sorted list, the height of a
    tree, and the instance of the index interface that [Entlim] is proved
    against. *)

From Stdlib Require Import ZArith Lia Ascii String Sorted.
From S2P Require Import Prelude Index AvlTree AvlProps.
Import Avl AvlProps.

Module AvlIndex.

Section Spec.
Context {V : Type}.
Variable ptrcmp : V -> V -> comparison.
Variable null : V.
Implicit Types (pe : rectype V) (pix : AVL_IX_DESC V).

(** An index without counted repetitions, in order and in balance *)
Record wf pix : Prop := {
  wf_dup : dup_keys pix = AVL_NO_DUP_KEYS \/
           dup_keys pix = AVL_DUP_KEYS_OK /\ total_order ptrcmp;
  wf_ordered : ordered ptrcmp (dup_keys pix) (root pix);
  wf_balanced : balanced (root pix) }.

(** The records of an index, in order, and the comparison they are in order by *)
Definition records pix : list (rectype V) := inorder (root pix).
Definition cmp_of pix : rectype V -> rectype V -> comparison := compkey ptrcmp (dup_keys pix).

Lemma wf_order pix : wf pix -> dup_keys pix = AVL_NO_DUP_KEYS \/ total_order ptrcmp.
Proof. intros [[?|[? ?]] _ _]; auto. Qed.

Lemma wf_cmp pix : wf pix -> total_order (cmp_of pix).
Proof. intros Hw. by apply compkey_order, wf_order. Qed.

Lemma wf_no_count pix : wf pix -> dup_keys pix <> AVL_COUNT_DUPS.
Proof. intros [[->|[-> _]] _ _]; done. Qed.

Lemma wf_same pix t :
  wf pix -> strip t = strip (root pix) -> wf (Desc t (dup_keys pix)).
Proof.
  intros [Hd Ho Hb] Hs. split; [done| |].
  - by eapply ordered_strip.
  - apply strip_same in Hs as (_ & _ & Hbal). by apply Hbal.
Qed.

Lemma create_wf (dup : dup_mode) :
  dup = AVL_NO_DUP_KEYS \/ dup = AVL_DUP_KEYS_OK /\ total_order ptrcmp -> wf (avl_create_index dup).
Proof. intros Hd. split; [done| |done]. constructor. Qed.

(** What a total order says of two ways to split a sorted list *)
Lemma no_equal_split pix pe (a b : list (rectype V)) :
  wf pix -> Forall (fun y => lt_by (cmp_of pix) y pe) a -> Forall (lt_by (cmp_of pix) pe) b ->
  Forall (fun y => cmp_of pix pe y <> Eq) (a ++ b).
Proof.
  intros Hw Ha Hb. apply Forall_app. split; eapply Forall_impl; eauto; cbn; intros y Hy He.
  - apply (cmp_gt _ (wf_cmp _ Hw)) in Hy. congruence.
  - unfold lt_by in Hy. congruence.
Qed.

Lemma add_key_eq pix pe :
  wf pix ->
  exists pix' ok, avl_add_key ptrcmp pe pix = Some (pix', ok) /\ wf pix' /\
    dup_keys pix' = dup_keys pix /\
    if ok : bool then
      exists a b, records pix = a ++ b /\ records pix' = a ++ set_count pe 1 :: b /\
        Forall (fun y => lt_by (cmp_of pix) y pe) a /\ Forall (lt_by (cmp_of pix) pe) b
    else records pix' = records pix /\ exists d, d ∈ records pix /\ cmp_of pix pe d = Eq.
Proof.
  intros Hw. pose proof Hw as [Hd Ho Hb]. pose proof (wf_no_count _ Hw) as Hnc.
  destruct (insert_eq ptrcmp (dup_keys pix) (wf_order _ Hw) (root pix) pe Hnc Ho Hb)
    as (t' & added & Hi & Hb' & Hr).
  unfold avl_add_key. rewrite Hi. cbn [mbind option_bind].
  exists (Desc t' (dup_keys pix)), added.
  split; [f_equal; f_equal; destruct (dup_keys pix), added; done|].
  assert (sorted (cmp_of pix) (inorder t')) as Ho'.
  { unfold ordered in Ho. destruct added.
    - destruct Hr as (a & b & Hab & -> & Fa & Fb). rewrite Hab in Ho.
      by apply (sorted_insert _ (wf_cmp _ Hw)).
    - destruct Hr as [-> _]. done. }
  split; [by split|]. split; [done|]. done.
Qed.

Lemma delete_key_eq pix pe :
  wf pix ->
  exists pix' pe' ok, avl_delete_key ptrcmp pe pix = Some (pix', pe', ok) /\ wf pix' /\
    dup_keys pix' = dup_keys pix /\
    if ok : bool then
      exists q a b, pe' = q /\ cmp_of pix pe q = Eq /\ records pix = a ++ q :: b /\
        records pix' = a ++ b
    else records pix' = records pix /\ Forall (fun y => cmp_of pix pe y <> Eq) (records pix).
Proof.
  intros Hw. pose proof Hw as [Hd Ho Hb]. pose proof (wf_no_count _ Hw) as Hnc.
  unfold avl_delete_key, avltree_search. cbn [andb].
  change (srf (Z.lor SRF_FINDEQUAL SRF_SETMARK) SRF_FINDGREAT) with false.
  change (negb (srf (Z.lor SRF_FINDEQUAL SRF_SETMARK)
    (Z.lor SRF_FINDGREAT (Z.lor SRF_FINDEQUAL SRF_FINDLESS)))) with false.
  change (srf (Z.lor SRF_FINDEQUAL SRF_SETMARK) SRF_FINDLESS) with false. cbn [andb].
  pose proof (mark_loop_spec ptrcmp (dup_keys pix) (wf_order _ Hw) pe (root pix) Ho) as Hm.
  unfold mark_flags in Hm. destruct (search_loop _ _ _ _ _ _) as [t res]. destruct Hm as (Hs & Hm & Hr).
  pose proof (wf_same pix t Hw Hs) as Hwt. pose proof (strip_same _ _ Hs) as (Hin & _ & Hbal).
  destruct res as [d|].
  - assert (match dup_keys pix with AVL_COUNT_DUPS => set_count pe (uint32 (count pe - 1)) | _ => pe end
      = pe) as -> by (by destruct (dup_keys pix)).
    rewrite bool_decide_eq_false_2 by done. cbn [andb].
    destruct Hwt as [_ Hot Hbt]. cbn [root dup_keys] in *.
    destruct (delete_eq ptrcmp (dup_keys pix) (wf_order _ Hw) pe t Hbt Hot Hm)
      as (t' & q & a & b & -> & Hb' & Hq & Hi & Hi').
    { exists d. destruct Hr as [He Hd']. by rewrite Hin. }
    cbn [mbind option_bind default from_option id]. eexists _, q, true. split; [done|].
    split; [|split; [done|]].
    + split; [done| |done]. unfold ordered in *. cbn [root dup_keys]. rewrite Hi'. rewrite Hi in Hot.
      by eapply sorted_remove.
    + exists q, a, b. unfold records. cbn. rewrite Hin in Hi. done.
  - eexists _, pe, false. split; [done|]. split; [done|]. split; [done|].
    unfold records. cbn. by rewrite Hin.
Qed.

Lemma find_key_eq pix pe :
  wf pix ->
  let '(pix', pe', ok) := avl_find_key ptrcmp null pe pix in
  wf pix' /\ dup_keys pix' = dup_keys pix /\ records pix' = records pix /\
  exists a b, records pix = a ++ b /\
    Forall (fun y => lt_by (cmp_of pix) y (set_recptr pe null)) a /\
    Forall (fun y => cmp_of pix (set_recptr pe null) y <> Gt) b /\
    after_mark (root pix') = tail b /\ key pe' = key pe /\
    recptr pe' = match head b with Some d => recptr d | None => null end /\
    ok = match head b with Some d => bool_decide (key d = key pe) | None => false end.
Proof.
  intros Hw. pose proof Hw as [Hd Ho Hb]. unfold avl_find_key, avltree_search.
  change (srf (Z.lor SRF_FINDEQUAL (Z.lor SRF_SETMARK SRF_FINDGREAT)) SRF_FINDGREAT) with true.
  change (srf (Z.lor SRF_FINDEQUAL (Z.lor SRF_SETMARK SRF_FINDGREAT)) SRF_FINDLESS) with false.
  change (negb (srf (Z.lor SRF_FINDEQUAL (Z.lor SRF_SETMARK SRF_FINDGREAT))
    (Z.lor SRF_FINDGREAT (Z.lor SRF_FINDEQUAL SRF_FINDLESS)))) with false. cbn [andb].
  pose proof (find_loop_spec ptrcmp (dup_keys pix) (wf_order _ Hw) (set_recptr pe null) (root pix) Ho)
    as Hf.
  unfold find_flags in Hf. destruct (search_loop _ _ _ _ _ _) as [t res].
  destruct Hf as (Hs & a & b & Hab & Fa & Fb & Hr & Ha).
  pose proof (strip_same _ _ Hs) as (Hin & _ & _).
  assert (wf (Desc t (dup_keys pix))) as Hwt by (by apply wf_same).
  subst res. destruct b as [|d b]; cbn [head tail] in *.
  - split; [done|]. split; [done|]. split; [by unfold records; cbn|].
    by exists a, [].
  - split; [done|]. split; [done|]. split; [by unfold records; cbn|].
    exists a, (d :: b). split_and!; try done.
    unfold compkey. cbn [key recptr set_recptr head dup_keys].
    destruct (strcmp (key pe) (key d)) eqn:Es.
    + apply strcmp_eq in Es as Es'. rewrite bool_decide_eq_true_2 by done.
      destruct Hd as [->|[-> Ht]]; [done|]. by rewrite (cmp_refl _ Ht).
    + rewrite bool_decide_eq_false_2; [done|]. intros He. by rewrite (proj2 (strcmp_eq _ _) (eq_sym He)) in Es.
    + rewrite bool_decide_eq_false_2; [done|]. intros He. by rewrite (proj2 (strcmp_eq _ _) (eq_sym He)) in Es.
Qed.

Lemma next_key_eq pix pe :
  let '(pix', r) := avl_next_key ptrcmp pe pix in
  strip (root pix') = strip (root pix) /\ dup_keys pix' = dup_keys pix /\
  r = head (after_mark (root pix)) /\ after_mark (root pix') = tail (after_mark (root pix)).
Proof.
  unfold avl_next_key, avltree_search.
  change (srf (Z.lor SRF_FROMMARK (Z.lor SRF_SETMARK SRF_FINDGREAT)) SRF_FINDGREAT) with true.
  change (srf (Z.lor SRF_FROMMARK (Z.lor SRF_SETMARK SRF_FINDGREAT)) SRF_FINDLESS) with false.
  change (negb (srf (Z.lor SRF_FROMMARK (Z.lor SRF_SETMARK SRF_FINDGREAT))
    (Z.lor SRF_FINDGREAT (Z.lor SRF_FINDEQUAL SRF_FINDLESS)))) with false. cbn [andb].
  pose proof (next_loop_spec ptrcmp (dup_keys pix) pe (root pix)) as Hn. unfold next_flags in Hn.
  destruct (search_loop _ _ _ _ _ _) as [t res]. cbn. tauto.
Qed.

Lemma prev_key_eq pix pe :
  let '(pix', r) := avl_prev_key ptrcmp pe pix in
  strip (root pix') = strip (root pix) /\ dup_keys pix' = dup_keys pix /\
  r = last (before_mark (root pix)) /\
  before_mark (root pix') = removelast (before_mark (root pix)).
Proof.
  unfold avl_prev_key, avltree_search.
  change (srf (Z.lor SRF_FROMMARK (Z.lor SRF_SETMARK SRF_FINDLESS)) SRF_FINDGREAT) with false.
  change (srf (Z.lor SRF_FROMMARK (Z.lor SRF_SETMARK SRF_FINDLESS)) SRF_FINDLESS) with true.
  change (negb (srf (Z.lor SRF_FROMMARK (Z.lor SRF_SETMARK SRF_FINDLESS))
    (Z.lor SRF_FINDGREAT (Z.lor SRF_FINDEQUAL SRF_FINDLESS)))) with false. cbn [andb].
  pose proof (prev_loop_spec ptrcmp (dup_keys pix) pe (root pix)) as Hn. unfold prev_flags in Hn.
  destruct (search_loop _ _ _ _ _ _) as [t res]. destruct Hn as (Hs & Hr & Hb & Hn). cbn.
  split_and!; try done. destruct res as [x|].
  - rewrite (Hb x eq_refl). by rewrite removelast_last.
  - rewrite (Hn eq_refl). destruct (before_mark (root pix)) as [|y ys] using rev_ind; [done|].
    by rewrite last_snoc in Hr.
Qed.

(** Adding a record to an index in order and in balance never fails to
    end, and leaves it in order and in balance: a record that compares equal to
    none goes to its place in the order, and one that compares equal to another
    is refused and changes nothing. *)
Theorem add_key_spec pix pe :
  wf pix ->
  exists pix' ok, avl_add_key ptrcmp pe pix = Some (pix', ok) /\ wf pix' /\
    if ok : bool then
      exists a b, records pix = a ++ b /\ records pix' = a ++ set_count pe 1 :: b /\
        Forall (fun y => cmp_of pix pe y <> Eq) (records pix)
    else records pix' = records pix /\ exists d, d ∈ records pix /\ cmp_of pix pe d = Eq.
Proof.
  intros Hw. destruct (add_key_eq pix pe Hw) as (pix' & ok & -> & Hw' & _ & Hr).
  exists pix', ok. split; [done|]. split; [done|]. destruct ok; [|done].
  destruct Hr as (a & b & Hab & Hab' & Fa & Fb). exists a, b. split; [done|]. split; [done|].
  rewrite Hab. by eapply no_equal_split.
Qed.

(** Deleting from an index in order and in balance never fails to end and
    leaves it in order and in balance: it takes out the one record that
    compares equal and gives it back, or refuses and changes nothing when there
    is none. *)
Theorem delete_key_spec pix pe :
  wf pix ->
  exists pix' pe' ok, avl_delete_key ptrcmp pe pix = Some (pix', pe', ok) /\ wf pix' /\
    if ok : bool then
      exists a b, cmp_of pix pe pe' = Eq /\ records pix = a ++ pe' :: b /\ records pix' = a ++ b
    else records pix' = records pix /\ Forall (fun y => cmp_of pix pe y <> Eq) (records pix).
Proof.
  intros Hw. destruct (delete_key_eq pix pe Hw) as (pix' & pe' & ok & -> & Hw' & _ & Hr).
  exists pix', pe', ok. split; [done|]. split; [done|]. destruct ok; [|done].
  destruct Hr as (q & a & b & -> & Hq & Ha & Hb). by exists a, b.
Qed.

(** A search gives the least record not before the key and says whether it
    has the key; the iteration then goes on with the records after it. *)
Theorem find_key_spec pix pe :
  wf pix ->
  let '(pix', pe', ok) := avl_find_key ptrcmp null pe pix in
  wf pix' /\ records pix' = records pix /\
  exists a b, records pix = a ++ b /\
    Forall (fun y => cmp_of pix (set_recptr pe null) y = Gt) a /\
    Forall (fun y => cmp_of pix (set_recptr pe null) y <> Gt) b /\
    after_mark (root pix') = tail b /\
    recptr pe' = match head b with Some d => recptr d | None => null end /\
    ok = match head b with Some d => bool_decide (key d = key pe) | None => false end.
Proof.
  intros Hw. pose proof (find_key_eq pix pe Hw) as Hf.
  destruct (avl_find_key ptrcmp null pe pix) as [[pix' pe'] ok].
  destruct Hf as (Hw' & _ & Hr & a & b & Hab & Fa & Fb & Ha & _ & Hp & Hok).
  split; [done|]. split; [done|]. exists a, b. split_and!; try done.
  eapply Forall_impl; [exact Fa|]. intros y Hy. by apply (cmp_gt _ (wf_cmp _ Hw)).
Qed.

(** The records met until the end *)
Fixpoint collect (step : AVL_IX_DESC V -> AVL_IX_DESC V * option (rectype V)) (fuel : nat) pix
  : option (list (rectype V)) :=
  match fuel with
  | O => None
  | S fuel =>
      let '(pix, r) := step pix in
      match r with None => Some [] | Some d => option_map (cons d) (collect step fuel pix) end
  end.

Lemma collect_next (fuel : nat) pe : forall pix,
  (length (after_mark (root pix)) < fuel)%nat ->
  collect (avl_next_key ptrcmp pe) fuel pix = Some (after_mark (root pix)).
Proof.
  induction fuel as [|fuel IH]; intros pix Hf; [lia|]. cbn [collect].
  pose proof (next_key_eq pix pe) as Hn. destruct (avl_next_key ptrcmp pe pix) as [pix' r].
  destruct Hn as (_ & _ & -> & Ha). destruct (after_mark (root pix)) as [|d l]; [done|].
  cbn [head tail length] in *. rewrite IH by (rewrite Ha; lia). by rewrite Ha.
Qed.

Lemma collect_prev (fuel : nat) pe : forall pix,
  (length (before_mark (root pix)) < fuel)%nat ->
  collect (avl_prev_key ptrcmp pe) fuel pix = Some (rev (before_mark (root pix))).
Proof.
  induction fuel as [|fuel IH]; intros pix Hf; [lia|]. cbn [collect].
  pose proof (prev_key_eq pix pe) as Hn. destruct (avl_prev_key ptrcmp pe pix) as [pix' r].
  destruct Hn as (_ & _ & -> & Ha).
  destruct (before_mark (root pix)) as [|d l _] using rev_ind; [done|].
  rewrite removelast_last in Ha. rewrite last_snoc, length_app in *. cbn [length] in Hf.
  rewrite IH by (rewrite Ha; lia). rewrite Ha. cbn. by rewrite rev_unit.
Qed.

(** From the first key the iteration ends and meets every record once, in
    order; from the last key backwards it meets them in the reverse order. *)
Theorem iteration_spec pix pe (fuel : nat) :
  (length (records pix) < fuel)%nat ->
  collect (avl_next_key ptrcmp pe) fuel (avl_first_key pix) = Some (records pix) /\
  collect (avl_prev_key ptrcmp pe) fuel (avl_last_key pix) = Some (rev (records pix)).
Proof.
  intros Hf. unfold records in *.
  destruct (first_spec (root pix)) as (_ & Ha & _). destruct (last_spec (root pix)) as (_ & _ & Hb).
  split.
  - rewrite collect_next by (cbn; by rewrite Ha). cbn. by rewrite Ha.
  - rewrite collect_prev by (cbn; by rewrite Hb). cbn. by rewrite Hb.
Qed.

(** ** Height *)

Lemma square_sum (a b y : Z) :
  0 < a -> 0 < b -> 0 < y -> 2 * y <= a * a -> y <= b * b -> 4 * y <= (a + b) * (a + b).
Proof.
  intros Ha Hb Hy H1 H2. assert (y <= a * b); [|nia].
  assert (y * y <= (a * b) * (a * b)); [|nia].
  replace ((a * b) * (a * b)) with ((a * a) * (b * b)) by ring. nia.
Qed.

Lemma balanced_height (t : tree V) :
  balanced t ->
  2 ^ Z.of_nat (height t) <= (Z.of_nat (length (inorder t)) + 1) * (Z.of_nat (length (inorder t)) + 1).
Proof.
  induction t as [|l IHl r IHr b tr d]; [done|]. intros (Bl & Br & Hb).
  specialize (IHl Bl). specialize (IHr Br). cbn [height inorder]. rewrite length_app. cbn [length].
  set (n := Z.of_nat (length (inorder l))) in *. set (m := Z.of_nat (length (inorder r))) in *.
  replace (Z.of_nat (length (inorder l) + S (length (inorder r)))%nat + 1) with ((n + 1) + (m + 1)) by lia.
  assert (0 <= n /\ 0 <= m) as [Hn Hm] by lia.
  assert (forall h, 2 ^ Z.of_nat (S (S h)) = 4 * 2 ^ Z.of_nat h) as H4.
  { intros h. replace (Z.of_nat (S (S h))) with (2 + Z.of_nat h) by lia.
    rewrite Z.pow_add_r by lia. lia. }
  assert (forall h, 2 ^ Z.of_nat (S h) = 2 * 2 ^ Z.of_nat h) as H2.
  { intros h. rewrite Nat2Z.inj_succ, Z.pow_succ_r by lia. done. }
  assert (forall h : nat, 0 < 2 ^ Z.of_nat h) as Hp by (intros; apply Z.pow_pos_nonneg; lia).
  destruct b; cbn in Hb.
  - rewrite Hb in *. replace (Nat.max (S (height r)) (height r)) with (S (height r)) by lia.
    rewrite H4. rewrite H2 in IHl. apply square_sum; try lia; apply Hp.
  - rewrite Hb in *. rewrite Nat.max_id, H2. specialize (Hp (height r)). nia.
  - rewrite Hb in *. replace (Nat.max (height l) (S (height l))) with (S (height l)) by lia.
    rewrite H4, (Z.add_comm (n + 1)). rewrite H2 in IHr. apply square_sum; try lia; apply Hp.
Qed.

(** A sequence of additions and deletions *)
Inductive op := Add (pe : rectype V) | Del (pe : rectype V).

Fixpoint run (ops : list op) pix : option (AVL_IX_DESC V) :=
  match ops with
  | [] => Some pix
  | Add pe :: ops => r ← avl_add_key ptrcmp pe pix; run ops (fst r)
  | Del pe :: ops => r ← avl_delete_key ptrcmp pe pix; run ops (fst (fst r))
  end.

(** C40. Any sequence of additions and deletions on a new index goes through;
    the index it gives is in order, and its height is at most twice the binary
    logarithm of one more than the number of records. *)
Theorem reachable_height (dup : dup_mode) (ops : list op) :
  dup = AVL_NO_DUP_KEYS \/ dup = AVL_DUP_KEYS_OK /\ total_order ptrcmp ->
  exists pix, run ops (avl_create_index dup) = Some pix /\ wf pix /\
    2 ^ Z.of_nat (height (root pix))
    <= (Z.of_nat (length (records pix)) + 1) * (Z.of_nat (length (records pix)) + 1).
Proof.
  intros Hd. assert (forall pix, wf pix -> exists pix', run ops pix = Some pix' /\ wf pix') as Hrun.
  { induction ops as [|[pe|pe] ops IH]; intros pix Hw; cbn [run]; [by exists pix| |].
    - destruct (add_key_eq pix pe Hw) as (pix' & ok & -> & Hw' & _). by apply IH.
    - destruct (delete_key_eq pix pe Hw) as (pix' & pe' & ok & -> & Hw' & _). by apply IH. }
  destruct (Hrun _ (create_wf dup Hd)) as (pix & Hp & Hw). exists pix. split_and!; [done..|].
  apply balanced_height, Hw.
Qed.

End Spec.

(** ** A small index *)

Definition sample : AVL_IX_DESC Z :=
  default (avl_create_index AVL_NO_DUP_KEYS)
    (run Z.compare
       [Add (Rec 1 0 ["a"%char]); Add (Rec 2 0 ["b"%char]); Add (Rec 3 0 ["c"%char]);
        Add (Rec 4 0 ["d"%char]); Del (Rec 0 0 ["b"%char])]
       (avl_create_index AVL_NO_DUP_KEYS)).

Lemma sample_index_wf : wf Z.compare sample.
Proof.
  split; [by left| |].
  - unfold ordered, sorted, sample. vm_compute. repeat constructor.
  - vm_compute. tauto.
Qed.

Lemma add_key_spec_witness :
  wf Z.compare sample /\
  exists pix' ok, avl_add_key Z.compare (Rec 5 0 ["b"%char]) sample = Some (pix', ok) /\
    wf Z.compare pix'.
Proof.
  split; [exact sample_index_wf|].
  destruct (add_key_spec Z.compare sample (Rec 5 0 ["b"%char]) sample_index_wf) as (p & ok & He & Hw & _).
  exists p, ok. split; [exact He|exact Hw].
Defined.

Lemma delete_key_spec_witness :
  wf Z.compare sample /\
  exists pix' pe' ok, avl_delete_key Z.compare (Rec 0 0 ["c"%char]) sample = Some (pix', pe', ok) /\
    wf Z.compare pix'.
Proof.
  split; [exact sample_index_wf|].
  destruct (delete_key_spec Z.compare sample (Rec 0 0 ["c"%char]) sample_index_wf)
    as (p & pe & ok & He & Hw & _).
  exists p, pe, ok. split; [exact He|exact Hw].
Defined.

Lemma find_key_spec_witness :
  wf Z.compare sample /\
  records (fst (fst (avl_find_key Z.compare 0 (Rec 0 0 ["b"%char]) sample))) = records sample.
Proof.
  split; [exact sample_index_wf|].
  pose proof (find_key_spec Z.compare 0 sample (Rec 0 0 ["b"%char]) sample_index_wf) as Hf.
  destruct (avl_find_key _ _ _ _) as [[p pe] ok]. exact (proj1 (proj2 Hf)).
Defined.

Lemma iteration_spec_witness :
  (length (records sample) < 4)%nat /\
  collect (avl_next_key Z.compare (Rec 0 0 [])) 4 (avl_first_key sample) = Some (records sample).
Proof.
  assert (length (records sample) < 4)%nat as H by (vm_compute; lia).
  split; [exact H|]. exact (proj1 (iteration_spec Z.compare 0 sample (Rec 0 0 []) 4 H)).
Defined.

Lemma reachable_height_witness :
  (AVL_NO_DUP_KEYS = AVL_NO_DUP_KEYS \/ AVL_NO_DUP_KEYS = AVL_DUP_KEYS_OK /\ total_order Z.compare) /\
  exists pix, run Z.compare [Add (Rec 1 0 ["a"%char])] (avl_create_index AVL_NO_DUP_KEYS) = Some pix /\
    wf Z.compare pix.
Proof.
  assert (AVL_NO_DUP_KEYS = AVL_NO_DUP_KEYS \/
    AVL_NO_DUP_KEYS = AVL_DUP_KEYS_OK /\ total_order Z.compare) as H by (left; reflexivity).
  split; [exact H|].
  destruct (reachable_height Z.compare AVL_NO_DUP_KEYS [Add (Rec 1 0 ["a"%char])] H) as (p & Hp & Hw & _).
  exists p. split; [exact Hp|exact Hw].
Defined.

(** ** Counted repetitions *)

(** The count that deletion looks at is that of the record the caller gives, so
    one that it made with [avlkey_create] (all zero) deletes nothing although
    the code is that of success. *)
Lemma count_dups_delete :
  let pix := Desc (Node Nil Nil way3stop way3stop (Rec 1 1 ["a"%char])) AVL_COUNT_DUPS in
  exists pix' pe, avl_delete_key Z.compare (Rec 1 0 ["a"%char]) pix = Some (pix', pe, true) /\
    records pix' = records pix.
Proof. eexists _, _. split; reflexivity. Qed.

End AvlIndex.

(** * The tree as the index of the limit store

    Module [TreeIndex]: [src/lib/Libutil/entlim.c] creates its index with
    [create_tree(AVL_NO_DUP_KEYS, 0)].  That index is an implementation of
    [Index], so what is proved of the limit store holds of the store on the
    tree, and no client can tell it from the index on lists. *)

Import Avl AvlProps AvlIndex.

Module TreeIndex.

Section Ops.
Context {V : Type}.

(** A record pointer is NULL or points to a value.  Records are not compared by
    their pointers when keys are not repeated. *)
Definition ptrcmp (_ _ : option V) : comparison := Eq.
Definition t : Type := AVL_IX_DESC (option V).
Implicit Types (i : t) (k : cstring) (v : V).

(** [avl_find_key] also marks the place of the key in the tree, from which
    [avl_next_key] would go on: the index after it comes with what it finds. *)
Definition find_key k i : t * option V :=
  let '(i, pe, ok) := avl_find_key ptrcmp None (Rec None 0 k) i in
  (i, if ok : bool then recptr pe else None).

(** What is found.  The interface promises nothing of an iteration that goes on
    after another operation, and addition, deletion and the start of an iteration
    make marks of their own, so it leaves the marks out ([find_key_keeps]). *)
Definition find k i : option V := snd (find_key k i).

Definition add k v i : t * bool :=
  match avl_add_key ptrcmp (Rec (Some v) 0 k) i with
  | Some (i, ok) => (i, ok)
  | None => (i, false)
  end.

Definition delete k i : t * option V :=
  match avl_delete_key ptrcmp (Rec None 0 k) i with
  | Some (i, pe, true) => (i, recptr pe)
  | Some (i, _, false) => (i, None)
  | None => (i, None)
  end.

Definition pair_of (d : rectype (option V)) : option (cstring * V) := (fun v => (key d, v)) <$> recptr d.

Definition next i : t * option (cstring * V) :=
  let '(i, r) := avl_next_key ptrcmp (Rec None 0 []) i in (i, r ≫= pair_of).

#[export] Instance tree_index : Index t V := {
  ix_create := avl_create_index AVL_NO_DUP_KEYS;
  ix_find := find;
  ix_add := add;
  ix_delete := delete;
  ix_first := avl_first_key;
  ix_next := next }.

Record good i : Prop := {
  good_wf : wf ptrcmp i;
  good_dup : dup_keys i = AVL_NO_DUP_KEYS;
  good_ptr : Forall (fun d => is_Some (recptr d)) (records i) }.

Definition elems i : list (cstring * V) := omap pair_of (records i).
Definition rest i : list (cstring * V) := omap pair_of (after_mark (root i)).

(** ** Records and pairs *)

Lemma cmp_strcmp i (a b : rectype (option V)) : good i -> cmp_of ptrcmp i a b = strcmp (key a) (key b).
Proof.
  intros [_ Hd _]. unfold cmp_of, compkey. rewrite Hd. by destruct (strcmp (key a) (key b)).
Qed.

Lemma cmp_key i (a b : rectype (option V)) : good i -> (cmp_of ptrcmp i a b = Eq <-> key a = key b).
Proof. intros Hg. by rewrite cmp_strcmp, strcmp_eq. Qed.

Lemma pair_some (d : rectype (option V)) v : recptr d = Some v -> pair_of d = Some (key d, v).
Proof. unfold pair_of. by intros ->. Qed.

Lemma keys_of (l : list (rectype (option V))) :
  Forall (fun d => is_Some (recptr d)) l -> map fst (omap pair_of l) = map key l.
Proof.
  induction 1 as [|d l [v Hv] _ IH]; [done|]. cbn. rewrite (pair_some _ _ Hv). cbn. by f_equal.
Qed.

Lemma elem_pair (l : list (rectype (option V))) k v :
  (k, v) ∈ omap pair_of l <-> exists d, d ∈ l /\ key d = k /\ recptr d = Some v.
Proof.
  rewrite list_elem_of_omap. unfold pair_of. split.
  - intros (d & Hd & Hp). exists d. split; [done|]. destruct (recptr d); cbn in Hp; [|done]. injection Hp as Hk Hv. split; congruence.
  - intros (d & Hd & <- & Hp). exists d. split; [done|]. by rewrite Hp.
Qed.

Lemma omap_tail (l : list (rectype (option V))) :
  Forall (fun d => is_Some (recptr d)) l -> omap pair_of (tail l) = tail (omap pair_of l).
Proof. destruct 1 as [|d l [v Hv] _]; [done|]. cbn. by rewrite (pair_some _ _ Hv). Qed.

Lemma omap_head (l : list (rectype (option V))) :
  Forall (fun d => is_Some (recptr d)) l -> head l ≫= pair_of = head (omap pair_of l).
Proof. destruct 1 as [|d l [v Hv] _]; [done|]. cbn. by rewrite (pair_some _ _ Hv). Qed.

Lemma after_mark_incl (t0 : tree (option V)) d : d ∈ after_mark t0 -> d ∈ inorder t0.
Proof.
  induction t0 as [|l IHl r IHr b tr d0]; [done|]. cbn. rewrite elem_of_app, elem_of_cons.
  destruct tr; [rewrite elem_of_app, elem_of_cons; tauto|tauto|tauto].
Qed.

Lemma rest_ptr i : good i -> Forall (fun d => is_Some (recptr d)) (after_mark (root i)).
Proof.
  intros [_ _ Hp]. apply Forall_forall. intros d Hd%after_mark_incl.
  eapply Forall_forall in Hp; [exact Hp|done].
Qed.

(** ** The operations on pairs *)

Lemma elems_nodup i : good i -> NoDup (map fst (elems i)).
Proof.
  intros Hg. pose proof Hg as [Hw _ Hp]. unfold elems. rewrite keys_of by done.
  pose proof (wf_ordered _ _ Hw) as Ho. unfold ordered, sorted in Ho. fold (records i) in Ho.
  induction Ho as [|d l _ IH Hl]; cbn; [constructor|].
  apply Forall_cons in Hp as [_ Hp]. apply NoDup_cons. split; [|by apply IH].
  intros (d' & He & Hd')%list_elem_of_fmap. eapply Forall_forall in Hl; [|done].
  unfold lt_by in Hl. apply (cmp_key i d d' Hg) in He. unfold cmp_of in He. congruence.
Qed.

Lemma find_elem i k v : good i -> (find k i = Some v <-> (k, v) ∈ elems i).
Proof.
  intros Hg. pose proof Hg as [Hw _ _]. unfold find, find_key.
  pose proof (find_key_eq ptrcmp None i (Rec None 0 k) Hw) as Hf.
  destruct (avl_find_key _ _ _ _) as [[i' pe'] ok].
  destruct Hf as (_ & _ & _ & a & b & Hab & Fa & Fb & _ & _ & Hr & Hok).
  unfold elems. rewrite elem_pair. unfold set_recptr in *. cbn [recptr count key] in *. split.
  - destruct b as [|d b]; cbn in Hr, Hok; [by subst ok|]. subst ok. case_bool_decide as He; [|done].
    intros <-. exists d. rewrite Hab. split; [apply elem_of_app; right; by left|]. done.
  - intros (d & Hd & Hk & Hp). rewrite Hab in Hd. apply elem_of_app in Hd as [Hd|Hd].
    + eapply Forall_forall in Fa; [|done]. unfold lt_by in Fa.
      rewrite (proj2 (cmp_key i _ _ Hg)) in Fa by done. done.
    + destruct b as [|d0 b]; [by apply not_elem_of_nil in Hd|].
      assert (d = d0) as ->.
      { apply elem_of_cons in Hd as [->|Hd]; [done|].
        pose proof (wf_ordered _ _ Hw) as Ho. unfold ordered in Ho. fold (records i) in Ho.
        rewrite Hab in Ho. apply (sorted_mid _ (wf_cmp _ _ Hw)) in Ho as (_ & _ & _ & Ho).
        eapply Forall_forall in Ho; [|done]. apply Forall_cons in Fb as [Fb _].
        destruct Fb. apply (cmp_gt _ (wf_cmp _ _ Hw)).
        unfold lt_by in *. rewrite cmp_strcmp in * by done. cbn. by rewrite <-Hk. }
      cbn in Hr, Hok. subst ok. rewrite bool_decide_eq_true_2 by done. by rewrite Hr.
Qed.

(** What a search leaves has the same records. *)
Lemma find_key_keeps i k : good i -> good (fst (find_key k i)) /\ elems (fst (find_key k i)) = elems i.
Proof.
  intros Hg. pose proof Hg as [Hw Hd Hp]. unfold find_key.
  pose proof (find_key_eq ptrcmp None i (Rec None 0 k) Hw) as Hf.
  destruct (avl_find_key _ _ _ _) as [[i' pe'] ok]. destruct Hf as (Hw' & Hd' & Hr & _). cbn.
  split; [split; [done|congruence|by rewrite Hr]|]. unfold elems. by rewrite Hr.
Qed.

(** What is found is what is among the pairs. *)
Lemma find_same i i' k k' :
  good i -> good i' -> (forall v, (k, v) ∈ elems i <-> (k', v) ∈ elems i') -> find k i = find k' i'.
Proof.
  intros Hg Hg' He. apply option_eq. intros v. by rewrite !find_elem.
Qed.

Lemma find_none i k : good i -> (find k i = None <-> forall d, d ∈ records i -> key d <> k).
Proof.
  intros Hg. pose proof (good_ptr _ Hg) as Hp. split.
  - intros Hf d Hd Hk. eapply Forall_forall in Hp; [|done]. destruct Hp as [v Hv].
    assert (find k i = Some v) as Hs; [|congruence]. apply find_elem, elem_pair; [done|]. by exists d.
  - intros Hn. destruct (find k i) as [v|] eqn:Hf; [|done]. apply find_elem in Hf; [|done].
    apply elem_pair in Hf as (d & Hd & Hk & _). by apply Hn in Hk.
Qed.

Lemma add_good i k v :
  good i ->
  exists i' ok, add k v i = (i', ok) /\ good i' /\ ok = bool_decide (find k i = None) /\
    forall k', find k' i' = if bool_decide (k' = k) then Some (default v (find k i)) else find k' i.
Proof.
  intros Hg. pose proof Hg as [Hw Hd Hp]. unfold add.
  destruct (add_key_eq ptrcmp i (Rec (Some v) 0 k) Hw) as (i' & ok & -> & Hw' & Hd' & Hr).
  exists i', ok. split; [done|]. destruct ok.
  - destruct Hr as (a & b & Hab & Hab' & Fa & Fb).
    assert (good i') as Hg'.
    { split; [done|congruence|]. rewrite Hab'. rewrite Hab in Hp. apply Forall_app in Hp as [??].
      apply Forall_app. split; [done|]. by constructor. }
    assert (find k i = None) as Hn.
    { apply find_none; [done|]. rewrite Hab. intros d Hin.
      pose proof (no_equal_split ptrcmp i _ a b Hw Fa Fb) as Hne. eapply Forall_forall in Hne; [|done].
      intros Hk. destruct Hne. by apply cmp_key. }
    split; [done|]. split; [by rewrite bool_decide_eq_true_2|]. intros k'. case_bool_decide as Hk.
    + subst k'. apply find_elem, elem_pair; [done|]. rewrite Hn. rewrite Hab'.
      eexists. split; [apply elem_of_app; right; by left|]. done.
    + apply find_same; [done..|]. intros v'. unfold elems. rewrite !elem_pair, Hab, Hab'.
      split; intros (d & Hin & Hkd & Hv); exists d; (split; [|done]);
        rewrite elem_of_app, ?elem_of_cons in *; [|tauto].
      destruct Hin as [?|[->|?]]; [tauto| |tauto]. by destruct Hk.
  - destruct Hr as [Hr (d & Hin & He)].
    assert (good i') as Hg'. { split; [done|congruence|]. by rewrite Hr. }
    apply (cmp_key i _ _ Hg) in He. cbn in He.
    assert (exists v0, find k i = Some v0) as [v0 Hf].
    { destruct (find k i) eqn:E; [eauto|]. apply (proj1 (find_none i k Hg)) with d in E; [|done]. congruence. }
    split; [done|]. split; [by rewrite Hf|]. intros k'. rewrite Hf. cbn.
    assert (find k' i' = find k' i) as ->.
    { apply find_same; [done..|]. intros v'. unfold elems. by rewrite Hr. }
    case_bool_decide; by subst.
Qed.

Lemma delete_good i k :
  good i ->
  exists i' r, delete k i = (i', r) /\ good i' /\ r = find k i /\
    forall k', find k' i' = if bool_decide (k' = k) then None else find k' i.
Proof.
  intros Hg. pose proof Hg as [Hw Hd Hp]. unfold delete.
  destruct (delete_key_eq ptrcmp i (Rec None 0 k) Hw) as (i' & pe' & ok & -> & Hw' & Hd' & Hr).
  destruct ok.
  - destruct Hr as (q & a & b & -> & Hq & Hab & Hab'). exists i', (recptr q). split; [done|].
    apply (cmp_key i _ _ Hg) in Hq. cbn in Hq.
    assert (good i') as Hg'.
    { split; [done|congruence|]. rewrite Hab'. rewrite Hab in Hp. apply Forall_app in Hp as [? Hp].
      apply Forall_cons in Hp as [_ ?]. by apply Forall_app. }
    rewrite Hab in Hp. apply Forall_app in Hp as [_ Hp]. apply Forall_cons in Hp as [[v Hv] _].
    split; [done|]. split.
    { rewrite Hv. symmetry. apply find_elem, elem_pair; [done|]. exists q. rewrite Hab.
      split; [apply elem_of_app; right; by left|]. done. }
    intros k'. case_bool_decide as Hk.
    + subst k'. apply find_none; [done|]. rewrite Hab'. intros d Hin Hkd.
      pose proof (elems_nodup i Hg) as Hnd. unfold elems in Hnd. rewrite keys_of in Hnd by apply Hg.
      rewrite Hab, map_app in Hnd. cbn in Hnd. apply NoDup_app in Hnd as (_ & Hnd & Hnd').
      apply NoDup_cons in Hnd' as [Hnd' _]. apply elem_of_app in Hin as [Hin|Hin].
      * apply (Hnd k); [|rewrite <-Hq; by left]. rewrite <-Hkd. by apply list_elem_of_fmap_2.
      * apply Hnd'. rewrite <-Hq, <-Hkd. by apply list_elem_of_fmap_2.
    + apply find_same; [done..|]. intros v'. unfold elems. rewrite !elem_pair, Hab, Hab'.
      split; intros (d & Hin & Hkd & Hv'); exists d; (split; [|done]);
        rewrite elem_of_app, ?elem_of_cons in *; [tauto|].
      destruct Hin as [?|[->|?]]; [tauto| |tauto]. congruence.
  - destruct Hr as [Hr Hne]. exists i', None. split; [done|].
    assert (good i') as Hg'. { split; [done|congruence|]. by rewrite Hr. }
    assert (find k i = None) as Hn.
    { apply find_none; [done|]. intros d Hin Hk. eapply Forall_forall in Hne; [|done].
      destruct Hne. by apply cmp_key. }
    split; [done|]. split; [done|]. intros k'.
    assert (find k' i' = find k' i) as ->.
    { apply find_same; [done..|]. intros v'. unfold elems. by rewrite Hr. }
    case_bool_decide; by subst.
Qed.

Lemma next_good i :
  good i ->
  good (fst (next i)) /\ elems (fst (next i)) = elems i /\ rest (fst (next i)) = tail (rest i) /\
  snd (next i) = head (rest i).
Proof.
  intros Hg. pose proof Hg as [Hw Hd Hp]. pose proof (rest_ptr i Hg) as Hr. unfold next.
  pose proof (next_key_eq ptrcmp None i (Rec None 0 [])) as Hn.
  destruct (avl_next_key _ _ _) as [i' r]. destruct Hn as (Hs & Hd' & -> & Ha). cbn.
  pose proof (strip_same _ _ Hs) as (Hin & _ & _).
  assert (records i' = records i) as Hrec by apply Hin.
  assert (wf ptrcmp i') as Hw'.
  { destruct i' as [t' d']. cbn in Hs, Hd'. subst d'. by apply wf_same. }
  unfold elems, rest. rewrite Ha, omap_tail, omap_head, Hrec by done.
  split_and!; try done. split; [done|congruence|by rewrite Hrec].
Qed.

#[export] Program Instance tree_index_laws : IndexLaws t V := {
  ix_wf := good;
  ix_elems := elems;
  ix_rest := rest }.
Next Obligation. split; [by apply create_wf; left|done|constructor]. Qed.
Next Obligation. done. Qed.
Next Obligation. apply elems_nodup. Qed.
Next Obligation. intros i k v Hg. by apply find_elem. Qed.
Next Obligation. intros i k v Hg. cbn. by destruct (add_good i k v Hg) as (i' & ok & -> & ? & _). Qed.
Next Obligation.
  intros i k v Hg. cbn. by destruct (add_good i k v Hg) as (i' & ok & -> & _ & ? & _).
Qed.
Next Obligation.
  intros i k v k' Hg. cbn. by destruct (add_good i k v Hg) as (i' & ok & -> & _ & _ & ?).
Qed.
Next Obligation. intros i k Hg. cbn. by destruct (delete_good i k Hg) as (i' & r & -> & ? & _). Qed.
Next Obligation. intros i k Hg. cbn. by destruct (delete_good i k Hg) as (i' & r & -> & _ & ? & _). Qed.
Next Obligation.
  intros i k k' Hg. cbn. by destruct (delete_good i k Hg) as (i' & r & -> & _ & _ & ?).
Qed.
Next Obligation.
  intros i [Hw Hd Hp]. destruct (first_spec (root i)) as (Hs & _ & _).
  pose proof (strip_same _ _ Hs) as (Hin & _ & _). cbn.
  split; [by apply wf_same|done|]. unfold records. cbn. by rewrite Hin.
Qed.
Next Obligation.
  intros i _. destruct (first_spec (root i)) as (Hs & _ & _).
  pose proof (strip_same _ _ Hs) as (Hin & _ & _). unfold elems, records. cbn. by rewrite Hin.
Qed.
Next Obligation.
  intros i _. destruct (first_spec (root i)) as (_ & Ha & _). unfold rest. cbn. by rewrite Ha.
Qed.
Next Obligation. intros i Hg. apply next_good, Hg. Qed.
Next Obligation. intros i Hg. apply next_good, Hg. Qed.
Next Obligation. intros i Hg. apply next_good, Hg. Qed.
Next Obligation. intros i Hg. apply next_good, Hg. Qed.

End Ops.
Arguments t : clear implicits.
End TreeIndex.

#[export] Existing Instance TreeIndex.tree_index.
#[export] Existing Instance TreeIndex.tree_index_laws.

Module Refinement.

(** What a client can ask of an index and what it is told *)
Inductive request (V : Type) := Add (k : cstring) (v : V) | Find (k : cstring) | Delete (k : cstring).
Arguments Add {V}.
Arguments Find {V}.
Arguments Delete {V}.

Section Run.
Context {I V : Type} `{Index I V}.

Definition answer (i : I) (r : request V) : I * (bool + option V) :=
  match r with
  | Add k v => let '(i, ok) := ix_add k v i in (i, inl ok)
  | Find k => (i, inr (ix_find k i))
  | Delete k => let '(i, v) := ix_delete k i in (i, inr v)
  end.

Fixpoint answers (i : I) (l : list (request V)) : I * list (bool + option V) :=
  match l with
  | [] => (i, [])
  | r :: l => let '(i, a) := answer i r in let '(i, l) := answers i l in (i, a :: l)
  end.

(** The records the iteration meets before it ends *)
Fixpoint iterate (fuel : nat) (i : I) : option (list (cstring * V)) :=
  match fuel with
  | O => None
  | S fuel =>
      match ix_next i with
      | (_, None) => Some []
      | (i, Some p) => cons p <$> iterate fuel i
      end
  end.

Lemma iterate_rest `{!IndexLaws I V} (fuel : nat) : forall i,
  ix_wf i -> (length (ix_rest i) < fuel)%nat -> iterate fuel i = Some (ix_rest i).
Proof.
  induction fuel as [|fuel IH]; intros i Hw Hf; [lia|]. cbn.
  pose proof (ix_next_head i Hw) as Hh. pose proof (ix_next_rest i Hw) as Hr.
  pose proof (ix_next_wf i Hw) as Hw'. destruct (ix_next i) as [i' p]. cbn in *. subst p.
  destruct (ix_rest i) as [|p l]; cbn in *; [done|]. rewrite IH; [|done|rewrite Hr; lia].
  by rewrite Hr.
Qed.

End Run.

Section Two.
Context {I J V : Type} `{IndexLaws I V} `{IndexLaws J V}.

(** Two indexes in which every key finds the same *)
Record alike (i : I) (j : J) : Prop := {
  alike_l : ix_wf i;
  alike_r : ix_wf j;
  alike_find : forall k, ix_find k i = ix_find k j }.

Lemma answer_alike (i : I) (j : J) (r : request V) :
  alike i j ->
  alike (fst (answer i r)) (fst (answer j r)) /\ snd (answer i r) = snd (answer j r).
Proof.
  intros [Hi Hj Hf]. destruct r as [k v|k|k]; cbn.
  - pose proof (ix_add_wf i k v Hi) as Hi'. pose proof (ix_add_wf j k v Hj) as Hj'.
    pose proof (ix_add_ok i k v Hi) as Oi. pose proof (ix_add_ok j k v Hj) as Oj.
    pose proof (fun k' => ix_add_find i k v k' Hi) as Fi.
    pose proof (fun k' => ix_add_find j k v k' Hj) as Fj.
    destruct (ix_add k v i), (ix_add k v j). cbn in *. subst. rewrite Hf. split; [|done].
    split; [done..|]. intros k'. by rewrite Fi, Fj, !Hf.
  - by rewrite Hf.
  - pose proof (ix_delete_wf i k Hi) as Hi'. pose proof (ix_delete_wf j k Hj) as Hj'.
    pose proof (ix_delete_ok i k Hi) as Oi. pose proof (ix_delete_ok j k Hj) as Oj.
    pose proof (fun k' => ix_delete_find i k k' Hi) as Fi.
    pose proof (fun k' => ix_delete_find j k k' Hj) as Fj.
    destruct (ix_delete k i), (ix_delete k j). cbn in *. subst. rewrite Hf. split; [|done].
    split; [done..|]. intros k'. by rewrite Fi, Fj, !Hf.
Qed.

Lemma answers_alike (l : list (request V)) : forall (i : I) (j : J),
  alike i j ->
  alike (fst (answers i l)) (fst (answers j l)) /\ snd (answers i l) = snd (answers j l).
Proof.
  induction l as [|r l IH]; intros i j Ha; [done|]. cbn.
  pose proof (answer_alike i j r Ha) as [Ha' Hr].
  destruct (answer i r) as [i1 a1], (answer j r) as [j1 b1]. cbn in Ha', Hr. subst b1.
  specialize (IH i1 j1 Ha') as [Ha2 Hl].
  destruct (answers i1 l), (answers j1 l). cbn in *. by subst.
Qed.

Lemma create_alike : alike (ix_create : I) (ix_create : J).
Proof.
  split; [apply ix_create_wf..|]. intros k.
  assert (forall (K : Type) `{IndexLaws K V}, ix_find k (ix_create : K) = None) as Hn.
  { intros K ? ?. apply ix_elems_nil; [apply ix_create_wf|apply ix_create_elems]. }
  by rewrite !Hn.
Qed.

Lemma alike_permutation (i : I) (j : J) : alike i j -> Permutation (ix_elems i) (ix_elems j).
Proof.
  intros [Hi Hj Hf]. apply NoDup_Permutation.
  - by eapply NoDup_fmap_1, ix_nodup.
  - by eapply NoDup_fmap_1, ix_nodup.
  - intros [k v]. rewrite <-!ix_find_elem by done. by rewrite Hf.
Qed.

End Two.

(** C39. The tree does what an association list does: whatever sequence of
    additions, searches and deletions is made on a new index, every answer is
    the same, and at the end the iteration over the tree ends and meets the
    records of the list, each once. *)
Theorem tree_refines_list {V : Type} (l : list (request V)) :
  let '(i, ra) := answers (ix_create : TreeIndex.t V) l in
  let '(j, rb) := answers (ix_create : ListIndex.t V) l in
  ra = rb /\
  exists recs, Permutation recs (ListIndex.elems j) /\
    forall fuel, (length recs < fuel)%nat -> iterate fuel (ix_first i) = Some recs.
Proof.
  pose proof (answers_alike (I := TreeIndex.t V) (J := ListIndex.t V) l _ _ create_alike) as [Ha Hr].
  destruct (answers (_ : TreeIndex.t V) l) as [i ra], (answers (_ : ListIndex.t V) l) as [j rb].
  cbn [fst snd] in *. split; [done|]. exists (ix_elems i). split; [exact (alike_permutation i j Ha)|].
  intros fuel Hf. pose proof (alike_l _ _ Ha) as Hw.
  rewrite <-(ix_first_rest i Hw). apply iterate_rest; [by apply ix_first_wf|].
  by rewrite ix_first_rest.
Qed.

End Refinement.
