(* ===== verification/Dis.v ===== *)
(** * Streams of the "data is strings" encoding

    The functions of [src/lib/Libdis] read and write a stream through the
    function pointers of [dis.c].  [DisR] and [DisW] are those functions as
    classes, [DisRLaws] and [DisWLaws] what the encoding relies on; the tcp
    buffers ([TcpDis]) and plain texts ([TextStream], below) are instances.

    A function of the program on a stream [S] is an [M S A] ([Prelude]). *)

From Stdlib Require Import ZArith Lia Ascii String.
From S2P Require Import Prelude.

(** [dis_getc], [dis_gets] and [disr_commit]: a character or a negative code;
    a count or a code with the characters read; a code. *)
Class DisR (S : Type) := {
  dis_getc : M S Z;
  dis_gets : Z -> M S (Z * cstring);
  disr_commit : bool -> M S Z }.

(** [dis_puts] and [disw_commit] *)
Class DisW (S : Type) := {
  dis_puts : cstring -> M S Z;
  disw_commit : bool -> M S Z }.

(** A [char], as an [int] *)
Definition schar (c : ascii) : Z := if code c <=? 127 then code c else code c - 256.

(** [unread] is what can still be read before the data run out, [since] the same
    from the last commit on.  When the data run out, more may come later. *)
Class DisRLaws (S : Type) `{DisR S} := {
  r_ok : S -> Prop;
  unread : S -> cstring;
  since : S -> cstring;
  getc_next : forall s c l, r_ok s -> unread s = c :: l ->
    exists s', dis_getc s = Some (schar c, s') /\ r_ok s' /\ unread s' = l /\ since s' = since s;
  getc_none : forall s, r_ok s -> unread s = [] ->
    exists r s' more, dis_getc s = Some (r, s') /\ (r = -1 \/ r = -2) /\ r_ok s' /\
      unread s' = more /\ since s' = since s ++ more;
  gets_full : forall s (n : Z), r_ok s -> 0 <= n <= Z.of_nat (length (unread s)) ->
    exists s', dis_gets n s = Some ((int32 n, take (Z.to_nat n) (unread s)), s') /\ r_ok s' /\
      unread s' = drop (Z.to_nat n) (unread s) /\ since s' = since s;
  gets_short : forall s (n : Z), r_ok s -> Z.of_nat (length (unread s)) < n <= UINT_MAX ->
    exists r cs s' more, dis_gets n s = Some ((r, cs), s') /\ -2 <= r <= 0 /\ r_ok s' /\
      unread s' = unread s ++ more /\ since s' = since s ++ more;
  rcommit_true : forall s, r_ok s ->
    exists s', disr_commit true s = Some (0, s') /\ r_ok s' /\
      unread s' = unread s /\ since s' = unread s;
  rcommit_false : forall s, r_ok s ->
    exists s', disr_commit false s = Some (0, s') /\ r_ok s' /\
      unread s' = since s /\ since s' = since s }.

(** [DIS_tcp_setup] on a stream that is read: what was read ahead is dropped.
    [arriving] is what can still be read when that is gone. *)
Class DisSetup (S : Type) := dis_setup : M S unit.

Class DisSetupLaws (S : Type) `{DisRLaws S} `{!DisSetup S} := {
  arriving : S -> cstring;
  setup_law : forall s, r_ok s -> exists s', dis_setup s = Some (tt, s') /\ r_ok s' /\
    unread s' = arriving s /\ since s' = arriving s }.

(** [out] is what has been committed, [staged] what has been written since;
    [w_sound] says that no write will fail. *)
Class DisWLaws (S : Type) `{DisW S} := {
  w_ok : S -> Prop;
  w_sound : S -> Prop;
  out : S -> cstring;
  staged : S -> cstring;
  puts_law : forall s (cs : cstring), w_ok s -> Z.of_nat (length cs) <= INT_MAX ->
    exists r s', dis_puts cs s = Some (r, s') /\ w_ok s' /\ (w_sound s -> w_sound s') /\
      (r = Z.of_nat (length cs) /\ out s' = out s /\ staged s' = staged s ++ cs \/
       -2 <= r < 0 /\ ~ w_sound s);
  wcommit_true : forall s, w_ok s ->
    exists s', disw_commit true s = Some (0, s') /\ w_ok s' /\ (w_sound s -> w_sound s') /\
      out s' = out s ++ staged s /\ staged s' = [];
  wcommit_false : forall s, w_ok s ->
    exists s', disw_commit false s = Some (0, s') /\ w_ok s' /\ (w_sound s -> w_sound s') /\
      out s' = out s /\ staged s' = [] }.

(** What a step of a writer leaves *)
Definition w_next {S : Type} `{DisWLaws S} (s s' : S) : Prop := w_ok s' /\ (w_sound s -> w_sound s').

Lemma w_next_trans {S : Type} `{DisWLaws S} (s s1 s2 : S) : w_next s s1 -> w_next s1 s2 -> w_next s s2.
Proof. intros [_ H1] [? H2]. split; auto. Qed.

Lemma schar_range (c : ascii) : -128 <= schar c <= 127.
Proof. unfold schar. pose proof (code_range c). destruct (code c <=? 127) eqn:E; lia. Qed.

Lemma schar_ascii (c : ascii) : code c <= 127 -> schar c = code c.
Proof. unfold schar. intros ?. destruct (code c <=? 127) eqn:E; lia. Qed.

(** ** Texts *)

Module TextStream.

(** A text that is read: what is left, and what was left at the last commit *)
Record rtext := RText { left : cstring; saved : cstring }.

(** A text that is written *)
Record wtext := WText { done_ : cstring; open_ : cstring }.

#[export] Instance text_r : DisR rtext := {
  dis_getc s :=
    match left s with
    | [] => Some (-2, s)
    | c :: l => Some (schar c, {| left := l; saved := saved s |})
    end;
  dis_gets n s :=
    if Z.of_nat (length (left s)) <? n then Some ((0, []), s)
    else Some ((int32 n, take (Z.to_nat n) (left s)),
               {| left := drop (Z.to_nat n) (left s); saved := saved s |});
  disr_commit b s :=
    Some (0, if b : bool then {| left := left s; saved := left s |}
             else {| left := saved s; saved := saved s |}) }.

#[export] Program Instance text_r_laws : DisRLaws rtext := {
  r_ok _ := True; unread := left; since := saved }.
Next Obligation. intros s c l _ Hl. cbn. rewrite Hl. eexists. done. Qed.
Next Obligation.
  intros s _ Hl. cbn. rewrite Hl. eexists _, _, []. rewrite app_nil_r. split_and!; try done. by right.
Qed.
Next Obligation.
  intros s n _ Hn. cbn. destruct (Z.ltb_spec (Z.of_nat (length (left s))) n); [lia|]. eexists. done.
Qed.
Next Obligation.
  intros s n _ Hn. cbn. destruct (Z.ltb_spec (Z.of_nat (length (left s))) n); [|lia].
  eexists _, _, _, []. rewrite !app_nil_r. done.
Qed.
Next Obligation. intros s _. eexists. done. Qed.
Next Obligation. intros s _. eexists. done. Qed.

(** A text has no buffer: reading starts at what is left. *)
#[export] Instance text_setup : DisSetup rtext := fun s => Some (tt, {| left := left s; saved := left s |}).

#[export] Program Instance text_setup_laws : DisSetupLaws rtext := { arriving := left }.
Next Obligation. intros s _. eexists. done. Qed.

#[export] Instance text_w : DisW wtext := {
  dis_puts cs s := Some (Z.of_nat (length cs), {| done_ := done_ s; open_ := open_ s ++ cs |});
  disw_commit b s :=
    Some (0, {| done_ := if b : bool then done_ s ++ open_ s else done_ s; open_ := [] |}) }.

#[export] Program Instance text_w_laws : DisWLaws wtext := {
  w_ok _ := True; w_sound _ := True; out := done_; staged := open_ }.
Next Obligation.
  intros s cs _ _. eexists _, _. split; [done|]. split; [done|]. split; [done|]. by left.
Qed.
Next Obligation. intros s _. eexists. done. Qed.
Next Obligation. intros s _. eexists. done. Qed.

End TextStream.

(** * Data is strings: [src/lib/Libdis]

    Module [Dis]: how numbers and strings are written to a stream and read from
    one.  An unsigned number is its decimal digits after a plus sign, with the
    number of digits in front of the sign when it is more than one, the number
    of digits of that number in front of it, and so on; a string is its length
    and its characters. *)

Module Dis.

(** ** Constants *)

Definition DIS_SUCCESS : Z := 0.
Definition DIS_OVERFLOW : Z := 1.
Definition DIS_HUGEVAL : Z := 2.
Definition DIS_BADSIGN : Z := 3.
Definition DIS_LEADZRO : Z := 4.
Definition DIS_NONDIGIT : Z := 5.
Definition DIS_NULLSTR : Z := 6.
Definition DIS_EOD : Z := 7.
Definition DIS_NOMALLOC : Z := 8.
Definition DIS_PROTO : Z := 9.
Definition DIS_NOCOMMIT : Z := 10.
Definition DIS_EOF : Z := 11.

Definition DIS_BUFSIZ : Z := 64.
Definition DIS_RECURSIVE_LIMIT : nat := 30.

(** ** Writing *)

(** [discui_], [discul_] and [discull_] differ in the type of [value] only.  The
    text is built in front of [cp]; the second result is [*ndigs]. *)
Definition discui_ (cp : cstring) (value : Z) : cstring * Z :=
  let cp' := dec_loop (dec_fuel value) value cp in
  (cp', Z.of_nat (length cp') - Z.of_nat (length cp)).

(** [while (ndigs > 1) cp = discui_(cp, ndigs, &ndigs);] *)
Fixpoint discounts (fuel : nat) (cp : cstring) (ndigs : Z) : cstring :=
  match fuel with
  | O => cp
  | S fuel =>
      if ndigs >? 1 then let '(cp, ndigs) := discui_ cp ndigs in discounts fuel cp ndigs
      else cp
  end.

(** The text of a number with the sign [c]; the text is in [dis_buffer], from
    its end. *)
Definition disw_text (c : ascii) (value : Z) : cstring :=
  let '(cp, ndigs) := discui_ [] value in
  discounts (Z.to_nat ndigs) (c :: cp) ndigs.

(** The largest number of each kind, as the tables of [dis_init_tables] hold it *)
Definition dis_umax : cstring := fst (discui_ [] UINT_MAX).
Definition ulmax : cstring := fst (discui_ [] ULONG_MAX).

Section Write.
Context {S : Type} `{DisW S}.

(** The end of a function that writes *)
Definition w_commit (retval : Z) : M S Z :=
  let* r := disw_commit (retval =? DIS_SUCCESS) in
  ret (if r <? 0 then DIS_NOCOMMIT else retval).

Definition disw_ (cp : cstring) : M S Z :=
  let* r := dis_puts cp in ret (if r <? 0 then DIS_PROTO else DIS_SUCCESS).

Definition diswui_ (value : Z) : M S Z := disw_ (disw_text "+" (uint32 value)).

Definition diswui (value : Z) : M S Z :=
  let* retval := diswui_ value in w_commit retval.

Definition diswul (value : Z) : M S Z :=
  let* retval := disw_ (disw_text "+" (uint64 value)) in w_commit retval.

Definition diswull (value : Z) : M S Z :=
  let* retval := disw_ (disw_text "+" (uint64 value)) in w_commit retval.

(** [(unsigned)-(value + 1) + 1] is the magnitude of a negative number. *)
Definition diswsi (value : Z) : M S Z :=
  let '(uval, c) :=
    if value <? 0 then (uint32 (uint32 (int32 (- (value + 1))) + 1), "-"%char)
    else (uint32 value, "+"%char) in
  let* retval := disw_ (disw_text c uval) in w_commit retval.

Definition diswsl (value : Z) : M S Z :=
  let '(ulval, c) :=
    if value <? 0 then (uint64 (uint64 (int64 (- (value + 1))) + 1), "-"%char)
    else (uint64 value, "+"%char) in
  let* retval := disw_ (disw_text c ulval) in w_commit retval.

Definition diswcs (value : cstring) : M S Z :=
  let nchars := Z.of_nat (length value) in
  let* retval := diswui_ nchars in
  let* retval :=
    (if (retval =? DIS_SUCCESS) && (nchars >? 0) then
       let* r := dis_puts value in
       ret (if uint64 r =? nchars then retval else DIS_PROTO)
     else ret retval) in
  w_commit retval.

Definition diswst (value : cstring) : M S Z := diswcs value.
Definition diswuc (value : Z) : M S Z := diswui value.

End Write.

(** ** Reading *)

Section Read.
Context {S : Type} `{DisR S}.

(** The sign of [memcmp] on buffers of the same length *)
Fixpoint memcmp (a b : cstring) : comparison :=
  match a, b with
  | c :: a, d :: b => match Z.compare (code c) (code d) with Eq => memcmp a b | r => r end
  | _, _ => Eq
  end.

(** A loop over the digits of the buffer, in an unsigned type of [w] bits *)
Fixpoint digits_loop (w : Z) (cp : cstring) (v : Z) : option Z :=
  match cp with
  | [] => Some v
  | c :: cp =>
      if (schar c <? 48) || (schar c >? 57) then None
      else digits_loop w cp ((10 * v + schar c - 48) mod 2 ^ w)
  end.

(** The code and what is assigned to [*negate] and [*value], if anything is *)
Record number := Number { n_rc : Z; n_negate : option bool; n_value : option Z }.

Definition fails (rc : Z) (negate : option bool) : number :=
  {| n_rc := rc; n_negate := negate; n_value := None |}.

(** What tells [disrsi_], [disrsl_] and [disrsll_] apart: the width, the digits
    of the largest value and whether [*negate] is set before [count] is
    tested *)
Record kind := Kind { k_bits : Z; k_max : cstring; k_early : bool }.

Definition k_digs (K : kind) : Z := Z.of_nat (length (k_max K)).
Definition overflows (K : kind) (negate : option bool) : number :=
  {| n_rc := DIS_OVERFLOW; n_negate := negate; n_value := Some (2 ^ k_bits K - 1) |}.

(** [count > max], by the digits *)
Definition above (K : kind) (count : Z) (buf : cstring) : bool :=
  (count =? k_digs K) && match memcmp buf (k_max K) with Gt => true | _ => false end.

(** Whether [dis_gets] gave another count than the one asked for *)
Definition short (K : kind) (r count : Z) : bool := negb (r mod 2 ^ k_bits K =? count).

(** [recursv] is the number of calls left before the limit. *)
Fixpoint disr_ (K : kind) (recursv : nat) (count : Z) : M S number :=
  match recursv with
  | O => ret (fails DIS_PROTO None)
  | Datatypes.S recursv =>
      let* c := dis_getc in
      if (c =? 45) || (c =? 43) then
        let negate := c =? 45 in
        if count >? k_digs K then ret (overflows K (if k_early K then Some negate else None))
        else
          let* (r, buf) := dis_gets count in
          if short K r count then ret (fails DIS_EOD (Some negate))
          else if above K count buf then ret (overflows K (Some negate))
          else
            match digits_loop (k_bits K) buf 0 with
            | None => ret (fails DIS_NONDIGIT (Some negate))
            | Some locval => ret (Number DIS_SUCCESS (Some negate) (Some locval))
            end
      else if c =? 48 then ret (fails DIS_LEADZRO None)
      else if (49 <=? c) && (c <=? 57) then
        let ndigs := c - 48 in
        if count >? 1 then
          if count >? k_digs K then ret (overflows K (Some false))
          else
            let* (r, buf) := dis_gets (count - 1) in
            if short K r (count - 1) then ret (fails DIS_EOD None)
            else if above K count (chr c :: buf) then ret (overflows K (Some false))
            else
              match digits_loop (k_bits K) buf ndigs with
              | None => ret (fails DIS_NONDIGIT None)
              | Some ndigs => disr_ K recursv ndigs
              end
        else disr_ K recursv ndigs
      else if c =? -1 then ret (fails DIS_EOD None)
      else if c =? -2 then ret (fails DIS_EOF None)
      else ret (fails DIS_NONDIGIT None)
  end.

Definition disrsi_ : M S number := disr_ (Kind 32 dis_umax true) DIS_RECURSIVE_LIMIT 1.
Definition disrsl_ : M S number := disr_ (Kind 64 ulmax false) DIS_RECURSIVE_LIMIT 1.
Definition disrsll_ : M S number := disr_ (Kind 64 ulmax true) DIS_RECURSIVE_LIMIT 1.

(** The end of a function that reads *)
Definition r_commit (locret : Z) : M S Z :=
  let* r := disr_commit (locret =? DIS_SUCCESS) in
  ret (if r <? 0 then DIS_NOCOMMIT else locret).

(** The value of a variable that may have none *)
Definition use {A : Type} (x : option A) : M S A :=
  match x with Some a => ret a | None => crash end.

(** The functions give the value they return and [*retval]. *)

(** Signed numbers: [fits] is the test on success, [lo] and [hi] the limits *)
Definition disr_signed (m : M S number) (fits : bool -> Z -> bool) (w lo hi : Z) : M S (Z * Z) :=
  let* n := m in
  let* (value, locret) :=
    (if n_rc n =? DIS_SUCCESS then
       let* negate := use (n_negate n) in
       let* uvalue := use (n_value n) in
       if fits negate uvalue then ret (wrap_s w (if negate then - uvalue else uvalue), DIS_SUCCESS)
       else ret (if negate then lo else hi, DIS_OVERFLOW)
     else if n_rc n =? DIS_OVERFLOW then
       let* negate := use (n_negate n) in
       ret (if negate : bool then lo else hi, DIS_OVERFLOW)
     else ret (0, n_rc n)) in
  let* rc := r_commit locret in
  ret (value, rc).

Definition disrsi : M S (Z * Z) :=
  disr_signed disrsi_
    (fun negate u => if negate then u <=? uint32 (uint32 (- (INT_MIN + 1)) + 1) else u <=? INT_MAX)
    32 INT_MIN INT_MAX.

Definition disrsl : M S (Z * Z) :=
  disr_signed disrsl_
    (fun negate u => if negate then u <=? uint64 (uint64 (- (LONG_MIN + 1)) + 1) else u <=? LONG_MAX)
    64 LONG_MIN LONG_MAX.

(** The negative value and the limit are compared as unsigned numbers. *)
Definition disrss : M S (Z * Z) :=
  disr_signed disrsi_
    (fun negate u => if negate then uint32 (- u) >=? uint32 (-32768) else u <=? 32767)
    16 (-32768) 32767.

Definition disrsc : M S (Z * Z) :=
  disr_signed disrsi_
    (fun negate u => if negate then uint32 (- u) >=? uint32 (-128) else u <=? 127)
    8 (-128) 127.

(** Unsigned numbers, at most [hi] *)
Definition disr_unsigned (m : M S number) (hi : Z) : M S (Z * Z) :=
  let* n := m in
  let* (value, locret) :=
    (if n_rc n =? DIS_SUCCESS then
       let* negate := use (n_negate n) in
       let* value := use (n_value n) in
       if negate : bool then ret (0, DIS_BADSIGN)
       else if value >? hi then ret (hi, DIS_OVERFLOW)
       else ret (value, DIS_SUCCESS)
     else ret (0, n_rc n)) in
  let* rc := r_commit locret in
  ret (value, rc).

Definition disrui : M S (Z * Z) := disr_unsigned disrsi_ UINT_MAX.
Definition disrul : M S (Z * Z) := disr_unsigned disrsl_ ULONG_MAX.
Definition disrull : M S (Z * Z) := disr_unsigned disrsll_ ULONG_MAX.
Definition disrus : M S (Z * Z) := disr_unsigned disrsi_ 65535.
Definition disruc : M S (Z * Z) := disr_unsigned disrsi_ 255.

Definition has_nul (s : cstring) : bool := existsb (fun c => is_char c NUL) s.

(** A null-terminated string, or NULL, and [*retval] *)
Definition disrst : M S (option cstring * Z) :=
  let* n := disrsi_ in
  let* (value, locret) :=
    (if n_rc n =? DIS_SUCCESS then
       let* negate := use (n_negate n) in
       if negate : bool then ret (None, DIS_BADSIGN)
       else
         let* count := use (n_value n) in
         let* (r, value) := dis_gets count in
         if negb (uint64 r =? count) then ret (Some [], DIS_PROTO)
         else if has_nul value then ret (Some value, DIS_NULLSTR)
         else ret (Some value, DIS_SUCCESS)
     else ret (None, n_rc n)) in
  let* rc := r_commit locret in
  ret (if rc =? DIS_SUCCESS then value else None, rc).

(** A counted string, or NULL, [*nchars] and [*retval].  [negate] is tested
    before it is known to be set. *)
Definition disrcs : M S (option cstring * Z * Z) :=
  let* n := disrsi_ in
  let* negate := use (n_negate n) in
  let locret := if negate : bool then DIS_BADSIGN else n_rc n in
  let count := default 0 (n_value n) in
  let* (value, locret) :=
    (if locret =? DIS_SUCCESS then
       let* (r, value) := dis_gets count in
       if negb (uint64 r =? count) then ret (Some [], DIS_PROTO)
       else ret (Some value, DIS_SUCCESS)
     else ret (None, locret)) in
  let* rc := r_commit locret in
  if negb (rc =? DIS_SUCCESS) && negb (bool_decide (value = None)) then ret (None, 0, rc)
  else ret (value, count, rc).

(** [value] is an array of [size] characters.  The result is the code and the
    null-terminated string in the array. *)
Definition disrfst (achars size : Z) : M S (Z * cstring) :=
  let* n := disrsi_ in
  let* (locret, value) :=
    (if n_rc n =? DIS_SUCCESS then
       let* negate := use (n_negate n) in
       let* count := use (n_value n) in
       if negate : bool then ret (DIS_BADSIGN, [])
       else if count >? achars then ret (DIS_OVERFLOW, [])
       else
         let* (r, value) := dis_gets count in
         if negb (uint64 r =? count) then ret (DIS_PROTO, [])
         else if count >? size then crash
         else if has_nul value then ret (DIS_NULLSTR, [])
         else if count >=? size then crash
         else ret (DIS_SUCCESS, value)
     else ret (n_rc n, [])) in
  let* r := disr_commit (locret =? DIS_SUCCESS) in
  let locret := if negb (r =? 0) then DIS_NOCOMMIT else locret in
  ret (locret, if locret =? DIS_SUCCESS then value else []).

(** The code, [*nchars] and the characters in the array *)
Definition disrfcs (achars size : Z) : M S (Z * Z * cstring) :=
  let* n := disrsi_ in
  let* (locret, nchars, value) :=
    (if n_rc n =? DIS_SUCCESS then
       let* negate := use (n_negate n) in
       let* count := use (n_value n) in
       if negate : bool then ret (DIS_BADSIGN, 0, [])
       else if count >? achars then ret (DIS_OVERFLOW, count, [])
       else
         let* (r, value) := dis_gets count in
         if negb (uint64 r =? count) then ret (DIS_PROTO, count, [])
         else if count >? size then crash
         else ret (DIS_SUCCESS, count, value)
     else ret (n_rc n, 0, [])) in
  let* r := disr_commit (locret =? DIS_SUCCESS) in
  let locret := if negb (r =? 0) then DIS_NOCOMMIT else locret in
  ret (locret, if negb (locret =? DIS_SUCCESS) then 0 else nchars, value).

End Read.

(** ** Examples *)

Import TextStream.

Definition written (m : M wtext Z) : option (Z * cstring) :=
  match m (WText [] []) with Some (rc, s) => Some (rc, done_ s) | None => None end.
Definition reading {A : Type} (m : M rtext A) (cs : cstring) : option (A * cstring) :=
  match m (RText cs cs) with Some (a, s) => Some (a, left s) | None => None end.

Example write_12345 : written (diswui 12345) = Some (0, lit "5+12345").
Proof. reflexivity. Qed.
Example write_min : written (diswsi INT_MIN) = Some (0, lit "210-2147483648").
Proof. reflexivity. Qed.
Example write_abc : written (diswst (lit "abc")) = Some (0, lit "+3abc").
Proof. reflexivity. Qed.
Example read_min : reading disrsi (lit "210-2147483648rest") = Some ((INT_MIN, 0), lit "rest").
Proof. vm_compute. reflexivity. Qed.
Example read_abc : reading disrst (lit "+3abcd") = Some ((Some (lit "abc"), 0), lit "d").
Proof. vm_compute. reflexivity. Qed.

End Dis.
