(* ===== verification/DisProps.v ===== *)
(** * What is written is what is read

    Round trips of the numbers and strings of [Dis], over any streams with the
    laws of the stream classes there, the effect of a read that fails, and the size of the
    texts. *)

From Stdlib Require Import ZArith Lia Ascii String.
From S2P Require Import Prelude Dis.
Import Dis TextStream.

Module DisProps.

(** ** The text of a number *)

Lemma discui_eq (cp : cstring) (v : Z) :
  discui_ cp v = (dec_nat v ++ cp, Z.of_nat (length (dec_nat v))).
Proof.
  unfold discui_, dec_nat. rewrite (dec_loop_app (dec_fuel v) v cp). unfold dec_fuel.
  rewrite length_app. f_equal. lia.
Qed.

(** No leading zero *)
Lemma dec_loop_head (fuel : nat) : forall v,
  1 <= v -> v < 2 ^ Z.of_nat (S fuel) ->
  exists d ds, dec_loop (S fuel) v [] = digit_char d :: ds /\ 1 <= d <= 9.
Proof.
  induction fuel as [|fuel IH]; intros v Hv Hf;
    rewrite dec_loop_S; destruct (Z.gtb_spec v 9) as [Hg|Hg]; try (by exists v, []; split; [|lia]).
  - change (2 ^ Z.of_nat 1) with 2 in Hf. lia.
  - rewrite dec_loop_app.
    rewrite (Nat2Z.inj_succ (S fuel)), Z.pow_succ_r in Hf by lia.
    destruct (IH (v / 10)) as (d & ds & -> & Hd).
    { apply Z.div_le_lower_bound; lia. }
    { apply Z.div_lt_upper_bound; lia. }
    by exists d, (ds ++ [digit_char (v mod 10)]).
Qed.

Lemma dec_nat_head (v : Z) :
  1 <= v -> exists d ds, dec_nat v = digit_char d :: ds /\ 1 <= d <= 9.
Proof.
  intros Hv. unfold dec_nat, dec_fuel. apply dec_loop_head; [done|].
  rewrite Nat2Z.inj_succ, Z2Nat.id by apply Z.log2_nonneg. apply Z.log2_spec. lia.
Qed.

(** A number of two digits or more is greater than the number of its digits. *)
Lemma length_lt (n : Z) : 2 <= n -> 1 <= Z.of_nat (length (dec_nat n)) < n.
Proof.
  intros Hn. pose proof (Z.pow_gt_lin_r 10 (n - 2) ltac:(lia) ltac:(lia)) as Hp.
  assert (10 ^ (n - 1) = 10 * 10 ^ (n - 2)) as He.
  { replace (n - 1) with (Z.succ (n - 2)) by lia. by rewrite Z.pow_succ_r by lia. }
  destruct (dec_nat_length n (Z.to_nat (n - 1))) as [H1 H2].
  - rewrite Z2Nat.id by lia. lia.
  - lia.
  - lia.
Qed.

(** The counts in front of the sign *)
Fixpoint prefix (fuel : nat) (n : Z) : cstring :=
  match fuel with
  | O => []
  | S fuel =>
      if n >? 1 then prefix fuel (Z.of_nat (length (dec_nat n))) ++ dec_nat n else []
  end.

Lemma discounts_eq (fuel : nat) : forall cp n, discounts fuel cp n = prefix fuel n ++ cp.
Proof.
  induction fuel as [|fuel IH]; intros cp n; [done|]. cbn [discounts prefix].
  destruct (n >? 1); [|done]. rewrite discui_eq, IH. by rewrite app_assoc.
Qed.

Lemma disw_text_eq (c : ascii) (v : Z) :
  disw_text c v =
  prefix (length (dec_nat v)) (Z.of_nat (length (dec_nat v))) ++ c :: dec_nat v.
Proof.
  unfold disw_text. rewrite discui_eq, discounts_eq, Nat2Z.id, app_nil_r. done.
Qed.

Lemma text_length_eq (c : ascii) (v : Z) :
  0 <= v <= ULONG_MAX -> Z.of_nat (length (disw_text c v)) <= 24.
Proof.
  intros Hv. rewrite disw_text_eq, length_app. cbn [length].
  assert (0 <= v < 10 ^ Z.of_nat 20) as Hb by (unfold ULONG_MAX in Hv; cbn; lia).
  pose proof (dec_nat_length v 20 Hb ltac:(lia)) as Hl.
  assert (length (prefix (length (dec_nat v)) (Z.of_nat (length (dec_nat v)))) <= 3)%nat; [|lia].
  generalize dependent (length (dec_nat v)). intros n Hn.
  do 21 (destruct n as [|n]; [vm_compute; lia|]). lia.
Qed.

(** The text of a number of up to 64 bits, with its sign and its counts,
    fits the buffer it is built in. *)
Theorem text_fits (c : ascii) (v : Z) :
  0 <= v <= ULONG_MAX -> Z.of_nat (length (disw_text c v)) <= 24 < DIS_BUFSIZ.
Proof. intros Hv. split; [by apply text_length_eq|done]. Qed.

Lemma text_fits_witness : 0 <= 12345 <= ULONG_MAX /\ Z.of_nat (length (disw_text "+" 12345)) <= 24 < DIS_BUFSIZ.
Proof.
  split; [unfold ULONG_MAX; lia|]. apply (text_fits "+" 12345). unfold ULONG_MAX. lia.
Defined.

(** ** Reading digits *)

Lemma isdigit_schar (c : ascii) :
  isdigit c = true -> schar c = digit_val c + 48 /\ (schar c <? 48) || (schar c >? 57) = false.
Proof.
  unfold isdigit, schar, digit_val. intros Hd. simp_bool. destruct (code c <=? 127) eqn:E; lia.
Qed.

Lemma digits_val_le (s : cstring) : forall acc, 0 <= acc -> all_digits s -> acc <= digits_val acc s.
Proof.
  intros acc Ha Hd. rewrite digits_val_shift. pose proof (digits_val_bound s Hd).
  assert (1 <= 10 ^ Z.of_nat (length s)) by (apply (Z.pow_le_mono_r 10 0); lia). nia.
Qed.

Lemma digits_loop_eq (w : Z) (s : cstring) : forall v,
  0 <= v -> all_digits s -> digits_val v s < 2 ^ w -> digits_loop w s v = Some (digits_val v s).
Proof.
  induction s as [|c s IH]; intros v Hv Hd Hb; [done|]. cbn [digits_loop].
  inversion Hd as [|? ? Hc Hs]; subst. destruct (isdigit_schar c Hc) as [Hsc ->].
  pose proof (isdigit_val c Hc). rewrite Hsc.
  change (digits_val v (c :: s)) with (digits_val (10 * v + digit_val c) s) in *.
  pose proof (digits_val_le s (10 * v + digit_val c) ltac:(lia) Hs).
  rewrite Z.mod_small by lia. replace (10 * v + (digit_val c + 48) - 48) with (10 * v + digit_val c) by lia.
  by apply IH; [lia| |].
Qed.

Lemma memcmp_val (a : cstring) : forall b,
  length a = length b -> all_digits a -> all_digits b ->
  memcmp a b = Z.compare (digits_val 0 a) (digits_val 0 b).
Proof.
  induction a as [|c a IH]; intros [|d b] Hl Ha Hb; try done.
  inversion Ha as [|? ? Hc Ha']; inversion Hb as [|? ? Hd Hb']; subst. injection Hl as Hl. cbn [memcmp].
  change (digits_val 0 (c :: a)) with (digits_val (digit_val c) a).
  change (digits_val 0 (d :: b)) with (digits_val (digit_val d) b).
  rewrite (digits_val_shift a), (digits_val_shift b), Hl.
  pose proof (digits_val_bound a Ha') as Ba. rewrite Hl in Ba. pose proof (digits_val_bound b Hb') as Bb.
  unfold digit_val in *. destruct (Z.compare_spec (code c) (code d)) as [He|Hlt|Hgt].
  - rewrite IH by done. rewrite He.
    destruct (Z.compare_spec (digits_val 0 a) (digits_val 0 b)); symmetry;
      [apply Z.compare_eq_iff|apply Z.compare_lt_iff|apply Z.compare_gt_iff]; lia.
  - symmetry. apply Z.compare_lt_iff. nia.
  - symmetry. apply Z.compare_gt_iff. nia.
Qed.

(** A kind whose table is that of its width *)
Record kind_ok (K : kind) : Prop := {
  ko_digits : all_digits (k_max K);
  ko_value : digits_val 0 (k_max K) = 2 ^ k_bits K - 1;
  ko_bits : 32 <= k_bits K;
  ko_digs : 10 <= k_digs K;
  ko_lead : 10 ^ (k_digs K - 1) <= 2 ^ k_bits K }.

Lemma kind_si : kind_ok (Kind 32 dis_umax true).
Proof. split; [repeat constructor|vm_compute; reflexivity|cbn; lia|vm_compute; discriminate..]. Qed.
Lemma kind_sl : kind_ok (Kind 64 ulmax false).
Proof. split; [repeat constructor|vm_compute; reflexivity|cbn; lia|vm_compute; discriminate..]. Qed.
Lemma kind_sll : kind_ok (Kind 64 ulmax true).
Proof. split; [repeat constructor|vm_compute; reflexivity|cbn; lia|vm_compute; discriminate..]. Qed.

(** A number that fits is not taken for one that does not. *)
Lemma above_false (K : kind) (buf : cstring) :
  kind_ok K -> all_digits buf -> digits_val 0 buf < 2 ^ k_bits K ->
  above K (Z.of_nat (length buf)) buf = false.
Proof.
  intros [Hd Hv _ _] Hb Hlt. unfold above, k_digs.
  destruct (Z.eqb_spec (Z.of_nat (length buf)) (Z.of_nat (length (k_max K)))) as [He|]; [|done]. cbn.
  rewrite memcmp_val by (done || lia). rewrite Hv.
  destruct (Z.compare_spec (digits_val 0 buf) (2 ^ k_bits K - 1)); [done|done|lia].
Qed.

Lemma digs_of_small (K : kind) (v : Z) :
  kind_ok K -> 0 <= v < 2 ^ k_bits K -> Z.of_nat (length (dec_nat v)) <= k_digs K.
Proof.
  intros [Hd Hv _ Hg] Hb. pose proof (digits_val_bound _ Hd) as Hk. rewrite Hv in Hk.
  destruct (dec_nat_length v (length (k_max K))) as [_ Hl]; unfold k_digs in *; [lia|lia|lia].
Qed.

Lemma chr_digit (d : Z) : chr (d + 48) = digit_char d.
Proof. done. Qed.

(** ** Reading from a stream *)

Section Read.
Context {S : Type} `{DisRLaws S}.
Implicit Types (s : S) (l : cstring).

(** [s] holds [l] after [before], which has not been committed. *)
Definition holds s before l : Prop := r_ok s /\ unread s = l /\ since s = before ++ l.

Lemma holds_start s : r_ok s -> since s = unread s -> holds s [] (unread s).
Proof. by intros Hs Hu. Qed.

Lemma getc_holds s before c l :
  holds s before (c :: l) ->
  exists s', dis_getc s = Some (schar c, s') /\ holds s' (before ++ [c]) l.
Proof.
  intros (Ho & Hu & Hs). destruct (getc_next s c l Ho Hu) as (s' & Hg & Ho' & Hu' & Hs').
  exists s'. split; [done|]. split; [done|]. split; [done|]. by rewrite Hs', Hs, <-app_assoc.
Qed.

Lemma gets_holds s before a l :
  Z.of_nat (length a) <= INT_MAX ->
  holds s before (a ++ l) ->
  exists s', dis_gets (Z.of_nat (length a)) s = Some ((Z.of_nat (length a), a), s') /\
    holds s' (before ++ a) l.
Proof.
  intros Hn (Ho & Hu & Hs).
  destruct (gets_full s (Z.of_nat (length a)) Ho) as (s' & Hg & Ho' & Hu' & Hs').
  { rewrite Hu, length_app. lia. }
  rewrite Hu, Nat2Z.id, take_app_length in Hg. rewrite Hu, Nat2Z.id, drop_app_length in Hu'.
  exists s'. split; [|split; [done|split; [done|by rewrite Hs', Hs, app_assoc]]].
  rewrite Hg, int32_id; [done|]. unfold in_int, INT_MIN, INT_MAX in *. lia.
Qed.

Lemma short_false (K : kind) (n : Z) : kind_ok K -> 0 <= n <= INT_MAX -> short K n n = false.
Proof.
  intros [_ _ Hb _] Hn. unfold short. apply negb_false_iff, Z.eqb_eq, Z.mod_small.
  unfold INT_MAX in Hn. pose proof (Z.pow_le_mono_r 2 32 (k_bits K) ltac:(lia) Hb). lia.
Qed.

Lemma digit_char_code (d : Z) : 0 <= d <= 9 -> schar (digit_char d) = d + 48.
Proof. intros Hd. unfold digit_char. rewrite schar_ascii; rewrite code_chr; lia. Qed.

(** One count is read: the call goes on with that count. *)
Lemma disr_count (K : kind) (recursv : nat) (n : Z) s before l :
  kind_ok K -> 1 <= n < 2 ^ 31 -> Z.of_nat (length (dec_nat n)) <= k_digs K ->
  holds s before (dec_nat n ++ l) ->
  exists s', disr_ K (Datatypes.S recursv) (Z.of_nat (length (dec_nat n))) s = disr_ K recursv n s' /\
    holds s' (before ++ dec_nat n) l.
Proof.
  intros HK Hn Hl Hs. pose proof HK as [Hmax Hval Hbits _].
  destruct (dec_nat_spec n ltac:(lia)) as (Hall & _ & Hv).
  assert (2 ^ 31 < 2 ^ k_bits K) as Hw by (apply Z.pow_lt_mono_r; lia).
  pose proof (above_false K (dec_nat n) HK Hall ltac:(lia)) as Hab.
  destruct (dec_nat_head n ltac:(lia)) as (d & ds & Hds & Hd). rewrite Hds in *.
  destruct (getc_holds s before (digit_char d) (ds ++ l) Hs) as (s1 & Hg & Hs1).
  rewrite digit_char_code in Hg by lia. cbn [disr_]. erewrite bind_eq by exact Hg.
  replace ((d + 48 =? 45) || (d + 48 =? 43)) with false by lia.
  replace (d + 48 =? 48) with false by lia.
  replace ((49 <=? d + 48) && (d + 48 <=? 57)) with true by lia.
  replace (d + 48 - 48) with d by lia.
  assert (digits_val d ds = n) as Hdv.
  { rewrite <-Hv. unfold digits_val. cbn. rewrite digit_val_char by lia. done. }
  assert (before ++ digit_char d :: ds = (before ++ [digit_char d]) ++ ds) as -> by
    (by rewrite <-app_assoc).
  destruct ds as [|c ds].
  - cbn in Hdv. subst d. cbn [length]. cbn. exists s1. split; [done|]. by rewrite app_nil_r.
  - assert ((Z.of_nat (length (digit_char d :: c :: ds)) >? 1) = true) as ->
      by (rewrite Z.gtb_ltb; apply Z.ltb_lt; cbn [length]; lia).
    replace (Z.of_nat (length (digit_char d :: c :: ds)) >? k_digs K) with false by lia.
    replace (Z.of_nat (length (digit_char d :: c :: ds)) - 1) with (Z.of_nat (length (c :: ds)))
      by (cbn [length]; lia).
    assert (Z.of_nat (length (digit_char d :: c :: ds)) <= 10) as Hle.
    { rewrite <-Hds. destruct (dec_nat_length n 10) as [_ Hlen]; [|lia|lia].
      change (2 ^ 31) with 2147483648 in Hn. cbn. lia. }
    assert (Z.of_nat (length (c :: ds)) <= INT_MAX) as Hi by (cbn [length] in *; unfold INT_MAX; lia).
    destruct (gets_holds s1 _ (c :: ds) l Hi Hs1) as (s2 & Hg2 & Hs2).
    erewrite bind_eq by exact Hg2. cbn beta iota. rewrite short_false by (done || lia).
    rewrite chr_digit, Hab.
    inversion Hall as [|? ? _ Hall']; subst.
    rewrite digits_loop_eq by (done || lia). rewrite Hdv. by exists s2.
Qed.

(** The sign and the digits of the value *)
Lemma disr_sign (K : kind) (recursv : nat) (c : ascii) (v : Z) s before l :
  kind_ok K -> c = "-"%char \/ c = "+"%char -> 0 <= v < 2 ^ k_bits K ->
  Z.of_nat (length (dec_nat v)) <= INT_MAX ->
  holds s before (c :: dec_nat v ++ l) ->
  exists s', disr_ K (Datatypes.S recursv) (Z.of_nat (length (dec_nat v))) s
      = Some (Number DIS_SUCCESS (Some (is_char c "-"%char)) (Some v), s') /\
    holds s' (before ++ c :: dec_nat v) l.
Proof.
  intros HK Hc Hv Hi Hs. pose proof (digs_of_small K v HK Hv) as Hl.
  destruct (dec_nat_spec v ltac:(lia)) as (Hall & _ & Hval).
  destruct (getc_holds s before c _ Hs) as (s1 & Hg & Hs1).
  destruct (gets_holds s1 _ (dec_nat v) l Hi Hs1) as (s2 & Hg2 & Hs2).
  rewrite <-app_assoc in Hs2. cbn [disr_]. erewrite bind_eq by exact Hg.
  assert (((schar c =? 45) || (schar c =? 43)) = true /\ (schar c =? 45) = is_char c "-"%char)
    as [-> ->] by (by destruct Hc as [-> | ->]).
  assert ((Z.of_nat (length (dec_nat v)) >? k_digs K) = false) as -> by lia.
  erewrite bind_eq by exact Hg2. cbn beta iota. rewrite short_false by (done || lia).
  rewrite above_false by (done || lia). rewrite digits_loop_eq by (done || lia). rewrite Hval.
  by exists s2.
Qed.

Lemma disr_prefix (K : kind) (fuel : nat) : forall (recursv : nat) (n : Z) s before l,
  kind_ok K -> 1 <= n < 2 ^ 31 -> n <= Z.of_nat fuel \/ n = 1 -> (fuel <= recursv)%nat ->
  holds s before (prefix fuel n ++ l) ->
  exists s' recursv', disr_ K recursv 1 s = disr_ K recursv' n s' /\
    holds s' (before ++ prefix fuel n) l /\ (recursv <= recursv' + fuel)%nat.
Proof.
  induction fuel as [|fuel IH]; intros recursv n s before l HK Hn Hf Hr Hs; cbn [prefix] in *.
  { assert (n = 1) as -> by lia. exists s, recursv. rewrite app_nil_r. split_and!; [done|done|lia]. }
  destruct (Z.gtb_spec n 1) as [Hg|Hg].
  2: { assert (n = 1) as -> by lia. exists s, recursv. rewrite app_nil_r. split_and!; [done|done|lia]. }
  rewrite <-app_assoc in Hs. pose proof (length_lt n ltac:(lia)) as Hlen.
  destruct (IH recursv (Z.of_nat (length (dec_nat n))) s before (dec_nat n ++ l)) as (s1 & r1 & He & Hs1 & Hr1);
    [done|lia|lia|lia|done|].
  assert (exists r, r1 = Datatypes.S r) as [r ->] by (destruct r1; [lia|eauto]).
  edestruct (fun H => disr_count K r n s1 _ l HK Hn H Hs1) as (s2 & He2 & Hs2).
  { destruct (dec_nat_length n 10) as [_ Hle]; [change (2 ^ 31) with 2147483648 in Hn; cbn; lia|lia|].
    pose proof (ko_digs _ HK). lia. }
  exists s2, r. rewrite He, He2, app_assoc. split_and!; [done|done|lia].
Qed.

Lemma disr_number (K : kind) (c : ascii) (v : Z) s before l :
  kind_ok K -> c = "-"%char \/ c = "+"%char -> 0 <= v < 2 ^ k_bits K -> v <= ULONG_MAX ->
  holds s before (disw_text c v ++ l) ->
  exists s', disr_ K DIS_RECURSIVE_LIMIT 1 s
      = Some (Number DIS_SUCCESS (Some (is_char c "-"%char)) (Some v), s') /\
    holds s' (before ++ disw_text c v) l.
Proof.
  intros HK Hc Hv Hb. rewrite disw_text_eq, <-app_assoc. cbn [app]. intros Hs.
  assert (0 <= v < 10 ^ Z.of_nat 20) as H20 by (unfold ULONG_MAX in Hb; cbn; lia).
  pose proof (dec_nat_length v 20 H20 ltac:(lia)) as Hl.
  destruct (disr_prefix K (length (dec_nat v)) DIS_RECURSIVE_LIMIT
    (Z.of_nat (length (dec_nat v))) s before (c :: dec_nat v ++ l) HK) as (s1 & r1 & He & Hs1 & Hr);
    try exact Hs.
  { change (2 ^ 31) with 2147483648. lia. }
  { lia. }
  { unfold DIS_RECURSIVE_LIMIT. lia. }
  assert (exists r, r1 = Datatypes.S r) as [r ->]
    by (unfold DIS_RECURSIVE_LIMIT in Hr; destruct r1; [lia|eauto]).
  assert (Z.of_nat (length (dec_nat v)) <= INT_MAX) as Hi by (unfold INT_MAX; lia).
  destruct (disr_sign K r c v s1 _ l HK Hc Hv Hi Hs1) as (s2 & He2 & Hs2).
  exists s2. rewrite He, He2. by rewrite <-app_assoc in Hs2.
Qed.

(** [m], from a commit on, takes [cs] and gives [a]. *)
Definition reads {A : Type} (m : M S A) (cs : cstring) (a : A) : Prop :=
  forall s l, holds s [] (cs ++ l) -> exists s', m s = Some (a, s') /\ holds s' [] l.

Lemma commit_holds s before l :
  holds s before l -> exists s', r_commit DIS_SUCCESS s = Some (DIS_SUCCESS, s') /\ holds s' [] l.
Proof.
  intros (Ho & Hu & Hs). destruct (rcommit_true s Ho) as (s' & Hc & Ho' & Hu' & Hs').
  exists s'. split; [|by split; [done|split; [by rewrite Hu'|by rewrite Hs']]].
  unfold r_commit. erewrite bind_eq by exact Hc. done.
Qed.

Lemma reads_unsigned (K : kind) (hi v : Z) :
  kind_ok K -> 0 <= v < 2 ^ k_bits K -> v <= hi -> v <= ULONG_MAX ->
  reads (disr_unsigned (disr_ K DIS_RECURSIVE_LIMIT 1) hi) (disw_text "+" v) (v, DIS_SUCCESS).
Proof.
  intros HK Hv Hhi Hb s l Hs.
  destruct (disr_number K "+" v s [] l HK (or_intror eq_refl) Hv Hb Hs) as (s1 & He & Hs1).
  destruct (commit_holds s1 _ l Hs1) as (s2 & Hc & Hs2). exists s2. split; [|done].
  unfold disr_unsigned. mstep He. cbn. msimp. change (is_char "+" "-") with false. cbn beta iota.
  assert ((v >? hi) = false) as -> by lia. msimp. by mstep Hc.
Qed.

Lemma reads_signed (K : kind) (fits : bool -> Z -> bool) (w lo hi : Z) (c : ascii) (u v : Z) :
  kind_ok K -> c = "-"%char \/ c = "+"%char -> 0 <= u < 2 ^ k_bits K -> u <= ULONG_MAX ->
  fits (is_char c "-"%char) u = true ->
  wrap_s w (if is_char c "-"%char then - u else u) = v ->
  reads (disr_signed (disr_ K DIS_RECURSIVE_LIMIT 1) fits w lo hi) (disw_text c u) (v, DIS_SUCCESS).
Proof.
  intros HK Hcc Hu Hb Hfit Hv s l Hs.
  destruct (disr_number K c u s [] l HK Hcc Hu Hb Hs) as (s1 & He & Hs1).
  destruct (commit_holds s1 _ l Hs1) as (s2 & Hc & Hs2). exists s2. split; [|done].
  unfold disr_signed. mstep He. cbn. msimp. rewrite Hfit, Hv. msimp. by mstep Hc.
Qed.

(** The length of a string and the string *)
Definition string_text (v : cstring) : cstring := disw_text "+" (Z.of_nat (length v)) ++ v.

(** The number and the characters, before the commit *)
Lemma string_parts (v : cstring) s l :
  Z.of_nat (length v) <= INT_MAX -> holds s [] (string_text v ++ l) ->
  exists s1 s2 before,
    disrsi_ s = Some (Number DIS_SUCCESS (Some false) (Some (Z.of_nat (length v))), s1) /\
    dis_gets (Z.of_nat (length v)) s1 = Some ((Z.of_nat (length v), v), s2) /\
    uint64 (Z.of_nat (length v)) = Z.of_nat (length v) /\ holds s2 before l.
Proof.
  intros Hl Hs. unfold string_text in Hs. rewrite <-app_assoc in Hs.
  destruct (disr_number (Kind 32 dis_umax true) "+" (Z.of_nat (length v)) s [] (v ++ l) kind_si
    (or_intror eq_refl)) as (s1 & He & Hs1); [cbn; unfold INT_MAX in Hl; lia| |exact Hs|].
  { unfold INT_MAX, ULONG_MAX in *. lia. }
  destruct (gets_holds s1 _ v l Hl Hs1) as (s2 & Hg & Hs2).
  exists s1, s2, (([] ++ disw_text "+" (Z.of_nat (length v))) ++ v). split_and!; [exact He|exact Hg| |exact Hs2].
  apply uint64_id. unfold INT_MAX, ULONG_MAX in *. lia.
Qed.

Lemma reads_disrst (v : cstring) :
  Z.of_nat (length v) <= INT_MAX -> has_nul v = false ->
  reads disrst (string_text v) (Some v, DIS_SUCCESS).
Proof.
  intros Hl Hn s l Hs. destruct (string_parts v s l Hl Hs) as (s1 & s2 & before & He & Hg & Hu & Hs2).
  destruct (commit_holds s2 _ l Hs2) as (s3 & Hc & Hs3). exists s3. split; [|done].
  unfold disrst. mstep He. cbn [n_rc n_negate n_value use]. msimp. change (DIS_SUCCESS =? DIS_SUCCESS) with true.
  msimp. mstep Hg. rewrite Hu, Z.eqb_refl, Hn. cbn [negb]. msimp. by mstep Hc.
Qed.

Lemma reads_disrcs (v : cstring) :
  Z.of_nat (length v) <= INT_MAX ->
  reads disrcs (string_text v) (Some v, Z.of_nat (length v), DIS_SUCCESS).
Proof.
  intros Hl s l Hs. destruct (string_parts v s l Hl Hs) as (s1 & s2 & before & He & Hg & Hu & Hs2).
  destruct (commit_holds s2 _ l Hs2) as (s3 & Hc & Hs3). exists s3. split; [|done].
  unfold disrcs. mstep He. cbn [n_rc n_negate n_value use default from_option id]. msimp.
  change (DIS_SUCCESS =? DIS_SUCCESS) with true. msimp.
  mstep Hg. rewrite Hu, Z.eqb_refl. cbn [negb]. msimp. by mstep Hc.
Qed.

Lemma commit_nonneg s before l :
  holds s before l -> exists s', disr_commit true s = Some (0, s') /\ holds s' [] l.
Proof.
  intros (Ho & Hu & Hs). destruct (rcommit_true s Ho) as (s' & Hc & Ho' & Hu' & Hs').
  exists s'. split; [done|]. by split; [done|split; [by rewrite Hu'|by rewrite Hs']].
Qed.

Lemma reads_disrfst (achars size : Z) (v : cstring) :
  Z.of_nat (length v) <= INT_MAX -> has_nul v = false ->
  Z.of_nat (length v) <= achars -> Z.of_nat (length v) < size ->
  reads (disrfst achars size) (string_text v) (DIS_SUCCESS, v).
Proof.
  intros Hl Hn Ha Hz s l Hs.
  destruct (string_parts v s l Hl Hs) as (s1 & s2 & before & He & Hg & Hu & Hs2).
  destruct (commit_nonneg s2 _ l Hs2) as (s3 & Hc & Hs3). exists s3. split; [|done].
  unfold disrfst. mstep He. cbn [n_rc n_negate n_value use]. msimp.
  change (DIS_SUCCESS =? DIS_SUCCESS) with true. msimp.
  assert ((Z.of_nat (length v) >? achars) = false) as -> by lia. msimp.
  mstep Hg. rewrite Hu, Z.eqb_refl, Hn. cbn [negb].
  assert ((Z.of_nat (length v) >? size) = false) as -> by lia.
  assert ((Z.of_nat (length v) >=? size) = false) as -> by lia.
  msimp. by mstep Hc.
Qed.

Lemma reads_disrfcs (achars size : Z) (v : cstring) :
  Z.of_nat (length v) <= INT_MAX -> Z.of_nat (length v) <= achars -> Z.of_nat (length v) <= size ->
  reads (disrfcs achars size) (string_text v) (DIS_SUCCESS, Z.of_nat (length v), v).
Proof.
  intros Hl Ha Hz s l Hs.
  destruct (string_parts v s l Hl Hs) as (s1 & s2 & before & He & Hg & Hu & Hs2).
  destruct (commit_nonneg s2 _ l Hs2) as (s3 & Hc & Hs3). exists s3. split; [|done].
  unfold disrfcs. mstep He. cbn [n_rc n_negate n_value use]. msimp.
  change (DIS_SUCCESS =? DIS_SUCCESS) with true. msimp.
  assert ((Z.of_nat (length v) >? achars) = false) as -> by lia. msimp.
  mstep Hg. rewrite Hu, Z.eqb_refl. cbn [negb].
  assert ((Z.of_nat (length v) >? size) = false) as -> by lia.
  msimp. by mstep Hc.
Qed.

Lemma reads_ui (v : Z) : 0 <= v <= UINT_MAX -> reads disrui (disw_text "+" v) (v, DIS_SUCCESS).
Proof.
  intros Hv. apply reads_unsigned; [apply kind_si|cbn; unfold UINT_MAX in Hv; lia|lia|].
  unfold UINT_MAX, ULONG_MAX in *. lia.
Qed.

Lemma reads_ul (v : Z) :
  0 <= v <= ULONG_MAX ->
  reads disrul (disw_text "+" v) (v, DIS_SUCCESS) /\ reads disrull (disw_text "+" v) (v, DIS_SUCCESS).
Proof.
  intros Hv. assert (0 <= v < 2 ^ 64) as Hb by (unfold ULONG_MAX in Hv; lia).
  split; (apply reads_unsigned; [first [exact kind_sl|exact kind_sll]|exact Hb|lia|lia]).
Qed.

Lemma reads_uc (v : Z) : 0 <= v <= 255 -> reads disruc (disw_text "+" v) (v, DIS_SUCCESS).
Proof.
  intros Hv. apply reads_unsigned; [apply kind_si|cbn; lia|lia|unfold ULONG_MAX; lia].
Qed.

(** The text of a signed number *)
Definition signed_text (v : Z) : cstring :=
  if v <? 0 then disw_text "-" (- v) else disw_text "+" v.

Lemma reads_si (v : Z) : in_int v -> reads disrsi (signed_text v) (v, DIS_SUCCESS).
Proof.
  intros Hv. unfold signed_text, in_int, INT_MIN, INT_MAX in *. destruct (Z.ltb_spec v 0).
  - apply reads_signed; [apply kind_si|by left|cbn; lia|unfold ULONG_MAX; lia| |].
    + change (is_char "-" "-") with true. apply Z.leb_le. change (uint32 _) with 2147483648. lia.
    + change (is_char "-" "-") with true. change (wrap_s 32) with int32. rewrite int32_id; unfold in_int, INT_MIN, INT_MAX; lia.
  - apply reads_signed; [apply kind_si|by right|cbn; lia|unfold ULONG_MAX; lia| |].
    + change (is_char "+" "-") with false. apply Z.leb_le. unfold INT_MAX. lia.
    + change (is_char "+" "-") with false. change (wrap_s 32) with int32. rewrite int32_id; unfold in_int, INT_MIN, INT_MAX; lia.
Qed.

Lemma reads_sl (v : Z) :
  LONG_MIN <= v <= LONG_MAX -> reads disrsl (signed_text v) (v, DIS_SUCCESS).
Proof.
  intros Hv. unfold signed_text, LONG_MIN, LONG_MAX in *. destruct (Z.ltb_spec v 0).
  - apply reads_signed; [apply kind_sl|by left|cbn; lia|unfold ULONG_MAX; lia| |].
    + change (is_char "-" "-") with true. apply Z.leb_le. change (uint64 _) with 9223372036854775808. lia.
    + change (is_char "-" "-") with true. change (wrap_s 64) with int64. rewrite int64_id; unfold LONG_MIN, LONG_MAX; lia.
  - apply reads_signed; [apply kind_sl|by right|cbn; lia|unfold ULONG_MAX; lia| |].
    + change (is_char "+" "-") with false. apply Z.leb_le. unfold LONG_MAX. lia.
    + change (is_char "+" "-") with false. change (wrap_s 64) with int64. rewrite int64_id; unfold LONG_MIN, LONG_MAX; lia.
Qed.

End Read.

(** ** Writing to a stream *)

Section Write.
Context {S : Type} `{DisWLaws S}.
Implicit Types (s : S) (cs : cstring).

(** [m], from a commit on, sends [cs]; or it fails, which happens only to a
    writer that is not sound, and leaves nothing that is not committed. *)
Definition writes (m : M S Z) cs : Prop :=
  forall s, w_ok s -> staged s = [] ->
  exists rc s', m s = Some (rc, s') /\ w_next s s' /\ staged s' = [] /\
    (rc = DIS_SUCCESS /\ out s' = out s ++ cs \/ rc = DIS_PROTO /\ ~ w_sound s).

Lemma wcommit_proto s : w_ok s ->
  exists s', w_commit DIS_PROTO s = Some (DIS_PROTO, s') /\ w_next s s' /\ staged s' = [].
Proof.
  intros Ho. destruct (wcommit_false s Ho) as (s' & Hc & Ho' & Hw & _ & Hst). exists s'.
  split; [|done]. unfold w_commit. change (DIS_PROTO =? DIS_SUCCESS) with false. by mstep Hc.
Qed.

Lemma wcommit_success s : w_ok s ->
  exists s', w_commit DIS_SUCCESS s = Some (DIS_SUCCESS, s') /\ w_next s s' /\ staged s' = [] /\
    out s' = out s ++ staged s.
Proof.
  intros Ho. destruct (wcommit_true s Ho) as (s' & Hc & Ho' & Hw & Hout & Hst). exists s'.
  split; [|done]. unfold w_commit. change (DIS_SUCCESS =? DIS_SUCCESS) with true. by mstep Hc.
Qed.

Lemma disw_law s cs : w_ok s -> Z.of_nat (length cs) <= INT_MAX ->
  exists s', w_next s s' /\
    (disw_ cs s = Some (DIS_SUCCESS, s') /\ out s' = out s /\ staged s' = staged s ++ cs \/
     disw_ cs s = Some (DIS_PROTO, s') /\ ~ w_sound s).
Proof.
  intros Ho Hl. destruct (puts_law s cs Ho Hl) as (r & s' & Hp & Ho' & Hw & Hr). exists s'.
  split; [done|]. unfold disw_. destruct Hr as [(-> & Hout & Hst)|[Hr Hns]].
  - left. mstep Hp. assert ((Z.of_nat (length cs) <? 0) = false) as -> by lia. done.
  - right. mstep Hp. assert ((r <? 0) = true) as -> by lia. done.
Qed.

Lemma writes_text cs : Z.of_nat (length cs) <= INT_MAX ->
  writes (let* retval := disw_ cs in w_commit retval) cs.
Proof.
  intros Hl s Ho Hst. destruct (disw_law s cs Ho Hl) as (s1 & Ho1 & [(Hd & Hout & Hst1)|[Hd Hns]]).
  - destruct (wcommit_success s1 (proj1 Ho1)) as (s2 & Hc & Ho2 & Hst2 & Hout2). exists DIS_SUCCESS, s2.
    split; [by mstep Hd|]. split; [by eapply w_next_trans|]. split; [done|]. left. split; [done|].
    by rewrite Hout2, Hst1, Hout, Hst.
  - destruct (wcommit_proto s1 (proj1 Ho1)) as (s2 & Hc & Ho2 & Hst2). exists DIS_PROTO, s2.
    split; [by mstep Hd|]. split; [by eapply w_next_trans|auto].
Qed.

Lemma text_length (c : ascii) (v : Z) :
  0 <= v <= ULONG_MAX -> Z.of_nat (length (disw_text c v)) <= INT_MAX.
Proof. intros Hv. pose proof (text_length_eq c v Hv). unfold INT_MAX. lia. Qed.

Lemma writes_ui (v : Z) : 0 <= v <= UINT_MAX -> writes (diswui v) (disw_text "+" v).
Proof.
  intros Hv. unfold diswui, diswui_. assert (uint32 v = v) as ->.
  { apply Z.mod_small. unfold UINT_MAX in Hv. lia. }
  apply writes_text, text_length. unfold UINT_MAX, ULONG_MAX in *. lia.
Qed.

Lemma writes_ul (v : Z) :
  0 <= v <= ULONG_MAX -> writes (diswul v) (disw_text "+" v) /\ writes (diswull v) (disw_text "+" v).
Proof.
  intros Hv. unfold diswul, diswull. rewrite uint64_id by done.
  split; by apply writes_text, text_length.
Qed.

Lemma writes_si (v : Z) : in_int v -> writes (diswsi v) (signed_text v).
Proof.
  intros Hv. pose proof Hv as Hv'. unfold in_int, INT_MIN, INT_MAX in Hv'.
  unfold diswsi, signed_text. destruct (Z.ltb_spec v 0).
  - assert (uint32 (uint32 (int32 (- (v + 1))) + 1) = - v) as ->.
    { rewrite int32_id by (unfold in_int, INT_MIN, INT_MAX; lia).
      unfold uint32. rewrite !Z.mod_small by (rewrite ?Z.mod_small by lia; lia). lia. }
    apply writes_text, text_length. unfold ULONG_MAX. lia.
  - assert (uint32 v = v) as -> by (apply Z.mod_small; lia).
    apply writes_text, text_length. unfold ULONG_MAX. lia.
Qed.

Lemma writes_sl (v : Z) : LONG_MIN <= v <= LONG_MAX -> writes (diswsl v) (signed_text v).
Proof.
  intros Hv. pose proof Hv as Hv'. unfold LONG_MIN, LONG_MAX in Hv'.
  unfold diswsl, signed_text. destruct (Z.ltb_spec v 0).
  - assert (uint64 (uint64 (int64 (- (v + 1))) + 1) = - v) as ->.
    { rewrite int64_id by (unfold LONG_MIN, LONG_MAX; lia).
      rewrite !uint64_id by (rewrite ?uint64_id by (unfold ULONG_MAX; lia); unfold ULONG_MAX; lia). lia. }
    apply writes_text, text_length. unfold ULONG_MAX. lia.
  - rewrite uint64_id by (unfold ULONG_MAX; lia).
    apply writes_text, text_length. unfold ULONG_MAX. lia.
Qed.

Lemma writes_cs (v : cstring) : Z.of_nat (length v) <= INT_MAX -> writes (diswcs v) (string_text v).
Proof.
  intros Hl s Ho Hst. unfold diswcs, diswui_, string_text.
  assert (uint32 (Z.of_nat (length v)) = Z.of_nat (length v)) as ->.
  { apply Z.mod_small. unfold INT_MAX in Hl. lia. }
  assert (Z.of_nat (length (disw_text "+" (Z.of_nat (length v)))) <= INT_MAX) as Ht.
  { apply text_length. unfold INT_MAX, ULONG_MAX in *. lia. }
  destruct (disw_law s _ Ho Ht) as (s1 & Ho1 & [(Hd & Hout & Hst1)|[Hd Hns]]).
  - mstep Hd. change (DIS_SUCCESS =? DIS_SUCCESS) with true. cbn [andb].
    destruct (Z.gtb_spec (Z.of_nat (length v)) 0) as [Hp|Hz]; msimp.
    + destruct (puts_law s1 v (proj1 Ho1) Hl) as (r & s2 & Hp2 & Ho2 & Hw2 & Hr). mstep Hp2.
      assert (w_next s s2) as Hn2 by (by eapply w_next_trans).
      destruct Hr as [(-> & Hout2 & Hst2)|[Hr Hns]].
      * rewrite uint64_id by (unfold INT_MAX, ULONG_MAX in *; lia). rewrite Z.eqb_refl.
        destruct (wcommit_success s2 Ho2) as (s3 & Hc & Ho3 & Hst3 & Hout3).
        exists DIS_SUCCESS, s3. split; [done|]. split; [by eapply w_next_trans|]. split; [done|].
        left. split; [done|]. by rewrite Hout3, Hst2, Hst1, Hout2, Hout, Hst.
      * assert ((uint64 r =? Z.of_nat (length v)) = false) as ->.
        { apply Z.eqb_neq. unfold uint64. rewrite <-(Z_mod_plus_full r 1), Z.mod_small by lia.
          unfold INT_MAX in Hl. lia. }
        destruct (wcommit_proto s2 Ho2) as (s3 & Hc & Ho3 & Hst3). exists DIS_PROTO, s3.
        split; [done|]. split; [by eapply w_next_trans|]. split; [done|]. right. split; [done|].
        intros Hs. by apply Hns, Ho1.
    + destruct (wcommit_success s1 (proj1 Ho1)) as (s3 & Hc & Ho3 & Hst3 & Hout3).
      exists DIS_SUCCESS, s3. split; [done|]. split; [by eapply w_next_trans|]. split; [done|].
      left. split; [done|].
      rewrite Hout3, Hst1, Hout, Hst. assert (v = []) as -> by (destruct v; [done|cbn in Hz; lia]).
      by rewrite app_nil_r.
  - mstep Hd. change (DIS_PROTO =? DIS_SUCCESS) with false. cbn [andb]. msimp.
    destruct (wcommit_proto s1 (proj1 Ho1)) as (s3 & Hc & Ho3 & Hst3). exists DIS_PROTO, s3.
    split; [done|]. split; [by eapply w_next_trans|]. auto.
Qed.

End Write.

(** C40. Every number of a type and every string without a null that is written
    is what the function for the same type reads, and nothing after it is
    taken. *)
Theorem dis_roundtrip {W : Type} `{DisWLaws W} {T : Type} `{DisRLaws T} :
  (forall v, 0 <= v <= UINT_MAX -> exists t,
     writes (S := W) (diswui v) t /\ reads (S := T) disrui t (v, DIS_SUCCESS)) /\
  (forall v, 0 <= v <= ULONG_MAX -> exists t,
     writes (S := W) (diswul v) t /\ writes (S := W) (diswull v) t /\
     reads (S := T) disrul t (v, DIS_SUCCESS) /\ reads (S := T) disrull t (v, DIS_SUCCESS)) /\
  (forall v, in_int v -> exists t,
     writes (S := W) (diswsi v) t /\ reads (S := T) disrsi t (v, DIS_SUCCESS)) /\
  (forall v, LONG_MIN <= v <= LONG_MAX -> exists t,
     writes (S := W) (diswsl v) t /\ reads (S := T) disrsl t (v, DIS_SUCCESS)) /\
  (forall v : cstring, Z.of_nat (length v) <= INT_MAX -> has_nul v = false -> exists t,
     writes (S := W) (diswcs v) t /\ reads (S := T) disrst t (Some v, DIS_SUCCESS) /\
     reads (S := T) disrcs t (Some v, Z.of_nat (length v), DIS_SUCCESS)).
Proof.
  split; [|split; [|split; [|split]]]; intros v Hv.
  - exists (disw_text "+" v). split; [by apply writes_ui|by apply reads_ui].
  - exists (disw_text "+" v). destruct (writes_ul (S := W) v Hv) as [W1 W2], (reads_ul (S := T) v Hv) as [R1 R2].
    exact (conj W1 (conj W2 (conj R1 R2))).
  - exists (signed_text v). split; [by apply writes_si|by apply reads_si].
  - exists (signed_text v). split; [by apply writes_sl|by apply reads_sl].
  - intros Hn. exists (string_text v).
    exact (conj (writes_cs v Hv) (conj (reads_disrst v Hv Hn) (reads_disrcs v Hv))).
Qed.

Lemma dis_roundtrip_witness :
  in_int INT_MIN /\ exists t,
    writes (S := TextStream.wtext) (diswsi INT_MIN) t /\
    reads (S := TextStream.rtext) disrsi t (INT_MIN, DIS_SUCCESS).
Proof.
  assert (in_int INT_MIN) as Hi by (split; vm_compute; discriminate). split; [exact Hi|].
  exact (proj1 (proj2 (proj2 (dis_roundtrip (W := TextStream.wtext) (T := TextStream.rtext)))) INT_MIN Hi).
Defined.

End DisProps.
