(* ===== verification/DisSafe.v ===== *)
(** * Reading what was not written by the encoding

    Whatever a stream holds, a function of [Dis] that reads ends with a code,
    inside the memory it was given; when the code is an error the stream stands
    where it stood before.  Two functions do not keep that promise, [disrsl]
    and [disrcs]: they use [negate] where it was never set. *)

From Stdlib Require Import ZArith Lia Ascii String.
From S2P Require Import Prelude Dis DisProps.
Import Dis DisProps.

Module DisSafe.

Section Read.
Context {S : Type} `{DisRLaws S}.
Implicit Types (s : S).

(** [s'] is [s] after some reads without a commit. *)
Definition after s s' : Prop :=
  r_ok s' /\ (exists more, since s' = since s ++ more) /\ exists before, since s' = before ++ unread s'.

Lemma after_refl s : r_ok s -> (exists before, since s = before ++ unread s) -> after s s.
Proof. intros Ho Hb. split; [done|]. split; [|done]. exists []. by rewrite app_nil_r. Qed.

Lemma after_trans s s1 s2 : after s s1 -> after s1 s2 -> after s s2.
Proof.
  intros (_ & [m1 H1] & _) (Ho & [m2 H2] & Hb). split; [done|]. split; [|done].
  exists (m1 ++ m2). by rewrite H2, H1, app_assoc.
Qed.

Lemma after_self s s' : after s s' -> after s' s'.
Proof. intros (Ho & _ & Hb). by apply after_refl. Qed.

Lemma getc_any s : after s s -> exists c s', dis_getc s = Some (c, s') /\ after s s'.
Proof.
  intros (Ho & _ & [before Hb]). destruct (unread s) as [|c l] eqn:E.
  - destruct (getc_none s Ho E) as (r & s' & more & Hg & _ & Ho' & Hu & Hs). exists r, s'.
    split; [done|]. split; [done|]. split; [by exists more|]. exists before.
    by rewrite Hs, Hb, Hu, app_nil_r.
  - destruct (getc_next s c l Ho E) as (s' & Hg & Ho' & Hu & Hs). exists (schar c), s'.
    split; [done|]. split; [done|]. split; [exists []; by rewrite app_nil_r|].
    exists (before ++ [c]). by rewrite Hs, Hb, Hu, <-app_assoc.
Qed.

Lemma gets_any s (n : Z) : after s s -> 0 <= n <= UINT_MAX ->
  exists r cs s', dis_gets n s = Some ((r, cs), s') /\ after s s' /\
    (r = int32 n /\ Z.of_nat (length cs) = n \/ -2 <= r <= 0).
Proof.
  intros (Ho & _ & [before Hb]) Hn.
  destruct (Z.le_gt_cases n (Z.of_nat (length (unread s)))) as [Hl|Hl].
  - destruct (gets_full s n Ho ltac:(lia)) as (s' & Hg & Ho' & Hu & Hs).
    eexists _, _, s'. split; [exact Hg|]. split.
    + split; [done|]. split; [exists []; by rewrite app_nil_r|].
      exists (before ++ take (Z.to_nat n) (unread s)). by rewrite Hs, Hb, Hu, <-app_assoc, take_drop.
    + left. split; [done|]. rewrite length_take. lia.
  - destruct (gets_short s n Ho ltac:(lia)) as (r & cs & s' & more & Hg & Hr & Ho' & Hu & Hs).
    exists r, cs, s'. split; [exact Hg|]. split; [|by right]. split; [done|]. split; [by exists more|].
    exists before. by rewrite Hs, Hb, Hu, app_assoc.
Qed.

Lemma digits_loop_range (w : Z) (cp : cstring) : forall v r,
  0 <= v < 2 ^ w -> digits_loop w cp v = Some r -> 0 <= r < 2 ^ w.
Proof.
  induction cp as [|c cp IH]; cbn; intros v r Hv Hr; [congruence|].
  destruct ((schar c <? 48) || (schar c >? 57)); [done|]. apply IH in Hr; [done|].
  apply Z.mod_pos_bound. lia.
Qed.

(** What a number read is: a success has a sign and a value in range, and an
    overflow has a sign unless it was not set in time. *)
Definition number_good (K : kind) (n : number) : Prop :=
  (n_rc n = DIS_SUCCESS ->
     (exists b, n_negate n = Some b) /\ exists v, n_value n = Some v /\ 0 <= v < 2 ^ k_bits K) /\
  (n_rc n = DIS_OVERFLOW -> k_early K = true -> exists b, n_negate n = Some b).

Lemma good_overflow (K : kind) (b : bool) : number_good K (overflows K (Some b)).
Proof. split; [done|]. eauto. Qed.

Lemma good_late (K : kind) (b : bool) :
  number_good K (overflows K (if k_early K then Some b else None)).
Proof. split; [done|]. intros _ Hk. cbn. rewrite Hk. eauto. Qed.

Lemma good_fails (K : kind) (rc : Z) (b : option bool) :
  rc <> DIS_SUCCESS -> rc <> DIS_OVERFLOW -> number_good K (fails rc b).
Proof. intros H1 H2. split; cbn; intros; done. Qed.

Lemma digits_loop_digits (w : Z) (cp : cstring) : forall v r,
  digits_loop w cp v = Some r -> all_digits cp.
Proof.
  induction cp as [|c cp IH]; cbn; intros v r Hr; [constructor|].
  destruct ((schar c <? 48) || (schar c >? 57)) eqn:E; [done|]. simp_bool.
  constructor; [|by eapply IH]. unfold isdigit, schar in *. pose proof (code_range c).
  destruct (code c <=? 127) eqn:E'; simp_bool; lia.
Qed.

(** A count does not overflow, so it is not zero. *)
Lemma count_positive (K : kind) (c count r v : Z) (cs : cstring) :
  kind_ok K -> k_digs K <= INT_MAX -> 1 < count <= k_digs K -> 49 <= c <= 57 ->
  r = int32 (count - 1) /\ Z.of_nat (length cs) = count - 1 \/ -2 <= r <= 0 ->
  short K r (count - 1) = false -> above K count (chr c :: cs) = false ->
  digits_loop (k_bits K) cs (c - 48) = Some v -> 1 <= v.
Proof.
  intros HK Hk Hc Hd Hr Hsh Hab Hv. pose proof HK as [Hmax Hval Hbits _ Hlead].
  assert (2 ^ 32 <= 2 ^ k_bits K) as Hw by (apply Z.pow_le_mono_r; lia). unfold INT_MAX in Hk.
  assert (Z.of_nat (length cs) = count - 1) as Hlen.
  { destruct Hr as [[_ Hl]|Hr]; [done|]. unfold short in Hsh. simp_bool.
    assert (r = 0 \/ r < 0) as [->|Hn] by lia; [rewrite Z.mod_0_l in Hsh; lia|].
    rewrite <-(Z_mod_plus_full r 1), Z.mod_small in Hsh by lia. lia. }
  pose proof (digits_loop_digits _ _ _ _ Hv) as Hall.
  replace c with ((c - 48) + 48) in Hab by lia. rewrite chr_digit in Hab.
  assert (all_digits (digit_char (c - 48) :: cs)) as Hall2.
  { constructor; [apply isdigit_digit_char; lia|done]. }
  assert (digits_val 0 (digit_char (c - 48) :: cs) = digits_val (c - 48) cs) as He.
  { unfold digits_val. cbn. rewrite digit_val_char by lia. done. }
  assert (digits_val (c - 48) cs < 2 ^ k_bits K) as Hlt.
  { rewrite <-He. destruct (Z.eq_dec count (k_digs K)) as [->|Hne].
    - unfold above in Hab. rewrite Z.eqb_refl in Hab. cbn [andb] in Hab.
      rewrite memcmp_val in Hab by (done || (unfold k_digs in Hlen; cbn [length]; lia)).
      rewrite Hval in Hab. destruct (Z.compare_spec (digits_val 0 (digit_char (c - 48) :: cs))
        (2 ^ k_bits K - 1)); [lia|lia|done].
    - pose proof (digits_val_bound _ Hall2) as Hb. cbn [length] in Hb.
      replace (Z.of_nat (Datatypes.S (length cs))) with count in Hb by lia.
      assert (10 ^ count <= 10 ^ (k_digs K - 1)) by (apply Z.pow_le_mono_r; lia). lia. }
  rewrite digits_loop_eq in Hv by (done || lia). injection Hv as <-.
  pose proof (digits_val_le cs (c - 48) ltac:(lia) Hall). lia.
Qed.

Hint Resolve good_overflow good_late : core.
Hint Extern 1 (number_good _ (fails _ _)) => by apply good_fails : core.

Lemma disr_any (K : kind) (recursv : nat) : forall (count : Z) s,
  kind_ok K -> k_digs K <= INT_MAX -> 1 <= count -> after s s ->
  exists n s', disr_ K recursv count s = Some (n, s') /\ after s s' /\ number_good K n.
Proof.
  induction recursv as [|recursv IH]; intros count s HK Hk Hc Hs; cbn [disr_].
  { eexists _, s. split; [done|]. auto. }
  pose proof (ko_bits _ HK) as Hb. unfold INT_MAX in Hk.
  assert (2 ^ 32 <= 2 ^ k_bits K) as Hw by (apply Z.pow_le_mono_r; lia).
  destruct (getc_any s Hs) as (c & s1 & Hg & Hs1). mstep Hg.
  destruct ((c =? 45) || (c =? 43)).
  { destruct (Z.gtb_spec count (k_digs K)) as [|Hle]; [eexists _, s1; auto|].
    destruct (gets_any s1 count (after_self _ _ Hs1) ltac:(unfold UINT_MAX; lia))
      as (r & cs & s2 & Hg2 & Hs2 & _). mstep Hg2.
    pose proof (after_trans _ _ _ Hs1 Hs2) as Hs3.
    destruct (short K r count); [eexists _, s2; auto|].
    destruct (above K count cs); [eexists _, s2; auto|].
    destruct (digits_loop (k_bits K) cs 0) as [v|] eqn:Hv; [|eexists _, s2; auto].
    eexists _, s2. split; [done|]. split; [done|]. split; [|done]. intros _. cbn. split; [eauto|].
    exists v. split; [done|]. apply digits_loop_range in Hv; [done|lia]. }
  destruct (c =? 48); [eexists _, s1; auto|].
  destruct ((49 <=? c) && (c <=? 57)) eqn:Hd.
  { simp_bool. assert (1 <= c - 48 < 2 ^ k_bits K) as Hcd by lia.
    destruct (Z.gtb_spec count 1) as [Hg1|Hg1].
    - destruct (Z.gtb_spec count (k_digs K)) as [|Hle]; [eexists _, s1; auto|].
      destruct (gets_any s1 (count - 1) (after_self _ _ Hs1) ltac:(unfold UINT_MAX; lia))
        as (r & cs & s2 & Hg2 & Hs2 & Hr). mstep Hg2.
      pose proof (after_trans _ _ _ Hs1 Hs2) as Hs3.
      destruct (short K r (count - 1)) eqn:Hsh; [eexists _, s2; auto|].
      destruct (above K count (chr c :: cs)) eqn:Hab; [eexists _, s2; auto|].
      destruct (digits_loop (k_bits K) cs (c - 48)) as [v|] eqn:Hv; [|eexists _, s2; auto].
      destruct (IH v s2 HK Hk) as (n & s4 & -> & Hs4 & Hn).
      { eapply count_positive; eauto. }
      { by eapply after_self. }
      exists n, s4. split; [done|]. split; [by eapply after_trans|done].
    - destruct (IH (c - 48) s1 HK Hk ltac:(lia) (after_self _ _ Hs1)) as (n & s4 & -> & Hs4 & Hn).
      exists n, s4. split; [done|]. split; [by eapply after_trans|done]. }
  destruct (c =? -1); [eexists _, s1; auto|].
  destruct (c =? -2); eexists _, s1; auto.
Qed.

(** The stream after a function that gave the code [rc]: it stands where it
    stood, or after what was taken; nothing is left to undo. *)
Definition settled (rc : Z) s s' : Prop :=
  r_ok s' /\ since s' = unread s' /\
  exists taken more, unread s ++ more = taken ++ unread s' /\ (rc <> DIS_SUCCESS -> taken = []).

(** [m] ends, and [rc_of] its result is a code of which that is so. *)
Definition safe {A : Type} (m : M S A) (rc_of : A -> Z) : Prop :=
  forall s, r_ok s -> since s = unread s ->
  exists a s', m s = Some (a, s') /\ settled (rc_of a) s s'.

Lemma commit_settles (rc : Z) s s1 :
  since s = unread s -> after s s1 ->
  exists s', disr_commit (rc =? DIS_SUCCESS) s1 = Some (0, s') /\ settled rc s s'.
Proof.
  intros He (Ho & [more Hm] & [before Hb]). destruct (Z.eqb_spec rc DIS_SUCCESS) as [->|Hne].
  - destruct (rcommit_true s1 Ho) as (s' & Hc & Ho' & Hu & Hs). exists s'. split; [done|].
    split; [done|]. split; [by rewrite Hu|]. exists before, more. split; [|done].
    by rewrite Hu, <-Hb, <-He, <-Hm.
  - destruct (rcommit_false s1 Ho) as (s' & Hc & Ho' & Hu & Hs). exists s'. split; [done|].
    split; [done|]. split; [by rewrite Hu|]. exists [], more. split; [|done].
    by rewrite Hu, Hm, He.
Qed.

Lemma r_commit_settles (rc : Z) s s1 :
  since s = unread s -> after s s1 ->
  exists s', r_commit rc s1 = Some (rc, s') /\ settled rc s s'.
Proof.
  intros He Ha. destruct (commit_settles rc s s1 He Ha) as (s' & Hc & Hs). exists s'.
  split; [|done]. unfold r_commit. by mstep Hc.
Qed.

Lemma start_after s : r_ok s -> since s = unread s -> after s s.
Proof. intros Ho He. apply after_refl; [done|]. by exists []. Qed.

Lemma digs_int : k_digs (Kind 32 dis_umax true) <= INT_MAX /\ k_digs (Kind 64 ulmax true) <= INT_MAX
  /\ k_digs (Kind 64 ulmax false) <= INT_MAX.
Proof. split_and!; vm_compute; discriminate. Qed.

Lemma safe_unsigned (K : kind) (hi : Z) :
  kind_ok K -> k_digs K <= INT_MAX ->
  safe (disr_unsigned (disr_ K DIS_RECURSIVE_LIMIT 1) hi) snd.
Proof.
  intros HK Hk s Ho He.
  destruct (disr_any K DIS_RECURSIVE_LIMIT 1 s HK Hk ltac:(lia) (start_after s Ho He))
    as (n & s1 & Hn & Hs1 & [Hg _]).
  unfold disr_unsigned. mstep Hn.
  assert (forall v rc, exists (a : Z * Z) s', (let* rc := r_commit rc in ret (v, rc)) s1 = Some (a, s') /\
    settled (snd a) s s') as Hend.
  { intros v rc. destruct (r_commit_settles rc s s1 He Hs1) as (s' & Hc & Hs').
    exists (v, rc), s'. split; [by mstep Hc|done]. }
  destruct (Z.eqb_spec (n_rc n) DIS_SUCCESS) as [Hrc|Hrc]; msimp; [|apply Hend].
  destruct (Hg Hrc) as ([b ->] & v & -> & _). cbn [use]. msimp.
  destruct b; msimp; [apply Hend|]. destruct (v >? hi); msimp; apply Hend.
Qed.

Lemma safe_signed (K : kind) (fits : bool -> Z -> bool) (w lo hi : Z) :
  kind_ok K -> k_digs K <= INT_MAX -> k_early K = true ->
  safe (disr_signed (disr_ K DIS_RECURSIVE_LIMIT 1) fits w lo hi) snd.
Proof.
  intros HK Hk Hearly s Ho He.
  destruct (disr_any K DIS_RECURSIVE_LIMIT 1 s HK Hk ltac:(lia) (start_after s Ho He))
    as (n & s1 & Hn & Hs1 & [Hg Hg']).
  unfold disr_signed. mstep Hn.
  assert (forall v rc, exists (a : Z * Z) s', (let* rc := r_commit rc in ret (v, rc)) s1 = Some (a, s') /\
    settled (snd a) s s') as Hend.
  { intros v rc. destruct (r_commit_settles rc s s1 He Hs1) as (s' & Hc & Hs').
    exists (v, rc), s'. split; [by mstep Hc|done]. }
  destruct (Z.eqb_spec (n_rc n) DIS_SUCCESS) as [Hrc|Hrc]; msimp.
  - destruct (Hg Hrc) as ([b ->] & v & -> & _). cbn [use]. msimp.
    destruct (fits b v); msimp; apply Hend.
  - destruct (Z.eqb_spec (n_rc n) DIS_OVERFLOW) as [Hov|Hov]; msimp; [|apply Hend].
    destruct (Hg' Hov Hearly) as [b ->]. cbn [use]. msimp. apply Hend.
Qed.

Lemma si_any s : r_ok s -> since s = unread s ->
  exists n s', disrsi_ s = Some (n, s') /\ after s s' /\ number_good (Kind 32 dis_umax true) n.
Proof.
  intros Ho He. apply disr_any; [apply kind_si|apply digs_int|lia|by apply start_after].
Qed.

Lemma disrst_safe : safe disrst snd.
Proof.
  intros s Ho He. destruct (si_any s Ho He) as (n & s1 & Hn & Hs1 & [Hg _]).
  unfold disrst. mstep Hn.
  assert (forall v rc s2, after s s2 -> exists a s',
    (let* rc := r_commit rc in ret (if rc =? DIS_SUCCESS then v else None, rc)) s2
      = Some (a : option cstring * Z, s') /\ settled (snd a) s s') as Hend.
  { intros v rc s2 Hs2. destruct (r_commit_settles rc s s2 He Hs2) as (s' & Hc & Hs').
    eexists _, s'. split; [mstep Hc; done|done]. }
  destruct (Z.eqb_spec (n_rc n) DIS_SUCCESS) as [Hrc|Hrc]; msimp; [|by apply Hend].
  destruct (Hg Hrc) as ([b ->] & v & -> & Hv). cbn [use]. msimp. cbn in Hv.
  destruct b; msimp; [by apply Hend|].
  destruct (gets_any s1 v (after_self _ _ Hs1) ltac:(unfold UINT_MAX; lia))
    as (r & cs & s2 & Hg2 & Hs2 & _). mstep Hg2. pose proof (after_trans _ _ _ Hs1 Hs2).
  destruct (negb (uint64 r =? v)); msimp; [by apply Hend|].
  destruct (has_nul cs); msimp; by apply Hend.
Qed.

(** The array must have room for one character more than the limit. *)
Lemma disrfst_safe (achars size : Z) : achars < size -> safe (disrfst achars size) fst.
Proof.
  intros Hz s Ho He. destruct (si_any s Ho He) as (n & s1 & Hn & Hs1 & [Hg _]).
  unfold disrfst. mstep Hn.
  assert (forall v rc s2, after s s2 -> exists a s',
    (let* r := disr_commit (rc =? DIS_SUCCESS) in
     ret ((if negb (r =? 0) then DIS_NOCOMMIT else rc),
       if (if negb (r =? 0) then DIS_NOCOMMIT else rc) =? DIS_SUCCESS then v else [])) s2
      = Some (a : Z * cstring, s') /\ settled (fst a) s s') as Hend.
  { intros v rc s2 Hs2. destruct (commit_settles rc s s2 He Hs2) as (s' & Hc & Hs').
    eexists _, s'. split; [mstep Hc; done|done]. }
  destruct (Z.eqb_spec (n_rc n) DIS_SUCCESS) as [Hrc|Hrc]; msimp; [|by apply Hend].
  destruct (Hg Hrc) as ([b ->] & v & -> & Hv). cbn [use]. msimp. cbn in Hv.
  destruct b; msimp; [by apply Hend|].
  destruct (Z.gtb_spec v achars) as [|Hle]; msimp; [by apply Hend|].
  destruct (gets_any s1 v (after_self _ _ Hs1) ltac:(unfold UINT_MAX; lia))
    as (r & cs & s2 & Hg2 & Hs2 & _). mstep Hg2. pose proof (after_trans _ _ _ Hs1 Hs2).
  destruct (negb (uint64 r =? v)); msimp; [by apply Hend|].
  assert ((v >? size) = false) as -> by lia. assert ((v >=? size) = false) as -> by lia.
  destruct (has_nul cs); msimp; by apply Hend.
Qed.

Lemma disrfcs_safe (achars size : Z) :
  achars <= size -> safe (disrfcs achars size) (fun a => fst (fst a)).
Proof.
  intros Hz s Ho He. destruct (si_any s Ho He) as (n & s1 & Hn & Hs1 & [Hg _]).
  unfold disrfcs. mstep Hn.
  assert (forall (nch : Z) v rc s2, after s s2 -> exists a s',
    (let* r := disr_commit (rc =? DIS_SUCCESS) in
     ret ((if negb (r =? 0) then DIS_NOCOMMIT else rc),
       (if negb ((if negb (r =? 0) then DIS_NOCOMMIT else rc) =? DIS_SUCCESS) then 0 else nch), v)) s2
      = Some (a : Z * Z * cstring, s') /\ settled (fst (fst a)) s s') as Hend.
  { intros nch v rc s2 Hs2. destruct (commit_settles rc s s2 He Hs2) as (s' & Hc & Hs').
    eexists _, s'. split; [mstep Hc; done|done]. }
  destruct (Z.eqb_spec (n_rc n) DIS_SUCCESS) as [Hrc|Hrc]; msimp; [|by apply Hend].
  destruct (Hg Hrc) as ([b ->] & v & -> & Hv). cbn [use]. msimp. cbn in Hv.
  destruct b; msimp; [by apply Hend|].
  destruct (Z.gtb_spec v achars) as [|Hle]; msimp; [by apply Hend|].
  destruct (gets_any s1 v (after_self _ _ Hs1) ltac:(unfold UINT_MAX; lia))
    as (r & cs & s2 & Hg2 & Hs2 & _). mstep Hg2. pose proof (after_trans _ _ _ Hs1 Hs2).
  destruct (negb (uint64 r =? v)); msimp; [by apply Hend|].
  assert ((v >? size) = false) as -> by lia. msimp. by apply Hend.
Qed.

(** C38. Whatever comes over a stream, reading an unsigned number ([disrui], [disrul],
    [disrull], [disrus], [disruc]) or a signed one ([disrsi], [disrss], [disrsc]), a
    string into new memory ([disrst]) or into an array as long as its limit
    ([disrfcs]) ends with a code and inside the array; an error leaves the stream
    where it was, so that the read can be tried again.  Not so [disrsl] and [disrcs]
    ([disrsl_unset], [disrcs_unset]), and [disrfst] needs room for a null
    ([disrfst_overruns]). *)
Theorem read_or_reset (achars : Z) :
  safe disrui snd /\ safe disrsi snd /\ safe disrul snd /\ safe disrull snd /\
  safe disrus snd /\ safe disruc snd /\ safe disrss snd /\ safe disrsc snd /\
  safe disrst snd /\ safe (disrfcs achars achars) (fun a => fst (fst a)).
Proof.
  destruct digs_int as (H32 & H64 & H64').
  split_and!; try (apply safe_unsigned; [first [exact kind_si|exact kind_sl|exact kind_sll]|done]);
    try (apply safe_signed; [exact kind_si|done|done]).
  - apply disrst_safe.
  - by apply disrfcs_safe.
Qed.

End Read.

Import TextStream.

(** [disrfst] is safe too in an array of 257 characters with the limit 256, not
    with the limit 257. *)
Example disrfst_room : safe (S := TextStream.rtext) (disrfst 256 257) fst.
Proof. by apply disrfst_safe. Qed.

(** ** What the others do *)

(** A count beyond the largest number of digits before a sign: [disrsl_] has not
    set [*negate] when it goes to the end, and [disrsl] uses it. *)
Lemma disrsl_unset : reading disrsl (lit "299+1") = None /\
  reading disrsi (lit "299+1") = Some ((INT_MAX, DIS_OVERFLOW), lit "299+1").
Proof. split; vm_compute; reflexivity. Qed.

(** At the end of the data [disrsi_] sets nothing; [disrcs] tests [negate]. *)
Lemma disrcs_unset : reading disrcs [] = None /\ reading disrst [] = Some ((None, DIS_EOF), []).
Proof. split; vm_compute; reflexivity. Qed.

(** After an overflow the count is not zero, although there is no string. *)
Lemma disrcs_count :
  reading disrcs (lit "299+1") = Some ((None, UINT_MAX, DIS_OVERFLOW), lit "299+1").
Proof. vm_compute. reflexivity. Qed.

(** Leading zeros of a value are taken, although there is a code for them. *)
Lemma leading_zeros : reading disrui (lit "3+007") = Some ((7, DIS_SUCCESS), []).
Proof. vm_compute. reflexivity. Qed.

(** A byte of value 255 is taken for the end of the data. *)
Lemma byte_255_is_end : reading disrui [chr 255] = Some ((0, DIS_EOD), [chr 255]).
Proof. vm_compute. reflexivity. Qed.

(** With a limit as long as the array the terminating null is written after it. *)
Lemma disrfst_overruns : reading (disrfst 3 3) (lit "+3abc") = None.
Proof. vm_compute. reflexivity. Qed.

End DisSafe.
