(* ===== verification/TcpDis.v ===== *)
(** * Streams over tcp: [src/lib/Libifl/tcp_dis.c]

    Module [Tcp]: the read and the write buffer of a connection and the
    functions [DIS_tcp_funcs] installs, as instances of [DisR] and [DisW].

    The other end and the kernel are in the state: what a [poll] and a read will
    find, and what a write will be told.  A buffer is the list of its cells that
    have been written; a cell past it has no value, and using one is [None].
    Memory for a larger buffer is always given, and a sum of sizes does not
    wrap; a difference does. *)

From Stdlib Require Import ZArith Lia Ascii String.
From S2P Require Import Prelude Dis.

Module Tcp.

Definition THE_BUF_SIZE : Z := 1024.

Record tcpdisbuf := Buf {
  tdis_lead : Z; tdis_trail : Z; tdis_eod : Z; tdis_bufsize : Z; tdis_thebuf : cstring }.

(** [a - b] for two [size_t] *)
Definition usub (a b : Z) : Z := if b <=? a then a - b else a - b + 2 ^ 64.

(** [ct] cells from [pos] on *)
Definition cells (buf : cstring) (pos ct : Z) : option cstring :=
  if (0 <=? pos) && (0 <=? ct) && (pos + ct <=? Z.of_nat (length buf))
  then Some (take (Z.to_nat ct) (drop (Z.to_nat pos) buf)) else None.

(** [memcpy] into a buffer of [size] cells *)
Definition store (buf : cstring) (size pos : Z) (cs : cstring) : option cstring :=
  if (0 <=? pos) && (pos <=? Z.of_nat (length buf)) && (pos + Z.of_nat (length cs) <=? size)
  then Some (take (Z.to_nat pos) buf ++ cs ++ drop (Z.to_nat pos + length cs) buf) else None.

Definition tcp_pack_buff (tp : tcpdisbuf) : option tcpdisbuf :=
  let start := tdis_trail tp in
  if negb (start =? 0) then
    let amt := usub (tdis_eod tp) start in
    moved ← cells (tdis_thebuf tp) start amt;
    buf ← store (tdis_thebuf tp) (tdis_bufsize tp) 0 moved;
    Some {| tdis_lead := usub (tdis_lead tp) start; tdis_trail := 0;
            tdis_eod := usub (tdis_eod tp) start;
            tdis_bufsize := tdis_bufsize tp; tdis_thebuf := buf |}
  else Some tp.

Definition DIS_tcp_clear (tp : tcpdisbuf) : tcpdisbuf :=
  {| tdis_lead := 0; tdis_trail := 0; tdis_eod := 0;
     tdis_bufsize := tdis_bufsize tp; tdis_thebuf := tdis_thebuf tp |}.

(** The buffers [DIS_tcp_setup] makes for a new descriptor *)
Definition new_buf : tcpdisbuf :=
  {| tdis_lead := 0; tdis_trail := 0; tdis_eod := 0; tdis_bufsize := THE_BUF_SIZE; tdis_thebuf := [] |}.

Definition set_lead (tp : tcpdisbuf) (n : Z) : tcpdisbuf :=
  {| tdis_lead := n; tdis_trail := tdis_trail tp; tdis_eod := tdis_eod tp;
     tdis_bufsize := tdis_bufsize tp; tdis_thebuf := tdis_thebuf tp |}.
Definition set_trail (tp : tcpdisbuf) (n : Z) : tcpdisbuf :=
  {| tdis_lead := tdis_lead tp; tdis_trail := n; tdis_eod := tdis_eod tp;
     tdis_bufsize := tdis_bufsize tp; tdis_thebuf := tdis_thebuf tp |}.
Definition set_eod (tp : tcpdisbuf) (n : Z) : tcpdisbuf :=
  {| tdis_lead := tdis_lead tp; tdis_trail := tdis_trail tp; tdis_eod := n;
     tdis_bufsize := tdis_bufsize tp; tdis_thebuf := tdis_thebuf tp |}.
Definition set_size (tp : tcpdisbuf) (n : Z) : tcpdisbuf :=
  {| tdis_lead := tdis_lead tp; tdis_trail := tdis_trail tp; tdis_eod := tdis_eod tp;
     tdis_bufsize := n; tdis_thebuf := tdis_thebuf tp |}.
Definition set_buf (tp : tcpdisbuf) (b : cstring) : tcpdisbuf :=
  {| tdis_lead := tdis_lead tp; tdis_trail := tdis_trail tp; tdis_eod := tdis_eod tp;
     tdis_bufsize := tdis_bufsize tp; tdis_thebuf := b |}.

(** The end of [tcp_rcommit] and of [tcp_wcommit] *)
Definition commit (commit_flag : bool) (tp : tcpdisbuf) : tcpdisbuf :=
  if commit_flag then set_trail tp (tdis_lead tp) else set_lead tp (tdis_trail tp).

(** ** Reading *)

(** What a [poll] and the read after it find: some data, nothing in time, or an
    error.  After the last event the connection is closed. *)
Inductive event := Data (c : ascii) (cs : cstring) | Quiet | Broken.

Record rsock := RSock { readbuf : tcpdisbuf; net : list event }.

(** The number of characters read, or the code *)
Definition tcp_read : M rsock Z := fun s =>
  tp ← tcp_pack_buff (readbuf s);
  let tp :=
    if usub (tdis_bufsize tp) (tdis_eod tp) <? 20
    then set_size tp (tdis_bufsize tp + THE_BUF_SIZE) else tp in
  match net s with
  | [] => Some (-2, RSock tp [])
  | Quiet :: net => Some (0, RSock tp net)
  | Broken :: net => Some (-1, RSock tp net)
  | Data c cs :: net =>
      let room := Z.to_nat (usub (tdis_bufsize tp) (tdis_eod tp)) in
      let got := take room (c :: cs) in
      buf ← store (tdis_thebuf tp) (tdis_bufsize tp) (tdis_eod tp) got;
      let i := Z.of_nat (length got) in
      let tp := set_eod (set_buf tp buf) (tdis_eod tp + i) in
      let net := match drop room (c :: cs) with [] => net | c :: cs => Data c cs :: net end in
      Some (if i =? 0 then -2 else i, RSock tp net)
  end.

Definition tcp_getc : M rsock Z := fun s =>
  let tp := readbuf s in
  x ← (if tdis_lead tp >=? tdis_eod tp then tcp_read s else Some (1, s));
  let '(x, s) := x in
  if x <=? 0 then Some (if x =? -2 then -2 else -1, s)
  else
    let tp := readbuf s in
    got ← cells (tdis_thebuf tp) (tdis_lead tp) 1;
    match got with
    | c :: _ => Some (schar c, RSock (set_lead tp (tdis_lead tp + 1)) (net s))
    | [] => None
    end.

(** The size of what may still come, which each round of [tcp_gets] makes
    smaller *)
Fixpoint net_size (l : list event) : nat :=
  match l with
  | [] => 0
  | Data _ cs :: l => 2 + length cs + net_size l
  | _ :: l => 1 + net_size l
  end.

Fixpoint gets_loop (fuel : nat) (ct : Z) : M rsock Z := fun s =>
  match fuel with
  | O => None
  | Datatypes.S fuel =>
      if usub (tdis_eod (readbuf s)) (tdis_lead (readbuf s)) <? ct then
        x ← tcp_read s;
        let '(x, s) := x in
        if x <=? 0 then Some (x, s) else gets_loop fuel ct s
      else Some (1, s)
  end.

Definition tcp_gets (ct : Z) : M rsock (Z * cstring) := fun s =>
  x ← gets_loop (Datatypes.S (net_size (net s))) ct s;
  let '(x, s) := x in
  if x <=? 0 then Some ((x, []), s)
  else
    let tp := readbuf s in
    str ← cells (tdis_thebuf tp) (tdis_lead tp) ct;
    Some ((int32 ct, str), RSock (set_lead tp (tdis_lead tp + ct)) (net s)).

Definition tcp_rskip (ct : Z) : M rsock Z := fun s =>
  let tp := readbuf s in
  let ct := if usub (tdis_lead tp) (tdis_eod tp) <? ct then usub (tdis_lead tp) (tdis_eod tp) else ct in
  Some (int32 ct, RSock (set_lead tp (tdis_lead tp + ct)) (net s)).

Definition tcp_rcommit (commit_flag : bool) : M rsock Z := fun s =>
  Some (0, RSock (commit commit_flag (readbuf s)) (net s)).

(** ** Writing *)

(** What a write is told: that up to [n + 1] characters were taken, that it is
    to be tried again once the socket is ready, that it never gets ready, or an
    error.  After the last of them all is taken. *)
Inductive wevent := Takes (n : nat) | Again | Blocked | WBroken.

Record wsock := WSock { writebuf : tcpdisbuf; wire : cstring; told : list wevent }.

(** The loop over [CS_write], at [pb] with [ct] characters left *)
Fixpoint write_loop (told : list wevent) (pb : cstring) (wire : cstring)
  : bool * cstring * list wevent :=
  match told with
  | [] => (true, wire ++ pb, [])
  | Takes n :: told =>
      let i := Datatypes.S n in
      if (length pb <=? i)%nat then (true, wire ++ pb, told)
      else write_loop told (drop i pb) (wire ++ take i pb)
  | Again :: told => write_loop told pb wire
  | Blocked :: told | WBroken :: told => (false, wire, told)
  end.

Definition DIS_tcp_wflush : M wsock Z := fun s =>
  let tp := writebuf s in
  let ct := tdis_trail tp in
  if ct =? 0 then Some (0, s)
  else
    pb ← cells (tdis_thebuf tp) 0 ct;
    let '(ok, wire, told) := write_loop (told s) pb (wire s) in
    if ok : bool then
      tp ← tcp_pack_buff (set_eod tp (tdis_lead tp));
      Some (0, WSock tp wire told)
    else Some (-1, WSock tp wire told).

Definition tcp_puts (str : cstring) : M wsock Z := fun s =>
  let ct := Z.of_nat (length str) in
  let tp := writebuf s in
  x ← (if usub (tdis_bufsize tp) (tdis_lead tp) <? ct then
         x ← DIS_tcp_wflush s;
         let '(r, s) := x in
         if r <? 0 then Some (false, s)
         else
           let tp := writebuf s in
           if usub (tdis_bufsize tp) (tdis_lead tp) <? ct then
             let ru := (ct + tdis_lead tp) / THE_BUF_SIZE in
             Some (true, WSock (set_size tp ((ru + 1) * THE_BUF_SIZE)) (wire s) (told s))
           else Some (true, s)
       else Some (true, s));
  let '(ok, s) := x in
  if ok : bool then
    let tp := writebuf s in
    buf ← store (tdis_thebuf tp) (tdis_bufsize tp) (tdis_lead tp) str;
    Some (int32 ct, WSock (set_lead (set_buf tp buf) (tdis_lead tp + ct)) (wire s) (told s))
  else Some (-1, s).

Definition tcp_wcommit (commit_flag : bool) : M wsock Z := fun s =>
  Some (0, WSock (commit commit_flag (writebuf s)) (wire s) (told s)).

(** [DIS_tcp_funcs] *)
#[export] Instance tcp_r : DisR rsock := {
  dis_getc := tcp_getc; dis_gets := tcp_gets; disr_commit := tcp_rcommit }.
#[export] Instance tcp_w : DisW wsock := {
  dis_puts := tcp_puts; disw_commit := tcp_wcommit }.

(** [DIS_tcp_setup] of a descriptor that has its buffers, for the read buffer *)
#[export] Instance tcp_setup : DisSetup rsock := fun s => Some (tt, RSock (DIS_tcp_clear (readbuf s)) (net s)).

(** [DIS_tcp_setup] on a connection with these events *)
Definition r_setup (l : list event) : rsock := RSock (DIS_tcp_clear new_buf) l.
Definition w_setup (l : list wevent) : wsock := WSock (DIS_tcp_clear new_buf) [] l.

End Tcp.
