(* ===== verification/TcpProps.v ===== *)
(** * The tcp buffers keep the laws of a stream

    Instances of [DisRLaws] and [DisWLaws] for the buffers of [TcpDis]: however
    the data come in pieces, wait or are compacted, what is read is what came;
    however writes are cut, what is sent is what was committed. *)

From Stdlib Require Import ZArith Lia Ascii String.
From S2P Require Import Prelude Dis TcpDis.
Import Tcp.

Module TcpProps.

Lemma usub_eq (a b : Z) : b <= a -> usub a b = a - b.
Proof. unfold usub. intros. destruct (Z.leb_spec b a); [done|lia]. Qed.

Lemma cells_eq (buf : cstring) (pos ct : Z) :
  0 <= pos -> 0 <= ct -> pos + ct <= Z.of_nat (length buf) ->
  cells buf pos ct = Some (take (Z.to_nat ct) (drop (Z.to_nat pos) buf)).
Proof.
  intros. unfold cells.
  by replace ((0 <=? pos) && (0 <=? ct) && (pos + ct <=? Z.of_nat (length buf))) with true by lia.
Qed.

Lemma store_eq (buf : cstring) (size pos : Z) (cs : cstring) :
  0 <= pos <= Z.of_nat (length buf) -> pos + Z.of_nat (length cs) <= size ->
  store buf size pos cs
  = Some (take (Z.to_nat pos) buf ++ cs ++ drop (Z.to_nat pos + length cs) buf).
Proof.
  intros. unfold store.
  by replace ((0 <=? pos) && (pos <=? Z.of_nat (length buf)) && (pos + Z.of_nat (length cs) <=? size))
    with true by lia.
Qed.

(** A buffer in order *)
Record buf_ok (tp : tcpdisbuf) : Prop := {
  bo_trail : 0 <= tdis_trail tp <= tdis_lead tp;
  bo_lead : tdis_lead tp <= tdis_eod tp;
  bo_eod : tdis_eod tp <= Z.of_nat (length (tdis_thebuf tp));
  bo_size : Z.of_nat (length (tdis_thebuf tp)) <= tdis_bufsize tp }.

(** The cells from the last commit to the end of the data, and how many of them
    have been read *)
Definition held (tp : tcpdisbuf) : cstring :=
  take (Z.to_nat (tdis_eod tp - tdis_trail tp)) (drop (Z.to_nat (tdis_trail tp)) (tdis_thebuf tp)).
Definition taken (tp : tcpdisbuf) : nat := Z.to_nat (tdis_lead tp - tdis_trail tp).

Lemma held_length tp : buf_ok tp -> length (held tp) = Z.to_nat (tdis_eod tp - tdis_trail tp).
Proof. intros [? ? ? ?]. unfold held. rewrite length_take, length_drop. lia. Qed.

Lemma pack_spec tp :
  buf_ok tp ->
  exists tp', tcp_pack_buff tp = Some tp' /\ buf_ok tp' /\ held tp' = held tp /\ taken tp' = taken tp /\
    tdis_trail tp' = 0 /\ tdis_bufsize tp' = tdis_bufsize tp /\
    tdis_eod tp' = tdis_eod tp - tdis_trail tp /\ tdis_lead tp' = tdis_lead tp - tdis_trail tp.
Proof.
  intros Hok. pose proof Hok as [Ht Hl He Hs]. pose proof (held_length tp Hok) as Hlen.
  unfold tcp_pack_buff.
  destruct (Z.eqb_spec (tdis_trail tp) 0) as [H0|H0]; cbn [negb].
  { exists tp. split_and!; try done; lia. }
  rewrite !usub_eq by lia. rewrite cells_eq by lia. cbn [mbind option_bind].
  fold (held tp). rewrite store_eq by lia. cbn [mbind option_bind]. change (Z.to_nat 0) with 0%nat.
  rewrite take_0. cbn [app plus].
  eexists. split; [done|]. split; [|unfold held, taken; cbn; split_and!; try lia].
  - split; cbn; try lia; rewrite length_app, length_drop, Hlen; lia.
  - rewrite !Z.sub_0_r. fold (held tp). rewrite drop_0.
    rewrite take_app_le by lia. apply take_ge. lia.
Qed.

Lemma pack_resize tp (n : Z) :
  buf_ok tp -> tdis_bufsize tp <= n -> buf_ok (set_size tp n).
Proof. intros [? ? ? ?] ?. split; cbn; lia. Qed.

(** Data put at the end *)
Lemma append_spec tp (cs : cstring) :
  buf_ok tp -> tdis_eod tp + Z.of_nat (length cs) <= tdis_bufsize tp ->
  exists buf, store (tdis_thebuf tp) (tdis_bufsize tp) (tdis_eod tp) cs = Some buf /\
    let tp' := set_eod (set_buf tp buf) (tdis_eod tp + Z.of_nat (length cs)) in
    buf_ok tp' /\ held tp' = held tp ++ cs /\ taken tp' = taken tp.
Proof.
  intros [Ht Hl He Hs] Hn. rewrite store_eq by lia. eexists. split; [done|]. cbn.
  set (buf := tdis_thebuf tp) in *. set (e := Z.to_nat (tdis_eod tp)) in *.
  assert (length (take e buf) = e) as Hle by (rewrite length_take; lia).
  split; [|unfold held, taken; cbn; split; [|done]].
  - split; cbn; rewrite ?length_app, ?length_drop, ?Hle; lia.
  - fold buf. rewrite drop_app_le by lia. rewrite skipn_firstn_comm, app_assoc.
    replace (e - Z.to_nat (tdis_trail tp))%nat with (Z.to_nat (tdis_eod tp - tdis_trail tp)) by lia.
    rewrite take_app_le.
    + apply take_ge. rewrite length_app, length_take, length_drop. lia.
    + rewrite length_app, length_take, length_drop. lia.
Qed.

(** ** Reading *)

(** What still comes before it waits, fails or ends *)
Fixpoint net_data (l : list event) : cstring :=
  match l with Data c cs :: l => c :: cs ++ net_data l | _ => [] end.

Definition rs_ok (s : rsock) : Prop := buf_ok (readbuf s).
Definition rs_since (s : rsock) : cstring := held (readbuf s) ++ net_data (net s).
Definition rs_unread (s : rsock) : cstring :=
  drop (taken (readbuf s)) (held (readbuf s)) ++ net_data (net s).

Definition rs_avail (s : rsock) : Z := tdis_eod (readbuf s) - tdis_lead (readbuf s).

Lemma taken_le tp : buf_ok tp -> (taken tp <= length (held tp))%nat.
Proof. intros Hok. rewrite held_length by done. destruct Hok. unfold taken. lia. Qed.

Lemma avail_length s : rs_ok s -> rs_avail s = Z.of_nat (length (drop (taken (readbuf s)) (held (readbuf s)))).
Proof.
  intros Hok. rewrite length_drop, held_length by done. destruct Hok. unfold rs_avail, taken. lia.
Qed.

Lemma tcp_read_spec s :
  rs_ok s ->
  exists x s', tcp_read s = Some (x, s') /\ rs_ok s' /\
    (0 < x /\ rs_unread s' = rs_unread s /\ rs_since s' = rs_since s /\ rs_avail s' = rs_avail s + x /\
       (net_size (net s') < net_size (net s))%nat \/
     -2 <= x <= 0 /\ net_data (net s) = [] /\ rs_avail s' = rs_avail s /\
       exists more, rs_unread s' = rs_unread s ++ more /\ rs_since s' = rs_since s ++ more).
Proof.
  intros Hok. destruct (pack_spec _ Hok) as (tp & Hp & Hok1 & Hh & Ht & Htr & _ & He & Hl).
  unfold tcp_read. rewrite Hp. cbn [mbind option_bind].
  set (tp1 := if usub (tdis_bufsize tp) (tdis_eod tp) <? 20 then _ else tp).
  assert (buf_ok tp1 /\ held tp1 = held tp /\ taken tp1 = taken tp /\ tdis_eod tp1 = tdis_eod tp /\
    tdis_lead tp1 = tdis_lead tp /\ tdis_eod tp + 20 <= tdis_bufsize tp1)
    as (Hok2 & Hh1 & Ht1 & He1 & Hl1 & Hroom).
  { pose proof Hok1 as [_ _ ? ?]. unfold tp1. rewrite usub_eq by lia.
    destruct (Z.ltb_spec (tdis_bufsize tp - tdis_eod tp) 20).
    - split_and!; try done; [|cbn; unfold THE_BUF_SIZE; lia]. apply pack_resize; [done|unfold THE_BUF_SIZE; lia].
    - split_and!; try done. lia. }
  rewrite <-Hh1, <-Ht1 in *. clearbody tp1.
  assert (forall tp' l, tdis_eod tp' = tdis_eod tp -> tdis_lead tp' = tdis_lead tp ->
    rs_avail (RSock tp' l) = rs_avail s) as Hav.
  { intros tp' l H1 H2. unfold rs_avail. cbn. lia. }
  destruct (net s) as [|[c cs| |] l] eqn:En.
  - eexists _, _. split; [done|]. split; [done|]. right. split; [lia|]. split; [done|].
    split; [by apply Hav|]. exists []. unfold rs_unread, rs_since. cbn. rewrite En, Hh, Ht, !app_nil_r. done.
  - rewrite usub_eq by lia. set (room := Z.to_nat (tdis_bufsize tp1 - tdis_eod tp1)).
    set (got := take room (c :: cs)).
    assert (0 < length got <= room)%nat as Hgot.
    { unfold got. rewrite length_take. cbn. lia. }
    destruct (append_spec tp1 got Hok2) as (buf & -> & Hok3 & Hh3 & Ht3); [lia|]. cbn [mbind option_bind].
    replace (Z.of_nat (length got) =? 0) with false by lia.
    eexists _, _. split; [done|]. split; [exact Hok3|]. left. split; [lia|].
    assert (forall l' : list event, l' = match drop room (c :: cs) with [] => l | c :: cs => Data c cs :: l end ->
      got ++ net_data l' = c :: cs ++ net_data l /\ (net_size l' < net_size (Data c cs :: l))%nat) as Hnet.
    { intros l' ->. pose proof (take_drop room (c :: cs)) as Htd. fold got in Htd.
      assert (length got + length (drop room (c :: cs)) = Datatypes.S (length cs))%nat as Hlen
        by (rewrite <-length_app, Htd; done).
      destruct (drop room (c :: cs)) as [|c' cs'].
      - rewrite app_nil_r in Htd. rewrite Htd. split; [done|]. cbn. lia.
      - split; [|cbn in *; lia]. cbn [net_data]. change (c :: cs ++ net_data l) with ((c :: cs) ++ net_data l).
        rewrite <-Htd, <-app_assoc. done. }
    destruct (Hnet _ eq_refl) as [Hd Hsz].
    unfold rs_unread, rs_since, rs_avail. cbn [readbuf net].
    rewrite Hh3, Ht3, En. cbn [net_data]. rewrite <-Hh, <-Ht.
    pose proof (taken_le tp1 Hok2). rewrite drop_app_le by done. rewrite <-!app_assoc, Hd.
    split_and!; [done|done|cbn; lia|done].
  - eexists _, _. split; [done|]. split; [done|]. right. split; [lia|]. split; [done|].
    split; [by apply Hav|]. exists (net_data l). unfold rs_unread, rs_since. cbn.
    rewrite En, Hh, Ht, !app_nil_r. done.
  - eexists _, _. split; [done|]. split; [done|]. right. split; [lia|]. split; [done|].
    split; [by apply Hav|]. exists (net_data l). unfold rs_unread, rs_since. cbn.
    rewrite En, Hh, Ht, !app_nil_r. done.
Qed.

Lemma gets_loop_spec (ct : Z) (fuel : nat) : forall s,
  rs_ok s -> (net_size (net s) < fuel)%nat ->
  exists x s', gets_loop fuel ct s = Some (x, s') /\ rs_ok s' /\
    (x = 1 /\ ct <= rs_avail s' /\ rs_unread s' = rs_unread s /\ rs_since s' = rs_since s \/
     -2 <= x <= 0 /\ Z.of_nat (length (rs_unread s)) < ct /\
       exists more, rs_unread s' = rs_unread s ++ more /\ rs_since s' = rs_since s ++ more).
Proof.
  induction fuel as [|fuel IH]; intros s Hok Hf; [lia|]. cbn [gets_loop].
  pose proof Hok as [_ Hle _ _]. rewrite usub_eq by lia. fold (rs_avail s).
  destruct (Z.ltb_spec (rs_avail s) ct) as [Hlt|Hge].
  2: { exists 1, s. split; [done|]. split; [done|]. left. split_and!; [done|lia|done|done]. }
  destruct (tcp_read_spec s Hok) as (x & s1 & -> & Hok1 & [(Hx & Hu & Hs & Ha & Hn)|(Hx & Hd & Ha & more & Hu & Hs)]);
    cbn [mbind option_bind].
  - replace (x <=? 0) with false by lia.
    destruct (IH s1 Hok1 ltac:(lia)) as (y & s2 & -> & Hok2 & Hr). exists y, s2. split; [done|]. split; [done|].
    by rewrite <-Hu, <-Hs.
  - replace (x <=? 0) with true by lia. exists x, s1. split; [done|]. split; [done|]. right.
    split; [done|]. split; [|by exists more].
    unfold rs_unread. rewrite Hd, app_nil_r, <-avail_length by done. done.
Qed.

(** The next cells of the buffer *)
Lemma next_cells s (ct : Z) :
  rs_ok s -> 0 <= ct <= rs_avail s ->
  exists str, cells (tdis_thebuf (readbuf s)) (tdis_lead (readbuf s)) ct = Some str /\
    str = take (Z.to_nat ct) (rs_unread s) /\ length str = Z.to_nat ct /\
    let s' := RSock (set_lead (readbuf s) (tdis_lead (readbuf s) + ct)) (net s) in
    rs_ok s' /\ rs_unread s' = drop (Z.to_nat ct) (rs_unread s) /\ rs_since s' = rs_since s.
Proof.
  intros Hok Hct. pose proof Hok as [Ht Hl He Hs]. pose proof (held_length _ Hok) as Hlen.
  unfold rs_avail in Hct. rewrite cells_eq by lia. eexists. split; [done|].
  set (n := Z.to_nat ct). set (tp := readbuf s) in *.
  assert (take n (drop (Z.to_nat (tdis_lead tp)) (tdis_thebuf tp)) = take n (rs_unread s)) as Hstr.
  { unfold rs_unread. fold tp. rewrite take_app_le.
    - unfold held, taken. rewrite skipn_firstn_comm, drop_drop, take_take. f_equal; [lia|]. f_equal. lia.
    - rewrite length_drop, Hlen. unfold taken. lia. }
  split; [done|]. split; [rewrite length_take, length_drop; lia|].
  split; [split; cbn; fold tp; lia|]. split; [|done].
  unfold rs_unread. cbn [readbuf net]. fold tp. rewrite drop_app_le.
  - rewrite drop_drop. unfold taken. cbn. f_equal. unfold held. cbn. f_equal. lia.
  - rewrite length_drop, Hlen. unfold taken. lia.
Qed.

Lemma getc_spec s :
  rs_ok s ->
  exists s', rs_ok s' /\
    match rs_unread s with
    | c :: l => tcp_getc s = Some (schar c, s') /\ rs_unread s' = l /\ rs_since s' = rs_since s
    | [] => exists r, tcp_getc s = Some (r, s') /\ (r = -1 \/ r = -2) /\
        exists more, rs_unread s' = more /\ rs_since s' = rs_since s ++ more
    end.
Proof.
  intros Hok. unfold tcp_getc.
  assert (forall s1, rs_ok s1 -> 1 <= rs_avail s1 -> rs_unread s1 = rs_unread s -> rs_since s1 = rs_since s ->
    exists s' c l, rs_ok s' /\ rs_unread s = c :: l /\
      (got ← cells (tdis_thebuf (readbuf s1)) (tdis_lead (readbuf s1)) 1;
       match got with
       | c :: _ => Some (schar c, RSock (set_lead (readbuf s1) (tdis_lead (readbuf s1) + 1)) (net s1))
       | [] => None
       end) = Some (schar c, s') /\ rs_unread s' = l /\ rs_since s' = rs_since s) as Hend.
  { intros s1 Hok1 Ha1 Hu1 Hs1.
    destruct (next_cells s1 1 Hok1 ltac:(lia)) as (str & -> & Hstr & Hlen & Hok2 & Hu2 & Hs2).
    rewrite Hu1 in Hstr, Hu2. change (Z.to_nat 1) with 1%nat in *. destruct (rs_unread s) as [|c l].
    - by subst str.
    - cbn in Hstr. subst str. eexists _, c, l. split; [exact Hok2|]. split; [done|].
      split; [done|]. split; [exact Hu2|]. by rewrite <-Hs1. }
  pose proof Hok as [_ Hle _ _].
  destruct (Z.geb_spec (tdis_lead (readbuf s)) (tdis_eod (readbuf s))) as [Hge|Hlt]; cbn [mbind option_bind].
  - destruct (tcp_read_spec s Hok) as (x & s1 & -> & Hok1 & [(Hx & Hu & Hs & Ha & _)|(Hx & Hd & Ha & more & Hu & Hs)]);
      cbn [mbind option_bind].
    + replace (x <=? 0) with false by lia.
      destruct (Hend s1 Hok1) as (s' & c & l & Hok' & -> & Hg & Hu' & Hs'); [unfold rs_avail in *; lia|done|done|].
      exists s'. rewrite Hg. done.
    + replace (x <=? 0) with true by lia.
      assert (rs_unread s = []) as Hnil.
      { apply nil_length_inv. unfold rs_unread. rewrite Hd, app_nil_r.
        pose proof (avail_length s Hok) as Hal. unfold rs_avail in Hal. lia. }
      exists s1. split; [done|]. rewrite Hnil in *. eexists. split; [done|].
      split; [destruct (Z.eqb_spec x (-2)); auto|]. by exists more.
  - destruct (Hend s Hok) as (s' & c & l & Hok' & -> & Hg & Hu' & Hs'); [unfold rs_avail; lia|done|done|].
    exists s'. change (1 <=? 0) with false. rewrite Hg. done.
Qed.

#[export] Program Instance tcp_r_laws : DisRLaws rsock := {
  r_ok := rs_ok; unread := rs_unread; since := rs_since }.
Next Obligation.
  intros s c l Hok Hu. destruct (getc_spec s Hok) as (s' & Hok' & Hg). rewrite Hu in Hg.
  exists s'. cbn. tauto.
Qed.
Next Obligation.
  intros s Hok Hu. destruct (getc_spec s Hok) as (s' & Hok' & Hg). rewrite Hu in Hg.
  destruct Hg as (r & Hg & Hr & more & Hm). exists r, s', more. cbn. tauto.
Qed.
Next Obligation.
  intros s n Hok Hn. change (dis_gets n s) with (tcp_gets n s). unfold tcp_gets.
  destruct (gets_loop_spec n _ s Hok (Nat.lt_succ_diag_r _)) as (x & s1 & -> & Hok1 & Hx);
    cbn [mbind option_bind].
  destruct Hx as [(-> & Ha & Hu & Hs)|(_ & Hlt & _)]; [|lia]. change (1 <=? 0) with false. cbv beta iota.
  destruct (next_cells s1 n Hok1 ltac:(lia)) as (str & -> & -> & _ & Hok2 & Hu2 & Hs2).
  cbn [mbind option_bind]. rewrite Hu. eexists. split; [done|]. split; [exact Hok2|].
  split; [by rewrite Hu2, Hu|by rewrite Hs2].
Qed.
Next Obligation.
  intros s n Hok Hn. change (dis_gets n s) with (tcp_gets n s). unfold tcp_gets.
  destruct (gets_loop_spec n _ s Hok (Nat.lt_succ_diag_r _)) as (x & s1 & -> & Hok1 & Hx);
    cbn [mbind option_bind].
  destruct Hx as [(-> & Ha & Hu & Hs)|(Hx & _ & more & Hu & Hs)].
  - rewrite (avail_length s1 Hok1) in Ha. rewrite <-Hu in Hn. unfold rs_unread in Hn.
    rewrite length_app in Hn. lia.
  - replace (x <=? 0) with true by lia. by exists x, [], s1, more.
Qed.
Next Obligation.
  intros s Hok. pose proof Hok as [Ht Hl He Hs]. pose proof (held_length _ Hok) as Hlen.
  eexists. split; [done|]. split; [split; cbn; lia|].
  assert (held (commit true (readbuf s)) = drop (taken (readbuf s)) (held (readbuf s))) as Hh.
  { unfold held, taken. cbn. rewrite skipn_firstn_comm, drop_drop. f_equal; [lia|]. f_equal. lia. }
  unfold rs_unread, rs_since. cbn [readbuf net]. rewrite Hh. split; [|done].
  unfold taken at 1. cbn. by rewrite Z.sub_diag, drop_0.
Qed.
Next Obligation.
  intros s Hok. pose proof Hok as [Ht Hl He Hs]. eexists. split; [done|].
  split; [split; cbn; lia|]. unfold rs_unread, rs_since. cbn [readbuf net]. split; [|done].
  unfold taken. cbn. by rewrite Z.sub_diag, drop_0.
Qed.

(** After the setup only what has not been read into the buffer arrives. *)
#[export] Program Instance tcp_setup_laws : DisSetupLaws rsock := { arriving s := net_data (net s) }.
Next Obligation.
  intros s [Ht Hl He Hs]. eexists. split; [done|]. split; [split; cbn; lia|].
  cbn -[net_data]. unfold rs_unread, rs_since, held, taken. cbn -[net_data]. done.
Qed.

(** ** Writing *)

(** What has gone out and what is committed, and what is not *)
Definition ws_ok (s : wsock) : Prop :=
  let tp := writebuf s in
  0 <= tdis_trail tp <= tdis_lead tp /\ tdis_lead tp <= Z.of_nat (length (tdis_thebuf tp)) /\
  Z.of_nat (length (tdis_thebuf tp)) <= tdis_bufsize tp.
Definition committed (tp : tcpdisbuf) : cstring := take (Z.to_nat (tdis_trail tp)) (tdis_thebuf tp).
Definition pending (tp : tcpdisbuf) : cstring :=
  take (Z.to_nat (tdis_lead tp - tdis_trail tp)) (drop (Z.to_nat (tdis_trail tp)) (tdis_thebuf tp)).
Definition ws_out (s : wsock) : cstring := wire s ++ committed (writebuf s).
Definition ws_staged (s : wsock) : cstring := pending (writebuf s).

(** No write fails: every one takes something or is to be tried again. *)
Definition accepts (e : wevent) : bool := match e with Takes _ | Again => true | _ => false end.
Definition ws_sound (s : wsock) : Prop := forallb accepts (told s) = true.

Lemma write_loop_spec (told : list wevent) : forall pb wire,
  let '(ok, wire', told') := write_loop told pb wire in
  (forallb accepts told = true -> ok = true /\ forallb accepts told' = true) /\
  if ok : bool then wire' = wire ++ pb else exists sent, sent `prefix_of` pb /\ wire' = wire ++ sent.
Proof.
  induction told as [|[n| | |] told IH]; intros pb wire; cbn; try done.
  - destruct (Nat.leb_spec (length pb) (Datatypes.S n)); [done|].
    specialize (IH (drop (Datatypes.S n) pb) (wire ++ take (Datatypes.S n) pb)).
    destruct (write_loop told _ _) as [[ok w] told']. destruct IH as [Ht IH]. split; [done|]. destruct ok.
    + by rewrite IH, <-app_assoc, take_drop.
    + destruct IH as (sent & [k Hk] & ->). exists (take (Datatypes.S n) pb ++ sent).
      split; [|by rewrite app_assoc]. exists k. by rewrite <-app_assoc, <-Hk, take_drop.
  - apply IH.
  - split; [done|]. exists []. rewrite app_nil_r. split; [apply prefix_nil|done].
  - split; [done|]. exists []. rewrite app_nil_r. split; [apply prefix_nil|done].
Qed.

Lemma wflush_spec s :
  ws_ok s ->
  exists r s', DIS_tcp_wflush s = Some (r, s') /\ ws_ok s' /\ ws_staged s' = ws_staged s /\
    (ws_sound s -> ws_sound s') /\
    (r = 0 /\ ws_out s' = ws_out s /\ tdis_trail (writebuf s') = 0 \/
     r = -1 /\ ~ ws_sound s /\ exists sent, sent `prefix_of` committed (writebuf s) /\ wire s' = wire s ++ sent).
Proof.
  intros Hok. pose proof Hok as (Ht & Hl & Hs). unfold DIS_tcp_wflush.
  destruct (Z.eqb_spec (tdis_trail (writebuf s)) 0) as [H0|H0].
  { exists 0, s. split; [done|]. split; [done|]. split; [done|]. split; [done|]. by left. }
  rewrite cells_eq by lia. cbn [mbind option_bind]. change (Z.to_nat 0) with 0%nat. rewrite drop_0.
  fold (committed (writebuf s)). pose proof (write_loop_spec (told s) (committed (writebuf s)) (wire s)) as Hw.
  destruct (write_loop _ _ _) as [[ok w] told']. destruct Hw as [Hsound Hw]. destruct ok.
  - assert (buf_ok (set_eod (writebuf s) (tdis_lead (writebuf s)))) as Hb by (split; cbn; lia).
    destruct (pack_spec _ Hb) as (tp & -> & [? ? ? ?] & Hh & _ & Htr & _ & He & Hle). cbn [mbind option_bind].
    cbn in He, Hle. eexists _, _. split; [done|]. split; [split_and!; cbn; lia|].
    split.
    + assert (pending tp = held tp) as Hp by (unfold pending, held; f_equal; lia).
      unfold ws_staged. cbn [writebuf]. by rewrite Hp, Hh.
    + split; [unfold ws_sound; cbn; tauto|]. left. split; [done|]. unfold ws_out, committed. cbn.
      rewrite Htr. split; [|done]. subst w. cbn. by rewrite app_nil_r.
  - eexists _, _. split; [done|]. split; [done|]. split; [done|].
    assert (~ ws_sound s) as Hns by (intros Hs'; by destruct (Hsound Hs')).
    split; [intros Hs'; by destruct Hns|]. by right.
Qed.

Lemma puts_spec s (str : cstring) :
  ws_ok s -> Z.of_nat (length str) <= INT_MAX ->
  exists r s', tcp_puts str s = Some (r, s') /\ ws_ok s' /\
    (ws_sound s -> ws_sound s') /\
    (r = Z.of_nat (length str) /\ ws_out s' = ws_out s /\ ws_staged s' = ws_staged s ++ str \/
     r = -1 /\ ~ ws_sound s).
Proof.
  intros Hok Hn. unfold tcp_puts.
  assert (forall s1, ws_ok s1 -> ws_out s1 = ws_out s -> ws_staged s1 = ws_staged s ->
    Z.of_nat (length str) <= tdis_bufsize (writebuf s1) - tdis_lead (writebuf s1) ->
    exists r s', (buf ← store (tdis_thebuf (writebuf s1)) (tdis_bufsize (writebuf s1)) (tdis_lead (writebuf s1)) str;
       Some (int32 (Z.of_nat (length str)),
         WSock (set_lead (set_buf (writebuf s1) buf) (tdis_lead (writebuf s1) + Z.of_nat (length str)))
           (wire s1) (told s1))) = Some (r, s') /\ ws_ok s' /\ (ws_sound s1 -> ws_sound s') /\
      r = Z.of_nat (length str) /\ ws_out s' = ws_out s /\ ws_staged s' = ws_staged s ++ str) as Hend.
  { intros s1 (Ht & Hl & Hz) <- <- Hroom. rewrite store_eq by lia. cbn [mbind option_bind].
    set (tp := writebuf s1) in *. set (n := Z.to_nat (tdis_lead tp)).
    assert (length (take n (tdis_thebuf tp)) = n) as Hln by (rewrite length_take; lia).
    eexists _, _. split; [done|]. unfold ws_ok, ws_out, ws_staged, committed, pending.
    cbn [writebuf wire tdis_trail tdis_lead tdis_bufsize tdis_thebuf set_lead set_buf].
    rewrite !length_app, length_drop, Hln. fold tp. split_and!; try lia; try done.
    - rewrite int32_id; [done|]. unfold in_int, INT_MIN, INT_MAX in *. lia.
    - f_equal. rewrite take_app_le by lia. rewrite take_take. f_equal. lia.
    - rewrite drop_app_le by lia. rewrite skipn_firstn_comm, app_assoc.
      replace (n - Z.to_nat (tdis_trail tp))%nat with (Z.to_nat (tdis_lead tp - tdis_trail tp)) by lia.
      rewrite take_app_le by (rewrite length_app, length_take, length_drop; lia).
      apply take_ge. rewrite length_app, length_take, length_drop. lia. }
  pose proof Hok as (Ht & Hl & Hz). rewrite usub_eq by lia.
  destruct (Z.ltb_spec (tdis_bufsize (writebuf s) - tdis_lead (writebuf s)) (Z.of_nat (length str))) as [Hlt|Hge].
  2: { cbn [mbind option_bind]. destruct (Hend s Hok eq_refl eq_refl Hge) as (r & s' & Hr & ? & ? & ?).
       exists r, s'. split; [exact Hr|]. split; [done|]. split; [done|]. by left. }
  destruct (wflush_spec s Hok) as (r & s1 & -> & Hok1 & Hst & Hs1 & Hr). cbn [mbind option_bind].
  destruct Hr as [(-> & Ho & _)|(-> & Hns & _)].
  2: { change (-1 <? 0) with true. cbn. exists (-1), s1. split; [done|]. auto. }
  change (0 <? 0) with false. cbv beta iota. pose proof Hok1 as (Ht1 & Hl1 & Hz1). rewrite usub_eq by lia.
  destruct (Z.ltb_spec (tdis_bufsize (writebuf s1) - tdis_lead (writebuf s1)) (Z.of_nat (length str))) as [Hlt1|Hge1];
    cbn [mbind option_bind].
  - set (size := ((Z.of_nat (length str) + tdis_lead (writebuf s1)) / THE_BUF_SIZE + 1) * THE_BUF_SIZE).
    assert (Z.of_nat (length str) + tdis_lead (writebuf s1) < size) as Hsz.
    { unfold size, THE_BUF_SIZE. pose proof (Z.mod_pos_bound (Z.of_nat (length str) + tdis_lead (writebuf s1)) 1024 ltac:(lia)).
      pose proof (Z.div_mod (Z.of_nat (length str) + tdis_lead (writebuf s1)) 1024 ltac:(lia)). lia. }
    destruct (Hend (WSock (set_size (writebuf s1) size) (wire s1) (told s1))) as (r & s' & Hr & ? & Hs2 & ?);
      [split_and!; cbn; lia|done|done|cbn; lia|].
    exists r, s'. split; [exact Hr|]. split; [done|]. split; [|by left]. intros Hs. by apply Hs2, Hs1.
  - destruct (Hend s1 Hok1 Ho Hst ltac:(lia)) as (r & s' & Hr & ? & Hs2 & ?).
    exists r, s'. split; [exact Hr|]. split; [done|]. split; [auto|]. by left.
Qed.

#[export] Program Instance tcp_w_laws : DisWLaws wsock := {
  w_ok := ws_ok; w_sound := ws_sound; out := ws_out; staged := ws_staged }.
Next Obligation.
  intros s cs Hok Hn. destruct (puts_spec s cs Hok Hn) as (r & s' & Hp & Hok' & Hs & Hr).
  exists r, s'. split; [exact Hp|]. split; [done|]. split; [exact Hs|].
  destruct Hr as [? | [-> ?]]; [by left|right; split; [lia|done]].
Qed.
Next Obligation.
  intros s (Ht & Hl & Hz). eexists. split; [done|]. split; [split_and!; cbn; lia|]. split; [done|].
  unfold ws_out, ws_staged, committed, pending. cbn. rewrite Z.sub_diag. split; [|done].
  rewrite <-app_assoc. f_equal.
  rewrite <-(take_drop (Z.to_nat (tdis_trail (writebuf s))) (take (Z.to_nat (tdis_lead (writebuf s))) _)).
  rewrite take_take, skipn_firstn_comm. f_equal; [f_equal; lia|]. f_equal. lia.
Qed.
Next Obligation.
  intros s (Ht & Hl & Hz). eexists. split; [done|]. split; [split_and!; cbn; lia|]. split; [done|].
  unfold ws_out, ws_staged, committed, pending. cbn. rewrite Z.sub_diag. done.
Qed.

(** The start of a connection *)
Lemma r_setup_ok (l : list event) :
  rs_ok (r_setup l) /\ rs_unread (r_setup l) = net_data l /\ rs_since (r_setup l) = net_data l.
Proof. split; [split; cbn; unfold THE_BUF_SIZE; lia|]. done. Qed.

Lemma w_setup_ok (l : list wevent) : ws_ok (w_setup l) /\ ws_out (w_setup l) = [] /\ ws_staged (w_setup l) = [].
Proof. split; [split_and!; cbn; unfold THE_BUF_SIZE; lia|]. done. Qed.

(** ** What does not go well *)

(** [tcp_rskip] subtracts the end of the data from the place that is read, not
    the other way round: it skips past the end, and the next read takes cells
    that were never written. *)
Lemma rskip_past_end :
  let s := RSock (Buf 3 0 5 THE_BUF_SIZE (lit "abcde")) [Data "f" []] in
  exists s', tcp_rskip 10 s = Some (10, s') /\ tdis_lead (readbuf s') = 13 /\ tdis_eod (readbuf s') = 5 /\
    tcp_gets 1 s' = None.
Proof. eexists. split; [reflexivity|]. repeat split. Qed.

(** After a flush that failed, the next one sends again what had gone out. *)
Lemma flush_sends_again :
  let s := WSock (Buf 6 6 0 THE_BUF_SIZE (lit "abcdef")) [] [Takes 2; WBroken] in
  exists s', DIS_tcp_wflush s = Some (-1, s') /\
    exists s2, DIS_tcp_wflush s' = Some (0, s2) /\ wire s2 = lit "abcabcdef".
Proof. eexists. split; [reflexivity|]. eexists. split; reflexivity. Qed.

End TcpProps.
