(* ===== verification/Batch.v ===== *)
(** * Batch requests on the wire

    Module [Batch]: the functions [encode_DIS_*] and [decode_DIS_*] of
    [src/lib/Libifl] and of [src/server/dis_read.c], and [dis_request_read] as
    the server is built.  An encoder gives its code; a decoder gives its code or
    what it read.  The arrays a decoder writes into have the sizes of
    [src/include/batch_request.h]; writing past one is [None].  Memory is always
    given.  A request that could not be decoded is dropped by the caller, so what
    is in it is not modelled. *)

From Stdlib Require Import ZArith Lia Ascii String.
From S2P Require Import Prelude Dis.
Import Dis.

Module Batch.

(** ** Constants *)

Definition PBS_MAXHOSTNAME : Z := 255.
Definition PBS_MAXUSER : Z := 256.
Definition PBS_MAXSERVERNAME : Z := PBS_MAXHOSTNAME.
Definition PBS_MAXSEQNUM : Z := 7.
Definition PBS_MAXPORTNUM : Z := 5.
Definition PBS_MAXSVRJOBID : Z := PBS_MAXSEQNUM - 1 + PBS_MAXSERVERNAME + PBS_MAXPORTNUM + 2.
Definition PBS_MAXCLTJOBID : Z := PBS_MAXSVRJOBID + PBS_MAXSERVERNAME + PBS_MAXPORTNUM + 2.
Definition PBS_MAXDEST : Z := 256.
Definition PBS_SIGNAMESZ : Z := 16.
Definition PBS_AUTH_KEY_LEN : Z := 129.
Definition PBS_BATCH_PROT_TYPE : Z := 2.
Definition PBS_BATCH_PROT_VER : Z := 1.
Definition PBSE_UNKREQ : Z := 15005.
Definition PBSE_SYSTEM : Z := 15010.
Definition PBSE_PROTOCOL : Z := 15031.
Definition PBSE_DISPROTO : Z := 15056.
Definition MGR_OBJ_RESV : Z := 4.
Definition AUTH_MUNGE : Z := 1.
Definition PBSE_RMSYSTEM : Z := 15205.

(** ** Data *)

(** [struct attropl]; a [struct attrl] has the same fields. *)
Record attropl := Attropl { name : cstring; resource : option cstring; value : cstring; op : Z }.

(** [svrattrl]: the strings and their lengths with the terminating null *)
Record svrattrl := Svrattrl {
  al_name : cstring; al_resc : option cstring; al_value : cstring; al_op : Z;
  al_nameln : Z; al_rescln : Z; al_valln : Z }.

(** The union [rq_ind], by the member that is set *)
Inductive rq_ind :=
  | rq_none
  | rq_queuejob (jid destin : cstring) (attr : list svrattrl)
  | rq_jobcred (type size : Z) (data : option cstring)
  | rq_usercred (user : cstring) (type size : Z) (data : option cstring)
  | rq_user_migrate (tohost : cstring)
  | rq_gssdata (size : Z) (data : option cstring)
  | rq_jobfile (sequence type size : Z) (jobid : cstring) (data : option cstring)
  | rq_commit (jid : cstring)
  | rq_manager (cmd objtype : Z) (objname : cstring) (attr : list svrattrl)
  | rq_message (jid : cstring) (file : Z) (text : option cstring)
  | rq_relnodes (jid : cstring) (node_list : option cstring)
  | rq_py_spawn (jid : cstring) (argv envp : list cstring)
  | rq_shutdown (manner : Z)
  | rq_signal (jid signame : cstring)
  | rq_status (id : option cstring) (attr : list svrattrl)
  | rq_authen_external (auth_type : Z) (authkey : cstring)
  | rq_authen_resvport (port : Z)
  | rq_move (jid destin : cstring)
  | rq_run (jid : cstring) (destin : option cstring) (resch : Z)
  | rq_defrpy (cmd : Z) (id : option cstring) (err : Z) (txt : option cstring)
  | rq_select (selattr rtnattr : list svrattrl)
  | rq_track (jid : cstring) (hopcount : Z) (location : cstring) (state : Z)
  | rq_rescq (rhandle num : Z) (list_ : list (option cstring))
  | rq_register (owner parent child : cstring) (dependtype op cost : Z)
  | rq_momrestart (momhost : cstring) (port : Z)
  | rq_modify (objtype : Z) (objname : cstring) (attr : list svrattrl).

Record batch_request := Request {
  rq_type : Z; rq_user : cstring; rq_body : rq_ind; rq_extend : option cstring }.

(** ** Encoders *)

Section Encode.
Context {S : Type} `{DisW S}.

(** [(rc = a) || (rc = b)]: [rc] after it *)
Definition or_else (a b : M S Z) : M S Z := let* rc := a in if rc =? 0 then b else ret rc.

(** [rc = a != 0], which is [rc = (a != 0)] *)
Definition differs (a : M S Z) : M S Z := let* rc := a in ret (if rc =? 0 then 0 else 1).

Definition encode_DIS_ReqHdr (reqt : Z) (user : cstring) : M S Z :=
  or_else (diswui PBS_BATCH_PROT_TYPE)
    (or_else (diswui PBS_BATCH_PROT_VER)
       (or_else (diswui reqt) (diswst user))).

Definition encode_DIS_ReqExtend (extend : option cstring) : M S Z :=
  match extend with
  | None | Some [] => diswui 0
  | Some e => let* rc := diswui 1 in if rc =? 0 then diswst e else ret rc
  end.

Definition strlen (s : cstring) : Z := Z.of_nat (length s).

(** The loop of [encode_DIS_attropl], [encode_DIS_attrl] and
    [encode_DIS_svrattrl] over strings and the number written last *)
Fixpoint encode_attrs (l : list (cstring * option cstring * cstring * Z)) (rc : Z) : M S Z :=
  match l with
  | [] => ret rc
  | (name, resource, value, op) :: l =>
      let name_len := uint32 (int32 (strlen name) + int32 (strlen value) + 2) in
      let name_len :=
        match resource with Some r => uint32 (name_len + (strlen r + 1)) | None => name_len end in
      let* rc :=
        or_else (diswui name_len)
          (or_else (diswst name)
             (or_else
                match resource with
                | Some r => or_else (diswui 1) (diswst r)
                | None => diswui 0
                end
                (or_else (diswst value) (diswui op)))) in
      if rc =? 0 then encode_attrs l rc else ret rc
  end.

Definition encode_list (l : list (cstring * option cstring * cstring * Z)) : M S Z :=
  let* rc := diswui (Z.of_nat (length l)) in
  if rc =? 0 then encode_attrs l rc else ret rc.

Definition encode_DIS_attropl (l : list attropl) : M S Z :=
  encode_list (map (fun a => (name a, resource a, value a, uint32 (op a))) l).

(** [SET], the first of [enum batch_op], in place of the operation *)
Definition encode_DIS_attrl (l : list attropl) : M S Z :=
  encode_list (map (fun a => (name a, resource a, value a, 0)) l).

(** [al_rescln] tells whether there is a resource. *)
Definition encode_DIS_svrattrl (l : list svrattrl) : M S Z :=
  encode_list (map (fun a => (al_name a,
    (if al_rescln a =? 0 then None else Some (default [] (al_resc a))), al_value a, uint32 (al_op a))) l).

Definition encode_DIS_QueueJob (jobid destin : option cstring) (aoplp : list attropl) : M S Z :=
  let* rc := or_else (differs (diswst (default [] jobid))) (differs (diswst (default [] destin))) in
  if rc =? 0 then encode_DIS_attropl aoplp else ret rc.

Definition encode_DIS_SubmitResv (resv_id : option cstring) (aoplp : list attropl) : M S Z :=
  let* rc := or_else (differs (diswst (default [] resv_id))) (differs (diswst [])) in
  if rc =? 0 then encode_DIS_attropl aoplp else ret rc.

Definition encode_DIS_ModifyResv (resv_id : option cstring) (aoplp : list attropl) : M S Z :=
  let* rc := or_else (diswui MGR_OBJ_RESV) (diswst (default [] resv_id)) in
  if rc =? 0 then encode_DIS_attropl aoplp else ret rc.

Definition encode_DIS_Manage (command objtype : Z) (objname : cstring) (aoplp : list attropl) : M S Z :=
  let* rc :=
    or_else (differs (diswui command)) (or_else (differs (diswui objtype)) (differs (diswst objname))) in
  if rc =? 0 then encode_DIS_attropl aoplp else ret rc.

Definition encode_DIS_JobCred (type : Z) (cred : cstring) : M S Z :=
  let* rc := diswui type in if rc =? 0 then diswcs cred else ret rc.

Definition encode_DIS_UserCred (user : cstring) (type : Z) (cred : cstring) : M S Z :=
  let* rc := diswst user in
  if rc =? 0 then let* rc := diswui type in if rc =? 0 then diswcs cred else ret rc else ret rc.

Definition encode_DIS_UserMigrate (tohost : cstring) : M S Z := diswst tohost.

Definition encode_DIS_JobFile (seq : Z) (buf : cstring) (jobid : option cstring) (which : Z) : M S Z :=
  or_else (differs (diswui seq))
    (or_else (differs (diswui which))
       (or_else (differs (diswui (strlen buf)))
          (or_else (differs (diswst (default [] jobid))) (differs (diswcs buf))))).

Definition encode_DIS_JobId (jobid : cstring) : M S Z := diswst jobid.

Definition encode_DIS_MessageJob (jobid : cstring) (fileopt : Z) (msg : cstring) : M S Z :=
  or_else (differs (diswst jobid)) (or_else (differs (diswui fileopt)) (differs (diswst msg))).

Definition encode_DIS_RelnodesJob (jobid node_list : cstring) : M S Z :=
  or_else (differs (diswst jobid)) (differs (diswst node_list)).

(** Strings and an empty one *)
Fixpoint encode_carray (l : list cstring) : M S Z :=
  match l with [] => diswcs [] | cp :: l => or_else (diswcs cp) (encode_carray l) end.

Definition encode_DIS_PySpawn (jobid : cstring) (argv envp : option (list cstring)) : M S Z :=
  or_else (diswst jobid)
    (or_else (encode_carray (default [] argv)) (encode_carray (default [] envp))).

Fixpoint encode_strings (rlist : list cstring) (rc : Z) : M S Z :=
  match rlist with
  | [] => ret rc
  | r :: rlist => let* rc := diswst r in if rc =? 0 then encode_strings rlist rc else ret rc
  end.

Definition encode_DIS_Resc (rlist : list cstring) (rh : Z) : M S Z :=
  or_else (diswsi rh)
    (let* rc := diswui (Z.of_nat (length rlist)) in
     if rc =? 0 then encode_strings rlist rc else ret rc).

Definition encode_DIS_ShutDown (manner : Z) : M S Z := diswui manner.

Definition encode_DIS_SignalJob (jobid signal : cstring) : M S Z :=
  or_else (differs (diswst jobid)) (differs (diswst signal)).

Definition encode_DIS_Status (objid : cstring) (pattrl : list attropl) : M S Z :=
  or_else (differs (diswst objid)) (differs (encode_DIS_attrl pattrl)).

Definition encode_DIS_MoveJob (jobid destin : cstring) : M S Z :=
  or_else (differs (diswst jobid)) (differs (diswst destin)).

Definition encode_DIS_Run (id where_ : cstring) (arg : Z) : M S Z :=
  or_else (differs (diswst id)) (or_else (differs (diswst where_)) (differs (diswul arg))).

Definition encode_DIS_TrackJob (jid : cstring) (hopcount : Z) (location : cstring) (state : Z) : M S Z :=
  or_else (differs (diswst jid))
    (or_else (differs (diswui hopcount))
       (or_else (differs (diswst location)) (differs (diswuc state)))).

Definition encode_DIS_Register (owner parent child : cstring) (dependtype op cost : Z) : M S Z :=
  or_else (differs (diswst owner))
    (or_else (differs (diswst parent))
       (or_else (differs (diswst child))
          (or_else (differs (diswui dependtype))
             (or_else (differs (diswui op)) (differs (diswsl cost)))))).

End Encode.

(** ** Decoders *)

Section Decode.
Context {S : Type} `{DisR S}.

Definition R (A : Type) : Type := M S (Z + A).
Definition done {A : Type} (a : A) : R A := ret (inr a).
Definition fail {A : Type} (rc : Z) : R A := ret (inl rc).
Definition rbind {A B : Type} (m : R A) (f : A -> R B) : R B :=
  let* x := m in match x with inl rc => ret (inl rc) | inr a => f a end.
Notation "'let!' x ':=' m 'in' k" := (rbind m (fun x => k))
  (at level 10, x pattern, m at level 200, k at level 200).

(** [x = f(sock, &rc); if (rc) return rc;] *)
Definition get {A : Type} (m : M S (A * Z)) : R A :=
  let* (v, rc) := m in if rc =? 0 then done v else fail rc.

(** [rc = disrfst(sock, achars, array); if (rc) return rc;] *)
Definition get_fst (achars size : Z) : R cstring :=
  let* (rc, v) := disrfst achars size in if rc =? 0 then done v else fail rc.

(** An [int] that is read as an unsigned number *)
Definition get_int : R Z := let! v := get disrui in done (int32 v).

Definition get_cs : R (option cstring * Z) :=
  let* (v, n, rc) := disrcs in if rc =? 0 then done (v, n) else fail rc.

(** A string of a [svrattrl]: the place for it is at [pos] of the [total]
    characters that follow the structure; [data_len] is what is thought to be
    left.  The result is the string, its length with the null and what is
    thought to be left after it. *)
Definition get_part (total pos data_len : Z) : R (cstring * Z * Z) :=
  let* (rc, ls, s) := disrfcs data_len (total - pos) in
  if rc =? 0 then
    if pos + ls >=? total then crash
    else done (s, ls + 1, uint32 (data_len - (ls + 1)))
  else fail rc.

Definition decode_svrattr : R svrattrl :=
  let! total := get disrui in
  let! (nm, nameln, data_len) := get_part total 0 total in
  let! hasresc := get disrui in
  let! (resc, rescln, data_len) :=
    (if hasresc =? 0 then done (None, 0, data_len)
     else
       let! (r, rescln, data_len) := get_part total nameln data_len in
       done (Some r, rescln, data_len)) in
  let! (v, valln, _) := get_part total (nameln + rescln) data_len in
  let! o := get disrui in
  done (Svrattrl nm resc v o (int32 nameln) (int32 rescln) (int32 valln)).

(** The list has what was read before an error. *)
Fixpoint decode_svrattrs (n : nat) : M S (list svrattrl * Z) :=
  match n with
  | O => ret ([], DIS_SUCCESS)
  | Datatypes.S n =>
      let* x := decode_svrattr in
      match x with
      | inl rc => ret ([], rc)
      | inr a => let* (l, rc) := decode_svrattrs n in ret (a :: l, rc)
      end
  end.

Definition decode_DIS_svrattrl : M S (list svrattrl * Z) :=
  let* (numattr, rc) := disrui in
  if rc =? 0 then decode_svrattrs (Z.to_nat numattr) else ret ([], rc).

(** [decode_DIS_attropl] and [decode_DIS_attrl] *)
Definition decode_attropl : R attropl :=
  let! _ := get disrui in
  let! nm := get disrst in
  let! hasresc := get_int in
  let! resc := (if hasresc =? 0 then done None else get disrst) in
  let! v := get disrst in
  let! o := get disrui in
  done (Attropl (default [] nm) resc (default [] v) o).

Fixpoint decode_attropls (n : nat) : R (list attropl) :=
  match n with
  | O => done []
  | Datatypes.S n => let! a := decode_attropl in let! l := decode_attropls n in done (a :: l)
  end.

Definition decode_DIS_attropl : R (list attropl) :=
  let! numpat := get disrui in decode_attropls (Z.to_nat numpat).
Definition decode_DIS_attrl : R (list attropl) := decode_DIS_attropl.

(** The type, the version, the request type and the user *)
Definition decode_DIS_ReqHdr : R (Z * Z * Z * cstring) :=
  let! proto_type := get_int in
  if negb (proto_type =? PBS_BATCH_PROT_TYPE) then fail DIS_PROTO
  else
    let! proto_ver := get_int in
    let! type := get_int in
    let! user := get_fst (PBS_MAXUSER + 1) (PBS_MAXUSER + 1) in
    done (proto_type, proto_ver, type, user).

Definition decode_DIS_ReqExtend : R (option cstring) :=
  let! i := get_int in if i =? 0 then done None else get disrst.

Definition get_jobid : R cstring := get_fst (PBS_MAXSVRJOBID + 1) (PBS_MAXSVRJOBID + 1).

Definition decode_DIS_JobId : R rq_ind := let! jid := get_jobid in done (rq_commit jid).

Definition decode_DIS_QueueJob : R rq_ind :=
  let! jid := get_jobid in
  let! destin := get_fst (PBS_MAXSVRJOBID + 1) (PBS_MAXDEST + 1) in
  let! attr := get decode_DIS_svrattrl in
  done (rq_queuejob jid destin attr).

Definition decode_DIS_JobCred : R rq_ind :=
  let! type := get_int in
  let! (data, size) := get_cs in
  done (rq_jobcred type size data).

Definition decode_DIS_UserCred : R rq_ind :=
  let! user := get_fst (PBS_MAXUSER + 1) (PBS_MAXUSER + 1) in
  let! type := get_int in
  let! (data, size) := get_cs in
  done (rq_usercred user type size data).

Definition decode_DIS_UserMigrate : R rq_ind :=
  let! h := get_fst (PBS_MAXHOSTNAME + 1) (PBS_MAXHOSTNAME + 1) in done (rq_user_migrate h).

Definition decode_DIS_JobFile : R rq_ind :=
  let! sequence := get_int in
  let! type := get_int in
  let! size := get disrui in
  let! jobid := get_jobid in
  let! (data, amt) := get_cs in
  if negb (amt =? size) then fail DIS_EOD
  else done (rq_jobfile sequence type size jobid data).

Definition decode_DIS_Manage : R rq_ind :=
  let! cmd := get_int in
  let! objtype := get_int in
  let! objname := get_jobid in
  let! attr := get decode_DIS_svrattrl in
  done (rq_manager cmd objtype objname attr).

(** Its code is not looked at: what is read before an error is kept, in a
    structure of zeros. *)
Definition decode_DIS_ModifyResv : M S (rq_ind * Z) :=
  let* (objtype, rc) := disrui in
  if negb (rc =? 0) then ret (rq_modify (int32 objtype) [] [], rc)
  else
    let* (rc, objname) := disrfst (PBS_MAXSVRJOBID + 1) (PBS_MAXSVRJOBID + 1) in
    if negb (rc =? 0) then ret (rq_modify (int32 objtype) objname [], rc)
    else
      let* (attr, rc) := decode_DIS_svrattrl in
      ret (rq_modify (int32 objtype) objname attr, rc).

Definition decode_DIS_MessageJob : R rq_ind :=
  let! jid := get_jobid in
  let! file := get_int in
  let! text := get disrst in
  done (rq_message jid file text).

Definition decode_DIS_RelnodesJob : R rq_ind :=
  let! jid := get_jobid in
  let! node_list := get disrst in
  done (rq_relnodes jid node_list).

(** [read_carray]: strings up to an empty one *)
Fixpoint read_carray (fuel : nat) : R (list cstring) :=
  match fuel with
  | O => crash
  | Datatypes.S fuel =>
      let* (cp, rc) := disrst in
      match cp with
      | None => fail PBSE_SYSTEM
      | Some s =>
          if negb (rc =? DIS_SUCCESS) then fail PBSE_SYSTEM
          else match s with [] => done [] | _ => let! l := read_carray fuel in done (s :: l) end
      end
  end.

Definition decode_DIS_PySpawn (fuel : nat) : R rq_ind :=
  let! jid := get_jobid in
  let! argv := read_carray fuel in
  let! envp := read_carray fuel in
  done (rq_py_spawn jid argv envp).

Definition decode_DIS_ShutDown : R rq_ind := let! v := get_int in done (rq_shutdown v).

Definition decode_DIS_SignalJob : R rq_ind :=
  let! jid := get_jobid in
  let! signame := get_fst (PBS_SIGNAMESZ + 1) (PBS_SIGNAMESZ + 1) in
  done (rq_signal jid signame).

Definition decode_DIS_Status : R rq_ind :=
  let! (id, _) := get_cs in
  let! attr := get decode_DIS_svrattrl in
  done (rq_status id attr).

(** The limit for the key is a number of the request. *)
Definition decode_DIS_AuthExternal : R rq_ind :=
  let! auth_type := get disruc in
  let! cred_len := get disrsi in
  if auth_type =? AUTH_MUNGE then
    let* (rc, key) := disrfst (uint64 cred_len) PBS_AUTH_KEY_LEN in
    if rc =? 0 then done (rq_authen_external auth_type key) else fail 1
  else fail DIS_EOF.

Definition decode_DIS_AuthenResvPort : R rq_ind :=
  let! port := get disrui in done (rq_authen_resvport port).

Definition decode_DIS_MoveJob : R rq_ind :=
  let! jid := get_jobid in
  let! destin := get_fst (PBS_MAXDEST + 1) (Z.max PBS_MAXSVRJOBID PBS_MAXDEST + 1) in
  done (rq_move jid destin).

Definition decode_DIS_Run : R rq_ind :=
  let! jid := get_jobid in
  let! destin := get disrst in
  let! resch := get disrul in
  done (rq_run jid destin resch).

Definition decode_DIS_DefSchReply : R rq_ind :=
  let! cmd := get disrsi in
  let! id := get disrst in
  let! err := get disrsi in
  let! i := get disrsi in
  if i =? 0 then done (rq_defrpy cmd id err None)
  else let! txt := get disrst in done (rq_defrpy cmd id err txt).

(** The code of the first list is lost. *)
Definition decode_DIS_Select : R rq_ind :=
  let* (selattr, _) := decode_DIS_svrattrl in
  let! rtnattr := get decode_DIS_svrattrl in
  done (rq_select selattr rtnattr).

Definition decode_DIS_TrackJob : R rq_ind :=
  let! jid := get_jobid in
  let! hopcount := get_int in
  let! location := get_fst (PBS_MAXDEST + 1) (PBS_MAXDEST + 1) in
  let! state := get disruc in
  done (rq_track jid hopcount location state).

Fixpoint read_strings (n : nat) : R (list (option cstring)) :=
  match n with
  | O => done []
  | Datatypes.S n => let! s := get disrst in let! l := read_strings n in done (s :: l)
  end.

Definition decode_DIS_Rescl : R rq_ind :=
  let! rhandle := get disrsi in
  let! ct := get_int in
  if ct <? 0 then fail PBSE_RMSYSTEM
  else let! l := read_strings (Z.to_nat ct) in done (rq_rescq rhandle ct l).

Definition decode_DIS_Register : R rq_ind :=
  let! owner := get_fst PBS_MAXUSER (PBS_MAXUSER + 1) in
  let! parent := get_fst PBS_MAXSVRJOBID (PBS_MAXSVRJOBID + 1) in
  let! child := get_fst PBS_MAXCLTJOBID (PBS_MAXCLTJOBID + 1) in
  let! dependtype := get_int in
  let! o := get_int in
  let! cost := get disrsl in
  done (rq_register owner parent child dependtype o cost).

Definition decode_DIS_MomRestart : R rq_ind :=
  let! momhost := get_fst PBS_MAXHOSTNAME (PBS_MAXHOSTNAME + 1) in
  let! port := get disrui in
  done (rq_momrestart momhost port).

Definition decode_DIS_GSS_Context : R rq_ind :=
  let! (data, size) := get_cs in done (rq_gssdata size data).

Definition one_of (x : Z) (l : list Z) : bool := existsb (Z.eqb x) l.

(** The body of a request, by the type *)
Definition decode_body (fuel : nat) (type : Z) : R rq_ind :=
  if type =? 0 then done rq_none
  else if one_of type [1; 70] then decode_DIS_QueueJob
  else if type =? 62 then decode_DIS_JobCred
  else if type =? 73 then decode_DIS_UserCred
  else if type =? 74 then decode_DIS_UserMigrate
  else if type =? 65 then decode_DIS_GSS_Context
  else if one_of type [3; 57] then decode_DIS_JobFile
  else if one_of type [4; 5; 14] then decode_DIS_JobId
  else if one_of type [6; 72; 92; 7; 11] then decode_DIS_Manage
  else if type =? 10 then decode_DIS_MessageJob
  else if one_of type [17; 27] then decode_DIS_ShutDown
  else if type =? 18 then decode_DIS_SignalJob
  else if type =? 19 then decode_DIS_Status
  else if type =? 84 then decode_DIS_PySpawn fuel
  else if type =? 88 then decode_DIS_AuthExternal
  else if type =? 90 then decode_DIS_RelnodesJob
  else if type =? 8 then decode_DIS_JobId
  else if one_of type [9; 13] then decode_DIS_Manage
  else if one_of type [12; 50] then decode_DIS_MoveJob
  else if one_of type [15; 23; 48; 75] then decode_DIS_Run
  else if type =? 80 then decode_DIS_DefSchReply
  else if one_of type [16; 51] then decode_DIS_Select
  else if one_of type [58; 71; 20; 21; 81; 82; 83] then decode_DIS_Status
  else if type =? 22 then decode_DIS_TrackJob
  else if one_of type [24; 25; 26] then decode_DIS_Rescl
  else if type =? 52 then decode_DIS_Register
  else if type =? 49 then decode_DIS_AuthenResvPort
  else if type =? 87 then decode_DIS_MomRestart
  else if type =? 91 then let* (b, _) := decode_DIS_ModifyResv in done b
  else fail PBSE_UNKREQ.

(** The header, the body and the extension *)
Definition decode_request (fuel : nat) : R batch_request :=
  let* hdr := decode_DIS_ReqHdr in
  match hdr with
  | inl rc => fail (if rc =? DIS_EOF then -1 else PBSE_DISPROTO)
  | inr (_, proto_ver, type, user) =>
      if proto_ver >? PBS_BATCH_PROT_VER then fail PBSE_DISPROTO
      else if type =? 59 then fail (-1)
      else
        let* body := decode_body fuel type in
        match body with
        | inl rc => fail (if rc =? PBSE_UNKREQ then rc else PBSE_DISPROTO)
        | inr b =>
            let* ext := decode_DIS_ReqExtend in
            match ext with
            | inl _ => fail PBSE_DISPROTO
            | inr e => done (Request type user b e)
            end
        end
  end.

(** [dis_request_read]: 0 and the request, -1 at the end of the connection, or
    an error.  Unless the request comes over [rpp] what was read ahead is dropped
    first. *)
Definition dis_request_read `{DisSetup S} (fuel : nat) (isrpp : bool) : R batch_request :=
  let* _ := if isrpp then ret tt else dis_setup in decode_request fuel.

End Decode.

Notation "'let!' x ':=' m 'in' k" := (rbind m (fun x => k))
  (at level 10, x pattern, m at level 200, k at level 200) : mon_scope.

End Batch.
