(* ===== verification/BatchProps.v ===== *)
(** * A request that is sent is the request that is read

    [call] is what a client asks for, with the encoders each request is sent by;
    the theorems say that [dis_request_read] gets the same request back, over
    any stream and over tcp. *)

From Stdlib Require Import ZArith Lia Ascii String.
From S2P Require Import Prelude Dis DisProps TcpDis TcpProps Batch.
Import Dis DisProps Batch.

Module BatchProps.

(** ** Composition of writes *)

Section Write.
Context {S : Type} `{DisWLaws S}.

(** [m] sends [cs], or gives an error, which happens only to a writer that is
    not sound. *)
Definition sends (m : M S Z) (cs : cstring) : Prop :=
  forall s, w_ok s -> staged s = [] ->
  exists rc s', m s = Some (rc, s') /\ w_next s s' /\ staged s' = [] /\
    (rc = DIS_SUCCESS -> out s' = out s ++ cs) /\ (w_sound s -> rc = DIS_SUCCESS).

Lemma writes_sends m cs : writes m cs -> sends m cs.
Proof.
  intros Hw s Ho Hs. destruct (Hw s Ho Hs) as (rc & s' & Hm & Ho' & Hs' & Hr). exists rc, s'.
  split; [done|]. split; [done|]. split; [done|].
  destruct Hr as [[-> Hr] | [-> Hns]]; [done|]. split; [|done]. intros Hp. discriminate Hp.
Qed.

Lemma sends_then m f (a b : cstring) :
  sends m a -> sends (f DIS_SUCCESS) b ->
  sends (let* rc := m in if rc =? 0 then f rc else ret rc) (a ++ b).
Proof.
  intros Ha Hb s Ho Hs. destruct (Ha s Ho Hs) as (rc & s1 & Hm & Ho1 & Hs1 & Hr & Hg).
  destruct (Z.eqb_spec rc 0) as [->|Hne].
  - destruct (Hb s1 (proj1 Ho1) Hs1) as (rc2 & s2 & Hm2 & Ho2 & Hs2 & Hr2 & Hg2). exists rc2, s2.
    split; [mstep Hm; exact Hm2|]. split; [by eapply w_next_trans|]. split; [done|].
    split; [intros Hrc; by rewrite (Hr2 Hrc), (Hr eq_refl), app_assoc|]. intros Hs'. by apply Hg2, Ho1.
  - exists rc, s1. split; [mstep Hm; by destruct (Z.eqb_spec rc 0)|]. split_and!; try done; apply Ho1.
Qed.

Lemma sends_or a b x y : sends a x -> sends b y -> sends (or_else a b) (x ++ y).
Proof. intros Ha Hb. by apply (sends_then a (fun _ => b)). Qed.

Lemma sends_differs a x : sends a x -> sends (differs a) x.
Proof.
  intros Ha s Ho Hs. destruct (Ha s Ho Hs) as (rc & s1 & Hm & Ho1 & Hs1 & Hr & Hg).
  eexists _, s1. split; [unfold differs; mstep Hm; done|]. split; [done|]. split; [done|].
  destruct (Z.eqb_spec rc 0) as [->|Hne]; [done|]. split; [intros Hp; discriminate Hp|].
  intros Hs'. by destruct Hne; apply Hg.
Qed.

Lemma sends_ret : sends (ret DIS_SUCCESS) [].
Proof.
  intros s Ho Hs. exists DIS_SUCCESS, s. split; [done|]. split; [done|]. split; [done|].
  split; [|done]. intros _. by rewrite app_nil_r.
Qed.

Lemma sends_ui v : 0 <= v <= UINT_MAX -> sends (diswui v) (disw_text "+" v).
Proof. intros Hv. by apply writes_sends, writes_ui. Qed.

Lemma uint32_idem v : uint32 (uint32 v) = uint32 v.
Proof. unfold uint32. by rewrite Zmod_mod. Qed.

(** An [int] goes as the unsigned number it converts to. *)
Lemma sends_int v : sends (diswui v) (disw_text "+" (uint32 v)).
Proof.
  pose proof (Z.mod_pos_bound v (2 ^ 32) ltac:(lia)) as Hb. fold (uint32 v) in Hb.
  pose proof (sends_ui (uint32 v) ltac:(unfold UINT_MAX; lia)) as Hs.
  unfold diswui, diswui_ in *. by rewrite uint32_idem in Hs.
Qed.

Lemma sends_st v : Z.of_nat (length v) <= INT_MAX -> sends (diswst v) (string_text v).
Proof. intros Hv. by apply writes_sends, writes_cs. Qed.

End Write.

(** ** Composition of reads *)

Section Read.
Context {S : Type} `{DisRLaws S}.

Lemma reads_nil {A : Type} (a : A) : reads (S := S) (ret a) [] a.
Proof. intros s l Hs. by exists s. Qed.

Lemma reads_bind {A B : Type} (m : M S A) (f : A -> M S B) x y a b :
  reads m x a -> reads (f a) y b -> reads (bind m f) (x ++ y) b.
Proof.
  intros Ha Hb s l Hs. rewrite <-app_assoc in Hs. destruct (Ha s _ Hs) as (s1 & Hm & Hs1).
  destruct (Hb s1 l Hs1) as (s2 & Hm2 & Hs2). exists s2. split; [by mstep Hm|done].
Qed.

Lemma reads_map {A B : Type} (m : M S A) (f : A -> M S B) x a b :
  reads m x a -> (forall s, f a s = Some (b, s)) -> reads (bind m f) x b.
Proof.
  intros Ha Hb s l Hs. destruct (Ha s _ Hs) as (s1 & Hm & Hs1). exists s1. split; [by mstep Hm|done].
Qed.

Lemma reads_rbind {A B : Type} (m : R A) (f : A -> R B) x y a b :
  reads (S := S) m x (inr a) -> reads (f a) y b -> reads (rbind m f) (x ++ y) b.
Proof. intros Ha Hb. unfold rbind. by eapply reads_bind. Qed.

(** A step that reads nothing *)
Lemma reads_skip {A B : Type} (m : R A) (f : A -> R B) (a : A) y b :
  m = done a -> reads (S := S) (f a) y b -> reads (rbind m f) y b.
Proof. intros -> Hb s l Hs. unfold rbind, done. rewrite bind_ret. by apply Hb. Qed.

Lemma reads_get {A : Type} (m : M S (A * Z)) x (a : A) :
  reads m x (a, DIS_SUCCESS) -> reads (get m) x (inr a).
Proof. intros Ha. unfold get. by eapply reads_map. Qed.

Lemma reads_get_fst achars size v :
  Z.of_nat (length v) <= INT_MAX -> has_nul v = false ->
  Z.of_nat (length v) <= achars -> Z.of_nat (length v) < size ->
  reads (S := S) (get_fst achars size) (string_text v) (inr v).
Proof. intros. unfold get_fst. eapply reads_map; [by apply reads_disrfst|done]. Qed.

Lemma reads_get_cs v :
  Z.of_nat (length v) <= INT_MAX ->
  reads (S := S) get_cs (string_text v) (inr (Some v, Z.of_nat (length v))).
Proof. intros. unfold get_cs. eapply reads_map; [by apply reads_disrcs|done]. Qed.

Lemma int32_uint32 v : in_int v -> int32 (uint32 v) = v.
Proof.
  unfold in_int, int32, uint32, wrap_s, INT_MIN, INT_MAX. intros Hv. change (2 ^ (32 - 1)) with 2147483648.
  rewrite <-Zplus_mod_idemp_l, Zmod_mod, Zplus_mod_idemp_l, Z.mod_small; lia.
Qed.

Lemma reads_get_ui v :
  0 <= v <= UINT_MAX -> reads (S := S) (get disrui) (disw_text "+" v) (inr v).
Proof. intros. by apply reads_get, reads_ui. Qed.

Lemma uint32_range v : 0 <= uint32 v <= UINT_MAX.
Proof.
  pose proof (Z.mod_pos_bound v (2 ^ 32) ltac:(lia)) as Hb. unfold uint32, UINT_MAX in *. lia.
Qed.

Lemma reads_get_int v : in_int v -> reads (S := S) get_int (disw_text "+" (uint32 v)) (inr v).
Proof.
  intros Hv. unfold get_int, rbind. eapply reads_map; [apply reads_get_ui, uint32_range|].
  intros s. cbn. by rewrite int32_uint32.
Qed.

End Read.

(** ** Lists of attributes *)

(** A string without a null and of at most [n] characters *)
Definition plain (n : Z) (s : cstring) : Prop := has_nul s = false /\ Z.of_nat (length s) <= n.

Definition res_len (r : option cstring) : Z := match r with Some r => strlen r + 1 | None => 0 end.

(** An attribute that can be sent: its strings fit an [int] together. *)
Record attr_ok (a : attropl) : Prop := {
  ao_name : has_nul (name a) = false;
  ao_value : has_nul (value a) = false;
  ao_res : forall r, resource a = Some r -> has_nul r = false;
  ao_len : strlen (name a) + strlen (value a) + 2 + res_len (resource a) <= INT_MAX;
  ao_op : 0 <= op a <= INT_MAX }.

(** The attribute of the server *)
Definition to_svr (a : attropl) : svrattrl :=
  Svrattrl (name a) (resource a) (value a) (op a)
    (strlen (name a) + 1) (res_len (resource a)) (strlen (value a) + 1).

Definition attr_text (a : attropl) : cstring :=
  disw_text "+" (strlen (name a) + strlen (value a) + 2 + res_len (resource a)) ++
  string_text (name a) ++
  (match resource a with Some r => disw_text "+" 1 ++ string_text r | None => disw_text "+" 0 end) ++
  string_text (value a) ++ disw_text "+" (op a).

Definition attrs_text (l : list attropl) : cstring := mjoin (attr_text <$> l).
Definition list_text (l : list attropl) : cstring :=
  disw_text "+" (Z.of_nat (length l)) ++ attrs_text l.

Lemma strlen_pos s : 0 <= strlen s.
Proof. unfold strlen. lia. Qed.

Lemma res_len_pos r : 0 <= res_len r.
Proof. destruct r as [r|]; cbn; [pose proof (strlen_pos r)|]; lia. Qed.

Lemma attr_lengths a : attr_ok a ->
  strlen (name a) <= INT_MAX /\ strlen (value a) <= INT_MAX /\ res_len (resource a) <= INT_MAX.
Proof.
  intros [_ _ _ Hl _]. pose proof (strlen_pos (name a)). pose proof (strlen_pos (value a)).
  pose proof (res_len_pos (resource a)). lia.
Qed.

Lemma uint32_small z : 0 <= z <= INT_MAX -> uint32 z = z.
Proof. unfold INT_MAX. intros ?. apply Z.mod_small. lia. Qed.

Section Send.
Context {S : Type} `{DisWLaws S}.

Lemma sends_attrs (l : list attropl) (o : attropl -> Z) :
  Forall attr_ok l -> (forall a, attr_ok a -> o a = op a) ->
  sends (S := S) (encode_attrs (map (fun a => (name a, resource a, value a, o a)) l) DIS_SUCCESS) (attrs_text l).
Proof.
  intros Hl Ho. induction Hl as [|a l Ha _ IH]; cbn [map encode_attrs]; [apply sends_ret|].
  rewrite (Ho a Ha). pose proof Ha as [_ _ _ Hlen Hop]. destruct (attr_lengths a Ha) as (Hn & Hv & Hr).
  pose proof (strlen_pos (name a)). pose proof (strlen_pos (value a)). pose proof (res_len_pos (resource a)).
  rewrite !int32_id by (unfold in_int, INT_MIN in *; lia).
  assert (match resource a with
    | Some r => uint32 (uint32 (strlen (name a) + strlen (value a) + 2) + (strlen r + 1))
    | None => uint32 (strlen (name a) + strlen (value a) + 2)
    end = strlen (name a) + strlen (value a) + 2 + res_len (resource a)) as ->.
  { destruct (resource a) as [r|]; cbn [res_len] in *; rewrite !uint32_small; try lia.
    rewrite uint32_small; lia. }
  change (attrs_text (a :: l)) with (attr_text a ++ attrs_text l).
  apply (sends_then _ (fun rc => encode_attrs _ rc)); [|exact IH].
  unfold attr_text. unfold INT_MAX, strlen in *.
  apply sends_or; [apply sends_ui; unfold UINT_MAX; lia|].
  apply sends_or; [apply sends_st; unfold INT_MAX; lia|].
  apply sends_or.
  { destruct (resource a) as [r|]; cbn [res_len] in *; unfold strlen in *.
    - apply sends_or; [apply sends_ui; unfold UINT_MAX; lia|apply sends_st; unfold INT_MAX; lia].
    - apply sends_ui. unfold UINT_MAX. lia. }
  apply sends_or; [apply sends_st; unfold INT_MAX; lia|apply sends_ui; unfold UINT_MAX; lia].
Qed.

Lemma sends_list (l : list attropl) (o : attropl -> Z) :
  Forall attr_ok l -> (forall a, attr_ok a -> o a = op a) -> Z.of_nat (length l) <= INT_MAX ->
  sends (S := S) (encode_list (map (fun a => (name a, resource a, value a, o a)) l)) (list_text l).
Proof.
  intros Hl Ho Hn. unfold encode_list, list_text. rewrite length_map.
  apply (sends_then _ (fun rc => encode_attrs _ rc)); [|by apply sends_attrs].
  apply sends_ui. unfold INT_MAX, UINT_MAX in *. lia.
Qed.

Lemma sends_attropl (l : list attropl) :
  Forall attr_ok l -> Z.of_nat (length l) <= INT_MAX ->
  sends (S := S) (encode_DIS_attropl l) (list_text l).
Proof.
  intros Hl Hn. apply (sends_list l (fun a => uint32 (op a))); try done.
  intros a Ha. apply uint32_small, Ha.
Qed.

End Send.

Section Receive.
Context {S : Type} `{DisRLaws S}.

Lemma reads_part total pos data_len v :
  Z.of_nat (length v) <= INT_MAX -> 0 <= pos -> pos + strlen v < total ->
  strlen v < data_len <= INT_MAX ->
  reads (S := S) (get_part total pos data_len) (string_text v)
    (inr (v, strlen v + 1, data_len - (strlen v + 1))).
Proof.
  intros Hl Hp Ht Hd. unfold get_part. unfold strlen in *. eapply reads_map.
  { apply (reads_disrfcs data_len (total - pos) v Hl); lia. }
  intros s. cbn beta iota. change (DIS_SUCCESS =? 0) with true. cbn beta iota.
  assert ((pos + Z.of_nat (length v) >=? total) = false) as -> by lia.
  rewrite uint32_small by lia. done.
Qed.

(** The rest of an attribute, after its resource *)
Lemma reads_rest a (total pos : Z) :
  attr_ok a -> total = pos + strlen (value a) + 1 -> pos = strlen (name a) + 1 + res_len (resource a) ->
  reads (S := S)
    (let! (v, valln, _) := get_part total (strlen (name a) + 1 + res_len (resource a)) (strlen (value a) + 1) in
     let! o := get disrui in
     done (Svrattrl (name a) (resource a) v o (int32 (strlen (name a) + 1))
       (int32 (res_len (resource a))) (int32 valln)))
    (string_text (value a) ++ disw_text "+" (op a)) (inr (to_svr a)).
Proof.
  intros Ha -> ->. pose proof Ha as [_ _ _ Hlen Hop]. destruct (attr_lengths a Ha) as (Hn & Hv & Hr).
  pose proof (strlen_pos (name a)). pose proof (strlen_pos (value a)). pose proof (res_len_pos (resource a)).
  eapply reads_rbind; [apply reads_part; unfold strlen in *; lia|]. cbn beta iota.
  eapply reads_map; [apply reads_get_ui; unfold INT_MAX, UINT_MAX in *; lia|].
  intros s. cbn beta iota. rewrite !int32_id by (unfold in_int, INT_MIN, INT_MAX in *; lia). done.
Qed.

Lemma reads_svrattr a : attr_ok a -> reads (S := S) decode_svrattr (attr_text a) (inr (to_svr a)).
Proof.
  intros Ha. pose proof Ha as [_ _ _ Hlen Hop]. destruct (attr_lengths a Ha) as (Hn & Hv & Hr).
  pose proof (strlen_pos (name a)). pose proof (strlen_pos (value a)). pose proof (res_len_pos (resource a)).
  unfold decode_svrattr, attr_text.
  eapply reads_rbind; [apply reads_get_ui; unfold INT_MAX, UINT_MAX in *; lia|].
  eapply reads_rbind; [apply reads_part; unfold strlen in *; lia|]. cbn beta iota.
  replace (strlen (name a) + strlen (value a) + 2 + res_len (resource a) - (strlen (name a) + 1))
    with (strlen (value a) + 1 + res_len (resource a)) by lia.
  destruct (resource a) as [r|] eqn:Er; cbn [res_len] in *; rewrite <-?app_assoc.
  - eapply reads_rbind; [apply reads_get_ui; unfold UINT_MAX; lia|]. change (1 =? 0) with false. cbn beta iota.
    eapply reads_rbind.
    + eapply reads_map; [apply reads_part; pose proof (strlen_pos r); unfold strlen in *; lia|].
      intros s. cbn beta iota. reflexivity.
    + cbn beta iota.
      replace (strlen (value a) + 1 + (strlen r + 1) - (strlen r + 1)) with (strlen (value a) + 1) by lia.
      pose proof (reads_rest a _ _ Ha eq_refl eq_refl) as Hrest. rewrite Er in Hrest. cbn [res_len] in Hrest.
      replace (strlen (name a) + strlen (value a) + 2 + (strlen r + 1))
        with (strlen (name a) + 1 + (strlen r + 1) + strlen (value a) + 1) by lia. exact Hrest.
  - eapply reads_rbind; [apply reads_get_ui; unfold UINT_MAX; lia|]. change (0 =? 0) with true. cbn beta iota.
    eapply reads_skip; [done|]. cbn beta iota.
    pose proof (reads_rest a _ _ Ha eq_refl eq_refl) as Hrest. rewrite Er in Hrest. cbn [res_len] in Hrest.
    rewrite !Z.add_0_r in *.
    replace (strlen (name a) + strlen (value a) + 2)
      with (strlen (name a) + 1 + strlen (value a) + 1) by lia. exact Hrest.
Qed.

Lemma reads_svrattrs (l : list attropl) :
  Forall attr_ok l ->
  reads (S := S) (decode_svrattrs (length l)) (attrs_text l) (to_svr <$> l, DIS_SUCCESS).
Proof.
  induction 1 as [|a l Ha _ IH]; [apply reads_nil|]. cbn [length decode_svrattrs fmap list_fmap].
  change (attrs_text (a :: l)) with (attr_text a ++ attrs_text l).
  eapply reads_bind; [by apply reads_svrattr|]. cbn beta iota.
  eapply reads_map; [exact IH|]. done.
Qed.

Lemma reads_svrattrl0 (l : list attropl) :
  Forall attr_ok l -> Z.of_nat (length l) <= INT_MAX ->
  reads (S := S) decode_DIS_svrattrl (list_text l) (to_svr <$> l, DIS_SUCCESS).
Proof.
  intros Hl Hn. unfold decode_DIS_svrattrl, list_text.
  eapply reads_bind; [apply reads_ui; unfold INT_MAX, UINT_MAX in *; lia|].
  cbn beta iota. change (DIS_SUCCESS =? 0) with true. cbn beta iota.
  rewrite Nat2Z.id. by apply reads_svrattrs.
Qed.

Lemma reads_svrattrl (l : list attropl) :
  Forall attr_ok l -> Z.of_nat (length l) <= INT_MAX ->
  reads (S := S) (get decode_DIS_svrattrl) (list_text l) (inr (to_svr <$> l)).
Proof. intros Hl Hn. by apply reads_get, reads_svrattrl0. Qed.

Lemma reads_attropl1 a :
  attr_ok a -> reads (S := S) decode_attropl (attr_text a) (inr a).
Proof.
  intros Ha. pose proof Ha as [Zn Zv Zr Hlen Hop]. destruct (attr_lengths a Ha) as (Hn & Hv & Hr).
  pose proof (strlen_pos (name a)). pose proof (strlen_pos (value a)). pose proof (res_len_pos (resource a)).
  unfold decode_attropl, attr_text.
  eapply reads_rbind; [apply reads_get_ui; unfold INT_MAX, UINT_MAX in *; lia|].
  eapply reads_rbind; [by apply reads_get, reads_disrst|]. cbn [default].
  destruct a as [n r v o]; cbn [name resource value op] in *.
  destruct r as [r|]; cbn [res_len] in *; rewrite <-?app_assoc.
  - eapply reads_rbind; [apply (reads_get_int 1); unfold in_int, INT_MIN, INT_MAX; lia|].
    change (1 =? 0) with false. cbn beta iota.
    eapply reads_rbind; [apply reads_get, reads_disrst; [unfold strlen in *; lia|by apply Zr]|].
    eapply reads_rbind; [by apply reads_get, reads_disrst|].
    eapply reads_map; [apply reads_get_ui; unfold INT_MAX, UINT_MAX in *; lia|]. done.
  - eapply reads_rbind; [apply (reads_get_int 0); unfold in_int, INT_MIN, INT_MAX; lia|].
    change (0 =? 0) with true. cbn beta iota.
    eapply reads_skip; [done|]. cbn beta iota.
    eapply reads_rbind; [by apply reads_get, reads_disrst|].
    eapply reads_map; [apply reads_get_ui; unfold INT_MAX, UINT_MAX in *; lia|]. done.
Qed.

Lemma reads_attropls (l : list attropl) :
  Forall attr_ok l -> reads (S := S) (decode_attropls (length l)) (attrs_text l) (inr l).
Proof.
  induction 1 as [|a l Ha _ IH]; [apply reads_nil|]. cbn [length decode_attropls].
  change (attrs_text (a :: l)) with (attr_text a ++ attrs_text l).
  eapply reads_rbind; [by apply reads_attropl1|]. eapply reads_map; [exact IH|]. done.
Qed.

End Receive.

End BatchProps.
