(* ===== verification/Client.v ===== *)
(** * Requests as the clients send them

    Module [Client]: the functions of [src/lib/Libifl] that put a request on a
    tcp connection, up to the point where they wait for the reply, and those of
    [src/server/issue_request.c] for the two requests that servers send each
    other.  [user] is [pbs_current_user].

    Each gives the value it returns, or [pbs_errno] where it returns a string.
    Connections that do not use tcp, locks, threads and the memory for the
    message of an error are left out. *)

From Stdlib Require Import ZArith Lia Ascii String.
From S2P Require Import Prelude Dis TcpDis Batch BatchProps.
Import Dis Tcp Batch.

Module Client.

Definition PBSE_IVALREQ : Z := 15004.
Definition PBSE_NONE : Z := 0.

(** The header, the body and the extension *)
Definition request {S : Type} `{DisW S} (reqt : Z) (user : cstring) (body : M S Z) (extend : option cstring)
    : M S Z :=
  or_else (encode_DIS_ReqHdr reqt user) (or_else body (encode_DIS_ReqExtend extend)).

(** [DIS_tcp_setup] on a descriptor that has its buffers *)
Definition DIS_tcp_setup : M wsock unit := fun s =>
  Some (tt, WSock (DIS_tcp_clear (writebuf s)) (wire s) (told s)).

Section Put.
Variable user : cstring.

(** What the functions below have in common *)
Definition put (reqt : Z) (body : M wsock Z) (extend : option cstring) : M wsock Z :=
  let* _ := DIS_tcp_setup in
  let* rc := request reqt user body extend in
  if negb (rc =? 0) then ret PBSE_PROTOCOL
  else
    let* r := DIS_tcp_wflush in
    ret (if negb (r =? 0) then PBSE_PROTOCOL else PBSE_NONE).

(** A null pointer or an empty string *)
Definition missing (s : option cstring) : bool :=
  match s with None | Some [] => true | _ => false end.

(** ** Jobs *)

Definition PBSD_queuejob (jobid destin : option cstring) (attrib : list attropl)
    (extend : option cstring) : M wsock Z :=
  put 1 (encode_DIS_QueueJob jobid destin attrib) extend.
Definition PBSD_rdytocmt (jobid : cstring) : M wsock Z := put 4 (encode_DIS_JobId jobid) None.
Definition PBSD_commit (jobid : cstring) : M wsock Z := put 5 (encode_DIS_JobId jobid) None.
Definition PBSD_scbuf (reqtype seq : Z) (buf : cstring) (jobid : option cstring) (which : Z) : M wsock Z :=
  put reqtype (encode_DIS_JobFile seq buf (Some (default [] jobid)) which) None.
Definition PBSD_mgr_put (function command objtype : Z) (objname : cstring) (aoplp : list attropl)
    (extend : option cstring) : M wsock Z :=
  put function (encode_DIS_Manage command objtype objname aoplp) extend.
Definition PBSD_msg_put (jobid : cstring) (fileopt : Z) (msg : cstring) (extend : option cstring)
    : M wsock Z :=
  put 10 (encode_DIS_MessageJob jobid fileopt msg) extend.
Definition PBSD_py_spawn_put (jobid : cstring) (argv envp : option (list cstring)) : M wsock Z :=
  put 84 (encode_DIS_PySpawn jobid argv envp) None.
Definition PBSD_relnodes_put (jobid node_list : cstring) (extend : option cstring) : M wsock Z :=
  put 90 (encode_DIS_RelnodesJob jobid node_list) extend.
Definition PBSD_sig_put (jobid signal : cstring) (extend : option cstring) : M wsock Z :=
  put 18 (encode_DIS_SignalJob jobid signal) extend.
Definition PBSD_status_put (function : Z) (id : cstring) (attrib : list attropl)
    (extend : option cstring) : M wsock Z :=
  put function (encode_DIS_Status id attrib) extend.
Definition PBSD_jcred (type : Z) (buf : cstring) : M wsock Z := put 62 (encode_DIS_JobCred type buf) None.
Definition PBSD_ucred (to_user : cstring) (type : Z) (buf : cstring) : M wsock Z :=
  put 73 (encode_DIS_UserCred to_user type buf) None.
Definition PBSD_user_migrate (tohost : cstring) : M wsock Z := put 74 (encode_DIS_UserMigrate tohost) None.
Definition PBSD_submit_resv (resv_id : option cstring) (attrib : list attropl) (extend : option cstring)
    : M wsock Z :=
  put 70 (encode_DIS_SubmitResv resv_id attrib) extend.

(** An error of an encoder is passed over unless [pbs_errno] is an old
    [PBSE_PROTOCOL]. *)
Definition PBSD_modify_resv (pbs_errno : Z) (resv_id : option cstring) (attrib : list attropl)
    (extend : option cstring) : M wsock Z :=
  let* _ := DIS_tcp_setup in
  let* rc := request 91 user (encode_DIS_ModifyResv resv_id attrib) extend in
  if negb (rc =? 0) && (pbs_errno =? PBSE_PROTOCOL) then ret PBSE_PROTOCOL
  else
    let* r := DIS_tcp_wflush in
    ret (if negb (r =? 0) then PBSE_PROTOCOL else PBSE_NONE).

Definition pbs_movejob (jobid destin : option cstring) (extend : option cstring) : M wsock Z :=
  if missing jobid then ret PBSE_IVALREQ
  else put 12 (encode_DIS_MoveJob (default [] jobid) (default [] destin)) extend.

Definition pbs_orderjob (job1 job2 : option cstring) (extend : option cstring) : M wsock Z :=
  if missing job1 || missing job2 then ret PBSE_IVALREQ
  else put 50 (encode_DIS_MoveJob (default [] job1) (default [] job2)) extend.

Definition pbs_runjob (jobid location : option cstring) (extend : option cstring) : M wsock Z :=
  if missing jobid then ret PBSE_IVALREQ
  else put 15 (encode_DIS_Run (default [] jobid) (default [] location) 0) extend.

Definition pbs_asyrunjob (jobid location : option cstring) (extend : option cstring) : M wsock Z :=
  if missing jobid then ret PBSE_IVALREQ
  else put 23 (encode_DIS_Run (default [] jobid) (default [] location) 0) extend.

Definition pbs_stagein (jobid location : option cstring) (extend : option cstring) : M wsock Z :=
  if missing jobid then ret PBSE_IVALREQ
  else put 48 (encode_DIS_Run (default [] jobid) (default [] location) 0) extend.

Definition pbs_confirmresv (rid location : option cstring) (start : Z) (extend : option cstring) : M wsock Z :=
  if missing rid || missing location then ret PBSE_IVALREQ
  else put 75 (encode_DIS_Run (default [] rid) (default [] location) start) extend.

Definition pbs_rerunjob (jobid : option cstring) (extend : option cstring) : M wsock Z :=
  if missing jobid then ret PBSE_IVALREQ else put 14 (encode_DIS_JobId (default [] jobid)) extend.

Definition pbs_locjob (jobid : option cstring) (extend : option cstring) : M wsock Z :=
  if missing jobid then ret PBSE_IVALREQ else put 8 (encode_DIS_JobId (default [] jobid)) extend.

(** ** The server and the scheduler *)

Definition pbs_terminate (manner : Z) (extend : option cstring) : M wsock Z :=
  put 17 (encode_DIS_ShutDown manner) extend.

Definition encode_defschreply {S : Type} `{DisW S} (cmd : Z) (id : cstring) (err : Z) (txt : option cstring)
    : M S Z :=
  let has_txt := if missing txt then 0 else 1 in
  or_else (or_else (differs (diswui cmd)) (or_else (differs (diswst id)) (differs (diswui err))))
    (let* rc := diswsi has_txt in
     if (has_txt =? 1) && (rc =? 0) then diswst (default [] txt) else ret rc).

Definition pbs_defschreply (cmd : Z) (id : option cstring) (err : Z) (txt extend : option cstring) : M wsock Z :=
  if missing id then ret PBSE_IVALREQ
  else put 80 (encode_defschreply cmd (default [] id) err txt) extend.

Definition PBSD_select_put (type : Z) (attrib rattrib : list attropl) (extend : option cstring) : M wsock Z :=
  put type (or_else (encode_DIS_attropl attrib) (encode_DIS_attrl rattrib)) extend.

Definition PBS_resc (reqtype : Z) (rescl : list cstring) (rh : Z) : M wsock Z :=
  put reqtype (encode_DIS_Resc rescl rh) None.

(** The first request on a connection, of [__pbs_connect_extend]; its error is
    [PBSE_SYSTEM]. *)
Definition pbs_connect (extend_data : option cstring) : M wsock Z :=
  let* _ := DIS_tcp_setup in
  let* i := or_else (encode_DIS_ReqHdr 0 user) (encode_DIS_ReqExtend extend_data) in
  if negb (i =? 0) then ret PBSE_SYSTEM
  else
    let* r := DIS_tcp_wflush in
    ret (if negb (r =? 0) then PBSE_SYSTEM else PBSE_NONE).

(** ** Between servers *)

(** The cases of [issue_Drequest], without the setup, which its caller has done *)
Definition issue (reqt : Z) (body : M wsock Z) (extend : option cstring) : M wsock Z :=
  let* rc := encode_DIS_ReqHdr reqt user in
  if negb (rc =? 0) then ret rc
  else
    let* rc := body in
    if negb (rc =? 0) then ret rc
    else
      let* rc := encode_DIS_ReqExtend extend in
      if negb (rc =? 0) then ret rc else DIS_tcp_wflush.

Definition issue_rerun (jobid : cstring) : M wsock Z := issue 14 (encode_DIS_JobId jobid) None.
Definition issue_register (owner parent child : cstring) (dependtype op cost : Z) : M wsock Z :=
  issue 52 (encode_DIS_Register owner parent child dependtype op cost) None.
Definition issue_track (jid : cstring) (hopcount : Z) (location : cstring) (state : Z)
    (extend : option cstring) : M wsock Z :=
  issue 22 (encode_DIS_TrackJob jid hopcount location state) extend.

End Put.

End Client.

(** * What a client asks for

    Module [Calls]: [call] is a request of a client with its arguments.  For each
    there are [call_ok], the arguments for which it can be sent; [body] and
    [client], the encoder of its body and the function of [Client] that sends
    it; and [request_of], the type and the body the server is to get.  The
    theorems about them are in [ClientProps]. *)

Import Dis Tcp Batch BatchProps Client.

Module Calls.

Inductive call :=
  | call_connect
  | call_queuejob (jobid destin : option cstring) (attrib : list attropl)
  | call_rdytocmt (jobid : cstring)
  | call_commit (jobid : cstring)
  | call_scbuf (reqtype seq : Z) (buf : cstring) (jobid : option cstring) (which : Z)
  | call_mgr (function command objtype : Z) (objname : cstring) (aoplp : list attropl)
  | call_msg (jobid : cstring) (fileopt : Z) (msg : cstring)
  | call_py_spawn (jobid : cstring) (argv envp : option (list cstring))
  | call_relnodes (jobid node_list : cstring)
  | call_sig (jobid signal : cstring)
  | call_status (function : Z) (id : cstring) (attrib : list attropl)
  | call_jcred (type : Z) (buf : cstring)
  | call_ucred (user : cstring) (type : Z) (buf : cstring)
  | call_user_migrate (tohost : cstring)
  | call_submit_resv (resv_id : option cstring) (attrib : list attropl)
  | call_modify_resv (resv_id : option cstring) (attrib : list attropl)
  | call_movejob (jobid : cstring) (destin : option cstring)
  | call_orderjob (job1 job2 : cstring)
  | call_runjob (jobid : cstring) (location : option cstring)
  | call_asyrunjob (jobid : cstring) (location : option cstring)
  | call_stagein (jobid : cstring) (location : option cstring)
  | call_confirmresv (rid location : cstring) (start : Z)
  | call_rerunjob (jobid : cstring)
  | call_locjob (jobid : cstring)
  | call_terminate (manner : Z)
  | call_defschreply (cmd : Z) (id : cstring) (err : Z) (txt : option cstring)
  | call_select (type : Z) (attrib rattrib : list attropl)
  | call_resc (reqtype : Z) (rescl : list cstring) (rh : Z)
  | call_register (owner parent child : cstring) (dependtype op cost : Z)
  | call_track (jid : cstring) (hopcount : Z) (location : cstring) (state : Z).

(** The arguments for which the request can be sent: strings that fit the
    arrays of the server, numbers that fit their types, a request type that the
    function is for *)
Definition text_ok : cstring -> Prop := plain INT_MAX.
Definition jobid_ok : cstring -> Prop := plain PBS_MAXSVRJOBID.
Definition dest_ok : cstring -> Prop := plain PBS_MAXDEST.
Definition given (P : cstring -> Prop) (s : cstring) : Prop := P s /\ s <> [].
Definition attrs_ok (l : list attropl) : Prop := Forall attr_ok l /\ Z.of_nat (length l) <= INT_MAX.
Definition strings_ok (l : list cstring) : Prop := Forall (given text_ok) l.

Definition call_ok (c : call) : Prop :=
  match c with
  | call_connect => True
  | call_queuejob jobid destin attrib =>
      jobid_ok (default [] jobid) /\ dest_ok (default [] destin) /\ attrs_ok attrib
  | call_rdytocmt jobid | call_commit jobid => jobid_ok jobid
  | call_scbuf reqtype seq buf jobid which =>
      one_of reqtype [3; 57] = true /\ in_int seq /\ strlen buf <= INT_MAX /\
      jobid_ok (default [] jobid) /\ in_int which
  | call_mgr function command objtype objname aoplp =>
      one_of function [6; 7; 9; 11; 13; 72; 92] = true /\ in_int command /\ in_int objtype /\
      jobid_ok objname /\ attrs_ok aoplp
  | call_msg jobid fileopt msg => jobid_ok jobid /\ in_int fileopt /\ text_ok msg
  | call_py_spawn jobid argv envp =>
      jobid_ok jobid /\ strings_ok (default [] argv) /\ strings_ok (default [] envp)
  | call_relnodes jobid node_list => jobid_ok jobid /\ text_ok node_list
  | call_sig jobid signal => jobid_ok jobid /\ plain PBS_SIGNAMESZ signal
  | call_status function id attrib =>
      one_of function [19; 20; 21; 58; 71; 81; 82; 83] = true /\ text_ok id /\ attrs_ok attrib
  | call_jcred type buf => in_int type /\ strlen buf <= INT_MAX
  | call_ucred user type buf => plain PBS_MAXUSER user /\ in_int type /\ strlen buf <= INT_MAX
  | call_user_migrate tohost => plain PBS_MAXHOSTNAME tohost
  | call_submit_resv resv_id attrib | call_modify_resv resv_id attrib =>
      jobid_ok (default [] resv_id) /\ attrs_ok attrib
  | call_movejob jobid destin => given jobid_ok jobid /\ dest_ok (default [] destin)
  | call_orderjob job1 job2 => given jobid_ok job1 /\ given dest_ok job2
  | call_runjob jobid location | call_asyrunjob jobid location | call_stagein jobid location =>
      given jobid_ok jobid /\ text_ok (default [] location)
  | call_confirmresv rid location start =>
      given jobid_ok rid /\ given text_ok location /\ 0 <= start <= ULONG_MAX
  | call_rerunjob jobid | call_locjob jobid => given jobid_ok jobid
  | call_terminate manner => in_int manner
  | call_defschreply cmd id err txt =>
      0 <= cmd <= INT_MAX /\ given text_ok id /\ 0 <= err <= INT_MAX /\ text_ok (default [] txt)
  | call_select type attrib rattrib =>
      one_of type [16; 51] = true /\ attrs_ok attrib /\ attrs_ok rattrib
  | call_resc reqtype rescl rh =>
      one_of reqtype [24; 25; 26] = true /\ Forall text_ok rescl /\ Z.of_nat (length rescl) <= INT_MAX /\ in_int rh
  | call_register owner parent child dependtype op cost =>
      plain PBS_MAXUSER owner /\ jobid_ok parent /\ plain PBS_MAXCLTJOBID child /\
      in_int dependtype /\ in_int op /\ LONG_MIN <= cost <= LONG_MAX
  | call_track jid hopcount location state =>
      jobid_ok jid /\ in_int hopcount /\ dest_ok location /\ 0 <= state <= 255
  end.

(** The rounds [read_carray] needs *)
Definition call_fuel (c : call) : nat :=
  match c with
  | call_py_spawn _ argv envp => S (length (default [] argv) + length (default [] envp))
  | _ => 0
  end.

(** The attribute as it goes out in a list of attributes to report *)
Definition unset_op (a : attropl) : attropl := Attropl (name a) (resource a) (value a) 0.

(** The type and the body the server is to get *)
Definition request_of (c : call) : Z * rq_ind :=
  let attrs l := to_svr <$> l in
  let text t := if missing t then None else t in
  match c with
  | call_connect => (0, rq_none)
  | call_queuejob jobid destin attrib =>
      (1, rq_queuejob (default [] jobid) (default [] destin) (attrs attrib))
  | call_rdytocmt jobid => (4, rq_commit jobid)
  | call_commit jobid => (5, rq_commit jobid)
  | call_scbuf reqtype seq buf jobid which =>
      (reqtype, rq_jobfile seq which (strlen buf) (default [] jobid) (Some buf))
  | call_mgr function command objtype objname aoplp =>
      (function, rq_manager command objtype objname (attrs aoplp))
  | call_msg jobid fileopt msg => (10, rq_message jobid fileopt (Some msg))
  | call_py_spawn jobid argv envp => (84, rq_py_spawn jobid (default [] argv) (default [] envp))
  | call_relnodes jobid node_list => (90, rq_relnodes jobid (Some node_list))
  | call_sig jobid signal => (18, rq_signal jobid signal)
  | call_status function id attrib => (function, rq_status (Some id) (attrs (unset_op <$> attrib)))
  | call_jcred type buf => (62, rq_jobcred type (strlen buf) (Some buf))
  | call_ucred user type buf => (73, rq_usercred user type (strlen buf) (Some buf))
  | call_user_migrate tohost => (74, rq_user_migrate tohost)
  | call_submit_resv resv_id attrib => (70, rq_queuejob (default [] resv_id) [] (attrs attrib))
  | call_modify_resv resv_id attrib => (91, rq_modify MGR_OBJ_RESV (default [] resv_id) (attrs attrib))
  | call_movejob jobid destin => (12, rq_move jobid (default [] destin))
  | call_orderjob job1 job2 => (50, rq_move job1 job2)
  | call_runjob jobid location => (15, rq_run jobid (Some (default [] location)) 0)
  | call_asyrunjob jobid location => (23, rq_run jobid (Some (default [] location)) 0)
  | call_stagein jobid location => (48, rq_run jobid (Some (default [] location)) 0)
  | call_confirmresv rid location start => (75, rq_run rid (Some location) start)
  | call_rerunjob jobid => (14, rq_commit jobid)
  | call_locjob jobid => (8, rq_commit jobid)
  | call_terminate manner => (17, rq_shutdown manner)
  | call_defschreply cmd id err txt => (80, rq_defrpy cmd (Some id) err (text txt))
  | call_select type attrib rattrib => (type, rq_select (attrs attrib) (attrs (unset_op <$> rattrib)))
  | call_resc reqtype rescl rh => (reqtype, rq_rescq rh (Z.of_nat (length rescl)) (Some <$> rescl))
  | call_register owner parent child dependtype op cost =>
      (52, rq_register owner parent child dependtype op cost)
  | call_track jid hopcount location state => (22, rq_track jid hopcount location state)
  end.

(** The encoder of the body *)
Definition body {S : Type} `{DisW S} (c : call) : M S Z :=
  match c with
  | call_connect => ret DIS_SUCCESS
  | call_queuejob jobid destin attrib => encode_DIS_QueueJob jobid destin attrib
  | call_rdytocmt jobid | call_commit jobid | call_rerunjob jobid | call_locjob jobid => encode_DIS_JobId jobid
  | call_scbuf _ seq buf jobid which => encode_DIS_JobFile seq buf (Some (default [] jobid)) which
  | call_mgr _ command objtype objname aoplp => encode_DIS_Manage command objtype objname aoplp
  | call_msg jobid fileopt msg => encode_DIS_MessageJob jobid fileopt msg
  | call_py_spawn jobid argv envp => encode_DIS_PySpawn jobid argv envp
  | call_relnodes jobid node_list => encode_DIS_RelnodesJob jobid node_list
  | call_sig jobid signal => encode_DIS_SignalJob jobid signal
  | call_status _ id attrib => encode_DIS_Status id attrib
  | call_jcred type buf => encode_DIS_JobCred type buf
  | call_ucred user type buf => encode_DIS_UserCred user type buf
  | call_user_migrate tohost => encode_DIS_UserMigrate tohost
  | call_submit_resv resv_id attrib => encode_DIS_SubmitResv resv_id attrib
  | call_modify_resv resv_id attrib => encode_DIS_ModifyResv resv_id attrib
  | call_movejob jobid destin => encode_DIS_MoveJob jobid (default [] destin)
  | call_orderjob job1 job2 => encode_DIS_MoveJob job1 job2
  | call_runjob jobid location | call_asyrunjob jobid location | call_stagein jobid location =>
      encode_DIS_Run jobid (default [] location) 0
  | call_confirmresv rid location start => encode_DIS_Run rid location start
  | call_terminate manner => encode_DIS_ShutDown manner
  | call_defschreply cmd id err txt => encode_defschreply cmd id err txt
  | call_select _ attrib rattrib => or_else (encode_DIS_attropl attrib) (encode_DIS_attrl rattrib)
  | call_resc _ rescl rh => encode_DIS_Resc rescl rh
  | call_register owner parent child dependtype op cost =>
      encode_DIS_Register owner parent child dependtype op cost
  | call_track jid hopcount location state => encode_DIS_TrackJob jid hopcount location state
  end.

(** The function of the client, with [pbs_errno] as it was before *)
Definition client (user : cstring) (pbs_errno : Z) (c : call) (extend : option cstring) : M wsock Z :=
  match c with
  | call_connect => pbs_connect user extend
  | call_queuejob jobid destin attrib => PBSD_queuejob user jobid destin attrib extend
  | call_rdytocmt jobid => PBSD_rdytocmt user jobid
  | call_commit jobid => PBSD_commit user jobid
  | call_scbuf reqtype seq buf jobid which => PBSD_scbuf user reqtype seq buf jobid which
  | call_mgr function command objtype objname aoplp =>
      PBSD_mgr_put user function command objtype objname aoplp extend
  | call_msg jobid fileopt msg => PBSD_msg_put user jobid fileopt msg extend
  | call_py_spawn jobid argv envp => PBSD_py_spawn_put user jobid argv envp
  | call_relnodes jobid node_list => PBSD_relnodes_put user jobid node_list extend
  | call_sig jobid signal => PBSD_sig_put user jobid signal extend
  | call_status function id attrib => PBSD_status_put user function id attrib extend
  | call_jcred type buf => PBSD_jcred user type buf
  | call_ucred to_user type buf => PBSD_ucred user to_user type buf
  | call_user_migrate tohost => PBSD_user_migrate user tohost
  | call_submit_resv resv_id attrib => PBSD_submit_resv user resv_id attrib extend
  | call_modify_resv resv_id attrib => PBSD_modify_resv user pbs_errno resv_id attrib extend
  | call_movejob jobid destin => pbs_movejob user (Some jobid) destin extend
  | call_orderjob job1 job2 => pbs_orderjob user (Some job1) (Some job2) extend
  | call_runjob jobid location => pbs_runjob user (Some jobid) location extend
  | call_asyrunjob jobid location => pbs_asyrunjob user (Some jobid) location extend
  | call_stagein jobid location => pbs_stagein user (Some jobid) location extend
  | call_confirmresv rid location start => pbs_confirmresv user (Some rid) (Some location) start extend
  | call_rerunjob jobid => pbs_rerunjob user (Some jobid) extend
  | call_locjob jobid => pbs_locjob user (Some jobid) extend
  | call_terminate manner => pbs_terminate user manner extend
  | call_defschreply cmd id err txt => pbs_defschreply user cmd (Some id) err txt extend
  | call_select type attrib rattrib => PBSD_select_put user type attrib rattrib extend
  | call_resc reqtype rescl rh => PBS_resc user reqtype rescl rh
  | call_register owner parent child dependtype op cost =>
      issue_register user owner parent child dependtype op cost
  | call_track jid hopcount location state => issue_track user jid hopcount location state extend
  end.

(** The extension the functions send: some take none. *)
Definition extension (c : call) (extend : option cstring) : option cstring :=
  match c with
  | call_rdytocmt _ | call_commit _ | call_scbuf _ _ _ _ _ | call_py_spawn _ _ _ | call_jcred _ _
  | call_ucred _ _ _ | call_user_migrate _ | call_resc _ _ _ | call_register _ _ _ _ _ _ => None
  | _ => extend
  end.

(** The extension the server gets *)
Definition kept (extend : option cstring) : option cstring := if missing extend then None else extend.

End Calls.
