(* ===== verification/ClientProps.v ===== *)
(** * A request that is sent is the request that is read

    Every [call] of [Calls] is carried by its encoder and the decoder of the
    server ([carries_body], by cases).  The theorems: over any two streams the server reads the request that was encoded, and over
    tcp the request that a client's function put on the wire, however writes and
    reads are cut. *)

From Stdlib Require Import ZArith Lia Ascii String.
From S2P Require Import Prelude Dis DisProps TcpDis TcpProps Batch BatchProps Client.
Import Dis DisProps Tcp TcpProps Batch BatchProps Client Calls.

Module ClientProps.

(** ** The body of a request *)

Section Body.
Context {W : Type} `{DisWLaws W} {T : Type} `{DisRLaws T}.

Lemma sends_cs v : strlen v <= INT_MAX -> sends (S := W) (diswcs v) (string_text v).
Proof. intros Hv. by apply writes_sends, writes_cs. Qed.

Lemma sends_si v : in_int v -> sends (S := W) (diswsi v) (signed_text v).
Proof. intros Hv. by apply writes_sends, writes_si. Qed.

Lemma sends_sl v : LONG_MIN <= v <= LONG_MAX -> sends (S := W) (diswsl v) (signed_text v).
Proof. intros Hv. by apply writes_sends, writes_sl. Qed.

Lemma sends_last m t : sends (S := W) m t -> sends (S := W) (let* rc := m in ret rc) t.
Proof.
  intros Hm s Ho Hs. destruct (Hm s Ho Hs) as (rc & s' & He & Hr). exists rc, s'. split; [by mstep He|done].
Qed.

Lemma sends_uc v : 0 <= v <= 255 -> sends (S := W) (diswuc v) (disw_text "+" v).
Proof.
  intros Hv. unfold diswuc. apply sends_ui. unfold UINT_MAX. lia.
Qed.

Lemma sends_ul v : 0 <= v <= ULONG_MAX -> sends (S := W) (diswul v) (disw_text "+" v).
Proof. intros Hv. by apply writes_sends, writes_ul. Qed.

Lemma sends_plain n v : plain n v -> n <= INT_MAX -> sends (S := W) (diswst v) (string_text v).
Proof. intros [_ Hv] Hn. apply sends_st. lia. Qed.

Lemma reads_fst n achars size v :
  plain n v -> n <= achars -> n < size -> n <= INT_MAX ->
  reads (S := T) (get_fst achars size) (string_text v) (inr v).
Proof. intros [Hz Hv] ? ? ?. apply reads_get_fst; [lia|done|lia|lia]. Qed.

Lemma reads_str v : text_ok v -> reads (S := T) (get disrst) (string_text v) (inr (Some v)).
Proof. intros [Hz Hv]. by apply reads_get, reads_disrst. Qed.

Lemma reads_jobid v : jobid_ok v -> reads (S := T) get_jobid (string_text v) (inr v).
Proof. intros Hv. by eapply reads_fst. Qed.

Lemma reads_get_ul v :
  0 <= v <= ULONG_MAX -> reads (S := T) (get disrul) (disw_text "+" v) (inr v).
Proof. intros Hv. apply reads_get. exact (proj1 (reads_ul v Hv)). Qed.

Lemma reads_list l : attrs_ok l -> reads (S := T) decode_DIS_svrattrl (list_text l) (to_svr <$> l, DIS_SUCCESS).
Proof. intros [Hl Hn]. by apply reads_svrattrl0. Qed.

(** The list of attributes and the one with the operation left out *)
Lemma carries_attropl l : attrs_ok l ->
  sends (S := W) (encode_DIS_attropl l) (list_text l) /\
  reads (S := T) (get decode_DIS_svrattrl) (list_text l) (inr (to_svr <$> l)).
Proof. intros [Hl Hn]. split; [by apply sends_attropl|by apply reads_svrattrl]. Qed.

Lemma unset_ok l : attrs_ok l -> attrs_ok (unset_op <$> l).
Proof.
  intros [Hl Hn]. split; [|by rewrite length_fmap]. apply Forall_fmap. eapply Forall_impl; [exact Hl|].
  intros a [? ? ? ? ?]. split; try done.
Qed.

Lemma carries_attrl l : attrs_ok l ->
  sends (S := W) (encode_DIS_attrl l) (list_text (unset_op <$> l)) /\
  reads (S := T) (get decode_DIS_svrattrl) (list_text (unset_op <$> l)) (inr (to_svr <$> (unset_op <$> l))).
Proof.
  intros Hl. destruct (unset_ok l Hl) as [Hu Hn]. split; [|by apply reads_svrattrl].
  unfold encode_DIS_attrl.
  pose proof (sends_list (S := W) (unset_op <$> l) op Hu (fun a _ => eq_refl) Hn) as Hs.
  assert (map (fun a => (name a, resource a, value a, op a)) (unset_op <$> l)
    = map (fun a => (name a, resource a, value a, 0)) l) as He.
  { clear. induction l as [|a l IH]; cbn; [done|]. by rewrite IH. }
  by rewrite He in Hs.
Qed.

Lemma carries_carray l : strings_ok l -> exists t,
  sends (S := W) (encode_carray l) t /\
  forall fuel, (length l < fuel)%nat -> reads (S := T) (read_carray fuel) t (inr l).
Proof.
  induction 1 as [|s l [[Hz Hl] Hne] _ (t & Hs & Hr)].
  - exists (string_text []). split; [by apply sends_cs|]. intros [|fuel] Hf; [lia|]. cbn [read_carray].
    eapply reads_map; [by apply reads_disrst|]. done.
  - exists (string_text s ++ t). split; [cbn [encode_carray]; apply sends_or; [by apply sends_cs|done]|].
    intros [|fuel] Hf; [cbn in Hf; lia|]. cbn [read_carray]. cbn [length] in Hf.
    eapply reads_bind; [by apply reads_disrst|]. cbn beta iota.
    change (negb (DIS_SUCCESS =? DIS_SUCCESS)) with false. cbn beta iota. destruct s as [|c s]; [done|].
    eapply reads_map; [by apply Hr; lia|]. done.
Qed.

Lemma carries_strings l : Forall text_ok l -> exists t,
  sends (S := W) (encode_strings l DIS_SUCCESS) t /\
  reads (S := T) (read_strings (length l)) t (inr (Some <$> l)).
Proof.
  induction 1 as [|s l Hs _ (t & Ht & Hr)].
  - exists []. split; [apply sends_ret|apply reads_nil].
  - exists (string_text s ++ t). split.
    + cbn [encode_strings]. apply (sends_then _ (fun rc => encode_strings l rc)); [|exact Ht].
      by eapply sends_plain.
    + cbn [length read_strings]. eapply reads_rbind; [by apply reads_str|].
      eapply reads_map; [exact Hr|]. done.
Qed.

(** [m] sends a text from which [d] reads [b]. *)
Definition carries {A : Type} (m : M W Z) (d : R A) (b : A) : Prop :=
  exists t, sends (S := W) m t /\ reads (S := T) d t (inr b).

Lemma carries_intro {A : Type} (m : M W Z) (d : R A) (b : A) t :
  sends (S := W) m t -> reads (S := T) d t (inr b) -> carries m d b.
Proof. by exists t. Qed.

Lemma carries_then {A : Type} (m : M W Z) (f : Z -> M W Z) (d : R A) (b : A) t u :
  sends (S := W) m t -> sends (S := W) (f DIS_SUCCESS) u -> reads (S := T) d (t ++ u) (inr b) ->
  carries (let* rc := m in if rc =? 0 then f rc else ret rc) d b.
Proof. intros Ht Hu Hr. exists (t ++ u). split; [by apply sends_then|done]. Qed.

End Body.

Lemma one_of_In x l : one_of x l = true -> In x l.
Proof.
  unfold one_of. intros Hx. apply existsb_exists in Hx as (y & Hy & He). apply Z.eqb_eq in He. by subst y.
Qed.

(** The conditions of a call, one by one, and the request type it was given *)
Ltac split_hyps Hc :=
  try match type of Hc with
    | _ /\ _ => let H1 := fresh "Hc" in destruct Hc as [H1 Hc]; split_hyps H1; split_hyps Hc
    | given _ _ => let H1 := fresh "Hc" in destruct Hc as [H1 Hc]
    end.
Ltac pick_type :=
  try match goal with
    | H : one_of _ _ = true |- _ =>
        apply one_of_In in H; repeat (destruct H as [<- | H]; [|]); try destruct H
    end.

Lemma text_ok_cs v : text_ok v -> strlen v <= INT_MAX.
Proof. by intros [_ ?]. Qed.

(** The steps of an encoder and of a decoder *)
Ltac send1 :=
  lazymatch goal with
  | |- sends (or_else _ _) _ => apply sends_or
  | |- sends (differs _) _ => apply sends_differs
  | |- sends (bind _ _) _ => eapply (sends_then _ (fun _ => _)); cbn beta
  | |- sends (ret _) _ => apply sends_ret
  | |- sends (diswui _) _ => apply sends_int
  | |- sends (diswst _) _ => eapply sends_plain; [eassumption|done]
  | |- sends (diswcs _) _ => by apply sends_cs
  | |- sends (diswsi _) _ => by apply sends_si
  | |- sends (diswsl _) _ => by apply sends_sl
  | |- sends (diswul _) _ => apply sends_ul; unfold ULONG_MAX in *; lia
  | |- sends (diswuc _) _ => by apply sends_uc
  | |- sends (encode_DIS_attropl _) _ => by apply carries_attropl
  | |- sends (encode_DIS_attrl _) _ => by apply carries_attrl
  end.
Ltac send := repeat send1.

Ltac read1 :=
  lazymatch goal with
  | |- reads get_jobid _ _ => by apply reads_jobid
  | |- reads (get_fst _ _) _ _ => eapply reads_fst; [eassumption|done..]
  | |- reads (get disrst) _ _ => by apply reads_str
  | |- reads get_int _ _ => by apply reads_get_int
  | |- reads get_cs _ _ => first [by apply reads_get_cs | by apply reads_get_cs, text_ok_cs]
  | |- reads (get decode_DIS_svrattrl) _ _ => first [by apply carries_attropl | by apply carries_attrl]
  | |- reads (get disruc) _ _ => by apply reads_get, reads_uc
  | |- reads (get disrul) _ _ => apply reads_get_ul; unfold ULONG_MAX in *; lia
  | |- reads (get disrsi) _ _ => by apply reads_get, reads_si
  | |- reads (get disrsl) _ _ => by apply reads_get, reads_sl
  | |- reads (get disrui) _ _ => first [by apply reads_get_ui | apply reads_get_ui, uint32_range]
  end.
Ltac receives :=
  rewrite <-?app_assoc;
  repeat lazymatch goal with
    | |- reads (rbind _ _) (_ ++ _) _ => eapply reads_rbind; [by read1|cbn beta iota]
    end.
Ltac receive := receives; first [eapply reads_map; [by read1|done] | by apply reads_nil].
Tactic Notation "carry" reference(enc) reference(dec) :=
  eapply carries_intro; [unfold enc; send|]; unfold dec; receive.

Section Calls.
Context {W : Type} `{DisWLaws W} {T : Type} `{DisRLaws T} `{!DisSetup T}.

Lemma carries_jobfile seq buf jobid which :
  in_int seq -> strlen buf <= INT_MAX -> jobid_ok jobid -> in_int which ->
  carries (W := W) (T := T) (encode_DIS_JobFile seq buf (Some jobid) which) decode_DIS_JobFile
    (rq_jobfile seq which (strlen buf) jobid (Some buf)).
Proof.
  intros. eapply carries_intro; [unfold encode_DIS_JobFile; cbn [default from_option]; send|].
  unfold decode_DIS_JobFile. receives.
  rewrite uint32_small by (pose proof (strlen_pos buf); lia). eapply reads_map; [by apply reads_get_cs|].
  intros s. cbn beta iota. unfold strlen. by rewrite Z.eqb_refl.
Qed.

Lemma carries_py_spawn fuel jobid argv envp :
  call_ok (call_py_spawn jobid argv envp) -> (call_fuel (call_py_spawn jobid argv envp) <= fuel)%nat ->
  carries (W := W) (T := T) (encode_DIS_PySpawn jobid argv envp) (decode_DIS_PySpawn fuel)
    (rq_py_spawn jobid (default [] argv) (default [] envp)).
Proof.
  intros (Hj & Ha & He) Hf. cbn [call_fuel] in Hf.
  destruct (carries_carray (default [] argv) Ha) as (ta & Sa & Ra).
  destruct (carries_carray (default [] envp) He) as (te & Se & Re).
  exists (string_text jobid ++ ta ++ te). split.
  - unfold encode_DIS_PySpawn. apply sends_or; [by eapply sends_plain|by apply sends_or].
  - unfold decode_DIS_PySpawn. eapply reads_rbind; [by apply reads_jobid|].
    eapply reads_rbind; [apply Ra; lia|]. eapply reads_map; [apply Re; lia|]. done.
Qed.

Lemma carries_modify_resv resv_id attrib :
  jobid_ok (default [] resv_id) -> attrs_ok attrib ->
  carries (W := W) (T := T) (encode_DIS_ModifyResv resv_id attrib)
    (let* (b, _) := decode_DIS_ModifyResv in done b)
    (rq_modify MGR_OBJ_RESV (default [] resv_id) (to_svr <$> attrib)).
Proof.
  intros Hj Ha. eapply carries_intro; [unfold encode_DIS_ModifyResv; send|].
  rewrite <-app_assoc. change (uint32 MGR_OBJ_RESV) with 4. pose proof Hj as [Hz Hl].
  assert (PBS_MAXSVRJOBID = 268) as E by done.
  eapply reads_map with (a := (rq_modify MGR_OBJ_RESV (default [] resv_id) (to_svr <$> attrib), DIS_SUCCESS));
    [|done].
  unfold decode_DIS_ModifyResv. eapply reads_bind; [apply (reads_ui 4); unfold UINT_MAX; lia|].
  change (negb (DIS_SUCCESS =? 0)) with false. cbn beta iota.
  eapply reads_bind; [apply reads_disrfst; [unfold INT_MAX; lia|done|lia|lia]|].
  change (negb (DIS_SUCCESS =? 0)) with false. cbn beta iota.
  eapply reads_map; [by apply reads_list|]. done.
Qed.

Lemma carries_defschreply cmd id err txt :
  call_ok (call_defschreply cmd id err txt) ->
  carries (W := W) (T := T) (encode_defschreply cmd id err txt) decode_DIS_DefSchReply
    (snd (request_of (call_defschreply cmd id err txt))).
Proof.
  intros (Hc & [Hi _] & He & Ht). cbn [request_of snd]. unfold encode_defschreply, decode_DIS_DefSchReply.
  assert (forall v, 0 <= v <= INT_MAX -> in_int v /\ disw_text "+" (uint32 v) = signed_text v) as Hs.
  { intros v Hv. split; [unfold in_int, INT_MIN; lia|]. rewrite uint32_small by done. unfold signed_text.
    by destruct (Z.ltb_spec v 0); [lia|]. }
  destruct (Hs cmd Hc) as [Hc' Ec], (Hs err He) as [He' Ee].
  destruct (missing txt) eqn:Em; cbn beta iota.
  - eapply carries_intro; [apply sends_or; [send|by apply sends_last, sends_si]|].
    rewrite Ec, Ee. receives. by receive.
  - eapply carries_intro.
    + apply sends_or; [send|]. apply (sends_then _ (fun _ => diswst (default [] txt))); [by apply sends_si|send].
    + rewrite Ec, Ee. receives. change (1 =? 0) with false. cbn beta iota.
      destruct txt as [txt|]; [|done]. receive.
Qed.

Lemma carries_select attrib rattrib :
  attrs_ok attrib -> attrs_ok rattrib ->
  carries (W := W) (T := T) (or_else (encode_DIS_attropl attrib) (encode_DIS_attrl rattrib)) decode_DIS_Select
    (rq_select (to_svr <$> attrib) (to_svr <$> (unset_op <$> rattrib))).
Proof.
  intros Ha Hr. eapply carries_intro; [send|]. unfold decode_DIS_Select.
  eapply reads_bind; [by apply reads_list|]. cbn beta iota.
  eapply reads_map; [by apply carries_attrl|]. done.
Qed.

Lemma carries_resc rescl rh :
  Forall text_ok rescl -> Z.of_nat (length rescl) <= INT_MAX -> in_int rh ->
  carries (W := W) (T := T) (encode_DIS_Resc rescl rh) decode_DIS_Rescl
    (rq_rescq rh (Z.of_nat (length rescl)) (Some <$> rescl)).
Proof.
  intros Hl Hn Hr. destruct (carries_strings rescl Hl) as (t & Ht & Hd).
  assert (in_int (Z.of_nat (length rescl))) as Hi by (unfold in_int, INT_MIN; lia).
  eapply carries_intro.
  - unfold encode_DIS_Resc. apply sends_or; [by apply sends_si|].
    apply (sends_then _ (fun rc => encode_strings rescl rc)); [apply sends_int|exact Ht].
  - unfold decode_DIS_Rescl. receives.
    assert ((Z.of_nat (length rescl) <? 0) = false) as -> by lia. rewrite Nat2Z.id.
    eapply reads_map; [exact Hd|]. done.
Qed.

Lemma carries_body fuel c :
  call_ok c -> (call_fuel c <= fuel)%nat ->
  carries (W := W) (T := T) (body c) (decode_body fuel (fst (request_of c))) (snd (request_of c)).
Proof.
  intros Hc Hf. destruct c; cbn [call_ok] in Hc; cbn [body request_of fst snd].
  all: try (split_hyps Hc; pick_type; cbv beta iota delta [decode_body one_of existsb Z.eqb Pos.eqb orb]).
  - eapply carries_intro; [send|]. apply reads_nil.
  - carry encode_DIS_QueueJob decode_DIS_QueueJob.
  - carry encode_DIS_JobId decode_DIS_JobId.
  - carry encode_DIS_JobId decode_DIS_JobId.
  - by apply carries_jobfile.
  - by apply carries_jobfile.
  - carry encode_DIS_Manage decode_DIS_Manage.
  - carry encode_DIS_Manage decode_DIS_Manage.
  - carry encode_DIS_Manage decode_DIS_Manage.
  - carry encode_DIS_Manage decode_DIS_Manage.
  - carry encode_DIS_Manage decode_DIS_Manage.
  - carry encode_DIS_Manage decode_DIS_Manage.
  - carry encode_DIS_Manage decode_DIS_Manage.
  - carry encode_DIS_MessageJob decode_DIS_MessageJob.
  - by apply carries_py_spawn.
  - carry encode_DIS_RelnodesJob decode_DIS_RelnodesJob.
  - carry encode_DIS_SignalJob decode_DIS_SignalJob.
  - carry encode_DIS_Status decode_DIS_Status.
  - carry encode_DIS_Status decode_DIS_Status.
  - carry encode_DIS_Status decode_DIS_Status.
  - carry encode_DIS_Status decode_DIS_Status.
  - carry encode_DIS_Status decode_DIS_Status.
  - carry encode_DIS_Status decode_DIS_Status.
  - carry encode_DIS_Status decode_DIS_Status.
  - carry encode_DIS_Status decode_DIS_Status.
  - carry encode_DIS_JobCred decode_DIS_JobCred.
  - carry encode_DIS_UserCred decode_DIS_UserCred.
  - carry encode_DIS_UserMigrate decode_DIS_UserMigrate.
  - assert (dest_ok []) as Hd by done. carry encode_DIS_SubmitResv decode_DIS_QueueJob.
  - by apply carries_modify_resv.
  - carry encode_DIS_MoveJob decode_DIS_MoveJob.
  - carry encode_DIS_MoveJob decode_DIS_MoveJob.
  - carry encode_DIS_Run decode_DIS_Run.
  - carry encode_DIS_Run decode_DIS_Run.
  - carry encode_DIS_Run decode_DIS_Run.
  - carry encode_DIS_Run decode_DIS_Run.
  - carry encode_DIS_JobId decode_DIS_JobId.
  - carry encode_DIS_JobId decode_DIS_JobId.
  - carry encode_DIS_ShutDown decode_DIS_ShutDown.
  - by apply carries_defschreply.
  - by apply carries_select.
  - by apply carries_select.
  - by apply carries_resc.
  - by apply carries_resc.
  - by apply carries_resc.
  - carry encode_DIS_Register decode_DIS_Register.
  - carry encode_DIS_TrackJob decode_DIS_TrackJob.
Qed.

(** ** The whole request *)

Lemma type_range c :
  call_ok c -> in_int (fst (request_of c)) /\ uint32 (fst (request_of c)) = fst (request_of c) /\
    (fst (request_of c) =? 59) = false.
Proof.
  intros Hc. destruct c; cbn [call_ok] in Hc; cbn [request_of fst]; split_hyps Hc; pick_type;
    (split; [split; vm_compute; discriminate|split; reflexivity]).
Qed.

Lemma carries_hdr reqt user :
  in_int reqt -> plain PBS_MAXUSER user ->
  carries (W := W) (T := T) (encode_DIS_ReqHdr reqt user) decode_DIS_ReqHdr
    (PBS_BATCH_PROT_TYPE, PBS_BATCH_PROT_VER, reqt, user).
Proof.
  intros Hr Hu. eapply carries_intro; [unfold encode_DIS_ReqHdr; send|]. unfold decode_DIS_ReqHdr.
  eapply reads_rbind; [apply (reads_get_int PBS_BATCH_PROT_TYPE); split; vm_compute; discriminate|].
  cbn beta iota. change (negb (PBS_BATCH_PROT_TYPE =? PBS_BATCH_PROT_TYPE)) with false. cbn beta iota.
  eapply reads_rbind; [apply (reads_get_int PBS_BATCH_PROT_VER); split; vm_compute; discriminate|].
  cbn beta iota. receive.
Qed.

Lemma carries_extend extend :
  text_ok (default [] extend) ->
  carries (W := W) (T := T) (encode_DIS_ReqExtend extend) decode_DIS_ReqExtend (kept extend).
Proof.
  intros He. assert (in_int 0 /\ in_int 1) as [H00 H01] by (split; split; vm_compute; discriminate).
  unfold encode_DIS_ReqExtend, decode_DIS_ReqExtend.
  destruct extend as [[|c e]|]; cbn [default from_option id] in He.
  - eapply carries_intro; [apply (sends_int 0)|]. by eapply reads_map; [by apply reads_get_int|].
  - eapply carries_intro; [send|]. eapply reads_rbind; [by apply (reads_get_int 1)|].
    change (1 =? 0) with false. cbn beta iota. by apply reads_str.
  - eapply carries_intro; [apply (sends_int 0)|]. by eapply reads_map; [by apply reads_get_int|].
Qed.

Lemma carries_request fuel user c extend :
  call_ok c -> (call_fuel c <= fuel)%nat -> plain PBS_MAXUSER user -> text_ok (default [] extend) ->
  carries (W := W) (T := T) (request (fst (request_of c)) user (body c) extend) (decode_request fuel)
    (Request (fst (request_of c)) user (snd (request_of c)) (kept extend)).
Proof.
  intros Hc Hf Hu He. destruct (type_range c Hc) as (Hi & _ & H59).
  destruct (carries_hdr _ user Hi Hu) as (th & Sh & Rh).
  destruct (carries_body fuel c Hc Hf) as (tb & Sb & Rb).
  destruct (carries_extend extend He) as (te & Se & Re).
  exists (th ++ tb ++ te). split; [unfold request; by repeat apply sends_or|].
  unfold decode_request. eapply reads_bind; [exact Rh|]. cbn beta iota.
  change (PBS_BATCH_PROT_VER >? PBS_BATCH_PROT_VER) with false. rewrite H59. cbn beta iota.
  eapply reads_bind; [exact Rb|]. cbn beta iota. eapply reads_map; [exact Re|]. done.
Qed.

(** After the setup the same is read from what arrives. *)
Lemma setup_reads `{!DisSetupLaws T} fuel t r (s : T) l :
  reads (S := T) (decode_request fuel) t r -> r_ok s -> arriving s = t ++ l ->
  exists s', dis_request_read fuel false s = Some (r, s') /\ holds s' [] l.
Proof.
  intros Hr Hs Ha. destruct (setup_law s Hs) as (s1 & He & Ho & Hu & Hc).
  destruct (Hr s1 l) as (s2 & Hr2 & Hh); [by rewrite <-Ha|]. exists s2. split; [|done].
  unfold dis_request_read. by rewrite (bind_eq _ _ _ _ _ He).
Qed.

End Calls.

(** ** Over tcp *)

(** Nothing is waiting in the buffer of the connection. *)
Definition idle (s : wsock) : Prop := ws_ok s /\ tdis_lead (writebuf s) = 0.

Lemma idle_start s : idle s -> ws_staged s = [] /\ ws_out s = wire s.
Proof.
  intros [(Ht & Hl & Hs) H0]. assert (tdis_trail (writebuf s) = 0) as H1 by lia.
  unfold ws_staged, ws_out, pending, committed. rewrite H0, H1. cbn. by rewrite app_nil_r.
Qed.

Lemma setup_idle s : ws_ok s -> exists s', DIS_tcp_setup s = Some (tt, s') /\ idle s' /\ wire s' = wire s /\
  (ws_sound s -> ws_sound s').
Proof.
  intros (Ht & Hl & Hs). eexists. split; [done|]. split; [|done]. split; [|done]. split_and!; cbn; lia.
Qed.

(** A request and a flush *)
Lemma request_flushed (m : M wsock Z) t s :
  sends m t -> idle s ->
  exists rc s1, m s = Some (rc, s1) /\ (ws_sound s -> rc = 0) /\
    (rc = 0 -> exists r s2, DIS_tcp_wflush s1 = Some (r, s2) /\ (r = 0 \/ r = -1) /\
      (ws_sound s -> r = 0) /\ (r = 0 -> idle s2 /\ wire s2 = wire s ++ t)).
Proof.
  intros Hm Hi. destruct (idle_start s Hi) as [Hst Hout]. destruct Hi as [Ho H0].
  destruct (Hm s Ho Hst) as (rc & s1 & He & [Ho1 Hw1] & Hst1 & Hr & Hg). exists rc, s1. split; [done|].
  split; [exact Hg|]. intros ->.
  destruct (wflush_spec s1 Ho1) as (r & s2 & Hf & Ho2 & Hst2 & _ & Hr2). exists r, s2.
  split; [done|]. destruct Hr2 as [(-> & Hout2 & Htr)|(-> & Hns & _)].
  2: { split; [by right|]. split; [|done]. intros Hs. by destruct Hns; apply Hw1. }
  split; [by left|]. split; [done|]. intros _. change (staged s1) with (ws_staged s1) in Hst1.
  rewrite Hst1 in Hst2.
  assert (tdis_lead (writebuf s2) = 0) as Hl2.
  { apply (f_equal length) in Hst2. destruct Ho2 as (? & ? & ?). unfold ws_staged, pending in Hst2.
    rewrite Htr, length_take, length_drop in Hst2. cbn [length] in Hst2. lia. }
  assert (idle s2) as Hi2 by done. split; [done|]. destruct (idle_start s2 Hi2) as [_ <-].
  rewrite Hout2. change (out s1) with (ws_out s1) in Hr. rewrite (Hr eq_refl). change (out s) with (ws_out s).
  by rewrite Hout.
Qed.

(** [m] gives a code: 0 when no write fails, and only when [t] has gone out. *)
Definition delivers (m : M wsock Z) (t : cstring) : Prop :=
  forall s, idle s -> exists rc s', m s = Some (rc, s') /\ (ws_sound s -> rc = 0) /\
    (rc = 0 -> idle s' /\ wire s' = wire s ++ t).

(** An encoder, a flush and the code [bad] for the error of either *)
Lemma flush_delivers (m : M wsock Z) (bad : Z) t s :
  sends m t -> idle s -> bad <> 0 ->
  exists rc s', (let* rc := m in
     if negb (rc =? 0) then ret bad
     else let* r := DIS_tcp_wflush in ret (if negb (r =? 0) then bad else PBSE_NONE)) s = Some (rc, s') /\
    (ws_sound s -> rc = 0) /\ (rc = 0 -> idle s' /\ wire s' = wire s ++ t).
Proof.
  intros Hm Hi Hb. destruct (request_flushed m t s Hm Hi) as (rc & s1 & He & Hg & Hr). mstep He.
  destruct (Z.eqb_spec rc 0) as [->|Hne]; cbn [negb].
  - destruct (Hr eq_refl) as (r & s2 & Hf & Hrr & Hg2 & Hd). mstep Hf.
    eexists _, s2. split; [done|]. destruct Hrr as [-> | ->]; [done|]. split; [|done].
    intros Hs. specialize (Hg2 Hs). discriminate Hg2.
  - exists bad, s1. split; [done|]. split; [|done]. intros Hs. by destruct Hne; apply Hg.
Qed.

Lemma put_delivers user reqt (m : M wsock Z) extend t :
  sends (request reqt user m extend) t -> delivers (put user reqt m extend) t.
Proof.
  intros Hm s [Ho _]. destruct (setup_idle s Ho) as (s0 & Hset & Hi & Hw & Hs). unfold put. mstep Hset.
  destruct (flush_delivers _ PBSE_PROTOCOL t s0 Hm Hi ltac:(done)) as (rc & s' & He & Hg & Hd).
  rewrite Hw in Hd. exists rc, s'. split; [exact He|]. auto.
Qed.

Lemma connect_delivers user extend t :
  sends (request 0 user (ret DIS_SUCCESS) extend) t -> delivers (pbs_connect user extend) t.
Proof.
  intros Hm s [Ho _]. destruct (setup_idle s Ho) as (s0 & Hset & Hi & Hw & Hs). unfold pbs_connect. mstep Hset.
  destruct (flush_delivers _ PBSE_SYSTEM t s0 Hm Hi ltac:(done)) as (rc & s' & He & Hg & Hd).
  rewrite Hw in Hd. exists rc, s'. split; [|auto]. rewrite <-He.
  unfold request, or_else. rewrite !bind_bind. unfold bind, ret.
  destruct (encode_DIS_ReqHdr 0 user s0) as [[r1 s1]|]; [|done]. by destruct (r1 =? 0).
Qed.

Lemma issue_delivers user reqt (m : M wsock Z) extend t :
  sends (request reqt user m extend) t -> delivers (issue user reqt m extend) t.
Proof.
  intros Hm s Hi. destruct (request_flushed _ t s Hm Hi) as (rc & s1 & He & Hg & Hr).
  assert (issue user reqt m extend s = (if rc =? 0 then DIS_tcp_wflush s1 else Some (rc, s1))) as ->.
  { revert He. unfold issue, request, or_else, bind, ret.
    destruct (encode_DIS_ReqHdr reqt user s) as [[r1 w1]|]; [|done].
    destruct (r1 =? 0) eqn:E1; cbn [negb]; [|intros [= <- <-]; by rewrite E1].
    destruct (m w1) as [[r2 w2]|]; [|done].
    destruct (r2 =? 0) eqn:E2; cbn [negb]; [|intros [= <- <-]; by rewrite E2].
    destruct (encode_DIS_ReqExtend extend w2) as [[r3 w3]|]; [|done].
    intros [= <- <-]. by destruct (r3 =? 0). }
  destruct (Z.eqb_spec rc 0) as [->|Hne].
  - destruct (Hr eq_refl) as (r & s2 & Hf & Hrr & Hg2 & Hd). by exists r, s2.
  - by exists rc, s1.
Qed.

(** What [PBSD_modify_resv] says is right when no write fails or an old error is
    [PBSE_PROTOCOL]; the other functions are always right. *)
Definition tells (pbs_errno : Z) (c : call) (s : wsock) : Prop :=
  match c with call_modify_resv _ _ => ws_sound s \/ pbs_errno = PBSE_PROTOCOL | _ => True end.

Lemma modify_delivers user pbs_errno resv_id attrib extend t s :
  sends (request 91 user (encode_DIS_ModifyResv resv_id attrib) extend) t -> idle s ->
  exists rc s', PBSD_modify_resv user pbs_errno resv_id attrib extend s = Some (rc, s') /\ (ws_sound s -> rc = 0) /\
    (rc = 0 -> ws_sound s \/ pbs_errno = PBSE_PROTOCOL -> idle s' /\ wire s' = wire s ++ t).
Proof.
  intros Hm [Ho _]. destruct (setup_idle s Ho) as (s0 & Hset & Hi & Hw & Hs). unfold PBSD_modify_resv. mstep Hset.
  destruct (request_flushed _ t s0 Hm Hi) as (rc & s1 & He & Hg & Hr). rewrite Hw in Hr. mstep He.
  destruct (Z.eqb_spec rc 0) as [->|Hne]; cbn [negb andb].
  - destruct (Hr eq_refl) as (r & s2 & Hf & Hrr & Hg2 & Hd). mstep Hf.
    eexists _, s2. split; [done|]. destruct Hrr as [-> | ->]; [by split; [|intros _ _; apply Hd]|]. split; [|done].
    intros Hs'. by specialize (Hg2 (Hs Hs')).
  - assert (~ ws_sound s) as Hns by (intros Hs'; by apply Hne, Hg, Hs).
    destruct (Z.eqb_spec pbs_errno PBSE_PROTOCOL) as [He'|He'].
    { exists PBSE_PROTOCOL, s1. done. }
    destruct (Hm s0 (proj1 Hi) (proj1 (idle_start s0 Hi))) as (rc' & s1' & Hm' & [Ho1 _] & _).
    rewrite He in Hm'. injection Hm' as <- <-. destruct (wflush_spec s1 Ho1) as (r & s2 & Hf & _). mstep Hf.
    eexists _, s2. split; [done|]. split; [done|]. intros _ [?|?]; done.
Qed.

Lemma missing_given v : v <> [] -> missing (Some v) = false.
Proof. by destruct v. Qed.

Lemma client_delivers user pbs_errno c extend t s :
  call_ok c -> sends (request (fst (request_of c)) user (body c) (extension c extend)) t -> idle s ->
  exists rc s', client user pbs_errno c extend s = Some (rc, s') /\ (ws_sound s -> rc = 0) /\
    (rc = 0 -> tells pbs_errno c s -> idle s' /\ wire s' = wire s ++ t).
Proof.
  intros Hc Hs Hi. assert (forall m, delivers m t -> exists rc s', m s = Some (rc, s') /\ (ws_sound s -> rc = 0) /\
    (rc = 0 -> tells pbs_errno c s -> idle s' /\ wire s' = wire s ++ t)) as Hd.
  { intros m Hm. destruct (Hm s Hi) as (rc & s' & He & Hg & Hr). exists rc, s'. auto. }
  destruct c; cbn [client request_of fst body extension] in *;
    try lazymatch goal with
      | |- context [pbs_connect] => apply Hd; exact (connect_delivers _ _ _ Hs)
      | |- context [PBSD_modify_resv] => exact (modify_delivers _ _ _ _ _ _ s Hs Hi)
      | |- context [issue_register] => apply Hd; exact (issue_delivers _ _ _ _ _ Hs)
      | |- context [issue_track] => apply Hd; exact (issue_delivers _ _ _ _ _ Hs)
      | |- context [pbs_movejob] => idtac
      | |- context [pbs_orderjob] => idtac
      | |- context [pbs_runjob] => idtac
      | |- context [pbs_asyrunjob] => idtac
      | |- context [pbs_stagein] => idtac
      | |- context [pbs_confirmresv] => idtac
      | |- context [pbs_rerunjob] => idtac
      | |- context [pbs_locjob] => idtac
      | |- context [pbs_defschreply] => idtac
      | |- _ => apply Hd; exact (put_delivers _ _ _ _ _ Hs)
      end.
  all: cbn [call_ok] in Hc; split_hyps Hc; apply Hd;
    unfold pbs_movejob, pbs_orderjob, pbs_runjob, pbs_asyrunjob, pbs_stagein, pbs_confirmresv, pbs_rerunjob,
      pbs_locjob, pbs_defschreply;
    rewrite ?missing_given by done; exact (put_delivers _ _ _ _ _ Hs).
Qed.

(** C36. Over any two streams: the request that is encoded for a call is sent, or
    there is an error; and from what was sent [dis_request_read] gets the type,
    the user, the body and the extension that were meant, and nothing of what
    comes after.  Over rpp it reads on where the stream is; else it drops what was
    read ahead first, and the request is what arrives then.  The strings of the call fit
    the arrays of the server ([call_ok]), and no argument of a program to spawn
    is empty: such a one ends the list ([BatchLimits.empty_argument]). *)
Theorem request_roundtrip {W : Type} `{DisWLaws W} {T : Type} `{DisSetupLaws T}
    (fuel : nat) (user : cstring) (c : call) (extend : option cstring) :
  call_ok c -> (call_fuel c <= fuel)%nat -> plain PBS_MAXUSER user -> text_ok (default [] extend) ->
  let meant := Request (fst (request_of c)) user (snd (request_of c)) (kept extend) in
  exists t, sends (S := W) (request (fst (request_of c)) user (body c) extend) t /\
    (forall (s : T) more, holds s [] (t ++ more) ->
       exists s', dis_request_read fuel true s = Some (inr meant, s') /\ holds s' [] more) /\
    (forall (s : T) more, r_ok s -> arriving s = t ++ more ->
       exists s', dis_request_read fuel false s = Some (inr meant, s') /\ holds s' [] more).
Proof.
  intros Hc Hf Hu He. destruct (carries_request (W := W) (T := T) fuel user c extend Hc Hf Hu He) as (t & Ht & Hr).
  exists t. split; [done|]. split; [exact Hr|]. intros s more. by apply setup_reads.
Qed.

Definition sample_call : call :=
  call_queuejob None (Some (lit "workq"))
    [Attropl (lit "Resource_List") (Some (lit "ncpus")) (lit "4") 0; Attropl (lit "Job_Name") None (lit "run") 0].

Lemma sample_ok : call_ok sample_call.
Proof.
  split; [split; vm_compute; (reflexivity || discriminate)|]. split; [split; vm_compute; (reflexivity || discriminate)|].
  split; [|vm_compute; discriminate].
  repeat constructor; try (intros r [= <-]); try (vm_compute; (reflexivity || discriminate)).
Qed.

Lemma user_ok : plain PBS_MAXUSER (lit "me").
Proof. split; vm_compute; (reflexivity || discriminate). Qed.

Import TextStream.

Lemma request_roundtrip_witness :
  call_ok sample_call /\ exists t,
    sends (S := TextStream.wtext) (request 1 (lit "me") (body sample_call) None) t /\
    forall s : rsock, rs_ok s -> net_data (net s) = t ->
      exists s', dis_request_read 0 false s = Some (inr (Request 1 (lit "me") (snd (request_of sample_call)) None), s').
Proof.
  split; [exact sample_ok|].
  assert (text_ok (default [] (None : option cstring))) as He by (split; vm_compute; (reflexivity || discriminate)).
  destruct (request_roundtrip (W := wtext) (T := rsock) 0 (lit "me") sample_call None sample_ok (le_n 0) user_ok He)
    as (t & Ht & _ & Hr).
  exists t. split; [exact Ht|]. intros s Hs Hd. destruct (Hr s [] Hs) as (s' & Hs' & _); [by rewrite app_nil_r|].
  by exists s'.
Defined.

(** C33. Over tcp: on a connection where nothing is waiting, the function of a
    client gives 0 if no write fails, and only when the whole request is on the
    wire ([PBSD_modify_resv] only when no write fails or [pbs_errno] was
    [PBSE_PROTOCOL] before: see [BatchLimits.modify_resv_goes_on]); then nothing is waiting
    again, and the server to which it arrives, in whatever pieces and whatever its
    buffer held before, reads that request. *)
Theorem request_arrives (fuel : nat) (user : cstring) (pbs_errno : Z) (c : call) (extend : option cstring) (s : wsock) :
  call_ok c -> (call_fuel c <= fuel)%nat -> plain PBS_MAXUSER user -> text_ok (default [] extend) ->
  idle s ->
  exists rc s', client user pbs_errno c extend s = Some (rc, s') /\ (ws_sound s -> rc = 0) /\
    (rc = 0 -> tells pbs_errno c s -> idle s' /\ exists sent, wire s' = wire s ++ sent /\
      forall (r : rsock) more, rs_ok r -> net_data (net r) = sent ++ more ->
        exists r', dis_request_read fuel false r
          = Some (inr (Request (fst (request_of c)) user (snd (request_of c)) (kept (extension c extend))), r') /\
          holds r' [] more).
Proof.
  intros Hc Hf Hu He Hi.
  assert (text_ok (default [] (extension c extend))) as He' by (by destruct c).
  destruct (carries_request (W := wsock) (T := rsock) fuel user c _ Hc Hf Hu He') as (t & Hs & Hr).
  destruct (client_delivers user pbs_errno c extend t s Hc Hs Hi) as (rc & s' & Hm & Hg & Hd).
  exists rc, s'. split; [done|]. split; [done|]. intros Hrc Ht. destruct (Hd Hrc Ht) as [Hi' Hw].
  split; [done|]. exists t. split; [done|]. intros r more Hok Hdata. exact (setup_reads fuel t _ r more Hr Hok Hdata).
Qed.

Lemma request_arrives_witness :
  idle (w_setup [Takes 6; Again; Takes 0]) /\ call_ok sample_call /\
  exists rc s', client (lit "me") 0 sample_call None (w_setup [Takes 6; Again; Takes 0]) = Some (rc, s') /\
    (ws_sound (w_setup [Takes 6; Again; Takes 0]) -> rc = 0).
Proof.
  assert (idle (w_setup [Takes 6; Again; Takes 0])) as Hi by (split; [apply w_setup_ok|reflexivity]).
  split; [exact Hi|]. split; [exact sample_ok|].
  assert (text_ok (default [] (None : option cstring))) as He by (split; vm_compute; (reflexivity || discriminate)).
  destruct (request_arrives 0 (lit "me") 0 sample_call None _ sample_ok (le_n 0) user_ok He Hi)
    as (rc & s' & Hm & Hg & _).
  exists rc, s'. split; [exact Hm|exact Hg].
Defined.

End ClientProps.

(** * Requests the server does not read as it should

    Requests, sent by the client's own encoders or made up, which
    [dis_request_read] writes past an array for, takes although there was an
    error, or takes for another request; and what a client's functions do with
    an error.  All by evaluation on texts. *)

Import Dis DisProps Tcp Batch BatchProps Client Calls TextStream.

Module BatchLimits.

(** A request sent and read *)
Definition sent_and_read (reqt : Z) (user : cstring) (body : M wtext Z) : option (option (Z + batch_request)) :=
  match written (request reqt user body None) with
  | Some (0, t) =>
      Some match reading (dis_request_read 10 false) t with Some (r, _) => Some r | None => None end
  | _ => None
  end.

Definition chars (n : nat) : cstring := repeat "a"%char n.

(** ** Arrays *)

(** A user of 257 characters or a job id of 269, as long as the array with its
    null: the null is written after it. *)
Lemma user_overruns : sent_and_read 4 (chars 257) (encode_DIS_JobId (lit "1.s")) = Some None.
Proof. vm_compute. reflexivity. Qed.
Lemma jobid_overruns : sent_and_read 4 (lit "me") (encode_DIS_JobId (chars 269)) = Some None.
Proof. vm_compute. reflexivity. Qed.

(** The destination of a job may have 269 characters, its array 257. *)
Lemma destin_overruns :
  sent_and_read 1 (lit "me") (encode_DIS_QueueJob None (Some (chars 265)) []) = Some None.
Proof. vm_compute. reflexivity. Qed.

(** The header of a request that is made up *)
Definition header (reqt : Z) : cstring :=
  disw_text "+" 2 ++ disw_text "+" 1 ++ disw_text "+" reqt ++ string_text (lit "me").

Definition made_up (reqt : Z) (t : cstring) : option (Z + batch_request) :=
  match reading (dis_request_read 10 false) (header reqt ++ t) with Some (r, _) => Some r | None => None end.

(** An attribute whose name is as long as all its strings were said to be *)
Lemma attribute_overruns :
  made_up 1 (string_text [] ++ string_text [] ++ disw_text "+" 1 ++ disw_text "+" 3 ++ string_text (lit "abc"))
  = None.
Proof. vm_compute. reflexivity. Qed.

(** The key may be as long as the request says; its array has 129 characters. *)
Lemma authkey_overruns :
  made_up 88 (disw_text "+" 1 ++ disw_text "+" 500 ++ string_text (chars 200)) = None.
Proof. vm_compute. reflexivity. Qed.

(** ** Errors that are passed over *)

(** A reservation id that is too long: the error is dropped, the id is empty and
    the extension is read out of the id. *)
Lemma modify_resv_error :
  made_up 91 (disw_text "+" 4 ++ string_text (lit "+0" ++ chars 300))
  = Some (inr (Request 91 (lit "me") (rq_modify 4 [] []) (Some []))).
Proof. vm_compute. reflexivity. Qed.

(** The first list of a selection ends in an error; the second is read from
    there. *)
Lemma select_error :
  let a := Attropl (lit "x") None (lit "y") 0 in
  made_up 16 (disw_text "+" 1 ++ disw_text "+" 1 ++ list_text [a; a] ++ disw_text "+" 0)
  = Some (inr (Request 16 (lit "me") (rq_select [] [to_svr a; to_svr a]) None)).
Proof. vm_compute. reflexivity. Qed.

(** ** Requests that change *)

(** An empty argument ends the arguments: what follows is taken for the
    environment. *)
Lemma empty_argument :
  sent_and_read 84 (lit "me") (encode_DIS_PySpawn (lit "1.s") (Some [lit "a"; []; lit "b"]) None)
  = Some (Some (inr (Request 84 (lit "me") (rq_py_spawn (lit "1.s") [lit "a"] [lit "b"]) None))).
Proof. vm_compute. reflexivity. Qed.

(** Two requests that come together: with the first the second is read into the
    buffer, and dropped when the server begins to read it. *)
Lemma second_request_lost :
  let t := header 17 ++ disw_text "+" 1 ++ disw_text "+" 0 in
  exists first s, dis_request_read 10 false (r_setup [Data "+" (tail (t ++ t))]) = Some (inr first, s) /\
    rq_type first = 17 /\ rs_unread s = t /\ fst <$> dis_request_read 10 false s = Some (inl (-1)).
Proof. eexists _, _. split; [vm_compute; reflexivity|]. vm_compute. done. Qed.

(** ** Errors of the encoders *)

(** [rc = f(...) != 0] keeps only that there was an error. *)
Lemma code_is_lost (s : wtext) : differs (ret DIS_PROTO) s = Some (DIS_OVERFLOW, s).
Proof. reflexivity. Qed.

(** A write fails while the request is encoded and the buffer is full: the
    function goes on, sends the part that was encoded, the beginning of it for
    the second time, and says that all is well. *)
Lemma modify_resv_goes_on :
  let attrs := [Attropl (lit "a") None (chars 900) 0; Attropl (lit "b") None (chars 900) 0] in
  exists s, PBSD_modify_resv (lit "me") PBSE_NONE (Some (lit "R1.s")) attrs None
      (w_setup [Takes 9; WBroken]) = Some (PBSE_NONE, s) /\
    take 20 (wire s) = lit "+2+12+91+2+2+12+91+2" /\
    length (wire s) = 959%nat /\
    PBSD_modify_resv (lit "me") PBSE_PROTOCOL (Some (lit "R1.s")) attrs None
      (w_setup [Takes 9; WBroken]) <> Some (PBSE_NONE, s).
Proof. eexists. split; [vm_compute; reflexivity|]. vm_compute. split; [reflexivity|]. split; [reflexivity|discriminate]. Qed.

End BatchLimits.
