(* ===== verification/Reply.v ===== *)
(** * Replies

    Module [Reply]: [encode_DIS_reply] of the server ([enc_reply.c]), the two
    decoders ([dec_rpyc.c] for commands, [src/server/dis_read.c] for the server) and how a
    command reads the reply on its connection ([int_rdrpy.c]).

    The union [brp_un] is a type with a constructor for each member.  Memory is
    given for what can exist: an array of a negative number of elements is never
    given.  A reply that could not be decoded is dropped, so what is in it is not
    modelled. *)

From Stdlib Require Import ZArith Lia Ascii String.
From S2P Require Import Prelude Dis TcpDis Batch Client.
Import Dis Tcp Batch Client.

Module Reply.

Definition BATCH_REPLY_CHOICE_NULL : Z := 1.
Definition BATCH_REPLY_CHOICE_Queue : Z := 2.
Definition BATCH_REPLY_CHOICE_RdytoCom : Z := 3.
Definition BATCH_REPLY_CHOICE_Commit : Z := 4.
Definition BATCH_REPLY_CHOICE_Select : Z := 5.
Definition BATCH_REPLY_CHOICE_Status : Z := 6.
Definition BATCH_REPLY_CHOICE_Text : Z := 7.
Definition BATCH_REPLY_CHOICE_Locate : Z := 8.
Definition BATCH_REPLY_CHOICE_RescQuery : Z := 9.

(** [struct brp_status] and [struct brp_cmdstat]: the same but for the kind of
    the attributes *)
Record brp_status (A : Type) := Stat { brp_objtype : Z; brp_objname : cstring; brp_attr : list A }.
Arguments Stat {A}.
Arguments brp_objtype {A}.
Arguments brp_objname {A}.
Arguments brp_attr {A}.

(** [brp_un], by the member that [brp_choice] tells *)
Inductive brp_un (A : Type) :=
  | brp_null
  | brp_jid (choice : Z) (jid : cstring)
  | brp_select (jobids : list cstring)
  | brp_statc (l : list (brp_status A))
  | brp_txt (str : option cstring) (txtlen : Z)
  | brp_locate (locate : cstring)
  | brp_rescq (number : Z) (avail alloc resvd down : list Z).
Arguments brp_null {A}.
Arguments brp_jid {A}.
Arguments brp_select {A}.
Arguments brp_statc {A}.
Arguments brp_txt {A}.
Arguments brp_locate {A}.
Arguments brp_rescq {A}.

Record batch_reply (A : Type) := Rply {
  brp_code : Z; brp_auxcode : Z; brp_choice : Z; brp_body : brp_un A }.
Arguments Rply {A}.
Arguments brp_code {A}.
Arguments brp_auxcode {A}.
Arguments brp_choice {A}.
Arguments brp_body {A}.

(** ** The server *)

Section Encode.
Context {S : Type} `{DisW S}.

(** [for (...; (rc == 0); ...) rc = diswui(sock, array[i]);] over the elements *)
Fixpoint encode_ints (ct : nat) (l : list Z) (rc : Z) : M S Z :=
  match ct with
  | O => ret rc
  | Datatypes.S ct =>
      match l with
      | [] => crash
      | x :: l => let* rc := diswui x in if rc =? 0 then encode_ints ct l rc else ret rc
      end
  end.

Fixpoint encode_stats (l : list (brp_status svrattrl)) : M S Z :=
  match l with
  | [] => ret 0
  | p :: l =>
      or_else (diswui (brp_objtype p))
        (or_else (diswst (brp_objname p))
           (or_else (encode_DIS_svrattrl (brp_attr p)) (encode_stats l)))
  end.

(** The switch of [encode_DIS_reply_inner] *)
Definition encode_un (un : brp_un svrattrl) : M S Z :=
  match un with
  | brp_null => ret 0
  | brp_jid _ jid => diswst jid
  | brp_select l => or_else (diswui (Z.of_nat (length l))) (encode_strings l 0)
  | brp_statc l => or_else (diswui (Z.of_nat (length l))) (encode_stats l)
  | brp_txt str txtlen =>
      if (0 <=? txtlen) && (txtlen <=? strlen (default [] str))
      then diswcs (take (Z.to_nat txtlen) (default [] str)) else crash
  | brp_locate l => diswst l
  | brp_rescq ct avail alloc resvd down =>
      or_else (diswui ct)
        (or_else (encode_ints (Z.to_nat ct) avail 0)
           (or_else (encode_ints (Z.to_nat ct) alloc 0)
              (or_else (encode_ints (Z.to_nat ct) resvd 0) (encode_ints (Z.to_nat ct) down 0))))
  end.

Definition encode_DIS_reply_inner (reply : batch_reply svrattrl) : M S Z :=
  or_else (diswsi (brp_code reply))
    (or_else (diswsi (brp_auxcode reply))
       (or_else (diswui (brp_choice reply)) (encode_un (brp_body reply)))).

Definition encode_DIS_reply (reply : batch_reply svrattrl) : M S Z :=
  or_else (diswui PBS_BATCH_PROT_TYPE)
    (or_else (diswui PBS_BATCH_PROT_VER) (encode_DIS_reply_inner reply)).

End Encode.

(** ** Decoding *)

Section Decode.
Context {S : Type} `{DisR S}.

(** [while (ct--)] over job ids *)
Fixpoint decode_select (ct : nat) : R (list cstring) :=
  match ct with
  | O => done []
  | Datatypes.S ct =>
      let! jid := get_fst (PBS_MAXSVRJOBID + 1) (PBS_MAXSVRJOBID + 1) in
      let! l := decode_select ct in
      done (jid :: l)
  end.

Definition objname_size : Z := Z.max PBS_MAXSVRJOBID PBS_MAXDEST + 1.

Fixpoint decode_statc (ct : nat) : R (list (brp_status attropl)) :=
  match ct with
  | O => done []
  | Datatypes.S ct =>
      let! objtype := get_int in
      let! objname := get_fst (PBS_MAXSVRJOBID + 1) objname_size in
      let! attr := decode_DIS_attrl in
      let! l := decode_statc ct in
      done (Stat objtype objname attr :: l)
  end.

(** [for (i = 0; (i < ct) && (rc == 0); ++i) array[i] = disrui(sock, &rc);] *)
Fixpoint decode_ints (ct : nat) : R (list Z) :=
  match ct with
  | O => done []
  | Datatypes.S ct => let! x := get_int in let! l := decode_ints ct in done (x :: l)
  end.

Definition decode_rescq : R (brp_un attropl) :=
  let! ct := get_int in
  if ct <? 0 then fail DIS_NOMALLOC
  else
    let! avail := decode_ints (Z.to_nat ct) in
    let! alloc := decode_ints (Z.to_nat ct) in
    let! resvd := decode_ints (Z.to_nat ct) in
    let! down := decode_ints (Z.to_nat ct) in
    done (brp_rescq ct avail alloc resvd down).

(** The header of a reply: the code, the second code and the choice *)
Definition decode_reply_hdr : R (Z * Z * Z) :=
  let! i := get_int in
  if negb (i =? PBS_BATCH_PROT_TYPE) then fail DIS_PROTO
  else
    let! i := get_int in
    if negb (i =? PBS_BATCH_PROT_VER) then fail DIS_PROTO
    else
      let! code := get disrsi in
      let! auxcode := get disrsi in
      let! choice := get_int in
      done (code, auxcode, choice).

(** The switch of [decode_DIS_replyCmd]; the code of [disrfst] for a job id is
    not looked at. *)
Definition decode_un_cmd (choice : Z) : R (brp_un attropl) :=
  if choice =? BATCH_REPLY_CHOICE_NULL then done brp_null
  else if one_of choice [2; 3; 4] then
    let* (_, jid) := disrfst (PBS_MAXSVRJOBID + 1) (PBS_MAXSVRJOBID + 1) in
    done (brp_jid choice jid)
  else if choice =? BATCH_REPLY_CHOICE_Select then
    let! ct := get disrui in
    let! l := decode_select (Z.to_nat ct) in
    done (brp_select l)
  else if choice =? BATCH_REPLY_CHOICE_Status then
    let! ct := get disrui in
    let! l := decode_statc (Z.to_nat ct) in
    done (brp_statc l)
  else if choice =? BATCH_REPLY_CHOICE_Text then
    let! (str, txtlen) := get_cs in
    done (brp_txt str (int32 txtlen))
  else if choice =? BATCH_REPLY_CHOICE_Locate then
    let! l := get_fst (PBS_MAXDEST + 1) (PBS_MAXDEST + 1) in
    done (brp_locate l)
  else if choice =? BATCH_REPLY_CHOICE_RescQuery then decode_rescq
  else fail (-1).

Definition decode_DIS_replyCmd : R (batch_reply attropl) :=
  let! (code, auxcode, choice) := decode_reply_hdr in
  let! un := decode_un_cmd choice in
  done (Rply code auxcode choice un).

(** The list of objects for the server: the code of the last list of attributes
    counts, and those before it are lost. *)
Fixpoint decode_stats (ct : nat) (rc : Z) : R (list (brp_status svrattrl)) :=
  match ct with
  | O => if rc =? 0 then done [] else fail rc
  | Datatypes.S ct =>
      let! objtype := get_int in
      let! objname := get_fst (PBS_MAXSVRJOBID + 1) objname_size in
      let* (attr, rc) := decode_DIS_svrattrl in
      let! l := decode_stats ct rc in
      done (Stat objtype objname attr :: l)
  end.

(** The switch of [decode_DIS_replySvr] *)
Definition decode_un_svr (choice : Z) : R (brp_un svrattrl) :=
  if choice =? BATCH_REPLY_CHOICE_NULL then done brp_null
  else if one_of choice [2; 3; 4] then
    let! jid := get_fst (PBS_MAXSVRJOBID + 1) (PBS_MAXSVRJOBID + 1) in
    done (brp_jid choice jid)
  else if choice =? BATCH_REPLY_CHOICE_Select then
    let! ct := get disrui in
    let! l := decode_select (Z.to_nat ct) in
    done (brp_select l)
  else if choice =? BATCH_REPLY_CHOICE_Status then
    let! ct := get disrui in
    let! l := decode_stats (Z.to_nat ct) 0 in
    done (brp_statc l)
  else if choice =? BATCH_REPLY_CHOICE_Text then
    let! (str, txtlen) := get_cs in
    done (brp_txt str (int32 txtlen))
  else if choice =? BATCH_REPLY_CHOICE_Locate then
    let! l := get_fst (PBS_MAXDEST + 1) (PBS_MAXDEST + 1) in
    done (brp_locate l)
  else fail (-1).

Definition decode_DIS_replySvr : R (batch_reply svrattrl) :=
  let! (code, auxcode, choice) := decode_reply_hdr in
  let! un := decode_un_svr choice in
  done (Rply code auxcode choice un).

End Decode.

(** ** The connection of a command *)

(** The messages of [dis.c], by their code; there is none for another number. *)
Definition dis_emsg (rc : Z) : option cstring :=
  if (0 <=? rc) && (rc <? 12) then
    nth_error
      [lit "No error"; lit "Input value too large to convert to this type";
       lit "Tried to write floating point infinity"; lit "Negative sign on an unsigned datum";
       lit "Input count or value has leading zero"; lit "Non-digit found where a digit was expected";
       lit "Input string has an embedded ASCII NUL"; lit "Premature end of message";
       lit "Unable to malloc enough space for string"; lit "Supporting protocol failure"; lit "Protocol failure in commit";
       lit "End of File"] (Z.to_nat rc)
  else None.

(** What is known of a connection, and [pbs_errno] *)
Record connection := Conn { ch_errno : Z; ch_errtxt : option cstring; pbs_errno : Z }.

(** [DIS_tcp_setup] and [DIS_tcp_reset] for the read buffer *)
Definition clear_read : M rsock unit := dis_setup.

(** The reply or the code *)
Definition PBSD_rdrpy_sock : R (S := rsock) (batch_reply attropl) :=
  let* _ := clear_read in
  let! reply := decode_DIS_replyCmd in
  let* _ := clear_read in
  done reply.

(** The server reads a reply of another server. *)
Definition DIS_reply_read : R (S := rsock) (batch_reply svrattrl) :=
  let* _ := clear_read in decode_DIS_replySvr.

(** The string up to the first null *)
Fixpoint c_str (s : cstring) : cstring :=
  match s with [] => [] | c :: s => if is_char c NUL then [] else c :: c_str s end.

Definition PBSD_rdrpy : M rsock (option (batch_reply attropl) * connection) :=
  let* r := PBSD_rdrpy_sock in
  match r with
  | inl rc =>
      match dis_emsg rc with
      | None => crash
      | Some msg => ret (None, Conn PBSE_PROTOCOL (Some msg) PBSE_PROTOCOL)
      end
  | inr reply =>
      let text := match brp_body reply with brp_txt str _ => c_str <$> str | _ => None end in
      ret (Some reply, Conn (brp_code reply) text (brp_code reply))
  end.

(** [PBSD_queuejob] after the reply: the job id and [pbs_errno].  A text in
    place of the job id is read as if it were one. *)
Definition queuejob_result (reply : option (batch_reply attropl)) (conn : connection) : option (option cstring * Z) :=
  match reply with
  | None => Some (None, PBSE_PROTOCOL)
  | Some reply =>
      if negb (one_of (brp_choice reply) [0; BATCH_REPLY_CHOICE_Text; BATCH_REPLY_CHOICE_Queue])
      then Some (None, PBSE_PROTOCOL)
      else if ch_errno conn =? 0 then
        match brp_body reply with
        | brp_jid _ jid => Some (Some jid, pbs_errno conn)
        | _ => None
        end
      else Some (None, pbs_errno conn)
  end.

(** [PBSD_select_get] *)
Definition select_result (reply : option (batch_reply attropl)) (conn : connection)
    : option (option (list cstring) * Z) :=
  match reply with
  | None => Some (None, PBSE_PROTOCOL)
  | Some reply =>
      if negb (one_of (brp_choice reply) [BATCH_REPLY_CHOICE_NULL; BATCH_REPLY_CHOICE_Text; BATCH_REPLY_CHOICE_Select])
      then Some (None, PBSE_PROTOCOL)
      else if ch_errno conn =? 0 then
        match brp_body reply with
        | brp_null => Some (Some [], pbs_errno conn)
        | brp_select l => Some (Some l, pbs_errno conn)
        | _ => None
        end
      else Some (None, pbs_errno conn)
  end.

End Reply.
