(* ===== verification/ReplyProps.v ===== *)
(** * A reply that is sent is the reply that is read

    What the server encodes and a command, or a server, decodes: over any two
    streams, and over tcp up to what the command knows of its connection.  At the
    end, replies that are not read as they should be. *)

From Stdlib Require Import ZArith Lia Ascii String.
From S2P Require Import Prelude Dis DisProps TcpDis TcpProps Batch BatchProps Client ClientProps Reply.
Import Dis DisProps Tcp TcpProps Batch BatchProps Client Calls ClientProps Reply.

Module ReplyProps.

(** ** What is sent and what is to come *)

(** An attribute of the server in the form of a command *)
Definition of_svr (a : svrattrl) : attropl :=
  Attropl (al_name a) (if al_rescln a =? 0 then None else Some (default [] (al_resc a))) (al_value a) (al_op a).

Definition svr_ok (a : svrattrl) : Prop := attr_ok (of_svr a).

Definition stat_ok (p : brp_status svrattrl) : Prop :=
  in_int (brp_objtype p) /\ jobid_ok (brp_objname p) /\ Forall svr_ok (brp_attr p) /\
  Z.of_nat (length (brp_attr p)) <= INT_MAX.

(** A reply of which the choice is that of its member and which fits the arrays
    it is read into *)
Definition un_ok (choice : Z) (un : brp_un svrattrl) : Prop :=
  match un with
  | brp_null => choice = BATCH_REPLY_CHOICE_NULL
  | brp_jid c jid => choice = c /\ one_of c [2; 3; 4] = true /\ jobid_ok jid
  | brp_select l =>
      choice = BATCH_REPLY_CHOICE_Select /\ Forall jobid_ok l /\ Z.of_nat (length l) <= INT_MAX
  | brp_statc l =>
      choice = BATCH_REPLY_CHOICE_Status /\ Forall stat_ok l /\ Z.of_nat (length l) <= INT_MAX
  | brp_txt str txtlen =>
      choice = BATCH_REPLY_CHOICE_Text /\ txtlen = strlen (default [] str) /\ txtlen <= INT_MAX
  | brp_locate l => choice = BATCH_REPLY_CHOICE_Locate /\ dest_ok l
  | brp_rescq ct avail alloc resvd down =>
      choice = BATCH_REPLY_CHOICE_RescQuery /\ 0 <= ct <= INT_MAX /\
      Forall (fun l => Z.of_nat (length l) = ct /\ Forall in_int l) [avail; alloc; resvd; down]
  end.

Definition reply_ok (r : batch_reply svrattrl) : Prop :=
  in_int (brp_code r) /\ in_int (brp_auxcode r) /\ un_ok (brp_choice r) (brp_body r).

(** The reply as a command gets it *)
Definition un_cmd (un : brp_un svrattrl) : brp_un attropl :=
  match un with
  | brp_null => brp_null
  | brp_jid c jid => brp_jid c jid
  | brp_select l => brp_select l
  | brp_statc l => brp_statc (map (fun p => Stat (brp_objtype p) (brp_objname p) (map of_svr (brp_attr p))) l)
  | brp_txt str txtlen => brp_txt (Some (default [] str)) txtlen
  | brp_locate l => brp_locate l
  | brp_rescq ct avail alloc resvd down => brp_rescq ct avail alloc resvd down
  end.
Definition to_cmd (r : batch_reply svrattrl) : batch_reply attropl :=
  Rply (brp_code r) (brp_auxcode r) (brp_choice r) (un_cmd (brp_body r)).

(** The reply as a server gets it *)
Definition un_svr (un : brp_un svrattrl) : brp_un svrattrl :=
  match un with
  | brp_statc l =>
      brp_statc (map (fun p => Stat (brp_objtype p) (brp_objname p) (map (fun a => to_svr (of_svr a)) (brp_attr p))) l)
  | brp_txt str txtlen => brp_txt (Some (default [] str)) txtlen
  | un => un
  end.
Definition to_server (r : batch_reply svrattrl) : batch_reply svrattrl :=
  Rply (brp_code r) (brp_auxcode r) (brp_choice r) (un_svr (brp_body r)).

(** ** The parts *)

Lemma fmap_map {A B : Type} (f : A -> B) (l : list A) : f <$> l = map f l.
Proof. induction l as [|a l IH]; cbn; [done|]. by rewrite <-IH. Qed.

Section Parts.
Context {W : Type} `{DisWLaws W} {T : Type} `{DisRLaws T}.

Lemma int_bound (z : Z) : 0 <= z <= INT_MAX -> in_int z.
Proof. unfold in_int, INT_MIN. lia. Qed.

(** A count that is read as an unsigned number *)
Lemma carries_count (n : Z) : 0 <= n <= INT_MAX ->
  sends (S := W) (diswui n) (disw_text "+" n) /\ reads (S := T) (get disrui) (disw_text "+" n) (inr n).
Proof.
  intros Hn. split; [apply sends_ui|apply reads_get_ui]; unfold INT_MAX, UINT_MAX in *; lia.
Qed.

Lemma carries_svrattrl (l : list svrattrl) :
  Forall svr_ok l -> Z.of_nat (length l) <= INT_MAX ->
  sends (S := W) (encode_DIS_svrattrl l) (list_text (map of_svr l)).
Proof.
  intros Hl Hn. assert (Forall attr_ok (map of_svr l)) as Ha by (by apply Forall_map).
  pose proof (sends_list (S := W) (map of_svr l) (fun a => uint32 (op a)) Ha) as Hs.
  rewrite length_map in Hs. unfold encode_DIS_svrattrl.
  assert (map (fun a => (name a, resource a, value a, uint32 (op a))) (map of_svr l)
    = map (fun a => (al_name a, (if al_rescln a =? 0 then None else Some (default [] (al_resc a))),
        al_value a, uint32 (al_op a))) l) as He by (by rewrite map_map).
  rewrite He in Hs. apply Hs; [|done]. intros a Hok. apply uint32_small, Hok.
Qed.

Lemma reads_attrl (l : list attropl) :
  Forall attr_ok l -> Z.of_nat (length l) <= INT_MAX ->
  reads (S := T) decode_DIS_attrl (list_text l) (inr l).
Proof.
  intros Hl Hn. unfold decode_DIS_attrl, decode_DIS_attropl, list_text.
  eapply reads_rbind; [by apply (carries_count (Z.of_nat (length l))); lia|]. rewrite Nat2Z.id.
  by apply reads_attropls.
Qed.

Lemma carries_jobids (l : list cstring) : Forall jobid_ok l -> exists t,
  sends (S := W) (encode_strings l 0) t /\ reads (S := T) (decode_select (length l)) t (inr l).
Proof.
  induction 1 as [|s l Hs _ (t & Ht & Hr)].
  - exists []. split; [apply sends_ret|apply reads_nil].
  - exists (string_text s ++ t). split.
    + cbn [encode_strings]. apply (sends_then _ (fun rc => encode_strings l rc)); [|exact Ht]. send.
    + cbn [length decode_select]. eapply reads_rbind; [read1|]. eapply reads_map; [exact Hr|]. done.
Qed.

Lemma carries_ints (l : list Z) : Forall in_int l -> exists t,
  sends (S := W) (encode_ints (length l) l 0) t /\ reads (S := T) (decode_ints (length l)) t (inr l).
Proof.
  induction 1 as [|z l Hz _ (t & Ht & Hr)].
  - exists []. split; [apply sends_ret|apply reads_nil].
  - exists (disw_text "+" (uint32 z) ++ t). split.
    + cbn [length encode_ints]. apply (sends_then _ (fun rc => encode_ints (length l) l rc)); [|exact Ht]. send.
    + cbn [length decode_ints]. eapply reads_rbind; [read1|]. eapply reads_map; [exact Hr|]. done.
Qed.

(** The objects of a status: one text for both decoders *)
Lemma carries_stats (l : list (brp_status svrattrl)) : Forall stat_ok l -> exists t,
  sends (S := W) (encode_stats l) t /\
  reads (S := T) (decode_statc (length l)) t
    (inr (map (fun p => Stat (brp_objtype p) (brp_objname p) (map of_svr (brp_attr p))) l)) /\
  reads (S := T) (decode_stats (length l) 0) t
    (inr (map (fun p => Stat (brp_objtype p) (brp_objname p)
       (map (fun a => to_svr (of_svr a)) (brp_attr p))) l)).
Proof.
  induction 1 as [|p l (Ht & Hn & Ha & Hl) _ (t & Hs & Hr & Hr2)].
  { exists []. split; [apply sends_ret|]. split; apply reads_nil. }
  assert (Forall attr_ok (map of_svr (brp_attr p))) as Ha' by (by apply Forall_map).
  assert (Z.of_nat (length (map of_svr (brp_attr p))) <= INT_MAX) as Hl' by (by rewrite length_map).
  eexists. split; [cbn [encode_stats]; repeat apply sends_or;
    [send|send|by apply carries_svrattrl|exact Hs]|].
  cbn [length decode_statc decode_stats map]. split.
  - eapply reads_rbind; [by read1|]. eapply reads_rbind; [by read1|].
    eapply reads_rbind; [by apply reads_attrl|]. eapply reads_map; [exact Hr|]. done.
  - eapply reads_rbind; [by read1|]. eapply reads_rbind; [by read1|].
    eapply reads_bind; [by apply reads_svrattrl0|]. cbn beta iota.
    eapply reads_map; [exact Hr2|]. intros s. cbn beta iota.
    by rewrite fmap_map, map_map.
Qed.

(** ** The whole reply *)

Lemma carries_reply_hdr code auxcode choice (m : M W Z) t :
  in_int code -> in_int auxcode -> in_int choice -> sends (S := W) m t -> exists h,
  sends (S := W) (or_else (diswui PBS_BATCH_PROT_TYPE) (or_else (diswui PBS_BATCH_PROT_VER)
     (or_else (diswsi code) (or_else (diswsi auxcode) (or_else (diswui choice) m))))) (h ++ t) /\
  reads (S := T) decode_reply_hdr h (inr (code, auxcode, choice)).
Proof.
  intros Hc Ha Hch Hm.
  exists (disw_text "+" 2 ++ disw_text "+" 1 ++ signed_text code ++ signed_text auxcode
    ++ disw_text "+" (uint32 choice)). split.
  - rewrite <-!app_assoc. apply sends_or; [apply (sends_int 2)|]. apply sends_or; [apply (sends_int 1)|].
    repeat apply sends_or; try done; send.
  - unfold decode_reply_hdr.
    eapply reads_rbind; [apply (reads_get_int 2); split; vm_compute; discriminate|]. cbn beta iota.
    change (negb (2 =? PBS_BATCH_PROT_TYPE)) with false. cbn beta iota.
    eapply reads_rbind; [apply (reads_get_int 1); split; vm_compute; discriminate|]. cbn beta iota.
    change (negb (1 =? PBS_BATCH_PROT_VER)) with false. cbn beta iota. receive.
Qed.

Lemma jid_after (jid : cstring) {A : Type} (f : cstring -> A) :
  jobid_ok jid ->
  reads (S := T)
    (let* (_, v) := disrfst (PBS_MAXSVRJOBID + 1) (PBS_MAXSVRJOBID + 1) in done (f v))
    (string_text jid) (inr (f jid)).
Proof.
  intros [Hz Hl]. assert (PBS_MAXSVRJOBID = 268) as E by done.
  eapply reads_map; [apply reads_disrfst; [unfold INT_MAX; lia|done|lia|lia]|]. done.
Qed.

Lemma in_int_choice (c : Z) : 1 <= c <= 9 -> in_int c.
Proof. intros Hc. apply int_bound. unfold INT_MAX. lia. Qed.

Lemma carries_rescq ct avail alloc resvd down :
  0 <= ct <= INT_MAX ->
  Forall (fun l => Z.of_nat (length l) = ct /\ Forall in_int l) [avail; alloc; resvd; down] -> exists t,
  sends (S := W) (or_else (diswui ct)
    (or_else (encode_ints (Z.to_nat ct) avail 0)
      (or_else (encode_ints (Z.to_nat ct) alloc 0)
        (or_else (encode_ints (Z.to_nat ct) resvd 0) (encode_ints (Z.to_nat ct) down 0))))) t /\
  reads (S := T) decode_rescq t (inr (brp_rescq ct avail alloc resvd down)).
Proof.
  intros Hct Hl. rewrite !Forall_cons in Hl. destruct Hl as ([L1 F1] & [L2 F2] & [L3 F3] & [L4 F4] & _).
  destruct (carries_ints avail F1) as (t1 & S1 & R1), (carries_ints alloc F2) as (t2 & S2 & R2),
    (carries_ints resvd F3) as (t3 & S3 & R3), (carries_ints down F4) as (t4 & S4 & R4).
  apply (f_equal Z.to_nat) in L1, L2, L3, L4. rewrite Nat2Z.id in L1, L2, L3, L4.
  rewrite L1 in *. rewrite L2 in *. rewrite L3 in *. rewrite L4 in *.
  eexists. split; [repeat apply sends_or; [send|exact S1|exact S2|exact S3|exact S4]|].
  unfold decode_rescq. eapply reads_rbind; [by apply reads_get_int, int_bound|].
  assert ((ct <? 0) = false) as -> by lia.
  eapply reads_rbind; [exact R1|]. eapply reads_rbind; [exact R2|]. eapply reads_rbind; [exact R3|].
  eapply reads_map; [exact R4|]. done.
Qed.

(** One text for both decoders of the rest of a reply *)
Definition un_carried (choice : Z) (un : brp_un svrattrl) : Prop :=
  1 <= choice <= 9 /\ exists t, sends (S := W) (encode_un un) t /\
    reads (S := T) (decode_un_cmd choice) t (inr (un_cmd un)) /\
    (choice <> BATCH_REPLY_CHOICE_RescQuery -> reads (S := T) (decode_un_svr choice) t (inr (un_svr un))).

Lemma un_jid c jid : un_ok c (brp_jid c jid) -> un_carried c (brp_jid c jid).
Proof.
  intros (_ & Hch & Hj). pick_type; (split; [lia|]); exists (string_text jid);
    (split; [unfold encode_un; send|]); (split; [by apply (jid_after jid (brp_jid _))|]);
    intros _; unfold decode_un_svr; (eapply reads_map; [eapply reads_fst; [exact Hj|done..]|done]).
Qed.

Lemma un_select l : un_ok 5 (brp_select l) -> un_carried 5 (brp_select l).
Proof.
  intros (_ & Hl & Hn). split; [lia|]. destruct (carries_jobids l Hl) as (t & Ht & Hr).
  destruct (carries_count (Z.of_nat (length l)) ltac:(lia)) as [Sn Rn].
  exists (disw_text "+" (Z.of_nat (length l)) ++ t). split; [by apply sends_or|].
  split; [|intros _]; (eapply reads_rbind; [exact Rn|]); rewrite Nat2Z.id; (eapply reads_map; [exact Hr|done]).
Qed.

Lemma un_stat l : un_ok 6 (brp_statc l) -> un_carried 6 (brp_statc l).
Proof.
  intros (_ & Hl & Hn). split; [lia|]. destruct (carries_stats l Hl) as (t & Ht & Hr & Hr2).
  destruct (carries_count (Z.of_nat (length l)) ltac:(lia)) as [Sn Rn].
  exists (disw_text "+" (Z.of_nat (length l)) ++ t). split; [by apply sends_or|].
  split; [|intros _]; (eapply reads_rbind; [exact Rn|]); rewrite Nat2Z.id;
    [eapply reads_map; [exact Hr|done]|eapply reads_map; [exact Hr2|done]].
Qed.

Lemma un_txt str txtlen : un_ok 7 (brp_txt str txtlen) -> un_carried 7 (brp_txt str txtlen).
Proof.
  intros (_ & -> & Hn). split; [lia|]. pose proof (strlen_pos (default [] str)) as Hp.
  exists (string_text (default [] str)). split.
  - unfold encode_un.
    assert (((0 <=? strlen (default [] str)) && (strlen (default [] str) <=? strlen (default [] str))) = true)
      as -> by lia.
    rewrite take_ge by (unfold strlen; lia). by apply sends_cs.
  - split; [|intros _]; (eapply reads_map; [by apply reads_get_cs|]); intros s; cbn beta iota;
      fold (strlen (default [] str)); rewrite int32_id by (by apply int_bound); done.
Qed.

Lemma un_carries choice un : un_ok choice un -> un_carried choice un.
Proof.
  destruct un as [|c jid|l|l|str txtlen|l|ct avail alloc resvd down]; intros Hu.
  - cbn in Hu. subst choice. split; [vm_compute; split; discriminate|]. exists []. split; [apply sends_ret|].
    split; [|intros _]; apply reads_nil.
  - pose proof Hu as [-> _]. by apply un_jid.
  - pose proof Hu as [-> _]. by apply un_select.
  - pose proof Hu as [-> _]. by apply un_stat.
  - pose proof Hu as [-> _]. by apply un_txt.
  - destruct Hu as [-> Hl]. split; [vm_compute; split; discriminate|]. exists (string_text l).
    split; [unfold encode_un; send|].
    split; [|intros _]; (eapply reads_map; [eapply reads_fst; [exact Hl|done..]|done]).
  - destruct Hu as (-> & Hct & Hl). split; [vm_compute; split; discriminate|].
    destruct (carries_rescq _ _ _ _ _ Hct Hl) as (t & Ht & Hr).
    exists t. split; [exact Ht|]. split; [exact Hr|]. intros Hne. by destruct Hne.
Qed.

Lemma carries_reply r :
  reply_ok r -> exists t, sends (S := W) (encode_DIS_reply r) t /\
    reads (S := T) decode_DIS_replyCmd t (inr (to_cmd r)) /\
    (brp_choice r <> BATCH_REPLY_CHOICE_RescQuery -> reads (S := T) decode_DIS_replySvr t (inr (to_server r))).
Proof.
  destruct r as [code auxcode choice un]. intros (Hc & Ha & Hu).
  cbn [brp_code brp_auxcode brp_choice brp_body] in *.
  destruct (un_carries choice un Hu) as (Hch & t & St & Rt & Rt2).
  destruct (carries_reply_hdr code auxcode choice (encode_un un) t Hc Ha (in_int_choice _ Hch) St)
    as (h & Sh & Rh).
  exists (h ++ t). split; [exact Sh|]. split.
  - unfold decode_DIS_replyCmd. eapply reads_rbind; [exact Rh|]. eapply reads_map; [exact Rt|]. done.
  - intros Hne. unfold decode_DIS_replySvr. eapply reads_rbind; [exact Rh|].
    eapply reads_map; [exact (Rt2 Hne)|]. done.
Qed.

End Parts.

(** ** The theorems *)

(** C37. Over any two streams: the reply the server encodes is sent, or there is
    an error; and from what was sent a command gets the reply, with the
    attributes in its own form, and a server that is not asked for resources gets
    the same reply. *)
Theorem reply_roundtrip {W : Type} `{DisWLaws W} {T : Type} `{DisRLaws T} (r : batch_reply svrattrl) :
  reply_ok r ->
  exists t, sends (S := W) (encode_DIS_reply r) t /\
    reads (S := T) decode_DIS_replyCmd t (inr (to_cmd r)) /\
    (brp_choice r <> BATCH_REPLY_CHOICE_RescQuery -> reads (S := T) decode_DIS_replySvr t (inr (to_server r))).
Proof. apply carries_reply. Qed.

Definition sample_attr : svrattrl := Svrattrl (lit "job_state") None (lit "R") 0 10 0 2.
Definition sample_reply : batch_reply svrattrl :=
  Rply 0 0 BATCH_REPLY_CHOICE_Status (brp_statc [Stat 2 (lit "1.srv") [sample_attr]]).

Lemma sample_reply_ok : reply_ok sample_reply.
Proof.
  split; [split; vm_compute; discriminate|]. split; [split; vm_compute; discriminate|].
  split; [reflexivity|]. split; [|vm_compute; discriminate].
  repeat constructor; try (intros r [=]); try (vm_compute; (reflexivity || discriminate)).
Qed.

Import TextStream.

Lemma reply_roundtrip_witness :
  reply_ok sample_reply /\ exists t,
    sends (S := TextStream.wtext) (encode_DIS_reply sample_reply) t /\
    reads (S := TextStream.rtext) decode_DIS_replyCmd t
      (inr (Rply 0 0 6 (brp_statc [Stat 2 (lit "1.srv") [Attropl (lit "job_state") None (lit "R") 0]]))).
Proof.
  split; [exact sample_reply_ok|].
  destruct (reply_roundtrip (W := TextStream.wtext) (T := TextStream.rtext) sample_reply sample_reply_ok)
    as (t & Ht & Hr & _).
  exists t. split; [exact Ht|exact Hr].
Defined.

(** What [PBSD_rdrpy] leaves of a reply in the connection *)
Definition conn_of (r : batch_reply attropl) : connection :=
  Conn (brp_code r) (match brp_body r with brp_txt str _ => c_str <$> str | _ => None end) (brp_code r).

Lemma clear_holds (s : rsock) :
  rs_ok s -> exists s', clear_read s = Some (tt, s') /\ rs_ok s' /\ net s' = net s /\
    holds s' [] (net_data (net s)).
Proof.
  intros [Ht Hl He Hs]. eexists. split; [done|].
  assert (rs_ok (RSock (DIS_tcp_clear (readbuf s)) (net s))) as Hok by (split; cbn; lia).
  split; [exact Hok|]. split; [done|]. split; [exact Hok|].
  unfold holds. cbn -[net_data]. unfold rs_unread, rs_since, held, taken. cbn -[net_data]. done.
Qed.

Lemma rdrpy_reads (r : batch_reply attropl) (t more : cstring) (s : rsock) :
  reads (S := rsock) decode_DIS_replyCmd t (inr r) -> rs_ok s -> net_data (net s) = t ++ more ->
  exists s', PBSD_rdrpy s = Some ((Some r, conn_of r), s') /\ rs_ok s' /\ tdis_eod (readbuf s') = 0.
Proof.
  intros Rt Hs Hd. destruct (clear_holds s Hs) as (s1 & He1 & _ & _ & Hh). rewrite Hd in Hh.
  destruct (Rt s1 more Hh) as (s2 & He2 & (Hok2 & _)).
  destruct (clear_holds s2 Hok2) as (s3 & He3 & Hok3 & _ & _). exists s3.
  split; [|split; [done|]].
  - unfold PBSD_rdrpy, PBSD_rdrpy_sock, rbind. rewrite bind_bind. mstep He1. mstep He2. mstep He3. done.
  - unfold clear_read in He3. injection He3 as <-. done.
Qed.

(** Over tcp: whatever was left in the buffer, a command that waits for a
    reply gets the one the server has encoded, in whatever pieces it comes, with
    its code in the connection and in [pbs_errno] and its text as the message;
    the buffer is empty afterwards. *)
Theorem reply_arrives (r : batch_reply svrattrl) (s : rsock) (more : cstring) :
  reply_ok r -> rs_ok s ->
  exists t, sends (S := wsock) (encode_DIS_reply r) t /\
    (net_data (net s) = t ++ more -> exists s',
       PBSD_rdrpy s = Some ((Some (to_cmd r), conn_of (to_cmd r)), s') /\ rs_ok s' /\
       tdis_eod (readbuf s') = 0).
Proof.
  intros Hr Hs. destruct (carries_reply (W := wsock) (T := rsock) r Hr) as (t & St & Rt & _). exists t.
  split; [exact St|]. by apply rdrpy_reads.
Qed.

Lemma reply_arrives_witness :
  reply_ok sample_reply /\ rs_ok (r_setup [Data "x" []; Quiet]) /\
  exists t, sends (S := wsock) (encode_DIS_reply sample_reply) t.
Proof.
  assert (rs_ok (r_setup [Data "x" []; Quiet])) as Hs by apply r_setup_ok.
  split; [exact sample_reply_ok|]. split; [exact Hs|].
  destruct (reply_arrives sample_reply (r_setup [Data "x" []; Quiet]) [] sample_reply_ok Hs) as (t & Ht & _).
  exists t. exact Ht.
Defined.

(** A job that was queued: the command gets the id the server gave it. *)
Lemma queuejob_gets_id (jid : cstring) (s : rsock) (more : cstring) :
  jobid_ok jid -> rs_ok s ->
  exists t, sends (S := wsock) (encode_DIS_reply (Rply 0 0 BATCH_REPLY_CHOICE_Queue (brp_jid 2 jid))) t /\
    (net_data (net s) = t ++ more -> exists reply conn s',
       PBSD_rdrpy s = Some ((reply, conn), s') /\ queuejob_result reply conn = Some (Some jid, 0)).
Proof.
  intros Hj Hs.
  assert (reply_ok (Rply 0 0 BATCH_REPLY_CHOICE_Queue (brp_jid 2 jid))) as Hr
    by (repeat (split; [first [done | split; vm_compute; discriminate]|]); exact Hj).
  destruct (carries_reply (W := wsock) (T := rsock) _ Hr) as (t & St & Rt & _). exists t. split; [exact St|].
  intros Hd. destruct (rdrpy_reads _ t more s Rt Hs Hd) as (s' & He & _). eexists _, _, s'.
  split; [exact He|]. done.
Qed.

(** ** Replies that are not read as they should be *)

Definition reply_hdr (choice : Z) : cstring :=
  disw_text "+" 2 ++ disw_text "+" 1 ++ disw_text "+" 0 ++ disw_text "+" 0 ++ disw_text "+" choice.

Definition on_tcp (t : cstring) : rsock :=
  r_setup match t with [] => [] | c :: t => [Data c t] end.

(** A choice that there is not gives -1, and [dis_emsg] is read in front of its
    first element. *)
Lemma unknown_choice : PBSD_rdrpy (on_tcp (reply_hdr 12)) = None.
Proof. vm_compute. reflexivity. Qed.

(** A job id that is too long is an error, which is passed over: the job was
    queued and its id is empty. *)
Lemma long_jobid : exists s reply conn,
  PBSD_rdrpy (on_tcp (reply_hdr 2 ++ string_text (repeat "1"%char 300))) = Some ((reply, conn), s) /\
  queuejob_result reply conn = Some (Some [], 0).
Proof. eexists _, _, _. split; [vm_compute; reflexivity|vm_compute; reflexivity]. Qed.

(** With one character more than fits, the null is written after the array. *)
Lemma reply_overruns :
  reading decode_DIS_replyCmd (reply_hdr 2 ++ string_text (repeat "1"%char 269)) = None.
Proof. vm_compute. reflexivity. Qed.

(** The server passes over an error in the attributes of any object but the
    last: here the first object loses its attribute, and what was left of it is
    taken for the second object. *)
Lemma lost_code : exists r rest,
  reading decode_DIS_replySvr
    (reply_hdr 6 ++ disw_text "+" 2 ++ disw_text "+" 2 ++ string_text (lit "1.s") ++ disw_text "+" 1 ++
     disw_text "+" 1 ++ string_text (lit "+1") ++ lit "z" ++ disw_text "+" 0) = Some (inr r, rest) /\
  brp_body r = brp_statc [Stat 2 (lit "1.s") []; Stat 2 (lit "z") []].
Proof. eexists _, _. split; [vm_compute; reflexivity|reflexivity]. Qed.

(** A text where a job id is expected is read as if it were one. *)
Lemma text_for_jobid :
  queuejob_result (Some (Rply 0 0 BATCH_REPLY_CHOICE_Text (brp_txt (Some (lit "ok")) 2))) (Conn 0 (Some (lit "ok")) 0)
  = None.
Proof. reflexivity. Qed.

End ReplyProps.
