(* ===== verification/JobData.v ===== *)
(** * The server's data: jobs, queues and their counts

    Module [Job]: the constants of [src/include/job.h], [queue.h], [attribute.h]
    and [pbs_error.h], the structures [job], [ajtrkhd] and [pbs_queue], and the
    globals of the server, with the fields the model uses.  A pointer to a job or
    a queue is a key of the heap [jobs] or [queues]; freeing a job deletes its
    key, so a pointer to it is then dangling and using it is [None].  A call of a
    function that is not modelled is recorded in [calls], and its result is taken
    from [answer], a function of all the calls so far. *)

From Stdlib Require Import ZArith Lia Ascii String.
From stdpp Require Import gmap.
From S2P Require Import Prelude Index.

Module Job.

(** ** Constants *)

Definition JOB_STATE_TRANSIT : Z := 0.
Definition JOB_STATE_QUEUED : Z := 1.
Definition JOB_STATE_HELD : Z := 2.
Definition JOB_STATE_WAITING : Z := 3.
Definition JOB_STATE_RUNNING : Z := 4.
Definition JOB_STATE_EXITING : Z := 5.
Definition JOB_STATE_EXPIRED : Z := 6.
Definition JOB_STATE_BEGUN : Z := 7.
Definition JOB_STATE_MOVED : Z := 8.
Definition JOB_STATE_FINISHED : Z := 9.
Definition PBS_NUMJOBSTATE : Z := 10.

Definition JOB_SUBSTATE_TRANSIN : Z := 0.
Definition JOB_SUBSTATE_TRANSICM : Z := 1.
Definition JOB_SUBSTATE_TRNOUT : Z := 2.
Definition JOB_SUBSTATE_QUEUED : Z := 10.
Definition JOB_SUBSTATE_PRESTAGEIN : Z := 11.
Definition JOB_SUBSTATE_STAGECMP : Z := 16.
Definition JOB_SUBSTATE_HELD : Z := 20.
Definition JOB_SUBSTATE_SYNCHOLD : Z := 21.
Definition JOB_SUBSTATE_DEPNHOLD : Z := 22.
Definition JOB_SUBSTATE_WAITING : Z := 30.
Definition JOB_SUBSTATE_RUNNING : Z := 42.
Definition JOB_SUBSTATE_EXITING : Z := 50.
Definition JOB_SUBSTATE_EXITED : Z := 53.
Definition JOB_SUBSTATE_ABORT : Z := 54.
Definition JOB_SUBSTATE_RERUN3 : Z := 63.
Definition JOB_SUBSTATE_BEGUN : Z := 70.
Definition JOB_SUBSTATE_PROVISION : Z := 71.
Definition JOB_SUBSTATE_TERMINATED : Z := 91.
Definition JOB_SUBSTATE_FINISHED : Z := 92.
Definition JOB_SUBSTATE_FAILED : Z := 93.
Definition JOB_SUBSTATE_MOVED : Z := 94.

Definition JOB_SVFLG_HERE : Z := 1.
Definition JOB_SVFLG_Suspend : Z := 512.
Definition JOB_SVFLG_StagedIn : Z := 1024.
Definition JOB_SVFLG_HasNodes : Z := 4096.
Definition JOB_SVFLG_Actsuspd : Z := 16384.
Definition JOB_SVFLG_ArrayJob : Z := 65536.
Definition JOB_SVFLG_SubJob : Z := 131072.

Definition JOB_UNION_TYPE_NEW : Z := 0.
Definition JOB_UNION_TYPE_EXEC : Z := 1.
Definition JOB_UNION_TYPE_ROUTE : Z := 2.

Definition SAVEJOB_QUICK : Z := 0.
Definition SAVEJOB_FULL : Z := 1.
Definition SAVEJOB_NEW : Z := 2.

Definition QTYPE_Execution : Z := 1.
Definition QTYPE_RoutePush : Z := 2.

Definition RESV_UNCONFIRMED : Z := 1.
Definition RESV_TIME_TO_RUN : Z := 4.
Definition RESV_RUNNING : Z := 5.
Definition RESV_JOB_OBJECT : Z := 3.

Definition TKMFLG_NO_DELETE : Z := 1.

Definition SCH_SCHEDULE_NEW : Z := 1.
Definition SCH_SCHEDULE_MVLOCAL : Z := 14.

Definition IS_ARRAY_NO : Z := 0.
Definition IS_ARRAY_ArrayJob : Z := 1.
Definition IS_ARRAY_Single : Z := 2.
Definition IS_ARRAY_Range : Z := 3.

Definition PBS_MAX_ARRAY_JOB_DFL : Z := 10000.
Definition PBS_MAXSVRJOBID : Z := 268.
Definition PBS_MAXSERVERNAME : Z := 255.
Definition PBS_MAXDEST : Z := 256.
Definition PBS_MAXQUEUENAME : Z := 15.
Definition PBS_MAXHOSTNAME : Z := 255.
Definition PBS_DEFAULT_PROJECT : cstring := lit "_pbs_project_default".
Definition LOG_BUF_SIZE : Z := 4096.
Definition SVR_CLEAN_JOBHIST_SECS : Z := 5.

Definition PBSE_NONE : Z := 0.
Definition PBSE_UNKJOBID : Z := 15001.
Definition PBSE_SYSTEM : Z := 15010.
Definition PBSE_BADATVAL : Z := 15014.
Definition PBSE_MODATRRUN : Z := 15015.
Definition PBSE_UNKQUE : Z := 15018.
Definition PBSE_MaxArraySize : Z := 15107.
Definition PBSE_NEEDQUET : Z := 15137.
Definition PBSE_HISTJOBID : Z := 15139.

Definition ATR_VFLAG_SET : Z := 1.
Definition ATR_VFLAG_MODIFY : Z := 2.
Definition ATR_VFLAG_INDIRECT : Z := 16.
Definition ATR_VFLAG_TARGET : Z := 32.
Definition ATR_VFLAG_MODCACHE : Z := 8.

Definition ATR_ACTION_NEW : Z := 1.
Definition ATR_ACTION_ALTER : Z := 2.
Definition ATR_ACTION_RECOV : Z := 3.

(** [enum histjob_type], [enum batch_op] *)
Inductive histjob_type := T_FIN_JOB | T_MOV_JOB | T_MOM_DOWN.
Inductive batch_op := INCR | DECR.

(** [flags & f], as a condition *)
Definition has (flags f : Z) : bool := negb (Z.land flags f =? 0).

(** ** Attributes *)

(** The attributes of a job the model uses ([enum job_atr]) *)
Inductive job_atr :=
  | JOB_ATR_state | JOB_ATR_substate | JOB_ATR_in_queue | JOB_ATR_queuetype | JOB_ATR_project
  | JOB_ATR_qtime | JOB_ATR_etime | JOB_ATR_stime | JOB_ATR_exectime | JOB_ATR_hold
  | JOB_ATR_stagein | JOB_ATR_depend | JOB_ATR_block | JOB_ATR_chkpnt | JOB_ATR_qrank
  | JOB_ATR_array | JOB_ATR_array_indices_submitted | JOB_ATR_array_indices_remaining
  | JOB_ATR_array_state_count | JOB_ATR_Comment
  | JOB_ATR_exit_status | JOB_ATR_stageout_status | JOB_ATR_history_timestamp.

#[export] Instance job_atr_eq_dec : EqDecision job_atr.
Proof. solve_decision. Defined.

(** [struct attribute]; the members of the union [at_val] are separate fields. *)
Record attribute := Attribute { at_flags : Z; at_long : Z; at_char : ascii; at_str : option cstring }.

Definition set_flags (a : attribute) (f : Z) : attribute :=
  {| at_flags := f; at_long := at_long a; at_char := at_char a; at_str := at_str a |}.

(** [at_flags |= f] *)
Definition add_flags (a : attribute) (f : Z) : attribute := set_flags a (Z.lor (at_flags a) f).
(** [at_flags &= ~f] *)
Definition drop_flags (a : attribute) (f : Z) : attribute := set_flags a (Z.ldiff (at_flags a) f).
Definition set_long (a : attribute) (v : Z) : attribute :=
  {| at_flags := at_flags a; at_long := v; at_char := at_char a; at_str := at_str a |}.
Definition set_char (a : attribute) (c : ascii) : attribute :=
  {| at_flags := at_flags a; at_long := at_long a; at_char := c; at_str := at_str a |}.
Definition set_string (a : attribute) (s : option cstring) : attribute :=
  {| at_flags := at_flags a; at_long := at_long a; at_char := at_char a; at_str := s |}.

Definition is_set (a : attribute) : bool := has (at_flags a) ATR_VFLAG_SET.

(** [free_null] and [free_str] *)
Definition free_null (a : attribute) : attribute :=
  {| at_flags := Z.ldiff (at_flags a) (Z.lor ATR_VFLAG_SET (Z.lor ATR_VFLAG_INDIRECT ATR_VFLAG_TARGET));
     at_long := 0; at_char := NUL; at_str := None |}.
Definition free_str (a : attribute) : attribute := set_string (free_null a) None.

(** [decode_str]: an empty text unsets the attribute. *)
Definition decode_str (a : attribute) (val : option cstring) : attribute :=
  match val with
  | Some (c :: s) =>
      add_flags (set_string a (Some (c :: s)))
        (Z.lor ATR_VFLAG_SET (Z.lor ATR_VFLAG_MODIFY ATR_VFLAG_MODCACHE))
  | _ =>
      set_string
        (set_flags a (Z.lor (Z.ldiff (at_flags a) ATR_VFLAG_SET) (Z.lor ATR_VFLAG_MODIFY ATR_VFLAG_MODCACHE)))
        None
  end.

(** ** Array jobs *)

(** [struct ajtrk] *)
Record ajtrk := Ajtrk {
  trk_index : Z; trk_status : Z; trk_error : Z; trk_exitstat : Z; trk_substate : Z; trk_stgout : Z }.

Definition set_status (e : ajtrk) (s : Z) : ajtrk :=
  {| trk_index := trk_index e; trk_status := s; trk_error := trk_error e;
     trk_exitstat := trk_exitstat e; trk_substate := trk_substate e; trk_stgout := trk_stgout e |}.

(** [struct ajtrkhd] *)
Record ajtrkhd := Ajtrkhd {
  tkm_ct : Z; tkm_step : Z; tkm_flags : Z; tkm_subjsct : list Z; tkm_dsubjsct : Z;
  tkm_tbl : list ajtrk }.

Definition set_tbl (t : ajtrkhd) (ct : list Z) (tbl : list ajtrk) : ajtrkhd :=
  {| tkm_ct := tkm_ct t; tkm_step := tkm_step t; tkm_flags := tkm_flags t;
     tkm_subjsct := ct; tkm_dsubjsct := tkm_dsubjsct t; tkm_tbl := tbl |}.

(** ** Jobs and queues *)

Abbreviation ptr := positive.

(** [struct resc_resv], the part [svr_evaljobstate] reads *)
Record resc_resv := Resv { ri_type : Z; ri_state : Z; ri_stime : Z; ri_etime : Z }.

(** [struct jobfix], the fixed part of a job; the members of the union [ji_un]
    are separate fields. *)
Record jobfix := Jobfix {
  ji_jobid : cstring; ji_state : Z; ji_substate : Z; ji_svrflags : Z;
  ji_queue : cstring; ji_destin : cstring;
  ji_un_type : Z; ji_momaddr : Z; ji_momport : Z; ji_exitstat : Z;
  ji_quetime : Z; ji_rteretry : Z }.

Definition set_state (q : jobfix) (s sub : Z) : jobfix :=
  {| ji_jobid := ji_jobid q; ji_state := s; ji_substate := sub; ji_svrflags := ji_svrflags q;
     ji_queue := ji_queue q; ji_destin := ji_destin q;
     ji_un_type := ji_un_type q; ji_momaddr := ji_momaddr q; ji_momport := ji_momport q;
     ji_exitstat := ji_exitstat q; ji_quetime := ji_quetime q; ji_rteretry := ji_rteretry q |}.
Definition set_svrflags (q : jobfix) (f : Z) : jobfix :=
  {| ji_jobid := ji_jobid q; ji_state := ji_state q; ji_substate := ji_substate q; ji_svrflags := f;
     ji_queue := ji_queue q; ji_destin := ji_destin q;
     ji_un_type := ji_un_type q; ji_momaddr := ji_momaddr q; ji_momport := ji_momport q;
     ji_exitstat := ji_exitstat q; ji_quetime := ji_quetime q; ji_rteretry := ji_rteretry q |}.
Definition set_queue (q : jobfix) (queue destin : cstring) : jobfix :=
  {| ji_jobid := ji_jobid q; ji_state := ji_state q; ji_substate := ji_substate q;
     ji_svrflags := ji_svrflags q; ji_queue := queue; ji_destin := destin;
     ji_un_type := ji_un_type q; ji_momaddr := ji_momaddr q; ji_momport := ji_momport q;
     ji_exitstat := ji_exitstat q; ji_quetime := ji_quetime q; ji_rteretry := ji_rteretry q |}.

(** The members [ji_exect] and [ji_routet] of the union *)
Definition set_exect (q : jobfix) (addr port exitstat : Z) : jobfix :=
  {| ji_jobid := ji_jobid q; ji_state := ji_state q; ji_substate := ji_substate q;
     ji_svrflags := ji_svrflags q; ji_queue := ji_queue q; ji_destin := ji_destin q;
     ji_un_type := JOB_UNION_TYPE_EXEC; ji_momaddr := addr; ji_momport := port;
     ji_exitstat := exitstat; ji_quetime := ji_quetime q; ji_rteretry := ji_rteretry q |}.
Definition set_routet (q : jobfix) (quetime rteretry : Z) : jobfix :=
  {| ji_jobid := ji_jobid q; ji_state := ji_state q; ji_substate := ji_substate q;
     ji_svrflags := ji_svrflags q; ji_queue := ji_queue q; ji_destin := ji_destin q;
     ji_un_type := JOB_UNION_TYPE_ROUTE; ji_momaddr := ji_momaddr q; ji_momport := ji_momport q;
     ji_exitstat := ji_exitstat q; ji_quetime := quetime; ji_rteretry := rteretry |}.

(** [struct job]; [ji_rerun_preq] says whether the pointer is set. *)
Record job := MkJob {
  ji_qs : jobfix; ji_qhdr : option ptr; ji_resvp : option resc_resv;
  ji_parentaj : option ptr; ji_ajtrk : option ajtrkhd; ji_subjindx : Z;
  ji_modified : bool; ji_newjob : bool; ji_terminated : bool; ji_deletehistory : bool;
  ji_rerun_preq : bool; ji_wattr : job_atr -> attribute }.

Definition set_qs (j : job) (q : jobfix) : job :=
  {| ji_qs := q; ji_qhdr := ji_qhdr j; ji_resvp := ji_resvp j; ji_parentaj := ji_parentaj j;
     ji_ajtrk := ji_ajtrk j; ji_subjindx := ji_subjindx j; ji_modified := ji_modified j;
     ji_newjob := ji_newjob j; ji_terminated := ji_terminated j;
     ji_deletehistory := ji_deletehistory j; ji_rerun_preq := ji_rerun_preq j;
     ji_wattr := ji_wattr j |}.
Definition set_qhdr (j : job) (q : option ptr) : job :=
  {| ji_qs := ji_qs j; ji_qhdr := q; ji_resvp := ji_resvp j; ji_parentaj := ji_parentaj j;
     ji_ajtrk := ji_ajtrk j; ji_subjindx := ji_subjindx j; ji_modified := ji_modified j;
     ji_newjob := ji_newjob j; ji_terminated := ji_terminated j;
     ji_deletehistory := ji_deletehistory j; ji_rerun_preq := ji_rerun_preq j;
     ji_wattr := ji_wattr j |}.
Definition set_ajtrk (j : job) (t : option ajtrkhd) : job :=
  {| ji_qs := ji_qs j; ji_qhdr := ji_qhdr j; ji_resvp := ji_resvp j; ji_parentaj := ji_parentaj j;
     ji_ajtrk := t; ji_subjindx := ji_subjindx j; ji_modified := ji_modified j;
     ji_newjob := ji_newjob j; ji_terminated := ji_terminated j;
     ji_deletehistory := ji_deletehistory j; ji_rerun_preq := ji_rerun_preq j;
     ji_wattr := ji_wattr j |}.
Definition set_modified (j : job) (b : bool) : job :=
  {| ji_qs := ji_qs j; ji_qhdr := ji_qhdr j; ji_resvp := ji_resvp j; ji_parentaj := ji_parentaj j;
     ji_ajtrk := ji_ajtrk j; ji_subjindx := ji_subjindx j; ji_modified := b;
     ji_newjob := ji_newjob j; ji_terminated := ji_terminated j;
     ji_deletehistory := ji_deletehistory j; ji_rerun_preq := ji_rerun_preq j;
     ji_wattr := ji_wattr j |}.
Definition set_rerun_preq (j : job) (b : bool) : job :=
  {| ji_qs := ji_qs j; ji_qhdr := ji_qhdr j; ji_resvp := ji_resvp j; ji_parentaj := ji_parentaj j;
     ji_ajtrk := ji_ajtrk j; ji_subjindx := ji_subjindx j; ji_modified := ji_modified j;
     ji_newjob := ji_newjob j; ji_terminated := ji_terminated j;
     ji_deletehistory := ji_deletehistory j; ji_rerun_preq := b; ji_wattr := ji_wattr j |}.

(** [ji_wattr[a] = f(ji_wattr[a])] *)
Definition upd_attr (j : job) (a : job_atr) (f : attribute -> attribute) : job :=
  {| ji_qs := ji_qs j; ji_qhdr := ji_qhdr j; ji_resvp := ji_resvp j; ji_parentaj := ji_parentaj j;
     ji_ajtrk := ji_ajtrk j; ji_subjindx := ji_subjindx j; ji_modified := ji_modified j;
     ji_newjob := ji_newjob j; ji_terminated := ji_terminated j;
     ji_deletehistory := ji_deletehistory j; ji_rerun_preq := ji_rerun_preq j;
     ji_wattr := fun b => if decide (a = b) then f (ji_wattr j b) else ji_wattr j b |}.

Definition atr (j : job) (a : job_atr) : attribute := ji_wattr j a.
Definition flag (j : job) (f : Z) : bool := has (ji_svrflags (ji_qs j)) f.
Definition state (j : job) : Z := ji_state (ji_qs j).
Definition substate (j : job) : Z := ji_substate (ji_qs j).
Definition jobid (j : job) : cstring := ji_jobid (ji_qs j).

(** [(unsigned long)ji_wattr[JOB_ATR_qrank].at_val.at_long] *)
Definition qrank (j : job) : Z := uint64 (at_long (atr j JOB_ATR_qrank)).

(** [struct pbs_queue]; [qu_jobs] is the list of its jobs. *)
Record pbs_queue := Queue {
  qu_name : cstring; qu_type : Z; qu_numjobs : Z; qu_njstate : list Z; qu_jobs : list ptr;
  QA_ATR_QType : option cstring; QE_ATR_ChkptMim : attribute }.

Definition set_counts (q : pbs_queue) (n : Z) (ct : list Z) (l : list ptr) : pbs_queue :=
  {| qu_name := qu_name q; qu_type := qu_type q; qu_numjobs := n; qu_njstate := ct; qu_jobs := l;
     QA_ATR_QType := QA_ATR_QType q; QE_ATR_ChkptMim := QE_ATR_ChkptMim q |}.

(** ** Functions that are called and not modelled *)

Inductive call :=
  | C_job_save (p : ptr) (mode : Z)
  | C_account (p : ptr) (what : cstring)
  | C_mail (p : ptr)
  | C_entity (f : cstring) (p : ptr) (q : option ptr) (op : batch_op)
  | C_notify_scheduler (p : ptr) (cmd : Z)
  | C_update_resv (p : ptr)
  | C_accrue (p : ptr)
  | C_set_resc_deflt (p : ptr)
  | C_clear_default_resc (p : ptr)
  | C_depend_on_que (p : ptr)
  | C_depend_on_term (p : ptr)
  | C_block_reply (p : ptr) (port : Z)
  | C_issue_track (p : ptr)
  | C_issue_signal (p : ptr)
  | C_reject_rerun (p : ptr)
  | C_delete_tasks (p : ptr)
  | C_remove_files (p : ptr)
  | C_db_delete (id : cstring)
  | C_free_nodes (p : ptr)
  | C_delete_resv (p : ptr)
  | C_get_used_wall (p : ptr)
  | C_time
  | C_set_task (time : Z).

(** ** The server *)

Section World.
(** The index of job ids *)
Context {I : Type} `{Index I ptr}.

(** [server_name], [server], the lists and the globals of
    [src/server/pbsd_main.c]; [sv_attr] is what the model uses of the attributes
    of the server. *)
Record sv_attr := SvAttr {
  server_name : cstring; time_now : Z; svr_history_enable : Z; svr_history_duration : Z;
  SRV_ATR_EligibleTimeEnable : Z; SRV_ATR_scheduling : Z; SRV_ATR_State : Z;
  SVR_ATR_maxarraysize : option Z }.

Record world := World {
  jobs : gmap ptr job; queues : gmap ptr pbs_queue;
  svr_queues : list ptr; svr_alljobs : list ptr; svr_newjobs : list ptr; svr_unlicensedjobs : list ptr;
  sv_numjobs : Z; sv_jobstates : list Z;
  AVL_jctx : option I; sv : sv_attr; cvt_buflen : Z; calls : list call }.

Implicit Types (w : world) (p : ptr).

Definition set_jobs w (m : gmap ptr job) : world :=
  {| jobs := m; queues := queues w; svr_queues := svr_queues w; svr_alljobs := svr_alljobs w;
     svr_newjobs := svr_newjobs w; svr_unlicensedjobs := svr_unlicensedjobs w;
     sv_numjobs := sv_numjobs w; sv_jobstates := sv_jobstates w; AVL_jctx := AVL_jctx w;
     sv := sv w; cvt_buflen := cvt_buflen w; calls := calls w |}.
Definition set_queues w (m : gmap ptr pbs_queue) : world :=
  {| jobs := jobs w; queues := m; svr_queues := svr_queues w; svr_alljobs := svr_alljobs w;
     svr_newjobs := svr_newjobs w; svr_unlicensedjobs := svr_unlicensedjobs w;
     sv_numjobs := sv_numjobs w; sv_jobstates := sv_jobstates w; AVL_jctx := AVL_jctx w;
     sv := sv w; cvt_buflen := cvt_buflen w; calls := calls w |}.
Definition set_lists w (all new unlic : list ptr) : world :=
  {| jobs := jobs w; queues := queues w; svr_queues := svr_queues w; svr_alljobs := all;
     svr_newjobs := new; svr_unlicensedjobs := unlic;
     sv_numjobs := sv_numjobs w; sv_jobstates := sv_jobstates w; AVL_jctx := AVL_jctx w;
     sv := sv w; cvt_buflen := cvt_buflen w; calls := calls w |}.
Definition set_sv_counts w (n : Z) (ct : list Z) : world :=
  {| jobs := jobs w; queues := queues w; svr_queues := svr_queues w; svr_alljobs := svr_alljobs w;
     svr_newjobs := svr_newjobs w; svr_unlicensedjobs := svr_unlicensedjobs w;
     sv_numjobs := n; sv_jobstates := ct; AVL_jctx := AVL_jctx w; sv := sv w; cvt_buflen := cvt_buflen w; calls := calls w |}.
Definition set_ctx w (ctx : option I) : world :=
  {| jobs := jobs w; queues := queues w; svr_queues := svr_queues w; svr_alljobs := svr_alljobs w;
     svr_newjobs := svr_newjobs w; svr_unlicensedjobs := svr_unlicensedjobs w;
     sv_numjobs := sv_numjobs w; sv_jobstates := sv_jobstates w; AVL_jctx := ctx;
     sv := sv w; cvt_buflen := cvt_buflen w; calls := calls w |}.
(** The size of the static buffer of [cvt_range] *)
Definition set_buflen w (n : Z) : world :=
  {| jobs := jobs w; queues := queues w; svr_queues := svr_queues w; svr_alljobs := svr_alljobs w;
     svr_newjobs := svr_newjobs w; svr_unlicensedjobs := svr_unlicensedjobs w;
     sv_numjobs := sv_numjobs w; sv_jobstates := sv_jobstates w; AVL_jctx := AVL_jctx w;
     sv := sv w; cvt_buflen := n; calls := calls w |}.
Definition add_call w (c : call) : world :=
  {| jobs := jobs w; queues := queues w; svr_queues := svr_queues w; svr_alljobs := svr_alljobs w;
     svr_newjobs := svr_newjobs w; svr_unlicensedjobs := svr_unlicensedjobs w;
     sv_numjobs := sv_numjobs w; sv_jobstates := sv_jobstates w; AVL_jctx := AVL_jctx w;
     sv := sv w; cvt_buflen := cvt_buflen w; calls := c :: calls w |}.

(** ** Reading and writing *)

Definition the_world : M world world := fun w => Some (w, w).
Definition modify (f : world -> world) : M world unit := fun w => Some (tt, f w).
(** A value that may be absent: a NULL pointer followed, an access outside an array *)
Definition need {A : Type} (o : option A) : M world A :=
  match o with Some a => ret a | None => crash end.

Definition get_job p : M world job := fun w => match jobs w !! p with Some j => Some (j, w) | None => None end.
Definition get_queue p : M world pbs_queue :=
  fun w => match queues w !! p with Some q => Some (q, w) | None => None end.

Definition put_job p (j : job) : M world unit := fun w =>
  match jobs w !! p with Some _ => Some (tt, set_jobs w (<[p := j]> (jobs w))) | None => None end.
Definition put_queue p (q : pbs_queue) : M world unit := fun w =>
  match queues w !! p with Some _ => Some (tt, set_queues w (<[p := q]> (queues w))) | None => None end.

Definition on_job p (f : job -> job) : M world unit := let* j := get_job p in put_job p (f j).
Definition on_queue p (f : pbs_queue -> pbs_queue) : M world unit := let* q := get_queue p in put_queue p (f q).
Definition on_attr p (a : job_atr) (f : attribute -> attribute) : M world unit :=
  on_job p (fun j => upd_attr j a f).

(** A call of a function that is not modelled *)
Definition call_ (c : call) : M world unit := modify (fun w => add_call w c).

Context (answer : list call -> Z).

Definition ask (c : call) : M world Z :=
  let* _ := call_ c in let* w := the_world in ret (answer (calls w)).

(** [if (c) m] *)
Definition when (c : bool) (m : M world unit) : M world unit := if c then m else ret tt.

(** [ct[s] += d] *)
Definition bump (ct : list Z) (s d : Z) : option (list Z) := n ← rd ct s; wr ct s (int32 (n + d)).

End World.

Arguments world : clear implicits.

End Job.

(** * Counters by state

    The server counts jobs by state in [sv_jobstates] and [qu_njstate], and an
    array job its subjobs in [tkm_subjsct]; all three are updated by decrementing
    one counter and incrementing another.  [counts_ok] says that such counters
    are those of a list, and the lemmas what [Job.bump] does when the list
    changes. *)

Import Job.

Module Counters.

(** ** Arrays *)

Lemma rd_wr {A : Type} (ct ct' : list A) (s s' : Z) (v : A) :
  wr ct s v = Some ct' -> 0 <= s' -> rd ct' s' = if s' =? s then Some v else rd ct s'.
Proof.
  unfold wr, rd. case_if; [|done]. intros [= <-] Hs'. rewrite (proj2 (Z.ltb_ge s' 0)) by done.
  destruct (Z.eqb_spec s' s) as [->|Hne].
  - apply list_lookup_insert_eq. lia.
  - apply list_lookup_insert_ne. lia.
Qed.

Lemma wr_length {A : Type} (ct ct' : list A) (s : Z) (v : A) : wr ct s v = Some ct' -> length ct' = length ct.
Proof. unfold wr. case_if; [|done]. intros [= <-]. apply length_insert. Qed.

Lemma rd_lookup {A : Type} (ct : list A) (s : Z) (v : A) :
  rd ct s = Some v <-> 0 <= s /\ ct !! Z.to_nat s = Some v.
Proof. unfold rd. case_if; [split; [done|lia]|]. split; [done|tauto]. Qed.

(** What [bump] does to counters whose values stay in range *)
Lemma bump_spec (ct : list Z) (s d n : Z) :
  rd ct s = Some n -> in_int (n + d) ->
  exists ct', bump ct s d = Some ct' /\ length ct' = length ct /\
    forall s', 0 <= s' -> rd ct' s' = if s' =? s then Some (n + d) else rd ct s'.
Proof.
  intros Hn Hd. unfold bump. rewrite Hn. cbn [mbind option_bind]. rewrite int32_id by done.
  apply rd_lookup in Hn as [Hs Hn]. apply lookup_lt_Some in Hn as Hlt.
  destruct (wr ct s (n + d)) as [ct'|] eqn:Hw.
  - exists ct'. split; [done|]. split; [by eapply wr_length|]. intros s' Hs'. by eapply rd_wr.
  - rewrite wr_in in Hw by lia. done.
Qed.

(** ** Counting *)

Section Tally.
Context {A : Type}.
Implicit Types (f g : A -> option Z) (l r : list A) (a b : A) (s : Z).

(** How many of a list are in a state *)
Definition tally f l s : Z := Z.of_nat (length (filter (fun a => f a = Some s) l)).

Lemma tally_cons f a l s : tally f (a :: l) s = (if bool_decide (f a = Some s) then 1 else 0) + tally f l s.
Proof.
  unfold tally. rewrite filter_cons.
  destruct (decide (f a = Some s)) as [E|E];
    [rewrite bool_decide_true by done|rewrite bool_decide_false by done]; cbn; lia.
Qed.

Lemma tally_perm f l l' s : l ≡ₚ l' -> tally f l s = tally f l' s.
Proof. intros Hl. unfold tally. by rewrite Hl. Qed.

Lemma tally_ext f g l s : (forall a, a ∈ l -> f a = g a) -> tally f l s = tally g l s.
Proof.
  induction l as [|a l IH]; intros Hfg; [done|].
  rewrite !tally_cons, IH by (intros; apply Hfg; by right). by rewrite (Hfg a) by left.
Qed.

Lemma tally_range f l s : 0 <= tally f l s <= Z.of_nat (length l).
Proof. unfold tally. pose proof (length_filter (fun a => f a = Some s) l). lia. Qed.

(** The number [n] and the counters [ct] are those of [l]. *)
Record counts_ok (n : Z) (ct : list Z) f l : Prop := {
  co_num : n = Z.of_nat (length l);
  co_max : Z.of_nat (length l) <= INT_MAX;
  co_len : length ct = Z.to_nat PBS_NUMJOBSTATE;
  co_state : forall s, 0 <= s < PBS_NUMJOBSTATE -> rd ct s = Some (tally f l s) }.

Lemma counts_ext n ct f g l : (forall a, a ∈ l -> f a = g a) -> counts_ok n ct f l -> counts_ok n ct g l.
Proof.
  intros Hfg [H1 H2 H3 H4]. constructor; [done..|]. intros s Hs. rewrite H4 by done. f_equal. by apply tally_ext.
Qed.

(** Something enters the list. *)
Lemma counts_add n ct f l l' a s :
  counts_ok n ct f l -> l' ≡ₚ a :: l -> Z.of_nat (length l') <= INT_MAX ->
  f a = Some s -> 0 <= s < PBS_NUMJOBSTATE ->
  exists ct', bump ct s 1 = Some ct' /\ counts_ok (int32 (n + 1)) ct' f l'.
Proof.
  intros [Hn Hm Hl Hs] Hp Hmax Hf Hr.
  assert (length l' = S (length l)) as Hlen by (by rewrite Hp).
  pose proof (tally_range f l s) as Ht.
  destruct (bump_spec ct s 1 (tally f l s)) as (ct' & Hb & Hl' & Hrd);
    [by apply Hs|unfold in_int, INT_MAX, INT_MIN in *; lia|].
  exists ct'. split; [done|]. constructor; [|done|congruence|].
  - rewrite int32_id by (unfold in_int, INT_MAX, INT_MIN in *; lia). lia.
  - intros s' Hs'. rewrite Hrd by lia. rewrite (tally_perm f l' _ s' Hp), tally_cons, Hf.
    destruct (Z.eqb_spec s' s) as [->|Hne].
    + rewrite bool_decide_true by done. f_equal. lia.
    + rewrite bool_decide_false by congruence. by rewrite Hs.
Qed.

(** Something leaves it. *)
Lemma counts_drop n ct f l r a s :
  counts_ok n ct f l -> l ≡ₚ a :: r -> f a = Some s -> 0 <= s < PBS_NUMJOBSTATE ->
  exists ct', bump ct s (-1) = Some ct' /\ counts_ok (int32 (n + -1)) ct' f r.
Proof.
  intros [Hn Hm Hl Hs] Hperm Hf Hr.
  assert (length l = S (length r)) as Hlen by (by rewrite Hperm).
  assert (tally f l s = 1 + tally f r s) as Hts.
  { by rewrite (tally_perm f l _ s Hperm), tally_cons, bool_decide_true. }
  pose proof (tally_range f r s) as Ht.
  destruct (bump_spec ct s (-1) (tally f l s)) as (ct' & Hb & Hl' & Hrd);
    [by apply Hs|unfold in_int, INT_MAX, INT_MIN in *; lia|].
  exists ct'. split; [done|]. constructor; [|lia|congruence|].
  - rewrite int32_id by (unfold in_int, INT_MAX, INT_MIN in *; lia). lia.
  - intros s' Hs'. rewrite Hrd by lia. destruct (Z.eqb_spec s' s) as [->|Hne].
    + f_equal. lia.
    + rewrite Hs by done. rewrite (tally_perm f l _ s' Hperm), tally_cons, Hf.
      by rewrite bool_decide_false by congruence.
Qed.

(** Something in it changes its state: [a] becomes [b]. *)
Lemma counts_move n ct f g l l' r a b old new :
  counts_ok n ct f l -> l ≡ₚ a :: r -> l' ≡ₚ b :: r -> (forall x, x ∈ r -> f x = g x) ->
  f a = Some old -> g b = Some new ->
  0 <= old < PBS_NUMJOBSTATE -> 0 <= new < PBS_NUMJOBSTATE ->
  exists ct1 ct2, bump ct old (-1) = Some ct1 /\ bump ct1 new 1 = Some ct2 /\ counts_ok n ct2 g l'.
Proof.
  intros Hc Hl Hl' Hfg Hf Hg Ho Hnw.
  assert (length l' = length l) as Hlen by (by rewrite Hl, Hl').
  pose proof (co_num _ _ _ _ Hc) as Hn. pose proof (co_max _ _ _ _ Hc) as Hmax.
  destruct (counts_drop _ _ _ _ _ _ _ Hc Hl Hf Ho) as (ct1 & Hb1 & Hc1).
  apply (counts_ext _ _ _ g) in Hc1; [|done].
  destruct (counts_add _ _ _ _ l' b new Hc1 Hl') as (ct2 & Hb2 & [_ H2 H3 H4]); [lia|done|done|].
  exists ct1, ct2. split; [done|]. split; [done|]. constructor; [lia|done..].
Qed.

(** Counters are not negative. *)
Lemma counts_nonneg n ct f l s : counts_ok n ct f l -> 0 <= s < PBS_NUMJOBSTATE ->
  exists k, rd ct s = Some k /\ 0 <= k <= INT_MAX.
Proof.
  intros [H1 H2 H3 H4] Hs. exists (tally f l s). split; [by apply H4|]. pose proof (tally_range f l s). lia.
Qed.

(** The counters of nothing *)
Lemma counts_nil f : counts_ok 0 (replicate (Z.to_nat PBS_NUMJOBSTATE) 0) f [].
Proof.
  constructor; [done..| |].
  - by rewrite length_replicate.
  - intros s Hs. apply rd_lookup. split; [lia|]. apply lookup_replicate. split; [done|].
    unfold PBS_NUMJOBSTATE in *. lia.
Qed.

End Tally.

(** An element of an array, and the rest *)
Lemma insert_perm {A : Type} (l : list A) (i : nat) (a b : A) :
  l !! i = Some a -> exists r, l ≡ₚ a :: r /\ <[i := b]> l ≡ₚ b :: r.
Proof.
  intros Hi. exists (take i l ++ drop (S i) l). split.
  - rewrite <- (take_drop_middle l i a Hi) at 1. by rewrite Permutation_middle.
  - rewrite insert_take_drop by (by eapply lookup_lt_Some). by rewrite Permutation_middle.
Qed.

End Counters.
