(* ===== verification/SubjobTable.v ===== *)
(** * Array jobs: the table of subjobs and index ranges as text

    Module [Subjobs]: the functions of [src/server/array_func.c] on the tracking
    table of an array job ([struct ajtrkhd]), on the texts of index ranges and on
    the ids of subjobs, and the check of a range in a command,
    [src/lib/Libcmds/chk_Jrange.c].  [None] is an access outside the table or
    outside the buffer a text is written to. *)

From Stdlib Require Import ZArith Lia Ascii String.
From stdpp Require Import gmap.
From S2P Require Import Prelude JobData.
Import Job.

Module Subjobs.

(** ** C strings *)

(** [strchr(s, c)]: the suffix that starts with [c] *)
Fixpoint strchr (s : cstring) (c : ascii) : option cstring :=
  match s with
  | [] => None
  | d :: s' => if is_char d c then Some s else strchr s' c
  end.

(** The characters before the suffix [pce] of [s] *)
Definition before (s pce : cstring) : cstring := take (length s - length pce) s.

Fixpoint skip_digits (s : cstring) : cstring :=
  match s with
  | c :: s' => if isdigit c then skip_digits s' else s
  | [] => []
  end.

(** [atoi(s)] *)
Definition atoi (s : cstring) : Z := int32 (fst (strtol10 s)).

(** ** Job ids *)

Definition is_job_array (id : cstring) : Z :=
  match strchr id "["%char with
  | None => IS_ARRAY_NO
  | Some pc =>
      let pc := tl pc in
      if is_char (deref pc) "]"%char then IS_ARRAY_ArrayJob
      else
        let pc := skip_digits pc in
        if is_char (deref pc) "-"%char || is_char (deref pc) ","%char
        then IS_ARRAY_Range else IS_ARRAY_Single
  end.

Definition get_index_from_jid (newjid : cstring) : option cstring :=
  match strchr newjid "["%char, strchr newjid "]"%char with
  | Some pcb, Some pce =>
      (* pce <= pcb *)
      if (length pcb <=? length pce)%nat then None else Some (before (tl pcb) pce)
  | _, _ => None
  end.

(** The id [find_arrayparent] looks for.  The loop copies up to the opening
    bracket; for an id without one it leaves the buffer. *)
Definition parent_id (subjobid : cstring) : option cstring :=
  match strchr subjobid "["%char with
  | None => None
  | Some pcb =>
      Some (before subjobid pcb ++ lit "[]" ++ default [] (strchr subjobid "."%char))
  end.

(** ** The table *)

(** [for (i = 0; i < ct; i++) if (tbl[i].trk_index == iindx) return i;] *)
Fixpoint find_index (fuel : nat) (t : ajtrkhd) (iindx i : Z) : option Z :=
  match fuel with
  | O => Some (-1)
  | S fuel' =>
      e ← rd (tkm_tbl t) i;
      if trk_index e =? iindx then Some i else find_index fuel' t iindx (i + 1)
  end.

Definition numindex_to_offset (parent : job) (iindx : Z) : option Z :=
  match ji_ajtrk parent with
  | None => Some (-1)
  | Some ptbl => find_index (Z.to_nat (tkm_ct ptbl)) ptbl iindx 0
  end.

Definition subjob_index_to_offset (parent : job) (index : option cstring) : option Z :=
  match index with
  | None | Some [] => Some (-1)
  | Some index =>
      let nidx := atoi index in
      match ji_ajtrk parent with
      | None => Some (-1)
      | Some ptbl => find_index (Z.to_nat (tkm_ct ptbl)) ptbl nidx 0
      end
  end.

Definition set_subjob_tblstate (parent : job) (offset newstate : Z) : option job :=
  if offset =? -1 then Some parent
  else
    match ji_ajtrk parent with
    | None => Some parent
    | Some ptbl =>
        e ← rd (tkm_tbl ptbl) offset;
        let oldstate := trk_status e in
        if oldstate =? newstate then Some parent
        else
          tbl ← wr (tkm_tbl ptbl) offset (set_status e newstate);
          ct ← bump (tkm_subjsct ptbl) oldstate (-1);
          ct ← bump ct newstate 1;
          Some (upd_attr (set_ajtrk parent (Some (set_tbl ptbl ct tbl)))
                  JOB_ATR_array_indices_remaining (fun a => add_flags a ATR_VFLAG_MODCACHE))
    end.

Definition get_subjob_state (parent : job) (iindx : Z) : option Z :=
  if iindx =? -1 then Some (-1)
  else t ← ji_ajtrk parent; trk_status <$> rd (tkm_tbl t) iindx.

Definition statename : list string :=
  ["Transit"; "Queued"; "Held"; "Waiting"; "Running";
   "Exiting"; "Expired"; "Beginning"; "Moved"; "Finished"]%string.

(** [sprintf(buf + strlen(buf), "%s:%d ", statename[s], tkm_subjsct[s])] *)
Definition state_ct (ct : list Z) (s : Z) : option cstring :=
  name ← rd statename s; n ← rd ct s;
  Some (lit name ++ ":"%char :: dec_int n ++ [" "%char]).

(** [buf] has 150 bytes. *)
Definition update_subjob_state_ct (pjob : job) : option job :=
  t ← ji_ajtrk pjob;
  q ← state_ct (tkm_subjsct t) JOB_STATE_QUEUED;
  r ← state_ct (tkm_subjsct t) JOB_STATE_RUNNING;
  e ← state_ct (tkm_subjsct t) JOB_STATE_EXITING;
  x ← state_ct (tkm_subjsct t) JOB_STATE_EXPIRED;
  let buf := q ++ r ++ e ++ x in
  if (length buf <? 150)%nat
  then Some (upd_attr pjob JOB_ATR_array_state_count
               (fun a => add_flags (set_string a (Some buf)) (Z.lor ATR_VFLAG_SET ATR_VFLAG_MODCACHE)))
  else None.

(** ** Index ranges *)

(** The results 0, 1 and -1 of [parse_subjob_index] *)
Inductive parsed :=
  | P_range (ep : cstring) (x y z ct : Z)
  | P_end (ep : cstring)
  | P_bad.

(** [if (c == x) pc++] *)
Definition skip_char (pc : cstring) (x : ascii) : cstring := if is_char (deref pc) x then tl pc else pc.

(** The end of a range: the text is done, or a comma, or a bracket *)
Definition at_end (pc : cstring) : bool :=
  is_char (deref pc) NUL || is_char (deref pc) ","%char || is_char (deref pc) "]"%char.

Definition parse_subjob_index (pc : cstring) : parsed :=
  let pc := skip_space pc in
  if is_char (deref pc) NUL || is_char (deref pc) "]"%char then P_end pc
  else if negb (isdigit (deref pc)) then P_bad
  else
    let '(xl, pc) := strtol10 pc in
    let x := int32 xl in
    let pc := skip_space pc in
    let done x y z pc := P_range pc x y z (Z.quot (int32 (int32 (y - x) + z)) z) in
    if at_end pc then done x x 1 (skip_char pc ","%char)
    else if negb (is_char (deref pc) "-"%char) then P_bad
    else
      let '(yl, pc) := strtol10 (tl pc) in
      let y := int32 yl in
      let pc := if isspace (deref pc) then tl pc else pc in
      if at_end pc then if y <=? x then P_bad else done x y 1 pc
      else if negb (is_char (deref pc) ":"%char) then P_bad
      else
        let '(zl, pc) := strtol10 (skip_space (tl pc)) in
        let z := int32 zl in
        let pc := skip_char (skip_space pc) ","%char in
        if (y <=? x) || (z <? 1) then P_bad else done x y z pc.

(** One new entry of the table *)
Definition new_entry (i initalstate : Z) : ajtrk :=
  {| trk_index := i; trk_status := initalstate; trk_error := 0; trk_exitstat := 0;
     trk_substate := JOB_SUBSTATE_FINISHED; trk_stgout := -1 |}.

(** [for (i = x; i <= y; i += z, j++)], in a table with room for [room] more *)
Fixpoint fill_tbl (room : nat) (i y z initalstate : Z) : option (list ajtrk) :=
  if i <=? y then
    match room with
    | O => None
    | S room' => cons (new_entry i initalstate) <$> fill_tbl room' (int32 (i + z)) y z initalstate
    end
  else Some [].

(** The bytes asked of [malloc]: [sizeof(struct ajtrkhd)] is 88 and
    [sizeof(struct ajtrk)] is 24; more than the largest [ptrdiff_t] is refused. *)
Definition tbl_bytes (ct : Z) : Z := uint64 (88 + int32 (ct - 1) * 24).

(** The table, or the error.  [server_max] is the attribute [max_array_size]. *)
Definition mk_subjob_index_tbl (server_max : option Z) (range : cstring) (initalstate : Z)
  : option (ajtrkhd + Z) :=
  match parse_subjob_index range with
  | P_range _ x y z ct =>
      let l := default PBS_MAX_ARRAY_JOB_DFL server_max in
      if l <? ct then Some (inr PBSE_MaxArraySize)
      else if LONG_MAX <? tbl_bytes ct then Some (inr PBSE_SYSTEM)
      else
        tbl ← fill_tbl (Z.to_nat (int32 (ct - 1) + 1)) x y z initalstate;
        Some (inl {| tkm_ct := ct; tkm_step := z; tkm_flags := 0;
                     tkm_subjsct := <[Z.to_nat JOB_STATE_QUEUED := ct]> (replicate (Z.to_nat PBS_NUMJOBSTATE) 0);
                     tkm_dsubjsct := 0; tkm_tbl := tbl |})
  | _ => Some (inr PBSE_BADATVAL)
  end.

(** All subjobs from [i] on *)
Fixpoint set_all (n : nat) (parent : job) (i newstate : Z) : option job :=
  match n with
  | O => Some parent
  | S n' => parent ← set_subjob_tblstate parent i newstate; set_all n' parent (i + 1) newstate
  end.

(** [for (indx = 0; indx < ptbl->tkm_ct; ++indx) set_subjob_tblstate(...)] *)
Definition set_whole_table (parent : job) (newstate : Z) : option job :=
  match ji_ajtrk parent with
  | None => Some parent
  | Some ptbl => set_all (Z.to_nat (tkm_ct ptbl)) parent 0 newstate
  end.

(** [while (x <= y)]: the indices of one section are queued. *)
Fixpoint queue_section (fuel : nat) (parent : job) (x y z : Z) : option job :=
  if x <=? y then
    match fuel with
    | O => None
    | S fuel' =>
        i ← numindex_to_offset parent x;
        parent ← (if i =? -1 then Some parent else set_subjob_tblstate parent i JOB_STATE_QUEUED);
        queue_section fuel' parent (int32 (x + z)) y z
    end
  else Some parent.

Fixpoint queue_sections (fuel : nat) (parent : job) (str : cstring) : option job :=
  match fuel with
  | O => None
  | S fuel' =>
      match parse_subjob_index str with
      | P_range ep x y z _ =>
          parent ← queue_section (Z.to_nat (y - x + 1)) parent x y z;
          queue_sections fuel' parent ep
      | _ => Some parent
      end
  end.

(** [at_str] is the text of the attribute. *)
Definition fixup_arrayindicies (at_str : cstring) (pjob : job) : option job :=
  _ ← ji_ajtrk pjob;
  pjob ← set_whole_table pjob JOB_STATE_EXPIRED;
  queue_sections (S (length at_str)) pjob at_str.

(** [cvt_range] writes to a buffer that is kept from call to call; [buflen] is
    its size.  A text that does not fit with its NUL is written past the end. *)
Definition append (buflen : Z) (buf s : cstring) : option cstring :=
  let buf := buf ++ s in
  if Z.of_nat (length buf) <? buflen then Some buf else None.

(** The last entry of the run that starts before [n]: [while (n < tkm_ct)] *)
Fixpoint run_end (tbl : list ajtrk) (state n l : Z) : Z :=
  match tbl with
  | [] => l
  | e :: tbl' => if trk_status e =? state then run_end tbl' state (n + 1) n else l
  end.

(** What follows the first index [f] of a run that ends at [l] *)
Definition run_tail (t : ajtrkhd) (f l : Z) : option cstring :=
  if l =? f then Some []
  else
    e ← rd (tkm_tbl t) l;
    Some (if f + 1 <? l then
            "-"%char :: dec_int (trk_index e) ++
            (if 1 <? tkm_step t then ":"%char :: dec_int (tkm_step t) else [])
          else ","%char :: dec_int (trk_index e)).

Fixpoint cvt_loop (fuel : nat) (t : ajtrkhd) (state f : Z) (pcomma : bool) (buf : cstring) (buflen : Z)
  : option (cstring * Z) :=
  if f <? tkm_ct t then
    match fuel with
    | O => None
    | S fuel' =>
        let buflen := if buflen - Z.of_nat (length buf) <? 20 then buflen + 500 else buflen in
        e ← rd (tkm_tbl t) f;
        if trk_status e =? state then
          let l := run_end (drop (Z.to_nat (f + 1)) (take (Z.to_nat (tkm_ct t)) (tkm_tbl t))) state (f + 1) f in
          buf ← append buflen buf (if pcomma then [","%char] else []);
          buf ← append buflen buf (dec_int (trk_index e));
          s ← run_tail t f l;
          buf ← append buflen buf s;
          cvt_loop fuel' t state (l + 1) true buf buflen
        else cvt_loop fuel' t state (f + 1) pcomma buf buflen
    end
  else Some (buf, buflen).

(** The text and the size of the buffer after the call; [buflen] is 0 before the
    first call. *)
Definition cvt_range (buflen : Z) (t : option ajtrkhd) (state : Z) : option (option cstring * Z) :=
  match t with
  | None => Some (None, buflen)
  | Some t =>
      let buflen := if buflen =? 0 then 1000 else buflen in
      '(buf, buflen) ← cvt_loop (S (Z.to_nat (tkm_ct t))) t state 0 false [] buflen;
      Some (Some buf, buflen)
  end.

Definition mk_subjob_id (parent : job) (offset : Z) : option cstring :=
  t ← ji_ajtrk parent;
  e ← rd (tkm_tbl t) offset;
  let jid := jobid parent in
  hold ← strchr jid "]"%char;
  pb ← strchr jid "["%char;
  let jid := before jid pb ++ ["["%char] ++ dec_int (trk_index e) ++ hold in
  if Z.of_nat (length jid) <=? PBS_MAXSVRJOBID then Some jid else None.

(** ** The attributes of an array job *)

(** [setup_arrayjob_attrs]: the action of the attribute
    [array_indices_submitted], with the job and the error *)
Definition setup_arrayjob_attrs (server_max : option Z) (pattr : attribute) (mode : Z) (pjob : job) : option (job * Z) :=
  let pjob := upd_attr pjob JOB_ATR_array (fun a => set_flags (set_long a 1) (Z.lor ATR_VFLAG_SET ATR_VFLAG_MODCACHE)) in
  let pjob := upd_attr pjob JOB_ATR_array_state_count free_str in
  t ← (if (mode =? ATR_ACTION_NEW) || (mode =? ATR_ACTION_RECOV) then
         range ← at_str (atr pjob JOB_ATR_array_indices_submitted);
         t ← mk_subjob_index_tbl server_max range JOB_STATE_QUEUED;
         Some (match t with inl t => inl (Some t) | inr e => inr e end)
       else Some (inl (ji_ajtrk pjob)));
  match t with
  | inr pbs_error => Some (set_ajtrk pjob None, pbs_error)
  | inl t =>
      let pjob := set_ajtrk pjob t in
      if mode =? ATR_ACTION_RECOV then
        Some (upd_attr pjob JOB_ATR_array_indices_remaining (fun a => add_flags a ATR_VFLAG_MODCACHE), PBSE_NONE)
      else if negb (mode =? ATR_ACTION_ALTER) && negb (mode =? ATR_ACTION_NEW) then Some (pjob, PBSE_BADATVAL)
      else if negb (is_job_array (jobid pjob) =? IS_ARRAY_ArrayJob) then Some (pjob, PBSE_BADATVAL)
      else if (mode =? ATR_ACTION_ALTER) && negb (state pjob =? JOB_STATE_QUEUED) then Some (pjob, PBSE_MODATRRUN)
      else
        let pjob := if mode =? ATR_ACTION_ALTER then upd_attr pjob JOB_ATR_array_indices_remaining free_str else pjob in
        let pjob :=
          if is_set (atr pjob JOB_ATR_array_indices_remaining) then pjob
          else upd_attr pjob JOB_ATR_array_indices_remaining (fun a => decode_str a (at_str pattr)) in
        Some (set_qs pjob (set_svrflags (ji_qs pjob) (Z.lor (ji_svrflags (ji_qs pjob)) JOB_SVFLG_ArrayJob)), PBSE_NONE)
  end.

(** ** The index of a subjob in a file name *)

Definition PBS_FILE_ARRAY_INDEX_TAG : cstring := lit "^array_index^".

(** [strstr(s, t)]: what is before the first [t] and what is after it *)
Fixpoint strstr (s t : cstring) : option (cstring * cstring) :=
  if streq (take (length t) s) t then Some ([], drop (length t) s)
  else match s with
       | [] => None
       | c :: s' => r ← strstr s' t; Some (c :: fst r, snd r)
       end.

(** [subst_array_index]; [parent] is the job [ji_parentaj] points to and
    [maxpathlen] is [MAXPATHLEN].  The number is written to 10 bytes and the rest
    to [MAXPATHLEN + 1]. *)
Definition subst_array_index (maxpathlen : Z) (parent : option job) (subjindx : Z) (path : cstring) : option cstring :=
  match parent, strstr path PBS_FILE_ARRAY_INDEX_TAG with
  | Some parent, Some (head, trail) =>
      t ← ji_ajtrk parent;
      e ← rd (tkm_tbl t) subjindx;
      let cvt := dec_int (trk_index e) in
      if (Z.of_nat (length cvt) <? 10) && (Z.of_nat (length trail) <=? maxpathlen)
      then Some (head ++ cvt ++ trail) else None
  | _, _ => Some path
  end.

(** ** The check of a range in a command *)

(** The result 0, 1 or 2 *)
Definition chk_Jrange (arg : cstring) : Z :=
  if negb (isdigit (deref arg)) then 1
  else
    let pc := skip_digits arg in
    if negb (is_char (deref pc) "-"%char) then 1
    else
      let x := fst (strtol10 arg) in
      if x <? 0 then 1 else if x =? LONG_MAX then 2
      else
        let s := tl pc in
        if negb (isdigit (deref s)) then 1
        else
          let pc := skip_digits s in
          if negb (is_char (deref pc) NUL) && negb (is_char (deref pc) ":"%char) then 1
          else
            let y := fst (strtol10 s) in
            if y <=? x then 1 else if y =? LONG_MAX then 2
            else if is_char (deref pc) ":"%char then
              let s := tl pc in
              if negb (is_char (deref (skip_digits s)) NUL) then 1
              else
                let z := fst (strtol10 s) in
                if z <? 1 then 1 else if z =? LONG_MAX then 2 else 0
            else 0.

End Subjobs.
