(* ===== verification/SubjobProps.v ===== *)
(** * Array jobs: the counts of subjobs, ranges and ids

    Module [SubjobProps]: the theorems on [SubjobTable].  A well-formed table
    ([table_ok]) has the indices of an arithmetic sequence and counters that are
    those of its entries; a narrow one ([narrow]) has indices short enough for
    the buffer of [cvt_range]. *)

From Stdlib Require Import ZArith Lia Ascii String.
From stdpp Require Import gmap.
From S2P Require Import Prelude Index JobData SubjobTable Ranges.
Import Job Counters Subjobs.

Module SubjobProps.

(** ** Well-formed tables *)

Definition status_of (e : ajtrk) : option Z := Some (trk_status e).

Record table_ok (t : ajtrkhd) : Prop := {
  tk_counts : counts_ok (tkm_ct t) (tkm_subjsct t) status_of (tkm_tbl t);
  tk_status : Forall (fun e => 0 <= trk_status e < PBS_NUMJOBSTATE) (tkm_tbl t);
  tk_step : 1 <= tkm_step t;
  tk_index : exists x, 0 <= x /\ map trk_index (tkm_tbl t) = Range.arith (length (tkm_tbl t)) x (tkm_step t) /\
    x + (tkm_ct t - 1) * tkm_step t <= Range.VAL_MAX /\ tkm_step t <= Range.VAL_MAX + 1 }.

(** The longest text a run adds to the buffer of [cvt_range] has 19 characters. *)
Definition narrow (t : ajtrkhd) : Prop :=
  exists d : nat, Forall (fun e => (length (dec_int (trk_index e)) <= d)%nat) (tkm_tbl t) /\
    (3 + 2 * d + length (dec_int (tkm_step t)) <= 19)%nat.

Lemma table_len (t : ajtrkhd) : table_ok t -> tkm_ct t = Z.of_nat (length (tkm_tbl t)).
Proof. intros Ht. apply Ht. Qed.

Lemma table_rd (t : ajtrkhd) (i : Z) : table_ok t -> 0 <= i < tkm_ct t ->
  exists e, rd (tkm_tbl t) i = Some e /\ tkm_tbl t !! Z.to_nat i = Some e /\ 0 <= trk_status e < PBS_NUMJOBSTATE.
Proof.
  intros Ht Hi. rewrite (table_len _ Ht) in Hi. destruct (rd_in (tkm_tbl t) i Hi) as (e & Hrd & He).
  exists e. split; [done|]. split; [done|]. by apply (Forall_lookup_1 _ _ _ _ (tk_status _ Ht) He).
Qed.

Lemma map_index_insert (l : list ajtrk) (i : nat) (e e' : ajtrk) :
  l !! i = Some e -> trk_index e' = trk_index e -> map trk_index (<[i := e']> l) = map trk_index l.
Proof.
  intros Hi He. rewrite list_fmap_insert. apply list_insert_id. by rewrite list_lookup_fmap, Hi, He.
Qed.

(** A change of the status of one entry *)
Lemma table_set (t : ajtrkhd) (i s : Z) (e : ajtrk) :
  table_ok t -> rd (tkm_tbl t) i = Some e -> 0 <= s < PBS_NUMJOBSTATE ->
  exists ct1 ct2, bump (tkm_subjsct t) (trk_status e) (-1) = Some ct1 /\ bump ct1 s 1 = Some ct2 /\
    wr (tkm_tbl t) i (set_status e s) = Some (<[Z.to_nat i := set_status e s]> (tkm_tbl t)) /\
    table_ok (set_tbl t ct2 (<[Z.to_nat i := set_status e s]> (tkm_tbl t))).
Proof.
  intros Ht Hrd Hs. apply rd_lookup in Hrd as [Hi He]. apply lookup_lt_Some in He as Hlt.
  pose proof (Forall_lookup_1 _ _ _ _ (tk_status _ Ht) He) as Hst. cbn in Hst.
  destruct (insert_perm (tkm_tbl t) (Z.to_nat i) e (set_status e s) He) as (r & Hl & Hl').
  destruct (counts_move _ _ _ status_of _ _ _ e (set_status e s) (trk_status e) s
              (tk_counts _ Ht) Hl Hl') as (ct1 & ct2 & Hb1 & Hb2 & Hc); [done..|].
  exists ct1, ct2. split; [done|]. split; [done|]. split; [apply wr_in; lia|].
  destruct Ht as [_ H2 H3 (x & Hx & Hix & Hmax)]. constructor; cbn.
  - done.
  - by apply Forall_insert.
  - done.
  - exists x. split; [done|]. rewrite length_insert. by rewrite (map_index_insert _ _ e).
Qed.

Lemma narrow_set (t : ajtrkhd) (i : Z) (e e' : ajtrk) (ct : list Z) :
  narrow t -> rd (tkm_tbl t) i = Some e -> trk_index e' = trk_index e ->
  narrow (set_tbl t ct (<[Z.to_nat i := e']> (tkm_tbl t))).
Proof.
  intros (d & Hd & Hs) Hrd He. apply rd_lookup in Hrd as [_ Hl]. exists d. split; [|done]. cbn.
  apply Forall_insert; [done|]. rewrite He. apply (Forall_lookup_1 _ _ _ _ Hd Hl).
Qed.

(** An array job with a good table *)
Definition array_ok (t : ajtrkhd) : Prop := table_ok t /\ narrow t.

(** The statuses of the table of a job *)
Definition statuses (t : ajtrkhd) : list Z := map trk_status (tkm_tbl t).

(** What a job keeps when its table changes *)
Definition same_but_table (j j' : job) : Prop :=
  ji_qs j' = ji_qs j /\ ji_qhdr j' = ji_qhdr j /\ ji_parentaj j' = ji_parentaj j /\
  ji_subjindx j' = ji_subjindx j /\ ji_resvp j' = ji_resvp j /\ ji_terminated j' = ji_terminated j /\
  ji_deletehistory j' = ji_deletehistory j /\ ji_modified j' = ji_modified j /\
  (forall a, a ≠ JOB_ATR_array_indices_remaining -> atr j' a = atr j a).

Lemma same_but_table_refl j : same_but_table j j.
Proof. by split_and!. Qed.

Lemma same_but_table_trans j1 j2 j3 : same_but_table j1 j2 -> same_but_table j2 j3 -> same_but_table j1 j3.
Proof.
  intros (?&?&?&?&?&?&?&?&Ha) (?&?&?&?&?&?&?&?&Hb). split_and!; try congruence.
  intros a Hn. by rewrite Hb, Ha.
Qed.

(** [set_subjob_tblstate] inside the table *)
Lemma set_tblstate_spec (j : job) (t : ajtrkhd) (i s : Z) :
  ji_ajtrk j = Some t -> array_ok t -> 0 <= i < tkm_ct t -> 0 <= s < PBS_NUMJOBSTATE ->
  exists j' t', set_subjob_tblstate j i s = Some j' /\ same_but_table j j' /\
    ji_ajtrk j' = Some t' /\ array_ok t' /\ tkm_ct t' = tkm_ct t /\ tkm_step t' = tkm_step t /\
    tkm_flags t' = tkm_flags t /\ map trk_index (tkm_tbl t') = map trk_index (tkm_tbl t) /\
    statuses t' = <[Z.to_nat i := s]> (statuses t).
Proof.
  intros Hj [Ht Hn] Hi Hs. destruct (table_rd t i Ht Hi) as (e & Hrd & He & Hst).
  unfold set_subjob_tblstate. rewrite (proj2 (Z.eqb_neq i (-1))), Hj, Hrd by lia. cbn [mbind option_bind].
  destruct (Z.eqb_spec (trk_status e) s) as [Heq|Hne].
  - exists j, t. split; [done|]. split; [apply same_but_table_refl|]. split; [done|]. split_and!; try done.
    symmetry. apply list_insert_id. unfold statuses. by rewrite list_lookup_fmap, He, <-Heq.
  - destruct (table_set t i s e Ht Hrd Hs) as (ct1 & ct2 & -> & Hb & -> & Hok).
    cbn [mbind option_bind]. rewrite Hb. cbn [mbind option_bind].
    eexists _, (set_tbl t ct2 _). split; [done|]. split.
    { split_and!; try done. intros a Ha. unfold atr. cbn. by rewrite decide_False. }
    split; [done|]. split; [split; [done|by eapply narrow_set]|]. split_and!; try done.
    + cbn. by eapply map_index_insert.
    + unfold statuses. cbn. by rewrite list_fmap_insert.
Qed.

(** ** The whole table *)

Lemma insert_drop_statuses (l : list Z) (i : nat) (s : Z) : (i < length l)%nat ->
  take (S i) (<[i := s]> l) = take i l ++ [s].
Proof.
  intros Hi. rewrite (take_S_r _ _ s) by (by apply list_lookup_insert_eq). by rewrite take_insert_ge.
Qed.

Lemma set_all_spec (s : Z) (n : nat) : forall (j : job) (t : ajtrkhd) (i : nat),
  ji_ajtrk j = Some t -> array_ok t -> (i + n = length (tkm_tbl t))%nat -> 0 <= s < PBS_NUMJOBSTATE ->
  take i (statuses t) = replicate i s ->
  exists j' t', set_all n j (Z.of_nat i) s = Some j' /\ same_but_table j j' /\
    ji_ajtrk j' = Some t' /\ array_ok t' /\ tkm_ct t' = tkm_ct t /\ tkm_step t' = tkm_step t /\
    tkm_flags t' = tkm_flags t /\ map trk_index (tkm_tbl t') = map trk_index (tkm_tbl t) /\
    statuses t' = replicate (length (tkm_tbl t)) s.
Proof.
  induction n as [|n IH]; intros j t i Hj Ht Hin Hs Hpre; cbn [set_all].
  - exists j, t. split; [done|]. split; [apply same_but_table_refl|]. split; [done|]. split_and!; try done.
    rewrite <- (take_ge (statuses t) i) by (unfold statuses; rewrite length_map; lia).
    rewrite Hpre. f_equal. lia.
  - pose proof (table_len t (proj1 Ht)) as Hlen.
    destruct (set_tblstate_spec j t (Z.of_nat i) s Hj Ht ltac:(lia) Hs)
      as (j1 & t1 & -> & Hsame & Hj1 & Ht1 & Hct & Hstep & Hfl & Hix & Hst).
    cbn [mbind option_bind]. replace (Z.of_nat i + 1) with (Z.of_nat (S i)) by lia.
    assert (length (tkm_tbl t1) = length (tkm_tbl t)) as Hl1.
    { pose proof (table_len t1 (proj1 Ht1)). lia. }
    destruct (IH j1 t1 (S i) Hj1 Ht1) as (j2 & t2 & -> & Hsame2 & Hj2 & Ht2 & Hct2 & Hstep2 & Hfl2 & Hix2 & Hst2);
      [lia|done| |].
    { rewrite Hst, Nat2Z.id, insert_drop_statuses by (unfold statuses; rewrite length_map; lia).
      rewrite Hpre. by rewrite <- replicate_cons_app. }
    exists j2, t2. split; [done|]. split; [by eapply same_but_table_trans|]. split; [done|].
    split_and!; congruence.
Qed.

(** Every subjob gets the state. *)
Lemma set_whole_table_spec (j : job) (t : ajtrkhd) (s : Z) :
  ji_ajtrk j = Some t -> array_ok t -> 0 <= s < PBS_NUMJOBSTATE ->
  exists j' t', set_whole_table j s = Some j' /\ same_but_table j j' /\
    ji_ajtrk j' = Some t' /\ array_ok t' /\ tkm_ct t' = tkm_ct t /\ tkm_step t' = tkm_step t /\
    tkm_flags t' = tkm_flags t /\ map trk_index (tkm_tbl t') = map trk_index (tkm_tbl t) /\
    statuses t' = replicate (length (tkm_tbl t)) s.
Proof.
  intros Hj Ht Hs. unfold set_whole_table. rewrite Hj.
  destruct (set_all_spec s (length (tkm_tbl t)) j t 0 Hj Ht) as (j' & t' & Hset & Hrest); [done|done..|].
  exists j', t'. split; [|done]. rewrite (table_len t (proj1 Ht)), Nat2Z.id. exact Hset.
Qed.

(** ** Indices *)

Lemma arith_lookup (n : nat) : forall (x z : Z) (i : nat), (i < n)%nat ->
  Range.arith n x z !! i = Some (x + Z.of_nat i * z).
Proof.
  induction n as [|n IH]; intros x z i Hi; [lia|]. destruct i as [|i]; cbn.
  - f_equal. lia.
  - rewrite IH by lia. f_equal. lia.
Qed.

Lemma find_index_spec (t : ajtrkhd) (x v : Z) (k : nat) : forall (n : nat) (i : nat),
  table_ok t -> map trk_index (tkm_tbl t) = Range.arith (length (tkm_tbl t)) x (tkm_step t) ->
  (i + n = length (tkm_tbl t))%nat -> (i <= k < length (tkm_tbl t))%nat -> v = x + Z.of_nat k * tkm_step t ->
  find_index n t v (Z.of_nat i) = Some (Z.of_nat k).
Proof.
  induction n as [|n IH]; intros i Ht Hix Hin Hk Hv; [lia|]. cbn [find_index].
  destruct (lookup_lt_is_Some_2 (tkm_tbl t) i ltac:(lia)) as [e He].
  assert (rd (tkm_tbl t) (Z.of_nat i) = Some e) as -> by (apply rd_lookup; rewrite Nat2Z.id; split; [lia|done]).
  cbn [mbind option_bind].
  assert (trk_index e = x + Z.of_nat i * tkm_step t) as Hei.
  { apply (f_equal (.!! i)) in Hix. rewrite list_lookup_fmap, He in Hix. cbn in Hix.
    rewrite arith_lookup in Hix by lia. congruence. }
  pose proof (tk_step _ Ht) as Hst. rewrite Hei. subst v. destruct (Z.eqb_spec (x + Z.of_nat i * tkm_step t)
    (x + Z.of_nat k * tkm_step t)) as [Heq|Hne].
  - f_equal. nia.
  - replace (Z.of_nat i + 1) with (Z.of_nat (S i)) by lia. apply IH; [done|done|lia| |lia].
    assert (i ≠ k) by (intros ->; done). lia.
Qed.

Lemma find_index_none (t : ajtrkhd) (v : Z) : forall (n : nat) (i : nat),
  (i + n = length (tkm_tbl t))%nat -> v ∉ map trk_index (tkm_tbl t) ->
  find_index n t v (Z.of_nat i) = Some (-1).
Proof.
  induction n as [|n IH]; intros i Hin Hv; [done|]. cbn [find_index].
  destruct (lookup_lt_is_Some_2 (tkm_tbl t) i ltac:(lia)) as [e He].
  assert (rd (tkm_tbl t) (Z.of_nat i) = Some e) as -> by (apply rd_lookup; rewrite Nat2Z.id; split; [lia|done]).
  cbn [mbind option_bind]. rewrite (proj2 (Z.eqb_neq _ _)).
  - replace (Z.of_nat i + 1) with (Z.of_nat (S i)) by lia. apply IH; [lia|done].
  - intros <-. apply Hv. apply list_elem_of_fmap. exists e. split; [done|]. by eapply list_elem_of_lookup_2.
Qed.

(** The offset of an index of the table *)
Lemma numindex_to_offset_spec (j : job) (t : ajtrkhd) (k : nat) (e : ajtrk) :
  ji_ajtrk j = Some t -> table_ok t -> tkm_tbl t !! k = Some e ->
  numindex_to_offset j (trk_index e) = Some (Z.of_nat k).
Proof.
  intros Hj Ht He. unfold numindex_to_offset. rewrite Hj, (table_len _ Ht), Nat2Z.id.
  destruct (tk_index _ Ht) as (x & Hx & Hix & Hmax). apply lookup_lt_Some in He as Hlt.
  apply (find_index_spec t x _ k (length (tkm_tbl t)) 0 Ht Hix); [done|lia|].
  apply (f_equal (.!! k)) in Hix. rewrite list_lookup_fmap, He in Hix. cbn in Hix.
  rewrite arith_lookup in Hix by lia. congruence.
Qed.

(** ** [cvt_range] *)

(** The entries at the front that are in the state *)
Fixpoint prefix_len (state : Z) (l : list ajtrk) : nat :=
  match l with
  | [] => O
  | e :: l' => if trk_status e =? state then S (prefix_len state l') else O
  end.

(** The runs of entries in a state as sections; a run of two is two sections. *)
Definition run_sections (i step : Z) (k : nat) : list Range.range :=
  match k with
  | O => [Range.Range i i 1 1]
  | S O => [Range.Range i i 1 1; Range.Range (i + step) (i + step) 1 1]
  | _ => [Range.Range i (i + Z.of_nat k * step) step (Z.of_nat k + 1)]
  end.

Fixpoint sections (fuel : nat) (state step : Z) (l : list ajtrk) : list Range.range :=
  match fuel, l with
  | S fuel', e :: l' =>
      if trk_status e =? state then
        let k := prefix_len state l' in
        run_sections (trk_index e) step k ++ sections fuel' state step (drop k l')
      else sections fuel' state step l'
  | _, _ => []
  end.

Definition queued (state : Z) (t : ajtrkhd) : list Range.range :=
  sections (length (tkm_tbl t)) state (tkm_step t) (tkm_tbl t).

Lemma run_end_spec (state : Z) (l : list ajtrk) : forall f : Z,
  run_end l state (f + 1) f = f + Z.of_nat (prefix_len state l).
Proof.
  induction l as [|e l IH]; intros f; cbn [run_end prefix_len]; [lia|].
  case_if; [|lia]. rewrite IH. lia.
Qed.

Lemma prefix_len_le (state : Z) (l : list ajtrk) : (prefix_len state l <= length l)%nat.
Proof. induction l as [|e l IH]; cbn; [lia|]. case_if; lia. Qed.

Lemma prefix_filter (state : Z) (l : list ajtrk) :
  filter (fun e => trk_status e = state) l =
    take (prefix_len state l) l ++ filter (fun e => trk_status e = state) (drop (prefix_len state l) l).
Proof.
  induction l as [|e l IH]; [done|]. cbn [prefix_len]. case_if.
  - cbn [take drop]. rewrite filter_cons, decide_True by done. cbn. by f_equal.
  - done.
Qed.

Lemma arith_split (a b : nat) : forall (x z : Z),
  Range.arith (a + b) x z = Range.arith a x z ++ Range.arith b (x + Z.of_nat a * z) z.
Proof.
  induction a as [|a IH]; intros x z; cbn.
  - f_equal. lia.
  - rewrite IH. do 2 f_equal. f_equal. lia.
Qed.

Lemma length_arith (n : nat) : forall x z : Z, length (Range.arith n x z) = n.
Proof. induction n as [|n IH]; intros x z; cbn; [done|]. by rewrite IH. Qed.

Lemma arith_cut (a n : nat) (x z : Z) : (a <= n)%nat ->
  Range.arith n x z = Range.arith a x z ++ Range.arith (n - a) (x + Z.of_nat a * z) z.
Proof. intros Ha. rewrite <- arith_split. f_equal. lia. Qed.

Lemma run_sections_elems (i step : Z) (k : nat) :
  Range.elems (run_sections i step k) = Range.arith (S k) i step.
Proof.
  destruct k as [|[|k]]; [done|done|]. unfold Range.elems, run_sections, Range.elems1. cbn [map concat].
  rewrite app_nil_r. cbn [Range.r_count Range.r_start Range.r_step]. f_equal. lia.
Qed.

Lemma elems_app (a b : list Range.range) : Range.elems (a ++ b) = Range.elems a ++ Range.elems b.
Proof. unfold Range.elems. by rewrite map_app, concat_app. Qed.

(** The sections stand for the indices of the entries in the state. *)
Lemma sections_elems (state step : Z) (fuel : nat) : forall (l : list ajtrk) (x : Z),
  (length l <= fuel)%nat -> map trk_index l = Range.arith (length l) x step ->
  Range.elems (sections fuel state step l) = map trk_index (filter (fun e => trk_status e = state) l).
Proof.
  induction fuel as [|fuel IH]; intros l x Hf Hix; (destruct l as [|e l]; [done|]); cbn in Hf; [lia|].
  cbn [sections]. cbn in Hix. injection Hix as He Hix. rewrite filter_cons. case_if.
  - rewrite decide_True by done. set (k := prefix_len state l).
    rewrite elems_app, run_sections_elems. cbn [map Range.arith app]. f_equal.
    rewrite (prefix_filter state l), map_app. fold k. pose proof (prefix_len_le state l) as Hk. fold k in Hk.
    f_equal.
    + rewrite <- firstn_map, Hix, (arith_cut k (length l)), take_app_length' by (done || by rewrite length_arith).
      by rewrite He.
    + apply (IH _ (x + step + Z.of_nat k * step)).
      * rewrite length_drop. lia.
      * rewrite <- skipn_map, Hix, (arith_cut k (length l)), drop_app_length' by (done || by rewrite length_arith).
        by rewrite length_drop.
  - rewrite decide_False by done. apply (IH l (x + step)); [lia|done].
Qed.

(** Sections as text, after a comma or not *)
Definition joined (pcomma : bool) (l : list Range.range) : cstring :=
  match l with
  | [] => []
  | c :: l =>
      (if pcomma then [","%char] else []) ++ Range.body c ++ concat (map (fun d => ","%char :: Range.body d) l)
  end.

Lemma joined_app (pcomma : bool) (a b : list Range.range) :
  a <> [] -> joined pcomma (a ++ b) = joined pcomma a ++ joined true b.
Proof.
  intros Ha. destruct a as [|c a]; [done|]. cbn [joined app]. rewrite map_app, concat_app, <- !app_assoc.
  do 3 f_equal. by destruct b.
Qed.

Lemma joined_to_str (l : list Range.range) : joined false l = Range.range_to_str l.
Proof. destruct l as [|c l]; [done|]. by rewrite Range.range_to_str_join. Qed.

Lemma append_fits (buflen : Z) (buf s : cstring) :
  Z.of_nat (length buf + length s) < buflen -> append buflen buf s = Some (buf ++ s).
Proof. intros Hl. unfold append. rewrite length_app. by rewrite (proj2 (Z.ltb_lt _ _)) by lia. Qed.

(** The text of one run: its first index and what follows *)
Lemma run_text (t : ajtrkhd) (f k : nat) (e : ajtrk) (x : Z) :
  map trk_index (tkm_tbl t) = Range.arith (length (tkm_tbl t)) x (tkm_step t) ->
  tkm_tbl t !! f = Some e -> (f + k < length (tkm_tbl t))%nat ->
  exists s, run_tail t (Z.of_nat f) (Z.of_nat (f + k)) = Some s /\
    dec_int (trk_index e) ++ s = joined false (run_sections (trk_index e) (tkm_step t) k) /\
    forall d, Forall (fun e => (length (dec_int (trk_index e)) <= d)%nat) (tkm_tbl t) ->
      (length s <= 2 + d + length (dec_int (tkm_step t)))%nat /\ (k = 1%nat -> (length s <= 1 + d)%nat).
Proof.
  intros Hix He Hk. unfold run_tail. destruct k as [|k].
  { rewrite Nat.add_0_r, Z.eqb_refl. eexists. split; [done|]. cbn. split; [|intros; cbn; lia].
    unfold Range.body. cbn. by rewrite !app_nil_r. }
  rewrite (proj2 (Z.eqb_neq _ _)) by lia.
  destruct (lookup_lt_is_Some_2 (tkm_tbl t) (f + S k) ltac:(lia)) as [e2 He2].
  assert (rd (tkm_tbl t) (Z.of_nat (f + S k)) = Some e2) as ->
    by (apply rd_lookup; rewrite Nat2Z.id; split; [lia|done]).
  cbn [mbind option_bind]. eexists. split; [done|].
  assert (trk_index e2 = trk_index e + Z.of_nat (S k) * tkm_step t) as Hi2.
  { pose proof (f_equal (.!! f) Hix) as H1. pose proof (f_equal (.!! (f + S k)%nat) Hix) as H2.
    rewrite list_lookup_fmap, He in H1. rewrite list_lookup_fmap, He2 in H2. cbn in H1, H2.
    rewrite arith_lookup in H1, H2 by lia. injection H1 as ->. injection H2 as ->. lia. }
  assert (forall d, Forall (fun e => (length (dec_int (trk_index e)) <= d)%nat) (tkm_tbl t) ->
            (length (dec_int (trk_index e2)) <= d)%nat) as Hd2.
  { intros d Hd. apply (Forall_lookup_1 _ _ _ _ Hd He2). }
  destruct (Z.ltb_spec (Z.of_nat f + 1) (Z.of_nat (f + S k))) as [Hlt|Hge].
  - destruct k as [|k]; [lia|]. split.
    + unfold run_sections, joined, Range.body. cbn [app map concat Range.r_start Range.r_end Range.r_step Range.r_count].
      rewrite (proj2 (Z.gtb_lt (Z.of_nat (S (S k)) + 1) 1)) by lia. rewrite app_nil_r, <- !app_assoc. cbn [app].
      rewrite Hi2. do 4 f_equal. by rewrite Z.gtb_ltb.
    + intros d Hd. specialize (Hd2 d Hd). split; [|lia]. cbn [length]. rewrite length_app.
      destruct (1 <? tkm_step t); cbn; lia.
  - assert (k = 0%nat) as -> by lia. split.
    + unfold run_sections, joined, Range.body. cbn [app map concat Range.r_start Range.r_end Range.r_step Range.r_count].
      change (1 >? 1) with false. cbn [app]. rewrite !app_nil_r. rewrite Hi2. do 3 f_equal. lia.
    + intros d Hd. specialize (Hd2 d Hd). cbn [length]. lia.
Qed.

Lemma run_sections_ne (i step : Z) (k : nat) : run_sections i step k <> [].
Proof. by destruct k as [|[|k]]. Qed.

Lemma cvt_loop_spec (state : Z) (t : ajtrkhd) (fuel : nat) : array_ok t ->
  forall (n f : nat) (pcomma : bool) (buf : cstring) (buflen : Z),
  (length (tkm_tbl t) - f < fuel)%nat -> (length (tkm_tbl t) - f <= n)%nat -> (f <= length (tkm_tbl t))%nat ->
  Z.of_nat (length buf) < buflen ->
  exists buflen', cvt_loop fuel t state (Z.of_nat f) pcomma buf buflen =
      Some (buf ++ joined pcomma (sections n state (tkm_step t) (drop f (tkm_tbl t))), buflen') /\
    buflen <= buflen'.
Proof.
  intros [Ht Hn]. pose proof (table_len _ Ht) as Hct.
  induction fuel as [|fuel IH]; intros n f pcomma buf buflen Hfuel Hfn Hf Hbuf; [lia|].
  cbn [cvt_loop]. destruct (Z.ltb_spec (Z.of_nat f) (tkm_ct t)) as [Hlt|Hge].
  2:{ rewrite drop_ge by lia. exists buflen. split; [|lia]. destruct n; cbn; by rewrite app_nil_r. }
  set (bl := if _ <? 20 then buflen + 500 else buflen).
  assert (Z.of_nat (length buf) + 20 <= bl /\ buflen <= bl) as [Hroom Hbl]
    by (unfold bl; case_if; lia).
  clearbody bl. destruct (lookup_lt_is_Some_2 (tkm_tbl t) f ltac:(lia)) as [e He].
  assert (rd (tkm_tbl t) (Z.of_nat f) = Some e) as ->
    by (apply rd_lookup; rewrite Nat2Z.id; split; [lia|done]).
  cbn [mbind option_bind]. destruct n as [|n]; [lia|]. rewrite (drop_S _ _ _ He). cbn [sections].
  destruct (trk_status e =? state) eqn:Est.
  2:{ replace (Z.of_nat f + 1) with (Z.of_nat (S f)) by lia.
      destruct (IH n (S f) pcomma buf bl) as (bl' & -> & ?); [lia..|]. exists bl'. split; [done|lia]. }
  rewrite (take_ge (tkm_tbl t)) by lia. replace (Z.to_nat (Z.of_nat f + 1)) with (S f) by lia.
  rewrite run_end_spec.
  set (k := prefix_len state (drop (S f) (tkm_tbl t))).
  pose proof (prefix_len_le state (drop (S f) (tkm_tbl t))) as Hk. fold k in Hk. rewrite length_drop in Hk.
  replace (Z.of_nat f + Z.of_nat k) with (Z.of_nat (f + k)) by lia.
  destruct (tk_index _ Ht) as (x & _ & Hix & _).
  destruct (run_text t f k e x Hix He ltac:(lia)) as (s & -> & Htext & Hlen).
  destruct Hn as (d & Hd & Hsum). destruct (Hlen d Hd) as [Hs Hs1].
  pose proof (Forall_lookup_1 _ _ _ _ Hd He) as Hde. cbn in Hde. cbn [mbind option_bind].
  rewrite append_fits by (destruct pcomma; cbn; lia). cbn [mbind option_bind].
  rewrite append_fits by (rewrite length_app; destruct pcomma; cbn; lia). cbn [mbind option_bind].
  rewrite append_fits by (rewrite !length_app; destruct pcomma; cbn; lia). cbn [mbind option_bind].
  replace (Z.of_nat (f + k) + 1) with (Z.of_nat (S (f + k))) by lia.
  destruct (IH n (S (f + k)) true (((buf ++ (if pcomma then [","%char] else [])) ++ dec_int (trk_index e)) ++ s) bl)
    as (bl' & -> & Hbl'); [lia..| |].
  { rewrite !length_app. destruct pcomma; cbn; lia. }
  exists bl'. split; [|lia]. f_equal. f_equal.
  rewrite (joined_app _ _ _ (run_sections_ne _ _ k)), drop_drop. rewrite <- !app_assoc. f_equal.
  replace (S f + k)%nat with (S (f + k)) by lia. rewrite !app_assoc. f_equal.
  rewrite <- !app_assoc, Htext. by destruct (run_sections (trk_index e) (tkm_step t) k) eqn:E;
    [by apply run_sections_ne in E|destruct pcomma].
Qed.

(** The text is that of the sections, and it fits. *)
Lemma cvt_range_spec (t : ajtrkhd) (state buflen : Z) : array_ok t -> 0 <= buflen ->
  exists buflen', cvt_range buflen (Some t) state = Some (Some (Range.range_to_str (queued state t)), buflen') /\
    0 <= buflen'.
Proof.
  intros Ht Hb. unfold cvt_range. pose proof (table_len _ (proj1 Ht)) as Hct.
  destruct (cvt_loop_spec state t (S (Z.to_nat (tkm_ct t))) Ht (length (tkm_tbl t)) 0 false []
    (if buflen =? 0 then 1000 else buflen)) as (bl & Hl & Hbl); [lia..| |].
  { case_if; cbn; lia. }
  change (Z.of_nat 0) with 0 in Hl. rewrite Hl. cbn [mbind option_bind]. exists bl. split.
  - by rewrite <- joined_to_str.
  - revert Hbl. case_if; lia.
Qed.

(** ** Reading ranges in the server *)

Lemma skip_space_digit (s : cstring) : isdigit (deref s) = true -> skip_space s = s.
Proof. destruct s as [|c s]; [done|]. cbn. intros Hc. by rewrite isdigit_not_space. Qed.

Lemma is_digit_end (s : cstring) : isdigit (deref s) = true ->
  is_char (deref s) NUL = false /\ is_char (deref s) ","%char = false /\ is_char (deref s) "]"%char = false.
Proof. intros Hs. by rewrite !isdigit_not_char. Qed.

Lemma not_space (s : cstring) : isspace (deref s) = false -> skip_space s = s.
Proof. destruct s as [|c s]; [done|]. cbn. by intros ->. Qed.

Lemma stops_end (s : cstring) : Range.stops s ->
  isdigit (deref s) = false /\ at_end s = true /\ isspace (deref s) = false /\ skip_space s = s.
Proof. intros [->|[s' ->]]; done. Qed.

(** The text after a section and its comma *)
Definition after_comma (s : cstring) : cstring := skip_char s ","%char.

(** The numbers of a range and the count of its indices, when all of them and a
    step past the last stay in [int] *)
Lemma range_count (x y z : Z) : 0 <= x <= y -> y <= Range.VAL_MAX -> 1 <= z <= Range.VAL_MAX + 1 ->
  Z.quot (int32 (int32 (y - x) + z)) z = (y - x) / z + 1.
Proof.
  unfold Range.VAL_MAX. intros Hx Hy Hz. rewrite (int32_id (y - x)), int32_id by (unfold in_int, INT_MIN, INT_MAX; lia).
  rewrite Z.quot_div_nonneg by lia. replace (y - x + z) with (y - x + 1 * z) by lia. rewrite Z.div_add by lia. lia.
Qed.

Lemma int32_val (v : Z) : 0 <= v <= Range.VAL_MAX + 1 -> int32 v = v.
Proof. unfold Range.VAL_MAX. intros Hv. apply int32_id. unfold in_int, INT_MIN, INT_MAX. lia. Qed.

Ltac small := unfold Range.VAL_MAX, LONG_MAX in *; lia.

Lemma parse_single (x : Z) (rest : cstring) : 0 <= x <= Range.VAL_MAX -> Range.stops rest ->
  parse_subjob_index (dec_nat x ++ rest) = P_range (after_comma rest) x x 1 1.
Proof.
  intros Hx Hr. destruct (stops_end rest Hr) as (Hd & He & Hsp & Hsk).
  pose proof (Range.deref_dec_nat x rest ltac:(lia)) as Hdig. destruct (is_digit_end _ Hdig) as (H1 & H2 & H3).
  unfold parse_subjob_index. rewrite (skip_space_digit _ Hdig), H1, H3, Hdig. cbn [orb negb].
  rewrite strtol10_dec_nat by (done || small). rewrite Hsk, He. rewrite int32_val by small.
  by rewrite range_count, Z.sub_diag by small.
Qed.

Lemma parse_pair (x y : Z) (rest : cstring) :
  0 <= x < y -> y <= Range.VAL_MAX -> Range.stops rest ->
  parse_subjob_index (dec_nat x ++ "-"%char :: dec_nat y ++ rest) = P_range rest x y 1 (y - x + 1).
Proof.
  intros Hx Hy Hr. destruct (stops_end rest Hr) as (Hd & He & Hsp & Hsk).
  pose proof (Range.deref_dec_nat x ("-"%char :: dec_nat y ++ rest) ltac:(lia)) as Hdig.
  destruct (is_digit_end _ Hdig) as (H1 & H2 & H3).
  unfold parse_subjob_index. rewrite (skip_space_digit _ Hdig), H1, H3, Hdig. cbn [orb negb].
  rewrite strtol10_dec_nat by (done || small). cbn [skip_space].
  change (isspace "-") with false. cbv iota. unfold at_end at 1. cbn [deref tl].
  change (is_char "-" NUL) with false. change (is_char "-" ",") with false.
  change (is_char "-" "]") with false. change (is_char "-" "-") with true. cbn [orb negb].
  rewrite strtol10_dec_nat by (done || small). rewrite Hsp, He. rewrite !int32_val by small.
  rewrite (proj2 (Z.leb_gt y x)) by lia. rewrite range_count by small. by rewrite Z.div_1_r.
Qed.

Lemma parse_step (x y z : Z) (rest : cstring) :
  0 <= x < y -> y <= Range.VAL_MAX -> 1 <= z <= Range.VAL_MAX + 1 -> Range.stops rest ->
  parse_subjob_index (dec_nat x ++ "-"%char :: dec_nat y ++ ":"%char :: dec_nat z ++ rest) =
    P_range (after_comma rest) x y z ((y - x) / z + 1).
Proof.
  intros Hx Hy Hz Hr. destruct (stops_end rest Hr) as (Hd & He & Hsp & Hsk).
  pose proof (Range.deref_dec_nat x ("-"%char :: dec_nat y ++ ":"%char :: dec_nat z ++ rest) ltac:(lia)) as Hdig.
  destruct (is_digit_end _ Hdig) as (H1 & H2 & H3).
  unfold parse_subjob_index. rewrite (skip_space_digit _ Hdig), H1, H3, Hdig. cbn [orb negb].
  rewrite strtol10_dec_nat by (done || small). cbn [skip_space].
  change (isspace "-") with false. cbv iota. unfold at_end at 1. cbn [deref tl].
  change (is_char "-" NUL) with false. change (is_char "-" ",") with false.
  change (is_char "-" "]") with false. change (is_char "-" "-") with true. cbn [orb negb].
  rewrite strtol10_dec_nat by (done || small). cbn [deref tl]. change (isspace ":") with false. cbv iota.
  unfold at_end at 1. cbn [deref]. change (is_char ":" NUL) with false. change (is_char ":" ",") with false.
  change (is_char ":" "]") with false. change (is_char ":" ":") with true. cbn [orb negb].
  rewrite skip_space_digit by (apply Range.deref_dec_nat; lia). cbn [tl].
  rewrite strtol10_dec_nat by (done || small). rewrite Hsk. rewrite !int32_val by small.
  rewrite (proj2 (Z.leb_gt y x)), (proj2 (Z.ltb_ge z 1)) by lia. cbn [orb]. by rewrite range_count by small.
Qed.

(** One printed section: the comma after a plain pair is left in the text. *)
Lemma parse_body (c : Range.range) (rest : cstring) : Range.printable1 c -> Range.stops rest ->
  parse_subjob_index (Range.body c ++ rest) =
    P_range (if (1 <? Range.r_count c) && (Range.r_step c <=? 1) then rest else after_comma rest)
      (Range.r_start c) (Range.r_end c) (Range.r_step c) (Range.r_count c).
Proof.
  intros Hp Hr. pose proof Hp as [(H0 & H1 & H2 & H3 & He) Hone]. rewrite Range.printable_body by done.
  rewrite Z.gtb_ltb. destruct (Z.ltb_spec 1 (Range.r_count c)) as [Hg|Hg]; cbn [andb].
  - rewrite Z.gtb_ltb. destruct (Z.ltb_spec 1 (Range.r_step c)) as [Hs|Hs].
    + rewrite (proj2 (Z.leb_gt _ _)) by lia. rewrite <- app_assoc. cbn [app]. rewrite <- app_assoc. cbn [app].
      rewrite parse_step by (done || nia). f_equal. rewrite He.
      replace (_ - _) with ((Range.r_count c - 1) * Range.r_step c) by lia. rewrite Z.div_mul by lia. lia.
    + rewrite (proj2 (Z.leb_le _ _)) by lia. rewrite <- app_assoc. cbn [app]. rewrite <- app_assoc. cbn [app].
      rewrite parse_pair by (done || nia). f_equal; nia.
  - assert (Range.r_count c = 1) as Hc by lia. rewrite (Hone Hc) in *.
    rewrite parse_single by (done || lia). f_equal; nia.
Qed.

(** ** The sections of a table *)

Lemma arith_in_range (n : nat) (x z lo hi : Z) : 1 <= z -> lo <= x -> x + (Z.of_nat n - 1) * z <= hi ->
  Forall (fun v => lo <= v <= hi) (Range.arith n x z).
Proof.
  revert x. induction n as [|n IH]; intros x Hz Hlo Hhi; [by constructor|]. cbn. constructor; [nia|].
  apply IH; [done|lia|]. lia.
Qed.

Lemma sections_printable (state step : Z) (fuel : nat) : forall (l : list ajtrk) (x : Z),
  1 <= step <= Range.VAL_MAX + 1 -> 0 <= x -> x + (Z.of_nat (length l) - 1) * step <= Range.VAL_MAX ->
  map trk_index l = Range.arith (length l) x step ->
  Forall Range.printable1 (sections fuel state step l).
Proof.
  induction fuel as [|fuel IH]; intros l x Hs Hx Hmax Hix; [by constructor|].
  destruct l as [|e l]; [by constructor|]. cbn [sections]. cbn in Hix. injection Hix as He Hix.
  cbn [length] in Hmax. case_if; [|apply (IH l (x + step)); [done|lia|lia|done]].
  pose proof (prefix_len_le state l) as Hk. set (k := prefix_len state l) in *. apply Forall_app. split.
  - rewrite He. destruct k as [|[|k]]; cbn; repeat constructor; cbn; unfold Range.VAL_MAX in *; nia.
  - apply (IH _ (x + step + Z.of_nat k * step)); [done|nia| |].
    + rewrite length_drop. nia.
    + rewrite <- skipn_map, Hix, (arith_cut k (length l)) by done.
      rewrite drop_app_length' by (by rewrite length_arith). by rewrite length_drop.
Qed.

Lemma queued_printable (state : Z) (t : ajtrkhd) : table_ok t -> Forall Range.printable1 (queued state t).
Proof.
  intros Ht. destruct (tk_index _ Ht) as (x & Hx & Hix & Hmax & Hst). pose proof (tk_step _ Ht).
  rewrite (table_len _ Ht) in Hmax. by apply (sections_printable _ _ _ _ x).
Qed.

Lemma queued_elems (state : Z) (t : ajtrkhd) : table_ok t ->
  Range.elems (queued state t) = map trk_index (filter (fun e => trk_status e = state) (tkm_tbl t)).
Proof. intros Ht. destruct (tk_index _ Ht) as (x & _ & Hix & _). by apply (sections_elems _ _ _ _ x). Qed.

(** What the scheduler reads *)
Lemma parse_queued (state : Z) (t : ajtrkhd) : table_ok t ->
  Range.range_parse (Some (Range.range_to_str (queued state t))) = queued state t.
Proof.
  intros Ht. destruct (queued state t) as [|c l] eqn:E; [done|]. rewrite <- E.
  apply Range.parse_printed; [by rewrite E|by apply queued_printable].
Qed.

(** ** Queueing the indices of a range *)

(** The statuses after the indices in [l] are queued *)
Definition marked (l : list Z) (t : ajtrkhd) : list Z :=
  map (fun e => if bool_decide (trk_index e ∈ l) then JOB_STATE_QUEUED else trk_status e) (tkm_tbl t).

Lemma marked_nil (t : ajtrkhd) : marked [] t = statuses t.
Proof. apply map_ext. intros e. by rewrite bool_decide_false by apply not_elem_of_nil. Qed.

Lemma index_inj (t : ajtrkhd) (i k : nat) (e e' : ajtrk) : table_ok t ->
  tkm_tbl t !! i = Some e -> tkm_tbl t !! k = Some e' -> trk_index e = trk_index e' -> i = k.
Proof.
  intros Ht He He' Heq. destruct (tk_index _ Ht) as (x & _ & Hix & _). pose proof (tk_step _ Ht).
  pose proof (lookup_lt_Some _ _ _ He). pose proof (lookup_lt_Some _ _ _ He').
  pose proof (f_equal (.!! i) Hix) as Hi. pose proof (f_equal (.!! k) Hix) as Hk.
  rewrite list_lookup_fmap, He in Hi. rewrite list_lookup_fmap, He' in Hk. cbn in Hi, Hk.
  rewrite arith_lookup in Hi, Hk by lia. injection Hi as Hi. injection Hk as Hk. nia.
Qed.

(** Marking in two steps: the tables agree on the indices, and the statuses of
    the second are those of the first with [a] marked. *)
Lemma marked_step (a b : list Z) (t t' : ajtrkhd) :
  map trk_index (tkm_tbl t') = map trk_index (tkm_tbl t) -> statuses t' = marked a t ->
  marked b t' = marked (a ++ b) t.
Proof.
  intros Hix Hst. apply list_eq. intros i. unfold marked. rewrite !list_lookup_fmap.
  apply (f_equal (.!! i)) in Hix, Hst. unfold statuses, marked in Hst. rewrite !list_lookup_fmap in Hix, Hst.
  destruct (tkm_tbl t' !! i) as [e'|], (tkm_tbl t !! i) as [e|]; try done. cbn in *.
  injection Hix as ->. injection Hst as ->. f_equal.
  destruct (decide (trk_index e ∈ b)) as [Hb|Hb].
  - rewrite !bool_decide_true; [done|set_solver|done].
  - rewrite (bool_decide_false (_ ∈ b)) by done. repeat case_bool_decide; set_solver.
Qed.

Lemma queue_section_spec (n : nat) : forall (fuel : nat) (j : job) (t : ajtrkhd) (x y z : Z),
  ji_ajtrk j = Some t -> array_ok t -> 0 <= x -> 1 <= z <= Range.VAL_MAX + 1 -> y <= Range.VAL_MAX ->
  y = x + (Z.of_nat n - 1) * z -> (n <= fuel)%nat ->
  exists j' t', queue_section fuel j x y z = Some j' /\ same_but_table j j' /\ ji_ajtrk j' = Some t' /\
    array_ok t' /\ tkm_ct t' = tkm_ct t /\ tkm_step t' = tkm_step t /\
    map trk_index (tkm_tbl t') = map trk_index (tkm_tbl t) /\ statuses t' = marked (Range.arith n x z) t.
Proof.
  induction n as [|n IH]; intros fuel j t x y z Hj Ht Hx Hz Hy Hyx Hf.
  - exists j, t. split; [destruct fuel; cbn [queue_section]; by rewrite (proj2 (Z.leb_gt x y)) by lia|].
    split; [apply same_but_table_refl|]. do 5 (split; [done|]). symmetry. apply marked_nil.
  - destruct fuel as [|fuel]; [lia|]. cbn [queue_section]. rewrite (proj2 (Z.leb_le x y)) by nia.
    assert (int32 (x + z) = x + z) as -> by (apply int32_id; unfold in_int, INT_MIN, INT_MAX, Range.VAL_MAX in *; nia).
    assert (exists j1 t1, (i ← numindex_to_offset j x;
        if i =? -1 then Some j else set_subjob_tblstate j i JOB_STATE_QUEUED) = Some j1 /\
      same_but_table j j1 /\ ji_ajtrk j1 = Some t1 /\ array_ok t1 /\ tkm_ct t1 = tkm_ct t /\
      tkm_step t1 = tkm_step t /\ map trk_index (tkm_tbl t1) = map trk_index (tkm_tbl t) /\
      statuses t1 = marked [x] t) as (j1 & t1 & Hq & Hsame & Hj1 & Ht1 & Hct1 & Hst1 & Hix1 & Hs1).
    { destruct (decide (x ∈ map trk_index (tkm_tbl t))) as [Hin|Hout].
      - apply list_elem_of_fmap in Hin as (e & -> & He). apply list_elem_of_lookup_1 in He as (k & He).
        rewrite (numindex_to_offset_spec j t k e Hj (proj1 Ht) He). cbn [mbind option_bind].
        rewrite (proj2 (Z.eqb_neq (Z.of_nat k) (-1))) by lia.
        pose proof (lookup_lt_Some _ _ _ He) as Hlt. pose proof (table_len _ (proj1 Ht)) as Hlen.
        destruct (set_tblstate_spec j t (Z.of_nat k) JOB_STATE_QUEUED Hj Ht) as
          (j1 & t1 & ? & ? & ? & ? & ? & ? & ? & ? & Hs); [lia|done|].
        exists j1, t1. split; [done|]. split; [done|]. split; [done|]. split; [done|].
        split_and!; try done. rewrite Hs. apply list_eq. intros i. unfold marked, statuses.
        rewrite list_lookup_fmap, Nat2Z.id. destruct (decide (i = k)) as [->|Hne].
        + rewrite list_lookup_insert_eq by (by rewrite length_map). rewrite He. cbn.
          by rewrite bool_decide_true by set_solver.
        + rewrite list_lookup_insert_ne, list_lookup_fmap by done.
          destruct (tkm_tbl t !! i) as [e'|] eqn:He'; [|done]. cbn. rewrite bool_decide_false; [done|].
          intros Hin%list_elem_of_singleton. apply Hne. by eapply (index_inj t i k e' e (proj1 Ht)).
      - exists j, t. unfold numindex_to_offset. rewrite Hj, (table_len _ (proj1 Ht)), Nat2Z.id.
        change 0 with (Z.of_nat 0). rewrite find_index_none by done. split; [done|].
        split; [apply same_but_table_refl|]. split; [done|]. split; [done|]. split_and!; try done.
        unfold statuses, marked. apply map_ext_in. intros e He. rewrite bool_decide_false; [done|].
        intros <-%list_elem_of_singleton. apply Hout. apply list_elem_of_fmap. exists e. split; [done|].
        by apply list_elem_of_In. }
    destruct (numindex_to_offset j x) as [i|]; [|done]. cbn [mbind option_bind] in Hq |- *. rewrite Hq.
    cbn [mbind option_bind].
    destruct (IH fuel j1 t1 (x + z) y z Hj1 Ht1) as (j2 & t2 & -> & Hsame2 & Hj2 & Ht2 & Hct2 & Hst2 & Hix2 & Hs2);
      [lia|done|done|nia|lia|].
    exists j2, t2. split; [done|]. split; [by eapply same_but_table_trans|]. split; [done|]. split; [done|].
    split_and!; [congruence..|]. rewrite Hs2. by apply (marked_step [x]).
Qed.

(** A plain range [x-y] may only come last: the server stops at the comma after
    one. *)
Definition stepped (l : list Range.range) : Prop :=
  Forall (fun c => Range.r_count c = 1 \/ 1 < Range.r_step c) (removelast l).

Lemma stops_joined (l : list Range.range) : Range.stops (concat (map (fun d => ","%char :: Range.body d) l)).
Proof. destruct l as [|d l]; [by left|right]. cbn. by eexists. Qed.

Lemma elem_of_removelast {A : Type} (x : A) (l : list A) : x ∈ removelast l -> x ∈ l.
Proof.
  induction l as [|a l IH]; [done|]. destruct l as [|b l]; cbn [removelast].
  - by intros ?%elem_of_nil.
  - intros [->|Hx]%elem_of_cons; [by left|right; by apply IH].
Qed.

(** What is left of the text after its first section *)
Lemma rest_of_sections (c : Range.range) (l : list Range.range) : Range.printable1 c -> stepped (c :: l) ->
  (if (1 <? Range.r_count c) && (Range.r_step c <=? 1)
   then concat (map (fun d => ","%char :: Range.body d) l)
   else after_comma (concat (map (fun d => ","%char :: Range.body d) l))) = Range.range_to_str l.
Proof.
  intros Hp Hs. destruct l as [|d l]; [by case_match|].
  inversion Hs as [|? ? Hc _]; subst. assert ((1 <? Range.r_count c) && (Range.r_step c <=? 1) = false) as -> by lia.
  rewrite Range.range_to_str_join. cbn [map concat]. done.
Qed.

Lemma queue_sections_spec (l : list Range.range) : forall (fuel : nat) (j : job) (t : ajtrkhd),
  Forall Range.printable1 l -> stepped l -> ji_ajtrk j = Some t -> array_ok t -> (length l < fuel)%nat ->
  exists j' t', queue_sections fuel j (Range.range_to_str l) = Some j' /\ same_but_table j j' /\
    ji_ajtrk j' = Some t' /\ array_ok t' /\ map trk_index (tkm_tbl t') = map trk_index (tkm_tbl t) /\
    statuses t' = marked (Range.elems l) t.
Proof.
  induction l as [|c l IH]; intros fuel j t Hp Hs Hj Ht Hf; (destruct fuel as [|fuel]; [cbn in Hf; lia|]);
    cbn [queue_sections].
  - exists j, t. split; [done|]. split; [apply same_but_table_refl|]. do 3 (split; [done|]). symmetry. apply marked_nil.
  - apply Forall_cons in Hp as [Hc Hp]. rewrite Range.range_to_str_join, parse_body by (done || apply stops_joined).
    rewrite rest_of_sections by done. pose proof Hc as [(H0 & H1 & H2 & H3 & He) _].
    destruct (queue_section_spec (Z.to_nat (Range.r_count c))
      (Z.to_nat (Range.r_end c - Range.r_start c + 1)) j t (Range.r_start c) (Range.r_end c) (Range.r_step c) Hj Ht)
      as (j1 & t1 & -> & Hsame & Hj1 & Ht1 & _ & _ & Hix1 & Hs1); [done|done|done|rewrite Z2Nat.id by lia; lia|nia|].
    cbn [mbind option_bind].
    destruct (IH fuel j1 t1 Hp) as (j2 & t2 & -> & Hsame2 & Hj2 & Ht2 & Hix2 & Hs2); [|done|done|cbn in Hf; lia|].
    { unfold stepped in *. destruct l as [|d l]; [by constructor|]. by inversion Hs. }
    exists j2, t2. split; [done|]. split; [by eapply same_but_table_trans|]. split; [done|]. split; [done|].
    split; [congruence|]. rewrite Hs2. by apply marked_step.
Qed.

Lemma sections_step (state step : Z) (fuel : nat) : forall (l : list ajtrk) (c : Range.range),
  1 < step -> c ∈ sections fuel state step l -> Range.r_count c = 1 \/ 1 < Range.r_step c.
Proof.
  induction fuel as [|fuel IH]; intros l c Hst Hl; [by apply elem_of_nil in Hl|].
  destruct l as [|e l]; [by apply elem_of_nil in Hl|]. cbn [sections] in Hl.
  destruct (trk_status e =? state); [|by eapply IH].
  apply elem_of_app in Hl as [Hl|Hl]; [|by eapply IH].
  destruct (prefix_len _ _) as [|[|k]]; cbn in Hl; repeat (apply elem_of_cons in Hl as [->|Hl]; [cbn; tauto|]);
    by apply elem_of_nil in Hl.
Qed.

Lemma length_sections (state step : Z) (fuel : nat) : forall l : list ajtrk,
  (length l <= fuel)%nat -> (length (sections fuel state step l) <= length (Range.range_to_str (sections fuel state step l)))%nat.
Proof.
  intros l _. destruct (sections fuel state step l) as [|c s]; [done|]. rewrite Range.range_to_str_join, length_app.
  pose proof (Range.length_printed s). assert (length (Range.body c) <> 0)%nat; [|cbn; lia].
  unfold Range.body. intros Hz. apply length_zero_iff_nil in Hz. apply app_eq_nil in Hz as [Hz _].
  destruct (_ >? 1); [by apply app_eq_nil in Hz as [_ ?]|]. unfold dec_int in Hz.
  destruct (Z.ltb_spec (Range.r_start c) 0); [done|].
  by destruct (dec_nat_spec (Range.r_start c) ltac:(lia)) as (_ & ? & _).
Qed.

(** ** Counts *)

(** Changing the state of a subjob in the tracking table keeps the table in
    order: the entry gets the state, the other entries and the indices stay, and
    every counter of [tkm_subjsct] is again the number of entries in its state.
    [numindex_to_offset] finds the entry by its index. *)
Theorem subjob_state_counts (j : job) (t : ajtrkhd) (k : nat) (e : ajtrk) (newstate : Z)
  (Hj : ji_ajtrk j = Some t) (Ht : array_ok t) (He : tkm_tbl t !! k = Some e)
  (Hs : 0 <= newstate < PBS_NUMJOBSTATE) :
  exists j' t', (i ← numindex_to_offset j (trk_index e); set_subjob_tblstate j i newstate) = Some j' /\
    ji_ajtrk j' = Some t' /\ array_ok t' /\
    statuses t' = <[k := newstate]> (statuses t) /\ map trk_index (tkm_tbl t') = map trk_index (tkm_tbl t) /\
    (forall s, 0 <= s < PBS_NUMJOBSTATE ->
       rd (tkm_subjsct t') s = Some (Z.of_nat (length (filter (fun v => v = s) (statuses t'))))).
Proof.
  rewrite (numindex_to_offset_spec j t k e Hj (proj1 Ht) He). cbn [mbind option_bind].
  pose proof (lookup_lt_Some _ _ _ He) as Hlt. pose proof (table_len _ (proj1 Ht)) as Hlen.
  destruct (set_tblstate_spec j t (Z.of_nat k) newstate Hj Ht) as (j' & t' & -> & _ & Hj' & Ht' & _ & _ & _ & Hix & Hst);
    [lia|done|].
  rewrite Nat2Z.id in Hst. exists j', t'. split; [done|]. split; [done|]. split; [done|]. split; [done|].
  split; [done|]. intros s Hsr. rewrite (co_state _ _ _ _ (tk_counts _ (proj1 Ht')) s Hsr). f_equal.
  unfold tally, statuses. f_equal. clear. induction (tkm_tbl t') as [|a l IH]; [done|]. cbn [map].
  rewrite !filter_cons. assert (status_of a = Some s <-> trk_status a = s) by (unfold status_of; split; congruence).
  destruct (decide (status_of a = Some s)), (decide (trk_status a = s)); cbn; tauto || by rewrite ?IH.
Qed.

(** ** Ranges as text *)

(** What the server publishes in [array_indices_remaining], or for any other
    state, fits the buffer of [cvt_range], and the scheduler reads from it the
    indices of exactly the subjobs in that state, in order. *)
Theorem remaining_read (t : ajtrkhd) (state buflen : Z) (Ht : array_ok t) (Hb : 0 <= buflen) :
  exists text buflen', cvt_range buflen (Some t) state = Some (Some text, buflen') /\
    Range.elems (Range.range_parse (Some text)) =
      map trk_index (filter (fun e => trk_status e = state) (tkm_tbl t)).
Proof.
  destruct (cvt_range_spec t state buflen Ht Hb) as (bl & Hc & _).
  exists (Range.range_to_str (queued state t)), bl. split; [done|].
  rewrite parse_queued by apply Ht. apply queued_elems, Ht.
Qed.

(** C35. An array job that moves to another server: from the text of its queued
    indices, [fixup_arrayindicies] makes the fresh table queued where the old one
    was, and expired elsewhere.  A plain range [x-y] must not be followed by
    more; ranges with a step may. *)
Theorem moved_array_restored (t : ajtrkhd) (j : job) (u : ajtrkhd) (buflen buflen' : Z) (text : cstring)
  (Ht : array_ok t) (Hj : ji_ajtrk j = Some u) (Hu : array_ok u)
  (Hix : map trk_index (tkm_tbl u) = map trk_index (tkm_tbl t))
  (Hstep : 1 < tkm_step t \/ Forall (fun c => Range.r_count c = 1) (removelast (queued JOB_STATE_QUEUED t)))
  (Hb : 0 <= buflen) (Htext : cvt_range buflen (Some t) JOB_STATE_QUEUED = Some (Some text, buflen')) :
  exists j' u', fixup_arrayindicies text j = Some j' /\ ji_ajtrk j' = Some u' /\ array_ok u' /\
    map trk_index (tkm_tbl u') = map trk_index (tkm_tbl t) /\
    statuses u' = map (fun s => if s =? JOB_STATE_QUEUED then JOB_STATE_QUEUED else JOB_STATE_EXPIRED) (statuses t).
Proof.
  destruct (cvt_range_spec t JOB_STATE_QUEUED buflen Ht Hb) as (bl & Hc & _). rewrite Hc in Htext.
  injection Htext as <- _. unfold fixup_arrayindicies. rewrite Hj. cbn [mbind option_bind].
  destruct (set_whole_table_spec j u JOB_STATE_EXPIRED Hj Hu) as
    (j1 & u1 & -> & _ & Hj1 & Hu1 & _ & _ & _ & Hix1 & Hs1); [done|]. cbn [mbind option_bind].
  destruct (queue_sections_spec (queued JOB_STATE_QUEUED t)
    (S (length (Range.range_to_str (queued JOB_STATE_QUEUED t)))) j1 u1)
    as (j2 & u2 & -> & _ & Hj2 & Hu2 & Hix2 & Hs2); [apply queued_printable, Ht| |done|done| |].
  - unfold stepped. destruct Hstep as [Hst|Hst]; [|eapply Forall_impl; [exact Hst|by left]].
    apply Forall_forall. intros c Hin%elem_of_removelast. by eapply sections_step.
  - pose proof (length_sections JOB_STATE_QUEUED (tkm_step t) (length (tkm_tbl t)) (tkm_tbl t)). unfold queued. lia.
  - exists j2, u2. split; [done|]. split; [done|]. split; [done|]. split; [congruence|]. rewrite Hs2.
    apply list_eq. intros i. unfold marked, statuses. rewrite !list_lookup_fmap.
    rewrite Hix in Hix1. pose proof (f_equal (.!! i) Hix1) as Hi. pose proof (f_equal (.!! i) Hs1) as Hsi.
    unfold statuses in Hsi. rewrite list_lookup_fmap in Hi, Hsi. rewrite (list_lookup_fmap _ (tkm_tbl t)) in Hi.
    destruct (tkm_tbl u1 !! i) as [e1|] eqn:He1, (tkm_tbl t !! i) as [e|] eqn:He; try done.
    cbn [fmap option_fmap option_map] in Hi, Hsi |- *. injection Hi as Hi. f_equal.
    symmetry in Hsi. apply lookup_replicate in Hsi as [Hsi _]. rewrite Hi, queued_elems by apply Ht.
    destruct (Z.eqb_spec (trk_status e) JOB_STATE_QUEUED) as [Hq|Hq].
    + rewrite bool_decide_true; [done|]. apply list_elem_of_fmap. exists e. split; [done|].
      apply list_elem_of_filter. split; [done|]. by eapply list_elem_of_lookup_2.
    + rewrite bool_decide_false; [done|]. intros (e' & Hee & [Hq' Hin]%list_elem_of_filter)%list_elem_of_fmap.
      apply list_elem_of_lookup_1 in Hin as (k & Hk). apply Hq.
      rewrite (index_inj t i k e e' (proj1 Ht) He Hk Hee) in He. congruence.
Qed.

End SubjobProps.
