(* ===== verification/SubjobIds.v ===== *)
(** * Array jobs: from a range in a command to the ids of subjobs

    Module [SubjobIds]: the table the server makes of a range the commands
    accept, and the ids it gives to subjobs; then what goes wrong with ranges.
    The theorems are about [SubjobTable]. *)

From Stdlib Require Import ZArith Lia Ascii String.
From stdpp Require Import gmap.
From S2P Require Import Prelude Index JobData SubjobTable Ranges SubjobProps.
Import Job Counters Subjobs SubjobProps.

Module SubjobIds.

(** ** A submitted range *)

(** The text of a range, with a step or without *)
Definition range_text (x y : Z) (z : option Z) : cstring :=
  dec_nat x ++ "-"%char :: dec_nat y ++ match z with Some z => ":"%char :: dec_nat z | None => [] end.

Lemma skip_digits_before (ds s : cstring) : all_digits ds -> isdigit (deref s) = false -> skip_digits (ds ++ s) = s.
Proof.
  induction 1 as [|c ds Hc _ IH]; intros Hs; cbn.
  - destruct s as [|c s]; [done|]. cbn in *. by rewrite Hs.
  - rewrite Hc. by apply IH.
Qed.

Lemma skip_dec_nat (v : Z) (s : cstring) : 0 <= v -> isdigit (deref s) = false -> skip_digits (dec_nat v ++ s) = s.
Proof. intros Hv. apply skip_digits_before. by apply dec_nat_spec. Qed.

Lemma chk_accepts (x y : Z) (z : option Z) : 0 <= x < y -> y <= Range.VAL_MAX -> 1 <= default 1 z <= Range.VAL_MAX + 1 ->
  chk_Jrange (range_text x y z) = 0.
Proof.
  intros Hx Hy Hz. unfold chk_Jrange, range_text. set (tl_ := match z with Some z => _ | None => _ end).
  assert (isdigit (deref tl_) = false) as Ht by (by destruct z).
  rewrite Range.deref_dec_nat by lia. cbn [negb]. rewrite skip_dec_nat by (done || lia). cbn [deref tl].
  change (is_char "-" "-") with true. cbn [negb]. rewrite strtol10_dec_nat by (done || small). cbn [fst].
  rewrite (proj2 (Z.ltb_ge x 0)), (proj2 (Z.eqb_neq x LONG_MAX)) by small.
  rewrite Range.deref_dec_nat by lia. cbn [negb]. rewrite skip_dec_nat by (done || lia).
  rewrite strtol10_dec_nat by (done || small). cbn [fst].
  rewrite (proj2 (Z.leb_gt y x)), (proj2 (Z.eqb_neq y LONG_MAX)) by small.
  destruct z as [z|]; cbn [from_option id] in Hz; [|done]. unfold tl_. cbn [deref tl].
  change (is_char ":" NUL) with false. change (is_char ":" ":") with true. cbn [negb andb].
  rewrite <- (app_nil_r (dec_nat z)), skip_dec_nat by (done || lia). cbn [deref].
  change (is_char NUL NUL) with true. cbn [negb]. rewrite strtol10_dec_nat by (done || small). cbn [fst].
  by rewrite (proj2 (Z.ltb_ge z 1)), (proj2 (Z.eqb_neq z LONG_MAX)) by small.
Qed.

Lemma parse_submitted (x y : Z) (z : option Z) : 0 <= x < y -> y <= Range.VAL_MAX ->
  1 <= default 1 z <= Range.VAL_MAX + 1 ->
  parse_subjob_index (range_text x y z) = P_range [] x y (default 1 z) ((y - x) / default 1 z + 1).
Proof.
  intros Hx Hy Hz. unfold range_text. destruct z as [z|]; cbn [from_option id] in *.
  - rewrite <- (app_nil_r (dec_nat z)). rewrite parse_step by (done || by left). done.
  - rewrite parse_pair by (done || by left). by rewrite Z.div_1_r.
Qed.

Lemma fill_spec (s y z : Z) (n : nat) : forall (room : nat) (x : Z),
  0 <= x -> 1 <= z <= Range.VAL_MAX + 1 -> y <= Range.VAL_MAX ->
  (n <= room)%nat -> x + (Z.of_nat n - 1) * z <= y < x + Z.of_nat n * z ->
  fill_tbl room x y z s = Some (map (fun i => new_entry i s) (Range.arith n x z)).
Proof.
  induction n as [|n IH]; intros room x Hx Hz Hy Hr Hn.
  - destruct room; cbn [fill_tbl]; by rewrite (proj2 (Z.leb_gt x y)) by lia.
  - destruct room as [|room]; [lia|]. cbn [fill_tbl]. rewrite (proj2 (Z.leb_le x y)) by nia.
    rewrite int32_id by (unfold in_int, INT_MIN, INT_MAX, Range.VAL_MAX in *; nia).
    by rewrite IH by (done || lia).
Qed.

(** The entries of a new table *)
Definition new_table (ct z x : Z) : ajtrkhd :=
  {| tkm_ct := ct; tkm_step := z; tkm_flags := 0;
     tkm_subjsct := <[Z.to_nat JOB_STATE_QUEUED := ct]> (replicate (Z.to_nat PBS_NUMJOBSTATE) 0);
     tkm_dsubjsct := 0;
     tkm_tbl := map (fun i => new_entry i JOB_STATE_QUEUED) (Range.arith (Z.to_nat ct) x z) |}.

Lemma map_new_index (l : list Z) (s : Z) : map trk_index (map (fun i => new_entry i s) l) = l.
Proof. induction l as [|i l IH]; cbn; [done|]. by rewrite IH. Qed.

Lemma tally_new (l : list Z) (s : Z) :
  tally status_of (map (fun i => new_entry i JOB_STATE_QUEUED) l) s =
    if s =? JOB_STATE_QUEUED then Z.of_nat (length l) else 0.
Proof.
  induction l as [|i l IH]; [by destruct (s =? JOB_STATE_QUEUED)|]. cbn [map]. rewrite tally_cons, IH.
  unfold status_of. cbn [trk_status new_entry]. destruct (Z.eqb_spec s JOB_STATE_QUEUED) as [Heq|Hn].
  - rewrite bool_decide_true by congruence. cbn [length]. lia.
  - rewrite bool_decide_false by congruence. lia.
Qed.

Lemma new_table_ok (ct z x : Z) : 0 <= x -> 1 <= ct <= INT_MAX -> 1 <= z <= Range.VAL_MAX + 1 ->
  x + (ct - 1) * z <= Range.VAL_MAX -> table_ok (new_table ct z x).
Proof.
  intros Hx Hct Hz Hmax. constructor; cbn [tkm_ct tkm_step tkm_tbl tkm_subjsct new_table].
  - constructor.
    + rewrite length_map, length_arith. lia.
    + rewrite length_map, length_arith. lia.
    + by rewrite length_insert, length_replicate.
    + intros s Hs. rewrite tally_new, length_arith, Z2Nat.id by lia. apply rd_lookup. split; [lia|].
      destruct (Z.eqb_spec s JOB_STATE_QUEUED) as [->|Hn]; [done|].
      rewrite list_lookup_insert_ne by (unfold JOB_STATE_QUEUED in *; lia). apply lookup_replicate.
      split; [done|]. unfold PBS_NUMJOBSTATE in *. lia.
  - apply Forall_forall. intros e (i & -> & _)%list_elem_of_fmap. done.
  - lia.
  - exists x. rewrite length_map, map_new_index, length_arith. by split_and!; try lia.
Qed.

(** Indices of six digits and steps of four are narrow enough. *)
Lemma new_table_narrow (ct z x : Z) : 0 <= x -> 1 <= ct -> 1 <= z < 10 ^ 4 -> x + (ct - 1) * z < 10 ^ 6 ->
  narrow (new_table ct z x).
Proof.
  intros Hx Hct Hz Hmax. exists 6%nat. split.
  - cbn [tkm_tbl new_table]. apply Forall_forall. intros e (i & -> & Hi)%list_elem_of_fmap. cbn.
    apply Range.elem_of_arith in Hi as (k & Hk & ->). rewrite Z2Nat.id in Hk by lia.
    rewrite Range.dec_int_nonneg by nia. apply dec_nat_length; [|lia]. cbn. nia.
  - cbn [tkm_step new_table]. rewrite Range.dec_int_nonneg by lia.
    destruct (dec_nat_length z 4) as [_ Hl]; [cbn; lia|lia|lia].
Qed.

(** The table the server makes of such a range *)
Lemma mk_submitted (server_max : option Z) (x y : Z) (z : option Z) :
  0 <= x < y -> y <= Range.VAL_MAX -> 1 <= default 1 z <= Range.VAL_MAX + 1 ->
  let step := default 1 z in
  let ct := (y - x) / step + 1 in
  1 <= ct <= INT_MAX /\ x + (ct - 1) * step <= y /\ y < x + ct * step /\
  mk_subjob_index_tbl server_max (range_text x y z) JOB_STATE_QUEUED =
    Some (if default PBS_MAX_ARRAY_JOB_DFL server_max <? ct then inr PBSE_MaxArraySize else inl (new_table ct step x)).
Proof.
  intros Hx Hy Hz. cbv zeta. unfold mk_subjob_index_tbl. rewrite parse_submitted by done.
  set (step := default 1 z) in *. set (ct := (y - x) / step + 1).
  pose proof (Z.div_mod (y - x) step ltac:(lia)) as Hdm. pose proof (Z.mod_pos_bound (y - x) step ltac:(lia)) as Hm.
  assert (0 <= (y - x) / step <= Range.VAL_MAX) as Hq by (unfold Range.VAL_MAX in *; split; [apply Z.div_pos|]; nia).
  assert (1 <= ct <= INT_MAX) as Hct by (unfold ct, Range.VAL_MAX, INT_MAX in *; lia).
  split; [done|]. split; [unfold ct; nia|]. split; [unfold ct; nia|]. case_if; [done|].
  assert (int32 (ct - 1) = ct - 1) as -> by (apply int32_id; unfold in_int, INT_MAX, INT_MIN in *; lia).
  assert ((LONG_MAX <? tbl_bytes ct) = false) as ->.
  { unfold tbl_bytes. rewrite int32_id by (unfold in_int, INT_MAX, INT_MIN in *; lia).
    rewrite uint64_id by (unfold INT_MAX, ULONG_MAX in *; lia). unfold INT_MAX, LONG_MAX in *. lia. }
  rewrite (fill_spec _ _ _ (Z.to_nat ct)) by (rewrite ?Z2Nat.id by lia; unfold ct in *; nia). done.
Qed.

(** C33. A range [x-y] or [x-y:z] whose numbers stay in range is accepted by the
    commands, and the server makes of it a table in order, with the indices
    [x], [x+z], ... up to [y], all queued; or it refuses it when there are more
    indices than [max_array_size] allows. *)
Theorem submitted_range_makes_table (server_max : option Z) (x y : Z) (z : option Z)
  (Hx : 0 <= x < y) (Hy : y <= Range.VAL_MAX) (Hz : 1 <= default 1 z <= Range.VAL_MAX + 1) :
  let step := default 1 z in
  let ct := (y - x) / step + 1 in
  chk_Jrange (range_text x y z) = 0 /\
  (if default PBS_MAX_ARRAY_JOB_DFL server_max <? ct
   then mk_subjob_index_tbl server_max (range_text x y z) JOB_STATE_QUEUED = Some (inr PBSE_MaxArraySize)
   else exists t,
    mk_subjob_index_tbl server_max (range_text x y z) JOB_STATE_QUEUED = Some (inl t) /\ table_ok t /\
    (forall v, v ∈ map trk_index (tkm_tbl t) <-> x <= v <= y /\ (v - x) mod step = 0) /\
    statuses t = replicate (Z.to_nat ct) JOB_STATE_QUEUED).
Proof.
  cbv zeta. split; [by apply chk_accepts|].
  destruct (mk_submitted server_max x y z Hx Hy Hz) as (Hct & Hlast & Hnext & ->).
  set (step := default 1 z) in *. set (ct := (y - x) / step + 1) in *. case_if; [done|].
  exists (new_table ct step x). split; [done|].
  split; [apply new_table_ok; [lia..|]; lia|]. split.
  - intros v. cbn [tkm_tbl new_table]. rewrite map_new_index. rewrite Range.elem_of_arith. split.
    + intros (i & Hi & ->). rewrite Z2Nat.id in Hi by lia. split; [nia|].
      replace (x + i * step - x) with (i * step) by lia. apply Z.mod_mul. lia.
    + intros [Hv Hmod]. exists ((v - x) / step). pose proof (Z.div_mod (v - x) step ltac:(lia)) as Hv2.
      rewrite Z2Nat.id by lia. rewrite Hmod in Hv2. split; [|lia]. split; [apply Z.div_pos; lia|].
      apply Z.div_lt_upper_bound; [lia|]. nia.
  - unfold statuses. cbn [tkm_tbl new_table]. rewrite map_map. cbn.
    rewrite <- (length_arith (Z.to_nat ct) x step) at 2. generalize (Range.arith (Z.to_nat ct) x step).
    intros l. induction l as [|i l IH]; cbn; [done|]. by rewrite IH.
Qed.

(** The attributes of a new array job: its table, the flag and the indices that
    remain *)
Lemma setup_new_array (server_max : option Z) (pattr : attribute) (x y : Z) (z : option Z) (j : job) :
  0 <= x < y -> y <= Range.VAL_MAX -> 1 <= default 1 z <= Range.VAL_MAX + 1 ->
  at_str (atr j JOB_ATR_array_indices_submitted) = Some (range_text x y z) ->
  is_job_array (jobid j) = IS_ARRAY_ArrayJob ->
  (y - x) / default 1 z + 1 <= default PBS_MAX_ARRAY_JOB_DFL server_max ->
  exists j', setup_arrayjob_attrs server_max pattr ATR_ACTION_NEW j = Some (j', PBSE_NONE) /\
    ji_ajtrk j' = Some (new_table ((y - x) / default 1 z + 1) (default 1 z) x) /\
    state j' = state j /\ ji_svrflags (ji_qs j') = Z.lor (ji_svrflags (ji_qs j)) JOB_SVFLG_ArrayJob /\
    atr j' JOB_ATR_array_indices_remaining =
      (let a := atr j JOB_ATR_array_indices_remaining in if is_set a then a else decode_str a (at_str pattr)).
Proof.
  intros Hx Hy Hz Hs Hid Hmax. destruct (mk_submitted server_max x y z Hx Hy Hz) as (_ & _ & _ & Hmk).
  rewrite (proj2 (Z.ltb_ge _ _) Hmax) in Hmk. unfold setup_arrayjob_attrs. change (atr (upd_attr (upd_attr j _ _) _ _)
    JOB_ATR_array_indices_submitted) with (atr j JOB_ATR_array_indices_submitted). rewrite Hs.
  cbn [orb Z.eqb ATR_ACTION_NEW ATR_ACTION_RECOV ATR_ACTION_ALTER Pos.eqb mbind option_bind]. rewrite Hmk.
  cbn [mbind option_bind negb andb]. change (jobid (set_ajtrk _ _)) with (jobid j). rewrite Hid. cbn [negb Z.eqb Pos.eqb IS_ARRAY_ArrayJob].
  eexists. split; [done|]. split; [by case_if|]. split; [by case_if|]. split; [by case_if|].
  unfold is_set, atr. cbn. by destruct (has _ _).
Qed.

(** ** Ids *)

(** The id of an array job: a sequence number, brackets, and what follows *)
Definition plain (s : cstring) : Prop :=
  Forall (fun c => c ≠ "["%char /\ c ≠ "]"%char /\ c ≠ "."%char) s.

Lemma strchr_plain (s r : cstring) (c : ascii) : Forall (fun d => d ≠ c) s -> strchr (s ++ c :: r) c = Some (c :: r).
Proof.
  induction 1 as [|d s Hd _ IH]; cbn; unfold is_char.
  - by rewrite bool_decide_true.
  - by rewrite bool_decide_false.
Qed.

Lemma before_app (s r : cstring) : before (s ++ r) r = s.
Proof. unfold before. rewrite length_app, Nat.add_sub. by rewrite take_app_length. Qed.

Lemma digits_not (v : Z) (c : ascii) : 0 <= v -> isdigit c = false -> Forall (fun d => d ≠ c) (dec_nat v).
Proof.
  intros Hv Hc. destruct (dec_nat_spec v Hv) as (Hall & _ & _). eapply Forall_impl; [exact Hall|].
  intros d Hd. cbn in *. congruence.
Qed.

(** The id of a subjob: [mk_subjob_id] puts the index between the brackets of
    the parent's id; from it the server gets back the index, the parent's id and
    the offset in the table, and tells it from the id of an array. *)
Theorem subjob_id_roundtrip (j : job) (t : ajtrkhd) (seq host : cstring) (k : nat) (e : ajtrk)
  (Hid : jobid j = seq ++ lit "[]" ++ host) (Hseq : plain seq)
  (Hhost : host = [] \/ exists h, host = "."%char :: h)
  (Hj : ji_ajtrk j = Some t) (Ht : table_ok t) (He : tkm_tbl t !! k = Some e)
  (Hlen : Z.of_nat (length (jobid j) + length (dec_int (trk_index e))) <= PBS_MAXSVRJOBID) :
  exists id, mk_subjob_id j (Z.of_nat k) = Some id /\
    id = seq ++ "["%char :: dec_nat (trk_index e) ++ "]"%char :: host /\
    is_job_array id = IS_ARRAY_Single /\ is_job_array (jobid j) = IS_ARRAY_ArrayJob /\
    get_index_from_jid id = Some (dec_nat (trk_index e)) /\
    subjob_index_to_offset j (get_index_from_jid id) = Some (Z.of_nat k) /\
    parent_id id = Some (jobid j).
Proof.
  destruct (tk_index _ Ht) as (x & Hx & Hix & Hmax & _). pose proof (lookup_lt_Some _ _ _ He) as Hlt.
  pose proof (tk_step _ Ht) as Hst. pose proof (table_len _ Ht) as Hct.
  assert (0 <= trk_index e <= Range.VAL_MAX) as Hi.
  { apply (f_equal (.!! k)) in Hix. rewrite list_lookup_fmap, He, arith_lookup in Hix by lia.
    injection Hix as ->. nia. }
  pose proof Hseq as Hp. unfold plain in Hp. rewrite !Forall_and in Hp. destruct Hp as (Hp1 & Hp2 & Hp3).
  assert (dec_int (trk_index e) = dec_nat (trk_index e)) as Hdec by (apply Range.dec_int_nonneg; lia).
  set (ds := dec_nat (trk_index e)). set (id := seq ++ "["%char :: ds ++ "]"%char :: host).
  change (lit "[]" ++ host) with ("["%char :: "]"%char :: host) in Hid.
  assert (strchr id "["%char = Some ("["%char :: ds ++ "]"%char :: host)) as Hopen by (by apply strchr_plain).
  assert (strchr id "]"%char = Some ("]"%char :: host)) as Hclose.
  { unfold id. rewrite cons_middle, !app_assoc. apply strchr_plain. apply Forall_app. split.
    - apply Forall_app. split; [done|]. by repeat constructor.
    - apply digits_not; [lia|done]. }
  assert (get_index_from_jid id = Some ds) as Hget.
  { unfold get_index_from_jid. rewrite Hopen, Hclose. cbn [tl length].
    rewrite length_app. cbn [length]. rewrite (proj2 (Nat.leb_gt _ _)) by lia. by rewrite before_app. }
  exists id. split.
  { unfold mk_subjob_id. rewrite Hj. cbn [mbind option_bind].
    assert (rd (tkm_tbl t) (Z.of_nat k) = Some e) as -> by (apply rd_lookup; rewrite Nat2Z.id; split; [lia|done]).
    cbn [mbind option_bind]. rewrite Hid.
    assert (strchr (seq ++ "["%char :: "]"%char :: host) "]"%char = Some ("]"%char :: host)) as ->.
    { rewrite cons_middle, app_assoc. apply strchr_plain. apply Forall_app. split; [done|]. by repeat constructor. }
    cbn [mbind option_bind]. rewrite strchr_plain by done. cbn [mbind option_bind]. rewrite before_app, Hdec.
    fold ds. change (seq ++ ["["%char] ++ ds ++ "]"%char :: host) with id.
    rewrite Hid, Hdec in Hlen. rewrite length_app in Hlen. cbn [length] in Hlen. fold ds in Hlen.
    rewrite (proj2 (Z.leb_le _ _)); [done|]. unfold id. rewrite length_app. cbn [length]. rewrite length_app. cbn [length]. lia. }
  split; [done|]. split.
  { unfold is_job_array. rewrite Hopen. cbn [tl].
    pose proof (Range.deref_dec_nat (trk_index e) ("]"%char :: host) ltac:(lia)) as Hd. fold ds in Hd.
    destruct (is_digit_end _ Hd) as (_ & _ & ->). unfold ds. rewrite skip_dec_nat by (done || lia). done. }
  split.
  { unfold is_job_array. by rewrite Hid, strchr_plain. }
  split; [done|]. split.
  { rewrite Hget. unfold subjob_index_to_offset. rewrite Hj.
    destruct (dec_nat_spec (trk_index e) ltac:(lia)) as (_ & Hne & _). fold ds in Hne.
    destruct ds as [|d ds'] eqn:Eds; [done|]. rewrite <- Eds. unfold atoi, ds.
    rewrite <- (app_nil_r (dec_nat _)), strtol10_dec_nat by (done || small). cbn [fst].
    rewrite int32_val by small. pose proof (numindex_to_offset_spec j t k e Hj Ht He) as Hn.
    unfold numindex_to_offset in Hn. by rewrite Hj in Hn. }
  unfold parent_id. rewrite Hopen. unfold id. rewrite before_app. rewrite Hid. f_equal. f_equal.
  change (lit "[]") with (["["; "]"]%char). cbn [app]. do 2 f_equal.
  assert (strchr id "."%char = strchr host "."%char) as Hdot.
  { unfold id. assert (forall a b, Forall (fun d => d ≠ "."%char) a -> strchr (a ++ b) "."%char = strchr b "."%char) as Hskip.
    { induction 1 as [|d a Hd _ IH]; [done|]. cbn. unfold is_char. by rewrite bool_decide_false. }
    rewrite Hskip by done. change ("["%char :: ds ++ "]"%char :: host) with (["["%char] ++ ds ++ ["]"%char] ++ host).
    rewrite Hskip by (by repeat constructor). rewrite Hskip by (apply digits_not; [lia|done]).
    by rewrite Hskip by (by repeat constructor). }
  fold id. rewrite Hdot. by destruct Hhost as [->|[h ->]].
Qed.

(** ** Instances *)

Definition no_attr : attribute := Attribute 0 0 NUL None.

(** An array job with a table *)
Definition array_job (id : string) (t : ajtrkhd) : job :=
  MkJob (Jobfix (lit id) JOB_STATE_QUEUED JOB_SUBSTATE_QUEUED JOB_SVFLG_ArrayJob (lit "workq") []
           JOB_UNION_TYPE_EXEC 0 0 0 0 0)
    None None None (Some t) 0 false false false false false (fun _ => no_attr).

(** The table of the array [3-15:4] *)
Definition table4 : ajtrkhd := new_table 4 4 3.

Lemma table4_ok : array_ok table4.
Proof.
  split; [apply new_table_ok; unfold Range.VAL_MAX, INT_MAX; lia|].
  exists 2%nat. split; [by repeat constructor; vm_compute; lia|]. vm_compute. lia.
Qed.

Lemma subjob_state_counts_witness :
  exists j' t', (i ← numindex_to_offset (array_job "7[].srv" table4) 7;
                 set_subjob_tblstate (array_job "7[].srv" table4) i JOB_STATE_RUNNING) = Some j' /\
    ji_ajtrk j' = Some t' /\ statuses t' = [1; 4; 1; 1] /\ tkm_subjsct t' = [0; 3; 0; 0; 1; 0; 0; 0; 0; 0].
Proof.
  destruct (SubjobProps.subjob_state_counts (array_job "7[].srv" table4) table4 1 (new_entry 7 JOB_STATE_QUEUED)
    JOB_STATE_RUNNING eq_refl table4_ok eq_refl ltac:(by vm_compute)) as (j' & t' & Hs & Hj & _ & Hst & _ & _).
  exists j', t'. split; [exact Hs|]. split; [exact Hj|]. split; [exact Hst|].
  assert (Some (tkm_subjsct t') = Some [0; 3; 0; 0; 1; 0; 0; 0; 0; 0]) as [=->]; [|done].
  transitivity ((fun j => from_option tkm_subjsct [] (ji_ajtrk j)) <$> Some j'); [cbn; by rewrite Hj|].
  rewrite <- Hs. by vm_compute.
Defined.

Lemma remaining_read_witness :
  exists text buflen', cvt_range 0 (Some table4) JOB_STATE_QUEUED = Some (Some text, buflen') /\
    text = lit "3-15:4" /\ Range.elems (Range.range_parse (Some text)) = [3; 7; 11; 15].
Proof.
  destruct (SubjobProps.remaining_read table4 JOB_STATE_QUEUED 0 table4_ok ltac:(lia)) as (text & bl & Hc & He).
  exists text, bl. split; [exact Hc|]. split; [|exact He].
  assert (Some (Some text, bl) = Some (Some (lit "3-15:4"), 1000)) as [= -> _]; [|done].
  rewrite <- Hc. by vm_compute.
Defined.

Lemma moved_array_restored_witness :
  exists j' u', fixup_arrayindicies (lit "3-15:4") (array_job "7[].srv" table4) = Some j' /\
    ji_ajtrk j' = Some u' /\ statuses u' = [1; 1; 1; 1].
Proof.
  destruct (SubjobProps.moved_array_restored table4 (array_job "7[].srv" table4) table4 0 1000 (lit "3-15:4")
    table4_ok eq_refl table4_ok eq_refl (or_introl eq_refl) ltac:(lia) ltac:(by vm_compute))
    as (j' & u' & Hf & Hj & _ & _ & Hs).
  exists j', u'. split; [exact Hf|]. split; [exact Hj|exact Hs].
Defined.

Lemma submitted_range_makes_table_witness :
  chk_Jrange (lit "3-15:4") = 0 /\
  exists t, mk_subjob_index_tbl None (lit "3-15:4") JOB_STATE_QUEUED = Some (inl t) /\ map trk_index (tkm_tbl t) = [3; 7; 11; 15].
Proof.
  destruct (submitted_range_makes_table None 3 15 (Some 4) ltac:(lia) ltac:(by vm_compute) ltac:(by vm_compute))
    as [Hc (t & Ht & _)].
  split; [exact Hc|]. exists t. split; [exact Ht|].
  assert (Some (inl t) = Some (inl (B := Z) table4)) as [= ->]; [|by vm_compute]. rewrite <- Ht. by vm_compute.
Defined.

Lemma subjob_id_roundtrip_witness :
  exists id, mk_subjob_id (array_job "7[].srv" table4) 2 = Some id /\ id = lit "7[11].srv" /\
    parent_id id = Some (lit "7[].srv").
Proof.
  destruct (subjob_id_roundtrip (array_job "7[].srv" table4) table4 (lit "7") (lit ".srv") 2
    (new_entry 11 JOB_STATE_QUEUED)) as (id & Hm & He & _ & _ & _ & _ & Hp).
  - done.
  - by repeat constructor.
  - right. by eexists.
  - done.
  - apply table4_ok.
  - done.
  - by vm_compute.
  - exists id. split; [exact Hm|]. split; [exact He|exact Hp].
Defined.

(** ** What goes wrong *)

(** A plain range followed by more: an array job whose remaining indices are
    [1-3,5] arrives with subjob 5 expired. *)
Definition moved_table : ajtrkhd :=
  default (new_table 5 1 1)
    (set_subjob_tblstate (array_job "7[].srv" (new_table 5 1 1)) 3 JOB_STATE_RUNNING ≫= ji_ajtrk).

Lemma moved_array_loses_subjobs :
  map trk_index (tkm_tbl moved_table) = [1; 2; 3; 4; 5] /\ statuses moved_table = [1; 1; 1; JOB_STATE_RUNNING; 1] /\
  cvt_range 0 (Some moved_table) JOB_STATE_QUEUED = Some (Some (lit "1-3,5"), 1000) /\
  (statuses <$> (fixup_arrayindicies (lit "1-3,5") (array_job "7[].srv" (new_table 5 1 1)) ≫= ji_ajtrk)) =
    Some [1; 1; 1; JOB_STATE_EXPIRED; JOB_STATE_EXPIRED].
Proof. by split_and!; vm_compute. Qed.

(** The parser stops with an error at the comma. *)
Lemma parse_stops_at_comma :
  parse_subjob_index (lit "1-3,5") = P_range (lit ",5") 1 3 1 3 /\ parse_subjob_index (lit ",5") = P_bad /\
  parse_subjob_index (lit "1-3:2,5") = P_range (lit "5") 1 3 2 2.
Proof. by split_and!; vm_compute. Qed.

(** Numbers above the range of [int] are accepted by the commands and cut by the
    server. *)
Lemma accepted_range_is_cut :
  chk_Jrange (lit "4294967297-4294967299") = 0 /\
  exists t, mk_subjob_index_tbl None (lit "4294967297-4294967299") JOB_STATE_QUEUED = Some (inl t) /\
    map trk_index (tkm_tbl t) = [1; 2; 3].
Proof. split; [by vm_compute|]. eexists. split; [by vm_compute|]. by vm_compute. Qed.

(** A range whose count overflows passes the check of [max_array_size]. *)
Lemma negative_count_passes :
  chk_Jrange (lit "1-2147483647:2") = 0 /\
  parse_subjob_index (lit "1-2147483647:2") = P_range [] 1 2147483647 2 (-1073741824) /\
  mk_subjob_index_tbl (Some 100) (lit "1-2147483647:2") JOB_STATE_QUEUED = Some (inr PBSE_SYSTEM).
Proof. by split_and!; vm_compute. Qed.

(** With indices of ten digits the text of [cvt_range] leaves its buffer. *)
Definition wide_table : ajtrkhd :=
  default (new_table 1 1 1)
    (foldl (fun j i => j ≫= fun j => set_subjob_tblstate j i JOB_STATE_RUNNING)
       (Some (array_job "7[].srv" (new_table 168 2 1000000000)))
       (Range.arith 4 1 2 ++ Range.arith 40 11 4) ≫= ji_ajtrk).

Lemma cvt_range_overflows : cvt_range 0 (Some wide_table) JOB_STATE_QUEUED = None.
Proof. by vm_compute. Qed.

(** An index of ten digits does not fit the buffer of [subst_array_index]. *)
Lemma index_overflows :
  let subst x := subst_array_index 4096 (Some (array_job "7[].srv" (new_table 2 1 x))) 0 (lit "out.^array_index^") in
  subst 999999998 = Some (lit "out.999999998") /\ subst 1000000000 = None.
Proof. by split_and!; vm_compute. Qed.

End SubjobIds.
