(* ===== verification/JobState.v ===== *)
(** * Jobs of the server: queueing, states, history

    Module [State]: [src/lib/Libifl/list_link.c] on the server's lists, and from
    [src/server/svr_jobfunc.c], [job_func.c], [array_func.c] and [queue_func.c]
    the functions that link a job into the server and its queue and unlink it,
    change its state, keep the counts of jobs by state, end an array job and keep
    finished jobs as history.

    [update_subjob_state] may end the parent of the subjob, and ending a job may
    update its parent: the functions between the two take what
    [chk_array_doneness] does as the argument [doneness].  The parent of a subjob
    is no subjob, so [DONE_DEPTH] levels are enough ([JobCounts]). *)

From Stdlib Require Import ZArith Lia Ascii String.
From stdpp Require Import gmap.
From S2P Require Import Prelude Index JobData SubjobTable.
Import Job Subjobs.

Module State.

Section Server.
Context {I : Type} `{Index I ptr} (answer : list call -> Z).
Implicit Types (w : world I) (p : ptr).
Abbreviation M := (M (world I)).

(** A call whose result is used *)
Definition ask (c : call) : M Z := ask answer c.

(** ** Lists *)

Definition is_linked (l : list ptr) p : bool := bool_decide (p ∈ l).

Definition delete_link (l : list ptr) p : list ptr := filter (fun q => q ≠ p) l.

(** [append_link(head, newp, pobj)]: the program aborts on an entry that is linked. *)
Definition append_link (l : list ptr) p : option (list ptr) :=
  if is_linked l p then None else Some (l ++ [p]).

(** The walk of [svr_enquejob] from the end of the list to the last job of a rank
    that is not larger, and the [insert_link] after it; [back] is the list
    reversed. *)
Fixpoint insert_back (js : gmap ptr job) (rank : Z) p (back : list ptr) : option (list ptr) :=
  match back with
  | [] => Some [p]
  | c :: back' =>
      pjcur ← js !! c;
      if qrank pjcur <=? rank then Some (p :: back) else cons c <$> insert_back js rank p back'
  end.

Definition insert_by_rank (js : gmap ptr job) (rank : Z) p (l : list ptr) : option (list ptr) :=
  if is_linked l p then None else @rev ptr <$> insert_back js rank p (rev l).

Definition on_alljobs (f : list ptr -> option (list ptr)) : M unit :=
  let* w := the_world in
  let* l := need (f (svr_alljobs w)) in
  modify (fun w => set_lists w l (svr_newjobs w) (svr_unlicensedjobs w)).

(** ** Finding jobs and queues *)

Definition strncaseeq (a b : cstring) (n : Z) : bool := strcaseeq (take (Z.to_nat n) a) (take (Z.to_nat n) b).

(** The characters up to [c] *)
Definition up_to (s : cstring) (c : ascii) : cstring :=
  match strchr s c with Some r => before s r | None => s end.

(** The host part of an id, replaced by the name of the server when the two are
    the same name or one is the short form of the other *)
Definition server_host (server_name host : cstring) : cstring :=
  if strncaseeq server_name host (PBS_MAXSERVERNAME + 1) then server_name
  else
    match strchr host "."%char, strchr server_name "."%char with
    | Some host_dot, None =>
        let len := length server_name in
        if (len =? length (before host host_dot))%nat && strncaseeq host server_name (Z.of_nat len)
        then server_name else host
    | None, Some serv_dot =>
        let len := length host in
        if (len =? length (before server_name serv_dot))%nat && strncaseeq host server_name (Z.of_nat len)
        then server_name else host
    | _, _ => host
    end.

(** The key [find_job] looks up: the id up to [@], with the name of the server.
    It is made in a buffer of [PBS_MAXSVRJOBID + 1] bytes. *)
Definition search_key (server_name jobid : cstring) : option cstring :=
  let buf := up_to (take (Z.to_nat PBS_MAXSVRJOBID) jobid) "@"%char in
  let buf :=
    match strchr buf "."%char with
    | Some host_dot => before buf host_dot ++ "."%char :: server_host server_name (tl host_dot)
    | None => buf ++ "."%char :: server_name
    end in
  if Z.of_nat (length buf) <=? PBS_MAXSVRJOBID then Some buf else None.

(** The walk over the list of all jobs, when there is no index *)
Fixpoint find_in_list (js : gmap ptr job) (id : cstring) (l : list ptr) : option (option ptr) :=
  match l with
  | [] => Some None
  | p :: l' =>
      pj ← js !! p;
      if strncaseeq id (jobid pj) (PBS_MAXSVRJOBID + 1) then Some (Some p) else find_in_list js id l'
  end.

Definition find_job (id : cstring) : M (option ptr) :=
  let* w := the_world in
  let* buf := need (search_key (server_name (sv w)) id) in
  match AVL_jctx w with
  | Some ctx => ret (ix_find buf ctx)
  | None => need (find_in_list (jobs w) id (svr_alljobs w))
  end.

(** [find_arrayparent] *)
Definition find_arrayparent (subjobid : cstring) : M (option ptr) :=
  let* id := need (parent_id subjobid) in find_job id.

Fixpoint find_queue (qs : gmap ptr pbs_queue) (name : cstring) (l : list ptr) : option (option ptr) :=
  match l with
  | [] => Some None
  | p :: l' => q ← qs !! p; if streq name (qu_name q) then Some (Some p) else find_queue qs name l'
  end.

Definition find_queuebyname (quename : cstring) : M (option ptr) :=
  let* w := the_world in
  need (find_queue (queues w) (up_to (take (Z.to_nat PBS_MAXDEST) quename) "@"%char) (svr_queues w)).

(** When an operation fails, the index is destroyed and no longer used. *)
Definition svr_avljob_oper p (delkey : bool) : M unit :=
  let* w := the_world in
  match AVL_jctx w with
  | None => ret tt
  | Some ctx =>
      let* pjob := get_job p in
      let '(ctx, ok) :=
        if delkey then let '(ctx, r) := ix_delete (jobid pjob) ctx in (ctx, bool_decide (is_Some r))
        else ix_add (jobid pjob) p ctx in
      modify (fun w => set_ctx w (if ok : bool then Some ctx else None))
  end.

(** ** Counts *)

Definition sv_count (dn s d : Z) : M unit :=
  let* w := the_world in
  let* ct := need (bump (sv_jobstates w) s d) in
  modify (fun w => set_sv_counts w (int32 (sv_numjobs w + dn)) ct).

Definition qu_count (q : ptr) (dn s d : Z) : M unit :=
  let* pque := get_queue q in
  let* ct := need (bump (qu_njstate pque) s d) in
  put_queue q (set_counts pque (int32 (qu_numjobs pque + dn)) ct (qu_jobs pque)).

(** [server.sv_jobstates[old]--; server.sv_jobstates[new]++;] and the same for
    the queue of the job *)
Definition move_counts p (oldstate newstate : Z) : M unit :=
  let* _ := sv_count 0 oldstate (-1) in
  let* _ := sv_count 0 newstate 1 in
  let* pjob := get_job p in
  match ji_qhdr pjob with
  | None => ret tt
  | Some q => let* _ := qu_count q 0 oldstate (-1) in qu_count q 0 newstate 1
  end.

Definition statechars : cstring := lit "TQHWREXBMF".

Definition set_statechar p : M unit :=
  let* pjob := get_job p in
  let* c := need (rd statechars (state pjob)) in
  let c :=
    if state pjob =? JOB_STATE_RUNNING then
      if flag pjob JOB_SVFLG_Suspend then "S"%char
      else if flag pjob JOB_SVFLG_Actsuspd then "U"%char else c
    else c in
  on_attr p JOB_ATR_state (fun a => add_flags (set_char a c) ATR_VFLAG_MODCACHE).

Definition state_char2int (stc : ascii) : Z :=
  default (-1) ((fun i => Z.of_nat (fst i)) <$> list_find (fun c => c = stc) statechars).

(** ** Subjobs *)

(** [set_subjob_tblstate] of a job *)
Definition set_tblstate p (offset newstate : Z) : M unit :=
  let* parent := get_job p in
  let* parent := need (set_subjob_tblstate parent offset newstate) in
  put_job p parent.

Definition upd_entry (offset : Z) (f : ajtrk -> ajtrk) (j : job) : option job :=
  t ← ji_ajtrk j;
  e ← rd (tkm_tbl t) offset;
  tbl ← wr (tkm_tbl t) offset (f e);
  Some (set_ajtrk j (Some (set_tbl t (tkm_subjsct t) tbl))).

(** [strncmp(a, b, len) == 0], of a [len] that was computed as an [int] *)
Definition strneq (a b : cstring) (len : Z) : bool :=
  if len <? 0 then streq a b else streq (take (Z.to_nat len) a) (take (Z.to_nat len) b).

Definition svr_chk_history_conf : M bool :=
  let* w := the_world in
  ret (negb (svr_history_enable (sv w) =? 0) && negb (svr_history_duration (sv w) =? 0)).

(** What the end of a subjob leaves in its entry *)
Definition end_entry (pjob : job) (history : bool) (e : ajtrk) : ajtrk :=
  {| trk_index := trk_index e; trk_status := trk_status e;
     trk_error := ji_exitstat (ji_qs pjob);
     trk_exitstat := if history && is_set (atr pjob JOB_ATR_exit_status) then 1 else trk_exitstat e;
     trk_substate := substate pjob;
     trk_stgout := if history && is_set (atr pjob JOB_ATR_stageout_status)
                   then int32 (at_long (atr pjob JOB_ATR_stageout_status)) else trk_stgout e |}.

Definition update_subjob_state (doneness : ptr -> M unit) p (newstate : Z) : M unit :=
  let* pjob := get_job p in
  match ji_parentaj pjob with
  | None => ret tt
  | Some pa =>
      let* parent := get_job pa in
      match ji_ajtrk parent with
      | None => ret tt
      | Some _ =>
          let* pc := need (strchr (jobid pjob) "["%char) in
          let len := Z.of_nat (length (before (jobid pjob) pc)) - 1 in
          if negb (strneq (jobid pjob) (jobid parent) len) then ret tt
          else
            let* _ := set_tblstate pa (ji_subjindx pjob) newstate in
            let* _ :=
              when (newstate =? JOB_STATE_EXPIRED)
                (let* hist := svr_chk_history_conf in
                 let* parent := get_job pa in
                 let* parent := need (upd_entry (ji_subjindx pjob) (end_entry pjob hist) parent) in
                 put_job pa (set_modified parent true)) in
            doneness pa
      end
  end.

(** ** Changing the state of a job *)

(** The end of [svr_setjobstate] *)
Definition save_changed p (changed : bool) : M Z :=
  let* pjob := get_job p in
  if ji_modified pjob then ask (C_job_save p (if ji_newjob pjob then SAVEJOB_NEW else SAVEJOB_FULL))
  else if changed then ask (C_job_save p SAVEJOB_QUICK)
  else ret 0.

(** What a change of state does to the times of a job in a queue *)
Definition state_times p (q : ptr) (newstate : Z) : M unit :=
  let* pque := get_queue q in
  let* w := the_world in
  if (qu_type pque =? QTYPE_Execution) && (newstate =? JOB_STATE_QUEUED) then
    let* _ := call_ (C_notify_scheduler p SCH_SCHEDULE_NEW) in
    let* pjob := get_job p in
    let* _ := when (negb (is_set (atr pjob JOB_ATR_etime)))
      (on_attr p JOB_ATR_etime
         (fun a => add_flags (set_long a (time_now (sv w))) (Z.lor ATR_VFLAG_SET ATR_VFLAG_MODCACHE))) in
    on_attr p JOB_ATR_stime free_null
  else when ((newstate =? JOB_STATE_HELD) || (newstate =? JOB_STATE_WAITING)) (on_attr p JOB_ATR_etime free_null).

(** [set_entity_*] of the server and of the queue of the job *)
Definition entity_calls p (fs : list string) (q : option ptr) (op : batch_op) : M unit :=
  modify (fun w => fold_left (fun w f => add_call w (C_entity (lit f) p q op)) fs w).

Definition set_state_of p (newstate newsubstate : Z) : M unit :=
  let* _ := on_job p (fun j => set_qs j (set_state (ji_qs j) newstate newsubstate)) in
  on_attr p JOB_ATR_substate (fun a => add_flags (set_long a newsubstate) ATR_VFLAG_MODCACHE).

(** The counts, the times and the parent; the state the job gets *)
Definition change_state (doneness : ptr -> M unit) p (oldstate newstate : Z) : M Z :=
  let* _ := move_counts p oldstate newstate in
  let* pjob := get_job p in
  let* _ := match ji_qhdr pjob with None => ret tt | Some q => state_times p q newstate end in
  if flag pjob JOB_SVFLG_SubJob then
    let newstate := if newstate =? JOB_STATE_FINISHED then JOB_STATE_EXPIRED else newstate in
    let* _ := update_subjob_state doneness p newstate in
    ret newstate
  else ret newstate.

Definition queued_entities : list string := ["ct_sum_queued"; "resc_sum_queued"]%string.
Definition max_entities : list string := ["ct_sum_max"; "resc_sum_max"]%string.

Definition svr_setjobstate (doneness : ptr -> M unit) p (newstate newsubstate : Z) : M Z :=
  let* pjob := get_job p in
  if state pjob =? JOB_STATE_FINISHED then ret 0
  else
    let oldstate := state pjob in
    let fresh := substate pjob =? JOB_SUBSTATE_TRANSICM in
    let moves := negb fresh && negb (oldstate =? newstate) in
    let changed := negb fresh && (negb (substate pjob =? newsubstate) || negb (oldstate =? newstate)) in
    let* newstate := (if moves then change_state doneness p oldstate newstate else ret newstate) in
    let* _ := set_state_of p newstate newsubstate in
    let* _ := set_statechar p in
    let* _ := call_ (C_update_resv p) in
    let* w := the_world in
    let* _ := when (SRV_ATR_EligibleTimeEnable (sv w) =? 1) (call_ (C_accrue p)) in
    let* _ := when ((newstate =? JOB_STATE_RUNNING) || (newstate =? JOB_STATE_BEGUN))
      (let* pjob := get_job p in
       let* _ := entity_calls p ["ct_sum_queued"]%string None DECR in
       let* _ := entity_calls p ["ct_sum_queued"]%string (ji_qhdr pjob) DECR in
       let* _ := entity_calls p ["resc_sum_queued"]%string None DECR in
       entity_calls p ["resc_sum_queued"]%string (ji_qhdr pjob) DECR) in
    save_changed p changed.

(** ** Unlinking a job *)

(** [--ct[s] < 0] *)
Definition negative (ct : list Z) (s : Z) : bool := match rd ct s with Some n => n <? 0 | None => false end.

(** The states [correct_ct] resets: [PBS_NUMJOBSTATE - 4] of them *)
Definition reset_counts (ct : list Z) : list Z :=
  replicate (Z.to_nat (PBS_NUMJOBSTATE - 4)) 0 ++ drop (Z.to_nat (PBS_NUMJOBSTATE - 4)) ct.

Fixpoint reset_queues (l : list ptr) : M unit :=
  match l with
  | [] => ret tt
  | q :: l' =>
      let* _ := on_queue q (fun pque => set_counts pque 0 (reset_counts (qu_njstate pque)) (qu_jobs pque)) in
      reset_queues l'
  end.

Fixpoint recount (l : list ptr) : M unit :=
  match l with
  | [] => ret tt
  | p :: l' =>
      let* pjob := get_job p in
      let* _ := sv_count 1 (state pjob) 1 in
      let* _ := match ji_qhdr pjob with None => ret tt | Some q => qu_count q 1 (state pjob) 1 end in
      recount l'
  end.

Definition correct_ct : M unit :=
  let* _ := modify (fun w => set_sv_counts w 0 (reset_counts (sv_jobstates w))) in
  let* w := the_world in
  let* _ := reset_queues (svr_queues w) in
  recount (svr_alljobs w).

(** From the list of all jobs; whether a count went wrong *)
Definition unlink_server p : M bool :=
  let* w := the_world in
  if negb (is_linked (svr_alljobs w) p) then ret false
  else
    let* _ := modify (fun w => set_lists w (delete_link (svr_alljobs w) p) (svr_newjobs w)
                                 (delete_link (svr_unlicensedjobs w) p)) in
    let* _ := svr_avljob_oper p true in
    let* pjob := get_job p in
    let* _ := sv_count (-1) (state pjob) (-1) in
    let* w := the_world in
    ret ((sv_numjobs w <? 0) || negative (sv_jobstates w) (state pjob)).

(** From the list of its queue *)
Definition unlink_queue p (q : ptr) : M bool :=
  let* _ := entity_calls p ["ct_sum_max"; "ct_sum_queued"; "resc_sum_max"; "resc_sum_queued"]%string (Some q) DECR in
  let* pque := get_queue q in
  if negb (is_linked (qu_jobs pque) p) then ret false
  else
    let* pjob := get_job p in
    let* _ := put_queue q (set_counts pque (qu_numjobs pque) (qu_njstate pque) (delete_link (qu_jobs pque) p)) in
    let* _ := qu_count q (-1) (state pjob) (-1) in
    let* pque := get_queue q in
    ret ((qu_numjobs pque <? 0) || negative (qu_njstate pque) (state pjob)).

Definition svr_dequejob p : M unit :=
  let* bad := unlink_server p in
  let* pjob := get_job p in
  let* bad := match ji_qhdr pjob with
              | None => ret bad
              | Some q =>
                  let* b := unlink_queue p q in
                  let* _ := on_job p (fun j => set_qhdr j None) in
                  ret (bad || b)
              end in
  let* _ := when bad correct_ct in
  let* _ := on_attr p JOB_ATR_qtime (fun a => drop_flags a ATR_VFLAG_SET) in
  call_ (C_clear_default_resc p).

(** [job_free] *)
Definition job_free p : M unit := let* _ := get_job p in modify (fun w => set_jobs w (delete p (jobs w))).

(** What the end of [job_purge] does before the job is freed *)
Definition purge_rest p : M unit :=
  let* pjob := get_job p in
  let* _ := call_ (C_remove_files p) in
  let* _ := call_ (C_db_delete (jobid pjob)) in
  let* _ := when (flag pjob JOB_SVFLG_HasNodes) (call_ (C_free_nodes p)) in
  let* _ := when (match ji_resvp pjob with Some r => ri_type r =? RESV_JOB_OBJECT | None => false end)
              (call_ (C_delete_resv p)) in
  modify (fun w =>
    set_lists w (svr_alljobs w)
      (match svr_newjobs w with n :: l => if bool_decide (n = p) then l else n :: l | [] => [] end)
      (svr_unlicensedjobs w)).

(** [job_purge] of the server *)
Definition job_purge (doneness : ptr -> M unit) p : M unit :=
  let* pjob := get_job p in
  let* _ := when (ji_rerun_preq pjob)
    (let* _ := call_ (C_reject_rerun p) in on_job p (fun j => set_rerun_preq j false)) in
  let* _ := when (negb (substate pjob =? JOB_SUBSTATE_TRANSIN) && negb (substate pjob =? JOB_SUBSTATE_TRANSICM))
    (let* _ := if flag pjob JOB_SVFLG_SubJob then
                 update_subjob_state doneness p
                   (if (substate pjob =? JOB_SUBSTATE_RERUN3) || (substate pjob =? JOB_SUBSTATE_QUEUED)
                    then JOB_STATE_QUEUED else JOB_STATE_EXPIRED)
               else entity_calls p (queued_entities ++ max_entities) None DECR in
     svr_dequejob p) in
  let* _ := purge_rest p in
  job_free p.

(** ** History *)

(** [strstr(s, t) != NULL] *)
Fixpoint contains (s t : cstring) : bool :=
  streq (take (length t) s) t || match s with [] => false | _ :: s' => contains s' t end.

Definition update_job_finish_comment (newsubstate : Z) (user : option cstring) (pjob : job) : job :=
  let a := atr pjob JOB_ATR_Comment in
  if negb (is_set a) then pjob
  else
    let s := default [] (at_str a) in
    let buffer :=
      if newsubstate =? JOB_SUBSTATE_FINISHED then s ++ lit " and finished"
      else if newsubstate =? JOB_SUBSTATE_FAILED then s ++ lit " and failed"
      else if newsubstate =? JOB_SUBSTATE_TERMINATED then
        if contains s (lit "terminated") then []
        else match user with
             | Some u => s ++ lit " and terminated by " ++ u
             | None => s ++ lit " and terminated"
             end
      else [] in
    match take (Z.to_nat (LOG_BUF_SIZE - 1)) buffer with
    | [] => pjob
    | buffer => upd_attr pjob JOB_ATR_Comment (fun a => decode_str a (Some buffer))
    end.

Definition svr_histjob_update (doneness : ptr -> M unit) p (newstate newsubstate : Z) : M unit :=
  let* pjob := get_job p in
  let* _ := when (negb (state pjob =? newstate)) (move_counts p (state pjob) newstate) in
  let* _ := on_job p (fun j => set_qs j (set_state (ji_qs j) newstate newsubstate)) in
  let* _ := set_statechar p in
  let sub := flag pjob JOB_SVFLG_SubJob in
  let newstate := if sub && (newstate =? JOB_STATE_FINISHED) then JOB_STATE_EXPIRED else newstate in
  let* _ := when sub (update_subjob_state doneness p newstate) in
  let* _ := when (flag pjob JOB_SVFLG_ArrayJob)
    (let* pjob := get_job p in
     let* pjob := need (set_whole_table pjob newstate) in
     put_job p pjob) in
  let* _ := on_attr p JOB_ATR_substate (fun a => add_flags (set_long a newsubstate) ATR_VFLAG_MODCACHE) in
  call_ (C_job_save p SAVEJOB_FULL).

(** The stage-out status of the subjobs: the last one, or 0 when there is one *)
Fixpoint stageout_status (l : list ajtrk) (st : Z) : Z :=
  match l with
  | [] => st
  | e :: l' =>
      if 0 <=? trk_stgout e then if trk_stgout e =? 0 then 0 else stageout_status l' (trk_stgout e)
      else stageout_status l' st
  end.

(** The first substate of a failed or terminated subjob *)
Fixpoint failed_substate (l : list ajtrk) : Z :=
  match l with
  | [] => JOB_SUBSTATE_FINISHED
  | e :: l' =>
      if (trk_substate e =? JOB_SUBSTATE_FAILED) || (trk_substate e =? JOB_SUBSTATE_TERMINATED)
      then trk_substate e else failed_substate l'
  end.

Definition set_and_cache (v : Z) (a : attribute) : attribute :=
  set_flags (set_long a v) (Z.lor ATR_VFLAG_SET ATR_VFLAG_MODCACHE).

(** The attributes and the substate a finished job gets *)
Definition finish_info (pjob : job) : job * Z :=
  match (if flag pjob JOB_SVFLG_ArrayJob then ji_ajtrk pjob else None) with
  | Some ptbl =>
      let tbl := take (Z.to_nat (tkm_ct ptbl)) (tkm_tbl ptbl) in
      let st := stageout_status tbl (-1) in
      let pjob := if st =? -1 then pjob else upd_attr pjob JOB_ATR_stageout_status (set_and_cache st) in
      let pjob :=
        if existsb (fun e => negb (trk_exitstat e =? 0)) tbl
        then upd_attr pjob JOB_ATR_exit_status (set_and_cache (ji_exitstat (ji_qs pjob))) else pjob in
      (pjob, if ji_terminated pjob then JOB_SUBSTATE_TERMINATED else failed_substate tbl)
  | None =>
      (pjob,
       if ji_terminated pjob then JOB_SUBSTATE_TERMINATED
       else if is_set (atr pjob JOB_ATR_exit_status) && negb (at_long (atr pjob JOB_ATR_exit_status) =? 0)
       then JOB_SUBSTATE_FAILED else JOB_SUBSTATE_FINISHED)
  end.

(** A moved job: the queue, the attributes and the comment *)
Definition moved_info (pjob : job) : job :=
  let destination := up_to (ji_destin (ji_qs pjob)) ":"%char in
  let qname := up_to (take (Z.to_nat (PBS_MAXQUEUENAME + PBS_MAXHOSTNAME)) destination) "@"%char in
  let pjob := set_qs pjob (set_queue (ji_qs pjob) (take (Z.to_nat PBS_MAXQUEUENAME) qname) destination) in
  let pjob := upd_attr pjob JOB_ATR_in_queue (fun a => decode_str a (Some destination)) in
  upd_attr pjob JOB_ATR_Comment (fun a => decode_str a (Some (lit "Job has been moved to " ++ chr 34 :: destination ++ [chr 34]))).

Definition svr_setjob_histinfo (doneness : ptr -> M unit) p (type : histjob_type) : M unit :=
  let* pjob := get_job p in
  let update (newstate newsubstate : Z) : M unit :=
    let* pjob := get_job p in
    let* _ := when (negb (state pjob =? JOB_STATE_MOVED) && negb (state pjob =? JOB_STATE_FINISHED) &&
                    negb (flag pjob JOB_SVFLG_SubJob))
      (let* _ := entity_calls p max_entities None DECR in
       let* _ := entity_calls p max_entities (ji_qhdr pjob) DECR in
       let* _ := entity_calls p queued_entities None DECR in
       entity_calls p queued_entities (ji_qhdr pjob) DECR) in
    let* w := the_world in
    let* _ := on_job p (fun j =>
      set_modified
        (upd_attr j JOB_ATR_history_timestamp
           (fun a => add_flags (set_long a (time_now (sv w))) (Z.lor ATR_VFLAG_SET ATR_VFLAG_MODCACHE))) true) in
    let* _ := svr_histjob_update doneness p newstate newsubstate in
    call_ (C_delete_tasks p) in
  match type with
  | T_MOV_JOB =>
      match ji_destin (ji_qs pjob) with
      | [] => ret tt
      | _ =>
          let* _ := on_job p moved_info in
          let* _ := call_ (C_account p (lit "M")) in
          update JOB_STATE_MOVED JOB_SUBSTATE_MOVED
      end
  | T_FIN_JOB =>
      let newstate := if flag pjob JOB_SVFLG_SubJob then JOB_STATE_EXPIRED else JOB_STATE_FINISHED in
      let '(pjob, newsubstate) := finish_info pjob in
      let* _ := put_job p (update_job_finish_comment newsubstate None pjob) in
      update newstate newsubstate
  | T_MOM_DOWN => update JOB_STATE_FINISHED JOB_SUBSTATE_FAILED
  end.

(** The substate a subjob is purged with *)
Definition purged_substate (pjob : job) : Z :=
  if ji_terminated pjob then JOB_SUBSTATE_TERMINATED
  else
    let a := atr pjob JOB_ATR_exit_status in
    if is_set a then
      if negb (at_long a =? 0) then JOB_SUBSTATE_FAILED
      else if substate pjob =? JOB_SUBSTATE_EXITED then JOB_SUBSTATE_FINISHED else substate pjob
    else substate pjob.

Definition svr_saveorpurge_finjobhist (doneness : ptr -> M unit) p : M unit :=
  let* hist := svr_chk_history_conf in
  let* pjob := get_job p in
  if hist && negb (ji_deletehistory pjob) then svr_setjob_histinfo doneness p T_FIN_JOB
  else
    let* _ := when (flag pjob JOB_SVFLG_SubJob)
      (put_job p (set_qs pjob (set_state (ji_qs pjob) (state pjob) (purged_substate pjob)))) in
    job_purge doneness p.

(** [check_block]: the reply to a blocking client *)
Definition check_block p : M unit :=
  let* pjob := get_job p in
  let a := atr pjob JOB_ATR_block in
  if negb (is_set a) || (at_long a =? -1) then ret tt
  else
    let* _ := on_job p (fun j =>
      set_modified (upd_attr j JOB_ATR_block (fun a => add_flags (set_long a (-1)) ATR_VFLAG_MODCACHE)) true) in
    call_ (C_block_reply p (int32 (at_long a))).

(** ** The end of an array job *)

(** The exit status of an array job: 2 when a subjob had a negative one, else 1
    when one had a positive one *)
Fixpoint array_exit (l : list ajtrk) (e : Z) : Z :=
  match l with
  | [] => e
  | t :: l' => if 0 <? trk_error t then array_exit l' 1 else if trk_error t <? 0 then 2 else array_exit l' e
  end.

(** The counts of [tkm_subjsct] that keep an array job alive *)
Definition active_ct (t : ajtrkhd) : option Z :=
  q ← rd (tkm_subjsct t) JOB_STATE_QUEUED;
  r ← rd (tkm_subjsct t) JOB_STATE_RUNNING;
  e ← rd (tkm_subjsct t) JOB_STATE_EXITING;
  Some (int32 (int32 (q + r) + e)).

(** The attributes of an array job that goes on, and its save *)
Definition save_array p (ptbl : ajtrkhd) : M unit :=
  let* parent := get_job p in
  let* _ := when (has (at_flags (atr parent JOB_ATR_array_indices_remaining)) ATR_VFLAG_MODCACHE)
    (let* w := the_world in
     let* r := need (cvt_range (cvt_buflen w) (Some ptbl) JOB_STATE_QUEUED) in
     let* _ := modify (fun w => set_buflen w (snd r)) in
     let pnewstr := default (lit "-") (fst r) in
     let* _ := on_attr p JOB_ATR_array_indices_remaining (fun a => decode_str (free_str a) (Some pnewstr)) in
     let* parent := get_job p in
     let* parent := need (update_subjob_state_ct parent) in
     put_job p parent) in
  call_ (C_job_save p SAVEJOB_FULL).

(** The accounting and the mail of an array job that had begun *)
Definition array_ended p : M unit :=
  let* parent := get_job p in
  let* _ := when (state parent =? JOB_STATE_BEGUN)
    (let* _ := call_ (C_account p (lit "L")) in
     let* _ := call_ (C_account p (lit "E")) in
     call_ (C_mail p)) in
  when (is_set (atr parent JOB_ATR_depend)) (call_ (C_depend_on_term p)).

Fixpoint chk_array_doneness (depth : nat) (p : ptr) : M unit :=
  match depth with
  | O => crash
  | S depth' =>
      let* parent := get_job p in
      match ji_ajtrk parent with
      | None => ret tt
      | Some ptbl =>
          if has (tkm_flags ptbl) TKMFLG_NO_DELETE then ret tt
          else
            let* n := need (active_ct ptbl) in
            if n =? 0 then
              let e := array_exit (take (Z.to_nat (tkm_ct ptbl)) (tkm_tbl ptbl)) 0 in
              let* _ := put_job p (set_qs parent (set_exect (ji_qs parent) 0 0 e)) in
              let* _ := check_block p in
              let* _ := array_ended p in
              svr_saveorpurge_finjobhist (chk_array_doneness depth') p
            else save_array p ptbl
      end
  end.

(** An array job and its subjobs: two levels *)
Definition DONE_DEPTH : nat := 2.
Definition doneness : ptr -> M unit := chk_array_doneness DONE_DEPTH.

(** ** Queueing a job *)

(** [eval_chkpnt] on the checkpoint attribute of a job, with the minimum of the
    queue *)
Definition eval_chkpnt (jobckp queckp : attribute) : attribute :=
  if negb (is_set jobckp) || negb (is_set queckp) then jobckp
  else
    match at_str jobckp with
    | Some (ckt :: pv) =>
        if is_char ckt "c"%char || is_char ckt "w"%char then
          let jobs := atoi (skip_char pv "="%char) in
          if jobs <? at_long queckp
          then decode_str (free_str jobckp) (Some (ckt :: "="%char :: dec_int (at_long queckp)))
          else jobckp
        else jobckp
    | _ => jobckp
    end.

(** A job without a queue is linked when it is a history job. *)
Definition enqueue_history p : M Z :=
  let* pjob := get_job p in
  if (state pjob =? JOB_STATE_MOVED) || (state pjob =? JOB_STATE_FINISHED) then
    let* w := the_world in
    let* _ := when (negb (is_linked (svr_alljobs w) p))
      (let* _ := on_alljobs (fun l => append_link l p) in svr_avljob_oper p false) in
    let* _ := sv_count 1 (state pjob) 1 in
    let* _ := when (flag pjob JOB_SVFLG_ArrayJob)
      (let* pjob := get_job p in
       let* pjob := need (set_whole_table pjob (state pjob)) in
       put_job p pjob) in
    ret 0
  else ret PBSE_UNKQUE.

(** The list of all jobs, the index and the counts of the server, then the list
    and the counts of the queue *)
Definition link_job p (q : ptr) : M unit :=
  let* pjob := get_job p in
  let* w := the_world in
  let* _ := on_alljobs (insert_by_rank (jobs w) (qrank pjob) p) in
  let* _ := svr_avljob_oper p false in
  let* _ := sv_count 1 (state pjob) 1 in
  let* _ := on_job p (fun j => set_qhdr j (Some q)) in
  let* w := the_world in
  let* pque := get_queue q in
  let* l := need (insert_by_rank (jobs w) (qrank pjob) p (qu_jobs pque)) in
  let* _ := put_queue q (set_counts pque (qu_numjobs pque) (qu_njstate pque) l) in
  qu_count q 1 (state pjob) 1.

(** The attributes of a job in a queue: its name, its type, the time *)
Definition queue_attrs p (pque : pbs_queue) (QType : cstring) : M unit :=
  let* _ := on_attr p JOB_ATR_queuetype
    (fun a => add_flags (set_char a (deref QType)) (Z.lor ATR_VFLAG_SET ATR_VFLAG_MODCACHE)) in
  let* pjob := get_job p in
  let* w := the_world in
  when (negb (is_set (atr pjob JOB_ATR_qtime)))
    (let* _ := on_attr p JOB_ATR_qtime
       (fun a => add_flags (set_long a (time_now (sv w))) (Z.lor ATR_VFLAG_SET ATR_VFLAG_MODCACHE)) in
     call_ (C_account p (lit "Q"))).

(** A job in an execution queue *)
Definition enter_execution p (pque : pbs_queue) : M Z :=
  let* _ := on_job p (fun j =>
    let j := if ji_un_type (ji_qs j) =? JOB_UNION_TYPE_EXEC then j
             else set_qs j (set_exect (ji_qs j) 0 0 0) in
    upd_attr j JOB_ATR_chkpnt (fun a => eval_chkpnt a (QE_ATR_ChkptMim pque))) in
  let* pjob := get_job p in
  let* w := the_world in
  let* rc := (if negb (SRV_ATR_State (sv w) =? 1) && is_set (atr pjob JOB_ATR_depend)
              then ask (C_depend_on_que p) else ret 0) in
  if negb (rc =? 0) then ret rc
  else
    let* pjob := get_job p in
    let* _ :=
      if negb (is_set (atr pjob JOB_ATR_etime)) && (state pjob =? JOB_STATE_QUEUED) then
        let* _ := on_attr p JOB_ATR_etime
          (fun a => add_flags (set_long a (time_now (sv w))) (Z.lor ATR_VFLAG_SET ATR_VFLAG_MODCACHE)) in
        call_ (C_notify_scheduler p SCH_SCHEDULE_NEW)
      else
        when (negb (SRV_ATR_EligibleTimeEnable (sv w) =? 0) && negb (SRV_ATR_scheduling (sv w) =? 0))
          (call_ (C_notify_scheduler p SCH_SCHEDULE_MVLOCAL)) in
    ret 0.

(** What follows once a job that is no history job is in its queue *)
Definition enter_queue p (q : ptr) : M Z :=
  let* pque := get_queue q in
  let* _ := on_attr p JOB_ATR_in_queue (fun a => decode_str (free_str a) (Some (qu_name pque))) in
  match QA_ATR_QType pque with
  | None => ret PBSE_NEEDQUET
  | Some QType =>
      let* _ := queue_attrs p pque QType in
      let* rc := ask (C_set_resc_deflt p) in
      if negb (rc =? 0) then ret rc
      else
        let* pjob := get_job p in
        let* _ := when (negb (is_set (atr pjob JOB_ATR_project)))
          (on_attr p JOB_ATR_project (fun a => decode_str a (Some PBS_DEFAULT_PROJECT))) in
        let* _ := entity_calls p ["ct_sum_max"; "ct_sum_queued"; "resc_sum_max"; "resc_sum_queued"]%string
                    (Some q) INCR in
        if qu_type pque =? QTYPE_Execution then enter_execution p pque
        else
          let* w := the_world in
          let* _ := when (qu_type pque =? QTYPE_RoutePush)
            (on_job p (fun j => set_qs j (set_routet (ji_qs j) (time_now (sv w)) 0))) in
          ret 0
  end.

Definition svr_enquejob p : M Z :=
  let* pjob := get_job p in
  let* pque := find_queuebyname (ji_queue (ji_qs pjob)) in
  match pque with
  | None => enqueue_history p
  | Some q =>
      let* _ := link_job p q in
      if (state pjob =? JOB_STATE_MOVED) || (state pjob =? JOB_STATE_FINISHED) then
        let* _ := when (flag pjob JOB_SVFLG_ArrayJob)
          (let* pjob := get_job p in
           let* pjob := need (set_whole_table pjob (state pjob)) in
           put_job p pjob) in
        ret 0
      else enter_queue p q
  end.

(** ** The state a job should have *)

(** The substate of a queued job, with files to stage in or without *)
Definition stagein_substate (pjob : job) : Z :=
  if is_set (atr pjob JOB_ATR_stagein) then
    if flag pjob JOB_SVFLG_StagedIn then JOB_SUBSTATE_STAGECMP else JOB_SUBSTATE_PRESTAGEIN
  else JOB_SUBSTATE_QUEUED.

(** A job of a reservation *)
Definition resv_state (now : Z) (pjob : job) (r : resc_resv) : Z * Z :=
  if ri_state r =? RESV_UNCONFIRMED then (JOB_STATE_HELD, JOB_SUBSTATE_HELD)
  else if now <? ri_stime r then (JOB_STATE_WAITING, JOB_SUBSTATE_WAITING)
  else if now <? ri_etime r then
    if (ri_state r =? RESV_RUNNING) || (ri_state r =? RESV_TIME_TO_RUN)
    then (JOB_STATE_QUEUED, stagein_substate pjob)
    else (state pjob, substate pjob)
  else (state pjob, substate pjob).

(** [newstate] and [newsub]; [None] is a table without the counts. *)
Definition svr_evaljobstate (now : Z) (pjob : job) (forceeval : bool) : option (Z * Z) :=
  let keep := (state pjob, substate pjob) in
  if (state pjob =? JOB_STATE_MOVED) || (state pjob =? JOB_STATE_FINISHED) then Some keep
  else if negb forceeval && ((state pjob =? JOB_STATE_RUNNING) || (state pjob =? JOB_STATE_TRANSIT))
  then Some keep
  else if negb (at_long (atr pjob JOB_ATR_hold) =? 0) then
    Some (JOB_STATE_HELD,
          if (substate pjob =? JOB_SUBSTATE_SYNCHOLD) || (substate pjob =? JOB_SUBSTATE_DEPNHOLD)
          then substate pjob else JOB_SUBSTATE_HELD)
  else if now <? at_long (atr pjob JOB_ATR_exectime) then Some (JOB_STATE_WAITING, JOB_SUBSTATE_WAITING)
  else
    match (match ji_resvp pjob with
           | Some r => if ri_type r =? RESV_JOB_OBJECT then Some r else None
           | None => None
           end) with
    | Some r => Some (resv_state now pjob r)
    | None =>
        if is_set (atr pjob JOB_ATR_stagein) then Some (JOB_STATE_QUEUED, stagein_substate pjob)
        else if flag pjob JOB_SVFLG_ArrayJob then
          match ji_ajtrk pjob with
          | Some ptbl =>
              q ← rd (tkm_subjsct ptbl) JOB_STATE_QUEUED;
              Some (if int32 (q + tkm_dsubjsct ptbl) <? tkm_ct ptbl
                    then (JOB_STATE_BEGUN, JOB_SUBSTATE_BEGUN)
                    else (JOB_STATE_QUEUED, JOB_SUBSTATE_QUEUED))
          | None => Some (JOB_STATE_HELD, JOB_SUBSTATE_HELD)
          end
        else Some (JOB_STATE_QUEUED, JOB_SUBSTATE_QUEUED)
    end.

Definition svr_chk_histjob (history_enable : Z) (pjob : option job) : Z :=
  if history_enable =? 0 then PBSE_NONE
  else
    match pjob with
    | None => PBSE_NONE
    | Some pjob =>
        if state pjob =? JOB_STATE_FINISHED then PBSE_HISTJOBID
        else if state pjob =? JOB_STATE_MOVED then
          if substate pjob =? JOB_SUBSTATE_FINISHED then PBSE_HISTJOBID else PBSE_UNKJOBID
        else PBSE_NONE
    end.

(** ** Aborting a job *)

(** [job_abt]; [text] says whether a text is given. *)
Definition job_abt p (text : bool) : M Z :=
  let* pjob := get_job p in
  let old_state := state pjob in
  let old_substate := substate pjob in
  if old_state =? JOB_STATE_FINISHED then ret 0
  else
    let* _ := when text (let* _ := call_ (C_account p (lit "A")) in call_ (C_mail p)) in
    let here := flag pjob JOB_SVFLG_HERE in
    if (old_state =? JOB_STATE_RUNNING) && negb (old_substate =? JOB_SUBSTATE_PROVISION) then
      let* _ := svr_setjobstate doneness p JOB_STATE_RUNNING JOB_SUBSTATE_ABORT in
      let* rc := ask (C_issue_signal p) in
      let* _ := when (negb (rc =? 0))
        (let* _ := when (negb here)
           (let* _ := on_attr p JOB_ATR_state (fun a => set_char a "E"%char) in call_ (C_issue_track p)) in
         svr_saveorpurge_finjobhist doneness p) in
      ret rc
    else if (old_state =? JOB_STATE_TRANSIT) && (old_substate =? JOB_SUBSTATE_TRNOUT) then ret 0
    else if old_substate =? JOB_SUBSTATE_PROVISION then
      let* _ := svr_setjobstate doneness p JOB_STATE_RUNNING JOB_SUBSTATE_ABORT in
      let* _ := svr_saveorpurge_finjobhist doneness p in
      ret 0
    else
      let* _ := svr_setjobstate doneness p JOB_STATE_EXITING JOB_SUBSTATE_ABORT in
      let* _ := when (negb here) (call_ (C_issue_track p)) in
      let* _ := svr_saveorpurge_finjobhist doneness p in
      ret 0.

(** ** Cleaning the history *)

(** [GET_NEXT]: the entry after [p]; an entry that is not linked aborts the
    program. *)
Fixpoint next_in (l : list ptr) p : option (option ptr) :=
  match l with
  | [] => None
  | q :: l' => if decide (q = p) then Some (head l') else next_in l' p
  end.

(** The timestamp of a history job: [false] when it has none and cannot get one *)
Definition history_stamp p : M bool :=
  let* pjob := get_job p in
  if is_set (atr pjob JOB_ATR_history_timestamp) then ret true
  else
    let* w := the_world in
    let* v := (if state pjob =? JOB_STATE_MOVED then ret (Some (time_now (sv w)))
               else
                 let* walltime_used := ask (C_get_used_wall p) in
                 ret (if (walltime_used =? -1) || negb (is_set (atr pjob JOB_ATR_stime)) then None
                      else Some (int64 (at_long (atr pjob JOB_ATR_stime) + walltime_used)))) in
    match v with
    | None => ret false
    | Some v =>
        let* _ := on_job p (fun j =>
          set_modified (upd_attr j JOB_ATR_history_timestamp
            (fun a => add_flags (set_long a v) (Z.lor ATR_VFLAG_SET ATR_VFLAG_MODCACHE))) true) in
        let* _ := call_ (C_job_save p SAVEJOB_FULL) in
        ret true
    end.

(** One job of the sweep; whether the time is looked at after it *)
Definition clean_job p : M bool :=
  let* pjob := get_job p in
  if (state pjob =? JOB_STATE_MOVED) || (state pjob =? JOB_STATE_FINISHED) || (state pjob =? JOB_STATE_EXPIRED) then
    let* ok := history_stamp p in
    if negb ok then ret false
    else
      let* pjob := get_job p in
      let* w := the_world in
      let* _ := when (int64 (at_long (atr pjob JOB_ATR_history_timestamp) + svr_history_duration (sv w))
                        <=? time_now (sv w))
        (job_purge doneness p) in
      ret true
  else ret true.

(** The loop of [svr_clean_job_history]; [true] when it stops early because it
    has taken too long *)
Fixpoint clean_loop (fuel : nat) (begin_time : Z) (pjob : option ptr) : M bool :=
  match pjob, fuel with
  | None, _ => ret false
  | _, O => crash
  | Some p, S fuel' =>
      let* w := the_world in
      let* _ := get_job p in
      let* nxpjob := need (next_in (svr_alljobs w) p) in
      let* look := clean_job p in
      if look : bool then
        let* end_time := ask C_time in
        if SVR_CLEAN_JOBHIST_SECS <? end_time - begin_time then
          let* task := ask (C_set_task (end_time + SVR_CLEAN_JOBHIST_SECS)) in
          if task =? 0 then clean_loop fuel' begin_time nxpjob else ret true
        else clean_loop fuel' begin_time nxpjob
      else clean_loop fuel' begin_time nxpjob
  end.

Definition svr_clean_job_history : M bool :=
  let* begin_time := ask C_time in
  let* w := the_world in
  clean_loop (S (length (svr_alljobs w))) begin_time (head (svr_alljobs w)).

End Server.
End State.
