(* ===== verification/JobInv.v ===== *)
(** * What the server keeps true of its jobs

    Module [JobInv]: the invariant of the server's jobs, lists, counts and index
    ([inv]), total correctness of a function on a world ([wp]), and what the
    steps the functions of [JobState] are made of do to both.  A step that only
    touches attributes leaves the [core] of every job alone; [same_core] says so
    of worlds, and [inv] depends on nothing else.

    While a job changes its state the counters are ahead of the job: [inv ov]
    counts a job of [ov] in the state given there. *)

From Stdlib Require Import ZArith Lia Ascii String Sorted.
From stdpp Require Import gmap.
From S2P Require Import Prelude Index JobData SubjobTable SubjobProps JobState.
Import Job Counters Subjobs SubjobProps State.

Module JobInv.

(** ** Total correctness *)

Section Wp.
Context {S : Type}.

Definition wp {A : Type} (m : M S A) (Q : A -> S -> Prop) (w : S) : Prop :=
  exists a w', m w = Some (a, w') /\ Q a w'.

Lemma wp_ret {A : Type} (a : A) (Q : A -> S -> Prop) (w : S) : Q a w -> wp (ret a) Q w.
Proof. intros. by exists a, w. Qed.

Lemma wp_bind {A B : Type} (m : M S A) (f : A -> M S B) (Q : B -> S -> Prop) (w : S) :
  wp m (fun a w' => wp (f a) Q w') w -> wp (bind m f) Q w.
Proof. intros (a & w1 & Hm & b & w2 & Hf & HQ). exists b, w2. split; [|done]. unfold bind. by rewrite Hm. Qed.

Lemma wp_mono {A : Type} (m : M S A) (Q R : A -> S -> Prop) (w : S) :
  wp m Q w -> (forall a w', Q a w' -> R a w') -> wp m R w.
Proof. intros (a & w1 & Hm & HQ) HR. exists a, w1. auto. Qed.

Lemma wp_seq {A B : Type} (m : M S A) (f : A -> M S B) (P : A -> S -> Prop) (Q : B -> S -> Prop) (w : S) :
  wp m P w -> (forall a w', P a w' -> wp (f a) Q w') -> wp (bind m f) Q w.
Proof. intros Hm Hf. apply wp_bind. by eapply wp_mono. Qed.

End Wp.

(** ** The invariant *)

Section Inv.
Context {I : Type} `{IndexLaws I ptr} (answer : list call -> Z).
Implicit Types (w : world I) (p q pa : ptr) (j : job) (s : Z) (ov : gmap ptr Z).

(** What the lists, the counts and the index depend on *)
Record core_t := Core {
  c_state : Z; c_substate : Z; c_svrflags : Z; c_jobid : cstring; c_qhdr : option ptr;
  c_parentaj : option ptr; c_subjindx : Z; c_ajtrk : option ajtrkhd; c_qrank : Z }.

Definition core j : core_t :=
  {| c_state := state j; c_substate := substate j; c_svrflags := ji_svrflags (ji_qs j); c_jobid := jobid j;
     c_qhdr := ji_qhdr j; c_parentaj := ji_parentaj j; c_subjindx := ji_subjindx j; c_ajtrk := ji_ajtrk j;
     c_qrank := qrank j |}.

Definition core_at w p : option core_t := core <$> jobs w !! p.

(** The state a job is counted in *)
Definition cstate ov w p : option Z :=
  match ov !! p with Some s => Some s | None => c_state <$> core_at w p end.
Definition hdr w p : option ptr := core_at w p ≫= c_qhdr.
Definition rank w p : Z := from_option c_qrank 0 (core_at w p).

(** Not a job that is still coming in *)
Definition committed (sub : Z) : bool :=
  negb (sub =? JOB_SUBSTATE_TRANSIN) && negb (sub =? JOB_SUBSTATE_TRANSICM).

Record queue_ok ov w q (pque : pbs_queue) : Prop := {
  qk_nodup : NoDup (qu_jobs pque);
  qk_counts : counts_ok (qu_numjobs pque) (qu_njstate pque) (cstate ov w) (qu_jobs pque);
  qk_member : forall p, p ∈ qu_jobs pque <-> p ∈ svr_alljobs w /\ hdr w p = Some q;
  qk_sorted : StronglySorted (fun p p' => rank w p <= rank w p') (qu_jobs pque) }.

Record inv ov w : Prop := {
  inv_buflen : 0 <= cvt_buflen w;
  inv_state : forall p c, core_at w p = Some c -> 0 <= c_state c < PBS_NUMJOBSTATE;
  inv_table : forall p c t, core_at w p = Some c -> c_ajtrk c = Some t -> array_ok t;
  inv_nodup : NoDup (svr_alljobs w);
  inv_live : forall p, p ∈ svr_alljobs w -> exists c, core_at w p = Some c /\ committed (c_substate c) = true;
  inv_counts : counts_ok (sv_numjobs w) (sv_jobstates w) (cstate ov w) (svr_alljobs w);
  inv_queue : forall q pque, queues w !! q = Some pque -> queue_ok ov w q pque;
  inv_qhdr : forall p q, hdr w p = Some q -> is_Some (queues w !! q);
  inv_queues : forall q, q ∈ svr_queues w -> is_Some (queues w !! q);
  inv_index : forall ctx, AVL_jctx w = Some ctx ->
    ix_wf ctx /\ forall k p, ix_find k ctx = Some p <-> p ∈ svr_alljobs w /\ c_jobid <$> core_at w p = Some k }.

(** ** Worlds with the same cores *)

Record same_core w w' : Prop := {
  sc_core : forall p, core_at w' p = core_at w p;
  sc_queues : queues w' = queues w;
  sc_svr_queues : svr_queues w' = svr_queues w;
  sc_alljobs : svr_alljobs w' = svr_alljobs w;
  sc_numjobs : sv_numjobs w' = sv_numjobs w;
  sc_jobstates : sv_jobstates w' = sv_jobstates w;
  sc_ctx : AVL_jctx w' = AVL_jctx w;
  sc_sv : sv w' = sv w;
  sc_buflen : 0 <= cvt_buflen w -> 0 <= cvt_buflen w' }.

Lemma same_core_refl w : same_core w w.
Proof. by constructor. Qed.

Lemma same_core_trans w1 w2 w3 : same_core w1 w2 -> same_core w2 w3 -> same_core w1 w3.
Proof. intros [? ? ? ? ? ? ? ? Ha] [? ? ? ? ? ? ? ? Hb]. constructor; try congruence. auto. Qed.

Lemma cstate_core ov w w' : same_core w w' -> forall p, cstate ov w' p = cstate ov w p.
Proof. intros Hs p. unfold cstate. by rewrite (sc_core _ _ Hs). Qed.

Lemma hdr_core w w' : same_core w w' -> forall p, hdr w' p = hdr w p.
Proof. intros Hs p. unfold hdr. by rewrite (sc_core _ _ Hs). Qed.

Lemma sorted_ext {A : Type} (R R' : A -> A -> Prop) (l : list A) :
  (forall a b, a ∈ l -> b ∈ l -> R a b -> R' a b) -> StronglySorted R l -> StronglySorted R' l.
Proof.
  intros HR. induction 1 as [|a l Hl IH Ha]; constructor.
  - apply IH. intros b c Hb Hc. apply HR; by right.
  - rewrite Forall_forall in Ha |- *. intros b Hb. apply HR; [by left|by right|by apply Ha].
Qed.

(** The part of [queue_ok] that other jobs do not touch: what changed is only
    how jobs outside the list look. *)
Lemma queue_ok_ext ov ov' w w' q (pque : pbs_queue) :
  queue_ok ov w q pque -> svr_alljobs w' = svr_alljobs w ->
  (forall p, p ∈ svr_alljobs w -> cstate ov' w' p = cstate ov w p /\ hdr w' p = hdr w p /\ rank w' p = rank w p) ->
  queue_ok ov' w' q pque.
Proof.
  intros [Hn Hc Hm Hs] Hall He. constructor; [done| | |].
  - eapply counts_ext; [|exact Hc]. intros p Hp. symmetry. apply He. by apply Hm in Hp as [? _].
  - intros p. rewrite Hall, Hm. split; intros [Hp Hh]; (split; [done|]); destruct (He p Hp) as (_ & Hd & _); congruence.
  - eapply sorted_ext; [|exact Hs]. cbn. intros a b Ha Hb Hle. apply Hm in Ha as [Ha _]. apply Hm in Hb as [Hb _].
    destruct (He a Ha) as (_ & _ & ->), (He b Hb) as (_ & _ & ->). done.
Qed.

(** The general step: the lists, the counts and the index stay, and one job, or
    none, changes. *)
Lemma inv_change ov ov' w w' :
  inv ov w ->
  queues w' = queues w -> svr_queues w' = svr_queues w -> svr_alljobs w' = svr_alljobs w ->
  sv_numjobs w' = sv_numjobs w -> sv_jobstates w' = sv_jobstates w -> AVL_jctx w' = AVL_jctx w ->
  0 <= cvt_buflen w' ->
  (forall p c, core_at w' p = Some c -> 0 <= c_state c < PBS_NUMJOBSTATE /\
     (forall t, c_ajtrk c = Some t -> array_ok t)) ->
  (forall p q, hdr w' p = Some q -> is_Some (queues w !! q)) ->
  (forall p, p ∈ svr_alljobs w ->
     (exists c, core_at w' p = Some c /\ committed (c_substate c) = true) /\
     cstate ov' w' p = cstate ov w p /\ hdr w' p = hdr w p /\ rank w' p = rank w p /\
     c_jobid <$> core_at w' p = c_jobid <$> core_at w p) ->
  inv ov' w'.
Proof.
  intros [? _ _ Hnd _ Hct Hq _ Hqs Hix] Eq Esq Eall En Est Ectx Hbuf Hcore Hhdr Hjobs. constructor.
  - done.
  - intros p c Hc. by apply (Hcore p c).
  - intros p c t Hc. by apply (Hcore p c).
  - by rewrite Eall.
  - intros p Hp. rewrite Eall in Hp. by apply Hjobs.
  - rewrite En, Est, Eall. eapply counts_ext; [|exact Hct]. intros p Hp. symmetry. by apply Hjobs.
  - intros q pque Hqp. rewrite Eq in Hqp. eapply queue_ok_ext; [by apply Hq|done|].
    intros p Hp. destruct (Hjobs p Hp) as (_ & ? & ? & ? & _). done.
  - intros p q Hh. rewrite Eq. by eapply Hhdr.
  - intros q. rewrite Esq, Eq. apply Hqs.
  - intros ctx Hc. rewrite Ectx in Hc. destruct (Hix ctx Hc) as [Hwf Hf]. split; [done|]. intros k p.
    rewrite Hf, Eall. split; intros [Hp Hj]; (split; [done|]); destruct (Hjobs p Hp) as (_ & _ & _ & _ & He); congruence.
Qed.

Lemma inv_same_core ov w w' : same_core w w' -> inv ov w -> inv ov w'.
Proof.
  intros Hs Hi. pose proof Hs as [Hc ? ? ? ? ? ? ? Hb]. apply (inv_change ov ov w w'); try done.
  - apply Hb, Hi.
  - intros p c Hp. rewrite Hc in Hp. split; [by eapply inv_state|]. intros t. by eapply inv_table.
  - intros p q Hh. rewrite (hdr_core _ _ Hs) in Hh. by eapply inv_qhdr.
  - intros p Hp. rewrite (cstate_core _ _ _ Hs), (hdr_core _ _ Hs). unfold rank. rewrite Hc.
    split; [by eapply inv_live|done].
Qed.

(** ** Steps that keep the cores *)

Definition keeps {A : Type} (m : M (world I) A) w : Prop := wp m (fun _ w' => same_core w w') w.

Definition live w p : Prop := is_Some (core_at w p).

Lemma live_job w p : live w p <-> exists j, jobs w !! p = Some j.
Proof. unfold live, core_at. rewrite fmap_is_Some. done. Qed.

Lemma live_core w w' p : same_core w w' -> live w p -> live w' p.
Proof. intros Hs. unfold live. by rewrite (sc_core _ _ Hs). Qed.

Lemma keeps_bind {A B : Type} (m : M (world I) A) (f : A -> M (world I) B) w :
  keeps m w -> (forall a w', same_core w w' -> keeps (f a) w') -> keeps (bind m f) w.
Proof.
  intros Hm Hf. eapply wp_seq; [exact Hm|]. cbn. intros a w1 H1. eapply wp_mono; [by apply Hf|].
  cbn. intros b w2 H2. by eapply same_core_trans.
Qed.

Lemma keeps_ret {A : Type} (a : A) w : keeps (ret a) w.
Proof. apply wp_ret, same_core_refl. Qed.

Lemma keeps_world w : keeps the_world w.
Proof. exists w, w. split; [done|apply same_core_refl]. Qed.

Lemma keeps_get_job w p : live w p -> keeps (get_job p) w.
Proof.
  intros [j Hj]%live_job. exists j, w. unfold get_job. rewrite Hj. split; [done|apply same_core_refl].
Qed.

Lemma keeps_get_queue w q : is_Some (queues w !! q) -> keeps (get_queue q) w.
Proof. intros [pq Hq]. exists pq, w. unfold get_queue. rewrite Hq. split; [done|apply same_core_refl]. Qed.

Lemma keeps_call (c : call) w : keeps (call_ c) w.
Proof. exists tt, (add_call w c). split; [done|]. by constructor. Qed.

Lemma keeps_ask (c : call) w : keeps (ask answer c) w.
Proof.
  unfold ask, Job.ask. apply keeps_bind; [apply keeps_call|]. intros _ w1 _.
  apply keeps_bind; [apply keeps_world|]. intros. apply keeps_ret.
Qed.

Lemma keeps_when (b : bool) (m : M (world I) unit) w : (b = true -> keeps m w) -> keeps (when b m) w.
Proof. intros Hm. destruct b; [by apply Hm|apply keeps_ret]. Qed.

Lemma core_at_insert w p j q :
  core_at (set_jobs w (<[p := j]> (jobs w))) q = if decide (p = q) then Some (core j) else core_at w q.
Proof.
  unfold core_at. cbn. destruct (decide (p = q)) as [->|Hne]; [by rewrite lookup_insert_eq|by rewrite lookup_insert_ne].
Qed.

Lemma keeps_put w p j : core_at w p = Some (core j) -> keeps (put_job p j) w.
Proof.
  intros Hc. assert (live w p) as [j0 Hj0]%live_job by (by eexists). unfold put_job.
  exists tt, (set_jobs w (<[p := j]> (jobs w))). rewrite Hj0. split; [done|]. constructor; [|done..].
  intros q. rewrite core_at_insert. case_decide; [subst; by rewrite Hc|done].
Qed.

Lemma keeps_on_job w p (f : job -> job) : live w p -> (forall j, core (f j) = core j) -> keeps (on_job p f) w.
Proof.
  intros [j Hj]%live_job Hf. unfold on_job, get_job, bind. unfold keeps, wp. rewrite Hj.
  apply keeps_put. unfold core_at. rewrite Hj. cbn. by rewrite Hf.
Qed.

(** Any attribute but the rank *)
Lemma keeps_on_attr w p (a : job_atr) (f : attribute -> attribute) :
  live w p -> a ≠ JOB_ATR_qrank -> keeps (on_attr p a f) w.
Proof.
  intros Hp Ha. apply keeps_on_job; [done|]. intros j. unfold core. f_equal. unfold qrank, atr. cbn.
  by rewrite decide_False.
Qed.

Lemma fold_calls (w : world I) (g : string -> call) (fs : list string) :
  same_core w (fold_left (fun w f => add_call w (g f)) fs w).
Proof.
  revert w. induction fs as [|f fs IH]; intros w; [apply same_core_refl|]. cbn.
  eapply same_core_trans; [|apply IH]. by constructor.
Qed.

Lemma keeps_entity_calls w p (fs : list string) (q : option ptr) (op : batch_op) : keeps (entity_calls p fs q op) w.
Proof. eexists tt, _. split; [done|]. apply fold_calls. Qed.

(** ** Attributes, calls and texts *)

Lemma wp_get_job w p j (Q : job -> world I -> Prop) : jobs w !! p = Some j -> Q j w -> wp (get_job p) Q w.
Proof. intros Hj HQ. exists j, w. unfold get_job. by rewrite Hj. Qed.

Lemma wp_get_queue w q (pq : pbs_queue) (Q : pbs_queue -> world I -> Prop) :
  queues w !! q = Some pq -> Q pq w -> wp (get_queue q) Q w.
Proof. intros Hj HQ. exists pq, w. unfold get_queue. by rewrite Hj. Qed.

Lemma wp_need {A : Type} (o : option A) (a : A) w (Q : A -> world I -> Prop) :
  o = Some a -> Q a w -> wp (need o) Q w.
Proof. intros -> HQ. by apply wp_ret. Qed.

Lemma wp_put_job w p j j0 (Q : unit -> world I -> Prop) :
  jobs w !! p = Some j0 -> Q tt (set_jobs w (<[p := j]> (jobs w))) -> wp (put_job p j) Q w.
Proof. intros Hj HQ. exists tt, (set_jobs w (<[p := j]> (jobs w))). unfold put_job. by rewrite Hj. Qed.

Lemma wp_world w (Q : world I -> world I -> Prop) : Q w w -> wp the_world Q w.
Proof. intros HQ. by exists w, w. Qed.

Lemma core_job w p j : jobs w !! p = Some j -> core_at w p = Some (core j).
Proof. intros Hj. unfold core_at. by rewrite Hj. Qed.

Lemma job_core w p c : core_at w p = Some c -> exists j, jobs w !! p = Some j /\ core j = c.
Proof. unfold core_at. destruct (jobs w !! p) as [j|]; [|done]. intros [= <-]. eauto. Qed.

(** A known job, then the rest *)
Lemma keeps_with_job {B : Type} w p (f : job -> M (world I) B) :
  live w p -> (forall j, jobs w !! p = Some j -> keeps (f j) w) -> keeps (bind (get_job p) f) w.
Proof. intros [j Hj]%live_job Hf. apply wp_bind. eapply wp_get_job; [exact Hj|]. by apply Hf. Qed.

Lemma keeps_with_world {B : Type} w (f : world I -> M (world I) B) : keeps (f w) w -> keeps (bind the_world f) w.
Proof. intros Hf. apply wp_bind. by apply wp_world. Qed.

Lemma keeps_need {A B : Type} (o : option A) (a : A) (f : A -> M (world I) B) w :
  o = Some a -> keeps (f a) w -> keeps (bind (need o) f) w.
Proof. intros -> Hf. apply wp_bind. by apply wp_ret. Qed.

Lemma keeps_modify (f : world I -> world I) w : same_core w (f w) -> keeps (modify f) w.
Proof. intros Hs. by exists tt, (f w). Qed.

End Inv.

(** ** Automation *)

(** A job that was alive still is. *)
Ltac live := match goal with
  | H : live ?w ?p |- live ?w ?p => exact H
  | H : same_core ?w ?w' |- live ?w' _ => apply (live_core _ _ _ H); live
  end.

(** One step of a function that keeps the cores *)
Ltac keep1 :=
  lazymatch goal with
  | |- keeps (bind the_world _) _ => apply keeps_with_world
  | |- keeps (bind (get_job _) _) _ => apply keeps_with_job; [live|intros ? ?]
  | |- keeps (bind _ _) _ => apply keeps_bind; [|intros ? ? ?]
  | |- keeps (ret _) _ => apply keeps_ret
  | |- keeps (call_ _) _ => apply keeps_call
  | |- keeps (ask _ _) _ => apply keeps_ask
  | |- keeps (when _ _) _ => apply keeps_when; intros ?
  | |- keeps (on_attr _ _ _) _ => apply keeps_on_attr; [live|done]
  | |- keeps (on_job _ _) _ => apply keeps_on_job; [live|intros ?]
  | |- keeps (entity_calls _ _ _ _) _ => apply keeps_entity_calls
  | |- keeps (if ?b then _ else _) _ => destruct b
  end.
Ltac keep := repeat keep1.

Section Steps.
Context {I : Type} `{IndexLaws I ptr} (answer : list call -> Z).
Implicit Types (w : world I) (p q pa : ptr) (j : job) (s : Z) (ov : gmap ptr Z).

Lemma state_of ov w p j : inv ov w -> jobs w !! p = Some j -> 0 <= state j < PBS_NUMJOBSTATE.
Proof. intros Hi Hj. by apply (inv_state _ _ Hi p (core j)), core_job. Qed.

Lemma keeps_set_statechar ov w p : inv ov w -> live w p -> keeps (set_statechar p) w.
Proof.
  intros Hi Hp. unfold set_statechar. apply keeps_with_job; [done|]. intros j Hj. apply keeps_bind.
  - destruct (rd_in statechars (state j)) as (c & -> & _); [|apply keeps_ret].
    by apply (state_of ov w p).
  - intros. keep.
Qed.

Lemma keeps_save_changed w p (b : bool) : live w p -> keeps (save_changed answer p b) w.
Proof. intros Hp. unfold save_changed. keep. Qed.

Lemma keeps_state_times w p q s : live w p -> is_Some (queues w !! q) -> keeps (state_times p q s) w.
Proof.
  intros Hp Hq. unfold state_times. apply keeps_bind; [by apply keeps_get_queue|]. intros. keep.
Qed.

Lemma keeps_check_block w p : live w p -> keeps (check_block p) w.
Proof. intros Hp. unfold check_block. keep. done. Qed.

Lemma keeps_array_ended w p : live w p -> keeps (array_ended p) w.
Proof. intros Hp. unfold array_ended. keep. Qed.

Lemma keeps_purge_rest w p : live w p -> keeps (purge_rest p) w.
Proof.
  intros Hp. unfold purge_rest. keep. eexists tt, _. split; [done|]. by constructor.
Qed.

Lemma keeps_history_stamp w p : live w p -> keeps (history_stamp answer p) w.
Proof.
  intros Hp. unfold history_stamp. do 2 keep1; [keep|]. keep1. apply keeps_bind; [keep|].
  intros v w1 Hw1. destruct v; [|keep]. keep. done.
Qed.

(** The text of the counts of an array job *)
Lemma state_ct_fits (t : ajtrkhd) (s : Z) : table_ok t -> 0 <= s < PBS_NUMJOBSTATE ->
  exists c, state_ct (tkm_subjsct t) s = Some c /\ (length c <= 21)%nat.
Proof.
  intros Ht Hs. destruct (counts_nonneg _ _ _ _ s (tk_counts _ Ht) Hs) as (n & Hn & Hr). unfold state_ct.
  destruct (rd_in statename s) as (name & -> & Hname); [done|]. cbn [mbind option_bind]. rewrite Hn. cbn [mbind option_bind].
  eexists. split; [done|]. rewrite length_app. cbn [length]. rewrite length_app. cbn [length].
  assert (length (dec_int n) <= 10)%nat as Hl.
  { rewrite Ranges.Range.dec_int_nonneg by lia. destruct (dec_nat_length n 10) as [_ Hl]; [|lia|done].
    unfold INT_MAX in Hr. cbn. lia. }
  assert (length (lit name) <= 9)%nat; [|lia].
  assert (Forall (fun n => (length (lit n) <= 9)%nat) statename) as Hall by (repeat constructor; cbn; lia).
  exact (Forall_lookup_1 _ _ _ _ Hall Hname).
Qed.

Lemma update_ct_spec j (t : ajtrkhd) : ji_ajtrk j = Some t -> table_ok t ->
  exists j', update_subjob_state_ct j = Some j' /\ core j' = core j.
Proof.
  intros Hj Ht. unfold update_subjob_state_ct. rewrite Hj. cbn [mbind option_bind].
  destruct (state_ct_fits t JOB_STATE_QUEUED Ht ltac:(done)) as (a & -> & Ha).
  destruct (state_ct_fits t JOB_STATE_RUNNING Ht ltac:(done)) as (b & -> & Hb).
  destruct (state_ct_fits t JOB_STATE_EXITING Ht ltac:(done)) as (c & -> & Hc).
  destruct (state_ct_fits t JOB_STATE_EXPIRED Ht ltac:(done)) as (d & -> & Hd).
  cbn [mbind option_bind]. rewrite !length_app. rewrite (proj2 (Nat.ltb_lt _ _)) by lia. by eexists.
Qed.

Lemma core_eq w w' p j j' : same_core w w' -> jobs w !! p = Some j -> jobs w' !! p = Some j' -> core j' = core j.
Proof.
  intros Hs Hj Hj'. pose proof (sc_core _ _ Hs p) as Hc. rewrite (core_job _ _ _ Hj), (core_job _ _ _ Hj') in Hc.
  congruence.
Qed.

Lemma core_ajtrk j j' : core j' = core j -> ji_ajtrk j' = ji_ajtrk j.
Proof. intros Hc. apply (f_equal c_ajtrk) in Hc. exact Hc. Qed.

Lemma keeps_save_array ov w p j (t : ajtrkhd) : inv ov w -> jobs w !! p = Some j -> ji_ajtrk j = Some t ->
  keeps (save_array p t) w.
Proof.
  intros Hi Hj Ht. assert (live w p) as Hp by (apply live_job; by eexists).
  assert (array_ok t) as Hok by (by eapply (inv_table _ _ Hi p (core j)); [apply core_job|]).
  unfold save_array. keep1. keep1; [|keep]. keep1. keep1.
  destruct (cvt_range_spec t JOB_STATE_QUEUED (cvt_buflen w) Hok (inv_buflen _ _ Hi)) as (bl & Hc & Hbl).
  eapply keeps_need; [exact Hc|]. cbn [fst snd]. apply keeps_bind; [apply keeps_modify; by constructor|].
  intros _ w1 Hw1. apply keeps_bind; [keep|]. intros _ w2 Hw2. apply keeps_with_job; [live|]. intros j2 Hj2.
  pose proof (core_eq _ _ _ _ _ (same_core_trans _ _ _ Hw1 Hw2) Hj Hj2) as Hcj.
  assert (ji_ajtrk j2 = Some t) as Ht2 by (by rewrite (core_ajtrk _ _ Hcj)).
  destruct (update_ct_spec j2 t Ht2 (proj1 Hok)) as (j3 & Hu & Hcore). eapply keeps_need; [exact Hu|].
  apply keeps_put. by rewrite Hcore, (core_job _ _ _ Hj2).
Qed.

(** ** Counters *)

Lemma delete_link_perm (l : list ptr) p : NoDup l -> p ∈ l -> l ≡ₚ p :: delete_link l p.
Proof.
  induction 1 as [|q l Hq Hl IH]; intros Hp; [by apply elem_of_nil in Hp|].
  unfold delete_link. rewrite filter_cons. destruct (decide (q ≠ p)) as [Hne|He].
  - apply elem_of_cons in Hp as [Hp|Hp]; [congruence|]. rewrite (IH Hp) at 1. apply perm_swap.
  - apply dec_stable in He. subst q. f_equiv. symmetry. clear IH Hl Hp.
    induction l as [|q l IH]; [done|]. apply not_elem_of_cons in Hq as [Hqp Hq].
    rewrite filter_cons, decide_True by congruence. f_equiv. by apply IH.
Qed.

Lemma elem_of_delete_link (l : list ptr) p q : q ∈ delete_link l p <-> q ∈ l /\ q ≠ p.
Proof. unfold delete_link. rewrite list_elem_of_filter. tauto. Qed.

Lemma wp_sv_count w (dn s d : Z) (ct : list Z) (Q : unit -> world I -> Prop) :
  bump (sv_jobstates w) s d = Some ct -> Q tt (set_sv_counts w (int32 (sv_numjobs w + dn)) ct) ->
  wp (sv_count dn s d) Q w.
Proof.
  intros Hb HQ. unfold sv_count. apply wp_bind, wp_world, wp_bind. eapply wp_need; [exact Hb|].
  eexists tt, _. done.
Qed.

Lemma wp_qu_count w q (pq : pbs_queue) (dn s d : Z) (ct : list Z) (Q : unit -> world I -> Prop) :
  queues w !! q = Some pq -> bump (qu_njstate pq) s d = Some ct ->
  Q tt (set_queues w (<[q := set_counts pq (int32 (qu_numjobs pq + dn)) ct (qu_jobs pq)]> (queues w))) ->
  wp (qu_count q dn s d) Q w.
Proof.
  intros Hq Hb HQ. unfold qu_count. apply wp_bind. eapply wp_get_queue; [exact Hq|].
  apply wp_bind. eapply wp_need; [exact Hb|]. unfold put_queue, wp. rewrite Hq. by eexists tt, _.
Qed.

(** What the counting steps leave alone *)
Record counted w w' : Prop := {
  cn_jobs : jobs w' = jobs w;
  cn_svr_queues : svr_queues w' = svr_queues w;
  cn_alljobs : svr_alljobs w' = svr_alljobs w;
  cn_sv : sv w' = sv w;
  cn_queues : forall q, is_Some (queues w' !! q) <-> is_Some (queues w !! q) }.

Lemma counts_num (n : Z) (ct : list Z) (f : ptr -> option Z) (l : list ptr) : counts_ok n ct f l -> int32 (n + 0) = n.
Proof. intros [-> ? _ _]. rewrite Z.add_0_r. apply int32_id. unfold in_int, INT_MIN. unfold INT_MAX in *. lia. Qed.

Lemma cstate_insert ov w p s q : cstate (<[p := s]> ov) w q = if decide (p = q) then Some s else cstate ov w q.
Proof. unfold cstate. destruct (decide (p = q)) as [->|Hne]; [by rewrite lookup_insert_eq|by rewrite lookup_insert_ne]. Qed.

Lemma counts_moved (n : Z) (ct : list Z) ov w (l : list ptr) p (old new : Z) :
  counts_ok n ct (cstate ov w) l -> NoDup l -> p ∈ l -> cstate ov w p = Some old ->
  0 <= old < PBS_NUMJOBSTATE -> 0 <= new < PBS_NUMJOBSTATE ->
  exists ct1 ct2, bump ct old (-1) = Some ct1 /\ bump ct1 new 1 = Some ct2 /\
    counts_ok n ct2 (cstate (<[p := new]> ov) w) l.
Proof.
  intros Hc Hnd Hp Hf Ho Hn. pose proof (delete_link_perm l p Hnd Hp) as Hperm.
  eapply (counts_move _ _ _ _ _ _ _ p p); [exact Hc|exact Hperm|exact Hperm| |exact Hf| |done|done].
  - intros x [_ Hx]%elem_of_delete_link. by rewrite cstate_insert, decide_False.
  - by rewrite cstate_insert, decide_True.
Qed.

(** The counters of the server and of the queue of a job go from one state to
    another. *)
Lemma move_counts_spec ov w p j (old new : Z) :
  inv ov w -> jobs w !! p = Some j -> p ∈ svr_alljobs w -> cstate ov w p = Some old ->
  0 <= old < PBS_NUMJOBSTATE -> 0 <= new < PBS_NUMJOBSTATE ->
  wp (move_counts p old new) (fun _ w' => inv (<[p := new]> ov) w' /\ counted w w') w.
Proof.
  intros Hi Hj Hp Hold Ho Hn. unfold move_counts.
  destruct (counts_moved _ _ _ _ _ _ _ _ (inv_counts _ _ Hi) (inv_nodup _ _ Hi) Hp Hold Ho Hn)
    as (ct1 & ct2 & Hb1 & Hb2 & Hct).
  apply wp_bind. eapply wp_sv_count; [exact Hb1|]. apply wp_bind. eapply wp_sv_count; [exact Hb2|]. cbn [sv_numjobs set_sv_counts].
  rewrite !(counts_num _ _ _ _ (inv_counts _ _ Hi)).
  set (w1 := set_sv_counts _ _ _). apply wp_bind. apply (wp_get_job w1 p j); [exact Hj|].
  assert (hdr w p = ji_qhdr j) as Hh by (unfold hdr; by rewrite (core_job _ _ _ Hj)).
  (* the queues of the result, given what became of that of the job *)
  assert (forall qs, (forall q, is_Some (qs !! q) <-> is_Some (queues w !! q)) ->
      (forall q pq, qs !! q = Some pq -> queue_ok (<[p := new]> ov) w q pq) ->
      inv (<[p := new]> ov) (set_queues w1 qs) /\ counted w (set_queues w1 qs)) as Hdone.
  { intros qs Hdom Hqs. split; [|by constructor]. destruct Hi. constructor; try done.
    - intros q pq Hq. destruct (Hqs q pq Hq) as [? ? ? ?]. by constructor.
    - intros q' q Hq. apply Hdom. by eapply inv_qhdr0.
    - intros q Hq. apply Hdom. by apply inv_queues0. }
  assert (forall q pq, queues w !! q = Some pq -> hdr w p ≠ Some q -> queue_ok (<[p := new]> ov) w q pq) as Hother.
  { intros q pq Hq Hne. destruct (inv_queue _ _ Hi q pq Hq) as [H1 H2 H3 H4]. constructor; [done| |done|done].
    eapply counts_ext; [|exact H2]. intros x Hx. rewrite cstate_insert, decide_False; [done|].
    intros <-. by apply H3 in Hx as [_ ?]. }
  destruct (ji_qhdr j) as [q|] eqn:Eq.
  - destruct (inv_qhdr _ _ Hi p q) as [pq Hq]; [by rewrite Hh|].
    destruct (inv_queue _ _ Hi q pq Hq) as [H1 H2 H3 H4].
    destruct (counts_moved _ _ _ _ _ p old new H2 H1) as (c1 & c2 & Hc1 & Hc2 & Hcq); [by apply H3|done..|].
    apply wp_bind. apply (wp_qu_count w1 q pq _ _ _ c1); [exact Hq|exact Hc1|].
    set (pq1 := set_counts pq _ _ _). set (w2 := set_queues w1 _).
    apply (wp_qu_count w2 q pq1 _ _ _ c2); [unfold w2; cbn; by rewrite lookup_insert_eq|exact Hc2|].
    unfold w2, pq1. cbn [queues set_queues set_counts qu_numjobs qu_jobs].
    rewrite !(counts_num _ _ _ _ H2), insert_insert_eq.
    set (pq2 := set_counts _ _ _ _). change (queues w1) with (queues w).
    change (set_queues (set_queues w1 ?a) ?b) with (set_queues w1 b).
    apply Hdone.
    + intros q'. rewrite lookup_insert_is_Some. destruct (decide (q = q')) as [<-|]; [|tauto]. rewrite Hq. split; [by eexists|by left].
    + intros q' pq'. destruct (decide (q = q')) as [<-|Hne].
      * rewrite lookup_insert_eq. intros [= <-]. by constructor.
      * rewrite lookup_insert_ne by done. intros Hq'. apply Hother; [done|]. congruence.
  - apply wp_ret. change w1 with (set_queues w1 (queues w)). apply Hdone; [done|].
    intros q pq Hq. apply Hother; [done|]. congruence.
Qed.

(** ** Changing one job *)

Lemma inv_ov ov ov' w : inv ov w -> (forall p, p ∈ svr_alljobs w -> cstate ov' w p = cstate ov w p) -> inv ov' w.
Proof.
  intros Hi Hov. apply (inv_change ov ov' w w Hi); try done.
  - apply Hi.
  - intros p c Hc. split; [by eapply inv_state|]. intros t. by eapply inv_table.
  - intros p q. by apply Hi.
  - intros p Hp. split; [by eapply inv_live|]. split; [by apply Hov|done].
Qed.

(** What a function on one job leaves alone of the others *)
Record others p w w' : Prop := {
  ot_core : forall q, q ≠ p -> core_at w' q = core_at w q;
  ot_alljobs : delete_link (svr_alljobs w') p = delete_link (svr_alljobs w) p;
  ot_sv : sv w' = sv w;
  ot_svr_queues : svr_queues w' = svr_queues w;
  ot_queues : forall q, is_Some (queues w' !! q) <-> is_Some (queues w !! q) }.

Lemma others_in p q w w' : others p w w' -> q ≠ p -> q ∈ svr_alljobs w' <-> q ∈ svr_alljobs w.
Proof.
  intros Ho Hq. pose proof (elem_of_delete_link (svr_alljobs w') p q) as H1. rewrite (ot_alljobs _ _ _ Ho) in H1.
  rewrite elem_of_delete_link in H1. tauto.
Qed.

Lemma others_trans p w1 w2 w3 : others p w1 w2 -> others p w2 w3 -> others p w1 w3.
Proof.
  intros [H1 H2 H3 H4 H5] [K1 K2 K3 K4 K5]. constructor; try congruence.
  - intros q Hq. by rewrite K1, H1.
  - intros q. by rewrite K5, H5.
Qed.

Lemma others_same p w w' : same_core w w' -> others p w w'.
Proof. intros Hs. constructor; try apply Hs; intros; by rewrite ?(sc_core _ _ Hs), ?(sc_alljobs _ _ Hs), ?(sc_queues _ _ Hs). Qed.

Lemma counted_core w w' p : counted w w' -> core_at w' p = core_at w p.
Proof. intros Hc. unfold core_at. by rewrite (cn_jobs _ _ Hc). Qed.

Lemma others_counted p w w' : counted w w' -> others p w w'.
Proof.
  intros Hc. constructor; try apply Hc; intros; by rewrite ?(counted_core _ _ _ Hc), ?(cn_alljobs _ _ Hc).
Qed.

(** A job is replaced by one that is linked in the same way. *)
Lemma inv_put ov ov' w p j j' :
  inv ov w -> jobs w !! p = Some j ->
  jobid j' = jobid j -> ji_qhdr j' = ji_qhdr j -> qrank j' = qrank j ->
  0 <= state j' < PBS_NUMJOBSTATE -> (forall t, ji_ajtrk j' = Some t -> array_ok t) ->
  (p ∈ svr_alljobs w -> committed (substate j') = true /\ cstate ov' (set_jobs w (<[p := j']> (jobs w))) p = cstate ov w p) ->
  (forall q, q ≠ p -> ov' !! q = ov !! q) ->
  inv ov' (set_jobs w (<[p := j']> (jobs w))).
Proof.
  intros Hi Hj Hid Hq Hr Hs Ht Hlinked Hov. set (w' := set_jobs w _).
  assert (forall q, q ≠ p -> core_at w' q = core_at w q) as Hne.
  { intros q Hn. unfold w'. rewrite core_at_insert. by rewrite decide_False by congruence. }
  assert (core_at w' p = Some (core j')) as Hp by (unfold w'; rewrite core_at_insert; by rewrite decide_True).
  pose proof (core_job _ _ _ Hj) as Hp0.
  apply (inv_change ov ov' w w' Hi); try done.
  - apply Hi.
  - intros q c Hc. destruct (decide (q = p)) as [->|Hn].
    + rewrite Hp in Hc. injection Hc as <-. done.
    + rewrite Hne in Hc by done. split; [by eapply inv_state|]. intros t. by eapply inv_table.
  - intros q qq Hh. apply (inv_qhdr _ _ Hi q). unfold hdr in *. destruct (decide (q = p)) as [->|Hn].
    + rewrite Hp in Hh. rewrite Hp0. cbn in *. congruence.
    + by rewrite Hne in Hh.
  - intros q Hin. unfold hdr, rank. destruct (decide (q = p)) as [->|Hn].
    + rewrite Hp, Hp0. cbn. destruct (Hlinked Hin) as [Hc Hcs]. split; [by eexists|].
      split; [done|]. by rewrite Hq, Hr, Hid.
    + rewrite Hne by done. split; [by eapply inv_live|]. split; [|done]. unfold cstate.
      by rewrite Hov, Hne by done.
Qed.

Lemma others_put w p j : others p w (set_jobs w (<[p := j]> (jobs w))).
Proof. constructor; try done. intros q Hq. rewrite core_at_insert. by rewrite decide_False by congruence. Qed.

(** The state of a job is set, to the one it is counted in if it is linked. *)
Lemma set_state_spec ov w p c s sub :
  inv (<[p := s]> ov) w -> core_at w p = Some c -> ov !! p = None -> 0 <= s < PBS_NUMJOBSTATE ->
  (p ∈ svr_alljobs w -> committed sub = true) ->
  wp (on_job p (fun j => set_qs j (set_state (ji_qs j) s sub)))
    (fun _ w' => inv ov w' /\ others p w w' /\ svr_alljobs w' = svr_alljobs w /\
       exists c', core_at w' p = Some c' /\ c_state c' = s /\ c_svrflags c' = c_svrflags c /\
         c_parentaj c' = c_parentaj c /\ c_subjindx c' = c_subjindx c /\ c_jobid c' = c_jobid c /\
         c_ajtrk c' = c_ajtrk c /\ c_qhdr c' = c_qhdr c /\ c_substate c' = sub) w.
Proof.
  intros Hi Hc Hov Hs Hsub. apply job_core in Hc as (j & Hj & <-).
  unfold on_job. apply wp_bind. eapply wp_get_job; [exact Hj|]. eapply wp_put_job; [exact Hj|].
  split; [|split; [apply others_put|split; [done|]]].
  - eapply inv_put; [exact Hi|exact Hj|done|done|done|done| | |].
    + intros t Ht. by eapply (inv_table _ _ Hi p (core j)); [apply core_job|].
    + intros Hin. split; [by apply Hsub|]. rewrite cstate_insert, decide_True by done.
      unfold cstate. rewrite Hov, core_at_insert, decide_True by done. done.
    + intros q Hq. by rewrite lookup_insert_ne.
  - eexists. rewrite core_at_insert, decide_True by done. done.
Qed.

End Steps.
End JobInv.
