(* ===== verification/JobSteps.v ===== *)
(** * The functions of the server keep its counts

    Module [JobSteps]: for each function of [JobState] that links, unlinks, frees
    a job or changes its state, that it returns from every world that satisfies
    the invariant [JobInv.inv], and that the invariant holds again after it.  A
    subjob needs its family ([family]): a parent that is alive, in the list of
    jobs and no subjob itself. *)

From Stdlib Require Import ZArith Lia Ascii String Sorted.
From stdpp Require Import gmap.
From S2P Require Import Prelude Index JobData SubjobTable SubjobProps JobState JobInv.
Import Job Counters Subjobs SubjobProps State JobInv.

Module JobSteps.

Section Steps.
Context {I : Type} `{IndexLaws I ptr} (answer : list call -> Z).
Implicit Types (w : world I) (p q pa : ptr) (j : job) (s : Z) (ov : gmap ptr Z) (c : core_t).

Definition is_sub c : bool := has (c_svrflags c) JOB_SVFLG_SubJob.

(** The parent of a job, if it has one *)
Definition family w c : Prop :=
  forall pa, c_parentaj c = Some pa ->
    exists cp, core_at w pa = Some cp /\ is_sub cp = false /\ pa ∈ svr_alljobs w /\
      (forall t, c_ajtrk cp = Some t -> 0 <= c_subjindx c < tkm_ct t) /\
      is_Some (strchr (c_jobid c) "["%char).

(** What the end of an array job must do when [update_subjob_state] calls it *)
Definition done_ok (dn : ptr -> M (world I) unit) : Prop :=
  forall ov w pa cp, inv ov w -> core_at w pa = Some cp -> is_sub cp = false -> pa ∈ svr_alljobs w ->
    ov !! pa = None -> wp (dn pa) (fun _ w' => inv ov w' /\ others pa w w') w.

Lemma family_others w w' p c : is_sub c = true -> core_at w p = Some c -> others p w w' -> family w c -> family w' c.
Proof.
  intros Hsub Hc Ho Hf pa Hpa. destruct (Hf pa Hpa) as (cp & Hcp & Hns & Hin & Hix & Hid).
  assert (pa ≠ p) as Hne by (intros ->; congruence).
  exists cp. rewrite (ot_core _ _ _ Ho), (others_in _ _ _ _ Ho) by done. done.
Qed.

Lemma family_core w c c' : c_parentaj c' = c_parentaj c -> c_subjindx c' = c_subjindx c -> c_jobid c' = c_jobid c ->
  family w c -> family w c'.
Proof. unfold family. by intros -> -> ->. Qed.

(** ** Tables *)

(** A job whose table changed, and nothing else *)
Definition retabled c c' : Prop :=
  c_state c' = c_state c /\ c_substate c' = c_substate c /\ c_svrflags c' = c_svrflags c /\
  c_jobid c' = c_jobid c /\ c_qhdr c' = c_qhdr c /\ c_parentaj c' = c_parentaj c /\
  c_subjindx c' = c_subjindx c /\ c_qrank c' = c_qrank c /\
  (forall t, c_ajtrk c = Some t -> exists t', c_ajtrk c' = Some t' /\ tkm_ct t' = tkm_ct t).

Lemma same_but_table_core j j' : same_but_table j j' ->
  (forall t, ji_ajtrk j = Some t -> exists t', ji_ajtrk j' = Some t' /\ tkm_ct t' = tkm_ct t) ->
  retabled (core j) (core j').
Proof.
  intros (Hq & Hh & Hp & Hx & _ & _ & _ & _ & Ha) Ht.
  unfold retabled, core, state, substate, jobid, qrank. cbn.
  rewrite Hq, Hh, Hp, Hx, (Ha JOB_ATR_qrank) by done. split_and!; try done.
Qed.

(** Writing back a job with another table *)
Lemma put_retabled ov w p j j' : inv ov w -> jobs w !! p = Some j -> retabled (core j) (core j') ->
  (forall t, ji_ajtrk j' = Some t -> array_ok t) ->
  wp (put_job p j') (fun _ w' => inv ov w' /\ others p w w' /\ core_at w' p = Some (core j') /\
                                 svr_alljobs w' = svr_alljobs w) w.
Proof.
  intros Hi Hj (Hs & Hsub & _ & Hid & Hq & _ & _ & Hr & _) Ht. eapply wp_put_job; [exact Hj|].
  pose proof (core_job _ _ _ Hj) as Hc. cbn in Hs, Hsub, Hid, Hq, Hr.
  split; [|split; [apply others_put|split; [by rewrite core_at_insert, decide_True|done]]].
  eapply inv_put; [exact Hi|exact Hj|done|done|done| |done| |done].
  - rewrite Hs. by apply (inv_state _ _ Hi p (core j)).
  - intros Hin. split.
    + rewrite Hsub. destruct (inv_live _ _ Hi p Hin) as (c & Hc' & Hcm). rewrite Hc in Hc'. by injection Hc' as <-.
    + unfold cstate. destruct (ov !! p); [done|]. rewrite core_at_insert, decide_True, Hc by done. cbn. by rewrite Hs.
Qed.

Lemma table_of ov w p j t : inv ov w -> jobs w !! p = Some j -> ji_ajtrk j = Some t -> array_ok t.
Proof. intros Hi Hj Ht. by eapply (inv_table _ _ Hi p (core j)); [apply core_job|]. Qed.

Lemma set_whole_table_step ov w p c (f : job -> Z) : inv ov w -> core_at w p = Some c ->
  (forall j, core j = c -> 0 <= f j < PBS_NUMJOBSTATE) ->
  wp (let* pjob := get_job p in let* pjob := need (set_whole_table pjob (f pjob)) in put_job p pjob)
    (fun _ w' => inv ov w' /\ others p w w' /\ svr_alljobs w' = svr_alljobs w /\
       exists c', core_at w' p = Some c' /\ retabled c c') w.
Proof.
  intros Hi Hc Hs. apply job_core in Hc as (j & Hj & <-). apply wp_bind. eapply wp_get_job; [exact Hj|].
  apply wp_bind. destruct (ji_ajtrk j) as [t|] eqn:Et.
  - destruct (set_whole_table_spec j t (f j) Et (table_of _ _ _ _ _ Hi Hj Et) (Hs j eq_refl))
      as (j' & t' & Hset & Hsame & Ht' & Hok & Hct & _).
    eapply wp_need; [exact Hset|]. assert (retabled (core j) (core j')) as Hr.
    { apply same_but_table_core; [done|]. intros t0 Ht0. rewrite Et in Ht0. injection Ht0 as <-. eauto. }
    eapply wp_mono; [apply (put_retabled ov w p j j' Hi Hj Hr)|].
    + intros t0 Ht0. congruence.
    + cbn. intros _ w' (? & ? & Hcw & ?). split; [done|]. split; [done|]. split; [done|]. eauto.
  - eapply wp_need; [unfold set_whole_table; by rewrite Et|].
    assert (retabled (core j) (core j)) as Hr by (unfold retabled; cbn; rewrite Et; by split_and!).
    eapply wp_mono; [apply (put_retabled ov w p j j Hi Hj Hr)|].
    + intros t0 Ht0. congruence.
    + cbn. intros _ w' (? & ? & Hcw & ?). split; [done|]. split; [done|]. split; [done|]. eauto.
Qed.

(** The entry of a subjob in the table of its parent *)
Lemma set_tblstate_step ov w p c t (i s : Z) : inv ov w -> core_at w p = Some c -> c_ajtrk c = Some t ->
  0 <= i < tkm_ct t -> 0 <= s < PBS_NUMJOBSTATE ->
  wp (set_tblstate p i s)
    (fun _ w' => inv ov w' /\ others p w w' /\ svr_alljobs w' = svr_alljobs w /\
       exists c', core_at w' p = Some c' /\ retabled c c') w.
Proof.
  intros Hi Hc Ht Hr Hs. apply job_core in Hc as (j & Hj & <-). unfold set_tblstate.
  apply wp_bind. eapply wp_get_job; [exact Hj|]. apply wp_bind.
  destruct (set_tblstate_spec j t i s Ht (table_of _ _ _ _ _ Hi Hj Ht) Hr Hs)
    as (j' & t' & Hset & Hsame & Ht' & Hok & Hct & _).
  eapply wp_need; [exact Hset|]. assert (retabled (core j) (core j')) as Hrt.
  { apply same_but_table_core; [done|]. intros t0 Ht0. cbn in Ht. rewrite Ht in Ht0. injection Ht0 as <-. eauto. }
  eapply wp_mono; [apply (put_retabled ov w p j j' Hi Hj Hrt)|].
  - intros t0 Ht0. congruence.
  - cbn. intros _ w' (? & ? & Hcw & ?). split; [done|]. split; [done|]. split; [done|]. eauto.
Qed.

Lemma upd_entry_spec j t (i : Z) (f : ajtrk -> ajtrk) : ji_ajtrk j = Some t -> array_ok t -> 0 <= i < tkm_ct t ->
  (forall e, trk_index (f e) = trk_index e /\ trk_status (f e) = trk_status e) ->
  exists j' t', upd_entry i f j = Some j' /\ retabled (core j) (core j') /\ ji_ajtrk j' = Some t' /\ array_ok t'.
Proof.
  intros Hj [Ht Hn] Hi Hf. destruct (table_rd t i Ht Hi) as (e & Hrd & He & _). unfold upd_entry.
  rewrite Hj. cbn [mbind option_bind]. rewrite Hrd. cbn [mbind option_bind].
  rewrite wr_in by (rewrite <- (table_len _ Ht); lia). cbn [mbind option_bind].
  eexists _, (set_tbl t (tkm_subjsct t) _). split; [done|]. split.
  { unfold retabled, core, state, substate, jobid, qrank. cbn. split_and!; try done. intros t0 Ht0.
    rewrite Hj in Ht0. injection Ht0 as <-. by eexists. }
  split; [done|]. destruct (Hf e) as [Hfi Hfs]. split; [|by eapply narrow_set; [| |exact Hfi]].
  destruct Ht as [H1 H2 H3 (x & Hx & Hix & Hmax)]. destruct (insert_perm (tkm_tbl t) (Z.to_nat i) e (f e) He) as (r & Hl & Hl').
  constructor; cbn.
  - destruct H1 as [K1 K2 K3 K4]. constructor; [by rewrite length_insert|by rewrite length_insert|done|].
    intros s Hs. rewrite K4 by done. f_equal. rewrite (tally_perm _ _ _ s Hl), (tally_perm _ _ _ s Hl'), !tally_cons.
    unfold status_of. by rewrite Hfs.
  - apply Forall_insert; [done|]. rewrite Hfs. apply (Forall_lookup_1 _ _ _ _ H2 He).
  - done.
  - exists x. rewrite length_insert. by rewrite (map_index_insert _ _ e).
Qed.

(** ** Unlinking *)

(** The job has left the list of all jobs, the index and the counts of the
    server, and not yet its queue. *)
Record half_unlinked ov w p w1 : Prop := {
  hu_jobs : jobs w1 = jobs w;
  hu_queues : queues w1 = queues w;
  hu_svr_queues : svr_queues w1 = svr_queues w;
  hu_alljobs : svr_alljobs w1 = delete_link (svr_alljobs w) p;
  hu_sv : sv w1 = sv w;
  hu_buflen : cvt_buflen w1 = cvt_buflen w;
  hu_counts : counts_ok (sv_numjobs w1) (sv_jobstates w1) (cstate ov w) (delete_link (svr_alljobs w) p);
  hu_index : forall ctx, AVL_jctx w1 = Some ctx ->
    ix_wf ctx /\ forall k q, ix_find k ctx = Some q <->
      q ∈ delete_link (svr_alljobs w) p /\ c_jobid <$> core_at w q = Some k }.

(** Counters of a list of jobs are not negative after one left. *)
Lemma not_negative (n : Z) (ct : list Z) (f : ptr -> option Z) (l : list ptr) (s : Z) :
  counts_ok n ct f l -> 0 <= s < PBS_NUMJOBSTATE -> (n <? 0) || negative ct s = false.
Proof.
  intros Hc Hs. destruct (counts_nonneg _ _ _ _ s Hc Hs) as (k & Hk & Hr). destruct Hc as [-> _ _ _].
  unfold negative. rewrite Hk, (proj2 (Z.ltb_ge k 0)), orb_false_r by lia. apply Z.ltb_ge. lia.
Qed.

Lemma cstate_job ov w p j : ov !! p = None -> jobs w !! p = Some j -> cstate ov w p = Some (state j).
Proof. intros Hov Hj. unfold cstate. by rewrite Hov, (core_job _ _ _ Hj). Qed.

Lemma avl_delete_step w p j : jobs w !! p = Some j ->
  (forall ctx, AVL_jctx w = Some ctx -> ix_wf ctx /\ ix_find (jobid j) ctx = Some p) ->
  wp (svr_avljob_oper p true)
    (fun _ w' => w' = set_ctx w ((fun ctx => fst (ix_delete (jobid j) ctx)) <$> AVL_jctx w)) w.
Proof.
  intros Hj Hctx. unfold svr_avljob_oper. apply wp_bind, wp_world. destruct (AVL_jctx w) as [ctx|] eqn:E.
  - apply wp_bind. eapply wp_get_job; [exact Hj|]. destruct (Hctx ctx eq_refl) as [Hwf Hf].
    pose proof (ix_delete_ok ctx (jobid j) Hwf) as Hd. destruct (ix_delete (jobid j) ctx) as [ctx' r] eqn:Ed.
    cbn in Hd. rewrite Hd, Hf. rewrite bool_decide_true by (by eexists). eexists tt, _. split; [done|].
    cbn. by rewrite Ed.
  - apply wp_ret. destruct w. cbn in *. by rewrite E.
Qed.

Lemma unlink_server_spec ov w p j : inv ov w -> jobs w !! p = Some j -> p ∈ svr_alljobs w -> ov !! p = None ->
  wp (unlink_server p) (fun b w1 => b = false /\ half_unlinked ov w p w1) w.
Proof.
  intros Hi Hj Hp Hov. unfold unlink_server. apply wp_bind, wp_world. unfold is_linked.
  rewrite bool_decide_true by done. cbn [negb]. apply wp_bind. eexists tt, _. split; [done|]. cbv beta.
  set (w0 := set_lists _ _ _ _). apply wp_bind. eapply wp_mono; [apply (avl_delete_step w0 p j)|].
  { exact Hj. }
  { intros ctx Hctx. destruct (inv_index _ _ Hi ctx Hctx) as [Hwf Hf]. split; [done|]. apply Hf. split; [done|].
    by rewrite (core_job _ _ _ Hj). }
  cbn. intros _ w1 ->. set (w1 := set_ctx _ _). apply wp_bind. apply (wp_get_job w1 p j); [exact Hj|].
  pose proof (state_of _ _ _ _ Hi Hj) as Hs.
  destruct (counts_drop _ _ _ _ _ p (state j) (inv_counts _ _ Hi)
    (delete_link_perm _ p (inv_nodup _ _ Hi) Hp) (cstate_job _ _ _ _ Hov Hj) Hs) as (ct & Hb & Hct).
  apply wp_bind. eapply (wp_sv_count w1); [exact Hb|]. apply wp_bind, wp_world, wp_ret. split.
  - cbn [sv_numjobs sv_jobstates set_sv_counts]. by eapply not_negative.
  - constructor; try done. intros ctx Hctx. cbn [AVL_jctx set_sv_counts w1 set_ctx] in Hctx.
    unfold w0 in Hctx. cbn in Hctx. destruct (AVL_jctx w) as [ctx0|] eqn:E; [|done]. injection Hctx as <-.
    destruct (inv_index _ _ Hi ctx0 E) as [Hwf Hf]. split; [by apply ix_delete_wf|]. intros k q.
    rewrite ix_delete_find by done. rewrite elem_of_delete_link. destruct (decide (k = jobid j)) as [->|Hk].
    + rewrite bool_decide_true by done. split; [done|]. intros [[Hq Hne] Hid]. exfalso. apply Hne.
      assert (ix_find (jobid j) ctx0 = Some q) as H1 by (by apply Hf).
      assert (ix_find (jobid j) ctx0 = Some p) as H2 by (apply Hf; by rewrite (core_job _ _ _ Hj)). congruence.
    + rewrite bool_decide_false by done. rewrite Hf. split; [|tauto]. intros [Hq Hid]. split; [|done]. split; [done|].
      intros ->. rewrite (core_job _ _ _ Hj) in Hid. cbn in Hid. congruence.
Qed.

Definition no_qhdr c : core_t :=
  {| c_state := c_state c; c_substate := c_substate c; c_svrflags := c_svrflags c; c_jobid := c_jobid c;
     c_qhdr := None; c_parentaj := c_parentaj c; c_subjindx := c_subjindx c; c_ajtrk := c_ajtrk c;
     c_qrank := c_qrank c |}.

(** What [svr_dequejob] leaves: the job is alive, in no list and in no queue. *)
Definition unlinked p c w w' : Prop :=
  others p w w' /\ core_at w' p = Some (no_qhdr c) /\ p ∉ svr_alljobs w'.

(** The other half: the job leaves its queue. *)
Lemma unlink_done ov w p c w1 w2 :
  inv ov w -> ov !! p = None -> core_at w p = Some c -> p ∈ svr_alljobs w -> half_unlinked ov w p w1 ->
  (forall q, q ≠ p -> core_at w2 q = core_at w q) -> core_at w2 p = Some (no_qhdr c) ->
  svr_alljobs w2 = svr_alljobs w1 -> sv_numjobs w2 = sv_numjobs w1 -> sv_jobstates w2 = sv_jobstates w1 ->
  AVL_jctx w2 = AVL_jctx w1 -> svr_queues w2 = svr_queues w1 -> 0 <= cvt_buflen w2 -> sv w2 = sv w1 ->
  (forall q, Some q ≠ c_qhdr c -> queues w2 !! q = queues w !! q) ->
  (forall q, c_qhdr c = Some q -> exists pq ct, queues w !! q = Some pq /\
     queues w2 !! q = Some (set_counts pq (int32 (qu_numjobs pq + -1)) ct (delete_link (qu_jobs pq) p)) /\
     bump (qu_njstate pq) (c_state c) (-1) = Some ct) ->
  inv ov w2 /\ unlinked p c w w2.
Proof.
  intros Hi Hov Hc Hp Hh Hne Hpc E1 E2 E3 E4 E5 E6 E7 Hoq Hq. destruct Hh.
  assert (p ∉ svr_alljobs w2) as Hpn by (rewrite E1, hu_alljobs0, elem_of_delete_link; tauto).
  assert (forall q, q ∈ svr_alljobs w2 <-> q ∈ svr_alljobs w /\ q ≠ p) as Hin.
  { intros q. rewrite E1, hu_alljobs0. apply elem_of_delete_link. }
  assert (forall q, is_Some (queues w2 !! q) <-> is_Some (queues w !! q)) as Hqs.
  { intros q. destruct (decide (Some q = c_qhdr c)) as [He|Hn]; [|by rewrite Hoq].
    destruct (Hq q (eq_sym He)) as (pq & ct & -> & -> & _). split; by eexists. }
  assert (forall q, q ≠ p -> cstate ov w2 q = cstate ov w q) as Hcs by (intros q Hn; unfold cstate; by rewrite Hne).
  split.
  - constructor.
    + done.
    + intros q cq Hcq. destruct (decide (q = p)) as [->|Hn].
      * rewrite Hpc in Hcq. injection Hcq as <-. by apply (inv_state _ _ Hi p c).
      * rewrite Hne in Hcq by done. by eapply inv_state.
    + intros q cq t Hcq. destruct (decide (q = p)) as [->|Hn].
      * rewrite Hpc in Hcq. injection Hcq as <-. cbn. by apply (inv_table _ _ Hi p c).
      * rewrite Hne in Hcq by done. by eapply inv_table.
    + rewrite E1, hu_alljobs0. apply NoDup_filter, Hi.
    + intros q [Hq1 Hn]%Hin. rewrite Hne by done. by eapply inv_live.
    + rewrite E2, E3, E1, hu_alljobs0. eapply counts_ext; [|exact hu_counts0].
      intros q [_ Hn]%elem_of_delete_link. by rewrite Hcs.
    + intros q pq Hpq. destruct (decide (Some q = c_qhdr c)) as [He|Hn].
      * destruct (Hq q (eq_sym He)) as (pq0 & ct & Hpq0 & Hpq2 & Hb). rewrite Hpq in Hpq2. injection Hpq2 as ->.
        destruct (inv_queue _ _ Hi q pq0 Hpq0) as [H1 H2 H3 H4].
        assert (p ∈ qu_jobs pq0) as Hpin by (apply H3; split; [done|]; unfold hdr; by rewrite Hc).
        assert (cstate ov w p = Some (c_state c)) as Hst by (unfold cstate; by rewrite Hov, Hc).
        destruct (counts_drop _ _ _ _ _ p _ H2 (delete_link_perm _ p H1 Hpin) Hst (inv_state _ _ Hi p c Hc))
          as (ct' & Hb' & Hct). rewrite Hb in Hb'. injection Hb' as <-.
        constructor; cbn [qu_jobs qu_numjobs qu_njstate set_counts].
        -- by apply NoDup_filter.
        -- eapply counts_ext; [|exact Hct]. intros x [_ Hx]%elem_of_delete_link. by rewrite Hcs.
        -- intros x. rewrite elem_of_delete_link, H3, Hin. unfold hdr. split.
           ++ intros [[Hx1 Hx2] Hx]. rewrite Hne by done. done.
           ++ intros [[Hx1 Hx2] Hx]. rewrite Hne in Hx by done. done.
        -- apply (sorted_ext (fun p p' => rank w p <= rank w p')).
           ++ intros a b [_ Ha]%elem_of_delete_link [_ Hb2]%elem_of_delete_link. unfold rank. by rewrite !Hne.
           ++ unfold delete_link. clear -H4. induction H4 as [|a l Hl IH Ha]; [constructor|].
              rewrite filter_cons. case_decide; [|done]. constructor; [done|].
              rewrite Forall_forall in Ha |- *. intros b [_ Hb]%list_elem_of_filter. by apply Ha.
      * rewrite Hoq in Hpq by done. destruct (inv_queue _ _ Hi q pq Hpq) as [H1 H2 H3 H4].
        assert (p ∉ qu_jobs pq) as Hpnq.
        { intros [_ Hhp]%H3. unfold hdr in Hhp. rewrite Hc in Hhp. cbn in Hhp. congruence. }
        assert (forall x, x ∈ qu_jobs pq -> x ≠ p) as Hxp by (intros x Hx ->; done).
        constructor; [done| | |].
        -- eapply counts_ext; [|exact H2]. intros x Hx. symmetry. apply Hcs. by apply Hxp.
        -- intros x. rewrite H3, Hin. unfold hdr. split.
           ++ intros [Hx1 Hx2]. assert (x ≠ p) as Hxn by (intros ->; rewrite Hc in Hx2; cbn in Hx2; congruence).
              by rewrite Hne.
           ++ intros [[Hx1 Hx2] Hx]. rewrite Hne in Hx by done. done.
        -- apply (sorted_ext (fun p p' => rank w p <= rank w p')); [|done].
           intros a b Ha Hb. unfold rank. by rewrite !Hne by (by apply Hxp).
    + intros x q Hh. apply Hqs. apply (inv_qhdr _ _ Hi x). unfold hdr in *. destruct (decide (x = p)) as [->|Hn].
      * by rewrite Hpc in Hh.
      * by rewrite Hne in Hh.
    + intros q. rewrite E5, hu_svr_queues0, Hqs. apply Hi.
    + intros ctx Hctx. rewrite E4 in Hctx. destruct (hu_index0 ctx Hctx) as [Hwf Hf]. split; [done|].
      intros k q. rewrite Hf, Hin, elem_of_delete_link. split; intros [[? Hn] ?]; (split; [done|]).
      * by rewrite Hne.
      * by rewrite <- Hne.
  - split; [|done]. constructor; [done| |congruence|congruence|done].
    rewrite E1, hu_alljobs0. unfold delete_link. rewrite list_filter_filter. apply list_filter_iff. tauto.
Qed.

Lemma unlinked_core p c w w1 w2 : unlinked p c w w1 -> same_core w1 w2 -> unlinked p c w w2.
Proof.
  intros (Ho & Hc & Hn) Hs. split; [|split].
  - eapply others_trans; [exact Ho|]. by apply others_same.
  - by rewrite (sc_core _ _ Hs).
  - by rewrite (sc_alljobs _ _ Hs).
Qed.

Lemma keeps_dequeue_attrs w p (b : bool) : b = false -> live w p ->
  keeps (let* _ := when b correct_ct in
         let* _ := on_attr p JOB_ATR_qtime (fun a => drop_flags a ATR_VFLAG_SET) in
         call_ (C_clear_default_resc p)) w.
Proof.
  intros -> Hp. apply keeps_bind; [apply keeps_ret|]. intros _ w1 Hw1. apply keeps_bind.
  - apply keeps_on_attr; [by eapply live_core|done].
  - intros. apply keeps_call.
Qed.

Lemma wp_put_queue w q (pq pq' : pbs_queue) (Q : unit -> world I -> Prop) :
  queues w !! q = Some pq -> Q tt (set_queues w (<[q := pq']> (queues w))) -> wp (put_queue q pq') Q w.
Proof. intros Hq HQ. unfold put_queue, wp. rewrite Hq. by eexists tt, _. Qed.

(** [unlink_queue] of a job that is in the list of its queue *)
Lemma unlink_queue_spec w p q j (pq : pbs_queue) (f : ptr -> option Z) :
  jobs w !! p = Some j -> queues w !! q = Some pq -> p ∈ qu_jobs pq -> NoDup (qu_jobs pq) ->
  counts_ok (qu_numjobs pq) (qu_njstate pq) f (qu_jobs pq) -> f p = Some (state j) -> 0 <= state j < PBS_NUMJOBSTATE ->
  wp (unlink_queue p q) (fun b w' => b = false /\ exists ct w1, same_core w w1 /\
      bump (qu_njstate pq) (state j) (-1) = Some ct /\
      w' = set_queues w1 (<[q := set_counts pq (int32 (qu_numjobs pq + -1)) ct (delete_link (qu_jobs pq) p)]> (queues w1))) w.
Proof.
  intros Hj Hq Hp Hnd Hct Hf Hs. unfold unlink_queue.
  eapply wp_seq; [apply keeps_entity_calls|]. cbn. intros _ w1 Hw1.
  assert (queues w1 !! q = Some pq) as Hq1 by (by rewrite (sc_queues _ _ Hw1)).
  apply wp_bind. eapply wp_get_queue; [exact Hq1|]. unfold is_linked. rewrite bool_decide_true by done. cbn [negb].
  destruct (job_core w1 p (core j)) as (j1 & Hj1 & Hc1).
  { rewrite (sc_core _ _ Hw1). by apply core_job. }
  assert (state j1 = state j) as Hst by (by apply (f_equal c_state) in Hc1).
  apply wp_bind. eapply wp_get_job; [exact Hj1|]. apply wp_bind. eapply wp_put_queue; [exact Hq1|]. rewrite Hst.
  destruct (counts_drop _ _ _ _ _ p _ Hct (delete_link_perm _ p Hnd Hp) Hf Hs) as (ct & Hb & Hct').
  apply wp_bind. set (pq1 := set_counts pq (qu_numjobs pq) (qu_njstate pq) _). set (w2 := set_queues w1 _).
  eapply (wp_qu_count w2 q pq1); [unfold w2; cbn; by rewrite lookup_insert_eq|exact Hb|].
  unfold w2, pq1. cbn [queues set_queues set_counts qu_numjobs qu_jobs]. rewrite insert_insert_eq.
  set (pq2 := set_counts _ _ _ _). change (set_queues (set_queues w1 ?a) ?b) with (set_queues w1 b).
  apply wp_bind. eapply wp_get_queue; [cbn; by rewrite lookup_insert_eq|]. apply wp_ret. split.
  - unfold pq2. cbn [qu_numjobs qu_njstate set_counts]. by eapply not_negative.
  - exists ct, w1. done.
Qed.

(** A job that is in no list leaves the queue it names. *)
Lemma drop_qhdr ov w p j : inv ov w -> jobs w !! p = Some j -> p ∉ svr_alljobs w ->
  inv ov (set_jobs w (<[p := set_qhdr j None]> (jobs w))) /\
  unlinked p (core j) w (set_jobs w (<[p := set_qhdr j None]> (jobs w))).
Proof.
  intros Hi Hj Hp. pose proof (core_job _ _ _ Hj) as Hc. set (w' := set_jobs w _).
  assert (core_at w' p = Some (no_qhdr (core j))) as Hcp by (unfold w'; rewrite core_at_insert; by rewrite decide_True).
  assert (forall x, x ≠ p -> core_at w' x = core_at w x) as Hne.
  { intros x Hx. unfold w'. rewrite core_at_insert. by rewrite decide_False by congruence. }
  split; [|split; [apply others_put|done]]. apply (inv_change ov ov w w' Hi); try done.
  - apply Hi.
  - intros x c Hx. destruct (decide (x = p)) as [->|Hn].
    + rewrite Hcp in Hx. injection Hx as <-. split; [by eapply state_of|]. intros t Ht. by eapply table_of.
    + rewrite Hne in Hx by done. split; [by eapply inv_state|]. intros t. by eapply inv_table.
  - intros x q Hh. apply (inv_qhdr _ _ Hi x). unfold hdr in *. destruct (decide (x = p)) as [->|Hn].
    + by rewrite Hcp in Hh.
    + by rewrite Hne in Hh.
  - intros x Hx. assert (x ≠ p) as Hn by (intros ->; done). unfold cstate, hdr, rank. rewrite Hne by done.
    split; [by eapply inv_live|done].
Qed.

Lemma svr_dequejob_spec ov w p c : inv ov w -> core_at w p = Some c -> ov !! p = None ->
  wp (svr_dequejob p) (fun _ w' => inv ov w' /\ unlinked p c w w') w.
Proof.
  intros Hi Hc Hov. pose proof Hc as (j & Hj & <-)%job_core. unfold svr_dequejob.
  (* what is left to do once the job is out of the lists *)
  assert (forall w1 (b : bool), b = false -> inv ov w1 /\ unlinked p (core j) w w1 ->
    wp (let* _ := when b correct_ct in
         let* _ := on_attr p JOB_ATR_qtime (fun a => drop_flags a ATR_VFLAG_SET) in
         call_ (C_clear_default_resc p)) (fun _ w' => inv ov w' /\ unlinked p (core j) w w') w1) as Hrest.
  { intros w1 b Hb [Hi1 Hu1]. eapply wp_mono; [apply (keeps_dequeue_attrs w1 p b Hb)|].
    - destruct Hu1 as (_ & Hu & _). by eexists.
    - cbn. intros _ w2 Hs. split; [by eapply inv_same_core|by eapply unlinked_core]. }
  destruct (decide (p ∈ svr_alljobs w)) as [Hp|Hp].
  - eapply wp_seq; [by eapply unlink_server_spec|]. cbn. intros b w1 [-> Hh]. pose proof Hh as [Hj1 Hq1 Hsq1 Ha1 Hsv1 Hb1 Hct1 _].
    apply wp_bind. eapply wp_get_job; [by rewrite Hj1|]. apply wp_bind.
    assert (forall x, core_at w1 x = core_at w x) as Hc1 by (intros x; unfold core_at; by rewrite Hj1).
    destruct (ji_qhdr j) as [q|] eqn:Eq.
    + destruct (inv_qhdr _ _ Hi p q) as [pq Hq]; [unfold hdr; by rewrite Hc|].
      destruct (inv_queue _ _ Hi q pq Hq) as [Qn Qc Qm _].
      assert (p ∈ qu_jobs pq) as Hpq by (apply Qm; split; [done|]; unfold hdr; by rewrite Hc).
      eapply wp_seq; [apply (unlink_queue_spec w1 p q j pq (cstate ov w)); try done|].
      * by rewrite Hj1.
      * by rewrite Hq1.
      * by apply cstate_job.
      * by eapply state_of.
      * cbn. intros b w2 (-> & ct & w1' & Hs & Hb & ->). set (w2 := set_queues _ _).
        destruct (job_core w2 p (core j)) as (j2 & Hj2 & Hcj2).
        { change (core_at w2 p) with (core_at w1' p). by rewrite (sc_core _ _ Hs), Hc1. }
        unfold on_job. apply wp_bind, wp_bind. eapply wp_get_job; [exact Hj2|]. eapply wp_put_job; [exact Hj2|].
        apply wp_ret, Hrest; [done|]. set (w3 := set_jobs _ _).
        assert (forall x, x ≠ p -> core_at w3 x = core_at w x) as Hne.
        { intros x Hx. unfold w3. rewrite core_at_insert, decide_False by congruence.
          change (core_at w2 x) with (core_at w1' x). by rewrite (sc_core _ _ Hs), Hc1. }
        eapply (unlink_done ov w p (core j) w1 w3); try done; try apply Hs.
        -- unfold w3. rewrite core_at_insert, decide_True by done. f_equal. unfold no_qhdr. rewrite <- Hcj2. done.
        -- rewrite Hb1. apply Hi.
        -- intros q' Hq'. cbn. rewrite lookup_insert_ne by (cbn in Hq'; congruence). by rewrite (sc_queues _ _ Hs), Hq1.
        -- intros q' Hq'. cbn in Hq'. rewrite Eq in Hq'. injection Hq' as <-. exists pq, ct. cbn.
           by rewrite lookup_insert_eq.
    + apply wp_ret, Hrest; [done|]. eapply (unlink_done ov w p (core j) w1 w1); try done.
      * rewrite Hc1, Hc. f_equal. unfold no_qhdr, core. cbn. by rewrite Eq.
      * rewrite Hb1. apply Hi.
      * intros q _. by rewrite Hq1.
      * intros q Hq. cbn in Hq. congruence.
  - unfold unlink_server, is_linked. apply wp_bind, wp_bind, wp_world. rewrite bool_decide_false by done.
    cbn [negb]. apply wp_ret, wp_bind. eapply wp_get_job; [exact Hj|]. apply wp_bind.
    destruct (ji_qhdr j) as [q|] eqn:Eq.
    + destruct (inv_qhdr _ _ Hi p q) as [pq Hq]; [unfold hdr; by rewrite Hc|].
      destruct (inv_queue _ _ Hi q pq Hq) as [Qn Qc Qm _].
      unfold unlink_queue. apply wp_bind. eapply wp_seq; [apply keeps_entity_calls|]. cbn. intros _ w1 Hs.
      apply wp_bind. eapply wp_get_queue; [by rewrite (sc_queues _ _ Hs)|]. unfold is_linked.
      rewrite bool_decide_false by (by intros [? _]%Qm). cbn [negb]. apply wp_ret. apply wp_bind.
      destruct (job_core w1 p (core j)) as (j1 & Hj1 & Hcj1); [by rewrite (sc_core _ _ Hs)|].
      unfold on_job. apply wp_bind. eapply wp_get_job; [exact Hj1|]. eapply wp_put_job; [exact Hj1|].
      apply wp_ret, Hrest; [done|].
      pose proof (inv_same_core _ _ _ Hs Hi) as Hi1.
      destruct (drop_qhdr ov w1 p j1 Hi1 Hj1) as [Hi2 Hu]; [by rewrite (sc_alljobs _ _ Hs)|].
      split; [done|]. destruct Hu as (Ho & Hcu & Hn). rewrite <- Hcj1. split; [|done].
      eapply others_trans; [by apply others_same|exact Ho].
    + apply wp_ret, Hrest; [done|]. split; [done|]. split; [apply others_same, same_core_refl|]. split; [|done].
      rewrite Hc. f_equal. unfold no_qhdr, core. cbn. by rewrite Eq.
Qed.

(** ** Subjobs and their parent *)

(** What no function here changes *)
Record steady w w' : Prop := {
  st_sv : sv w' = sv w;
  st_svr_queues : svr_queues w' = svr_queues w;
  st_queues : forall q, is_Some (queues w' !! q) <-> is_Some (queues w !! q) }.

Lemma steady_refl w : steady w w.
Proof. by constructor. Qed.

Lemma steady_trans w1 w2 w3 : steady w1 w2 -> steady w2 w3 -> steady w1 w3.
Proof. intros [? ? H1] [? ? H2]. constructor; [congruence..|]. intros q. by rewrite H2. Qed.

Lemma steady_others p w w' : others p w w' -> steady w w'.
Proof. intros [_ _ ? ? ?]. by constructor. Qed.

(** What a subjob needs to tell its parent of its state *)
Definition able (dn : ptr -> M (world I) unit) ov w p c : Prop :=
  is_sub c = true -> done_ok dn /\ family w c /\ forall q, q ≠ p -> ov !! q = None.

Lemma retabled_refl c : retabled c c.
Proof. unfold retabled. split_and!; try done. eauto. Qed.

Lemma retabled_table c c' (t : ajtrkhd) : retabled c c' -> c_ajtrk c = Some t ->
  exists t', c_ajtrk c' = Some t' /\ tkm_ct t' = tkm_ct t.
Proof. intros (_ & _ & _ & _ & _ & _ & _ & _ & Ht). apply Ht. Qed.

Lemma retabled_sub c c' : retabled c c' -> is_sub c' = is_sub c.
Proof. intros (_ & _ & Hf & _). unfold is_sub. by rewrite Hf. Qed.

(** The end of a subjob is noted in the table of its parent. *)
Lemma end_entry_step ov w pa cp t (i : Z) (pjob : job) :
  inv ov w -> core_at w pa = Some cp -> c_ajtrk cp = Some t -> 0 <= i < tkm_ct t ->
  wp (let* hist := svr_chk_history_conf in
      let* parent := get_job pa in
      let* parent := need (upd_entry i (end_entry pjob hist) parent) in
      put_job pa (set_modified parent true))
    (fun _ w' => inv ov w' /\ others pa w w' /\ svr_alljobs w' = svr_alljobs w /\
       exists c', core_at w' pa = Some c' /\ retabled cp c') w.
Proof.
  intros Hi Hcp Ht Hr. unfold svr_chk_history_conf. apply wp_bind, wp_bind, wp_world, wp_ret.
  apply job_core in Hcp as (jp & Hjp & <-). apply wp_bind. eapply wp_get_job; [exact Hjp|].
  destruct (upd_entry_spec jp t i (end_entry pjob
      (negb (svr_history_enable (sv w) =? 0) && negb (svr_history_duration (sv w) =? 0))) Ht
      (table_of _ _ _ _ _ Hi Hjp Ht) Hr) as (j' & t' & Hu & Hret & Ht' & Hok); [done|].
  apply wp_bind. eapply wp_need; [exact Hu|].
  eapply wp_mono; [apply (put_retabled ov w pa jp (set_modified j' true) Hi Hjp Hret)|].
  - intros t0 Ht0. cbn in Ht0. congruence.
  - cbn. intros _ w' (? & ? & Hcw & ?). split; [done|]. split; [done|]. split; [done|]. eauto.
Qed.

Lemma update_subjob_step dn ov w p c s :
  inv ov w -> core_at w p = Some c -> is_sub c = true -> able dn ov w p c -> 0 <= s < PBS_NUMJOBSTATE ->
  wp (update_subjob_state dn p s)
    (fun _ w' => inv ov w' /\ core_at w' p = Some c /\ (p ∈ svr_alljobs w' <-> p ∈ svr_alljobs w) /\ steady w w') w.
Proof.
  intros Hi Hc Hsub Hab Hs. destruct (Hab Hsub) as (Hdn & Hfam & Hov).
  assert (forall w', w' = w -> inv ov w' /\ core_at w' p = Some c /\
     (p ∈ svr_alljobs w' <-> p ∈ svr_alljobs w) /\ steady w w') as Hstay.
  { intros w' ->. split; [done|]. split; [done|]. split; [done|apply steady_refl]. }
  pose proof Hc as (j & Hj & <-)%job_core. unfold update_subjob_state.
  apply wp_bind. eapply wp_get_job; [exact Hj|]. destruct (ji_parentaj j) as [pa|] eqn:Epa; [|by apply wp_ret, Hstay].
  destruct (Hfam pa Epa) as (cp & Hcp & Hns & Hpin & Hix & [pc Hpc]).
  assert (pa ≠ p) as Hne by (intros ->; rewrite Hc in Hcp; injection Hcp as <-; congruence).
  pose proof Hcp as (jp & Hjp & Hcjp)%job_core. apply wp_bind. eapply wp_get_job; [exact Hjp|].
  destruct (ji_ajtrk jp) as [t|] eqn:Et; [|by apply wp_ret, Hstay].
  assert (c_ajtrk cp = Some t) as Ht by (by rewrite <- Hcjp).
  apply wp_bind. eapply wp_need; [exact Hpc|]. cbv zeta. case_match; [by apply wp_ret, Hstay|].
  eapply wp_seq; [by eapply (set_tblstate_step ov w pa cp t); eauto|].
  cbn beta. intros _ w1 (Hi1 & Ho1 & Ha1 & c1 & Hc1 & Hr1).
  eapply (wp_seq _ _ (fun _ w2 => inv ov w2 /\ others pa w1 w2 /\ svr_alljobs w2 = svr_alljobs w1 /\
      exists c2, core_at w2 pa = Some c2 /\ retabled c1 c2)).
  { destruct (s =? JOB_STATE_EXPIRED).
    - destruct (retabled_table _ _ _ Hr1 Ht) as (t1 & Ht1 & Hct). cbn [when].
      eapply (end_entry_step ov w1 pa c1 t1); [done..|]. rewrite Hct. by apply Hix.
    - apply wp_ret. split; [done|]. split; [apply others_same, same_core_refl|]. split; [done|].
      exists c1. split; [done|apply retabled_refl]. }
  cbn beta. intros _ w2 (Hi2 & Ho2 & Ha2 & c2 & Hc2 & Hr2).
  eapply wp_mono; [apply (Hdn ov w2 pa c2)|].
  - done.
  - done.
  - by rewrite (retabled_sub _ _ Hr2), (retabled_sub _ _ Hr1).
  - by rewrite Ha2, Ha1.
  - by apply Hov.
  - cbn. intros _ w3 [Hi3 Ho3].
    assert (others pa w w3) as Ho by (eapply others_trans; [exact Ho1|by eapply others_trans]).
    split; [done|]. split; [|split; [|by eapply steady_others]].
    + by rewrite (ot_core _ _ _ Ho).
    + by apply (others_in _ _ _ _ Ho).
Qed.

(** A step on a job, as far as other jobs see it *)
Definition step p c w w' : Prop := steady w w' /\ (is_sub c = false -> others p w w').

Lemma step_refl p c w : step p c w w.
Proof. split; [apply steady_refl|]. intros _. apply others_same, same_core_refl. Qed.

Lemma step_trans p c c' w1 w2 w3 : is_sub c' = is_sub c -> step p c w1 w2 -> step p c' w2 w3 -> step p c w1 w3.
Proof.
  intros He [H1 O1] [H2 O2]. split; [by eapply steady_trans|]. intros Hs.
  eapply others_trans; [by apply O1|]. apply O2. by rewrite He.
Qed.

Lemma step_others p c w w' : others p w w' -> step p c w w'.
Proof. intros Ho. split; [by eapply steady_others|done]. Qed.

Lemma step_same p c w w' : same_core w w' -> step p c w w'.
Proof. intros Hs. by apply step_others, others_same. Qed.

(** The job as its family sees it *)
Definition kin c c' : Prop :=
  c_svrflags c' = c_svrflags c /\ c_parentaj c' = c_parentaj c /\ c_subjindx c' = c_subjindx c /\ c_jobid c' = c_jobid c.

Lemma kin_sub c c' : kin c c' -> is_sub c' = is_sub c.
Proof. intros (Hf & _). unfold is_sub. by rewrite Hf. Qed.

Lemma able_others dn ov w w' p c c' : core_at w p = Some c -> others p w w' -> kin c c' ->
  able dn ov w p c -> able dn ov w' p c'.
Proof.
  intros Hc Ho Hk Hab Hsub. assert (is_sub c = true) as Hs by (by rewrite <- (kin_sub _ _ Hk)).
  destruct (Hab Hs) as (Hdn & Hfam & Hov). destruct Hk as (_ & Hp & Hx & Hid).
  split; [done|]. split; [|done]. eapply family_core; [done..|]. by eapply family_others.
Qed.

Lemma able_ov dn ov ov' w p c : (forall q, q ≠ p -> ov' !! q = ov !! q) -> able dn ov w p c -> able dn ov' w p c.
Proof.
  intros Hov Hab Hsub. destruct (Hab Hsub) as (? & ? & Hn). split; [done|]. split; [done|].
  intros q Hq. rewrite Hov by done. by apply Hn.
Qed.

Lemma retabled_kin c c' : retabled c c' -> kin c c'.
Proof. intros (_ & _ & ? & ? & _ & ? & ? & _). done. Qed.

Lemma wp_keeps {A B : Type} (m : M (world I) A) (f : A -> M (world I) B) (Q : B -> world I -> Prop) w :
  keeps m w -> (forall a w', same_core w w' -> wp (f a) Q w') -> wp (bind m f) Q w.
Proof. intros Hm Hf. eapply wp_seq; [exact Hm|]. cbn. intros a w' Hw'. by apply Hf. Qed.

(** A job that is counted in its own state *)
Lemma inv_own ov w p c : inv ov w -> core_at w p = Some c -> ov !! p = None -> inv (<[p := c_state c]> ov) w.
Proof.
  intros Hi Hc Hov. eapply inv_ov; [exact Hi|]. intros q Hq. rewrite cstate_insert. case_decide; [subst q|done].
  unfold cstate. by rewrite Hov, Hc.
Qed.

(** The counts go to the new state; nothing to do when it is the old one. *)
Lemma maybe_move_counts ov w p c s (b : bool) :
  inv ov w -> core_at w p = Some c -> ov !! p = None -> 0 <= s < PBS_NUMJOBSTATE ->
  (b = true -> p ∈ svr_alljobs w) -> (b = false -> c_state c = s \/ p ∉ svr_alljobs w) ->
  wp (when b (move_counts p (c_state c) s))
    (fun _ w' => inv (<[p := s]> ov) w' /\ counted w w') w.
Proof.
  intros Hi Hc Hov Hs Ht Hf. destruct b; cbn [when].
  - pose proof Hc as (j & Hj & Hcj)%job_core. eapply move_counts_spec; [done|exact Hj|by apply Ht| | |done].
    + unfold cstate. by rewrite Hov, Hc.
    + by eapply inv_state.
  - apply wp_ret. split; [|by constructor]. destruct (Hf eq_refl) as [<-|Hn]; [by apply inv_own|].
    eapply inv_ov; [exact Hi|]. intros q Hq. rewrite cstate_insert, decide_False; [done|]. by intros ->.
Qed.

Lemma counted_in w w' p : counted w w' -> p ∈ svr_alljobs w' <-> p ∈ svr_alljobs w.
Proof. intros Hc. by rewrite (cn_alljobs _ _ Hc). Qed.

Lemma live_some w p c : core_at w p = Some c -> live w p.
Proof. by exists c. Qed.

Lemma flag_core j f : flag j f = has (c_svrflags (core j)) f.
Proof. done. Qed.

(** ** History *)

(** [svr_histjob_update] *)
Lemma histjob_update_step dn ov w p c s sub :
  inv ov w -> core_at w p = Some c -> ov !! p = None -> p ∈ svr_alljobs w -> 0 <= s < PBS_NUMJOBSTATE ->
  committed sub = true -> able dn ov w p c ->
  wp (svr_histjob_update dn p s sub)
    (fun _ w' => inv ov w' /\ step p c w w' /\ p ∈ svr_alljobs w' /\
       exists c', core_at w' p = Some c' /\ kin c c' /\ c_state c' = s /\ c_substate c' = sub) w.
Proof.
  intros Hi Hc Hov Hp Hs Hsub Hab. pose proof Hc as (j & Hj & Hcj)%job_core. unfold svr_histjob_update.
  apply wp_bind. eapply wp_get_job; [exact Hj|].
  assert (state j = c_state c) as -> by (by rewrite <- Hcj).
  eapply wp_seq; [eapply (maybe_move_counts ov w p c s); try done|].
  { intros Hb. left. by apply Z.eqb_eq, negb_false_iff. }
  cbn beta. intros _ w1 [Hi1 Hct1].
  assert (core_at w1 p = Some c) as Hc1 by (by rewrite (counted_core _ _ _ Hct1)).
  eapply wp_seq; [eapply (set_state_spec ov w1 p c s sub); try done|].
  cbn beta. intros _ w2 (Hi2 & Ho2 & Ha2 & c2 & Hc2 & Hst2 & Hf2 & Hpa2 & Hx2 & Hid2 & Ht2 & Hq2 & Hsub2).
  assert (kin c c2) as Hk2 by done.
  assert (others p w w2) as Ho02 by (eapply others_trans; [by apply others_counted|done]).
  assert (p ∈ svr_alljobs w2) as Hp2 by (by rewrite Ha2, (cn_alljobs _ _ Hct1)).
  apply wp_keeps; [eapply keeps_set_statechar; [exact Hi2|by eapply live_some]|].
  intros _ w3 Hs3. pose proof (inv_same_core _ _ _ Hs3 Hi2) as Hi3.
  assert (core_at w3 p = Some c2) as Hc3 by (by rewrite (sc_core _ _ Hs3)).
  assert (p ∈ svr_alljobs w3) as Hp3 by (by rewrite (sc_alljobs _ _ Hs3)).
  assert (others p w w3) as Ho03 by (eapply others_trans; [exact Ho02|by apply others_same]).
  cbv zeta. eapply (wp_seq _ _ (fun _ w4 => inv ov w4 /\ core_at w4 p = Some c2 /\
    (p ∈ svr_alljobs w4 <-> p ∈ svr_alljobs w3) /\ step p c w3 w4)).
  { rewrite (flag_core j), Hcj. fold (is_sub c). destruct (is_sub c) eqn:Es; cbn [when].
    - eapply wp_mono; [eapply (update_subjob_step dn ov w3 p c2); try done|].
      + by rewrite (kin_sub _ _ Hk2).
      + by apply (able_others dn ov w w3 p c c2).
      + by case_match.
      + cbn. intros _ w4 (? & ? & ? & ?). split; [done|]. split; [done|]. split; [done|]. split; [done|]. intros. congruence.
    - apply wp_ret. split; [done|]. split; [done|]. split; [done|apply step_refl]. }
  cbn beta. intros _ w4 (Hi4 & Hc4 & Hp4 & Hs4).
  eapply (wp_seq _ _ (fun _ w5 => inv ov w5 /\ others p w4 w5 /\ svr_alljobs w5 = svr_alljobs w4 /\
       exists c', core_at w5 p = Some c' /\ retabled c2 c')).
  { destruct (flag j JOB_SVFLG_ArrayJob); cbn [when].
    - apply (set_whole_table_step _ _ _ _ (fun _ => _)); [done..|]. intros _ _. by case_match.
    - apply wp_ret. split; [done|]. split; [apply others_same, same_core_refl|]. split; [done|].
      exists c2. split; [done|apply retabled_refl]. }
  cbn beta. intros _ w5 (Hi5 & Ho5 & Ha5 & c5 & Hc5 & Hr5).
  eapply wp_mono.
  { eapply (keeps_bind _ _ w5); [apply keeps_on_attr; [by eapply live_some|done]|]. intros. apply keeps_call. }
  cbn. intros _ w6 Hs6. split; [by eapply inv_same_core|]. split; [|split].
  - eapply (step_trans p c c); [done|by apply step_others|]. eapply (step_trans p c c); [done|exact Hs4|].
    apply step_others. eapply others_trans; [exact Ho5|by apply others_same].
  - rewrite (sc_alljobs _ _ Hs6), Ha5. tauto.
  - exists c5. rewrite (sc_core _ _ Hs6). split; [done|].
    pose proof (retabled_kin _ _ Hr5) as (? & ? & ? & ?). destruct Hr5 as (? & ? & _).
    split; [|split; congruence]. unfold kin. split_and!; congruence.
Qed.

Lemma finish_comment_core (n : Z) (user : option cstring) j : core (update_job_finish_comment n user j) = core j.
Proof. unfold update_job_finish_comment. repeat case_match; done. Qed.

Lemma finish_info_core j : core (fst (finish_info j)) = core j /\ committed (snd (finish_info j)) = true.
Proof.
  assert (forall l, committed (failed_substate l) = true) as Hf.
  { induction l as [|e l IH]; [done|]. cbn. destruct (_ =? JOB_SUBSTATE_FAILED) eqn:E1; cbn.
    - apply Z.eqb_eq in E1. by rewrite E1.
    - destruct (_ =? JOB_SUBSTATE_TERMINATED) eqn:E2; [|done]. apply Z.eqb_eq in E2. by rewrite E2. }
  unfold finish_info. case_match; cbn; [|repeat case_match; done]. split; [by repeat case_match|].
  destruct (ji_terminated _); [done|apply Hf].
Qed.

Lemma moved_info_core j : core (moved_info j) = core j.
Proof. done. Qed.

(** The attributes of a history job, then its state *)
Lemma histinfo_update_step dn ov w p c s sub :
  inv ov w -> core_at w p = Some c -> ov !! p = None -> p ∈ svr_alljobs w -> 0 <= s < PBS_NUMJOBSTATE ->
  committed sub = true -> able dn ov w p c ->
  wp (let* pjob := get_job p in
      let* _ := when (negb (state pjob =? JOB_STATE_MOVED) && negb (state pjob =? JOB_STATE_FINISHED) &&
                      negb (flag pjob JOB_SVFLG_SubJob))
        (let* _ := entity_calls p max_entities None DECR in
         let* _ := entity_calls p max_entities (ji_qhdr pjob) DECR in
         let* _ := entity_calls p queued_entities None DECR in
         entity_calls p queued_entities (ji_qhdr pjob) DECR) in
      let* w := the_world in
      let* _ := on_job p (fun j =>
        set_modified
          (upd_attr j JOB_ATR_history_timestamp
             (fun a => add_flags (set_long a (time_now (sv w))) (Z.lor ATR_VFLAG_SET ATR_VFLAG_MODCACHE))) true) in
      let* _ := svr_histjob_update dn p s sub in
      call_ (C_delete_tasks p))
    (fun _ w' => inv ov w' /\ step p c w w' /\ p ∈ svr_alljobs w' /\
       exists c', core_at w' p = Some c' /\ kin c c' /\ c_state c' = s /\ c_substate c' = sub) w.
Proof.
  intros Hi Hc Hov Hp Hs Hsub Hab. apply wp_keeps; [apply keeps_get_job; by eapply live_some|]. intros pj w1 Hs1.
  apply wp_keeps.
  { apply keeps_when. intros _. repeat (apply keeps_bind; [apply keeps_entity_calls|intros]). apply keeps_entity_calls. }
  intros _ w2 Hs2. apply wp_bind, wp_world.
  pose proof (same_core_trans _ _ _ Hs1 Hs2) as Hs02. apply wp_keeps.
  { apply keeps_on_job; [eapply live_core; [exact Hs02|by eapply live_some]|done]. }
  intros _ w3 Hs3. pose proof (same_core_trans _ _ _ Hs02 Hs3) as Hs03.
  eapply wp_seq; [apply (histjob_update_step dn ov w3 p c s sub); try done|].
  - by eapply inv_same_core.
  - by rewrite (sc_core _ _ Hs03).
  - by rewrite (sc_alljobs _ _ Hs03).
  - eapply able_others; [exact Hc|by apply others_same| |done]. done.
  - cbn beta. intros _ w4 (Hi4 & Hs4 & Hp4 & c4 & Hc4 & Hk). eapply wp_mono; [apply keeps_call|]. cbn. intros _ w5 Hs5.
    split; [by eapply inv_same_core|]. split; [|split].
    + eapply (step_trans p c c); [done|by apply step_same|]. eapply (step_trans p c c); [done|exact Hs4|by apply step_same].
    + by rewrite (sc_alljobs _ _ Hs5).
    + exists c4. by rewrite (sc_core _ _ Hs5).
Qed.

(** [svr_setjob_histinfo] of a finished job *)
Lemma finish_histinfo_step dn ov w p c :
  inv ov w -> core_at w p = Some c -> ov !! p = None -> p ∈ svr_alljobs w -> able dn ov w p c ->
  wp (svr_setjob_histinfo dn p T_FIN_JOB)
    (fun _ w' => inv ov w' /\ step p c w w' /\ p ∈ svr_alljobs w' /\
       exists c', core_at w' p = Some c' /\ kin c c' /\
         c_state c' = if is_sub c then JOB_STATE_EXPIRED else JOB_STATE_FINISHED) w.
Proof.
  intros Hi Hc Hov Hp Hab. pose proof Hc as (j & Hj & Hcj)%job_core. unfold svr_setjob_histinfo. cbv beta zeta.
  apply wp_bind. eapply wp_get_job; [exact Hj|]. destruct (finish_info_core j) as [Hfc Hcm].
  destruct (finish_info j) as [j1 sub] eqn:Ef. cbn in Hfc, Hcm. apply wp_keeps.
  { apply keeps_put. by rewrite finish_comment_core, Hfc, Hcj. }
  intros _ w1 Hs1. eapply wp_mono; [apply (histinfo_update_step dn ov w1 p c _ sub)|].
  - by eapply inv_same_core.
  - by rewrite (sc_core _ _ Hs1).
  - done.
  - by rewrite (sc_alljobs _ _ Hs1).
  - by destruct (flag j JOB_SVFLG_SubJob).
  - done.
  - eapply able_others; [exact Hc|by apply others_same|done|done].
  - cbn. intros _ w2 (Hi2 & Hs2 & Hp2 & c2 & Hc2 & Hk & Hst & _). split; [done|]. split; [|split; [done|]].
    + eapply (step_trans p c c); [done|by apply step_same|exact Hs2].
    + exists c2. split; [done|]. split; [done|]. rewrite Hst, (flag_core j), Hcj. done.
Qed.

(** [svr_setjob_histinfo] of a job that was moved, or whose daemon is down *)
Lemma histinfo_step dn ov w p c (type : histjob_type) :
  inv ov w -> core_at w p = Some c -> ov !! p = None -> p ∈ svr_alljobs w -> able dn ov w p c ->
  wp (svr_setjob_histinfo dn p type) (fun _ w' => inv ov w' /\ step p c w w') w.
Proof.
  intros Hi Hc Hov Hp Hab. pose proof Hc as (j & Hj & Hcj)%job_core. destruct type.
  - eapply wp_mono; [by apply (finish_histinfo_step dn ov w p c)|]. cbn. tauto.
  - unfold svr_setjob_histinfo. cbv beta zeta. apply wp_bind. eapply wp_get_job; [exact Hj|].
    destruct (ji_destin (ji_qs j)); [apply wp_ret; split; [done|apply step_refl]|].
    apply wp_keeps; [apply keeps_on_job; [by eapply live_some|apply moved_info_core]|]. intros _ w1 Hs1.
    apply wp_keeps; [apply keeps_call|]. intros _ w2 Hs2. pose proof (same_core_trans _ _ _ Hs1 Hs2) as Hs.
    eapply wp_mono; [apply (histinfo_update_step dn ov w2 p c _ JOB_SUBSTATE_MOVED); try done|].
    + by eapply inv_same_core.
    + by rewrite (sc_core _ _ Hs).
    + by rewrite (sc_alljobs _ _ Hs).
    + by apply (able_others dn ov w w2 p c c); [|apply others_same| |].
    + cbn. intros _ w3 (Hi3 & Hs3 & _). split; [done|]. eapply (step_trans p c c); [done|by apply step_same|done].
  - unfold svr_setjob_histinfo. cbv beta zeta. apply wp_bind. eapply wp_get_job; [exact Hj|].
    eapply wp_mono; [by apply (histinfo_update_step dn ov w p c _ JOB_SUBSTATE_FAILED)|]. cbn. tauto.
Qed.

(** ** Purging *)

(** The job is freed once it is in no list. *)
Lemma inv_delete ov w p : inv ov w -> p ∉ svr_alljobs w ->
  inv ov (set_jobs w (delete p (jobs w))) /\ others p w (set_jobs w (delete p (jobs w))) /\
  core_at (set_jobs w (delete p (jobs w))) p = None.
Proof.
  intros Hi Hp. set (w' := set_jobs w _).
  assert (core_at w' p = None) as Hcp by (unfold core_at, w'; cbn; by rewrite lookup_delete_eq).
  assert (forall x, x ≠ p -> core_at w' x = core_at w x) as Hne.
  { intros x Hx. unfold core_at, w'. cbn. by rewrite lookup_delete_ne. }
  split; [|split; [by constructor|done]]. apply (inv_change ov ov w w' Hi); try done.
  - apply Hi.
  - intros x c Hx. destruct (decide (x = p)) as [->|Hn]; [congruence|].
    rewrite Hne in Hx by done. split; [by eapply inv_state|]. intros t. by eapply inv_table.
  - intros x q Hh. apply (inv_qhdr _ _ Hi x). unfold hdr in *. destruct (decide (x = p)) as [->|Hn].
    + by rewrite Hcp in Hh.
    + by rewrite Hne in Hh.
  - intros x Hx. assert (x ≠ p) as Hn by (intros ->; done). unfold cstate, hdr, rank. rewrite Hne by done.
    split; [by eapply inv_live|done].
Qed.

(** [job_purge] of a job whose parent, if it has one, is alive *)
Lemma job_purge_step dn ov w p c :
  inv ov w -> core_at w p = Some c -> ov !! p = None -> able dn ov w p c ->
  wp (job_purge dn p)
    (fun _ w' => inv ov w' /\ step p c w w' /\ core_at w' p = None /\ p ∉ svr_alljobs w') w.
Proof.
  intros Hi Hc Hov Hab. pose proof Hc as (j & Hj & Hcj)%job_core. unfold job_purge.
  apply wp_bind. eapply wp_get_job; [exact Hj|]. apply wp_keeps.
  { apply keeps_when. intros _. apply keeps_bind; [apply keeps_call|]. intros _ w1 Hs1.
    apply keeps_on_job; [eapply live_core; [exact Hs1|by eapply live_some]|done]. }
  intros _ w1 Hs1. pose proof (inv_same_core _ _ _ Hs1 Hi) as Hi1.
  assert (core_at w1 p = Some c) as Hc1 by (by rewrite (sc_core _ _ Hs1)).
  assert (able dn ov w1 p c) as Hab1 by (by apply (able_others dn ov w w1 p c c); [|by apply others_same| |]).
  eapply (wp_seq _ _ (fun _ w2 => inv ov w2 /\ step p c w1 w2 /\ live w2 p /\ p ∉ svr_alljobs w2)).
  { fold (committed (substate j)). destruct (committed (substate j)) eqn:Ecm; cbn [when].
    - eapply (wp_seq _ _ (fun _ w2 => inv ov w2 /\ step p c w1 w2 /\ core_at w2 p = Some c)).
      + rewrite (flag_core j), Hcj. fold (is_sub c). destruct (is_sub c) eqn:Es.
        * eapply wp_mono; [apply (update_subjob_step dn ov w1 p c); try done; by case_match|].
          cbn. intros _ w2 (? & ? & _ & ?). split; [done|]. split; [|done]. split; [done|congruence].
        * eapply wp_mono; [apply keeps_entity_calls|]. cbn. intros _ w2 Hs2. split; [by eapply inv_same_core|].
          split; [by apply step_same|by rewrite (sc_core _ _ Hs2)].
      + cbn beta. intros _ w2 (Hi2 & Hs2 & Hc2). eapply wp_mono; [by apply (svr_dequejob_spec ov w2 p c)|].
        cbn. intros _ w3 (Hi3 & Ho3 & Hc3 & Hn3). split; [done|]. split; [|split; [by eexists|done]].
        eapply (step_trans p c c); [done|exact Hs2|by apply step_others].
    - apply wp_ret. split; [done|]. split; [apply step_refl|]. split; [by eexists|].
      intros Hp. destruct (inv_live _ _ Hi1 p Hp) as (c' & Hc' & Hcm). rewrite Hc1 in Hc'. injection Hc' as <-.
      rewrite <- Hcj in Hcm. cbn in Hcm. congruence. }
  cbn beta. intros _ w2 (Hi2 & Hs2 & Hl2 & Hn2). apply wp_keeps; [by apply keeps_purge_rest|]. intros _ w3 Hs3.
  pose proof (live_core _ _ _ Hs3 Hl2) as [j3 Hj3]%live_job. unfold job_free. apply wp_bind.
  eapply wp_get_job; [exact Hj3|]. eexists tt, _. split; [done|]. cbv beta.
  destruct (inv_delete ov w3 p) as (Hi4 & Ho4 & Hc4).
  { by eapply inv_same_core. }
  { by rewrite (sc_alljobs _ _ Hs3). }
  split; [done|]. split; [|split; [done|cbn; by rewrite (sc_alljobs _ _ Hs3)]].
  eapply (step_trans p c c); [done|by apply step_same|]. eapply (step_trans p c c); [done|exact Hs2|].
  apply step_others. eapply others_trans; [by apply others_same|exact Ho4].
Qed.

Lemma purged_committed j : committed (substate j) = true -> committed (purged_substate j) = true.
Proof. intros Hc. unfold purged_substate. repeat case_match; done. Qed.

(** A job that ended is kept as history or it is gone. *)
Definition ended w p c w' : Prop :=
  core_at w' p = None \/
  svr_history_enable (sv w) ≠ 0 /\ svr_history_duration (sv w) ≠ 0 /\
  exists c', core_at w' p = Some c' /\ kin c c' /\
    c_state c' = if is_sub c then JOB_STATE_EXPIRED else JOB_STATE_FINISHED.

(** [svr_saveorpurge_finjobhist] *)
Lemma saveorpurge_step dn ov w p c :
  inv ov w -> core_at w p = Some c -> ov !! p = None -> p ∈ svr_alljobs w -> able dn ov w p c ->
  wp (svr_saveorpurge_finjobhist dn p) (fun _ w' => inv ov w' /\ step p c w w' /\ ended w p c w') w.
Proof.
  intros Hi Hc Hov Hp Hab. pose proof Hc as (j & Hj & Hcj)%job_core. unfold svr_saveorpurge_finjobhist, svr_chk_history_conf.
  apply wp_bind, wp_bind, wp_world, wp_ret, wp_bind. eapply wp_get_job; [exact Hj|].
  destruct (_ && negb (ji_deletehistory j)) eqn:Eh.
  { apply andb_true_iff in Eh as [[He%negb_true_iff%Z.eqb_neq Hd%negb_true_iff%Z.eqb_neq]%andb_true_iff _].
    eapply wp_mono; [by apply (finish_histinfo_step dn ov w p c)|].
    cbn. intros _ w1 (Hi1 & Hs1 & _ & Hc1). split; [done|]. split; [done|]. by right. }
  assert (committed (substate j) = true) as Hcm.
  { destruct (inv_live _ _ Hi p Hp) as (c' & Hc' & Hcm). rewrite Hc in Hc'. injection Hc' as <-. by rewrite <- Hcj in Hcm. }
  eapply (wp_seq _ _ (fun _ w1 => inv ov w1 /\ others p w w1 /\ exists c1, core_at w1 p = Some c1 /\ kin c c1)).
  { destruct (flag j JOB_SVFLG_SubJob); cbn [when].
    - eapply wp_put_job; [exact Hj|]. split; [|split; [apply others_put|]].
      + eapply inv_put; [exact Hi|exact Hj|done|done|done| | | |done].
        * apply (state_of ov w p j Hi Hj).
        * intros t Ht. apply (table_of ov w p j t Hi Hj Ht).
        * intros _. split; [by apply purged_committed|]. unfold cstate. rewrite Hov, core_at_insert, decide_True, Hc by done.
          by rewrite <- Hcj.
      + eexists. rewrite core_at_insert, decide_True by done. split; [done|]. by rewrite <- Hcj.
    - apply wp_ret. split; [done|]. split; [apply others_same, same_core_refl|]. by exists c. }
  cbn beta. intros _ w1 (Hi1 & Ho1 & c1 & Hc1 & Hk). eapply wp_mono; [apply (job_purge_step dn ov w1 p c1); try done|].
  - by apply (able_others dn ov w w1 p c c1).
  - cbn. intros _ w2 (Hi2 & Hs2 & Hd2 & _). split; [done|]. split; [|by left].
    eapply (step_trans p c c1); [by apply kin_sub|by apply step_others|done].
Qed.

(** ** The end of an array job *)

(** A subjob that keeps its array job alive *)
Definition is_active (e : ajtrk) : bool :=
  (trk_status e =? JOB_STATE_QUEUED) || (trk_status e =? JOB_STATE_RUNNING) || (trk_status e =? JOB_STATE_EXITING).
Definition alive (t : ajtrkhd) : bool := existsb is_active (tkm_tbl t).

Lemma active_tally (l : list ajtrk) :
  let n := tally status_of l JOB_STATE_QUEUED + tally status_of l JOB_STATE_RUNNING + tally status_of l JOB_STATE_EXITING in
  n <= Z.of_nat (length l) /\ (n =? 0) = negb (existsb is_active l).
Proof.
  induction l as [|e l [IHn IHb]]; [done|]. cbn zeta. rewrite !tally_cons. cbn [existsb length]. unfold is_active at 1, status_of.
  pose proof (tally_range status_of l JOB_STATE_QUEUED). pose proof (tally_range status_of l JOB_STATE_RUNNING).
  pose proof (tally_range status_of l JOB_STATE_EXITING). fold status_of.
  destruct (Z.eqb_spec (trk_status e) JOB_STATE_QUEUED) as [->|Ha];
    [|destruct (Z.eqb_spec (trk_status e) JOB_STATE_RUNNING) as [->|Hb];
      [|destruct (Z.eqb_spec (trk_status e) JOB_STATE_EXITING) as [->|Hc]]].
  4: { rewrite !bool_decide_false by congruence. cbn [orb]. split; [lia|]. rewrite <- IHb. f_equal. }
  all: cbn [orb negb]; repeat (first [rewrite bool_decide_true by done|rewrite bool_decide_false by done]).
  all: split; [lia|apply Z.eqb_neq; lia].
Qed.

Lemma active_ct_spec (t : ajtrkhd) : table_ok t -> exists n, active_ct t = Some n /\ (n =? 0) = negb (alive t).
Proof.
  intros Ht. pose proof (active_tally (tkm_tbl t)) as [Hn Hb]. pose proof (tk_counts _ Ht) as [_ Hmax _ Hs].
  unfold active_ct. rewrite !Hs by done. cbn [mbind option_bind]. eexists. split; [done|].
  pose proof (tally_range status_of (tkm_tbl t) JOB_STATE_QUEUED). pose proof (tally_range status_of (tkm_tbl t) JOB_STATE_RUNNING).
  pose proof (tally_range status_of (tkm_tbl t) JOB_STATE_EXITING).
  cbn zeta in Hn, Hb. unfold INT_MAX in Hmax. rewrite (int32_id (tally _ _ JOB_STATE_QUEUED + _)) by (unfold in_int, INT_MIN, INT_MAX; lia).
  rewrite int32_id by (unfold in_int, INT_MIN, INT_MAX; lia). exact Hb.
Qed.

(** [chk_array_doneness] of a job that is no subjob: one level is enough. *)
Lemma array_end_step (depth : nat) ov w pa cp (t : ajtrkhd) :
  inv ov w -> core_at w pa = Some cp -> is_sub cp = false -> pa ∈ svr_alljobs w -> ov !! pa = None ->
  c_ajtrk cp = Some t -> has (tkm_flags t) TKMFLG_NO_DELETE = false ->
  wp (chk_array_doneness (S depth) pa)
    (fun _ w' => inv ov w' /\ others pa w w' /\
       if alive t then core_at w' pa = Some cp else ended w pa cp w') w.
Proof.
  intros Hi Hcp Hns Hin Hov Ht Hnd. pose proof Hcp as (j & Hj & Hcj)%job_core. cbn [chk_array_doneness].
  apply wp_bind. eapply wp_get_job; [exact Hj|]. assert (ji_ajtrk j = Some t) as Et by (by rewrite <- Hcj in Ht).
  rewrite Et, Hnd. pose proof (table_of _ _ _ _ _ Hi Hj Et) as [Hok _].
  destruct (active_ct_spec t Hok) as (n & Hn & Hz). apply wp_bind. eapply wp_need; [exact Hn|]. rewrite Hz.
  destruct (alive t); cbn [negb].
  { eapply wp_mono; [by eapply keeps_save_array|]. cbn. intros _ w1 Hs1. split; [by eapply inv_same_core|].
    split; [by apply others_same|by rewrite (sc_core _ _ Hs1)]. }
  assert (live w pa) as Hl by (by eapply live_some).
  apply wp_keeps; [apply keeps_put; by rewrite Hcp, <- Hcj|]. intros _ w1 Hs1.
  apply wp_keeps; [apply keeps_check_block; by eapply live_core|]. intros _ w2 Hs2.
  pose proof (same_core_trans _ _ _ Hs1 Hs2) as Hs02.
  apply wp_keeps; [apply keeps_array_ended; by eapply live_core|]. intros _ w3 Hs3.
  pose proof (same_core_trans _ _ _ Hs02 Hs3) as Hs03.
  eapply wp_mono; [apply (saveorpurge_step _ ov w3 pa cp)|].
  - by eapply inv_same_core.
  - by rewrite (sc_core _ _ Hs03).
  - done.
  - by rewrite (sc_alljobs _ _ Hs03).
  - intros Hsub. congruence.
  - cbn. intros _ w4 (Hi4 & [_ Ho4] & He). split; [done|]. split; [eapply others_trans; [by apply others_same|]; by apply Ho4|].
    unfold ended in *. by rewrite (sc_sv _ _ Hs03) in He.
Qed.

Lemma chk_array_doneness_step (depth : nat) : done_ok (chk_array_doneness (S depth)).
Proof.
  intros ov w pa cp Hi Hcp Hns Hin Hov.
  destruct (c_ajtrk cp) as [t|] eqn:Et; [destruct (has (tkm_flags t) TKMFLG_NO_DELETE) eqn:En|].
  2: { eapply wp_mono; [by eapply array_end_step|]. cbn. tauto. }
  all: pose proof Hcp as (j & Hj & Hcj)%job_core; cbn [chk_array_doneness]; apply wp_bind;
    eapply wp_get_job; [exact Hj|]; rewrite <- Hcj in Et; cbn in Et; rewrite Et, ?En; apply wp_ret;
    (split; [done|apply others_same, same_core_refl]).
Qed.

Lemma doneness_ok : done_ok doneness.
Proof. apply (chk_array_doneness_step 1). Qed.
End Steps.
End JobSteps.
