(* ===== verification/JobQueue.v ===== *)
(** * Changing the state of a job and queueing it

    Module [JobQueue]: the invariant [JobInv.inv] holds again after
    [svr_setjobstate], [svr_enquejob] and [job_abt], which return from every
    world that satisfies it.  The lists of jobs are sorted by rank:
    [insert_by_rank] keeps them so. *)

From Stdlib Require Import ZArith Lia Ascii String Sorted.
From stdpp Require Import gmap sorting.
From S2P Require Import Prelude Index JobData SubjobTable SubjobProps JobState JobInv JobSteps.
Import Job Counters Subjobs SubjobProps State JobInv JobSteps.

Module JobQueue.

Section Queue.
Context {I : Type} `{IndexLaws I ptr} (answer : list call -> Z).
Implicit Types (w : world I) (p q pa : ptr) (j : job) (s : Z) (ov : gmap ptr Z) (c : core_t).

(** ** The state of a job *)

(** The counts, the times and the parent: the job is counted in the state it
    does not have yet. *)
Lemma change_state_step dn ov w p c s :
  inv ov w -> core_at w p = Some c -> ov !! p = None -> 0 <= s < PBS_NUMJOBSTATE ->
  p ∈ svr_alljobs w -> (is_sub c = true -> s ≠ JOB_STATE_FINISHED) -> able dn ov w p c ->
  wp (change_state dn p (c_state c) s)
    (fun s' w' => s' = s /\ inv (<[p := s]> ov) w' /\ core_at w' p = Some c /\
       (p ∈ svr_alljobs w' <-> p ∈ svr_alljobs w) /\ step p c w w') w.
Proof.
  intros Hi Hc Hov Hs Hp Hfin Hab. unfold change_state. pose proof Hc as (j & Hj & Hcj)%job_core.
  eapply wp_seq; [apply (maybe_move_counts ov w p c s true); done|]. cbn beta. intros _ w1 [Hi1 Hct].
  assert (core_at w1 p = Some c) as Hc1 by (by rewrite (counted_core _ _ _ Hct)).
  assert (jobs w1 !! p = Some j) as Hj1 by (by rewrite (cn_jobs _ _ Hct)).
  apply wp_bind. eapply wp_get_job; [exact Hj1|]. apply wp_keeps.
  { destruct (ji_qhdr j) as [q|] eqn:Eq; [|apply keeps_ret]. apply keeps_state_times; [by eapply live_some|].
    eapply (inv_qhdr _ _ Hi1 p). unfold hdr. rewrite Hc1, <- Hcj. done. }
  intros _ w2 Hs2. pose proof (inv_same_core _ _ _ Hs2 Hi1) as Hi2.
  assert (core_at w2 p = Some c) as Hc2 by (by rewrite (sc_core _ _ Hs2)).
  assert (others p w w2) as Ho by (eapply others_trans; [by apply others_counted|by apply others_same]).
  assert (p ∈ svr_alljobs w2 <-> p ∈ svr_alljobs w) as Hp2.
  { by rewrite (sc_alljobs _ _ Hs2), (cn_alljobs _ _ Hct). }
  rewrite (flag_core j), Hcj. fold (is_sub c). destruct (is_sub c) eqn:Es; cbv zeta.
  - rewrite (proj2 (Z.eqb_neq _ _) (Hfin eq_refl)).
    eapply wp_seq; [apply (update_subjob_step dn (<[p := s]> ov) w2 p c); try done|].
    + eapply (able_ov dn ov); [intros x Hx; by rewrite lookup_insert_ne|]. by apply (able_others dn ov w w2 p c c).
    + cbn beta. intros _ w3 (Hi3 & Hc3 & Hp3 & Hs3). apply wp_ret. split; [done|]. split; [done|]. split; [done|].
      split; [by rewrite Hp3|]. split; [|congruence]. eapply steady_trans; [by eapply steady_others|done].
  - apply wp_ret. split; [done|]. split; [done|]. split; [done|]. split; [done|]. by apply step_others.
Qed.

(** The state and the substate, as the structure and the attributes have them *)
Lemma set_state_of_step ov w p c s sub :
  inv (<[p := s]> ov) w -> core_at w p = Some c -> ov !! p = None -> 0 <= s < PBS_NUMJOBSTATE ->
  (p ∈ svr_alljobs w -> committed sub = true) ->
  wp (set_state_of p s sub)
    (fun _ w' => inv ov w' /\ others p w w' /\ svr_alljobs w' = svr_alljobs w /\
       exists c', core_at w' p = Some c' /\ kin c c' /\ c_state c' = s /\ c_substate c' = sub) w.
Proof.
  intros Hi Hc Hov Hs Hsub. unfold set_state_of. eapply wp_seq; [by apply (set_state_spec ov w p c s sub)|].
  cbn beta. intros _ w2 (Hi2 & Ho2 & Ha2 & c2 & Hc2 & Hst2 & Hf2 & Hpa2 & Hx2 & Hid2 & _ & _ & Hsub2).
  eapply wp_mono; [apply keeps_on_attr; [by eapply live_some|done]|]. cbn. intros _ w3 Hs3.
  split; [by eapply inv_same_core|]. split; [eapply others_trans; [exact Ho2|by apply others_same]|].
  split; [by rewrite (sc_alljobs _ _ Hs3)|]. exists c2. by rewrite (sc_core _ _ Hs3).
Qed.

(** What [svr_setjobstate] needs: the job is in the list of all jobs, or it is
    still coming in. *)
Definition may_change w p c s sub : Prop :=
  0 <= s < PBS_NUMJOBSTATE /\
  (p ∈ svr_alljobs w /\ committed sub = true \/ c_substate c = JOB_SUBSTATE_TRANSICM /\ p ∉ svr_alljobs w) /\
  (is_sub c = true -> s ≠ JOB_STATE_FINISHED).

Lemma setjobstate_step dn ov w p c s sub :
  inv ov w -> core_at w p = Some c -> ov !! p = None -> may_change w p c s sub -> able dn ov w p c ->
  wp (svr_setjobstate answer dn p s sub)
    (fun _ w' => inv ov w' /\ step p c w w' /\ (p ∈ svr_alljobs w' <-> p ∈ svr_alljobs w) /\
       exists c', core_at w' p = Some c' /\ kin c c' /\
         (c_state c ≠ JOB_STATE_FINISHED -> c_state c' = s /\ c_substate c' = sub)) w.
Proof.
  intros Hi Hc Hov (Hs & Hlink & Hfin) Hab. pose proof Hc as (j & Hj & Hcj)%job_core. unfold svr_setjobstate.
  apply wp_bind. eapply wp_get_job; [exact Hj|].
  assert (state j = c_state c) as -> by (by rewrite <- Hcj).
  assert (substate j = c_substate c) as -> by (by rewrite <- Hcj).
  destruct (Z.eqb_spec (c_state c) JOB_STATE_FINISHED) as [He|Hne].
  { apply wp_ret. split; [done|]. split; [apply step_refl|]. split; [done|]. exists c. done. }
  cbv zeta. set (b := negb (c_substate c =? JOB_SUBSTATE_TRANSICM) && negb (c_state c =? s)).
  assert (b = true -> p ∈ svr_alljobs w) as Hb.
  { intros [Hb _]%andb_true_iff. apply negb_true_iff, Z.eqb_neq in Hb. tauto. }
  assert (b = false -> c_state c = s \/ p ∉ svr_alljobs w) as Hnb.
  { intros [Hb'|Hb']%andb_false_iff; apply negb_false_iff, Z.eqb_eq in Hb'; [right|by left]. intros Hp.
    destruct (inv_live _ _ Hi p Hp) as (c' & Hc' & Hcm). rewrite Hc in Hc'. injection Hc' as <-. by rewrite Hb' in Hcm. }
  eapply (wp_seq _ _ (fun s' w' => s' = s /\ inv (<[p := s]> ov) w' /\ core_at w' p = Some c /\
       (p ∈ svr_alljobs w' <-> p ∈ svr_alljobs w) /\ step p c w w')).
  { destruct b.
    - by apply change_state_step; auto.
    - apply wp_ret. split; [done|]. split; [|split; [done|split; [done|apply step_refl]]].
      destruct (Hnb eq_refl) as [<-|Hn]; [by apply inv_own|].
      eapply inv_ov; [exact Hi|]. intros q Hq. rewrite cstate_insert, decide_False; [done|]. by intros ->. }
  cbn beta. intros s' w1 (-> & Hi1 & Hc1 & Hp1 & Hs1).
  eapply wp_seq; [apply (set_state_of_step ov w1 p c s sub); [done..|tauto]|].
  cbn beta. intros _ w2 (Hi2 & Ho2 & Ha2 & c2 & Hc2 & Hk & Hst2).
  assert (forall w3, same_core w2 w3 -> live w3 p) as Hlive.
  { intros w3 Hs3. eapply live_core; [exact Hs3|by eapply live_some]. }
  (* the rest keeps the cores *)
  eapply (wp_mono _ (fun _ w' => same_core w2 w')).
  { apply keeps_bind; [eapply keeps_set_statechar; [exact Hi2|by eapply live_some]|]. intros _ w4 Hs34.
    apply keeps_bind; [apply keeps_call|]. intros _ w5 Hs5. apply keeps_with_world.
    apply keeps_bind; [apply keeps_when; intros _; apply keeps_call|]. intros _ w6 Hs6.
    pose proof (same_core_trans _ _ _ Hs34 (same_core_trans _ _ _ Hs5 Hs6)) as Hs36.
    apply keeps_bind.
    - apply keeps_when. intros _. apply keeps_with_job; [by apply Hlive|]. intros j6 _.
      repeat (apply keeps_bind; [apply keeps_entity_calls|intros]). apply keeps_entity_calls.
    - intros _ w7 Hs7. apply keeps_save_changed, Hlive. by eapply same_core_trans. }
  cbn beta. intros _ w3 Hs3. split; [by eapply inv_same_core|]. split; [|split].
  - eapply (step_trans p c c); [done|exact Hs1|]. apply step_others. eapply others_trans; [exact Ho2|by apply others_same].
  - by rewrite (sc_alljobs _ _ Hs3), Ha2.
  - exists c2. rewrite (sc_core _ _ Hs3). done.
Qed.

(** ** Lists sorted by rank *)

Lemma rev_reverse {A : Type} (l : list A) : rev l = reverse l.
Proof. apply rev_alt. Qed.

(** The place of a job: after the last one of a rank that is not larger *)
Lemma insert_back_spec (js : gmap ptr job) (r : Z) p (back : list ptr) :
  (forall x, x ∈ back -> is_Some (js !! x)) ->
  exists b1 b2, back = b1 ++ b2 /\ insert_back js r p back = Some (b1 ++ p :: b2) /\
    (forall x j, x ∈ b1 -> js !! x = Some j -> r < qrank j) /\
    (forall x j, head b2 = Some x -> js !! x = Some j -> qrank j <= r).
Proof.
  induction back as [|c back IH]; intros Hin; cbn.
  - exists [], []. split; [done|]. split; [done|]. split; [|done]. by intros x j ?%elem_of_nil.
  - destruct (Hin c) as [jc Hc]; [by left|]. rewrite Hc. cbn [mbind option_bind].
    destruct (Z.leb_spec (qrank jc) r) as [Hle|Hgt].
    + exists [], (c :: back). split; [done|]. split; [done|]. split; [by intros x j ?%elem_of_nil|].
      cbn. intros x j [= <-] Hx. congruence.
    + destruct IH as (b1 & b2 & -> & -> & H1 & H2); [intros x Hx; apply Hin; by right|].
      exists (c :: b1), b2. split; [done|]. split; [done|]. split; [|done].
      intros x j [->|Hx]%elem_of_cons Hj; [congruence|]. by eapply H1.
Qed.

Lemma insert_by_rank_spec (js : gmap ptr job) (r : Z) p (l : list ptr) :
  (forall x, x ∈ l -> is_Some (js !! x)) -> p ∉ l ->
  exists l1 l2, l = l1 ++ l2 /\ insert_by_rank js r p l = Some (l1 ++ p :: l2) /\
    (forall x j, x ∈ l2 -> js !! x = Some j -> r < qrank j) /\
    (forall x j, last l1 = Some x -> js !! x = Some j -> qrank j <= r).
Proof.
  intros Hin Hp. unfold insert_by_rank, is_linked. rewrite bool_decide_false by done.
  destruct (insert_back_spec js r p (rev l)) as (b1 & b2 & Hb & -> & H1 & H2).
  { intros x. rewrite rev_reverse, elem_of_reverse. apply Hin. }
  exists (rev b2), (rev b1). split; [|split; [|split]].
  - rewrite <- (rev_involutive l), Hb. apply rev_app_distr.
  - cbn [fmap option_fmap option_map]. rewrite rev_app_distr. cbn. by rewrite <- app_assoc.
  - intros x j. rewrite rev_reverse, elem_of_reverse. apply H1.
  - intros x j. rewrite rev_reverse, last_reverse. apply H2.
Qed.

(** Sorted lists stay sorted, by the ranks after the job got its own. *)
Lemma insert_sorted (f : ptr -> Z) (l1 l2 : list ptr) p :
  StronglySorted (fun x y => f x <= f y) (l1 ++ l2) ->
  (forall x, x ∈ l2 -> f p <= f x) -> (forall x, last l1 = Some x -> f x <= f p) ->
  StronglySorted (fun x y => f x <= f y) (l1 ++ p :: l2).
Proof.
  rewrite !StronglySorted_app. intros (H12 & H1 & H2) Hl2 Hl1.
  assert (forall x, x ∈ l1 -> f x <= f p) as Hle.
  { intros x Hx. destruct (last l1) as [y|] eqn:E; [|by apply last_None in E as ->; apply elem_of_nil in Hx].
    specialize (Hl1 y eq_refl). apply last_Some in E as [l E]. rewrite E in Hx, H1.
    apply elem_of_app in Hx as [Hx| ->%list_elem_of_singleton]; [|done].
    apply StronglySorted_app in H1 as (Hy & _ & _). specialize (Hy x y Hx). cbn in Hy.
    assert (f x <= f y) by (apply Hy; by left). lia. }
  split; [|split; [done|]].
  - intros x y Hx [->|Hy]%elem_of_cons; [by apply Hle|by apply H12].
  - apply StronglySorted_cons. split; [|done]. apply Forall_forall. intros y Hy. by apply Hl2.
Qed.

(** ** Linking *)

(** The other direction of [unlink_done]: the job has been linked. *)
Lemma link_done ov w p c w2 (ct : list Z) :
  inv ov w -> p ∉ svr_alljobs w -> ov !! p = None ->
  0 <= c_state c < PBS_NUMJOBSTATE -> (forall t, c_ajtrk c = Some t -> array_ok t) -> committed (c_substate c) = true ->
  Z.of_nat (length (svr_alljobs w)) < INT_MAX ->
  core_at w2 p = Some c -> (forall x, x ≠ p -> core_at w2 x = core_at w x) ->
  (exists l1 l2, svr_alljobs w = l1 ++ l2 /\ svr_alljobs w2 = l1 ++ p :: l2) ->
  bump (sv_jobstates w) (c_state c) 1 = Some ct -> sv_jobstates w2 = ct -> sv_numjobs w2 = int32 (sv_numjobs w + 1) ->
  (forall ctx, AVL_jctx w2 = Some ctx ->
     exists ctx0, AVL_jctx w = Some ctx0 /\ ix_add (c_jobid c) p ctx0 = (ctx, true)) ->
  svr_queues w2 = svr_queues w -> cvt_buflen w2 = cvt_buflen w -> sv w2 = sv w ->
  (forall q, Some q ≠ c_qhdr c -> queues w2 !! q = queues w !! q) ->
  (forall q, c_qhdr c = Some q -> exists pq qct l, queues w !! q = Some pq /\
     queues w2 !! q = Some (set_counts pq (int32 (qu_numjobs pq + 1)) qct l) /\
     l ≡ₚ p :: qu_jobs pq /\ StronglySorted (fun x y => rank w2 x <= rank w2 y) l /\
     bump (qu_njstate pq) (c_state c) 1 = Some qct) ->
  inv ov w2 /\ others p w w2.
Proof.
  intros Hi Hp Hov Hs Ht Hcm Hlen Hcp Hne (l1 & l2 & Hl1 & Hl2) Hb Est En Hctx Esq Ebuf Esv Hoq Hq.
  assert (svr_alljobs w2 ≡ₚ p :: svr_alljobs w) as Hall by (by rewrite Hl1, Hl2, Permutation_middle).
  assert (forall x, x ∈ svr_alljobs w2 <-> x = p \/ x ∈ svr_alljobs w) as Hin by (intros x; by rewrite Hall, elem_of_cons).
  assert (forall x, x ∈ svr_alljobs w -> x ≠ p) as Hxp by (intros x Hx ->; done).
  assert (forall q, is_Some (queues w2 !! q) <-> is_Some (queues w !! q)) as Hqs.
  { intros q. destruct (decide (Some q = c_qhdr c)) as [He|Hn]; [|by rewrite Hoq].
    destruct (Hq q (eq_sym He)) as (pq & qct & l & -> & -> & _). split; by eexists. }
  assert (forall x, x ≠ p -> cstate ov w2 x = cstate ov w x) as Hcs by (intros x Hn; unfold cstate; by rewrite Hne).
  assert (cstate ov w2 p = Some (c_state c)) as Hcsp by (unfold cstate; by rewrite Hov, Hcp).
  split.
  - constructor.
    + rewrite Ebuf. apply Hi.
    + intros x cx Hx. destruct (decide (x = p)) as [->|Hn]; [rewrite Hcp in Hx; by injection Hx as <-|].
      rewrite Hne in Hx by done. by eapply inv_state.
    + intros x cx t Hx. destruct (decide (x = p)) as [->|Hn]; [rewrite Hcp in Hx; injection Hx as <-; apply Ht|].
      rewrite Hne in Hx by done. by eapply inv_table.
    + rewrite Hall. apply NoDup_cons. split; [done|apply Hi].
    + intros x [->|Hx]%Hin; [by eexists|]. rewrite Hne by (by apply Hxp). by eapply inv_live.
    + rewrite En, Est. destruct (counts_add (sv_numjobs w) (sv_jobstates w) (cstate ov w2) (svr_alljobs w) (svr_alljobs w2)
        p (c_state c)) as (ct' & Hb' & Hct); try done.
      * eapply counts_ext; [|apply Hi]. intros x Hx. symmetry. apply Hcs. by apply Hxp.
      * rewrite Hall. cbn [length]. lia.
      * rewrite Hb in Hb'. by injection Hb' as <-.
    + intros q pq Hpq. destruct (decide (Some q = c_qhdr c)) as [He|Hn].
      * destruct (Hq q (eq_sym He)) as (pq0 & qct & l & Hpq0 & Hpq2 & Hl & Hsort & Hqb).
        rewrite Hpq in Hpq2. injection Hpq2 as ->.
        destruct (inv_queue _ _ Hi q pq0 Hpq0) as [Q1 Q2 Q3 Q4].
        assert (p ∉ qu_jobs pq0) as Hpq0n by (by intros [? _]%Q3).
        assert (forall x, x ∈ qu_jobs pq0 -> x ≠ p) as Hxq by (intros x Hx ->; done).
        assert (length (qu_jobs pq0) <= length (svr_alljobs w))%nat as Hle.
        { apply submseteq_length, NoDup_submseteq; [done|]. by intros x [? _]%Q3. }
        destruct (counts_add (qu_numjobs pq0) (qu_njstate pq0) (cstate ov w2) (qu_jobs pq0) l p (c_state c))
          as (qct' & Hqb' & Hqct); try done.
        { eapply counts_ext; [|exact Q2]. intros x Hx. symmetry. apply Hcs. by apply Hxq. }
        { rewrite Hl. cbn [length]. lia. }
        rewrite Hqb in Hqb'. injection Hqb' as <-. constructor; cbn [qu_jobs qu_numjobs qu_njstate set_counts]; [|done| |done].
        -- rewrite Hl. by apply NoDup_cons.
        -- intros x. rewrite Hl, elem_of_cons, Q3, Hin. unfold hdr. destruct (decide (x = p)) as [->|Hn].
           ++ rewrite Hcp. cbn. split; [intros _; split; [by left|congruence]|by left].
           ++ rewrite Hne by done. tauto.
      * rewrite Hoq in Hpq by done. destruct (inv_queue _ _ Hi q pq Hpq) as [Q1 Q2 Q3 Q4].
        assert (p ∉ qu_jobs pq) as Hpqn by (by intros [? _]%Q3).
        assert (forall x, x ∈ qu_jobs pq -> x ≠ p) as Hxq by (intros x Hx ->; done).
        constructor; [done| | |].
        -- eapply counts_ext; [|exact Q2]. intros x Hx. symmetry. apply Hcs. by apply Hxq.
        -- intros x. rewrite Q3, Hin. unfold hdr. destruct (decide (x = p)) as [->|Hxn].
           ++ rewrite Hcp. cbn. split; [tauto|]. intros [_ ?]. congruence.
           ++ rewrite Hne by done. tauto.
        -- apply (sorted_ext (fun x y => rank w x <= rank w y)); [|done].
           intros a b Ha Hb2. unfold rank. by rewrite !Hne by (by apply Hxq).
    + intros x q Hh. apply Hqs. unfold hdr in Hh. destruct (decide (x = p)) as [->|Hn].
      * rewrite Hcp in Hh. destruct (Hq q Hh) as (pq & _ & _ & -> & _). by eexists.
      * rewrite Hne in Hh by done. by apply (inv_qhdr _ _ Hi x).
    + intros q. rewrite Esq, Hqs. apply Hi.
    + intros ctx Hctx2. destruct (Hctx ctx Hctx2) as (ctx0 & Hc0 & Hadd). destruct (inv_index _ _ Hi ctx0 Hc0) as [Hwf Hf].
      pose proof (ix_add_ok ctx0 (c_jobid c) p Hwf) as Hok. pose proof (ix_add_wf ctx0 (c_jobid c) p Hwf) as Hwf2.
      pose proof (fun k => ix_add_find ctx0 (c_jobid c) p k Hwf) as Hfind. rewrite Hadd in Hok, Hwf2, Hfind. cbn in Hok, Hwf2, Hfind.
      symmetry in Hok. apply bool_decide_eq_true in Hok. split; [done|]. intros k x. rewrite Hfind, Hin.
      case_bool_decide as Hk.
      * subst k. rewrite Hok. cbn. split.
        -- intros [= <-]. rewrite Hcp. split; [by left|done].
        -- intros [[->|Hx] Hid]; [done|]. rewrite Hne in Hid by (by apply Hxp).
           assert (ix_find (c_jobid c) ctx0 = Some x) by (by apply Hf). congruence.
      * rewrite Hf. split.
        -- intros [Hx Hid]. rewrite Hne by (by apply Hxp). split; [by right|done].
        -- intros [[->|Hx] Hid].
           ++ rewrite Hcp in Hid. cbn in Hid. congruence.
           ++ rewrite Hne in Hid by (by apply Hxp). done.
  - constructor; [done| |done|done|done]. rewrite Hl1 in Hp |- *. rewrite Hl2. unfold delete_link.
    rewrite !filter_app, filter_cons, decide_False by (by intros ?). done.
Qed.

Lemma find_queue_live (qs : gmap ptr pbs_queue) (name : cstring) (l : list ptr) :
  (forall q, q ∈ l -> is_Some (qs !! q)) ->
  exists o, find_queue qs name l = Some o /\ forall q, o = Some q -> q ∈ l.
Proof.
  induction l as [|q l IH]; intros Hl; cbn; [by eexists|].
  destruct (Hl q) as [pq ->]; [by left|]. cbn [mbind option_bind]. case_match.
  - exists (Some q). split; [done|]. intros q' [= ->]. by left.
  - destruct IH as (o & -> & Ho); [intros; apply Hl; by right|]. exists o. split; [done|]. intros q' Hq'. right. by apply Ho.
Qed.

Lemma find_queuebyname_step ov w (name : cstring) : inv ov w ->
  wp (find_queuebyname name) (fun o w' => w' = w /\ forall q, o = Some q -> is_Some (queues w !! q)) w.
Proof.
  intros Hi. unfold find_queuebyname. apply wp_bind, wp_world.
  destruct (find_queue_live (queues w) (up_to (take (Z.to_nat PBS_MAXDEST) name) "@"%char) (svr_queues w))
    as (o & Ho & Hl); [apply (inv_queues _ _ Hi)|].
  eapply wp_need; [exact Ho|]. split; [done|]. intros q Hq. by apply (inv_queues _ _ Hi), Hl.
Qed.

(** The job enters the index, which is given up when it cannot. *)
Lemma avl_add_step w p j : jobs w !! p = Some j ->
  wp (svr_avljob_oper p false)
    (fun _ w' => exists ctx, w' = set_ctx w ctx /\
       forall x, ctx = Some x -> exists ctx0, AVL_jctx w = Some ctx0 /\ ix_add (jobid j) p ctx0 = (x, true)) w.
Proof.
  intros Hj. unfold svr_avljob_oper. apply wp_bind, wp_world. destruct (AVL_jctx w) as [ctx|] eqn:E.
  - apply wp_bind. eapply wp_get_job; [exact Hj|]. destruct (ix_add (jobid j) p ctx) as [ctx' b] eqn:Ea.
    eexists tt, _. split; [done|]. exists (if b then Some ctx' else None). split; [done|].
    intros x Hx. destruct b; [|done]. injection Hx as <-. by exists ctx.
  - apply wp_ret. exists None. split; [|done]. destruct w. cbn in *. by rewrite E.
Qed.

(** What [svr_enquejob] needs: the job is not linked, is not coming in, the counts
    have room, and a history job is in no queue. *)
Record may_enqueue w p c : Prop := {
  me_out : p ∉ svr_alljobs w;
  me_committed : committed (c_substate c) = true;
  me_room : Z.of_nat (length (svr_alljobs w)) < INT_MAX;
  me_qhdr : (c_state c =? JOB_STATE_MOVED) || (c_state c =? JOB_STATE_FINISHED) = true -> c_qhdr c = None }.

Definition with_qhdr c (q : option ptr) : core_t :=
  {| c_state := c_state c; c_substate := c_substate c; c_svrflags := c_svrflags c; c_jobid := c_jobid c;
     c_qhdr := q; c_parentaj := c_parentaj c; c_subjindx := c_subjindx c; c_ajtrk := c_ajtrk c;
     c_qrank := c_qrank c |}.

Lemma set_whole_table_when ov w p c (b : bool) : inv ov w -> core_at w p = Some c ->
  wp (when b (let* pjob := get_job p in let* pjob := need (set_whole_table pjob (state pjob)) in put_job p pjob))
    (fun _ w' => inv ov w' /\ others p w w' /\ svr_alljobs w' = svr_alljobs w /\
       exists c', core_at w' p = Some c' /\ retabled c c') w.
Proof.
  intros Hi Hc. destruct b; cbn [when].
  { apply set_whole_table_step; [done..|]. intros j <-. by apply (inv_state _ _ Hi p (core j)). }
  apply wp_ret. split; [done|]. split; [apply others_same, same_core_refl|]. split; [done|].
  exists c. split; [done|apply retabled_refl].
Qed.

(** A job without a queue *)
Lemma enqueue_history_step ov w p c :
  inv ov w -> core_at w p = Some c -> ov !! p = None -> may_enqueue w p c ->
  wp (enqueue_history p)
    (fun r w' => inv ov w' /\ others p w w' /\
       if (c_state c =? JOB_STATE_MOVED) || (c_state c =? JOB_STATE_FINISHED)
       then r = 0 /\ p ∈ svr_alljobs w' else r = PBSE_UNKQUE /\ w' = w) w.
Proof.
  intros Hi Hc Hov [Hout Hcm Hroom Hq]. pose proof Hc as (j & Hj & Hcj)%job_core. unfold enqueue_history.
  apply wp_bind. eapply wp_get_job; [exact Hj|].
  assert (state j = c_state c) as -> by (by rewrite <- Hcj).
  destruct (_ || _) eqn:Eh; [|apply wp_ret; split; [done|]; split; [apply others_same, same_core_refl|done]].
  specialize (Hq eq_refl).
  apply wp_bind, wp_world, wp_bind. unfold is_linked. rewrite bool_decide_false by done. cbn [negb when].
  unfold on_alljobs, append_link, is_linked. apply wp_bind, wp_bind, wp_world. rewrite bool_decide_false by done.
  apply wp_bind. eapply wp_need; [done|]. eexists tt, _. split; [done|]. cbv beta.
  set (w1 := set_lists _ _ _ _). eapply wp_mono; [by apply (avl_add_step w1 p j)|].
  cbn beta. intros _ w2 (ctx & -> & Hctx). set (w2 := set_ctx _ _).
  assert (0 <= c_state c < PBS_NUMJOBSTATE) as Hs by (by apply (inv_state _ _ Hi p c)).
  destruct (counts_add (sv_numjobs w) (sv_jobstates w) (fun x => if decide (x = p) then Some (c_state c) else cstate ov w x)
    (svr_alljobs w) (p :: svr_alljobs w) p (c_state c)) as (ct & Hb & _); [|done|cbn [length]; lia|by rewrite decide_True|done|].
  { eapply counts_ext; [|apply Hi]. intros x Hx. by rewrite decide_False by (intros ->; done). }
  apply wp_bind. eapply (wp_sv_count w2); [exact Hb|]. set (w3 := set_sv_counts _ _ _).
  destruct (link_done ov w p c w3 ct) as [Hi3 Ho3]; try done.
  - intros t Ht. by eapply (inv_table _ _ Hi p).
  - exists (svr_alljobs w), []. unfold w3, w2, w1. cbn. by rewrite app_nil_r.
  - intros x Hx. destruct (Hctx x Hx) as (ctx0 & Hc0 & Ha). exists ctx0. split; [done|]. by rewrite <- Hcj.
  - intros q Hq'. congruence.
  - assert (core_at w3 p = Some c) as Hc3 by done.
    eapply wp_seq; [apply (set_whole_table_when ov w3 p c _ Hi3 Hc3)|].
    cbn beta. intros _ w4 (Hi4 & Ho4 & Ha4 & _). apply wp_ret. split; [done|].
    split; [by eapply others_trans|]. split; [done|]. rewrite Ha4. unfold w3, w2, w1. cbn.
    apply elem_of_app. right. by left.
Qed.

(** The list of the queue after the job was inserted *)
Lemma queue_insert ov w w' p j q (pq : pbs_queue) :
  inv ov w -> queues w !! q = Some pq -> p ∉ svr_alljobs w ->
  jobs w' !! p = Some j -> (forall x, x ≠ p -> core_at w' x = core_at w x) ->
  exists l, insert_by_rank (jobs w') (qrank j) p (qu_jobs pq) = Some l /\ l ≡ₚ p :: qu_jobs pq /\
    StronglySorted (fun x y => rank w' x <= rank w' y) l.
Proof.
  intros Hi Hq Hp Hj Hne. destruct (inv_queue _ _ Hi q pq Hq) as [_ _ Qm Qs].
  assert (forall x, x ∈ qu_jobs pq -> x ≠ p) as Hxp by (intros x [Hx _]%Qm ->; done).
  assert (forall x, x ∈ qu_jobs pq -> exists jx, jobs w' !! x = Some jx /\ rank w' x = qrank jx) as Hlive.
  { intros x Hx. pose proof Hx as [Hin _]%Qm. destruct (inv_live _ _ Hi x Hin) as (cx & Hcx & _).
    rewrite <- Hne in Hcx by (by apply Hxp). pose proof Hcx as (jx & Hjx & <-)%job_core. exists jx.
    split; [done|]. unfold rank. by rewrite Hcx. }
  assert (rank w' p = qrank j) as Hrp by (unfold rank; by rewrite (core_job _ _ _ Hj)).
  destruct (insert_by_rank_spec (jobs w') (qrank j) p (qu_jobs pq)) as (l1 & l2 & El & Hins & H2 & H1).
  { intros x Hx. destruct (Hlive x Hx) as (jx & Hjx & _). by eexists. }
  { intros Hx. by apply (Hxp p Hx). }
  exists (l1 ++ p :: l2). split; [done|]. split.
  - rewrite El. by rewrite Permutation_middle.
  - rewrite El in Hlive. apply insert_sorted.
    + rewrite <- El. apply (sorted_ext (fun x y => rank w x <= rank w y)); [|done].
      intros a b Ha Hb. unfold rank. by rewrite !Hne by (by apply Hxp).
    + intros x Hx. destruct (Hlive x) as (jx & Hjx & ->); [apply elem_of_app; by right|]. rewrite Hrp.
      apply Z.lt_le_incl. by eapply H2.
    + intros x Hx. destruct (Hlive x) as (jx & Hjx & ->).
      { apply elem_of_app. left. apply last_Some in Hx as [l ->]. apply elem_of_app. right. by left. }
      rewrite Hrp. by eapply H1.
Qed.

(** The list of all jobs, then the index *)
Lemma link_server_step ov w p j :
  inv ov w -> jobs w !! p = Some j -> p ∉ svr_alljobs w ->
  wp (on_alljobs (insert_by_rank (jobs w) (qrank j) p))
    (fun _ w1 => exists l, w1 = set_lists w l (svr_newjobs w) (svr_unlicensedjobs w) /\
      exists l1 l2, svr_alljobs w = l1 ++ l2 /\ l = l1 ++ p :: l2) w.
Proof.
  intros Hi Hj Hp. destruct (insert_by_rank_spec (jobs w) (qrank j) p (svr_alljobs w)) as (l1 & l2 & El & Hins & _).
  - intros x Hx. destruct (inv_live _ _ Hi x Hx) as (c & (jx & Hjx & _)%job_core & _). by eexists.
  - done.
  - unfold on_alljobs. apply wp_bind, wp_world, wp_bind. eapply wp_need; [exact Hins|].
    eexists tt, _. split; [done|]. exists (l1 ++ p :: l2). split; [done|]. eauto.
Qed.

Lemma link_job_step ov w p c q :
  inv ov w -> core_at w p = Some c -> ov !! p = None -> may_enqueue w p c -> is_Some (queues w !! q) ->
  wp (link_job p q)
    (fun _ w' => inv ov w' /\ others p w w' /\ p ∈ svr_alljobs w' /\ core_at w' p = Some (with_qhdr c (Some q))) w.
Proof.
  intros Hi Hc Hov [Hout Hcm Hroom _] [pq Hq]. pose proof Hc as (j & Hj & Hcj)%job_core. unfold link_job.
  assert (0 <= c_state c < PBS_NUMJOBSTATE) as Hs by (by apply (inv_state _ _ Hi p c)).
  apply wp_bind. eapply wp_get_job; [exact Hj|].
  assert (state j = c_state c) as -> by (by rewrite <- Hcj). apply wp_bind, wp_world.
  eapply wp_seq; [by eapply link_server_step|]. cbn beta. intros _ w1 (l & -> & l1 & l2 & Hl1 & Hl2).
  assert (l ≡ₚ p :: svr_alljobs w) as Hl by (by rewrite Hl1, Hl2, Permutation_middle). set (w1 := set_lists _ _ _ _).
  eapply wp_seq; [by apply (avl_add_step w1 p j)|]. cbn beta. intros _ w2 (ctx & -> & Hctx). set (w2 := set_ctx _ _).
  set (f := fun x => if decide (x = p) then Some (c_state c) else cstate ov w x).
  destruct (counts_add (sv_numjobs w) (sv_jobstates w) f (svr_alljobs w) l p (c_state c)) as (ct & Hb & _); try done.
  { eapply counts_ext; [|apply Hi]. intros x Hx. unfold f. by rewrite decide_False by (intros ->; done). }
  { rewrite Hl. cbn [length]. lia. }
  { unfold f. by rewrite decide_True. }
  apply wp_bind. eapply (wp_sv_count w2); [exact Hb|]. set (w3 := set_sv_counts _ _ _).
  unfold on_job. apply wp_bind, wp_bind. apply (wp_get_job w3 p j); [exact Hj|].
  eapply wp_put_job; [exact Hj|]. set (w4 := set_jobs _ _). apply wp_bind, wp_world, wp_bind.
  apply (wp_get_queue w4 q pq); [exact Hq|].
  assert (core_at w4 p = Some (with_qhdr c (Some q))) as Hc4.
  { unfold w4. rewrite core_at_insert, decide_True by done. by rewrite <- Hcj. }
  assert (forall x, x ≠ p -> core_at w4 x = core_at w x) as Hne.
  { intros x Hx. unfold w4. by rewrite core_at_insert, decide_False by congruence. }
  destruct (queue_insert ov w w4 p (set_qhdr j (Some q)) q pq Hi Hq Hout) as (ql & Hins & Hql & Hsort); [|done|].
  { unfold w4. cbn. by rewrite lookup_insert_eq. }
  apply wp_bind. eapply wp_need; [exact Hins|]. apply wp_bind. apply (wp_put_queue w4 q pq); [exact Hq|].
  set (pq1 := set_counts _ _ _ _). set (w5 := set_queues _ _).
  destruct (inv_queue _ _ Hi q pq Hq) as [Q1 Q2 Q3 Q4].
  destruct (counts_add (qu_numjobs pq) (qu_njstate pq) f (qu_jobs pq) ql p (c_state c)) as (qct & Hqb & _); try done.
  { eapply counts_ext; [|exact Q2]. intros x [Hx _]%Q3. unfold f. by rewrite decide_False by (intros ->; done). }
  { rewrite Hql. cbn [length]. pose proof (submseteq_length _ _ (NoDup_submseteq _ (svr_alljobs w) Q1
      (fun x Hx => proj1 (proj1 (Q3 x) Hx)))). lia. }
  { unfold f. by rewrite decide_True. }
  apply (wp_qu_count w5 q pq1 _ _ _ qct); [unfold w5; cbn; by rewrite lookup_insert_eq|exact Hqb|].
  unfold w5, pq1. cbn [queues set_queues set_counts qu_numjobs qu_jobs]. rewrite insert_insert_eq.
  change (set_queues (set_queues w4 ?a) ?b) with (set_queues w4 b). change (queues w4) with (queues w).
  set (w6 := set_queues _ _). assert (svr_alljobs w6 ≡ₚ p :: svr_alljobs w) as Hall by exact Hl.
  destruct (link_done ov w p (with_qhdr c (Some q)) w6 ct) as [Hi6 Ho6]; try done.
  - intros t Ht. by apply (inv_table _ _ Hi p c).
  - by exists l1, l2.
  - intros x Hx. destruct (Hctx x Hx) as (ctx0 & Hc0 & Ha). exists ctx0. split; [done|]. by rewrite <- Hcj.
  - intros q' Hq'. cbn in Hq'. unfold w6. cbn. by rewrite lookup_insert_ne by congruence.
  - intros q' [= <-]. exists pq, qct, ql. split; [done|]. split; [unfold w6; cbn; by rewrite lookup_insert_eq|]. done.
  - split; [done|]. split; [done|]. split; [|done]. rewrite Hall. by left.
Qed.

(** What happens to a job in its queue changes nothing the lists depend on. *)
Lemma keeps_enter_execution w p (pque : pbs_queue) : live w p -> keeps (enter_execution answer p pque) w.
Proof.
  intros Hp. unfold enter_execution. apply keeps_bind.
  { apply keeps_on_job; [done|]. intros j. by case_match. }
  intros _ w1 Hs1. keep.
Qed.

Lemma keeps_enter_queue w p q : live w p -> is_Some (queues w !! q) -> keeps (enter_queue answer p q) w.
Proof.
  intros Hp Hq. unfold enter_queue. apply keeps_bind; [by apply keeps_get_queue|]. intros pque w1 Hs1.
  apply keeps_bind; [keep|]. intros _ w2 Hs2. destruct (QA_ATR_QType pque); [|keep].
  apply keeps_bind; [unfold queue_attrs; keep|]. intros _ w3 Hs3. keep1; [keep|]. keep1; [keep|].
  keep1. apply keeps_bind; [keep|]. intros _ w5 Hs5. apply keeps_bind; [keep|]. intros _ w6 Hs6.
  keep1; [apply keeps_enter_execution; live|]. keep. done.
Qed.

(** [svr_enquejob]: a result, and the job linked unless it belongs nowhere *)
Lemma svr_enquejob_step ov w p c :
  inv ov w -> core_at w p = Some c -> ov !! p = None -> may_enqueue w p c ->
  wp (svr_enquejob answer p)
    (fun r w' => inv ov w' /\ others p w w' /\ (p ∈ svr_alljobs w' \/ r = PBSE_UNKQUE /\ w' = w)) w.
Proof.
  intros Hi Hc Hov Hme. pose proof Hc as (j & Hj & Hcj)%job_core. unfold svr_enquejob.
  apply wp_bind. eapply wp_get_job; [exact Hj|].
  eapply wp_seq; [by eapply find_queuebyname_step|]. cbn beta. intros o w0 [-> Ho]. destruct o as [q|].
  - eapply wp_seq; [apply (link_job_step ov w p c q); auto|]. cbn beta. intros _ w1 (Hi1 & Ho1 & Hin1 & Hc1).
    destruct (_ || _).
    + eapply wp_seq; [apply (set_whole_table_when ov w1 p _ _ Hi1 Hc1)|].
      cbn beta. intros _ w2 (Hi2 & Ho2 & Ha2 & _). apply wp_ret. split; [done|].
      split; [by eapply others_trans|]. left. by rewrite Ha2.
    + eapply wp_mono; [apply keeps_enter_queue; [by eapply live_some|]|].
      * apply (inv_qhdr _ _ Hi1 p). unfold hdr. by rewrite Hc1.
      * cbn. intros r w2 Hs2. split; [by eapply inv_same_core|]. split; [|left; by rewrite (sc_alljobs _ _ Hs2)].
        eapply others_trans; [exact Ho1|by apply others_same].
  - eapply wp_mono; [by eapply enqueue_history_step|]. cbn beta. intros r w1 (Hi1 & Ho1 & Hr). split; [done|]. split; [done|].
    case_match; [left|right]; apply Hr.
Qed.

(** ** The state a job should have *)

Lemma set_state_same j : set_qs j (set_state (ji_qs j) (state j) (substate j)) = j.
Proof. by destruct j as [[]]. Qed.

Lemma evaljobstate_again (now : Z) j (force : bool) s sub :
  svr_evaljobstate now j force = Some (s, sub) ->
  svr_evaljobstate now (set_qs j (set_state (ji_qs j) s sub)) force = Some (s, sub).
Proof.
  intros He. destruct (decide ((s, sub) = (state j, substate j))) as [[= -> ->]|Hne]; [by rewrite set_state_same|].
  set (j' := set_qs j _). pose proof He as He0. unfold svr_evaljobstate in He |- *.
  change (atr j') with (atr j). change (ji_resvp j') with (ji_resvp j). change (ji_ajtrk j') with (ji_ajtrk j).
  change (stagein_substate j') with (stagein_substate j).
  change (flag j' JOB_SVFLG_ArrayJob) with (flag j JOB_SVFLG_ArrayJob). change (state j') with s. change (substate j') with sub.
  unfold resv_state in He |- *. change (stagein_substate j') with (stagein_substate j).
  repeat match type of He with
  | (if ?b then _ else _) = _ => destruct b eqn:?
  | match ?o with Some _ => _ | None => _ end = _ => destruct o eqn:?
  | Some _ = Some _ => injection He as ? ?; subst
  | mbind _ ?o = _ => destruct o eqn:?; cbn [mbind option_bind] in He; [|done]
  end; try done; cbn [mbind option_bind] in *.
  all: repeat match goal with
  | H : Some _ = Some _ |- _ => injection H as H
  | H : (if ?b then _ else _) = (_, _) |- _ => destruct b eqn:?
  | H : (_, _) = (_, _) |- _ => injection H as ? ?; subst
  end; try (by destruct force); try (by exfalso; apply Hne).
  destruct ((substate j =? JOB_SUBSTATE_SYNCHOLD) || (substate j =? JOB_SUBSTATE_DEPNHOLD)) eqn:Eh;
    rewrite ?Eh; by destruct force.
Qed.

(** C31. [svr_evaljobstate]: a job that was given the state and the substate it
    evaluates to evaluates to them again; and a job becomes queued or begun only
    when it has no hold and its execution time has come. *)
Theorem evaljobstate_spec (now : Z) j (force : bool) s sub :
  svr_evaljobstate now j force = Some (s, sub) ->
  svr_evaljobstate now (set_qs j (set_state (ji_qs j) s sub)) force = Some (s, sub) /\
  (s = JOB_STATE_QUEUED \/ s = JOB_STATE_BEGUN ->
   (s, sub) = (state j, substate j) \/
   at_long (atr j JOB_ATR_hold) = 0 /\ at_long (atr j JOB_ATR_exectime) <= now).
Proof.
  intros He. split; [by apply evaljobstate_again|]. intros Hs. unfold svr_evaljobstate in He.
  case_match; [injection He as <- <-; by left|]. case_match; [injection He as <- <-; by left|].
  destruct (Z.eqb_spec (at_long (atr j JOB_ATR_hold)) 0) as [Hh|Hh]; cbn [negb] in He; [|injection He as <- _; by destruct Hs].
  destruct (Z.ltb_spec now (at_long (atr j JOB_ATR_exectime))) as [Hx|Hx]; [injection He as <- _; by destruct Hs|].
  by right.
Qed.

End Queue.
End JobQueue.

(** * Ending jobs and cleaning the history

    Module [JobHistory]: [job_abt] of a job that is no subjob and the sweep
    [svr_clean_job_history] return and keep the invariant [JobInv.inv].  The
    sweep needs that no subjob is finished ([no_old_subjob]): it purges an array
    job before its subjobs, and purging a subjob looks at the array job. *)

Import Job Counters Subjobs SubjobProps State JobInv JobSteps JobQueue.

Module JobHistory.

Section History.
Context {I : Type} `{IndexLaws I ptr} (answer : list call -> Z).
Implicit Types (w : world I) (p q pa : ptr) (j : job) (s : Z) (ov : gmap ptr Z) (c : core_t).

(** ** Aborting *)

(** A linked job that is no subjob *)
Definition here ov p w : Prop :=
  inv ov w /\ ov !! p = None /\ p ∈ svr_alljobs w /\ exists c, core_at w p = Some c /\ is_sub c = false.

(** [m] returns, keeps the invariant and touches no other job. *)
Definition tidy {A : Type} ov p (m : M (world I) A) w : Prop := wp m (fun _ w' => inv ov w' /\ others p w w') w.

Lemma here_core ov p w w' : same_core w w' -> here ov p w -> here ov p w'.
Proof.
  intros Hs (Hi & Hov & Hp & Hc). split; [by eapply inv_same_core|]. split; [done|].
  by rewrite (sc_alljobs _ _ Hs), (sc_core _ _ Hs).
Qed.

Lemma here_live ov p w : here ov p w -> live w p.
Proof. intros (_ & _ & _ & c & Hc & _). by eapply live_some. Qed.

Lemma able_no_sub dn ov w p c : is_sub c = false -> able dn ov w p c.
Proof. intros Hns Hs. congruence. Qed.

Lemma tidy_keeps {A : Type} ov p (m : M (world I) A) w : inv ov w -> keeps m w -> tidy ov p m w.
Proof.
  intros Hi Hm. eapply wp_mono; [exact Hm|]. cbn. intros _ w1 Hs. split; [by eapply inv_same_core|by apply others_same].
Qed.

Lemma tidy_bind {A B : Type} ov p (m : M (world I) A) (f : A -> M (world I) B) w :
  tidy ov p m w -> (forall a w1, inv ov w1 -> tidy ov p (f a) w1) -> tidy ov p (bind m f) w.
Proof.
  intros Hm Hf. eapply wp_seq; [exact Hm|]. cbn beta. intros a w1 [Hi1 Ho1]. eapply wp_mono; [by apply Hf|].
  cbn beta. intros _ w2 [Hi2 Ho2]. split; [done|]. by eapply others_trans.
Qed.

Lemma tidy_here {A B : Type} ov p (m : M (world I) A) (f : A -> M (world I) B) w :
  here ov p w -> keeps m w -> (forall a w1, here ov p w1 -> tidy ov p (f a) w1) -> tidy ov p (bind m f) w.
Proof.
  intros Hh Hm Hf. eapply wp_seq; [exact Hm|]. cbn beta. intros a w1 Hs.
  eapply wp_mono; [by apply Hf; eapply here_core|]. cbn beta. intros _ w2 [Hi2 Ho2]. split; [done|].
  eapply others_trans; [by apply others_same|done].
Qed.

(** [svr_setjobstate], then whatever such a job allows *)
Lemma tidy_setjobstate {A : Type} ov p s sub (f : Z -> M (world I) A) w :
  here ov p w -> 0 <= s < PBS_NUMJOBSTATE -> committed sub = true ->
  (forall r w1, here ov p w1 -> tidy ov p (f r) w1) ->
  tidy ov p (bind (svr_setjobstate answer doneness p s sub) f) w.
Proof.
  intros (Hi & Hov & Hp & c & Hc & Hns) Hs Hsub Hf. eapply wp_seq.
  - apply (setjobstate_step answer doneness ov w p c s sub); try done; [|by apply able_no_sub].
    split; [done|]. split; [by left|]. congruence.
  - cbn beta. intros r w1 (Hi1 & [_ Ho1] & Hp1 & c1 & Hc1 & Hk & _). specialize (Ho1 Hns).
    eapply wp_mono; [apply (Hf r w1)|].
    + split; [done|]. split; [done|]. split; [tauto|]. exists c1. by rewrite (kin_sub _ _ Hk).
    + cbn beta. intros _ w2 [Hi2 Ho2]. split; [done|]. by eapply others_trans.
Qed.

Lemma tidy_saveorpurge ov p w : here ov p w -> tidy ov p (svr_saveorpurge_finjobhist doneness p) w.
Proof.
  intros (Hi & Hov & Hp & c & Hc & Hns).
  eapply wp_mono; [apply (saveorpurge_step doneness ov w p c); try done; by apply able_no_sub|].
  cbn beta. intros _ w1 (Hi1 & [_ Ho1] & _). split; [done|]. by apply Ho1.
Qed.

(** The job has been ended and a value is left to be returned. *)
Lemma tidy_end {A B : Type} ov p (m : M (world I) A) (r : B) w : tidy ov p m w -> tidy ov p (bind m (fun _ => ret r)) w.
Proof. intros Hm. apply tidy_bind; [done|]. intros _ w1 Hi1. apply tidy_keeps; [done|apply keeps_ret]. Qed.

Ltac here_keep :=
  match goal with H : here _ _ ?w |- keeps _ ?w => pose proof (here_live _ _ _ H) end; keep.

Lemma job_abt_step ov p (text : bool) w : here ov p w -> tidy ov p (job_abt answer p text) w.
Proof.
  intros Hh. unfold job_abt.
  assert (forall r w1, here ov p w1 -> tidy ov p (ret (r : Z)) w1) as Hret.
  { intros r w1 (Hi & _). apply tidy_keeps; [done|apply keeps_ret]. }
  apply tidy_here; [done|by apply keeps_get_job, (here_live ov)|]. intros j w1 Hh1. cbv zeta. case_match; [by apply Hret|].
  apply tidy_here; [done|here_keep|]. intros _ w2 Hh2.
  destruct (_ && _); [|destruct (_ && _); [by apply Hret|destruct (_ =? JOB_SUBSTATE_PROVISION)]].
  - apply tidy_setjobstate; [done..|]. intros _ w3 Hh3. apply tidy_here; [done|here_keep|]. intros rc w4 Hh4.
    apply tidy_end. destruct (negb (rc =? 0)); cbn [when]; [|apply tidy_keeps; [apply Hh4|here_keep]].
    apply tidy_here; [done|here_keep|]. intros _ w5 Hh5. by apply tidy_saveorpurge.
  - apply tidy_setjobstate; [done..|]. intros _ w3 Hh3. by apply tidy_end, tidy_saveorpurge.
  - apply tidy_setjobstate; [done..|]. intros _ w3 Hh3. apply tidy_here; [done|here_keep|]. intros _ w4 Hh4.
    by apply tidy_end, tidy_saveorpurge.
Qed.

(** ** The sweep *)

Definition is_history (s : Z) : bool :=
  (s =? JOB_STATE_MOVED) || (s =? JOB_STATE_FINISHED) || (s =? JOB_STATE_EXPIRED).

Definition no_old_subjob w : Prop :=
  forall p c, p ∈ svr_alljobs w -> core_at w p = Some c -> is_sub c = true -> is_history (c_state c) = false.

(** One job of the sweep: it stays as it is, or it is gone. *)
Lemma clean_job_step w p : inv ∅ w -> p ∈ svr_alljobs w -> no_old_subjob w ->
  wp (clean_job answer p)
    (fun _ w' => inv ∅ w' /\ (same_core w w' \/ others p w w' /\ core_at w' p = None /\ p ∉ svr_alljobs w')) w.
Proof.
  intros Hi Hp Hold. destruct (inv_live _ _ Hi p Hp) as (c & Hc & _). pose proof Hc as (j & Hj & Hcj)%job_core.
  unfold clean_job. apply wp_bind. eapply wp_get_job; [exact Hj|].
  assert (forall b w', same_core w w' -> wp (ret (b : bool)) (fun _ w' => inv ∅ w' /\
    (same_core w w' \/ others p w w' /\ core_at w' p = None /\ p ∉ svr_alljobs w')) w') as Hret.
  { intros b w' Hs. apply wp_ret. split; [by eapply inv_same_core|by left]. }
  fold (is_history (state j)). destruct (is_history (state j)) eqn:Eh; [|by apply Hret, same_core_refl].
  assert (is_sub c = false) as Hns.
  { destruct (is_sub c) eqn:Es; [|done]. rewrite <- (Hold p c Hp Hc Es). rewrite <- Hcj. symmetry. exact Eh. }
  apply wp_keeps; [apply keeps_history_stamp; by eapply live_some|]. intros ok w1 Hs1.
  destruct ok; cbn [negb]; [|by apply Hret]. pose proof (inv_same_core _ _ _ Hs1 Hi) as Hi1.
  assert (core_at w1 p = Some c) as Hc1 by (by rewrite (sc_core _ _ Hs1)). pose proof Hc1 as (j1 & Hj1 & _)%job_core.
  apply wp_bind. eapply wp_get_job; [exact Hj1|]. apply wp_bind, wp_world. destruct (_ <=? _); cbn [when].
  - eapply wp_seq; [apply (job_purge_step doneness ∅ w1 p c); try done; by apply able_no_sub|].
    cbn beta. intros _ w2 (Hi2 & [_ Ho2] & Hd2 & Hn2). apply wp_ret. split; [done|]. right. split; [|done].
    eapply others_trans; [by apply others_same|by apply Ho2].
  - apply wp_bind, wp_ret. by apply Hret.
Qed.

Lemma no_old_subjob_core w w' : same_core w w' -> no_old_subjob w -> no_old_subjob w'.
Proof. intros Hs Hold p c. rewrite (sc_alljobs _ _ Hs), (sc_core _ _ Hs). apply Hold. Qed.

Lemma no_old_subjob_others w w' p : others p w w' -> p ∉ svr_alljobs w' -> no_old_subjob w -> no_old_subjob w'.
Proof.
  intros Ho Hp Hold q c Hq. assert (q ≠ p) as Hn by (intros ->; done). rewrite (ot_core _ _ _ Ho) by done.
  apply Hold. by apply (others_in _ _ _ _ Ho).
Qed.

Lemma delete_link_out (l : list ptr) p : p ∉ l -> delete_link l p = l.
Proof.
  induction l as [|q l IH]; intros Hp; [done|]. apply not_elem_of_cons in Hp as [Hq Hp].
  unfold delete_link. rewrite filter_cons, decide_True by congruence. f_equal. by apply IH.
Qed.

(** The entries after a job *)
Definition rest_of w (pj : option ptr) (n : nat) : Prop :=
  match pj with None => True | Some p => exists l1 l2, svr_alljobs w = l1 ++ p :: l2 /\ (length l2 < n)%nat end.

Lemma next_in_middle (l1 l2 : list ptr) p : p ∉ l1 -> next_in (l1 ++ p :: l2) p = Some (head l2).
Proof.
  induction l1 as [|q l1 IH]; intros Hp; cbn; [by rewrite decide_True|].
  apply not_elem_of_cons in Hp as [Hq Hp]. rewrite decide_False by congruence. by apply IH.
Qed.

Lemma rest_of_next (l1 l2 : list ptr) p w (n : nat) : (length l2 < S n)%nat ->
  svr_alljobs w = l1 ++ p :: l2 \/ svr_alljobs w = l1 ++ l2 -> rest_of w (head l2) n.
Proof.
  intros Hn Hw. destruct l2 as [|q l2]; [done|]. cbn in *. destruct Hw as [->| ->].
  - exists (l1 ++ [p]), l2. rewrite <- app_assoc. split; [done|lia].
  - exists l1, l2. split; [done|lia].
Qed.

Lemma clean_loop_step (fuel : nat) (begin_time : Z) w (pj : option ptr) :
  inv ∅ w -> no_old_subjob w -> rest_of w pj fuel ->
  wp (clean_loop answer fuel begin_time pj) (fun _ w' => inv ∅ w') w.
Proof.
  revert w pj. induction fuel as [|fuel IH]; intros w pj Hi Hold Hr.
  { destruct pj; [destruct Hr as (? & ? & _ & ?); lia|by apply wp_ret]. }
  destruct pj as [p|]; [|by apply wp_ret]. destruct Hr as (l1 & l2 & Hl & Hn). cbn [clean_loop].
  pose proof (inv_nodup _ _ Hi) as Hnd. rewrite Hl in Hnd. apply NoDup_app in Hnd as (_ & Hp1 & Hnd2).
  apply NoDup_cons in Hnd2 as [Hp2 _].
  assert (p ∉ l1) as Hpl by (intros Hx; apply (Hp1 p Hx); by left).
  assert (p ∈ svr_alljobs w) as Hp by (rewrite Hl; apply elem_of_app; right; by left).
  destruct (inv_live _ _ Hi p Hp) as (c & Hc & _). pose proof Hc as (j & Hj & _)%job_core.
  apply wp_bind, wp_world, wp_bind. eapply wp_get_job; [exact Hj|]. apply wp_bind.
  eapply wp_need; [rewrite Hl; by apply next_in_middle|]. eapply wp_seq; [by apply clean_job_step|].
  cbn beta. intros look w1 [Hi1 Hw1].
  assert (no_old_subjob w1 /\ rest_of w1 (head l2) fuel) as [Hold1 Hr1].
  { destruct Hw1 as [Hs|(Ho & _ & Hn1)].
    - split; [by eapply no_old_subjob_core|]. apply (rest_of_next l1 l2 p); [done|left]. by rewrite (sc_alljobs _ _ Hs).
    - split; [by eapply no_old_subjob_others|]. apply (rest_of_next l1 l2 p); [done|right].
      pose proof (ot_alljobs _ _ _ Ho) as Ha. rewrite delete_link_out, Hl in Ha by done. rewrite Ha. unfold delete_link.
      rewrite filter_app, filter_cons, decide_False by (by intros ?). fold (delete_link l1 p) (delete_link l2 p).
      by rewrite !delete_link_out. }
  destruct look; [|by apply IH]. apply wp_keeps; [apply keeps_ask|]. intros end_time w2 Hs2.
  assert (forall w3, same_core w1 w3 -> wp (clean_loop answer fuel begin_time (head l2)) (fun _ w' => inv ∅ w') w3) as Hgo.
  { intros w3 Hs3. apply IH; [by eapply inv_same_core|by eapply no_old_subjob_core|].
    unfold rest_of. rewrite (sc_alljobs _ _ Hs3). exact Hr1. }
  case_match; [|by apply Hgo]. apply wp_keeps; [apply keeps_ask|]. intros task w3 Hs3.
  pose proof (same_core_trans _ _ _ Hs2 Hs3). case_match; [by apply Hgo|]. apply wp_ret. by eapply inv_same_core.
Qed.

Lemma svr_clean_job_history_step w : inv ∅ w -> no_old_subjob w ->
  wp (svr_clean_job_history answer) (fun _ w' => inv ∅ w') w.
Proof.
  intros Hi Hold. unfold svr_clean_job_history. apply wp_keeps; [apply keeps_ask|]. intros begin_time w1 Hs1.
  apply wp_bind, wp_world, clean_loop_step; [by eapply inv_same_core|by eapply no_old_subjob_core|].
  destruct (svr_alljobs w1) as [|p l] eqn:E; [done|]. exists [], l. split; [done|]. cbn. lia.
Qed.

End History.
End JobHistory.
