(* ===== verification/JobCounts.v ===== *)
(** * The server's jobs are counted

    Module [JobCounts]: the requests and events of the server as operations
    ([op], [run]) on its jobs, what each of them needs ([guard]), and the steps
    between worlds ([step_to]).  Every operation returns and keeps the invariant,
    so in every reachable world the counts by state of the server and of each
    queue are those of their lists, the lists of the queues are sorted by rank,
    and the index holds exactly the linked jobs. *)

From Stdlib Require Import ZArith Lia Ascii String Sorted.
From stdpp Require Import gmap.
From S2P Require Import Prelude Index JobData SubjobTable SubjobProps SubjobIds JobState JobInv JobSteps JobQueue.
Import Job Counters Subjobs SubjobProps State JobInv JobSteps JobQueue JobHistory.

Module JobCounts.

Section Server.
Context {I : Type} `{IndexLaws I ptr} (answer : list call -> Z).
Implicit Types (w : world I) (p q pa : ptr) (j : job) (s : Z) (c : core_t).

(** ** Operations *)

Inductive op :=
  | Enqueue (p : ptr)
  | Dequeue (p : ptr)
  | SetState (p : ptr) (newstate newsubstate : Z)
  | HistInfo (p : ptr) (type : histjob_type)
  | SaveOrPurge (p : ptr)
  | Purge (p : ptr)
  | ArrayDone (p : ptr)
  | Abort (p : ptr) (text : bool)
  | CleanHistory.

Definition quiet {A : Type} (m : M (world I) A) : M (world I) unit := let* _ := m in ret tt.

Definition run (o : op) : M (world I) unit :=
  match o with
  | Enqueue p => quiet (svr_enquejob answer p)
  | Dequeue p => svr_dequejob p
  | SetState p s sub => quiet (svr_setjobstate answer doneness p s sub)
  | HistInfo p type => svr_setjob_histinfo doneness p type
  | SaveOrPurge p => svr_saveorpurge_finjobhist doneness p
  | Purge p => job_purge doneness p
  | ArrayDone p => doneness p
  | Abort p text => quiet (job_abt answer p text)
  | CleanHistory => quiet (svr_clean_job_history answer)
  end.

(** A subjob has its parent. *)
Definition with_family w c : Prop := is_sub c = true -> family w c.

Definition guard w (o : op) : Prop :=
  match o with
  | Enqueue p => exists c, core_at w p = Some c /\ may_enqueue w p c
  | Dequeue p => live w p
  | SetState p s sub => exists c, core_at w p = Some c /\ may_change w p c s sub /\ with_family w c
  | HistInfo p _ | SaveOrPurge p => p ∈ svr_alljobs w /\ exists c, core_at w p = Some c /\ with_family w c
  | Purge p => exists c, core_at w p = Some c /\ with_family w c
  | ArrayDone p | Abort p _ => p ∈ svr_alljobs w /\ exists c, core_at w p = Some c /\ is_sub c = false
  | CleanHistory => no_old_subjob w
  end.

Lemma able_family w p c : with_family w c -> able doneness ∅ w p c.
Proof. intros Hf Hs. split; [apply doneness_ok|]. split; [by apply Hf|done]. Qed.

Lemma wp_quiet {A : Type} (m : M (world I) A) w :
  wp m (fun _ w' => inv ∅ w') w -> wp (quiet m) (fun _ w' => inv ∅ w') w.
Proof. intros Hm. eapply wp_seq; [exact Hm|]. cbn. intros _ w' Hi. by apply wp_ret. Qed.

Lemma wp_inv {A : Type} (m : M (world I) A) (Q : A -> world I -> Prop) w :
  wp m (fun a w' => inv ∅ w' /\ Q a w') w -> wp m (fun _ w' => inv ∅ w') w.
Proof. intros Hm. eapply wp_mono; [exact Hm|]. cbn. tauto. Qed.

Lemma run_ok w (o : op) : inv ∅ w -> guard w o -> wp (run o) (fun _ w' => inv ∅ w') w.
Proof.
  intros Hi Hg. destruct o; cbn [run guard] in *.
  - destruct Hg as (c & Hc & Hme). by eapply wp_quiet, wp_inv, svr_enquejob_step.
  - destruct Hg as [c Hc]. by eapply wp_inv, svr_dequejob_spec.
  - destruct Hg as (c & Hc & Hm & Hf). eapply wp_quiet, wp_inv, setjobstate_step; try done. by apply able_family.
  - destruct Hg as (Hp & c & Hc & Hf). eapply wp_inv, histinfo_step; try done. by apply able_family.
  - destruct Hg as (Hp & c & Hc & Hf). eapply wp_inv, saveorpurge_step; try done. by apply able_family.
  - destruct Hg as (c & Hc & Hf). eapply wp_inv, job_purge_step; try done. by apply able_family.
  - destruct Hg as (Hp & c & Hc & Hns). by eapply wp_inv, doneness_ok.
  - destruct Hg as (Hp & c & Hc & Hns). eapply wp_quiet, wp_inv. apply job_abt_step. by repeat (split; [done|]); exists c.
  - by apply wp_quiet, svr_clean_job_history_step.
Qed.

(** ** Reachable worlds *)

(** A new job, not linked yet; the queue it names, if it names one, is there. *)
Definition fresh_job w j : Prop :=
  (forall q, ji_qhdr j = Some q -> is_Some (queues w !! q)) /\ 0 <= state j < PBS_NUMJOBSTATE /\ forall t, ji_ajtrk j = Some t -> array_ok t.

(** The steps of the server: it makes a job, an operation, or something the
    model leaves to the rest of the server, an attribute of a job other than its
    rank, the time or an attribute of the server. *)
Inductive step_to w : world I -> Prop :=
  | step_new p j : jobs w !! p = None -> fresh_job w j -> step_to w (set_jobs w (<[p := j]> (jobs w)))
  | step_op o w' : guard w o -> run o w = Some (tt, w') -> step_to w w'
  | step_attr p a f w' : live w p -> a ≠ JOB_ATR_qrank -> on_attr p a f w = Some (tt, w') -> step_to w w'
  | step_sv v : step_to w {| jobs := jobs w; queues := queues w; svr_queues := svr_queues w; svr_alljobs := svr_alljobs w;
       svr_newjobs := svr_newjobs w; svr_unlicensedjobs := svr_unlicensedjobs w; sv_numjobs := sv_numjobs w;
       sv_jobstates := sv_jobstates w; AVL_jctx := AVL_jctx w; sv := v; cvt_buflen := cvt_buflen w; calls := calls w |}.

(** The server as it starts: queues, and no job *)
Record fresh w : Prop := {
  fr_jobs : jobs w = ∅;
  fr_alljobs : svr_alljobs w = [];
  fr_num : sv_numjobs w = 0;
  fr_states : sv_jobstates w = replicate (Z.to_nat PBS_NUMJOBSTATE) 0;
  fr_queue : forall q pq, queues w !! q = Some pq ->
    qu_jobs pq = [] /\ qu_numjobs pq = 0 /\ qu_njstate pq = replicate (Z.to_nat PBS_NUMJOBSTATE) 0;
  fr_queues : forall q, q ∈ svr_queues w -> is_Some (queues w !! q);
  fr_buflen : cvt_buflen w = 0;
  fr_index : AVL_jctx w = Some ix_create }.

Definition reachable w : Prop := exists w0, fresh w0 /\ rtc step_to w0 w.

Lemma fresh_inv w : fresh w -> inv ∅ w.
Proof.
  intros [Hj Ha Hn Hs Hq Hqs Hb Hx].
  assert (forall p, core_at w p = None) as Hno by (intros p; unfold core_at; by rewrite Hj).
  constructor.
  - by rewrite Hb.
  - intros p c Hc. by rewrite Hno in Hc.
  - intros p c t Hc. by rewrite Hno in Hc.
  - rewrite Ha. constructor.
  - intros p Hp. rewrite Ha in Hp. by apply elem_of_nil in Hp.
  - rewrite Hn, Hs, Ha. apply counts_nil.
  - intros q pq Hpq. destruct (Hq q pq Hpq) as (Hl & Hnum & Hct). constructor; rewrite ?Hl.
    + constructor.
    + rewrite Hnum, Hct. apply counts_nil.
    + intros p. rewrite Ha. split; [by intros ?%elem_of_nil|]. by intros [?%elem_of_nil _].
    + constructor.
  - intros p q Hh. unfold hdr in Hh. by rewrite Hno in Hh.
  - done.
  - intros ctx Hctx. rewrite Hx in Hctx. injection Hctx as <-. split; [apply ix_create_wf|]. intros k p. rewrite Ha.
    assert (ix_find k ix_create = None) as ->.
    { apply ix_find_none; [apply ix_create_wf|]. intros v. rewrite ix_create_elems. apply not_elem_of_nil. }
    split; [done|]. by intros [?%elem_of_nil _].
Qed.

Lemma inv_new w p j : inv ∅ w -> jobs w !! p = None -> fresh_job w j -> inv ∅ (set_jobs w (<[p := j]> (jobs w))).
Proof.
  intros Hi Hp (Hq & Hs & Ht). assert (p ∉ svr_alljobs w) as Hn.
  { intros Hin. destruct (inv_live _ _ Hi p Hin) as (c & (j' & Hj' & _)%job_core & _). congruence. }
  set (w' := set_jobs w _). assert (forall x, x ≠ p -> core_at w' x = core_at w x) as Hne.
  { intros x Hx. unfold w'. by rewrite core_at_insert, decide_False by congruence. }
  assert (core_at w' p = Some (core j)) as Hc by (unfold w'; by rewrite core_at_insert, decide_True).
  apply (inv_change ∅ ∅ w w' Hi); try done.
  - apply Hi.
  - intros x c Hx. destruct (decide (x = p)) as [->|Hnx].
    + rewrite Hc in Hx. by injection Hx as <-.
    + rewrite Hne in Hx by done. split; [by eapply inv_state|]. intros t. by eapply inv_table.
  - intros x q Hh. unfold hdr in Hh. destruct (decide (x = p)) as [->|Hnx].
    + rewrite Hc in Hh. by apply Hq.
    + rewrite Hne in Hh by done. by apply (inv_qhdr _ _ Hi x).
  - intros x Hx. assert (x ≠ p) as Hnx by (intros ->; done). unfold cstate, hdr, rank. rewrite Hne by done.
    split; [by eapply inv_live|done].
Qed.

Lemma step_inv w w' : inv ∅ w -> step_to w w' -> inv ∅ w'.
Proof.
  intros Hi Hs. destruct Hs as [p j Hp Hj|o w' Hg Hr|p a f w' Hl Ha Hr|v].
  - by apply inv_new.
  - destruct (run_ok w o Hi Hg) as (r & w1 & Hr1 & Hi1). rewrite Hr in Hr1. by injection Hr1 as _ <-.
  - destruct (keeps_on_attr w p a f Hl Ha) as (r & w1 & Hr1 & Hs1). rewrite Hr in Hr1. injection Hr1 as _ <-.
    by eapply inv_same_core.
  - destruct Hi. constructor; try done. intros q pque Hq. destruct (inv_queue0 q pque Hq). by constructor.
Qed.

Lemma reachable_inv w : reachable w -> inv ∅ w.
Proof.
  intros (w0 & Hf & Hr). apply fresh_inv in Hf. induction Hr as [|w0 w1 w2 Hs Hr IH]; [done|]. apply IH. by eapply step_inv.
Qed.

(** ** Properties *)

(** C12. Every operation of the server on its jobs, done in a world that satisfies
    the invariant and where what the operation needs is there ([guard]), returns,
    following no dangling pointer and leaving no array, and the invariant holds
    again.  A job to be linked is committed and not linked yet, one to be changed is
    there and its new state one it may take, a subjob has its array job, and for
    the sweep no linked subjob is finished: a sweep that purges an array job first reads
    it again for its subjobs ([JobScenes.sweep_uses_freed_job]). *)
Theorem operations_return w (o : op) : inv ∅ w -> guard w o -> exists w', run o w = Some (tt, w') /\ inv ∅ w'.
Proof. intros Hi Hg. destruct (run_ok w o Hi Hg) as ([] & w' & Hr & Hi'). by exists w'. Qed.

(** The states of the jobs of a list *)
Definition in_state w (l : list ptr) s : Z := tally (fun p => state <$> jobs w !! p) l s.

Lemma cstate_state w p : cstate ∅ w p = state <$> jobs w !! p.
Proof. unfold cstate, core_at. cbn. by destruct (jobs w !! p). Qed.

Lemma counts_in_state w (n : Z) (ct : list Z) (l : list ptr) : counts_ok n ct (cstate ∅ w) l ->
  n = Z.of_nat (length l) /\ forall s, 0 <= s < PBS_NUMJOBSTATE -> rd ct s = Some (in_state w l s).
Proof.
  intros Hc. apply (counts_ext _ _ _ (fun p => state <$> jobs w !! p)) in Hc; [|intros; apply cstate_state].
  destruct Hc. done.
Qed.

(** C11. In every reachable world the server counts its jobs: their number and,
    by state, how many there are; the same holds for every queue and the jobs
    that name it, whose list is sorted by rank. *)
Theorem reachable_counts w : reachable w ->
  sv_numjobs w = Z.of_nat (length (svr_alljobs w)) /\
  (forall s, 0 <= s < PBS_NUMJOBSTATE -> rd (sv_jobstates w) s = Some (in_state w (svr_alljobs w) s)) /\
  forall q pque, queues w !! q = Some pque ->
    NoDup (qu_jobs pque) /\
    (forall p, p ∈ qu_jobs pque <-> p ∈ svr_alljobs w /\ jobs w !! p ≫= ji_qhdr = Some q) /\
    qu_numjobs pque = Z.of_nat (length (qu_jobs pque)) /\
    (forall s, 0 <= s < PBS_NUMJOBSTATE -> rd (qu_njstate pque) s = Some (in_state w (qu_jobs pque) s)) /\
    StronglySorted (fun p p' => from_option qrank 0 (jobs w !! p) <= from_option qrank 0 (jobs w !! p')) (qu_jobs pque).
Proof.
  intros Hr%reachable_inv. destruct (counts_in_state w _ _ _ (inv_counts _ _ Hr)) as [Hn Hs].
  split; [done|]. split; [done|]. intros q pque Hq. destruct (inv_queue _ _ Hr q pque Hq) as [H1 H2 H3 H4].
  destruct (counts_in_state w _ _ _ H2) as [Hqn Hqs]. split; [done|]. split; [|split; [done|split; [done|]]].
  - intros p. rewrite H3. unfold hdr, core_at. by destruct (jobs w !! p).
  - apply (sorted_ext (fun p p' => rank w p <= rank w p')); [|done].
    intros a b _ _. unfold rank, core_at. destruct (jobs w !! a), (jobs w !! b); done.
Qed.

(** C20. As long as the server has its index, [find_job] returns exactly the
    linked job whose id is the one asked for, completed with the name of the
    server. *)
Theorem find_job_finds w (id k : cstring) : inv ∅ w -> is_Some (AVL_jctx w) ->
  search_key (server_name (sv w)) id = Some k ->
  exists o, find_job id w = Some (o, w) /\
    forall p, o = Some p <-> p ∈ svr_alljobs w /\ jobid <$> jobs w !! p = Some k.
Proof.
  intros Hi [ctx Hctx] Hk. unfold find_job, bind, the_world. rewrite Hk. cbn. rewrite Hctx.
  exists (ix_find k ctx). split; [done|]. intros p. destruct (inv_index _ _ Hi ctx Hctx) as [_ Hf]. rewrite Hf.
  unfold core_at. by destruct (jobs w !! p).
Qed.

(** C34. The end of an array job: [chk_array_doneness] returns and touches no
    other job.  When all subjobs are expired the array job ends, kept as history
    when there is one, or gone; with a subjob that is queued, running or exiting, or
    while its subjobs are being deleted ([TKMFLG_NO_DELETE]), it is left as it is. *)
Theorem array_ends w pa c (t : ajtrkhd) :
  inv ∅ w -> core_at w pa = Some c -> is_sub c = false -> pa ∈ svr_alljobs w -> c_ajtrk c = Some t ->
  exists w', doneness pa w = Some (tt, w') /\ others pa w w' /\
    (has (tkm_flags t) TKMFLG_NO_DELETE = true \/ Exists is_active (tkm_tbl t) -> core_at w' pa = Some c) /\
    (has (tkm_flags t) TKMFLG_NO_DELETE = false -> Forall (fun e => trk_status e = JOB_STATE_EXPIRED) (tkm_tbl t) ->
     ended w pa c w').
Proof.
  intros Hi Hc Hns Hin Ht. destruct (has (tkm_flags t) TKMFLG_NO_DELETE) eqn:Hnd.
  - exists w. split; [|split; [by apply others_same, same_core_refl|done]]. pose proof Hc as (j & Hj & <-)%job_core.
    unfold doneness, DONE_DEPTH. cbn [chk_array_doneness]. unfold get_job, bind, need, the_world. rewrite Hj. cbn.
    change (c_ajtrk (core j)) with (ji_ajtrk j) in Ht. by rewrite Ht, Hnd.
  - destruct (array_end_step 1 ∅ w pa c t) as ([] & w' & Hr & _ & Ho & He); try done. exists w'.
    split; [done|]. split; [done|]. unfold alive in He. split.
    + intros [?|Hex]; [done|]. assert (existsb is_active (tkm_tbl t) = true) as Ha; [|by rewrite Ha in He].
      rewrite existsb_exists. apply Exists_exists in Hex as (e & Hin' & He'). exists e.
      split; [by apply list_elem_of_In|by apply Is_true_true].
    + intros _ Hall. assert (existsb is_active (tkm_tbl t) = false) as Ha; [|by rewrite Ha in He].
      clear -Hall. induction Hall as [|e l Hx _ IH]; [done|]. cbn. rewrite IH. unfold is_active. by rewrite Hx.
Qed.

End Server.
End JobCounts.
