(* ===== verification/JobScenes.v ===== *)
(** * An array job in a server: instances and what goes wrong

    Module [JobScenes]: a server with one queue, an array job of two subjobs, and
    the index of [avltree.c].  The theorems of [JobCounts] at these worlds, the
    life of the array job, and the operations whose guards in [JobCounts] are
    needed because the code does not do what it means to. *)

From Stdlib Require Import ZArith Lia Ascii String Sorted.
From stdpp Require Import gmap.
From S2P Require Import Prelude Index AvlIndex JobData SubjobTable SubjobProps SubjobIds JobState JobInv JobSteps JobQueue JobCounts.
Import Job Counters Subjobs SubjobProps SubjobIds State JobInv JobSteps JobQueue JobHistory JobCounts.

Module JobScenes.

(** ** The server *)

Abbreviation W := (world (TreeIndex.t ptr)).

Definition no_attr : attribute := Attribute 0 0 NUL None.

Definition new_job (id : string) (s sub flags : Z) (pa : option ptr) (t : option ajtrkhd) (i rank : Z) : job :=
  MkJob (Jobfix (lit id) s sub flags (lit "workq") [] JOB_UNION_TYPE_EXEC 0 0 0 0 0)
    None None pa t i false false false false false
    (fun a => match a with
              | JOB_ATR_qrank => set_long no_attr rank
              | JOB_ATR_Comment => decode_str no_attr (Some (lit "Job run"))
              | _ => no_attr
              end).

Definition workq : pbs_queue :=
  Queue (lit "workq") QTYPE_Execution 0 (replicate (Z.to_nat PBS_NUMJOBSTATE) 0) [] (Some (lit "Execution")) no_attr.

(** [history] is [svr_history_enable]. *)
Definition server (now history : Z) : sv_attr := SvAttr (lit "srv") now history 1000 0 0 3 None.

Definition empty (history : Z) (ctx : option (TreeIndex.t ptr)) : W :=
  World ∅ {[ 1%positive := workq ]} [1%positive] [] [] [] 0 (replicate (Z.to_nat PBS_NUMJOBSTATE) 0) ctx
    (server 50 history) 0 [].

Definition set_sv_of (w : W) (v : sv_attr) : W :=
  {| jobs := jobs w; queues := queues w; svr_queues := svr_queues w; svr_alljobs := svr_alljobs w;
     svr_newjobs := svr_newjobs w; svr_unlicensedjobs := svr_unlicensedjobs w; sv_numjobs := sv_numjobs w;
     sv_jobstates := sv_jobstates w; AVL_jctx := AVL_jctx w; sv := v; cvt_buflen := cvt_buflen w; calls := calls w |}.

Definition add_job (w : W) (p : ptr) (j : job) : W := set_jobs w (<[p := j]> (jobs w)).

Definition array (s sub : Z) (t : ajtrkhd) : job := new_job "7[].srv" s sub JOB_SVFLG_ArrayJob None (Some t) 0 100.
Definition subjob (id : string) (i : Z) : job :=
  new_job id JOB_STATE_QUEUED JOB_SUBSTATE_QUEUED JOB_SVFLG_SubJob (Some 10%positive) None i (101 + i).

(** Two subjobs that are queued; the same when they have ended *)
Definition table2 : ajtrkhd := new_table 2 1 1.
Definition ended_table : ajtrkhd :=
  default table2 (set_whole_table (array JOB_STATE_BEGUN JOB_SUBSTATE_BEGUN table2) JOB_STATE_EXPIRED ≫= ji_ajtrk).

Definition w0 : W := empty 1 (Some ix_create).
Definition queued : W := add_job w0 10 (array JOB_STATE_QUEUED JOB_SUBSTATE_QUEUED table2).
Definition ending : W := add_job w0 10 (array JOB_STATE_BEGUN JOB_SUBSTATE_BEGUN ended_table).

(** Functions that are not modelled answer 0. *)
Definition zero (l : list call) : Z := 0.

Lemma table2_ok : array_ok table2.
Proof. split; [by apply new_table_ok; vm_compute; intuition discriminate|by apply new_table_narrow]. Qed.

Lemma ended_table_ok : array_ok ended_table.
Proof.
  destruct (set_whole_table_spec (array JOB_STATE_BEGUN JOB_SUBSTATE_BEGUN table2) table2 JOB_STATE_EXPIRED
    eq_refl table2_ok ltac:(done)) as (j' & t' & Hs & _ & Ht & Hok & _).
  unfold ended_table. rewrite Hs. cbn [mbind option_bind]. by rewrite Ht.
Qed.

Lemma w0_fresh : fresh w0.
Proof.
  constructor; try done.
  - intros q pq Hq. cbn in Hq. apply lookup_singleton_Some in Hq as [_ <-]. done.
  - intros q Hq. cbn in *. apply list_elem_of_singleton in Hq as ->. by eexists.
Qed.

Lemma array_fresh (s sub : Z) (t : ajtrkhd) : 0 <= s < PBS_NUMJOBSTATE -> array_ok t -> fresh_job w0 (array s sub t).
Proof. intros Hs Ht. split; [done|]. split; [done|]. by intros t' [= <-]. Qed.

Lemma queued_inv : inv ∅ queued.
Proof. apply inv_new; [apply fresh_inv, w0_fresh|done|]. apply array_fresh; [done|apply table2_ok]. Qed.

Lemma ending_inv : inv ∅ ending.
Proof. apply inv_new; [apply fresh_inv, w0_fresh|done|]. apply array_fresh; [done|apply ended_table_ok]. Qed.

Lemma enqueue_guard w j : core_at w 10%positive = Some (core j) -> svr_alljobs w = [] -> committed (substate j) = true ->
  ji_qhdr j = None -> guard (I := TreeIndex.t ptr) w (Enqueue 10).
Proof.
  intros Hc Ha Hs Hq. exists (core j). split; [done|]. constructor; rewrite ?Ha; [by intros ?%elem_of_nil|done..].
Qed.

Lemma queued_guard : guard queued (Enqueue 10).
Proof. by apply (enqueue_guard queued (array JOB_STATE_QUEUED JOB_SUBSTATE_QUEUED table2)). Qed.

Lemma ending_guard : guard ending (Enqueue 10).
Proof. by apply (enqueue_guard ending (array JOB_STATE_BEGUN JOB_SUBSTATE_BEGUN ended_table)). Qed.

(** ** The theorems of [JobCounts] here *)

Lemma operations_return_witness :
  exists w', run zero (Enqueue 10) queued = Some (tt, w') /\ inv ∅ w'.
Proof. exact (JobCounts.operations_return zero queued (Enqueue 10) queued_inv queued_guard). Defined.

Lemma reachable_counts_witness :
  exists w', run zero (Enqueue 10) queued = Some (tt, w') /\ svr_alljobs w' = [10%positive] /\
    sv_numjobs w' = 1 /\ rd (sv_jobstates w') JOB_STATE_QUEUED = Some (in_state w' (svr_alljobs w') JOB_STATE_QUEUED).
Proof.
  destruct (run_ok zero queued (Enqueue 10) queued_inv queued_guard) as ([] & w' & Hr & _).
  destruct (JobCounts.reachable_counts zero w') as (Hn & Hs & _).
  - exists w0. split; [apply w0_fresh|]. eapply rtc_l; [|eapply rtc_once].
    + apply (step_new zero w0 10 (array JOB_STATE_QUEUED JOB_SUBSTATE_QUEUED table2)); [done|].
      apply array_fresh; [done|apply table2_ok].
    + by eapply step_op; [exact queued_guard|].
  - exists w'. split; [exact Hr|].
    assert (svr_alljobs w' = [10%positive]) as Ha.
    { assert ((fun r => svr_alljobs (snd r)) <$> run zero (Enqueue 10) queued = Some [10%positive]) as He by (by vm_compute).
      rewrite Hr in He. by injection He. }
    split; [exact Ha|]. split; [by rewrite Hn, Ha|by apply Hs].
Defined.

Lemma find_job_finds_witness :
  exists w' o, run zero (Enqueue 10) queued = Some (tt, w') /\ find_job (lit "7[]@other") w' = Some (o, w') /\
    o = Some 10%positive.
Proof.
  destruct (run_ok zero queued (Enqueue 10) queued_inv queued_guard) as ([] & w' & Hr & Hi).
  assert ((fun r => (bool_decide (is_Some (AVL_jctx (snd r))), server_name (sv (snd r)), svr_alljobs (snd r),
    jobid <$> jobs (snd r) !! 10%positive)) <$> run zero (Enqueue 10) queued =
    Some (true, lit "srv", [10%positive], Some (lit "7[].srv"))) as He by (by vm_compute).
  rewrite Hr in He. cbn [fmap option_fmap option_map snd] in He. injection He as Hctx Hsv Ha Hid.
  destruct (JobCounts.find_job_finds w' (lit "7[]@other") (lit "7[].srv") Hi) as (o & Hf & Ho).
  - by apply bool_decide_eq_true in Hctx.
  - by rewrite Hsv.
  - exists w', o. split; [exact Hr|]. split; [exact Hf|]. apply Ho. rewrite Ha. split; [by left|exact Hid].
Defined.

Lemma array_ends_witness :
  (exists w' w'', run zero (Enqueue 10) ending = Some (tt, w') /\ doneness 10 w' = Some (tt, w'') /\
    exists c, core_at w'' 10 = Some c /\ c_state c = JOB_STATE_FINISHED) /\
  exists w' w'' c, run zero (Enqueue 10) queued = Some (tt, w') /\ doneness 10 w' = Some (tt, w'') /\
    core_at w' 10 = Some c /\ core_at w'' 10 = Some c.
Proof.
  split.
  - destruct (run_ok zero ending (Enqueue 10) ending_inv ending_guard) as ([] & w' & Hr & Hi).
    set (c := core (set_qhdr (array JOB_STATE_BEGUN JOB_SUBSTATE_BEGUN ended_table) (Some 1%positive))).
    assert ((fun r => (core_at (snd r) 10, svr_alljobs (snd r))) <$> run zero (Enqueue 10) ending =
      Some (Some c, [10%positive])) as He by (by vm_compute).
    rewrite Hr in He. injection He as Hc Ha.
    destruct (JobCounts.array_ends w' 10 c ended_table Hi Hc) as (w'' & Hd & _ & _ & Hend); try done.
    { rewrite Ha. by left. }
    exists w', w''. split; [exact Hr|]. split; [exact Hd|].
    assert ((fun r => core_at (snd r) 10) <$> (let* _ := run zero (Enqueue 10) in doneness 10) ending ≠ Some None) as Hn
      by (by vm_compute).
    unfold bind in Hn. rewrite Hr, Hd in Hn. destruct Hend as [Hnone|(_ & _ & c' & Hc' & _ & Hst)].
    + by vm_compute.
    + by repeat constructor.
    + exfalso. apply Hn. cbn. by rewrite Hnone.
    + exists c'. done.
  - destruct (run_ok zero queued (Enqueue 10) queued_inv queued_guard) as ([] & w' & Hr & Hi).
    set (c := core (set_qhdr (array JOB_STATE_QUEUED JOB_SUBSTATE_QUEUED table2) (Some 1%positive))).
    assert ((fun r => (core_at (snd r) 10, svr_alljobs (snd r))) <$> run zero (Enqueue 10) queued =
      Some (Some c, [10%positive])) as He by (by vm_compute).
    rewrite Hr in He. injection He as Hc Ha.
    destruct (JobCounts.array_ends w' 10 c table2 Hi Hc) as (w'' & Hd & _ & Hkeep & _); try done.
    { rewrite Ha. by left. }
    exists w', w'', c. split; [exact Hr|]. split; [exact Hd|]. split; [exact Hc|]. apply Hkeep. right. by left.
Defined.

Lemma evaljobstate_spec_witness :
  svr_evaljobstate 60 (array JOB_STATE_HELD JOB_SUBSTATE_HELD table2) false = Some (JOB_STATE_QUEUED, JOB_SUBSTATE_QUEUED) /\
  svr_evaljobstate 60 (array JOB_STATE_QUEUED JOB_SUBSTATE_QUEUED table2) false = Some (JOB_STATE_QUEUED, JOB_SUBSTATE_QUEUED).
Proof.
  split; [by vm_compute|].
  exact (proj1 (JobQueue.evaljobstate_spec 60 (array JOB_STATE_HELD JOB_SUBSTATE_HELD table2) false
    JOB_STATE_QUEUED JOB_SUBSTATE_QUEUED ltac:(by vm_compute))).
Defined.

(** ** The life of an array job *)

Definition live_server (history : Z) (ctx : option (TreeIndex.t ptr)) : W :=
  add_job (add_job (add_job (empty history ctx) 10 (array JOB_STATE_QUEUED JOB_SUBSTATE_QUEUED table2))
    11 (subjob "7[1].srv" 0)) 12 (subjob "7[2].srv" 1).

Definition set_state_to (p : ptr) (s sub : Z) : M W unit := run zero (SetState p s sub).

(** All three are queued and the subjobs run up to their end. *)
Definition to_the_end : M W unit :=
  let* _ := run zero (Enqueue 10) in
  let* _ := run zero (Enqueue 11) in
  let* _ := run zero (Enqueue 12) in
  let* _ := set_state_to 10 JOB_STATE_BEGUN JOB_SUBSTATE_BEGUN in
  let* _ := set_state_to 11 JOB_STATE_RUNNING JOB_SUBSTATE_RUNNING in
  let* _ := set_state_to 12 JOB_STATE_RUNNING JOB_SUBSTATE_RUNNING in
  let* _ := set_state_to 11 JOB_STATE_EXITING JOB_SUBSTATE_EXITING in
  set_state_to 12 JOB_STATE_EXITING JOB_SUBSTATE_EXITING.

Definition both_end : M W unit :=
  let* _ := to_the_end in
  let* _ := run zero (SaveOrPurge 11) in
  run zero (SaveOrPurge 12).

(** The jobs of the server, its counts, and the state of each job *)
Definition view (w : W) : list ptr * list Z * list (option (Z * Z)) :=
  (svr_alljobs w, sv_jobstates w, (fun p => (fun j => (state j, substate j)) <$> jobs w !! p) <$> [10; 11; 12]%positive).

Definition after {A : Type} (f : W -> A) (m : M W unit) (w : W) : option A := (fun r => f (snd r)) <$> m w.

Example array_runs :
  after view to_the_end (live_server 1 (Some ix_create)) =
  Some ([10; 11; 12]%positive, [0; 0; 0; 0; 0; 2; 0; 1; 0; 0], [Some (7, 70); Some (5, 50); Some (5, 50)]).
Proof. by vm_compute. Qed.

(** With a history the array job is finished and its subjobs have expired; *)
Example array_ends_in_history :
  after view both_end (live_server 1 (Some ix_create)) =
  Some ([10; 11; 12]%positive, [0; 0; 0; 0; 0; 0; 2; 0; 0; 1], [Some (9, 92); Some (6, 92); Some (6, 92)]).
Proof. by vm_compute. Qed.

(** without one all three are gone. *)
Example array_ends_without_history :
  after view both_end (live_server 0 (Some ix_create)) =
  Some ([], replicate (Z.to_nat PBS_NUMJOBSTATE) 0, [None; None; None]).
Proof. by vm_compute. Qed.

(** ** What goes wrong *)

(** The sweep purges the array job, which is first in the list, and then its
    subjobs, which look at the table of the job that was freed. *)
Lemma sweep_uses_freed_job :
  after view (let* _ := both_end in
              let* _ := modify (fun w => set_sv_of w (server 2000 1)) in
              run zero CleanHistory) (live_server 1 (Some ix_create)) = None.
Proof. by vm_compute. Qed.

(** An array job whose subjobs are all held, and not expired, is ended. *)
Lemma held_subjobs_end_array :
  let held := default table2 (set_whole_table (array JOB_STATE_BEGUN JOB_SUBSTATE_BEGUN table2) JOB_STATE_HELD ≫= ji_ajtrk) in
  (trk_status <$> tkm_tbl held) = [JOB_STATE_HELD; JOB_STATE_HELD] /\
  after view (let* _ := run zero (Enqueue 10) in run zero (ArrayDone 10))
    (add_job w0 10 (array JOB_STATE_BEGUN JOB_SUBSTATE_BEGUN held)) =
  Some ([10%positive], [0; 0; 0; 0; 0; 0; 0; 0; 0; 1], [Some (9, 92); None; None]).
Proof. by vm_compute. Qed.

(** A subjob that is set to FINISHED is counted there and stays in EXPIRED. *)
Lemma finished_subjob_is_miscounted :
  after view (let* _ := to_the_end in set_state_to 11 JOB_STATE_FINISHED JOB_SUBSTATE_FINISHED)
    (live_server 1 (Some ix_create)) =
  Some ([10; 11; 12]%positive, [0; 0; 0; 0; 0; 1; 0; 1; 0; 1], [Some (7, 70); Some (6, 92); Some (5, 50)]).
Proof. by vm_compute. Qed.

(** [correct_ct] resets the first six counters of ten: the others are counted
    twice. *)
Lemma recount_doubles :
  after sv_jobstates to_the_end (live_server 1 (Some ix_create)) = Some [0; 0; 0; 0; 0; 2; 0; 1; 0; 0] /\
  after sv_jobstates (let* _ := to_the_end in correct_ct) (live_server 1 (Some ix_create)) =
    Some [0; 0; 0; 0; 0; 2; 0; 2; 0; 0].
Proof. by vm_compute. Qed.

(** Purging a subjob of a finished array job ends the array job again. *)
Lemma array_ends_twice :
  let comment := after (fun w => (fun j => at_str (atr j JOB_ATR_Comment)) <$> jobs w !! 10%positive) in
  comment both_end (live_server 1 (Some ix_create)) = Some (Some (Some (lit "Job run and finished"))) /\
  comment (let* _ := both_end in run zero (Purge 11)) (live_server 1 (Some ix_create)) =
    Some (Some (Some (lit "Job run and finished and finished"))).
Proof. by vm_compute. Qed.

(** Without the index the walk compares the id as it was given, so an id without
    the server is not found. *)
Lemma partial_id_needs_index :
  let found (ctx : option (TreeIndex.t ptr)) (id : string) :=
    fst <$> (let* _ := run zero (Enqueue 10) in find_job (lit id)) (live_server 1 ctx) in
  found (Some ix_create) "7[]" = Some (Some 10%positive) /\ found None "7[]" = Some None /\
  found None "7[].srv" = Some (Some 10%positive).
Proof. by vm_compute. Qed.

(** An id of the largest length without a server is completed past the end of
    the buffer. *)
Lemma long_id_overflows : search_key (lit "srv") (replicate (Z.to_nat PBS_MAXSVRJOBID) "7"%char) = None.
Proof. by vm_compute. Qed.

End JobScenes.
