(* ===== verification/FairTree.v ===== *)
(** * The fairshare tree

    Module [Fair]: [src/scheduler/fairshare.c], the fairshare part of
    [src/scheduler/fifo.c] and [is_valid_pbs_name] of [src/scheduler/misc.c].
    A [group_info *] is an address of the heap, 0 is [NULL]; freeing an object
    deletes its address, so using a freed object is [None].  The cells of a
    [group_path] are never shared or changed: a path is a list of them, each with
    the address that [compare_path] compares.  The recursive functions get the
    size of the heap as fuel. *)

From Stdlib Require Import ZArith Lia Ascii String SpecFloat.
From stdpp Require Import gmap.
From S2P Require Import Prelude Doubles TextFile.
Import Double Float Text.

Module Fair.

(** ** Data *)

Definition NULL : Z := 0.
Definition UNSPECIFIED : Z := -1.
Definition SCHD_INFINITY : Z := -2.
Definition FS_TRIM : Z := 1.
Definition USAGE_NAME_MAX : Z := 50.
Definition USAGE_MAGIC : cstring := lit "PBS_MAG!".
Definition USAGE_VERSION : double := dbl_of_Z 2.
Definition UNKNOWN_GROUP_NAME : cstring := lit "unknown".
Definition FAIRSHARE_ROOT_NAME : cstring := lit "TREEROOT".

(** [struct group_path] *)
Record group_path := GroupPath { gp_addr : Z; gp_ginfo : Z }.

(** [struct group_info] *)
Record group_info := GroupInfo {
  name : option cstring;
  resgroup : Z; cresgroup : Z; shares : Z;
  tree_percentage : float; group_percentage : float;
  usage : double; temp_usage : double; usage_factor : float;
  gpath : list group_path;
  parent : Z; sibling : Z; child : Z }.

Definition set_name (v : cstring) (g : group_info) : group_info :=
  GroupInfo (Some v) (resgroup g) (cresgroup g) (shares g) (tree_percentage g) (group_percentage g)
    (usage g) (temp_usage g) (usage_factor g) (gpath g) (parent g) (sibling g) (child g).
Definition set_groups (r c : Z) (g : group_info) : group_info :=
  GroupInfo (name g) r c (shares g) (tree_percentage g) (group_percentage g)
    (usage g) (temp_usage g) (usage_factor g) (gpath g) (parent g) (sibling g) (child g).
Definition set_shares (v : Z) (g : group_info) : group_info :=
  GroupInfo (name g) (resgroup g) (cresgroup g) v (tree_percentage g) (group_percentage g)
    (usage g) (temp_usage g) (usage_factor g) (gpath g) (parent g) (sibling g) (child g).
Definition set_percentages (t gr : float) (g : group_info) : group_info :=
  GroupInfo (name g) (resgroup g) (cresgroup g) (shares g) t gr
    (usage g) (temp_usage g) (usage_factor g) (gpath g) (parent g) (sibling g) (child g).
Definition set_usage (v : double) (g : group_info) : group_info :=
  GroupInfo (name g) (resgroup g) (cresgroup g) (shares g) (tree_percentage g) (group_percentage g)
    v (temp_usage g) (usage_factor g) (gpath g) (parent g) (sibling g) (child g).
Definition set_temp_usage (v : double) (g : group_info) : group_info :=
  GroupInfo (name g) (resgroup g) (cresgroup g) (shares g) (tree_percentage g) (group_percentage g)
    (usage g) v (usage_factor g) (gpath g) (parent g) (sibling g) (child g).
Definition set_usage_factor (v : float) (g : group_info) : group_info :=
  GroupInfo (name g) (resgroup g) (cresgroup g) (shares g) (tree_percentage g) (group_percentage g)
    (usage g) (temp_usage g) v (gpath g) (parent g) (sibling g) (child g).
Definition set_gpath (v : list group_path) (g : group_info) : group_info :=
  GroupInfo (name g) (resgroup g) (cresgroup g) (shares g) (tree_percentage g) (group_percentage g)
    (usage g) (temp_usage g) (usage_factor g) v (parent g) (sibling g) (child g).
Definition set_parent (v : Z) (g : group_info) : group_info :=
  GroupInfo (name g) (resgroup g) (cresgroup g) (shares g) (tree_percentage g) (group_percentage g)
    (usage g) (temp_usage g) (usage_factor g) (gpath g) v (sibling g) (child g).
Definition set_sibling (v : Z) (g : group_info) : group_info :=
  GroupInfo (name g) (resgroup g) (cresgroup g) (shares g) (tree_percentage g) (group_percentage g)
    (usage g) (temp_usage g) (usage_factor g) (gpath g) (parent g) v (child g).
Definition set_child (v : Z) (g : group_info) : group_info :=
  GroupInfo (name g) (resgroup g) (cresgroup g) (shares g) (tree_percentage g) (group_percentage g)
    (usage g) (temp_usage g) (usage_factor g) (gpath g) (parent g) (sibling g) v.

(** [struct fairshare_head] *)
Record fairshare_head := FairshareHead { fh_root : Z; last_decay : Z }.

(** The heap: the objects that are allocated, and the next address *)
Record heap := Heap { cells : gmap Z group_info; brk : Z }.

Definition load (a : Z) : M heap group_info :=
  fun h => match cells h !! a with Some g => Some (g, h) | None => None end.
Definition store (a : Z) (g : group_info) : M heap unit :=
  fun h => match cells h !! a with
           | Some _ => Some (tt, Heap (<[a := g]> (cells h)) (brk h))
           | None => None
           end.
Definition upd (a : Z) (f : group_info -> group_info) : M heap unit :=
  let* g := load a in store a (f g).
Definition new_addr : M heap Z := fun h => Some (brk h, Heap (cells h) (brk h + 1)).
Definition alloc (g : group_info) : M heap Z :=
  fun h => Some (brk h, Heap (<[brk h := g]> (cells h)) (brk h + 1)).
Definition free (a : Z) : M heap unit :=
  fun h => match cells h !! a with
           | Some _ => Some (tt, Heap (delete a (cells h)) (brk h))
           | None => None
           end.

(** The fuel of a recursion over a tree *)
Definition fueled {A : Type} (f : nat -> M heap A) : M heap A := fun h => f (S (size (cells h))) h.

(** ** Building the tree *)

Definition new_group_info : M heap Z :=
  alloc (GroupInfo None UNSPECIFIED UNSPECIFIED UNSPECIFIED flt_zero flt_zero
           (dbl_of_Z 1) (dbl_of_Z 1) flt_zero [] NULL NULL NULL).

(** [create_group_path]: the path of the parent, and a new cell at its end *)
Fixpoint create_group_path_rec (fuel : nat) (ginfo : Z) : M heap (list group_path) :=
  match fuel with
  | O => crash
  | S fuel =>
      if ginfo =? NULL then ret []
      else
        let* g := load ginfo in
        let* r := create_group_path_rec fuel (parent g) in
        let* a := new_addr in
        ret (r ++ [GroupPath a ginfo])
  end.
Definition create_group_path (ginfo : Z) : M heap (list group_path) :=
  fueled (fun n => create_group_path_rec n ginfo).

Definition add_child (ginfo par : Z) : M heap unit :=
  if par =? NULL then ret tt
  else
    let* p := load par in
    let* _ := upd ginfo (set_sibling (child p)) in
    let* _ := upd par (set_child ginfo) in
    let* _ := upd ginfo (set_parent par) in
    let* p := load par in
    let* _ := upd ginfo (fun g => set_groups (cresgroup p) (cresgroup g) g) in
    let* path := create_group_path ginfo in
    upd ginfo (set_gpath path).

(** [!strcmp(name, root->name)] *)
Definition has_name (nm : cstring) (g : group_info) : M heap bool :=
  match name g with Some n => ret (streq nm n) | None => crash end.

Fixpoint find_group_info_rec (fuel : nat) (nm : option cstring) (root : Z) : M heap Z :=
  match fuel with
  | O => crash
  | S fuel =>
      if root =? NULL then ret root
      else match nm with
      | None => ret root
      | Some s =>
          let* g := load root in
          let* here := has_name s g in
          if here : bool then ret root
          else
            let* ginfo := find_group_info_rec fuel nm (sibling g) in
            if ginfo =? NULL then find_group_info_rec fuel nm (child g) else ret ginfo
      end
  end.
Definition find_group_info (nm : option cstring) (root : Z) : M heap Z :=
  fueled (fun n => find_group_info_rec n nm root).

(** ** Percentages *)

Fixpoint count_shares_loop (fuel : nat) (grp acc : Z) : M heap Z :=
  match fuel with
  | O => crash
  | S fuel =>
      if grp =? NULL then ret acc
      else let* g := load grp in count_shares_loop fuel (sibling g) (int32 (acc + shares g))
  end.
Definition count_shares (grp : Z) : M heap Z := fueled (fun n => count_shares_loop n grp 0).

(** The two percentages of a group with [cur] shares in all *)
Definition share_percentages (cur : Z) (ptree : float) (sh : Z) : float * float :=
  if flt_eqb (flt_mul (flt_of_Z cur) ptree) flt_zero then (flt_zero, flt_zero)
  else let gp := flt_div (flt_of_Z sh) (flt_of_Z cur) in (flt_mul gp ptree, gp).

Fixpoint calc_fair_share_perc_rec (fuel : nat) (root shrs : Z) : M heap Z :=
  match fuel with
  | O => crash
  | S fuel =>
      if root =? NULL then ret 0
      else
        let* cur_shares := if shrs =? UNSPECIFIED then count_shares root else ret shrs in
        let* g := load root in
        let* p := load (parent g) in
        let '(tp, gp) := share_percentages cur_shares (tree_percentage p) (shares g) in
        let* _ := upd root (set_percentages tp gp) in
        let* _ := calc_fair_share_perc_rec fuel (sibling g) cur_shares in
        let* _ := calc_fair_share_perc_rec fuel (child g) UNSPECIFIED in
        ret 1
  end.
Definition calc_fair_share_perc (root shrs : Z) : M heap Z :=
  fueled (fun n => calc_fair_share_perc_rec n root shrs).

Definition add_unknown (ginfo root : Z) : M heap unit :=
  let* unknown := find_group_info (Some UNKNOWN_GROUP_NAME) root in
  let* _ := add_child ginfo unknown in
  let* u := load unknown in
  let* _ := calc_fair_share_perc (child u) UNSPECIFIED in
  ret tt.

Definition find_alloc_ginfo (nm : option cstring) (root : Z) : M heap Z :=
  match nm with
  | None => ret NULL
  | Some s =>
      if root =? NULL then ret NULL
      else
        let* ginfo := find_group_info nm root in
        if ginfo =? NULL then
          let* ginfo := new_group_info in
          let* _ := upd ginfo (set_name s) in
          let* _ := upd ginfo (set_shares 1) in
          let* _ := add_unknown ginfo root in
          ret ginfo
        else ret ginfo
  end.

(** ** The resource group file *)

(** [conf.unknown_shares] is [unknown_shares]. *)
Definition preload_tree (unknown_shares : Z) : M heap fairshare_head :=
  let* root := new_group_info in
  let* _ := upd root (set_name FAIRSHARE_ROOT_NAME) in
  let* _ := upd root (set_groups (-1) 0) in
  let* _ := upd root (fun g => set_percentages flt_one (group_percentage g) g) in
  let* unknown := new_group_info in
  let* _ := upd unknown (set_name UNKNOWN_GROUP_NAME) in
  let* _ := upd unknown (set_shares unknown_shares) in
  let* _ := upd unknown (set_groups 0 1) in
  let* _ := upd unknown (set_parent root) in
  let* _ := add_child unknown root in
  ret (FairshareHead root 0).

(** The four words of a line that is not skipped: the entity is added unless the
    line is in error, which is only reported. *)
Definition parse_group_line (buf : cstring) (root : Z) : M heap unit :=
  let '(nametok, s) := strtok BLANKS buf in
  let '(cgrouptok, s) := strtok BLANKS s in
  let '(grouptok, s) := strtok BLANKS s in
  let '(sharestok, _) := strtok BLANKS s in
  match nametok, cgrouptok, grouptok, sharestok with
  | Some nametok, Some cgrouptok, Some grouptok, Some sharestok =>
      let* found := find_group_info (Some nametok) root in
      if negb (found =? NULL) then ret tt
      else
        let* ginfo :=
          find_group_info (Some (if streq grouptok (lit "root") then FAIRSHARE_ROOT_NAME else grouptok)) root in
        if ginfo =? NULL then ret tt
        else
          let '(shrs, endp) := strtol10 sharestok in
          if negb (is_char (deref endp) NUL) then ret tt
          else
            let '(cgroup, endp) := strtol10 cgrouptok in
            if negb (is_char (deref endp) NUL) then ret tt
            else
              let* new_ginfo := new_group_info in
              let* _ := upd new_ginfo (set_name nametok) in
              let* g := load ginfo in
              let* _ := upd new_ginfo (set_groups (cresgroup g) (int32 cgroup)) in
              let* _ := upd new_ginfo (set_shares (int32 shrs)) in
              add_child new_ginfo ginfo
  | _, _, _, _ => ret tt
  end.

Fixpoint parse_group_loop (fuel : nat) (fp : list ascii) (root : Z) : M heap Z :=
  match fuel with
  | O => crash
  | S fuel =>
      match fgets 256 fp with
      | None => ret 1
      | Some (buf, fp) =>
          match chop_newline buf with
          | None => crash
          | Some buf =>
              if skip_line buf then parse_group_loop fuel fp root
              else let* _ := parse_group_line buf root in parse_group_loop fuel fp root
          end
      end
  end.

(** [None] is a file that cannot be opened. *)
Definition parse_group (file : option (list ascii)) (root : Z) : M heap Z :=
  match file with
  | None => ret 0
  | Some fp => parse_group_loop (S (length fp)) fp root
  end.

(** ** Usage *)

(** The loops that add [u] along a path *)
Fixpoint add_temp_usage (u : double) (gp : list group_path) : M heap unit :=
  match gp with
  | [] => ret tt
  | c :: gp =>
      let* _ := upd (gp_ginfo c) (fun g => set_temp_usage (dbl_add (temp_usage g) u) g) in
      add_temp_usage u gp
  end.
Fixpoint add_usage (u : double) (gp : list group_path) : M heap unit :=
  match gp with
  | [] => ret tt
  | c :: gp =>
      let* _ := upd (gp_ginfo c) (fun g => set_usage (dbl_add (usage g) u) g) in
      add_usage u gp
  end.

(** A [resource_resv]: whether it is a job, and the [ginfo] of its job if it has
    one; [u] is the value of [formula_evaluate]. *)
Record fs_resv := FsResv { is_job : bool; job_ginfo : option Z }.
Definition update_usage_on_run (u : double) (resresv : option fs_resv) : M heap unit :=
  match resresv with
  | None => ret tt
  | Some r =>
      match is_job r, job_ginfo r with
      | true, Some ginfo =>
          if ginfo =? NULL then ret tt
          else let* g := load ginfo in add_temp_usage u (gpath g)
      | _, _ => ret tt
      end
  end.

(** The usage since the last cycle of one job that was running then:
    [used] and [used_then] are the values of [formula_evaluate]. *)
Definition accrue_last_running (entity_name : option cstring) (used used_then : double)
    (fhead : fairshare_head) : M heap unit :=
  let* user := find_alloc_ginfo entity_name (fh_root fhead) in
  if user =? NULL then ret tt
  else
    let delta := dbl_sub used used_then in
    let delta := if dbl_leb (dbl_of_Z 0) delta then delta else dbl_of_Z 0 in
    let* g := load user in
    add_usage delta (gpath g).

(** [root->usage *= conf.fairshare_decay_factor] and no usage of 0 *)
Definition decayed (factor : float) (u : double) : double :=
  let u := dbl_mul u (dbl_of_flt factor) in
  if dbl_eqb u (dbl_of_Z 0) then dbl_of_Z 1 else u.

Fixpoint decay_fairshare_tree_rec (fuel : nat) (factor : float) (root : Z) : M heap unit :=
  match fuel with
  | O => crash
  | S fuel =>
      if root =? NULL then ret tt
      else
        let* g := load root in
        let* _ := decay_fairshare_tree_rec fuel factor (sibling g) in
        let* g := load root in
        let* _ := decay_fairshare_tree_rec fuel factor (child g) in
        upd root (fun g => set_usage (decayed factor (usage g)) g)
  end.
Definition decay_fairshare_tree (factor : float) (root : Z) : M heap unit :=
  fueled (fun n => decay_fairshare_tree_rec n factor root).

(** The decays of a cycle of [init_scheduling_cycle]: [t] goes back one
    [decay_time] for each. *)
Fixpoint decay_loop (fuel : nat) (factor : float) (decay_time t : Z) (fhead : fairshare_head)
    (decayed : bool) : M heap bool :=
  match fuel with
  | O => crash
  | S fuel =>
      if negb (decay_time =? SCHD_INFINITY) && (decay_time <? int64 (t - last_decay fhead)) then
        let* _ := decay_fairshare_tree factor (fh_root fhead) in
        decay_loop fuel factor decay_time (int64 (t - decay_time)) fhead true
      else ret decayed
  end.

Definition decay_fuel (decay_time current_time : Z) (fhead : fairshare_head) : nat :=
  S (Z.to_nat ((current_time - last_decay fhead) / decay_time)).

(** [%] of C is [Z.rem]. *)
Definition decay_cycle (factor : float) (decay_time current_time : Z) (fhead : fairshare_head) :
    M heap fairshare_head :=
  let* d := decay_loop (decay_fuel decay_time current_time fhead) factor decay_time current_time
              fhead false in
  ret (if d : bool
       then FairshareHead (fh_root fhead)
              (int64 (current_time - Z.rem (int64 (current_time - last_decay fhead)) decay_time))
       else fhead).

Fixpoint reset_temp_usage_rec (fuel : nat) (head : Z) : M heap unit :=
  match fuel with
  | O => crash
  | S fuel =>
      if head =? NULL then ret tt
      else
        let* _ := upd head (fun g => set_temp_usage (usage g) g) in
        let* g := load head in
        let* _ := reset_temp_usage_rec fuel (sibling g) in
        let* g := load head in
        reset_temp_usage_rec fuel (child g)
  end.
Definition reset_temp_usage (head : Z) : M heap unit := fueled (fun n => reset_temp_usage_rec n head).

Fixpoint reset_usage_rec (fuel : nat) (node : Z) : M heap unit :=
  match fuel with
  | O => crash
  | S fuel =>
      if node =? NULL then ret tt
      else
        let* g := load node in
        let* _ := reset_usage_rec fuel (sibling g) in
        let* g := load node in
        let* _ := reset_usage_rec fuel (child g) in
        let* _ := upd node (set_usage (dbl_of_Z 1)) in
        upd node (set_temp_usage (dbl_of_Z 1))
  end.
Definition reset_usage (node : Z) : M heap unit := fueled (fun n => reset_usage_rec n node).

(** [usage + ((ginfo->parent->usage_factor - usage) * ginfo->group_percentage)],
    with [usage] the quotient of the usages as a float *)
Definition usage_of (u root_usage : double) : float := flt_of_dbl (dbl_div u root_usage).
Definition factor_of (u root_usage : double) (parent_factor perc : float) : float :=
  let us := usage_of u root_usage in
  flt_add us (flt_mul (flt_sub parent_factor us) perc).

Fixpoint calc_usage_factor_rec (fuel : nat) (root ginfo : Z) : M heap unit :=
  match fuel with
  | O => crash
  | S fuel =>
      if (root =? NULL) || (ginfo =? NULL) then ret tt
      else
        let* r := load root in
        let* g := load ginfo in
        let* p := load (parent g) in
        let* _ := upd ginfo (set_usage_factor
                    (factor_of (usage g) (usage r) (usage_factor p) (group_percentage g))) in
        let* _ := calc_usage_factor_rec fuel root (sibling g) in
        calc_usage_factor_rec fuel root (child g)
  end.

(** The loop over the children of the root *)
Fixpoint calc_usage_factor_loop (fuel : nat) (root ginfo : Z) : M heap unit :=
  match fuel with
  | O => crash
  | S fuel =>
      if ginfo =? NULL then ret tt
      else
        let* g := load ginfo in
        let* r := load root in
        let* _ := upd ginfo (set_usage_factor (usage_of (usage g) (usage r))) in
        let* _ := fueled (fun n => calc_usage_factor_rec n root (child g)) in
        let* g := load ginfo in
        calc_usage_factor_loop fuel root (sibling g)
  end.
Definition calc_usage_factor (tree : option fairshare_head) : M heap unit :=
  match tree with
  | None => ret tt
  | Some t =>
      let* r := load (fh_root t) in
      fueled (fun n => calc_usage_factor_loop n (fh_root t) (child r))
  end.

Definition over_fs_usage (ginfo : Z) : M heap bool :=
  let* g := load ginfo in
  match gpath g with
  | [] => crash
  | c :: _ =>
      let* r := load (gp_ginfo c) in
      ret (dbl_ltb (dbl_mul (usage r) (dbl_of_flt (tree_percentage g))) (usage g))
  end.

(** [temp_usage / tree_percentage] *)
Definition deserved (g : group_info) : double :=
  dbl_div (temp_usage g) (dbl_of_flt (tree_percentage g)).

Definition positive_share (g : group_info) : bool := flt_ltb flt_zero (tree_percentage g).
Definition no_share (g : group_info) : bool := flt_leb (tree_percentage g) flt_zero.

(** The loop of [compare_path] *)
Fixpoint compare_loop (gp1 gp2 : list group_path) : M heap Z :=
  match gp1, gp2 with
  | cur1 :: gp1, cur2 :: gp2 =>
      if gp_addr cur1 =? gp_addr cur2 then compare_loop gp1 gp2
      else
        let* g1 := load (gp_ginfo cur1) in
        let* g2 := load (gp_ginfo cur2) in
        if no_share g1 && positive_share g2 then ret 1
        else if positive_share g1 && no_share g2 then ret (-1)
        else if no_share g1 && no_share g2 then ret 0
        else if dbl_ltb (deserved g1) (deserved g2) then ret (-1)
        else if dbl_ltb (deserved g2) (deserved g1) then ret 1
        else compare_loop gp1 gp2
  | _, _ => ret 0
  end.
Definition compare_path (gp1 gp2 : list group_path) : M heap Z :=
  match gp1, gp2 with
  | [], [] => ret 0
  | _ :: _, [] => ret (-1)
  | [], _ :: _ => ret 1
  | _, _ => compare_loop gp1 gp2
  end.

(** ** Copies *)

Fixpoint dup_fairshare_tree_rec (fuel : nat) (root nparent : Z) : M heap Z :=
  match fuel with
  | O => crash
  | S fuel =>
      if root =? NULL then ret NULL
      else
        let* nroot := new_group_info in
        let* g := load root in
        let* _ := upd nroot (set_groups (resgroup g) (cresgroup g)) in
        let* _ := upd nroot (set_shares (shares g)) in
        let* _ := upd nroot (set_percentages (tree_percentage g) (group_percentage g)) in
        let* _ := upd nroot (set_usage (usage g)) in
        let* _ := upd nroot (set_usage_factor (usage_factor g)) in
        let* _ := upd nroot (set_temp_usage (temp_usage g)) in
        match name g with
        | None => let* _ := free nroot in ret NULL
        | Some n =>
            let* _ := upd nroot (set_name n) in
            let* _ := add_child nroot nparent in
            let* s := dup_fairshare_tree_rec fuel (sibling g) nparent in
            let* _ := upd nroot (set_sibling s) in
            let* c := dup_fairshare_tree_rec fuel (child g) nroot in
            let* _ := upd nroot (set_child c) in
            ret nroot
        end
  end.
Definition dup_fairshare_tree (root nparent : Z) : M heap Z :=
  fueled (fun n => dup_fairshare_tree_rec n root nparent).

Fixpoint free_fairshare_tree_rec (fuel : nat) (root : Z) : M heap unit :=
  match fuel with
  | O => crash
  | S fuel =>
      if root =? NULL then ret tt
      else
        let* g := load root in
        let* _ := free_fairshare_tree_rec fuel (sibling g) in
        let* g := load root in
        let* _ := free_fairshare_tree_rec fuel (child g) in
        free root
  end.
Definition free_fairshare_tree (root : Z) : M heap unit := fueled (fun n => free_fairshare_tree_rec n root).

(** The head itself is a value of the model. *)
Definition dup_fairshare_head (ofhead : option fairshare_head) : M heap (option fairshare_head) :=
  match ofhead with
  | None => ret None
  | Some o =>
      let* r := dup_fairshare_tree (fh_root o) NULL in
      ret (if r =? NULL then None else Some (FairshareHead r (last_decay o)))
  end.

(** ** The usage file

    A file is the structures written to it: [group_node_header] and
    [group_node_usage_v1] are both 9 characters and a double. *)
Inductive file_record :=
  | Rec9 (nm : list ascii) (u : double)
  | RecTime (t : Z)
  | Rec50 (nm : list ascii) (u : double).

Definition isalpha (c : ascii) : bool :=
  ((65 <=? code c) && (code c <=? 90)) || ((97 <=? code c) && (code c <=? 122)).

Definition name_char (c : ascii) : bool :=
  isalpha c || isdigit c || is_char c "."%char || is_char c "-"%char || is_char c "_"%char
  || is_char c " "%char || is_char c ":"%char.

(** [is_valid_pbs_name(str, len)] with [len >= 0]; [None] is a read past the
    array. *)
Fixpoint is_valid_pbs_name (len : nat) (str : list ascii) : option bool :=
  match len with
  | O => Some false
  | S len =>
      match str with
      | [] => None
      | c :: str =>
          if is_char c NUL then Some true
          else if name_char c then is_valid_pbs_name len str else Some false
      end
  end.

(** [strncpy(dst, src, n)] *)
Definition strncpy (src : cstring) (n : Z) : list ascii :=
  take (Z.to_nat n) src ++ replicate (Z.to_nat n - length src) NUL.

Fixpoint rec_write_usage_rec (fuel : nat) (root : Z) : M heap (list file_record) :=
  match fuel with
  | O => crash
  | S fuel =>
      if root =? NULL then ret []
      else
        let* g := load root in
        match name g with
        | None => crash
        | Some n =>
            let out := if negb (dbl_eqb (usage g) (dbl_of_Z 1)) && (child g =? NULL)
                          && negb (streq n UNKNOWN_GROUP_NAME)
                       then [Rec50 (strncpy n USAGE_NAME_MAX) (usage g)] else [] in
            let* s := rec_write_usage_rec fuel (sibling g) in
            let* c := rec_write_usage_rec fuel (child g) in
            ret (out ++ s ++ c)
        end
  end.
Definition rec_write_usage (root : Z) : M heap (list file_record) :=
  fueled (fun n => rec_write_usage_rec n root).

Definition write_usage (fhead : fairshare_head) : M heap (list file_record) :=
  let* out := rec_write_usage (fh_root fhead) in
  ret ([Rec9 (USAGE_MAGIC ++ [NUL]) USAGE_VERSION; RecTime (last_decay fhead)] ++ out).

(** [while (gpath->next != NULL)]: the usage goes to all but the last *)
Fixpoint add_usage_above (u : double) (gp : list group_path) : M heap unit :=
  match gp with
  | [] => crash
  | [_] => ret tt
  | c :: gp =>
      let* _ := upd (gp_ginfo c) (fun g => set_usage (dbl_add (usage g) u) g) in
      let* _ := upd (gp_ginfo c) (fun g => set_temp_usage (dbl_add (temp_usage g) u) g) in
      add_usage_above u gp
  end.

Definition load_usage (ginfo : Z) (u : double) : M heap unit :=
  if ginfo =? NULL then ret tt
  else
    let* _ := upd ginfo (set_usage u) in
    let* _ := upd ginfo (set_temp_usage u) in
    let* g := load ginfo in
    if child g =? NULL then add_usage_above u (gpath g) else ret tt.

Definition valid_entity (nm : list ascii) (u : double) : option bool :=
  if dbl_leb (dbl_of_Z 0) u then is_valid_pbs_name (Z.to_nat USAGE_NAME_MAX) nm else Some false.

Fixpoint read_usage_v1 (fp : list file_record) (root : Z) : M heap Z :=
  match fp with
  | [] => ret 1
  | Rec9 nm u :: fp =>
      match valid_entity nm u with
      | None => crash
      | Some false => read_usage_v1 fp root
      | Some true =>
          let* ginfo := find_alloc_ginfo (Some (cstr nm)) root in
          let* _ := load_usage ginfo u in
          read_usage_v1 fp root
      end
  | _ => crash
  end.

Fixpoint read_usage_v2 (fp : list file_record) (flags root : Z) : M heap Z :=
  match fp with
  | [] => ret 1
  | Rec50 nm u :: fp =>
      match valid_entity nm u with
      | None => crash
      | Some false => read_usage_v2 fp flags root
      | Some true =>
          let* ginfo := if negb (Z.land flags FS_TRIM =? 0)
                        then find_group_info (Some (cstr nm)) root
                        else find_alloc_ginfo (Some (cstr nm)) root in
          let* _ := load_usage ginfo u in
          read_usage_v2 fp flags root
      end
  | _ => crash
  end.

(** The file after its header: the time of the last decay, then the entities *)
Definition read_body (fp : list file_record) (flags : Z) (fhead : fairshare_head) : M heap fairshare_head :=
  match fp with
  | [] => let* _ := read_usage_v2 [] flags (fh_root fhead) in ret fhead
  | RecTime last :: fp =>
      if (last =? 0) || (946713600 <? last)
      then let* _ := read_usage_v2 fp flags (fh_root fhead) in ret (FairshareHead (fh_root fhead) last)
      else ret fhead
  | _ => crash
  end.

(** [None] is a file that cannot be opened. *)
Definition read_usage (file : option (list file_record)) (flags : Z) (fhead : fairshare_head) :
    M heap fairshare_head :=
  if fh_root fhead =? NULL then ret fhead
  else
    match file with
    | None => ret fhead
    | Some fp =>
        match fp with
        | [] => ret fhead
        | Rec9 tag version :: rest =>
            if streq (cstr tag) USAGE_MAGIC then
              if dbl_eqb version (dbl_of_Z 2) then read_body rest flags fhead else ret fhead
            else let* _ := read_usage_v1 fp (fh_root fhead) in ret fhead
        | _ => crash
        end
    end.

End Fair.
