(* ===== verification/FairShape.v ===== *)
(** * The shape of the fairshare tree

    Module [FairShape]: a first-child, next-sibling tree in the heap of
    [FairTree] related to an inductive tree; the recursions of
    [src/scheduler/fairshare.c] refine recursions on the inductive tree. *)

From Stdlib Require Import ZArith Lia Ascii String SpecFloat.
From stdpp Require Import gmap.
From S2P Require Import Prelude Doubles TextFile FairTree.
Import Double Float Text Fair.

Module FairShape.

(** ** Trees *)

Inductive tree := Leaf | Node (a : Z) (g : group_info) (ch sib : tree).
Implicit Types (t : tree) (m : gmap Z group_info) (g : group_info).

(** The groups in the order [find_group_info] looks at them *)
Fixpoint nodes t : list (Z * group_info) :=
  match t with Leaf => [] | Node a g ch sib => (a, g) :: nodes sib ++ nodes ch end.
Definition addrs t : list Z := (nodes t).*1.
Definition root_of t : Z := match t with Leaf => NULL | Node a _ _ _ => a end.

Fixpoint put t m : gmap Z group_info :=
  match t with Leaf => m | Node a g ch sib => <[a := g]> (put ch (put sib m)) end.
Fixpoint tmap (f : group_info -> group_info) t : tree :=
  match t with Leaf => Leaf | Node a g ch sib => Node a (f g) (tmap f ch) (tmap f sib) end.

Definition stored m t : Prop := Forall (fun n => m !! n.1 = Some n.2) (nodes t).

(** The pointers [child] and [sibling] follow the tree. *)
Fixpoint linked t : Prop :=
  match t with
  | Leaf => True
  | Node a g ch sib =>
      a <> NULL /\ child g = root_of ch /\ sibling g = root_of sib /\ linked ch /\ linked sib
  end.

(** The groups of a level have the parent [par] and a path that goes on from its. *)
Fixpoint placed (par : Z) (path : list Z) t : Prop :=
  match t with
  | Leaf => True
  | Node a g ch sib =>
      parent g = par /\ gp_ginfo <$> gpath g = path ++ [a] /\ placed a (path ++ [a]) ch /\ placed par path sib
  end.

Lemma addrs_node (a : Z) g (ch sib : tree) : addrs (Node a g ch sib) = a :: addrs sib ++ addrs ch.
Proof. unfold addrs. cbn. by rewrite fmap_app. Qed.

Lemma NoDup_node (a : Z) g (ch sib : tree) :
  NoDup (addrs (Node a g ch sib)) <->
  (a ∉ addrs ch) /\ (a ∉ addrs sib) /\ (forall x, x ∈ addrs ch -> x ∉ addrs sib) /\
  NoDup (addrs ch) /\ NoDup (addrs sib).
Proof. rewrite addrs_node, NoDup_cons, NoDup_app. set_solver. Qed.

Lemma stored_node m (a : Z) g (ch sib : tree) :
  stored m (Node a g ch sib) <-> m !! a = Some g /\ stored m ch /\ stored m sib.
Proof. unfold stored. cbn. rewrite Forall_cons, Forall_app. cbn. tauto. Qed.

Lemma addrs_tmap f t : addrs (tmap f t) = addrs t.
Proof. induction t as [|a g ch IH1 sib IH2]; [done|]. cbn [tmap]. by rewrite !addrs_node, IH1, IH2. Qed.

Lemma elem_addrs (a : Z) g t : (a, g) ∈ nodes t -> a ∈ addrs t.
Proof. intros H. apply list_elem_of_fmap. by exists (a, g). Qed.

Lemma put_other t : forall m (a : Z), a ∉ addrs t -> put t m !! a = m !! a.
Proof.
  induction t as [|b g ch IH1 sib IH2]; intros m a; [done|]. rewrite addrs_node. intros H. cbn.
  rewrite lookup_insert_ne, IH1, IH2 by set_solver. done.
Qed.

Lemma put_insert t : forall m (a : Z) g, a ∉ addrs t -> put t (<[a := g]> m) = <[a := g]> (put t m).
Proof.
  induction t as [|b g' ch IH1 sib IH2]; intros m a g; [done|]. rewrite addrs_node. intros H. cbn.
  rewrite IH2, IH1 by set_solver. apply insert_insert_ne. set_solver.
Qed.

Lemma stored_frame m m' t : (forall a, a ∈ addrs t -> m' !! a = m !! a) -> stored m t -> stored m' t.
Proof.
  unfold stored. intros He H. rewrite Forall_forall in *. intros [a g] Hin. rewrite He by (by eapply elem_addrs).
  by apply H.
Qed.

Lemma stored_insert m t (a : Z) g : a ∉ addrs t -> stored m t -> stored (<[a := g]> m) t.
Proof. intros Ha. apply stored_frame. intros x Hx. rewrite lookup_insert_ne; [done|]. by intros ->. Qed.

Lemma stored_put_other m t t' : (forall a, a ∈ addrs t -> a ∉ addrs t') -> stored m t -> stored (put t' m) t.
Proof. intros Hd. apply stored_frame. intros. by rewrite put_other by auto. Qed.

Lemma stored_put t : forall m, NoDup (addrs t) -> stored (put t m) t.
Proof.
  induction t as [|a g ch IH1 sib IH2]; intros m; [by constructor|].
  rewrite NoDup_node. intros (H1 & H2 & H3 & H4 & H5). cbn. rewrite stored_node. split_and!.
  - apply lookup_insert_eq.
  - apply stored_insert; [done|]. auto.
  - apply stored_insert; [done|]. apply stored_put_other; [|auto]. set_solver.
Qed.

Lemma put_stored t : forall m, stored m t -> put t m = m.
Proof.
  induction t as [|a g ch IH1 sib IH2]; intros m; [done|]. rewrite stored_node. intros (H & H1 & H2). cbn.
  rewrite IH2, IH1 by done. by apply insert_id.
Qed.

Lemma put_put t t' : forall m, addrs t = addrs t' -> NoDup (addrs t) -> put t' (put t m) = put t' m.
Proof.
  intros m He Hnd. apply map_eq. intros a.
  destruct (decide (a ∈ addrs t)) as [Hin|Hout].
  - rewrite He in Hin. apply list_elem_of_fmap in Hin as ([x g] & -> & Hin).
    assert (forall m', put t' m' !! x = Some g) as Hall; [|by cbn; rewrite !Hall].
    intros m'. pose proof (stored_put t' m' ltac:(by rewrite <-He)) as Hs.
    unfold stored in Hs. rewrite Forall_forall in Hs. by apply (Hs (x, g)).
  - by rewrite !put_other by (done || by rewrite <-He).
Qed.

Lemma put_comm t t' : forall m,
  (forall x, x ∈ addrs t -> x ∉ addrs t') -> put t (put t' m) = put t' (put t m).
Proof.
  induction t as [|a g ch IH1 sib IH2]; intros m Hd; [done|]. setoid_rewrite addrs_node in Hd. cbn.
  rewrite IH2, IH1, put_insert; [done|..]; set_solver.
Qed.

(** ** The heap is large enough as fuel *)

Lemma dom_size m (l : list Z) : NoDup l -> (forall a, a ∈ l -> is_Some (m !! a)) -> (length l <= size m)%nat.
Proof.
  intros Hnd Hin. rewrite <-size_dom. rewrite <-(size_list_to_set (C := gset Z) l) by done.
  apply subseteq_size. intros x. rewrite elem_of_list_to_set, elem_of_dom. apply Hin.
Qed.

Lemma stored_lookup m t (a : Z) g : stored m t -> (a, g) ∈ nodes t -> m !! a = Some g.
Proof. unfold stored. rewrite Forall_forall. intros H Hin. by apply (H (a, g)). Qed.

Lemma stored_dom m t (a : Z) : stored m t -> a ∈ addrs t -> is_Some (m !! a).
Proof.
  intros H ([x g] & -> & Hin)%list_elem_of_fmap. exists g. by apply (stored_lookup m t).
Qed.

Lemma tree_size m t : stored m t -> NoDup (addrs t) -> (length (nodes t) <= size m)%nat.
Proof.
  intros Hs Hnd. rewrite <-(length_fmap fst (nodes t)). apply dom_size; [done|].
  intros a. by apply stored_dom.
Qed.

Lemma length_node (a : Z) g (ch sib : tree) :
  length (nodes (Node a g ch sib)) = S (length (nodes sib) + length (nodes ch)).
Proof. cbn. by rewrite length_app. Qed.

Lemma load_ok m (b a : Z) g : m !! a = Some g -> load a (Heap m b) = Some (g, Heap m b).
Proof. unfold load. cbn. by intros ->. Qed.

Lemma upd_ok m (b a : Z) g f : m !! a = Some g -> upd a f (Heap m b) = Some (tt, Heap (<[a := f g]> m) b).
Proof. intros H. unfold upd, bind. rewrite (load_ok _ _ _ g) by done. unfold store. cbn. by rewrite H. Qed.

(** [root == NULL] on a tree *)
Lemma not_null (a : Z) : a <> NULL -> (a =? NULL) = false.
Proof. apply Z.eqb_neq. Qed.

(** ** Walks over the tree *)

(** A tree the recursions can walk: its pointers, its cells and no cell twice *)
Record held m t : Prop := {
  held_linked : linked t;
  held_stored : stored m t;
  held_nodup : NoDup (addrs t) }.

Lemma held_node m (a : Z) g (ch sib : tree) :
  held m (Node a g ch sib) ->
  (a =? NULL) = false /\ m !! a = Some g /\ child g = root_of ch /\ sibling g = root_of sib /\
  held m ch /\ held m sib /\ (a ∉ addrs ch) /\ (a ∉ addrs sib) /\ (forall x, x ∈ addrs ch -> x ∉ addrs sib).
Proof.
  intros [(Ha & Hc & Hsb & Hl1 & Hl2) (Hm & Hs1 & Hs2)%stored_node (H1 & H2 & H3 & H4 & H5)%NoDup_node].
  split_and!; try done. by apply not_null.
Qed.

Lemma held_put m t t' : (forall x, x ∈ addrs t -> x ∉ addrs t') -> held m t -> held (put t' m) t.
Proof. intros Hd [H1 H2 H3]. split; [done|by apply stored_put_other|done]. Qed.

Lemma held_insert m t (a : Z) g : a ∉ addrs t -> held m t -> held (<[a := g]> m) t.
Proof. intros Hd [H1 H2 H3]. split; [done|by apply stored_insert|done]. Qed.

Lemma held_size m t : held m t -> (length (nodes t) <= size m)%nat.
Proof. intros [_ H1 H2]. by apply tree_size. Qed.

(** A walk that starts at the root of a held tree has enough fuel. *)
Lemma fueled_held {A : Type} (f : nat -> M heap A) m (b : Z) t (r : option (A * heap)) :
  held m t -> (forall n, (length (nodes t) < n)%nat -> f n (Heap m b) = r) -> fueled f (Heap m b) = r.
Proof. intros Hh Hf. unfold fueled. cbn. apply Hf. pose proof (held_size m t Hh). lia. Qed.

(** [node H n]: one level of a walk over the tree [Node a g ch sib] held by [H] *)
Ltac node H n :=
  let Hn := fresh "Hn" in let Hm := fresh "Hm" in let Hc := fresh "Hc" in let Hs := fresh "Hs" in
  let Hh1 := fresh "Hch" in let Hh2 := fresh "Hsib" in
  let H1 := fresh "Hach" in let H2 := fresh "Hasib" in let H3 := fresh "Hdis" in
  destruct (held_node _ _ _ _ _ H) as (Hn & Hm & Hc & Hs & Hh1 & Hh2 & H1 & H2 & H3);
  destruct n as [|n]; [cbn in *; lia|].

Create HintDb fair.
#[local] Hint Extern 1 (_ ∉ addrs _) => rewrite ?addrs_tmap; set_solver : fair.
#[local] Hint Extern 1 (held (put _ _) _) => apply held_put; [rewrite ?addrs_tmap; set_solver|done] : fair.

Definition decay_node (factor : float) g : group_info := set_usage (decayed factor (usage g)) g.

Lemma decay_rec (factor : float) t : forall n m b,
  held m t -> (length (nodes t) < n)%nat ->
  decay_fairshare_tree_rec n factor (root_of t) (Heap m b)
  = Some (tt, Heap (put (tmap (decay_node factor) t) m) b).
Proof.
  induction t as [|a g ch IH1 sib IH2]; intros n m b H Hf; [by destruct n; [cbn in Hf; lia|]|].
  node H n. rewrite length_node in Hf. cbn [decay_fairshare_tree_rec root_of]. rewrite Hn.
  mstep (load_ok m b a g Hm). rewrite Hs. mstep (IH2 n m b Hsib ltac:(lia)).
  set (m1 := put (tmap (decay_node factor) sib) m).
  assert (m1 !! a = Some g) as Hm1 by (unfold m1; rewrite put_other; auto with fair).
  assert (held m1 ch) as Hch1 by (unfold m1; auto with fair).
  mstep (load_ok m1 b a g Hm1). rewrite Hc. mstep (IH1 n m1 b Hch1 ltac:(lia)).
  erewrite upd_ok; [done|]. rewrite put_other; auto with fair.
Qed.

Lemma decay_tree (factor : float) t m b :
  held m t -> decay_fairshare_tree factor (root_of t) (Heap m b)
              = Some (tt, Heap (put (tmap (decay_node factor) t) m) b).
Proof. intros H. apply (fueled_held _ m b t); [done|]. intros n Hn. by apply decay_rec. Qed.

Definition reset_node g : group_info := set_temp_usage (dbl_of_Z 1) (set_usage (dbl_of_Z 1) g).

Lemma reset_usage_tree t m b :
  held m t -> reset_usage (root_of t) (Heap m b) = Some (tt, Heap (put (tmap reset_node t) m) b).
Proof.
  intros H. apply (fueled_held _ m b t); [done|]. intros n. revert n m b H.
  induction t as [|a g ch IH1 sib IH2]; intros n m b H Hf; [by destruct n; [cbn in Hf; lia|]|].
  node H n. rewrite length_node in Hf. cbn [reset_usage_rec root_of]. rewrite Hn.
  mstep (load_ok m b a g Hm). rewrite Hs. mstep (IH2 n m b Hsib ltac:(lia)).
  set (m1 := put (tmap reset_node sib) m).
  assert (m1 !! a = Some g) as Hm1 by (unfold m1; rewrite put_other; auto with fair).
  assert (held m1 ch) as Hch1 by (unfold m1; auto with fair).
  mstep (load_ok m1 b a g Hm1). rewrite Hc. mstep (IH1 n m1 b Hch1 ltac:(lia)).
  erewrite bind_eq by (apply upd_ok; rewrite put_other by auto with fair; exact Hm1).
  erewrite upd_ok by apply lookup_insert_eq. cbn. by rewrite insert_insert_eq.
Qed.

Definition temp_node g : group_info := set_temp_usage (usage g) g.

Lemma reset_temp_usage_tree t m b :
  held m t -> reset_temp_usage (root_of t) (Heap m b) = Some (tt, Heap (put (tmap temp_node t) m) b).
Proof.
  intros H. apply (fueled_held _ m b t); [done|]. intros n. revert n m b H.
  induction t as [|a g ch IH1 sib IH2]; intros n m b H Hf; [by destruct n; [cbn in Hf; lia|]|].
  node H n. rewrite length_node in Hf. cbn [reset_temp_usage_rec root_of]. rewrite Hn.
  mstep (upd_ok m b a g (fun g => set_temp_usage (usage g) g) Hm). fold (temp_node g).
  mstep (load_ok (<[a := temp_node g]> m) b a _ (lookup_insert_eq _ _ _)).
  change (sibling (temp_node g)) with (sibling g). rewrite Hs.
  mstep (IH2 n _ b (held_insert m sib a (temp_node g) Hasib Hsib) ltac:(lia)).
  rewrite put_insert by auto with fair. 
  set (m1 := put (tmap temp_node sib) m). assert (held m1 ch) as Hch1 by (unfold m1; auto with fair).
  mstep (load_ok (<[a := temp_node g]> m1) b a _ (lookup_insert_eq _ _ _)).
  change (child (temp_node g)) with (child g). rewrite Hc.
  rewrite (IH1 n _ b (held_insert m1 ch a (temp_node g) Hach Hch1) ltac:(lia)).
  cbn. by rewrite put_insert by auto with fair.
Qed.

(** ** Finding a group *)

Definition named (s : cstring) (n : Z * group_info) : bool := bool_decide (name n.2 = Some s).
Definition tfind (s : cstring) t : Z :=
  match List.find (named s) (nodes t) with Some n => n.1 | None => NULL end.
Definition all_named t : Prop := Forall (fun n => is_Some (name n.2)) (nodes t).

Lemma find_app {A : Type} (f : A -> bool) (l1 l2 : list A) :
  List.find f (l1 ++ l2) = match List.find f l1 with Some x => Some x | None => List.find f l2 end.
Proof. induction l1 as [|x l1 IH]; cbn; [done|]. by destruct (f x). Qed.

Lemma all_named_node (a : Z) g (ch sib : tree) :
  all_named (Node a g ch sib) <-> is_Some (name g) /\ all_named ch /\ all_named sib.
Proof. unfold all_named. cbn. rewrite Forall_cons, Forall_app. cbn. tauto. Qed.

Lemma linked_addr t (n : Z * group_info) : linked t -> n ∈ nodes t -> n.1 <> NULL.
Proof.
  induction t as [|a g ch IH1 sib IH2]; [set_solver|]. cbn. intros (Ha & _ & _ & H1 & H2).
  rewrite elem_of_cons, elem_of_app. intros [->|[|]]; auto.
Qed.

Lemma find_group_tree (s : cstring) t m b :
  held m t -> all_named t -> find_group_info (Some s) (root_of t) (Heap m b) = Some (tfind s t, Heap m b).
Proof.
  intros H Hnm. apply (fueled_held _ m b t); [done|]. intros n. revert n H Hnm.
  induction t as [|a g ch IH1 sib IH2]; intros n H Hnm Hf; [by destruct n; [cbn in Hf; lia|]|].
  node H n. rewrite length_node in Hf. apply all_named_node in Hnm as ([s' Hs'] & Hnm1 & Hnm2).
  cbn [find_group_info_rec root_of]. rewrite Hn. mstep (load_ok m b a g Hm). unfold has_name. rewrite Hs'. msimp.
  unfold tfind. cbn [nodes List.find]. unfold named at 1. cbn [snd]. rewrite Hs'. unfold streq.
  destruct (decide (s = s')) as [->|Hne]; [by rewrite !bool_decide_true|].
  rewrite !bool_decide_false by congruence. rewrite Hs. mstep (IH2 n Hsib Hnm2 ltac:(lia)). rewrite find_app.
  destruct (List.find (named s) (nodes sib)) as [x|] eqn:E.
  - assert (tfind s sib = x.1) as -> by (unfold tfind; by rewrite E). rewrite not_null; [done|].
    apply (linked_addr sib); [apply Hsib|]. apply list_elem_of_In. by apply (List.find_some _ _ E).
  - assert (tfind s sib = NULL) as -> by (unfold tfind; by rewrite E). cbn.
    rewrite Hc, (IH1 n Hch Hnm1 ltac:(lia)). done.
Qed.

(** ** Percentages *)

Fixpoint level_shares (acc : Z) t : Z :=
  match t with Leaf => acc | Node _ g _ sib => level_shares (int32 (acc + shares g)) sib end.

Lemma count_shares_tree t m b :
  held m t -> count_shares (root_of t) (Heap m b) = Some (level_shares 0 t, Heap m b).
Proof.
  intros H. apply (fueled_held _ m b t); [done|]. intros n. revert n H. generalize 0 as acc.
  induction t as [|a g ch IH1 sib IH2]; intros acc n H Hf; [by destruct n; [cbn in Hf; lia|]|].
  node H n. rewrite length_node in Hf. cbn [count_shares_loop root_of]. rewrite Hn.
  mstep (load_ok m b a g Hm). rewrite Hs. apply IH2; [done|lia].
Qed.

Definition perc_node (cur : Z) (ptree : float) g : group_info :=
  let '(tp, gp) := share_percentages cur ptree (shares g) in set_percentages tp gp g.

(** The percentages of a level below a group with the percentage [ptree] *)
Fixpoint perc_tree (ptree : float) (shrs : Z) t : tree :=
  match t with
  | Leaf => Leaf
  | Node a g ch sib =>
      let cur := if shrs =? UNSPECIFIED then level_shares 0 t else shrs in
      let g' := perc_node cur ptree g in
      Node a g' (perc_tree (tree_percentage g') UNSPECIFIED ch) (perc_tree ptree cur sib)
  end.

Lemma addrs_perc t : forall ptree shrs, addrs (perc_tree ptree shrs t) = addrs t.
Proof.
  induction t as [|a g ch IH1 sib IH2]; intros; [done|]. cbn [perc_tree]. by rewrite !addrs_node, IH1, IH2.
Qed.

#[local] Hint Extern 1 (_ ∉ addrs _) => rewrite ?addrs_perc; set_solver : fair.
#[local] Hint Extern 1 (held (put _ _) _) => apply held_put; [rewrite ?addrs_perc; set_solver|done] : fair.

Lemma perc_rec t : forall n m b par path shrs p,
  held m t -> placed par path t -> m !! par = Some p -> par ∉ addrs t -> (length (nodes t) < n)%nat ->
  calc_fair_share_perc_rec n (root_of t) shrs (Heap m b)
  = Some (match t with Leaf => 0 | _ => 1 end, Heap (put (perc_tree (tree_percentage p) shrs t) m) b).
Proof.
  induction t as [|a g ch IH1 sib IH2]; intros n m b par path shrs p H Hpl Hp Hpar Hf;
    [by destruct n; [cbn in Hf; lia|]|].
  node H n. rewrite length_node in Hf. destruct Hpl as (Hpg & _ & Hpl1 & Hpl2).
  rewrite addrs_node in Hpar. cbn [calc_fair_share_perc_rec root_of perc_tree]. rewrite Hn.
  set (cur := if shrs =? UNSPECIFIED then level_shares 0 (Node a g ch sib) else shrs).
  erewrite bind_eq with (a := cur) (s' := Heap m b)
    by (unfold cur; destruct (shrs =? UNSPECIFIED); [apply (count_shares_tree (Node a g ch sib)), H|done]).
  mstep (load_ok m b a g Hm). rewrite Hpg. mstep (load_ok m b par p Hp).
  destruct (share_percentages cur (tree_percentage p) (shares g)) as [tp gp] eqn:Esp.
  assert (perc_node cur (tree_percentage p) g = set_percentages tp gp g) as Hg'
    by (unfold perc_node; by rewrite Esp).
  rewrite Hg'. mstep (upd_ok m b a g (set_percentages tp gp) Hm). set (g' := set_percentages tp gp g) in *.
  rewrite Hs. assert (<[a := g']> m !! par = Some p) as Hp1 by (rewrite lookup_insert_ne; [done|set_solver]).
  mstep (IH2 n _ b par path cur p (held_insert m sib a g' Hasib Hsib) Hpl2 Hp1 ltac:(set_solver) ltac:(lia)).
  set (m1 := put (perc_tree (tree_percentage p) cur sib) m).
  rewrite put_insert by auto with fair. fold m1. assert (held m1 ch) as Hch1 by (unfold m1; auto with fair).
  rewrite Hc. mstep (IH1 n _ b a _ UNSPECIFIED g' (held_insert m1 ch a g' Hach Hch1) Hpl1
    (lookup_insert_eq _ _ _) Hach ltac:(lia)).
  unfold ret. cbn [put]. by rewrite put_insert by auto with fair.
Qed.

(** ** Usage factors *)

Fixpoint factor_tree (root_usage : double) (pfactor : float) t : tree :=
  match t with
  | Leaf => Leaf
  | Node a g ch sib =>
      let f := factor_of (usage g) root_usage pfactor (group_percentage g) in
      Node a (set_usage_factor f g) (factor_tree root_usage f ch) (factor_tree root_usage pfactor sib)
  end.

(** The level of the children of the root *)
Fixpoint top_factor_tree (root_usage : double) t : tree :=
  match t with
  | Leaf => Leaf
  | Node a g ch sib =>
      let f := usage_of (usage g) root_usage in
      Node a (set_usage_factor f g) (factor_tree root_usage f ch) (top_factor_tree root_usage sib)
  end.

Lemma addrs_factor t : forall ru pf, addrs (factor_tree ru pf t) = addrs t.
Proof.
  induction t as [|a g ch IH1 sib IH2]; intros; [done|]. cbn [factor_tree]. by rewrite !addrs_node, IH1, IH2.
Qed.
Lemma addrs_top_factor t : forall ru, addrs (top_factor_tree ru t) = addrs t.
Proof.
  induction t as [|a g ch IH1 sib IH2]; intros; [done|]. cbn [top_factor_tree].
  by rewrite !addrs_node, addrs_factor, IH2.
Qed.

#[local] Hint Extern 1 (_ ∉ addrs _) => rewrite ?addrs_factor, ?addrs_top_factor; set_solver : fair.
#[local] Hint Extern 1 (held (put _ _) _) => apply held_put; [rewrite ?addrs_factor; set_solver|done] : fair.

Lemma factor_rec t : forall n m b r rg par path p,
  held m t -> placed par path t -> m !! par = Some p -> par ∉ addrs t -> r <> NULL -> m !! r = Some rg ->
  r ∉ addrs t -> (length (nodes t) < n)%nat ->
  calc_usage_factor_rec n r (root_of t) (Heap m b)
  = Some (tt, Heap (put (factor_tree (usage rg) (usage_factor p) t) m) b).
Proof.
  induction t as [|a g ch IH1 sib IH2]; intros n m b r rg par path p H Hpl Hp Hpar Hr0 Hr Hrt Hf;
    [by destruct n; [cbn in Hf; lia|cbn; rewrite orb_true_r]|].
  node H n. rewrite length_node in Hf. destruct Hpl as (Hpg & _ & Hpl1 & Hpl2).
  rewrite addrs_node in Hpar, Hrt. cbn [calc_usage_factor_rec root_of factor_tree]. rewrite (not_null r), Hn by done.
  cbn [orb]. mstep (load_ok m b r rg Hr). mstep (load_ok m b a g Hm). rewrite Hpg. mstep (load_ok m b par p Hp).
  set (f := factor_of (usage g) (usage rg) (usage_factor p) (group_percentage g)).
  mstep (upd_ok m b a g (set_usage_factor f) Hm). set (g' := set_usage_factor f g). rewrite Hs.
  assert (forall x y, x <> a -> m !! x = Some y -> <[a := g']> m !! x = Some y) as Hne
    by (intros; by rewrite lookup_insert_ne).
  mstep (IH2 n _ b r rg par path p (held_insert m sib a g' Hasib Hsib) Hpl2 (Hne par p ltac:(set_solver) Hp)
    ltac:(set_solver) Hr0 (Hne r rg ltac:(set_solver) Hr) ltac:(set_solver) ltac:(lia)).
  set (m1 := put (factor_tree (usage rg) (usage_factor p) sib) m).
  rewrite put_insert by auto with fair. fold m1. assert (held m1 ch) as Hch1 by (unfold m1; auto with fair).
  rewrite Hc. erewrite IH1; [|by apply held_insert|done|apply lookup_insert_eq|done|done| |set_solver|lia].
  - cbn [put]. by rewrite put_insert by auto with fair.
  - rewrite lookup_insert_ne by set_solver. unfold m1. rewrite put_other by (rewrite addrs_factor; set_solver). done.
Qed.

Lemma factor_loop t : forall n m b r rg path,
  held m t -> placed r path t -> r <> NULL -> m !! r = Some rg -> r ∉ addrs t -> (length (nodes t) < n)%nat ->
  calc_usage_factor_loop n r (root_of t) (Heap m b) = Some (tt, Heap (put (top_factor_tree (usage rg) t) m) b).
Proof.
  induction t as [|a g ch IH1 sib IH2]; intros n m b r rg path H Hpl Hr0 Hr Hrt Hf;
    [by destruct n; [cbn in Hf; lia|]|].
  node H n. rewrite length_node in Hf. destruct Hpl as (Hpg & _ & Hpl1 & Hpl2).
  rewrite addrs_node in Hrt. cbn [calc_usage_factor_loop root_of top_factor_tree]. rewrite Hn.
  mstep (load_ok m b a g Hm). mstep (load_ok m b r rg Hr).
  set (f := usage_of (usage g) (usage rg)). mstep (upd_ok m b a g (set_usage_factor f) Hm).
  set (g' := set_usage_factor f g). rewrite Hc.
  assert (<[a := g']> m !! r = Some rg) as Hr1 by (rewrite lookup_insert_ne; [done|set_solver]).
  erewrite bind_eq.
  2:{ apply (fueled_held _ _ _ ch); [by apply held_insert|]. intros k Hk.
      apply (factor_rec ch k _ b r rg a (path ++ [a]) g'); try done; [by apply held_insert|apply lookup_insert_eq|set_solver]. }
  change (usage_factor g') with f. set (m1 := put (factor_tree (usage rg) f ch) m).
  rewrite put_insert by auto with fair. fold m1. assert (held m1 sib) as Hsib1
    by (unfold m1; apply held_put; [rewrite addrs_factor; set_solver|done]).
  mstep (load_ok (<[a := g']> m1) b a _ (lookup_insert_eq _ _ _)). change (sibling g') with (sibling g). rewrite Hs.
  erewrite IH2; [|by apply held_insert|done|done| |set_solver|lia].
  - cbn [put]. fold f. rewrite put_insert by auto with fair. unfold m1.
    rewrite (put_comm (factor_tree _ _ _)); [done|]. intros x. rewrite addrs_factor, addrs_top_factor. apply Hdis.
  - rewrite lookup_insert_ne by set_solver. unfold m1. rewrite put_other by (rewrite addrs_factor; set_solver). done.
Qed.

End FairShape.
