(* ===== verification/FairWf.v ===== *)
(** * The invariant of the fairshare tree

    Module [FairWf]: the fairshare tree of [src/scheduler/fairshare.c] is a tree
    in the heap whose parents and paths are right and whose names are unique; all
    operations keep it, and reading the resource group file or looking up an
    entity makes one more group where it belongs. *)

From Stdlib Require Import ZArith Lia Ascii String SpecFloat.
From stdpp Require Import gmap.
From S2P Require Import Prelude Doubles TextFile FairTree FairShape.
Import Double Float Text Fair FairShape.

Module FairWf.

Implicit Types (t : tree) (m : gmap Z group_info) (g : group_info).

(** ** Paths *)

(** [chain m a l]: the parents from the group [a] up are the list [l] read
    backwards. *)
Inductive chain m : Z -> list Z -> Prop :=
  | chain_null : chain m NULL []
  | chain_group a g l : a <> NULL -> m !! a = Some g -> chain m (parent g) l -> chain m a (l ++ [a]).

Lemma chain_det m a l : chain m a l -> forall l', chain m a l' -> l = l'.
Proof.
  induction 1 as [|a g l Ha Hg _ IH]; intros l' H'; inversion H' as [|? g' l'' ? Hg' Hc]; subst; try done.
  rewrite Hg in Hg'. injection Hg' as <-. by rewrite (IH _ Hc).
Qed.

Lemma chain_prefix m a l x : chain m a l -> x ∈ l -> exists l', chain m x l' /\ (length l' <= length l)%nat /\
  (x <> a -> (length l' < length l)%nat).
Proof.
  induction 1 as [|a g l Ha Hg Hc IH]; [set_solver|]. rewrite elem_of_app, list_elem_of_singleton.
  rewrite length_app. cbn. intros [Hx| ->].
  - destruct (IH Hx) as (l' & H1 & H2 & _). exists l'. split_and!; [done|lia|lia].
  - exists (l ++ [a]). rewrite length_app. cbn. split_and!; [by econstructor|lia|done].
Qed.

Lemma chain_NoDup m a l : chain m a l -> NoDup l.
Proof.
  induction 1 as [|a g l Ha Hg Hc IH]; [constructor|]. apply NoDup_app. split_and!; [done| |].
  - intros x Hx ->%list_elem_of_singleton. destruct (chain_prefix _ _ _ _ Hc Hx) as (l' & H1 & H2 & _).
    pose proof (chain_det _ _ _ H1 _ (chain_group _ _ _ _ Ha Hg Hc)) as ->. rewrite length_app in H2. cbn in H2. lia.
  - repeat constructor. set_solver.
Qed.

Lemma chain_dom m a l : chain m a l -> forall x, x ∈ l -> is_Some (m !! x).
Proof.
  induction 1 as [|a g l Ha Hg Hc IH]; intros x; [set_solver|].
  rewrite elem_of_app, list_elem_of_singleton. intros [Hx| ->]; [auto|eauto].
Qed.

Lemma chain_size m a l : chain m a l -> (length l <= size m)%nat.
Proof. intros H. apply dom_size; [by eapply chain_NoDup|by eapply chain_dom]. Qed.

Lemma chain_frame m m' a l :
  (forall x g, x ∈ l -> m !! x = Some g -> exists g', m' !! x = Some g' /\ parent g' = parent g) ->
  chain m a l -> chain m' a l.
Proof.
  intros Hf H. induction H as [|a g l Ha Hg Hc IH]; [constructor|].
  destruct (Hf a g) as (g' & Hg' & Hp); [set_solver|done|]. apply (chain_group m' a g'); [done..|].
  rewrite Hp. apply IH. intros x gx Hx. apply Hf. set_solver.
Qed.

(** The path that is created is the chain of the parents. *)
Lemma create_path_rec m a l : chain m a l -> forall n b, (length l < n)%nat ->
  exists gp, create_group_path_rec n a (Heap m b) = Some (gp, Heap m (b + Z.of_nat (length l)))
             /\ gp_ginfo <$> gp = l /\ Forall (fun c => b <= gp_addr c < b + Z.of_nat (length l)) gp.
Proof.
  induction 1 as [|a g l Ha Hg Hc IH]; intros n b Hn.
  - exists []. destruct n; [lia|]. cbn. rewrite Z.add_0_r. by repeat constructor.
  - rewrite length_app in Hn |- *. cbn in Hn |- *. destruct n; [lia|]. cbn [create_group_path_rec].
    rewrite not_null by done. mstep (load_ok m b a g Hg). destruct (IH n b ltac:(lia)) as (gp & E & Hgp & Had).
    mstep E. exists (gp ++ [GroupPath (b + Z.of_nat (length l)) a]). split_and!; [|by rewrite fmap_app, Hgp|].
    + replace (Z.of_nat (length l + 1)) with (Z.of_nat (length l) + 1) by lia. by rewrite Z.add_assoc.
    + apply Forall_app. split; [eapply Forall_impl; [exact Had|]; cbn; lia|]. repeat constructor; cbn; lia.
Qed.

Lemma create_path m a l b : chain m a l ->
  exists gp, create_group_path a (Heap m b) = Some (gp, Heap m (b + Z.of_nat (length l)))
             /\ gp_ginfo <$> gp = l /\ Forall (fun c => b <= gp_addr c < b + Z.of_nat (length l)) gp.
Proof.
  intros H. unfold create_group_path, fueled. cbn [cells]. apply create_path_rec; [done|].
  pose proof (chain_size _ _ _ H). lia.
Qed.

Lemma chain_nodes t : forall m par path,
  linked t -> stored m t -> placed par path t -> chain m par path ->
  forall a g, (a, g) ∈ nodes t -> chain m a (gp_ginfo <$> gpath g).
Proof.
  induction t as [|x gx ch IH1 sib IH2]; intros m par path Hl Hs Hp Hc a g; [set_solver|].
  destruct Hl as (Hx & _ & _ & Hl1 & Hl2). apply stored_node in Hs as (Hm & Hs1 & Hs2).
  destruct Hp as (Hpar & Hpath & Hp1 & Hp2).
  assert (chain m x (path ++ [x])) as Hcx by (apply (chain_group m x gx); [done..|]; by rewrite Hpar).
  cbn. rewrite elem_of_cons, elem_of_app. intros [[= -> ->]|[Hin|Hin]].
  - by rewrite Hpath.
  - by apply (IH2 m par path).
  - by apply (IH1 m x (path ++ [x])).
Qed.

(** ** Adding a child *)

(** The new group [a] with its parent's group [gp] and the path [path] *)
Definition child_of (p : Z) (gp ga : group_info) (path : list group_path) : group_info :=
  set_gpath path (set_groups (cresgroup gp) (cresgroup ga) (set_parent p (set_sibling (child gp) ga))).

Lemma add_child_ok m b a ga p gp lp :
  a <> NULL -> p <> NULL -> a <> p -> m !! a = Some ga -> m !! p = Some gp -> chain m p lp -> a ∉ lp ->
  exists path,
    add_child a p (Heap m b)
    = Some (tt, Heap (<[a := child_of p gp ga path]> (<[p := set_child a gp]> m)) (b + Z.of_nat (S (length lp))))
    /\ gp_ginfo <$> path = lp ++ [a] /\ Forall (fun c => b <= gp_addr c < b + Z.of_nat (S (length lp))) path.
Proof.
  intros Ha Hp Hap Hma Hmp Hc Hal. unfold add_child. rewrite not_null by done. mstep (load_ok m b p gp Hmp).
  mstep (upd_ok m b a ga (set_sibling (child gp)) Hma). set (g1 := set_sibling (child gp) ga).
  assert (<[a := g1]> m !! p = Some gp) as Hp1 by by rewrite lookup_insert_ne.
  mstep (upd_ok _ b p gp (set_child a) Hp1). set (m1 := <[p := set_child a gp]> m).
  assert (<[p := set_child a gp]> (<[a := g1]> m) = <[a := g1]> m1) as -> by by apply insert_insert_ne.
  mstep (upd_ok _ b a g1 (set_parent p) (lookup_insert_eq m1 a g1)). rewrite insert_insert_eq.
  set (g2 := set_parent p g1).
  assert (<[a := g2]> m1 !! p = Some (set_child a gp)) as Hp2
    by (rewrite lookup_insert_ne by done; apply lookup_insert_eq).
  mstep (load_ok _ b p _ Hp2). change (cresgroup (set_child a gp)) with (cresgroup gp).
  mstep (upd_ok _ b a g2 (fun g => set_groups (cresgroup gp) (cresgroup g) g) (lookup_insert_eq m1 a g2)).
  rewrite insert_insert_eq. set (g3 := set_groups _ _ g2).
  assert (chain (<[a := g3]> m1) a (lp ++ [a])) as Hc3.
  { apply (chain_group _ a g3); [done|apply lookup_insert_eq|]. change (parent g3) with p.
    apply (chain_frame m); [|done]. intros x g Hx Hg.
    rewrite lookup_insert_ne by set_solver. unfold m1.
    destruct (decide (x = p)) as [->|Hne].
    - rewrite lookup_insert_eq. rewrite Hmp in Hg. injection Hg as <-. by eexists.
    - rewrite lookup_insert_ne by done. eauto. }
  destruct (create_path _ a _ b Hc3) as (path & E & Hpath & Had). rewrite length_app in E, Had. cbn [length] in E, Had.
  replace (length lp + 1)%nat with (S (length lp)) in E, Had by lia. exists path. split; [|done].
  mstep E. erewrite upd_ok by apply lookup_insert_eq. by rewrite insert_insert_eq.
Qed.

(** The tree with [a] as the first child of [p] *)
Fixpoint tins (p a : Z) (g : group_info) t : tree :=
  match t with
  | Leaf => Leaf
  | Node x gx ch sib =>
      if x =? p then Node x (set_child a gx) (Node a g Leaf ch) sib
      else Node x gx (tins p a g ch) (tins p a g sib)
  end.

Lemma root_tins p a g t : root_of (tins p a g t) = root_of t.
Proof. destruct t; cbn; [done|]. by case_if. Qed.

Lemma tins_out p a g t : p ∉ addrs t -> tins p a g t = t.
Proof.
  induction t as [|x gx ch IH1 sib IH2]; [done|]. rewrite addrs_node. intros H. cbn.
  rewrite (proj2 (Z.eqb_neq x p)) by set_solver. rewrite IH1, IH2 by set_solver. done.
Qed.

(** A quantity of the groups that does not depend on [child] *)
Lemma tins_nodes {A : Type} (f : Z -> group_info -> A) (Hf : forall x y g, f x (set_child y g) = f x g) p a g t :
  NoDup (addrs t) -> p ∈ addrs t ->
  (fun n => f n.1 n.2) <$> nodes (tins p a g t) ≡ₚ f a g :: ((fun n => f n.1 n.2) <$> nodes t).
Proof.
  induction t as [|x gx ch IH1 sib IH2]; [set_solver|]. rewrite NoDup_node, addrs_node.
  intros (H1 & H2 & H3 & H4 & H5) Hp. cbn [tins]. destruct (Z.eqb_spec x p) as [->|Hne].
  - cbn. rewrite !fmap_app. cbn. rewrite Hf, fmap_app. cbn. solve_Permutation.
  - cbn. rewrite !fmap_app.
    destruct (decide (p ∈ addrs sib)) as [Hs|Hs].
    + rewrite (IH2 H5 Hs), (tins_out p a g ch) by set_solver. solve_Permutation.
    + rewrite (IH1 H4 ltac:(set_solver)), (tins_out p a g sib) by done. solve_Permutation.
Qed.

Lemma addrs_tins p a g t : NoDup (addrs t) -> p ∈ addrs t -> addrs (tins p a g t) ≡ₚ a :: addrs t.
Proof. apply (tins_nodes (fun x _ => x)). done. Qed.

Lemma linked_tins p a g t :
  a <> NULL -> child g = NULL -> linked t -> (forall gp, (p, gp) ∈ nodes t -> sibling g = child gp) ->
  linked (tins p a g t).
Proof.
  intros Ha Hc. induction t as [|x gx ch IH1 sib IH2]; [done|]. intros (Hx & Hch & Hsb & Hl1 & Hl2) Hp. cbn [tins].
  destruct (Z.eqb_spec x p) as [->|Hne].
  - cbn. split_and!; try done. rewrite <-Hch. apply Hp. cbn. set_solver.
  - cbn. rewrite !root_tins. split_and!; try done.
    + apply IH1; [done|]. intros gp Hin. apply Hp. cbn. set_solver.
    + apply IH2; [done|]. intros gp Hin. apply Hp. cbn. set_solver.
Qed.

Lemma stored_tins p a g t : forall m gp,
  NoDup (addrs t) -> a ∉ addrs t -> (p ∈ addrs t -> (p, gp) ∈ nodes t) -> a <> p ->
  stored m t ->
  stored (<[a := g]> (<[p := set_child a gp]> m)) (tins p a g t).
Proof.
  induction t as [|x gx ch IH1 sib IH2]; intros m gp; [by intros; constructor|]. rewrite NoDup_node, stored_node, addrs_node.
  intros (H1 & H2 & H3 & H4 & H5) Ha Hp Hap (Hx & Hs1 & Hs2). cbn [tins].
  assert (forall t, stored m t -> a ∉ addrs t -> p ∉ addrs t -> stored (<[a := g]> (<[p := set_child a gp]> m)) t) as Hout.
  { intros t Hs Hat Hpt. apply stored_insert; [done|]. by apply stored_insert. }
  destruct (Z.eqb_spec x p) as [->|Hne].
  - assert (gx = gp) as ->.
    { assert ((p, gp) ∈ (p, gx) :: nodes sib ++ nodes ch) as Hin by (apply Hp; set_solver).
      apply elem_of_cons in Hin as [[= ->]|[Hin|Hin]%elem_of_app]; [done|..]; apply elem_addrs in Hin; done. }
    rewrite !stored_node. split_and!; [|..|apply Hout; set_solver].
    + rewrite lookup_insert_ne by done. apply lookup_insert_eq.
    + apply lookup_insert_eq.
    + constructor.
    + apply Hout; set_solver.
  - rewrite stored_node. split_and!.
    + rewrite !lookup_insert_ne by set_solver. done.
    + apply IH1; try done; [set_solver|]. intros Hin. cbn in Hp.
      assert ((p, gp) ∈ (x, gx) :: nodes sib ++ nodes ch) as Hin' by (apply Hp; set_solver).
      apply elem_of_cons in Hin' as [[= -> ->]|[Hin'|Hin']%elem_of_app]; [done| |done].
      apply elem_addrs in Hin'. by destruct (H3 p Hin).
    + apply IH2; try done; [set_solver|]. intros Hin. cbn in Hp.
      assert ((p, gp) ∈ (x, gx) :: nodes sib ++ nodes ch) as Hin' by (apply Hp; set_solver).
      apply elem_of_cons in Hin' as [[= -> ->]|[Hin'|Hin']%elem_of_app]; [done|done|].
      apply elem_addrs in Hin'. by destruct (H3 p Hin').
Qed.

Lemma placed_tins p a g t : forall par path,
  placed par path t -> parent g = p ->
  (forall gp, (p, gp) ∈ nodes t -> gp_ginfo <$> gpath g = (gp_ginfo <$> gpath gp) ++ [a]) ->
  placed par path (tins p a g t).
Proof.
  induction t as [|x gx ch IH1 sib IH2]; intros par path; [done|]. intros (H1 & H2 & H3 & H4) Hpg Hp. cbn [tins].
  destruct (Z.eqb_spec x p) as [->|Hne].
  - cbn. split_and!; try done. rewrite <-H2. apply Hp. cbn. set_solver.
  - cbn. split_and!; try done.
    + apply IH1; try done. intros gp Hin. apply Hp. cbn. set_solver.
    + apply IH2; try done. intros gp Hin. apply Hp. cbn. set_solver.
Qed.

(** ** Trees with the same groups *)

(** What no walk changes *)
Definition frame_of g := (name g, gpath g, parent g, sibling g, child g).

Fixpoint tsame t t' : Prop :=
  match t, t' with
  | Leaf, Leaf => True
  | Node a g ch sib, Node a' g' ch' sib' => a' = a /\ frame_of g' = frame_of g /\ tsame ch ch' /\ tsame sib sib'
  | _, _ => False
  end.

Definition names t : list (option cstring) := (fun n => name n.2) <$> nodes t.

Lemma tsame_refl t : tsame t t.
Proof. by induction t; cbn; auto. Qed.

Lemma tsame_trans t : forall t1 t2, tsame t t1 -> tsame t1 t2 -> tsame t t2.
Proof.
  induction t as [|a g ch IH1 sib IH2]; intros [|a1 g1 c1 s1] [|a2 g2 c2 s2]; try done.
  cbn. intros (-> & E1 & H1 & H2) (-> & E2 & H3 & H4). split_and!; [done|congruence|eauto..].
Qed.

Lemma tsame_sym t : forall t', tsame t t' -> tsame t' t.
Proof.
  induction t as [|a g ch IH1 sib IH2]; intros [|a1 g1 c1 s1]; try done.
  cbn. intros (-> & E1 & H1 & H2). auto.
Qed.

(** The groups of a tree, one by one *)
Lemma tsame_elem t : forall t' a g, tsame t t' -> (a, g) ∈ nodes t ->
  exists g', ((a, g') ∈ nodes t') /\ frame_of g' = frame_of g.
Proof.
  induction t as [|x gx ch IH1 sib IH2]; intros [|x' gx' ch' sib'] a g; try done; [set_solver|].
  intros (-> & Hf & H1 & H2). cbn. setoid_rewrite elem_of_cons. setoid_rewrite elem_of_app.
  intros [[= -> ->]|[Hin|Hin]].
  - exists gx'. auto.
  - destruct (IH2 _ _ _ H2 Hin) as (g' & ? & ?). eauto.
  - destruct (IH1 _ _ _ H1 Hin) as (g' & ? & ?). eauto.
Qed.

Lemma tsame_facts t : forall t', tsame t t' ->
  addrs t' = addrs t /\ root_of t' = root_of t /\ names t' = names t /\ (linked t -> linked t') /\
  (forall par path, placed par path t -> placed par path t').
Proof.
  unfold names. induction t as [|a g ch IH1 sib IH2]; intros [|a' g' ch' sib']; try done.
  intros (-> & Hf & (A1 & R1 & N1 & L1 & P1)%IH1 & (A2 & R2 & N2 & L2 & P2)%IH2). injection Hf as En Ep Er Es Ec.
  split_and!; [by rewrite !addrs_node, A1, A2|done| | |].
  - cbn. by rewrite !fmap_app, En, N1, N2.
  - intros (H1 & H2 & H3 & H4 & H5). cbn. rewrite Ec, Es, R1, R2. split_and!; auto.
  - intros par path (H1 & H2 & H3 & H4). cbn. rewrite Er, Ep. split_and!; auto.
Qed.

Lemma all_named_names t : all_named t <-> Forall is_Some (names t).
Proof. unfold all_named, names. by rewrite Forall_fmap. Qed.

Lemma held_same m t t' : held m t -> tsame t t' -> held (put t' m) t'.
Proof.
  intros [H1 H2 H3] (HA & _ & _ & HL & _)%tsame_facts. split; [auto| |by rewrite HA].
  apply stored_put. by rewrite HA.
Qed.

Lemma tsame_tmap f t : (forall g, frame_of (f g) = frame_of g) -> tsame t (tmap f t).
Proof. intros Hf. induction t as [|a g ch IH1 sib IH2]; [done|]. cbn. auto. Qed.

Lemma tsame_perc t : forall pt shrs, tsame t (perc_tree pt shrs t).
Proof.
  induction t as [|a g ch IH1 sib IH2]; intros; [done|]. cbn. split_and!; auto.
  unfold perc_node. by destruct (share_percentages _ _ _).
Qed.

Lemma tsame_factor t : forall ru pf, tsame t (factor_tree ru pf t).
Proof. induction t as [|a g ch IH1 sib IH2]; intros; [done|]. cbn. auto. Qed.
Lemma tsame_top_factor t : forall ru, tsame t (top_factor_tree ru t).
Proof. induction t as [|a g ch IH1 sib IH2]; intros; [done|]. cbn. auto using tsame_factor. Qed.

(** ** The level below a group *)

Fixpoint below (u : Z) t : option (group_info * tree) :=
  match t with
  | Leaf => None
  | Node x g ch sib =>
      if x =? u then Some (g, ch)
      else match below u sib with Some r => Some r | None => below u ch end
  end.
Fixpoint treplace (u : Z) (ch' : tree) t : tree :=
  match t with
  | Leaf => Leaf
  | Node x g ch sib =>
      if x =? u then Node x g ch' sib else Node x g (treplace u ch' ch) (treplace u ch' sib)
  end.

Lemma below_spec u t g ch : below u t = Some (g, ch) ->
  (u, g) ∈ nodes t /\ (forall x, x ∈ addrs ch -> x ∈ addrs t) /\
  (forall m, held m t -> held m ch /\ (u ∉ addrs ch) /\ child g = root_of ch) /\
  (forall par path, placed par path t -> placed u (gp_ginfo <$> gpath g) ch).
Proof.
  induction t as [|x gx c IH1 s IH2]; cbn [below]; [done|]. destruct (Z.eqb_spec x u) as [->|Hne].
  - intros [= -> ->]. split_and!; [cbn; set_solver|rewrite addrs_node; set_solver| |].
    + intros m H%held_node. tauto.
    + intros par path (H1 & H2 & H3 & H4). by rewrite H2.
  - destruct (below u s) as [r|] eqn:E.
    + intros [= ->]. destruct (IH2 eq_refl) as (A & B & C & D). rewrite addrs_node.
      split_and!; [cbn; set_solver|set_solver|intros m H%held_node; apply C; tauto|intros ? ? H; eapply D, H].
    + intros Eb. destruct (IH1 Eb) as (A & B & C & D). rewrite addrs_node.
      split_and!; [cbn; set_solver|set_solver|intros m H%held_node; apply C; tauto|intros ? ? H; eapply D, H].
Qed.

Lemma below_some u t : u ∈ addrs t -> exists g ch, below u t = Some (g, ch).
Proof.
  induction t as [|x gx c IH1 s IH2]; [set_solver|]. rewrite addrs_node. cbn. intros H.
  destruct (Z.eqb_spec x u) as [->|Hne]; [eauto|].
  destruct (below u s) as [[g ch]|] eqn:E; [eauto|]. apply IH1.
  destruct (decide (u ∈ addrs s)) as [Hs|Hs]; [|set_solver]. destruct (IH2 Hs) as (? & ? & ?). done.
Qed.

Lemma treplace_out u ch' t : u ∉ addrs t -> treplace u ch' t = t.
Proof.
  induction t as [|x gx ch IH1 sib IH2]; [done|]. rewrite addrs_node. intros H. cbn.
  rewrite (proj2 (Z.eqb_neq x u)) by set_solver. rewrite IH1, IH2 by set_solver. done.
Qed.

(** Replacing the level below [u] by one with the same groups *)
Lemma treplace_same u ch' t g ch m :
  held m t -> below u t = Some (g, ch) -> tsame ch ch' ->
  tsame t (treplace u ch' t) /\ put (treplace u ch' t) m = put ch' m.
Proof.
  intros H Hb Hs. induction t as [|x gx c IH1 s IH2]; [done|]. cbn [below treplace] in *.
  destruct (held_node _ _ _ _ _ H) as (Hn & Hm & _ & _ & Hh1 & Hh2 & H1 & H2 & H3).
  destruct (Z.eqb_spec x u) as [->|Hne].
  - injection Hb as -> ->. split; [cbn; auto using tsame_refl|]. cbn.
    rewrite (put_stored s m) by apply Hh2. apply insert_id. rewrite put_other; [done|].
    by rewrite (proj1 (tsame_facts _ _ Hs)).
  - destruct (below u s) as [r|] eqn:E.
    + injection Hb as ->. assert (u ∉ addrs c) as Hu.
      { destruct (below_spec _ _ _ _ E) as (Hin & _). apply elem_addrs in Hin. set_solver. }
      destruct (IH2 Hh2 eq_refl) as [IHa IHb]. rewrite (treplace_out u ch' c) by done.
      split; [cbn; auto using tsame_refl|]. cbn. rewrite IHb.
      destruct (below_spec _ _ _ _ E) as (_ & Hsub & _).
      rewrite (put_stored c).
      * apply insert_id. rewrite put_other; [done|]. rewrite (proj1 (tsame_facts _ _ Hs)). set_solver.
      * apply stored_put_other; [|apply Hh1]. rewrite (proj1 (tsame_facts _ _ Hs)). set_solver.
    + destruct (below_spec _ _ _ _ Hb) as (Hin & Hsub & _). apply elem_addrs in Hin.
      destruct (IH1 Hh1 Hb) as [IHa IHb]. rewrite (treplace_out u ch' s) by set_solver.
      split; [cbn; auto using tsame_refl|]. cbn. rewrite (put_stored s) by apply Hh2. rewrite IHb.
      apply insert_id. rewrite put_other; [done|]. rewrite (proj1 (tsame_facts _ _ Hs)). set_solver.
Qed.

End FairWf.
