(* ===== verification/FairOps.v ===== *)
(** * The operations on the fairshare tree

    Module [FairOps]: what the functions of [src/scheduler/fairshare.c] that build
    and look up the tree do to the invariant of [FairWf]. *)

From Stdlib Require Import ZArith Lia Ascii String SpecFloat.
From stdpp Require Import gmap.
From S2P Require Import Prelude Doubles TextFile FairTree FairShape FairWf.
Import Double Float Text Fair FairShape FairWf.

Module FairOps.

Implicit Types (t : tree) (m : gmap Z group_info) (g : group_info).

(** No two groups share a cell of their paths. *)
Definition apart (b : Z) t : Prop :=
  (forall a g c, (a, g) ∈ nodes t -> c ∈ gpath g -> gp_addr c < b) /\
  (forall a g c a' g' c', (a, g) ∈ nodes t -> (a', g') ∈ nodes t -> a <> a' -> c ∈ gpath g -> c' ∈ gpath g' ->
     gp_addr c <> gp_addr c').

(** The root [r] of the tree, its group [g0] and the tree [t] of all below it *)
Record fair_tree (h : heap) (r : Z) g0 t : Prop := {
  ft_held : held (cells h) (Node r g0 t Leaf);
  ft_parent : parent g0 = NULL;
  ft_placed : placed r [r] t;
  ft_named : all_named (Node r g0 t Leaf);
  ft_unique : NoDup (names (Node r g0 t Leaf));
  ft_brk : 0 < brk h /\ forall a, is_Some (cells h !! a) -> 0 < a < brk h;
  ft_unknown : Some UNKNOWN_GROUP_NAME ∈ names t;
  ft_cells : apart (brk h) t;
  ft_top : gpath g0 = [] }.

Abbreviation whole r g0 t := (Node r g0 t Leaf).

Lemma whole_stored m r g0 t : held m (whole r g0 t) -> m !! r = Some g0 /\ r <> NULL /\ (r ∉ addrs t) /\ held m t.
Proof. intros H. destruct (held_node _ _ _ _ _ H) as (H1 & ?). apply Z.eqb_neq in H1. tauto. Qed.

Lemma apart_brk b b' t : apart b t -> b <= b' -> apart b' t.
Proof. intros [H1 H2] Hb. split; [|done]. intros a g c Hin Hc. specialize (H1 a g c Hin Hc). lia. Qed.

(** A tree whose groups have their paths from another tree *)
Lemma apart_sub b t t' : (forall a g', (a, g') ∈ nodes t' -> exists g, ((a, g) ∈ nodes t) /\ gpath g' = gpath g) ->
  apart b t -> apart b t'.
Proof.
  intros Hsub [H1 H2]. split.
  - intros a g' c (g & Hin & ->)%Hsub. by apply H1 with a.
  - intros a g1 c a' g2 c' (g & Hin & ->)%Hsub (g' & Hin' & ->)%Hsub. by apply H2.
Qed.

Lemma apart_same t t' b : tsame t t' -> apart b t -> apart b t'.
Proof.
  intros Hs%tsame_sym. apply apart_sub. intros a g' Hin.
  destruct (tsame_elem _ _ _ _ Hs Hin) as (g & Hin' & [= _ Hp _ _ _]). eauto.
Qed.

(** *** The paths of the groups *)

Lemma root_chain m r g0 t : held m (whole r g0 t) -> parent g0 = NULL -> chain m r [r].
Proof.
  intros (H1 & H2 & _)%whole_stored Hp. apply (chain_group m r g0 []); [done..|]. rewrite Hp. constructor.
Qed.

Lemma tree_chain h r g0 t a g :
  fair_tree h r g0 t -> (a, g) ∈ nodes t -> chain (cells h) a (gp_ginfo <$> gpath g).
Proof.
  intros [H Hp Hpl _ _ _ _ _ _] Hin. destruct (whole_stored _ _ _ _ H) as (_ & _ & _ & [Hl Hs _]).
  eapply (chain_nodes t _ r [r]); try done. by eapply root_chain.
Qed.

(** The path down to any group, the root included *)
Lemma any_chain h r g0 t a g :
  fair_tree h r g0 t -> ((a, g) ∈ nodes (whole r g0 t)) -> exists l, chain (cells h) a l /\
    (a = r -> l = [r]) /\ ((a, g) ∈ nodes t -> l = gp_ginfo <$> gpath g).
Proof.
  intros F. cbn. rewrite elem_of_cons. intros [[= -> ->]|Hin].
  - exists [r]. split_and!; [eapply root_chain; apply F|done|]. intros Hin%elem_addrs.
    destruct (whole_stored _ _ _ _ (ft_held _ _ _ _ F)) as (_ & _ & Hr & _). done.
  - exists (gp_ginfo <$> gpath g). split_and!; [by eapply tree_chain|intros ->|done].
    destruct (whole_stored _ _ _ _ (ft_held _ _ _ _ F)) as (_ & _ & Hr & _). by apply elem_addrs in Hin.
Qed.

Lemma placed_path t : forall par path, placed par path t ->
  forall a g, (a, g) ∈ nodes t -> forall x, x ∈ gp_ginfo <$> gpath g -> x ∈ path \/ x ∈ addrs t.
Proof.
  induction t as [|y gy ch IH1 sib IH2]; intros par path Hpl a g; [set_solver|].
  destruct Hpl as (_ & Hpath & Hp1 & Hp2). cbn [nodes]. rewrite addrs_node, elem_of_cons, elem_of_app.
  intros [[= -> ->]|[Hin|Hin]] x Hx.
  - rewrite Hpath in Hx. set_solver.
  - destruct (IH2 _ _ Hp2 _ _ Hin x Hx); set_solver.
  - destruct (IH1 _ _ Hp1 _ _ Hin x Hx); set_solver.
Qed.

Lemma any_chain_in h r g0 t a g l :
  fair_tree h r g0 t -> ((a, g) ∈ nodes (whole r g0 t)) -> chain (cells h) a l ->
  forall x, x ∈ l -> x ∈ addrs (whole r g0 t).
Proof.
  intros F Hin Hc x Hx. rewrite addrs_node. cbn in Hin. apply elem_of_cons in Hin as [[= -> ->]|Hin].
  - pose proof (root_chain _ _ _ _ (ft_held _ _ _ _ F) (ft_parent _ _ _ _ F)) as Hr.
    rewrite (chain_det _ _ _ Hc _ Hr) in Hx. set_solver.
  - cbn in Hin. rewrite (chain_det _ _ _ Hc _ (tree_chain _ _ _ _ _ _ F Hin)) in Hx.
    destruct (placed_path _ _ _ (ft_placed _ _ _ _ F) _ _ Hin x Hx); set_solver.
Qed.

(** *** Cells outside the tree *)

Lemma fair_outside m b b' r g0 t a g :
  fair_tree (Heap m b) r g0 t -> (a ∉ addrs (whole r g0 t)) -> b <= b' -> 0 < a < b' ->
  fair_tree (Heap (<[a := g]> m) b') r g0 t.
Proof.
  intros [H Hp Hpl Hn Hu [Hb0 Hb] Hk Hap Htop] Ha Hbb Hab. split; try done; [by apply held_insert| |by eapply apart_brk].
  cbn in *. split; [lia|].
  intros x. destruct (decide (x = a)) as [->|Hne]; [done|]. rewrite lookup_insert_ne by done.
  intros Hx. specialize (Hb x Hx). lia.
Qed.

Lemma fair_brk m b b' r g0 t : fair_tree (Heap m b) r g0 t -> b <= b' -> fair_tree (Heap m b') r g0 t.
Proof.
  intros [H Hp Hpl Hn Hu [Hb0 Hb] Hk Hap Htop] Hbb. split; try done; [|by eapply apart_brk]. cbn in *. split; [lia|]. intros x Hx. specialize (Hb x Hx). lia.
Qed.

Lemma fair_addr h r g0 t a : fair_tree h r g0 t -> a ∈ addrs (whole r g0 t) -> 0 < a < brk h.
Proof. intros [[_ H _] _ _ _ _ [_ Hb] _ _ _] Ha. apply Hb. by eapply stored_dom. Qed.

Lemma new_group_ok m b r g0 t : fair_tree (Heap m b) r g0 t ->
  exists g, new_group_info (Heap m b) = Some (b, Heap (<[b := g]> m) (b + 1)) /\
    fair_tree (Heap (<[b := g]> m) (b + 1)) r g0 t /\ (b ∉ addrs (whole r g0 t)) /\ child g = NULL /\
    usage g = dbl_of_Z 1.
Proof.
  intros F. eexists. split; [done|]. assert (b ∉ addrs (whole r g0 t)) as Hb.
  { intros Hin. pose proof (fair_addr _ _ _ _ _ F Hin) as Hlt. cbn in Hlt. lia. }
  split_and!; try done. pose proof (proj1 (ft_brk _ _ _ _ F)). cbn in *. eapply fair_outside; try done; lia.
Qed.

(** *** Walks keep the invariant *)

Lemma fair_same h r g0 t g0' t' :
  fair_tree h r g0 t -> tsame (whole r g0 t) (whole r g0' t') ->
  fair_tree (Heap (put (whole r g0' t') (cells h)) (brk h)) r g0' t'.
Proof.
  intros [H Hp Hpl Hn Hu [Hb0 Hb] Hk Hap Htop] Hs. pose proof Hs as (_ & Hf & Hst & _). cbn in Hst. injection Hf as _ Hgp Hpar _ _.
  destruct (tsame_facts _ _ Hst) as (_ & _ & Hnm & _ & Hpl').
  destruct (tsame_facts _ _ Hs) as (HA & _ & HN & _ & _).
  split; cbn [cells brk].
  - by eapply held_same.
  - by rewrite Hpar.
  - auto.
  - by rewrite all_named_names, HN, <-all_named_names.
  - by rewrite HN.
  - split; [done|]. intros a [g Ha]. destruct (decide (a ∈ addrs (whole r g0' t'))) as [Hin|Hout].
    + rewrite HA in Hin. apply Hb. eapply stored_dom; [apply H|done].
    + rewrite put_other in Ha by done. eauto.
  - by rewrite Hnm.
  - by apply (apart_same t).
  - by rewrite Hgp.
Qed.

(** *** Lookup *)

Lemma fair_find h r g0 t s : fair_tree h r g0 t ->
  find_group_info (Some s) r h = Some (tfind s (whole r g0 t), h).
Proof. intros F. destruct h as [m b]. apply (find_group_tree s (whole r g0 t)); apply F. Qed.

Lemma tfind_spec s t : linked t ->
  (tfind s t = NULL /\ (Some s ∉ names t)) \/
  (tfind s t <> NULL /\ exists g, (tfind s t, g) ∈ nodes t /\ name g = Some s).
Proof.
  intros Hl. unfold tfind. destruct (List.find (named s) (nodes t)) as [[a g]|] eqn:E.
  - right. apply List.find_some in E as [Hin%list_elem_of_In Hn]. unfold named in Hn. simp_bool.
    split; [by apply (linked_addr t (a, g))|eauto].
  - left. split; [done|]. intros ([a g] & Hs & Hin)%list_elem_of_fmap. apply list_elem_of_In in Hin.
    pose proof (List.find_none _ _ E _ Hin) as Hn. unfold named in Hn. cbn in *. simp_bool. congruence.
Qed.

(** Names are unique, so a group that is found is the one with the name. *)
Lemma node_unique t a a' g g' : NoDup (names t) -> (a, g) ∈ nodes t -> (a', g') ∈ nodes t ->
  name g = name g' -> a = a' /\ g = g'.
Proof.
  unfold names. intros Hnd (i & Hi)%list_elem_of_lookup (j & Hj)%list_elem_of_lookup He.
  assert (i = j) as <-.
  { eapply NoDup_lookup; [done|..].
    - rewrite list_lookup_fmap, Hi. cbn. done.
    - rewrite list_lookup_fmap, Hj. cbn. by rewrite He. }
  rewrite Hi in Hj. by injection Hj as -> ->.
Qed.

Lemma tfind_in s t a g : linked t -> NoDup (names t) -> (a, g) ∈ nodes t -> name g = Some s -> tfind s t = a.
Proof.
  intros Hl Hnd Hin Hs. destruct (tfind_spec s t Hl) as [[_ Hno]|[_ (g' & Hin' & Hs')]].
  - destruct Hno. apply list_elem_of_fmap. by exists (a, g).
  - by destruct (node_unique t _ _ _ _ Hnd Hin' Hin) as [? _]; [congruence|].
Qed.

(** *** A new group *)

Lemma tins_whole p a g r g0 t : exists g0' t',
  tins p a g (whole r g0 t) = whole r g0' t' /\ frame_of g0' = (name g0, gpath g0, parent g0, sibling g0, child g0') /\
  (p <> r -> g0' = g0 /\ t' = tins p a g t) /\ (p = r -> g0' = set_child a g0 /\ t' = Node a g Leaf t).
Proof.
  cbn [tins]. destruct (Z.eqb_spec r p) as [->|Hne].
  - exists (set_child a g0), (Node a g Leaf t). done.
  - exists g0, (tins p a g t). done.
Qed.

Lemma names_tins p a g t : NoDup (addrs t) -> p ∈ addrs t -> names (tins p a g t) ≡ₚ name g :: names t.
Proof. apply (tins_nodes (fun _ g => name g)). done. Qed.

Lemma add_child_tree m b r g0 t a ga p s :
  fair_tree (Heap m b) r g0 t -> m !! a = Some ga -> a ∉ addrs (whole r g0 t) -> child ga = NULL ->
  name ga = Some s -> Some s ∉ names (whole r g0 t) -> p ∈ addrs (whole r g0 t) ->
  exists gp path g0' t' b',
    ((p, gp) ∈ nodes (whole r g0 t)) /\
    add_child a p (Heap m b)
    = Some (tt, Heap (<[a := child_of p gp ga path]> (<[p := set_child a gp]> m)) b') /\
    tins p a (child_of p gp ga path) (whole r g0 t) = whole r g0' t' /\
    fair_tree (Heap (<[a := child_of p gp ga path]> (<[p := set_child a gp]> m)) b') r g0' t'.
Proof.
  intros F Hma Ha Hch Hna Hsn Hp. pose proof F as [H Hpar Hpl Hn Hu [Hb0 Hb] Hk Hcl Htop]. cbn [cells brk] in *.
  pose proof Hp as ([p' gp] & Hpp & Hin)%list_elem_of_fmap. cbn in Hpp. subst p'.
  destruct H as [Hl Hs Hnd]. pose proof (stored_lookup _ _ _ _ Hs Hin) as Hmp.
  assert (a <> p) as Hap by (intros ->; done).
  assert (a <> NULL) as Ha0 by (specialize (Hb a ltac:(eauto)); unfold NULL; lia).
  assert (p <> NULL) as Hp0 by (apply (linked_addr _ (p, gp) Hl Hin)).
  destruct (any_chain _ _ _ _ _ _ F Hin) as (lp & Hc & Hlr & Hlt). cbn [cells] in Hc.
  assert (a ∉ lp) as Halp.
  { intros Hx. apply Ha. eapply any_chain_in; done. }
  destruct (add_child_ok m b a ga p gp lp Ha0 Hp0 Hap Hma Hmp Hc Halp) as (path & E & Hpath & Had).
  set (g := child_of p gp ga path) in *.
  destruct (tins_whole p a g r g0 t) as (g0' & t' & Ht & Hf & Hne & Heq).
  exists gp, path, g0', t'. eexists. split_and!; [done|exact E|done|].
  injection Hf as _ Hgp' Hpar' _.
  assert (forall gp', (p, gp') ∈ nodes (whole r g0 t) -> gp' = gp) as Huniq.
  { intros gp' Hin'. pose proof (stored_lookup _ _ _ _ Hs Hin'). congruence. }
  split; cbn [cells brk].
  - rewrite <-Ht. split.
    + apply linked_tins; try done. intros gp' ->%Huniq. done.
    + apply stored_tins; try done.
    + rewrite (addrs_tins p a g) by done. by apply NoDup_cons.
  - by rewrite Hpar'.
  - destruct (decide (p = r)) as [->|Hpr].
    + destruct (Heq eq_refl) as [-> ->]. cbn. split_and!; try done. change (gpath g) with path.
      rewrite Hpath. by rewrite (Hlr eq_refl).
    + destruct (Hne Hpr) as [-> ->]. apply placed_tins; [done..|]. intros gp' Hin'.
      change (gpath g) with path. rewrite Hpath. f_equal. eapply chain_det; [exact Hc|].
      eapply (tree_chain _ _ _ _ _ _ F), Hin'.
  - rewrite all_named_names, <-Ht, (names_tins p a g) by done. apply Forall_cons. split; [by exists s|].
    by apply all_named_names.
  - rewrite <-Ht, (names_tins p a g) by done. apply NoDup_cons. split; [|done]. by replace (name g) with (Some s).
  - split; [lia|]. intros x. rewrite !lookup_insert_is_Some. intros Hx.
    assert (is_Some (m !! x)) as Hxm by (destruct Hx as [<-|[_ [<-|[_ Hx]]]]; eauto).
    specialize (Hb x Hxm). lia.
  - destruct (decide (p = r)) as [->|Hpr].
    + destruct (Heq eq_refl) as [_ ->]. unfold names. cbn. rewrite app_nil_r. by right.
    + destruct (Hne Hpr) as [_ ->]. destruct (held_node _ _ _ _ _ (ft_held _ _ _ _ F)) as (_ & _ & _ & _ & [_ _ Hnd'] & _).
      rewrite addrs_node in Hp. rewrite names_tins; [by right|done|]. set_solver.
  - assert (forall x gx, (x, gx) ∈ nodes t' -> (x = a /\ gpath gx = path) \/ exists gy, ((x, gy) ∈ nodes t) /\ gpath gx = gpath gy) as Hsub.
    { intros x gx Hx. destruct (decide (p = r)) as [->|Hpr].
      - destruct (Heq eq_refl) as [_ ->]. cbn in Hx. rewrite app_nil_r in Hx.
        apply elem_of_cons in Hx as [[= -> ->]|Hx]; [by left|]. right. eauto.
      - destruct (Hne Hpr) as [_ ->]. destruct (held_node _ _ _ _ _ (ft_held _ _ _ _ F)) as (_ & _ & _ & _ & [_ _ Hnd'] & _).
        rewrite addrs_node in Hp.
        assert ((x, gpath gx) ∈ (fun n => (n.1, gpath n.2)) <$> nodes (tins p a g t)) as Hxp
          by (apply list_elem_of_fmap; by exists (x, gx)).
        rewrite (tins_nodes (fun x g => (x, gpath g))) in Hxp by (done || set_solver).
        apply elem_of_cons in Hxp as [[= -> ->]|Hxp]; [by left|right].
        apply list_elem_of_fmap in Hxp as ([y gy] & [= -> ->] & Hy). eauto. }
    destruct (ft_cells _ _ _ _ F) as [C1 C2]. cbn [brk] in C1. rewrite Forall_forall in Had. split.
    + intros x gx c [[-> ->]|(gy & Hy & ->)]%Hsub Hcx; [apply Had in Hcx; lia|]. specialize (C1 _ _ _ Hy Hcx). lia.
    + intros x gx c x' gx' c' [[-> ->]|(gy & Hy & ->)]%Hsub [[-> ->]|(gy' & Hy' & ->)]%Hsub Hxx Hcx Hcx'.
      * done.
      * apply Had in Hcx. specialize (C1 _ _ _ Hy' Hcx'). lia.
      * apply Had in Hcx'. specialize (C1 _ _ _ Hy Hcx). lia.
      * by apply (C2 _ _ _ _ _ _ Hy Hy').
  - by rewrite Hgp'.
Qed.

(** *** The data of the groups *)

(** All of a group but its percentages and its pointers down and aside *)
Definition data g :=
  (name g, (resgroup g, cresgroup g, shares g), (usage g, temp_usage g, usage_factor g), gpath g, parent g).
Definition datas t := (fun n => (n.1, data n.2)) <$> nodes t.

Lemma datas_tins p a g t : NoDup (addrs t) -> p ∈ addrs t -> datas (tins p a g t) ≡ₚ (a, data g) :: datas t.
Proof. apply (tins_nodes (fun x g => (x, data g))). done. Qed.

Lemma datas_perc t : forall pt shrs, datas (perc_tree pt shrs t) = datas t.
Proof.
  unfold datas. induction t as [|a g ch IH1 sib IH2]; intros; [done|]. cbn. rewrite !fmap_app, IH1, IH2. f_equal. f_equal.
  unfold perc_node. by destruct (share_percentages _ _ _).
Qed.

Lemma datas_treplace u ch' t g ch : NoDup (addrs t) -> below u t = Some (g, ch) -> datas ch' = datas ch ->
  datas (treplace u ch' t) = datas t.
Proof.
  unfold datas. intros Hnd Hb Hd. induction t as [|x gx c IH1 s IH2]; [done|]. cbn [below treplace] in *.
  apply NoDup_node in Hnd as (H1 & H2 & H3 & H4 & H5). destruct (Z.eqb_spec x u) as [->|Hne].
  - injection Hb as -> ->. cbn. by rewrite !fmap_app, Hd.
  - cbn. rewrite !fmap_app. destruct (below u s) as [q|] eqn:E.
    + injection Hb as ->. rewrite IH2 by done. rewrite (treplace_out u ch' c); [done|].
      destruct (below_spec _ _ _ _ E) as (Hin & _). apply elem_addrs in Hin. intros Hc. by apply (H3 u Hc).
    + rewrite IH1 by done. rewrite (treplace_out u ch' s); [done|].
      intros Hs. destruct (below_some u s Hs) as (? & ? & Hx). congruence.
Qed.

Lemma datas_elem t a d : (a, d) ∈ datas t -> exists g, (a, g) ∈ nodes t /\ data g = d.
Proof. intros ([x g] & [= -> ->] & Hin)%list_elem_of_fmap. eauto. Qed.

Lemma elem_datas t a g : (a, g) ∈ nodes t -> (a, data g) ∈ datas t.
Proof. intros Hin. apply list_elem_of_fmap. by exists (a, g). Qed.

Lemma treplace_whole u ch' r g0 t : exists t', treplace u ch' (whole r g0 t) = whole r g0 t'.
Proof. cbn. case_if; eauto. Qed.

(** A walk leaves every cell its name, its path and its pointers. *)
Lemma put_frame t : forall t' m a g, tsame t t' -> stored m t -> NoDup (addrs t) -> m !! a = Some g ->
  exists g', put t' m !! a = Some g' /\ frame_of g' = frame_of g.
Proof.
  induction t as [|x gx ch IH1 sib IH2]; intros [|x' gx' ch' sib'] m a g; try done; [by eauto|].
  intros (-> & Hf & Hs1 & Hs2) (Hx & Hst1 & Hst2)%stored_node (H1 & H2 & H3 & H4 & H5)%NoDup_node Ha. cbn.
  destruct (decide (a = x)) as [->|Hne].
  - rewrite lookup_insert_eq. eexists. split; [done|]. congruence.
  - rewrite lookup_insert_ne by done. destruct (IH2 _ _ _ _ Hs2 Hst2 H5 Ha) as (g1 & Hg1 & <-).
    apply (IH1 _ _ _ _ Hs1); try done. apply stored_put_other; [|done].
    by rewrite (proj1 (tsame_facts _ _ Hs2)).
Qed.

(** [calc_fair_share_perc] on the level below a group *)
Lemma level_percentages m b r g0 t u gu lvl :
  fair_tree (Heap m b) r g0 t -> below u (whole r g0 t) = Some (gu, lvl) ->
  exists z h' t', calc_fair_share_perc (child gu) UNSPECIFIED (Heap m b) = Some (z, h') /\
    brk h' = b /\ cells h' = put (perc_tree (tree_percentage gu) UNSPECIFIED lvl) m /\
    fair_tree h' r g0 t' /\ datas (whole r g0 t') = datas (whole r g0 t) /\
    (forall a g, m !! a = Some g -> exists g', cells h' !! a = Some g' /\ frame_of g' = frame_of g).
Proof.
  intros F Hb. pose proof (ft_held _ _ _ _ F) as H. cbn [cells] in H.
  destruct (below_spec _ _ _ _ Hb) as (Hin & _ & Hlvl & Hpl). destruct (Hlvl m H) as (Hl & Hul & Hc).
  pose proof (stored_lookup _ _ _ _ (held_stored _ _ H) Hin) as Hmu.
  assert (exists path, placed u path lvl) as [path Hplu].
  { cbn [below] in Hb. destruct (Z.eqb_spec r u) as [->|Hne].
    - injection Hb as -> ->. exists [u]. apply F.
    - destruct (below_spec _ _ _ _ Hb) as (_ & _ & _ & Hp). eexists. eapply Hp, F. }
  set (lvl' := perc_tree (tree_percentage gu) UNSPECIFIED lvl).
  destruct (treplace_same u lvl' _ _ _ m H Hb (tsame_perc _ _ _)) as [Hsame Hput].
  destruct (treplace_whole u lvl' r g0 t) as [t' Ht']. rewrite Ht' in *.
  eexists _, (Heap (put lvl' m) b), t'. split_and!; [|done|done| | |].
  - rewrite Hc. apply (fueled_held _ m b lvl); [done|]. intros n Hn.
    apply (perc_rec lvl n m b u path UNSPECIFIED gu); done.
  - rewrite <-Hput. apply (fair_same _ _ _ _ _ _ F Hsame).
  - rewrite <-Ht'. apply (datas_treplace u lvl' _ gu lvl); [apply H|done|]. apply datas_perc.
  - intros a g. apply (put_frame lvl); [apply tsame_perc|apply Hl..].
Qed.

(** The unknown group is there. *)
Lemma unknown_found h r g0 t : fair_tree h r g0 t ->
  exists u gu, tfind UNKNOWN_GROUP_NAME (whole r g0 t) = u /\ ((u, gu) ∈ nodes (whole r g0 t)) /\
               name gu = Some UNKNOWN_GROUP_NAME.
Proof.
  intros F. destruct (tfind_spec UNKNOWN_GROUP_NAME (whole r g0 t)) as [[_ Hno]|[_ (g & Hin & Hg)]];
    [apply F| |eauto].
  destruct Hno. pose proof (ft_unknown _ _ _ _ F). unfold names. cbn. by right.
Qed.

Lemma add_unknown_ok m b r g0 t a ga s :
  fair_tree (Heap m b) r g0 t -> m !! a = Some ga -> a ∉ addrs (whole r g0 t) -> child ga = NULL ->
  name ga = Some s -> Some s ∉ names (whole r g0 t) ->
  exists h' u gu path g0' t', add_unknown a r (Heap m b) = Some (tt, h') /\ fair_tree h' r g0' t' /\
    ((u, gu) ∈ nodes (whole r g0 t)) /\ name gu = Some UNKNOWN_GROUP_NAME /\
    datas (whole r g0' t') ≡ₚ (a, data (child_of u gu ga path)) :: datas (whole r g0 t) /\
    exists g, cells h' !! a = Some g /\ child g = child ga.
Proof.
  intros F Hma Ha Hch Hna Hsn. destruct (unknown_found _ _ _ _ F) as (u & gu & Hu & Hin & Hgu).
  unfold add_unknown. mstep (fair_find _ _ _ _ UNKNOWN_GROUP_NAME F). rewrite Hu.
  destruct (add_child_tree m b r g0 t a ga u s F Hma Ha Hch Hna Hsn (elem_addrs _ _ _ Hin))
    as (gu2 & path & g1 & t1 & b1 & Hin2 & E & Ht1 & F1).
  pose proof (ft_held _ _ _ _ F) as H. cbn [cells] in H.
  assert (gu2 = gu) as ->.
  { pose proof (stored_lookup _ _ _ _ (held_stored _ _ H) Hin). pose proof (stored_lookup _ _ _ _ (held_stored _ _ H) Hin2).
    congruence. }
  mstep E. assert (a <> u) as Hau by (intros ->; by apply elem_addrs in Hin).
  set (g := child_of u gu ga path) in *.
  assert (<[a := g]> (<[u := set_child a gu]> m) !! u = Some (set_child a gu)) as Hmu
    by (rewrite lookup_insert_ne by done; apply lookup_insert_eq).
  mstep (load_ok _ b1 u _ Hmu).
  assert (u ∈ addrs (whole r g1 t1)) as Hu1.
  { rewrite <-Ht1, (addrs_tins u a g); [by right; eapply elem_addrs|apply H|by eapply elem_addrs]. }
  destruct (below_some _ _ Hu1) as (gu1 & lvl & Hb).
  pose proof (below_spec _ _ _ _ Hb) as (Hgu1 & _).
  pose proof (stored_lookup _ _ _ _ (held_stored _ _ (ft_held _ _ _ _ F1)) Hgu1) as Hmu1. cbn [cells] in Hmu1.
  rewrite Hmu in Hmu1. injection Hmu1 as <-.
  destruct (level_percentages _ _ _ _ _ _ _ _ F1 Hb) as (z & h' & t' & E' & _ & _ & F' & Hd & Hfr).
  mstep E'. exists h', u, gu, path, g1, t'. split_and!; try done.
  2:{ destruct (Hfr a g) as (g' & Hg' & [= _ _ _ _ Hcg]); [apply lookup_insert_eq|]. by exists g'. }
  rewrite Hd, <-Ht1. apply datas_tins; [apply H|by eapply elem_addrs].
Qed.

(** ** Looking an entity up, or making it *)

Lemma find_alloc_ok h r g0 t s : fair_tree h r g0 t ->
  exists a h' g0' t', find_alloc_ginfo (Some s) r h = Some (a, h') /\ fair_tree h' r g0' t' /\
    (Some s ∈ names (whole r g0 t) -> h' = h /\ g0' = g0 /\ t' = t /\
       exists g, ((a, g) ∈ nodes (whole r g0 t)) /\ name g = Some s) /\
    (Some s ∉ names (whole r g0 t) ->
       exists g u gu, ((u, gu) ∈ nodes (whole r g0 t)) /\ name gu = Some UNKNOWN_GROUP_NAME /\
         name g = Some s /\ parent g = u /\ shares g = 1 /\ usage g = dbl_of_Z 1 /\ resgroup g = cresgroup gu /\
         ((a, g) ∈ nodes (whole r g0' t')) /\ child g = NULL /\
         datas (whole r g0' t') ≡ₚ (a, data g) :: datas (whole r g0 t)).
Proof.
  intros F. pose proof (ft_held _ _ _ _ F) as H. destruct (whole_stored _ _ _ _ H) as (_ & Hr0 & _).
  unfold find_alloc_ginfo. rewrite (not_null r Hr0). mstep (fair_find h r g0 t s F).
  destruct (tfind_spec s (whole r g0 t) (held_linked _ _ H)) as [[-> Hno]|[Hnz (g & Hin & Hg)]].
  - cbn [Z.eqb]. change (NULL =? NULL) with true. cbn iota. destruct h as [m b].
    destruct (new_group_ok m b r g0 t F) as (gn & E & Fn & Hbn & Hcn & Hun). mstep E.
    mstep (upd_ok (<[b := gn]> m) (b + 1) b gn (set_name s) (lookup_insert_eq _ _ _)).
    rewrite insert_insert_eq.
    mstep (upd_ok (<[b := set_name s gn]> m) (b + 1) b _ (set_shares 1) (lookup_insert_eq _ _ _)).
    rewrite insert_insert_eq. set (ga := set_shares 1 (set_name s gn)).
    assert (fair_tree (Heap (<[b := ga]> m) (b + 1)) r g0 t) as Fa.
    { eapply fair_outside; [exact F|done|lia|]. pose proof (proj1 (ft_brk _ _ _ _ F)). cbn in *. lia. }
    destruct (add_unknown_ok _ _ _ _ _ b ga s Fa (lookup_insert_eq _ _ _) Hbn Hcn eq_refl Hno)
      as (h' & u & gu & path & g0' & t' & E' & F' & Hin & Hgu & Hd & gb & Hgb & Hcb).
    mstep E'. exists b, h', g0', t'. split_and!; [done|done|done|]. intros _.
    assert ((b, data (child_of u gu ga path)) ∈ datas (whole r g0' t')) as Hin' by (rewrite Hd; left).
    apply datas_elem in Hin' as (g & Hin' & Hdg). exists g, u, gu.
    rewrite Hdg. injection Hdg as H1 H2 H3 H4 H5 H6 H7 H8 H9.
    assert (gb = g) as ->
      by (pose proof (stored_lookup _ _ _ _ (held_stored _ _ (ft_held _ _ _ _ F')) Hin'); congruence).
    split_and!; try done; [by rewrite H5|by rewrite Hcb].
  - rewrite (not_null _ Hnz). exists (tfind s (whole r g0 t)), h, g0, t.
    assert (Some s ∈ names (whole r g0 t)) as Hs
      by (apply list_elem_of_fmap; exists (tfind s (whole r g0 t), g); by split).
    split_and!; [done|done| |done]. intros _. split_and!; try done. eauto.
Qed.

End FairOps.
