(* ===== verification/FairGroups.v ===== *)
(** * Reading the resource groups

    Module [FairGroups]: [preload_tree] and [parse_group] of
    [src/scheduler/fairshare.c] make a fairshare tree, and every line of the
    resource group file that names a new entity of a known group adds it. *)

From Stdlib Require Import ZArith Lia Ascii String SpecFloat.
From stdpp Require Import gmap.
From S2P Require Import Prelude Doubles TextFile FairTree FairShape FairWf FairOps.
Import Double Float Text Fair FairShape FairWf FairOps.

Module FairGroups.

Implicit Types (t : tree) (m : gmap Z group_info) (g : group_info).

Lemma preload_ok m b unknown_shares :
  0 < b -> (forall a, is_Some (m !! a) -> 0 < a < b) ->
  exists h' r g0 t, preload_tree unknown_shares (Heap m b) = Some (FairshareHead r 0, h') /\ fair_tree h' r g0 t /\
    (forall a, a < b -> cells h' !! a = m !! a) /\
    names (whole r g0 t) = [Some FAIRSHARE_ROOT_NAME; Some UNKNOWN_GROUP_NAME] /\ tree_percentage g0 = flt_one.
Proof.
  intros Hb Hm. unfold preload_tree, new_group_info. msimp. set (gr := GroupInfo _ _ _ _ _ _ _ _ _ _ _ _ _).
  mstep (eq_refl : alloc gr (Heap m b) = Some (b, Heap (<[b := gr]> m) (b + 1))).
  erewrite bind_eq by apply upd_ok, lookup_insert_eq. rewrite insert_insert_eq.
  erewrite bind_eq by apply upd_ok, lookup_insert_eq. rewrite insert_insert_eq.
  erewrite bind_eq by apply upd_ok, lookup_insert_eq. rewrite insert_insert_eq.
  match goal with |- context [<[b := ?g]> m] => set (g0 := g) end.
  set (m1 := <[b := g0]> m). set (u := b + 1).
  mstep (eq_refl : alloc gr (Heap m1 u) = Some (u, Heap (<[u := gr]> m1) (u + 1))).
  erewrite bind_eq by apply upd_ok, lookup_insert_eq. rewrite insert_insert_eq.
  erewrite bind_eq by apply upd_ok, lookup_insert_eq. rewrite insert_insert_eq.
  erewrite bind_eq by apply upd_ok, lookup_insert_eq. rewrite insert_insert_eq.
  erewrite bind_eq by apply upd_ok, lookup_insert_eq. rewrite insert_insert_eq.
  match goal with |- context [<[u := ?g]> m1] => set (gu := g) end.
  assert (u <> b) as Hub by (unfold u; lia). assert (b <> NULL) as Hb0 by (unfold NULL; lia).
  assert (u <> NULL) as Hu0 by (unfold u, NULL; lia).
  assert (<[u := gu]> m1 !! b = Some g0) as Hmb by (rewrite lookup_insert_ne by done; apply lookup_insert_eq).
  assert (chain (<[u := gu]> m1) b [b]) as Hc by (apply (chain_group _ b g0 []); [done..|constructor]).
  destruct (add_child_ok (<[u := gu]> m1) (u + 1) u gu b g0 [b] Hu0 Hb0 Hub (lookup_insert_eq _ _ _) Hmb Hc
    ltac:(set_solver)) as (path & E & Hpath & Had).
  mstep E. set (g := child_of b g0 gu path) in *.
  eexists _, b, (set_child u g0), (Node u g Leaf Leaf). split; [done|]. cbn [cells brk].
  split; [split; cbn [cells brk]|split_and!].
  - split.
    + cbn. split_and!; done.
    + rewrite stored_node. split_and!; [|rewrite stored_node; split_and!|constructor]; try constructor.
      * rewrite lookup_insert_ne by done. apply lookup_insert_eq.
      * apply lookup_insert_eq.
    + unfold addrs. cbn. apply NoDup_cons. split; [set_solver|]. apply NoDup_singleton.
  - done.
  - cbn. split_and!; done.
  - unfold all_named. cbn. repeat constructor; eexists; done.
  - unfold names. cbn. apply NoDup_cons. split; [|apply NoDup_singleton]. rewrite list_elem_of_singleton. done.
  - split; [unfold u; lia|]. intros x Hx. rewrite !lookup_insert_is_Some in Hx. unfold m1 in Hx.
    rewrite lookup_insert_is_Some in Hx.
    destruct (decide (is_Some (m !! x))) as [Hd|Hd]; [specialize (Hm x Hd); unfold u; lia|]. unfold u in *. naive_solver lia.
  - unfold names. cbn. left.
  - rewrite Forall_forall in Had. split; cbn [nodes app].
    + intros x gx c [= -> ->]%list_elem_of_singleton Hcx. change (gpath g) with path in Hcx. apply Had in Hcx. cbn in *. lia.
    + intros x gx c x' gx' c' [= -> ->]%list_elem_of_singleton [= -> ->]%list_elem_of_singleton. done.
  - done.
  - intros x Hx. rewrite !lookup_insert_ne by (unfold u; lia). unfold m1. by rewrite lookup_insert_ne by lia.
  - done.
  - done.
Qed.

(** ** A line *)

(** The name, the group of the children, the parent's name and the shares of a
    line that is well formed *)
Definition line_entity (buf : cstring) : option (cstring * Z * cstring * Z) :=
  let '(nametok, s) := strtok BLANKS buf in
  let '(cgrouptok, s) := strtok BLANKS s in
  let '(grouptok, s) := strtok BLANKS s in
  let '(sharestok, _) := strtok BLANKS s in
  match nametok, cgrouptok, grouptok, sharestok with
  | Some nm, Some cg, Some gr, Some sh =>
      let '(shrs, e1) := strtol10 sh in
      let '(cgroup, e2) := strtol10 cg in
      if is_char (deref e1) NUL && is_char (deref e2) NUL
      then Some (nm, int32 cgroup, if streq gr (lit "root") then FAIRSHARE_ROOT_NAME else gr, int32 shrs)
      else None
  | _, _, _, _ => None
  end.

Lemma tfind_names h r g0 t s : fair_tree h r g0 t ->
  (tfind s (whole r g0 t) = NULL <-> Some s ∉ names (whole r g0 t)).
Proof.
  intros F. destruct (tfind_spec s (whole r g0 t)) as [[H1 H2]|[H1 (g & Hin & Hg)]]; [apply F|done|].
  split; [done|]. intros Hno. destruct Hno. apply list_elem_of_fmap. by exists (tfind s (whole r g0 t), g).
Qed.

(** A line of an entity that is new, below a group that is known *)
Lemma group_line_ok h r g0 t buf nm cg par sh :
  fair_tree h r g0 t -> line_entity buf = Some (nm, cg, par, sh) ->
  Some nm ∉ names (whole r g0 t) -> Some par ∈ names (whole r g0 t) ->
  exists h' g0' t' a p gp g, parse_group_line buf r h = Some (tt, h') /\ fair_tree h' r g0' t' /\
    ((p, gp) ∈ nodes (whole r g0 t)) /\ name gp = Some par /\
    name g = Some nm /\ parent g = p /\ resgroup g = cresgroup gp /\ cresgroup g = cg /\ shares g = sh /\
    datas (whole r g0' t') ≡ₚ (a, data g) :: datas (whole r g0 t).
Proof.
  intros F. unfold line_entity, parse_group_line.
  destruct (strtok BLANKS buf) as [[nm'|] s1], (strtok BLANKS s1) as [[cg'|] s2],
    (strtok BLANKS s2) as [[gr'|] s3], (strtok BLANKS s3) as [[sh'|] s4]; try done.
  destruct (strtol10 sh') as [v e1]. destruct (strtol10 cg') as [c e2].
  destruct (is_char (deref e1) NUL) eqn:E1; [|done]. destruct (is_char (deref e2) NUL) eqn:E2; [|done].
  cbn [andb negb]. intros [= -> <- <- <-] Hno Hpar. set (par := if streq gr' (lit "root") then FAIRSHARE_ROOT_NAME else gr') in *.
  mstep (fair_find h r g0 t nm F). rewrite (proj2 (tfind_names _ _ _ _ _ F) Hno). change (NULL =? NULL) with true.
  cbn [negb]. mstep (fair_find h r g0 t par F).
  pose proof (ft_held _ _ _ _ F) as H.
  destruct (tfind_spec par _ (held_linked _ _ H)) as [[_ Hx]|[Hnz (gp & Hin & Hgp)]]; [done|].
  set (p := tfind par (whole r g0 t)) in *. rewrite (not_null _ Hnz). destruct h as [m b].
  destruct (new_group_ok m b r g0 t F) as (gn & E & Fn & Hbn & Hcn & _). mstep E.
  mstep (upd_ok (<[b := gn]> m) (b + 1) b gn (set_name nm) (lookup_insert_eq _ _ _)). rewrite insert_insert_eq.
  assert (b <> p) as Hbp by (intros ->; by apply elem_addrs in Hin).
  assert (<[b := set_name nm gn]> m !! p = Some gp) as Hmp.
  { rewrite lookup_insert_ne by done. apply (stored_lookup _ _ _ _ (held_stored _ _ H) Hin). }
  mstep (load_ok _ (b + 1) p gp Hmp).
  mstep (upd_ok (<[b := set_name nm gn]> m) (b + 1) b _ (set_groups (cresgroup gp) (int32 c)) (lookup_insert_eq _ _ _)).
  rewrite insert_insert_eq.
  match goal with |- context [<[b := ?g]> m] => mstep (upd_ok (<[b := g]> m) (b + 1) b _ (set_shares (int32 v)) (lookup_insert_eq _ _ _)) end.
  rewrite insert_insert_eq. match goal with |- context [<[b := ?g]> m] => set (ga := g) end.
  assert (fair_tree (Heap (<[b := ga]> m) (b + 1)) r g0 t) as Fa.
  { eapply fair_outside; [exact F|done|lia|]. pose proof (proj1 (ft_brk _ _ _ _ F)). cbn in *. lia. }
  destruct (add_child_tree _ _ _ _ _ b ga p nm Fa (lookup_insert_eq _ _ _) Hbn Hcn eq_refl Hno (elem_addrs _ _ _ Hin))
    as (gp2 & path & g0' & t' & b' & Hin2 & E' & Ht & F').
  assert (gp2 = gp) as ->.
  { pose proof (stored_lookup _ _ _ _ (held_stored _ _ H) Hin). pose proof (stored_lookup _ _ _ _ (held_stored _ _ H) Hin2).
    congruence. }
  eexists _, g0', t', b, p, gp, (child_of p gp ga path). split_and!; try done.
  rewrite <-Ht. apply datas_tins; [apply H|by eapply elem_addrs].
Qed.

(** Any other line changes nothing. *)
Lemma group_line_skip h r g0 t buf :
  fair_tree h r g0 t ->
  (forall nm cg par sh, line_entity buf = Some (nm, cg, par, sh) ->
     Some nm ∉ names (whole r g0 t) -> Some par ∉ names (whole r g0 t)) ->
  parse_group_line buf r h = Some (tt, h).
Proof.
  intros F. unfold line_entity, parse_group_line.
  destruct (strtok BLANKS buf) as [[nm'|] s1], (strtok BLANKS s1) as [[cg'|] s2],
    (strtok BLANKS s2) as [[gr'|] s3], (strtok BLANKS s3) as [[sh'|] s4]; try done.
  destruct (strtol10 sh') as [v e1] eqn:E1. destruct (strtol10 cg') as [c e2] eqn:E2.
  intros Hno. mstep (fair_find h r g0 t nm' F).
  destruct (tfind nm' _ =? NULL) eqn:En; [|done]. cbn [negb]. apply Z.eqb_eq, (tfind_names _ _ _ _ _ F) in En.
  mstep (fair_find h r g0 t (if streq gr' (lit "root") then FAIRSHARE_ROOT_NAME else gr') F).
  destruct (tfind _ _ =? NULL) eqn:Ep; [done|].
  destruct (is_char (deref e1) NUL), (is_char (deref e2) NUL); try done. cbn in Hno.
  specialize (Hno _ _ _ _ eq_refl En). apply (tfind_names _ _ _ _ _ F) in Hno.
  apply Z.eqb_neq in Ep. by destruct Ep.
Qed.

Lemma group_line_total h r g0 t buf : fair_tree h r g0 t ->
  exists h' g0' t', parse_group_line buf r h = Some (tt, h') /\ fair_tree h' r g0' t'.
Proof.
  intros F. destruct (line_entity buf) as [[[[nm cg] par] sh]|] eqn:E.
  - destruct (decide (Some nm ∈ names (whole r g0 t))) as [Hin|Hno];
      [|destruct (decide (Some par ∈ names (whole r g0 t))) as [Hin|Hno']].
    + exists h, g0, t. split; [|done]. apply (group_line_skip _ _ _ _ _ F). intros ????. rewrite E. intros [= <- <- <- <-]. done.
    + destruct (group_line_ok _ _ _ _ _ _ _ _ _ F E Hno Hin) as (h' & g0' & t' & _ & _ & _ & _ & H1 & H2 & _). eauto.
    + exists h, g0, t. split; [|done]. apply (group_line_skip _ _ _ _ _ F). intros ????. rewrite E. by intros [= <- <- <- <-].
  - exists h, g0, t. split; [|done]. apply (group_line_skip _ _ _ _ _ F). intros ????. by rewrite E.
Qed.

(** ** The file *)

Lemma fgets_line fp : (NUL ∉ fp) -> fp <> [] ->
  exists buf rest b', fgets 256 fp = Some (buf, rest) /\ chop_newline buf = Some b' /\ (NUL ∉ rest) /\
    (length rest < length fp)%nat.
Proof.
  intros Hn Hne. destruct fp as [|c fp]; [done|].
  assert (forall n fp, (NUL ∉ fp) -> (NUL ∉ (fgets_chars n fp).1) /\ (NUL ∉ (fgets_chars n fp).2)) as Hch.
  { clear. induction n as [|n IH]; intros [|c fp] H; cbn [fgets_chars]; try by split; [apply not_elem_of_nil|].
    apply not_elem_of_cons in H as [H1 H2]. destruct (is_char c NEWLINE).
    - split; [|done]. by apply not_elem_of_cons; split; [|apply not_elem_of_nil].
    - specialize (IH fp H2). destruct (fgets_chars n fp). split; [|apply IH].
      apply not_elem_of_cons. split; [done|apply IH]. }
  destruct (Hch (Z.to_nat (256 - 1)) _ Hn) as [H1 H2].
  destruct (fgets_chars (Z.to_nat (256 - 1)) (c :: fp)) as [l r] eqn:Ec. cbn [fst snd] in H1, H2.
  assert (fgets 256 (c :: fp) = Some (cstr l, r)) as E by (unfold fgets; by rewrite Ec).
  pose proof (fgets_shorter (c :: fp) 256 _ _ ltac:(lia) E) as Hlen. rewrite E.
  rewrite (cstr_id l H1). assert (l <> []) as Hl.
  { assert (exists k, Z.to_nat (256 - 1) = S k) as [k Hk] by by exists 254%nat.
    rewrite Hk in Ec. cbn [fgets_chars] in Ec.
    destruct (is_char c NEWLINE); [congruence|]. destruct (fgets_chars k fp). congruence. }
  exists l, r. unfold chop_newline. destruct (List.rev l) as [|x y] eqn:Er.
  - apply (f_equal (@List.rev ascii)) in Er. rewrite List.rev_involutive in Er. done.
  - eexists. split_and!; try done.
Qed.

Lemma parse_group_total file r : forall h g0 t, fair_tree h r g0 t -> (NUL ∉ default [] file) ->
  exists z h' g0' t', parse_group file r h = Some (z, h') /\ fair_tree h' r g0' t' /\
    z = (match file with Some _ => 1 | None => 0 end).
Proof.
  destruct file as [fp|]; cbn [default parse_group]; [|intros; eexists _, _, _, _; eauto].
  intros h g0 t F Hn. exists 1. cbn.
  enough (forall n fp h g0 t, fair_tree h r g0 t -> (NUL ∉ fp) -> (length fp < n)%nat ->
    exists h' g0' t', parse_group_loop n fp r h = Some (1, h') /\ fair_tree h' r g0' t') as Hl.
  { destruct (Hl (S (length fp)) fp h g0 t F Hn ltac:(lia)) as (h' & g0' & t' & H1 & H2). by exists h', g0', t'. }
  clear. induction n as [|n IH]; intros fp h g0 t F Hn Hlen; [lia|]. cbn [parse_group_loop].
  destruct (decide (fp = [])) as [->|Hne]; [by exists h, g0, t|].
  destruct (fgets_line fp Hn Hne) as (buf & rest & b' & -> & -> & Hn' & Hlt).
  destruct (skip_line b'); [apply (IH rest h g0 t); [done..|lia]|].
  destruct (group_line_total _ _ _ _ b' F) as (h1 & g1 & t1 & E & F1). mstep E.
  apply (IH rest h1 g1 t1); [done..|lia].
Qed.

End FairGroups.
