(* ===== verification/FairUsage.v ===== *)
(** * Usage in the fairshare tree

    Module [FairUsage]: what running a job, decaying, writing and reading the
    usage file do to the usage of the groups ([src/scheduler/fairshare.c] and
    [init_scheduling_cycle] of [src/scheduler/fifo.c]). *)

From Stdlib Require Import ZArith Lia Ascii String SpecFloat.
From stdpp Require Import gmap.
From S2P Require Import Prelude Doubles TextFile FairTree FairShape FairWf FairOps.
Import Double Float Text Fair FairShape FairWf FairOps.

Module FairUsage.

Implicit Types (t : tree) (m : gmap Z group_info) (g : group_info).

(** ** Changes that leave the frame of every group *)

Definition same_frames m m' : Prop :=
  forall a, option_relation (fun g g' => frame_of g' = frame_of g) (fun _ => False) (fun _ => False) (m !! a) (m' !! a).

Fixpoint reload m t : tree :=
  match t with Leaf => Leaf | Node a g ch sib => Node a (default g (m !! a)) (reload m ch) (reload m sib) end.

Lemma reload_same m m' t : same_frames m m' -> stored m t -> tsame t (reload m' t) /\ stored m' (reload m' t).
Proof.
  intros Hf. induction t as [|a g ch IH1 sib IH2]; [by repeat constructor|]. rewrite stored_node.
  intros (Hm & [S1 T1]%IH1 & [S2 T2]%IH2). specialize (Hf a). rewrite Hm in Hf. cbn in *.
  destruct (m' !! a) as [g'|] eqn:E; [|done]. cbn. split; [done|]. by rewrite stored_node.
Qed.

Lemma fair_frames h h' r g0 t : fair_tree h r g0 t -> same_frames (cells h) (cells h') -> brk h' = brk h ->
  exists g0' t', fair_tree h' r g0' t' /\ tsame (whole r g0 t) (whole r g0' t').
Proof.
  intros F Hf Hb. pose proof (held_stored _ _ (ft_held _ _ _ _ F)) as Hs.
  destruct (reload_same _ _ _ Hf Hs) as [H1 H2]. exists (default g0 (cells h' !! r)), (reload (cells h') t).
  cbn [reload] in H1, H2. split; [|done]. pose proof (fair_same _ _ _ _ _ _ F H1) as F'.
  destruct F' as [A B C D E G H I J]. split; try done; [| |by rewrite Hb].
  - split; [apply A|done|apply A].
  - rewrite Hb. destruct G as [G1 G2]. split; [done|]. cbn in G2. intros a [g Ha]. apply (proj2 (ft_brk _ _ _ _ F)). specialize (Hf a). rewrite Ha in Hf.
    by destruct (cells h !! a).
Qed.

Lemma same_frames_refl m : same_frames m m.
Proof. intros a. by destruct (m !! a). Qed.

Lemma same_frames_trans m1 m2 m3 : same_frames m1 m2 -> same_frames m2 m3 -> same_frames m1 m3.
Proof.
  intros H1 H2 a. specialize (H1 a). specialize (H2 a).
  destruct (m1 !! a), (m2 !! a), (m3 !! a); cbn in *; try done. congruence.
Qed.

(** ** Along a path *)

(** [f] applied to every group of a list *)
Definition at_all (f : group_info -> group_info) (l : list Z) (a : Z) g : group_info :=
  if bool_decide (a ∈ l) then f g else g.

Lemma at_all_imap f l m a g : (forall g, frame_of (f g) = frame_of g) -> NoDup (a :: l) -> m !! a = Some g ->
  map_imap (fun x gx => Some (at_all f l x gx)) (<[a := f g]> m) = map_imap (fun x gx => Some (at_all f (a :: l) x gx)) m.
Proof.
  intros _ [Ha Hl]%NoDup_cons Hm. apply map_eq. intros x. rewrite !map_lookup_imap.
  destruct (decide (x = a)) as [->|Hne].
  - rewrite lookup_insert_eq, Hm. cbn. unfold at_all. rewrite bool_decide_false, bool_decide_true by set_solver. done.
  - rewrite lookup_insert_ne by done. destruct (m !! x); [|done]. cbn. unfold at_all.
    f_equal. assert (x ∈ a :: l <-> x ∈ l) as He by (rewrite elem_of_cons; naive_solver).
    by rewrite (bool_decide_ext _ _ He).
Qed.

Lemma imap_frames f l m : (forall g, frame_of (f g) = frame_of g) ->
  same_frames m (map_imap (fun x gx => Some (at_all f l x gx)) m).
Proof.
  intros Hf a. rewrite map_lookup_imap. destruct (m !! a); [|done]. cbn. unfold at_all. by case_bool_decide.
Qed.

Lemma add_temp_ok u gp : forall m b, NoDup (gp_ginfo <$> gp) -> (forall a, a ∈ gp_ginfo <$> gp -> is_Some (m !! a)) ->
  add_temp_usage u gp (Heap m b)
  = Some (tt, Heap (map_imap (fun x gx => Some (at_all (fun g => set_temp_usage (dbl_add (temp_usage g) u) g) (gp_ginfo <$> gp) x gx)) m) b).
Proof.
  induction gp as [|c gp IH]; intros m b Hnd Hin; cbn [add_temp_usage].
  - unfold ret. do 3 f_equal. apply map_eq. intros x. rewrite map_lookup_imap. by destruct (m !! x).
  - cbn [fmap list_fmap] in *. destruct (Hin (gp_ginfo c) ltac:(left)) as [g Hg].
    mstep (upd_ok m b _ g (fun g => set_temp_usage (dbl_add (temp_usage g) u) g) Hg).
    rewrite IH; [|by inversion Hnd|].
    + by rewrite (at_all_imap (fun g => set_temp_usage (dbl_add (temp_usage g) u) g)) by done.
    + intros a Ha. apply lookup_insert_is_Some'. right. apply Hin. by right.
Qed.

Lemma add_usage_ok u gp : forall m b, NoDup (gp_ginfo <$> gp) -> (forall a, a ∈ gp_ginfo <$> gp -> is_Some (m !! a)) ->
  add_usage u gp (Heap m b)
  = Some (tt, Heap (map_imap (fun x gx => Some (at_all (fun g => set_usage (dbl_add (usage g) u) g) (gp_ginfo <$> gp) x gx)) m) b).
Proof.
  induction gp as [|c gp IH]; intros m b Hnd Hin; cbn [add_usage].
  - unfold ret. do 3 f_equal. apply map_eq. intros x. rewrite map_lookup_imap. by destruct (m !! x).
  - cbn [fmap list_fmap] in *. destruct (Hin (gp_ginfo c) ltac:(left)) as [g Hg].
    mstep (upd_ok m b _ g (fun g => set_usage (dbl_add (usage g) u) g) Hg).
    rewrite IH; [|by inversion Hnd|].
    + by rewrite (at_all_imap (fun g => set_usage (dbl_add (usage g) u) g)) by done.
    + intros a Ha. apply lookup_insert_is_Some'. right. apply Hin. by right.
Qed.

(** The path of a group of the tree *)
Lemma path_ok h r g0 t a g : fair_tree h r g0 t -> (a, g) ∈ nodes t ->
  NoDup (gp_ginfo <$> gpath g) /\ (forall x, x ∈ gp_ginfo <$> gpath g -> is_Some (cells h !! x)) /\
  exists l, gp_ginfo <$> gpath g = l ++ [a] /\ l <> [] /\ r ∈ l.
Proof.
  intros F Hin. pose proof (tree_chain _ _ _ _ _ _ F Hin) as Hc. split_and!.
  - by eapply chain_NoDup.
  - by eapply chain_dom.
  - assert (forall t par path, placed par path t -> (a, g) ∈ nodes t -> r ∈ path ->
      exists l, gp_ginfo <$> gpath g = l ++ [a] /\ l <> [] /\ r ∈ l) as Hgen.
    { clear. induction t as [|y gy ch IH1 sib IH2]; intros par path Hpl; [set_solver|].
      destruct Hpl as (_ & Hp & Hp1 & Hp2). cbn. rewrite elem_of_cons, elem_of_app. intros [[= -> ->]|[Hin|Hin]] Hr.
      - exists path. split_and!; [done|by intros ->; set_solver|done].
      - by eapply IH2.
      - eapply IH1; [done..|set_solver]. }
    eapply Hgen; [apply F|done|set_solver].
Qed.

(** Running a job adds its usage to its entity and to every group above it,
    once, and to nothing else. *)
Lemma update_usage_ok u h r g0 t a g : fair_tree h r g0 t -> (a, g) ∈ nodes t ->
  exists h' g0' t', update_usage_on_run u (Some (FsResv true (Some a))) h = Some (tt, h') /\
    fair_tree h' r g0' t' /\ tsame (whole r g0 t) (whole r g0' t') /\
    forall x gx, cells h !! x = Some gx ->
      cells h' !! x = Some (if bool_decide (x ∈ gp_ginfo <$> gpath g)
                            then set_temp_usage (dbl_add (temp_usage gx) u) gx else gx).
Proof.
  intros F Hin. destruct (path_ok _ _ _ _ _ _ F Hin) as (Hnd & Hdom & _). destruct h as [m b]. cbn [cells] in *.
  unfold update_usage_on_run. cbn [is_job job_ginfo]. pose proof (ft_held _ _ _ _ F) as H. cbn [cells] in H.
  assert ((a, g) ∈ nodes (whole r g0 t)) as Hin' by (cbn; by right).
  rewrite (not_null a) by apply (linked_addr _ (a, g) (held_linked _ _ H) Hin').
  mstep (load_ok m b a g (stored_lookup _ _ _ _ (held_stored _ _ H) Hin')). rewrite add_temp_ok by done.
  set (f := fun g => set_temp_usage (dbl_add (temp_usage g) u) g).
  set (m' := map_imap _ m).
  destruct (fair_frames (Heap m b) (Heap m' b) _ _ _ F (imap_frames f _ m ltac:(done)) eq_refl) as (g0' & t' & F' & Hs).
  exists (Heap m' b), g0', t'. split_and!; [done..|]. intros x gx Hx. cbn. unfold m'. rewrite map_lookup_imap, Hx. cbn.
  unfold at_all. by case_bool_decide.
Qed.

End FairUsage.

(** * Decay and the usage file

    Module [FairFile]: how often a cycle decays the fairshare tree, and that
    reading back the usage file that was written gives every entity its usage and
    every group the sum of its entities ([src/scheduler/fairshare.c],
    [init_scheduling_cycle] of [src/scheduler/fifo.c]). *)

Import Double Float Text Fair FairShape FairWf FairOps FairUsage.

Module FairFile.

Implicit Types (t : tree) (m : gmap Z group_info) (g : group_info).

(** ** Decay *)

(** The decays of a cycle [gap] seconds after the last decay *)
Definition decays (gap d : Z) : Z := if 0 <? gap then (gap - 1) / d else 0.

Lemma decays_step gap d : 0 < d -> d < gap -> 0 <= decays (gap - d) d /\ decays gap d = decays (gap - d) d + 1.
Proof.
  intros Hd Hg. unfold decays. rewrite !(proj2 (Z.ltb_lt 0 _)) by lia.
  split; [apply Z.div_pos; lia|]. replace (gap - 1) with ((gap - d - 1) + 1 * d) by lia. by rewrite Z.div_add by lia.
Qed.

Lemma decays_none gap d : 0 < d -> gap <= d -> decays gap d = 0.
Proof. intros Hd Hg. unfold decays. destruct (Z.ltb_spec 0 gap); [apply Z.div_small; lia|done]. Qed.

Lemma decays_nonneg gap d : 0 < d -> 0 <= decays gap d.
Proof. intros Hd. unfold decays. destruct (Z.ltb_spec 0 gap); [apply Z.div_pos; lia|done]. Qed.

Definition decay_times (factor : float) (k : nat) t : tree := Nat.iter k (tmap (decay_node factor)) t.

Lemma decay_times_whole factor k r g0 t :
  exists g0' t', decay_times factor k (whole r g0 t) = whole r g0' t' /\ tsame (whole r g0 t) (whole r g0' t').
Proof.
  induction k as [|k (g1 & t1 & IH & Hs)]; [exists g0, t; split; [done|apply tsame_refl]|].
  unfold decay_times in *. rewrite Nat.iter_succ, IH. eexists _, _. split; [done|].
  cbn. cbn in Hs. destruct Hs as (_ & Hf & Hst & _). split_and!; try done.
  apply (tsame_trans _ t1); [done|]. by apply tsame_tmap.
Qed.

Lemma decay_loop_ok factor d last r : forall n now h g0 t flag,
  fair_tree h r g0 t -> 0 < d -> 0 <= last <= LONG_MAX -> 0 <= now <= LONG_MAX -> decays (now - last) d < Z.of_nat n ->
  decay_loop n factor d now (FairshareHead r last) flag h
  = Some (flag || (0 <? decays (now - last) d),
          Heap (put (decay_times factor (Z.to_nat (decays (now - last) d)) (whole r g0 t)) (cells h)) (brk h)).
Proof.
  induction n as [|n IH]; intros now h g0 t flag F Hd Hl Ht Hn; [pose proof (decays_nonneg (now - last) d Hd); lia|].
  cbn [decay_loop last_decay fh_root]. rewrite (proj2 (Z.eqb_neq d SCHD_INFINITY)) by (unfold SCHD_INFINITY; lia).
  cbn [negb andb]. rewrite int64_id by (unfold LONG_MIN, LONG_MAX in *; lia).
  pose proof (ft_held _ _ _ _ F) as H. destruct h as [m b]. cbn [cells brk] in *.
  destruct (Z.ltb_spec d (now - last)) as [Hlt|Hge].
  - mstep (decay_tree factor (whole r g0 t) m b H).
    destruct (decays_step (now - last) d Hd Hlt) as [Hk0 Hk].
    replace (now - last - d) with (now - d - last) in Hk, Hk0 by lia. rewrite Hk in Hn |- *.
    rewrite int64_id by (unfold LONG_MIN, LONG_MAX in *; lia).
    pose proof (fair_same _ _ _ _ _ _ F (tsame_tmap (decay_node factor) (whole r g0 t) ltac:(done))) as F1.
    cbn [cells brk] in F1. erewrite IH; [|exact F1|done|done|unfold LONG_MAX in *; lia|lia].
    cbn [cells brk orb]. rewrite (proj2 (Z.ltb_lt 0 _)), orb_true_r by lia.
    do 3 f_equal. rewrite Z2Nat.inj_add, Nat.add_comm by lia. change (Z.to_nat 1) with 1%nat. cbn [Nat.add].
    unfold decay_times at 2. rewrite Nat.iter_succ_r.
    fold (decay_times factor (Z.to_nat (decays (now - d - last) d)) (tmap (decay_node factor) (whole r g0 t))).
    apply put_put.
    + destruct (decay_times_whole factor (Z.to_nat (decays (now - d - last) d)) r (decay_node factor g0)
        (tmap (decay_node factor) t)) as (g' & t' & E & Hs). cbn [tmap]. rewrite E.
      by rewrite (proj1 (tsame_facts _ _ Hs)).
    + rewrite addrs_tmap. apply H.
  - rewrite decays_none by lia. cbn [orb Z.ltb Z.compare]. rewrite orb_false_r.
    unfold ret, decay_times. cbn [Nat.iter Z.to_nat]. rewrite put_stored; [done|apply H].
Qed.

Lemma decay_cycle_ok factor d now last h r g0 t :
  fair_tree h r g0 t -> 0 < d -> 0 <= last <= LONG_MAX -> 0 <= now <= LONG_MAX ->
  exists g0' t', decay_times factor (Z.to_nat (decays (now - last) d)) (whole r g0 t) = whole r g0' t' /\
    fair_tree (Heap (put (whole r g0' t') (cells h)) (brk h)) r g0' t' /\
    decay_cycle factor d now (FairshareHead r last) h
    = Some (FairshareHead r (if 0 <? decays (now - last) d then now - (now - last) mod d else last),
            Heap (put (whole r g0' t') (cells h)) (brk h)).
Proof.
  intros F Hd Hl Hn. set (k := decays (now - last) d).
  destruct (decay_times_whole factor (Z.to_nat k) r g0 t) as (g0' & t' & E & Hs).
  exists g0', t'. split_and!; [done|by eapply fair_same|]. unfold decay_cycle.
  erewrite bind_eq.
  2:{ apply (decay_loop_ok factor d last r _ now h g0 t false F Hd Hl Hn).
      unfold decay_fuel. cbn [last_decay]. fold k.
      assert (k <= Z.max 0 ((now - last) / d)); [|lia]. unfold k, decays.
      destruct (Z.ltb_spec 0 (now - last)); [|lia].
      pose proof (Z.div_le_mono (now - last - 1) (now - last) d Hd ltac:(lia)). lia. }
  fold k. rewrite E. cbn [orb]. unfold ret. cbn [last_decay fh_root].
  destruct (Z.ltb_spec 0 k) as [Hk|Hk]; [|done]. do 3 f_equal.
  assert (0 < now - last).
  { destruct (Z.le_gt_cases (now - last) 0); [|lia]. unfold k, decays in Hk.
    rewrite (proj2 (Z.ltb_ge 0 _)) in Hk by lia. lia. }
  rewrite (int64_id (now - last)) by (unfold LONG_MIN, LONG_MAX in *; lia).
  pose proof (Z.mod_pos_bound (now - last) d Hd). pose proof (Z.mod_le (now - last) d ltac:(lia) Hd).
  rewrite Z.rem_mod_nonneg by lia. apply int64_id. unfold LONG_MIN, LONG_MAX in *. lia.
Qed.

End FairFile.
