(* ===== verification/FairRead.v ===== *)
(** * Writing the usage file and reading it back

    Module [FairRead]: [write_usage], [reset_usage] and [read_usage] of
    [src/scheduler/fairshare.c], as [init_scheduling_cycle] of
    [src/scheduler/fifo.c] calls them. *)

From Stdlib Require Import ZArith Lia Ascii String SpecFloat.
From stdpp Require Import gmap.
From S2P Require Import Prelude Doubles TextFile FairTree FairShape FairWf FairOps FairUsage.
Import Double Float Text Fair FairShape FairWf FairOps FairUsage.

Module FairRead.

Implicit Types (t : tree) (m : gmap Z group_info) (g : group_info).

(** ** What is written *)

(** The groups that are written: entities with a usage *)
Definition written (n : Z * group_info) : bool :=
  negb (dbl_eqb (usage n.2) (dbl_of_Z 1)) && (child n.2 =? NULL)
  && negb (bool_decide (name n.2 = Some UNKNOWN_GROUP_NAME)).

Definition entry (n : Z * group_info) : file_record :=
  Rec50 (strncpy (default [] (name n.2)) USAGE_NAME_MAX) (usage n.2).

Definition file_of (last : Z) t : list file_record :=
  [Rec9 (USAGE_MAGIC ++ [NUL]) USAGE_VERSION; RecTime last] ++ map entry (List.filter written (nodes t)).

Lemma rec_write_tree t m b : held m t -> all_named t ->
  rec_write_usage (root_of t) (Heap m b) = Some (map entry (List.filter written (nodes t)), Heap m b).
Proof.
  intros H Hnm. apply (fueled_held _ m b t); [done|]. intros n. revert n H Hnm.
  induction t as [|a g ch IH1 sib IH2]; intros n H Hnm Hf; [by destruct n; [cbn in Hf; lia|]|].
  FairShape.node H n. rewrite length_node in Hf. apply all_named_node in Hnm as ([s Hs'] & Hnm1 & Hnm2).
  cbn [rec_write_usage_rec root_of]. rewrite Hn. mstep (load_ok m b a g Hm). rewrite Hs', Hs.
  mstep (IH2 n Hsib Hnm2 ltac:(lia)). rewrite Hc. mstep (IH1 n Hch Hnm1 ltac:(lia)).
  unfold ret. do 2 f_equal. cbn [nodes List.filter]. rewrite List.filter_app, <-Hc.
  unfold written at 3. cbn [snd]. rewrite Hs'. unfold streq.
  assert (bool_decide (Some s = Some UNKNOWN_GROUP_NAME) = bool_decide (s = UNKNOWN_GROUP_NAME)) as ->
    by (apply bool_decide_ext; naive_solver).
  destruct (_ && _); [|by rewrite map_app]. cbn [map]. rewrite map_app. unfold entry at 3. cbn [snd]. by rewrite Hs'.
Qed.

Lemma write_usage_ok h r g0 t last : fair_tree h r g0 t ->
  write_usage (FairshareHead r last) h = Some (file_of last (whole r g0 t), h).
Proof.
  intros F. destruct h as [m b]. unfold write_usage. cbn [fh_root last_decay].
  mstep (rec_write_tree (whole r g0 t) m b (ft_held _ _ _ _ F) (ft_named _ _ _ _ F)). done.
Qed.

(** ** Names *)

Definition valid_name (s : cstring) : Prop := Forall (fun c => name_char c = true) s /\ Z.of_nat (length s) < USAGE_NAME_MAX.

Lemma name_char_nul : name_char NUL = false.
Proof. done. Qed.

Lemma valid_padded s : forall n, Forall (fun c => name_char c = true) s -> (length s < n)%nat ->
  is_valid_pbs_name n (take n s ++ replicate (n - length s) NUL) = Some true /\
  cstr (take n s ++ replicate (n - length s) NUL) = s.
Proof.
  intros n Hs. revert n. induction Hs as [|c s Hc Hs IH]; intros n Hn; cbn [length] in Hn.
  - rewrite take_nil. destruct n; [lia|]. done.
  - destruct n; [lia|]. cbn [take replicate length Nat.sub app is_valid_pbs_name cstr]. rewrite Hc.
    assert (is_char c NUL = false) as ->.
    { unfold is_char. apply bool_decide_eq_false. intros ->. by rewrite name_char_nul in Hc. }
    destruct (IH n ltac:(lia)) as [H1 H2]. split; [done|]. by rewrite H2.
Qed.

Lemma valid_name_record s u : valid_name s -> dbl_leb (dbl_of_Z 0) u = true ->
  valid_entity (strncpy s USAGE_NAME_MAX) u = Some true /\ cstr (strncpy s USAGE_NAME_MAX) = s.
Proof.
  intros [H1 H2] Hu. unfold valid_entity. rewrite Hu. apply valid_padded; [done|]. unfold USAGE_NAME_MAX in *. lia.
Qed.

(** ** What reading an entity does *)

Definition credit_group (u : double) g : group_info :=
  set_temp_usage (dbl_add (temp_usage g) u) (set_usage (dbl_add (usage g) u) g).

(** An entity: its address, its name, the groups above it and its usage *)
Record entity := Entity { e_addr : Z; e_name : cstring; e_path : list Z; e_usage : double }.

Definition credit (e : entity) (x : Z) g : group_info :=
  if x =? e_addr e then set_temp_usage (e_usage e) (set_usage (e_usage e) g)
  else if bool_decide (x ∈ e_path e) then credit_group (e_usage e) g else g.
Definition credit_all (m : gmap Z group_info) (e : entity) : gmap Z group_info :=
  map_imap (fun x g => Some (credit e x g)) m.

Lemma frame_credit e x g : frame_of (credit e x g) = frame_of g.
Proof. unfold credit. by repeat case_if. Qed.

Lemma credit_all_frames m e : same_frames m (credit_all m e).
Proof.
  intros a. unfold credit_all. rewrite map_lookup_imap. destruct (m !! a) as [g|]; [|done]. cbn. by apply frame_credit.
Qed.

Definition is_entity t (e : entity) : Prop :=
  exists g, ((e_addr e, g) ∈ nodes t) /\ child g = NULL /\ name g = Some (e_name e) /\
            gp_ginfo <$> gpath g = e_path e ++ [e_addr e].

Lemma is_entity_same t t' e : tsame t t' -> is_entity t e -> is_entity t' e.
Proof.
  intros Hs (g & Hin & Hc & Hn & Hp). destruct (tsame_elem _ _ _ _ Hs Hin) as (g' & Hin' & [= H1 H2 H3 H4 H5]).
  exists g'. split_and!; [done|congruence..].
Qed.

Lemma add_above_ok u gp : forall m b c, NoDup (gp_ginfo <$> (gp ++ [c])) ->
  (forall a, a ∈ gp_ginfo <$> gp -> is_Some (m !! a)) ->
  add_usage_above u (gp ++ [c]) (Heap m b)
  = Some (tt, Heap (map_imap (fun x gx => Some (at_all (credit_group u) (gp_ginfo <$> gp) x gx)) m) b).
Proof.
  induction gp as [|c' gp IH]; intros m b c Hnd Hin.
  - cbn. unfold ret. do 3 f_equal. apply map_eq. intros x. rewrite map_lookup_imap. by destruct (m !! x).
  - destruct (Hin (gp_ginfo c') ltac:(cbn; left)) as [g Hg].
    assert (add_usage_above u ((c' :: gp) ++ [c]) (Heap m b)
            = add_usage_above u (gp ++ [c]) (Heap (<[gp_ginfo c' := credit_group u g]> m) b)) as ->.
    { cbn [app add_usage_above]. destruct (gp ++ [c]) as [|c2 gp2] eqn:E; [by destruct gp|]. rewrite <-E.
      mstep (upd_ok m b _ g (fun g => set_usage (dbl_add (usage g) u) g) Hg).
      mstep (upd_ok (<[gp_ginfo c' := set_usage (dbl_add (usage g) u) g]> m) b _ _
               (fun g => set_temp_usage (dbl_add (temp_usage g) u) g) (lookup_insert_eq _ _ _)).
      by rewrite insert_insert_eq. }
    cbn [fmap list_fmap app] in *. rewrite fmap_app in Hnd. apply NoDup_cons in Hnd as [Hn1 Hn2].
    rewrite IH; [|by rewrite fmap_app|].
    + rewrite at_all_imap; [done|done| |done]. apply NoDup_cons. apply NoDup_app in Hn2. set_solver.
    + intros a Ha. apply lookup_insert_is_Some'. right. apply Hin. by right.
Qed.

Lemma load_usage_ok m b r g0 t e u : fair_tree (Heap m b) r g0 t -> is_entity t e -> e_usage e = u ->
  load_usage (e_addr e) u (Heap m b) = Some (tt, Heap (credit_all m e) b).
Proof.
  intros F (g & Hin & Hc & Hn & Hp) <-. destruct e as [a s l u]. cbn [e_addr e_name e_path e_usage] in *.
  pose proof (ft_held _ _ _ _ F) as H. cbn [cells] in H.
  assert ((a, g) ∈ nodes (whole r g0 t)) as Hin' by (cbn; by right).
  destruct (path_ok _ _ _ _ _ _ F Hin) as (Hnd & Hdom & _). cbn [cells] in Hdom.
  pose proof (stored_lookup _ _ _ _ (held_stored _ _ H) Hin') as Hm.
  unfold load_usage. rewrite (not_null a) by apply (linked_addr _ (a, g) (held_linked _ _ H) Hin').
  mstep (upd_ok m b a g (set_usage u) Hm).
  mstep (upd_ok (<[a := set_usage u g]> m) b a _ (set_temp_usage u) (lookup_insert_eq _ _ _)). rewrite insert_insert_eq.
  set (g' := set_temp_usage u (set_usage u g)). mstep (load_ok (<[a := g']> m) b a g' (lookup_insert_eq _ _ _)).
  change (child g') with (child g). rewrite Hc. change (NULL =? NULL) with true. cbn iota.
  change (gpath g') with (gpath g).
  destruct (gpath g) as [|c gp _] using rev_ind; [by apply (f_equal length) in Hp; rewrite length_app in Hp; cbn in Hp; lia|].
  pose proof Hp as Hp'. rewrite fmap_app in Hp'. apply app_inj_tail in Hp' as [Hgp Hca].
  rewrite add_above_ok; [|done|].
  - do 3 f_equal. unfold credit_all, credit. cbn. rewrite Hgp. rewrite Hp in Hnd. apply NoDup_app in Hnd as (_ & Hal & _).
    apply map_eq. intros x. rewrite !map_lookup_imap.
    destruct (decide (x = a)) as [->|Hne].
    + rewrite lookup_insert_eq, Hm, Z.eqb_refl. cbn. unfold at_all.
      rewrite bool_decide_false; [done|]. intros Hx. by apply (Hal a Hx); left.
    + rewrite lookup_insert_ne by done. rewrite (proj2 (Z.eqb_neq x a)) by done. by destruct (m !! x).
  - intros x Hx. apply lookup_insert_is_Some'. right. apply Hdom. rewrite fmap_app. set_solver.
Qed.

(** ** Reading all entities *)

Definition entity_record (e : entity) : file_record := Rec50 (strncpy (e_name e) USAGE_NAME_MAX) (e_usage e).
Definition readable (e : entity) : Prop := valid_name (e_name e) /\ dbl_leb (dbl_of_Z 0) (e_usage e) = true.

Lemma entity_found h r g0 t e flags : fair_tree h r g0 t -> is_entity t e ->
  (if negb (Z.land flags FS_TRIM =? 0) then find_group_info (Some (e_name e)) r else find_alloc_ginfo (Some (e_name e)) r) h
  = Some (e_addr e, h).
Proof.
  intros F (g & Hin & _ & Hn & _). pose proof (ft_held _ _ _ _ F) as H.
  assert ((e_addr e, g) ∈ nodes (whole r g0 t)) as Hin' by (cbn; by right).
  pose proof (fair_find _ _ _ _ (e_name e) F) as Hf.
  rewrite (tfind_in _ _ _ _ (held_linked _ _ H) (ft_unique _ _ _ _ F) Hin' Hn) in Hf.
  destruct (negb _); [done|]. unfold find_alloc_ginfo. destruct (whole_stored _ _ _ _ H) as (_ & Hr & _).
  rewrite (not_null r Hr). mstep Hf.
  by rewrite (not_null (e_addr e)) by apply (linked_addr _ _ (held_linked _ _ H) Hin').
Qed.

Lemma read_entities flags r L : forall h g0 t, fair_tree h r g0 t -> Forall (is_entity t) L -> Forall readable L ->
  exists g0' t', read_usage_v2 (map entity_record L) flags r h
                 = Some (1, Heap (fold_left credit_all L (cells h)) (brk h)) /\
    fair_tree (Heap (fold_left credit_all L (cells h)) (brk h)) r g0' t' /\ tsame (whole r g0 t) (whole r g0' t').
Proof.
  induction L as [|e L IH]; intros h g0 t F He Hr.
  - destruct h as [m b]. exists g0, t. split_and!; [done..|apply tsame_refl].
  - apply Forall_cons in He as [He HL]. apply Forall_cons in Hr as [[Hv Hu] HrL].
    cbn [map read_usage_v2 fold_left]. unfold entity_record at 1.
    destruct (valid_name_record _ _ Hv Hu) as [-> ->].
    mstep (entity_found h r g0 t e flags F He). destruct h as [m b]. mstep (load_usage_ok m b r g0 t e _ F He eq_refl).
    destruct (fair_frames _ (Heap (credit_all m e) b) _ _ _ F (credit_all_frames m e) eq_refl) as (g1 & t1 & F1 & Hs).
    assert (tsame t t1) as Hst by (cbn in Hs; tauto).
    destruct (IH _ g1 t1 F1) as (g2 & t2 & E & F2 & Hs2); [by eapply Forall_impl; [exact HL|]; intros; eapply is_entity_same|done|].
    exists g2, t2. split_and!; [done..|by eapply tsame_trans].
Qed.

Lemma fold_credit_lookup L : forall m x, fold_left credit_all L m !! x = (fun g => fold_left (fun g e => credit e x g) L g) <$> m !! x.
Proof.
  induction L as [|e L IH]; intros m x; cbn [fold_left]; [by destruct (m !! x)|].
  rewrite IH. unfold credit_all. rewrite map_lookup_imap. by destruct (m !! x).
Qed.

(** ** The usage after reading *)

Lemma fold_usage (f : group_info -> double) L x g :
  (forall e, e ∈ L -> e_addr e <> x) -> f = usage \/ f = temp_usage ->
  f (fold_left (fun g e => credit e x g) L g)
  = fold_left dbl_add (map e_usage (List.filter (fun e => bool_decide (x ∈ e_path e)) L)) (f g).
Proof.
  intros Hne Hf. revert g. induction L as [|e L IH]; intros g; [done|]. cbn [fold_left List.filter].
  rewrite IH by (intros; apply Hne; by right). unfold credit at 1.
  rewrite (proj2 (Z.eqb_neq x (e_addr e))) by (intros ->; by apply (Hne e ltac:(left))).
  destruct (bool_decide (x ∈ e_path e)); [|done]. by destruct Hf as [->| ->].
Qed.

Lemma fold_entity L x g : (forall e, e ∈ L -> x ∉ e_path e) -> NoDup (e_addr <$> L) ->
  (forall e, e ∈ L -> e_addr e = x ->
     usage (fold_left (fun g e => credit e x g) L g) = e_usage e /\
     temp_usage (fold_left (fun g e => credit e x g) L g) = e_usage e) /\
  ((x ∉ e_addr <$> L) -> fold_left (fun g e => credit e x g) L g = g).
Proof.
  intros Hp. revert g. induction L as [|e L IH]; intros g Hnd; [split; [set_solver|done]|].
  cbn [fmap list_fmap fold_left] in *. apply NoDup_cons in Hnd as [He Hnd].
  assert (forall e', e' ∈ L -> x ∉ e_path e') as Hp' by (intros; apply Hp; by right).
  unfold credit at 2 4 6. destruct (Z.eqb_spec x (e_addr e)) as [Hx|Hx].
  - destruct (IH Hp' (set_temp_usage (e_usage e) (set_usage (e_usage e) g)) Hnd) as [_ H2]. split; [|set_solver].
    rewrite H2 by (by rewrite Hx). intros e' [->|Hin]%elem_of_cons He'; [done|].
    destruct He. rewrite <-Hx, <-He'. apply list_elem_of_fmap. eauto.
  - rewrite (bool_decide_false (x ∈ e_path e)) by (apply Hp; left).
    destruct (IH Hp' g Hnd) as [H1 H2]. split.
    + intros e' [->|Hin]%elem_of_cons He'; [done|]. auto.
    + intros Hn. apply H2. set_solver.
Qed.

(** An entity without children is above no other. *)
Lemma leaf_not_above m x gx t : m !! x = Some gx -> child gx = NULL -> forall par path a g,
  linked t -> stored m t -> placed par path t -> ((a, g) ∈ nodes t) -> x ∈ gp_ginfo <$> gpath g -> x = a \/ x ∈ path.
Proof.
  intros Hx Hc. induction t as [|y gy ch IH1 sib IH2]; intros par path a g Hl Hs Hpl; [set_solver|].
  destruct Hl as (_ & Hch & _ & Hl1 & Hl2). apply stored_node in Hs as (Hm & Hs1 & Hs2).
  destruct Hpl as (_ & Hp & Hp1 & Hp2). cbn. rewrite elem_of_cons, elem_of_app. intros [[= -> ->]|[Hin|Hin]] Hxp.
  - rewrite Hp in Hxp. set_solver.
  - by eapply IH2.
  - destruct (IH1 y _ a g Hl1 Hs1 Hp1 Hin Hxp) as [?|Hxy]; [by left|].
    apply elem_of_app in Hxy as [?| ->%list_elem_of_singleton]; [by right|].
    rewrite Hm in Hx. injection Hx as ->. rewrite Hc in Hch. destruct ch as [|z gz c1 c2]; [set_solver|].
    cbn in Hch. destruct Hl1 as (Hz & _). by destruct Hz.
Qed.

Definition to_entity (n : Z * group_info) : entity :=
  Entity n.1 (default [] (name n.2)) (List.removelast (gp_ginfo <$> gpath n.2)) (usage n.2).

Definition entities r g0 t : list entity := map to_entity (List.filter written (nodes (whole r g0 t))).

Lemma root_not_written h r g0 t : fair_tree h r g0 t -> written (r, g0) = false.
Proof.
  intros F. unfold written. cbn [snd]. destruct (held_linked _ _ (ft_held _ _ _ _ F)) as (_ & Hc & _ & Hl & _).
  rewrite Hc. destruct t as [|a g ch sib]; [pose proof (ft_unknown _ _ _ _ F); set_solver|].
  cbn. destruct Hl as (Ha & _). rewrite (not_null a Ha). by rewrite andb_false_r.
Qed.

Lemma entities_below h r g0 t e : fair_tree h r g0 t -> e ∈ entities r g0 t ->
  exists g, ((e_addr e, g) ∈ nodes t) /\ written (e_addr e, g) = true /\ e = to_entity (e_addr e, g).
Proof.
  intros F. unfold entities. cbn [nodes List.filter app]. rewrite (root_not_written h r g0 t F).
  rewrite list_elem_of_In, in_map_iff. intros ([a g] & <- & [Hin Hw]%filter_In). exists g. by rewrite list_elem_of_In.
Qed.

Lemma entities_are h r g0 t : fair_tree h r g0 t -> Forall (is_entity t) (entities r g0 t).
Proof.
  intros F. apply Forall_forall. intros e He. destruct (entities_below _ _ _ _ _ F He) as (g & Hin & Hw & ->).
  exists g. cbn [to_entity e_addr e_name e_path fst snd]. destruct (path_ok _ _ _ _ _ _ F Hin) as (_ & _ & l & Hl & _).
  unfold written in Hw. cbn [snd] in Hw. simp_bool.
  pose proof (ft_named _ _ _ _ F) as Hnm. unfold all_named in Hnm. rewrite Forall_forall in Hnm.
  destruct (Hnm (e_addr e, g) ltac:(cbn; by right)) as [s Hs]. cbn in Hs.
  split_and!; [done|done|by rewrite Hs|]. by rewrite Hl, List.removelast_last.
Qed.

Lemma entities_nodup h r g0 t : fair_tree h r g0 t -> NoDup (e_addr <$> entities r g0 t).
Proof.
  intros F. pose proof (held_nodup _ _ (ft_held _ _ _ _ F)) as Hnd. unfold addrs in Hnd. unfold entities.
  assert (forall l, e_addr <$> map to_entity l = l.*1) as -> by (induction l as [|n l IH]; cbn; [done|by f_equal]).
  revert Hnd. generalize (nodes (whole r g0 t)) as l. induction l as [|n l IH]; [done|]. cbn.
  intros [H1 H2]%NoDup_cons. destruct (written n); [|auto]. cbn. apply NoDup_cons. split; [|auto].
  intros (n' & Hn' & [Hin%list_elem_of_In _]%list_elem_of_In%filter_In)%list_elem_of_fmap. apply H1.
  apply list_elem_of_fmap. eauto.
Qed.

(** The usages of the entities below a group, in the order of the file *)
Definition usages_below (x : Z) r g0 t : list double :=
  map e_usage (List.filter (fun e => bool_decide (x ∈ e_path e)) (entities r g0 t)).

Lemma same_child t t' x g : tsame t t' -> (x, g) ∈ nodes t -> exists g', ((x, g') ∈ nodes t') /\ child g' = child g.
Proof. intros Hs Hin. destruct (tsame_elem _ _ _ _ Hs Hin) as (g' & H & [= _ _ _ _ Hc]). eauto. Qed.

Lemma tmap_elem (f : group_info -> group_info) t a g : (a, g) ∈ nodes t -> (a, f g) ∈ nodes (tmap f t).
Proof.
  induction t as [|y gy ch IH1 sib IH2]; [set_solver|]. cbn. rewrite !elem_of_cons, !elem_of_app.
  intros [[= -> ->]|[?|?]]; auto.
Qed.

Lemma usage_restored h r g0 t last flags fh :
  fair_tree h r g0 t -> fh_root fh = r -> last = 0 \/ 946713600 < last ->
  Forall readable (entities r g0 t) ->
  exists h1 h2 g2 t2, reset_usage r h = Some (tt, h1) /\
    read_usage (Some (file_of last (whole r g0 t))) flags fh h1 = Some (FairshareHead r last, h2) /\
    fair_tree h2 r g2 t2 /\ tsame (whole r g0 t) (whole r g2 t2) /\
    (forall a g, (a, g) ∈ nodes t -> child g = NULL -> exists g', cells h2 !! a = Some g' /\
       usage g' = (if written (a, g) then usage g else dbl_of_Z 1) /\ temp_usage g' = usage g') /\
    (forall a g, (a, g) ∈ nodes (whole r g0 t) -> child g <> NULL -> exists g', cells h2 !! a = Some g' /\
       usage g' = fold_left dbl_add (usages_below a r g0 t) (dbl_of_Z 1) /\ temp_usage g' = usage g').
Proof.
  intros F Hroot Hlast Hrd. destruct h as [m b]. pose proof (ft_held _ _ _ _ F) as H. cbn [cells] in H.
  pose proof (tsame_tmap reset_node (whole r g0 t) ltac:(done)) as Hs1.
  pose proof (fair_same _ _ _ _ _ _ F Hs1) as F1. cbn [cells brk] in F1.
  set (m1 := put (tmap reset_node (whole r g0 t)) m) in *.
  assert (tsame t (tmap reset_node t)) as Hst by by apply tsame_tmap.
  assert (Forall (is_entity (tmap reset_node t)) (entities r g0 t)) as He1.
  { eapply Forall_impl; [by apply (entities_are _ _ _ _ F)|]. intros e. by apply (is_entity_same t). }
  destruct (read_entities flags r (entities r g0 t) _ _ _ F1 He1 Hrd) as (g2 & t2 & E & F2 & Hs2).
  cbn [cells brk] in E, F2. set (m2 := fold_left credit_all (entities r g0 t) m1) in *.
  assert (forall x g, (x, g) ∈ nodes (whole r g0 t) -> m1 !! x = Some (reset_node g)) as Hm1.
  { intros x g Hin. pose proof (held_stored _ _ (ft_held _ _ _ _ F1)) as Hst1. cbn [cells] in Hst1.
    apply (stored_lookup _ _ _ _ Hst1). by apply (tmap_elem reset_node (whole r g0 t)). }
  exists (Heap m1 b), (Heap m2 b), g2, t2. split_and!.
  - apply (reset_usage_tree (whole r g0 t) m b H).
  - unfold read_usage. rewrite Hroot, (not_null r) by apply (whole_stored _ _ _ _ H).
    unfold file_of. cbn [app]. change (streq (cstr (USAGE_MAGIC ++ [NUL])) USAGE_MAGIC) with true.
    change (dbl_eqb USAGE_VERSION (dbl_of_Z 2)) with true. cbn iota. unfold read_body. rewrite Hroot.
    assert ((last =? 0) || (946713600 <? last) = true) as -> by (destruct Hlast; lia).
    assert (map entry (List.filter written (nodes (whole r g0 t))) = map entity_record (entities r g0 t)) as ->
      by (unfold entities; by rewrite map_map).
    by mstep E.
  - done.
  - by eapply tsame_trans.
  - intros a g Hin Hc. assert ((a, g) ∈ nodes (whole r g0 t)) as Hin' by (cbn; by right).
    cbn [cells]. unfold m2. rewrite fold_credit_lookup, (Hm1 _ _ Hin'). cbn [fmap option_fmap option_map]. eexists. split; [done|].
    assert (forall e, e ∈ entities r g0 t -> a ∉ e_path e) as Habove.
    { intros e He Hx. destruct (entities_below _ _ _ _ _ F He) as (ge & Hine & _ & He2).
      assert (e_path e = List.removelast (gp_ginfo <$> gpath ge)) as Hpe by by rewrite He2. rewrite Hpe in Hx.
      destruct (path_ok _ _ _ _ _ _ F Hine) as (Hnd & _ & l & Hl & _). rewrite Hl, List.removelast_last in Hx.
      pose proof (whole_stored _ _ _ _ H) as (_ & _ & Hrt & [Hl' Hs' _]).
      destruct (leaf_not_above m a g t (stored_lookup _ _ _ _ Hs' Hin) Hc r [r] _ ge Hl' Hs' (ft_placed _ _ _ _ F) Hine)
        as [->|Har]; [rewrite Hl; set_solver| |].
      - rewrite Hl in Hnd. apply NoDup_app in Hnd as (_ & Hnd & _). by apply (Hnd _ Hx); left.
      - apply list_elem_of_singleton in Har as ->. by apply elem_addrs in Hin. }
    destruct (fold_entity _ a (reset_node g) Habove (entities_nodup _ _ _ _ F)) as [H1 H2].
    destruct (written (a, g)) eqn:Ew.
    + destruct (H1 (to_entity (a, g))) as [Hu Ht]; [|done|by rewrite Hu, Ht].
      unfold entities. rewrite list_elem_of_In. apply in_map, filter_In. by rewrite <-list_elem_of_In.
    + rewrite H2; [done|]. intros (e & -> & He)%list_elem_of_fmap.
      destruct (entities_below _ _ _ _ _ F He) as (ge & Hine & Hw & _).
      assert (ge = g) as ->; [|congruence].
      pose proof (whole_stored _ _ _ _ H) as (_ & _ & _ & [_ Hs' _]).
      pose proof (stored_lookup _ _ _ _ Hs' Hine). pose proof (stored_lookup _ _ _ _ Hs' Hin). congruence.
  - intros a g Hin Hc. cbn [cells]. unfold m2. rewrite fold_credit_lookup, (Hm1 _ _ Hin). cbn [fmap option_fmap option_map]. eexists. split; [done|].
    assert (forall e, e ∈ entities r g0 t -> e_addr e <> a) as Hne.
    { intros e He Hx. destruct (entities_below _ _ _ _ _ F He) as (ge & Hine & Hw & _). subst a.
      assert (ge = g) as ->.
      { pose proof (stored_lookup _ _ _ _ (held_stored _ _ H) Hin).
        pose proof (stored_lookup m _ (e_addr e) ge (held_stored _ _ H) ltac:(cbn; by right)). congruence. }
      unfold written in Hw. cbn [snd] in Hw. simp_bool. done. }
    rewrite (fold_usage usage), (fold_usage temp_usage) by auto. done.
Qed.

End FairRead.
