(* ===== verification/FairOrder.v ===== *)
(** * Who deserves to run

    Module [FairOrder]: [compare_path] of [src/scheduler/fairshare.c], the
    comparison by which the scheduler sorts jobs by fairshare, as a comparison of
    the lists of groups on the two paths. *)

From Stdlib Require Import ZArith Lia Ascii String SpecFloat.
From stdpp Require Import gmap.
From S2P Require Import Prelude Doubles TextFile FairTree FairShape FairWf FairOps FairUsage.
Import Double Float Text Fair FairShape FairWf FairOps FairUsage.

Module FairOrder.

Implicit Types (t : tree) (m : gmap Z group_info) (g : group_info).

(** ** The comparison of two groups *)

Inductive verdict := First | Second | Stop | Go.

(** One level of the loop: who is more deserving, or the end, or the next level *)
Definition judge g1 g2 : verdict :=
  if no_share g1 && positive_share g2 then Second
  else if positive_share g1 && no_share g2 then First
  else if no_share g1 && no_share g2 then Stop
  else if dbl_ltb (deserved g1) (deserved g2) then First
  else if dbl_ltb (deserved g2) (deserved g1) then Second
  else Go.

Fixpoint order (l1 l2 : list group_info) : Z :=
  match l1, l2 with
  | g1 :: l1, g2 :: l2 =>
      match judge g1 g2 with First => -1 | Second => 1 | Stop => 0 | Go => order l1 l2 end
  | _, _ => 0
  end.

(** A group whose percentage is a number, and so is its usage by percentage when
    it has a share *)
Definition sane g : Prop := is_num (tree_percentage g) = true /\ (positive_share g = true -> is_num (deserved g) = true).

Lemma shares_cases g : sane g -> no_share g = negb (positive_share g).
Proof.
  intros [Hn _]. unfold no_share, positive_share, flt_leb, flt_ltb, flt_zero, SFleb, SFltb.
  by destruct (tree_percentage g) as [s|[]| |[]].
Qed.

(** The verdict in words: with shares on both sides the smaller usage by
    percentage is more deserving; a share is more deserving than none. *)
Lemma judge_sane g1 g2 : sane g1 -> sane g2 ->
  judge g1 g2
  = match positive_share g1, positive_share g2 with
    | true, true => if dbl_ltb (deserved g1) (deserved g2) then First
                    else if dbl_ltb (deserved g2) (deserved g1) then Second else Go
    | true, false => First
    | false, true => Second
    | false, false => Stop
    end.
Proof.
  intros H1 H2. unfold judge. rewrite !shares_cases by done. by destruct (positive_share g1), (positive_share g2).
Qed.

Lemma judge_sym g1 g2 : sane g1 -> sane g2 ->
  judge g2 g1 = match judge g1 g2 with First => Second | Second => First | v => v end.
Proof.
  intros H1 H2. rewrite !judge_sane by done. destruct (positive_share g1), (positive_share g2); try done.
  destruct (dbl_ltb (deserved g1) (deserved g2)) eqn:E1, (dbl_ltb (deserved g2) (deserved g1)) eqn:E2; try done.
  pose proof (ltb_asym _ _ E1) as Ha. unfold dbl_ltb in E2. congruence.
Qed.

Lemma judge_first_trans g1 g2 g3 : sane g1 -> sane g2 -> sane g3 ->
  judge g1 g2 = First -> judge g2 g3 = First -> judge g1 g3 = First.
Proof.
  intros H1 H2 H3. rewrite !judge_sane by done.
  destruct (positive_share g1), (positive_share g2), (positive_share g3); try done.
  destruct (dbl_ltb (deserved g1) (deserved g2)) eqn:E1; [|by destruct (dbl_ltb (deserved g2) (deserved g1))].
  destruct (dbl_ltb (deserved g2) (deserved g3)) eqn:E2; [|by destruct (dbl_ltb (deserved g3) (deserved g2))].
  intros _ _. unfold dbl_ltb in *. by rewrite (ltb_trans _ _ _ E1 E2).
Qed.

(** A tie: both have a share and the same usage by percentage. *)
Lemma judge_go g1 g2 : sane g1 -> sane g2 -> judge g1 g2 = Go ->
  positive_share g1 = true /\ positive_share g2 = true /\ place (deserved g1) = place (deserved g2).
Proof.
  intros H1 H2. rewrite judge_sane by done.
  destruct (positive_share g1) eqn:P1, (positive_share g2) eqn:P2; try done.
  destruct (dbl_ltb (deserved g1) (deserved g2)) eqn:E1; [done|].
  destruct (dbl_ltb (deserved g2) (deserved g1)) eqn:E2; [done|]. intros _. split_and!; [done..|].
  apply ltb_tie; [by apply H1|by apply H2|done|done].
Qed.

(** A tie can be replaced on either side. *)
Lemma judge_go_l g1 g2 g3 : sane g1 -> sane g2 -> sane g3 -> judge g1 g2 = Go -> judge g1 g3 = judge g2 g3.
Proof.
  intros H1 H2 H3 (P1 & P2 & Hp)%judge_go; [|done..]. rewrite !judge_sane, P1, P2 by done.
  destruct (positive_share g3) eqn:P3; [|done].
  destruct (ltb_same_place (deserved g1) (deserved g2) (deserved g3)) as [A B];
    [by apply H1|by apply H2|by apply H3|done|]. unfold dbl_ltb. by rewrite A, B.
Qed.
Lemma judge_go_r g1 g2 g3 : sane g1 -> sane g2 -> sane g3 -> judge g2 g3 = Go -> judge g1 g2 = judge g1 g3.
Proof.
  intros H1 H2 H3 Hg. rewrite (judge_sym g2 g1), (judge_sym g3 g1) by done. by rewrite (judge_go_l g2 g3 g1).
Qed.

(** ** The comparison of two paths *)

Lemma order_sym l1 : forall l2, Forall sane l1 -> Forall sane l2 -> order l2 l1 = - order l1 l2.
Proof.
  induction l1 as [|g1 l1 IH]; intros [|g2 l2] H1 H2; try done. apply Forall_cons in H1 as [H1 H1'], H2 as [H2 H2'].
  cbn. rewrite (judge_sym g1 g2) by done. destruct (judge g1 g2); try done. by apply IH.
Qed.

Lemma order_trans l1 : forall l2 l3, Forall sane l1 -> Forall sane l2 -> Forall sane l3 ->
  order l1 l2 = -1 -> order l2 l3 = -1 -> order l1 l3 = -1.
Proof.
  induction l1 as [|g1 l1 IH]; intros [|g2 l2] [|g3 l3] H1 H2 H3; try done.
  apply Forall_cons in H1 as [H1 H1'], H2 as [H2 H2'], H3 as [H3 H3']. cbn.
  destruct (judge g1 g2) eqn:E12; try done; destruct (judge g2 g3) eqn:E23; try done; intros A B.
  - by rewrite (judge_first_trans g1 g2 g3).
  - by rewrite <-(judge_go_r g1 g2 g3), E12.
  - by rewrite (judge_go_l g1 g2 g3), E23.
  - rewrite (judge_go_l g1 g2 g3), E23 by done. by apply (IH l2 l3).
Qed.

(** Ties of paths of the same length, all with shares, are an equivalence, so the
    comparison is a weak order there. *)
Definition sharing (l : list group_info) : Prop := Forall (fun g => sane g /\ positive_share g = true) l.

Lemma sharing_sane l : sharing l -> Forall sane l.
Proof. intros H. eapply Forall_impl; [exact H|]. cbn. tauto. Qed.

Lemma order_tie l1 : forall l2, sharing l1 -> sharing l2 -> length l1 = length l2 -> order l1 l2 = 0 ->
  Forall2 (fun g1 g2 => judge g1 g2 = Go) l1 l2.
Proof.
  induction l1 as [|g1 l1 IH]; intros [|g2 l2] H1 H2 Hl; try done.
  apply Forall_cons in H1 as [[S1 P1] H1], H2 as [[S2 P2] H2]. cbn in *. rewrite judge_sane, P1, P2 by done.
  destruct (dbl_ltb (deserved g1) (deserved g2)) eqn:E1; [done|].
  destruct (dbl_ltb (deserved g2) (deserved g1)) eqn:E2; [done|]. intros Ho. constructor; [|apply IH; auto].
  by rewrite judge_sane, P1, P2, E1, E2 by done.
Qed.

Lemma order_tie_l l1 : forall l2 l3, Forall sane l1 -> Forall sane l2 -> Forall sane l3 ->
  Forall2 (fun g1 g2 => judge g1 g2 = Go) l1 l2 -> order l1 l3 = order l2 l3.
Proof.
  induction l1 as [|g1 l1 IH]; intros l2 l3 H1 H2 H3 Ht; inversion Ht as [|? g2 ? l2' Hg Ht']; subst; [done|].
  apply Forall_cons in H1 as [S1 H1], H2 as [S2 H2]. destruct l3 as [|g3 l3]; [done|].
  apply Forall_cons in H3 as [S3 H3]. cbn. rewrite (judge_go_l g1 g2 g3) by done. destruct (judge g2 g3); try done. by apply IH.
Qed.

(** ** The comparison in the heap *)

(** The groups on a path *)
Definition path_groups m (gp : list group_path) : list group_info := omap (fun c => m !! gp_ginfo c) gp.

Lemma compare_loop_ok m b gp1 : forall gp2,
  (forall c, c ∈ gp1 ++ gp2 -> is_Some (m !! gp_ginfo c)) ->
  (forall c1 c2, c1 ∈ gp1 -> c2 ∈ gp2 -> gp_addr c1 <> gp_addr c2) ->
  compare_loop gp1 gp2 (Heap m b) = Some (order (path_groups m gp1) (path_groups m gp2), Heap m b).
Proof.
  induction gp1 as [|c1 gp1 IH]; intros [|c2 gp2] Hin Hne; try done.
  - cbn [compare_loop]. by destruct (path_groups m (c1 :: gp1)).
  - destruct (Hin c1 ltac:(set_solver)) as [g1 E1]. destruct (Hin c2 ltac:(set_solver)) as [g2 E2].
    cbn [compare_loop]. rewrite (proj2 (Z.eqb_neq _ _)) by (apply Hne; set_solver).
    mstep (load_ok m b _ g1 E1). mstep (load_ok m b _ g2 E2).
    unfold path_groups. cbn [omap list_omap]. rewrite E1, E2. cbn [order]. unfold judge.
    repeat case_if; try done. apply IH; [intros c Hc; apply Hin; set_solver|intros; apply Hne; set_solver].
Qed.

Lemma compare_self gp h : compare_loop gp gp h = Some (0, h).
Proof. induction gp as [|c gp IH]; [done|]. cbn. by rewrite Z.eqb_refl. Qed.

Lemma path_groups_length m gp : (forall c, c ∈ gp -> is_Some (m !! gp_ginfo c)) -> length (path_groups m gp) = length gp.
Proof.
  induction gp as [|c gp IH]; intros H; [done|]. destruct (H c ltac:(left)) as [g E]. unfold path_groups. cbn. rewrite E. cbn.
  f_equal. apply IH. intros. apply H. by right.
Qed.

(** Comparing the paths of two groups of the tree *)
Lemma compare_groups h r g0 t a g a' g' : fair_tree h r g0 t -> (a, g) ∈ nodes t -> (a', g') ∈ nodes t ->
  compare_path (gpath g) (gpath g') h
  = Some (if a =? a' then 0 else order (path_groups (cells h) (gpath g)) (path_groups (cells h) (gpath g')), h).
Proof.
  intros F Hin Hin'. destruct h as [m b].
  destruct (path_ok _ _ _ _ _ _ F Hin) as (_ & Hd & l & Hl & _). destruct (path_ok _ _ _ _ _ _ F Hin') as (_ & Hd' & l' & Hl' & _).
  assert (gpath g <> []) as Hne by (intros E; rewrite E in Hl; by destruct l).
  assert (gpath g' <> []) as Hne' by (intros E; rewrite E in Hl'; by destruct l').
  assert (compare_path (gpath g) (gpath g') (Heap m b) = compare_loop (gpath g) (gpath g') (Heap m b)) as ->
    by (by destruct (gpath g), (gpath g')).
  destruct (Z.eqb_spec a a') as [->|Haa].
  - assert (g = g') as ->.
    { destruct (whole_stored _ _ _ _ (ft_held _ _ _ _ F)) as (_ & _ & _ & [_ Hs _]).
      pose proof (stored_lookup _ _ _ _ Hs Hin). pose proof (stored_lookup _ _ _ _ Hs Hin'). congruence. }
    apply compare_self.
  - apply compare_loop_ok.
    + intros c [Hc|Hc]%elem_of_app; [apply Hd|apply Hd']; by apply list_elem_of_fmap_2.
    + intros c1 c2 H1 H2. by apply (proj2 (ft_cells _ _ _ _ F) a g c1 a' g' c2).
Qed.

End FairOrder.
