(* ===== verification/FairCopy.v ===== *)
(** * Copying and freeing the fairshare tree

    Module [FairCopy]: [dup_fairshare_tree] of [src/scheduler/fairshare.c] makes a
    deep copy with right parents and paths, and [free_fairshare_tree] frees every
    group once. *)

From Stdlib Require Import ZArith Lia Ascii String SpecFloat.
From stdpp Require Import gmap.
From S2P Require Import Prelude Doubles TextFile FairTree FairShape FairWf FairOps FairUsage.
Import Double Float Text Fair FairShape FairWf FairOps FairUsage.

Module FairCopy.

Implicit Types (t : tree) (m : gmap Z group_info) (g : group_info).

(** ** Freeing *)

Lemma free_ok m b a g : m !! a = Some g -> free a (Heap m b) = Some (tt, Heap (delete a m) b).
Proof. unfold free. cbn. by intros ->. Qed.

(** The cells that are left *)
Fixpoint cleared t m : gmap Z group_info :=
  match t with Leaf => m | Node a g ch sib => delete a (cleared ch (cleared sib m)) end.

Lemma cleared_lookup t : forall m x, cleared t m !! x = if bool_decide (x ∈ addrs t) then None else m !! x.
Proof.
  induction t as [|a g ch IH1 sib IH2]; intros m x; [done|]. cbn [cleared]. rewrite addrs_node.
  destruct (decide (x = a)) as [->|Hne].
  - rewrite lookup_delete_eq, bool_decide_true by set_solver. done.
  - rewrite lookup_delete_ne, IH1, IH2 by done. repeat case_bool_decide; set_solver.
Qed.

Lemma held_frame m m' t : (forall x, x ∈ addrs t -> m' !! x = m !! x) -> held m t -> held m' t.
Proof. intros Hf [H1 H2 H3]. split; [done|by eapply stored_frame|done]. Qed.

Lemma free_tree t m b : held m t -> free_fairshare_tree (root_of t) (Heap m b) = Some (tt, Heap (cleared t m) b).
Proof.
  intros H. apply (fueled_held _ m b t); [done|]. intros n. revert n m H.
  induction t as [|a g ch IH1 sib IH2]; intros n m H Hf; [by destruct n; [cbn in Hf; lia|]|].
  FairShape.node H n. rewrite length_node in Hf. cbn [free_fairshare_tree_rec root_of]. rewrite Hn.
  mstep (load_ok m b a g Hm). rewrite Hs. mstep (IH2 n m Hsib ltac:(lia)).
  assert (cleared sib m !! a = Some g) as Hm1 by (rewrite cleared_lookup, bool_decide_false; done).
  mstep (load_ok _ b a g Hm1). rewrite Hc. mstep (IH1 n (cleared sib m)
    ltac:(eapply held_frame; [|exact Hch]; intros x Hx; rewrite cleared_lookup, bool_decide_false; auto) ltac:(lia)).
  rewrite (free_ok _ b a g); [done|]. by rewrite cleared_lookup, bool_decide_false.
Qed.

(** ** Copying *)

(** What a group and its copy have in common *)
Definition copied g g' : Prop :=
  (name g', cresgroup g', shares g', tree_percentage g', group_percentage g', usage g', temp_usage g', usage_factor g')
  = (name g, cresgroup g, shares g, tree_percentage g, group_percentage g, usage g, temp_usage g, usage_factor g).

Fixpoint copy t t' : Prop :=
  match t, t' with
  | Leaf, Leaf => True
  | Node _ g ch sib, Node _ g' ch' sib' => copied g g' /\ copy ch ch' /\ copy sib sib'
  | _, _ => False
  end.

(** The cells of a heap are below its next address. *)
Definition bounded m (b : Z) : Prop := 0 < b /\ forall x, is_Some (m !! x) -> 0 < x < b.

(** The copy [t'] of the level [t] under the new parent [np]: it is made of new
    cells, and of the old cells only the [child] of the parent is touched. *)
Record duplicated m (b np : Z) (pn : group_info) (path : list Z) t (m' : gmap Z group_info) (b' : Z) t' : Prop := {
  d_brk : b <= b';
  d_bounded : bounded m' b';
  d_copy : copy t t';
  d_held : held m' t';
  d_placed : placed np path t';
  d_new : forall x, x ∈ addrs t' -> b <= x < b';
  d_only : forall x, b <= x -> is_Some (m' !! x) -> x ∈ addrs t';
  d_parent : exists c, m' !! np = Some (set_child c pn);
  d_old : forall x, x < b -> x <> np -> m' !! x = m !! x;
  d_cells : forall a g c, (a, g) ∈ nodes t' -> c ∈ gpath g -> b <= gp_addr c;
  d_apart : apart b' t' }.

(** The cell of the copy of one group, up to the call of [add_child] *)
Definition copy_cell (g : group_info) (n : cstring) : group_info :=
  GroupInfo (Some n) (resgroup g) (cresgroup g) (shares g) (tree_percentage g) (group_percentage g)
    (usage g) (temp_usage g) (usage_factor g) [] NULL NULL NULL.

(** The recursion after [add_child] *)
Definition dup_rest (n : nat) (np nroot : Z) g : M heap Z :=
  let* s := dup_fairshare_tree_rec n (sibling g) np in
  let* _ := upd nroot (set_sibling s) in
  let* c := dup_fairshare_tree_rec n (child g) nroot in
  let* _ := upd nroot (set_child c) in
  ret nroot.

Lemma dup_cell k m b root np g n :
  bounded m b -> root <> NULL -> m !! root = Some g -> name g = Some n ->
  dup_fairshare_tree_rec (S k) root np (Heap m b)
  = (let* _ := add_child b np in dup_rest k np b g) (Heap (<[b := copy_cell g n]> m) (b + 1)).
Proof.
  intros [Hb Hm] Hr Hg Hn. cbn [dup_fairshare_tree_rec]. rewrite (not_null root Hr).
  unfold new_group_info. set (gn := GroupInfo _ _ _ _ _ _ _ _ _ _ _ _ _).
  mstep (eq_refl : alloc gn (Heap m b) = Some (b, Heap (<[b := gn]> m) (b + 1))).
  assert (root <> b) as Hrb by (specialize (Hm root ltac:(eauto)); lia).
  assert (<[b := gn]> m !! root = Some g) as Hg1 by by rewrite lookup_insert_ne.
  mstep (load_ok _ (b + 1) root g Hg1).
  do 6 (erewrite bind_eq by apply upd_ok, lookup_insert_eq; rewrite insert_insert_eq).
  rewrite Hn. erewrite bind_eq by apply upd_ok, lookup_insert_eq. by rewrite insert_insert_eq.
Qed.

Lemma dup_step k m b root np g n pn path :
  bounded m b -> root <> NULL -> m !! root = Some g -> name g = Some n ->
  np <> NULL -> m !! np = Some pn -> chain m np path ->
  exists gp b2, let gb := child_of np pn (copy_cell g n) gp in
    dup_fairshare_tree_rec (S k) root np (Heap m b)
    = dup_rest k np b g (Heap (<[b := gb]> (<[np := set_child b pn]> m)) b2) /\
    b < b2 /\ gp_ginfo <$> gp = path ++ [b] /\ Forall (fun c => b <= gp_addr c < b2) gp.
Proof.
  intros Hb Hr Hg Hn Hnp Hpn Hc. rewrite (dup_cell k m b root np g n Hb Hr Hg Hn). destruct Hb as [Hb Hm].
  assert (np <> b) as Hnb by (specialize (Hm np ltac:(eauto)); lia).
  assert (forall x, x ∈ path -> x <> b) as Hpb.
  { intros x Hx. specialize (Hm x (chain_dom _ _ _ Hc x Hx)). lia. }
  set (ga := copy_cell g n). destruct (add_child_ok (<[b := ga]> m) (b + 1) b ga np pn path) as (gp & E & Hgp & Had).
  - unfold NULL. lia.
  - done.
  - done.
  - apply lookup_insert_eq.
  - by rewrite lookup_insert_ne.
  - apply (chain_frame m); [|done]. intros x gx Hx Hgx. exists gx. by rewrite lookup_insert_ne by (intros ->; by apply (Hpb x)).
  - intros Hx. by apply (Hpb b).
  - exists gp, (b + 1 + Z.of_nat (S (length path))). split_and!; [|lia|done|eapply Forall_impl; [exact Had|]; cbn; lia].
    mstep E. do 2 f_equal. rewrite (insert_insert_ne m) by done. by rewrite insert_insert_eq.
Qed.

(** Cells of three ranges *)
Lemma apart_node x gx ch sib b2 b3 b5 : b2 <= b3 -> b3 <= b5 ->
  (forall c, c ∈ gpath gx -> gp_addr c < b2) -> apart b3 sib -> apart b5 ch ->
  (forall a g c, (a, g) ∈ nodes sib -> c ∈ gpath g -> b2 <= gp_addr c) ->
  (forall a g c, (a, g) ∈ nodes ch -> c ∈ gpath g -> b3 <= gp_addr c) -> apart b5 (Node x gx ch sib).
Proof.
  intros H23 H35 Hg [S1 S2] [C1 C2] HS HC. split.
  - intros a g c. cbn. rewrite elem_of_cons, elem_of_app. intros [[= -> ->]|[Hx|Hx]] Hcx.
    + specialize (Hg _ Hcx). lia.
    + specialize (S1 _ _ _ Hx Hcx). lia.
    + by apply (C1 a g).
  - intros a g c a' g' c'. cbn. rewrite !elem_of_cons, !elem_of_app.
    intros [[= -> ->]|[Hx|Hx]] [[= -> ->]|[Hx'|Hx']] Hne Hc Hc'; [done|..].
    + specialize (Hg _ Hc). specialize (HS _ _ _ Hx' Hc'). lia.
    + specialize (Hg _ Hc). specialize (HC _ _ _ Hx' Hc'). lia.
    + specialize (Hg _ Hc'). specialize (HS _ _ _ Hx Hc). lia.
    + by apply (S2 a g c a' g' c').
    + specialize (S1 _ _ _ Hx Hc). specialize (HC _ _ _ Hx' Hc'). lia.
    + specialize (Hg _ Hc'). specialize (HC _ _ _ Hx Hc). lia.
    + specialize (S1 _ _ _ Hx' Hc'). specialize (HC _ _ _ Hx Hc). lia.
    + by apply (C2 a g c a' g' c').
Qed.

(** The copies of the siblings and of the children put together *)
Lemma duplicated_node m b np pn path g n gp b2 m3 b3 sib sib' m5 b5 ch ch' gb5 a :
  bounded m b -> name g = Some n -> m !! np = Some pn -> np < b ->
  gp_ginfo <$> gp = path ++ [b] -> Forall (fun c => b <= gp_addr c < b2) gp -> b < b2 ->
  let gb := child_of np pn (copy_cell g n) gp in
  let m2 := <[b := gb]> (<[np := set_child b pn]> m) in
  let gb3 := set_sibling (root_of sib') gb in
  duplicated m2 b2 np (set_child b pn) path sib m3 b3 sib' ->
  duplicated (<[b := gb3]> m3) b3 b gb3 (path ++ [b]) ch m5 b5 ch' ->
  m5 !! b = Some gb5 -> (exists c, gb5 = set_child c gb3) ->
  duplicated m b np pn path (Node a g ch sib) (<[b := set_child (root_of ch') gb5]> m5) b5
    (Node b (set_child (root_of ch') gb5) ch' sib').
Proof.
  intros [Hb Hm] Hn Hpn Hnpb Hgp Had Hb2 gb m2 gb3 S C Hgb5 [c5 ->].
  pose proof (d_brk _ _ _ _ _ _ _ _ _ S) as B1. pose proof (d_brk _ _ _ _ _ _ _ _ _ C) as B2.
  pose proof (d_new _ _ _ _ _ _ _ _ _ S) as N1. pose proof (d_new _ _ _ _ _ _ _ _ _ C) as N2.
  set (gf := set_child (root_of ch') (set_child c5 gb3)).
  assert (gpath gf = gp) as Hgf by done.
  assert (forall x, x < b3 -> x <> b -> m5 !! x = m3 !! x) as Hold5.
  { intros x Hx Hxb. rewrite (d_old _ _ _ _ _ _ _ _ _ C) by done. by rewrite lookup_insert_ne. }
  assert (forall x, x ∈ addrs sib' -> m5 !! x = m3 !! x) as Hsib5.
  { intros x Hx. specialize (N1 x Hx). apply Hold5; lia. }
  assert (b ∉ addrs ch') as Hbc by (intros Hx; specialize (N2 b Hx); lia).
  assert (b ∉ addrs sib') as Hbs by (intros Hx; specialize (N1 b Hx); lia).
  split.
  - lia.
  - destruct (d_bounded _ _ _ _ _ _ _ _ _ C) as [H1 H2]. split; [done|]. intros x.
    rewrite lookup_insert_is_Some'. intros [<-|Hx]; [lia|auto].
  - cbn. split_and!; [|apply C|apply S]. unfold copied. cbn. by rewrite Hn.
  - split.
    + cbn. split_and!; [unfold NULL; lia|done|done|apply C|apply S].
    + rewrite stored_node. split_and!; [apply lookup_insert_eq| |].
      * apply stored_insert; [done|apply C].
      * apply stored_insert; [done|]. eapply stored_frame; [exact Hsib5|apply S].
    + rewrite NoDup_node. split_and!; [done|done| |apply C|apply S].
      intros x Hx Hx'. specialize (N1 x Hx'). specialize (N2 x Hx). lia.
  - cbn. split_and!; [done| |apply C|apply S]. done.
  - intros x. rewrite addrs_node. intros [->|[Hx|Hx]%elem_of_app]%elem_of_cons; [lia|..].
    + specialize (N1 x Hx). lia.
    + specialize (N2 x Hx). lia.
  - intros x Hx. rewrite lookup_insert_is_Some', addrs_node. intros [<-|Hx']; [by left|].
    destruct (decide (x = b)) as [->|Hxb]; [by left|]. right. apply elem_of_app.
    destruct (Z.lt_ge_cases x b3) as [Hlt|Hge]; [left|right; by apply (d_only _ _ _ _ _ _ _ _ _ C)].
    rewrite Hold5 in Hx' by done. destruct (Z.lt_ge_cases x b2) as [Hlt2|Hge2].
    + rewrite (d_old _ _ _ _ _ _ _ _ _ S) in Hx' by lia. unfold m2 in Hx'.
      rewrite !lookup_insert_ne in Hx' by lia. specialize (Hm x Hx'). lia.
    + by apply (d_only _ _ _ _ _ _ _ _ _ S).
  - destruct (d_parent _ _ _ _ _ _ _ _ _ S) as [c Hc]. exists c.
    rewrite lookup_insert_ne, Hold5 by lia. by rewrite Hc.
  - intros x Hx Hxn. rewrite lookup_insert_ne, Hold5, (d_old _ _ _ _ _ _ _ _ _ S) by lia.
    unfold m2. by rewrite !lookup_insert_ne by lia.
  - intros x gx c. cbn. rewrite elem_of_cons, elem_of_app. intros [[= -> ->]|[Hx|Hx]] Hcx.
    + rewrite Hgf in Hcx. rewrite Forall_forall in Had. apply Had in Hcx. lia.
    + pose proof (d_cells _ _ _ _ _ _ _ _ _ S _ _ _ Hx Hcx). lia.
    + pose proof (d_cells _ _ _ _ _ _ _ _ _ C _ _ _ Hx Hcx). lia.
  - apply (apart_node b gf ch' sib' b2 b3 b5); try done; [|apply S|apply C|apply S|apply C].
    intros c Hc. rewrite Hgf in Hc. rewrite Forall_forall in Had. apply Had in Hc. lia.
Qed.

Lemma duplicated_leaf m b np pn path : bounded m b -> m !! np = Some pn -> duplicated m b np pn path Leaf m b Leaf.
Proof.
  intros Hb Hpn. split; try done; try (intros; set_solver).
  - split; [done|constructor|constructor].
  - intros x Hx Hs. destruct Hb as [_ Hb]. specialize (Hb x Hs). lia.
  - exists (child pn). by destruct pn.
  - split; intros; set_solver.
Qed.

Lemma dup_rec t : forall k m b np pn path,
  held m t -> all_named t -> (length (nodes t) < k)%nat -> bounded m b -> np <> NULL -> m !! np = Some pn ->
  np ∉ addrs t -> chain m np path ->
  exists t' m' b', dup_fairshare_tree_rec k (root_of t) np (Heap m b) = Some (root_of t', Heap m' b') /\
                   duplicated m b np pn path t m' b' t'.
Proof.
  induction t as [|a g ch IH1 sib IH2]; intros k m b np pn path H Hnm Hk Hb Hnp Hpn Hnpt Hpath.
  - exists Leaf, m, b. split; [by destruct k; [cbn in Hk; lia|]|].
    by apply duplicated_leaf.
  - FairShape.node H k. rewrite length_node in Hk. apply all_named_node in Hnm as ([n Hgn] & Hnm1 & Hnm2).
    rewrite addrs_node in Hnpt. apply Z.eqb_neq in Hn. cbn [root_of].
    destruct (dup_step k m b a np g n pn path Hb Hn Hm Hgn Hnp Hpn Hpath) as (gp & b2 & E & Hb2 & Hgp & Had).
    rewrite E. set (gb := child_of np pn (copy_cell g n) gp) in *.
    set (m2 := <[b := gb]> (<[np := set_child b pn]> m)) in *.
    pose proof Hb as [Hb0 Hbm]. assert (0 < np < b) as Hnpb by (apply Hbm; eauto).
    assert (forall x, is_Some (m !! x) -> x <> np -> m2 !! x = m !! x) as Hm2.
    { intros x Hx Hxn. specialize (Hbm x Hx). unfold m2. by rewrite !lookup_insert_ne by lia. }
    assert (m2 !! np = Some (set_child b pn)) as Hm2p
      by (unfold m2; rewrite lookup_insert_ne by lia; apply lookup_insert_eq).
    assert (held m2 sib) as Hsib2.
    { eapply held_frame; [|exact Hsib]. intros x Hx. apply Hm2; [by eapply stored_dom; [apply Hsib|]|set_solver]. }
    assert (bounded m2 b2) as Hbd2.
    { split; [lia|]. intros x. unfold m2. rewrite !lookup_insert_is_Some'. intros [<-|[<-|Hx]]; try lia. specialize (Hbm x Hx). lia. }
    assert (chain m2 np path) as Hc2.
    { apply (chain_frame m); [|done]. intros x gx Hx Hgx. destruct (decide (x = np)) as [->|Hne].
      - rewrite Hm2p. rewrite Hpn in Hgx. injection Hgx as <-. by eexists.
      - rewrite Hm2 by eauto. eauto. }
    destruct (IH2 k m2 b2 np _ path Hsib2 Hnm2 ltac:(lia) Hbd2 Hnp Hm2p ltac:(set_solver) Hc2)
      as (sib' & m3 & b3 & E3 & S).
    unfold dup_rest. rewrite Hs. mstep E3.
    assert (m3 !! b = Some gb) as Hm3b.
    { rewrite (d_old _ _ _ _ _ _ _ _ _ S) by lia. unfold m2. apply lookup_insert_eq. }
    mstep (upd_ok m3 b3 b gb (set_sibling (root_of sib')) Hm3b).
    set (gb3 := set_sibling (root_of sib') gb). set (m4 := <[b := gb3]> m3).
    pose proof (d_brk _ _ _ _ _ _ _ _ _ S) as B1.
    assert (m3 !! np = m4 !! np) as Hnp4 by (unfold m4; by rewrite lookup_insert_ne by lia).
    destruct (d_parent _ _ _ _ _ _ _ _ _ S) as [c3 Hc3].
    assert (forall x, is_Some (m !! x) -> x <> np -> m4 !! x = m !! x) as Hm4.
    { intros x Hx Hxn. pose proof (Hbm x Hx). unfold m4. rewrite lookup_insert_ne by lia.
      rewrite (d_old _ _ _ _ _ _ _ _ _ S) by lia. by apply Hm2. }
    assert (held m4 ch) as Hch4.
    { eapply held_frame; [|exact Hch]. intros x Hx. apply Hm4; [by eapply stored_dom; [apply Hch|]|set_solver]. }
    assert (bounded m4 b3) as Hbd4.
    { destruct (d_bounded _ _ _ _ _ _ _ _ _ S) as [H1 H2]. split; [done|]. intros x. unfold m4.
      rewrite lookup_insert_is_Some'. intros [<-|Hx]; [lia|auto]. }
    assert (chain m4 b (path ++ [b])) as Hc4.
    { apply (chain_group m4 b gb3); [unfold NULL; lia|apply lookup_insert_eq|].
      change (parent gb3) with np. apply (chain_frame m); [|done]. intros x gx Hx Hgx.
      destruct (decide (x = np)) as [->|Hne].
      - rewrite <-Hnp4, Hc3. rewrite Hpn in Hgx. injection Hgx as <-. by eexists.
      - rewrite Hm4 by eauto. eauto. }
    assert (b ∉ addrs ch) as Hbch.
    { intros Hx. destruct (stored_dom _ _ _ (held_stored _ _ Hch) Hx) as [gx Hgx]. specialize (Hbm b ltac:(eauto)). lia. }
    destruct (IH1 k m4 b3 b gb3 (path ++ [b]) Hch4 Hnm1 ltac:(lia) Hbd4 ltac:(unfold NULL; lia)
      (lookup_insert_eq _ _ _) Hbch Hc4) as (ch' & m5 & b5 & E5 & C).
    rewrite Hc. mstep E5. destruct (d_parent _ _ _ _ _ _ _ _ _ C) as [c5 Hc5].
    mstep (upd_ok m5 b5 b _ (set_child (root_of ch')) Hc5).
    eexists (Node b _ ch' sib'), _, b5. split; [done|].
    eapply (duplicated_node m b np pn path g n gp b2 m3 b3 sib sib' m5 b5 ch ch'); try done; [lia|by eexists].
Qed.

Lemma copy_names t : forall t', copy t t' -> names t' = names t.
Proof.
  unfold names. induction t as [|a g ch IH1 sib IH2]; intros [|a' g' ch' sib']; try done.
  intros ([= Hn _ _ _ _ _ _ _] & H1%IH1 & H2%IH2). cbn. by rewrite !fmap_app, Hn, H1, H2.
Qed.

(** A copy of the whole tree *)
Lemma dup_tree h r g0 t : fair_tree h r g0 t ->
  exists r' h' g0' t', dup_fairshare_tree r NULL h = Some (r', h') /\ fair_tree h' r' g0' t' /\
    copy (whole r g0 t) (whole r' g0' t') /\ (forall x, x < brk h -> cells h' !! x = cells h !! x) /\
    (forall x, x ∈ addrs (whole r' g0' t') <-> brk h <= x /\ is_Some (cells h' !! x)).
Proof.
  intros F. destruct h as [m b]. pose proof (ft_held _ _ _ _ F) as H. pose proof (ft_brk _ _ _ _ F) as Hb.
  pose proof (ft_named _ _ _ _ F) as Hnm. cbn [cells brk] in *.
  destruct (held_node _ _ _ _ _ H) as (Hn & Hm & Hc & Hs & Hch & _ & Hrt & _). apply Z.eqb_neq in Hn.
  apply all_named_node in Hnm as ([n Hgn] & Hnmt & _). unfold dup_fairshare_tree, fueled. cbn [cells].
  rewrite (dup_cell (size m) m b r NULL g0 n Hb Hn Hm Hgn). unfold add_child. change (NULL =? NULL) with true. msimp.
  pose proof (held_size _ _ H) as Hsz. rewrite length_node in Hsz. destruct (size m) as [|k] eqn:Ek; [lia|].
  unfold dup_rest. rewrite Hs. mstep (eq_refl : dup_fairshare_tree_rec (S k) NULL NULL
    (Heap (<[b := copy_cell g0 n]> m) (b + 1)) = Some (NULL, Heap (<[b := copy_cell g0 n]> m) (b + 1))).
  mstep (upd_ok (<[b := copy_cell g0 n]> m) (b + 1) b _ (set_sibling NULL) (lookup_insert_eq _ _ _)).
  rewrite insert_insert_eq. set (gb := set_sibling NULL (copy_cell g0 n)). set (m1 := <[b := gb]> m).
  assert (r < b) as Hrb by (apply (proj2 Hb r); eauto). destruct Hb as [Hb0 Hb].
  assert (forall x, is_Some (m !! x) -> m1 !! x = m !! x) as Hm1.
  { intros x Hx. specialize (Hb x Hx). unfold m1. by rewrite lookup_insert_ne by lia. }
  destruct (dup_rec t (S k) m1 (b + 1) b gb [b]) as (t' & m2 & b2 & E & D).
  - eapply held_frame; [|exact Hch]. intros x Hx. apply Hm1. eapply stored_dom; [apply Hch|done].
  - done.
  - cbn in Hsz. lia.
  - split; [lia|]. intros x. unfold m1. rewrite lookup_insert_is_Some'. intros [<-|Hx]; [lia|]. specialize (Hb x Hx). lia.
  - unfold NULL. lia.
  - apply lookup_insert_eq.
  - intros Hx. destruct (stored_dom _ _ _ (held_stored _ _ Hch) Hx) as [gx Hgx]. specialize (Hb b ltac:(eauto)). lia.
  - apply (chain_group m1 b gb []); [unfold NULL; lia|apply lookup_insert_eq|]. change (parent gb) with NULL. constructor.
  - rewrite Hc. mstep E. destruct (d_parent _ _ _ _ _ _ _ _ _ D) as [c Hc2].
    mstep (upd_ok m2 b2 b _ (set_child (root_of t')) Hc2). set (gf := set_child (root_of t') (set_child c gb)).
    pose proof (d_new _ _ _ _ _ _ _ _ _ D) as Hnew. pose proof (d_brk _ _ _ _ _ _ _ _ _ D) as Hbrk.
    assert (b ∉ addrs t') as Hbt by (intros Hx; specialize (Hnew b Hx); lia).
    assert (copy (whole r g0 t) (whole b gf t')) as Hcopy.
    { cbn. split_and!; [|apply D|done]. unfold copied. cbn. by rewrite Hgn. }
    exists b, (Heap (<[b := gf]> m2) b2), gf, t'. split_and!; [done| |done| |].
    + split; cbn [cells brk].
      * split; [cbn; split_and!; try done; [unfold NULL; lia|apply D]| |].
        -- rewrite stored_node. split_and!; [apply lookup_insert_eq|apply stored_insert; [done|apply D]|constructor].
        -- rewrite addrs_node. cbn. apply NoDup_cons. split; [done|apply D].
      * done.
      * apply D.
      * rewrite all_named_names, (copy_names _ _ Hcopy), <-all_named_names. apply F.
      * rewrite (copy_names _ _ Hcopy). apply F.
      * destruct (d_bounded _ _ _ _ _ _ _ _ _ D) as [H1 H2]. split; [done|]. intros x.
        rewrite lookup_insert_is_Some'. intros [<-|Hx]; [lia|auto].
      * cbn in Hcopy. rewrite (copy_names t t') by tauto. apply F.
      * apply D.
      * done.
    + intros x Hx. cbn. rewrite lookup_insert_ne by lia. rewrite (d_old _ _ _ _ _ _ _ _ _ D) by lia.
      unfold m1. by rewrite lookup_insert_ne by lia.
    + intros x. rewrite addrs_node. cbn [addrs nodes fmap list_fmap app cells brk]. rewrite lookup_insert_is_Some'.
      rewrite elem_of_cons. split.
      * intros [->|Hx]; [split; [lia|by left]|]. specialize (Hnew x Hx). split; [lia|]. right.
        eapply stored_dom; [apply D|done].
      * intros [Hx [->|Hs2]]; [by left|]. destruct (decide (x = b)) as [->|Hxb]; [by left|right].
        apply (d_only _ _ _ _ _ _ _ _ _ D); [lia|done].
Qed.

End FairCopy.
