(* ===== verification/FairProps.v ===== *)
(** * The fairshare tree: what its operations guarantee

    Module [FairProps]: every sequence of operations on the fairshare tree
    returns and keeps its invariant; the usage file is read back as it was
    written; a cycle decays as often as its gap says; [compare_path] orders the
    entities; a copy of the tree is separate from it and can be freed. *)

From Stdlib Require Import ZArith Lia Ascii String SpecFloat.
From stdpp Require Import gmap.
From S2P Require Import Prelude Doubles TextFile FairTree FairShape FairWf FairOps FairGroups FairUsage FairRead FairOrder FairCopy.
Import Double Float Text Fair FairShape FairWf FairOps FairGroups FairUsage FairFile FairRead FairOrder FairCopy.

Module FairProps.

Implicit Types (t : tree) (m : gmap Z group_info) (g : group_info).

(** ** Operations in any order *)

(** What the scheduler does to the tree: a line of the resource group file, the
    percentages, a job that is looked up and run, the usage since the last cycle,
    decay, the start of a cycle, and the records of a usage file. *)
Inductive fs_op :=
  | OpLine (buf : cstring)
  | OpPercentages
  | OpRun (entity : cstring) (u : double)
  | OpAccrue (entity : cstring) (used used_then : double)
  | OpDecay (factor : float)
  | OpCycle
  | OpRead (flags : Z) (entities : list (list ascii * double)).

Definition do_op (r : Z) (op : fs_op) : M heap unit :=
  match op with
  | OpLine buf => parse_group_line buf r
  | OpPercentages =>
      let* g := load r in let* _ := calc_fair_share_perc (child g) UNSPECIFIED in ret tt
  | OpRun s u => let* a := find_alloc_ginfo (Some s) r in update_usage_on_run u (Some (FsResv true (Some a)))
  | OpAccrue s used before => accrue_last_running (Some s) used before (FairshareHead r 0)
  | OpDecay factor => decay_fairshare_tree factor r
  | OpCycle => let* _ := reset_temp_usage r in calc_usage_factor (Some (FairshareHead r 0))
  | OpRead flags l =>
      let* _ := reset_usage r in
      let* _ := read_usage_v2 (map (fun p => Rec50 p.1 p.2) l) flags r in ret tt
  end.

(** The names in a file are arrays of [USAGE_NAME_MAX] characters. *)
Definition op_ok (op : fs_op) : Prop :=
  match op with
  | OpRead _ l => Forall (fun p => length p.1 = Z.to_nat USAGE_NAME_MAX) l
  | _ => True
  end.

Fixpoint do_ops (r : Z) (ops : list fs_op) : M heap unit :=
  match ops with [] => ret tt | op :: ops => let* _ := do_op r op in do_ops r ops end.

(** A group that [find_alloc_ginfo] gives has a path, unless it is the root. *)
Lemma found_node h r g0 t s : fair_tree h r g0 t ->
  exists a h' g0' t' g, find_alloc_ginfo (Some s) r h = Some (a, h') /\ fair_tree h' r g0' t' /\
    ((a, g) ∈ nodes (whole r g0' t')) /\ a <> NULL.
Proof.
  intros F. destruct (find_alloc_ok h r g0 t s F) as (a & h' & g0' & t' & E & F' & Hin & Hno).
  assert (exists g, (a, g) ∈ nodes (whole r g0' t')) as [g Hg].
  { destruct (decide (Some s ∈ names (whole r g0 t))) as [H|H].
    - destruct (Hin H) as (-> & -> & -> & g & Hg & _). eauto.
    - destruct (Hno H) as (g & _ & _ & _ & _ & _ & _ & _ & _ & _ & Hg & _). eauto. }
  exists a, h', g0', t', g. split_and!; try done.
  by apply (linked_addr _ (a, g) (held_linked _ _ (ft_held _ _ _ _ F'))).
Qed.

(** The path of any group is made of groups of the heap. *)
Lemma any_path h r g0 t a g : fair_tree h r g0 t -> (a, g) ∈ nodes (whole r g0 t) ->
  NoDup (gp_ginfo <$> gpath g) /\ (forall x, x ∈ gp_ginfo <$> gpath g -> is_Some (cells h !! x)).
Proof.
  intros F. cbn. rewrite elem_of_cons. intros [[= -> ->]|Hin].
  - rewrite (ft_top _ _ _ _ F). split; [constructor|set_solver].
  - cbn in Hin. destruct (path_ok _ _ _ _ _ _ F Hin) as (H1 & H2 & _). done.
Qed.

Lemma whole_load h r g0 t a g : fair_tree h r g0 t -> (a, g) ∈ nodes (whole r g0 t) -> cells h !! a = Some g.
Proof. intros F. apply stored_lookup, (ft_held _ _ _ _ F). Qed.

Lemma insert_frames m a g f : (forall g, frame_of (f g) = frame_of g) -> m !! a = Some g -> same_frames m (<[a := f g]> m).
Proof.
  intros Hf Hm x. destruct (decide (x = a)) as [->|Hne].
  - rewrite lookup_insert_eq, Hm. apply Hf.
  - rewrite lookup_insert_ne by done. by destruct (m !! x).
Qed.

Lemma keeps_frames m m' b r g0 t : fair_tree (Heap m b) r g0 t -> same_frames m m' ->
  exists g0' t', fair_tree (Heap m' b) r g0' t'.
Proof. intros F Hf. destruct (fair_frames _ (Heap m' b) _ _ _ F Hf eq_refl) as (g0' & t' & F' & _). eauto. Qed.

Lemma run_total u h r g0 t a g : fair_tree h r g0 t -> (a, g) ∈ nodes (whole r g0 t) -> a <> NULL ->
  exists h' g0' t', update_usage_on_run u (Some (FsResv true (Some a))) h = Some (tt, h') /\ fair_tree h' r g0' t'.
Proof.
  intros F Hin Ha. destruct (any_path _ _ _ _ _ _ F Hin) as [H1 H2]. pose proof (whole_load _ _ _ _ _ _ F Hin) as Hm.
  destruct h as [m b]. unfold update_usage_on_run. cbn [is_job job_ginfo]. rewrite (not_null a Ha).
  mstep (load_ok m b a g Hm). rewrite add_temp_ok by done.
  destruct (keeps_frames _ _ _ _ _ _ F (imap_frames (fun g => set_temp_usage (dbl_add (temp_usage g) u) g)
    (gp_ginfo <$> gpath g) m ltac:(done))) as (g1 & t1 & F1). eauto.
Qed.

Lemma accrue_total used before h r g0 t s : fair_tree h r g0 t ->
  exists h' g0' t', accrue_last_running (Some s) used before (FairshareHead r 0) h = Some (tt, h') /\ fair_tree h' r g0' t'.
Proof.
  intros F. destruct (found_node h r g0 t s F) as (a & h1 & g1 & t1 & g & E & F1 & Hin & Ha).
  unfold accrue_last_running. cbn [fh_root]. mstep E. rewrite (not_null a Ha).
  destruct (any_path _ _ _ _ _ _ F1 Hin) as [H1 H2]. pose proof (whole_load _ _ _ _ _ _ F1 Hin) as Hm.
  destruct h1 as [m b]. mstep (load_ok m b a g Hm). rewrite add_usage_ok by done.
  set (d := if dbl_leb _ _ then _ else _).
  destruct (keeps_frames _ _ _ _ _ _ F1 (imap_frames (fun g => set_usage (dbl_add (usage g) d) g)
    (gp_ginfo <$> gpath g) m ltac:(done))) as (g2 & t2 & F2). eauto.
Qed.

(** A walk over the whole tree *)
Lemma walk_total (f : M heap unit) (w : tree -> tree) h r g0 t :
  fair_tree h r g0 t -> f h = Some (tt, Heap (put (w (whole r g0 t)) (cells h)) (brk h)) ->
  (exists g1 t1, w (whole r g0 t) = whole r g1 t1) -> tsame (whole r g0 t) (w (whole r g0 t)) ->
  exists h' g0' t', f h = Some (tt, h') /\ fair_tree h' r g0' t'.
Proof.
  intros F E (g1 & t1 & Hw) Hs. rewrite Hw in E, Hs. eexists _, g1, t1. split; [exact E|]. by apply (fair_same _ _ _ _ _ _ F).
Qed.

Lemma percentages_total h r g0 t : fair_tree h r g0 t ->
  exists h' t', (let* g := load r in let* _ := calc_fair_share_perc (child g) UNSPECIFIED in ret tt) h = Some (tt, h') /\
    fair_tree h' r g0 t' /\ cells h' = put (perc_tree (tree_percentage g0) UNSPECIFIED t) (cells h).
Proof.
  intros F. pose proof (whole_load _ _ _ _ r g0 F ltac:(cbn; by left)) as Hm. destruct h as [m b].
  mstep (load_ok m b r g0 Hm).
  assert (below r (whole r g0 t) = Some (g0, t)) as Hb by (cbn; by rewrite Z.eqb_refl).
  destruct (level_percentages m b r g0 t r g0 t F Hb) as (z & h' & t' & E & _ & Hc & F' & _).
  mstep E. eauto.
Qed.

Lemma factors_total h r g0 t : fair_tree h r g0 t ->
  exists h' t', calc_usage_factor (Some (FairshareHead r 0)) h = Some (tt, h') /\ fair_tree h' r g0 t' /\
    cells h' = put (top_factor_tree (usage g0) t) (cells h).
Proof.
  intros F. pose proof (whole_load _ _ _ _ r g0 F ltac:(cbn; by left)) as Hm. destruct h as [m b].
  pose proof (ft_held _ _ _ _ F) as H. destruct (held_node _ _ _ _ _ H) as (Hr & _ & Hc & _ & Hch & _ & Hrt & _).
  apply Z.eqb_neq in Hr. unfold calc_usage_factor. cbn [fh_root]. mstep (load_ok m b r g0 Hm). rewrite Hc.
  eexists (Heap (put (top_factor_tree (usage g0) t) m) b), (top_factor_tree (usage g0) t). split_and!; [|..|done].
  - apply (fueled_held _ m b t); [done|]. intros n Hn. by apply (factor_loop t n m b r g0 [r]); try apply F.
  - pose proof (tsame_top_factor t (usage g0)) as Hs.
    pose proof (fair_same _ _ _ _ g0 (top_factor_tree (usage g0) t) F ltac:(cbn; auto using tsame_refl)) as F'.
    cbn [cells brk put] in F'. rewrite insert_id in F'; [exact F'|].
    rewrite put_other; [done|]. by rewrite addrs_top_factor.
Qed.

Lemma load_usage_total u h r g0 t a g : fair_tree h r g0 t -> (a, g) ∈ nodes (whole r g0 t) -> a <> NULL ->
  exists h' g0' t', load_usage a u h = Some (tt, h') /\ fair_tree h' r g0' t'.
Proof.
  intros F Hin Ha. pose proof (whole_load _ _ _ _ _ _ F Hin) as Hm. destruct h as [m b]. cbn [cells] in Hm.
  destruct (decide (child g = NULL)) as [Hc|Hc].
  - assert ((a, g) ∈ nodes t) as Hin'.
    { cbn in Hin. apply elem_of_cons in Hin as [[= -> ->]|Hin]; [|done].
      pose proof (root_not_written _ _ _ _ F) as _. destruct (held_linked _ _ (ft_held _ _ _ _ F)) as (_ & Hch & _ & Hl & _).
      destruct t as [|x gx ch sib]; [pose proof (ft_unknown _ _ _ _ F); set_solver|]. rewrite Hch in Hc.
      destruct Hl as (Hx & _). done. }
    destruct (path_ok _ _ _ _ _ _ F Hin') as (_ & _ & l & Hl & _).
    pose proof (ft_named _ _ _ _ F) as Hnm. unfold all_named in Hnm. rewrite Forall_forall in Hnm.
    destruct (Hnm _ Hin) as [s Hs]. cbn in Hs.
    assert (is_entity t (Entity a s l u)) as He by (exists g; auto).
    pose proof (load_usage_ok m b r g0 t _ u F He eq_refl) as E. cbn [e_addr] in E.
    destruct (keeps_frames _ _ _ _ _ _ F (credit_all_frames m (Entity a s l u))) as (g1 & t1 & F1). eauto.
  - unfold load_usage. rewrite (not_null a Ha). mstep (upd_ok m b a g (set_usage u) Hm).
    mstep (upd_ok (<[a := set_usage u g]> m) b a _ (set_temp_usage u) (lookup_insert_eq _ _ _)). rewrite insert_insert_eq.
    mstep (load_ok (<[a := set_temp_usage u (set_usage u g)]> m) b a _ (lookup_insert_eq _ _ _)).
    rewrite (proj2 (Z.eqb_neq _ _)) by done.
    destruct (keeps_frames _ _ _ _ _ _ F (insert_frames m a g (fun g => set_temp_usage u (set_usage u g)) ltac:(done) Hm))
      as (g1 & t1 & F1). eauto.
Qed.

Lemma valid_total nm u : length nm = Z.to_nat USAGE_NAME_MAX -> exists v, valid_entity nm u = Some v.
Proof.
  intros Hl. unfold valid_entity. destruct (dbl_leb _ _); [|eauto]. revert Hl. generalize (Z.to_nat USAGE_NAME_MAX) as n.
  induction nm as [|c nm IH]; intros [|n] Hl; try done; cbn; [eauto|]. destruct (is_char c NUL); [eauto|].
  destruct (name_char c); [|eauto]. apply IH. by injection Hl.
Qed.

Lemma read_total flags r l : forall h g0 t, fair_tree h r g0 t ->
  Forall (fun p => length p.1 = Z.to_nat USAGE_NAME_MAX) l ->
  exists h' g0' t', read_usage_v2 (map (fun p => Rec50 p.1 p.2) l) flags r h = Some (1, h') /\ fair_tree h' r g0' t'.
Proof.
  induction l as [|[nm u] l IH]; intros h g0 t F Hl; [by exists h, g0, t|].
  apply Forall_cons in Hl as [Hn Hl]. cbn [fst] in Hn. cbn [map read_usage_v2 fst snd].
  destruct (valid_total nm u Hn) as [[] ->]; [|by eapply IH].
  assert (exists a h1 g1 t1, (if negb (Z.land flags FS_TRIM =? 0) then find_group_info (Some (cstr nm)) r
            else find_alloc_ginfo (Some (cstr nm)) r) h = Some (a, h1) /\ fair_tree h1 r g1 t1 /\
            (a = NULL \/ exists g, (a, g) ∈ nodes (whole r g1 t1) /\ a <> NULL)) as (a & h1 & g1 & t1 & E & F1 & Ha).
  { destruct (negb _).
    - exists (tfind (cstr nm) (whole r g0 t)), h, g0, t. split_and!; [by apply fair_find|done|].
      destruct (tfind_spec (cstr nm) (whole r g0 t)) as [[? _]|[? (g & ? & _)]]; [apply F|auto|right; eauto].
    - destruct (found_node h r g0 t (cstr nm) F) as (a & h1 & g1 & t1 & g & E & F1 & Hin & Ha).
      exists a, h1, g1, t1. split_and!; [done..|]. right. eauto. }
  mstep E. destruct Ha as [->|(g & Hin & Ha)].
  - unfold load_usage. change (NULL =? NULL) with true. msimp. by eapply IH.
  - destruct (load_usage_total u _ _ _ _ _ _ F1 Hin Ha) as (h2 & g2 & t2 & E2 & F2). mstep E2. by eapply IH.
Qed.

Lemma op_total op h r g0 t : fair_tree h r g0 t -> op_ok op ->
  exists h' g0' t', do_op r op h = Some (tt, h') /\ fair_tree h' r g0' t'.
Proof.
  intros F Hok. destruct op as [buf| |s u|s used before|factor| |flags l]; cbn [do_op].
  - by apply (group_line_total _ _ g0 t).
  - destruct (percentages_total _ _ _ _ F) as (h' & t' & E & F' & _). eauto.
  - destruct (found_node h r g0 t s F) as (a & h1 & g1 & t1 & g & E & F1 & Hin & Ha). mstep E.
    by apply (run_total u h1 r g1 t1 a g).
  - by apply (accrue_total used before h r g0 t).
  - eapply (walk_total _ (tmap (decay_node factor))); [done| |by eexists _, _|by apply tsame_tmap].
    destruct h. apply (decay_tree factor (whole r g0 t)), F.
  - destruct (walk_total (reset_temp_usage r) (tmap temp_node) h r g0 t F) as (h1 & g1 & t1 & E & F1).
    + destruct h. apply (reset_temp_usage_tree (whole r g0 t)), F.
    + by eexists _, _.
    + by apply tsame_tmap.
    + mstep E. destruct (factors_total _ _ _ _ F1) as (h' & t' & E' & F' & _). eauto.
  - destruct (walk_total (reset_usage r) (tmap reset_node) h r g0 t F) as (h1 & g1 & t1 & E & F1).
    + destruct h. apply (reset_usage_tree (whole r g0 t)), F.
    + by eexists _, _.
    + by apply tsame_tmap.
    + mstep E. destruct (read_total flags r l h1 g1 t1 F1 Hok) as (h2 & g2 & t2 & E2 & F2). mstep E2. eauto.
Qed.

Lemma ops_total r ops : forall h g0 t, fair_tree h r g0 t -> Forall op_ok ops ->
  exists h' g0' t', do_ops r ops h = Some (tt, h') /\ fair_tree h' r g0' t'.
Proof.
  induction ops as [|op ops IH]; intros h g0 t F Hok; [by exists h, g0, t|]. apply Forall_cons in Hok as [H1 H2].
  cbn [do_ops]. destruct (op_total op h r g0 t F H1) as (h1 & g1 & t1 & E & F1). mstep E. by eapply IH.
Qed.

(** C18. From the preloaded tree, any lines of the resource group file, jobs run,
    usage accrued, decays, cycles and usage files read, in any order, all return
    without following a wrong pointer, and leave a tree whose pointers, parents
    and paths are right and whose names are unique. *)
Theorem fairshare_runs unknown_shares ops :
  Forall op_ok ops ->
  exists r h0 h g0 t, preload_tree unknown_shares (Heap ∅ 1) = Some (FairshareHead r 0, h0) /\
    do_ops r ops h0 = Some (tt, h) /\ fair_tree h r g0 t.
Proof.
  intros Hops. destruct (preload_ok ∅ 1 unknown_shares) as (h0 & r & g0 & t & E & F & _); [lia| |].
  { intros a [g Ha]. by rewrite lookup_empty in Ha. }
  destruct (ops_total r ops h0 g0 t F Hops) as (h' & g0' & t' & E' & F').
  exists r, h0, h', g0', t'. done.
Qed.

(** C19. Writing the usage file, resetting the tree and reading the file back gives
    every entity the usage it had, or 1 when it was not written, and every group
    1 and the usages of the entities below it, in the order of the file. *)
Theorem usage_roundtrip h r g0 t last flags :
  fair_tree h r g0 t -> last = 0 \/ 946713600 < last -> Forall readable (entities r g0 t) ->
  exists file h1 h2 g2 t2, write_usage (FairshareHead r last) h = Some (file, h) /\
    reset_usage r h = Some (tt, h1) /\
    read_usage (Some file) flags (FairshareHead r last) h1 = Some (FairshareHead r last, h2) /\
    fair_tree h2 r g2 t2 /\ tsame (whole r g0 t) (whole r g2 t2) /\
    (forall a g, (a, g) ∈ nodes t -> child g = NULL -> exists g', cells h2 !! a = Some g' /\
       usage g' = (if written (a, g) then usage g else dbl_of_Z 1) /\ temp_usage g' = usage g') /\
    (forall a g, (a, g) ∈ nodes (whole r g0 t) -> child g <> NULL -> exists g', cells h2 !! a = Some g' /\
       usage g' = fold_left dbl_add (usages_below a r g0 t) (dbl_of_Z 1) /\ temp_usage g' = usage g').
Proof.
  intros F Hl Hr.
  destruct (usage_restored h r g0 t last flags (FairshareHead r last) F eq_refl Hl Hr) as (h1 & h2 & g2 & t2 & H).
  exists (file_of last (whole r g0 t)), h1, h2, g2, t2. split; [by apply write_usage_ok|exact H].
Qed.

Lemma decays_whole gap d : 0 < d -> gap <= 0 \/ gap mod d <> 0 -> Z.to_nat (decays gap d) = Z.to_nat (gap / d).
Proof.
  intros Hd Hg. unfold decays. pose proof (Z.div_mod gap d ltac:(lia)) as Hdm.
  pose proof (Z.mod_pos_bound gap d Hd) as Hm. destruct (Z.ltb_spec 0 gap).
  - f_equal. symmetry. apply (Z.div_unique_pos _ _ _ (gap mod d - 1)); lia.
  - assert (gap / d <= 0); [|lia]. transitivity (0 / d); [|done]. by apply Z.div_le_mono.
Qed.

(** C21. A cycle performs as many decays of the tree as necessary: one for every
    whole decay time since the last decay, by which it moves the time of the last
    decay on.  The gap since the last decay is not a positive multiple of the decay time;
    then one decay is lost ([FairScenes.decay_is_lost]). *)
Theorem decay_cycle_spec factor d now last h r g0 t :
  let n := Z.to_nat ((now - last) / d) in
  fair_tree h r g0 t -> 0 < d -> 0 <= last <= LONG_MAX -> 0 <= now <= LONG_MAX ->
  now <= last \/ (now - last) mod d <> 0 ->
  exists g0' t', decay_times factor n (whole r g0 t) = whole r g0' t' /\
    fair_tree (Heap (put (whole r g0' t') (cells h)) (brk h)) r g0' t' /\
    decay_cycle factor d now (FairshareHead r last) h
    = Some (FairshareHead r (last + Z.of_nat n * d), Heap (put (whole r g0' t') (cells h)) (brk h)).
Proof.
  intros n F Hd Hl Hn Hg. destruct (decay_cycle_ok factor d now last h r g0 t F Hd Hl Hn) as (g0' & t' & H1 & H2 & H3).
  rewrite decays_whole in H1 by lia. exists g0', t'. split_and!; [done..|]. rewrite H3.
  replace (last + Z.of_nat n * d)
    with (if 0 <? decays (now - last) d then now - (now - last) mod d else last); [done|].
  pose proof (decays_whole (now - last) d Hd ltac:(lia)) as Hw. fold n in Hw.
  pose proof (Z.div_mod (now - last) d ltac:(lia)). destruct (Z.ltb_spec 0 (decays (now - last) d)); nia.
Qed.

(** *** Comparison *)

Lemma groups_sane h r g0 t a g : fair_tree h r g0 t -> (forall a g, (a, g) ∈ nodes (whole r g0 t) -> sane g) ->
  (a, g) ∈ nodes t -> Forall sane (path_groups (cells h) (gpath g)) /\
    ((forall a g, (a, g) ∈ nodes (whole r g0 t) -> positive_share g = true) -> sharing (path_groups (cells h) (gpath g))) /\
    length (path_groups (cells h) (gpath g)) = length (gpath g).
Proof.
  intros F Hs Hin. destruct (path_ok _ _ _ _ _ _ F Hin) as (_ & Hd & _).
  assert (forall c, c ∈ gpath g -> exists gc, cells h !! gp_ginfo c = Some gc /\ (gp_ginfo c, gc) ∈ nodes (whole r g0 t)) as Hc.
  { intros c Hc. pose proof (tree_chain _ _ _ _ _ _ F Hin) as Hch.
    pose proof (any_chain_in _ _ _ _ a g _ F ltac:(cbn; by right) Hch (gp_ginfo c) ltac:(by apply list_elem_of_fmap_2)) as Ha.
    apply list_elem_of_fmap in Ha as ([x gc] & Hx & Ha). cbn in Hx. subst x. exists gc. split; [|done].
    by apply (whole_load h r g0 t). }
  split_and!.
  - apply Forall_forall. intros gc (c & Hcin & Hgc)%list_elem_of_omap.
    destruct (Hc c Hcin) as (gc' & E & Hin'). rewrite E in Hgc. injection Hgc as ->. by eapply Hs.
  - intros Hp. apply Forall_forall. intros gc (c & Hcin & Hgc)%list_elem_of_omap.
    destruct (Hc c Hcin) as (gc' & E & Hin'). rewrite E in Hgc. injection Hgc as ->. split; [by eapply Hs|by eapply Hp].
  - apply path_groups_length. intros c Hcin. apply Hd. by apply list_elem_of_fmap_2.
Qed.

Lemma order_self l : Forall sane l -> order l l = 0.
Proof.
  induction 1 as [|g l Hg _ IH]; [done|]. cbn. rewrite judge_sane by done. destruct (positive_share g); [|done].
  unfold dbl_ltb. by rewrite ltb_irrefl.
Qed.

(** C20. When no percentage and no usage by percentage is NaN, [compare_path] of two
    entities returns, swapping them negates it, being more deserving is
    transitive, and among entities at the same depth with shares everywhere a
    tie can be exchanged in a comparison: it sorts them. *)
Theorem compare_path_order h r g0 t a1 g1 a2 g2 a3 g3 :
  fair_tree h r g0 t -> (forall a g, (a, g) ∈ nodes (whole r g0 t) -> sane g) ->
  (a1, g1) ∈ nodes t -> (a2, g2) ∈ nodes t -> (a3, g3) ∈ nodes t ->
  exists z12 z23 z13, compare_path (gpath g1) (gpath g2) h = Some (z12, h) /\
    compare_path (gpath g2) (gpath g1) h = Some (- z12, h) /\
    compare_path (gpath g2) (gpath g3) h = Some (z23, h) /\
    compare_path (gpath g1) (gpath g3) h = Some (z13, h) /\
    (z12 = -1 -> z23 = -1 -> z13 = -1) /\
    ((forall a g, (a, g) ∈ nodes (whole r g0 t) -> positive_share g = true) ->
     length (gpath g1) = length (gpath g2) -> z12 = 0 -> z13 = z23).
Proof.
  intros F Hs H1 H2 H3.
  destruct (groups_sane _ _ _ _ _ _ F Hs H1) as (S1 & P1 & L1).
  destruct (groups_sane _ _ _ _ _ _ F Hs H2) as (S2 & P2 & L2).
  destruct (groups_sane _ _ _ _ _ _ F Hs H3) as (S3 & _ & _).
  assert (forall a g a' g', (a, g) ∈ nodes t -> (a', g') ∈ nodes t ->
    Forall sane (path_groups (cells h) (gpath g)) ->
    compare_path (gpath g) (gpath g') h = Some (order (path_groups (cells h) (gpath g)) (path_groups (cells h) (gpath g')), h)) as Hcmp.
  { intros a g a' g' Hin Hin' Hsg. rewrite (compare_groups h r g0 t a g a' g' F Hin Hin'). destruct (Z.eqb_spec a a') as [->|]; [|done].
    assert (g = g') as <-.
    { pose proof (whole_load _ _ _ _ a' g F ltac:(cbn; by right)). pose proof (whole_load _ _ _ _ a' g' F ltac:(cbn; by right)). congruence. }
    by rewrite order_self. }
  eexists _, _, _. rewrite (Hcmp a1 g1 a2 g2), (Hcmp a2 g2 a1 g1), (Hcmp a2 g2 a3 g3), (Hcmp a1 g1 a3 g3) by done.
  split_and!; try done.
  - by rewrite (order_sym (path_groups (cells h) (gpath g1))).
  - by apply order_trans.
  - intros Hp Hlen Hz. apply order_tie_l; try done. apply order_tie; auto. by rewrite L1, L2.
Qed.

(** C22. The copy of a tree has the same groups with the same data in new cells;
    the old tree is as it was, and freeing the copy frees exactly what the copy
    took. *)
Theorem copy_and_free h r g0 t :
  fair_tree h r g0 t ->
  exists r' h' g0' t' h2, dup_fairshare_tree r NULL h = Some (r', h') /\ fair_tree h' r g0 t /\
    fair_tree h' r' g0' t' /\ copy (whole r g0 t) (whole r' g0' t') /\
    (forall x, x ∈ addrs (whole r' g0' t') -> x ∉ addrs (whole r g0 t)) /\
    free_fairshare_tree r' h' = Some (tt, h2) /\ cells h2 = cells h.
Proof.
  intros F. destruct (dup_tree h r g0 t F) as (r' & h' & g0' & t' & E & F' & Hc & Hold & Hnew).
  exists r', h', g0', t', (Heap (cleared (whole r' g0' t') (cells h')) (brk h')).
  assert (brk h <= brk h') as Hb.
  { pose proof (fair_addr _ _ _ _ r' F' ltac:(rewrite addrs_node; by left)).
    destruct (proj1 (Hnew r') ltac:(rewrite addrs_node; by left)). lia. }
  assert (forall x, x ∈ addrs (whole r g0 t) -> x < brk h) as Hlt by (intros x Hx; apply (fair_addr _ _ _ _ _ F Hx)).
  split_and!; [done| |done|done| | |].
  - destruct F as [H1 H2 H3 H4 H5 H6 H7 H8 H9]. split; try done.
    + eapply held_frame; [|exact H1]. intros x Hx. by apply Hold, Hlt.
    + apply F'.
    + by eapply apart_brk.
  - intros x Hx Hx'. apply Hnew in Hx. specialize (Hlt x Hx'). lia.
  - destruct h' as [m' b']. apply (free_tree (whole r' g0' t')), F'.
  - cbn [cells]. apply map_eq. intros x. rewrite cleared_lookup. case_bool_decide as Hx.
    + apply Hnew in Hx as [Hx _]. destruct (cells h !! x) as [gx|] eqn:Ex; [|done].
      pose proof (proj2 (ft_brk _ _ _ _ F) x ltac:(eauto)). lia.
    + destruct (Z.lt_ge_cases x (brk h)) as [Hlx|Hgx]; [by apply Hold|].
      destruct (cells h' !! x) as [gx|] eqn:Ex; [destruct Hx; apply Hnew; split; [lia|eauto]|].
      destruct (cells h !! x) as [gy|] eqn:Ey; [|done].
      pose proof (proj2 (ft_brk _ _ _ _ F) x ltac:(eauto)). lia.
Qed.

End FairProps.

(** * A fairshare tree

    Module [FairScenes]: a small tree read from a resource group file, on which
    the theorems of [FairProps] are applied, and what the model shows to go wrong
    in [src/scheduler/fairshare.c] and [init_scheduling_cycle] of
    [src/scheduler/fifo.c]. *)

Import Double Float Text Fair FairShape FairWf FairOps FairGroups FairUsage FairFile FairRead FairOrder FairCopy FairProps.

Module FairScenes.

(** The tree of a heap *)
Fixpoint extract (n : nat) (m : gmap Z group_info) (a : Z) : tree :=
  match n with
  | O => Leaf
  | S n =>
      if a =? NULL then Leaf
      else match m !! a with
           | Some g => Node a g (extract n m (child g)) (extract n m (sibling g))
           | None => Leaf
           end
  end.

Lemma extract_stored n m : forall a, stored m (extract n m a).
Proof.
  induction n as [|n IH]; intros a; cbn; [constructor|]. destruct (a =? NULL); [constructor|].
  destruct (m !! a) as [g|] eqn:E; [|constructor]. rewrite stored_node. auto.
Qed.

Definition resource_group : list ascii :=
  lit "# name cresgrp grpname shares" ++ [NEWLINE] ++ lit "grp1 60 root 10" ++ [NEWLINE]
  ++ lit "u1 61 grp1 30" ++ [NEWLINE] ++ lit "u2 62 grp1 10" ++ [NEWLINE] ++ lit "u3 63 root 20" ++ [NEWLINE].

(** [schedinit]: the preloaded tree, the file, the percentages; then usage *)
Definition sched_init : M heap Z :=
  let* fh := preload_tree 10 in
  let r := fh_root fh in
  let* _ := parse_group (Some resource_group) r in
  let* _ := do_ops r [OpPercentages; OpAccrue (lit "u1") (dbl_of_Z 100) (dbl_of_Z 0);
                      OpAccrue (lit "u3") (dbl_of_Z 40) (dbl_of_Z 10); OpCycle; OpRun (lit "u2") (dbl_of_Z 7)] in
  ret r.

Definition scene : heap := match sched_init (Heap ∅ 1) with Some (_, h) => h | None => Heap ∅ 1 end.
Definition scene_root : Z := 1.
Definition scene_group : group_info :=
  match cells scene !! scene_root with Some g => g | None => GroupInfo None 0 0 0 flt_zero flt_zero flt_zero flt_zero flt_zero [] 0 0 0 end.
Definition scene_tree : tree := extract 10 (cells scene) (child scene_group).

Lemma scene_whole : extract 11 (cells scene) scene_root = whole scene_root scene_group scene_tree.
Proof. vm_compute. reflexivity. Qed.

Lemma scene_fair : fair_tree scene scene_root scene_group scene_tree.
Proof.
  split.
  - rewrite <-scene_whole. split; [vm_compute; repeat split; discriminate|apply extract_stored|].
    apply (bool_decide_unpack _). vm_compute. exact I.
  - vm_compute. reflexivity.
  - vm_compute. repeat split.
  - unfold all_named. apply (bool_decide_unpack _). vm_compute. exact I.
  - apply (bool_decide_unpack _). vm_compute. exact I.
  - split; [vm_compute; reflexivity|]. intros a [g Ha].
    assert (map_Forall (fun a _ => 0 < a < brk scene) (cells scene)) as Hall by (apply (bool_decide_unpack _); vm_compute; exact I).
    by apply (Hall a g).
  - apply (bool_decide_unpack _). vm_compute. exact I.
  - split.
    + assert (Forall (fun n => Forall (fun c => gp_addr c < brk scene) (gpath n.2)) (nodes scene_tree)) as H
        by (apply (bool_decide_unpack _); vm_compute; exact I).
      intros a g c Hin Hc. rewrite Forall_forall in H. specialize (H _ Hin). rewrite Forall_forall in H. by apply H.
    + assert (Forall (fun n => Forall (fun n' => n.1 <> n'.1 ->
          Forall (fun c => gp_addr c ∉ (gp_addr <$> gpath n'.2)) (gpath n.2)) (nodes scene_tree)) (nodes scene_tree)) as H
        by (apply (bool_decide_unpack _); vm_compute; exact I).
      intros a g c a' g' c' Hin Hin' Hne Hc Hc' He. rewrite Forall_forall in H. specialize (H _ Hin).
      rewrite Forall_forall in H. specialize (H _ Hin' Hne). rewrite Forall_forall in H. apply (H c Hc).
      apply list_elem_of_fmap. eauto.
  - vm_compute. reflexivity.
Qed.

#[local] Opaque scene scene_group scene_tree.

Lemma fairshare_runs_witness : exists r h0 h g0 t, preload_tree 10 (Heap ∅ 1) = Some (FairshareHead r 0, h0) /\
    do_ops r [OpLine (lit "u9 1 root 5"); OpRun (lit "u8") (dbl_of_Z 3); OpDecay flt_one;
              OpRead 0 [(strncpy (lit "u7") 50, dbl_of_Z 12)]; OpPercentages; OpCycle] h0 = Some (tt, h) /\ fair_tree h r g0 t.
Proof. apply fairshare_runs. repeat constructor. Defined.

Lemma scene_readable : Forall readable (entities scene_root scene_group scene_tree).
Proof. vm_compute. repeat constructor; try discriminate. Qed.

Lemma usage_roundtrip_witness :
  exists file h1 h2 g2 t2, write_usage (FairshareHead scene_root 946713601) scene = Some (file, scene) /\
    reset_usage scene_root scene = Some (tt, h1) /\
    read_usage (Some file) 0 (FairshareHead scene_root 946713601) h1 = Some (FairshareHead scene_root 946713601, h2) /\
    fair_tree h2 scene_root g2 t2.
Proof.
  destruct (usage_roundtrip scene scene_root scene_group scene_tree 946713601 0 scene_fair ltac:(right; lia) scene_readable)
    as (file & h1 & h2 & g2 & t2 & H1 & H2 & H3 & H4 & _). exists file, h1, h2, g2, t2. auto.
Defined.

(** The usages the file gives back: of u1, of its group and of the root *)
Example usage_of_scene :
  (fun h => map (fun a => usage <$> (cells h !! a)) [8; 5; 1]) <$>
    (snd <$> (let* f := write_usage (FairshareHead scene_root 0) in let* _ := reset_usage scene_root in
              read_usage (Some f) 0 (FairshareHead scene_root 0)) scene)
  = Some (map (fun z => Some (dbl_of_Z z)) [101; 102; 133]).
Proof. vm_compute. reflexivity. Qed.

Lemma decay_cycle_spec_witness :
  exists g0' t', decay_times (flt_of_Z 1) 24 (whole scene_root scene_group scene_tree) = whole scene_root g0' t' /\
    fair_tree (Heap (put (whole scene_root g0' t') (cells scene)) (brk scene)) scene_root g0' t' /\
    decay_cycle (flt_of_Z 1) 3600 1086401 (FairshareHead scene_root 1000000) scene
    = Some (FairshareHead scene_root 1086400, Heap (put (whole scene_root g0' t') (cells scene)) (brk scene)).
Proof.
  exact (decay_cycle_spec (flt_of_Z 1) 3600 1086401 1000000 scene scene_root scene_group scene_tree scene_fair
           ltac:(lia) ltac:(split; discriminate) ltac:(split; discriminate) ltac:(right; discriminate)).
Defined.

Definition sane_b (g : group_info) : bool :=
  is_num (tree_percentage g) && (negb (positive_share g) || is_num (deserved g)).

Lemma scene_sane a g : (a, g) ∈ nodes (whole scene_root scene_group scene_tree) -> sane g.
Proof.
  assert (forallb (fun n => sane_b n.2) (nodes (whole scene_root scene_group scene_tree)) = true) as H
    by (vm_compute; reflexivity).
  intros Hin%list_elem_of_In. rewrite forallb_forall in H. specialize (H _ Hin). unfold sane_b in H. cbn [snd] in H.
  simp_bool. split; [done|]. intros Hp. by destruct (positive_share g).
Qed.

Definition group_at (a : Z) : group_info := default scene_group (cells scene !! a).

Lemma at_scene a : existsb (fun n => n.1 =? a) (nodes scene_tree) = true -> (a, group_at a) ∈ nodes scene_tree.
Proof.
  intros ([x g] & Hin%list_elem_of_In & Hx)%existsb_exists. cbn in Hx. apply Z.eqb_eq in Hx as ->.
  unfold group_at. assert (cells scene !! a = Some g) as ->; [|done].
  apply (whole_load _ _ _ _ a g scene_fair). cbn. by right.
Qed.

Lemma compare_path_order_witness :
  exists z12 z23 z13, compare_path (gpath (group_at 16)) (gpath (group_at 12)) scene = Some (z12, scene) /\
    compare_path (gpath (group_at 12)) (gpath (group_at 16)) scene = Some (- z12, scene) /\
    compare_path (gpath (group_at 12)) (gpath (group_at 8)) scene = Some (z23, scene) /\
    compare_path (gpath (group_at 16)) (gpath (group_at 8)) scene = Some (z13, scene) /\
    (z12 = -1 -> z23 = -1 -> z13 = -1).
Proof.
  destruct (compare_path_order scene scene_root scene_group scene_tree 16 (group_at 16) 12 (group_at 12) 8 (group_at 8)
    scene_fair scene_sane (at_scene 16 eq_refl) (at_scene 12 eq_refl) (at_scene 8 eq_refl))
    as (z12 & z23 & z13 & H1 & H2 & H3 & H4 & H5 & _). exists z12, z23, z13. auto.
Defined.

Lemma copy_and_free_witness :
  exists r' h' g0' t' h2, dup_fairshare_tree scene_root NULL scene = Some (r', h') /\ fair_tree h' r' g0' t' /\
    free_fairshare_tree r' h' = Some (tt, h2) /\ cells h2 = cells scene.
Proof.
  destruct (copy_and_free scene scene_root scene_group scene_tree scene_fair)
    as (r' & h' & g0' & t' & h2 & H1 & _ & H2 & _ & _ & H3 & H4). exists r', h', g0', t', h2. auto.
Defined.

(** ** Findings *)

(** When the gap is two decay times exactly, the tree decays once but the time of
    the last decay moves by both: a decay is lost. *)
Example decay_is_lost :
  decays (1007200 - 1000000) 3600 = 1 /\
  fst <$> decay_cycle flt_one 3600 1007200 (FairshareHead scene_root 1000000) scene
  = Some (FairshareHead scene_root 1007200).
Proof. split; vm_compute; reflexivity. Qed.

Definition tie_file : list ascii :=
  lit "grp1 60 root 10" ++ [NEWLINE] ++ lit "u1 61 grp1 10" ++ [NEWLINE] ++ lit "u2 62 grp1 10" ++ [NEWLINE]
  ++ lit "u3 63 root 10" ++ [NEWLINE].
Definition tie_compare (a b : string) : option Z :=
  fst <$>
  (let* fh := preload_tree 10 in
   let r := fh_root fh in
   let* _ := parse_group (Some tie_file) r in
   let* _ := do_ops r [OpPercentages; OpRun (lit "u1") (dbl_of_Z 5); OpRun (lit "u3") (dbl_of_Z 5)] in
   let* x := find_group_info (Some (lit a)) r in
   let* y := find_group_info (Some (lit b)) r in
   let* gx := load x in let* gy := load y in
   compare_path (gpath gx) (gpath gy)) (Heap ∅ 1).

(** An entity of the root ties with both entities of a group that has the same
    usage by percentage, but the two do not tie: the order [qsort] is given is
    not a weak order across depths. *)
Example ties_are_not_transitive :
  tie_compare "u3" "u1" = Some 0 /\ tie_compare "u3" "u2" = Some 0 /\ tie_compare "u2" "u1" = Some (-1).
Proof. vm_compute. auto. Qed.

(** A name of [USAGE_NAME_MAX] characters is written without a null and is not
    valid when it is read: the usage of the entity is lost. *)
Example long_name_is_lost :
  valid_entity (strncpy (replicate 50 "a"%char) USAGE_NAME_MAX) (dbl_of_Z 9) = Some false.
Proof. vm_compute. reflexivity. Qed.

(** A name that fills the nine characters of a version 1 record is read past its
    array. *)
Example v1_name_is_overread : valid_entity (lit "ninechars") (dbl_of_Z 9) = None.
Proof. vm_compute. reflexivity. Qed.

(** Shares that add up to -1 are taken for no total: the next group of the level
    counts only from itself on, and gets the whole machine. *)
Example total_of_minus_one :
  (fun h => tree_percentage <$> (cells h !! 5)) <$>
    (snd <$> (let* fh := preload_tree 0 in
      let r := fh_root fh in
      do_ops r [OpLine (lit "a 60 root -2"); OpLine (lit "b 61 root 1"); OpPercentages]) (Heap ∅ 1))
  = Some (Some flt_one).
Proof. vm_compute. reflexivity. Qed.

End FairScenes.
