(* ===== verification/TimeData.v ===== *)
(** * Times of the scheduler: configuration, policy and clock

    Module [Conf]: the fields of [struct config] and [struct status]
    ([src/scheduler/data_types.h]) that prime and dedicated time use, the days
    and prime times of [src/scheduler/constant.h], and the calendar time of the C
    library as a class. *)

From Stdlib Require Import ZArith Lia.
From S2P Require Import Prelude SchedData.
Import Data.

Module Conf.

(** ** Days and prime time *)

Inductive prime_time := NON_PRIME | PRIME | ALL_TIME | NO_TIME.

Inductive days :=
  | SUNDAY | MONDAY | TUESDAY | WEDNESDAY | THURSDAY | FRIDAY | SATURDAY | WEEKDAY.

#[export] Instance prime_time_eq_dec : EqDecision prime_time.
Proof. solve_decision. Defined.
#[export] Instance days_eq_dec : EqDecision days.
Proof. solve_decision. Defined.

(** [struct t]: five bits for the hour and six for the minute *)
Record t := T { t_hour : Z; t_min : Z; t_none : bool; t_all : bool }.

Definition t_set_hour (x : t) (h : Z) : t := T (h mod 2 ^ 5) (t_min x) (t_none x) (t_all x).
Definition t_set_min (x : t) (m : Z) : t := T (t_hour x) (m mod 2 ^ 6) (t_none x) (t_all x).
Definition t_set_none (x : t) : t := T (t_hour x) (t_min x) true (t_all x).
Definition t_set_all (x : t) : t := T (t_hour x) (t_min x) (t_none x) true.

Record timegap := Gap { from : Z; to : Z }.

Definition gap0 : timegap := Gap 0 0.

#[export] Instance timegap_eq_dec : EqDecision timegap.
Proof. solve_decision. Defined.

(** ** Configuration

    What [struct config] has twice, as [prime_rr] and [non_prime_rr] and so on,
    is a record of settings here; a [struct sort_info *] is an address. *)

Record settings := Settings {
  round_robin : bool; by_queue : bool; strict_fifo : bool; strict_ordering : bool;
  sort_by : Z; fair_share : bool; load_balancing : bool; help_starving_jobs : bool;
  backfill : bool; sort_nodes : bool; load_balancing_rr : bool; backfill_prime : bool;
  preempting : bool; node_sort : Z; smp_dist : Z }.

Definition no_settings : settings :=
  {| round_robin := false; by_queue := false; strict_fifo := false; strict_ordering := false;
     sort_by := 0; fair_share := false; load_balancing := false; help_starving_jobs := false;
     backfill := false; sort_nodes := false; load_balancing_rr := false;
     backfill_prime := false; preempting := false; node_sort := 0; smp_dist := 0 |}.

Definition MAX_HOLIDAY_SIZE : Z := 50.
Definition MAX_DEDTIME_SIZE : Z := 50.

Record config := Config {
  prime_settings : settings; non_prime_settings : settings;
  prime_spill : Z; nonprime_spill : Z;
  prime : days -> prime_time -> t;
  holidays : list Z; holiday_year : Z; num_holidays : Z;
  ded_time : list timegap;
  prime_exempt_anytime_queues : bool }.

(** After [memset(&conf, 0, sizeof(struct config))] *)
Definition config0 : config :=
  {| prime_settings := no_settings; non_prime_settings := no_settings;
     prime_spill := 0; nonprime_spill := 0;
     prime := fun _ _ => T 0 0 false false;
     holidays := replicate (Z.to_nat MAX_HOLIDAY_SIZE) 0; holiday_year := 0; num_holidays := 0;
     ded_time := replicate (Z.to_nat MAX_DEDTIME_SIZE) gap0;
     prime_exempt_anytime_queues := false |}.

Definition set_prime (c : config) (d : days) (p : prime_time) (x : t) : config :=
  {| prime_settings := prime_settings c; non_prime_settings := non_prime_settings c;
     prime_spill := prime_spill c; nonprime_spill := nonprime_spill c;
     prime := fun d' p' => if decide (d' = d /\ p' = p) then x else prime c d' p';
     holidays := holidays c; holiday_year := holiday_year c; num_holidays := num_holidays c;
     ded_time := ded_time c; prime_exempt_anytime_queues := prime_exempt_anytime_queues c |}.

Definition set_holidays (c : config) (hs : list Z) (year num : Z) : config :=
  {| prime_settings := prime_settings c; non_prime_settings := non_prime_settings c;
     prime_spill := prime_spill c; nonprime_spill := nonprime_spill c; prime := prime c;
     holidays := hs; holiday_year := year; num_holidays := num;
     ded_time := ded_time c; prime_exempt_anytime_queues := prime_exempt_anytime_queues c |}.

Definition set_ded_time (c : config) (ds : list timegap) : config :=
  {| prime_settings := prime_settings c; non_prime_settings := non_prime_settings c;
     prime_spill := prime_spill c; nonprime_spill := nonprime_spill c; prime := prime c;
     holidays := holidays c; holiday_year := holiday_year c; num_holidays := num_holidays c;
     ded_time := ds; prime_exempt_anytime_queues := prime_exempt_anytime_queues c |}.

(** ** Policy: [struct status] *)

Record status := Status {
  policy : settings; is_prime : bool; is_ded_time_bit : bool;
  spill : Z; prime_status_end : Z; current_time : Z; cycle_start : Z;
  order : Z; preempt_attempts : Z; iteration : Z }.

Definition status0 : status := Status no_settings false false 0 0 0 0 0 0 0.

Definition set_times (s : status) (now real : Z) : status :=
  {| policy := policy s; is_prime := is_prime s; is_ded_time_bit := is_ded_time_bit s;
     spill := spill s; prime_status_end := prime_status_end s; current_time := now;
     cycle_start := real; order := order s; preempt_attempts := preempt_attempts s;
     iteration := iteration s |}.

Definition set_ded_bit (s : status) (b : bool) : status :=
  {| policy := policy s; is_prime := is_prime s; is_ded_time_bit := b;
     spill := spill s; prime_status_end := prime_status_end s; current_time := current_time s;
     cycle_start := cycle_start s; order := order s; preempt_attempts := preempt_attempts s;
     iteration := iteration s |}.

(** Policy settings, prime bit and spill; [prime_spill] is an [unsigned int]. *)
Definition set_policy (s : status) (x : settings) (p : bool) (sp : Z) : status :=
  {| policy := x; is_prime := p; is_ded_time_bit := is_ded_time_bit s;
     spill := uint32 sp; prime_status_end := prime_status_end s;
     current_time := current_time s; cycle_start := cycle_start s; order := order s;
     preempt_attempts := preempt_attempts s; iteration := iteration s |}.

Definition set_status_end (s : status) (e : Z) : status :=
  {| policy := policy s; is_prime := is_prime s; is_ded_time_bit := is_ded_time_bit s;
     spill := spill s; prime_status_end := e; current_time := current_time s;
     cycle_start := cycle_start s; order := order s; preempt_attempts := preempt_attempts s;
     iteration := iteration s |}.

Definition set_cycle (s : status) (o a i : Z) : status :=
  {| policy := policy s; is_prime := is_prime s; is_ded_time_bit := is_ded_time_bit s;
     spill := spill s; prime_status_end := prime_status_end s; current_time := current_time s;
     cycle_start := cycle_start s; order := o; preempt_attempts := a; iteration := i |}.

(** ** Calendar time

    [struct tm] without [tm_isdst]: [mktime] is only called with [-1] there. *)

Record tm := Tm {
  tm_sec : Z; tm_min : Z; tm_hour : Z; tm_mday : Z; tm_mon : Z; tm_year : Z;
  tm_wday : Z; tm_yday : Z }.

Class Clock := { localtime : Z -> tm; mktime : tm -> Z }.

(** The fields are in the ranges the C standard gives, without leap seconds. *)
Class ClockLaws (C : Clock) : Prop := {
  localtime_hour (date : Z) : 0 <= tm_hour (localtime date) <= 23;
  localtime_min (date : Z) : 0 <= tm_min (localtime date) <= 59;
  localtime_sec (date : Z) : 0 <= tm_sec (localtime date) <= 59;
  localtime_wday (date : Z) : 0 <= tm_wday (localtime date) <= 6;
  localtime_yday (date : Z) : 0 <= tm_yday (localtime date) <= 365 }.

(** [time_left_today] of [src/scheduler/prime.h] *)
Definition time_left_today (x : tm) : Z :=
  (23 - tm_hour x) * 3600 + (59 - tm_min x) * 60 + (59 - tm_sec x) + 1.

End Conf.
