(* ===== verification/PrimeTime.v ===== *)
(** * Prime time: [src/scheduler/prime.c]

    Module [Prime]: is it prime time, when does that end, the holidays file and
    what changes at the start of prime and non-prime time.  [None] is an access
    outside [conf.holidays].  The recursion of [end_prime_status_rec] gets one
    more than the seconds of a week as fuel; each level moves on by a second at
    least. *)

From Stdlib Require Import ZArith Lia Ascii String.
From S2P Require Import Prelude TextFile SchedData TimeData.
Import Text Data Conf.

Module Prime.

Section Prime.
Context {C : Clock}.

Definition day_of (x : tm) : days :=
  if tm_wday x =? 0 then SUNDAY
  else if tm_wday x =? 1 then MONDAY
  else if tm_wday x =? 2 then TUESDAY
  else if tm_wday x =? 3 then WEDNESDAY
  else if tm_wday x =? 4 then THURSDAY
  else if tm_wday x =? 5 then FRIDAY
  else if tm_wday x =? 6 then SATURDAY
  else WEEKDAY.

Definition check_prime (conf : config) (d : days) (x : tm) : prime_time :=
  let np := prime conf d NON_PRIME in
  let p := prime conf d PRIME in
  let npt := t_hour np * 100 + t_min np in
  let pt := t_hour p * 100 + t_min p in
  let ct := tm_hour x * 100 + tm_min x in
  if t_all p then PRIME
  else if t_all np then NON_PRIME
  else if t_none p then NON_PRIME
  else if t_none np then PRIME
  else if npt >? pt then
    if (pt <=? ct) && (ct <? npt) then PRIME else NON_PRIME
  else
    if (npt <=? ct) && (ct <? pt) then NON_PRIME else PRIME.

Fixpoint is_holiday_loop (fuel : nat) (conf : config) (i jdate : Z) : option Z :=
  match fuel with
  | O => None
  | S fuel =>
      if i <? num_holidays conf then
        h ← rd (holidays conf) i;
        if h =? jdate then Some i else is_holiday_loop fuel conf (i + 1) jdate
      else Some i
  end.

Definition is_holiday (conf : config) (date : Z) : option bool :=
  let jdate := if date >? 366 then tm_yday (localtime date) + 1 else date in
  i ← is_holiday_loop (S (Z.to_nat (num_holidays conf))) conf 0 jdate;
  Some (negb (i =? num_holidays conf)).

Definition is_prime_time (conf : config) (date : Z) : option prime_time :=
  if negb (holiday_year conf =? 0) then
    let tmptr := localtime date in
    h ← is_holiday conf (tm_yday tmptr + 1);
    Some (if h : bool then NON_PRIME else check_prime conf (day_of tmptr) tmptr)
  else Some PRIME.

Definition WEEK : Z := 7 * 24 * 60 * 60.

(** The scheduled time of [x] on the day of [date] *)
Definition at_time (date : Z) (tmptr : tm) (x : t) : Z :=
  date + (t_hour x - tm_hour tmptr) * 3600 + (t_min x - tm_min tmptr) * 60 - tm_sec tmptr.

Definition passed (tmptr : tm) (x : t) : bool :=
  (t_hour x <? tm_hour tmptr) ||
  ((t_hour x =? tm_hour tmptr) && (t_min x <? tm_min tmptr)).

Fixpoint end_prime_status_rec (fuel : nat) (conf : config) (start date : Z)
    (prime_status : prime_time) : option Z :=
  match fuel with
  | O => None
  | S fuel =>
      if date >? start + WEEK then Some SCHD_INFINITY
      else
        let tmptr := localtime date in
        let day := day_of tmptr in
        let tomorrow :=
          end_prime_status_rec fuel conf start (date + time_left_today tmptr) prime_status in
        if decide (prime_status = PRIME) then
          let np := prime conf day NON_PRIME in
          if t_none np then tomorrow
          else if passed tmptr np then tomorrow
          else if t_all np then Some date
          else
            h ← is_holiday conf (tm_yday tmptr + 1);
            if h : bool then Some date else Some (at_time date tmptr np)
        else
          let p := prime conf day PRIME in
          if t_none p then tomorrow
          else
            h ← is_holiday conf (tm_yday tmptr + 1);
            if h : bool then tomorrow
            else if passed tmptr p then tomorrow
            else if t_all p then Some date
            else Some (at_time date tmptr p)
  end.

Definition end_prime_status (conf : config) (date : Z) : option Z :=
  p ← is_prime_time conf date;
  if bool_decide (p = PRIME) && (holiday_year conf =? 0) then Some SCHD_INFINITY
  else end_prime_status_rec (Z.to_nat (WEEK + 2)) conf date date p.

(** ** The start of prime and of non-prime time *)

Definition init_prime_time (conf : config) (s : status) : option status :=
  let s := set_policy s (prime_settings conf) true (nonprime_spill conf) in
  e ← end_prime_status conf (prime_status_end s);
  Some (set_status_end s e).

Definition init_non_prime_time (conf : config) (s : status) : option status :=
  let s := set_policy s (non_prime_settings conf) false (prime_spill conf) in
  e ← end_prime_status conf (prime_status_end s);
  Some (set_status_end s e).

End Prime.

(** ** The holidays file *)

Definition load_day (d : days) (pr : prime_time) (tok : option cstring) : M config Z :=
  fun conf =>
    let x := prime conf d pr in
    match tok with
    | None => Some (-1, conf)
    | Some tok =>
        if streq tok (lit "all") || streq tok (lit "ALL") then
          Some (0, set_prime conf d pr (t_set_min (t_set_hour (t_set_all x) UNSPECIFIED) UNSPECIFIED))
        else if streq tok (lit "none") || streq tok (lit "NONE") then
          Some (0, set_prime conf d pr (t_set_min (t_set_hour (t_set_none x) UNSPECIFIED) UNSPECIFIED))
        else
          let '(v, endp) := strtol10 tok in
          let num := int32 v in
          if is_char (deref endp) NUL then
            Some (0, set_prime conf d pr
                       (t_set_min (t_set_hour x (Z.quot num 100)) (Z.rem num 100)))
          else Some (-1, conf)
    end.

(** The chain of [load_day] of a keyword, up to the first error *)
Fixpoint load_days (ds : list days) (pr : prime_time) (tok : option cstring) : M config Z :=
  match ds with
  | [] => ret 0
  | d :: ds' =>
      let* rc := load_day d pr tok in
      if rc <? 0 then ret (-1) else load_days ds' pr tok
  end.

(** The days a keyword of the file sets *)
Definition keyword_days (config_name : cstring) : list days :=
  if streq config_name (lit "saturday") then [SATURDAY]
  else if streq config_name (lit "sunday") then [SUNDAY]
  else if streq config_name (lit "weekday") then
    [WEEKDAY; MONDAY; TUESDAY; WEDNESDAY; THURSDAY; FRIDAY]
  else if streq config_name (lit "monday") then [MONDAY]
  else if streq config_name (lit "tuesday") then [TUESDAY]
  else if streq config_name (lit "wednesday") then [WEDNESDAY]
  else if streq config_name (lit "thursday") then [THURSDAY]
  else if streq config_name (lit "friday") then [FRIDAY]
  else [].

Definition year_line (rest : cstring) : M config bool :=
  fun conf =>
    match strtok BLANKS rest with
    | (None, _) => Some (true, conf)
    | (Some tok, _) =>
        let '(v, endp) := strtol10 tok in
        if is_char (deref endp) NUL then
          Some (false, set_holidays conf (holidays conf) (int32 v) (num_holidays conf))
        else Some (true, conf)
    end.

Definition day_line (ds : list days) (rest : cstring) : M config bool :=
  let '(tok, rest) := strtok BLANKS rest in
  let* rc := load_days ds PRIME tok in
  if rc <? 0 then ret true
  else
    let '(tok, _) := strtok BLANKS rest in
    let* rc := load_days ds NON_PRIME tok in
    ret (rc <? 0).

Definition holiday_line (config_name : cstring) (hol_index : Z) : M config Z :=
  fun conf =>
    hs ← wr (holidays conf) hol_index (int32 (strtol10 config_name).1);
    Some (hol_index + 1, set_holidays conf hs (holiday_year conf) (num_holidays conf)).

(** A line that is no comment: the new [hol_index], and whether an error is logged *)
Definition holidays_line (buf : cstring) (hol_index : Z) : M config (Z * bool) :=
  match strtok BLANKS buf with
  | (None, _) => crash
  | (Some config_name, rest) =>
      if streq config_name (lit "HOLIDAYFILE_VERSION1") then ret (hol_index, false)
      else if streq config_name (lit "YEAR") then
        let* error := year_line rest in ret (hol_index, error)
      else
        match keyword_days config_name with
        | [] => let* hol_index := holiday_line config_name hol_index in ret (hol_index, false)
        | ds => let* error := day_line ds rest in ret (hol_index, error)
        end
  end.

Fixpoint parse_holidays_loop (fuel : nat) (fp : list ascii) (hol_index : Z) : M config Z :=
  match fuel with
  | O => crash
  | S fuel =>
      match fgets 256 fp with
      | None => ret hol_index
      | Some (buf, fp) =>
          match chop_newline buf with
          | None => crash
          | Some buf =>
              if skip_line buf then parse_holidays_loop fuel fp hol_index
              else
                let* r := holidays_line buf hol_index in
                parse_holidays_loop fuel fp r.1
          end
      end
  end.

(** [None] is a file that cannot be opened. *)
Definition parse_holidays (file : option (list ascii)) : M config Z :=
  match file with
  | None => ret 0
  | Some fp =>
      let* hol_index := parse_holidays_loop (S (length fp)) fp 0 in
      fun conf =>
        Some (0, set_holidays conf (holidays conf) (holiday_year conf) (hol_index + 1))
  end.

End Prime.
