(* ===== verification/PrimeProps.v ===== *)
(** * Theorems on prime time

    [end_prime_status] ends on every clock; and when no day begins or ends in a
    way it does not expect, the status is the same up to the time it returns and
    changes there. *)

From Stdlib Require Import ZArith Lia Ascii String.
From S2P Require Import Prelude TextFile SchedData TimeData PrimeTime.
Import Text Data Conf Prime.

Module PrimeProps.

(** ** Holidays *)

(** The loop reads no more than the array. *)
Definition holidays_fit (conf : config) : Prop :=
  0 <= num_holidays conf <= Z.of_nat (length (holidays conf)).

Definition holiday_on (conf : config) (jdate : Z) : bool :=
  bool_decide (jdate ∈ take (Z.to_nat (num_holidays conf)) (holidays conf)).

Section Props.
Context {C : Clock} {L : ClockLaws C}.

Lemma is_holiday_loop_spec (conf : config) (jdate : Z) : holidays_fit conf ->
  forall (fuel : nat) (i : Z), 0 <= i <= num_holidays conf -> num_holidays conf - i < Z.of_nat fuel ->
  exists j, is_holiday_loop fuel conf i jdate = Some j /\
    (j =? num_holidays conf) =
      negb (bool_decide (jdate ∈ drop (Z.to_nat i) (take (Z.to_nat (num_holidays conf)) (holidays conf)))).
Proof.
  intros Hfit. unfold holidays_fit in Hfit.
  induction fuel as [|fuel IH]; intros i Hi Hf; [lia|]. cbn [is_holiday_loop].
  destruct (Z.ltb_spec i (num_holidays conf)) as [Hlt|Hge].
  - destruct (rd_in (holidays conf) i ltac:(lia)) as (h & -> & Hh). cbn.
    assert (drop (Z.to_nat i) (take (Z.to_nat (num_holidays conf)) (holidays conf)) =
            h :: drop (Z.to_nat (i + 1)) (take (Z.to_nat (num_holidays conf)) (holidays conf))) as ->.
    { replace (Z.to_nat (i + 1)) with (S (Z.to_nat i)) by lia. apply drop_S.
      rewrite lookup_take_lt by lia. done. }
    destruct (Z.eqb_spec h jdate) as [->|Hne].
    + exists i. split; [done|]. rewrite bool_decide_true by (rewrite elem_of_cons; by left).
      cbn. lia.
    + destruct (IH (i + 1) ltac:(lia) ltac:(lia)) as (j & Hj & Hjd). exists j. split; [done|].
      rewrite Hjd. f_equal. apply bool_decide_ext. rewrite elem_of_cons. naive_solver congruence.
  - exists i. split; [done|]. rewrite drop_ge by (rewrite length_take; lia).
    rewrite bool_decide_false by (intros H; inversion H). cbn. lia.
Qed.

Lemma is_holiday_spec (conf : config) (jdate : Z) : holidays_fit conf -> jdate <= 366 ->
  is_holiday conf jdate = Some (holiday_on conf jdate).
Proof.
  intros Hfit Hj. unfold is_holiday.
  destruct (Z.gtb_spec jdate 366) as [|_]; [lia|].
  destruct (is_holiday_loop_spec conf jdate Hfit (S (Z.to_nat (num_holidays conf))) 0) as (j & -> & Hjd);
    [unfold holidays_fit in Hfit; lia..|].
  cbn. rewrite Hjd. unfold holiday_on. by rewrite negb_involutive.
Qed.

Lemma is_holiday_today (conf : config) (date : Z) : holidays_fit conf ->
  is_holiday conf (tm_yday (localtime date) + 1) =
    Some (holiday_on conf (tm_yday (localtime date) + 1)).
Proof.
  intros Hfit. apply is_holiday_spec; [done|]. pose proof (localtime_yday date). lia.
Qed.

Lemma is_prime_time_some (conf : config) (date : Z) : holidays_fit conf ->
  exists p, is_prime_time conf date = Some p /\ (p = PRIME \/ p = NON_PRIME).
Proof.
  intros Hfit. unfold is_prime_time. destruct (negb _); [|eauto].
  rewrite is_holiday_today by done. cbn. eexists. split; [done|].
  destruct (holiday_on _ _); [by right|]. unfold check_prime.
  repeat match goal with |- context [if ?b then _ else _] => destruct b end; auto.
Qed.

(** ** Termination *)

Lemma time_left_positive (date : Z) : 1 <= time_left_today (localtime date).
Proof.
  pose proof (localtime_hour date). pose proof (localtime_min date).
  pose proof (localtime_sec date). unfold time_left_today. lia.
Qed.

Lemma end_prime_rec_returns (conf : config) (start : Z) (p : prime_time) : holidays_fit conf ->
  forall (fuel : nat) (date : Z), Z.max 0 (start + WEEK - date + 1) < Z.of_nat fuel ->
  exists e, end_prime_status_rec fuel conf start date p = Some e.
Proof.
  intros Hfit. induction fuel as [|fuel IH]; intros date Hf; [lia|]. cbn [end_prime_status_rec].
  destruct (Z.gtb_spec date (start + WEEK)) as [|Hd]; [eauto|].
  assert (exists e, end_prime_status_rec fuel conf start
            (date + time_left_today (localtime date)) p = Some e) as [e He].
  { apply IH. pose proof (time_left_positive date). lia. }
  rewrite is_holiday_today, He by done. cbn.
  repeat case_match; eauto.
Qed.

Lemma end_prime_status_some (conf : config) (date : Z) : holidays_fit conf ->
  exists e, end_prime_status conf date = Some e.
Proof.
  intros Hfit. unfold end_prime_status.
  destruct (is_prime_time_some conf date Hfit) as (p & -> & _). cbn [mbind option_bind].
  case_match; [eauto|]. apply end_prime_rec_returns; [done|].
  rewrite Z2Nat.id; unfold WEEK; lia.
Qed.

(** C14. [end_prime_status] returns on every clock whose fields are in range,
    whatever the configuration, when [num_holidays] is within the array: the
    recursion passes the end of the week in as many steps as a week has seconds. *)
Theorem end_prime_status_returns (conf : config) (date : Z) : holidays_fit conf ->
  exists e, end_prime_status conf date = Some e.
Proof. apply end_prime_status_some. Qed.

(** ** Days *)

Inductive day_kind := AllPrime | AllNonPrime | Hours (a b : Z).

Definition minutes (x : t) : Z := t_hour x * 60 + t_min x.

Definition timed (x : t) : bool :=
  negb (t_none x) && negb (t_all x) && (0 <=? t_hour x) && (t_hour x <=? 23) &&
  (0 <=? t_min x) && (t_min x <=? 59).

(** The days the holidays file describes as "all none", as "none all", and as
    prime time that begins and ends on the day *)
Definition kind_of (conf : config) (d : days) : option day_kind :=
  let p := prime conf d PRIME in
  let np := prime conf d NON_PRIME in
  if t_all p && negb (t_none p) && (t_hour p =? 31) && t_none np then Some AllPrime
  else if t_none p && negb (t_all p) && t_all np && negb (t_none np) && (t_hour np =? 31)
  then Some AllNonPrime
  else if timed p && timed np && (minutes p <? minutes np) then Some (Hours (minutes p) (minutes np))
  else None.

Definition DAY : Z := 86400.

(** The clock on the wall at [date], [off] seconds from UTC, when [yd] numbers the
    days of the years *)
Record wall (off : Z) (yd : Z -> Z) (date : Z) : Prop := {
  wall_hour : tm_hour (localtime date) = (date + off) mod DAY / 3600;
  wall_min : tm_min (localtime date) = (date + off) mod DAY mod 3600 / 60;
  wall_sec : tm_sec (localtime date) = (date + off) mod DAY mod 60;
  wall_wday : tm_wday (localtime date) = ((date + off) / DAY + 4) mod 7;
  wall_yday : tm_yday (localtime date) = yd ((date + off) / DAY) }.

Section Days.
Context (conf : config) (off : Z) (yd : Z -> Z).

Definition weekday (D : Z) : days :=
  day_of (Tm 0 0 0 0 0 0 ((D + 4) mod 7) 0).
Definition kind (D : Z) : option day_kind := kind_of conf (weekday D).
Definition holiday (D : Z) : bool := holiday_on conf (yd D + 1).

Definition status_on (D m : Z) : prime_time :=
  if holiday D then NON_PRIME
  else
    match kind D with
    | Some AllPrime => PRIME
    | Some (Hours a b) => if (a <=? m) && (m <? b) then PRIME else NON_PRIME
    | _ => NON_PRIME
    end.

(** The time of a minute of a day, and the day and the minute of a time *)
Definition tod (D m : Z) : Z := D * DAY + m * 60 - off.
Definition day (date : Z) : Z := (date + off) / DAY.
Definition minute (date : Z) : Z := (date + off) mod DAY / 60.

Lemma day_minute (date : Z) :
  tod (day date) (minute date) <= date < tod (day date) (minute date + 1) /\ 0 <= minute date < 1440.
Proof.
  unfold tod, day, minute, DAY. pose proof (Z.div_mod (date + off) 86400 ltac:(lia)).
  pose proof (Z.mod_pos_bound (date + off) 86400 ltac:(lia)).
  pose proof (Z.div_mod ((date + off) mod 86400) 60 ltac:(lia)).
  pose proof (Z.mod_pos_bound ((date + off) mod 86400) 60 ltac:(lia)). lia.
Qed.

Lemma day_eq (date D m : Z) : 0 <= m < 1440 -> tod D m <= date < tod D (m + 1) ->
  day date = D /\ minute date = m.
Proof.
  intros Hm Hd. destruct (day_minute date) as [H Hr]. unfold tod, DAY in *.
  assert (day date = D) as HD by nia. rewrite HD in *. split; [done|lia].
Qed.

Lemma day_tod (D m : Z) : 0 <= m < 1440 -> day (tod D m) = D /\ minute (tod D m) = m.
Proof. intros Hm. apply day_eq; [done|]. unfold tod. lia. Qed.

Lemma wday_day (date : Z) : wall off yd date -> day_of (localtime date) = weekday (day date).
Proof. intros W. unfold weekday, day_of. cbn [tm_wday]. by rewrite (wall_wday _ _ _ W). Qed.

Lemma minute_fields (date : Z) : wall off yd date ->
  minute date = tm_hour (localtime date) * 60 + tm_min (localtime date) /\
  date = tod (day date) (minute date) + tm_sec (localtime date).
Proof.
  intros W. rewrite (wall_hour _ _ _ W), (wall_min _ _ _ W), (wall_sec _ _ _ W).
  unfold minute, tod, day, DAY.
  pose proof (Z.div_mod (date + off) 86400 ltac:(lia)).
  set (s := (date + off) mod 86400) in *.
  assert (s mod 3600 / 60 = s / 60 - s / 3600 * 60) as ->.
  { rewrite Z.mod_eq by lia. replace (s - 3600 * (s / 3600)) with (s + - (s / 3600 * 60) * 60) by lia.
    rewrite Z.div_add by lia. lia. }
  pose proof (Z.div_mod s 60 ltac:(lia)). lia.
Qed.

Lemma tomorrow_tod (date : Z) : wall off yd date ->
  date + time_left_today (localtime date) = tod (day date + 1) 0.
Proof.
  intros W. destruct (minute_fields date W) as [Hm Hd]. rewrite Hd at 1. rewrite Hm.
  unfold time_left_today, tod, DAY. lia.
Qed.

Lemma at_time_tod (date : Z) (x : t) : wall off yd date ->
  at_time date (localtime date) x = tod (day date) (minutes x).
Proof.
  intros W. destruct (minute_fields date W) as [Hm Hd]. unfold at_time. rewrite Hd at 1. rewrite Hm.
  unfold minutes, tod. lia.
Qed.

Lemma passed_minutes (date : Z) (x : t) : wall off yd date -> timed x = true ->
  passed (localtime date) x = (minutes x <? minute date).
Proof.
  intros W Hx. destruct (minute_fields date W) as [Hm _]. pose proof (localtime_min date).
  unfold timed in Hx. unfold passed, minutes. rewrite Hm. apply eq_true_iff_eq.
  rewrite orb_true_iff, andb_true_iff, !Z.ltb_lt, Z.eqb_eq.
  rewrite !andb_true_iff, !Z.leb_le in Hx. lia.
Qed.

Lemma passed_31 (date : Z) (x : t) : t_hour x = 31 -> passed (localtime date) x = false.
Proof. intros Hx. pose proof (localtime_hour date). unfold passed. rewrite Hx. lia. Qed.

(** The fields of the two entries of a day of each kind *)
Lemma kind_inv (d : days) (k : day_kind) : kind_of conf d = Some k ->
  let p := prime conf d PRIME in
  let np := prime conf d NON_PRIME in
  match k with
  | AllPrime => t_all p = true /\ t_none p = false /\ t_hour p = 31 /\ t_none np = true
  | AllNonPrime =>
      t_none p = true /\ t_all p = false /\ t_all np = true /\ t_none np = false /\ t_hour np = 31
  | Hours a b => timed p = true /\ timed np = true /\ a = minutes p /\ b = minutes np /\
                 0 <= a < b /\ b < 1440
  end.
Proof.
  unfold kind_of. cbn zeta.
  destruct (t_all _ && negb _ && _ && _) eqn:E1.
  { intros [= <-]. rewrite !andb_true_iff, negb_true_iff, Z.eqb_eq in E1. naive_solver. }
  destruct (t_none _ && negb _ && _ && _ && _) eqn:E2.
  { intros [= <-]. rewrite !andb_true_iff, !negb_true_iff, Z.eqb_eq in E2. naive_solver. }
  destruct (timed _ && timed _ && _) eqn:E3; [|done]. intros [= <-].
  rewrite !andb_true_iff, Z.ltb_lt in E3. destruct E3 as [[Hp Hn] Hlt]. split_and!; [done..| | |].
  all: unfold timed in Hp, Hn; rewrite !andb_true_iff, !Z.leb_le in Hp, Hn; unfold minutes in *; lia.
Qed.

Lemma military (h m h' m' : Z) : 0 <= m <= 59 -> 0 <= m' <= 59 ->
  (h * 100 + m < h' * 100 + m' <-> h * 60 + m < h' * 60 + m').
Proof. lia. Qed.

Lemma check_prime_kind (date : Z) (k : day_kind) : wall off yd date ->
  kind (day date) = Some k ->
  check_prime conf (weekday (day date)) (localtime date) =
    match k with
    | AllPrime => PRIME
    | AllNonPrime => NON_PRIME
    | Hours a b => if (a <=? minute date) && (minute date <? b) then PRIME else NON_PRIME
    end.
Proof.
  intros W Hk. destruct (minute_fields date W) as [Hm _]. pose proof (localtime_min date).
  apply kind_inv in Hk. unfold check_prime. cbn zeta in *. destruct k as [| |a b].
  - destruct Hk as (-> & _). done.
  - destruct Hk as (-> & -> & -> & _). done.
  - destruct Hk as (Hp & Hn & -> & -> & Hab & Hb).
    revert Hp Hn. unfold timed. rewrite !andb_true_iff, !negb_true_iff, !Z.leb_le.
    intros [[[[[-> ->] ?] ?] ?] ?] [[[[[-> ->] ?] ?] ?] ?]. rewrite Hm. unfold minutes in *.
    rewrite (proj2 (Z.gtb_lt _ _)) by (apply military; lia).
    match goal with |- (if ?x then _ else _) = (if ?y then _ else _) => assert (x = y) as ->; [|done] end.
    apply eq_true_iff_eq. rewrite !andb_true_iff, !Z.leb_le, !Z.ltb_lt, !Z.le_ngt.
    rewrite !military by lia. done.
Qed.

Lemma is_prime_at (date : Z) : holidays_fit conf -> holiday_year conf <> 0 ->
  wall off yd date -> kind (day date) <> None ->
  is_prime_time conf date = Some (status_on (day date) (minute date)).
Proof.
  intros Hfit Hy W Hk. unfold is_prime_time. rewrite (proj2 (Z.eqb_neq _ _)) by done. cbn [negb].
  rewrite is_holiday_today, (wall_yday _ _ _ W), (wday_day _ W) by done. cbn [mbind option_bind].
  fold (day date). unfold status_on. fold (holiday (day date)).
  destruct (kind (day date)) as [k|] eqn:Ek; [|done].
  rewrite (check_prime_kind date k W Ek). by destruct k.
Qed.

(** ** One level of the recursion *)

Section Level.
Context (fuel : nat) (start date : Z) (k : day_kind).
Context (Hfit : holidays_fit conf) (W : wall off yd date) (Hd : date <= start + WEEK)
  (Hk : kind (day date) = Some k).

Let tomorrow (p : prime_time) : option Z :=
  end_prime_status_rec fuel conf start (tod (day date + 1) 0) p.

Lemma rec_prime :
  end_prime_status_rec (S fuel) conf start date PRIME =
    match k with
    | AllPrime => tomorrow PRIME
    | AllNonPrime => Some date
    | Hours a b => if b <? minute date then tomorrow PRIME
                   else if holiday (day date) then Some date else Some (tod (day date) b)
    end.
Proof.
  cbn [end_prime_status_rec]. destruct (Z.gtb_spec date (start + WEEK)) as [|_]; [lia|].
  rewrite decide_True by done. rewrite is_holiday_today, (wall_yday _ _ _ W), (wday_day _ W) by done.
  rewrite (tomorrow_tod date W). fold (tomorrow PRIME). cbn [mbind option_bind].
  fold (day date). fold (holiday (day date)).
  apply kind_inv in Hk. cbn zeta in *. destruct k as [| |a b].
  - by destruct Hk as (_ & _ & _ & ->).
  - destruct Hk as (_ & _ & -> & -> & H31). by rewrite passed_31.
  - destruct Hk as (_ & Hn & -> & -> & _). rewrite passed_minutes by done.
    rewrite at_time_tod by done. revert Hn. unfold timed. rewrite !andb_true_iff, !negb_true_iff.
    by intros [[[[[-> ->] _] _] _] _].
Qed.

Lemma rec_non_prime :
  end_prime_status_rec (S fuel) conf start date NON_PRIME =
    if holiday (day date) then tomorrow NON_PRIME
    else
      match k with
      | AllPrime => Some date
      | AllNonPrime => tomorrow NON_PRIME
      | Hours a b => if a <? minute date then tomorrow NON_PRIME else Some (tod (day date) a)
      end.
Proof.
  cbn [end_prime_status_rec]. destruct (Z.gtb_spec date (start + WEEK)) as [|_]; [lia|].
  rewrite decide_False by done. rewrite is_holiday_today, (wall_yday _ _ _ W), (wday_day _ W) by done.
  rewrite (tomorrow_tod date W). fold (tomorrow NON_PRIME). cbn [mbind option_bind].
  fold (day date). fold (holiday (day date)).
  apply kind_inv in Hk. cbn zeta in *. destruct k as [| |a b].
  - destruct Hk as (Ha & -> & H31 & _). destruct (holiday _); [done|].
    by rewrite passed_31, Ha.
  - destruct Hk as (-> & _). by destruct (holiday _).
  - destruct Hk as (Hp & _ & -> & -> & _). rewrite passed_minutes by done.
    rewrite at_time_tod by done. revert Hp. unfold timed. rewrite !andb_true_iff, !negb_true_iff.
    intros [[[[[-> ->] _] _] _] _]. by destruct (holiday _).
Qed.

End Level.

(** ** What the recursion does not expect *)

(** After a day that is prime time to its end, no holiday without non-prime hours,
    and no day on which prime time begins later than midnight *)
Definition carries (D : Z) : bool :=
  match kind D with
  | None => false
  | Some AllPrime =>
      holiday D ||
      match kind (D + 1) with
      | None => false
      | Some AllPrime => negb (holiday (D + 1))
      | Some AllNonPrime => true
      | Some (Hours a _) => holiday (D + 1) || (a =? 0)
      end
  | Some _ => true
  end.

Definition week_carries (D : Z) : bool := forallb (fun i => carries (D + i)) (seqZ 0 9).

Lemma carries_kind (D : Z) : carries D = true -> exists k, kind D = Some k.
Proof. unfold carries. destruct (kind D); [eauto|done]. Qed.

Lemma week_carries_spec (D i : Z) : week_carries D = true -> 0 <= i < 9 -> carries (D + i) = true.
Proof.
  intros H Hi. unfold week_carries in H. rewrite List.forallb_forall in H. apply H.
  apply list_elem_of_In, elem_of_seqZ. lia.
Qed.

(** ** The status up to the time returned *)

Definition status_at (date : Z) : prime_time := status_on (day date) (minute date).

Lemma later_today (date date' : Z) : date <= date' < tod (day date + 1) 0 ->
  day date' = day date /\ minute date <= minute date'.
Proof.
  intros H. pose proof (day_minute date). pose proof (day_minute date').
  unfold tod, DAY in *. assert (day date' = day date) by nia. split; [done|nia].
Qed.

Lemma before_today (date date' m : Z) : 0 <= m < 1440 -> date <= date' < tod (day date) m ->
  day date' = day date /\ minute date <= minute date' < m.
Proof.
  intros Hm H. destruct (later_today date date') as [Hd Hmin]; [unfold tod, DAY in *; lia|].
  split; [done|]. pose proof (day_minute date'). rewrite Hd in *. unfold tod in *. lia.
Qed.

Section Week.
Context (start : Z) (Hfit : holidays_fit conf).
Context (Hwall : forall date, start <= date <= start + 8 * DAY -> wall off yd date).
Context (Hweek : week_carries (day start) = true).

(** [e] is when status [p] ends after [date]. *)
Definition ends_at (p : prime_time) (date e : Z) : Prop :=
  (e = SCHD_INFINITY /\ forall date', date <= date' <= start + WEEK -> status_at date' = p) \/
  (date <= e <= start + 8 * DAY /\ status_at e <> p /\
   forall date', date <= date' < e -> status_at date' = p).

Lemma ends_extend (p : prime_time) (date next e : Z) : date <= next ->
  (forall date', date <= date' < next -> status_at date' = p) ->
  ends_at p next e -> ends_at p date e.
Proof.
  intros Hn Hs [[-> He]|(Hb & Hne & He)].
  - left. split; [done|]. intros d Hd. destruct (Z.lt_ge_cases d next); [apply Hs|apply He]; lia.
  - right. split_and!; [lia|lia|done|]. intros d Hd.
    destruct (Z.lt_ge_cases d next); [apply Hs|apply He]; lia.
Qed.

Lemma day_mono (a b : Z) : a <= b -> day a <= day b.
Proof. intros. unfold day. apply Z.div_le_mono; unfold DAY; lia. Qed.

Lemma day_week (date : Z) : start <= date <= start + WEEK ->
  day start <= day date < day start + 8 /\ tod (day date + 1) 0 <= start + 8 * DAY.
Proof.
  intros H. pose proof (day_minute date). pose proof (day_minute start).
  unfold tod, WEEK, DAY in *. nia.
Qed.

Lemma kind_today (date : Z) : start <= date <= start + WEEK ->
  exists k, kind (day date) = Some k.
Proof.
  intros H. pose proof (day_week date H). apply carries_kind.
  replace (day date) with (day start + (day date - day start)) by lia.
  apply week_carries_spec; [done|lia].
Qed.

(** The recursion is entered with the status of [date], or at the midnight after a
    day that ended with that status. *)
Definition entered (p : prime_time) (date : Z) : Prop :=
  status_at date = p \/
  (date = tod (day date) 0 /\ day start < day date /\
   (p = PRIME -> kind (day date - 1) = Some AllPrime /\ holiday (day date - 1) = false)).

Lemma carried (date : Z) : start <= date <= start + WEEK -> day start < day date ->
  kind (day date - 1) = Some AllPrime -> holiday (day date - 1) = false ->
  match kind (day date) with
  | Some AllPrime => holiday (day date) = false
  | Some (Hours a _) => holiday (day date) = false -> a = 0
  | _ => True
  end.
Proof.
  intros Hd Hs Hk Hh. pose proof (day_week date Hd).
  pose proof (week_carries_spec (day start) (day date - 1 - day start) Hweek ltac:(lia)) as Hc.
  replace (day start + (day date - 1 - day start)) with (day date - 1) in Hc by lia.
  unfold carries in Hc. rewrite Hk, Hh in Hc. replace (day date - 1 + 1) with (day date) in Hc by lia.
  destruct (kind (day date)) as [[| |a b]|]; [|done| |done].
  - by apply negb_true_iff.
  - intros Hnh. rewrite Hnh in Hc. cbn in Hc. lia.
Qed.

(** The rest of the day passes in the status, and the recursion goes on. *)
Lemma ends_tomorrow (fuel : nat) (p : prime_time) (date e : Z) :
  start <= date <= start + WEEK ->
  (forall date' e, start <= date' -> entered p date' ->
     end_prime_status_rec fuel conf start date' p = Some e -> ends_at p date' e) ->
  (forall m, minute date <= m < 1440 -> status_on (day date) m = p) ->
  (p = PRIME -> kind (day date) = Some AllPrime /\ holiday (day date) = false) ->
  end_prime_status_rec fuel conf start (tod (day date + 1) 0) p = Some e -> ends_at p date e.
Proof.
  intros Hd IH Hs Hp He. pose proof (day_minute date) as [[_ H] Hmin].
  assert (date < tod (day date + 1) 0) as Hlt by (unfold tod, DAY in *; lia).
  destruct (day_tod (day date + 1) 0 ltac:(lia)) as [Hday Hm0].
  apply (ends_extend p date (tod (day date + 1) 0)); [lia| |].
  - intros d Hdd. destruct (later_today date d Hdd) as [Hd1 Hd2]. unfold status_at. rewrite Hd1.
    apply Hs. pose proof (day_minute d). lia.
  - apply (IH _ e); [lia| |done]. right. split_and!; [by rewrite Hday| |].
    + rewrite Hday. pose proof (day_mono start date). lia.
    + rewrite Hday. by replace (day date + 1 - 1) with (day date) by lia.
Qed.

(** The status ends later today. *)
Lemma ends_today (p : prime_time) (date m : Z) : start <= date <= start + WEEK ->
  minute date <= m < 1440 -> date <= tod (day date) m ->
  (forall m', minute date <= m' < m -> status_on (day date) m' = p) ->
  status_on (day date) m <> p -> ends_at p date (tod (day date) m).
Proof.
  intros Hd Hm Hle Hs Hne. right. pose proof (day_minute date). split_and!; [done| | |].
  - pose proof (day_week date Hd). unfold tod, DAY in *. lia.
  - unfold status_at. by destruct (day_tod (day date) m ltac:(lia)) as [-> ->].
  - intros d Hdd. destruct (before_today date d m ltac:(lia) Hdd) as [Hd1 Hd2].
    unfold status_at. rewrite Hd1. by apply Hs.
Qed.

Lemma ends_now (p : prime_time) (date : Z) : start <= date <= start + WEEK ->
  status_at date <> p -> ends_at p date date.
Proof. intros Hd Hne. right. unfold WEEK, DAY in *. split_and!; [lia..|done|lia]. Qed.

Lemma midnight (date : Z) : date = tod (day date) 0 -> minute date = 0.
Proof. intros Hd. rewrite Hd. by apply day_tod. Qed.

Lemma rec_prime_ends (fuel : nat) (date e : Z) : start <= date <= start + WEEK ->
  (forall date' e, start <= date' -> entered PRIME date' ->
     end_prime_status_rec fuel conf start date' PRIME = Some e -> ends_at PRIME date' e) ->
  entered PRIME date ->
  end_prime_status_rec (S fuel) conf start date PRIME = Some e -> ends_at PRIME date e.
Proof.
  intros Hd IH Hent. destruct (kind_today date Hd) as [k Hk].
  pose proof (day_minute date) as [Hdm Hmin].
  rewrite (rec_prime fuel start date k); [|done|apply Hwall; unfold WEEK, DAY in *; lia|lia|done].
  assert (Hon : forall m, status_on (day date) m = if holiday (day date) then NON_PRIME
            else match k with AllPrime => PRIME | AllNonPrime => NON_PRIME
                 | Hours a b => if (a <=? m) && (m <? b) then PRIME else NON_PRIME end)
    by (intros m; unfold status_on; rewrite Hk; by destruct k).
  destruct k as [| |a b].
  - assert (holiday (day date) = false) as Hh.
    { destruct Hent as [Hs|(_ & Hlt & Hp)].
      - unfold status_at in Hs. rewrite Hon in Hs. by destruct (holiday _).
      - destruct (Hp eq_refl) as [Hk' Hh']. pose proof (carried date Hd Hlt Hk' Hh') as Hc.
        by rewrite Hk in Hc. }
    apply ends_tomorrow; [done|done| |done]. intros m _. by rewrite Hon, Hh.
  - intros [= <-]. apply ends_now; [done|]. unfold status_at. rewrite Hon. by destruct (holiday _).
  - pose proof (kind_inv (weekday (day date)) (Hours a b) Hk) as (_ & _ & _ & _ & Hab & Hb).
    assert (minute date < b /\ (holiday (day date) = false -> a <= minute date)) as [Hlt Ha].
    { destruct Hent as [Hs|(Hm & Hlt & Hp)].
      - unfold status_at in Hs. rewrite Hon in Hs. destruct (holiday _); [done|].
        destruct ((a <=? _) && _) eqn:E; [|done]. rewrite andb_true_iff, Z.leb_le, Z.ltb_lt in E. lia.
      - destruct (Hp eq_refl) as [Hk' Hh']. pose proof (carried date Hd Hlt Hk' Hh') as Hc.
        rewrite Hk in Hc. rewrite (midnight date Hm). split; [lia|]. intros Hh. rewrite (Hc Hh). lia. }
    rewrite (proj2 (Z.ltb_ge _ _)) by lia. destruct (holiday (day date)) eqn:Hh.
    + intros [= <-]. apply ends_now; [done|]. unfold status_at. by rewrite Hon.
    + intros [= <-]. specialize (Ha eq_refl). apply ends_today; [done|lia| | |].
      * unfold tod in *. lia.
      * intros m Hm. rewrite Hon, (proj2 (Z.leb_le _ _)), (proj2 (Z.ltb_lt _ _)) by lia. done.
      * rewrite Hon, Z.ltb_irrefl, andb_false_r. done.
Qed.

Lemma rec_non_prime_ends (fuel : nat) (date e : Z) : start <= date <= start + WEEK ->
  (forall date' e, start <= date' -> entered NON_PRIME date' ->
     end_prime_status_rec fuel conf start date' NON_PRIME = Some e -> ends_at NON_PRIME date' e) ->
  entered NON_PRIME date ->
  end_prime_status_rec (S fuel) conf start date NON_PRIME = Some e -> ends_at NON_PRIME date e.
Proof.
  intros Hd IH Hent. destruct (kind_today date Hd) as [k Hk].
  pose proof (day_minute date) as [Hdm Hmin].
  rewrite (rec_non_prime fuel start date k); [|done|apply Hwall; unfold WEEK, DAY in *; lia|lia|done].
  assert (Hon : forall m, status_on (day date) m = if holiday (day date) then NON_PRIME
            else match k with AllPrime => PRIME | AllNonPrime => NON_PRIME
                 | Hours a b => if (a <=? m) && (m <? b) then PRIME else NON_PRIME end)
    by (intros m; unfold status_on; rewrite Hk; by destruct k).
  destruct (holiday (day date)) eqn:Hh.
  { apply ends_tomorrow; [done|done| |done]. intros m _. apply Hon. }
  destruct k as [| |a b].
  - intros [= <-]. apply ends_now; [done|]. unfold status_at. by rewrite Hon.
  - apply ends_tomorrow; [done|done| |done]. intros m _. apply Hon.
  - pose proof (kind_inv (weekday (day date)) (Hours a b) Hk) as (_ & _ & _ & _ & Hab & Hb).
    assert (minute date < a \/ b <= minute date \/ date = tod (day date) a) as Hcase.
    { destruct Hent as [Hs|(Hm & Hlt & _)].
      - unfold status_at in Hs. rewrite Hon in Hs.
        destruct ((a <=? _) && _) eqn:E; [done|]. rewrite andb_false_iff, Z.leb_gt, Z.ltb_ge in E. lia.
      - pose proof (midnight date Hm) as H0. destruct (Z.eq_dec a 0) as [->|]; [by right; right|lia]. }
    destruct (Z.ltb_spec a (minute date)) as [Hlt|Hge].
    + assert (b <= minute date) as Hbm.
      { destruct Hcase as [?|[?|He]]; [lia|done|]. exfalso.
        assert (minute date = a) by (rewrite He; apply day_tod; lia). lia. }
      apply ends_tomorrow; [done|done| |done]. intros m Hm.
      by rewrite Hon, (proj2 (Z.ltb_ge m b)), andb_false_r by lia.
    + intros [= <-]. apply ends_today; [done|lia| | |].
      * destruct Hcase as [?|[?|He]]; [unfold tod in *; lia|lia|]. rewrite He at 1. done.
      * intros m Hm. by rewrite Hon, (proj2 (Z.leb_gt _ _)) by lia.
      * rewrite Hon, Z.leb_refl, (proj2 (Z.ltb_lt _ _)) by lia. done.
Qed.

Lemma rec_ends (p : prime_time) : p = PRIME \/ p = NON_PRIME -> forall (fuel : nat) (date e : Z),
  start <= date -> entered p date ->
  end_prime_status_rec fuel conf start date p = Some e -> ends_at p date e.
Proof.
  intros Hp. induction fuel as [|fuel IH]; [done|]. intros date e Hd Hent He.
  destruct (Z.le_gt_cases date (start + WEEK)) as [Hle|Hgt].
  - destruct Hp as [-> | ->]; [eapply rec_prime_ends|eapply rec_non_prime_ends]; try done.
  - cbn [end_prime_status_rec] in He. destruct (Z.gtb_spec date (start + WEEK)) as [_|]; [|lia].
    injection He as <-. left. split; [done|lia].
Qed.

Lemma prime_at_window (date : Z) : holiday_year conf <> 0 -> start <= date <= start + 8 * DAY ->
  is_prime_time conf date = Some (status_at date).
Proof.
  intros Hy Hd. apply is_prime_at; [done|done|by apply Hwall|].
  assert (day start <= day date <= day start + 8) as Hdd.
  { pose proof (day_minute date). pose proof (day_minute start). unfold tod, DAY in *. nia. }
  assert (carries (day date) = true) as Hc; [|by destruct (carries_kind _ Hc) as [k ->]].
  replace (day date) with (day start + (day date - day start)) by lia.
  apply week_carries_spec; [done|lia].
Qed.

End Week.

(** The status is that of [date] up to the time returned, and another one then;
    or it is the same for a week. *)
Definition right_end (date e : Z) : Prop :=
  (e = SCHD_INFINITY /\
   forall date', date <= date' <= date + WEEK -> is_prime_time conf date' = is_prime_time conf date) \/
  (date <= e /\ is_prime_time conf e <> is_prime_time conf date /\
   forall date', date <= date' < e -> is_prime_time conf date' = is_prime_time conf date).

Lemma end_prime_right (date : Z) :
  holidays_fit conf -> holiday_year conf <> 0 ->
  (forall date', date <= date' <= date + 8 * DAY -> wall off yd date') ->
  week_carries (day date) = true ->
  exists e, end_prime_status conf date = Some e /\ right_end date e.
Proof.
  intros Hfit Hy Hw Hc. destruct (end_prime_status_some conf date Hfit) as [e He].
  exists e. split; [done|]. unfold end_prime_status in He.
  assert (Hat : forall d, date <= d <= date + 8 * DAY -> is_prime_time conf d = Some (status_at d))
    by (intros; by apply (prime_at_window date)).
  unfold right_end. unfold DAY, WEEK in *. rewrite Hat in He |- * by lia. cbn [mbind option_bind] in He.
  rewrite (proj2 (Z.eqb_neq _ _)), andb_false_r in He by done.
  destruct (rec_ends date Hfit Hw Hc (status_at date)) with (fuel := Z.to_nat (WEEK + 2)) (date := date)
    (e := e) as [[-> H]|(Hb & Hne & H)]; [|lia|by left|done| |].
  - unfold status_at, status_on. repeat case_match; auto.
  - left. split; [done|]. intros d Hd. unfold WEEK in *. rewrite Hat, H by lia. done.
  - right. unfold DAY in *. split; [lia|]. split.
    + rewrite Hat by lia. congruence.
    + intros d Hd. rewrite Hat, H by lia. done.
Qed.

(** C30. When every day of the week ahead is all prime time, all non-prime time or
    has prime time between two times of the day, and no day of prime time is
    followed by a holiday on such a day or by a later start of prime time, then
    [end_prime_status] returns: the time up to which the status is that of now and
    at which it changes, or that it does not change within the week. *)
Theorem end_prime_status_right (date : Z) :
  holidays_fit conf -> holiday_year conf <> 0 ->
  (forall date', date <= date' <= date + 8 * DAY -> wall off yd date') ->
  week_carries (day date) = true ->
  exists e, end_prime_status conf date = Some e /\ right_end date e.
Proof. apply end_prime_right. Qed.

End Days.
End Props.
End PrimeProps.
