(* ===== verification/HolFile.v ===== *)
(** * The holidays file

    What [parse_holidays] makes of a file that sets each day at most once: the
    prime time of the days, the holidays and their year. *)

From Stdlib Require Import ZArith Lia Ascii String.
From S2P Require Import Prelude TextFile SchedData TimeData PrimeTime PrimeProps.
Import Text Data Conf Prime PrimeProps.

Module HolFile.

(** ** Files *)

Inductive setting := SAll | SNone | SAt (h m : Z).
Inductive keyword := Weekday | Saturday | Sunday | Monday | Tuesday | Wednesday | Thursday | Friday.
Inductive hol_line :=
  | HComment (s : cstring) | HVersion | HYear (y : Z)
  | HDay (k : keyword) (p np : setting) | HHoliday (j : Z) (s : cstring).

Definition print_setting (x : setting) : cstring :=
  match x with
  | SAll => lit "all"
  | SNone => lit "none"
  | SAt h m => zpad 4 (h * 100 + m)
  end.

Definition kw_text (k : keyword) : cstring :=
  match k with
  | Weekday => lit "weekday" | Saturday => lit "saturday" | Sunday => lit "sunday"
  | Monday => lit "monday" | Tuesday => lit "tuesday" | Wednesday => lit "wednesday"
  | Thursday => lit "thursday" | Friday => lit "friday"
  end.

Definition kw_days (k : keyword) : list days :=
  match k with
  | Weekday => [WEEKDAY; MONDAY; TUESDAY; WEDNESDAY; THURSDAY; FRIDAY]
  | Saturday => [SATURDAY] | Sunday => [SUNDAY] | Monday => [MONDAY] | Tuesday => [TUESDAY]
  | Wednesday => [WEDNESDAY] | Thursday => [THURSDAY] | Friday => [FRIDAY]
  end.

Definition print_hol_line (l : hol_line) : cstring :=
  match l with
  | HComment s => "*"%char :: s
  | HVersion => lit "HOLIDAYFILE_VERSION1"
  | HYear y => lit "YEAR" ++ TAB :: dec_nat y
  | HDay k p np => kw_text k ++ TAB :: print_setting p ++ TAB :: print_setting np
  | HHoliday j s => dec_nat j ++ TAB :: s
  end.

Definition print_holidays (ls : list hol_line) : list ascii := text_of (print_hol_line <$> ls).

Definition setting_ok (x : setting) : Prop :=
  match x with SAt h m => 0 <= h <= 23 /\ 0 <= m <= 59 | _ => True end.

Definition hol_line_ok (l : hol_line) : Prop :=
  match l with
  | HComment s => line_ok 255 s
  | HVersion => True
  | HYear y => 0 <= y <= 9999
  | HDay _ p np => setting_ok p /\ setting_ok np
  | HHoliday j s => 1 <= j <= 366 /\ line_ok 250 s
  end.

(** What the file says *)
Definition day_settings (ls : list hol_line) : list days :=
  mjoin ((fun l => match l with HDay k _ _ => kw_days k | _ => [] end) <$> ls).
Definition holiday_list (ls : list hol_line) : list Z :=
  omap (fun l => match l with HHoliday j _ => Some j | _ => None end) ls.
Definition year_of (y0 : Z) (ls : list hol_line) : Z :=
  fold_left (fun y l => match l with HYear y' => y' | _ => y end) ls y0.

(** An entry of [conf.prime] that no line set, and one that a line set *)
Definition t0 : t := T 0 0 false false.
Definition entry_of (x : setting) : t :=
  match x with
  | SAll => T 31 63 false true
  | SNone => T 31 63 true false
  | SAt h m => T h m false false
  end.

(** ** Words of a line *)

Definition wordy (s : cstring) : Prop :=
  s <> [] /\ Forall (fun c => c <> " "%char /\ c <> TAB /\ c <> NUL /\ c <> NEWLINE) s.

Definition wordyb (s : cstring) : bool :=
  bool_decide (s <> [] /\ Forall (fun c => c <> " "%char /\ c <> TAB /\ c <> NUL /\ c <> NEWLINE) s).

Lemma wordy_lit (s : cstring) : wordyb s = true -> wordy s.
Proof. apply bool_decide_eq_true. Qed.

Lemma wordy_digits (s : cstring) : all_digits s -> s <> [] -> wordy s.
Proof.
  intros Hs Hne. split; [done|]. eapply Forall_impl; [exact Hs|]. intros c Hc.
  split_and!; intros ->; done.
Qed.

Lemma wordy_setting (x : setting) : setting_ok x -> wordy (print_setting x).
Proof.
  destruct x as [| |h m]; [by intros; apply wordy_lit..|]. intros [Hh Hm].
  destruct (zpad_spec 4 (h * 100 + m) ltac:(lia)) as (Ha & Hne & _). by apply wordy_digits.
Qed.

Lemma wordy_kw (k : keyword) : wordy (kw_text k).
Proof. destruct k; by apply wordy_lit. Qed.

Lemma wordy_blanks (s : cstring) : wordy s -> Forall (fun c => (c ∉ BLANKS)) s.
Proof.
  intros [_ H]. eapply Forall_impl; [exact H|]. intros c (H1 & H2 & _) Hin.
  unfold BLANKS in Hin. rewrite elem_of_cons, list_elem_of_singleton in Hin. by destruct Hin.
Qed.

Lemma strtok_word (s r : cstring) : wordy s -> strtok BLANKS (s ++ TAB :: r) = (Some s, r).
Proof.
  intros H. apply strtok_token; [apply H|by apply wordy_blanks|].
  unfold BLANKS. rewrite elem_of_cons, list_elem_of_singleton. by right.
Qed.

Lemma strtok_last (s : cstring) : wordy s -> strtok BLANKS s = (Some s, []).
Proof. intros H. apply strtok_end; [apply H|by apply wordy_blanks]. Qed.

(** ** [load_day] *)

Definition same_holidays (c c' : config) : Prop :=
  holidays c' = holidays c /\ holiday_year c' = holiday_year c /\ num_holidays c' = num_holidays c.

Lemma digits_not_lit (s : cstring) (w : string) : all_digits s ->
  match lit w with c :: _ => isdigit c = false | [] => False end -> streq s (lit w) = false.
Proof.
  intros Hs Hw. apply bool_decide_eq_false_2. intros ->. destruct (lit w) as [|c r]; [done|].
  pose proof (Forall_inv Hs) as Hc. cbn in Hc. congruence.
Qed.

Lemma load_day_setting (d : days) (pr : prime_time) (x : setting) (conf : config) :
  setting_ok x -> prime conf d pr = t0 ->
  load_day d pr (Some (print_setting x)) conf = Some (0, set_prime conf d pr (entry_of x)).
Proof.
  intros Hx H0. unfold load_day. rewrite H0. destruct x as [| |h m]; [done..|].
  destruct Hx as [Hh Hm]. cbn [print_setting].
  destruct (zpad_spec 4 (h * 100 + m) ltac:(lia)) as (Ha & Hne & _).
  rewrite !digits_not_lit by done. cbn [orb].
  pose proof (strtol10_zpad 4 (h * 100 + m) [] ltac:(unfold LONG_MAX; lia) eq_refl) as Hs.
  rewrite app_nil_r in Hs. rewrite Hs. cbn [deref]. rewrite is_char_refl.
  rewrite int32_id by (unfold in_int, INT_MIN, INT_MAX; lia).
  unfold t_set_min, t_set_hour. cbn [t_hour t_min t_none t_all t0].
  rewrite Z.quot_div_nonneg, Z.rem_mod_nonneg by lia.
  assert ((h * 100 + m) / 100 = h) as -> by (rewrite Z.div_add_l, Z.div_small; lia).
  assert ((h * 100 + m) mod 100 = m) as -> by (rewrite Z.add_comm, Z_mod_plus_full, Z.mod_small; lia).
  by rewrite !Z.mod_small by lia.
Qed.

Lemma load_days_setting (pr : prime_time) (x : setting) : setting_ok x ->
  forall (ds : list days) (conf : config), NoDup ds -> (forall d, d ∈ ds -> prime conf d pr = t0) ->
  exists conf', load_days ds pr (Some (print_setting x)) conf = Some (0, conf') /\
    same_holidays conf conf' /\
    forall d p, prime conf' d p = if decide (p = pr /\ d ∈ ds) then entry_of x else prime conf d p.
Proof.
  intros Hx. induction ds as [|d ds IH]; intros conf Hnd H0.
  { exists conf. split_and!; [done|done|]. intros d p. rewrite decide_False; [done|].
    intros [_ H]. by apply not_elem_of_nil in H. }
  apply NoDup_cons in Hnd as [Hd Hnd]. cbn [load_days].
  mstep (load_day_setting d pr x conf Hx (H0 d ltac:(by left))). rewrite Z.ltb_irrefl.
  destruct (IH (set_prime conf d pr (entry_of x)) Hnd) as (c & -> & Hsame & Hp).
  { intros d' Hd'. cbn. rewrite decide_False by (intros [-> _]; done). apply H0. by right. }
  exists c. split_and!; [done|exact Hsame|]. intros d' p. rewrite Hp. cbn [prime set_prime].
  destruct (decide (p = pr /\ d' ∈ ds)) as [[-> Hin]|Hn].
  - rewrite decide_True; [done|]. split; [done|by right].
  - destruct (decide (d' = d /\ p = pr)) as [[-> ->]|Hn'].
    + rewrite decide_True; [done|]. split; [done|by left].
    + rewrite decide_False; [done|]. rewrite elem_of_cons. naive_solver.
Qed.

Lemma day_line_setting (k : keyword) (p np : setting) (conf : config) :
  setting_ok p -> setting_ok np -> (forall d pr, d ∈ kw_days k -> prime conf d pr = t0) ->
  exists conf', day_line (kw_days k) (print_setting p ++ TAB :: print_setting np) conf =
      Some (false, conf') /\
    same_holidays conf conf' /\
    (forall d, d ∈ kw_days k -> prime conf' d PRIME = entry_of p /\ prime conf' d NON_PRIME = entry_of np) /\
    (forall d pr, (d ∉ kw_days k) -> prime conf' d pr = prime conf d pr).
Proof.
  intros Hp Hnp H0. assert (NoDup (kw_days k)) as Hnd by (destruct k; by apply (bool_decide_unpack _)).
  unfold day_line. rewrite strtok_word by by apply wordy_setting.
  destruct (load_days_setting PRIME p Hp (kw_days k) conf Hnd) as (c1 & H1 & S1 & P1).
  { intros d Hd. by apply H0. }
  mstep H1. rewrite strtok_last by by apply wordy_setting.
  destruct (load_days_setting NON_PRIME np Hnp (kw_days k) c1 Hnd) as (c2 & H2 & S2 & P2).
  { intros d Hd. rewrite P1, decide_False by (intros [? _]; done). by apply H0. }
  rewrite Z.ltb_irrefl. mstep H2. exists c2. split_and!; [done| | |].
  - unfold same_holidays in *. naive_solver congruence.
  - intros d Hd. rewrite !P2. rewrite decide_False by (intros [? _]; done).
    rewrite P1, !decide_True by done. done.
  - intros d pr Hd. by rewrite P2, decide_False, P1, decide_False by (intros [_ ?]; done).
Qed.

(** ** Lines *)

Lemma line_ok_wordy (s : cstring) : wordy s -> Z.of_nat (length s) <= 254 -> line_ok 256 s.
Proof.
  intros [_ H] Hl. rewrite Forall_forall in H. split; [|..|lia]; intros Hin; destruct (H _ Hin) as (_ & _ & ? & ?); done.
Qed.

Lemma line_ok_app (a b : cstring) : wordy a -> line_ok (255 - Z.of_nat (length a)) b ->
  line_ok 256 (a ++ TAB :: b).
Proof.
  intros [_ H] [H0 Hn Hl]. rewrite Forall_forall in H.
  split; [rewrite elem_of_app, elem_of_cons; intros [Hin|[?|?]]..|].
  - by destruct (H _ Hin) as (_ & _ & ? & ?).
  - done.
  - done.
  - by destruct (H _ Hin) as (_ & _ & ? & ?).
  - done.
  - done.
  - rewrite length_app. cbn [length]. lia.
Qed.

Lemma print_setting_length (x : setting) : setting_ok x -> (length (print_setting x) <= 4)%nat.
Proof.
  destruct x as [| |h m]; [cbn; lia..|]. intros [Hh Hm]. apply zpad_length; cbn; lia.
Qed.

Lemma setting_line (x : setting) (n : Z) : setting_ok x -> 6 <= n -> line_ok n (print_setting x).
Proof.
  intros Hx Hn. pose proof (print_setting_length x Hx). destruct (wordy_setting x Hx) as [_ Hc].
  rewrite Forall_forall in Hc. split; [| |lia]; intros Hin; destruct (Hc _ Hin) as (_ & _ & ? & ?); done.
Qed.

Lemma kw_length (k : keyword) : (length (kw_text k) <= 9)%nat.
Proof. destruct k; cbn; lia. Qed.

Lemma wordy_dec (v : Z) : 0 <= v -> wordy (dec_nat v).
Proof. intros Hv. destruct (dec_nat_spec v Hv) as (Ha & Hne & _). by apply wordy_digits. Qed.

Lemma print_hol_line_ok (l : hol_line) : hol_line_ok l -> line_ok 256 (print_hol_line l).
Proof.
  destruct l as [s| |y|k p np|j s]; cbn [hol_line_ok print_hol_line].
  - intros [H0 Hn Hl]. split; [by apply not_elem_of_cons; split; [discriminate|]..|cbn [length]; lia].
  - intros _. apply line_ok_wordy; [by apply wordy_lit|cbn; lia].
  - intros Hy. apply line_ok_app; [by apply wordy_lit|].
    pose proof (dec_nat_length y 4 ltac:(cbn; lia) ltac:(lia)).
    destruct (wordy_dec y ltac:(lia)) as [_ H']. rewrite Forall_forall in H'.
    split; [| |change (Z.of_nat (length (lit "YEAR"))) with 4; lia]; intros Hin; destruct (H' _ Hin) as (_ & _ & ? & ?); done.
  - intros [Hp Hnp]. pose proof (kw_length k). pose proof (print_setting_length p Hp).
    apply line_ok_app; [apply wordy_kw|].
    destruct (line_ok_app (print_setting p) (print_setting np)) as [Hc0 Hcn _];
      [by apply wordy_setting|apply setting_line; [done|lia]|].
    split; [done|done|]. pose proof (print_setting_length np Hnp).
    rewrite length_app. cbn [length]. lia.
  - intros [Hj [H0 Hn Hl]]. pose proof (dec_nat_length j 3 ltac:(cbn; lia) ltac:(lia)).
    apply line_ok_app; [apply wordy_dec; lia|]. split; [done|done|lia].
Qed.

Lemma print_hol_line_skip (l : hol_line) : hol_line_ok l ->
  skip_line (print_hol_line l) = match l with HComment _ => true | _ => false end.
Proof.
  destruct l as [s| |y|k p np|j s]; cbn [hol_line_ok print_hol_line]; try done.
  - by destruct k.
  - intros [Hj _]. destruct (dec_nat_spec j ltac:(lia)) as (Ha & Hne & _). by apply skip_line_digits.
Qed.

Lemma keyword_days_kw (k : keyword) :
  streq (kw_text k) (lit "HOLIDAYFILE_VERSION1") = false /\ streq (kw_text k) (lit "YEAR") = false /\
  keyword_days (kw_text k) = kw_days k /\ kw_days k <> [].
Proof. by destruct k. Qed.

Lemma keyword_days_digits (s : cstring) : all_digits s ->
  streq s (lit "HOLIDAYFILE_VERSION1") = false /\ streq s (lit "YEAR") = false /\ keyword_days s = [].
Proof.
  intros Hs. unfold keyword_days. by rewrite !digits_not_lit by done.
Qed.

(** ** One line *)

(** [conf] is what the lines so far made: [set] days are set, [hs] are the holidays. *)
Record so_far (set : list days) (hs : list Z) (year : Z) (conf : config) : Prop := {
  sf_unset : forall d pr, (d ∉ set) -> prime conf d pr = t0;
  sf_holidays : holidays conf = hs ++ replicate (Z.to_nat MAX_HOLIDAY_SIZE - length hs) 0;
  sf_year : holiday_year conf = year }.

Definition keeps_days (set : list days) (c c' : config) : Prop :=
  forall d pr, (d ∈ set) -> prime c' d pr = prime c d pr.

Lemma holidays_line_spec (l : hol_line) (set : list days) (hs : list Z) (year : Z) (conf : config) :
  hol_line_ok l -> match l with HComment _ => False | _ => True end ->
  so_far set hs year conf -> (forall d, d ∈ set -> (d ∉ day_settings [l])) ->
  Z.of_nat (length (hs ++ holiday_list [l])) <= MAX_HOLIDAY_SIZE ->
  exists conf', holidays_line (print_hol_line l) (Z.of_nat (length hs)) conf =
      Some ((Z.of_nat (length (hs ++ holiday_list [l])), false), conf') /\
    so_far (set ++ day_settings [l]) (hs ++ holiday_list [l]) (year_of year [l]) conf' /\
    keeps_days set conf conf' /\
    match l with
    | HDay k p np => forall d, d ∈ kw_days k ->
        prime conf' d PRIME = entry_of p /\ prime conf' d NON_PRIME = entry_of np
    | _ => True
    end.
Proof.
  intros Hl Hnc [Hu Hh Hy] Hdisj Hlen. unfold holidays_line.
  destruct l as [s| |y|k p np|j s]; [done|..]; cbn [print_hol_line hol_line_ok] in *.
  - rewrite strtok_last by by apply wordy_lit. cbn [holiday_list omap list_omap] in *.
    unfold day_settings. cbn. rewrite !app_nil_r. exists conf. by split_and!.
  - rewrite strtok_word by by apply wordy_lit.
    change (streq (lit "YEAR") (lit "HOLIDAYFILE_VERSION1")) with false.
    change (streq (lit "YEAR") (lit "YEAR")) with true. cbn iota.
    unfold year_line, bind. rewrite strtok_last by (apply wordy_dec; lia).
    pose proof (strtol10_dec_nat y [] ltac:(unfold LONG_MAX; lia) eq_refl) as Hs.
    rewrite app_nil_r in Hs. rewrite Hs. cbn [deref]. rewrite is_char_refl.
    rewrite int32_id by (unfold in_int, INT_MIN, INT_MAX; lia).
    cbn [holiday_list omap list_omap] in *. unfold day_settings. cbn. rewrite !app_nil_r.
    eexists. split; [done|]. split_and!; [|done..]. by split; cbn.
  - rewrite strtok_word by apply wordy_kw. destruct (keyword_days_kw k) as (-> & -> & -> & Hne).
    destruct Hl as [Hp Hnp]. unfold day_settings in Hdisj. cbn in Hdisj. rewrite app_nil_r in Hdisj.
    destruct (day_line_setting k p np conf Hp Hnp) as (c & Hc & (S1 & S2 & S3) & Hset & Hother).
    { intros d pr Hd. apply Hu. intros Hin. by apply (Hdisj d). }
    destruct (kw_days k) as [|d0 ds0] eqn:Ek; [done|]. rewrite <-Ek in *. mstep Hc.
    cbn [holiday_list omap list_omap] in *. unfold day_settings. cbn. rewrite !app_nil_r.
    exists c. split; [done|]. split_and!; [|by intros d pr Hin; apply Hother, Hdisj|done].
    split; [|congruence|congruence]. intros d pr Hd. rewrite elem_of_app in Hd.
    rewrite Hother by tauto. apply Hu. tauto.
  - destruct Hl as [Hj _]. rewrite strtok_word by (apply wordy_dec; lia).
    destruct (dec_nat_spec j ltac:(lia)) as (Ha & _).
    destruct (keyword_days_digits (dec_nat j) Ha) as (-> & -> & ->).
    cbn [holiday_list omap list_omap] in *. rewrite length_app in Hlen. cbn [length] in Hlen.
    unfold holiday_line, bind. unfold MAX_HOLIDAY_SIZE in *.
    rewrite Hh, wr_in by (rewrite length_app, length_replicate; lia). cbn [mbind option_bind].
    pose proof (strtol10_dec_nat j [] ltac:(unfold LONG_MAX; lia) eq_refl) as Hs.
    rewrite app_nil_r in Hs. rewrite Hs. cbn [fst].
    rewrite int32_id by (unfold in_int, INT_MIN, INT_MAX; lia).
    unfold ret, day_settings. cbn. rewrite !app_nil_r.
    eexists. split; [do 3 f_equal; rewrite length_app; cbn; lia|].
    split_and!; [|done..]. split; cbn; [done| |done].
    rewrite Nat2Z.id, insert_app_r_alt, Nat.sub_diag by lia. rewrite length_app. cbn [length].
    replace (Z.to_nat 50 - length hs)%nat with (S (Z.to_nat 50 - (length hs + 1))) by lia.
    cbn. by rewrite <-app_assoc.
Qed.

(** ** The file *)

Lemma day_settings_cons (l : hol_line) (ls : list hol_line) :
  day_settings (l :: ls) = day_settings [l] ++ day_settings ls.
Proof. unfold day_settings. cbn. by rewrite app_nil_r. Qed.

Lemma holiday_list_cons (l : hol_line) (ls : list hol_line) :
  holiday_list (l :: ls) = holiday_list [l] ++ holiday_list ls.
Proof. by destruct l. Qed.

Lemma parse_holidays_loop_spec (ls : list hol_line) : Forall hol_line_ok ls -> NoDup (day_settings ls) ->
  forall (fuel : nat) (set : list days) (hs : list Z) (year : Z) (conf : config),
  (length (print_holidays ls) < fuel)%nat -> so_far set hs year conf ->
  (forall d, d ∈ set -> (d ∉ day_settings ls)) ->
  Z.of_nat (length (hs ++ holiday_list ls)) <= MAX_HOLIDAY_SIZE ->
  exists conf', parse_holidays_loop fuel (print_holidays ls) (Z.of_nat (length hs)) conf =
      Some (Z.of_nat (length (hs ++ holiday_list ls)), conf') /\
    so_far (set ++ day_settings ls) (hs ++ holiday_list ls) (year_of year ls) conf' /\
    keeps_days set conf conf' /\
    forall k p np d, HDay k p np ∈ ls -> d ∈ kw_days k ->
      prime conf' d PRIME = entry_of p /\ prime conf' d NON_PRIME = entry_of np.
Proof.
  induction 1 as [|l ls Hl _ IH]; intros Hnd [|fuel] set hs year conf Hf Hsf Hdis Hlen; try lia.
  { exists conf. cbn in *. unfold day_settings. cbn. rewrite !app_nil_r. split_and!; try done.
    intros k p np d Hin. by apply not_elem_of_nil in Hin. }
  cbn [parse_holidays_loop]. unfold print_holidays in *. cbn [fmap list_fmap] in *.
  rewrite text_of_cons, length_app in Hf. cbn [length] in Hf.
  rewrite text_of_cons, fgets_line_text, chop_newline_line by by apply print_hol_line_ok.
  rewrite print_hol_line_skip by done. rewrite day_settings_cons in *. rewrite holiday_list_cons in *.
  apply NoDup_app in Hnd as (_ & Hnd12 & Hnd).
  assert (match l with HComment _ => true | _ => false end = true \/
          match l with HComment _ => False | _ => True end) as [Hc|Hc] by (destruct l; auto).
  - rewrite Hc. destruct l; try done. cbn [app] in *.
    destruct (IH Hnd fuel set hs year conf ltac:(lia) Hsf Hdis Hlen) as (c & H1 & H2 & H3 & H4).
    exists c. split_and!; [done..|]. intros k p np d Hin. rewrite elem_of_cons in Hin.
    destruct Hin as [|Hin]; [done|by apply H4].
  - assert (match l with HComment _ => true | _ => false end = false) as -> by by destruct l.
    assert (Hlen1 : Z.of_nat (length (hs ++ holiday_list [l])) <= MAX_HOLIDAY_SIZE)
      by (rewrite !length_app in *; lia).
    destruct (holidays_line_spec l set hs year conf Hl Hc Hsf) as (c1 & H1 & S1 & K1 & P1);
      [intros d Hd Hin; apply (Hdis d Hd); rewrite elem_of_app; by left|done|].
    mstep H1. cbn [fst].
    destruct (IH Hnd fuel (set ++ day_settings [l]) (hs ++ holiday_list [l]) (year_of year [l]) c1)
      as (c2 & H2 & S2 & K2 & P2); [lia|done| |by rewrite <-app_assoc|].
    { intros d Hd Hin. rewrite elem_of_app in Hd. destruct Hd as [Hd|Hd].
      - apply (Hdis d Hd). rewrite elem_of_app. by right.
      - by apply (Hnd12 d Hd). }
    rewrite H2, <-!app_assoc in *. exists c2. split_and!; [done| | |].
    + exact S2.
    + intros d pr Hd. rewrite K2 by (rewrite elem_of_app; by left). by apply K1.
    + intros k p np d Hin Hd. rewrite elem_of_cons in Hin. destruct Hin as [<-|Hin]; [|by apply (P2 k)].
      assert (d ∈ set ++ day_settings [HDay k p np]) as Hs.
      { unfold day_settings. cbn. rewrite app_nil_r, elem_of_app. by right. }
      rewrite !K2 by done. by apply P1.
Qed.

(** What the file leaves in the configuration *)
Record file_read (ls : list hol_line) (conf : config) : Prop := {
  read_days : forall k p np d, HDay k p np ∈ ls -> d ∈ kw_days k ->
    prime conf d PRIME = entry_of p /\ prime conf d NON_PRIME = entry_of np;
  read_other : forall d pr, (d ∉ day_settings ls) -> prime conf d pr = t0;
  read_holidays : holidays conf = holiday_list ls ++ replicate (Z.to_nat MAX_HOLIDAY_SIZE - length (holiday_list ls)) 0;
  read_num : num_holidays conf = Z.of_nat (length (holiday_list ls)) + 1;
  read_year : holiday_year conf = year_of 0 ls }.

Lemma parse_holidays_read (ls : list hol_line) :
  Forall hol_line_ok ls -> NoDup (day_settings ls) ->
  Z.of_nat (length (holiday_list ls)) <= MAX_HOLIDAY_SIZE ->
  exists conf, parse_holidays (Some (print_holidays ls)) config0 = Some (0, conf) /\
    file_read ls conf.
Proof.
  intros Hls Hnd Hlen.
  destruct (parse_holidays_loop_spec ls Hls Hnd (S (length (print_holidays ls))) [] [] 0 config0)
    as (c & H1 & [S1 S2 S3] & _ & P1); [lia|by split|intros d Hd; by apply not_elem_of_nil in Hd|done|].
  cbn [app] in *. change (Z.of_nat (length (@nil Z))) with 0 in H1. unfold parse_holidays.
  eexists. split; [mstep H1; done|]. by split; cbn.
Qed.

Lemma holiday_list_ok (ls : list hol_line) : Forall hol_line_ok ls ->
  Forall (fun j => 1 <= j <= 366) (holiday_list ls).
Proof.
  induction 1 as [|l ls Hl _ IH]; [constructor|]. rewrite holiday_list_cons.
  apply Forall_app. split; [|done]. destruct l; try constructor; [apply Hl|constructor].
Qed.

(** With fewer than 50 holidays the array is read within its bounds, and the extra
    entry that [num_holidays] counts is no day of a year. *)
Lemma file_read_holidays (ls : list hol_line) (conf : config) : file_read ls conf ->
  Z.of_nat (length (holiday_list ls)) < MAX_HOLIDAY_SIZE ->
  holidays_fit conf /\
  forall j, 1 <= j -> holiday_on conf j = bool_decide (j ∈ holiday_list ls).
Proof.
  intros F Hlen. unfold MAX_HOLIDAY_SIZE in *. pose proof (read_holidays _ _ F) as Hh.
  unfold MAX_HOLIDAY_SIZE in Hh. split.
  - unfold holidays_fit. rewrite (read_num _ _ F), Hh, length_app, length_replicate. lia.
  - intros j Hj. unfold holiday_on. apply bool_decide_ext.
    rewrite (read_num _ _ F), Hh.
    replace (Z.to_nat (Z.of_nat (length (holiday_list ls)) + 1)) with (length (holiday_list ls) + 1)%nat by lia.
    rewrite take_app_add, elem_of_app.
    replace (Z.to_nat 50 - length (holiday_list ls))%nat
      with (S (Z.to_nat 50 - length (holiday_list ls) - 1)) by lia.
    cbn. rewrite list_elem_of_singleton. split; [intros [|]; [done|lia]|by left].
Qed.

(** C32. Reading a holidays file that sets each day at most once and has fewer than
    50 holidays gives every day its prime and non-prime entry, all others none, the
    year of the last line that has one, and [is_holiday] for exactly the days of
    the year that are listed. *)
Theorem holidays_file_read {C : Clock} {L : ClockLaws C} (ls : list hol_line) :
  Forall hol_line_ok ls -> NoDup (day_settings ls) ->
  Z.of_nat (length (holiday_list ls)) < MAX_HOLIDAY_SIZE ->
  exists conf, parse_holidays (Some (print_holidays ls)) config0 = Some (0, conf) /\
    file_read ls conf /\
    forall j, 1 <= j <= 366 -> is_holiday conf j = Some (bool_decide (j ∈ holiday_list ls)).
Proof.
  intros Hls Hnd Hlen. destruct (parse_holidays_read ls Hls Hnd ltac:(lia)) as (conf & Hp & F).
  exists conf. split_and!; [done|done|]. intros j Hj.
  destruct (file_read_holidays ls conf F Hlen) as [Hfit Hon].
  rewrite is_holiday_spec by (done || lia). by rewrite Hon by lia.
Qed.

End HolFile.
