(* ===== verification/DedTime.v ===== *)
(** * Dedicated time: [src/scheduler/dedtime.c]

    Module [Ded]: the file of dedicated times, the array it fills, and the
    dedicated time at or after a time.  [None] is an access outside
    [conf.ded_time].  [qsort] is a merge sort, which keeps the order of equal
    elements, as that of the GNU C library. *)

From Stdlib Require Import ZArith Lia Ascii String.
From stdpp Require Import sorting.
From S2P Require Import Prelude TextFile SchedData TimeData.
Import Text Data Conf.

Module Ded.

Definition cmp_ded_time (v1 v2 : timegap) : Z :=
  if (from v1 =? 0) && negb (from v2 =? 0) then 1
  else if (from v2 =? 0) && negb (from v1 =? 0) then -1
  else if from v1 >? from v2 then 1
  else if from v1 <? from v2 then -1
  else 0.

(** [cmp_ded_time(v1, v2) <= 0] *)
Definition ded_le (v1 v2 : timegap) : Prop := cmp_ded_time v1 v2 <= 0.

#[export] Instance ded_le_dec : RelDecision ded_le.
Proof. intros v1 v2. unfold ded_le. apply _. Defined.

Definition sort_ded_time (ds : list timegap) : list timegap := merge_sort ded_le ds.

(** The loop of [find_next_dedtime]; the array is read up to its end. *)
Fixpoint find_next_loop (ds : list timegap) (date : Z) : option timegap :=
  match ds with
  | [] => None
  | d :: ds' =>
      if negb (from d =? 0) && (to d <=? date) then find_next_loop ds' date else Some d
  end.

Definition find_next_dedtime (conf : config) (date : Z) : option timegap :=
  find_next_loop (ded_time conf) date.

(** [cstat.current_time] stands in for a time of zero. *)
Definition is_ded_time (conf : config) (cstat : status) (date : Z) : option bool :=
  let date := if date =? 0 then current_time cstat else date in
  ded ← find_next_dedtime conf date;
  Some ((date >=? from ded) && (date <? to ded)).

(** ** The file *)

(** ["%d/%d/%d %d:%d %d/%d/%d %d:%d"] *)
Definition DED_FORMAT : list directive :=
  let date := [Int; Lit "/"%char; Int; Lit "/"%char; Int; Space; Int; Lit ":"%char; Int] in
  date ++ Space :: date.

(** A [struct tm] after [memset] and [sscanf] *)
Definition tm_of (mon mday year hour min : Z) : tm := Tm 0 min hour mday mon year 0 0.

(** [tm_mon--], and the years of the two forms of a date *)
Definition year_from (year : Z) : Z :=
  let year := if year <? 90 then int32 (year + 100) else year in
  if year >? 1900 then year - 1900 else year.
Definition year_to (year : Z) : Z := if year >? 1900 then year - 1900 else year.

Section Ded.
Context {C : Clock}.

(** The ten numbers of a line: the times from and to *)
Definition gap_of_line (ns : list Z) : option timegap :=
  match ns with
  | [m1; d1; y1; h1; n1; m2; d2; y2; h2; n2] =>
      Some (Gap (mktime (tm_of (int32 (m1 - 1)) d1 (year_from y1) h1 n1))
                (mktime (tm_of (int32 (m2 - 1)) d2 (year_to y2) h2 n2)))
  | _ => None
  end.

(** A line that is no comment: the index after it *)
Definition ded_line (now : Z) (line : cstring) (i : Z) : M config Z :=
  match sscanf DED_FORMAT line with
  | None => ret i
  | Some ns =>
      match gap_of_line ns with
      | None => ret i
      | Some g =>
          if negb ((from g <? now) && (to g <? now)) then
            fun conf =>
              ds ← wr (ded_time conf) i g;
              Some (i + 1, set_ded_time conf ds)
          else ret i
      end
  end.

Fixpoint parse_ded_loop (fuel : nat) (now : Z) (fp : list ascii) (i : Z) : M config Z :=
  match fuel with
  | O => crash
  | S fuel =>
      match fgets 256 fp with
      | None => ret i
      | Some (line, fp) =>
          if skip_line line then parse_ded_loop fuel now fp i
          else
            let* i := ded_line now line i in
            parse_ded_loop fuel now fp i
      end
  end.

(** [None] is a file that cannot be opened. *)
Definition parse_ded_file (cstat : status) (file : option (list ascii)) : M config Z :=
  match file with
  | None => ret 1
  | Some fp => fun conf =>
      let conf := set_ded_time conf (replicate (Z.to_nat MAX_DEDTIME_SIZE) gap0) in
      r ← parse_ded_loop (S (length fp)) (current_time cstat) fp 0 conf;
      Some (0, set_ded_time r.2 (sort_ded_time (ded_time r.2)))
  end.

End Ded.

End Ded.

(** * Theorems on dedicated time

    The array is sorted with its empty entries at the end, so the search stops at
    the first dedicated time that has not passed. *)

Import Text Data Conf Ded.

Module DedProps.

(** ** The order of the array *)

#[export] Instance ded_le_trans : Transitive ded_le.
Proof.
  intros [a ?] [b ?] [c ?]. unfold ded_le, cmp_ded_time. cbn.
  destruct (Z.eqb_spec a 0), (Z.eqb_spec b 0), (Z.eqb_spec c 0); cbn; try lia;
  destruct (Z.gtb_spec a b), (Z.gtb_spec b c), (Z.gtb_spec a c),
    (Z.ltb_spec a b), (Z.ltb_spec b c), (Z.ltb_spec a c); lia.
Qed.

#[export] Instance ded_le_total : Total ded_le.
Proof.
  intros [a ?] [b ?]. unfold ded_le, cmp_ded_time. cbn.
  destruct (Z.eqb_spec a 0), (Z.eqb_spec b 0); cbn; try lia;
  destruct (Z.gtb_spec a b), (Z.gtb_spec b a), (Z.ltb_spec a b), (Z.ltb_spec b a); lia.
Qed.

(** Empty entries come last, the others by their starts. *)
Lemma ded_le_spec (v1 v2 : timegap) :
  ded_le v1 v2 <-> from v2 = 0 \/ (from v1 <> 0 /\ from v1 <= from v2).
Proof.
  destruct v1 as [a ?], v2 as [b ?]. unfold ded_le, cmp_ded_time. cbn.
  destruct (Z.eqb_spec a 0), (Z.eqb_spec b 0); cbn; try lia;
  destruct (Z.gtb_spec a b), (Z.ltb_spec a b); lia.
Qed.

Lemma sort_ded_time_sorted (ds : list timegap) : StronglySorted ded_le (sort_ded_time ds).
Proof. apply Sorted_StronglySorted; [apply _|]. apply Sorted_merge_sort. apply _. Qed.

Lemma sort_ded_time_perm (ds : list timegap) : sort_ded_time ds ≡ₚ ds.
Proof. apply merge_sort_Permutation. Qed.

(** ** The search *)

(** The array is sorted, and an empty entry ends it. *)
Record ded_ok (ds : list timegap) : Prop := {
  ded_sorted : StronglySorted ded_le ds;
  ded_end : gap0 ∈ ds;
  ded_empty : forall g, g ∈ ds -> from g = 0 -> g = gap0 }.

Definition contains (date : Z) (g : timegap) : Prop := from g <= date < to g.

#[export] Instance contains_dec (date : Z) (g : timegap) : Decision (contains date g).
Proof. unfold contains. apply _. Defined.

Lemma find_next_loop_spec (ds : list timegap) (date : Z) : ded_ok ds ->
  exists d, find_next_loop ds date = Some d /\ d ∈ ds /\ (d = gap0 \/ (from d <> 0 /\ date < to d)) /\
    forall g, g ∈ ds -> from g <> 0 -> date < to g -> ded_le d g.
Proof.
  intros [Hs H0 Hz]. induction Hs as [|d ds Hs IH Hd]; [by apply not_elem_of_nil in H0|]. cbn.
  rewrite Forall_forall in Hd.
  destruct (Z.eqb_spec (from d) 0) as [He|He]; cbn [negb andb].
  - exists d. split_and!; [done|by left|left; apply Hz; [by left|done]|]. intros g Hg.
    rewrite elem_of_cons in Hg. intros Hf _. destruct Hg as [->|Hg]; [done|].
    specialize (Hd g Hg). rewrite ded_le_spec in Hd. lia.
  - destruct (Z.leb_spec (to d) date) as [Hle|Hgt].
    + rewrite elem_of_cons in H0. destruct H0 as [<-|H0]; [by destruct He|].
      destruct IH as (r & -> & Hr & Hc & Hm); [done|intros; apply Hz; [by right|done]|].
      exists r. split_and!; [done|by right|done|].
      intros g Hg. rewrite elem_of_cons in Hg. destruct Hg as [->|Hg]; [lia|by apply Hm].
    + exists d. split_and!; [done|by left|by right|]. intros g Hg Hf Hgt'.
      rewrite elem_of_cons in Hg. destruct Hg as [->|Hg]; [rewrite ded_le_spec; lia|by apply Hd].
Qed.

Lemma contains_gap0 (date : Z) : ~ contains date gap0.
Proof. unfold contains. cbn. lia. Qed.

(** It is dedicated time at a time in some entry. *)
Lemma is_ded_time_spec (conf : config) (cstat : status) (date : Z) :
  ded_ok (ded_time conf) -> date <> 0 ->
  is_ded_time conf cstat date = Some (bool_decide (Exists (contains date) (ded_time conf))).
Proof.
  intros Hok Hne. unfold is_ded_time, find_next_dedtime.
  rewrite (proj2 (Z.eqb_neq _ _)) by done.
  destruct (find_next_loop_spec (ded_time conf) date Hok) as (d & -> & Hd & Hc & Hm). cbn.
  f_equal. apply eq_true_iff_eq. rewrite bool_decide_eq_true, Exists_exists, andb_true_iff.
  rewrite Z.geb_leb, Z.leb_le, Z.ltb_lt. split.
  - intros Hin. by exists d.
  - intros (g & Hg & Hfg & Htg). unfold contains in *.
    destruct (Z.eq_dec (from g) 0) as [H0|H0].
    { rewrite (ded_empty _ Hok g Hg H0) in Hfg, Htg. cbn in *. lia. }
    specialize (Hm g Hg H0 Htg). rewrite ded_le_spec in Hm.
    destruct Hc as [->|[_ Hc]]; [cbn in Hm|]; lia.
Qed.

(** ** Sorting keeps the array good *)

Lemma sort_ded_ok (ds : list timegap) : gap0 ∈ ds -> (forall g, g ∈ ds -> from g = 0 -> g = gap0) ->
  ded_ok (sort_ded_time ds).
Proof.
  intros H0 Hz. split; [apply sort_ded_time_sorted|by rewrite sort_ded_time_perm|].
  intros g. rewrite sort_ded_time_perm. apply Hz.
Qed.

(** The first entry, when some entry is in use *)
Lemma ded_first (ds : list timegap) (g : timegap) : ded_ok ds -> g ∈ ds -> from g <> 0 ->
  exists d ds', ds = d :: ds' /\ from d <> 0 /\ from d <= from g.
Proof.
  intros [Hs _ _] Hg Hf. destruct Hs as [|d ds Hs Hd]; [by apply not_elem_of_nil in Hg|].
  exists d, ds. split; [done|]. rewrite Forall_forall in Hd.
  rewrite elem_of_cons in Hg. destruct Hg as [->|Hg]; [lia|].
  specialize (Hd g Hg). rewrite ded_le_spec in Hd. lia.
Qed.

End DedProps.

(** * The file of dedicated times

    What [parse_ded_file] makes of a file with a comment or a dedicated time on
    each line: the sorted array of the times that have not passed. *)

Import Text Data Conf Ded DedProps.

Module DedFile.

(** ** Files *)

Record date_time := DateTime { dt_mon : Z; dt_mday : Z; dt_year : Z; dt_hour : Z; dt_min : Z }.

Inductive ded_text := Comment (s : cstring) | Entry (a b : date_time).

(** [MM/DD/YYYY HH:MM] *)
Definition print_date (d : date_time) : cstring :=
  zpad 2 (dt_mon d) ++ "/"%char :: zpad 2 (dt_mday d) ++ "/"%char :: zpad 4 (dt_year d) ++
  " "%char :: zpad 2 (dt_hour d) ++ ":"%char :: zpad 2 (dt_min d).

Definition print_line (l : ded_text) : cstring :=
  match l with
  | Comment s => "#"%char :: s
  | Entry a b => print_date a ++ " "%char :: print_date b
  end.

Definition print_ded (ls : list ded_text) : list ascii := text_of (print_line <$> ls).

Definition date_ok (d : date_time) : Prop :=
  1 <= dt_mon d <= 99 /\ 0 <= dt_mday d <= 99 /\ 1901 <= dt_year d <= 9999 /\
  0 <= dt_hour d <= 99 /\ 0 <= dt_min d <= 99.

Definition ded_text_ok (l : ded_text) : Prop :=
  match l with
  | Comment s => line_ok 255 s
  | Entry a b => date_ok a /\ date_ok b
  end.

Section File.
Context {C : Clock}.

Definition date_tm (d : date_time) : tm :=
  tm_of (dt_mon d - 1) (dt_mday d) (dt_year d - 1900) (dt_hour d) (dt_min d).

Definition gap_of (a b : date_time) : timegap := Gap (mktime (date_tm a)) (mktime (date_tm b)).

(** The dedicated times of a file *)
Definition gaps_of (ls : list ded_text) : list timegap :=
  omap (fun l => match l with Comment _ => None | Entry a b => Some (gap_of a b) end) ls.

(** Not yet passed at [now] *)
Definition ahead (now : Z) (g : timegap) : Prop := ~ (from g < now /\ to g < now).

#[export] Instance ahead_dec (now : Z) (g : timegap) : Decision (ahead now g).
Proof. unfold ahead. apply _. Defined.

(** ** Lines *)

Lemma sscanf_space (fmt : list directive) (s : cstring) :
  sscanf (Space :: fmt) s = sscanf fmt (skip_space s).
Proof. done. Qed.

Lemma print_date_scan (d : date_time) (fmt : list directive) (s : cstring) : date_ok d ->
  isdigit (deref s) = false ->
  sscanf (Int :: Lit "/"%char :: Int :: Lit "/"%char :: Int :: Space :: Int :: Lit ":"%char ::
          Int :: fmt) (print_date d ++ s) =
    (fun vs => [dt_mon d; dt_mday d; dt_year d; dt_hour d; dt_min d] ++ vs) <$> sscanf fmt s.
Proof.
  intros (H1 & H2 & H3 & H4 & H5) Hs. unfold print_date.
  rewrite <-!app_assoc, <-!app_comm_cons. repeat (rewrite <-!app_assoc, <-!app_comm_cons).
  cbn [sscanf]. rewrite scan_int_zpad by (done || unfold INT_MAX; lia). rewrite is_char_refl.
  rewrite scan_int_zpad by (done || unfold INT_MAX; lia). rewrite is_char_refl.
  rewrite scan_int_zpad by (done || unfold INT_MAX; lia). cbn [skip_space]. 
  change (isspace " "%char) with true. cbn [sscanf].
  rewrite skip_space_zpad by lia.
  rewrite scan_int_zpad by (done || unfold INT_MAX; lia). rewrite is_char_refl.
  rewrite scan_int_zpad by (done || unfold INT_MAX; lia).
  by destruct (sscanf fmt s).
Qed.

Lemma print_line_scan (a b : date_time) : date_ok a -> date_ok b ->
  sscanf DED_FORMAT (print_line (Entry a b) ++ [NEWLINE]) =
    Some [dt_mon a; dt_mday a; dt_year a; dt_hour a; dt_min a;
          dt_mon b; dt_mday b; dt_year b; dt_hour b; dt_min b].
Proof.
  intros Ha Hb. unfold DED_FORMAT, print_line. cbv zeta. cbn [app].
  rewrite <-app_assoc, <-app_comm_cons.
  rewrite print_date_scan by done. rewrite sscanf_space. cbn [skip_space].
  change (isspace " "%char) with true. cbn iota. assert (skip_space (print_date b ++ [NEWLINE]) = print_date b ++ [NEWLINE]) as ->.
  { destruct Hb as (? & _). unfold print_date. rewrite <-app_assoc. apply skip_space_zpad. lia. }
  rewrite print_date_scan by done. done.
Qed.

Lemma gap_of_printed (a b : date_time) : date_ok a -> date_ok b ->
  gap_of_line [dt_mon a; dt_mday a; dt_year a; dt_hour a; dt_min a;
               dt_mon b; dt_mday b; dt_year b; dt_hour b; dt_min b] = Some (gap_of a b).
Proof.
  intros (H1 & _ & H3 & _) (H1' & _ & H3' & _). unfold gap_of_line, gap_of, date_tm.
  rewrite !int32_id by (unfold in_int, INT_MIN, INT_MAX; lia).
  unfold year_from, year_to. rewrite (proj2 (Z.ltb_ge _ 90)) by lia.
  by rewrite !(proj2 (Z.gtb_lt _ 1900)) by lia.
Qed.

Lemma print_line_skip (l : ded_text) : ded_text_ok l ->
  skip_line (print_line l ++ [NEWLINE]) =
    match l with Comment _ => true | Entry _ _ => false end.
Proof.
  destruct l as [s|a b]; [done|]. intros [(H1 & _) _]. unfold print_line, print_date.
  rewrite <-!app_assoc. destruct (zpad_spec 2 (dt_mon a) ltac:(lia)) as (Ha & Hne & _).
  by apply skip_line_digits.
Qed.

Lemma print_line_ok (l : ded_text) : ded_text_ok l -> line_ok 256 (print_line l).
Proof.
  destruct l as [s|a b].
  - intros [H0 Hn Hl]. split; cbn [print_line length]; [by apply not_elem_of_cons; split; [discriminate|]..|lia].
  - assert (forall d, date_ok d -> Forall (fun c => c <> NUL /\ c <> NEWLINE) (print_date d) /\
              (length (print_date d) <= 16)%nat) as Hd.
    { intros d (H1 & H2 & H3 & H4 & H5). unfold print_date.
      assert (forall n v, 0 <= v -> Forall (fun c => c <> NUL /\ c <> NEWLINE) (zpad n v)) as Hz.
      { intros n v Hv. destruct (zpad_spec n v Hv) as (Ha & _). apply (Forall_impl _ _ _ Ha).
        intros c Hc. split; intros ->; done. }
      split.
      - repeat first [apply Hz; lia|apply Forall_app; split|apply Forall_cons; split];
          split; discriminate.
      - pose proof (zpad_length 2 2 (dt_mon d) ltac:(cbn; lia) ltac:(lia) ltac:(lia)).
        pose proof (zpad_length 2 2 (dt_mday d) ltac:(cbn; lia) ltac:(lia) ltac:(lia)).
        pose proof (zpad_length 4 4 (dt_year d) ltac:(cbn; lia) ltac:(lia) ltac:(lia)).
        pose proof (zpad_length 2 2 (dt_hour d) ltac:(cbn; lia) ltac:(lia) ltac:(lia)).
        pose proof (zpad_length 2 2 (dt_min d) ltac:(cbn; lia) ltac:(lia) ltac:(lia)).
        repeat (rewrite !length_app; cbn [length]). lia. }
    intros [Ha Hb]. destruct (Hd a Ha) as [Ha1 Ha2], (Hd b Hb) as [Hb1 Hb2].
    assert (Forall (fun c => c <> NUL /\ c <> NEWLINE) (print_line (Entry a b))) as HF.
    { cbn [print_line]. apply Forall_app. split; [done|]. by apply Forall_cons. }
    rewrite Forall_forall in HF. split.
    + intros H. by destruct (HF _ H).
    + intros H. by destruct (HF _ H).
    + cbn [print_line]. rewrite length_app. cbn [length]. lia.
Qed.

(** ** The loop *)

(** [i] entries are filled, with [ds]; the others are empty. *)
Definition filled (ds : list timegap) : list timegap :=
  ds ++ replicate (Z.to_nat MAX_DEDTIME_SIZE - length ds) gap0.

Lemma filled_write (ds : list timegap) (g : timegap) : Z.of_nat (length ds) < MAX_DEDTIME_SIZE ->
  wr (filled ds) (Z.of_nat (length ds)) g = Some (filled (ds ++ [g])).
Proof.
  intros Hl. unfold filled, MAX_DEDTIME_SIZE in *.
  rewrite wr_in by (rewrite length_app, length_replicate; lia). f_equal.
  rewrite Nat2Z.id, insert_app_r_alt, Nat.sub_diag by lia. rewrite length_app. cbn [length].
  replace (Z.to_nat 50 - length ds)%nat with (S (Z.to_nat 50 - (length ds + 1))) by lia.
  cbn. by rewrite <-app_assoc.
Qed.

Definition kept (now : Z) (ls : list ded_text) : list timegap := List.filter (fun g => bool_decide (ahead now g)) (gaps_of ls).

Lemma kept_cons (now : Z) (l : ded_text) (ls : list ded_text) :
  kept now (l :: ls) = kept now [l] ++ kept now ls.
Proof.
  unfold kept. destruct l as [s|a b]; cbn [gaps_of omap list_omap List.filter app]; [done|].
  by destruct (bool_decide (ahead now (gap_of a b))).
Qed.

Lemma set_ded_same (conf : config) (ds : list timegap) :
  ded_time conf = ds -> set_ded_time conf ds = conf.
Proof. intros <-. by destruct conf. Qed.

Lemma ded_line_entry (now : Z) (a b : date_time) (conf : config) (ds : list timegap) :
  date_ok a -> date_ok b -> let ds' := ds ++ kept now [Entry a b] in
  Z.of_nat (length ds') <= MAX_DEDTIME_SIZE -> ded_time conf = filled ds ->
  ded_line now (print_line (Entry a b) ++ [NEWLINE]) (Z.of_nat (length ds)) conf =
    Some (Z.of_nat (length ds'), set_ded_time conf (filled ds')).
Proof.
  intros Ha Hb ds' Hl Hc. subst ds'. unfold ded_line.
  rewrite print_line_scan, gap_of_printed by done. revert Hl.
  unfold kept. cbn [gaps_of omap list_omap List.filter].
  assert (negb ((from (gap_of a b) <? now) && (to (gap_of a b) <? now)) =
          bool_decide (ahead now (gap_of a b))) as ->.
  { apply eq_true_iff_eq. rewrite negb_true_iff, bool_decide_eq_true, andb_false_iff, !Z.ltb_ge.
    unfold ahead. lia. }
  case_bool_decide; rewrite length_app; cbn [length]; intros Hl.
  - rewrite Hc, filled_write by lia. cbn. do 2 f_equal. lia.
  - unfold ret. rewrite app_nil_r, Nat.add_0_r. by rewrite set_ded_same.
Qed.

Lemma parse_ded_loop_text (now : Z) (ls : list ded_text) : Forall ded_text_ok ls ->
  forall (fuel : nat) (conf : config) (ds : list timegap), let ds' := ds ++ kept now ls in
  (length (print_ded ls) < fuel)%nat ->
  Z.of_nat (length ds') <= MAX_DEDTIME_SIZE -> ded_time conf = filled ds ->
  parse_ded_loop fuel now (print_ded ls) (Z.of_nat (length ds)) conf =
    Some (Z.of_nat (length ds'), set_ded_time conf (filled ds')).
Proof.
  induction 1 as [|l ls Hl _ IH]; intros [|fuel] conf ds ds' Hf Hn Hc; try lia; subst ds'.
  { cbn. unfold kept. cbn. rewrite app_nil_r. unfold ret. by rewrite set_ded_same. }
  cbn [parse_ded_loop]. unfold print_ded in *. cbn [fmap list_fmap] in *.
  rewrite text_of_cons in *. rewrite fgets_line_text by by apply print_line_ok.
  rewrite print_line_skip by done. rewrite length_app in Hf. cbn [length] in Hf.
  rewrite kept_cons in *. rewrite app_assoc in *.
  destruct l as [s|a b].
  - change (kept now [Comment s]) with (@nil timegap) in *. rewrite app_nil_r in *.
    apply IH; [lia|done|done].
  - destruct Hl as [Ha Hb]. rewrite length_app in Hn.
    mstep (ded_line_entry now a b conf ds Ha Hb ltac:(lia) Hc).
    rewrite IH; [by destruct conf|lia|rewrite length_app; lia|done].
Qed.

(** What the file leaves in the array *)
Lemma parse_ded_file_text (cstat : status) (conf : config) (ls : list ded_text) :
  Forall ded_text_ok ls -> Z.of_nat (length (kept (current_time cstat) ls)) <= MAX_DEDTIME_SIZE ->
  parse_ded_file cstat (Some (print_ded ls)) conf =
    Some (0, set_ded_time conf (sort_ded_time (filled (kept (current_time cstat) ls)))).
Proof.
  intros Hls Hn. unfold parse_ded_file.
  pose proof (parse_ded_loop_text (current_time cstat) ls Hls (S (length (print_ded ls)))
    (set_ded_time conf (filled [])) [] ltac:(lia) Hn eq_refl) as H.
  cbn [app length] in H. change (Z.of_nat 0) with 0 in H.
  change (replicate (Z.to_nat MAX_DEDTIME_SIZE) gap0) with (filled []). rewrite H.
  by destruct conf.
Qed.

Lemma elem_of_filled (ds : list timegap) (g : timegap) : g ∈ filled ds -> g ∈ ds \/ g = gap0.
Proof.
  unfold filled. rewrite elem_of_app. intros [|H]; [by left|right].
  by apply elem_of_replicate in H as [-> _].
Qed.

Lemma filled_ok (ds : list timegap) : Z.of_nat (length ds) < MAX_DEDTIME_SIZE ->
  Forall (fun g => from g <> 0) ds -> ded_ok (sort_ded_time (filled ds)).
Proof.
  intros Hl Hd. rewrite Forall_forall in Hd. apply sort_ded_ok.
  - unfold filled. rewrite elem_of_app. right. apply elem_of_replicate.
    split; [done|]. unfold MAX_DEDTIME_SIZE in *. lia.
  - intros g Hg Hz. destruct (elem_of_filled ds g Hg) as [H|H]; [by destruct (Hd g H)|done].
Qed.

End File.
End DedFile.
