(* ===== verification/TimeCheck.v ===== *)
(** * Checks against prime and dedicated time

    Module [TimeCheck]: the functions of [src/scheduler/check.c] that keep a
    queue or a job within prime or dedicated time and shrink a job to what is
    left of it, [calc_time_left_STF] of [src/scheduler/misc.c], and the part of
    [src/scheduler/fifo.c] that sets the times of the policy at start and in
    every cycle.  A [sch_resource_t] here holds times, integers below 2^53, which
    a [double] adds and compares exactly: it is a [Z]. *)

From Stdlib Require Import ZArith Lia Ascii String.
From S2P Require Import Prelude TextFile SchedData LimitCheck TimeData PrimeTime DedTime.
Import Text Data Calendar LimitCheck Conf Prime Ded.

Module TimeCheck.

Section Check.
Context {I : Type}.

(** [cstat] is the status [is_ded_time] takes its time from when asked for zero. *)
Definition check_ded_time_queue (conf : config) (cstat : status) (sinfo : server_info I)
    (qinfo : queue_info I) : option Z :=
  ded ← is_ded_time conf cstat (si_server_time sinfo);
  Some (if ded : bool then (if qi_is_ded_queue qinfo then 0 else DED_TIME)
        else (if qi_is_ded_queue qinfo then DED_TIME else 0)).

Definition check_prime_queue (s : status) (qinfo : queue_info I) : Z :=
  if negb (qi_is_prime_queue qinfo) && negb (qi_is_nonprime_queue qinfo) then 0
  else if negb (is_prime s) && qi_is_prime_queue qinfo then PRIME_ONLY
  else 0.

Definition check_nonprime_queue (s : status) (qinfo : queue_info I) : Z :=
  if negb (qi_is_prime_queue qinfo) && negb (qi_is_nonprime_queue qinfo) then 0
  else if is_prime s && qi_is_nonprime_queue qinfo then NONPRIME_ONLY
  else 0.

Definition is_ok_to_run_queue (conf : config) (cstat s : status) (sinfo : server_info I)
    (qinfo : queue_info I) : option Z :=
  if negb (qi_is_exec qinfo) then Some QUEUE_NOT_EXEC
  else if negb (qi_is_started qinfo) then Some QUEUE_NOT_STARTED
  else
    rc ← check_ded_time_queue conf cstat sinfo qinfo;
    if negb (rc =? 0) then Some rc
    else
      let rc := check_prime_queue s qinfo in
      if negb (rc =? 0) then Some rc
      else
        let rc := check_nonprime_queue s qinfo in
        if negb (rc =? 0) then Some rc else Some SUCCESS.

(** The start and end a job or reservation would have now; [None] is the error. *)
Definition dedtime_span (sinfo : server_info I) (resresv : resource_resv) : option (Z * Z) :=
  if (rr_start resresv =? UNSPECIFIED) && (rr_end resresv =? UNSPECIFIED) then
    let start := si_server_time sinfo in
    Some (start, start + calc_time_left resresv false)
  else if (rr_start resresv =? UNSPECIFIED) || (rr_end resresv =? UNSPECIFIED) then None
  else Some (rr_start resresv, rr_end resresv).

Definition dedtime_conflict (conf : config) (sinfo : server_info I) (resresv : resource_resv)
  : option Z :=
  match dedtime_span sinfo resresv with
  | None => Some (-1)
  | Some (start, end_) =>
      ded ← find_next_dedtime conf start;
      Some (if (from ded =? 0) && (to ded =? 0) then 0
            else if (start >? from ded) && (start <? to ded) then 1
            else if (end_ >? from ded) && (end_ <? to ded) then 1
            else if (start <=? from ded) && (end_ >=? to ded) then 1
            else 0)
  end.

Definition check_ded_time_boundary (conf : config) (cstat : status) (sinfo : server_info I)
    (resresv : resource_resv) : option Z :=
  ded_time ← find_next_dedtime conf (si_server_time sinfo);
  if (from ded_time =? 0) && (to ded_time =? 0) then Some 0
  else
    ded ← is_ded_time conf cstat (si_server_time sinfo);
    if negb ded then
      c ← dedtime_conflict conf sinfo resresv;
      Some (if c =? 0 then 0 else CROSS_DED_TIME_BOUNDRY)
    else
      let finish_time := si_server_time sinfo + calc_time_left resresv false in
      Some (if finish_time >? to ded_time then CROSS_DED_TIME_BOUNDRY else 0).

(** [qinfo] is the queue of the job; the flags of a queue are read for jobs only. *)
Definition check_prime_boundary (conf : config) (s : status) (sinfo : server_info I)
    (qinfo : queue_info I) (resresv : resource_resv) (err : schd_error) : Z * schd_error :=
  if rr_is_job resresv && prime_exempt_anytime_queues conf &&
     negb (qi_is_nonprime_queue qinfo) && negb (qi_is_prime_queue qinfo) then (0, err)
  else if prime_status_end s =? SCHD_INFINITY then (0, err)
  else if backfill_prime (policy s) then
    let time_left := calc_time_left resresv false in
    let crossing :=
      (CROSS_PRIME_BOUNDARY,
       set_arg1 (set_schd_error_codes err NOT_RUN CROSS_PRIME_BOUNDARY)
         (Some (lit (if is_prime s then "non-primetime" else "primetime")))) in
    if time_left <? 0 then crossing
    else if si_server_time sinfo + time_left >? prime_status_end s + spill s then crossing
    else (0, err)
  else (0, err).

(** ** Shrinking a job *)

(** The time left, and [*min_time_left], which keeps its value on an error *)
Definition calc_time_left_STF (resresv : resource_resv) (min_time_left : Z) : Z * Z :=
  if rr_duration resresv =? UNSPECIFIED then (-1, min_time_left)
  else
    let used_amount := rr_used_walltime resresv in
    (int32 (Z.max 0 (rr_duration resresv - used_amount)),
     Z.max 0 (rr_min_duration resresv - used_amount)).

Definition time_to_ded_boundary (conf : config) (cstat : status) (sinfo : server_info I)
    (njob : resource_resv) : option Z :=
  let duration := rr_duration njob in
  let now := si_server_time sinfo in
  ded_time ← find_next_dedtime conf now;
  ded ← is_ded_time conf cstat now;
  let '(time_left, min_time_left) := calc_time_left_STF njob UNSPECIFIED in
  if negb ded then
    let span :=
      if (rr_start njob =? UNSPECIFIED) && (rr_end njob =? UNSPECIFIED) then
        Some (now, now + min_time_left, now + time_left)
      else if (rr_start njob =? UNSPECIFIED) || (rr_end njob =? UNSPECIFIED) then None
      else Some (rr_start njob, rr_start njob + rr_min_duration njob, rr_end njob) in
    match span with
    | None => Some (-3)
    | Some (start, min_end, end_) =>
        let '(duration, min_end) :=
          if (end_ >? from ded_time) && (end_ <? to ded_time) then
            let min_end := start + min_time_left in
            (if (min_end >? from ded_time) && (min_end <? to ded_time) then UNSPECIFIED
             else from ded_time - start, min_end)
          else (duration, min_end) in
        Some (if (start <=? from ded_time) && (end_ >=? to ded_time) then
                (if min_end >=? from ded_time then UNSPECIFIED else from ded_time - start)
              else duration)
    end
  else
    let min_end := now + min_time_left in
    let end_ := now + time_left in
    Some (if min_end >? to ded_time then UNSPECIFIED
          else if end_ >? to ded_time then to ded_time - now
          else duration).

Definition time_to_prime_boundary (s : status) (sinfo : server_info I) (njob : resource_resv) : Z :=
  let duration := rr_duration njob in
  if (prime_status_end s =? SCHD_INFINITY) || negb (backfill_prime (policy s)) then duration
  else
    let '(time_left, min_time_left) := calc_time_left_STF njob UNSPECIFIED in
    let now := si_server_time sinfo in
    if now + time_left <? prime_status_end s + spill s then duration
    else if now + min_time_left <? prime_status_end s + spill s then
      prime_status_end s + spill s - now
    else UNSPECIFIED.

(** The duration [shrink_to_boundary] gives a job; [None] inside is a job it
    does not try to run. *)
Definition boundary_duration (conf : config) (cstat s : status) (sinfo : server_info I)
    (njob : resource_resv) : option (option Z) :=
  time_to_dedboundary ← time_to_ded_boundary conf cstat sinfo njob;
  Some (if time_to_dedboundary =? UNSPECIFIED then None
        else
          let time_to_primeboundary := time_to_prime_boundary s sinfo njob in
          if time_to_primeboundary =? UNSPECIFIED then None
          else Some (if time_to_dedboundary <? time_to_primeboundary
                     then time_to_dedboundary else time_to_primeboundary)).

End Check.

(** ** The policy at start and in every cycle *)

Section Cycle.
Context {C : Clock}.

(** [update_cycle_status(&cstat, current_time)]; [now] is what [time] gives. *)
Definition update_cycle_status (conf : config) (cstat : status) (current_time now : Z)
  : option (config * status) :=
  let cstat := set_times cstat (if current_time =? 0 then now else current_time) now in
  let date := Conf.current_time cstat in
  dedtime ← is_ded_time conf cstat date;
  conf ← (if is_ded_time_bit cstat && negb dedtime then
            ds ← wr (ded_time conf) 0 gap0;
            Some (set_ded_time conf (sort_ded_time ds))
          else Some conf);
  let cstat := set_ded_bit cstat dedtime in
  prime ← is_prime_time conf date;
  cstat ← (if bool_decide (prime = PRIME) && negb (is_prime cstat) then
             init_prime_time conf cstat
           else if bool_decide (prime = NON_PRIME) && is_prime cstat then
             init_non_prime_time conf cstat
           else Some cstat);
  e ← end_prime_status conf date;
  let cstat := set_status_end cstat e in
  Some (conf, set_cycle cstat 0 0 ((iteration cstat + 1) mod 2 ^ 64)).

(** The lines of [schedinit] on times, after [init_config] and [parse_config] made
    [conf]; the status is zero then. *)
Definition schedinit (conf : config) (holidays_file ded_file : option (list ascii)) (now : Z)
  : option (config * status) :=
  r ← parse_holidays holidays_file conf;
  let conf := r.2 in
  let cstat := set_times status0 now 0 in
  prime ← is_prime_time conf now;
  cstat ← (if decide (prime = NON_PRIME) then init_non_prime_time conf cstat
           else init_prime_time conf cstat);
  r ← parse_ded_file cstat ded_file conf;
  Some (r.2, set_cycle cstat (order cstat) (preempt_attempts cstat) 0).

End Cycle.

End TimeCheck.
