(* ===== verification/TimeProps.v ===== *)
(** * Theorems on times and their checks

    Module [TimeProps]: the dedicated times a scheduler knows in every cycle; what
    [check_ded_time_boundary] lets through; and that the duration a job is shrunk
    to passes the checks it is shrunk for. *)

From Stdlib Require Import ZArith Lia Ascii String.
From S2P Require Import Prelude TextFile SchedData LimitCheck TimeData PrimeTime PrimeProps DedTime TimeCheck.
Import Text Data Calendar LimitCheck Conf Prime PrimeProps Ded DedProps DedFile TimeCheck.

Module TimeProps.

(** ** Cycles *)

Section Cycles.
Context {C : Clock} {L : ClockLaws C}.

(** The policy is that of the time of day. *)
Definition policy_ok (conf : config) (s : status) : Prop :=
  if is_prime s then policy s = prime_settings conf /\ spill s = uint32 (nonprime_spill conf)
  else policy s = non_prime_settings conf /\ spill s = uint32 (prime_spill conf).

(** Between cycles: the array holds what is ahead of the dedicated times [gaps],
    and the bit of the policy is that of the last cycle. *)
Record times_ok (gaps : list timegap) (conf : config) (s : status) : Prop := {
  times_ded : ded_ok (ded_time conf);
  times_from : forall g, g ∈ ded_time conf -> g = gap0 \/ g ∈ gaps;
  times_kept : forall g, g ∈ gaps -> current_time s < to g -> g ∈ ded_time conf;
  times_bit : is_ded_time_bit s = true -> Exists (contains (current_time s)) (ded_time conf);
  times_holidays : holidays_fit conf;
  times_positive : 0 < current_time s;
  times_policy : policy_ok conf s }.

Lemma init_prime_some (conf : config) (s : status) : holidays_fit conf ->
  exists e, init_prime_time conf s =
    Some (set_status_end (set_policy s (prime_settings conf) true (nonprime_spill conf)) e).
Proof.
  intros Hf. unfold init_prime_time. cbv zeta.
  destruct (end_prime_status_some conf (prime_status_end
    (set_policy s (prime_settings conf) true (nonprime_spill conf))) Hf) as [e ->]. by exists e.
Qed.

Lemma init_non_prime_some (conf : config) (s : status) : holidays_fit conf ->
  exists e, init_non_prime_time conf s =
    Some (set_status_end (set_policy s (non_prime_settings conf) false (prime_spill conf)) e).
Proof.
  intros Hf. unfold init_non_prime_time. cbv zeta.
  destruct (end_prime_status_some conf (prime_status_end
    (set_policy s (non_prime_settings conf) false (prime_spill conf))) Hf) as [e ->]. by exists e.
Qed.

(** The dedicated time that is dropped has passed. *)
Lemma drop_passed (gaps : list timegap) (conf : config) (s : status) (now : Z) :
  times_ok gaps conf s -> current_time s <= now -> is_ded_time_bit s = true ->
  ~ Exists (contains now) (ded_time conf) ->
  exists d ds, ded_time conf = d :: ds /\ to d <= now /\
    ded_ok (sort_ded_time (gap0 :: ds)).
Proof.
  intros T Hn Hb Hne. pose proof (times_bit _ _ _ T Hb) as Hex. rewrite Exists_exists in Hex.
  destruct Hex as (g & Hg & Hfg & Htg). pose proof (times_positive _ _ _ T).
  assert (from g <> 0) as Hg0.
  { intros H0. rewrite (ded_empty _ (times_ded _ _ _ T) g Hg H0) in Htg. cbn in Htg. lia. }
  destruct (ded_first _ g (times_ded _ _ _ T) Hg Hg0) as (d & ds & Hds & Hd0 & Hle).
  exists d, ds. split; [done|]. rewrite Hds in Hne. split.
  - destruct (Z.le_gt_cases (to d) now); [done|]. exfalso. apply Hne. left. unfold contains. lia.
  - apply sort_ded_ok; [by left|]. intros h Hh Hz. rewrite elem_of_cons in Hh.
    destruct Hh as [->|Hh]; [done|]. apply (ded_empty _ (times_ded _ _ _ T)); [|done].
    rewrite Hds. by right.
Qed.

(** What a cycle sets *)
Definition set_by_cycle (conf : config) (s : status) (now : Z) : Prop :=
  current_time s = now /\
  is_ded_time_bit s = bool_decide (Exists (contains now) (ded_time conf)) /\
  is_prime s = bool_decide (is_prime_time conf now = Some PRIME) /\
  end_prime_status conf now = Some (prime_status_end s).

Lemma update_policy (conf : config) (s : status) (p : prime_time) : holidays_fit conf ->
  policy_ok conf s -> p = PRIME \/ p = NON_PRIME ->
  exists s', (if bool_decide (p = PRIME) && negb (is_prime s) then init_prime_time conf s
              else if bool_decide (p = NON_PRIME) && is_prime s then init_non_prime_time conf s
              else Some s) = Some s' /\
    policy_ok conf s' /\ is_prime s' = bool_decide (p = PRIME) /\
    is_ded_time_bit s' = is_ded_time_bit s /\ current_time s' = current_time s.
Proof.
  intros Hf Hpol Hp. destruct (init_prime_some conf s Hf) as [e ->].
  destruct (init_non_prime_some conf s Hf) as [e' ->]. unfold policy_ok in Hpol.
  destruct Hp as [-> | ->]; cbn; destruct (is_prime s) eqn:Ep; eexists; split; try done;
    unfold policy_ok; cbn; by rewrite ?Ep.
Qed.

Lemma ded_time_update (gaps : list timegap) (conf : config) (s : status) (now : Z) :
  times_ok gaps conf s -> current_time s <= now ->
  exists ds, (if is_ded_time_bit s && negb (bool_decide (Exists (contains now) (ded_time conf))) then
                ds ← wr (ded_time conf) 0 gap0;
                Some (set_ded_time conf (sort_ded_time ds))
              else Some conf) = Some (set_ded_time conf ds) /\
    ded_ok ds /\ (forall g, g ∈ ds -> g = gap0 \/ g ∈ gaps) /\
    (forall g, g ∈ gaps -> now < to g -> g ∈ ds) /\
    (Exists (contains now) ds <-> Exists (contains now) (ded_time conf)).
Proof.
  intros T Hn. destruct (is_ded_time_bit s) eqn:Hb; cbn [andb].
  - case_bool_decide as Hex; cbn [negb].
    { exists (ded_time conf). rewrite set_ded_same by done. split_and!;
        [done|by apply T|by apply T|intros; apply (times_kept _ _ _ T); [done|lia]|done]. }
    destruct (drop_passed gaps conf s now T Hn Hb Hex) as (d & ds & Hds & Hd & Hok).
    exists (sort_ded_time (gap0 :: ds)). rewrite Hds. split; [done|].
    rewrite Hds in Hex. split_and!; [done| | |].
    + intros g. rewrite sort_ded_time_perm, elem_of_cons. intros [->|Hg]; [by left|].
      apply (times_from _ _ _ T). rewrite Hds. by right.
    + intros g Hg Ht. rewrite sort_ded_time_perm, elem_of_cons. right.
      pose proof (times_kept _ _ _ T g Hg ltac:(lia)) as Hin. rewrite Hds, elem_of_cons in Hin.
      destruct Hin as [->|Hin]; [lia|done].
    + rewrite sort_ded_time_perm. rewrite Exists_cons. split; [|by intros].
      intros [H|H]; [by destruct (contains_gap0 now)|by right].
  - exists (ded_time conf). rewrite set_ded_same by done. split_and!;
      [done|by apply T|by apply T|intros; apply (times_kept _ _ _ T); [done|lia]|done].
Qed.

Lemma update_cycle_keeps (gaps : list timegap) (conf : config) (s : status) (now : Z) :
  times_ok gaps conf s -> current_time s <= now ->
  exists conf' s', update_cycle_status conf s 0 now = Some (conf', s') /\
    times_ok gaps conf' s' /\ set_by_cycle conf' s' now.
Proof.
  intros T Hn. pose proof (times_positive _ _ _ T) as H0.
  destruct (ded_time_update gaps conf s now T Hn) as (ds & Hds & Hok & Hfrom & Hkept & Hex).
  pose proof (times_holidays _ _ _ T : holidays_fit (set_ded_time conf ds)) as Hf.
  destruct (is_prime_time_some (set_ded_time conf ds) now Hf) as (p & Hp & Hpp).
  destruct (end_prime_status_some (set_ded_time conf ds) now Hf) as [e He].
  pose (b := bool_decide (Exists (contains now) (ded_time conf))).
  destruct (update_policy (set_ded_time conf ds) (set_ded_bit (set_times s now now) b) p Hf)
    as (s' & Hs' & Hpol & Hpr & Hbit & Hct); [apply T|done|].
  eexists (set_ded_time conf ds), _. split; [|split].
  - unfold update_cycle_status. cbn [Z.eqb]. cbv zeta. cbn [current_time set_times].
    rewrite is_ded_time_spec by (apply T || lia). cbn [mbind option_bind].
    cbn [is_ded_time_bit set_times]. rewrite Hds. cbn [mbind option_bind].
    rewrite Hp. cbn [mbind option_bind]. fold b. rewrite Hs'. cbn [mbind option_bind].
    rewrite He. done.
  - split; cbn; try done.
    + rewrite Hct. cbn. intros g Hg Ht. by apply Hkept.
    + rewrite Hct, Hbit. cbn. intros Hb. subst b. apply bool_decide_eq_true in Hb. by apply Hex.
    + rewrite Hct. cbn. lia.
  - unfold set_by_cycle. cbn. rewrite Hct, Hbit, Hpr. cbn. split_and!; [done| | |done].
    + subst b. by apply bool_decide_ext.
    + rewrite Hp. apply bool_decide_ext. split; [by intros ->|by intros [= ->]].
Qed.

(** ** Runs of the scheduler *)

Fixpoint run_cycles (conf : config) (s : status) (times : list Z) : option (config * status) :=
  match times with
  | [] => Some (conf, s)
  | now :: times => r ← update_cycle_status conf s 0 now; run_cycles r.1 r.2 times
  end.

Fixpoint ascending (start : Z) (times : list Z) : Prop :=
  match times with [] => True | now :: times => start <= now /\ ascending now times end.

Lemma last_default (x : Z) (l : list Z) (a b : Z) : List.last (x :: l) a = List.last (x :: l) b.
Proof. revert x. induction l as [|y l IH]; intros x; [done|exact (IH y)]. Qed.

Lemma run_cycles_keeps (gaps : list timegap) (times : list Z) : forall (conf : config) (s : status),
  times_ok gaps conf s -> ascending (current_time s) times ->
  exists conf' s', run_cycles conf s times = Some (conf', s') /\ times_ok gaps conf' s' /\
    current_time s' = List.last times (current_time s) /\
    (times <> [] -> set_by_cycle conf' s' (current_time s')).
Proof.
  induction times as [|now times IH]; intros conf s T Ha; cbn [run_cycles].
  { by exists conf, s. }
  destruct Ha as [Hn Ha]. destruct (update_cycle_keeps gaps conf s now T Hn) as (c1 & s1 & -> & T1 & S1).
  assert (current_time s1 = now) as E by apply S1. rewrite <-E in Ha.
  destruct (IH c1 s1 T1 Ha) as (c2 & s2 & H2 & T2 & L2 & S2). exists c2, s2. cbn [mbind option_bind fst snd].
  split_and!; [done|done| |].
  - rewrite L2, E. destruct times as [|x times]; [done|].
    change (List.last (now :: x :: times) (current_time s)) with (List.last (x :: times) (current_time s)).
    apply last_default.
  - intros _. destruct times as [|x times]; [|by apply S2].
    cbn in H2. injection H2 as <- <-. by rewrite E.
Qed.

(** ** From the start *)

(** After [schedinit] with a file of dedicated times that fits *)
Lemma schedinit_ok (conf0 conf : config) (s : status) (hol : option (list ascii))
    (ls : list ded_text) (now : Z) :
  Forall ded_text_ok ls -> Forall (fun g => from g <> 0) (gaps_of ls) ->
  Z.of_nat (length (gaps_of ls)) < MAX_DEDTIME_SIZE -> 0 < now ->
  schedinit conf0 hol (Some (print_ded ls)) now = Some (conf, s) -> holidays_fit conf ->
  times_ok (gaps_of ls) conf s /\ current_time s = now.
Proof.
  intros Hls Hg Hl Hn. unfold schedinit.
  destruct (parse_holidays hol conf0) as [[rc c1]|]; [|done]. cbn [mbind option_bind snd].
  destruct (is_prime_time c1 now) as [p|] eqn:Ep; [|done]. cbn [mbind option_bind].
  assert (forall s1, (if decide (p = NON_PRIME) then init_non_prime_time c1 (set_times status0 now 0)
            else init_prime_time c1 (set_times status0 now 0)) = Some s1 ->
          policy_ok c1 s1 /\ is_ded_time_bit s1 = false /\ current_time s1 = now) as Hinit.
  { intros s1. unfold init_non_prime_time, init_prime_time, policy_ok.
    destruct (decide (p = NON_PRIME)); cbv zeta; destruct (end_prime_status c1 _); cbn; try done;
      intros [= <-]; done. }
  destruct (if decide (p = NON_PRIME) then _ else _) as [s1|]; [|done]. cbn [mbind option_bind].
  destruct (Hinit s1 eq_refl) as (Hpol & Hbit & Hct). clear Hinit.
  assert (length (kept now ls) <= length (gaps_of ls))%nat as Hlen by apply List.filter_length_le.
  rewrite parse_ded_file_text by (rewrite ?Hct; done || lia). cbn [mbind option_bind snd].
  intros [= <- <-] Hf. rewrite Hct.
  assert (forall g, g ∈ kept now ls <-> ahead now g /\ g ∈ gaps_of ls) as Hk.
  { intros g. unfold kept. rewrite !list_elem_of_In, List.filter_In, bool_decide_eq_true. tauto. }
  split; [|done]. split; cbn; try done.
  - apply filled_ok; [lia|]. apply Forall_forall. intros g Hin. apply Hk in Hin as [_ Hin].
    rewrite Forall_forall in Hg. by apply Hg.
  - intros g. rewrite sort_ded_time_perm. intros Hin.
    destruct (elem_of_filled _ _ Hin) as [H|H]; [right|by left]. by apply Hk in H as [_ H].
  - intros g Hin Ht. rewrite sort_ded_time_perm. unfold filled. rewrite elem_of_app. left.
    apply Hk. split; [|done]. unfold ahead. rewrite Hct in Ht. lia.
  - by rewrite Hbit.
  - lia.
Qed.

(** What it knows of dedicated time from then on *)
Lemma times_ok_ded (gaps : list timegap) (conf : config) (s : status) (date : Z) :
  times_ok gaps conf s -> Forall (fun g => from g <> 0) gaps -> current_time s <= date ->
  is_ded_time conf s date = Some (bool_decide (Exists (contains date) gaps)).
Proof.
  intros T Hg Hd. pose proof (times_positive _ _ _ T).
  rewrite is_ded_time_spec by (apply T || lia). f_equal. apply bool_decide_ext.
  rewrite !Exists_exists. split; intros (g & Hin & Hc); exists g; split; try done.
  - destruct (times_from _ _ _ T g Hin) as [->|]; [|done]. by destruct (contains_gap0 date).
  - apply (times_kept _ _ _ T); [done|]. unfold contains in Hc. lia.
Qed.

(** C29. Dedicated times: started with a file of fewer than 50 dedicated times, the
    scheduler runs its cycles at times that do not go back, whatever the holidays
    file; and after every cycle it is dedicated time, at any time from then on,
    exactly when a line of the file says so, although the cycles drop the
    dedicated times that have passed.  The cycle leaves the policy of prime or
    non-prime time according to the time of the cycle. *)
Theorem dedicated_times_kept (conf0 conf : config) (s : status) (hol : option (list ascii))
    (ls : list ded_text) (start : Z) (times : list Z) :
  Forall ded_text_ok ls -> Forall (fun g => from g <> 0) (gaps_of ls) ->
  Z.of_nat (length (gaps_of ls)) < MAX_DEDTIME_SIZE -> 0 < start -> ascending start times ->
  schedinit conf0 hol (Some (print_ded ls)) start = Some (conf, s) -> holidays_fit conf ->
  exists conf' s', run_cycles conf s times = Some (conf', s') /\
    (forall date, List.last times start <= date ->
       is_ded_time conf' s' date = Some (bool_decide (Exists (contains date) (gaps_of ls)))) /\
    policy_ok conf' s' /\
    (times <> [] -> set_by_cycle conf' s' (List.last times start)).
Proof.
  intros Hls Hg Hl Hs Ha Hinit Hf.
  destruct (schedinit_ok conf0 conf s hol ls start Hls Hg Hl Hs Hinit Hf) as [T Hct].
  rewrite <-Hct in Ha.
  destruct (run_cycles_keeps (gaps_of ls) times conf s T Ha) as (c & s' & Hr & T' & Hlast & Hset).
  rewrite Hct in Hlast. exists c, s'. split_and!; [done| |by apply T'|by rewrite <-Hlast].
  intros date Hd. apply times_ok_ded; [done|done|lia].
Qed.

End Cycles.
End TimeProps.

(** * Jobs and the bounds of dedicated and prime time

    Module [TimeBounds]: a job that [check_ded_time_boundary] lets through runs in
    dedicated time throughout or not at all, and the duration a job is shrunk to
    passes the checks. *)

Import Data Calendar LimitCheck Conf Ded DedProps TimeCheck.

Module TimeBounds.

(** ** Dedicated times that are proper and apart *)

Definition proper (ds : list timegap) : Prop := forall g, g ∈ ds -> from g <> 0 -> from g < to g.

Definition apart (ds : list timegap) : Prop :=
  forall g h, g ∈ ds -> h ∈ ds -> from g <> 0 -> from h <> 0 ->
  g = h \/ to g < from h \/ to h < from g.

Definition ded_at (conf : config) (date : Z) : bool :=
  bool_decide (Exists (contains date) (ded_time conf)).

Lemma ded_at_true (conf : config) (date : Z) (g : timegap) :
  g ∈ ded_time conf -> contains date g -> ded_at conf date = true.
Proof. intros Hg Hc. apply bool_decide_eq_true_2, Exists_exists. by exists g. Qed.

Lemma ded_at_false (conf : config) (date : Z) :
  (forall g, g ∈ ded_time conf -> ~ contains date g) -> ded_at conf date = false.
Proof.
  intros H. apply bool_decide_eq_false_2. rewrite Exists_exists. intros (g & Hg & Hc). by apply (H g).
Qed.

(** What the search finds: nothing more to come, or the first dedicated time that
    ends after [date] *)
Lemma find_next_cases (conf : config) (date : Z) : ded_ok (ded_time conf) -> 0 < date ->
  exists d, find_next_dedtime conf date = Some d /\
    ((d = gap0 /\ forall t, date <= t -> ded_at conf t = false) \/
     (d ∈ ded_time conf /\ from d <> 0 /\ date < to d /\
      (forall t, date <= t < from d -> ded_at conf t = false))).
Proof.
  intros Hok Hpos. destruct (find_next_loop_spec (ded_time conf) date Hok) as (d & Hd & Hin & Hc & Hm).
  exists d. split; [done|].
  assert (forall t g, date <= t -> g ∈ ded_time conf -> contains t g -> ded_le d g /\ from g <> 0) as Hlater.
  { intros t g Ht Hg [Hfg Htg]. assert (from g <> 0) as Hg0.
    { intros H0. rewrite (ded_empty _ Hok g Hg H0) in Htg. cbn in Htg. lia. }
    split; [apply Hm; [done|done|lia]|done]. }
  destruct Hc as [->|[Hf Ht]]; [left|right]; split_and!; try done.
  - intros t Hle. apply ded_at_false. intros g Hg Hcg.
    destruct (Hlater t g Hle Hg Hcg) as [Hle' Hg0]. rewrite ded_le_spec in Hle'. cbn in Hle'. lia.
  - intros t Hle. apply ded_at_false. intros g Hg Hcg.
    destruct (Hlater t g ltac:(lia) Hg Hcg) as [Hle' Hg0]. rewrite ded_le_spec in Hle'.
    unfold contains in Hcg. lia.
Qed.

Lemma is_ded_now (conf : config) (cstat : status) (date : Z) (d : timegap) :
  find_next_dedtime conf date = Some d -> 0 < date ->
  is_ded_time conf cstat date = Some ((from d <=? date) && (date <? to d)).
Proof.
  intros Hd Hpos. unfold is_ded_time. rewrite (proj2 (Z.eqb_neq date 0)) by lia. rewrite Hd. cbn.
  by rewrite Z.geb_leb.
Qed.

(** ** [check_ded_time_boundary] *)

Section Bounds.
Context {I : Type}.

(** A job that would start now *)
Definition unscheduled (rr : resource_resv) : Prop :=
  rr_start rr = UNSPECIFIED /\ rr_end rr = UNSPECIFIED.

Lemma span_now (si : server_info I) (rr : resource_resv) : unscheduled rr ->
  dedtime_span si rr = Some (si_server_time si, si_server_time si + calc_time_left rr false).
Proof. intros [Hs He]. unfold dedtime_span. by rewrite Hs, He. Qed.

(** The check by the dedicated time found *)
Lemma check_ded_found (conf : config) (cstat : status) (si : server_info I) (rr : resource_resv)
    (d : timegap) :
  let now := si_server_time si in
  let left := calc_time_left rr false in
  unscheduled rr -> 0 < now -> 0 <= left -> find_next_dedtime conf now = Some d ->
  from d <> 0 -> now < to d -> from d < to d ->
  check_ded_time_boundary conf cstat si rr =
    Some (if (if from d <=? now then now + left <=? to d else now + left <=? from d) then 0
          else CROSS_DED_TIME_BOUNDRY).
Proof.
  intros now left Hun Hnow Hleft Hd Hf Ht Hp. unfold check_ded_time_boundary. fold now.
  rewrite Hd. cbn [mbind option_bind]. rewrite (proj2 (Z.eqb_neq (from d) 0) Hf). cbn [andb].
  rewrite (is_ded_now conf cstat now d Hd Hnow), (proj2 (Z.ltb_lt _ _)), andb_true_r by done.
  cbn [mbind option_bind].
  destruct (Z.leb_spec (from d) now) as [Hle|Hgt]; cbn [negb].
  - fold left. f_equal. destruct (Z.gtb_spec (now + left) (to d)), (Z.leb_spec (now + left) (to d));
      done || lia.
  - unfold dedtime_conflict. rewrite span_now by done. fold now left. rewrite Hd.
    cbn [mbind option_bind]. rewrite (proj2 (Z.eqb_neq (from d) 0) Hf). cbn [andb].
    destruct (Z.gtb_spec now (from d)) as [|_]; [lia|]. cbn [andb].
    f_equal. rewrite !Z.geb_leb.
    destruct (Z.leb_spec (now + left) (from d)) as [Hle|Hgt'].
    + destruct (Z.gtb_spec (now + left) (from d)); [lia|]. cbn [andb].
      destruct (Z.leb_spec (to d) (now + left)); [lia|]. by rewrite andb_false_r.
    + destruct (Z.gtb_spec (now + left) (from d)); [|lia]. cbn [andb].
      destruct (Z.ltb_spec (now + left) (to d)); [done|].
      destruct (Z.leb_spec now (from d)), (Z.leb_spec (to d) (now + left)); done || lia.
Qed.

Lemma check_ded_none (conf : config) (cstat : status) (si : server_info I) (rr : resource_resv) :
  find_next_dedtime conf (si_server_time si) = Some gap0 ->
  check_ded_time_boundary conf cstat si rr = Some 0.
Proof. intros Hd. unfold check_ded_time_boundary. by rewrite Hd. Qed.

(** When the dedicated times are proper and do not touch, a job that would start
    now and whose time left is known passes [check_ded_time_boundary] exactly when
    it would run in dedicated time throughout or outside it throughout; otherwise
    the error is [CROSS_DED_TIME_BOUNDRY]. *)
Theorem ded_boundary_constant (conf : config) (cstat : status) (si : server_info I)
    (rr : resource_resv) :
  let now := si_server_time si in
  let left := calc_time_left rr false in
  ded_ok (ded_time conf) -> proper (ded_time conf) -> apart (ded_time conf) ->
  unscheduled rr -> 0 < now -> 0 <= left ->
  exists rc, check_ded_time_boundary conf cstat si rr = Some rc /\
    (rc = 0 \/ rc = CROSS_DED_TIME_BOUNDRY) /\
    (rc = 0 <-> forall t, now <= t < now + left -> ded_at conf t = ded_at conf now).
Proof.
  intros now left Hok Hp Ha Hun Hnow Hleft.
  destruct (find_next_cases conf now Hok Hnow) as (d & Hd & [[-> Hnone]|(Hin & Hf & Ht & Hbefore)]).
  { exists 0. split_and!; [by apply check_ded_none|by left|]. split; [|done]. intros _ t Htt.
    by rewrite !Hnone by lia. }
  pose proof (Hp d Hin Hf) as Hft.
  eexists. split; [by apply (check_ded_found conf cstat si rr d)|]. fold now left.
  split; [case_match; [by left|by right]|].
  destruct (Z.leb_spec (from d) now) as [Hle|Hgt].
  - assert (ded_at conf now = true) as Enow by (apply (ded_at_true conf now d Hin); split; lia).
    rewrite Enow. destruct (Z.leb_spec (now + left) (to d)) as [Hfit|Hcross]; split; try done.
    + intros _ t Htt. apply (ded_at_true conf t d Hin). split; lia.
    + intros Hall. exfalso. specialize (Hall (to d) ltac:(lia)).
      apply bool_decide_eq_true, Exists_exists in Hall as (g & Hg & Hfg & Htg).
      assert (from g <> 0) as Hg0.
      { intros H0. rewrite (ded_empty _ Hok g Hg H0) in Htg. cbn in Htg. lia. }
      destruct (Ha d g Hin Hg Hf Hg0) as [->|[?|?]]; lia.
  - assert (ded_at conf now = false) as Enow by (apply Hbefore; lia).
    rewrite Enow. destruct (Z.leb_spec (now + left) (from d)) as [Hfit|Hcross]; split; try done.
    + intros _ t Htt. apply Hbefore. lia.
    + intros Hall. exfalso. specialize (Hall (from d) ltac:(lia)).
      rewrite (ded_at_true conf (from d) d Hin) in Hall by (split; lia). done.
Qed.

(** ** Shrinking *)

Definition with_duration (rr : resource_resv) (d : Z) : resource_resv :=
  {| rr_addr := rr_addr rr; rr_name := rr_name rr; rr_is_job := rr_is_job rr;
     rr_is_resv := rr_is_resv rr; rr_user := rr_user rr; rr_group := rr_group rr;
     rr_project := rr_project rr; rr_duration := d; rr_hard_duration := rr_hard_duration rr;
     rr_resreq := rr_resreq rr; rr_queue := rr_queue rr; rr_used_walltime := rr_used_walltime rr;
     rr_start := rr_start rr; rr_end := rr_end rr; rr_min_duration := rr_min_duration rr |}.

(** A job that has not run yet, of a length that fits an [int] *)
Record fresh_job (rr : resource_resv) : Prop := {
  fresh_unscheduled : unscheduled rr;
  fresh_unused : rr_used_walltime rr = 0;
  fresh_min : 0 <= rr_min_duration rr <= rr_duration rr;
  fresh_int : rr_duration rr <= INT_MAX }.

Lemma fresh_left (rr : resource_resv) (d : Z) : rr_used_walltime rr = 0 -> 0 <= d <= INT_MAX ->
  calc_time_left (with_duration rr d) false = d.
Proof.
  intros Hu Hd. unfold calc_time_left, UNSPECIFIED. cbn. rewrite Hu.
  destruct (Z.eqb_spec d (-1)); [lia|]. rewrite int32_id by (unfold in_int, INT_MIN; lia). lia.
Qed.

Lemma fresh_left_STF (rr : resource_resv) (m : Z) : fresh_job rr ->
  calc_time_left_STF rr m = (rr_duration rr, rr_min_duration rr).
Proof.
  intros [_ Hu Hm Hi]. unfold calc_time_left_STF, UNSPECIFIED. rewrite Hu.
  destruct (Z.eqb_spec (rr_duration rr) (-1)); [lia|].
  rewrite int32_id by (unfold in_int, INT_MIN; lia). f_equal; lia.
Qed.

(** [d] is a duration the job may be shrunk to, or -1. *)
Definition shrinks (rr : resource_resv) (d : Z) (fits : Z -> Prop) : Prop :=
  d = UNSPECIFIED \/ (rr_min_duration rr <= d <= rr_duration rr /\ forall d', 0 <= d' <= d -> fits d').

Lemma time_to_ded_shrinks (conf : config) (cstat : status) (si : server_info I) (rr : resource_resv) :
  ded_ok (ded_time conf) -> proper (ded_time conf) -> fresh_job rr -> 0 < si_server_time si ->
  exists d, time_to_ded_boundary conf cstat si rr = Some d /\
    shrinks rr d (fun d' => check_ded_time_boundary conf cstat si (with_duration rr d') = Some 0).
Proof.
  intros Hok Hp F Hnow. pose proof F as [[Hs He] Hu Hm Hi]. set (now := si_server_time si) in *.
  unfold time_to_ded_boundary. fold now. rewrite fresh_left_STF by done.
  destruct (find_next_cases conf now Hok Hnow) as (d & Hd & [[-> _]|(Hin & Hf & Ht & _)]).
  - rewrite Hd, (is_ded_now conf cstat now gap0 Hd Hnow). cbn [mbind option_bind from to gap0].
    rewrite (proj2 (Z.ltb_ge now 0)), andb_false_r by lia. cbn [negb]. rewrite Hs, He, Z.eqb_refl. cbn [andb].
    destruct (Z.ltb_spec (now + rr_duration rr) 0); [lia|]. rewrite andb_false_r.
    destruct (Z.leb_spec now 0); [lia|]. cbn [andb]. eexists. split; [done|]. right.
    split; [lia|]. intros d' _. by apply check_ded_none.
  - pose proof (Hp d Hin Hf) as Hft.
    assert (Hcheck : forall d', 0 <= d' <= INT_MAX ->
      (if from d <=? now then now + d' <=? to d else now + d' <=? from d) = true ->
      check_ded_time_boundary conf cstat si (with_duration rr d') = Some 0).
    { intros d' Hd' Hfit. pose proof (check_ded_found conf cstat si (with_duration rr d') d) as H.
      cbv zeta in H. fold now in H. rewrite fresh_left in H by done.
      rewrite H by (done || lia). by rewrite Hfit. }
    rewrite Hd, (is_ded_now conf cstat now d Hd Hnow). cbn [mbind option_bind].
    rewrite (proj2 (Z.ltb_lt _ _)), andb_true_r by done. rewrite Hs, He, Z.eqb_refl. cbn [andb].
    destruct (Z.leb_spec (from d) now) as [Hle|Hgt]; cbn [negb].
    + eexists. split; [done|].
      destruct (Z.gtb_spec (now + rr_min_duration rr) (to d)); [by left|right].
      destruct (Z.gtb_spec (now + rr_duration rr) (to d));
        (split; [lia|]; intros d' Hd'; apply Hcheck; [lia|]; apply Z.leb_le; lia).
    + rewrite !Z.geb_leb. rewrite (proj2 (Z.leb_le now (from d))) by lia. cbn [andb].
      assert (Hsh : forall x, rr_min_duration rr <= x <= rr_duration rr -> now + x <= from d ->
        shrinks rr x (fun d' => check_ded_time_boundary conf cstat si (with_duration rr d') = Some 0)).
      { intros x Hx Hxd. right. split; [done|]. intros d' Hd'. apply Hcheck; [lia|]. apply Z.leb_le. lia. }
      destruct (Z.gtb_spec (now + rr_duration rr) (from d)),
        (Z.ltb_spec (now + rr_duration rr) (to d)),
        (Z.leb_spec (to d) (now + rr_duration rr)),
        (Z.gtb_spec (now + rr_min_duration rr) (from d)),
        (Z.ltb_spec (now + rr_min_duration rr) (to d)); try lia; cbn [andb];
        rewrite ?Z.geb_leb; try destruct (Z.leb_spec (from d) (now + rr_min_duration rr));
        try lia; (eexists; split; [done|]; first [by left|apply Hsh; lia]).
Qed.

Lemma time_to_prime_shrinks (conf : config) (s : status) (si : server_info I) (qi : queue_info I)
    (rr : resource_resv) (err : schd_error) : fresh_job rr ->
  shrinks rr (time_to_prime_boundary s si rr)
    (fun d' => (check_prime_boundary conf s si qi (with_duration rr d') err).1 = 0).
Proof.
  intros F. pose proof F as [_ Hu Hm Hi]. unfold time_to_prime_boundary. rewrite fresh_left_STF by done.
  assert (Hcheck : forall d', 0 <= d' <= INT_MAX ->
    (prime_status_end s =? SCHD_INFINITY) || negb (backfill_prime (policy s)) = true \/
    si_server_time si + d' <= prime_status_end s + spill s ->
    (check_prime_boundary conf s si qi (with_duration rr d') err).1 = 0).
  { intros d' Hd' Hfit. unfold check_prime_boundary. rewrite fresh_left by done.
    destruct (_ && _ && _ && _); [done|].
    destruct (prime_status_end s =? SCHD_INFINITY); [done|].
    destruct (backfill_prime (policy s)); [|done]. destruct Hfit as [Hfit|Hfit]; [done|].
    destruct (Z.ltb_spec d' 0); [lia|].
    destruct (Z.gtb_spec (si_server_time si + d') (prime_status_end s + spill s)); [lia|done]. }
  destruct ((prime_status_end s =? SCHD_INFINITY) || negb (backfill_prime (policy s))) eqn:E.
  { right. split; [lia|]. intros d' Hd'. apply Hcheck; [lia|by left]. }
  destruct (Z.ltb_spec (si_server_time si + rr_duration rr) (prime_status_end s + spill s)).
  { right. split; [lia|]. intros d' Hd'. apply Hcheck; [lia|]. right. lia. }
  destruct (Z.ltb_spec (si_server_time si + rr_min_duration rr) (prime_status_end s + spill s));
    [right|by left].
  split; [lia|]. intros d' Hd'. apply Hcheck; [lia|]. right. lia.
Qed.

(** C31. The duration [shrink_to_boundary] gives a job that has not run yet is
    between its minimum and its full duration, and with it the job passes
    [check_ded_time_boundary] and [check_prime_boundary]; it gives none only when
    one of the two boundaries leaves no room for the minimum. *)
Theorem boundary_duration_passes (conf : config) (cstat s : status) (si : server_info I)
    (qi : queue_info I) (rr : resource_resv) (err : schd_error) :
  ded_ok (ded_time conf) -> proper (ded_time conf) -> fresh_job rr -> 0 < si_server_time si ->
  exists r, boundary_duration conf cstat s si rr = Some r /\
    match r with
    | None => time_to_ded_boundary conf cstat si rr = Some UNSPECIFIED \/
              time_to_prime_boundary s si rr = UNSPECIFIED
    | Some d =>
        rr_min_duration rr <= d <= rr_duration rr /\
        check_ded_time_boundary conf cstat si (with_duration rr d) = Some 0 /\
        (check_prime_boundary conf s si qi (with_duration rr d) err).1 = 0
    end.
Proof.
  intros Hok Hp F Hnow. unfold boundary_duration.
  destruct (time_to_ded_shrinks conf cstat si rr Hok Hp F Hnow) as (dd & -> & Hd).
  pose proof (time_to_prime_shrinks conf s si qi rr err F) as Hpr. cbn [mbind option_bind].
  eexists. split; [done|].
  destruct Hd as [->|[Hd Hdc]]; [by left|].
  pose proof (fresh_min _ F). unfold UNSPECIFIED in *.
  destruct (Z.eqb_spec dd (-1)); [lia|].
  destruct Hpr as [E|[Hpd Hpc]].
  { unfold UNSPECIFIED in E. rewrite E, Z.eqb_refl. by right. }
  destruct (Z.eqb_spec (time_to_prime_boundary s si rr) (-1)); [lia|].
  destruct (Z.ltb_spec dd (time_to_prime_boundary s si rr)); split_and!; try lia;
    [apply Hdc|apply Hpc|apply Hdc|apply Hpc]; lia.
Qed.

End Bounds.
End TimeBounds.
