(* ===== verification/TimeScenes.v ===== *)
(** * A clock, and times on it

    Module [TimeScenes]: the clock of UTC as an instance of [Clock], with its laws;
    the witnesses of the theorems on times; and what goes wrong in the source. *)

From Stdlib Require Import ZArith Lia Ascii String.
From S2P Require Import Prelude TextFile SchedData LimitCheck Counts TimeData PrimeTime PrimeProps HolFile DedTime TimeCheck TimeProps.
Import Text Data Calendar Conf Prime PrimeProps HolFile Ded DedProps DedFile TimeCheck TimeProps TimeBounds.

Module TimeScenes.

(** ** UTC *)

(** The day of an era of 400 years, from the first of March *)
Definition DAYS_OF_ERA : Z := 146097.

(** Year of the era, day of that year, both from March *)
Definition year_of_era (doe : Z) : Z := (doe - doe / 1460 + doe / 36524 - doe / 146096) / 365.
Definition day_of_year (doe : Z) : Z :=
  let yoe := year_of_era doe in doe - (365 * yoe + yoe / 4 - yoe / 100).

Definition leap (y : Z) : bool :=
  (y mod 4 =? 0) && (negb (y mod 100 =? 0) || (y mod 400 =? 0)).

(** The day of the year from January, 0 the first; the bounds are never met. *)
Definition yday_of_era (doe : Z) : Z :=
  let doy := day_of_year doe in
  Z.max 0 (Z.min 365
    (if doy >=? 306 then doy - 306
     else doy + 59 + (if leap (year_of_era doe) then 1 else 0))).

Definition era_day (D : Z) : Z := (D + 719468) mod DAYS_OF_ERA.
Definition utc_yday (D : Z) : Z := yday_of_era (era_day D).

Definition utc_localtime (date : Z) : tm :=
  let D := date / DAY in
  let s := date mod DAY in
  let doe := era_day D in
  let doy := day_of_year doe in
  let mp := (5 * doy + 2) / 153 in
  let mon := if mp <? 10 then mp + 3 else mp - 9 in
  let year := year_of_era doe + (D + 719468) / DAYS_OF_ERA * 400 + (if mon <=? 2 then 1 else 0) in
  {| tm_sec := s mod 60; tm_min := s mod 3600 / 60; tm_hour := s / 3600;
     tm_mday := doy - (153 * mp + 2) / 5 + 1; tm_mon := mon - 1; tm_year := year - 1900;
     tm_wday := (D + 4) mod 7; tm_yday := utc_yday D |}.

(** The fields may be out of their ranges, the month from 0 to 11. *)
Definition utc_mktime (x : tm) : Z :=
  let m := tm_mon x + 1 in
  let y := tm_year x + 1900 - (if m <=? 2 then 1 else 0) in
  let yoe := y mod 400 in
  let doy := (153 * (if m >? 2 then m - 3 else m + 9) + 2) / 5 + tm_mday x - 1 in
  let doe := yoe * 365 + yoe / 4 - yoe / 100 + doy in
  (y / 400 * DAYS_OF_ERA + doe - 719468) * DAY + tm_hour x * 3600 + tm_min x * 60 + tm_sec x.

#[export] Instance utc : Clock := {| localtime := utc_localtime; mktime := utc_mktime |}.

#[export] Instance utc_laws : ClockLaws utc.
Proof.
  split; intros date; cbn -[Z.div Z.modulo]; unfold DAY;
    pose proof (Z.mod_pos_bound date 86400 ltac:(lia)).
  - split; [apply Z.div_pos; lia|]. apply Z.lt_succ_r, Z.div_lt_upper_bound; lia.
  - pose proof (Z.mod_pos_bound (date mod 86400) 3600 ltac:(lia)).
    split; [apply Z.div_pos; lia|]. apply Z.lt_succ_r, Z.div_lt_upper_bound; lia.
  - pose proof (Z.mod_pos_bound (date mod 86400) 60 ltac:(lia)). lia.
  - pose proof (Z.mod_pos_bound (date / 86400 + 4) 7 ltac:(lia)). lia.
  - unfold utc_yday, yday_of_era. lia.
Qed.

Lemma utc_wall (date : Z) : wall 0 utc_yday date.
Proof. split; cbn -[Z.div Z.modulo]; by rewrite Z.add_0_r. Qed.

(** 12 June 2019, a Wednesday, 08:30 *)
Definition wednesday : Z := 1560328200.

Example wednesday_fields : utc_localtime wednesday = Tm 0 30 8 12 5 119 3 162.
Proof. vm_compute. reflexivity. Qed.

Example wednesday_back : utc_mktime (tm_of 5 12 119 8 30) = wednesday.
Proof. vm_compute. reflexivity. Qed.

(** ** Witnesses on prime time *)

Definition office : list hol_line :=
  [HComment (lit " prime time of an office"); HVersion; HYear 2019;
   HDay Weekday (SAt 6 0) (SAt 17 0); HDay Saturday SNone SAll; HDay Sunday SNone SAll;
   HHoliday 1 (lit "Jan 1 New Year's Day"); HHoliday 185 (lit "Jul 4 Independence Day")].

Definition conf_of (ls : list hol_line) : config :=
  match parse_holidays (Some (print_holidays ls)) config0 with
  | Some (_, c) => c
  | None => config0
  end.

Lemma line_ok_bool (n : Z) (s : cstring) :
  bool_decide ((NUL ∉ s) /\ (NEWLINE ∉ s)) && (Z.of_nat (length s) <=? n - 2) = true -> line_ok n s.
Proof. rewrite andb_true_iff, bool_decide_eq_true, Z.leb_le. intros [[H1 H2] H3]. by split. Qed.

Lemma office_ok : Forall hol_line_ok office /\ NoDup (day_settings office) /\
  Z.of_nat (length (holiday_list office)) < MAX_HOLIDAY_SIZE.
Proof.
  split_and!; [|by apply (bool_decide_unpack _)|done].
  unfold office. repeat apply Forall_cons_2; [..|apply Forall_nil_2]; cbn [hol_line_ok setting_ok];
    split_and?; try lia; try done; apply line_ok_bool; vm_compute; reflexivity.
Qed.

Lemma holidays_file_read_witness :
  exists conf, parse_holidays (Some (print_holidays office)) config0 = Some (0, conf) /\
    file_read office conf /\
    forall j, 1 <= j <= 366 -> is_holiday conf j = Some (bool_decide (j ∈ holiday_list office)).
Proof. apply (holidays_file_read office); apply office_ok. Defined.

Lemma office_fit : holidays_fit (conf_of office).
Proof. split; vm_compute; congruence. Qed.

Lemma end_prime_status_returns_witness :
  exists e, end_prime_status (conf_of office) wednesday = Some e.
Proof. apply (end_prime_status_returns (conf_of office) wednesday), office_fit. Defined.

Lemma end_prime_status_right_witness :
  exists e, end_prime_status (conf_of office) wednesday = Some e /\
    right_end (conf_of office) wednesday e.
Proof.
  apply (end_prime_status_right (conf_of office) 0 utc_yday wednesday).
  - apply office_fit.
  - vm_compute. congruence.
  - intros date _. apply utc_wall.
  - vm_compute. reflexivity.
Defined.

(** Prime time ends at 17:00. *)
Example office_ends : end_prime_status (conf_of office) wednesday = Some (wednesday + 30600).
Proof. vm_compute. reflexivity. Qed.

(** ** Witnesses on dedicated time *)

(** Two hours in the evening of the day, and the first of July *)
Definition maintenance : list ded_text :=
  [Comment (lit " maintenance");
   Entry (DateTime 7 1 2019 0 0) (DateTime 7 2 2019 0 0);
   Entry (DateTime 6 12 2019 18 0) (DateTime 6 12 2019 20 0)].

Definition evening : timegap := Gap (wednesday + 34200) (wednesday + 41400).
Definition july : timegap := Gap 1561939200 1562025600.

Example maintenance_gaps : gaps_of maintenance = [july; evening].
Proof. vm_compute. reflexivity. Qed.

Lemma maintenance_ok : Forall ded_text_ok maintenance /\
  Forall (fun g => from g <> 0) (gaps_of maintenance).
Proof.
  split; [|rewrite maintenance_gaps; repeat apply Forall_cons_2; done].
  unfold maintenance. repeat apply Forall_cons_2; [..|apply Forall_nil_2]; cbn [ded_text_ok];
    unfold date_ok; cbn; split_and?; try lia. apply line_ok_bool. vm_compute. reflexivity.
Qed.

(** The scheduler started that day, and its cycles over the evening *)
Definition started : config * status :=
  default (config0, status0)
    (schedinit config0 (Some (print_holidays office)) (Some (print_ded maintenance)) wednesday).

Lemma started_eq :
  schedinit config0 (Some (print_holidays office)) (Some (print_ded maintenance)) wednesday =
    Some started.
Proof.
  unfold started.
  destruct (schedinit config0 _ _ wednesday) eqn:E; [done|]. vm_compute in E. discriminate.
Qed.

Lemma started_fit : holidays_fit started.1.
Proof. split; vm_compute; congruence. Qed.

Definition evening_cycles : list Z := [wednesday + 34000; wednesday + 35000; wednesday + 42000].

Lemma dedicated_times_kept_witness :
  exists conf' s', run_cycles started.1 started.2 evening_cycles = Some (conf', s') /\
    (forall date, List.last evening_cycles wednesday <= date ->
       is_ded_time conf' s' date =
         Some (bool_decide (Exists (contains date) (gaps_of maintenance)))) /\
    policy_ok conf' s' /\
    (evening_cycles <> [] -> set_by_cycle conf' s' (List.last evening_cycles wednesday)).
Proof.
  apply (dedicated_times_kept config0 started.1 started.2 (Some (print_holidays office))
           maintenance wednesday evening_cycles).
  - apply maintenance_ok.
  - apply maintenance_ok.
  - rewrite maintenance_gaps. reflexivity.
  - reflexivity.
  - cbn. unfold wednesday. lia.
  - rewrite started_eq. by destruct started.
  - apply started_fit.
Defined.

(** After the evening the array starts with the first of July. *)
Example evening_dropped :
  (fun r => take 2 (ded_time r.1)) <$> run_cycles started.1 started.2 evening_cycles =
    Some [july; gap0].
Proof. vm_compute. reflexivity. Qed.

(** A server at 08:30 that day *)
Definition server_now : server_info unit :=
  {| si_has_hard_limit := false; si_has_soft_limit := false; si_liminfo := LimitInfo tt tt;
     si_sc_running := 0; si_counts := no_counts; si_total := no_counts; si_running_jobs := [];
     si_calendar := None; si_server_time := wednesday; si_queues := [] |}.

Definition job_of (d m : Z) : resource_resv :=
  {| rr_addr := 7; rr_name := lit "1.svr"; rr_is_job := true; rr_is_resv := false;
     rr_user := None; rr_group := None; rr_project := None; rr_duration := d;
     rr_hard_duration := d; rr_resreq := []; rr_queue := Some 1; rr_used_walltime := 0;
     rr_start := UNSPECIFIED; rr_end := UNSPECIFIED; rr_min_duration := m |}.

Definition ded_conf (g : list timegap) : config := set_ded_time (conf_of office) (sort_ded_time (filled g)).

Lemma ded_conf_ok : ded_ok (ded_time (ded_conf [july; evening])) /\
  proper (ded_time (ded_conf [july; evening])) /\ apart (ded_time (ded_conf [july; evening])).
Proof.
  assert (forall g, g ∈ ded_time (ded_conf [july; evening]) -> g = july \/ g = evening \/ g = gap0) as H.
  { intros g Hg. cbn [ded_time ded_conf set_ded_time] in Hg. rewrite sort_ded_time_perm in Hg.
    apply elem_of_filled in Hg. rewrite !elem_of_cons, elem_of_nil in Hg. tauto. }
  split_and!.
  - apply filled_ok; [done|]. by repeat constructor.
  - intros g Hg Hf. by destruct (H g Hg) as [->|[->| ->]].
  - intros g h Hg Hh Hf Hf'. destruct (H g Hg) as [->|[->| ->]], (H h Hh) as [->|[->| ->]]; try done;
      first [by left|right; cbn; unfold wednesday; lia].
Qed.

Lemma ded_boundary_constant_witness :
  exists rc, check_ded_time_boundary (ded_conf [july; evening]) status0 server_now (job_of 36000 60) = Some rc /\
    (rc = 0 \/ rc = CROSS_DED_TIME_BOUNDRY) /\
    (rc = 0 <-> forall t, wednesday <= t < wednesday + 36000 ->
       ded_at (ded_conf [july; evening]) t = ded_at (ded_conf [july; evening]) wednesday).
Proof.
  apply (ded_boundary_constant (ded_conf [july; evening]) status0 server_now (job_of 36000 60)).
  - apply ded_conf_ok.
  - apply ded_conf_ok.
  - apply ded_conf_ok.
  - by split.
  - reflexivity.
  - vm_compute. congruence.
Defined.

(** It would run into the evening. *)
Example evening_crossed :
  check_ded_time_boundary (ded_conf [july; evening]) status0 server_now (job_of 36000 60) =
    Some CROSS_DED_TIME_BOUNDRY.
Proof. vm_compute. reflexivity. Qed.

(** Backfilling around prime time, which ends at 17:00 *)
Definition backfilling : status :=
  Status {| round_robin := false; by_queue := false; strict_fifo := false; strict_ordering := false;
            sort_by := 0; fair_share := false; load_balancing := false; help_starving_jobs := false;
            backfill := false; sort_nodes := false; load_balancing_rr := false;
            backfill_prime := true; preempting := false; node_sort := 0; smp_dist := 0 |}
    true false 600 (wednesday + 30600) wednesday 0 0 0 0.

Definition queue_now : queue_info unit :=
  {| qi_addr := 1; qi_name := lit "workq"; qi_has_hard_limit := false; qi_has_soft_limit := false;
     qi_liminfo := LimitInfo tt tt; qi_sc_running := 0; qi_counts := no_counts;
     qi_total := no_counts; qi_running_jobs := []; qi_is_started := true; qi_is_exec := true;
     qi_is_ded_queue := false; qi_is_prime_queue := false; qi_is_nonprime_queue := false |}.

Lemma job_fresh (d m : Z) : 0 <= m <= d -> d <= INT_MAX -> fresh_job (job_of d m).
Proof. intros Hm Hd. split; [done..|exact Hm|exact Hd]. Qed.

Lemma boundary_duration_passes_witness :
  exists r, boundary_duration (ded_conf [july; evening]) status0 backfilling server_now (job_of 36000 60) = Some r /\
    match r with
    | None => time_to_ded_boundary (ded_conf [july; evening]) status0 server_now (job_of 36000 60) = Some UNSPECIFIED \/
              time_to_prime_boundary backfilling server_now (job_of 36000 60) = UNSPECIFIED
    | Some d =>
        60 <= d <= 36000 /\
        check_ded_time_boundary (ded_conf [july; evening]) status0 server_now (with_duration (job_of 36000 60) d) = Some 0 /\
        (check_prime_boundary (ded_conf [july; evening]) backfilling server_now queue_now
           (with_duration (job_of 36000 60) d) new_schd_error).1 = 0
    end.
Proof.
  apply (boundary_duration_passes (ded_conf [july; evening]) status0 backfilling server_now queue_now
           (job_of 36000 60) new_schd_error).
  - apply ded_conf_ok.
  - apply ded_conf_ok.
  - apply job_fresh; unfold INT_MAX; lia.
  - reflexivity.
Defined.

(** Shrunk to the end of prime time and what may spill over *)
Example shrunk_to_prime :
  boundary_duration (ded_conf [july; evening]) status0 backfilling server_now (job_of 36000 60) =
    Some (Some 31200).
Proof. vm_compute. reflexivity. Qed.

(** ** What goes wrong *)

(** Midnight of a day of June 2019, in UTC *)
Definition june (d : Z) : Z := 1559347200 + (d - 1) * DAY.

Example june_wednesday : june 12 + 8 * 3600 + 30 * 60 = wednesday.
Proof. reflexivity. Qed.

(** The holiday, a Wednesday, on a day without non-prime hours is not looked at:
    prime time is said never to end, though the holiday is non-prime. *)
Definition always_prime : list hol_line :=
  [HYear 2019; HDay Weekday SAll SNone; HDay Saturday SAll SNone; HDay Sunday SAll SNone;
   HHoliday 163 (lit "Jun 12 Holiday")].

Example holiday_is_missed :
  end_prime_status (conf_of always_prime) (june 11 + 3600) = Some SCHD_INFINITY /\
  is_prime_time (conf_of always_prime) wednesday = Some NON_PRIME.
Proof. vm_compute. done. Qed.

(** After a Tuesday of prime time, prime time on Wednesday begins at six: the end
    reported is that of Wednesday's prime time, though the night is non-prime. *)
Definition late_start : list hol_line :=
  [HYear 2019; HDay Tuesday SAll SNone; HDay Wednesday (SAt 6 0) (SAt 17 0)].

Example late_start_is_missed :
  end_prime_status (conf_of late_start) (june 11 + 3600) = Some (june 12 + 17 * 3600) /\
  is_prime_time (conf_of late_start) (june 12 + 3600) = Some NON_PRIME.
Proof. vm_compute. done. Qed.

(** Identical times: it is prime time all day, but an end is reported. *)
Definition same_times : list hol_line := [HYear 2019; HDay Weekday (SAt 8 0) (SAt 8 0)].

Example same_times_end :
  is_prime_time (conf_of same_times) (june 12 + 7 * 3600) = Some PRIME /\
  is_prime_time (conf_of same_times) (june 12 + 8 * 3600) = Some PRIME /\
  end_prime_status (conf_of same_times) (june 12 + 7 * 3600) = Some (june 12 + 8 * 3600).
Proof. vm_compute. done. Qed.

(** A day set again keeps the [all] of the line before. *)
Definition set_again : list hol_line :=
  [HYear 2019; HDay Weekday SAll SNone; HDay Wednesday (SAt 6 0) (SAt 17 0)].

Example all_is_kept :
  is_prime_time (conf_of set_again) (june 12 + 20 * 3600) = Some PRIME.
Proof. vm_compute. done. Qed.

(** A keyword that is not known is taken for a holiday, without a message. *)
Example unknown_keyword :
  match parse_holidays (Some (text_of [lit "Monday 0600 1700"])) config0 with
  | Some (_, c) => num_holidays c = 2 /\ prime c MONDAY PRIME = t0
  | None => False
  end.
Proof. vm_compute. done. Qed.

(** The 51st holiday and the 51st dedicated time are written behind the arrays. *)
Example too_many_holidays :
  parse_holidays (Some (print_holidays (replicate 51 (HHoliday 1 (lit "New Year"))))) config0 = None.
Proof. vm_compute. done. Qed.

Example too_many_dedicated_times :
  parse_ded_file status0 (Some (print_ded (replicate 51
    (Entry (DateTime 7 1 2019 0 0) (DateTime 7 2 2019 0 0))))) config0 = None.
Proof. vm_compute. done. Qed.

(** With 50 holidays the count of 51 has the array read behind its end. *)
Example fifty_holidays :
  match parse_holidays (Some (print_holidays (replicate 50 (HHoliday 1 (lit "New Year"))))) config0 with
  | Some (_, c) => is_holiday c 163 = None
  | None => False
  end.
Proof. vm_compute. done. Qed.

(** The years of a line [MM/DD/YY]: the end is in 1919, so it is never dedicated time. *)
Example short_year_is_lost :
  match parse_ded_file status0 (Some (text_of [lit "6/12/19 8:00 6/12/19 9:00"])) config0 with
  | Some (_, c) =>
      from <$> head (ded_time c) = Some (june 12 + 8 * 3600) /\
      is_ded_time c status0 wednesday = Some false
  | None => False
  end.
Proof. vm_compute. done. Qed.

(** A line whose end is before its start is called an error and kept. *)
Example backward_line_is_kept :
  match parse_ded_file status0 (Some (text_of [lit "6/12/2019 9:00 6/12/2019 8:00"])) config0 with
  | Some (_, c) => head (ded_time c) = Some (Gap (june 12 + 9 * 3600) (june 12 + 8 * 3600))
  | None => False
  end.
Proof. vm_compute. done. Qed.

(** A job without a duration is no conflict with dedicated time. *)
Example no_duration_no_conflict :
  dedtime_conflict (ded_conf [july; evening]) server_now (job_of UNSPECIFIED 0) = Some 0 /\
  check_ded_time_boundary (ded_conf [july; evening]) status0 server_now (job_of UNSPECIFIED 0) = Some 0.
Proof. vm_compute. done. Qed.

(** A job whose minimum duration ends as dedicated time begins would pass the check,
    but is not shrunk when its full duration outlasts dedicated time. *)
Example exact_fit_is_not_tried :
  boundary_duration (ded_conf [july; evening]) status0 status0 server_now (job_of 50000 34200) = Some None /\
  check_ded_time_boundary (ded_conf [july; evening]) status0 server_now
    (with_duration (job_of 50000 34200) 34200) = Some 0.
Proof. vm_compute. done. Qed.

(** Likewise at the end of prime time. *)
Example exact_prime_fit_is_not_tried :
  time_to_prime_boundary backfilling server_now (job_of 40000 31200) = UNSPECIFIED /\
  (check_prime_boundary (conf_of office) backfilling server_now queue_now
     (with_duration (job_of 40000 31200) 31200) new_schd_error).1 = 0.
Proof. vm_compute. done. Qed.

End TimeScenes.
