(* ===== verification/EventList.v ===== *)
(** * The calendar: [src/scheduler/simulate.c]

    Module [Events]: the events of a calendar as objects of a heap that point at
    the next and the previous one; making, finding, adding and deleting events, the
    event to be performed next, and the simulation of a universe up to a time.  A
    [timed_event *] is an address, 0 is [NULL]; freeing an event deletes it from
    the heap, so using it afterwards is [None].  The loops over a list get the
    size of the heap as fuel; that of [simulate_events] takes its fuel as an
    argument, since an event can add another.  What an event does to jobs and
    nodes is recorded as an action, and whether a job could be run is any
    function of the actions so far. *)

From Stdlib Require Import ZArith Lia Ascii String.
From stdpp Require Import gmap.
From S2P Require Import Prelude Ranges SchedData TimeData PrimeTime DedTime.
Import Range Data Conf Prime.

Module Events.

Definition NULL : Z := 0.
Definition ALL_MASK : Z := 4294967295.
Definition RESV_CONFIRMED : Z := 2.
Definition RESV_BEING_ALTERED : Z := 11.
Definition PROVISION_DURATION : Z := 600.
Definition DEDTIME_START : cstring := lit "DEDTIME_START".
Definition DEDTIME_END : cstring := lit "DEDTIME_END".

(** ** Data *)

(** A [node_info], by its name *)
Record node_info := NodeInfo { ni_name : cstring; ni_is_sleeping : bool }.

(** [event_ptr_t]: a job or reservation, the policy, or a node *)
Inductive event_ptr := PResv (rr : resource_resv) | PPolicy | PNode (n : node_info).

Inductive event_func := F_init_prime_time | F_init_non_prime_time | F_dedtime_change | F_node_up_event.

#[export] Instance event_func_eq_dec : EqDecision event_func.
Proof. solve_decision. Defined.

(** [struct timed_event] *)
Record event := Event {
  ev_disabled : bool; ev_name : cstring; ev_type : Z; ev_time : Z;
  ev_ptr : option event_ptr; ev_func : option event_func; ev_func_arg : option cstring;
  ev_next : Z; ev_prev : Z }.

Definition set_disabled (b : bool) (e : event) : event :=
  Event b (ev_name e) (ev_type e) (ev_time e) (ev_ptr e) (ev_func e) (ev_func_arg e) (ev_next e) (ev_prev e).
Definition set_next (a : Z) (e : event) : event :=
  Event (ev_disabled e) (ev_name e) (ev_type e) (ev_time e) (ev_ptr e) (ev_func e) (ev_func_arg e) a (ev_prev e).
Definition set_prev (a : Z) (e : event) : event :=
  Event (ev_disabled e) (ev_name e) (ev_type e) (ev_time e) (ev_ptr e) (ev_func e) (ev_func_arg e) (ev_next e) a.

(** [struct event_list], without the pointer to the time of its universe *)
Record event_list := EventList { eol : bool; events : Z; next_event : Z }.

(** What an event does to the universe *)
Inductive action := Ended (rr : resource_resv) | Ran (rr : resource_resv) | NodeUp (n : node_info).

(** The heap of events and a universe: its calendar, its time, its policy, and the
    actions so far *)
Record sim := Sim {
  cells : gmap Z event; brk : Z; calendar : event_list; server_time : Z;
  sim_policy : status; actions : list action }.

Definition set_cells (m : gmap Z event) (s : sim) : sim :=
  Sim m (brk s) (calendar s) (server_time s) (sim_policy s) (actions s).
Definition set_calendar (c : event_list) (s : sim) : sim :=
  Sim (cells s) (brk s) c (server_time s) (sim_policy s) (actions s).
Definition set_time (t : Z) (s : sim) : sim :=
  Sim (cells s) (brk s) (calendar s) t (sim_policy s) (actions s).
Definition set_sim_policy (p : status) (s : sim) : sim :=
  Sim (cells s) (brk s) (calendar s) (server_time s) p (actions s).
Definition add_action (x : action) (s : sim) : sim :=
  Sim (cells s) (brk s) (calendar s) (server_time s) (sim_policy s) (actions s ++ [x]).

Definition get : M sim sim := fun s => Some (s, s).
Definition modify (f : sim -> sim) : M sim unit := fun s => Some (tt, f s).
Definition lift {A : Type} (o : option A) : M sim A := fun s => a ← o; Some (a, s).
Definition load (a : Z) : M sim event :=
  fun s => e ← cells s !! a; Some (e, s).
Definition upd (a : Z) (f : event -> event) : M sim unit :=
  fun s => e ← cells s !! a; Some (tt, set_cells (<[a := f e]> (cells s)) s).
Definition alloc (e : event) : M sim Z :=
  fun s => Some (brk s, Sim (<[brk s := e]> (cells s)) (brk s + 1) (calendar s) (server_time s)
                          (sim_policy s) (actions s)).
Definition free (a : Z) : M sim unit :=
  fun s => _ ← cells s !! a; Some (tt, set_cells (delete a (cells s)) s).
Definition fueled {A : Type} (f : nat -> M sim A) : M sim A := fun s => f (S (size (cells s))) s.

Definition set_events (a : Z) : M sim unit :=
  modify (fun s => set_calendar (EventList (eol (calendar s)) a (next_event (calendar s))) s).
Definition set_next_event (a : Z) : M sim unit :=
  modify (fun s => set_calendar (EventList (eol (calendar s)) (events (calendar s)) a) s).
Definition set_eol (b : bool) : M sim unit :=
  modify (fun s => set_calendar (EventList b (events (calendar s)) (next_event (calendar s))) s).

(** ** Finding events *)

(** Does a scan stop at the event? *)
Definition stops_at (ignore_disabled : bool) (mask : Z) (e : event) : bool :=
  if ignore_disabled && ev_disabled e then false
  else if Z.land (ev_type e) mask =? 0 then false else true.

Fixpoint find_init_loop (fuel : nat) (e : Z) (ignore_disabled : bool) (mask : Z) : M sim Z :=
  match fuel with
  | O => crash
  | S fuel =>
      if e =? NULL then ret NULL
      else
        let* x := load e in
        if stops_at ignore_disabled mask x then ret e
        else find_init_loop fuel (ev_next x) ignore_disabled mask
  end.
Definition find_init_timed_event (e : Z) (ignore_disabled : bool) (mask : Z) : M sim Z :=
  fueled (fun n => find_init_loop n e ignore_disabled mask).

Fixpoint find_back_loop (fuel : nat) (e : Z) (ignore_disabled : bool) (mask : Z) : M sim Z :=
  match fuel with
  | O => crash
  | S fuel =>
      if e =? NULL then ret NULL
      else
        let* x := load e in
        if stops_at ignore_disabled mask x then ret e
        else find_back_loop fuel (ev_prev x) ignore_disabled mask
  end.
Definition find_first_timed_event_backwards (e : Z) (ignore_disabled : bool) (mask : Z) : M sim Z :=
  fueled (fun n => find_back_loop n e ignore_disabled mask).

Definition find_next_timed_event (e : Z) (ignore_disabled : bool) (mask : Z) : M sim Z :=
  if e =? NULL then ret NULL
  else let* x := load e in find_init_timed_event (ev_next x) ignore_disabled mask.

Definition find_prev_timed_event (e : Z) (ignore_disabled : bool) (mask : Z) : M sim Z :=
  if e =? NULL then ret NULL
  else let* x := load e in find_first_timed_event_backwards (ev_prev x) ignore_disabled mask.

Definition set_timed_event_disabled (te : Z) (disabled : bool) : M sim unit :=
  if te =? NULL then ret tt else upd te (set_disabled disabled).

(** The event has the name, unless it is [NULL], the type and the time, unless
    they are [TIMED_NOEVENT] and 0. *)
Definition matches (nm : option cstring) (event_type event_time : Z) (e : event) : bool :=
  match nm with None => true | Some n => streq (ev_name e) n end &&
  ((event_type =? ev_type e) || (event_type =? TIMED_NOEVENT)) &&
  ((event_time =? ev_time e) || (event_time =? 0)).

Fixpoint find_timed_loop (fuel : nat) (te : Z) (nm : option cstring) (event_type event_time : Z)
  : M sim Z :=
  match fuel with
  | O => crash
  | S fuel =>
      if te =? NULL then ret NULL
      else
        let* x := load te in
        if matches nm event_type event_time x then ret te
        else
          let* te := find_next_timed_event te false ALL_MASK in
          find_timed_loop fuel te nm event_type event_time
  end.
Definition find_timed_event (te_list : Z) (nm : option cstring) (event_type event_time : Z) : M sim Z :=
  fueled (fun n => find_timed_loop n te_list nm event_type event_time).

Definition get_next_event : M sim Z := let* s := get in ret (next_event (calendar s)).

(** ** Scans of the calendar from the next event on *)

Definition exists_run_event (end_ : Z) : M sim bool :=
  let* te := get_next_event in
  if te =? NULL then ret false
  else
    let* te := find_init_timed_event te true TIMED_RUN_EVENT in
    if te =? NULL then ret false
    else
      let* x := load te in
      ret (if negb (end_ =? 0) && (ev_time x >? end_) then false else true).

Fixpoint exists_resv_loop (fuel : nat) (te end_ : Z) : M sim bool :=
  match fuel with
  | O => crash
  | S fuel =>
      if te =? NULL then ret false
      else
        let* x := load te in
        if ev_time x <=? end_ then
          let next :=
            let* te := find_next_timed_event te false TIMED_RUN_EVENT in
            exists_resv_loop fuel te end_ in
          if ev_type x =? TIMED_RUN_EVENT then
            match ev_ptr x with
            | Some (PResv rr) => if rr_is_resv rr then ret true else next
            | _ => crash
            end
          else next
        else ret false
  end.
Definition exists_resv_event (end_ : Z) : M sim bool :=
  let* te := get_next_event in fueled (fun n => exists_resv_loop n te end_).

(** [generic_sim] with a function that only looks at the event *)
Fixpoint generic_sim_loop (fuel : nat) (te mask end_ : Z) (func : event -> Z) (rc : Z) : M sim Z :=
  match fuel with
  | O => crash
  | S fuel =>
      if te =? NULL then ret rc
      else
        let* x := load te in
        if (rc =? 0) && ((end_ =? 0) || (ev_time x <? end_)) then
          let rc := func x in
          let* te := find_next_timed_event te true mask in
          generic_sim_loop fuel te mask end_ func rc
        else ret rc
  end.
Definition generic_sim (mask end_ default_ret : Z) (func : event -> Z) : M sim Z :=
  let* te := get_next_event in
  let* te := find_init_timed_event te true mask in
  let* rc := fueled (fun n => generic_sim_loop n te mask end_ func 0) in
  ret (if rc >? 0 then 1 else if rc <? 0 then 0 else default_ret).

(** ** Making events *)

Definition policy_change_to_str (func : option event_func) : option cstring :=
  match func with
  | Some F_init_prime_time => Some (lit "prime time")
  | Some F_init_non_prime_time => Some (lit "non-prime time")
  | _ => None
  end.

(** The name [determine_event_name] gives an event; [None] is its error. *)
Definition determine_event_name (event_type : Z) (ptr : event_ptr) (func : option event_func)
  : option cstring :=
  if (event_type =? TIMED_RUN_EVENT) || (event_type =? TIMED_END_EVENT) then
    match ptr with PResv rr => Some (rr_name rr) | _ => None end
  else if event_type =? TIMED_POLICY_EVENT then
    Some (default (lit "policy change") (policy_change_to_str func))
  else if event_type =? TIMED_DED_START_EVENT then Some (lit "dedtime_start")
  else if event_type =? TIMED_DED_END_EVENT then Some (lit "dedtime_end")
  else if (event_type =? TIMED_NODE_UP_EVENT) || (event_type =? TIMED_NODE_DOWN_EVENT) then
    match ptr with PNode n => Some (ni_name n) | _ => None end
  else None.

Definition create_event (event_type event_time : Z) (ptr : option event_ptr)
    (func : option event_func) (arg : option cstring) : M sim Z :=
  match ptr with
  | None => ret NULL
  | Some p =>
      match determine_event_name event_type p func with
      | None => ret NULL
      | Some nm => alloc (Event false nm event_type event_time ptr func arg NULL NULL)
      end
  end.

(** ** The list of events *)

(** The events between which [add_timed_event] puts the new one *)
Fixpoint add_timed_loop (fuel : nat) (x : event) (eloop eloop_prev : Z) : M sim (Z * Z) :=
  match fuel with
  | O => crash
  | S fuel =>
      if eloop =? NULL then ret (eloop, eloop_prev)
      else
        let* y := load eloop in
        if ev_time y >? ev_time x then ret (eloop, eloop_prev)
        else if (ev_time y =? ev_time x) && (ev_type x =? TIMED_END_EVENT) then ret (eloop, eloop_prev)
        else add_timed_loop fuel x (ev_next y) eloop
  end.

Definition add_timed_event (evs te : Z) : M sim Z :=
  if te =? NULL then ret evs
  else if evs =? NULL then ret te
  else
    let* x := load te in
    let* r := fueled (fun n => add_timed_loop n x evs NULL) in
    let '(eloop, eloop_prev) := r in
    if eloop_prev =? NULL then
      let* _ := upd te (set_next evs) in
      let* _ := upd te (set_prev NULL) in
      ret te
    else
      let* _ := upd te (set_next eloop) in
      let* _ := upd eloop_prev (set_next te) in
      let* _ := upd te (set_prev eloop_prev) in
      ret evs.

Definition add_event (te : Z) : M sim Z :=
  if te =? NULL then ret 0
  else
    let* s := get in
    let current_time := server_time s in
    let events_is_null := events (calendar s) =? NULL in
    let* evs := add_timed_event (events (calendar s)) te in
    let* _ := set_events evs in
    let* x := load te in
    let* _ :=
      if events_is_null then set_next_event te
      else
        let next := next_event (calendar s) in
        if negb (next =? NULL) then
          if ev_time x >? current_time then
            let* y := load next in
            if ev_time x <? ev_time y then set_next_event te
            else if ev_time x =? ev_time y then
              let* first := find_timed_event evs None TIMED_NOEVENT (ev_time x) in
              set_next_event first
            else ret tt
          else ret tt
        else if ev_time x >=? current_time then set_next_event te
        else ret tt in
    let* s := get in
    let* _ := if eol (calendar s) && negb (next_event (calendar s) =? NULL) then set_eol false
              else ret tt in
    ret 1.

(** The event and the one before it *)
Fixpoint delete_loop (fuel : nat) (e cur_e prev_e : Z) : M sim (Z * Z) :=
  match fuel with
  | O => crash
  | S fuel =>
      if (cur_e =? e) || (cur_e =? NULL) then ret (cur_e, prev_e)
      else let* x := load cur_e in delete_loop fuel e (ev_next x) cur_e
  end.

Definition delete_event (e : Z) (unlink : bool) : M sim Z :=
  if e =? NULL then ret 0
  else
    let* s := get in
    let* r := fueled (fun n => delete_loop n e (events (calendar s)) NULL) in
    let '(cur_e, prev_e) := r in
    if negb (cur_e =? NULL) then
      let* x := load cur_e in
      let* _ := if next_event (calendar s) =? cur_e then set_next_event (ev_next x) else ret tt in
      let* _ := if prev_e =? NULL then set_events (ev_next x) else upd prev_e (set_next (ev_next x)) in
      let* _ := if unlink then ret tt else free cur_e in
      ret 1
    else ret 0.

Fixpoint free_list_loop (fuel : nat) (te : Z) : M sim unit :=
  match fuel with
  | O => crash
  | S fuel =>
      if te =? NULL then ret tt
      else
        let* x := load te in
        let* _ := free te in
        free_list_loop fuel (ev_next x)
  end.
Definition free_timed_event_list (te_list : Z) : M sim unit :=
  fueled (fun n => free_list_loop n te_list).

End Events.
