(* ===== verification/EventSim.v ===== *)
(** * The calendar made and simulated: [src/scheduler/simulate.c]

    Module [EventSim]: the calendar of the running jobs, the reservations, the
    sleeping nodes and the dedicated times; the next event, which may be a change
    of policy made on the fly; performing events up to a time; copies of a
    calendar for another universe. *)

From Stdlib Require Import ZArith Lia Ascii String.
From stdpp Require Import gmap sorting.
From S2P Require Import Prelude Ranges SchedData TimeData PrimeTime DedTime EventList.
Import Range Data Conf Prime Ded Events.

Module EventSim.

(** ** Jobs and reservations of a universe *)

(** What [in_runnable_state] looks at *)
Record job_state := JobState {
  is_array : bool; queued_subjobs : list range; is_begin : bool; is_queued : bool; is_susp_sched : bool }.

(** A job with its state, or a reservation with its state *)
Record timed_resv := TimedResv {
  tr : resource_resv; tr_job : option job_state; tr_resv_state : option Z }.

Definition in_runnable_state (r : timed_resv) : bool :=
  let queued_or_suspended j := is_queued j || is_susp_sched j in
  match (if rr_is_job (tr r) then tr_job r else None) with
  | Some j =>
      if is_array j then
        if range_next_value (queued_subjobs j) (-1) >=? 0 then
          if is_begin j || is_queued j then true else queued_or_suspended j
        else false
      else queued_or_suspended j
  | None =>
      match (if rr_is_resv (tr r) then tr_resv_state r else None) with
      | Some st => st =? RESV_CONFIRMED
      | None => false
      end
  end.

Definition is_timed (rr : resource_resv) : bool :=
  negb (rr_start rr =? UNSPECIFIED) && negb (rr_end rr =? UNSPECIFIED).

(** The time of the next event of a job or reservation, and whether it is its end *)
Definition event_of (server_time : Z) (r : timed_resv) : Z * bool :=
  if (rr_start (tr r) >=? server_time) && in_runnable_state r then (rr_start (tr r), false)
  else (rr_end (tr r), true).

Definition cmp_events (server_time : Z) (r1 r2 : timed_resv) : Z :=
  let none r := rr_start (tr r) =? UNSPECIFIED in
  if negb (none r1) && none r2 then -1
  else if none r1 && none r2 then 0
  else if none r1 && negb (none r2) then 1
  else
    let '(t1, end_event1) := event_of server_time r1 in
    let '(t2, end_event2) := event_of server_time r2 in
    if t1 <? t2 then -1
    else if t1 =? t2 then (if end_event1 : bool then -1 else if end_event2 : bool then 1 else 0)
    else 1.

(** The merge sort of the C library, as in [DedTime] *)
Definition cmp_events_le (server_time : Z) (r1 r2 : timed_resv) : Prop :=
  cmp_events server_time r1 r2 <= 0.
#[export] Instance cmp_events_le_dec (now : Z) : RelDecision (cmp_events_le now).
Proof. intros r1 r2. unfold cmp_events_le. apply _. Defined.
Definition sort_events (server_time : Z) (all : list timed_resv) : list timed_resv :=
  merge_sort (cmp_events_le server_time) all.

(** ** The calendar of a universe *)

(** The events of the jobs and reservations, up to the first without a time; [None]
    is an event that could not be made. *)
Fixpoint resv_events (all : list timed_resv) (use_hard_duration : bool) (evs : Z) : M sim (Z * bool) :=
  match all with
  | [] => ret (evs, false)
  | r :: all =>
      if negb (is_timed (tr r)) then ret (evs, false)
      else if rr_is_resv (tr r) && bool_decide (tr_resv_state r = Some RESV_BEING_ALTERED) then
        resv_events all use_hard_duration evs
      else
        let* r1 :=
          if in_runnable_state r then
            let* te := create_event TIMED_RUN_EVENT (rr_start (tr r)) (Some (PResv (tr r))) None None in
            if te =? NULL then ret (evs, true)
            else let* evs := add_timed_event evs te in ret (evs, false)
          else ret (evs, false) in
        let '(evs, errflag) := r1 in
        if errflag : bool then ret (evs, true)
        else
          let end_ := if use_hard_duration then rr_start (tr r) + rr_hard_duration (tr r)
                      else rr_end (tr r) in
          let* te := create_event TIMED_END_EVENT end_ (Some (PResv (tr r))) None None in
          if te =? NULL then ret (evs, true)
          else let* evs := add_timed_event evs te in resv_events all use_hard_duration evs
  end.

Fixpoint node_events (nodes : list node_info) (evs : Z) : M sim (option Z) :=
  match nodes with
  | [] => ret (Some evs)
  | n :: nodes =>
      if ni_is_sleeping n then
        let* s := get in
        let* te := create_event TIMED_NODE_UP_EVENT (server_time s + PROVISION_DURATION)
                     (Some (PNode n)) (Some F_node_up_event) None in
        if te =? NULL then ret None
        else let* evs := add_timed_event evs te in node_events nodes evs
      else node_events nodes evs
  end.

Definition create_events (all : list timed_resv) (nodes : list node_info) (use_hard_duration : bool)
  : M sim Z :=
  let* s := get in
  let* r := resv_events (sort_events (server_time s) all) use_hard_duration NULL in
  let '(evs, errflag) := r in
  let* evs' := node_events nodes evs in
  match evs' with
  | None => ret NULL
  | Some evs =>
      if errflag : bool then let* _ := free_timed_event_list evs in ret NULL
      else ret evs
  end.

Definition dedtime_change (arg : option cstring) (p : status) : Z * status :=
  match arg with
  | None => (0, p)
  | Some arg =>
      if streq arg DEDTIME_START then (1, set_ded_bit p true)
      else if streq arg DEDTIME_END then (1, set_ded_bit p false)
      else (0, p)
  end.

(** The loop of [add_dedtime_events] over the entries of [conf.ded_time] *)
Fixpoint add_dedtime_events (ds : list timegap) : M sim Z :=
  match ds with
  | [] => ret 1
  | d :: ds =>
      if from d =? 0 then ret 1
      else
        let* te_start := create_event TIMED_DED_START_EVENT (from d) (Some PPolicy)
                           (Some F_dedtime_change) (Some DEDTIME_START) in
        if te_start =? NULL then ret 0
        else
          let* te_end := create_event TIMED_DED_END_EVENT (to d) (Some PPolicy)
                           (Some F_dedtime_change) (Some DEDTIME_END) in
          if te_end =? NULL then let* _ := free te_start in ret 0
          else
            let* _ := add_event te_start in
            let* _ := add_event te_end in
            add_dedtime_events ds
  end.

Definition create_event_list (conf : config) (all : list timed_resv) (nodes : list node_info)
    (use_hard_duration : bool) : M sim unit :=
  let* evs := create_events all nodes use_hard_duration in
  let* _ := modify (set_calendar (EventList false evs evs)) in
  let* _ := add_dedtime_events (ded_time conf) in
  ret tt.

Definition add_prov_event (event_time : Z) (node : node_info) (svr_node : option node_info) : M sim Z :=
  let add n :=
    let* te := create_event TIMED_NODE_UP_EVENT event_time (Some (PNode n)) (Some F_node_up_event) None in
    if te =? NULL then ret 0 else let* _ := add_event te in ret 1 in
  let* rc := add node in
  if rc =? 0 then ret 0
  else match svr_node with None => ret 1 | Some n => add n end.

(** ** The next event *)

Definition next_event (advance : bool) : M sim Z :=
  let* s := get in
  let* te := if advance then find_next_timed_event (Events.next_event (calendar s)) true ALL_MASK
             else ret (Events.next_event (calendar s)) in
  let set_and_return te := let* _ := set_next_event te in ret te in
  let p := sim_policy s in
  if eol (calendar s) || (prime_status_end p =? SCHD_INFINITY) then set_and_return te
  else
    let* fits :=
      if te =? NULL then ret true
      else if server_time s <=? prime_status_end p then
        let* x := load te in ret (prime_status_end p <? ev_time x)
      else ret false in
    if fits : bool then
      let func := if is_prime p then F_init_non_prime_time else F_init_prime_time in
      let* pe := create_event TIMED_POLICY_EVENT (prime_status_end p) (Some PPolicy) (Some func) None in
      if pe =? NULL then ret NULL
      else
        let* _ := add_event pe in
        let* _ := if te =? NULL then set_eol true else ret tt in
        set_and_return pe
    else set_and_return te.

(** ** Simulation *)

Section Simulate.
Context {C : Clock}.
(** The configuration, and whether a job or reservation could be run after what
    happened so far ([sim_run_update_resresv]) *)
Context (conf : config) (run_ok : list action -> resource_resv -> bool).

Definition call_event_func (f : event_func) (ptr : event_ptr) (arg : option cstring) : M sim unit :=
  let* s := get in
  match f, ptr with
  | F_init_prime_time, PPolicy =>
      let* p := lift (init_prime_time conf (sim_policy s)) in modify (set_sim_policy p)
  | F_init_non_prime_time, PPolicy =>
      let* p := lift (init_non_prime_time conf (sim_policy s)) in modify (set_sim_policy p)
  | F_dedtime_change, PPolicy => modify (set_sim_policy (dedtime_change arg (sim_policy s)).2)
  | F_node_up_event, PNode n => modify (add_action (NodeUp n))
  | _, _ => crash
  end.

Definition perform_event (e : Z) : M sim Z :=
  if e =? NULL then ret 0
  else
    let* x := load e in
    match ev_ptr x with
    | None => ret 0
    | Some ptr =>
        let ty := ev_type x in
        let* rc :=
          if ty =? TIMED_END_EVENT then
            match ptr with
            | PResv rr => let* _ := modify (add_action (Ended rr)) in ret 1
            | _ => crash
            end
          else if ty =? TIMED_RUN_EVENT then
            match ptr with
            | PResv rr =>
                let* s := get in
                if run_ok (actions s) rr then let* _ := modify (add_action (Ran rr)) in ret 1 else ret 0
            | _ => crash
            end
          else if (ty =? TIMED_POLICY_EVENT) || (ty =? TIMED_DED_START_EVENT) ||
                  (ty =? TIMED_DED_END_EVENT) || (ty =? TIMED_NODE_UP_EVENT) ||
                  (ty =? TIMED_NODE_DOWN_EVENT) then ret 1
          else ret 0 in
        let* _ := match ev_func x with
                  | Some f => call_event_func f ptr (ev_func_arg x)
                  | None => ret tt
                  end in
        ret rc
    end.

(** The loop performs the events up to [event_time]; [r] is what was simulated. *)
Fixpoint simulate_loop (fuel : nat) (event event_time : Z) (r cur_sim_time : Z) : M sim (Z * Z) :=
  match fuel with
  | O => crash
  | S fuel =>
      if event =? NULL then ret (r, cur_sim_time)
      else
        let* x := load event in
        if ev_time x <=? event_time then
          let* _ := modify (set_time (ev_time x)) in
          let* rc := perform_event event in
          if rc =? 0 then ret (TIMED_ERROR, ev_time x)
          else
            let r := Z.lor r (ev_type x) in
            let* event := next_event true in
            simulate_loop fuel event event_time r (ev_time x)
        else ret (r, cur_sim_time)
  end.

(** [enum schd_simulate_cmd] with its argument; that of [SIM_NEXT_EVENT] is 0 when
    it is [NULL]. *)
Inductive schd_simulate_cmd := SIM_NONE | SIM_NEXT_EVENT (t : Z) | SIM_TIME (t : Z).

(** The events simulated, and the time of the simulation if it is set *)
Definition simulate_events (fuel : nat) (cmd : schd_simulate_cmd) : M sim (Z * option Z) :=
  match cmd with
  | SIM_NONE => ret (TIMED_NOEVENT, None)
  | _ =>
      let* event := next_event false in
      if event =? NULL then ret (TIMED_NOEVENT, None)
      else
        let* x := load event in
        let* event := if ev_disabled x then next_event true else ret event in
        if event =? NULL then ret (TIMED_NOEVENT, None)
        else
          let* s := get in
          let* x := load event in
          let event_time := match cmd with
                            | SIM_NEXT_EVENT t => ev_time x + t
                            | SIM_TIME t => t
                            | SIM_NONE => 0
                            end in
          let* r := simulate_loop fuel event event_time 0 (server_time s) in
          match cmd with
          | SIM_TIME _ =>
              let* _ := modify (set_time event_time) in ret (r.1, Some event_time)
          | _ => ret (r.1, Some r.2)
          end
  end.

End Simulate.

Definition describe_simret (simret : Z) : Z :=
  let more := Z.lor (Z.lor TIMED_END_EVENT TIMED_DED_END_EVENT) TIMED_NODE_UP_EVENT in
  let less := Z.lor (Z.lor TIMED_RUN_EVENT TIMED_DED_START_EVENT) TIMED_NODE_DOWN_EVENT in
  if negb (Z.land simret more =? 0) then 1
  else if negb (Z.land simret less =? 0) then -1
  else 0.

(** ** Copies for another universe *)

Definition find_resource_resv_by_time (resresv_arr : list resource_resv) (name : cstring) (start : Z)
  : option resource_resv :=
  List.find (fun r => streq (rr_name r) name && (rr_start r =? start)) resresv_arr.

Definition find_node_info (ninfo_arr : list node_info) (nodename : cstring) : option node_info :=
  List.find (fun n => streq nodename (ni_name n)) ninfo_arr.

Section Dup.
(** The jobs and reservations and the nodes of the new universe *)
Context (all : list resource_resv) (nodes : list node_info).

Definition find_event_ptr (ote : event) : option event_ptr :=
  let ty := ev_type ote in
  if (ty =? TIMED_RUN_EVENT) || (ty =? TIMED_END_EVENT) then
    match ev_ptr ote with
    | Some (PResv oep) => PResv <$> find_resource_resv_by_time all (rr_name oep) (rr_start oep)
    | _ => None
    end
  else if (ty =? TIMED_POLICY_EVENT) || (ty =? TIMED_DED_START_EVENT) || (ty =? TIMED_DED_END_EVENT)
  then Some PPolicy
  else if (ty =? TIMED_NODE_DOWN_EVENT) || (ty =? TIMED_NODE_UP_EVENT) then
    match ev_ptr ote with
    | Some (PNode n) => PNode <$> find_node_info nodes (ni_name n)
    | _ => None
    end
  else None.

Definition dup_timed_event (ote : Z) : M sim Z :=
  if ote =? NULL then ret NULL
  else
    let* x := load ote in
    match find_event_ptr x with
    | None => ret NULL
    | Some ptr =>
        match determine_event_name (ev_type x) ptr (ev_func x) with
        | None => ret NULL
        | Some nm =>
            alloc (Event (ev_disabled x) nm (ev_type x) (ev_time x) (Some ptr) (ev_func x)
                     (ev_func_arg x) NULL NULL)
        end
    end.

Fixpoint dup_list_loop (fuel : nat) (ote nte_prev nte_head : Z) : M sim Z :=
  match fuel with
  | O => crash
  | S fuel =>
      if ote =? NULL then ret nte_head
      else
        let* nte := dup_timed_event ote in
        let* nte_head :=
          if negb (nte_prev =? NULL) then let* _ := upd nte_prev (set_next nte) in ret nte_head
          else ret nte in
        let* x := load ote in
        dup_list_loop fuel (ev_next x) nte nte_head
  end.
Definition dup_timed_event_list (ote_list : Z) : M sim Z :=
  fueled (fun n => dup_list_loop n ote_list NULL NULL).

Definition dup_event_list (oelist : event_list) : M sim (option event_list) :=
  let* evs :=
    if events oelist =? NULL then ret (Some NULL)
    else
      let* evs := dup_timed_event_list (events oelist) in
      ret (if evs =? NULL then None else Some evs) in
  match evs with
  | None => ret None
  | Some evs =>
      if Events.next_event oelist =? NULL then ret (Some (EventList (eol oelist) evs NULL))
      else
        let* x := load (Events.next_event oelist) in
        let* nx := find_timed_event evs (Some (ev_name x)) (ev_type x) (ev_time x) in
        if nx =? NULL then let* _ := free_timed_event_list evs in ret None
        else ret (Some (EventList (eol oelist) evs nx))
  end.

End Dup.

End EventSim.
