(* ===== verification/EventHeap.v ===== *)
(** * Lists of events in the heap

    Module [EventHeap]: the list that the [ev_next] pointers of a heap make from an
    address; what the scans of [EventList] find in it, and what adding and deleting
    an event do to it.  The [ev_prev] pointers are no part of it. *)

From Stdlib Require Import ZArith Lia Ascii String.
From stdpp Require Import gmap sorting.
From S2P Require Import Prelude SchedData TimeData EventList.
Import Data Conf Events.

Module EventHeap.

Implicit Types (m : gmap Z event) (x y e : event) (a b : Z) (s : sim).

(** ** Lists *)

(** An event without its links *)
Definition plain e : event := set_prev NULL (set_next NULL e).

Abbreviation entry := (Z * event)%type.
Implicit Types l : list entry.

Fixpoint lseg m a l : Prop :=
  match l with
  | [] => a = NULL
  | (b, e) :: l' => a = b /\ b <> NULL /\ exists x, m !! b = Some x /\ plain x = e /\ lseg m (ev_next x) l'
  end.

Definition hd_addr l : Z := match l with [] => NULL | (b, _) :: _ => b end.

Lemma lseg_hd m a l : lseg m a l -> a = hd_addr l.
Proof. destruct l as [|[b e] l]; [done|]. by intros (-> & _). Qed.

Lemma plain_fields x : ev_time (plain x) = ev_time x /\ ev_type (plain x) = ev_type x /\
  ev_disabled (plain x) = ev_disabled x /\ ev_ptr (plain x) = ev_ptr x /\
  ev_name (plain x) = ev_name x /\ ev_func (plain x) = ev_func x /\ ev_func_arg (plain x) = ev_func_arg x.
Proof. done. Qed.

Lemma plain_next x a : plain (set_next a x) = plain x.
Proof. done. Qed.
Lemma plain_prev x a : plain (set_prev a x) = plain x.
Proof. done. Qed.
Lemma plain_plain x : plain (plain x) = plain x.
Proof. done. Qed.

Lemma lseg_frame m m' l : forall a, (forall b, b ∈ l.*1 -> m' !! b = m !! b) -> lseg m a l -> lseg m' a l.
Proof.
  induction l as [|[b e] l IH]; intros a Hm; [done|]. cbn [lseg fmap list_fmap fst] in *.
  intros (-> & Hb & x & Hx & Hp & Hl). split_and!; [done|done|]. exists x.
  split_and!; [rewrite Hm; [done|by left]|done|]. apply IH; [|done]. intros c Hc. apply Hm. by right.
Qed.

Lemma lseg_det m l : forall a l', lseg m a l -> lseg m a l' -> l = l'.
Proof.
  induction l as [|[b e] l IH]; intros a [|[b' e'] l']; cbn [lseg]; [done| | |].
  - by intros -> (<- & ? & _).
  - by intros (-> & ? & _) ?.
  - intros (-> & _ & x & Hx & <- & Hl) (<- & _ & y & Hy & <- & Hl').
    simplify_eq. f_equal. by eapply IH.
Qed.

Lemma lseg_app m l1 l2 : forall a, lseg m a (l1 ++ l2) -> exists c, lseg m c l2.
Proof.
  induction l1 as [|[b e] l1 IH]; intros a; [by exists a|]. cbn [app lseg].
  intros (_ & _ & x & _ & _ & Hl). by apply IH in Hl.
Qed.

Lemma lseg_suffix m a l1 l2 : lseg m a (l1 ++ l2) -> lseg m (hd_addr l2) l2.
Proof. intros H. destruct (lseg_app m l1 l2 a H) as [c Hc]. by rewrite <-(lseg_hd _ _ _ Hc). Qed.

Lemma lseg_NoDup m a l : lseg m a l -> NoDup l.*1.
Proof.
  revert a. induction l as [|[b e] l IH]; intros a; [constructor|]. intros H. pose proof H as H'.
  cbn [lseg] in H. destruct H as (-> & Hb & x & Hx & Hp & Hl). cbn [fmap list_fmap fst].
  apply NoDup_cons. split; [|by eapply IH]. intros Hin.
  apply list_elem_of_fmap in Hin as ([c e'] & Hc & Hin). cbn in Hc. subst c.
  apply list_elem_of_split in Hin as (l1 & l2 & ->).
  pose proof (lseg_suffix m _ _ _ Hl) as Hs. cbn [hd_addr] in Hs.
  pose proof (lseg_det m _ _ _ Hs H') as Heq. apply (f_equal length) in Heq.
  cbn in Heq. rewrite length_app in Heq. cbn in Heq. lia.
Qed.

Lemma lseg_lookup m a l b e : lseg m a l -> (b, e) ∈ l -> b <> NULL /\ exists x, m !! b = Some x /\ plain x = e.
Proof.
  intros H Hin. apply list_elem_of_split in Hin as (l1 & l2 & ->).
  pose proof (lseg_suffix m _ _ _ H) as (_ & Hb & x & Hx & Hp & _). split; [done|by exists x].
Qed.

Lemma lseg_size m a l : lseg m a l -> (length l <= size m)%nat.
Proof.
  intros H. rewrite <-(length_fmap fst), <-size_dom.
  rewrite <-(size_list_to_set (C := gset Z) (l.*1)) by by eapply lseg_NoDup.
  apply subseteq_size. intros b. rewrite elem_of_list_to_set, elem_of_dom, list_elem_of_fmap.
  intros ([c e] & -> & Hin). destruct (lseg_lookup _ _ _ _ _ H Hin) as (_ & x & Hx & _). by exists x.
Qed.

Lemma lseg_null m l : lseg m NULL l -> l = [].
Proof. destruct l as [|[b e] l]; [done|]. by intros (<- & ? & _). Qed.

Lemma lseg_cons_ne m a b e l : lseg m a ((b, e) :: l) -> a <> NULL.
Proof. by intros (-> & ? & _). Qed.

(** ** Steps *)

Lemma load_cell a x s : cells s !! a = Some x -> load a s = Some (x, s).
Proof. intros H. unfold load. by rewrite H. Qed.

Lemma upd_cell a f x s : cells s !! a = Some x ->
  upd a f s = Some (tt, set_cells (<[a := f x]> (cells s)) s).
Proof. intros H. unfold upd. by rewrite H. Qed.

Lemma cell_not_null a : a <> NULL -> (a =? NULL) = false.
Proof. apply Z.eqb_neq. Qed.

Lemma fueled_list {A : Type} (f : nat -> M sim A) s a l (r : option (A * sim)) :
  lseg (cells s) a l -> (forall n, (length l < n)%nat -> f n s = r) -> fueled f s = r.
Proof. intros Hl Hf. apply Hf. pose proof (lseg_size _ _ _ Hl). lia. Qed.

(** ** Scans *)

(** The list from the first entry on at which a scan stops *)
Fixpoint scan (ig : bool) (mask : Z) l : list entry :=
  match l with
  | [] => []
  | (b, e) :: l' => if stops_at ig mask e then l else scan ig mask l'
  end.

Lemma scan_suffix ig mask l : exists l1, l = l1 ++ scan ig mask l /\
  Forall (fun n => stops_at ig mask n.2 = false) l1.
Proof.
  induction l as [|[b e] l (l1 & Hl & Hf)]; [by exists []|]. cbn [scan].
  destruct (stops_at ig mask e) eqn:E; [by exists []|].
  exists ((b, e) :: l1). split; [cbn; by f_equal|by constructor].
Qed.

Lemma scan_stops ig mask l b e l' : scan ig mask l = (b, e) :: l' -> stops_at ig mask e = true.
Proof.
  induction l as [|[c y] l IH]; [done|]. cbn [scan]. destruct (stops_at ig mask y) eqn:E; [|done].
  by intros [= _ <- _].
Qed.

Lemma lseg_scan m a l ig mask : lseg m a l -> lseg m (hd_addr (scan ig mask l)) (scan ig mask l).
Proof. destruct (scan_suffix ig mask l) as (l1 & Hl & _). rewrite Hl at 1. apply lseg_suffix. Qed.

Lemma stops_plain ig mask x : stops_at ig mask (plain x) = stops_at ig mask x.
Proof. done. Qed.

Lemma find_init_loop_ok s ig mask l : forall n a, (length l < n)%nat -> lseg (cells s) a l ->
  find_init_loop n a ig mask s = Some (hd_addr (scan ig mask l), s).
Proof.
  induction l as [|[b e] l IH]; intros [|n] a Hn Hl; cbn in Hn; try lia; cbn [find_init_loop].
  { cbn in Hl. by rewrite Hl. }
  destruct Hl as (-> & Hb & x & Hx & <- & Hl). rewrite cell_not_null by done.
  mstep (load_cell b x s Hx). cbn [scan]. rewrite stops_plain. destruct (stops_at ig mask x); [done|].
  apply IH; [lia|done].
Qed.

Lemma find_init_ok s a l ig mask : lseg (cells s) a l ->
  find_init_timed_event a ig mask s = Some (hd_addr (scan ig mask l), s).
Proof.
  intros Hl. apply (fueled_list _ s a l); [done|]. intros n Hn. by apply find_init_loop_ok.
Qed.

Lemma find_next_ok s a l ig mask : lseg (cells s) a l ->
  find_next_timed_event a ig mask s = Some (hd_addr (scan ig mask (tail l)), s).
Proof.
  intros Hl. unfold find_next_timed_event. destruct l as [|[b e] l]; [cbn in Hl; by rewrite Hl|].
  destruct Hl as (-> & Hb & x & Hx & <- & Hl). rewrite cell_not_null by done.
  mstep (load_cell b x s Hx). by apply find_init_ok.
Qed.

(** Every event of a known type is seen by a scan for all events. *)
Definition known_type (ty : Z) : bool :=
  bool_decide (ty ∈ [TIMED_RUN_EVENT; TIMED_END_EVENT; TIMED_POLICY_EVENT; TIMED_DED_START_EVENT;
                     TIMED_DED_END_EVENT; TIMED_NODE_DOWN_EVENT; TIMED_NODE_UP_EVENT]).

Lemma known_type_all ty : known_type ty = true -> (Z.land ty ALL_MASK =? 0) = false.
Proof.
  unfold known_type. rewrite bool_decide_eq_true, !elem_of_cons, elem_of_nil.
  intros H. destruct_or?; try done; subst ty; reflexivity.
Qed.

Definition known e : Prop := known_type (ev_type e) = true.

Lemma stops_all ig x : known x -> stops_at ig ALL_MASK x = negb (ig && ev_disabled x).
Proof. intros H. unfold stops_at. rewrite known_type_all by done. by destruct (ig && _). Qed.

Lemma scan_all l : Forall (fun n => known n.2) l -> scan false ALL_MASK l = l.
Proof. destruct 1 as [|[b e] l He _]; [done|]. cbn [scan]. by rewrite stops_all. Qed.

(** The list from the first match on *)
Fixpoint from_match (nm : option cstring) (ty tm : Z) l : list entry :=
  match l with
  | [] => []
  | (b, e) :: l' => if matches nm ty tm e then l else from_match nm ty tm l'
  end.

Lemma matches_plain nm ty tm x : matches nm ty tm (plain x) = matches nm ty tm x.
Proof. done. Qed.

Lemma find_timed_loop_ok s nm ty tm l : Forall (fun n => known n.2) l -> forall n a,
  (length l < n)%nat -> lseg (cells s) a l ->
  find_timed_loop n a nm ty tm s = Some (hd_addr (from_match nm ty tm l), s).
Proof.
  induction 1 as [|[b e] l He Hk IH]; intros [|n] a Hn Hl; cbn in Hn; try lia; cbn [find_timed_loop].
  { cbn in Hl. by rewrite Hl. }
  pose proof (find_next_ok s a ((b, e) :: l) false ALL_MASK Hl) as Hnext. cbn [tail] in Hnext.
  rewrite scan_all in Hnext by done.
  destruct Hl as (-> & Hb & x & Hx & <- & Hl). rewrite cell_not_null by done.
  mstep (load_cell b x s Hx). cbn [from_match]. rewrite matches_plain. destruct (matches nm ty tm x); [done|].
  mstep Hnext. apply IH; [lia|]. rewrite <-(lseg_hd _ _ _ Hl). done.
Qed.

Lemma find_timed_ok s a l nm ty tm : Forall (fun n => known n.2) l -> lseg (cells s) a l ->
  find_timed_event a nm ty tm s = Some (hd_addr (from_match nm ty tm l), s).
Proof.
  intros Hk Hl. apply (fueled_list _ s a l); [done|]. intros n Hn. by apply find_timed_loop_ok.
Qed.

Lemma from_match_suffix nm ty tm l : exists l1, l = l1 ++ from_match nm ty tm l /\
  Forall (fun n => matches nm ty tm n.2 = false) l1.
Proof.
  induction l as [|[b e] l (l1 & Hl & Hf)]; [by exists []|]. cbn [from_match].
  destruct (matches nm ty tm e) eqn:E; [by exists []|].
  exists ((b, e) :: l1). split; [cbn; by f_equal|by constructor].
Qed.

(** ** Adding an event *)

(** Where an event is put: before the later ones, an end before all of its time *)
Definition goes_before x y : bool :=
  (ev_time y >? ev_time x) || ((ev_time y =? ev_time x) && (ev_type x =? TIMED_END_EVENT)).

Fixpoint ins (n : entry) l : list entry :=
  match l with
  | [] => [n]
  | k :: l' => if goes_before n.2 k.2 then n :: l else k :: ins n l'
  end.

Lemma ins_split n l : exists l1 l2, l = l1 ++ l2 /\ ins n l = l1 ++ n :: l2 /\
  Forall (fun k => goes_before n.2 k.2 = false) l1 /\
  match l2 with [] => True | k :: _ => goes_before n.2 k.2 = true end.
Proof.
  induction l as [|k l (l1 & l2 & Hl & Hi & Hf & Hb)]; [by exists [], []|]. cbn [ins].
  destruct (goes_before n.2 k.2) eqn:E.
  - exists [], (k :: l). done.
  - exists (k :: l1), l2. rewrite Hl at 1. rewrite Hi. split_and!; [done|done|by constructor|done].
Qed.

(** The address of the last entry, [c] for the empty list *)
Fixpoint last_addr c l : Z := match l with [] => c | (b, _) :: l' => last_addr b l' end.

Lemma last_addr_app c l1 b e : last_addr c (l1 ++ [(b, e)]) = b.
Proof. revert c. induction l1 as [|[k y] l1 IH]; intros c; [done|]. apply IH. Qed.

Lemma add_loop_ok s x l1 l2 : Forall (fun k => goes_before x k.2 = false) l1 ->
  match l2 with [] => True | k :: _ => goes_before x k.2 = true end ->
  forall n a c, (length (l1 ++ l2) < n)%nat -> lseg (cells s) a (l1 ++ l2) ->
  add_timed_loop n x a c s = Some ((hd_addr l2, last_addr c l1), s).
Proof.
  intros H1 H2. induction H1 as [|[b e] l1 He H1 IH]; intros [|n] a c Hn Hl; cbn in Hn; try lia;
    cbn [add_timed_loop app] in *.
  - destruct l2 as [|[b e] l2]; [cbn in Hl; by rewrite Hl|].
    destruct Hl as (-> & Hb & y & Hy & <- & Hl). rewrite cell_not_null by done. mstep (load_cell b y s Hy).
    unfold goes_before in H2. cbn in H2 |- *. destruct (ev_time y >? ev_time x); [done|].
    cbn in H2. by rewrite H2.
  - destruct Hl as (-> & Hb & y & Hy & <- & Hl). rewrite cell_not_null by done. mstep (load_cell b y s Hy).
    unfold goes_before in He. cbn in He |- *. apply orb_false_iff in He as [-> ->].
    apply IH; [lia|done].
Qed.

(** A list after its end is made to point elsewhere *)
Lemma lseg_link m l1 c y a2 l2 a l0 :
  lseg m a (l1 ++ (c, plain y) :: l0) -> m !! c = Some y ->
  (forall b, b ∈ (l1 ++ [(c, plain y)]).*1 -> ~ b ∈ l2.*1) ->
  lseg m a2 l2 -> lseg (<[c := set_next a2 y]> m) a (l1 ++ (c, plain y) :: l2).
Proof.
  revert a. induction l1 as [|[b e] l1 IH]; intros a Hl Hc Hd H2; pose proof (lseg_NoDup _ _ _ Hl) as Hnd;
    cbn [app lseg] in *.
  - destruct Hl as (-> & Hb & _). split_and!; [done|done|]. exists (set_next a2 y).
    rewrite lookup_insert_eq, plain_next. split_and!; [done|done|].
    apply lseg_frame with m; [|done]. intros b' Hb'. apply lookup_insert_ne. intros <-.
    apply (Hd c); [by left|done].
  - destruct Hl as (-> & Hb & x & Hx & <- & Hl).
    assert (c <> b) as Hne.
    { intros ->. cbn in Hnd. rewrite fmap_app in Hnd. apply NoDup_cons in Hnd as [Hnd _].
      apply Hnd, elem_of_app. right. by left. }
    split_and!; [done|done|]. exists x. rewrite lookup_insert_ne by done.
    split_and!; [done|done|]. apply IH; [done|done| |done].
    intros b' Hb'. apply Hd. by right.
Qed.

(** The links back are no part of a list. *)
Lemma lseg_prev m b x c l : m !! b = Some x -> forall a, lseg m a l -> lseg (<[b := set_prev c x]> m) a l.
Proof.
  intros Hb. induction l as [|[k e] l IH]; intros a; [done|]. cbn [lseg].
  intros (-> & Hk & y & Hy & <- & Hl). split_and!; [done|done|].
  destruct (decide (b = k)) as [->|Hne].
  - rewrite Hb in Hy. injection Hy as ->. exists (set_prev c y). rewrite lookup_insert_eq.
    split_and!; [done|done|]. by apply IH.
  - exists y. rewrite lookup_insert_ne by done. split_and!; [done|done|]. by apply IH.
Qed.

(** An entry in front of a list it is not in *)
Lemma lseg_front m te x a l : te <> NULL -> ~ te ∈ l.*1 -> lseg m a l ->
  lseg (<[te := set_next a x]> m) te ((te, plain x) :: l).
Proof.
  intros Hte Hin Hl. cbn. split_and!; [done|done|]. exists (set_next a x). rewrite lookup_insert_eq.
  split_and!; [done|done|]. apply lseg_frame with m; [|done]. intros b Hb. apply lookup_insert_ne. congruence.
Qed.

Lemma lseg_insert_out m te x a l : ~ te ∈ l.*1 -> lseg m a l -> lseg (<[te := x]> m) a l.
Proof. intros Hin Hl. apply lseg_frame with m; [|done]. intros b Hb. apply lookup_insert_ne. congruence. Qed.

Lemma cells_set m s : cells (set_cells m s) = m.
Proof. done. Qed.
Lemma set_cells_set m m' s : set_cells m (set_cells m' s) = set_cells m s.
Proof. done. Qed.

Section Added.
Context (s : sim) (a te : Z) (l : list entry) (x : event).
Context (Hl : lseg (cells s) a l) (Hx : cells s !! te = Some x) (Hte : te <> NULL)
  (Hn : ev_next x = NULL) (Hin : ~ te ∈ l.*1).

(** What adding the event does to the heap *)
Definition added (m' : gmap Z event) (l' : list entry) : Prop :=
  lseg m' (hd_addr l') l' /\ forall b, b <> te -> ~ b ∈ l.*1 -> m' !! b = cells s !! b.

Lemma added_front : a <> NULL ->
  let m' := <[te := set_prev NULL (set_next a x)]> (<[te := set_next a x]> (cells s)) in
  added m' ((te, plain x) :: l).
Proof.
  intros Ha m'. split.
  - apply lseg_prev; [apply lookup_insert_eq|]. cbn [hd_addr]. by apply lseg_front.
  - intros b Hb _. subst m'. by rewrite !lookup_insert_ne by done.
Qed.

Lemma added_after l1 l2 c y : l = l1 ++ (c, plain y) :: l2 -> cells s !! c = Some y ->
  let m1 := <[te := set_next (hd_addr l2) x]> (cells s) in
  let m2 := <[c := set_next te y]> m1 in
  added (<[te := set_prev c (set_next (hd_addr l2) x)]> m2) (l1 ++ (c, plain y) :: (te, plain x) :: l2) /\
  m1 !! c = Some y /\ m2 !! te = Some (set_next (hd_addr l2) x) /\
  hd_addr (l1 ++ (c, plain y) :: (te, plain x) :: l2) = a.
Proof.
  intros Hls Hc m1 m2. rewrite Hls in Hl, Hin. pose proof (lseg_NoDup _ _ _ Hl) as Hnd.
  assert (c <> te) as Hct by (intros ->; apply Hin; rewrite fmap_app; apply elem_of_app; right; by left).
  assert (hd_addr (l1 ++ (c, plain y) :: (te, plain x) :: l2) = a) as Ha.
  { rewrite (lseg_hd _ _ _ Hl). by destruct l1 as [|[] ?]. }
  assert (m1 !! c = Some y) as Hc1 by (subst m1; by rewrite lookup_insert_ne).
  assert (m2 !! te = Some (set_next (hd_addr l2) x)) as Hte2.
  { subst m2 m1. by rewrite lookup_insert_ne, lookup_insert_eq by done. }
  split_and!; [|done|done|done].
  assert (~ te ∈ l2.*1) as Hin2.
  { intros H. apply Hin. rewrite fmap_app. apply elem_of_app. right. by right. }
  split.
  - apply lseg_prev; [done|]. rewrite Ha. apply (lseg_link m1 l1 c y te _ a l2).
    + by apply lseg_insert_out.
    + done.
    + intros b Hb Hb'. rewrite fmap_app in Hnd, Hb. cbn in Hnd, Hb, Hb'.
      apply elem_of_cons in Hb' as [->|Hb'].
      * apply Hin. rewrite fmap_app. apply elem_of_app. apply elem_of_app in Hb as [Hb|Hb]; [by left|].
        apply list_elem_of_singleton in Hb. by destruct Hct.
      * apply NoDup_app in Hnd as (_ & Hd & Hnd). apply elem_of_app in Hb as [Hb|Hb].
        -- apply (Hd b Hb). by right.
        -- apply list_elem_of_singleton in Hb. subst b. by apply NoDup_cons in Hnd as [? _].
    + apply lseg_front; [done|done|]. by eapply (lseg_suffix _ _ (l1 ++ [(c, plain y)])); rewrite <-app_assoc.
  - intros b Hb Hbl. rewrite lookup_insert_ne by done. subst m2 m1.
    rewrite !lookup_insert_ne; [done|done|]. intros <-. apply Hbl. rewrite Hls, fmap_app.
    apply elem_of_app. right. by left.
Qed.

Lemma add_timed_ok : exists m', let l' := ins (te, plain x) l in
  add_timed_event a te s = Some (hd_addr l', set_cells m' s) /\ added m' l'.
Proof.
  unfold add_timed_event. rewrite cell_not_null by done.
  assert (a = NULL /\ l = [] \/ a <> NULL) as [[-> Hl0]|Ha].
  { clear Hin. destruct l as [|[b e] l0]; [by left|right]. by destruct Hl as (-> & ? & _). }
  { exists (cells s). rewrite Hl0. cbn [ins hd_addr]. split; [by destruct s|]. split; [|done].
    cbn. split_and!; [done|done|]. exists x. by rewrite Hn. }
  rewrite cell_not_null by done. mstep (load_cell te x s Hx).
  destruct (ins_split (te, plain x) l) as (l1 & l2 & Hsp & -> & H1 & H2). cbn [snd] in H1, H2.
  assert (fueled (fun n => add_timed_loop n x a NULL) s = Some ((hd_addr l2, last_addr NULL l1), s)) as Hloop.
  { apply (fueled_list _ s a l); [done|]. intros n Hlen. rewrite Hsp in Hl, Hlen.
    by apply add_loop_ok. }
  mstep Hloop. destruct l1 as [|[c e] l1 _] using rev_ind.
  - cbn [last_addr app] in *. subst l2. rewrite Z.eqb_refl. mstep (upd_cell te (set_next a) x s Hx).
    erewrite bind_eq by (apply upd_cell; cbn [cells set_cells]; apply lookup_insert_eq).
    eexists. split; [reflexivity|]. by apply added_front.
  - rewrite last_addr_app. rewrite <-app_assoc in *. cbn [app] in *.
    destruct (lseg_lookup _ _ _ c e Hl) as (Hc0 & y & Hy & <-).
    { rewrite Hsp. apply elem_of_app. right. by left. }
    destruct (added_after l1 l2 c y Hsp Hy) as (Hadd & Hc1 & Hte2 & Ha1).
    rewrite cell_not_null by done. mstep (upd_cell te (set_next (hd_addr l2)) x s Hx).
    erewrite bind_eq by (apply upd_cell; exact Hc1).
    erewrite bind_eq by (apply upd_cell; exact Hte2).
    eexists. split; [|exact Hadd]. by rewrite Ha1.
Qed.

End Added.

(** ** Deleting an event *)

Lemma delete_loop_ok s (e : Z) l1 l2 : ~ e ∈ l1.*1 -> match l2 with [] => True | k :: _ => k.1 = e end ->
  forall n a c, (length (l1 ++ l2) < n)%nat -> lseg (cells s) a (l1 ++ l2) ->
  delete_loop n e a c s = Some ((hd_addr l2, last_addr c l1), s).
Proof.
  intros He H2. induction l1 as [|[b y] l1 IH]; intros [|n] a c Hn Hl; cbn in Hn; try lia;
    cbn [delete_loop app] in *.
  - rewrite (lseg_hd _ _ _ Hl). destruct l2 as [|[b y] l2]; [by rewrite orb_true_r|].
    cbn in H2 |- *. by rewrite H2, Z.eqb_refl.
  - destruct Hl as (-> & Hb & x & Hx & <- & Hl).
    rewrite (proj2 (Z.eqb_neq b e)) by (intros ->; apply He; by left).
    rewrite cell_not_null by done. cbn [orb]. mstep (load_cell b x s Hx).
    apply IH; [intros H; apply He; by right|lia|done].
Qed.

(** The rest of a list without one of its entries *)
Lemma unlinked_front m b y a l2 : lseg m a ((b, y) :: l2) -> forall z, lseg (<[b := z]> m) (hd_addr l2) l2 /\
  lseg (delete b m) (hd_addr l2) l2.
Proof.
  intros Hl z. pose proof (lseg_NoDup _ _ _ Hl) as Hnd. apply NoDup_cons in Hnd as [Hnd _].
  pose proof (lseg_suffix m a [(b, y)] l2 Hl) as H2.
  split; (apply lseg_frame with m; [|done]); intros c Hc.
  - apply lookup_insert_ne. by intros <-.
  - apply lookup_delete_ne. by intros <-.
Qed.

Lemma unlinked_middle m a l1 c y b e l2 : lseg m a (l1 ++ (c, plain y) :: (b, e) :: l2) -> m !! c = Some y ->
  let m' := <[c := set_next (hd_addr l2) y]> m in
  lseg m' a (l1 ++ (c, plain y) :: l2) /\ lseg (delete b m') a (l1 ++ (c, plain y) :: l2).
Proof.
  intros Hl Hc m'. pose proof (lseg_NoDup _ _ _ Hl) as Hnd. rewrite fmap_app in Hnd. cbn in Hnd.
  apply NoDup_app in Hnd as (_ & Hd & Hnd). apply NoDup_cons in Hnd as [Hc2 Hnd].
  apply NoDup_cons in Hnd as [Hb2 _].
  assert (lseg m' a (l1 ++ (c, plain y) :: l2)) as Hm'.
  { subst m'. apply (lseg_link m l1 c y (hd_addr l2) l2 a ((b, e) :: l2)); [done|done| |].
    - intros k Hk Hk2. rewrite fmap_app in Hk. cbn in Hk. apply elem_of_app in Hk as [Hk|Hk].
      + apply (Hd k Hk). by do 2 right.
      + apply list_elem_of_singleton in Hk. subst k. apply Hc2. by right.
    - apply (lseg_suffix m a (l1 ++ [(c, plain y); (b, e)])). by rewrite <-app_assoc. }
  split; [done|]. apply lseg_frame with m'; [|done]. intros k Hk. apply lookup_delete_ne. intros <-.
  rewrite fmap_app in Hk. cbn in Hk. apply elem_of_app in Hk as [Hk|Hk].
  - apply (Hd _ Hk). right. by left.
  - apply elem_of_cons in Hk as [->|Hk]; [|done]. apply Hc2. by left.
Qed.

Lemma delete_absent s l (e : Z) (unlink : bool) : e <> NULL -> lseg (cells s) (events (calendar s)) l -> ~ e ∈ l.*1 ->
  delete_event e unlink s = Some (0, s).
Proof.
  intros He Hl Hin. unfold delete_event. rewrite cell_not_null by done. mstep (eq_refl (get s)).
  erewrite bind_eq; [|apply (fueled_list _ s (events (calendar s)) l _ Hl); intros n Hn;
    apply (delete_loop_ok s e l []); [done|done|by rewrite app_nil_r|by rewrite app_nil_r]].
  done.
Qed.

(** The event is taken out, and the event to be performed next is the one after it
    if it was that. *)
Lemma delete_ok s l1 b e l2 (unlink : bool) :
  lseg (cells s) (events (calendar s)) (l1 ++ (b, e) :: l2) ->
  exists m', delete_event b unlink s =
    Some (1, Sim m' (brk s) (EventList (eol (calendar s)) (hd_addr (l1 ++ l2))
      (if next_event (calendar s) =? b then hd_addr l2 else next_event (calendar s)))
      (server_time s) (sim_policy s) (actions s)) /\
    lseg m' (hd_addr (l1 ++ l2)) (l1 ++ l2) /\
    (forall c, ~ c ∈ (l1 ++ (b, e) :: l2).*1 -> m' !! c = cells s !! c) /\
    (unlink = false -> m' !! b = None).
Proof.
  intros Hl. pose proof (lseg_NoDup _ _ _ Hl) as Hnd. rewrite fmap_app in Hnd.
  apply NoDup_app in Hnd as (_ & Hd & _).
  destruct (lseg_lookup _ _ _ b e Hl) as (Hb & x & Hx & <-); [apply elem_of_app; right; by left|].
  pose proof (lseg_suffix _ _ _ _ Hl) as H2. pose proof H2 as (_ & _ & x' & Hx' & _ & Hn).
  rewrite Hx in Hx'. injection Hx' as <-. apply lseg_hd in Hn.
  unfold delete_event. rewrite cell_not_null by done. mstep (eq_refl (get s)).
  assert (~ b ∈ l1.*1) as Hb1 by (intros H; apply (Hd b H); by left).
  erewrite bind_eq; [|apply (fueled_list _ s (events (calendar s)) _ _ Hl); intros n Hlen;
    apply (delete_loop_ok s b l1 ((b, plain x) :: l2)); [done|done|lia|exact Hl]].
  cbn [hd_addr]. rewrite cell_not_null by done. cbn [negb]. mstep (load_cell b x s Hx). rewrite Hn.
  set (s1 := Sim (cells s) (brk s) (EventList (eol (calendar s)) (events (calendar s))
    (if next_event (calendar s) =? b then hd_addr l2 else next_event (calendar s)))
    (server_time s) (sim_policy s) (actions s)).
  assert ((if next_event (calendar s) =? b then set_next_event (hd_addr l2) else ret tt) s = Some (tt, s1)) as H1.
  { subst s1. destruct (_ =? b); [done|]. by destruct s as [? ? []]. }
  mstep H1. destruct l1 as [|[c z] l1 _] using rev_ind.
  - cbn [last_addr app]. rewrite Z.eqb_refl. msimp.
    exists (if unlink then cells s else delete b (cells s)).
    destruct (unlinked_front _ _ _ _ _ Hl x) as [_ Hdel]. split_and!.
    + destruct unlink; [done|]. unfold set_events, modify, bind, free. cbn. by rewrite Hx.
    + destruct unlink; [|done]. by apply (lseg_suffix (cells s) (events (calendar s)) [(b, plain x)] l2).
    + intros c Hc. destruct unlink; [done|]. apply lookup_delete_ne. intros <-. apply Hc. by left.
    + intros ->. apply lookup_delete_eq.
  - rewrite last_addr_app. rewrite <-app_assoc in *. cbn [app] in *.
    destruct (lseg_lookup _ _ _ c z Hl) as (Hc0 & y & Hy & <-); [apply elem_of_app; right; by left|].
    rewrite cell_not_null by done. mstep (upd_cell c (set_next (hd_addr l2)) y s1 Hy).
    destruct (unlinked_middle _ _ _ _ _ _ _ _ Hl Hy) as [Hkeep Hdel].
    assert (b <> c) as Hbc by (intros ->; apply (Hd c); [rewrite fmap_app; apply elem_of_app; right; by left|by left]).
    assert (hd_addr (l1 ++ (c, plain y) :: l2) = events (calendar s)) as Ha.
    { rewrite (lseg_hd _ _ _ Hl). by destruct l1 as [|[] ?]. }
    exists (if unlink then <[c := set_next (hd_addr l2) y]> (cells s)
            else delete b (<[c := set_next (hd_addr l2) y]> (cells s))). rewrite Ha. split_and!.
    + destruct unlink; [done|]. unfold bind, free. cbn. rewrite lookup_insert_ne by done. by rewrite Hx.
    + by destruct unlink.
    + intros k Hk. rewrite fmap_app in Hk. cbn in Hk.
      assert (k <> c /\ k <> b) as [Hkc Hkb].
      { split; intros ->; apply Hk; apply elem_of_app; [left|right; by left].
        rewrite fmap_app. apply elem_of_app. right. by left. }
      destruct unlink; rewrite ?lookup_delete_ne, lookup_insert_ne by done; done.
    + intros ->. apply lookup_delete_eq.
Qed.

End EventHeap.
