(* ===== verification/EventCal.v ===== *)
(** * What a calendar is

    Module [EventCal]: a calendar is the list of the events before the next one and
    of those from it on, in the order of their times, an end before the other
    events of its time.  What is enabled before the next event is in the past and
    what is enabled from it on is not; among the latter is one event of the policy
    at most, at the end of the status of prime time.  [add_event], [delete_event]
    and [next_event] keep it, and do to the events that are still to be performed
    what they are for. *)

From Stdlib Require Import ZArith Lia Ascii String.
From stdpp Require Import gmap sorting.
From S2P Require Import Prelude SchedData TimeData PrimeTime DedTime EventList EventSim EventHeap.
Import Data Conf Events EventSim EventHeap.

Module EventCal.

Implicit Types (m : gmap Z event) (x y e : event) (a b te : Z) (s : sim) (n k : entry) (l : list entry) (p : status).

(** ** Order *)

Definition before_ev n k : Prop :=
  ev_time n.2 < ev_time k.2 \/
  ev_time n.2 = ev_time k.2 /\ (ev_type k.2 = TIMED_END_EVENT -> ev_type n.2 = TIMED_END_EVENT).

#[export] Instance before_ev_trans : Transitive before_ev.
Proof. unfold before_ev. intros n1 n2 n3 H1 H2. intuition lia. Qed.

Abbreviation in_order := (StronglySorted before_ev).

Lemma goes_before_order n k : before_ev n k \/ goes_before n.2 k.2 = false.
Proof.
  unfold before_ev, goes_before. rewrite orb_false_iff, andb_false_iff, Z.gtb_ltb, Z.ltb_ge, !Z.eqb_neq. lia.
Qed.

Lemma goes_before_false n k : goes_before n.2 k.2 = false -> before_ev k n.
Proof.
  unfold before_ev, goes_before. rewrite orb_false_iff, andb_false_iff, Z.gtb_ltb, Z.ltb_ge, !Z.eqb_neq. lia.
Qed.

Lemma goes_before_true n k : goes_before n.2 k.2 = true -> before_ev n k.
Proof. intros H. destruct (goes_before_order n k) as [|H']; [done|congruence]. Qed.

Lemma in_order_app l1 l2 : in_order (l1 ++ l2) <->
  in_order l1 /\ in_order l2 /\ forall n k, n ∈ l1 -> k ∈ l2 -> before_ev n k.
Proof.
  induction l1 as [|n l1 IH]; cbn [app].
  - split; [intros H; split_and!; [constructor|done|by intros ? ? ?%elem_of_nil]|by intros (_ & ? & _)].
  - split.
    + intros H. apply StronglySorted_inv in H as [H Hn]. apply IH in H as (H1 & H2 & Hx).
      rewrite Forall_app in Hn. destruct Hn as [Hn1 Hn2]. split_and!; [by constructor|done|].
      intros n' k Hn' Hk. apply elem_of_cons in Hn' as [->|Hn']; [|by apply Hx].
      rewrite Forall_forall in Hn2. by apply Hn2.
    + intros (H1 & H2 & Hx). apply StronglySorted_inv in H1 as [H1 Hn]. constructor.
      * apply IH. split_and!; [done|done|]. intros n' k Hn' Hk. apply Hx; [by right|done].
      * apply Forall_app. split; [done|]. apply Forall_forall. intros k Hk. apply Hx; [by left|done].
Qed.

Lemma ins_order n l : in_order l -> in_order (ins n l).
Proof.
  intros Hl. destruct (ins_split n l) as (l1 & l2 & -> & -> & H1 & H2).
  apply in_order_app in Hl as (Hl1 & Hl2 & Hx). rewrite Forall_forall in H1. apply in_order_app. split_and!.
  - done.
  - constructor; [done|]. destruct l2 as [|k l2]; [constructor|]. apply goes_before_true in H2.
    constructor; [done|]. apply StronglySorted_inv in Hl2 as [_ Hk].
    eapply Forall_impl; [exact Hk|]. intros k' Hk'. by trans k.
  - intros n' k Hn' Hk. apply elem_of_cons in Hk as [->|Hk]; [|by apply Hx].
    by apply goes_before_false, H1.
Qed.

Lemma ins_perm n l : ins n l ≡ₚ n :: l.
Proof. destruct (ins_split n l) as (l1 & l2 & -> & -> & _). by rewrite Permutation_middle. Qed.

(** The times of a list in order *)
Lemma order_hd_time n l k : in_order (n :: l) -> k ∈ n :: l -> ev_time n.2 <= ev_time k.2.
Proof.
  intros H Hk. apply StronglySorted_inv in H as [_ H]. apply elem_of_cons in Hk as [->|Hk]; [lia|].
  rewrite Forall_forall in H. destruct (H k Hk) as [|[? _]]; lia.
Qed.

(** ** Events *)

(** The events the scheduler makes *)
Definition typed e : bool :=
  match ev_ptr e, ev_func e with
  | Some (PResv _), None => (ev_type e =? TIMED_RUN_EVENT) || (ev_type e =? TIMED_END_EVENT)
  | Some PPolicy, Some F_dedtime_change =>
      (ev_type e =? TIMED_DED_START_EVENT) || (ev_type e =? TIMED_DED_END_EVENT)
  | Some PPolicy, Some F_init_prime_time => ev_type e =? TIMED_POLICY_EVENT
  | Some PPolicy, Some F_init_non_prime_time => ev_type e =? TIMED_POLICY_EVENT
  | Some (PNode _), Some F_node_up_event => ev_type e =? TIMED_NODE_UP_EVENT
  | _, _ => false
  end.

Lemma typed_known e : typed e = true -> known e.
Proof.
  unfold typed, known. intros H. repeat case_match; try done;
    rewrite ?orb_true_iff, ?Z.eqb_eq in H; destruct_or?; rewrite H; reflexivity.
Qed.

Lemma Forall_known l : Forall (fun n => typed n.2 = true) l -> Forall (fun n => known n.2) l.
Proof. intros H. eapply Forall_impl; [exact H|]. intros n. apply typed_known. Qed.

(** The events of a list that are enabled *)
Definition todo l : list event := filter (fun e => ev_disabled e = false) l.*2.

#[global] Arguments todo : simpl never.

Lemma todo_app l1 l2 : todo (l1 ++ l2) = todo l1 ++ todo l2.
Proof. unfold todo. by rewrite fmap_app, filter_app. Qed.

Lemma todo_cons n l : todo (n :: l) = (if ev_disabled n.2 then [] else [n.2]) ++ todo l.
Proof.
  unfold todo. rewrite fmap_cons, filter_cons. by destruct (ev_disabled n.2).
Qed.

Lemma todo_nil l : Forall (fun n => ev_disabled n.2 = true) l -> todo l = [].
Proof. induction 1 as [|n l Hn _ IH]; [done|]. by rewrite todo_cons, Hn, IH. Qed.

Lemma elem_of_todo e l : e ∈ todo l <-> ev_disabled e = false /\ exists b, (b, e) ∈ l.
Proof.
  unfold todo. rewrite list_elem_of_filter, list_elem_of_fmap. split.
  - intros (Hd & [b y] & -> & H). eauto.
  - intros (Hd & b & H). split; [done|]. by exists (b, e).
Qed.

(** What a scan passes over is not to be done. *)
Lemma todo_scan l : Forall (fun n => typed n.2 = true) l -> todo (scan true ALL_MASK l) = todo l.
Proof.
  intros Ht. induction Ht as [|[b e] l He Ht IH]; [done|]. cbn [scan].
  rewrite stops_all by by apply typed_known. rewrite todo_cons. cbn [snd].
  destruct (ev_disabled e) eqn:E; cbn [andb negb]; [done|]. by rewrite todo_cons; cbn [snd]; rewrite E.
Qed.

Lemma scan_enabled l b e l' : Forall (fun n => typed n.2 = true) l ->
  scan true ALL_MASK l = (b, e) :: l' -> ev_disabled e = false.
Proof.
  intros Ht H. pose proof (scan_stops _ _ _ _ _ _ H) as Hs.
  destruct (scan_suffix true ALL_MASK l) as (l1 & Hl & _). rewrite H in Hl.
  rewrite stops_all in Hs; [by destruct (ev_disabled e)|]. apply typed_known.
  rewrite Forall_forall in Ht. apply (Ht (b, e)). rewrite Hl. apply elem_of_app. right. by left.
Qed.

(** ** Calendars *)

(** The event of the policy at the end of the status of prime time *)
Definition policy_event p : event :=
  Event false (default (lit "policy change") (policy_change_to_str
      (Some (if is_prime p then F_init_non_prime_time else F_init_prime_time))))
    TIMED_POLICY_EVENT (prime_status_end p) (Some PPolicy)
    (Some (if is_prime p then F_init_non_prime_time else F_init_prime_time)) None NULL NULL.

Definition of_policy (es : list event) : list event := filter (fun e => ev_type e = TIMED_POLICY_EVENT) es.
(** The events of jobs, reservations, nodes and dedicated time *)
Definition proper (es : list event) : list event := filter (fun e => ev_type e <> TIMED_POLICY_EVENT) es.

#[global] Arguments of_policy : simpl never.
#[global] Arguments proper : simpl never.

Lemma proper_app es1 es2 : proper (es1 ++ es2) = proper es1 ++ proper es2.
Proof. apply filter_app. Qed.
Lemma of_policy_app es1 es2 : of_policy (es1 ++ es2) = of_policy es1 ++ of_policy es2.
Proof. apply filter_app. Qed.

Definition fresh s : Prop := NULL < brk s /\ forall b, brk s <= b -> cells s !! b = None.

Record cal_ok s (past ahead : list entry) : Prop := {
  cal_list : lseg (cells s) (events (calendar s)) (past ++ ahead);
  cal_next : Events.next_event (calendar s) = hd_addr ahead;
  cal_fresh : fresh s;
  cal_time : 0 <= server_time s;
  cal_order : in_order (past ++ ahead);
  cal_typed : Forall (fun n => typed n.2 = true) (past ++ ahead);
  cal_past : forall e, e ∈ todo past -> ev_time e <= server_time s;
  cal_ahead : forall e, e ∈ todo ahead -> server_time s <= ev_time e;
  cal_eol : eol (calendar s) = true -> proper (todo ahead) = [];
  cal_policy : of_policy (todo ahead) = [] \/
    of_policy (todo ahead) = [policy_event (sim_policy s)] /\
    prime_status_end (sim_policy s) <> SCHD_INFINITY;
  cal_status_end : prime_status_end (sim_policy s) = SCHD_INFINITY \/
    server_time s <= prime_status_end (sim_policy s) }.

Lemma fresh_not_in s a l : fresh s -> lseg (cells s) a l -> ~ brk s ∈ l.*1.
Proof.
  intros [_ Hf] Hl Hin. apply list_elem_of_fmap in Hin as ([b e] & Hb & Hin). cbn in Hb. subst b.
  destruct (lseg_lookup _ _ _ _ _ Hl Hin) as (_ & x & Hx & _). by rewrite Hf in Hx by lia.
Qed.

(** ** Adding an event *)

(** The next event after an event is added to the calendar [past ++ ahead] *)
Definition next_after (now : Z) (past ahead : list entry) n : Z :=
  match ahead with
  | [] => match past with
          | [] => n.1
          | _ => if ev_time n.2 >=? now then n.1 else NULL
          end
  | k :: _ =>
      if ev_time n.2 >? now then
        if ev_time n.2 <? ev_time k.2 then n.1
        else if ev_time n.2 =? ev_time k.2 then
          hd_addr (from_match None TIMED_NOEVENT (ev_time n.2) (ins n (past ++ ahead)))
        else k.1
      else k.1
  end.

Definition with_event s m' l' (nx : Z) : sim :=
  Sim m' (brk s) (EventList (eol (calendar s) && (nx =? NULL)) (hd_addr l') nx)
    (server_time s) (sim_policy s) (actions s).

Lemma added_lookup s te l x m' l' b y : added s te l m' l' -> lseg (cells s) (events (calendar s)) l ->
  (b, y) ∈ l' -> exists z, m' !! b = Some z /\ plain z = y.
Proof. intros [Hl _] _ Hin. by destruct (lseg_lookup _ _ _ _ _ Hl Hin) as (_ & z & ? & ?); eauto. Qed.

Lemma add_event_ok s past ahead te x :
  lseg (cells s) (events (calendar s)) (past ++ ahead) -> Events.next_event (calendar s) = hd_addr ahead ->
  Forall (fun n => typed n.2 = true) (past ++ ahead) -> typed x = true ->
  cells s !! te = Some x -> te <> NULL -> ev_next x = NULL -> ~ te ∈ (past ++ ahead).*1 ->
  exists m', let l' := ins (te, plain x) (past ++ ahead) in
    add_event te s =
      Some (1, with_event s m' l' (next_after (server_time s) past ahead (te, plain x))) /\
    added s te (past ++ ahead) m' l'.
Proof.
  intros Hl Hnext Hty Htx Hx Hte Hn Hin.
  destruct (add_timed_ok s (events (calendar s)) te (past ++ ahead) x Hl Hx Hte Hn Hin) as (m' & Hadd & Hadded).
  exists m'. split; [|done]. set (l' := ins (te, plain x) (past ++ ahead)) in *.
  unfold add_event. rewrite cell_not_null by done. mstep (eq_refl (get s)). mstep Hadd.
  set (s1 := set_calendar (EventList (eol (calendar s)) (hd_addr l') (hd_addr ahead)) (set_cells m' s)).
  assert (set_events (hd_addr l') (set_cells m' s) = Some (tt, s1)) as Hev.
  { unfold set_events, modify. cbn. by rewrite Hnext. }
  mstep Hev. destruct Hadded as [Hl' _].
  assert ((te, plain x) ∈ l') as Hinl' by (subst l'; rewrite ins_perm; by left).
  destruct (lseg_lookup _ _ _ _ _ Hl' Hinl') as (_ & z & Hz & Hpz).
  assert (ev_time z = ev_time x) as Htz by (change (ev_time z) with (ev_time (plain z)); by rewrite Hpz).
  mstep (load_cell te z s1 Hz). rewrite Htz, Hnext.
  assert (forall nx, (let* s0 := get in
    let* _ := if eol (calendar s0) && negb (Events.next_event (calendar s0) =? NULL) then set_eol false else ret tt in
    ret 1) (set_calendar (EventList (eol (calendar s)) (hd_addr l') nx) s1) =
    Some (1, with_event s m' l' nx)) as Hend.
  { intros nx. unfold get, bind, with_event. cbn. by destruct (eol (calendar s)), (nx =? NULL). }
  destruct ahead as [|[b y] ahead'].
  - cbn [hd_addr] in *. rewrite Z.eqb_refl. cbn [negb]. destruct past as [|[c e] past'].
    + rewrite app_nil_l in Hl. rewrite (lseg_hd _ _ _ Hl). cbn [hd_addr]. rewrite Z.eqb_refl.
      erewrite bind_eq by reflexivity. apply (Hend te).
    + assert (events (calendar s) <> NULL) as Hne by by destruct Hl as (-> & ? & _).
      rewrite cell_not_null by done. cbn [next_after snd fst]. change (ev_time (plain x)) with (ev_time x).
      destruct (ev_time x >=? server_time s); erewrite bind_eq by reflexivity; apply Hend.
  - assert ((b, y) ∈ l') as Hinb.
    { subst l'. rewrite ins_perm. right. apply elem_of_app. right. by left. }
    destruct (lseg_lookup _ _ _ _ _ Hl' Hinb) as (Hb & w & Hw & <-). cbn [hd_addr] in *.
    assert (events (calendar s) <> NULL) as Hne.
    { destruct past as [|[c e] past']; by destruct Hl as (-> & ? & _). }
    rewrite !cell_not_null by done. cbn [negb next_after snd fst]. change (ev_time (plain x)) with (ev_time x).
    change (ev_time (plain w)) with (ev_time w).
    destruct (ev_time x >? server_time s); [|erewrite bind_eq by reflexivity; apply Hend].
    rewrite bind_bind. mstep (load_cell b w s1 Hw).
    destruct (ev_time x <? ev_time w); [erewrite bind_eq by reflexivity; apply Hend|].
    destruct (ev_time x =? ev_time w); [|erewrite bind_eq by reflexivity; apply Hend].
    rewrite bind_bind. erewrite bind_eq; [|apply (find_timed_ok s1 (hd_addr l') l'); [|done]].
    + erewrite bind_eq by reflexivity. apply Hend.
    + apply Forall_known. subst l'. rewrite ins_perm. by constructor.
Qed.

(** ** Events that are added to what is to be done *)

Fixpoint insert_event x (es : list event) : list event :=
  match es with
  | [] => [x]
  | y :: es' => if goes_before x y then x :: es else y :: insert_event x es'
  end.

Lemma insert_event_perm x es : insert_event x es ≡ₚ x :: es.
Proof.
  induction es as [|y es IH]; [done|]. cbn. destruct (goes_before x y); [done|].
  rewrite IH. constructor.
Qed.

Lemma goes_before_mono n k k' : goes_before n.2 k.2 = true -> before_ev k k' -> goes_before n.2 k'.2 = true.
Proof.
  unfold before_ev, goes_before. rewrite !orb_true_iff, !andb_true_iff, !Z.gtb_ltb, !Z.ltb_lt, !Z.eqb_eq. lia.
Qed.

Lemma insert_front x es : Forall (fun y => goes_before x y = true) es -> insert_event x es = x :: es.
Proof. by destruct 1 as [|y es Hy _]; cbn; rewrite ?Hy. Qed.

Lemma insert_after x es1 es2 : Forall (fun y => goes_before x y = false) es1 ->
  insert_event x (es1 ++ es2) = es1 ++ insert_event x es2.
Proof. induction 1 as [|y es Hy _ IH]; cbn; [done|]. by rewrite Hy, IH. Qed.

Lemma ins_after n l1 l2 : Forall (fun k => goes_before n.2 k.2 = false) l1 -> ins n (l1 ++ l2) = l1 ++ ins n l2.
Proof. induction 1 as [|k l Hk _ IH]; cbn; [done|]. by rewrite Hk, IH. Qed.

Lemma todo_ins n l : in_order l -> ev_disabled n.2 = false -> todo (ins n l) = insert_event n.2 (todo l).
Proof.
  intros Hl Hn. induction l as [|k l IH]; [by cbn [ins]; rewrite todo_cons, Hn|]. cbn [ins].
  pose proof Hl as Hl'. apply StronglySorted_inv in Hl' as [Hl' Hk].
  destruct (goes_before n.2 k.2) eqn:E.
  - rewrite todo_cons, Hn. symmetry. apply insert_front, Forall_forall. intros y Hy.
    apply elem_of_todo in Hy as (_ & b & Hy). apply elem_of_cons in Hy as [<-|Hy]; [done|].
    apply (goes_before_mono n k (b, y)); [done|]. rewrite Forall_forall in Hk. by apply Hk.
  - rewrite !todo_cons, IH by done. destruct (ev_disabled k.2); [done|]. cbn. by rewrite E.
Qed.

Lemma later_false x y : ev_time y < ev_time x -> goes_before x y = false.
Proof. unfold goes_before. rewrite orb_false_iff, andb_false_iff, Z.gtb_ltb, Z.ltb_ge, !Z.eqb_neq. lia. Qed.
Lemma earlier_true x y : ev_time x < ev_time y -> goes_before x y = true.
Proof. unfold goes_before. rewrite orb_true_iff, Z.gtb_ltb, Z.ltb_lt. lia. Qed.

(** Two ways to cut a list of events at a time are one. *)
Lemma cut_unique (t : Z) (p1 p2 f1 f2 : list event) : p1 ++ f1 = p2 ++ f2 ->
  Forall (fun e => ev_time e < t) p1 -> Forall (fun e => ev_time e < t) p2 ->
  Forall (fun e => t <= ev_time e) f1 -> Forall (fun e => t <= ev_time e) f2 -> p1 = p2 /\ f1 = f2.
Proof.
  intros Heq H1 H2 Hf1 Hf2. revert p2 H2 Heq.
  induction H1 as [|e p1 He H1 IH]; intros [|e' p2] H2 Heq; cbn in Heq.
  - done.
  - subst f1. apply Forall_inv in Hf1. apply Forall_inv in H2. lia.
  - subst f2. apply Forall_inv in Hf2. lia.
  - injection Heq as <- Heq. apply Forall_inv_tail in H2. by destruct (IH p2 H2 Heq) as [-> ->].
Qed.

Lemma proper_perm es1 es2 : es1 ≡ₚ es2 -> proper es1 ≡ₚ proper es2.
Proof. intros H. unfold proper. by rewrite H. Qed.

Lemma of_policy_insert x es : ev_type x <> TIMED_POLICY_EVENT -> of_policy (insert_event x es) = of_policy es.
Proof.
  intros Hx. unfold of_policy. induction es as [|y es IH]; cbn [insert_event].
  - by rewrite filter_cons_False.
  - destruct (goes_before x y); [by rewrite filter_cons_False|]. by rewrite !filter_cons, IH.
Qed.

Lemma cal_alloc s past ahead n : cal_ok s past ahead -> n ∈ past ++ ahead -> n.1 < brk s.
Proof.
  intros K Hn. destruct n as [c e]. destruct (lseg_lookup _ _ _ _ _ (cal_list _ _ _ K) Hn) as (_ & x & Hx & _).
  destruct (cal_fresh _ _ _ K) as [_ Hf]. cbn. destruct (Z.lt_ge_cases c (brk s)); [done|].
  by rewrite Hf in Hx.
Qed.

Lemma fresh_added s te l m' l' x (nx : Z) : fresh s -> cells s !! te = Some x ->
  lseg (cells s) (events (calendar s)) l -> added s te l m' l' -> fresh (with_event s m' l' nx).
Proof.
  intros [H0 Hf] Hx Hl [_ Hfr]. split; [done|]. cbn. intros b Hb. rewrite Hfr; [by apply Hf| |].
  - intros ->. by rewrite Hf in Hx.
  - intros Hin. apply list_elem_of_fmap in Hin as ([c e] & -> & Hin). cbn in Hb.
    destruct (lseg_lookup _ _ _ _ _ Hl Hin) as (_ & y & Hy & _). by rewrite Hf in Hy.
Qed.

Lemma cal_added s past ahead te x m' past' ahead' :
  cal_ok s past ahead -> cells s !! te = Some x -> typed x = true -> ev_type x <> TIMED_POLICY_EVENT ->
  server_time s <= ev_time x ->
  added s te (past ++ ahead) m' (past' ++ ahead') -> past' ++ ahead' = ins (te, plain x) (past ++ ahead) ->
  hd_addr ahead' <> NULL -> todo past' = todo past -> todo ahead' = insert_event (plain x) (todo ahead) ->
  cal_ok (with_event s m' (past' ++ ahead') (hd_addr ahead')) past' ahead'.
Proof.
  intros K Hx Hty Hpol Ht Hadd Hins Hne Hp Ha. split; cbn.
  - apply Hadd.
  - done.
  - by apply (fresh_added s te (past ++ ahead) m' _ x); [apply K|done|apply K|].
  - apply K.
  - rewrite Hins. apply ins_order, K.
  - rewrite Hins, ins_perm. constructor; [done|apply K].
  - rewrite Hp. apply K.
  - intros e. rewrite Ha, insert_event_perm, elem_of_cons. intros [->|He]; [done|]. by apply K.
  - by rewrite (cell_not_null _ Hne), andb_false_r.
  - rewrite Ha, of_policy_insert by done. apply K.
  - apply K.
Qed.

(** The past of a calendar in which an event of the future is put *)
Lemma split_past past ahead n l1 l2 : past ++ ahead = l1 ++ l2 ->
  Forall (fun k => goes_before n.2 k.2 = false) l1 ->
  (forall k, k ∈ ahead -> goes_before n.2 k.2 = true) -> exists q, past = l1 ++ q /\ l2 = q ++ ahead.
Proof.
  intros Heq H1 Ha. revert l1 H1 Heq. induction past as [|k past IH]; intros l1 H1 Heq.
  - destruct H1 as [|k l1 Hk _]; [by exists []|]. exfalso. cbn in Heq. subst ahead.
    rewrite Ha in Hk; [done|by left].
  - destruct H1 as [|k' l1 Hk H1]; [by exists (k :: past)|]. injection Heq as <- Heq.
    destruct (IH l1 H1 Heq) as (q & -> & ->). by exists q.
Qed.

Section AddFuture.
Context (s : sim) (past ahead : list entry) (te : Z) (x : event).
Context (K : cal_ok s past ahead) (Hdis : ev_disabled x = false) (Ht : server_time s < ev_time x).

Let l' := ins (te, plain x) (past ++ ahead).

Lemma past_order : in_order past /\ in_order ahead.
Proof. pose proof (cal_order _ _ _ K) as H. apply in_order_app in H. tauto. Qed.

Lemma todo_added : todo l' = todo past ++ insert_event (plain x) (todo ahead).
Proof.
  unfold l'. rewrite todo_ins by first [apply K|done]. rewrite todo_app. apply insert_after.
  apply Forall_forall. intros y Hy. apply later_false. cbn. pose proof (cal_past _ _ _ K y Hy). lia.
Qed.

Lemma ahead_times e : e ∈ insert_event (plain x) (todo ahead) -> (forall y, y ∈ todo ahead -> ev_time x <= ev_time y) ->
  ev_time x <= ev_time e.
Proof. rewrite insert_event_perm, elem_of_cons. intros [->|He] H; [done|by apply H]. Qed.

(** Cutting the new list at the time of the event *)
Lemma cut_at past' ahead' : l' = past' ++ ahead' ->
  (forall e, e ∈ todo past' -> ev_time e < ev_time x) -> (forall e, e ∈ todo ahead' -> ev_time x <= ev_time e) ->
  (forall y, y ∈ todo ahead -> ev_time x <= ev_time y) ->
  todo past' = todo past /\ todo ahead' = insert_event (plain x) (todo ahead).
Proof.
  intros Hl Hp Ha Hy. pose proof todo_added as H. rewrite Hl, todo_app in H.
  apply (cut_unique (ev_time x)); [done|by apply Forall_forall| |by apply Forall_forall|].
  - apply Forall_forall. intros e He. pose proof (cal_past _ _ _ K e He). lia.
  - apply Forall_forall. intros e He. by apply ahead_times.
Qed.

(** The event comes before all that are ahead. *)
Lemma add_first : (forall k, k ∈ ahead -> ev_time x < ev_time k.2) ->
  exists past' q, l' = past' ++ (te, plain x) :: q ++ ahead /\ past = past' ++ q /\
    todo past' = todo past /\ todo ((te, plain x) :: q ++ ahead) = insert_event (plain x) (todo ahead).
Proof.
  intros Ha. destruct (ins_split (te, plain x) (past ++ ahead)) as (l1 & l2 & Hl & Hins & H1 & H2).
  destruct (split_past past ahead (te, plain x) l1 l2 Hl H1) as (q & Hp & ->).
  { intros k Hk. apply earlier_true. by apply Ha. }
  exists l1, q. fold l' in Hins.
  assert (forall y, y ∈ todo ahead -> ev_time x < ev_time y) as Hy.
  { intros y Hy. apply elem_of_todo in Hy as (_ & b & Hy). by apply (Ha (b, y)). }
  pose proof (cal_past _ _ _ K) as Hpast.
  assert (forall e, e ∈ todo q -> False) as Hq.
  { intros e He. pose proof (cal_order _ _ _ K) as Ho. apply (ins_order (te, plain x)) in Ho.
    fold l' in Ho. rewrite Hins in Ho. apply in_order_app in Ho as (_ & Ho & _).
    pose proof (Hpast e) as Hpe. rewrite Hp, todo_app, elem_of_app in Hpe. specialize (Hpe (or_intror He)).
    apply elem_of_todo in He as (_ & b & He).
    assert (ev_time x <= ev_time e); [|lia].
    apply (order_hd_time (te, plain x) _ (b, e) Ho). right. apply elem_of_app. by left. }
  split; [done|]. split; [done|]. apply cut_at; [done| | |].
  - intros e He. assert (e ∈ todo past) as Hin by (rewrite Hp, todo_app; apply elem_of_app; by left).
    specialize (Hpast e Hin). lia.
  - intros e He. rewrite todo_cons, todo_app in He. cbn [snd] in He.
    change (ev_disabled (plain x)) with (ev_disabled x) in He. rewrite Hdis in He.
    apply elem_of_cons in He as [->|He]; [done|]. apply elem_of_app in He as [He|He]; [by destruct (Hq e)|].
    specialize (Hy e He). lia.
  - intros y Hin. specialize (Hy y Hin). lia.
Qed.

(** The event comes with others of its time. *)
Lemma add_with b y ahead0 : ahead = (b, y) :: ahead0 -> ev_time x = ev_time y ->
  exists past' ahead', l' = past' ++ ahead' /\ ahead' = from_match None TIMED_NOEVENT (ev_time x) l' /\
    ahead' <> [] /\ todo past' = todo past /\ todo ahead' = insert_event (plain x) (todo ahead).
Proof.
  intros Ha Hxy. pose proof (cal_time _ _ _ K) as H0.
  assert (forall e, matches None TIMED_NOEVENT (ev_time x) e = (ev_time x =? ev_time e)) as Hm.
  { intros e. unfold matches. rewrite (proj2 (Z.eqb_neq (ev_time x) 0)) by lia.
    by rewrite orb_false_r, orb_true_r. }
  destruct (from_match_suffix None TIMED_NOEVENT (ev_time x) l') as (p & Hp & Hf).
  pose proof (ins_order (te, plain x) _ (cal_order _ _ _ K)) as Ho. fold l' in Ho.
  destruct (from_match None TIMED_NOEVENT (ev_time x) l') as [|[c z] f] eqn:Ef.
  { exfalso. rewrite app_nil_r in Hp. rewrite Forall_forall in Hf.
    assert ((te, plain x) ∈ l') as Hin by (unfold l'; rewrite ins_perm; by left).
    rewrite Hp in Hin. specialize (Hf _ Hin). rewrite Hm in Hf. cbn in Hf. change (ev_time (plain x)) with (ev_time x) in Hf.
    by rewrite Z.eqb_refl in Hf. }
  assert (ev_time z = ev_time x) as Hz.
  { clear -Hm Ef. induction l' as [|[d w] l IH]; [done|]. cbn in Ef. rewrite Hm in Ef.
    destruct (Z.eqb_spec (ev_time x) (ev_time w)); [|by apply IH]. by injection Ef as _ <- _. }
  exists p, ((c, z) :: f). rewrite Hp in Ho. pose proof Ho as Ho'. apply in_order_app in Ho' as (_ & Hof & Hx).
  split; [done|]. split; [done|]. split; [done|]. apply cut_at; [done| | |].
  - intros e He. apply elem_of_todo in He as (_ & d & He). rewrite Forall_forall in Hf.
    pose proof (Hf _ He) as Hne. rewrite Hm in Hne. cbn in Hne. apply Z.eqb_neq in Hne.
    destruct (Hx (d, e) (c, z) He) as [Hlt|[Heq _]]; [by left|cbn in Hlt; lia|cbn in Heq; lia].
  - intros e He. apply elem_of_todo in He as (_ & d & He). rewrite <-Hz.
    exact (order_hd_time _ _ _ Hof He).
  - intros w Hw. apply elem_of_todo in Hw as (_ & d & Hw). rewrite Ha in Hw. rewrite Hxy.
    pose proof (proj2 past_order) as Hoa. rewrite Ha in Hoa. exact (order_hd_time _ _ _ Hoa Hw).
Qed.

(** The event comes after the next one. *)
Lemma add_later b y ahead0 : ahead = (b, y) :: ahead0 -> ev_time y < ev_time x ->
  l' = past ++ ins (te, plain x) ahead /\ hd_addr (ins (te, plain x) ahead) = b /\
  todo (ins (te, plain x) ahead) = insert_event (plain x) (todo ahead).
Proof.
  intros Ha Hxy. split_and!.
  - apply ins_after, Forall_forall. intros k Hk. apply later_false. cbn.
    pose proof (cal_order _ _ _ K) as Ho. apply in_order_app in Ho as (_ & _ & Ho).
    destruct (Ho k (b, y) Hk) as [Hlt|[Heq _]]; [rewrite Ha; by left|cbn in Hlt; lia|cbn in Heq; lia].
  - rewrite Ha. cbn [ins snd]. by rewrite later_false by done.
  - rewrite todo_ins; [done|apply past_order|done].
Qed.

End AddFuture.

(** The rest of the universe is as before. *)
Definition same_universe s s' : Prop :=
  server_time s' = server_time s /\ sim_policy s' = sim_policy s /\ actions s' = actions s.

(** The entries are those before and the new one, and the rest of the heap is kept. *)
Definition other_entries s te x past ahead s' past' ahead' : Prop :=
  past' ++ ahead' = ins (te, plain x) (past ++ ahead) /\ brk s' = brk s /\
  forall b, b <> te -> ~ b ∈ (past ++ ahead).*1 -> cells s' !! b = cells s !! b.

Lemma add_event_cal s past ahead te x : cal_ok s past ahead ->
  cells s !! te = Some x -> te <> NULL -> ev_next x = NULL -> ~ te ∈ (past ++ ahead).*1 ->
  typed x = true -> ev_disabled x = false -> ev_type x <> TIMED_POLICY_EVENT -> server_time s < ev_time x ->
  exists s' past' ahead', add_event te s = Some (1, s') /\ cal_ok s' past' ahead' /\
    todo past' = todo past /\ todo ahead' = insert_event (plain x) (todo ahead) /\ same_universe s s' /\
    other_entries s te x past ahead s' past' ahead'.
Proof.
  intros K Hx Hte Hn Hin Hty Hdis Hpol Ht.
  destruct (add_event_ok s past ahead te x) as (m' & Hadd & Hadded); try done; try apply K.
  assert (forall past' ahead', ins (te, plain x) (past ++ ahead) = past' ++ ahead' ->
    next_after (server_time s) past ahead (te, plain x) = hd_addr ahead' -> hd_addr ahead' <> NULL ->
    todo past' = todo past /\ todo ahead' = insert_event (plain x) (todo ahead) ->
    exists s' past' ahead', add_event te s = Some (1, s') /\ cal_ok s' past' ahead' /\
      todo past' = todo past /\ todo ahead' = insert_event (plain x) (todo ahead) /\ same_universe s s' /\
      other_entries s te x past ahead s' past' ahead')
    as Hdone.
  { intros past' ahead' Hl Hnx Hne [Hp Ha]. eexists _, past', ahead'. split; [exact Hadd|].
    cbv zeta in Hadded. rewrite Hl in Hadded |- *. rewrite Hnx.
    split; [apply (cal_added s past ahead te x); try done; lia|].
    do 5 (split; [done|]). apply Hadded. }
  assert (ahead = [] \/ exists b y ahead0, ahead = (b, y) :: ahead0) as [Ea|(b & y & ahead0 & Ea)]
    by (destruct ahead as [|[]]; eauto).
  - destruct (add_first s past ahead te x K Hdis Ht) as (past' & q & Hl & _ & Htodo);
      [by rewrite Ea; intros k ?%elem_of_nil|].
    apply (Hdone past' _ Hl); [|done|done]. unfold next_after. rewrite Ea. cbn [fst snd].
    change (ev_time (plain x)) with (ev_time x). destruct past; [done|].
    by rewrite Z.geb_leb, (proj2 (Z.leb_le _ _)) by lia.
  - assert (b <> NULL) as Hb.
    { apply (lseg_lookup _ _ _ b y (cal_list _ _ _ K)). rewrite Ea. apply elem_of_app. right. by left. }
    destruct (Z.lt_trichotomy (ev_time x) (ev_time y)) as [Hlt|[Heq|Hgt]].
    + destruct (add_first s past ahead te x K Hdis Ht) as (past' & q & Hl & _ & Htodo).
      { intros k Hk. rewrite Ea in Hk. pose proof (proj2 (past_order _ _ _ K)) as Ho. rewrite Ea in Ho.
        pose proof (order_hd_time _ _ _ Ho Hk). cbn in *. lia. }
      apply (Hdone past' _ Hl); [|done|done]. unfold next_after. rewrite Ea. cbn [fst snd].
      change (ev_time (plain x)) with (ev_time x).
      by rewrite Z.gtb_ltb, !(proj2 (Z.ltb_lt _ _)) by lia.
    + destruct (add_with s past ahead te x K Hdis Ht b y ahead0 Ea Heq)
        as (past' & ahead' & Hl & Hf & Hne & Htodo).
      assert (hd_addr ahead' <> NULL) as Hne'.
      { destruct ahead' as [|[c z] ahead']; [done|]. destruct Hadded as [Hl' _]. cbv zeta in Hl'. rewrite Hl in Hl'.
        apply (lseg_lookup _ _ _ c z Hl'). apply elem_of_app. right. by left. }
      apply (Hdone past' ahead' Hl); [|done|done]. rewrite Hf. unfold next_after. rewrite Ea. cbn [fst snd].
      change (ev_time (plain x)) with (ev_time x).
      by rewrite Z.gtb_ltb, (proj2 (Z.ltb_lt _ _)), (proj2 (Z.ltb_ge _ _)), (proj2 (Z.eqb_eq _ _)) by lia.
    + destruct (add_later s past ahead te x K Hdis b y ahead0 Ea Hgt) as (Hl & Hh & Ht').
      apply (Hdone past _ Hl); rewrite ?Hh; [|done|done]. unfold next_after. rewrite Ea. cbn [fst snd].
      change (ev_time (plain x)) with (ev_time x).
      by rewrite Z.gtb_ltb, (proj2 (Z.ltb_lt _ _)), (proj2 (Z.ltb_ge _ _)), (proj2 (Z.eqb_neq _ _)) by lia.
Qed.

(** An event that is not in the future, with another one next *)
Lemma add_past_event s past k ahead te x : cal_ok s past (k :: ahead) -> ev_disabled k.2 = false ->
  cells s !! te = Some x -> te <> NULL -> ev_next x = NULL -> ~ te ∈ (past ++ k :: ahead).*1 ->
  typed x = true -> ev_disabled x = false -> ev_type x <> TIMED_POLICY_EVENT -> ev_time x <= server_time s ->
  exists s' past' ahead', add_event te s = Some (1, s') /\ cal_ok s' past' ahead' /\ ahead' <> [] /\
    same_universe s s' /\ other_entries s te x past (k :: ahead) s' past' ahead'.
Proof.
  intros K Hk Hx Hte Hn Hin Hty Hdis Hpol Ht.
  destruct (add_event_ok s past (k :: ahead) te x) as (m' & Hadd & Hadded); try done; try apply K.
  set (n := (te, plain x)) in *. set (l' := ins n (past ++ k :: ahead)) in *.
  assert (next_after (server_time s) past (k :: ahead) n = k.1) as Hnx.
  { unfold next_after. by rewrite Z.gtb_ltb, (proj2 (Z.ltb_ge _ _)) by done. }
  assert (k.1 <> NULL) as Hk0.
  { apply (lseg_lookup _ _ _ k.1 k.2 (cal_list _ _ _ K)), elem_of_app. right. destruct k. by left. }
  assert (forall past' ahead', l' = past' ++ k :: ahead' ->
    (forall e, e ∈ todo past' -> ev_time e <= server_time s) ->
    (forall e, e ∈ todo (k :: ahead') -> server_time s <= ev_time e /\ (e = plain x \/ e ∈ todo (k :: ahead))) ->
    of_policy (todo (k :: ahead')) = of_policy (todo (k :: ahead)) ->
    exists s' past' ahead', add_event te s = Some (1, s') /\ cal_ok s' past' ahead' /\ ahead' <> [] /\
      same_universe s s' /\ other_entries s te x past (k :: ahead) s' past' ahead') as Hdone.
  { intros past' ahead' Hl Hp Ha Hpo. eexists _, past', (k :: ahead'). split; [exact Hadd|].
    cbv zeta in Hadded. rewrite Hnx, Hl. rewrite Hl in Hadded.
    split; [|do 4 (split; [done|]); apply Hadded].
    split; cbn [with_event cells brk calendar server_time sim_policy Events.next_event events eol].
    - apply Hadded.
    - by destruct k.
    - apply (fresh_added s te (past ++ k :: ahead) m' _ x); [apply K|done|apply K|done].
    - apply K.
    - rewrite <-Hl. apply ins_order, K.
    - rewrite <-Hl. unfold l'. rewrite ins_perm. constructor; [done|apply K].
    - done.
    - intros e He. by apply Ha.
    - by rewrite (cell_not_null _ Hk0), andb_false_r.
    - rewrite Hpo. apply K.
    - apply K. }
  pose proof (cal_order _ _ _ K) as Ho. destruct (goes_before n.2 k.2) eqn:Eg.
  - destruct (ins_split n (past ++ k :: ahead)) as (l1 & l2 & Hl & Hins & H1 & _).
    destruct (split_past past (k :: ahead) n l1 l2 Hl H1) as (q & Hp & ->).
    { intros k' Hk'. apply elem_of_cons in Hk' as [->|Hk']; [done|]. apply (goes_before_mono n k); [done|].
      apply in_order_app in Ho as (_ & Ho & _). apply StronglySorted_inv in Ho as [_ Ho].
      rewrite Forall_forall in Ho. by apply Ho. }
    apply (Hdone (l1 ++ n :: q) ahead); [by unfold l'; rewrite Hins, <-app_assoc| | |done].
    + intros e. rewrite todo_app, todo_cons. change (ev_disabled n.2) with (ev_disabled x). rewrite Hdis.
      rewrite !elem_of_app, list_elem_of_singleton. pose proof (cal_past _ _ _ K) as Hpast.
      rewrite Hp in Hpast. intros [He|[->|He]]; [|done|]; apply Hpast; rewrite todo_app; apply elem_of_app;
        [by left|by right].
    + intros e He. split; [by apply (cal_ahead _ _ _ K)|by right].
  - assert (l' = past ++ k :: ins n ahead) as Hl.
    { unfold l'. rewrite ins_after; [cbn [ins]; by rewrite Eg|]. apply Forall_forall. intros k' Hk'.
      destruct (goes_before n.2 k'.2) eqn:Eg'; [|done]. exfalso. apply in_order_app in Ho as (_ & _ & Ho).
      rewrite (goes_before_mono n k' k) in Eg; [done|done|]. apply Ho; [done|by left]. }
    assert (in_order (k :: ahead)) as Hoa by by apply in_order_app in Ho as (_ & ? & _).
    assert (todo (k :: ins n ahead) = insert_event (plain x) (todo (k :: ahead))) as Htd.
    { pose proof (todo_ins n (k :: ahead) Hoa Hdis) as H. cbn [ins] in H. by rewrite Eg in H. }
    apply (Hdone past (ins n ahead) Hl); [apply K| |].
    + intros e. rewrite Htd, insert_event_perm, elem_of_cons.
      assert (server_time s <= ev_time k.2) as Hk'.
      { apply (cal_ahead _ _ _ K). rewrite todo_cons, Hk. by left. }
      intros [->|He]; [|split; [by apply (cal_ahead _ _ _ K)|by right]]. split; [|by left].
      pose proof (goes_before_false n k Eg) as [?|[? _]]; cbn in *; lia.
    + by rewrite Htd, of_policy_insert.
Qed.

(** ** Deleting an event *)

Lemma todo_delete l1 n l2 : todo (l1 ++ n :: l2) ≡ₚ (if ev_disabled n.2 then [] else [n.2]) ++ todo (l1 ++ l2).
Proof. rewrite !todo_app, todo_cons. destruct (ev_disabled n.2); [done|]. apply Permutation_app_swap_app. Qed.

Lemma order_remove l1 n l2 : in_order (l1 ++ n :: l2) -> in_order (l1 ++ l2).
Proof.
  rewrite !in_order_app. intros (H1 & H2 & Hx). apply StronglySorted_inv in H2 as [H2 _].
  split_and!; [done|done|]. intros k k' Hk Hk'. apply Hx; [done|by right].
Qed.

Lemma Forall_remove {A : Type} (P : A -> Prop) (l1 l2 : list A) (n : A) :
  Forall P (l1 ++ n :: l2) -> Forall P (l1 ++ l2).
Proof. rewrite !Forall_app, Forall_cons. tauto. Qed.

(** The entries that are not at the address *)
Definition without b l : list entry := filter (fun n => n.1 <> b) l.

Lemma without_absent b l : ~ b ∈ l.*1 -> without b l = l.
Proof.
  intros H. unfold without. induction l as [|n l IH]; [done|]. rewrite filter_cons, decide_True, IH; [done| |].
  - intros Hb. apply H. by right.
  - intros <-. apply H. by left.
Qed.

Lemma without_split b e l1 l2 : NoDup (l1 ++ (b, e) :: l2).*1 -> without b (l1 ++ (b, e) :: l2) = l1 ++ l2.
Proof.
  rewrite fmap_app. cbn. intros Hnd. apply NoDup_app in Hnd as (_ & Hd & Hnd). apply NoDup_cons in Hnd as [H2 _].
  unfold without. rewrite filter_app, filter_cons, decide_False by (cbn; naive_solver).
  rewrite <-(without_absent b l1) at 2; [|intros H; apply (Hd b H); by left].
  rewrite <-(without_absent b l2) at 2; done.
Qed.

Lemma without_app b l1 l2 : without b (l1 ++ l2) = without b l1 ++ without b l2.
Proof. apply filter_app. Qed.

Lemma singleton_sub (x0 : event) (es1 es2 : list event) : es1 ++ es2 ≡ₚ [x0] -> es2 = [] \/ es2 = [x0].
Proof.
  intros H. symmetry in H. apply Permutation_singleton_l in H. destruct es1 as [|y es1]; [by right|].
  destruct es1, es2; cbn in H; try discriminate; by left.
Qed.

Lemma todo_without b l : exists es, todo l ≡ₚ es ++ todo (without b l).
Proof.
  unfold without. induction l as [|n l (es & IH)]; [by exists []|]. rewrite filter_cons. case_decide.
  - exists es. rewrite !todo_cons, IH. apply Permutation_app_swap_app.
  - exists ((if ev_disabled n.2 then [] else [n.2]) ++ es). by rewrite todo_cons, IH, app_assoc.
Qed.

Lemma todo_without_in b l e : e ∈ todo (without b l) -> e ∈ todo l.
Proof. destruct (todo_without b l) as (es & ->). rewrite elem_of_app. by right. Qed.

Lemma hd_without b l1 l2 : NoDup (l1 ++ l2).*1 -> b <> NULL -> forall e q1 q2, l1 ++ l2 = q1 ++ (b, e) :: q2 ->
  (if hd_addr l2 =? b then hd_addr q2 else hd_addr l2) = hd_addr (without b l2).
Proof.
  intros Hnd Hb e q1 q2 Heq. pose proof Hnd as Hnd'. rewrite fmap_app in Hnd'.
  destruct l2 as [|[c y] l2]; cbn [hd_addr].
  { by rewrite (proj2 (Z.eqb_neq NULL b)) by done. }
  destruct (Z.eqb_spec c b) as [->|Hne].
  - assert (q1 = l1 /\ q2 = l2) as [-> ->].
    { rewrite Heq in Hnd. revert q1 Heq Hnd. clear Hnd'. induction l1 as [|[d z] l1 IH]; intros [|[d' z'] q1] Heq Hnd; cbn in Heq.
      - by injection Heq as _ <-.
      - injection Heq as <- _ ->. cbn in Hnd. apply NoDup_cons in Hnd as [Hnd _]. exfalso. apply Hnd.
        rewrite fmap_app. apply elem_of_app. right. by left.
      - injection Heq as -> _ <-. cbn in Hnd. apply NoDup_cons in Hnd as [Hnd _]. exfalso. apply Hnd.
        rewrite fmap_app. apply elem_of_app. right. by left.
      - injection Heq as -> -> Heq. cbn in Hnd. apply NoDup_cons in Hnd as [_ Hnd].
        by destruct (IH q1 Heq Hnd) as [-> ->]. }
    unfold without. rewrite filter_cons, decide_False by (cbn; naive_solver).
    fold (without b l2). rewrite without_absent; [done|].
    apply NoDup_app in Hnd' as (_ & _ & Hnd'). by apply NoDup_cons in Hnd' as [? _].
  - unfold without. by rewrite filter_cons, decide_True by done.
Qed.

Lemma fresh_kept s m' l (c : event_list) t p acts : fresh s -> lseg (cells s) (events (calendar s)) l ->
  (forall b, ~ b ∈ l.*1 -> m' !! b = cells s !! b) -> fresh (Sim m' (brk s) c t p acts).
Proof.
  intros [H0 Hf] Hl Hfr. split; [done|]. cbn. intros b Hb. rewrite Hfr; [by apply Hf|].
  intros Hin. apply list_elem_of_fmap in Hin as ([k e] & -> & Hin). cbn in Hb.
  destruct (lseg_lookup _ _ _ _ _ Hl Hin) as (_ & y & Hy & _). by rewrite Hf in Hy.
Qed.

Lemma delete_event_cal s past ahead b (unlink : bool) : cal_ok s past ahead -> b ∈ (past ++ ahead).*1 ->
  exists s', delete_event b unlink s = Some (1, s') /\ cal_ok s' (without b past) (without b ahead) /\
    same_universe s s' /\ (unlink = false -> cells s' !! b = None).
Proof.
  intros K Hin. apply list_elem_of_fmap in Hin as ([b' e] & -> & Hin). cbn [fst].
  pose proof (lseg_lookup _ _ _ _ _ (cal_list _ _ _ K) Hin) as (Hb & _).
  apply list_elem_of_split in Hin as (l1 & l2 & Hl). rename b' into b.
  pose proof (cal_list _ _ _ K) as Hseg. pose proof (lseg_NoDup _ _ _ Hseg) as Hnd.
  pose proof (hd_without b past ahead Hnd Hb e l1 l2 Hl) as Hnext.
  assert (without b past ++ without b ahead = l1 ++ l2) as Hw.
  { rewrite <-without_app, Hl. apply (without_split b e). by rewrite <-Hl. }
  rewrite Hl in Hseg. destruct (delete_ok s l1 b e l2 unlink Hseg) as (m' & Hd & Hl' & Hfr & Hfree).
  eexists. split; [exact Hd|]. split; [|done]. rewrite (cal_next _ _ _ K), Hnext. split; cbn.
  - by rewrite Hw.
  - done.
  - by apply (fresh_kept s m' (l1 ++ (b, e) :: l2)); [apply K| |].
  - apply K.
  - rewrite Hw. apply (order_remove _ (b, e)). rewrite <-Hl. apply K.
  - rewrite Hw. apply (Forall_remove _ _ _ (b, e)). rewrite <-Hl. apply K.
  - intros y Hy. eapply K, todo_without_in, Hy.
  - intros y Hy. eapply K, todo_without_in, Hy.
  - intros Heol. pose proof (cal_eol _ _ _ K Heol) as Hp. destruct (todo_without b ahead) as (es & Hes).
    apply proper_perm in Hes. rewrite Hp, proper_app in Hes. symmetry in Hes. apply Permutation_nil_r in Hes.
    by apply app_eq_nil in Hes as [_ ?].
  - destruct (todo_without b ahead) as (es & Hes). apply (filter_Permutation (fun y => ev_type y = TIMED_POLICY_EVENT)) in Hes.
    rewrite filter_app in Hes. fold (of_policy (todo ahead)) (of_policy es) (of_policy (todo (without b ahead))) in Hes.
    destruct (cal_policy _ _ _ K) as [H|[H Hi]]; rewrite H in Hes; symmetry in Hes.
    + left. apply Permutation_nil_r in Hes. by apply app_eq_nil in Hes as [_ ?].
    + destruct (singleton_sub _ _ _ Hes) as [-> | ->]; [by left|by right].
  - apply K.
Qed.

End EventCal.
