(* ===== verification/EventNext.v ===== *)
(** * The next event

    Module [EventNext]: [next_event] keeps a calendar and what is to be done of it,
    and makes the next event one of the policy when the status of prime time ends
    before it, or when there is no event left. *)

From Stdlib Require Import ZArith Lia Ascii String.
From stdpp Require Import gmap sorting.
From S2P Require Import Prelude SchedData TimeData PrimeTime DedTime EventList EventSim EventHeap EventCal.
Import Data Conf Events EventSim EventHeap EventCal.

Module EventNext.

Implicit Types (m : gmap Z event) (x y e : event) (a b te : Z) (s : sim) (n k : entry) (l : list entry) (p : status).

(** A universe with another next event *)
Definition moved a s : sim := set_calendar (EventList (eol (calendar s)) (events (calendar s)) a) s.

Lemma moved_moved a b s : moved a (moved b s) = moved a s.
Proof. done. Qed.
Lemma moved_same s : moved (Events.next_event (calendar s)) s = s.
Proof. by destruct s as [? ? []]. Qed.
Lemma set_next_event_ok a s : set_next_event a s = Some (tt, moved a s).
Proof. done. Qed.

(** The status of prime time does not end before the event that is next. *)
Definition near s l : Prop :=
  match l with
  | [] => True
  | n :: _ => ev_disabled n.2 = false ->
      prime_status_end (sim_policy s) = SCHD_INFINITY \/ ev_time n.2 <= prime_status_end (sim_policy s)
  end.

Definition hd_enabled l : Prop := match l with [] => True | n :: _ => ev_disabled n.2 = false end.

(** When there is no next event, the one of the policy has been. *)
Definition exhausted s l : Prop :=
  l = [] -> eol (calendar s) = true \/ prime_status_end (sim_policy s) = SCHD_INFINITY.

Lemma typed_policy p : typed (policy_event p) = true.
Proof. unfold policy_event, typed. cbn. by destruct (is_prime p). Qed.

Lemma proper_policy p es : proper (policy_event p :: es) = proper es.
Proof. unfold proper. by rewrite filter_cons_False by (intros H; by apply H). Qed.
Lemma of_policy_policy p es : of_policy (policy_event p :: es) = policy_event p :: of_policy es.
Proof. unfold of_policy. by rewrite filter_cons_True. Qed.

Lemma elem_proper e es : e ∈ proper es <-> ev_type e <> TIMED_POLICY_EVENT /\ e ∈ es.
Proof. unfold proper. by rewrite list_elem_of_filter. Qed.
Lemma elem_of_policy e es : e ∈ of_policy es <-> ev_type e = TIMED_POLICY_EVENT /\ e ∈ es.
Proof. unfold of_policy. by rewrite list_elem_of_filter. Qed.

(** An event of the policy that is ahead is the one at the end of the status. *)
Lemma policy_ahead s past ahead e : cal_ok s past ahead -> e ∈ todo ahead -> ev_type e = TIMED_POLICY_EVENT ->
  e = policy_event (sim_policy s) /\ prime_status_end (sim_policy s) <> SCHD_INFINITY.
Proof.
  intros K He Ht. assert (e ∈ of_policy (todo ahead)) as H by by apply elem_of_policy.
  destruct (cal_policy _ _ _ K) as [Hp|[Hp Hi]]; rewrite Hp in H; [by apply elem_of_nil in H|].
  by apply list_elem_of_singleton in H.
Qed.

Lemma todo_hd n l : ev_disabled n.2 = false -> n.2 ∈ todo (n :: l).
Proof. intros H. rewrite todo_cons, H. by left. Qed.

Lemma eol_near s past ahead : cal_ok s past ahead -> eol (calendar s) = true -> near s ahead.
Proof.
  intros K He. destruct ahead as [|n ahead]; [done|]. intros Hn. right.
  pose proof (todo_hd n ahead Hn) as Hin. destruct (decide (ev_type n.2 = TIMED_POLICY_EVENT)) as [Ht|Ht].
  - destruct (policy_ahead _ _ _ _ K Hin Ht) as [-> _]. done.
  - assert (n.2 ∈ proper (todo (n :: ahead))) as H by by apply elem_proper.
    rewrite (cal_eol _ _ _ K He) in H. by apply elem_of_nil in H.
Qed.

(** ** A new event of the policy *)

Definition new_policy s : sim := Sim (<[brk s := policy_event (sim_policy s)]> (cells s)) (brk s + 1)
  (calendar s) (server_time s) (sim_policy s) (actions s).

Lemma create_policy s :
  create_event TIMED_POLICY_EVENT (prime_status_end (sim_policy s)) (Some PPolicy)
    (Some (if is_prime (sim_policy s) then F_init_non_prime_time else F_init_prime_time)) None s =
  Some (brk s, new_policy s).
Proof. done. Qed.

Section NewPolicy.
Context (s : sim) (past ahead past0 ahead0 : list entry).
Let s0 := moved (hd_addr ahead) s.
Context (K : cal_ok s0 past ahead) (Hcat : past0 ++ ahead0 = past ++ ahead)
  (Hnext : Events.next_event (calendar s) = hd_addr ahead0).
Let pe := policy_event (sim_policy s).
Let n := (brk s, pe).
Context (Hinf : prime_status_end (sim_policy s) <> SCHD_INFINITY).
Context (Hfits : forall k, k ∈ ahead -> prime_status_end (sim_policy s) < ev_time k.2).

Lemma brk_new : ~ brk s ∈ (past ++ ahead).*1 /\ brk s <> NULL.
Proof.
  pose proof (cal_fresh _ _ _ K) as Hf. split.
  - exact (fresh_not_in _ _ _ Hf (cal_list _ _ _ K)).
  - destruct Hf as [H _]. cbn in H. lia.
Qed.

Lemma new_policy_list : lseg (cells (new_policy s)) (events (calendar s)) (past ++ ahead).
Proof. apply lseg_insert_out; [apply brk_new|]. apply (cal_list _ _ _ K). Qed.

Lemma policy_split : exists l1 q, past = l1 ++ q /\ ins n (past ++ ahead) = l1 ++ n :: q ++ ahead /\ todo q = [].
Proof.
  destruct (ins_split n (past ++ ahead)) as (l1 & l2 & Hl & Hins & H1 & H2).
  destruct (split_past past ahead n l1 l2 Hl H1) as (q & Hp & ->).
  { intros k Hk. apply earlier_true. by apply Hfits. }
  exists l1, q. split_and!; [done|done|]. destruct (todo q) as [|e es] eqn:E; [done|exfalso].
  assert (e ∈ todo q) as He by (rewrite E; by left).
  assert (e ∈ todo past) as Hep by (rewrite Hp, todo_app; apply elem_of_app; by right).
  pose proof (cal_past _ _ _ K e Hep) as Hpast. cbn in Hpast.
  destruct (cal_status_end _ _ _ K) as [|Hend]; [done|]. cbn in Hend.
  apply elem_of_todo in He as (_ & b & He).
  pose proof (cal_order _ _ _ K) as Ho. rewrite Hl in Ho. apply in_order_app in Ho as (_ & Ho & _).
  destruct q as [|k q]; [by apply elem_of_nil in He|]. cbn [app] in Ho, H2.
  assert (goes_before pe e = true) as Hg.
  { apply elem_of_cons in He as [<-|He]; [done|]. apply (goes_before_mono n k (b, e)); [done|].
    apply StronglySorted_inv in Ho as [_ Ho]. rewrite Forall_forall in Ho. apply Ho, elem_of_app. by left. }
  unfold goes_before in Hg. rewrite andb_false_r, orb_false_r, Z.gtb_ltb, Z.ltb_lt in Hg.
  cbn in Hg. lia.
Qed.

Lemma policy_none_ahead : of_policy (todo ahead) = [].
Proof.
  destruct (cal_policy _ _ _ K) as [H|[H _]]; [done|exfalso].
  assert (policy_event (sim_policy s0) ∈ of_policy (todo ahead)) as Hin by (rewrite H; by left).
  apply elem_of_policy in Hin as [_ Hin]. apply elem_of_todo in Hin as (_ & b & Hin).
  pose proof (Hfits _ Hin) as Hlt. cbn in Hlt. lia.
Qed.

Lemma new_policy_cal : eol (calendar s) = false ->
  exists s' past' ahead',
    (let* pe := create_event TIMED_POLICY_EVENT (prime_status_end (sim_policy s)) (Some PPolicy)
       (Some (if is_prime (sim_policy s) then F_init_non_prime_time else F_init_prime_time)) None in
     if pe =? NULL then ret NULL
     else
       let* _ := add_event pe in
       let* _ := if hd_addr ahead =? NULL then set_eol true else ret tt in
       let* _ := set_next_event pe in ret pe) s = Some (hd_addr ahead', s') /\
    cal_ok s' past' ahead' /\ same_universe s s' /\ proper (todo ahead') = proper (todo ahead) /\
    near s' ahead' /\ hd_enabled ahead' /\ exhausted s' ahead' /\
    eol (calendar s') = (hd_addr ahead =? NULL).
Proof.
  intros Heol. destruct brk_new as [Hnin Hb]. mstep (create_policy s). rewrite cell_not_null by done.
  destruct (add_event_ok (new_policy s) past0 ahead0 (brk s) pe) as (m' & Hadd & Hadded).
  { rewrite Hcat. apply new_policy_list. } { done. } { rewrite Hcat. apply K. } { apply typed_policy. }
  { apply lookup_insert_eq. } { done. } { done. } { by rewrite Hcat. }
  cbv zeta in Hadd, Hadded. change (plain pe) with pe in Hadd, Hadded. fold n in Hadd, Hadded.
  destruct policy_split as (l1 & q & Hp & Hins & Hq). rewrite Hcat in Hadd, Hadded. rewrite Hins in Hadd, Hadded.
  mstep Hadd. set (a := hd_addr (l1 ++ n :: q ++ ahead)).
  set (s' := Sim m' (brk s + 1) (EventList (hd_addr ahead =? NULL) a (brk s)) (server_time s) (sim_policy s) (actions s)).
  exists s', l1, (n :: q ++ ahead).
  assert (forall nx, (let* _ := if hd_addr ahead =? NULL then set_eol true else ret tt in
     let* _ := set_next_event (brk s) in ret (brk s))
     (with_event (new_policy s) m' (l1 ++ n :: q ++ ahead) nx) = Some (brk s, s')) as Hend.
  { intros nx. unfold with_event, s'. cbn. rewrite Heol. by destruct (hd_addr ahead =? NULL). }
  rewrite Hend. split; [done|]. pose proof (cal_order _ _ _ K) as Ho. apply (ins_order n) in Ho. rewrite Hins in Ho.
  assert (todo (n :: q ++ ahead) = pe :: todo ahead) as Ht by (by rewrite todo_cons, todo_app, Hq).
  split; [|split; [done|rewrite Ht; split_and!; [apply proper_policy|by right|done|done|done]]].
  split; cbn.
  - apply Hadded.
  - done.
  - destruct (cal_fresh _ _ _ K) as [H0 Hf]. cbn in H0, Hf. split; cbn; [lia|]. intros c Hc.
    destruct Hadded as [_ Hfr]. rewrite Hfr; cbn.
    + rewrite lookup_insert_ne by lia. apply Hf. lia.
    + lia.
    + intros Hin. apply list_elem_of_fmap in Hin as ([d e] & -> & Hin). cbn in Hc.
      destruct (lseg_lookup _ _ _ _ _ (cal_list _ _ _ K) Hin) as (_ & y & Hy & _).
      cbn in Hy. by rewrite Hf in Hy by lia.
  - apply K.
  - done.
  - rewrite <-Hins, ins_perm. constructor; [apply typed_policy|apply K].
  - intros e He. apply K. rewrite Hp, todo_app. apply elem_of_app. by left.
  - intros e. rewrite Ht, elem_of_cons. intros [->|He]; [|by apply K].
    by destruct (cal_status_end _ _ _ K).
  - intros Hn. rewrite Ht. unfold pe. rewrite proper_policy. destruct ahead as [|k ahead1]; [done|].
    apply Z.eqb_eq in Hn. destruct k as [d e].
    destruct (lseg_lookup _ _ _ d e (cal_list _ _ _ K)) as (Hd & _); [apply elem_of_app; right; by left|done].
  - right. rewrite Ht. unfold pe. by rewrite of_policy_policy, policy_none_ahead.
  - apply K.
Qed.

End NewPolicy.

(** ** The next event *)

(** What [next_event] leaves of a calendar of which [ahead] is to be done *)
Record next_ok s (ahead : list entry) s' (past' ahead' : list entry) : Prop := {
  next_cal : cal_ok s' past' ahead';
  next_same : same_universe s s';
  next_proper : proper (todo ahead') = proper (todo ahead);
  next_near : near s' ahead';
  next_enabled : hd_enabled ahead -> hd_enabled ahead';
  next_exhausted : exhausted s' ahead' }.

(** Once there is no event left one more of the policy is made, which is the last. *)
Definition last_ok s (ahead : list entry) s' (ahead' : list entry) : Prop :=
  todo ahead = [] -> ahead' = [] \/ eol (calendar s) = false /\ eol (calendar s') = true.

(** Does the end of the status fit before the next event? *)
Lemma fits_ok s past ahead : cal_ok (moved (hd_addr ahead) s) past ahead ->
  prime_status_end (sim_policy s) <> SCHD_INFINITY ->
  let fits := match ahead with [] => true | n :: _ => prime_status_end (sim_policy s) <? ev_time n.2 end in
  (if hd_addr ahead =? NULL then ret true
   else if server_time s <=? prime_status_end (sim_policy s) then
     let* x := load (hd_addr ahead) in ret (prime_status_end (sim_policy s) <? ev_time x)
   else ret false) s = Some (fits, s) /\
  (fits = true -> forall k, k ∈ ahead -> prime_status_end (sim_policy s) < ev_time k.2) /\
  (fits = false -> near s ahead).
Proof.
  intros K Hinf. destruct (cal_status_end _ _ _ K) as [|Hend]; [done|]. cbn in Hend.
  pose proof (cal_order _ _ _ K) as Ho. apply in_order_app in Ho as (_ & Ho & _).
  destruct ahead as [|[b y] ahead]; cbv zeta.
  { split; [done|]. split; [by intros _ k ?%elem_of_nil|done]. }
  destruct (lseg_lookup _ _ _ b y (cal_list _ _ _ K)) as (Hb & x & Hx & <-); [apply elem_of_app; right; by left|].
  cbn [hd_addr snd]. rewrite cell_not_null by done. rewrite (proj2 (Z.leb_le _ _) Hend).
  mstep (load_cell b x s Hx). change (ev_time (plain x)) with (ev_time x).
  split; [done|]. split; intros Hf.
  - intros k Hk. pose proof (order_hd_time _ _ _ Ho Hk). apply Z.ltb_lt in Hf. cbn in *. lia.
  - intros _. right. apply Z.ltb_ge in Hf. exact Hf.
Qed.

Lemma next_event_from (advance : bool) s past ahead past0 ahead0 :
  (if advance then find_next_timed_event (Events.next_event (calendar s)) true ALL_MASK
   else ret (Events.next_event (calendar s))) s = Some (hd_addr ahead, s) ->
  cal_ok (moved (hd_addr ahead) s) past ahead -> past0 ++ ahead0 = past ++ ahead ->
  Events.next_event (calendar s) = hd_addr ahead0 ->
  exists s' past' ahead', EventSim.next_event advance s = Some (hd_addr ahead', s') /\
    next_ok s ahead s' past' ahead' /\
    (ahead = [] -> ahead' = [] \/ eol (calendar s) = false /\ eol (calendar s') = true).
Proof.
  intros Hte K Hcat Hnext. unfold EventSim.next_event. mstep (eq_refl (get s)). mstep Hte.
  assert (near s ahead -> exhausted s ahead -> exists s' past' ahead',
    (let* _ := set_next_event (hd_addr ahead) in ret (hd_addr ahead)) s = Some (hd_addr ahead', s') /\
    next_ok s ahead s' past' ahead' /\
    (ahead = [] -> ahead' = [] \/ eol (calendar s) = false /\ eol (calendar s') = true)) as Hstay.
  { intros Hnear Hex. exists (moved (hd_addr ahead) s), past, ahead. split; [done|]. split; [by split|by left]. }
  destruct (eol (calendar s)) eqn:Heol; cbn [orb].
  { apply Hstay; [|by intros _; left]. by apply (eol_near _ past ahead K). }
  destruct (Z.eqb_spec (prime_status_end (sim_policy s)) SCHD_INFINITY) as [Hinf|Hinf].
  { apply Hstay; [destruct ahead; [done|intros _; by left]|by right]. }
  destruct (fits_ok s past ahead K Hinf) as (Hfits & Hyes & Hno). cbv zeta in Hfits. mstep Hfits.
  destruct (match ahead with [] => true | n :: _ => _ end) eqn:Ef.
  - destruct (new_policy_cal s past ahead past0 ahead0 K Hcat Hnext Hinf (Hyes eq_refl) Heol)
      as (s' & past' & ahead' & Hrun & K' & Hs & Hp & Hn & He & Hx & Hl).
    exists s', past', ahead'. split; [exact Hrun|]. split; [by split|]. intros ->. right. by rewrite Hl.
  - apply Hstay; [by apply Hno|]. intros ->. done.
Qed.

Lemma next_event_stay s past ahead : cal_ok s past ahead ->
  exists s' past' ahead', EventSim.next_event false s = Some (hd_addr ahead', s') /\ next_ok s ahead s' past' ahead'.
Proof.
  intros K. destruct (next_event_from false s past ahead past ahead)
    as (s' & past' & ahead' & Hrun & Hok & _); [|..|done|apply K|by exists s', past', ahead'].
  - by rewrite (cal_next _ _ _ K).
  - rewrite <-(cal_next _ _ _ K). by rewrite moved_same.
Qed.

(** Events that are not to be done may be passed over. *)
Lemma cal_skip s past ahead skipped rest : cal_ok (moved (hd_addr ahead) s) past ahead ->
  ahead = skipped ++ rest -> todo skipped = [] -> cal_ok (moved (hd_addr rest) s) (past ++ skipped) rest.
Proof.
  intros K -> Hs. assert (todo (skipped ++ rest) = todo rest) as Ht by by rewrite todo_app, Hs.
  assert (todo (past ++ skipped) = todo past) as Htp by by rewrite todo_app, Hs, app_nil_r.
  split; rewrite <-?app_assoc, ?Htp; cbn; try apply K; try done.
  - intros e He. apply (cal_ahead _ _ _ K). by rewrite Ht.
  - intros He. pose proof (cal_eol _ _ _ K He) as H. by rewrite Ht in H.
  - pose proof (cal_policy _ _ _ K) as H. by rewrite Ht in H.
Qed.

Lemma scan_skipped l : Forall (fun n => typed n.2 = true) l ->
  exists skipped, l = skipped ++ scan true ALL_MASK l /\ todo skipped = [].
Proof.
  intros Ht. destruct (scan_suffix true ALL_MASK l) as (l1 & Hl & Hf). exists l1. split; [done|].
  apply todo_nil. rewrite Forall_forall in Ht, Hf |- *. intros n Hn. specialize (Hf n Hn).
  rewrite stops_all in Hf; [by destruct (ev_disabled n.2)|]. apply typed_known, Ht. rewrite Hl.
  apply elem_of_app. by left.
Qed.

(** After the event [n] was performed *)
Lemma next_event_advance s past n ahead : cal_ok (moved (hd_addr ahead) s) (past ++ [n]) ahead ->
  Events.next_event (calendar s) = n.1 ->
  exists s' past' ahead', EventSim.next_event true s = Some (hd_addr ahead', s') /\
    next_ok s ahead s' past' ahead' /\ hd_enabled ahead' /\ last_ok s ahead s' ahead'.
Proof.
  intros K Hn. pose proof (cal_typed _ _ _ K) as Hty. apply Forall_app in Hty as [_ Hty].
  destruct (scan_skipped ahead Hty) as (skipped & Hl & Hs). set (rest := scan true ALL_MASK ahead) in *.
  pose proof (cal_skip _ _ _ _ _ K Hl Hs) as K'.
  assert (lseg (cells s) n.1 (n :: ahead)) as Hseg.
  { pose proof (cal_list _ _ _ K) as H. rewrite <-app_assoc in H. apply lseg_suffix in H. by destruct n. }
  destruct (next_event_from true s ((past ++ [n]) ++ skipped) rest past (n :: ahead))
    as (s' & past' & ahead' & Hrun & Hok & Hlast).
  - rewrite Hn. by apply (find_next_ok s n.1 (n :: ahead)).
  - done.
  - rewrite Hl at 1. by rewrite <-!app_assoc.
  - by destruct n.
  - exists s', past', ahead'. split; [done|]. destruct Hok as [H1 H2 H3 H4 H5 H6].
    assert (hd_enabled rest) as He.
    { subst rest. destruct (scan true ALL_MASK ahead) as [|[b e] l] eqn:E; [done|]. exact (scan_enabled _ _ _ _ Hty E). }
    split; [|split; [by apply H5|]].
    + split; try done; [rewrite H3; subst rest; by rewrite todo_scan|intros _; by apply H5].
    + intros Ht. apply Hlast. rewrite Hl, todo_app, Hs in Ht. cbn in Ht. destruct rest as [|n' l]; [done|].
      rewrite todo_cons in Ht. cbn in He. by rewrite He in Ht.
Qed.

End EventNext.
