(* ===== verification/EventRun.v ===== *)
(** * Simulation

    Module [EventRun]: [simulate_events] up to a time performs the enabled events up
    to it, in order, and those of the policy when they are due; it ends, and leaves
    a calendar of the events after it. *)

From Stdlib Require Import ZArith Lia Ascii String.
From stdpp Require Import gmap sorting.
From S2P Require Import Prelude SchedData TimeData PrimeTime PrimeProps DedTime EventList EventSim EventHeap EventCal EventNext.
Import Data Conf Prime PrimeProps Events EventSim EventHeap EventCal EventNext.

Module EventRun.

Implicit Types (m : gmap Z event) (x y e : event) (a b te : Z) (s : sim) (n k : entry) (l : list entry) (p : status).

Section Run.
Context {C : Clock}.
Context (conf : config) (run_ok : list action -> resource_resv -> bool).

(** ** Performing events *)

(** What an event does, after the actions so far; [None] is a job that cannot be run. *)
Definition effect (acts : list action) e : option (list action) :=
  match ev_ptr e with
  | Some (PResv rr) =>
      if ev_type e =? TIMED_END_EVENT then Some (acts ++ [Ended rr])
      else if run_ok acts rr then Some (acts ++ [Ran rr]) else None
  | Some (PNode n) => Some (acts ++ [NodeUp n])
  | _ => Some acts
  end.

(** Events in turn, up to a job that cannot be run *)
Fixpoint perform_all (acts : list action) (es : list event) : list action * bool :=
  match es with
  | [] => (acts, true)
  | e :: es => match effect acts e with
               | Some acts => perform_all acts es
               | None => (acts, false)
               end
  end.

Definition flip_policy p : option status :=
  if is_prime p then init_non_prime_time conf p else init_prime_time conf p.

Lemma flip_policy_spec p (e : Z) : end_prime_status conf (prime_status_end p) = Some e ->
  exists p', flip_policy p = Some p' /\ is_prime p' = negb (is_prime p) /\ prime_status_end p' = e.
Proof.
  intros He. unfold flip_policy, init_prime_time, init_non_prime_time.
  destruct (is_prime p); cbv zeta; cbn [prime_status_end set_policy]; rewrite He; eexists; by split_and!.
Qed.

(** The status after an event that is not one of the policy *)
Definition same_prime p p' : Prop := is_prime p' = is_prime p /\ prime_status_end p' = prime_status_end p.

Lemma same_prime_event p p' : same_prime p p' -> policy_event p' = policy_event p.
Proof. intros [H1 H2]. unfold policy_event. by rewrite H1, H2. Qed.

Definition performed s p (acts : list action) : sim :=
  Sim (cells s) (brk s) (calendar s) (server_time s) p acts.

Lemma perform_proper s b x : cells s !! b = Some x -> b <> NULL -> typed x = true ->
  ev_type x <> TIMED_POLICY_EVENT ->
  match effect (actions s) x with
  | Some acts => exists p', same_prime (sim_policy s) p' /\
      perform_event conf run_ok b s = Some (1, performed s p' acts)
  | None => perform_event conf run_ok b s = Some (0, s)
  end.
Proof.
  intros Hx Hb Hty Hpol. unfold effect, perform_event. rewrite cell_not_null by done.
  unfold typed in Hty.
  destruct (ev_ptr x) as [[rr| |nd]|] eqn:Ep; [| | |done].
  - destruct (ev_func x) eqn:Ef; [done|]. apply orb_true_iff in Hty. rewrite !Z.eqb_eq in Hty.
    destruct Hty as [Ht|Ht]; rewrite Ht; cbn [Z.eqb].
    + destruct (run_ok (actions s) rr) eqn:Er.
      * exists (sim_policy s). split; [done|]. mstep (load_cell b x s Hx). rewrite Ep, Ht, Ef. cbn [Z.eqb].
        change (TIMED_RUN_EVENT =? TIMED_END_EVENT) with false. cbn iota.
        unfold bind, get. cbn. by rewrite Er.
      * mstep (load_cell b x s Hx). rewrite Ep, Ht, Ef. unfold bind, get. cbn. by rewrite Er.
    + exists (sim_policy s). split; [done|]. mstep (load_cell b x s Hx). by rewrite Ep, Ht, Ef.
  - destruct (ev_func x) as [[]|] eqn:Ef; try done; try (by apply Z.eqb_eq in Hty).
    exists (dedtime_change (ev_func_arg x) (sim_policy s)).2. split.
    { unfold dedtime_change, same_prime. by repeat case_match. }
    mstep (load_cell b x s Hx). rewrite Ep, Ef. apply orb_true_iff in Hty. rewrite !Z.eqb_eq in Hty.
    by destruct Hty as [-> | ->].
  - destruct (ev_func x) as [[]|] eqn:Ef; try done. apply Z.eqb_eq in Hty.
    exists (sim_policy s). split; [done|]. mstep (load_cell b x s Hx). by rewrite Ep, Ef, Hty.
Qed.

Lemma perform_policy s b x p' : cells s !! b = Some x -> b <> NULL -> plain x = policy_event (sim_policy s) ->
  flip_policy (sim_policy s) = Some p' ->
  perform_event conf run_ok b s = Some (1, performed s p' (actions s)).
Proof.
  intros Hx Hb Hp Hf. unfold perform_event. rewrite cell_not_null by done. mstep (load_cell b x s Hx).
  change (ev_ptr x) with (ev_ptr (plain x)). change (ev_type x) with (ev_type (plain x)).
  change (ev_func x) with (ev_func (plain x)). rewrite Hp. cbn. msimp. unfold flip_policy in Hf.
  destruct (is_prime (sim_policy s)); unfold bind, lift, get, modify; cbn; by rewrite Hf.
Qed.

(** ** A step *)

(** The universe after the event [n] was performed, before the next one is found *)
Definition stepped s n p (acts : list action) : sim :=
  performed (set_time (ev_time n.2) s) p acts.

Lemma todo_step n ahead : ev_disabled n.2 = false -> todo (n :: ahead) = n.2 :: todo ahead.
Proof. intros Hd. by rewrite todo_cons, Hd. Qed.

Lemma cal_step s past n ahead p' acts : cal_ok s past (n :: ahead) -> ev_disabled n.2 = false ->
  of_policy (todo ahead) = [] \/
    of_policy (todo ahead) = [policy_event p'] /\ prime_status_end p' <> SCHD_INFINITY ->
  prime_status_end p' = SCHD_INFINITY \/ ev_time n.2 <= prime_status_end p' ->
  cal_ok (moved (hd_addr ahead) (stepped s n p' acts)) (past ++ [n]) ahead.
Proof.
  intros K Hd Hpol Hend. pose proof (cal_ahead _ _ _ K) as Ha. pose proof (todo_step n ahead Hd) as Ht.
  pose proof (cal_order _ _ _ K) as Ho. apply in_order_app in Ho as (_ & Ho & _).
  assert (server_time s <= ev_time n.2) as Hnt by (apply Ha; rewrite Ht; by left).
  split; cbn; rewrite <-?app_assoc; cbn; try apply K; try done.
  - pose proof (cal_time _ _ _ K). lia.
  - intros e. rewrite todo_app, todo_cons, Hd. rewrite !elem_of_app, elem_of_cons.
    intros [He|[[->|He]|He]]; [|done|by apply elem_of_nil in He|by apply elem_of_nil in He].
    pose proof (cal_past _ _ _ K e He). lia.
  - intros e He. apply elem_of_todo in He as (_ & b & He).
    apply (order_hd_time n ahead (b, e) Ho). by right.
  - intros He. pose proof (cal_eol _ _ _ K He) as H. rewrite Ht in H. unfold proper in H |- *.
    rewrite filter_cons in H. by case_decide.
Qed.

Lemma cal_proper_step s past n ahead p' acts : cal_ok s past (n :: ahead) -> near s (n :: ahead) ->
  ev_disabled n.2 = false -> ev_type n.2 <> TIMED_POLICY_EVENT -> same_prime (sim_policy s) p' ->
  cal_ok (moved (hd_addr ahead) (stepped s n p' acts)) (past ++ [n]) ahead.
Proof.
  intros K Hnear Hd Hpol Hp. pose proof (todo_step n ahead Hd) as Ht. apply cal_step; try done.
  - rewrite (same_prime_event _ _ Hp). destruct Hp as [_ ->]. pose proof (cal_policy _ _ _ K) as H.
    rewrite Ht in H. unfold of_policy in H |- *. by rewrite filter_cons_False in H.
  - destruct Hp as [_ ->]. by apply Hnear.
Qed.

Lemma cal_policy_step s past n ahead p' acts : cal_ok s past (n :: ahead) ->
  n.2 = policy_event (sim_policy s) ->
  prime_status_end p' = SCHD_INFINITY \/ prime_status_end (sim_policy s) <= prime_status_end p' ->
  cal_ok (moved (hd_addr ahead) (stepped s n p' acts)) (past ++ [n]) ahead.
Proof.
  intros K Hn Hp. assert (ev_disabled n.2 = false) as Hd by by rewrite Hn.
  apply cal_step; try done; [left|by rewrite Hn].
  pose proof (cal_policy _ _ _ K) as H. rewrite (todo_step n ahead Hd), Hn, of_policy_policy in H.
  destruct H as [H|[H _]]; [done|by injection H].
Qed.

(** ** The loop *)

Section Loop.
Context (start T : Z).
(** Up to [T] the status of prime time always ends later. *)
Hypothesis Hprog : forall d, start <= d <= T ->
  exists e : Z, end_prime_status conf d = Some e /\ (e = SCHD_INFINITY \/ d < e).

(** What is known of the time and the status, which the simulation keeps *)
Context (good : Z -> status -> Prop).
Hypothesis good_same : forall t p p', same_prime p p' -> good t p -> good t p'.
Hypothesis good_time : forall t t' p, good t p -> t <= t' ->
  prime_status_end p = SCHD_INFINITY \/ t' <= prime_status_end p -> good t' p.
Hypothesis good_flip : forall p p', prime_status_end p <> SCHD_INFINITY -> start <= prime_status_end p <= T ->
  good (prime_status_end p) p -> flip_policy p = Some p' -> good (prime_status_end p) p'.

Record loop_ok s (past ahead : list entry) : Prop := {
  loop_cal : cal_ok s past ahead;
  loop_near : near s ahead;
  loop_enabled : hd_enabled ahead;
  loop_exhausted : exhausted s ahead;
  loop_start : start <= server_time s;
  loop_good : good (server_time s) (sim_policy s) }.

(** The events ahead and the times at which the status may still end *)
Definition steps s ahead : nat :=
  (length (proper (todo ahead)) +
   (if (prime_status_end (sim_policy s) =? SCHD_INFINITY)%Z then 0
    else Z.to_nat (T + 1 - prime_status_end (sim_policy s))%Z))%nat.

(** The rest of the loop after an event was performed *)
Lemma loop_next s past n ahead p' acts :
  cal_ok (moved (hd_addr ahead) (stepped s n p' acts)) (past ++ [n]) ahead ->
  Events.next_event (calendar s) = n.1 -> start <= ev_time n.2 -> good (ev_time n.2) p' ->
  exists s' past' ahead', EventSim.next_event true (stepped s n p' acts) = Some (hd_addr ahead', s') /\
    loop_ok s' past' ahead' /\ same_universe (stepped s n p' acts) s' /\
    proper (todo ahead') = proper (todo ahead) /\ last_ok s ahead s' ahead'.
Proof.
  intros K Hn Hs Hg. destruct (next_event_advance (stepped s n p' acts) past n ahead K Hn)
    as (s' & past' & ahead' & Hrun & [H1 H2 H3 H4 H5 H6] & He & Hlast).
  exists s', past', ahead'. destruct H2 as (Ht & Hp & Ha). split; [done|]. split; [|done].
  split; try done; [by rewrite Ht|by rewrite Ht, Hp].
Qed.

(** The round of the loop for an event that can be performed *)
Lemma loop_round s n p' acts (s' : sim) a : n.1 <> NULL -> (exists x, cells s !! n.1 = Some x /\ plain x = n.2) ->
  perform_event conf run_ok n.1 (set_time (ev_time n.2) s) = Some (1, stepped s n p' acts) ->
  EventSim.next_event true (stepped s n p' acts) = Some (a, s') ->
  forall stop fuel r t0, ev_time n.2 <= stop -> simulate_loop conf run_ok (S fuel) n.1 stop r t0 s =
    simulate_loop conf run_ok fuel a stop (Z.lor r (ev_type n.2)) (ev_time n.2) s'.
Proof.
  intros Hb (x & Hx & Hp) Hperf Hnext stop fuel r t0 Ht. cbn [simulate_loop]. rewrite cell_not_null by done.
  mstep (load_cell n.1 x s Hx). change (ev_time x) with (ev_time (plain x)).
  change (ev_type x) with (ev_type (plain x)). rewrite Hp, (proj2 (Z.leb_le _ _) Ht).
  erewrite bind_eq by reflexivity. mstep Hperf. cbn [Z.eqb]. by mstep Hnext.
Qed.

Definition can_step s n ahead s' past' ahead' : Prop :=
  loop_ok s' past' ahead' /\ server_time s' = ev_time n.2 /\
  proper (todo ahead') = proper (todo ahead) /\ last_ok s ahead s' ahead' /\
  (if decide (ev_type n.2 = TIMED_POLICY_EVENT)
   then end_prime_status conf (ev_time n.2) = Some (prime_status_end (sim_policy s'))
   else prime_status_end (sim_policy s') = prime_status_end (sim_policy s)) /\
  (steps s' ahead' < steps s (n :: ahead))%nat /\
  (forall stop fuel r t0, ev_time n.2 <= stop -> simulate_loop conf run_ok (S fuel) n.1 stop r t0 s =
    simulate_loop conf run_ok fuel (hd_addr ahead') stop (Z.lor r (ev_type n.2)) (ev_time n.2) s').

Section Step.
Context (s : sim) (past : list entry) (n : entry) (ahead : list entry).
Context (L : loop_ok s past (n :: ahead)).

Lemma step_entry : n.1 <> NULL /\ (exists x, cells s !! n.1 = Some x /\ plain x = n.2) /\
  typed n.2 = true /\ server_time s <= ev_time n.2.
Proof.
  destruct L as [K Hnear He _ _ _].
  assert (n ∈ past ++ n :: ahead) as Hin by (apply elem_of_app; right; by left).
  destruct (lseg_lookup _ _ _ n.1 n.2 (cal_list _ _ _ K)) as [Hb Hx]; [by destruct n|].
  pose proof (cal_typed _ _ _ K) as Hty. rewrite Forall_forall in Hty.
  split_and!; [done|done|by apply Hty|]. apply (cal_ahead _ _ _ K), todo_hd, He.
Qed.

Context (Ht : ev_time n.2 <= T).

Lemma step_policy : ev_type n.2 = TIMED_POLICY_EVENT ->
  exists s' past' ahead', can_step s n ahead s' past' ahead' /\ actions s' = actions s.
Proof.
  intros Hty. destruct step_entry as (Hb & Hx & _ & Hnow). pose proof L as [K Hnear He Hex Hs Hg].
  destruct (policy_ahead _ _ _ _ K (todo_hd n ahead He) Hty) as [Hn Hinf].
  assert (ev_time n.2 = prime_status_end (sim_policy s)) as Htn by by rewrite Hn.
  destruct (Hprog (prime_status_end (sim_policy s))) as (e & Hend & Hlater); [lia|].
  destruct (flip_policy_spec _ _ Hend) as (p' & Hflip & Hp' & Hpe).
  destruct (loop_next s past n ahead p' (actions s)) as (s' & past' & ahead' & Hrun & L' & (H1 & H2 & H3) & Hp & Hlast).
  - apply cal_policy_step; [done|done|]. rewrite Hpe. destruct Hlater; [by left|right; lia].
  - apply (cal_next _ _ _ K).
  - lia.
  - rewrite Htn. apply good_flip; [done|lia| |done]. apply (good_time (server_time s)); [done|lia|by right].
  - exists s', past', ahead'. split; [split_and!|by rewrite H3].
    + done.
    + by rewrite H1.
    + done.
    + done.
    + by rewrite decide_True, H2, Htn, Hend, <-Hpe by done.
    + unfold steps. rewrite Hp, (todo_step n ahead He), Hn, proper_policy, H2. cbn.
      rewrite Hpe, (proj2 (Z.eqb_neq _ _) Hinf). destruct Hlater as [->|Hlater]; [rewrite Z.eqb_refl; lia|].
      destruct (e =? SCHD_INFINITY); lia.
    + destruct Hx as (x & Hx & Hpx). apply (loop_round s n p' (actions s)); [done|by exists x| |done].
      refine (perform_policy (set_time (ev_time n.2) s) n.1 x p' Hx Hb _ Hflip). by rewrite Hpx.
Qed.

Lemma step_proper : ev_type n.2 <> TIMED_POLICY_EVENT ->
  match effect (actions s) n.2 with
  | Some acts => exists s' past' ahead', can_step s n ahead s' past' ahead' /\ actions s' = acts
  | None => forall stop fuel r t0, ev_time n.2 <= stop -> simulate_loop conf run_ok (S fuel) n.1 stop r t0 s =
      Some ((TIMED_ERROR, ev_time n.2), set_time (ev_time n.2) s)
  end.
Proof.
  intros Hty. destruct step_entry as (Hb & (x & Hx & Hpx) & Htyped & Hnow). pose proof L as [K Hnear He Hex Hs Hg].
  pose proof (perform_proper (set_time (ev_time n.2) s) n.1 x Hx Hb) as Hperf.
  change (ev_type x) with (ev_type (plain x)) in Hperf. change (typed x) with (typed (plain x)) in Hperf.
  change (effect (actions (set_time (ev_time n.2) s)) x) with (effect (actions s) (plain x)) in Hperf.
  rewrite Hpx in Hperf. specialize (Hperf Htyped Hty). destruct (effect (actions s) n.2) as [acts|].
  - destruct Hperf as (p' & Hp' & Hperf).
    destruct (loop_next s past n ahead p' acts) as (s' & past' & ahead' & Hrun & L' & (H1 & H2 & H3) & Hp & Hlast).
    + by apply cal_proper_step.
    + apply (cal_next _ _ _ K).
    + lia.
    + apply (good_same _ (sim_policy s)); [done|]. by apply (good_time (server_time s)); [| |apply Hnear].
    + exists s', past', ahead'. split; [split_and!|by rewrite H3].
      * done.
      * by rewrite H1.
      * done.
      * done.
      * rewrite decide_False, H2 by done. apply Hp'.
      * unfold steps. rewrite Hp, (todo_step n ahead He), H2. cbn. destruct Hp' as [_ ->].
        unfold proper. rewrite filter_cons_True by done. cbn. lia.
      * apply (loop_round s n p' acts); [done|by exists x|done|done].
  - intros stop fuel r t0 Hu. cbn [simulate_loop]. rewrite cell_not_null by done. mstep (load_cell n.1 x s Hx).
    change (ev_time x) with (ev_time (plain x)). rewrite Hpx, (proj2 (Z.leb_le _ _) Hu).
    erewrite bind_eq by reflexivity. by mstep Hperf.
Qed.

End Step.

(** The events up to [T], and those after it *)
Definition due (es : list event) : list event := filter (fun e => ev_time e <= T) (proper es).
Definition later (es : list event) : list event := filter (fun e => T < ev_time e) (proper es).

(** The types of the events that are performed *)
Definition types (es : list event) : Z := foldr (fun e z => Z.lor (ev_type e) z) 0 es.

Definition hd_later l : Prop := match l with [] => True | n :: _ => T < ev_time n.2 end.

Record finished (r : Z) (es : list event) s' (r' : Z) (past' ahead' : list entry) : Prop := {
  fin_loop : loop_ok s' past' ahead';
  fin_later : proper (todo ahead') = later es;
  fin_hd : hd_later ahead';
  fin_time : server_time s' <= T;
  fin_types : Z.lor r' TIMED_POLICY_EVENT = Z.lor (Z.lor r (types (due es))) TIMED_POLICY_EVENT }.

Definition outcome s (r : Z) (es : list event) s' (r' : Z) : Prop :=
  let '(acts, ok) := perform_all (actions s) (due es) in
  actions s' = acts /\
  if ok : bool then exists past' ahead', finished r es s' r' past' ahead' else r' = TIMED_ERROR.

Lemma due_later (es : list event) : (forall e, e ∈ es -> T < ev_time e) -> due es = [] /\ later es = proper es.
Proof.
  intros H. unfold due, later. rewrite <-Forall_forall in H.
  induction H as [|e es He _ [IH1 IH2]]; [done|]. unfold proper in *. rewrite filter_cons.
  case_decide; [|done]. rewrite filter_cons_False by lia. rewrite filter_cons_True by done. by rewrite IH1, IH2.
Qed.

Lemma due_policy e es : ev_type e = TIMED_POLICY_EVENT -> due (e :: es) = due es /\ later (e :: es) = later es.
Proof. intros He. unfold due, later, proper. by rewrite !(filter_cons_False _ e) by (intros H; by apply H). Qed.

Lemma due_proper e es : ev_type e <> TIMED_POLICY_EVENT -> ev_time e <= T ->
  due (e :: es) = e :: due es /\ later (e :: es) = later es.
Proof.
  intros He Ht. unfold due, later, proper. rewrite (filter_cons_True (fun e => ev_type e <> _) e) by done.
  by rewrite filter_cons_True, filter_cons_False by lia.
Qed.

Lemma order_todo n ahead e : in_order (n :: ahead) -> e ∈ todo (n :: ahead) -> ev_time n.2 <= ev_time e.
Proof. intros Ho He. apply elem_of_todo in He as (_ & b & He). exact (order_hd_time n ahead (b, e) Ho He). Qed.

Lemma outcome_next s (r : Z) n ahead s1 ahead1 (s' : sim) (r' : Z) : proper (todo ahead1) = proper (todo ahead) ->
  due (todo (n :: ahead)) = due (todo ahead) /\ later (todo (n :: ahead)) = later (todo ahead) /\
    ev_type n.2 = TIMED_POLICY_EVENT /\ actions s1 = actions s \/
  due (todo (n :: ahead)) = n.2 :: due (todo ahead) /\ later (todo (n :: ahead)) = later (todo ahead) /\
    effect (actions s) n.2 = Some (actions s1) ->
  outcome s1 (Z.lor r (ev_type n.2)) (todo ahead1) s' r' -> outcome s r (todo (n :: ahead)) s' r'.
Proof.
  intros Hp Hcase. assert (due (todo ahead1) = due (todo ahead)) as Hd by (unfold due; by rewrite Hp).
  assert (later (todo ahead1) = later (todo ahead)) as Hl by (unfold later; by rewrite Hp).
  unfold outcome. rewrite Hd.
  destruct Hcase as [(Hd1 & Hl1 & Hty & Ha)|(Hd1 & Hl1 & He)]; rewrite Hd1.
  - rewrite Ha. destruct (perform_all (actions s) (due (todo ahead))) as [acts []]; [|done].
    intros (Hs' & past' & ahead' & [F1 F2 F3 F4 F5]). split; [done|]. exists past', ahead'.
    split; [done|by rewrite F2, Hl, Hl1|done|done|]. rewrite F5, Hd, Hd1, Hty.
    apply Z.bits_inj'. intros i _. rewrite !Z.lor_spec.
    by destruct (Z.testbit r i), (Z.testbit TIMED_POLICY_EVENT i), (Z.testbit _ i).
  - cbn [perform_all]. rewrite He. destruct (perform_all (actions s1) (due (todo ahead))) as [acts []]; [|done].
    intros (Hs' & past' & ahead' & [F1 F2 F3 F4 F5]). split; [done|]. exists past', ahead'.
    split; [done|by rewrite F2, Hl, Hl1|done|done|]. rewrite F5, Hd, Hd1. cbn. by rewrite !Z.lor_assoc.
Qed.

Lemma loop_all (fuel : nat) : forall s past ahead (r t0 : Z), loop_ok s past ahead -> server_time s <= T ->
  (steps s ahead < fuel)%nat ->
  exists r' t' s', simulate_loop conf run_ok fuel (hd_addr ahead) T r t0 s = Some ((r', t'), s') /\
    outcome s r (todo ahead) s' r'.
Proof.
  induction fuel as [|fuel IH]; intros s past ahead r t0 L Hnow Hf; [lia|].
  assert (Hstop : due (todo ahead) = [] -> later (todo ahead) = proper (todo ahead) -> hd_later ahead ->
    outcome s r (todo ahead) s r).
  { intros Hd Hl Hh. unfold outcome. rewrite Hd. cbn [perform_all]. cbn iota. split; [done|]. exists past, ahead. split; try done.
    rewrite Hd. cbn. by rewrite Z.lor_0_r. }
  destruct ahead as [|n ahead].
  { exists r, t0, s. split; [done|]. by apply Hstop. }
  destruct (step_entry s past n ahead L) as (Hb & (x & Hx & Hpx) & _ & _).
  destruct (Z.le_gt_cases (ev_time n.2) T) as [Ht|Ht]; cycle 1.
  { exists r, t0, s. split.
    - cbn [hd_addr simulate_loop]. destruct n as [b e]. cbn [fst snd] in *. rewrite cell_not_null by done.
      mstep (load_cell b x s Hx). change (ev_time x) with (ev_time (plain x)). rewrite Hpx.
      by rewrite (proj2 (Z.leb_gt _ _)) by lia.
    - pose proof (cal_order _ _ _ (loop_cal _ _ _ L)) as Ho. apply in_order_app in Ho as (_ & Ho & _).
      destruct (due_later (todo (n :: ahead))) as [H1 H2]; [|apply Hstop; [done|done|cbn; lia]].
      intros e He. pose proof (order_todo n ahead e Ho He). lia. }
  assert (Hgo : forall s1 past1 ahead1, can_step s n ahead s1 past1 ahead1 ->
    due (todo (n :: ahead)) = due (todo ahead) /\ later (todo (n :: ahead)) = later (todo ahead) /\
      ev_type n.2 = TIMED_POLICY_EVENT /\ actions s1 = actions s \/
    due (todo (n :: ahead)) = n.2 :: due (todo ahead) /\ later (todo (n :: ahead)) = later (todo ahead) /\
      effect (actions s) n.2 = Some (actions s1) ->
    exists r' t' s', simulate_loop conf run_ok (S fuel) (hd_addr (n :: ahead)) T r t0 s = Some ((r', t'), s') /\
      outcome s r (todo (n :: ahead)) s' r').
  { intros s1 past1 ahead1 (L1 & Hs1 & Hp1 & _ & _ & Hst & Hrun) Hcase.
    destruct (IH s1 past1 ahead1 (Z.lor r (ev_type n.2)) (ev_time n.2) L1) as (r' & t' & s' & Hrun' & Ho);
      [lia|lia|]. exists r', t', s'. split; [|by eapply outcome_next].
    destruct n as [b e]. cbn [hd_addr fst] in *. by rewrite Hrun. }
  pose proof (loop_enabled _ _ _ L) as He. pose proof (todo_step n ahead He) as Htd.
  destruct (decide (ev_type n.2 = TIMED_POLICY_EVENT)) as [Hty|Hty].
  - destruct (step_policy s past n ahead L Ht Hty) as (s1 & past1 & ahead1 & Hcan & Ha).
    apply (Hgo s1 past1 ahead1 Hcan). left. rewrite Htd. by destruct (due_policy n.2 (todo ahead) Hty).
  - pose proof (step_proper s past n ahead L Hty) as Hstep.
    destruct (due_proper n.2 (todo ahead) Hty Ht) as [Hd Hl].
    destruct (effect (actions s) n.2) as [acts|] eqn:Ee.
    + destruct Hstep as (s1 & past1 & ahead1 & Hcan & Ha). apply (Hgo s1 past1 ahead1 Hcan). right.
      rewrite Htd, Ha. by split_and!.
    + eexists _, _, _. split; [destruct n as [b e]; exact (Hstep T fuel r t0 Ht)|]. unfold outcome. rewrite Htd, Hd. cbn. by rewrite Ee.
Qed.

(** ** The whole simulation *)

(** The events and the calendar after a simulation: the result [r], the time [t] it is
    given back, nothing when there was no event, and what is ahead *)
Record simulated s (ahead : list entry) (r : Z) (t : option Z) s' (past' ahead' : list entry) : Prop := {
  simd_later : proper (todo ahead') = later (todo ahead);
  simd_time :
    t = Some T /\ server_time s' = T /\
      Z.lor r TIMED_POLICY_EVENT = Z.lor (types (due (todo ahead))) TIMED_POLICY_EVENT \/
    t = None /\ server_time s' = server_time s /\ r = TIMED_NOEVENT /\
      due (todo ahead) = [] /\ ahead' = [];
  simd_cal : ahead' <> [] -> cal_ok s' past' ahead' /\ good T (sim_policy s') /\
    (prime_status_end (sim_policy s') = SCHD_INFINITY \/ T < prime_status_end (sim_policy s')) }.

(** The time a command simulates up to, when [l] is ahead *)
Definition sim_until (cmd : schd_simulate_cmd) l : Z :=
  match cmd, l with
  | SIM_NEXT_EVENT t, n :: _ => ev_time n.2 + t
  | SIM_TIME t, _ => t
  | _, _ => 0
  end.

Definition sim_answer (cmd : schd_simulate_cmd) (r : Z * Z) : M sim (Z * option Z) :=
  match cmd with
  | SIM_TIME t => let* _ := modify (set_time t) in ret (r.1, Some t)
  | _ => ret (r.1, Some r.2)
  end.

Definition enters s l : Prop := forall cmd (fuel : nat), cmd <> SIM_NONE -> forall s0,
  EventSim.next_event false s0 = Some (hd_addr l, s) ->
  simulate_events conf run_ok fuel cmd s0 =
  if hd_addr l =? NULL then Some ((TIMED_NOEVENT, None), s)
  else (let* r := simulate_loop conf run_ok fuel (hd_addr l) (sim_until cmd l) 0 (server_time s) in sim_answer cmd r) s.

(** When the next event is enabled it is the first *)
Lemma enters_enabled s past l : cal_ok s past l -> hd_enabled l -> enters s l.
Proof.
  intros K He cmd fuel Hcmd s0 Hrun. unfold simulate_events. destruct l as [|n l].
  { destruct cmd; [done|..]; by mstep Hrun. }
  destruct (lseg_lookup _ _ _ n.1 n.2 (cal_list _ _ _ K)) as (Hb & x & Hx & Hpx);
    [apply elem_of_app; right; destruct n; by left|].
  replace (hd_addr (n :: l)) with n.1 in * by by destruct n. cbn in He.
  assert (ev_disabled x = false) as Hd by (change (ev_disabled x) with (ev_disabled (plain x)); by rewrite Hpx).
  assert (ev_time x = ev_time n.2) as Ht by (change (ev_time x) with (ev_time (plain x)); by rewrite Hpx).
  rewrite cell_not_null by done.
  destruct cmd; [done|..]; (mstep Hrun; rewrite cell_not_null by done; mstep (load_cell n.1 x s Hx); rewrite Hd; msimp;
    rewrite cell_not_null by done; mstep (eq_refl (get s)); mstep (load_cell n.1 x s Hx); by rewrite ?Ht).
Qed.

Lemma enter_any s past ahead : cal_ok s past ahead ->
  exists s1 past1 ahead1, next_ok s ahead s1 past1 ahead1 /\ hd_enabled ahead1 /\
    forall cmd (fuel : nat), cmd <> SIM_NONE -> simulate_events conf run_ok fuel cmd s =
    if hd_addr ahead1 =? NULL then Some ((TIMED_NOEVENT, None), s1)
    else (let* r := simulate_loop conf run_ok fuel (hd_addr ahead1) (sim_until cmd ahead1) 0 (server_time s1) in
          sim_answer cmd r) s1.
Proof.
  intros K. destruct (next_event_stay s past ahead K) as (s0 & past0 & ahead0 & Hrun & N0).
  pose proof (next_cal _ _ _ _ _ N0) as K0. destruct ahead0 as [|n ahead0].
  { exists s0, past0, []. split; [done|]. split; [done|]. intros cmd fuel Hc. by apply (enters_enabled s0 past0). }
  destruct (ev_disabled n.2) eqn:Hd; cycle 1.
  { exists s0, past0, (n :: ahead0). split; [done|]. split; [done|]. intros cmd fuel Hc. by apply (enters_enabled s0 past0). }
  destruct (lseg_lookup _ _ _ n.1 n.2 (cal_list _ _ _ K0)) as (Hb & x & Hx & Hpx);
    [apply elem_of_app; right; destruct n; by left|].
  assert (cal_ok (moved (hd_addr ahead0) s0) (past0 ++ [n]) ahead0) as K1.
  { apply (cal_skip s0 past0 (n :: ahead0)); [|done|by rewrite todo_cons, Hd].
    rewrite <-(cal_next _ _ _ K0). by rewrite moved_same. }
  destruct (next_event_advance s0 past0 n ahead0 K1) as (s1 & past1 & ahead1 & Hrun1 & N1 & He & _).
  { rewrite (cal_next _ _ _ K0). by destruct n. }
  exists s1, past1, ahead1. destruct N0 as [_ (H1 & H2 & H3) H4 _ _ _].
  destruct N1 as [K2 (J1 & J2 & J3) J4 J5 J6 J7]. split_and!; [|done|].
  - split; try done; [unfold same_universe; by rewrite J1, J2, J3|].
    rewrite J4, <-H4. unfold proper. by rewrite todo_cons, Hd.
  - intros cmd fuel Hc. replace (hd_addr (n :: ahead0)) with n.1 in Hrun by by destruct n.
    assert (ev_disabled x = true) as Hdx by (change (ev_disabled x) with (ev_disabled (plain x)); by rewrite Hpx).
    unfold simulate_events. destruct ahead1 as [|k ahead1].
    { destruct cmd; [done|..]; (mstep Hrun; rewrite cell_not_null by done; mstep (load_cell n.1 x s0 Hx); rewrite Hdx;
        by mstep Hrun1). }
    destruct (lseg_lookup _ _ _ k.1 k.2 (cal_list _ _ _ K2)) as (Hc1 & y & Hy & Hpy);
      [apply elem_of_app; right; destruct k; by left|].
    replace (hd_addr (k :: ahead1)) with k.1 in * by by destruct k.
    assert (ev_time y = ev_time k.2) as Ht by (change (ev_time y) with (ev_time (plain y)); by rewrite Hpy).
    destruct cmd; [done|..]; (mstep Hrun; rewrite cell_not_null by done; mstep (load_cell n.1 x s0 Hx); rewrite Hdx;
      mstep Hrun1; rewrite !cell_not_null by done; mstep (eq_refl (get s1)); mstep (load_cell k.1 y s1 Hy); by rewrite ?Ht).
Qed.

Lemma enter s past ahead (fuel : nat) : cal_ok s past ahead ->
  exists s1 past1 ahead1, next_ok s ahead s1 past1 ahead1 /\ hd_enabled ahead1 /\
    simulate_events conf run_ok fuel (SIM_TIME T) s =
    if hd_addr ahead1 =? NULL then Some ((TIMED_NOEVENT, None), s1)
    else (let* r := simulate_loop conf run_ok fuel (hd_addr ahead1) T 0 (server_time s1) in
          let* _ := modify (set_time T) in ret (r.1, Some T)) s1.
Proof.
  intros K. destruct (enter_any s past ahead K) as (s1 & past1 & ahead1 & N & He & Hrun).
  exists s1, past1, ahead1. split; [done|]. split; [done|]. by rewrite Hrun.
Qed.

Lemma cal_at_end s past ahead : loop_ok s past ahead -> hd_later ahead -> server_time s <= T -> ahead <> [] ->
  cal_ok (set_time T s) past ahead /\ good T (sim_policy s) /\
    (prime_status_end (sim_policy s) = SCHD_INFINITY \/ T < prime_status_end (sim_policy s)).
Proof.
  intros [K Hnear He _ _ Hg] Hh Ht Hne. destruct ahead as [|n ahead]; [done|]. cbn in Hh.
  pose proof (Hnear He) as Hn. split_and!.
  - destruct K. split; try done; cbn.
    + lia.
    + intros e Hin. pose proof (cal_past0 e Hin). lia.
    + intros e Hin. apply in_order_app in cal_order0 as (_ & Ho & _).
      pose proof (order_todo n ahead e Ho Hin). lia.
    + destruct Hn; [by left|right; lia].
  - apply (good_time (server_time s)); [done|done|]. destruct Hn; [by left|right; lia].
  - destruct Hn; [by left|right; lia].
Qed.

Lemma simulate_all s past ahead (fuel : nat) : cal_ok s past ahead -> start <= server_time s <= T ->
  good (server_time s) (sim_policy s) ->
  (length (proper (todo ahead)) + Z.to_nat (T + 1 - server_time s) < fuel)%nat ->
  exists r t s', simulate_events conf run_ok fuel (SIM_TIME T) s = Some ((r, t), s') /\
    let '(acts, ok) := perform_all (actions s) (due (todo ahead)) in
    actions s' = acts /\
    if ok then exists past' ahead', simulated s ahead r t s' past' ahead' else r = TIMED_ERROR.
Proof.
  intros K Ht Hg Hf. destruct (enter s past ahead fuel K) as (s1 & past1 & ahead1 & [K1 (H1 & H2 & H3) H4 H5 H6 H7] & He & Hrun).
  assert (due (todo ahead1) = due (todo ahead)) as Hd by (unfold due; by rewrite H4).
  assert (later (todo ahead1) = later (todo ahead)) as Hl by (unfold later; by rewrite H4).
  assert (loop_ok s1 past1 ahead1) as L.
  { split; try done; [rewrite H1; apply Ht|by rewrite H1, H2]. }
  destruct ahead1 as [|n ahead1].
  { rewrite Hrun. exists TIMED_NOEVENT, None, s1. split; [done|].
    rewrite <-Hd. cbn. split; [done|]. exists past1, []. split; rewrite <-?Hd, <-?Hl; try done.
    right. by rewrite H1. }
  destruct (step_entry _ _ _ _ L) as (Hb & _ & _).
  destruct (loop_all fuel s1 past1 (n :: ahead1) 0 (server_time s1) L) as (r' & t' & s' & Hloop & Ho).
  { rewrite H1. lia. }
  { unfold steps. rewrite H4. pose proof (cal_status_end _ _ _ K1) as Hend. rewrite H1 in Hend.
    destruct (Z.eqb_spec (prime_status_end (sim_policy s1)) SCHD_INFINITY); lia. }
  exists r', (Some T), (set_time T s'). split.
  { rewrite Hrun. replace (hd_addr (n :: ahead1)) with n.1 in * by by destruct n.
    rewrite cell_not_null by done. by mstep Hloop. }
  unfold outcome in Ho. rewrite Hd, H3 in Ho.
  destruct (perform_all (actions s) (due (todo ahead))) as [acts []]; [|done].
  destruct Ho as (Ha & past' & ahead' & [F1 F2 F3 F4 F5]). split; [done|].
  exists past', ahead'. split; [by rewrite F2| |].
  { left. by rewrite F5, Hd. }
  intros Hne. exact (cal_at_end s' past' ahead' F1 F3 F4 Hne).
Qed.

End Loop.
End Run.
End EventRun.
