(* ===== verification/EventMake.v ===== *)
(** * The calendar that is made

    Module [EventMake]: [create_event_list] makes a calendar of the starts and ends
    of the jobs and reservations, the sleeping nodes and the dedicated times. *)

From Stdlib Require Import ZArith Lia Ascii String.
From stdpp Require Import gmap sorting.
From S2P Require Import Prelude Ranges SchedData TimeData PrimeTime DedTime EventList EventSim EventHeap EventCal.
Import Range Data Conf Ded Events EventSim EventHeap EventCal.

Module EventMake.

Implicit Types (s : sim) (n : entry) (l : list entry) (e x : event) (evs te : Z).

(** ** Events in new cells *)

Definition with_cell s x : sim :=
  Sim (<[brk s := x]> (cells s)) (brk s + 1) (calendar s) (server_time s) (sim_policy s) (actions s).

Lemma create_event_ok s (ty tm : Z) (ptr : event_ptr) (f : option event_func) (a : option cstring) (nm : cstring) :
  determine_event_name ty ptr f = Some nm ->
  create_event ty tm (Some ptr) f a s = Some (brk s, with_cell s (Event false nm ty tm (Some ptr) f a NULL NULL)).
Proof. intros H. unfold create_event. by rewrite H. Qed.

Lemma fresh_cell s x : fresh s -> fresh (with_cell s x).
Proof.
  intros [H0 Hf]. split; cbn; [lia|]. intros b Hb. rewrite lookup_insert_ne by lia. apply Hf. lia.
Qed.

Lemma lseg_cell s x a l : fresh s -> lseg (cells s) a l -> lseg (cells (with_cell s x)) a l.
Proof. intros Hf Hl. apply lseg_insert_out; [by eapply fresh_not_in|done]. Qed.

Lemma fresh_timed s te x l m' evs : fresh s -> cells s !! te = Some x -> lseg (cells s) evs l ->
  (forall b, b <> te -> ~ b ∈ l.*1 -> m' !! b = cells s !! b) -> fresh (set_cells m' s).
Proof.
  intros [H0 Hf] Hx Hl Hfr. split; [done|]. cbn. intros b Hb. rewrite Hfr; [by apply Hf| |].
  - intros ->. by rewrite Hf in Hx.
  - intros Hin. apply list_elem_of_fmap in Hin as ([c e] & -> & Hin). cbn in Hb.
    destruct (lseg_lookup _ _ _ _ _ Hl Hin) as (_ & y & Hy & _). by rewrite Hf in Hy.
Qed.

(** ** A list that is built *)

Definition entry_ok n : Prop := typed n.2 = true /\ ev_disabled n.2 = false /\ ev_type n.2 <> TIMED_POLICY_EVENT.

(** The list at [evs] has the events [es]; the rest of the universe is that of [s0]. *)
Record built (s0 s : sim) (evs : Z) l (es : list event) : Prop := {
  built_list : lseg (cells s) evs l;
  built_fresh : fresh s;
  built_order : in_order l;
  built_ok : Forall entry_ok l;
  built_events : l.*2 ≡ₚ es;
  built_calendar : calendar s = calendar s0;
  built_same : same_universe s0 s }.

Lemma built_add s0 s evs l (es : list event) x : built s0 s evs l es ->
  plain x = x -> entry_ok (NULL, x) ->
  exists s' evs' l', add_timed_event evs (brk s) (with_cell s x) = Some (evs', s') /\ built s0 s' evs' l' (x :: es).
Proof.
  intros [Hl Hf Ho Hok He Hc Hs] Hp Hx.
  pose proof (lseg_cell s x evs l Hf Hl) as Hl1.
  destruct (add_timed_ok (with_cell s x) evs (brk s) l x Hl1) as (m' & Hadd & Hl' & Hfr).
  - apply lookup_insert_eq.
  - destruct Hf as [H _]. lia.
  - by rewrite <-Hp.
  - by eapply fresh_not_in.
  - eexists _, _, (ins (brk s, plain x) l). split; [exact Hadd|]. split; cbn.
    + done.
    + apply (fresh_timed (with_cell s x) (brk s) x l m' evs); [by apply fresh_cell|apply lookup_insert_eq|done|done].
    + by apply ins_order.
    + rewrite ins_perm. constructor; [by rewrite Hp|done].
    + rewrite ins_perm. cbn. by rewrite Hp, He.
    + done.
    + done.
Qed.

Lemma brk_not_null s : fresh s -> (brk s =? NULL) = false.
Proof. intros [H _]. apply cell_not_null. lia. Qed.

(** ** The events of jobs, reservations and nodes *)

Definition run_event_of (r : timed_resv) : event :=
  Event false (rr_name (tr r)) TIMED_RUN_EVENT (rr_start (tr r)) (Some (PResv (tr r))) None None NULL NULL.
Definition end_event_of (hard : bool) (r : timed_resv) : event :=
  Event false (rr_name (tr r)) TIMED_END_EVENT
    (if hard then rr_start (tr r) + rr_hard_duration (tr r) else rr_end (tr r))
    (Some (PResv (tr r))) None None NULL NULL.
Definition node_up_event (now : Z) (nd : node_info) : event :=
  Event false (ni_name nd) TIMED_NODE_UP_EVENT (now + PROVISION_DURATION) (Some (PNode nd))
    (Some F_node_up_event) None NULL NULL.
Definition ded_start_event (d : timegap) : event :=
  Event false (lit "dedtime_start") TIMED_DED_START_EVENT (from d) (Some PPolicy)
    (Some F_dedtime_change) (Some DEDTIME_START) NULL NULL.
Definition ded_end_event (d : timegap) : event :=
  Event false (lit "dedtime_end") TIMED_DED_END_EVENT (to d) (Some PPolicy)
    (Some F_dedtime_change) (Some DEDTIME_END) NULL NULL.

Definition altered (r : timed_resv) : bool :=
  rr_is_resv (tr r) && bool_decide (tr_resv_state r = Some RESV_BEING_ALTERED).

(** The events of jobs and reservations up to the first without a time *)
Fixpoint events_of (hard : bool) (all : list timed_resv) : list event :=
  match all with
  | [] => []
  | r :: all =>
      if negb (is_timed (tr r)) then []
      else if altered r then events_of hard all
      else (if in_runnable_state r then [run_event_of r] else []) ++ end_event_of hard r :: events_of hard all
  end.

Definition node_events_of (now : Z) (nodes : list node_info) : list event :=
  node_up_event now <$> filter (fun nd => ni_is_sleeping nd = true) nodes.

(** The dedicated times up to the first that is empty *)
Fixpoint ded_events_of (ds : list timegap) : list event :=
  match ds with
  | [] => []
  | d :: ds => if from d =? 0 then [] else ded_start_event d :: ded_end_event d :: ded_events_of ds
  end.

Lemma resv_events_ok (s0 : sim) (hard : bool) (all : list timed_resv) : forall s evs l (es : list event),
  built s0 s evs l es ->
  exists s' evs' l' es', resv_events all hard evs s = Some ((evs', false), s') /\ built s0 s' evs' l' es' /\
    es' ≡ₚ events_of hard all ++ es.
Proof.
  induction all as [|r all IH]; intros s evs l es B; [by exists s, evs, l, es|]. cbn [resv_events events_of].
  destruct (is_timed (tr r)); cbn [negb]; [|by exists s, evs, l, es]. fold (altered r).
  destruct (altered r); [by apply (IH s evs l)|].
  assert (exists s1 evs1 l1 es1, (if in_runnable_state r then
      let* te := create_event TIMED_RUN_EVENT (rr_start (tr r)) (Some (PResv (tr r))) None None in
      if te =? NULL then ret (evs, true) else let* evs := add_timed_event evs te in ret (evs, false)
    else ret (evs, false)) s = Some ((evs1, false), s1) /\ built s0 s1 evs1 l1 es1 /\
    es1 ≡ₚ (if in_runnable_state r then [run_event_of r] else []) ++ es) as (s1 & evs1 & l1 & es1 & Hrun & B1 & He1).
  { destruct (in_runnable_state r); [|by exists s, evs, l, es].
    mstep (create_event_ok s TIMED_RUN_EVENT (rr_start (tr r)) (PResv (tr r)) None None _ eq_refl).
    rewrite brk_not_null by apply B. fold (run_event_of r).
    destruct (built_add s0 s evs l es (run_event_of r) B) as (s1 & evs1 & l1 & Hadd & B1); [done|by split_and!|].
    mstep Hadd. by exists s1, evs1, l1, (run_event_of r :: es). }
  mstep Hrun.
  mstep (create_event_ok s1 TIMED_END_EVENT (if hard then rr_start (tr r) + rr_hard_duration (tr r) else rr_end (tr r))
    (PResv (tr r)) None None _ eq_refl).
  rewrite brk_not_null by apply B1. fold (end_event_of hard r).
  destruct (built_add s0 s1 evs1 l1 es1 (end_event_of hard r) B1) as (s2 & evs2 & l2 & Hadd & B2); [done|by split_and!|].
  mstep Hadd. destruct (IH s2 evs2 l2 _ B2) as (s3 & evs3 & l3 & es3 & Hrec & B3 & He3).
  exists s3, evs3, l3, es3. split; [done|]. split; [done|]. rewrite He3, He1.
  rewrite <-!app_assoc. cbn. rewrite <-!Permutation_middle. constructor. apply Permutation_app_swap_app.
Qed.

Lemma node_events_ok (s0 : sim) (nodes : list node_info) : forall s evs l (es : list event), built s0 s evs l es ->
  exists s' evs' l' es', node_events nodes evs s = Some ((Some evs'), s') /\ built s0 s' evs' l' es' /\
    es' ≡ₚ node_events_of (server_time s0) nodes ++ es.
Proof.
  induction nodes as [|nd nodes IH]; intros s evs l es B; [by exists s, evs, l, es|]. cbn [node_events].
  unfold node_events_of in *. rewrite filter_cons. destruct (ni_is_sleeping nd); cbn [fmap list_fmap app];
    [|rewrite decide_False by done; by apply (IH s evs l)].
  rewrite decide_True by done. mstep (eq_refl (get s)).
  mstep (create_event_ok s TIMED_NODE_UP_EVENT (server_time s + PROVISION_DURATION)
    (PNode nd) (Some F_node_up_event) None _ eq_refl).
  rewrite brk_not_null by apply B. destruct (built_same _ _ _ _ _ B) as (Ht & _). rewrite Ht.
  fold (node_up_event (server_time s0) nd).
  destruct (built_add s0 s evs l es (node_up_event (server_time s0) nd) B) as (s1 & evs1 & l1 & Hadd & B1);
    [done|by split_and!|].
  mstep Hadd. destruct (IH s1 evs1 l1 _ B1) as (s2 & evs2 & l2 & es2 & Hrec & B2 & He2).
  exists s2, evs2, l2, es2. split; [done|]. split; [done|]. rewrite He2. cbn. by rewrite <-Permutation_middle.
Qed.

(** All the events but those of dedicated time *)
Definition base_events (hard : bool) (now : Z) (all : list timed_resv) (nodes : list node_info) : list event :=
  node_events_of now nodes ++ events_of hard (sort_events now all).

Lemma create_events_ok s (hard : bool) (all : list timed_resv) (nodes : list node_info) : fresh s ->
  exists s' evs l, create_events all nodes hard s = Some (evs, s') /\
    built s s' evs l (base_events hard (server_time s) all nodes).
Proof.
  intros Hf. assert (built s s NULL [] []) as B by (split; done || constructor).
  unfold create_events. mstep (eq_refl (get s)).
  destruct (resv_events_ok s hard (sort_events (server_time s) all) s NULL [] [] B)
    as (s1 & evs1 & l1 & es1 & H1 & B1 & He1). mstep H1.
  destruct (node_events_ok s nodes s1 evs1 l1 es1 B1) as (s2 & evs2 & l2 & es2 & H2 & B2 & He2). mstep H2.
  exists s2, evs2, l2. split; [done|]. destruct B2 as [H3 H4 H5 H6 H7 H8 H9]. split; try done.
  by rewrite H7, He2, He1, app_nil_r.
Qed.

(** ** All the jobs and reservations with a time *)

Definition no_start (r : timed_resv) : bool := rr_start (tr r) =? UNSPECIFIED.

(** In the order of [cmp_events], as numbers: those without a start come last. *)
Lemma cmp_events_le_spec (now : Z) (r1 r2 : timed_resv) : cmp_events_le now r1 r2 <->
  no_start r2 = true \/ no_start r1 = false /\
    let '(t1, end1) := event_of now r1 in let '(t2, end2) := event_of now r2 in
    t1 < t2 \/ t1 = t2 /\ (end1 = true \/ end2 = false).
Proof.
  unfold cmp_events_le, cmp_events, no_start. destruct (rr_start (tr r1) =? UNSPECIFIED), (rr_start (tr r2) =? UNSPECIFIED);
    cbn [negb andb]; try naive_solver lia.
  destruct (event_of now r1) as [t1 []], (event_of now r2) as [t2 []];
    destruct (Z.ltb_spec t1 t2), (Z.eqb_spec t1 t2); naive_solver lia.
Qed.

#[export] Instance cmp_events_trans (now : Z) : Transitive (cmp_events_le now).
Proof.
  intros r1 r2 r3. rewrite !cmp_events_le_spec.
  destruct (event_of now r1) as [t1 []], (event_of now r2) as [t2 []], (event_of now r3) as [t3 []];
    destruct (no_start r1), (no_start r2), (no_start r3); intuition (discriminate || lia).
Qed.

#[export] Instance cmp_events_total (now : Z) : Total (cmp_events_le now).
Proof.
  intros r1 r2. rewrite !cmp_events_le_spec.
  destruct (event_of now r1) as [t1 end1], (event_of now r2) as [t2 end2].
  destruct (no_start r1), (no_start r2); [by left; left|by right; left|by left; left|].
  destruct (Z.lt_trichotomy t1 t2) as [|[|]]; [naive_solver| |naive_solver]. destruct end1, end2; naive_solver.
Qed.

(** The events of a job or reservation *)
Definition events_of_one (hard : bool) (r : timed_resv) : list event :=
  if altered r then []
  else (if in_runnable_state r then [run_event_of r] else []) ++ [end_event_of hard r].

Definition events_of_timed (hard : bool) (all : list timed_resv) : list event :=
  filter (fun r => is_timed (tr r) = true) all ≫= events_of_one hard.

Lemma events_of_filter (hard : bool) (all : list timed_resv) (now : Z) : StronglySorted (cmp_events_le now) all ->
  (forall r, r ∈ all -> no_start r = false -> is_timed (tr r) = true) ->
  events_of hard all = events_of_timed hard all.
Proof.
  unfold events_of_timed. induction 1 as [|r all Hs IH Hr]; intros Ht; [done|]. cbn [events_of]. rewrite filter_cons.
  assert (forall r', r' ∈ all -> no_start r' = false -> is_timed (tr r') = true) as Ht' by (intros r' ??; apply Ht; [by right|done]).
  destruct (is_timed (tr r)) eqn:E; cbn [negb].
  - rewrite decide_True by done. cbn [mbind list_bind]. rewrite <-IH by done. unfold events_of_one.
    destruct (altered r); [done|]. by rewrite <-app_assoc.
  - rewrite decide_False by done. assert (no_start r = true) as Hn.
    { destruct (no_start r) eqn:En; [done|]. rewrite (Ht r) in E; [done|by left|done]. }
    clear IH Hs Ht Ht'. induction Hr as [|r' all Hle _ IH]; [done|]. rewrite filter_cons.
    apply cmp_events_le_spec in Hle as [Hn'|[? _]]; [|congruence].
    rewrite decide_False; [exact IH|]. unfold is_timed. unfold no_start in Hn'. by rewrite Hn'.
Qed.

Lemma events_of_sorted (hard : bool) (now : Z) (all : list timed_resv) :
  (forall r, r ∈ all -> no_start r = false -> is_timed (tr r) = true) ->
  events_of hard (sort_events now all) ≡ₚ events_of_timed hard all.
Proof.
  intros Ht. rewrite (events_of_filter hard _ now).
  - unfold events_of_timed, sort_events. by rewrite merge_sort_Permutation.
  - unfold sort_events. apply Sorted_StronglySorted, Sorted_merge_sort; apply _.
  - intros r Hr. apply Ht. unfold sort_events in Hr. by rewrite merge_sort_Permutation in Hr.
Qed.

(** ** Dedicated time *)

Lemma cal_cell s past ahead x : cal_ok s past ahead -> cal_ok (with_cell s x) past ahead /\
  cells (with_cell s x) !! brk s = Some x /\ brk s <> NULL /\ ~ brk s ∈ (past ++ ahead).*1.
Proof.
  intros K. pose proof (cal_fresh _ _ _ K) as Hf. pose proof (fresh_not_in _ _ _ Hf (cal_list _ _ _ K)) as Hin.
  split_and!; [|apply lookup_insert_eq|destruct Hf; lia|done].
  destruct K. split; try done; [by apply lseg_cell|by apply fresh_cell].
Qed.

Definition all_enabled l : Prop := Forall (fun n => ev_disabled n.2 = false) l.

Lemma todo_all l : all_enabled l -> todo l = l.*2.
Proof. induction 1 as [|n l Hn _ IH]; [done|]. by rewrite todo_cons, Hn, IH. Qed.

(** A calendar of enabled events, and a next one *)
Definition going s past ahead : Prop := cal_ok s past ahead /\ all_enabled (past ++ ahead).

Lemma add_ded s past ahead te x : going s past ahead -> ahead <> [] \/ server_time s < ev_time x ->
  cells s !! te = Some x -> te <> NULL -> plain x = x -> ~ te ∈ (past ++ ahead).*1 -> entry_ok (te, x) ->
  exists s' past' ahead', add_event te s = Some (1, s') /\ going s' past' ahead' /\ ahead' <> [] /\
    same_universe s s' /\ other_entries s te x past ahead s' past' ahead'.
Proof.
  intros [K He] Hne Hx Hte Hp Hin (Hty & Hd & Hpol). assert (ev_next x = NULL) as Hn by by rewrite <-Hp.
  assert (forall s' past' ahead', cal_ok s' past' ahead' -> other_entries s te x past ahead s' past' ahead' ->
    going s' past' ahead') as Hgo.
  { intros s' past' ahead' K' (Hl & _). split; [done|]. unfold all_enabled in *. rewrite Hl, ins_perm.
    constructor; [done|exact He]. }
  destruct (Z.lt_ge_cases (server_time s) (ev_time x)) as [Ht|Ht].
  - destruct (add_event_cal s past ahead te x) as (s' & past' & ahead' & Hrun & K' & _ & Ha & Hs & Ho); try done.
    exists s', past', ahead'. split; [done|]. split; [by apply Hgo|]. split; [|done].
    intros ->. symmetry in Ha. by apply (f_equal length) in Ha; rewrite insert_event_perm in Ha.
  - destruct Hne as [Hne|]; [|lia]. destruct ahead as [|k ahead]; [done|].
    assert (ev_disabled k.2 = false) as Hk.
    { unfold all_enabled in He. rewrite Forall_forall in He. apply He, elem_of_app. right. by left. }
    destruct (add_past_event s past k ahead te x) as (s' & past' & ahead' & Hrun & K' & Hne' & Hs & Ho); try done.
    exists s', past', ahead'. split; [done|]. split; [by apply Hgo|]. done.
Qed.

Lemma add_dedtime_ok (ds : list timegap) : forall s past ahead, going s past ahead ->
  ahead <> [] \/ (forall e, e ∈ ded_events_of ds -> server_time s < ev_time e) ->
  exists s' past' ahead', add_dedtime_events ds s = Some (1, s') /\ going s' past' ahead' /\
    same_universe s s' /\ (past' ++ ahead').*2 ≡ₚ ded_events_of ds ++ (past ++ ahead).*2.
Proof.
  induction ds as [|d ds IH]; intros s past ahead G Hne; [by exists s, past, ahead|].
  cbn [add_dedtime_events ded_events_of] in *. destruct (from d =? 0) eqn:E0; [by exists s, past, ahead|].
  pose proof G as [K He]. set (x := ded_start_event d). set (y := ded_end_event d).
  mstep (create_event_ok s TIMED_DED_START_EVENT (from d) PPolicy (Some F_dedtime_change) (Some DEDTIME_START) _ eq_refl).
  fold (ded_start_event d). fold x. rewrite brk_not_null by apply K. set (s1 := with_cell s x).
  destruct (cal_cell s past ahead x K) as (K1 & Hx & Hb & Hin). fold s1 in K1, Hx.
  mstep (create_event_ok s1 TIMED_DED_END_EVENT (to d) PPolicy (Some F_dedtime_change) (Some DEDTIME_END) _ eq_refl).
  fold (ded_end_event d). fold y. rewrite brk_not_null by apply K1. set (s2 := with_cell s1 y).
  destruct (cal_cell s1 past ahead y K1) as (K2 & Hy & Hb1 & Hin1). fold s2 in K2, Hy.
  assert (brk s1 <> brk s) as Hbb by (cbn; lia).
  assert (cells s2 !! brk s = Some x) as Hx2 by (cbn; rewrite lookup_insert_ne by done; exact Hx).
  destruct (add_ded s2 past ahead (brk s) x) as (s3 & past3 & ahead3 & Hrun3 & G3 & Hne3 & Hs3 & Hl3 & Hbr3 & Hfr3);
    [by split| |done|done|done|done|by split_and!|].
  { destruct Hne as [|Hne]; [by left|right]. apply (Hne x). by left. }
  mstep Hrun3.
  destruct (add_ded s3 past3 ahead3 (brk s1) y) as (s4 & past4 & ahead4 & Hrun4 & G4 & Hne4 & Hs4 & Hl4 & _);
    [done|by left| |done|done| |by split_and!|].
  { by rewrite Hfr3. }
  { rewrite Hl3, ins_perm. cbn. rewrite not_elem_of_cons. done. }
  mstep Hrun4. destruct (IH s4 past4 ahead4 G4 (or_introl Hne4)) as (s5 & past5 & ahead5 & Hrun5 & G5 & Hs5 & Hl5).
  exists s5, past5, ahead5. split; [done|]. split; [done|]. split.
  - destruct Hs3 as (A1 & A2 & A3), Hs4 as (B1 & B2 & B3), Hs5 as (C1 & C2 & C3).
    unfold same_universe. by rewrite C1, C2, C3, B1, B2, B3, A1, A2, A3.
  - rewrite Hl5, Hl4, ins_perm. cbn. rewrite Hl3, ins_perm. cbn. change (plain x) with x. change (plain y) with y.
    rewrite <-!Permutation_middle. apply Permutation_swap.
Qed.

(** ** The whole calendar *)

(** The events a calendar is made of *)
Definition calendar_events (hard : bool) (now : Z) (all : list timed_resv) (nodes : list node_info) : list event :=
  node_events_of now nodes ++ events_of_timed hard all.

(** C25. When what has a start has an end, no event of a job, a reservation or a node
    is in the past, and there is one or no dedicated time has begun, then
    [create_event_list] makes a calendar of the time now with the ends of the jobs
    and reservations, the starts of those that can run, and the events of the
    sleeping nodes and of the dedicated times. *)
Theorem create_event_list_makes (conf : config) s (all : list timed_resv) (nodes : list node_info) (hard : bool) :
  fresh s -> 0 <= server_time s ->
  prime_status_end (sim_policy s) = SCHD_INFINITY \/ server_time s <= prime_status_end (sim_policy s) ->
  (forall r, r ∈ all -> no_start r = false -> is_timed (tr r) = true) ->
  let base := calendar_events hard (server_time s) all nodes in
  let deds := ded_events_of (ded_time conf) in
  (forall e, e ∈ base -> server_time s <= ev_time e) ->
  base <> [] \/ (forall e, e ∈ deds -> server_time s < ev_time e) ->
  exists s' past ahead, create_event_list conf all nodes hard s = Some (tt, s') /\
    cal_ok s' past ahead /\ same_universe s s' /\ todo (past ++ ahead) ≡ₚ deds ++ base.
Proof.
  intros Hf H0 Hend Htimed base deds Hfut Hne. unfold create_event_list.
  destruct (create_events_ok s hard all nodes Hf) as (s1 & evs & l & Hrun & [Hl Hf1 Ho Hok He Hc Hs]). mstep Hrun.
  unfold base_events in He. rewrite events_of_sorted in He by done.
  fold (calendar_events hard (server_time s) all nodes) base in He. set (s2 := set_calendar (EventList false evs evs) s1). destruct Hs as (Ht & Hp & Ha).
  assert (all_enabled l) as Hen.
  { unfold all_enabled. eapply Forall_impl; [exact Hok|]. by intros n (_ & ? & _). }
  assert (forall e, e ∈ todo l -> e ∈ base /\ ev_type e <> TIMED_POLICY_EVENT) as Htd.
  { intros e Hin. apply elem_of_todo in Hin as (_ & b & Hin). split.
    - rewrite <-He. apply list_elem_of_fmap. by exists (b, e).
    - rewrite Forall_forall in Hok. by destruct (Hok _ Hin) as (_ & _ & ?). }
  assert (going s2 [] l) as G.
  { split; [|done]. split; cbn; try done.
    - by apply lseg_hd in Hl.
    - by rewrite Ht.
    - eapply Forall_impl; [exact Hok|]. by intros n (? & _).
    - intros e ?%elem_of_nil. done.
    - intros e Hin. rewrite Ht. by apply Hfut, Htd.
    - left. destruct (of_policy (todo l)) as [|e es] eqn:E; [done|exfalso].
      assert (e ∈ of_policy (todo l)) as Hin by (rewrite E; by left). unfold of_policy in Hin.
      apply list_elem_of_filter in Hin as [Hty Hin]. by destruct (Htd e Hin).
    - by rewrite Hp, Ht. }
  mstep (eq_refl (modify (set_calendar (EventList false evs evs)) s1)). fold s2.
  destruct (add_dedtime_ok (ded_time conf) s2 [] l G) as (s3 & past & ahead & Hrun3 & [K3 He3] & Hs3 & Hl3).
  { destruct Hne as [Hne|Hne]; [left|right].
    - intros ->. apply Hne. cbn in He. by apply Permutation_nil_l in He.
    - cbn. by rewrite Ht. }
  mstep Hrun3. exists s3, past, ahead. split; [done|]. split; [done|]. split.
  - destruct Hs3 as (A1 & A2 & A3). unfold same_universe. by rewrite A1, A2, A3.
  - rewrite todo_all by done. rewrite Hl3. cbn [app]. by rewrite He.
Qed.

End EventMake.
