(* ===== verification/EventProps.v ===== *)
(** * Theorems on the simulation

    Module [EventProps]: what [simulate_events] up to a time does, and that the
    status of prime time it simulates is that of the time it ends at. *)

From Stdlib Require Import ZArith Lia Ascii String.
From stdpp Require Import gmap sorting.
From S2P Require Import Prelude SchedData TimeData PrimeTime PrimeProps DedTime EventList EventSim EventHeap EventCal EventNext EventRun EventMake.
Import Data Conf Prime PrimeProps Events EventSim EventHeap EventCal EventNext EventRun EventMake.

Module EventProps.

(** ** Adding and deleting *)

Section Adding.
Context (s : sim) (past ahead : list entry) (K : cal_ok s past ahead).
Context (ty tm : Z) (ptr : event_ptr) (f : option event_func) (arg : option cstring) (nm : cstring).
Let x := Event false nm ty tm (Some ptr) f arg NULL NULL.

Lemma add_new : determine_event_name ty ptr f = Some nm -> typed x = true -> ty <> TIMED_POLICY_EVENT ->
  server_time s < tm ->
  exists s' past' ahead',
    (let* te := create_event ty tm (Some ptr) f arg in add_event te) s = Some (1, s') /\
    cal_ok s' past' ahead' /\ todo past' = todo past /\ todo ahead' = insert_event x (todo ahead) /\
    same_universe s s' /\ other_entries (with_cell s x) (brk s) x past ahead s' past' ahead'.
Proof.
  intros Hnm Hty Hpol Ht. destruct (cal_cell s past ahead x K) as (K1 & Hx & Hb & Hin).
  destruct (add_event_cal (with_cell s x) past ahead (brk s) x) as (s' & past' & ahead' & Hadd & H); try done.
  exists s', past', ahead'. split; [|done]. by mstep (create_event_ok s ty tm ptr f arg nm Hnm).
Qed.

End Adding.

(** Adding a new event that is in the future to a calendar gives a calendar, with
    the event among those to be done, after the events of its time or, if it is an
    end, before them. *)
Theorem add_event_keeps (s : sim) (past ahead : list entry) (ty tm : Z) (ptr : event_ptr)
    (f : option event_func) (arg : option cstring) (nm : cstring) :
  let x := Event false nm ty tm (Some ptr) f arg NULL NULL in
  cal_ok s past ahead -> determine_event_name ty ptr f = Some nm -> typed x = true ->
  ty <> TIMED_POLICY_EVENT -> server_time s < tm ->
  exists s' past' ahead',
    (let* te := create_event ty tm (Some ptr) f arg in add_event te) s = Some (1, s') /\
    cal_ok s' past' ahead' /\ todo past' = todo past /\ todo ahead' = insert_event x (todo ahead) /\
    same_universe s s'.
Proof.
  intros x K Hnm Hty Hpol Ht.
  destruct (add_new s past ahead K ty tm ptr f arg nm Hnm Hty Hpol Ht) as (s' & past' & ahead' & H1 & H2 & H3 & H4 & H5 & _).
  by exists s', past', ahead'.
Qed.

Lemma without_ins (n : entry) (l : list entry) : ~ n.1 ∈ l.*1 -> NoDup l.*1 -> without n.1 (ins n l) = l.
Proof.
  intros Hn Hnd. destruct (ins_split n l) as (l1 & l2 & -> & -> & _). destruct n as [b e]. apply without_split.
  rewrite fmap_app in *. cbn in *. rewrite <-Permutation_middle. by constructor.
Qed.

(** C26. Deleting the event again gives a calendar with the events there were, in their
    order, and frees its cell. *)
Theorem add_delete_restores (s : sim) (past ahead : list entry) (ty tm : Z) (ptr : event_ptr)
    (f : option event_func) (arg : option cstring) (nm : cstring) :
  let x := Event false nm ty tm (Some ptr) f arg NULL NULL in
  cal_ok s past ahead -> determine_event_name ty ptr f = Some nm -> typed x = true ->
  ty <> TIMED_POLICY_EVENT -> server_time s < tm ->
  exists te s' past' ahead',
    (let* te := create_event ty tm (Some ptr) f arg in
     let* _ := add_event te in let* rc := delete_event te false in ret (te, rc)) s = Some ((te, 1), s') /\
    cal_ok s' past' ahead' /\ past' ++ ahead' = past ++ ahead /\ same_universe s s' /\ cells s' !! te = None.
Proof.
  intros x K Hnm Hty Hpol Ht.
  destruct (add_new s past ahead K ty tm ptr f arg nm Hnm Hty Hpol Ht)
    as (s1 & past1 & ahead1 & Hadd & K1 & _ & _ & (H1 & H2 & H3) & Hins & _ & _).
  rewrite (bind_eq _ _ _ _ _ (create_event_ok s ty tm ptr f arg nm Hnm)) in Hadd. fold x in Hadd.
  pose proof (fresh_not_in _ _ _ (cal_fresh _ _ _ K) (cal_list _ _ _ K)) as Hin.
  destruct (delete_event_cal s1 past1 ahead1 (brk s) false K1) as (s2 & Hdel & K2 & (J1 & J2 & J3) & Hfree).
  { rewrite Hins, ins_perm. by left. }
  exists (brk s), s2, (without (brk s) past1), (without (brk s) ahead1). split_and!.
  - mstep (create_event_ok s ty tm ptr f arg nm Hnm). fold x. mstep Hadd. by mstep Hdel.
  - done.
  - rewrite <-without_app, Hins. apply (without_ins (brk s, plain x)); [done|].
    apply (lseg_NoDup _ _ _ (cal_list _ _ _ K)).
  - unfold same_universe. by rewrite J1, J2, J3.
  - by apply Hfree.
Qed.

Section Simulation.
Context {C : Clock} {L : ClockLaws C}.
Context (conf : config) (run_ok : list action -> resource_resv -> bool).

(** The status of prime time always ends later. *)
Definition status_ends_later (start T : Z) : Prop :=
  forall d, start <= d <= T -> exists e : Z, end_prime_status conf d = Some e /\ (e = SCHD_INFINITY \/ d < e).

(** C23. A simulation up to a time not in the past ends, and has performed the enabled
    events of the calendar up to that time, in order, stopping with an error at a
    job that cannot be run; what is left are the events after it, at that time. *)
Theorem simulate_performs (s : sim) (past ahead : list entry) (T : Z) (fuel : nat) :
  cal_ok s past ahead -> server_time s <= T -> status_ends_later (server_time s) T ->
  (length (proper (todo ahead)) + Z.to_nat (T + 1 - server_time s) < fuel)%nat ->
  exists r t s', simulate_events conf run_ok fuel (SIM_TIME T) s = Some ((r, t), s') /\
    let '(acts, ok) := perform_all run_ok (actions s) (due T (todo ahead)) in
    actions s' = acts /\
    if ok then exists past' ahead', simulated T (fun _ _ => True) s ahead r t s' past' ahead'
    else r = TIMED_ERROR.
Proof.
  intros K Ht Hprog Hf.
  apply (simulate_all conf run_ok (server_time s) T Hprog (fun _ _ => True)) with past; try done.
Qed.

(** ** Prime time *)

Definition status_of (b : bool) : prime_time := if b then PRIME else NON_PRIME.

(** The status is that of the time [t], up to its end, where it changes. *)
Definition prime_good (T t : Z) (p : status) : Prop :=
  prime_status_end p = SCHD_INFINITY /\
    (forall u, t <= u <= T -> is_prime_time conf u = Some (status_of (is_prime p))) \/
  prime_status_end p <> SCHD_INFINITY /\
    (forall u, t <= u < prime_status_end p -> is_prime_time conf u = Some (status_of (is_prime p))) /\
    is_prime_time conf (prime_status_end p) = Some (status_of (negb (is_prime p))).

Lemma prime_good_same (T t : Z) (p p' : status) : same_prime p p' -> prime_good T t p -> prime_good T t p'.
Proof. intros [H1 H2]. unfold prime_good. by rewrite H1, H2. Qed.

Lemma prime_good_time (T t t' : Z) (p : status) : prime_good T t p -> t <= t' ->
  prime_status_end p = SCHD_INFINITY \/ t' <= prime_status_end p -> prime_good T t' p.
Proof.
  unfold prime_good. intros [[Hi H]|(Hi & H & Hn)] Ht _; [left|right]; split_and?; try done; intros u Hu; apply H; lia.
Qed.

Lemma right_end_good (T d e : Z) (p : status) : holidays_fit conf -> right_end conf d e -> T <= d + WEEK ->
  0 <= d -> is_prime_time conf d = Some (status_of (is_prime p)) -> prime_status_end p = e -> prime_good T d p.
Proof.
  intros Hfit [[-> H]|(Hle & Hne & H)] HT Hd Hp He; unfold prime_good; rewrite He.
  - left. split; [done|]. intros u Hu. rewrite H by lia. done.
  - right. split; [unfold SCHD_INFINITY; lia|]. split; [intros u Hu; by rewrite H|].
    destruct (is_prime_time_some conf e Hfit) as (q & Hq & Hqq). rewrite Hq in Hne |- *. rewrite Hp in Hne.
    by destruct (is_prime p), Hqq as [-> | ->].
Qed.

Section Weeks.
(** The clock and the days of the times simulated, as in [end_prime_status_right] *)
Context (off : Z) (yd : Z -> Z) (start T : Z).
Hypothesis Hfit : holidays_fit conf.
Hypothesis Hyear : holiday_year conf <> 0.
Hypothesis Hwall : forall date, start <= date <= T + 8 * DAY -> wall off yd date.
Hypothesis Hweek : forall d, start <= d <= T -> week_carries conf yd (day off d) = true.

Lemma ends_right (d : Z) : start <= d <= T -> exists e, end_prime_status conf d = Some e /\ right_end conf d e.
Proof.
  intros Hd. apply (end_prime_right conf off yd); [done|done| |by apply Hweek].
  intros date Hdate. apply Hwall. lia.
Qed.

Lemma ends_later : status_ends_later start T.
Proof.
  intros d Hd. destruct (ends_right d Hd) as (e & He & Hr). exists e. split; [done|].
  destruct Hr as [[-> _]|(Hle & Hne & _)]; [by left|right]. destruct (Z.eq_dec d e); [by subst|lia].
Qed.

Lemma prime_good_flip (p p' : status) : 0 <= start -> T <= start + WEEK ->
  prime_status_end p <> SCHD_INFINITY ->
  start <= prime_status_end p <= T -> prime_good T (prime_status_end p) p -> flip_policy conf p = Some p' ->
  prime_good T (prime_status_end p) p'.
Proof.
  intros H0 HT Hinf Hd Hg Hf. destruct (ends_right _ Hd) as (e & He & Hr).
  destruct (flip_policy_spec conf p e He) as (q & Hq & Hqp & Hqe). rewrite Hf in Hq. injection Hq as <-.
  apply right_end_good with e; [done|done|lia|lia| |done].
  destruct Hg as [[? _]|(_ & _ & Hg)]; [done|]. by rewrite Hqp.
Qed.

End Weeks.

(** C24. On regular weeks, when the status of prime time of the policy and its end
    are those of the time now, as after [update_cycle_status], and every job can be
    run, then after a simulation up to a time within a week, with an event left
    after it, the status is that of the time simulated. *)
Theorem simulate_prime_right (off : Z) (yd : Z -> Z) (s : sim) (past ahead : list entry) (T : Z) (fuel : nat) :
  cal_ok s past ahead -> server_time s <= T <= server_time s + WEEK ->
  holidays_fit conf -> holiday_year conf <> 0 ->
  (forall date, server_time s <= date <= T + 8 * DAY -> wall off yd date) ->
  (forall d, server_time s <= d <= T -> week_carries conf yd (day off d) = true) ->
  is_prime_time conf (server_time s) = Some (status_of (is_prime (sim_policy s))) ->
  end_prime_status conf (server_time s) = Some (prime_status_end (sim_policy s)) ->
  (perform_all run_ok (actions s) (due T (todo ahead))).2 = true -> later T (todo ahead) <> [] ->
  (length (proper (todo ahead)) + Z.to_nat (T + 1 - server_time s) < fuel)%nat ->
  exists r t s', simulate_events conf run_ok fuel (SIM_TIME T) s = Some ((r, t), s') /\
    server_time s' = T /\
    is_prime_time conf T = Some (status_of (is_prime (sim_policy s'))).
Proof.
  intros K Ht Hfit Hy Hw Hc Hp He Hok Hlater Hf. pose proof (cal_time _ _ _ K) as H0.
  destruct (ends_right off yd (server_time s) T Hfit Hy Hw Hc (server_time s)) as (e & He' & Hr); [lia|].
  rewrite He in He'. injection He' as Hee.
  destruct (simulate_all conf run_ok (server_time s) T
    (ends_later off yd (server_time s) T Hfit Hy Hw Hc) (prime_good T)) with s past ahead fuel
    as (r & t & s' & Hrun & Hres); try done.
  - intros t p p'. apply prime_good_same.
  - intros t t' p. apply prime_good_time.
  - intros p p' Hi Hd Hg Hfl. eapply prime_good_flip; try done; try lia.
  - lia.
  - apply right_end_good with e; try done. lia.
  - exists r, t, s'. split; [done|]. destruct (perform_all _ _ _) as [acts ok]. cbn in Hok. subst ok.
    destruct Hres as (_ & past' & ahead' & [F1 F2 F3]).
    assert (ahead' <> []) as Hne by (intros ->; by rewrite <-F1 in Hlater).
    destruct F2 as [(_ & HsT & _)|(_ & _ & _ & _ & ?)]; [|done]. split; [done|].
    destruct (F3 Hne) as (_ & [[Hi Hg]|(Hi & Hg & Hn)] & Hend); [apply Hg; lia|].
    destruct Hend as [|Hend]; [done|]. apply Hg. lia.
Qed.

(** ** A status that ends where it begins *)

Section Stuck.
Context (T D : Z).
Hypothesis Hstuck : end_prime_status conf D = Some D.
Hypothesis HD : D <> SCHD_INFINITY.
Hypothesis HT : D <= T.

(** The next event is the one of the policy at [D], and the others come later. *)
Definition stuck (s : sim) (past ahead : list entry) : Prop :=
  loop_ok 0 (fun _ _ => True) s past ahead /\ prime_status_end (sim_policy s) = D /\
  proper (todo ahead) <> [] /\ forall e, e ∈ proper (todo ahead) -> D < ev_time e.

Lemma stuck_policy (s : sim) (past ahead : list entry) : stuck s past ahead ->
  exists n ahead0, ahead = n :: ahead0 /\ n.2 = policy_event (sim_policy s).
Proof.
  intros ([K Hnear He _ _ _] & Hp & Hne & Hlater). destruct ahead as [|n ahead0]; [done|]. exists n, ahead0.
  split; [done|]. pose proof (todo_hd n ahead0 He) as Hin.
  destruct (decide (ev_type n.2 = TIMED_POLICY_EVENT)) as [Ht|Ht]; [by destruct (policy_ahead _ _ _ _ K Hin Ht)|].
  exfalso. pose proof (Hlater n.2 (proj2 (elem_proper _ _) (conj Ht Hin))) as Hlt. destruct (Hnear He); lia.
Qed.

Lemma stuck_forever (fuel : nat) : forall (s : sim) (past ahead : list entry) (r t : Z), stuck s past ahead ->
  simulate_loop conf run_ok fuel (hd_addr ahead) T r t s = None.
Proof.
  induction fuel as [|fuel IH]; intros s past ahead r t Hst; [done|].
  destruct (stuck_policy s past ahead Hst) as (n & ahead0 & -> & Hn).
  destruct Hst as (Lo & Hp & Hne & Hlater). pose proof Lo as [K Hnear He Hex H0 _].
  destruct (step_entry 0 (fun _ _ => True) s past n ahead0 Lo) as (Hb & (x & Hx & Hpx) & _ & Hnow).
  assert (ev_time n.2 = D) as Htn by (rewrite Hn; exact Hp).
  rewrite <-Hp in Hstuck. destruct (flip_policy_spec conf _ _ Hstuck) as (p' & Hflip & _ & Hpe). rewrite Hp in Hpe.
  destruct (loop_next 0 (fun _ _ => True) s past n ahead0 p' (actions s))
    as (s' & past' & ahead' & Hrun & L' & (H1 & H2 & H3) & Hpr & _).
  - apply cal_policy_step; [done|done|]. right. lia.
  - apply (cal_next _ _ _ K).
  - lia.
  - done.
  - replace (hd_addr (n :: ahead0)) with n.1 by by destruct n.
    rewrite (loop_round conf run_ok s n p' (actions s) s' (hd_addr ahead') Hb); [|by exists x| |done|lia].
    + apply (IH s' past' ahead'). split; [done|]. rewrite (todo_step n ahead0 He), Hn, proper_policy in Hne, Hlater.
      rewrite Hpr, H2. done.
    + refine (perform_policy conf run_ok (set_time (ev_time n.2) s) n.1 x p' Hx Hb _ Hflip). by rewrite Hpx.
Qed.

Lemma simulate_stuck (s : sim) (past ahead : list entry) (fuel : nat) : cal_ok s past ahead ->
  prime_status_end (sim_policy s) = D -> proper (todo ahead) <> [] ->
  (forall e, e ∈ proper (todo ahead) -> D < ev_time e) ->
  simulate_events conf run_ok fuel (SIM_TIME T) s = None.
Proof.
  intros K Hp Hne Hlater.
  destruct (enter conf run_ok T s past ahead fuel K) as (s1 & past1 & ahead1 & [K1 (H1 & H2 & H3) H4 H5 H6 H7] & He & ->).
  assert (stuck s1 past1 ahead1) as Hst.
  { split; [split; try done; apply K1|]. by rewrite H2, H4. }
  pose proof Hst as Hst'. apply stuck_policy in Hst' as (n & ahead0 & -> & _).
  destruct (step_entry 0 (fun _ _ => True) s1 past1 n ahead0 (proj1 Hst)) as (Hb & _).
  replace (hd_addr (n :: ahead0)) with n.1 by by destruct n. rewrite cell_not_null by done.
  unfold bind. replace n.1 with (hd_addr (n :: ahead0)) by by destruct n. by rewrite (stuck_forever fuel s1 past1).
Qed.

End Stuck.

(** When the status of prime time that begins at a time is said to end at that
    time, as on a day whose prime and non-prime time begin together, a simulation
    past it with an event left after it never ends. *)
Theorem simulate_never_ends (s : sim) (past ahead : list entry) (T : Z) : cal_ok s past ahead ->
  prime_status_end (sim_policy s) <> SCHD_INFINITY -> prime_status_end (sim_policy s) <= T ->
  end_prime_status conf (prime_status_end (sim_policy s)) = Some (prime_status_end (sim_policy s)) ->
  proper (todo ahead) <> [] ->
  (forall e, e ∈ proper (todo ahead) -> prime_status_end (sim_policy s) < ev_time e) ->
  forall fuel, simulate_events conf run_ok fuel (SIM_TIME T) s = None.
Proof. intros K Hi HT Hst Hne Hl fuel. by apply (simulate_stuck T _ Hst Hi HT s past ahead). Qed.

End Simulation.
End EventProps.
