(* ===== verification/EventScan.v ===== *)
(** * The scans of a calendar

    Module [EventScan]: the scans of a calendar in the heap are those that
    [Calendar] makes of the list of the events from the next one on, on which
    [check_limits] is modelled; and what they tell. *)

From Stdlib Require Import ZArith Lia Ascii String.
From stdpp Require Import gmap sorting.
From S2P Require Import Prelude SchedData TimeData EventList EventHeap EventCal.
From S2P Require SchedData.
Import Data Events EventHeap EventCal.

Module EventScan.

Implicit Types (s : sim) (l : list entry).

(** An event as [Calendar] has it *)
Definition view (e : event) : timed_event :=
  TimedEvent (ev_disabled e) (ev_type e) (ev_time e)
    (match ev_ptr e with Some (PResv rr) => Some rr | _ => None end).
Definition views l : list timed_event := view <$> l.*2.

Lemma views_scan (ig : bool) (mask : Z) l :
  SchedData.Calendar.find_init_timed_event (views l) ig mask = views (scan ig mask l).
Proof.
  induction l as [|[b e] l IH]; [done|]. unfold views in *. cbn. unfold stops_at.
  destruct (ig && ev_disabled e); [done|]. by destruct (Z.land _ _ =? 0).
Qed.

Lemma exists_run_refines s l (end_ : Z) : lseg (cells s) (Events.next_event (calendar s)) l ->
  exists_run_event end_ s = Some (SchedData.Calendar.exists_run_event (Some (views l)) end_, s).
Proof.
  intros Hl. unfold exists_run_event, SchedData.Calendar.exists_run_event, get_next_event.
  rewrite bind_bind. mstep (eq_refl (get s)).
  change (SchedData.Calendar.get_next_event (Some (views l))) with (views l).
  rewrite views_scan. destruct (decide (Events.next_event (calendar s) = NULL)) as [Hn|Hn].
  { rewrite Hn in Hl |- *. by rewrite (lseg_null _ _ Hl). }
  rewrite cell_not_null by done. mstep (find_init_ok s _ l true TIMED_RUN_EVENT Hl).
  pose proof (lseg_scan _ _ _ true TIMED_RUN_EVENT Hl) as Hs.
  destruct (scan true TIMED_RUN_EVENT l) as [|[b e] l']; [done|].
  destruct Hs as (_ & Hb & x & Hx & <- & _). cbn [hd_addr]. rewrite cell_not_null by done.
  by mstep (load_cell b x s Hx).
Qed.

Lemma exists_resv_loop_refines s (end_ : Z) : forall (n k : nat) l a, Forall (fun k => typed k.2 = true) l ->
  lseg (cells s) a l -> (length l < n)%nat -> (length l < k)%nat ->
  exists_resv_loop n a end_ s = Some (SchedData.Calendar.exists_resv_loop k (views l) end_, s).
Proof.
  induction n as [|n IH]; intros [|k] l a Hty Hl Hn Hk; [lia..|]. cbn [exists_resv_loop].
  pose proof (find_next_ok s a l false TIMED_RUN_EVENT Hl) as Hnext.
  destruct l as [|[b e] l]; [cbn in Hl; by rewrite Hl|].
  pose proof (lseg_suffix _ _ [(b, e)] l Hl) as Htail.
  destruct Hl as (-> & Hb & x & Hx & <- & _). rewrite cell_not_null by done. mstep (load_cell b x s Hx).
  inversion Hty as [|? ? Htx Htl]; subst. cbn [tail snd] in *.
  unfold views. cbn [fmap list_fmap snd SchedData.Calendar.exists_resv_loop view te_time te_type te_ptr].
  change (ev_time (plain x)) with (ev_time x). change (ev_type (plain x)) with (ev_type x).
  change (ev_ptr (plain x)) with (ev_ptr x).
  destruct (ev_time x <=? end_); [|done].
  assert (Hrec : (let* te := find_next_timed_event b false TIMED_RUN_EVENT in exists_resv_loop n te end_) s =
    Some (SchedData.Calendar.exists_resv_loop k (views (scan false TIMED_RUN_EVENT l)) end_, s)).
  { mstep Hnext. destruct (scan_suffix false TIMED_RUN_EVENT l) as (l1 & Hsp & _). apply IH.
    - rewrite Hsp, Forall_app in Htl. apply Htl.
    - by eapply lseg_scan.
    - apply (f_equal length) in Hsp. rewrite length_app in Hsp. cbn in Hn. lia.
    - apply (f_equal length) in Hsp. rewrite length_app in Hsp. cbn in Hk. lia. }
  cbn [SchedData.Calendar.find_next_timed_event]. fold (views l). rewrite views_scan.
  destruct (ev_type x =? TIMED_RUN_EVENT) eqn:Ht; cbn [andb]; [|exact Hrec].
  assert (exists rr, ev_ptr x = Some (PResv rr)) as [rr Hrr].
  { change (typed (plain x)) with (typed x) in Htx. unfold typed in Htx. apply Z.eqb_eq in Ht. rewrite Ht in Htx.
    destruct (ev_ptr x) as [[rr| |nd]|]; [by exists rr| | |done]; by destruct (ev_func x) as [[]|]. }
  rewrite Hrr. destruct (rr_is_resv rr); [done|exact Hrec].
Qed.

Lemma exists_resv_refines s l (end_ : Z) : Forall (fun k => typed k.2 = true) l ->
  lseg (cells s) (Events.next_event (calendar s)) l ->
  exists_resv_event end_ s = Some (SchedData.Calendar.exists_resv_event (Some (views l)) end_, s).
Proof.
  intros Hty Hl. unfold exists_resv_event, get_next_event. rewrite bind_bind. mstep (eq_refl (get s)).
  apply (fueled_list _ s _ l _ Hl). intros n Hn. unfold SchedData.Calendar.exists_resv_event.
  change (SchedData.Calendar.get_next_event (Some (views l))) with (views l).
  apply exists_resv_loop_refines; [done|done|done|]. unfold views. rewrite !length_fmap. lia.
Qed.

(** On a calendar [exists_run_event] and [exists_resv_event] return, and what they
    return is what the scans of [Calendar] find in the list of its events from the
    next one on. *)
Lemma scans_refine s past ahead (end_ : Z) : cal_ok s past ahead ->
  exists_run_event end_ s = Some (SchedData.Calendar.exists_run_event (Some (views ahead)) end_, s) /\
  exists_resv_event end_ s = Some (SchedData.Calendar.exists_resv_event (Some (views ahead)) end_, s).
Proof.
  intros K. pose proof (lseg_suffix _ _ _ _ (cal_list _ _ _ K)) as Hl. rewrite <-(cal_next _ _ _ K) in Hl.
  split; [by apply exists_run_refines|]. apply exists_resv_refines; [|done].
  pose proof (cal_typed _ _ _ K) as H. by apply Forall_app in H as [_ H].
Qed.

(** ** What the scans tell *)

Definition runs_by (end_ : Z) (e : event) : Prop :=
  ev_type e = TIMED_RUN_EVENT /\ (end_ = 0 \/ ev_time e <= end_).

Lemma typed_run_mask (e : event) : typed e = true ->
  (Z.land (ev_type e) TIMED_RUN_EVENT =? 0) = negb (ev_type e =? TIMED_RUN_EVENT).
Proof.
  unfold typed. intros H. repeat case_match; try done;
    rewrite ?orb_true_iff, ?Z.eqb_eq in H; destruct_or?; by rewrite H.
Qed.

Lemma scan_runs l : Forall (fun k => typed k.2 = true) l -> in_order l -> forall end_ : Z,
  match scan true TIMED_RUN_EVENT l with
  | [] => ~ Exists (runs_by end_) (todo l)
  | (b, e) :: _ => Exists (runs_by end_) (todo l) <-> end_ = 0 \/ ev_time e <= end_
  end.
Proof.
  intros Hty Ho end_. induction Hty as [|[b e] l He Hty IH]; [by intros ?%Exists_nil|].
  pose proof Ho as Ho'. apply StronglySorted_inv in Ho' as [Ho' _]. specialize (IH Ho'). cbn [scan snd] in *.
  unfold stops_at. rewrite typed_run_mask by done. rewrite todo_cons. cbn [snd].
  destruct (ev_disabled e) eqn:Hd; cbn [andb]; [done|].
  destruct (Z.eqb_spec (ev_type e) TIMED_RUN_EVENT) as [Ht|Ht]; cbn [negb app].
  - rewrite Exists_exists. split.
    + intros (y & Hy & _ & [H|H]); [by left|right]. apply elem_of_cons in Hy as [->|Hy]; [done|].
      apply elem_of_todo in Hy as (_ & c & Hy).
      pose proof (order_hd_time (b, e) l (c, y) Ho (list_elem_of_further _ _ _ Hy)). cbn in *. lia.
    + intros H. exists e. split; [by left|by split].
  - assert (Exists (runs_by end_) (e :: todo l) <-> Exists (runs_by end_) (todo l)) as Hx.
    { rewrite Exists_cons. split; [intros [[? _]|?]; done|by right]. }
    destruct (scan true TIMED_RUN_EVENT l) as [|[c y] l']; by rewrite Hx.
Qed.

(** The start of a reservation by the time *)
Definition resv_by (end_ : Z) (e : event) : Prop :=
  ev_type e = TIMED_RUN_EVENT /\ (exists rr, ev_ptr e = Some (PResv rr) /\ rr_is_resv rr = true) /\ ev_time e <= end_.

(** A scan for the runs leaves out no start of a reservation. *)
Lemma scan_resv l (end_ : Z) :
  Exists (resv_by end_) (scan false TIMED_RUN_EVENT l).*2 <-> Exists (resv_by end_) l.*2.
Proof.
  destruct (scan_suffix false TIMED_RUN_EVENT l) as (l1 & Hl & Hf). rewrite Hl at 2. rewrite fmap_app, Exists_app.
  split; [by right|]. intros [H|]; [exfalso|done]. clear Hl.
  induction Hf as [|n l1 Hn _ IH]; [by apply Exists_nil in H|]. apply Exists_cons in H as [(Ht & _)|H]; [|by apply IH].
  unfold stops_at in Hn. cbn [andb] in Hn. by rewrite Ht in Hn.
Qed.

Lemma resv_loop_right (end_ : Z) : forall (k : nat) l, in_order l -> (length l < k)%nat ->
  SchedData.Calendar.exists_resv_loop k (views l) end_ = true <-> Exists (resv_by end_) l.*2.
Proof.
  induction k as [|k IH]; intros l Ho Hk; [lia|]. destruct l as [|[b e] l]; [by rewrite Exists_nil|].
  unfold views. cbn [fmap list_fmap snd SchedData.Calendar.exists_resv_loop view te_time te_type te_ptr]. cbn in Hk.
  destruct (Z.leb_spec (ev_time e) end_) as [Ht|Ht]; cycle 1.
  { split; [done|]. intros (y & Hy & _ & _ & Hle)%Exists_exists. exfalso.
    change (e :: (l.*2)) with (((b, e) :: l).*2) in Hy. apply list_elem_of_fmap in Hy as (q & -> & Hq).
    pose proof (order_hd_time (b, e) l q Ho Hq). cbn in *. lia. }
  pose proof Ho as Ho'. apply StronglySorted_inv in Ho' as [Ho' _].
  assert (SchedData.Calendar.exists_resv_loop k (views (scan false TIMED_RUN_EVENT l)) end_ = true <->
    Exists (resv_by end_) l.*2) as Hrec.
  { destruct (scan_suffix false TIMED_RUN_EVENT l) as (l1 & Hl & _). rewrite IH; [apply scan_resv| |].
    - rewrite Hl in Ho'. by apply in_order_app in Ho' as (_ & ? & _).
    - apply (f_equal length) in Hl. rewrite length_app in Hl. lia. }
  cbn [SchedData.Calendar.find_next_timed_event]. fold (views l). rewrite views_scan, Exists_cons.
  assert ((if (ev_type e =? TIMED_RUN_EVENT) &&
              match match ev_ptr e with Some (PResv rr) => Some rr | _ => None end with
              | Some rr => rr_is_resv rr | None => false end then true else false) = true <-> resv_by end_ e) as Hhd.
  { unfold resv_by. destruct (Z.eqb_spec (ev_type e) TIMED_RUN_EVENT) as [Hr|Hr]; cbn [andb]; [|by split; [|intros [? _]]].
    destruct (ev_ptr e) as [[rr| |nd]|]; [destruct (rr_is_resv rr) eqn:Hv| | |]; split; try done; naive_solver congruence. }
  destruct (_ && _); [tauto|]. rewrite Hrec. split; [by right|]. intros [H|]; [|done]. by apply Hhd in H.
Qed.

(** C27. On a calendar [exists_run_event] tells whether a job or reservation that is still
    to run starts by the time, or at all for the time 0; [exists_resv_event] tells
    whether a reservation starts by the time, between now and then.  Neither changes
    anything. *)
Theorem scans_tell s past ahead (end_ : Z) : cal_ok s past ahead ->
  exists run resv : bool, exists_run_event end_ s = Some (run, s) /\ exists_resv_event end_ s = Some (resv, s) /\
    (run = true <-> Exists (runs_by end_) (todo ahead)) /\ (resv = true <-> Exists (resv_by end_) ahead.*2).
Proof.
  intros K. destruct (scans_refine s past ahead end_ K) as [Hrun Hresv]. do 2 eexists. split; [exact Hrun|].
  split; [exact Hresv|]. pose proof (cal_typed _ _ _ K) as Hty. apply Forall_app in Hty as [_ Hty].
  pose proof (cal_order _ _ _ K) as Ho. apply in_order_app in Ho as (_ & Ho & _). split.
  - pose proof (scan_runs ahead Hty Ho end_) as Hs. unfold SchedData.Calendar.exists_run_event.
    change (SchedData.Calendar.get_next_event (Some (views ahead))) with (views ahead). rewrite views_scan.
    destruct (scan true TIMED_RUN_EVENT ahead) as [|[b e] l]; [done|].
    unfold views. cbn [fmap list_fmap snd view te_time]. rewrite Hs. rewrite Z.gtb_ltb.
    destruct (Z.eqb_spec end_ 0), (Z.ltb_spec end_ (ev_time e)); cbn; naive_solver lia.
  - unfold SchedData.Calendar.exists_resv_event.
    change (SchedData.Calendar.get_next_event (Some (views ahead))) with (views ahead).
    apply resv_loop_right; [done|]. unfold views. rewrite !length_fmap. lia.
Qed.

End EventScan.
