(* ===== verification/EventDup.v ===== *)
(** * Copies of a calendar

    Module [EventDup]: [dup_event_list] copies a calendar event by event into new
    cells, for the jobs, reservations and nodes of another universe, when it finds
    all of them there; the calendar copied is kept. *)

From Stdlib Require Import ZArith Lia Ascii String.
From stdpp Require Import gmap sorting.
From S2P Require Import Prelude SchedData TimeData EventList EventSim EventHeap EventCal EventMake.
Import Data Conf Events EventSim EventHeap EventCal EventMake.

Module EventDup.

Implicit Types (s : sim) (n : entry) (l : list entry) (e x y : event) (a b c te : Z).

Section Copies.
Context (all : list resource_resv) (nodes : list node_info).

(** The copy of an event; [None] when what it is of is not in the other universe *)
Definition copy e : option event :=
  ptr ← find_event_ptr all nodes e;
  nm ← determine_event_name (ev_type e) ptr (ev_func e);
  Some (Event (ev_disabled e) nm (ev_type e) (ev_time e) (Some ptr) (ev_func e) (ev_func_arg e) NULL NULL).

Lemma dup_one s b x e' : cells s !! b = Some x -> b <> NULL -> copy (plain x) = Some e' ->
  dup_timed_event all nodes b s = Some (brk s, with_cell s e').
Proof.
  intros Hx Hb Hc. unfold dup_timed_event. rewrite cell_not_null by done. mstep (load_cell b x s Hx).
  unfold copy in Hc. change (find_event_ptr all nodes (plain x)) with (find_event_ptr all nodes x) in Hc.
  destruct (find_event_ptr all nodes x) as [ptr|]; [|done]. cbn in Hc |- *.
  destruct (determine_event_name (ev_type x) ptr (ev_func x)) as [nm|]; [|done]. by injection Hc as <-.
Qed.

(** The cells up to an address but one are kept, and so is what is no cell. *)
Definition kept s s' c : Prop :=
  brk s <= brk s' /\ calendar s' = calendar s /\ same_universe s s' /\
  forall b, b < brk s -> b <> c -> cells s' !! b = cells s !! b.

Lemma allocated s a l b : fresh s -> lseg (cells s) a l -> b ∈ l.*1 -> b < brk s.
Proof.
  intros [_ Hf] Hl Hin. apply list_elem_of_fmap in Hin as ([d e] & -> & Hin). cbn.
  destruct (lseg_lookup _ _ _ _ _ Hl Hin) as (_ & x & Hx & _).
  destruct (Z.lt_ge_cases d (brk s)); [done|]. by rewrite Hf in Hx.
Qed.

(** An event at the end of a list *)
Lemma append_cell s a l1 c y e' : fresh s -> lseg (cells s) a (l1 ++ [(c, plain y)]) -> cells s !! c = Some y ->
  plain e' = e' ->
  let s1 := set_cells (<[c := set_next (brk s) y]> (cells (with_cell s e'))) (with_cell s e') in
  lseg (cells s1) a (l1 ++ [(c, plain y); (brk s, e')]) /\ cells s1 !! brk s = Some e' /\ fresh s1 /\ kept s s1 c.
Proof.
  intros Hf Hl Hc Hp s1. pose proof (fresh_not_in _ _ _ Hf Hl) as Hin.
  assert (c ∈ (l1 ++ [(c, plain y)]).*1) as Hcin by (rewrite fmap_app; apply elem_of_app; right; by left).
  pose proof (allocated s a _ c Hf Hl Hcin) as Hcb. pose proof (fresh_cell s e' Hf) as Hf'.
  assert (brk s <> NULL) as Hb0 by (destruct Hf; lia). split_and!.
  - apply (lseg_link _ l1 c y (brk s) [(brk s, e')] a []).
    + by apply lseg_cell.
    + cbn. by rewrite lookup_insert_ne by lia.
    + intros b Hb Hb'. apply list_elem_of_singleton in Hb'. cbn in Hb'. by subst b.
    + cbn. split_and!; [done|done|]. exists e'. rewrite lookup_insert_eq. split_and!; [done|done|by rewrite <-Hp].
  - cbn. rewrite lookup_insert_ne by lia. apply lookup_insert_eq.
  - destruct Hf' as [H0 Hf']. split; [done|]. intros b Hb. cbn. rewrite lookup_insert_ne by (cbn in Hb; lia).
    by apply Hf'.
  - split_and!; [cbn; lia|done|done|]. intros b Hb Hbc. cbn. by rewrite !lookup_insert_ne by lia.
Qed.

Lemma kept_list s s' c a l : fresh s -> kept s s' c -> lseg (cells s) a l -> ~ c ∈ l.*1 -> lseg (cells s') a l.
Proof.
  intros Hf (_ & _ & _ & Hk) Hl Hc. apply lseg_frame with (cells s); [|done]. intros b Hb.
  apply Hk; [by eapply allocated|congruence].
Qed.

Lemma kept_trans s s1 s2 c c' : kept s s1 c -> kept s1 s2 c' -> brk s <= c' -> kept s s2 c.
Proof.
  intros (A1 & A2 & (A3 & A4 & A5) & A6) (B1 & B2 & (B3 & B4 & B5) & B6) Hc'. split_and!.
  - lia.
  - by rewrite B2.
  - unfold same_universe. by rewrite B3, B4, B5.
  - intros b Hb Hbc. rewrite B6, A6; [done|done|done|lia|lia].
Qed.

Lemma copy_plain e e' : copy e = Some e' -> plain e' = e'.
Proof.
  unfold copy. destruct (find_event_ptr all nodes e) as [ptr|]; [|done]. cbn.
  destruct (determine_event_name _ _ _); [|done]. by intros [= <-].
Qed.

Lemma dup_loop_ok l2 : forall (es : list event), mapM copy l2.*2 = Some es ->
  forall (fuel : nat) s ote head l1 c y, (length l2 < fuel)%nat -> fresh s ->
  lseg (cells s) ote l2 -> lseg (cells s) head (l1 ++ [(c, plain y)]) -> cells s !! c = Some y ->
  ~ c ∈ l2.*1 ->
  exists s' l', dup_list_loop all nodes fuel ote c head s = Some (head, s') /\
    lseg (cells s') head (l1 ++ (c, plain y) :: l') /\ l'.*2 = es /\ fresh s' /\ kept s s' c /\
    Forall (fun n => brk s <= n.1) l'.
Proof.
  induction l2 as [|[b e] l2 IH]; intros es Hes [|fuel] s ote head l1 c y Hn Hf H2 H1 Hc Hd; cbn in Hn; try lia;
    cbn [dup_list_loop].
  { cbn in Hes, H2. injection Hes as <-. rewrite H2. exists s, []. split_and!; done. }
  pose proof H2 as (-> & Hb & x & Hx & <- & Htail). rewrite cell_not_null by done.
  cbn [fmap list_fmap snd mapM] in Hes. destruct (copy (plain x)) as [e'|] eqn:He; [|done].
  cbn in Hes. destruct (mapM copy l2.*2) as [es'|] eqn:Hes'; [|done]. injection Hes as <-.
  mstep (dup_one s b x e' Hx Hb He).
  destruct (lseg_lookup _ _ _ c (plain y) H1) as (Hc0 & _); [apply elem_of_app; right; by left|].
  rewrite cell_not_null by done. cbn [negb]. rewrite bind_bind.
  pose proof (allocated s head _ c Hf H1) as Hcb. specialize (Hcb ltac:(rewrite fmap_app; apply elem_of_app; right; by left)).
  assert (cells (with_cell s e') !! c = Some y) as Hc' by (cbn; by rewrite lookup_insert_ne by lia).
  mstep (upd_cell c (set_next (brk s)) y (with_cell s e') Hc'). set (s1 := set_cells _ _).
  destruct (append_cell s head l1 c y e' Hf H1 Hc (copy_plain _ _ He)) as (Hl1 & Hnew & Hf1 & Hk). fold s1 in Hl1, Hnew, Hf1, Hk.
  assert (cells s1 !! b = Some x) as Hx1.
  { destruct Hk as (_ & _ & _ & Hk). rewrite Hk; [done| |].
    - apply (allocated s b _ b Hf H2). by left.
    - intros ->. apply Hd. by left. }
  mstep (load_cell b x s1 Hx1).
  change [(c, plain y); (brk s, e')] with ([(c, plain y)] ++ [(brk s, e')]) in Hl1.
  rewrite app_assoc in Hl1. assert (lseg (cells s1) head ((l1 ++ [(c, plain y)]) ++ [(brk s, plain e')])) as Hl1'
    by by rewrite (copy_plain _ _ He).
  destruct (IH es' eq_refl fuel s1 (ev_next x) head (l1 ++ [(c, plain y)]) (brk s) e')
    as (s' & l' & Hrun & Hl' & Hes2 & Hf' & Hk' & Hnew'); [lia|done| |done|done| |].
  { eapply kept_list; [exact Hf|exact Hk|done|]. intros H. apply Hd. by right. }
  { apply (fresh_not_in _ _ _ Hf Htail). }
  exists s', ((brk s, e') :: l'). split_and!.
  - done.
  - rewrite <-app_assoc in Hl'. cbn in Hl'. by rewrite (copy_plain _ _ He) in Hl'.
  - cbn. by rewrite Hes2.
  - done.
  - apply (kept_trans s s1 s' c (brk s)); [done|done|lia].
  - constructor; [cbn; lia|]. eapply Forall_impl; [exact Hnew'|]. intros n Hn'. cbn in *. lia.
Qed.

Lemma dup_list_ok s a l (es : list event) : fresh s -> lseg (cells s) a l -> l <> [] -> mapM copy l.*2 = Some es ->
  exists s' head l', dup_timed_event_list all nodes a s = Some (head, s') /\
    lseg (cells s') head l' /\ l'.*2 = es /\ fresh s' /\ kept s s' NULL /\ Forall (fun n => brk s <= n.1) l'.
Proof.
  intros Hf Hl Hne Hes. destruct l as [|[b e] l]; [done|].
  pose proof Hl as (-> & Hb & x & Hx & <- & Htail).
  cbn [fmap list_fmap snd mapM] in Hes. destruct (copy (plain x)) as [e'|] eqn:He; [|done].
  cbn in Hes. destruct (mapM copy l.*2) as [es'|] eqn:Hes'; [|done]. injection Hes as <-.
  pose proof (allocated s b _ b Hf Hl ltac:(by left)) as Hbb. pose proof Hf as [Hf0 _].
  set (s1 := with_cell s e'). pose proof (fresh_cell s e' Hf) as Hf1. fold s1 in Hf1.
  assert (lseg (cells s1) (brk s) ([] ++ [(brk s, plain e')])) as H1.
  { cbn. split_and!; [done|lia|]. exists e'. rewrite lookup_insert_eq. split_and!; [done|done|].
    by rewrite <-(copy_plain _ _ He). }
  pose proof (lseg_cell s e' _ _ Hf Htail) as Htail1. fold s1 in Htail1.
  pose proof (lseg_size _ _ _ Hl) as Hsz. cbn in Hsz.
  destruct (dup_loop_ok l es' Hes' (size (cells s)) s1 (ev_next x) (brk s) [] (brk s) e')
    as (s' & l' & Hrun & Hl' & Hes2 & Hf' & Hk & Hnew); try done.
  { apply lookup_insert_eq. } { apply (fresh_not_in _ _ _ Hf Htail). }
  exists s', (brk s), ((brk s, plain e') :: l'). split_and!.
  - unfold dup_timed_event_list, fueled. cbn [dup_list_loop]. rewrite cell_not_null by done.
    mstep (dup_one s b x e' Hx Hb He). change (negb (NULL =? NULL)) with false. cbn iota. msimp.
    assert (cells s1 !! b = Some x) as Hx1 by (cbn; by rewrite lookup_insert_ne by lia).
    by mstep (load_cell b x s1 Hx1).
  - done.
  - cbn. by rewrite Hes2, (copy_plain _ _ He).
  - done.
  - assert (kept s s1 NULL) as Hk1.
    { split_and!; [cbn; lia|done|done|]. intros d Hd _. cbn. by rewrite lookup_insert_ne by lia. }
    apply (kept_trans s s1 s' NULL (brk s)); [done|done|lia].
  - constructor; [cbn; lia|]. eapply Forall_impl; [exact Hnew|]. intros n Hn'. cbn in *. lia.
Qed.

(** ** The copy of a calendar *)

(** An event has the name [determine_event_name] gives it. *)
Definition well_named e : Prop :=
  forall ptr, ev_ptr e = Some ptr -> determine_event_name (ev_type e) ptr (ev_func e) = Some (ev_name e).

Lemma copy_same e e' : copy e = Some e' -> typed e = true -> well_named e ->
  ev_name e' = ev_name e /\ ev_type e' = ev_type e /\ ev_time e' = ev_time e /\ ev_disabled e' = ev_disabled e /\
  ev_func e' = ev_func e /\ ev_func_arg e' = ev_func_arg e.
Proof.
  intros Hc Hty Hn. unfold copy in Hc. destruct (find_event_ptr all nodes e) as [ptr|] eqn:Hp; [|done].
  cbn in Hc. destruct (determine_event_name (ev_type e) ptr (ev_func e)) as [nm|] eqn:Hd; [|done].
  injection Hc as <-. split_and!; try done. cbn. unfold well_named in Hn. unfold typed in Hty.
  destruct (ev_ptr e) as [[rr| |nd]|] eqn:Ep; [| | |done]; specialize (Hn _ eq_refl).
  - destruct (ev_func e); [done|]. apply orb_true_iff in Hty. rewrite !Z.eqb_eq in Hty.
    unfold find_event_ptr in Hp. rewrite Ep in Hp.
    destruct (find_resource_resv_by_time all (rr_name rr) (rr_start rr)) as [rr'|] eqn:Hf;
      [|by destruct Hty as [Ht|Ht]; rewrite Ht in Hp].
    apply List.find_some in Hf as [_ Hf]. apply andb_true_iff in Hf as [Hf _]. unfold streq in Hf. simp_bool.
    destruct Hty as [Ht|Ht]; rewrite Ht in Hp, Hd, Hn; cbn in Hp, Hd, Hn; injection Hp as <-; cbn in Hd; congruence.
  - assert (ptr = PPolicy) as ->.
    { unfold find_event_ptr in Hp. destruct (ev_func e) as [[]|]; try done;
        rewrite ?orb_true_iff, ?Z.eqb_eq in Hty; destruct_or?; rewrite Hty in Hp; cbn in Hp; congruence. }
    congruence.
  - destruct (ev_func e) as [[]|]; try done. apply Z.eqb_eq in Hty. unfold find_event_ptr in Hp.
    rewrite Ep, Hty in Hp. cbn in Hp. destruct (find_node_info nodes (ni_name nd)) as [nd'|] eqn:Hf; [|done].
    apply List.find_some in Hf as [_ Hf]. unfold streq in Hf. simp_bool. injection Hp as <-.
    rewrite Hty in Hd, Hn. cbn in Hd, Hn. congruence.
Qed.

(** The list from the first match on, when there is one *)
Lemma from_match_in (nm : option cstring) (ty tm : Z) l n : n ∈ l -> matches nm ty tm n.2 = true ->
  exists l1 k l2, l = l1 ++ k :: l2 /\ from_match nm ty tm l = k :: l2 /\ matches nm ty tm k.2 = true /\
    Forall (fun k' => matches nm ty tm k'.2 = false) l1.
Proof.
  intros Hn Hm. destruct (from_match_suffix nm ty tm l) as (l1 & Hl & Hf).
  destruct (from_match nm ty tm l) as [|k l2] eqn:E.
  - exfalso. rewrite app_nil_r in Hl. rewrite Hl in Hn. rewrite Forall_forall in Hf. by rewrite Hf in Hm.
  - exists l1, k, l2. split_and!; [done|done| |done]. clear -E. induction l as [|[b y] l IH]; [done|]. cbn in E.
    destruct (matches nm ty tm y) eqn:Em; [by injection E as <- _|by apply IH].
Qed.

Lemma matches_same e e' : ev_name e' = ev_name e -> ev_type e' = ev_type e -> ev_time e' = ev_time e ->
  matches (Some (ev_name e)) (ev_type e) (ev_time e) e' = true.
Proof.
  intros H1 H2 H3. unfold matches, streq. by rewrite H1, H2, H3, !Z.eqb_refl, bool_decide_eq_true_2.
Qed.

(** The copies one by one *)
Lemma copies_of l (l' : list entry) (es : list event) : mapM copy l.*2 = Some es -> l'.*2 = es ->
  Forall (fun n => typed n.2 = true) l -> Forall (fun n => well_named n.2) l ->
  Forall2 (fun n n' => ev_name n'.2 = ev_name n.2 /\ ev_type n'.2 = ev_type n.2 /\ ev_time n'.2 = ev_time n.2) l l'.
Proof.
  intros Hes <- Hty Hn. apply mapM_Some in Hes. rewrite Forall2_fmap in Hes.
  induction Hes as [|n n' l l' He Hes IH]; [constructor|].
  inversion Hty; inversion Hn; subst. constructor; [|by apply IH].
  by destruct (copy_same n.2 n'.2 He) as (? & ? & ? & _).
Qed.

(** C28. When every event of a calendar is of a job, reservation or node that the other
    universe has, [dup_event_list] copies it: its list has the copies of the events
    in order in new cells, its next event is the first with the name, type and time
    of the next event, and the calendar copied is kept. *)
Theorem dup_event_list_copies s past ahead (es : list event) : cal_ok s past ahead -> ahead <> [] ->
  mapM copy (past ++ ahead).*2 = Some es -> Forall (fun n => well_named n.2) (past ++ ahead) ->
  exists s' (c : event_list) l1 n l2, dup_event_list all nodes (calendar s) s = Some (Some c, s') /\ cal_ok s' past ahead /\
    lseg (cells s') (events c) (l1 ++ n :: l2) /\ (l1 ++ n :: l2).*2 = es /\ eol c = eol (calendar s) /\
    Forall (fun k => brk s <= k.1) (l1 ++ n :: l2) /\ Events.next_event c = n.1 /\
    exists k, head ahead = Some k /\
      matches (Some (ev_name k.2)) (ev_type k.2) (ev_time k.2) n.2 = true /\
      Forall (fun k' => matches (Some (ev_name k.2)) (ev_type k.2) (ev_time k.2) k'.2 = false) l1.
Proof.
  intros K Hne Hes Hnames. destruct ahead as [|k ahead]; [done|]. pose proof (cal_list _ _ _ K) as Hl.
  pose proof (cal_fresh _ _ _ K) as Hf. unfold dup_event_list.
  assert (events (calendar s) <> NULL) as He0 by (destruct past as [|[]], k; by destruct Hl as (-> & ? & _)).
  rewrite cell_not_null by done. rewrite bind_bind.
  destruct (dup_list_ok s _ _ es Hf Hl ltac:(by destruct past) Hes) as (s' & hd & l' & Hrun & Hl' & Hes' & Hf' & Hk & Hnew).
  mstep Hrun.
  assert (cal_ok s' past (k :: ahead)) as K'.
  { destruct Hk as (H1 & H2 & (H3 & H4 & H5) & H6). destruct K. split; rewrite ?H2, ?H3, ?H4; try done.
    apply lseg_frame with (cells s); [|done]. intros b Hb. apply H6; [by eapply allocated|].
    intros ->. apply list_elem_of_fmap in Hb as ([d y] & Hd & Hb). cbn in Hd. subst d.
    by destruct (lseg_lookup _ _ _ _ _ Hl Hb) as [? _]. }
  assert (hd <> NULL) as Hhd.
  { rewrite (lseg_hd _ _ _ Hl'). destruct l' as [|[d y] l']; [|by destruct Hl' as (-> & ? & _)].
    exfalso. subst es. apply mapM_Some, Forall2_length in Hes. rewrite fmap_app, length_app in Hes.
    cbn in Hes. lia. }
  rewrite cell_not_null by done. destruct Hk as (Hbrk & Hcal & Hsame & Hkeep).
  assert (Events.next_event (calendar s) = k.1) as Hnx by (rewrite (cal_next _ _ _ K); by destruct k).
  rewrite Hnx. destruct (lseg_lookup _ _ _ k.1 k.2 (cal_list _ _ _ K')) as (Hk0 & x & Hx & Hpx);
    [apply elem_of_app; right; destruct k; by left|]. rewrite cell_not_null by done. mstep (load_cell k.1 x s' Hx).
  change (ev_name x) with (ev_name (plain x)). change (ev_type x) with (ev_type (plain x)).
  change (ev_time x) with (ev_time (plain x)). rewrite Hpx.
  pose proof (copies_of _ l' es Hes Hes' (cal_typed _ _ _ K) Hnames) as Hcop.
  destruct (Forall2_lookup_l _ _ _ (length past) k Hcop) as (n & Hn & Hn1 & Hn2 & Hn3); [by apply list_lookup_middle|].
  apply list_elem_of_lookup_2 in Hn.
  destruct (from_match_in (Some (ev_name k.2)) (ev_type k.2) (ev_time k.2) l' n Hn) as (l1 & m & l2 & Hsp & Hm & Hmm & Hl1);
    [by apply matches_same|].
  assert (Forall (fun n => known n.2) l') as Hkn.
  { pose proof (Forall_known _ (cal_typed _ _ _ K)) as H. clear -H Hcop.
    induction Hcop as [|q q' l l' (_ & Hq & _) Hcop IH]; [constructor|]. inversion H; subst.
    constructor; [unfold known; by rewrite Hq|by apply IH]. }
  mstep (find_timed_ok s' hd l' (Some (ev_name k.2)) (ev_type k.2) (ev_time k.2) Hkn Hl'). rewrite Hm.
  subst l'. destruct m as [b y]. cbn [hd_addr].
  destruct (lseg_lookup _ _ _ b y Hl') as (Hb0 & _); [apply elem_of_app; right; by left|].
  rewrite cell_not_null by done. eexists s', _, l1, (b, y), l2. split; [done|]. split; [done|]. cbn [events eol Events.next_event].
  split_and!; try done. by exists k.
Qed.

End Copies.
End EventDup.
