(* ===== verification/EventScenes.v ===== *)
(** * Calendars and simulations

    Module [EventScenes]: calendars on the clock of [TimeScenes], the witnesses of
    the theorems on calendars, and what goes wrong in the source. *)

From Stdlib Require Import ZArith Lia Ascii String.
From stdpp Require Import gmap sorting.
From S2P Require Import Prelude Ranges SchedData TimeData PrimeTime PrimeProps DedTime EventList EventSim EventHeap EventCal EventNext EventRun EventProps EventScan EventMake EventDup TimeScenes.
Import Range Data Conf Prime PrimeProps Ded Events EventSim EventHeap EventCal EventNext EventRun EventProps EventScan EventMake EventDup TimeScenes.

Module EventScenes.

(** ** Calendars that are computed *)

(** The entries of a list in the heap, and whether they end at [NULL] *)
Fixpoint entries (fuel : nat) (m : gmap Z event) (a : Z) : list entry :=
  match fuel with
  | O => []
  | S fuel => if a =? NULL then []
              else match m !! a with Some x => (a, plain x) :: entries fuel m (ev_next x) | None => [] end
  end.
Fixpoint ends (fuel : nat) (m : gmap Z event) (a : Z) : bool :=
  if a =? NULL then true
  else match fuel with
       | O => false
       | S fuel => match m !! a with Some x => ends fuel m (ev_next x) | None => false end
       end.

Lemma entries_lseg (fuel : nat) (m : gmap Z event) : forall a, ends fuel m a = true -> lseg m a (entries fuel m a).
Proof.
  induction fuel as [|fuel IH]; intros a; cbn.
  - destruct (Z.eqb_spec a NULL); done.
  - destruct (Z.eqb_spec a NULL) as [|Hne]; [done|]. destruct (m !! a) as [x|] eqn:Hx; [|done].
    intros H. cbn. split_and!; [done|done|]. exists x. split_and!; [done|done|by apply IH].
Qed.

Definition before_evb (n k : entry) : bool :=
  (ev_time n.2 <? ev_time k.2) ||
  ((ev_time n.2 =? ev_time k.2) && (negb (ev_type k.2 =? TIMED_END_EVENT) || (ev_type n.2 =? TIMED_END_EVENT))).
Fixpoint orderb (l : list entry) : bool :=
  match l with
  | n :: (k :: _) as l' => before_evb n k && orderb l'
  | _ => true
  end.

Lemma orderb_ok (l : list entry) : orderb l = true -> in_order l.
Proof.
  intros H. apply Sorted_StronglySorted; [apply _|]. induction l as [|n l IH]; [constructor|].
  constructor; [apply IH; destruct l; [done|]; by apply andb_true_iff in H as [_ ?]|].
  destruct l as [|k l]; constructor. cbn [orderb] in H. apply andb_true_iff in H as [H _].
  unfold before_evb in H. unfold before_ev. rewrite orb_true_iff, !andb_true_iff, orb_true_iff, negb_true_iff in H.
  rewrite Z.ltb_lt, !Z.eqb_eq, Z.eqb_neq in H. tauto.
Qed.

(** A calendar without events of the policy, from its [k]th event on *)
Definition checks (s : sim) (k : nat) : bool :=
  let n := size (cells s) in
  let l := entries n (cells s) (events (calendar s)) in
  ends n (cells s) (events (calendar s)) &&
  (Events.next_event (calendar s) =? hd_addr (drop k l)) &&
  ((NULL <? brk s) && bool_decide (map_Forall (fun b _ => b < brk s) (cells s))) &&
  (0 <=? server_time s) && orderb l && forallb (fun n => typed n.2) l &&
  forallb (fun e => ev_time e <=? server_time s) (todo (take k l)) &&
  forallb (fun e => server_time s <=? ev_time e) (todo (drop k l)) &&
  negb (eol (calendar s)) &&
  forallb (fun e => negb (ev_type e =? TIMED_POLICY_EVENT)) (todo (drop k l)) &&
  ((prime_status_end (sim_policy s) =? SCHD_INFINITY) || (server_time s <=? prime_status_end (sim_policy s))).

Definition past_of (s : sim) (k : nat) : list entry :=
  take k (entries (size (cells s)) (cells s) (events (calendar s))).
Definition ahead_of (s : sim) (k : nat) : list entry :=
  drop k (entries (size (cells s)) (cells s) (events (calendar s))).

Lemma checks_ok (s : sim) (k : nat) : checks s k = true -> cal_ok s (past_of s k) (ahead_of s k).
Proof.
  unfold checks, past_of, ahead_of. set (l := entries _ _ _). rewrite !andb_true_iff, orb_true_iff.
  intros ((((((((((Hends & Hnext) & Hbrk & Hf) & H0) & Ho) & Hty) & Hp) & Ha) & Heol) & Hpol) & Hend).
  split; rewrite ?take_drop.
  - by apply entries_lseg.
  - by apply Z.eqb_eq.
  - split; [by apply Z.ltb_lt|]. apply bool_decide_eq_true in Hf. intros b Hb.
    destruct (cells s !! b) as [x|] eqn:Hx; [|done]. apply Hf in Hx. cbn in Hx. lia.
  - by apply Z.leb_le.
  - by apply orderb_ok.
  - rewrite forallb_forall in Hty. apply Forall_forall. intros n Hn. by apply Hty, list_elem_of_In.
  - intros e He. rewrite forallb_forall in Hp. apply Z.leb_le, Hp. by apply list_elem_of_In.
  - intros e He. rewrite forallb_forall in Ha. apply Z.leb_le, Ha. by apply list_elem_of_In.
  - intros H. by rewrite H in Heol.
  - left. unfold of_policy. destruct (filter _ _) as [|e es] eqn:E; [done|exfalso].
    assert (e ∈ filter (fun e => ev_type e = TIMED_POLICY_EVENT) (todo (drop k l))) as Hin by (rewrite E; by left).
    apply list_elem_of_filter in Hin as [Ht Hin]. rewrite forallb_forall in Hpol.
    apply list_elem_of_In, Hpol in Hin. by rewrite Ht in Hin.
  - rewrite Z.eqb_eq, Z.leb_le in Hend. done.
Qed.

(** ** A day at the office *)

Definition job (name : string) (start end_ : Z) (resv : bool) : resource_resv :=
  ResourceResv 0 (lit name) (negb resv) resv None None None (end_ - start) (end_ - start) [] None 0 start end_ UNSPECIFIED.

(** A running job, a confirmed reservation, a job that is not to run *)
Definition night_job : timed_resv := TimedResv (job "night" wednesday (june 12 + 20 * 3600) false)
  (Some (JobState false [] false false false)) None.
Definition noon : timed_resv := TimedResv (job "noon" (june 12 + 12 * 3600) (june 12 + 13 * 3600) true) None (Some RESV_CONFIRMED).
Definition queued_job : timed_resv := TimedResv (job "queued" UNSPECIFIED UNSPECIFIED false)
  (Some (JobState false [] false true false)) None.
Definition sleeper : node_info := NodeInfo (lit "sleeper") true.
Definition late : timegap := Gap (june 12 + 22 * 3600) (june 12 + 23 * 3600).

Definition office_conf : config := set_ded_time (conf_of office) [late; gap0].
(** Prime time at 08:30 until 17:00 *)
Definition office_status : status :=
  set_status_end (set_policy status0 (prime_settings office_conf) true 0) (june 12 + 17 * 3600).

Definition sim0 (now : Z) (p : status) : sim := Sim ∅ 1 (EventList false NULL NULL) now p [].
Definition after {A : Type} (m : M sim A) (s : sim) : sim := match m s with Some (_, s) => s | None => sim0 0 status0 end.

Definition day_jobs : list timed_resv := [queued_job; night_job; noon].
Definition day0 : sim := sim0 wednesday office_status.
Definition day : sim := after (create_event_list office_conf day_jobs [sleeper] false) day0.
Definition all_run (acts : list action) (rr : resource_resv) : bool := true.

(** The names and times of the events of a list *)
Definition agenda (l : list entry) : list (string * Z) :=
  map (fun n => (string_of_list_ascii (ev_name n.2), ev_time n.2)) l.

Example day_agenda : agenda (ahead_of day 0) =
  [("sleeper", wednesday + 600); ("noon", june 12 + 12 * 3600); ("noon", june 12 + 13 * 3600);
   ("night", june 12 + 20 * 3600); ("dedtime_start", june 12 + 22 * 3600);
   ("dedtime_end", june 12 + 23 * 3600)]%string.
Proof. vm_compute. reflexivity. Qed.

Lemma day_ok : cal_ok day (past_of day 0) (ahead_of day 0).
Proof. apply checks_ok. vm_compute. reflexivity. Qed.

Lemma create_event_list_makes_witness :
  exists s' past ahead, create_event_list office_conf day_jobs [sleeper] false day0 = Some (tt, s') /\
    cal_ok s' past ahead /\ same_universe day0 s' /\
    todo (past ++ ahead) ≡ₚ ded_events_of (ded_time office_conf) ++
      calendar_events false (server_time day0) day_jobs [sleeper].
Proof.
  apply (create_event_list_makes office_conf day0 day_jobs [sleeper] false).
  - split; [done|]. intros b _. apply lookup_empty.
  - by vm_compute.
  - right. by vm_compute.
  - intros r Hr. unfold day_jobs in Hr. rewrite !elem_of_cons, elem_of_nil in Hr.
    destruct_or?; try done; subst r; by vm_compute.
  - intros e He. apply Z.leb_le. revert e He. apply Forall_forall, (bool_decide_unpack _). vm_compute. done.
  - left. vm_compute. done.
Defined.

(** ** The day simulated *)

Definition evening_time : Z := june 12 + 21 * 3600.

Lemma office_conf_fit : holidays_fit office_conf.
Proof. split; vm_compute; congruence. Qed.

Lemma office_weeks (d : Z) : wednesday <= d <= evening_time -> week_carries office_conf utc_yday (PrimeProps.day 0 d) = true.
Proof.
  intros Hd. assert (PrimeProps.day 0 d = 18059) as ->; [|vm_compute; reflexivity].
  unfold PrimeProps.day. symmetry. unfold evening_time, wednesday, june, DAY in *.
  apply (Z.div_unique (d + 0) 86400 18059 (d - 18059 * 86400)); lia.
Qed.

Lemma office_later : status_ends_later office_conf wednesday evening_time.
Proof.
  apply (ends_later office_conf 0 utc_yday); [apply office_conf_fit|vm_compute; congruence| |apply office_weeks].
  intros date _. apply utc_wall.
Qed.

Definition day_fuel : nat := Z.to_nat 50000.

Lemma simulate_performs_witness :
  exists r t s', simulate_events office_conf all_run day_fuel (SIM_TIME evening_time) day = Some ((r, t), s') /\
    let '(acts, ok) := perform_all all_run (actions day) (due evening_time (todo (ahead_of day 0))) in
    actions s' = acts /\
    if ok then exists past' ahead',
      simulated evening_time (fun _ _ => True) day (ahead_of day 0) r t s' past' ahead'
    else r = TIMED_ERROR.
Proof.
  apply (simulate_performs office_conf all_run day (past_of day 0)).
  - apply day_ok.
  - by vm_compute.
  - exact office_later.
  - apply Nat.ltb_lt. vm_compute. reflexivity.
Defined.

Lemma simulate_prime_right_witness :
  exists r t s', simulate_events office_conf all_run day_fuel (SIM_TIME evening_time) day = Some ((r, t), s') /\
    server_time s' = evening_time /\
    is_prime_time office_conf evening_time = Some (status_of (is_prime (sim_policy s'))).
Proof.
  apply (simulate_prime_right office_conf all_run 0 utc_yday day (past_of day 0) (ahead_of day 0)).
  - apply day_ok.
  - by vm_compute.
  - apply office_conf_fit.
  - vm_compute. congruence.
  - intros date _. apply utc_wall.
  - exact office_weeks.
  - vm_compute. reflexivity.
  - vm_compute. reflexivity.
  - vm_compute. reflexivity.
  - vm_compute. congruence.
  - apply Nat.ltb_lt. vm_compute. reflexivity.
Defined.

Example day_simulated :
  let r := simulate_events office_conf all_run 20 (SIM_TIME evening_time) day in
  (option_map (fun x => (x.1, map (fun a => match a with
     | Ended rr => (1, string_of_list_ascii (rr_name rr)) | Ran rr => (2, string_of_list_ascii (rr_name rr))
     | NodeUp n => (3, string_of_list_ascii (ni_name n)) end) (actions x.2), is_prime (sim_policy x.2))) r) =
  Some ((284, Some evening_time), [(3, "sleeper"); (2, "noon"); (1, "noon"); (1, "night")]%string, false).
Proof. vm_compute. reflexivity. Qed.

Lemma scans_tell_witness :
  exists run resv : bool, exists_run_event (june 12 + 11 * 3600) day = Some (run, day) /\
    exists_resv_event (june 12 + 11 * 3600) day = Some (resv, day) /\
    (run = true <-> Exists (runs_by (june 12 + 11 * 3600)) (todo (ahead_of day 0))) /\
    (resv = true <-> Exists (resv_by (june 12 + 11 * 3600)) (ahead_of day 0).*2).
Proof. apply (scans_tell day (past_of day 0) (ahead_of day 0)), day_ok. Defined.

(** ** An event more, and away again *)

Definition tea : resource_resv := job "tea" wednesday (june 12 + 12 * 3600) false.

Lemma add_event_keeps_witness :
  exists s' past' ahead',
    (let* te := create_event TIMED_END_EVENT (june 12 + 12 * 3600) (Some (PResv tea)) None None in add_event te) day =
      Some (1, s') /\
    cal_ok s' past' ahead' /\ todo past' = todo (past_of day 0) /\
    todo ahead' = insert_event (Event false (lit "tea") TIMED_END_EVENT (june 12 + 12 * 3600)
      (Some (PResv tea)) None None NULL NULL) (todo (ahead_of day 0)) /\
    same_universe day s'.
Proof.
  apply (add_event_keeps day (past_of day 0) (ahead_of day 0)); [apply day_ok|done|done|done|by vm_compute].
Defined.

Lemma add_delete_restores_witness :
  exists te s' past' ahead',
    (let* te := create_event TIMED_END_EVENT (june 12 + 12 * 3600) (Some (PResv tea)) None None in
     let* _ := add_event te in let* rc := delete_event te false in ret (te, rc)) day = Some ((te, 1), s') /\
    cal_ok s' past' ahead' /\ past' ++ ahead' = past_of day 0 ++ ahead_of day 0 /\ same_universe day s' /\
    cells s' !! te = None.
Proof.
  apply (add_delete_restores day (past_of day 0) (ahead_of day 0) _ _ _ _ _ (lit "tea"));
    [apply day_ok|done|done|done|by vm_compute].
Defined.

(** ** The day copied *)

Definition day_rrs : list resource_resv := [tr queued_job; tr noon; tr night_job].

Lemma dup_event_list_copies_witness :
  exists es s' (c : event_list) l1 n l2,
    dup_event_list day_rrs [sleeper] (calendar day) day = Some (Some c, s') /\
    cal_ok s' (past_of day 0) (ahead_of day 0) /\
    lseg (cells s') (events c) (l1 ++ n :: l2) /\ (l1 ++ n :: l2).*2 = es /\ eol c = eol (calendar day) /\
    Forall (fun k => brk day <= k.1) (l1 ++ n :: l2) /\ Events.next_event c = n.1 /\
    exists k, head (ahead_of day 0) = Some k /\
      matches (Some (ev_name k.2)) (ev_type k.2) (ev_time k.2) n.2 = true /\
      Forall (fun k' => matches (Some (ev_name k.2)) (ev_type k.2) (ev_time k.2) k'.2 = false) l1.
Proof.
  eexists. apply (dup_event_list_copies day_rrs [sleeper] day (past_of day 0) (ahead_of day 0)).
  - apply day_ok.
  - vm_compute. congruence.
  - vm_compute. reflexivity.
  - apply Forall_forall. intros [b e] Hn. apply list_elem_of_In in Hn. vm_compute in Hn.
    repeat destruct Hn as [Hn|Hn]; [..|done]; injection Hn as <- <-; intros ptr Hp; vm_compute in Hp;
      injection Hp as <-; vm_compute; reflexivity.
Defined.

(** ** What goes wrong *)

(** Prime and non-prime time that begin together: the simulation never ends. *)
Definition same_conf : config := conf_of same_times.
Definition seven : Z := june 12 + 7 * 3600.
Definition same_status : status := set_status_end (set_policy status0 (prime_settings same_conf) true 0) (june 12 + 8 * 3600).
Definition ten_job : timed_resv := TimedResv (job "ten" seven (june 12 + 10 * 3600) false)
  (Some (JobState false [] false false false)) None.
Definition same_day : sim := after (create_event_list same_conf [ten_job] [] false) (sim0 seven same_status).

Lemma simulate_never_ends_witness :
  prime_status_end (sim_policy same_day) <= june 12 + 9 * 3600 /\
  forall fuel, simulate_events same_conf all_run fuel (SIM_TIME (june 12 + 9 * 3600)) same_day = None.
Proof.
  split; [by vm_compute|].
  apply (simulate_never_ends same_conf all_run same_day (past_of same_day 0) (ahead_of same_day 0)).
  - apply checks_ok. vm_compute. reflexivity.
  - vm_compute. congruence.
  - by vm_compute.
  - vm_compute. reflexivity.
  - vm_compute. congruence.
  - intros e He. apply list_elem_of_In in He. vm_compute in He. destruct He as [<-|[]]. by vm_compute.
Defined.

(** The status after [simulate_events], its time, and the names of the jobs that ended *)
Definition outcome_of {A : Type} (r : option (A * sim)) : option (Z * bool * list string) :=
  option_map (fun x => (server_time x.2, is_prime (sim_policy x.2),
    omap (fun a => match a with Ended rr => Some (string_of_list_ascii (rr_name rr)) | _ => None end) (actions x.2))) r.

(** With the events performed, the status is that after one change of policy: on
    Thursday at noon it is that of the night. *)
Definition thursday_noon : Z := june 13 + 12 * 3600.
Definition no_ded (c : config) : config := set_ded_time c [].
Definition short : sim := after (create_event_list (no_ded office_conf) [ten_job] [] false) (sim0 seven office_status).

Example status_is_stale :
  outcome_of (simulate_events office_conf all_run 20 (SIM_TIME thursday_noon) short) =
    Some (thursday_noon, false, ["ten"]%string) /\
  is_prime_time office_conf thursday_noon = Some PRIME.
Proof. vm_compute. done. Qed.

(** A job added then: after its end the late change of policy is put before it, the
    time goes back, and the job is ended once more. *)
Definition friday_job : resource_resv := job "friday" thursday_noon (june 14 + 12 * 3600) false.

Definition add_end (rr : resource_resv) : M sim Z :=
  let* te := create_event TIMED_END_EVENT (rr_end rr) (Some (PResv rr)) None None in add_event te.

Example ended_twice :
  outcome_of ((let* _ := simulate_events office_conf all_run 20 (SIM_TIME thursday_noon) in
    let* _ := add_end friday_job in
    simulate_events office_conf all_run 20 (SIM_TIME (june 15))) short) =
    Some (june 15, true, ["ten"; "friday"; "friday"]%string).
Proof. vm_compute. done. Qed.

(** In a dedicated time and without another event, the next event is the start of the
    dedicated time: the time goes back to it. *)
Example time_goes_back :
  outcome_of (simulate_events office_conf all_run 20 (SIM_NEXT_EVENT 0)
    (after (create_event_list (set_ded_time office_conf [Gap (june 12 + 8 * 3600) (june 12 + 11 * 3600)]) [] [] false) day0)) =
  Some (june 12 + 8 * 3600, true, []%string) /\ june 12 + 8 * 3600 < server_time day0.
Proof. vm_compute. done. Qed.

(** An event put before others is not found from them backwards: neither the first
    one from the second, nor one put in the middle. *)
Definition nth_event (k : nat) (s : sim) : Z := hd_addr (ahead_of s k).

Example prev_is_stale :
  option_map fst (find_prev_timed_event (nth_event 1 day) true ALL_MASK day) = Some NULL /\
  let s := after (add_end (job "x" wednesday (june 12 + 12 * 3600 + 1800) false)) day in
  agenda (take 4 (ahead_of s 0)) =
    [("sleeper", wednesday + 600); ("noon", june 12 + 12 * 3600); ("x", june 12 + 12 * 3600 + 1800);
     ("noon", june 12 + 13 * 3600)]%string /\
  option_map fst (find_prev_timed_event (nth_event 3 s) true ALL_MASK s) = Some (nth_event 1 s).
Proof. vm_compute. done. Qed.

(** After an event is deleted, a search backwards from the next one uses it. *)
Example prev_is_freed :
  find_prev_timed_event (nth_event 2 day) true ALL_MASK (after (delete_event (nth_event 1 day) false) day) = None.
Proof. vm_compute. done. Qed.

(** The copies of a list have no links back. *)
Example prev_is_not_copied :
  let s := after (dup_timed_event_list day_rrs [sleeper] (events (calendar day))) day in
  let c := default NULL (option_map fst (dup_timed_event_list day_rrs [sleeper] (events (calendar day)) day)) in
  match entries 9 (cells s) c with
  | (_, _) :: (b, _) :: _ => option_map fst (find_prev_timed_event b true ALL_MASK s) = Some NULL
  | _ => False
  end.
Proof. vm_compute. done. Qed.

(** An event that cannot be copied takes those before it with it: without the
    reservation, the node that wakes up before it is not in the copy. *)
Example copies_are_lost :
  let s := after (dup_timed_event_list [tr night_job] [sleeper] (events (calendar day))) day in
  let c := default NULL (option_map fst (dup_timed_event_list [tr night_job] [sleeper] (events (calendar day)) day)) in
  agenda (entries 9 (cells s) c) =
    [("night", june 12 + 20 * 3600); ("dedtime_start", june 12 + 22 * 3600);
     ("dedtime_end", june 12 + 23 * 3600)]%string.
Proof. vm_compute. done. Qed.

End EventScenes.
