(* ===== verification/Sorting.v ===== *)
(** * What sorting promises

    The promise of a sorting routine to its callers ([Sorter]) and what it asks of
    a comparison function ([Orders]); statements on runs that return ([runs]). *)

From Stdlib Require Import ZArith Lia.
From stdpp Require Import sorting.
From S2P Require Import Prelude.

(** A comparison function orders the elements with a property; the sign says which
    of the two comes first, as for the C library's [qsort]. *)
Class Orders {A : Type} (P : A -> Prop) (c : A -> A -> Z) : Prop := {
  orders_sym : forall x y, P x -> P y -> c x y < 0 <-> 0 < c y x;
  orders_trans : forall x y z, P x -> P y -> P z -> c x y <= 0 -> c y z <= 0 -> c x z <= 0 }.

(** A comparison in C may crash; on the elements with the property it returns [c]. *)
Definition compares {A : Type} (P : A -> Prop) (cmp : A -> A -> option Z) (c : A -> A -> Z) : Prop :=
  forall x y, P x -> P y -> cmp x y = Some (c x y).

(** No element comes before an earlier one. *)
Fixpoint ordered {A : Type} (c : A -> A -> Z) (l : list A) : Prop :=
  match l with
  | [] => True
  | x :: l => Forall (fun y => c x y <= 0) l /\ ordered c l
  end.

(** A sorting routine permutes for every comparison and orders for one that orders;
    [small] are the arrays it takes. *)
Class Sorter {A : Type} (small : list A -> Prop) (sort : (A -> A -> option Z) -> list A -> option (list A)) : Prop :=
  sorter_ok : forall P cmp c l, compares P cmp c -> Forall P l -> small l ->
    exists l', sort cmp l = Some l' /\ l' ≡ₚ l /\ (Orders P c -> ordered c l').

Section Orders.
Context {A : Type} (P : A -> Prop) (c : A -> A -> Z) `{!Orders P c}.

Lemma orders_refl x : P x -> c x x = 0.
Proof. intros Hx. pose proof (orders_sym x x Hx Hx). lia. Qed.

Lemma orders_flip x y : P x -> P y -> 0 <= c x y <-> c y x <= 0.
Proof. intros Hx Hy. pose proof (orders_sym x y Hx Hy). pose proof (orders_sym y x Hy Hx). lia. Qed.

Lemma orders_eq_sym x y : P x -> P y -> c x y = 0 <-> c y x = 0.
Proof. intros Hx Hy. pose proof (orders_sym x y Hx Hy). pose proof (orders_sym y x Hy Hx). lia. Qed.

Lemma orders_lt_le x y z : P x -> P y -> P z -> c x y < 0 -> c y z <= 0 -> c x z < 0.
Proof.
  intros Hx Hy Hz H1 H2. destruct (Z.lt_ge_cases (c x z) 0) as [|Hn]; [done|].
  apply orders_flip in Hn; [|done..]. pose proof (orders_trans y z x Hy Hz Hx H2 Hn). apply orders_sym in H1; [lia|done..].
Qed.

(** A tie of the ends is a tie of both steps. *)
Lemma orders_tie x y z : P x -> P y -> P z -> c x y <= 0 -> c y z <= 0 -> c x z = 0 -> c x y = 0 /\ c y z = 0.
Proof.
  intros Hx Hy Hz L1 L2 E. assert (c x y = 0) as E1.
  { destruct (Z.eq_dec (c x y) 0); [done|]. pose proof (orders_lt_le x y z Hx Hy Hz ltac:(lia) L2). lia. }
  split; [done|]. destruct (Z.eq_dec (c y z) 0); [done|]. pose proof (orders_lt_le y z x Hy Hz Hx ltac:(lia)) as H.
  apply orders_eq_sym in E, E1; [lia|done..].
Qed.

End Orders.

Lemma orders_weaken {A : Type} (P Q : A -> Prop) (c : A -> A -> Z) : (forall x, Q x -> P x) -> Orders P c -> Orders Q c.
Proof. intros H [Hs Ht]. split; intros; [apply Hs|apply (Ht x y z)]; auto. Qed.

Lemma orders_ext {A : Type} (P : A -> Prop) (c c' : A -> A -> Z) :
  (forall x y, P x -> P y -> Z.sgn (c' x y) = Z.sgn (c x y)) -> Orders P c -> Orders P c'.
Proof.
  intros H [Hs Ht]. split.
  - intros x y Hx Hy. pose proof (H x y Hx Hy). pose proof (H y x Hy Hx). pose proof (Hs x y Hx Hy). lia.
  - intros x y z Hx Hy Hz. pose proof (H x y Hx Hy). pose proof (H y z Hy Hz). pose proof (H x z Hx Hz).
    pose proof (Ht x y z Hx Hy Hz). lia.
Qed.

Lemma ordered_lookup {A : Type} (c : A -> A -> Z) (l : list A) :
  ordered c l <-> forall (i j : nat) x y, (i < j)%nat -> l !! i = Some x -> l !! j = Some y -> c x y <= 0.
Proof.
  induction l as [|a l IH]; cbn.
  - split; [|done]. intros _ i j x y _ H. by rewrite lookup_nil in H.
  - rewrite IH, Forall_lookup. split.
    + intros [Ha Hl] [|i] [|j] x y Hij Hx Hy; [lia| |lia|apply (Hl i j x y); [lia|done..]].
      injection Hx as ->. by apply (Ha j).
    + intros H. split; [intros i x Hx; by apply (H 0%nat (S i) a x); [lia|..]|].
      intros i j x y Hij Hx Hy. apply (H (S i) (S j) x y); [lia|done..].
Qed.

Lemma ordered_sorted {A : Type} (c : A -> A -> Z) (l : list A) : ordered c l -> StronglySorted (fun x y => c x y <= 0) l.
Proof. induction l as [|x l IH]; cbn; [constructor|]. intros [H1 H2]. constructor; auto. Qed.

(** Where only an element is in the same place as itself, there is one order. *)
Lemma ordered_unique {A : Type} (P : A -> Prop) (c : A -> A -> Z) (l1 l2 : list A) : Orders P c -> Forall P l1 ->
  (forall x y, x ∈ l1 -> y ∈ l1 -> c x y = 0 -> x = y) ->
  ordered c l1 -> ordered c l2 -> l1 ≡ₚ l2 -> l1 = l2.
Proof.
  intros Ho HP Heq H1 H2 Hp. rewrite Forall_forall in HP.
  apply (StronglySorted_unique_strong (fun x y => c x y <= 0)); [|by apply ordered_sorted..|done].
  intros x y Hx Hy Hxy Hyx. rewrite <-Hp in Hy. apply Heq; [done..|].
  pose proof (orders_sym (c := c) x y (HP x Hx) (HP y Hy)). lia.
Qed.

(** ** Comparison functions from others *)

(** The first that tells the two apart decides. *)
Definition lexi {A : Type} (c1 c2 : A -> A -> Z) (x y : A) : Z := if c1 x y =? 0 then c2 x y else c1 x y.

#[export] Instance orders_lexi {A : Type} (P : A -> Prop) (c1 c2 : A -> A -> Z) :
  Orders P c1 -> Orders P c2 -> Orders P (lexi c1 c2).
Proof.
  intros O1 O2. split; unfold lexi.
  - intros x y Hx Hy. pose proof (orders_eq_sym P c1 x y Hx Hy). pose proof (orders_sym (c := c1) x y Hx Hy).
    pose proof (orders_sym (c := c2) x y Hx Hy). destruct (Z.eqb_spec (c1 x y) 0), (Z.eqb_spec (c1 y x) 0); lia.
  - intros x y z Hx Hy Hz H1 H2.
    assert (c1 x y <= 0) as L1 by (destruct (Z.eqb_spec (c1 x y) 0); lia).
    assert (c1 y z <= 0) as L2 by (destruct (Z.eqb_spec (c1 y z) 0); lia).
    pose proof (orders_trans (c := c1) x y z Hx Hy Hz L1 L2) as L.
    destruct (Z.eqb_spec (c1 x z) 0) as [E|E]; [|lia].
    destruct (orders_tie P c1 x y z) as [E1 E2]; [done..|].
    rewrite E1 in H1. rewrite E2 in H2. by apply (orders_trans x y z).
Qed.

Lemma lexi_tie {A : Type} (c1 c2 : A -> A -> Z) x y : lexi c1 c2 x y = 0 -> c1 x y = 0 /\ c2 x y = 0.
Proof. unfold lexi. case_if; [done|]. lia. Qed.

(** By a number, ascending or descending *)
Definition by_asc {A : Type} (f : A -> Z) (x y : A) : Z := if f x <? f y then -1 else if f x >? f y then 1 else 0.
Definition by_desc {A : Type} (f : A -> Z) (x y : A) : Z := if f x <? f y then 1 else if f x >? f y then -1 else 0.

Lemma by_asc_sign {A : Type} (f : A -> Z) x y : by_asc f x y = Z.sgn (f x - f y).
Proof. unfold by_asc. repeat case_if; lia. Qed.
Lemma by_desc_sign {A : Type} (f : A -> Z) x y : by_desc f x y = Z.sgn (f y - f x).
Proof. unfold by_desc. repeat case_if; lia. Qed.

#[export] Instance orders_asc {A : Type} (P : A -> Prop) (f : A -> Z) : Orders P (by_asc f).
Proof. split; intros; rewrite !by_asc_sign in *; lia. Qed.
#[export] Instance orders_desc {A : Type} (P : A -> Prop) (f : A -> Z) : Orders P (by_desc f).
Proof. split; intros; rewrite !by_desc_sign in *; lia. Qed.

(** ** Runs that return *)
Section Runs.
Context {S : Type}.

Definition runs {X : Type} (m : M S X) (s : S) (P : X -> S -> Prop) : Prop :=
  exists x s', m s = Some (x, s') /\ P x s'.

Lemma runs_ret {X : Type} (x : X) s (P : X -> S -> Prop) : P x s -> runs (ret x) s P.
Proof. intros H. by exists x, s. Qed.

Lemma runs_bind {X Y : Type} (m : M S X) (f : X -> M S Y) s (P : X -> S -> Prop) (Q : Y -> S -> Prop) :
  runs m s P -> (forall x s', P x s' -> runs (f x) s' Q) -> runs (bind m f) s Q.
Proof.
  intros (x & s' & Hm & Hx) Hf. destruct (Hf x s' Hx) as (y & s2 & Hy & HQ). exists y, s2. split; [|done].
  unfold bind. by rewrite Hm.
Qed.

Lemma runs_weaken {X : Type} (m : M S X) s (P Q : X -> S -> Prop) :
  runs m s P -> (forall x s', P x s' -> Q x s') -> runs m s Q.
Proof. intros (x & s' & Hm & Hx) H. exists x, s'. auto. Qed.

Lemma runs_eq {X : Type} (m : M S X) s x s' (P : X -> S -> Prop) : m s = Some (x, s') -> P x s' -> runs m s P.
Proof. intros H HP. by exists x, s'. Qed.
End Runs.

(** * Sorting an array: [qsort] of [src/scheduler/sort.c]

    Module [Qsort]: the quicksort of the scheduler for systems whose C library has a
    slow one, on an array whose elements have [es] bytes, for any comparison
    function ([None] is a comparison that crashes).  A pointer into the array is the index of an element.  The code keeps
    numbers of bytes in an [int]; where one does not fit the pointers leave the
    array, and the model stops ([fit]).  Loops get as fuel what is left of the
    array. *)

Module Qsort.

Section Qsort.
Context {A : Type} (es : Z) (cmp : A -> A -> option Z).

(** [k] elements as a number of bytes in an [int] *)
Definition fit (k : Z) : M (list A) Z := if k * es <=? INT_MAX then ret k else crash.

Definition cmp_at (i j : Z) : M (list A) Z :=
  fun l => x ← rd l i; y ← rd l j; r ← cmp x y; Some (r, l).

Definition swap (i j : Z) : M (list A) unit :=
  fun l => x ← rd l i; y ← rd l j; l ← wr l i y; l ← wr l j x; Some (tt, l).

(** [swapfunc]: [n] elements from [i] on with those from [j] on *)
Fixpoint swapfunc (n : nat) (i j : Z) : M (list A) unit :=
  match n with
  | O => ret tt
  | S n => let* _ := swap i j in swapfunc n (i + 1) (j + 1)
  end.
Definition vecswap (i j n : Z) : M (list A) unit :=
  if n >? 0 then swapfunc (Z.to_nat n) i j else ret tt.

Definition med3 (a b c : Z) : M (list A) Z :=
  let* ab := cmp_at a b in
  let* bc := cmp_at b c in
  if ab <? 0 then
    if bc <? 0 then ret b else let* ac := cmp_at a c in ret (if ac <? 0 then c else a)
  else
    if bc >? 0 then ret b else let* ac := cmp_at a c in ret (if ac <? 0 then a else c).

(** The element at [pl] goes down to its place among those from [a] on. *)
Fixpoint sift (fuel : nat) (a pl : Z) : M (list A) unit :=
  match fuel with
  | O => crash
  | S fuel =>
      if pl >? a then
        let* r := cmp_at (pl - 1) pl in
        if r >? 0 then let* _ := swap pl (pl - 1) in sift fuel a (pl - 1) else ret tt
      else ret tt
  end.

Fixpoint insertion_loop (fuel : nat) (a n pm : Z) : M (list A) unit :=
  match fuel with
  | O => crash
  | S fuel =>
      if pm <? a + n then
        let* _ := sift (Z.to_nat (pm - a) + 1) a pm in
        insertion_loop fuel a n (pm + 1)
      else ret tt
  end.
Definition insertion (a n : Z) : M (list A) unit := insertion_loop (Z.to_nat n + 1) a n (a + 1).

(** The pointers of the partition and whether anything was swapped *)
Record part := Part { pa : Z; pb : Z; pc : Z; pd : Z; swap_cnt : bool }.

Fixpoint left_loop (fuel : nat) (a : Z) (p : part) : M (list A) part :=
  match fuel with
  | O => crash
  | S fuel =>
      if pb p <=? pc p then
        let* r := cmp_at (pb p) a in
        if r <=? 0 then
          if r =? 0 then
            let* _ := swap (pa p) (pb p) in
            left_loop fuel a (Part (pa p + 1) (pb p + 1) (pc p) (pd p) true)
          else left_loop fuel a (Part (pa p) (pb p + 1) (pc p) (pd p) (swap_cnt p))
        else ret p
      else ret p
  end.

Fixpoint right_loop (fuel : nat) (a : Z) (p : part) : M (list A) part :=
  match fuel with
  | O => crash
  | S fuel =>
      if pb p <=? pc p then
        let* r := cmp_at (pc p) a in
        if r >=? 0 then
          if r =? 0 then
            let* _ := swap (pc p) (pd p) in
            right_loop fuel a (Part (pa p) (pb p) (pc p - 1) (pd p - 1) true)
          else right_loop fuel a (Part (pa p) (pb p) (pc p - 1) (pd p) (swap_cnt p))
        else ret p
      else ret p
  end.

Definition width (p : part) : nat := Z.to_nat (pc p - pb p + 1) + 1.

Fixpoint partition_loop (fuel : nat) (a : Z) (p : part) : M (list A) part :=
  match fuel with
  | O => crash
  | S fuel =>
      let* p := left_loop (width p) a p in
      let* p := right_loop (width p) a p in
      if pb p >? pc p then ret p
      else
        let* _ := swap (pb p) (pc p) in
        partition_loop fuel a (Part (pa p) (pb p + 1) (pc p - 1) (pd p) true)
  end.

(** The index of the pivot *)
Definition choose (a n : Z) : M (list A) Z :=
  let pm := a + n / 2 in
  if n >? 7 then
    let pl := a in
    let pn := a + (n - 1) in
    let* t :=
      if n >? 40 then
        let* d := fit (n / 8) in
        let* pl := med3 pl (pl + d) (pl + 2 * d) in
        let* pm := med3 (pm - d) pm (pm + d) in
        let* pn := med3 (pn - 2 * d) (pn - d) pn in
        ret (pl, pm, pn)
      else ret (pl, pm, pn) in
    let '(pl, pm, pn) := t in
    med3 pl pm pn
  else ret pm.

(** The equal elements go from the ends to the middle. *)
Definition to_middle (a n : Z) (p : part) : M (list A) unit :=
  let pn := a + n in
  let* r := fit (Z.min (pa p - a) (pb p - pa p)) in
  let* _ := vecswap a (pb p - r) r in
  let* r := fit (Z.min (pd p - pc p) (pn - pd p - 1)) in
  vecswap (pb p) (pn - r) r.

Fixpoint qsort (fuel : nat) (a n : Z) : M (list A) unit :=
  match fuel with
  | O => crash
  | S fuel =>
      if n <? 7 then insertion a n
      else
        let* pm := choose a n in
        let* _ := swap a pm in
        let* p := partition_loop (Z.to_nat n) a (Part (a + 1) (a + 1) (a + (n - 1)) (a + (n - 1)) false) in
        if negb (swap_cnt p) then insertion a n
        else
          let* _ := to_middle a n p in
          let pn := a + n in
          let* _ := (let* r := fit (pb p - pa p) in if r >? 1 then qsort fuel a r else ret tt) in
          let* r := fit (pd p - pc p) in
          if r >? 1 then qsort fuel (pn - r) r else ret tt
  end.

Definition sort_array : M (list A) unit :=
  fun l => qsort (length l + 1) 0 (Z.of_nat (length l)) l.

End Qsort.

(** The array after the call *)
Definition sort {A : Type} (es : Z) (cmp : A -> A -> option Z) (l : list A) : option (list A) :=
  snd <$> sort_array es cmp l.

End Qsort.
