(* ===== verification/QsortProps.v ===== *)
(** * The quicksort sorts

    Module [QsortProps]: for every comparison function [Qsort.qsort] ends, stays
    inside its part of the array and permutes it; for a comparison that orders,
    the part is sorted after. *)

From Stdlib Require Import ZArith Lia.
From S2P Require Import Prelude Sorting.
Import Qsort.

Module QsortProps.

Section Array.
Context {A : Type}.
Implicit Types (l : list A) (i j k : Z).

Definition len l : Z := Z.of_nat (length l).

(** From [l] to [l'] only what is from [a] on and before [b] is permuted. *)
Record within (a b : Z) l l' : Prop := {
  within_len : length l' = length l;
  within_perm : l' ≡ₚ l;
  within_out : forall k, ~ a <= k < b -> rd l' k = rd l k }.

#[export] Instance within_refl (a b : Z) : Reflexive (within a b).
Proof. by split. Qed.
#[export] Instance within_trans (a b : Z) : Transitive (within a b).
Proof.
  intros l1 l2 l3 [H1 H2 H3] [H4 H5 H6]. split; [congruence|by rewrite H5|]. intros k Hk. by rewrite H6, H3.
Qed.

Lemma within_weaken (a b a' b' : Z) l l' : within a b l l' -> a' <= a -> b <= b' -> within a' b' l l'.
Proof. intros [H1 H2 H3] Ha Hb. split; [done|done|]. intros k Hk. apply H3. lia. Qed.

Lemma within_length (a b : Z) l l' : within a b l l' -> len l' = len l.
Proof. intros [H _ _]. unfold len. by rewrite H. Qed.

Lemma rd_insert l i k (x : A) : 0 <= i < len l -> rd (<[Z.to_nat i := x]> l) k = if k =? i then Some x else rd l k.
Proof.
  unfold rd, len. intros Hi. destruct (Z.ltb_spec k 0).
  - by destruct (Z.eqb_spec k i); [lia|].
  - destruct (Z.eqb_spec k i) as [->|Hne].
    + apply list_lookup_insert_eq. lia.
    + apply list_lookup_insert_ne. lia.
Qed.

Lemma rd_some l i : 0 <= i < len l -> exists x, rd l i = Some x.
Proof. intros Hi. destruct (rd_in l i Hi) as (x & H & _). by exists x. Qed.

Lemma rd_range l i x : rd l i = Some x -> 0 <= i < len l.
Proof.
  unfold rd, len. destruct (Z.ltb_spec i 0); [done|]. intros H0. apply lookup_lt_Some in H0. lia.
Qed.

(** [l'] is [l] with two elements changed over. *)
Definition swapped (i j : Z) l l' : Prop :=
  forall k, rd l' k = if k =? j then rd l i else if k =? i then rd l j else rd l k.

Lemma swap_ok l (a b i j : Z) : a <= i < b -> a <= j < b -> 0 <= a -> b <= len l ->
  runs (swap i j) l (fun _ l' => within a b l l' /\ swapped i j l l').
Proof.
  intros Hi Hj Ha Hb. destruct (rd_in l i ltac:(unfold len in Hb; lia)) as (x & Hx & Hx').
  destruct (rd_in l j ltac:(unfold len in Hb; lia)) as (y & Hy & Hy').
  assert (len (<[Z.to_nat i := y]> l) = len l) as Hl by (unfold len; by rewrite length_insert).
  exists tt, (<[Z.to_nat j := x]> (<[Z.to_nat i := y]> l)).
  assert (forall k, rd (<[Z.to_nat j := x]> (<[Z.to_nat i := y]> l)) k =
    if k =? j then rd l i else if k =? i then rd l j else rd l k) as Hrd.
  { intros k. rewrite rd_insert by (rewrite Hl; lia). rewrite rd_insert by lia. by rewrite Hx, Hy. }
  split_and!.
  - unfold swap. rewrite Hx, Hy. cbn. rewrite wr_in by (unfold len in Hb; lia). cbn.
    rewrite wr_in; [done|]. unfold len in Hl, Hb. lia.
  - split.
    + by rewrite !length_insert.
    + by apply Permutation_insert_swap.
    + intros k Hk. rewrite Hrd. destruct (Z.eqb_spec k j); [lia|]. by destruct (Z.eqb_spec k i); [lia|].
  - done.
Qed.

(** ** Properties of the elements of a part *)

Definition all_in l (a b : Z) (P : A -> Prop) : Prop := forall k x, a <= k < b -> rd l k = Some x -> P x.

Lemma all_in_split l (a b c : Z) (P : A -> Prop) : all_in l a b P -> all_in l b c P -> all_in l a c P.
Proof. intros H1 H2 k x Hk. destruct (Z.lt_ge_cases k b); [apply H1|apply H2]; lia. Qed.

Lemma all_in_sub l (a b a' b' : Z) (P : A -> Prop) : all_in l a b P -> a <= a' -> b' <= b -> all_in l a' b' P.
Proof. intros H Ha Hb k x Hk. apply H. lia. Qed.

Lemma all_in_out l l' (a b c d : Z) (P : A -> Prop) : within c d l l' -> b <= c \/ d <= a ->
  all_in l a b P -> all_in l' a b P.
Proof. intros [_ _ Ho] Hab H k x Hk. rewrite Ho by lia. by apply H. Qed.

(** The parts of an array *)
Definition slice l (a b : Z) : list A := take (Z.to_nat (b - a)) (drop (Z.to_nat a) l).

Lemma slice_split l (a b : Z) : 0 <= a <= b -> l = take (Z.to_nat a) l ++ slice l a b ++ drop (Z.to_nat b) l.
Proof.
  intros Hab. unfold slice. rewrite <-(take_drop (Z.to_nat a) l) at 1. f_equal.
  rewrite <-(take_drop (Z.to_nat (b - a)) (drop (Z.to_nat a) l)) at 1. f_equal.
  rewrite drop_drop. f_equal. lia.
Qed.

Lemma elem_of_slice l (a b : Z) x : 0 <= a <= b -> x ∈ slice l a b <-> exists k, a <= k < b /\ rd l k = Some x.
Proof.
  intros Hab. unfold slice. rewrite list_elem_of_lookup. split.
  - intros (i & Hi). apply lookup_take_Some in Hi as [Hi Hlt]. rewrite lookup_drop in Hi.
    exists (a + Z.of_nat i). split; [lia|]. unfold rd. rewrite (proj2 (Z.ltb_ge _ 0)) by lia.
    rewrite <-Hi. f_equal. lia.
  - intros (k & Hk & Hx). unfold rd in Hx. rewrite (proj2 (Z.ltb_ge _ 0)) in Hx by lia.
    exists (Z.to_nat (k - a)). rewrite lookup_take_lt by lia. rewrite lookup_drop. rewrite <-Hx. f_equal. lia.
Qed.

Lemma same_take l l' (a : Z) : (forall k, k < a -> rd l' k = rd l k) -> take (Z.to_nat a) l' = take (Z.to_nat a) l.
Proof.
  intros H. apply list_eq. intros i. destruct (decide (i < Z.to_nat a)%nat).
  - rewrite !lookup_take_lt by done. specialize (H (Z.of_nat i) ltac:(lia)). unfold rd in H.
    rewrite (proj2 (Z.ltb_ge _ 0)) in H by lia. by rewrite Nat2Z.id in H.
  - by rewrite !lookup_take_ge by lia.
Qed.

Lemma same_drop l l' (b : Z) : 0 <= b -> (forall k, b <= k -> rd l' k = rd l k) -> drop (Z.to_nat b) l' = drop (Z.to_nat b) l.
Proof.
  intros Hb H. apply list_eq. intros i. rewrite !lookup_drop. specialize (H (b + Z.of_nat i) ltac:(lia)).
  unfold rd in H. rewrite (proj2 (Z.ltb_ge _ 0)) in H by lia.
  by replace (Z.to_nat (b + Z.of_nat i)) with (Z.to_nat b + i)%nat in H by lia.
Qed.

Lemma within_slice (a b : Z) l l' : 0 <= a <= b -> within a b l l' -> slice l' a b ≡ₚ slice l a b.
Proof.
  intros Hab [Hlen Hp Ho]. rewrite (slice_split l a b Hab), (slice_split l' a b Hab) in Hp.
  rewrite (same_take l l'), (same_drop l l') in Hp; [|lia|intros; apply Ho; lia|intros; apply Ho; lia].
  by apply Permutation_app_inv_l, Permutation_app_inv_r in Hp.
Qed.

(** What holds of all elements of a part holds after it was permuted. *)
Lemma all_in_within (a b c d : Z) l l' (P : A -> Prop) : 0 <= a -> within a b l l' -> c <= a -> b <= d ->
  all_in l c d P -> all_in l' c d P.
Proof.
  intros Ha Hw Hc Hd H k x Hk Hx. destruct (decide (a <= k < b)) as [Hin|Hout].
  - assert (x ∈ slice l' a b) as Hs by (apply elem_of_slice; [lia|eauto]).
    rewrite (within_slice a b l l') in Hs by (done || lia). apply elem_of_slice in Hs as (k' & Hk' & Hx'); [|lia].
    apply (H k'); [lia|done].
  - rewrite (within_out _ _ _ _ Hw) in Hx by done. by apply (H k).
Qed.

End Array.

Section Sort.
Context {A : Type} (es : Z) (P : A -> Prop) (cmp : A -> A -> option Z) (ord : A -> A -> Z).
Hypothesis (Hcmp : compares P cmp ord).
Implicit Types (l : list A) (p : part).

(** The elements can be compared. *)
Definition good l : Prop := Forall P l.

Lemma good_within l l' (a b : Z) : within a b l l' -> good l -> good l'.
Proof. intros [_ H _]. unfold good. by rewrite H. Qed.

Lemma good_rd l (i : Z) x : good l -> rd l i = Some x -> P x.
Proof.
  unfold good, rd. rewrite Forall_lookup. intros H. destruct (Z.ltb_spec i 0); [done|]. apply H.
Qed.

Lemma cmp_at_ok l (i j : Z) : good l -> 0 <= i < len l -> 0 <= j < len l ->
  runs (cmp_at cmp i j) l (fun r l' => l' = l /\ exists x y, rd l i = Some x /\ rd l j = Some y /\ r = ord x y).
Proof using Hcmp.
  intros Hg Hi Hj. destruct (rd_some l i Hi) as [x Hx], (rd_some l j Hj) as [y Hy].
  exists (ord x y), l. unfold cmp_at. rewrite Hx, Hy. cbn. rewrite Hcmp by eauto using good_rd. split; [done|]. eauto 6.
Qed.

Ltac P_side := eauto using good_rd, good_within.

(** ** The insertion sort *)

Definition sorted l (a b : Z) : Prop :=
  forall i j x y, a <= i -> i < j -> j < b -> rd l i = Some x -> rd l j = Some y -> ord x y <= 0.

(** All but the element at [pl] are in order among those before [pm + 1], and no
    later one comes before it. *)
Definition sifting l (a pl pm : Z) : Prop :=
  forall i j x y, a <= i -> i < j -> j <= pm -> j <> pl -> rd l i = Some x -> rd l j = Some y -> ord x y <= 0.

Lemma sift_ok (a b pm : Z) : 0 <= a -> forall fuel pl l, good l -> (Z.to_nat (pl - a) < fuel)%nat ->
  a <= pl <= pm -> pm < b -> b <= len l ->
  runs (sift cmp fuel a pl) l (fun _ l' => within a b l l' /\ (Orders P ord -> sifting l a pl pm -> sorted l' a (pm + 1))).
Proof using Hcmp.
  intros Ha fuel. induction fuel as [|fuel IH]; intros pl l Hg Hf Hpl Hpm Hb; [lia|]. cbn [sift].
  destruct (Z.gtb_spec pl a) as [Hgt|Hle].
  - eapply runs_bind; [apply cmp_at_ok; (done || lia)|]. cbn. intros r l' (-> & x & y & Hx & Hy & ->).
    destruct (Z.gtb_spec (ord x y) 0) as [Hc|Hc].
    + eapply runs_bind; [apply (swap_ok l a b); lia|]. cbn. intros _ l1 [Hw Hs].
      eapply runs_weaken; [apply (IH (pl - 1) l1); [by eapply good_within|lia..|]; rewrite (within_length _ _ _ _ Hw); lia|].
      cbn. intros _ l2 [Hw2 Hg2]. split; [by trans l1|]. intros Ho Hsi. apply (Hg2 Ho).
      intros i j u v Hi Hij Hj Hjp Hu Hv. rewrite Hs in Hu, Hv.
      destruct (Z.eqb_spec j (pl - 1)) as [|_]; [lia|].
      destruct (Z.eqb_spec i (pl - 1)) as [->|?], (Z.eqb_spec j pl) as [->|?].
      * assert (u = y) as -> by congruence. assert (v = x) as -> by congruence. apply (orders_flip P ord); [P_side..|lia].
      * rewrite Hy in Hu. injection Hu as <-. assert (ord x v <= 0) by (apply (Hsi (pl - 1) j x v); (done || lia)).
        apply (orders_trans y x v); [P_side..|apply (orders_flip P ord); [P_side..|lia]|done].
      * rewrite Hx in Hv. injection Hv as <-. destruct (Z.eqb_spec i pl); [lia|].
        apply (Hsi i (pl - 1) u x); (done || lia).
      * destruct (Z.eqb_spec i pl) as [->|]; [|apply (Hsi i j u v); (done || lia)].
        rewrite Hx in Hu. injection Hu as <-. apply (Hsi (pl - 1) j x v); (done || lia).
    + apply runs_ret. split; [done|]. intros Ho Hsi i j u v Hi Hij Hj Hu Hv.
      destruct (decide (j = pl)) as [->|]; [|apply (Hsi i j u v); (done || lia)].
      rewrite Hy in Hv. injection Hv as <-. destruct (decide (i = pl - 1)) as [->|]; [congruence|].
      apply (orders_trans u x y); [P_side..|apply (Hsi i (pl - 1) u x); (done || lia)|lia].
  - apply runs_ret. split; [done|]. intros Ho Hsi i j u v Hi Hij Hj. apply (Hsi i j u v); lia.
Qed.

Lemma insertion_loop_ok (a b n : Z) : 0 <= a -> a + n <= b -> forall fuel pm l, good l -> (Z.to_nat (a + n - pm) < fuel)%nat ->
  a < pm -> b <= len l ->
  runs (insertion_loop cmp fuel a n pm) l
    (fun _ l' => within a b l l' /\ (Orders P ord -> sorted l a pm -> sorted l' a (a + n))).
Proof using Hcmp.
  intros Ha Hn fuel. induction fuel as [|fuel IH]; intros pm l Hgood Hf Hpm Hb; [lia|]. cbn [insertion_loop].
  destruct (Z.ltb_spec pm (a + n)) as [Hlt|Hge].
  - eapply runs_bind; [apply (sift_ok a b pm Ha); (done || lia)|]. cbn. intros _ l1 [Hw Hs].
    eapply runs_weaken; [apply (IH (pm + 1) l1); [by eapply good_within|lia..|]; rewrite (within_length _ _ _ _ Hw); lia|].
    cbn. intros _ l2 [Hw2 Hg]. split; [by trans l1|]. intros Ho Hso. apply (Hg Ho), (Hs Ho).
    intros i j x y Hi Hij Hj Hne. apply (Hso i j x y); lia.
  - apply runs_ret. split; [done|]. intros _ Hso i j x y Hi Hij Hj. apply (Hso i j x y); lia.
Qed.

Lemma insertion_ok (a b n : Z) l : good l -> 0 <= a -> a + n <= b -> b <= len l ->
  runs (insertion cmp a n) l (fun _ l' => within a b l l' /\ (Orders P ord -> sorted l' a (a + n))).
Proof.
  intros Hg Ha Hn Hb. eapply runs_weaken; [apply (insertion_loop_ok a b n); (done || lia)|]. cbn.
  intros _ l' [Hw Hs]. split; [done|]. intros Ho. apply (Hs Ho). intros i j x y. lia.
Qed.

(** ** The pivot *)

Lemma med3_ok l (lo hi i j k : Z) : good l -> 0 <= lo -> hi <= len l -> lo <= i < hi -> lo <= j < hi -> lo <= k < hi ->
  runs (med3 cmp i j k) l (fun m l' => l' = l /\ lo <= m < hi).
Proof.
  intros Hg Hlo Hhi Hi Hj Hk. unfold med3.
  eapply runs_bind; [apply cmp_at_ok; (done || lia)|]. cbn. intros ij l' [-> _].
  eapply runs_bind; [apply cmp_at_ok; (done || lia)|]. cbn. intros jk l' [-> _].
  repeat case_if; try (by apply runs_ret);
    (eapply runs_bind; [apply cmp_at_ok; (done || lia)|]; cbn; intros ik l' [-> _]; apply runs_ret; case_if; by split).
Qed.

Lemma fit_ok l (k n : Z) : 0 < es -> n * es <= INT_MAX -> k <= n ->
  runs (fit es k) l (fun r l' => r = k /\ l' = l).
Proof.
  intros Hes Hn Hk. unfold fit. rewrite (proj2 (Z.leb_le _ _)) by nia. by apply runs_ret.
Qed.

Lemma choose_ok l (a n : Z) : good l -> 0 < es -> n * es <= INT_MAX -> 0 <= a -> 7 <= n -> a + n <= len l ->
  runs (choose es cmp a n) l (fun m l' => l' = l /\ a <= m < a + n).
Proof.
  intros Hg Hes Hfit Ha Hn Hb. unfold choose. assert (0 <= n / 2 < n) by (split; [apply Z.div_pos|apply Z.div_lt]; lia).
  destruct (Z.gtb_spec n 7); [|apply runs_ret; split_and!; (done || lia)].
  eapply (runs_bind _ _ _ (fun t l' => l' = l /\ a <= t.1.1 < a + n /\ a <= t.1.2 < a + n /\ a <= t.2 < a + n)).
  - destruct (Z.gtb_spec n 40); [|apply runs_ret; cbn; split_and!; (done || lia)].
    assert (8 * (n / 8) <= n < 8 * (n / 8) + 8) by (pose proof (Z.div_mod n 8); pose proof (Z.mod_pos_bound n 8); lia).
    assert (2 * (n / 2) <= n < 2 * (n / 2) + 2) by (pose proof (Z.div_mod n 2); pose proof (Z.mod_pos_bound n 2); lia).
    eapply runs_bind; [apply (fit_ok l _ n); lia|]. cbn. intros d l' [-> ->].
    do 3 (eapply runs_bind; [apply (med3_ok l a (a + n)); (done || lia)|]; cbn; intros ? l' [-> ?]).
    by apply runs_ret.
  - intros [[pl pm] pn] l' (-> & H1 & H2 & H3). cbn in H1, H2, H3. apply (med3_ok l a (a + n)); (done || lia).
Qed.

(** ** The partition

    What the pointers delimit while the part from [a] on and before [b] is
    partitioned by its first element [v] *)

Definition eqv (v x : A) : Prop := x = v \/ ord x v = 0.

Record parted (l0 : list A) (a b : Z) (v : A) p l : Prop := {
  p_within : within a b l0 l;
  p_pivot : rd l a = Some v;
  p_left : a < pa p <= pb p;
  p_middle : pb p <= pc p + 1;
  p_right : pc p <= pd p < b;
  p_first : all_in l a (pa p) (eqv v);
  p_less : all_in l (pa p) (pb p) (fun x => ord x v < 0);
  p_more : all_in l (pc p + 1) (pd p + 1) (fun x => 0 < ord x v);
  p_last : all_in l (pd p + 1) b (eqv v) }.

Section Partition.
Context (l0 : list A) (a b : Z) (v : A).
Hypothesis (Ha : 0 <= a) (Hb : b <= len l0) (Hg0 : good l0).

Lemma parted_len p l : parted l0 a b v p l -> len l = len l0.
Proof. intros H. apply (within_length _ _ _ _ (p_within _ _ _ _ _ _ H)). Qed.

Lemma parted_good p l : parted l0 a b v p l -> good l.
Proof. intros H. by apply (good_within l0 l a b); [apply (p_within _ _ _ _ _ _ H)|]. Qed.

(** The elements of a part after a swap *)
Lemma swapped_all l l' (i j c d : Z) (Q : A -> Prop) : swapped i j l l' ->
  (forall k x, c <= k < d -> k <> i -> k <> j -> rd l k = Some x -> Q x) ->
  (c <= i < d -> forall x, rd l j = Some x -> Q x) -> (c <= j < d -> forall x, rd l i = Some x -> Q x) ->
  all_in l' c d Q.
Proof.
  intros Hs H Hi Hj k x Hk Hx. rewrite Hs in Hx. destruct (Z.eqb_spec k j) as [->|]; [by apply Hj|].
  destruct (Z.eqb_spec k i) as [->|]; [by apply Hi|]. by apply (H k).
Qed.

(** The element at [pb] belongs to the less or equal ones. *)
Lemma step_less p l x : parted l0 a b v p l -> pb p <= pc p -> rd l (pb p) = Some x -> ord x v < 0 ->
  parted l0 a b v (Part (pa p) (pb p + 1) (pc p) (pd p) (swap_cnt p)) l.
Proof.
  intros [Hw Hv Hl Hm Hr Hf Hle Hmo Hla] Hp Hx Hc. constructor; cbn; (done || lia || idtac).
  intros k y Hk Hy. destruct (decide (k = pb p)) as [->|]; [congruence|]. apply (Hle k y); [lia|done].
Qed.

Lemma step_more p l x : parted l0 a b v p l -> pb p <= pc p -> rd l (pc p) = Some x -> 0 < ord x v ->
  parted l0 a b v (Part (pa p) (pb p) (pc p - 1) (pd p) (swap_cnt p)) l.
Proof.
  intros [Hw Hv Hl Hm Hr Hf Hle Hmo Hla] Hp Hx Hc. constructor; cbn; (done || lia || idtac).
  intros k y Hk Hy. destruct (decide (k = pc p)) as [->|]; [congruence|]. apply (Hmo k y); [lia|done].
Qed.

Lemma step_first p l l' x : parted l0 a b v p l -> pb p <= pc p -> rd l (pb p) = Some x -> ord x v = 0 ->
  within a b l l' -> swapped (pa p) (pb p) l l' -> parted l0 a b v (Part (pa p + 1) (pb p + 1) (pc p) (pd p) true) l'.
Proof.
  intros [Hw Hv Hl Hm Hr Hf Hle Hmo Hla] Hp Hx Hc Hw' Hs.
  constructor; cbn; [by trans l| |lia|lia|lia|..];
    [|eapply swapped_all; [exact Hs|intros k y Hk Hk1 Hk2 Hy|intros Hk y Hy|intros Hk y Hy]..].
  - rewrite Hs. repeat case_if; (lia || done).
  - apply (Hf k y); [lia|done].
  - right. congruence.
  - destruct (decide (pa p = pb p)) as [Hab|]; [|lia]. rewrite Hab, Hx in Hy. injection Hy as <-. by right.
  - apply (Hle k y); [lia|done].
  - lia.
  - apply (Hle (pa p) y); [lia|done].
  - apply (Hmo k y); [lia|done].
  - lia.
  - lia.
  - apply (Hla k y); [lia|done].
  - lia.
  - lia.
Qed.

Lemma step_last p l l' x : parted l0 a b v p l -> pb p <= pc p -> rd l (pc p) = Some x -> ord x v = 0 ->
  within a b l l' -> swapped (pc p) (pd p) l l' -> parted l0 a b v (Part (pa p) (pb p) (pc p - 1) (pd p - 1) true) l'.
Proof.
  intros [Hw Hv Hl Hm Hr Hf Hle Hmo Hla] Hp Hx Hc Hw' Hs.
  constructor; cbn; [by trans l| |lia|lia|lia|..];
    [|eapply swapped_all; [exact Hs|intros k y Hk Hk1 Hk2 Hy|intros Hk y Hy|intros Hk y Hy]..].
  - rewrite Hs. repeat case_if; (lia || done).
  - apply (Hf k y); [lia|done].
  - lia.
  - lia.
  - apply (Hle k y); [lia|done].
  - lia.
  - lia.
  - apply (Hmo k y); [lia|done].
  - apply (Hmo (pd p) y); [lia|done].
  - lia.
  - apply (Hla k y); [lia|done].
  - destruct (decide (pc p = pd p)) as [Hab|]; [|lia]. rewrite <-Hab, Hx in Hy. injection Hy as <-. by right.
  - right. congruence.
Qed.

Lemma step_cross p l l' x y : parted l0 a b v p l -> pb p < pc p -> rd l (pb p) = Some x -> 0 < ord x v ->
  rd l (pc p) = Some y -> ord y v < 0 -> within a b l l' -> swapped (pb p) (pc p) l l' ->
  parted l0 a b v (Part (pa p) (pb p + 1) (pc p - 1) (pd p) true) l'.
Proof.
  intros [Hw Hv Hl Hm Hr Hf Hle Hmo Hla] Hp Hx Hcx Hy Hcy Hw' Hs.
  constructor; cbn; [by trans l| |lia|lia|lia|..];
    [|eapply swapped_all; [exact Hs|intros k z Hk Hk1 Hk2 Hz|intros Hk z Hz|intros Hk z Hz]..]; try lia.
  - rewrite Hs. repeat case_if; (lia || done).
  - apply (Hf k z); [lia|done].
  - apply (Hle k z); [lia|done].
  - congruence.
  - apply (Hmo k z); [lia|done].
  - congruence.
  - apply (Hla k z); [lia|done].
Qed.

Lemma left_loop_ok : forall fuel p l, (Z.to_nat (pc p - pb p + 1) < fuel)%nat -> parted l0 a b v p l ->
  runs (left_loop cmp fuel a p) l (fun p' l' => parted l0 a b v p' l' /\ pc p' = pc p /\ pb p <= pb p' /\
    (pb p' <= pc p' -> exists x, rd l' (pb p') = Some x /\ 0 < ord x v)).
Proof.
  intros fuel. induction fuel as [|fuel IH]; intros p l Hf Hp; [lia|]. cbn [left_loop].
  pose proof (parted_len p l Hp) as Hlen. pose proof (parted_good p l Hp) as Hgood. pose proof Hp as [_ Hv Hl Hm Hr _ _ _ _].
  destruct (Z.leb_spec (pb p) (pc p)) as [Hle|Hgt]; [|apply runs_ret; split_and!; (done || lia)].
  eapply runs_bind; [apply cmp_at_ok; (done || lia)|]. cbn beta. intros r l' (-> & x & y & Hx & Hy & ->).
  replace y with v by congruence.
  destruct (Z.leb_spec (ord x v) 0) as [Hc|Hc]; [|apply runs_ret; split_and!; (done || lia || eauto)].
  destruct (Z.eqb_spec (ord x v) 0) as [He|He].
  - eapply runs_bind; [apply (swap_ok l a b); lia|]. cbn beta. intros _ l1 [Hw Hs].
    eapply runs_weaken; [apply IH; [cbn; lia|by eapply step_first]|]. cbn.
    intros p' l2 (? & ? & ? & ?). split_and!; (done || lia).
  - eapply runs_weaken; [apply IH; [cbn; lia|eapply step_less; eauto; lia]|]. cbn.
    intros p' l2 (? & ? & ? & ?). split_and!; (done || lia).
Qed.

Lemma right_loop_ok x : 0 < ord x v -> forall fuel p l, (Z.to_nat (pc p - pb p + 1) < fuel)%nat -> parted l0 a b v p l ->
  (pb p <= pc p -> rd l (pb p) = Some x) ->
  runs (right_loop cmp fuel a p) l (fun p' l' => parted l0 a b v p' l' /\ pb p' = pb p /\ pc p' <= pc p /\
    (pb p' <= pc p' -> rd l' (pb p') = Some x /\ exists y, rd l' (pc p') = Some y /\ ord y v < 0)).
Proof.
  intros Hx fuel. induction fuel as [|fuel IH]; intros p l Hf Hp Hrx; [lia|]. cbn [right_loop].
  pose proof (parted_len p l Hp) as Hlen. pose proof (parted_good p l Hp) as Hgood. pose proof Hp as [_ Hv Hl Hm Hr _ _ _ _].
  destruct (Z.leb_spec (pb p) (pc p)) as [Hle|Hgt]; [|apply runs_ret; split_and!; (done || lia)].
  specialize (Hrx Hle).
  eapply runs_bind; [apply cmp_at_ok; (done || lia)|]. cbn beta. intros r l' (-> & z & y & Hz & Hy & ->).
  replace y with v by congruence.
  destruct (Z.geb_spec (ord z v) 0) as [Hc|Hc].
  2:{ apply runs_ret. split_and!; try (done || lia). intros _. split; [done|]. exists z. split; [done|lia]. }
  destruct (Z.eqb_spec (ord z v) 0) as [He|He].
  - eapply runs_bind; [apply (swap_ok l a b); lia|]. cbn beta. intros _ l1 [Hw Hs].
    eapply runs_weaken; [apply IH; [cbn; lia|by eapply step_last|]|].
    + cbn. intros Hlt. rewrite Hs. repeat case_if; (lia || done).
    + cbn. intros p' l2 (? & ? & ? & ?). split_and!; (done || lia).
  - eapply runs_weaken; [apply IH; [cbn; lia|eapply step_more; eauto; lia|cbn; done]|]. cbn.
    intros p' l2 (? & ? & ? & ?). split_and!; (done || lia).
Qed.

Lemma partition_ok : forall fuel p l, (Z.to_nat (pc p - pb p + 1) < fuel)%nat -> parted l0 a b v p l ->
  runs (partition_loop cmp fuel a p) l (fun p' l' => parted l0 a b v p' l' /\ pb p' = pc p' + 1).
Proof.
  intros fuel. induction fuel as [|fuel IH]; intros p l Hf Hp; [lia|]. cbn [partition_loop].
  eapply runs_bind; [apply left_loop_ok; [unfold width; lia|done]|]. cbn beta.
  intros p1 l1 (Hp1 & Hpc1 & Hpb1 & Hx).
  eapply (runs_bind _ _ _ (fun p' l' => parted l0 a b v p' l' /\ pb p' = pb p1 /\ pc p' <= pc p1 /\
    (pb p' <= pc p' -> exists x y, rd l' (pb p') = Some x /\ 0 < ord x v /\ rd l' (pc p') = Some y /\ ord y v < 0))).
  { destruct (decide (pb p1 <= pc p1)) as [Hle|Hgt].
    - destruct (Hx Hle) as (x & Hrx & Hcx). eapply runs_weaken.
      + apply (right_loop_ok x Hcx); [unfold width; lia|done|done].
      + cbn beta. intros p2 l2 (? & ? & ? & H). split_and!; try done. intros Hle2. destruct (H Hle2) as (? & y & ? & ?).
        by exists x, y.
    - unfold width. rewrite (Z2Nat.nonpos (pc p1 - pb p1 + 1)) by lia. cbn.
      rewrite (proj2 (Z.leb_gt (pb p1) (pc p1))) by lia. apply runs_ret. split_and!; (done || lia). }
  intros p2 l2 (Hp2 & Hpb2 & Hpc2 & Hxy).
  pose proof (parted_len p2 l2 Hp2) as Hlen. pose proof Hp2 as [_ Hv Hl Hm Hr _ _ _ _].
  destruct (Z.gtb_spec (pb p2) (pc p2)) as [Hgt|Hle]; [apply runs_ret; split; [done|lia]|].
  destruct (Hxy Hle) as (x & y & Hrx & Hcx & Hry & Hcy).
  assert (pb p2 <> pc p2) as Hne by (intros He; rewrite He, Hry in Hrx; injection Hrx as ->; lia).
  eapply runs_bind; [apply (swap_ok l2 a b); lia|]. cbn beta. intros _ l3 [Hw Hs].
  apply IH; [cbn; lia|]. eapply step_cross; eauto. lia.
Qed.

(** ** The equal elements in the middle *)

(** Two parts that do not overlap have changed places. *)
Definition exchanged (i j n : Z) l l' : Prop :=
  forall k, rd l' k = if decide (i <= k < i + n) then rd l (k - i + j)
                      else if decide (j <= k < j + n) then rd l (k - j + i) else rd l k.

Lemma swapfunc_ok : forall n i j l, a <= i -> i + Z.of_nat n <= j -> j + Z.of_nat n <= b -> b <= len l ->
  runs (swapfunc n i j) l (fun _ l' => within a b l l' /\ exchanged i j (Z.of_nat n) l l').
Proof.
  intros n. induction n as [|n IH]; intros i j l Hi Hj Hn Hl.
  - apply runs_ret. split; [done|]. intros k. repeat case_decide; (lia || done).
  - cbn [swapfunc]. eapply runs_bind; [apply (swap_ok l a b); lia|]. cbn beta. intros _ l1 [Hw Hs].
    eapply runs_weaken; [apply IH; [lia..|rewrite (within_length _ _ _ _ Hw); lia]|]. cbn beta.
    intros _ l2 [Hw2 Hx]. split; [by trans l1|]. intros k. rewrite Hx.
    repeat case_decide; try lia; rewrite Hs; repeat case_if; try lia; try done; f_equal; lia.
Qed.

Lemma vecswap_ok (i j n : Z) l : 0 <= n -> a <= i -> i + n <= j -> j + n <= b -> b <= len l ->
  runs (vecswap i j n) l (fun _ l' => within a b l l' /\ exchanged i j n l l').
Proof.
  intros Hn Hi Hj Hjb Hl. unfold vecswap. destruct (Z.gtb_spec n 0) as [Hpos|].
  - pose proof (swapfunc_ok (Z.to_nat n) i j l) as H. rewrite Z2Nat.id in H by lia. by apply H.
  - apply runs_ret. split; [done|]. intros k. repeat case_decide; (lia || done).
Qed.

Lemma exchanged_all l l' (i j n c d : Z) (Q : A -> Prop) : exchanged i j n l l' ->
  (forall k x, c <= k < d -> ~ i <= k < i + n -> ~ j <= k < j + n -> rd l k = Some x -> Q x) ->
  (forall k x, i <= k < i + n -> c <= k < d -> rd l (k - i + j) = Some x -> Q x) ->
  (forall k x, j <= k < j + n -> c <= k < d -> rd l (k - j + i) = Some x -> Q x) ->
  all_in l' c d Q.
Proof.
  intros Hx H Hi Hj k x Hk Hr. rewrite Hx in Hr.
  case_decide; [by apply (Hi k)|]. case_decide; [by apply (Hj k)|]. by apply (H k).
Qed.

(** After: what is less, what is equal, what is more *)
Record thirds p l : Prop := {
  t_within : within a b l0 l;
  t_less : all_in l a (a + (pb p - pa p)) (fun x => ord x v < 0);
  t_same : all_in l (a + (pb p - pa p)) (b - (pd p - pc p)) (eqv v);
  t_more : all_in l (b - (pd p - pc p)) b (fun x => 0 < ord x v) }.

Lemma to_middle_ok p l : 0 < es -> (b - a) * es <= INT_MAX -> parted l0 a b v p l -> pb p = pc p + 1 ->
  runs (to_middle es a (b - a) p) l (fun _ l' => thirds p l').
Proof.
  intros Hes Hfit Hp Hpb. pose proof (parted_len p l Hp) as Hlen. destruct Hp as [Hw Hv Hl Hm Hr Hf Hle Hmo Hla].
  unfold to_middle. replace (a + (b - a)) with b by lia.
  eapply runs_bind; [apply (fit_ok l _ (b - a)); lia|]. cbn beta. intros r l' [-> ->].
  set (s := Z.min (pa p - a) (pb p - pa p)).
  eapply runs_bind; [apply (vecswap_ok a (pb p - s) s l); lia|]. cbn beta. intros _ l1 [Hw1 Hx1].
  assert (all_in l1 a (a + (pb p - pa p)) (fun x => ord x v < 0)) as Q1.
  { eapply exchanged_all; [exact Hx1|intros k x Hk Hk1 Hk2 Hx|intros k x Hk Hk1 Hx|intros k x Hk Hk1 Hx].
    - apply (Hle k x); [lia|done].
    - apply (Hle _ x (ltac:(lia) : pa p <= k - a + (pb p - s) < pb p) Hx).
    - apply (Hle _ x (ltac:(lia) : pa p <= k - (pb p - s) + a < pb p) Hx). }
  assert (all_in l1 (a + (pb p - pa p)) (pb p) (eqv v)) as Q2.
  { eapply exchanged_all; [exact Hx1|intros k x Hk Hk1 Hk2 Hx|intros k x Hk Hk1 Hx|intros k x Hk Hk1 Hx].
    - apply (Hf k x); [lia|done].
    - lia.
    - apply (Hf _ x (ltac:(lia) : a <= k - (pb p - s) + a < pa p) Hx). }
  assert (forall k, pb p <= k -> rd l1 k = rd l k) as Hsame1.
  { intros k Hk. rewrite Hx1. repeat case_decide; (lia || done). }
  assert (len l1 = len l0) as Hlen1 by (rewrite (within_length _ _ _ _ Hw1); lia).
  eapply runs_bind; [apply (fit_ok l1 _ (b - a)); lia|]. cbn beta. intros r l2 [-> ->].
  set (t := Z.min (pd p - pc p) (b - pd p - 1)).
  eapply runs_weaken; [apply (vecswap_ok (pb p) (b - t) t l1); lia|]. cbn beta. intros _ l2 [Hw2 Hx2].
  split; [by trans l; [|trans l1]|..];
    (eapply exchanged_all; [exact Hx2|intros k x Hk Hk1 Hk2 Hx|intros k x Hk Hk1 Hx|intros k x Hk Hk1 Hx]);
    try lia; try (apply (Q1 k x); [lia|exact Hx]).
  - destruct (decide (k < pb p)); [apply (Q2 k x); [lia|exact Hx]|]. rewrite Hsame1 in Hx by lia.
    apply (Hla k x); [lia|exact Hx].
  - rewrite Hsame1 in Hx by lia. apply (Hla _ x (ltac:(lia) : pd p + 1 <= k - pb p + (b - t) < b) Hx).
  - rewrite Hsame1 in Hx by lia. apply (Hmo k x); [lia|exact Hx].
  - rewrite Hsame1 in Hx by lia. apply (Hmo _ x (ltac:(lia) : pc p + 1 <= k - (b - t) + pb p < pd p + 1) Hx).
Qed.

End Partition.

(** ** Sorting *)

(** The bytes of the array are counted in an [int]. *)
Definition fits (n : Z) : Prop := 0 < es /\ n * es <= INT_MAX.

Lemma fits_le (m n : Z) : fits n -> m <= n -> fits m.
Proof. intros [H1 H2] Hm. split; [done|nia]. Qed.

Lemma sorted_out l l' (a b c d : Z) : within c d l l' -> b <= c \/ d <= a -> sorted l a b -> sorted l' a b.
Proof.
  intros Hw Hab H i j x y Hi Hij Hj. rewrite !(within_out _ _ _ _ Hw) by lia. by apply H.
Qed.

Lemma sorted_short l (a b : Z) : b <= a + 1 -> sorted l a b.
Proof. intros H i j. lia. Qed.

(** Three sorted parts of which the first is less and the last more than [v] *)
Lemma sorted_thirds `{!Orders P ord} (v : A) l (a c d b : Z) : P v -> good l -> a <= c <= d -> d <= b ->
  all_in l a c (fun x => ord x v < 0) -> all_in l c d (eqv v) -> all_in l d b (fun x => 0 < ord x v) ->
  sorted l a c -> sorted l d b -> sorted l a b.
Proof.
  intros Hv Hg Hc Hd H1 H2 H3 S1 S3 i j x y Hi Hij Hj Hx Hy.
  assert (forall k z, c <= k < d -> rd l k = Some z -> ord z v = 0) as H2'.
  { intros k z Hk Hz. destruct (H2 k z Hk Hz) as [->|]; [by apply (orders_refl P ord)|done]. }
  assert (j < c \/ d <= i \/ (i < d /\ c <= j)) as [Hl|[Hr|[Hid Hjc]]] by lia.
  - by apply (S1 i j).
  - by apply (S3 i j).
  - apply (orders_trans x v y); [P_side..| |].
    + destruct (decide (i < c)); [specialize (H1 i x ltac:(lia) Hx)|specialize (H2' i x ltac:(lia) Hx)]; cbn beta in *; lia.
    + apply (orders_flip P ord); [P_side..|].
      destruct (decide (j < d)); [specialize (H2' j y ltac:(lia) Hy)|specialize (H3 j y ltac:(lia) Hy)]; cbn beta in *; lia.
Qed.

Definition sorts (m : M (list A) unit) l (a b : Z) : Prop :=
  runs m l (fun _ l' => within a b l l' /\ (Orders P ord -> sorted l' a b)).

Lemma sorts_short l (a b : Z) : b <= a + 1 -> sorts (ret tt) l a b.
Proof. intros H. apply runs_ret. split; [done|]. intros _. by apply sorted_short. Qed.

(** One of the two parts on the sides *)
Lemma side_ok (fuel : nat) (side : Z -> M (list A) unit) l (k n c : Z) : side k = qsort es cmp fuel c k ->
  (forall a n l, good l -> (Z.to_nat n < fuel)%nat -> fits n -> 0 <= a -> 0 <= n -> a + n <= len l ->
    sorts (qsort es cmp fuel a n) l a (a + n)) ->
  good l -> fits n -> 0 <= k < n -> (Z.to_nat n < S fuel)%nat -> 0 <= c -> c + k <= len l ->
  sorts (let* r := fit es k in if r >? 1 then side r else ret tt) l c (c + k).
Proof.
  intros Hside IH Hg Hfit Hk Hf Hc Hl. pose proof Hfit as [Hes Hn].
  eapply runs_bind; [apply (fit_ok l k n); lia|]. cbn beta. intros r l' [-> ->].
  rewrite Hside. destruct (Z.gtb_spec k 1); [apply IH; [done|lia|by apply (fits_le _ n); [|lia]|lia..]|apply sorts_short; lia].
Qed.

Lemma qsort_ok : forall fuel (a n : Z) l, good l -> (Z.to_nat n < fuel)%nat -> fits n -> 0 <= a -> 0 <= n -> a + n <= len l ->
  sorts (qsort es cmp fuel a n) l a (a + n).
Proof.
  intros fuel. induction fuel as [|fuel IH]; intros a n l Hg Hf Hfit Ha Hn Hl; [lia|]. cbn [qsort].
  destruct (Z.ltb_spec n 7); [apply insertion_ok; (done || lia)|]. pose proof Hfit as [Hes Hmax].
  eapply runs_bind; [apply choose_ok; (done || lia)|]. cbn beta. intros pm l' [-> Hpm].
  eapply runs_bind; [apply (swap_ok l a (a + n)); lia|]. cbn beta. intros _ l1 [Hw1 _].
  destruct (rd_some l1 a) as [v Hv]; [rewrite (within_length _ _ _ _ Hw1); lia|].
  assert (P v) as HPv by P_side.
  eapply runs_bind.
  { apply (partition_ok l a (a + n) v); [done|done|done|cbn; lia|]. constructor; cbn; try lia; try done.
    - intros k x Hk Hx. left. replace k with a in Hx by lia. congruence.
    - intros k x Hk. lia.
    - intros k x Hk. lia.
    - intros k x Hk. lia. }
  cbn beta. intros p l2 [Hp Hpb]. pose proof (p_within _ _ _ _ _ _ Hp) as Hw2.
  assert (len l2 = len l) as Hl2 by apply (within_length _ _ _ _ Hw2).
  assert (a + n - a = n) as Hsub by lia.
  destruct (swap_cnt p); cbn [negb].
  2:{ eapply runs_weaken; [apply (insertion_ok a (a + n)); [P_side|lia..]|]. intros _ l3 [Hw3 Hs]. split; [by trans l2|done]. }
  pose proof (to_middle_ok l a (a + n) v Ha Hl p l2) as Hm. rewrite Hsub in Hm.
  eapply runs_bind; [by apply Hm|]. cbn beta. intros _ l3 [Hw3 T1 T2 T3].
  destruct Hp as [_ _ Hleft Hmid Hright _ _ _ _]. assert (len l3 = len l) as Hl3 by apply (within_length _ _ _ _ Hw3).
  eapply runs_bind; [apply (side_ok fuel _ l3 (pb p - pa p) n a eq_refl IH ltac:(P_side) Hfit); lia|].
  cbn beta. intros _ l4 [Hw4 S1].
  assert (len l4 = len l) as Hl4 by (rewrite (within_length _ _ _ _ Hw4); lia).
  eapply runs_weaken; [apply (side_ok fuel (fun r => qsort es cmp fuel (a + n - r) r) l4 (pd p - pc p) n _ eq_refl IH ltac:(P_side) Hfit); lia|].
  replace (a + n - (pd p - pc p) + (pd p - pc p)) with (a + n) by lia.
  cbn beta. intros _ l5 [Hw5 S3].
  assert (within a (a + n) l3 l5) as Hw by
    (trans l4; [apply (within_weaken _ _ _ _ _ _ Hw4)|apply (within_weaken _ _ _ _ _ _ Hw5)]; lia).
  split; [by trans l3|]. intros Ho. specialize (S1 Ho). specialize (S3 Ho).
  apply (sorted_thirds v _ _ (a + (pb p - pa p)) (a + n - (pd p - pc p))); [done|P_side|lia|lia|..]; [| | | |done].
  - apply (all_in_out l4 l5 _ _ _ _ _ Hw5); [lia|]. apply (all_in_within _ _ _ _ l3 l4 _ Ha Hw4); [lia..|exact T1].
  - apply (all_in_out l4 l5 _ _ _ _ _ Hw5); [lia|]. apply (all_in_out l3 l4 _ _ _ _ _ Hw4); [lia|done].
  - eapply all_in_within; [|exact Hw5|lia|lia|]; [lia|].
    apply (all_in_out l3 l4 _ _ _ _ _ Hw4); [lia|done].
  - by apply (sorted_out l4 l5 _ _ _ _ Hw5); [lia|].
Qed.

(** ** The whole array *)

Lemma sorted_ordered l : sorted l 0 (len l) -> ordered ord l.
Proof.
  intros H. apply ordered_lookup. intros i j x y Hij Hx Hy. apply (H (Z.of_nat i) (Z.of_nat j) x y); [lia|lia|..].
  - apply lookup_lt_Some in Hy. unfold len. lia.
  - unfold rd. rewrite (proj2 (Z.ltb_ge _ _)) by lia. by rewrite Nat2Z.id.
  - unfold rd. rewrite (proj2 (Z.ltb_ge _ _)) by lia. by rewrite Nat2Z.id.
Qed.

Lemma sort_array_ok l : good l -> fits (len l) ->
  runs (sort_array es cmp) l (fun _ l' => l' ≡ₚ l /\ (Orders P ord -> ordered ord l')).
Proof.
  intros Hg Hf. eapply runs_weaken.
  - unfold sort_array. apply (qsort_ok (length l + 1) 0 (len l) l); [done|unfold len; lia|done|lia|unfold len; lia|lia].
  - cbn. intros _ l' [Hw Hs]. split; [apply Hw|]. intros Ho. apply sorted_ordered.
    rewrite (within_length _ _ _ _ Hw). by apply Hs.
Qed.

End Sort.

#[export] Instance qsort_sorter {A : Type} (es : Z) : Sorter (A := A) (fun l => fits es (len l)) (sort es).
Proof.
  intros P cmp ord l Hcmp Hg Hf. destruct (sort_array_ok es P cmp ord Hcmp l Hg Hf) as ([] & l' & H & Hp & Ho).
  exists l'. split; [|done]. unfold sort. by rewrite H.
Qed.

(** The insertion sort alone, a second routine that sorts *)
Definition insertion_sort {A : Type} (cmp : A -> A -> option Z) (l : list A) : option (list A) :=
  snd <$> insertion cmp 0 (len l) l.

#[export] Instance insertion_sorter {A : Type} : Sorter (A := A) (fun _ => True) insertion_sort.
Proof.
  intros P cmp ord l Hcmp Hg _.
  destruct (insertion_ok P cmp ord Hcmp 0 (len l) (len l) l) as ([] & l' & H & Hw & Ho); [done|lia..|].
  exists l'. split; [unfold insertion_sort; by rewrite H|]. split; [apply Hw|]. intros HO.
  apply sorted_ordered. rewrite (within_length _ _ _ _ Hw). by apply Ho.
Qed.

(** C17. For every comparison that returns on the elements, [qsort] of an array whose
    bytes an [int] can count ends, stays inside the array and permutes it; if the
    comparison orders the elements, no element of the result comes before an
    earlier one. *)
Theorem qsort_sorts {A : Type} (es : Z) (P : A -> Prop) (cmp : A -> A -> option Z) (ord : A -> A -> Z) (l : list A) :
  compares P cmp ord -> Forall P l -> 0 < es -> Z.of_nat (length l) * es <= INT_MAX ->
  exists l', sort_array es cmp l = Some (tt, l') /\ l' ≡ₚ l /\ (Orders P ord -> ordered ord l').
Proof.
  intros Hcmp Hg H1 H2. destruct (sort_array_ok es P cmp ord Hcmp l Hg (conj H1 H2)) as ([] & l' & H & Hp & Ho).
  by exists l'.
Qed.

Lemma qsort_sorts_witness :
  exists l', sort_array 4 (fun x y => Some (by_asc (fun x => x) x y)) [5; 3; 9; 1; 7; 3; 8; 2] = Some (tt, l') /\
    l' ≡ₚ [5; 3; 9; 1; 7; 3; 8; 2] /\ ordered (by_asc (fun x => x)) l'.
Proof.
  destruct (qsort_sorts 4 (fun _ => True) (fun x y => Some (by_asc (fun x => x) x y)) (by_asc (fun x => x)) [5; 3; 9; 1; 7; 3; 8; 2])
    as (l' & H1 & H2 & H3); [done|repeat constructor|lia|vm_compute; discriminate|].
  exists l'. split; [exact H1|]. split; [exact H2|]. apply H3, orders_asc.
Defined.

(** Forty-five elements: the middle of nine is the pivot. *)
Example qsort_many :
  sort_array 4 (fun x y => Some (by_asc (fun x => x) x y)) (map (fun k => (k * 37) mod 45) (seqZ 0 45))
  = Some (tt, seqZ 0 45).
Proof. vm_compute. reflexivity. Qed.

End QsortProps.
