(* ===== verification/JobSort.v ===== *)
(** * Sorting jobs: [src/scheduler/sort.c]

    Module [JobSort]: the comparison functions of jobs and reservations, and
    [sort_jobs].  A comparison gets the environment it reads: the policy of the
    jobs' server, the sort keys of [cstat] and the fairshare tree.  An element of an
    array of pointers is [None] where it is [NULL]; a comparison that follows a
    [NULL] pointer is [None].  Sorting an array is a parameter of [sort_jobs], which
    is the C library's [qsort] or the one of [Qsort]. *)

From Stdlib Require Import ZArith Lia Ascii String.
From stdpp Require Import gmap.
From S2P Require Import Prelude Ranges SchedData Doubles Counts TextFile FairTree TimeData EventList EventSim.
Import Data Double Float ReqList Conf EventSim.

Module JobSort.

Definition MAX_SORTS : Z := 21.
Definition SORT_FAIR_SHARE : cstring := lit "fair_share_perc".
Definition SORT_PREEMPT : cstring := lit "preempt_priority".
Definition SORT_JOB_PRIORITY : cstring := lit "job_priority".

(** ** Data *)

(** The fields of [job_info] the comparisons read; [ginfo] is an address of the
    fairshare tree, 0 where it is [NULL]. *)
Record job_info := JobInfo {
  j_state : job_state; preempt : Z; time_preempted : Z; stime : Z; is_starving : bool;
  formula_value : float; priority : Z; ginfo : Z }.

(** A [resource_resv]: [job] and [resv_state] are [None] where the pointers [job] and
    [resv] are [NULL]. *)
Record sort_resv := SortResv {
  rr : resource_resv; job : option job_info; resv_state : option Z;
  sch_priority : Z; qrank : Z; rank : Z }.

Definition timed (r : sort_resv) : timed_resv := TimedResv (rr r) (j_state <$> job r) (resv_state r).
Definition runnable (r : sort_resv) : bool := in_runnable_state (timed r).

Inductive sort_order := NO_SORT_ORDER | DESC | ASC.
#[export] Instance sort_order_eq_dec : EqDecision sort_order.
Proof. solve_decision. Defined.

Inductive resource_fields := RF_NONE | RF_AVAIL | RF_DIRECT_AVAIL | RF_ASSN | RF_REQUEST | RF_UNUSED.

(** [struct sort_info], a key to sort by *)
Record sort_info := SortInfo {
  si_res_name : option cstring; si_def : option resdef; si_order : sort_order; si_res_type : resource_fields }.

(** What the comparisons read: [r->server->policy], [cstat.sort_by] and the tree *)
Record sort_env := SortEnv { env_policy : settings; env_sort_by : list sort_info; env_tree : Fair.heap }.

(** ** Comparisons *)

(** [-1] for a pointer before [NULL]; [k] where neither is [NULL] *)
Definition null_last {A : Type} (k : A -> A -> option Z) (r1 r2 : option A) : option Z :=
  match r1, r2 with
  | Some _, None => Some (-1)
  | None, None => Some 0
  | None, Some _ => Some 1
  | Some r1, Some r2 => k r1 r2
  end.

Definition cmp_preemption : option sort_resv -> option sort_resv -> option Z :=
  null_last (fun r1 r2 =>
    match job r1, job r2 with
    | Some j1, Some j2 =>
        Some (if preempt j1 <? preempt j2 then 1 else if preempt j1 >? preempt j2 then -1 else 0)
    | _, _ => Some 0
    end).

Definition cmp_job_preemption_time_asc : option sort_resv -> option sort_resv -> option Z :=
  null_last (fun r1 r2 =>
    match job r1, job r2 with
    | Some j1, Some j2 =>
        let none j := time_preempted j =? UNSPECIFIED in
        Some (if none j1 && none j2 then 0
              else if negb (none j1) && none j2 then -1
              else if none j1 && negb (none j2) then 1
              else if time_preempted j1 <? time_preempted j2 then -1
              else if time_preempted j1 >? time_preempted j2 then 1 else 0)
    | _, _ => Some 0
    end).

Definition cmp_starving_jobs : option sort_resv -> option sort_resv -> option Z :=
  null_last (fun r1 r2 =>
    match job r1, job r2 with
    | Some j1, Some j2 =>
        Some (if negb (is_starving j1) && negb (is_starving j2) then 0
              else if negb (is_starving j1) && is_starving j2 then 1
              else if is_starving j1 && negb (is_starving j2) then -1
              else if sch_priority r1 >? sch_priority r2 then -1
              else if sch_priority r1 <? sch_priority r2 then 1 else 0)
    | _, _ => Some 0
    end).

(** [job] is followed without a test. *)
Definition cmp_job_sort_formula (r1 r2 : sort_resv) : option Z :=
  j1 ← job r1; j2 ← job r2;
  Some (if flt_ltb (formula_value j1) (formula_value j2) then 1
        else if flt_ltb (formula_value j2) (formula_value j1) then -1 else 0).

Definition has_ginfo (j : job_info) : bool := negb (ginfo j =? Fair.NULL).

Definition cmp_fairshare (h : Fair.heap) (r1 r2 : sort_resv) : option Z :=
  match job r1, job r2 with
  | Some j1, Some j2 =>
      if has_ginfo j1 && has_ginfo j2 then
        g1 ← Fair.cells h !! ginfo j1; g2 ← Fair.cells h !! ginfo j2;
        fst <$> Fair.compare_path (Fair.gpath g1) (Fair.gpath g2) h
      else Some 0
  | _, _ => Some 0
  end.

(** The amount a key sorts by *)
Definition find_resresv_amount (h : Fair.heap) (r : sort_resv) (res : cstring) (def : option resdef) : option double :=
  let by_name :=
    if streq res SORT_JOB_PRIORITY then j ← job r; Some (dbl_of_Z (priority j))
    else
      fair ← (if streq res SORT_FAIR_SHARE then j ← job r; Some (has_ginfo j) else Some false);
      if fair : bool then j ← job r; g ← Fair.cells h !! ginfo j; Some (dbl_of_flt (Fair.tree_percentage g))
      else if streq res SORT_PREEMPT then j ← job r; Some (dbl_of_Z (preempt j))
      else Some (dbl_of_Z 0) in
  match def with
  | Some _ => match find_resource_req (rr_resreq (rr r)) def with Some (_, req) => Some (rq_amount req) | None => by_name end
  | None => by_name
  end.

(** Two amounts in the order of a key *)
Definition cmp_amount (o : sort_order) (v1 v2 : double) : Z :=
  if dbl_eqb v1 v2 then 0
  else if bool_decide (o = ASC) then (if dbl_ltb v1 v2 then -1 else 1)
  else if dbl_ltb v1 v2 then 1 else -1.

(** [res_name] is not [NULL] where the function is called. *)
Definition resresv_sort_cmp (h : Fair.heap) (si : option sort_info) : option sort_resv -> option sort_resv -> option Z :=
  null_last (fun r1 r2 =>
    match si with
    | None => Some 0
    | Some si =>
        res ← si_res_name si;
        v1 ← find_resresv_amount h r1 res (si_def si);
        v2 ← find_resresv_amount h r2 res (si_def si);
        Some (cmp_amount (si_order si) v1 v2)
    end).

(** The loop over the keys *)
Fixpoint keys_loop (fuel : nat) (i : Z) (key : sort_info -> option Z) (sort_by : list sort_info) : option Z :=
  match fuel with
  | O => None
  | S fuel =>
      if i <=? MAX_SORTS then
        si ← rd sort_by i;
        match si_res_name si with
        | None => Some 0
        | Some _ => r ← key si; if r =? 0 then keys_loop fuel (i + 1) key sort_by else Some r
        end
      else Some 0
  end.
Definition over_keys (key : sort_info -> option Z) (sort_by : list sort_info) : option Z :=
  keys_loop (Z.to_nat MAX_SORTS + 2) 0 key sort_by.

Definition multi_sort (e : sort_env) (r1 r2 : sort_resv) : option Z :=
  over_keys (fun si => resresv_sort_cmp (env_tree e) (Some si) (Some r1) (Some r2)) (env_sort_by e).

(** The next comparison where the first finds no difference *)
Definition or_else (c k : option Z) : option Z := r ← c; if r =? 0 then k else Some r.

Definition cmp_sort (e : sort_env) : option sort_resv -> option sort_resv -> option Z :=
  null_last (fun r1 r2 =>
    if runnable r1 && negb (runnable r2) then Some (-1)
    else if runnable r2 && negb (runnable r1) then Some 1
    else
      or_else (cmp_preemption (Some r1) (Some r2))
      (or_else (cmp_job_preemption_time_asc (Some r1) (Some r2))
      (or_else (if rr_is_job (rr r1) && help_starving_jobs (env_policy e)
                then cmp_starving_jobs (Some r1) (Some r2) else Some 0)
      (or_else (cmp_job_sort_formula r1 r2)
      (or_else (if fair_share (env_policy e) then cmp_fairshare (env_tree e) r1 r2 else Some 0)
      (or_else (multi_sort e r1 r2)
      (Some (if qrank r1 <? qrank r2 then -1
             else if qrank r1 >? qrank r2 then 1
             else if rank r1 <? rank r2 then -1
             else if rank r1 >? rank r2 then 1 else 0)))))))).

(** ** Comparisons of running jobs and of reservations

    Here the elements are not [NULL]. *)

Definition cmp_preempt_priority_asc (r1 r2 : sort_resv) : option Z :=
  j1 ← job r1; j2 ← job r2;
  Some (if preempt j1 <? preempt j2 then -1
        else if preempt j1 >? preempt j2 then 1
        else if rank r1 <? rank r2 then -1
        else if rank r1 >? rank r2 then 1 else 0).

Definition cmp_preempt_stime_asc (r1 r2 : sort_resv) : option Z :=
  j1 ← job r1; j2 ← job r2;
  Some (if preempt j1 <? preempt j2 then -1
        else if preempt j1 >? preempt j2 then 1
        else if stime j1 >? stime j2 then -1
        else if stime j1 <? stime j2 then 1 else 0).

Definition cmp_resv_state (r1 r2 : sort_resv) : option Z :=
  s1 ← resv_state r1; s2 ← resv_state r2;
  Some (if negb (s1 =? Events.RESV_BEING_ALTERED) && (s2 =? Events.RESV_BEING_ALTERED) then 1
        else if negb (s2 =? Events.RESV_BEING_ALTERED) && (s1 =? Events.RESV_BEING_ALTERED) then -1 else 0).

(** ** Sorting the jobs of a server

    The arrays have their memory as it is, with the [NULL] at the end; [queue_list]
    points at the queues by their index. *)

Record sort_queue := SortQueue { sq_jobs : list (option sort_resv); sq_total : Z }.

Record sort_server := SortServer {
  ss_queues : list sort_queue; ss_queue_list : option (list (list nat)); ss_jobs : list (option sort_resv) }.

(** [count_array]: what is before the [NULL]; without one the reading overruns. *)
Fixpoint count_array {A : Type} (arr : list (option A)) : option Z :=
  match arr with
  | [] => None
  | None :: _ => Some 0
  | Some _ :: arr => n ← count_array arr; Some (n + 1)
  end.

Section Sort.
Context (sort : (option sort_resv -> option sort_resv -> option Z) -> list (option sort_resv) -> option (list (option sort_resv))).
Context (e : sort_env).

(** [qsort] of the first [n] elements *)
Definition sort_first (n : Z) (arr : list (option sort_resv)) : option (list (option sort_resv)) :=
  if (0 <=? n) && (n <=? Z.of_nat (length arr)) then
    l ← sort (cmp_sort e) (take (Z.to_nat n) arr); Some (l ++ drop (Z.to_nat n) arr)
  else None.

Definition sort_all (arr : list (option sort_resv)) : option (list (option sort_resv)) :=
  n ← count_array arr; sort_first n arr.

Definition sort_queue_jobs (q : sort_queue) : option sort_queue :=
  l ← sort_all (sq_jobs q); Some (SortQueue l (sq_total q)).

(** By the number of jobs the queue counts *)
Definition sort_queue_total (q : sort_queue) : option sort_queue :=
  if sq_total q >? 0 then l ← sort_first (sq_total q) (sq_jobs q); Some (SortQueue l (sq_total q)) else Some q.

(** The first [n] jobs of a queue go to the server's array. *)
Fixpoint copy_jobs (n : nat) (index : Z) (src : list (option sort_resv)) (job_index : Z) (dst : list (option sort_resv))
  : option (Z * list (option sort_resv)) :=
  match n with
  | O => Some (job_index, dst)
  | S n =>
      x ← rd src index; dst ← wr dst job_index x;
      copy_jobs n (index + 1) src (job_index + 1) dst
  end.
Fixpoint copy_queues (qs : list sort_queue) (job_index : Z) (dst : list (option sort_resv))
  : option (Z * list (option sort_resv)) :=
  match qs with
  | [] => Some (job_index, dst)
  | q :: qs =>
      '(job_index, dst) ← copy_jobs (Z.to_nat (sq_total q)) 0 (sq_jobs q) job_index dst;
      copy_queues qs job_index dst
  end.

(** The queues of one priority, by their indexes *)
Fixpoint sort_listed (l : list nat) (qs : list sort_queue) : option (list sort_queue) :=
  match l with
  | [] => Some qs
  | i :: l => q ← qs !! i; q ← sort_queue_jobs q; sort_listed l (<[i := q]> qs)
  end.

Definition sort_jobs (policy : settings) (s : sort_server) : option sort_server :=
  if fair_share policy then
    if by_queue policy || round_robin policy then
      qs ← mapM sort_queue_total (ss_queues s);
      '(job_index, jobs) ← copy_queues qs 0 (ss_jobs s);
      jobs ← wr jobs job_index None;
      Some (SortServer qs (ss_queue_list s) jobs)
    else jobs ← sort_all (ss_jobs s); Some (SortServer (ss_queues s) (ss_queue_list s) jobs)
  else if by_queue policy then
    qs ← mapM sort_queue_jobs (ss_queues s);
    jobs ← sort_all (ss_jobs s);
    Some (SortServer qs (ss_queue_list s) jobs)
  else if round_robin policy then
    match ss_queue_list s with
    | Some l => qs ← sort_listed (concat l) (ss_queues s); Some (SortServer qs (ss_queue_list s) (ss_jobs s))
    | None => Some s
    end
  else jobs ← sort_all (ss_jobs s); Some (SortServer (ss_queues s) (ss_queue_list s) jobs).

End Sort.

End JobSort.
