(* ===== verification/JobOrder.v ===== *)
(** * The order of the jobs

    Module [JobOrder]: the order that [cmp_sort] of [src/scheduler/sort.c] stands for,
    as a chain of simple orders, and that [cmp_sort] is it on jobs whose values are
    numbers and whose fairshare groups are at one depth of the tree. *)

From Stdlib Require Import ZArith Lia Ascii String SpecFloat.
From stdpp Require Import gmap.
From S2P Require Import Prelude SchedData Doubles Counts TextFile FairTree FairShape FairWf FairOps FairUsage FairOrder FairProps TimeData EventList EventSim Sorting JobSort.
Import Data Double Float ReqList Fair Conf EventSim FairShape FairWf FairOps FairUsage FairOrder FairProps JobSort.

Module JobOrder.

(** ** Numbers *)

Definition num_cmp (v1 v2 : spec_float) : Z :=
  match lex (place v1) (place v2) with Lt => -1 | Eq => 0 | Gt => 1 end.

Lemma num_cmp_sym v1 v2 : num_cmp v2 v1 = - num_cmp v1 v2.
Proof. unfold num_cmp. rewrite (lex_antisym (place v1)). by destruct (lex (place v1) (place v2)). Qed.

Lemma num_cmp_trans v1 v2 v3 : num_cmp v1 v2 <= 0 -> num_cmp v2 v3 <= 0 -> num_cmp v1 v3 <= 0.
Proof.
  unfold num_cmp. destruct (lex (place v1) (place v2)) eqn:E1; [|intros _|lia];
    destruct (lex (place v2) (place v3)) eqn:E2; try lia; intros _.
  - apply lex_eq in E1. rewrite E1, E2. lia.
  - apply lex_eq in E1. rewrite E1, E2. lia.
  - apply lex_eq in E2. rewrite <-E2, E1. lia.
  - rewrite (lex_trans_lt _ _ _ E1 E2). lia.
Qed.

Lemma num_lt v1 v2 : is_num v1 = true -> is_num v2 = true -> SFltb v1 v2 = (num_cmp v1 v2 <? 0).
Proof. intros H1 H2. unfold SFltb, num_cmp. rewrite SFcompare_place by done. by destruct (lex _ _). Qed.

Lemma num_eq v1 v2 : is_num v1 = true -> is_num v2 = true -> SFeqb v1 v2 = (num_cmp v1 v2 =? 0).
Proof. intros H1 H2. unfold SFeqb, num_cmp. rewrite SFcompare_place by done. by destruct (lex _ _). Qed.

Definition num_asc {A : Type} (f : A -> spec_float) (x y : A) : Z := num_cmp (f x) (f y).
Definition num_desc {A : Type} (f : A -> spec_float) (x y : A) : Z := num_cmp (f y) (f x).

#[export] Instance orders_num_asc {A : Type} (P : A -> Prop) (f : A -> spec_float) : Orders P (num_asc f).
Proof.
  unfold num_asc. split; intros x y; [rewrite (num_cmp_sym (f x) (f y)); lia|]. intros z _ _ _. apply num_cmp_trans.
Qed.
#[export] Instance orders_num_desc {A : Type} (P : A -> Prop) (f : A -> spec_float) : Orders P (num_desc f).
Proof.
  unfold num_desc. split; intros x y; [rewrite (num_cmp_sym (f x) (f y)); lia|]. intros z _ _ _ H1 H2.
  by apply (num_cmp_trans _ (f y)).
Qed.

(** ** Fairshare *)

(** A group with a share before one without, and the smaller usage by percentage
    first *)
Definition deserves g1 g2 : Z :=
  match positive_share g1, positive_share g2 with
  | true, true => num_cmp (deserved g1) (deserved g2)
  | true, false => -1
  | false, true => 1
  | false, false => 0
  end.

#[export] Instance orders_deserves : Orders sane deserves.
Proof.
  unfold deserves. split.
  - intros x y _ _. destruct (positive_share x), (positive_share y); try lia.
    rewrite (num_cmp_sym (deserved x) (deserved y)). lia.
  - intros x y z _ _ _. destruct (positive_share x), (positive_share y), (positive_share z); try lia. apply num_cmp_trans.
Qed.

Lemma order_cons g1 g2 l1 l2 : sane g1 -> sane g2 ->
  FairOrder.order (g1 :: l1) (g2 :: l2)
  = if deserves g1 g2 <? 0 then -1 else if deserves g1 g2 >? 0 then 1
    else if positive_share g1 then FairOrder.order l1 l2 else 0.
Proof.
  intros H1 H2. cbn. rewrite judge_sane by done. unfold deserves.
  destruct (positive_share g1) eqn:P1, (positive_share g2) eqn:P2; try done.
  destruct H1 as [_ H1], H2 as [_ H2]. unfold dbl_ltb. rewrite !num_lt by auto. rewrite (num_cmp_sym (deserved g1)).
  repeat case_if; (done || lia).
Qed.

Lemma deserves_tie g1 g2 : deserves g1 g2 = 0 -> positive_share g1 = positive_share g2.
Proof. unfold deserves. by destruct (positive_share g1), (positive_share g2). Qed.

Lemma order_le_trans l1 : forall l2 l3, Forall sane l1 -> Forall sane l2 -> Forall sane l3 ->
  length l1 = length l2 -> length l2 = length l3 ->
  FairOrder.order l1 l2 <= 0 -> FairOrder.order l2 l3 <= 0 -> FairOrder.order l1 l3 <= 0.
Proof.
  induction l1 as [|g1 l1 IH]; intros [|g2 l2] [|g3 l3] H1 H2 H3 L1 L2; try done.
  apply Forall_cons in H1 as [S1 H1], H2 as [S2 H2], H3 as [S3 H3]. injection L1 as L1. injection L2 as L2.
  rewrite !order_cons by done. intros O1 O2.
  assert (deserves g1 g2 <= 0) as D1 by (destruct (Z.ltb_spec (deserves g1 g2) 0), (Z.gtb_spec (deserves g1 g2) 0); lia).
  assert (deserves g2 g3 <= 0) as D2 by (destruct (Z.ltb_spec (deserves g2 g3) 0), (Z.gtb_spec (deserves g2 g3) 0); lia).
  pose proof (orders_trans (c := deserves) g1 g2 g3 S1 S2 S3 D1 D2) as D3.
  destruct (Z.ltb_spec (deserves g1 g3) 0); [lia|].
  destruct (orders_tie sane deserves g1 g2 g3) as [E1 E2]; [done..|lia|].
  rewrite E1, E2 in *. cbn in O1, O2. rewrite <-(deserves_tie _ _ E1) in O2.
  case_if; [lia|]. case_if; [|lia]. by apply (IH l2 l3).
Qed.

(** Paths of one length whose groups have numbers *)
Definition comparable (d : nat) (l : list Fair.group_info) : Prop := Forall sane l /\ length l = d.

#[export] Instance orders_fair (d : nat) : Orders (comparable d) FairOrder.order.
Proof.
  split.
  - intros x y [Hx _] [Hy _]. rewrite (order_sym x y) by done. lia.
  - intros x y z [Hx Lx] [Hy Ly] [Hz Lz]. apply order_le_trans; congruence || done.
Qed.

Lemma orders_image {A B : Type} (P : A -> Prop) (Q : B -> Prop) (f : A -> B) (c : B -> B -> Z) :
  (forall x, P x -> Q (f x)) -> Orders Q c -> Orders P (fun x y => c (f x) (f y)).
Proof. intros H [Hs Ht]. split; intros; [apply Hs|apply (Ht _ (f y))]; auto. Qed.

(** ** Arrays with [NULL] at the end *)

Definition opt_all {A : Type} (P : A -> Prop) (o : option A) : Prop := match o with Some x => P x | None => True end.

Definition opt_order {A : Type} (c : A -> A -> Z) (o1 o2 : option A) : Z :=
  match o1, o2 with Some x, Some y => c x y | Some _, None => -1 | None, Some _ => 1 | None, None => 0 end.

#[export] Instance orders_opt {A : Type} (P : A -> Prop) (c : A -> A -> Z) : Orders P c -> Orders (opt_all P) (opt_order c).
Proof.
  intros [Hs Ht]. split.
  - intros [x|] [y|] Hx Hy; cbn; try lia. by apply Hs.
  - intros [x|] [y|] [z|] Hx Hy Hz; cbn; try lia. by apply Ht.
Qed.

Lemma compares_null_last {A : Type} (P : A -> Prop) (k : A -> A -> option Z) (c : A -> A -> Z) :
  compares P k c -> compares (opt_all P) (null_last k) (opt_order c).
Proof. intros H [x|] [y|] Hx Hy; try done. by apply H. Qed.

(** ** The loop over the keys *)

(** The keys before the first without a name *)
Fixpoint active (l : list sort_info) : list sort_info :=
  match l with
  | [] => []
  | si :: l => match si_res_name si with Some _ => si :: active l | None => [] end
  end.
Lemma keys_loop_ok key (c : sort_info -> Z) l : forall pre fuel,
  (forall si, si ∈ active l -> key si = Some (c si)) ->
  Z.of_nat (length (pre ++ l)) = MAX_SORTS + 1 -> (length l < fuel)%nat ->
  keys_loop fuel (Z.of_nat (length pre)) key (pre ++ l) = Some (foldr (fun si z => if c si =? 0 then z else c si) 0 (active l)).
Proof.
  induction l as [|si l IH]; intros pre fuel Hkey Hlen Hf; (destruct fuel as [|fuel]; [cbn in Hf; lia|]); cbn [keys_loop].
  - rewrite length_app in Hlen. cbn in Hlen. rewrite (proj2 (Z.leb_gt _ _)) by lia. done.
  - rewrite length_app in Hlen. cbn in Hlen. rewrite (proj2 (Z.leb_le _ _)) by lia.
    assert (rd (pre ++ si :: l) (Z.of_nat (length pre)) = Some si) as ->.
    { unfold rd. rewrite (proj2 (Z.ltb_ge _ _)) by lia. rewrite Nat2Z.id. by apply list_lookup_middle. }
    cbn in Hkey |- *. destruct (si_res_name si); [|done]. rewrite (Hkey si) by set_solver. cbn.
    case_if; [|done]. specialize (IH (pre ++ [si]) fuel). rewrite <-app_assoc, length_app in IH. cbn in IH.
    replace (Z.of_nat (length pre) + 1) with (Z.of_nat (length (pre ++ [si]))) by (rewrite length_app; cbn; lia). apply IH.
    + intros si' Hin. apply Hkey. set_solver.
    + lia.
    + cbn in Hf. lia.
Qed.

(** ** The order of the jobs *)

Section Order.
Context (e : sort_env).

Definition jz (f : job_info -> Z) (r : sort_resv) : Z := from_option f 0 (job r).

Definition by_runnable : sort_resv -> sort_resv -> Z := by_desc (fun r => Z.b2z (runnable r)).
Definition by_preempt : sort_resv -> sort_resv -> Z := by_desc (jz preempt).
(** Jobs that were preempted first, the earliest first *)
Definition by_preempted : sort_resv -> sort_resv -> Z :=
  lexi (by_asc (jz (fun j => Z.b2z (time_preempted j =? Data.UNSPECIFIED)))) (by_asc (jz time_preempted)).
(** Starving jobs first, in the order of their priority *)
Definition by_starving : sort_resv -> sort_resv -> Z :=
  lexi (by_desc (jz (fun j => Z.b2z (is_starving j))))
    (by_desc (fun r => jz (fun j => if is_starving j then sch_priority r else 0) r)).
Definition by_formula : sort_resv -> sort_resv -> Z := num_desc (fun r => from_option formula_value S754_nan (job r)).

(** The groups from the root of the tree to the one of the job *)
Definition fair_path (r : sort_resv) : list Fair.group_info :=
  from_option (fun j => from_option (fun g => path_groups (Fair.cells (env_tree e)) (Fair.gpath g)) []
    (Fair.cells (env_tree e) !! ginfo j)) [] (job r).
Definition by_fairshare (r1 r2 : sort_resv) : Z := FairOrder.order (fair_path r1) (fair_path r2).

Definition key_amount (si : sort_info) (r : sort_resv) : double :=
  from_option (fun v => v) S754_nan
    (res ← si_res_name si; find_resresv_amount (env_tree e) r res (si_def si)).
Definition by_key (si : sort_info) : sort_resv -> sort_resv -> Z :=
  if bool_decide (si_order si = ASC) then num_asc (key_amount si) else num_desc (key_amount si).

Definition no_order (r1 r2 : sort_resv) : Z := 0.

Definition by_keys : sort_resv -> sort_resv -> Z :=
  foldr (fun si c => lexi (by_key si) c) no_order (active (env_sort_by e)).

Definition by_rank : sort_resv -> sort_resv -> Z := lexi (by_asc qrank) (by_asc rank).

Definition job_order : sort_resv -> sort_resv -> Z :=
  lexi by_runnable (lexi by_preempt (lexi by_preempted
    (lexi (if help_starving_jobs (env_policy e) then by_starving else no_order)
    (lexi by_formula (lexi (if fair_share (env_policy e) then by_fairshare else no_order)
    (lexi by_keys by_rank)))))).

(** ** Jobs that can be compared *)

Record sortable (r : sort_resv) (j : job_info) : Prop := {
  so_job : job r = Some j;
  so_is_job : rr_is_job (rr r) = true;
  so_formula : is_num (formula_value j) = true;
  so_keys : forall si res, si ∈ active (env_sort_by e) -> si_res_name si = Some res ->
    exists v, find_resresv_amount (env_tree e) r res (si_def si) = Some v /\ is_num v = true }.

(** The fairshare tree, and jobs in groups of one depth *)
Section Tree.
Context (root : Z) (g0 : Fair.group_info) (t : tree) (d : nat).

Definition good_tree : Prop :=
  fair_share (env_policy e) = true ->
  fair_tree (env_tree e) root g0 t /\ (forall a g, (a, g) ∈ nodes (whole root g0 t) -> sane g).

Definition in_tree (j : job_info) : Prop :=
  fair_share (env_policy e) = true -> exists g, (ginfo j, g) ∈ nodes t /\ length (Fair.gpath g) = d.

Definition comparable_job (r : sort_resv) : Prop := exists j, sortable r j /\ in_tree j.

Hypothesis (Htree : good_tree).
Implicit Types (r : sort_resv) (j : job_info).

Lemma sortable_jz r j f : sortable r j -> jz f r = f j.
Proof. intros [H _ _ _]. unfold jz. by rewrite H. Qed.

(** *** Each part orders *)

#[local] Instance orders_no_order (P : sort_resv -> Prop) : Orders P no_order.
Proof. split; unfold no_order; lia. Qed.
#[local] Instance orders_starving (P : sort_resv -> Prop) : Orders P by_starving.
Proof. unfold by_starving. apply _. Qed.
#[local] Instance orders_key (P : sort_resv -> Prop) si : Orders P (by_key si).
Proof. unfold by_key. case_bool_decide; apply _. Qed.
#[local] Instance orders_keys (P : sort_resv -> Prop) : Orders P by_keys.
Proof. unfold by_keys. induction (active (env_sort_by e)); cbn; apply _. Qed.

(** The path of a job's group *)
Lemma job_group r j : sortable r j -> in_tree j -> fair_share (env_policy e) = true ->
  exists g, Fair.cells (env_tree e) !! ginfo j = Some g /\ has_ginfo j = true /\ (ginfo j, g) ∈ nodes t /\ fair_path r = path_groups (Fair.cells (env_tree e)) (Fair.gpath g) /\ comparable d (fair_path r).
Proof using Htree.
  intros [Hj _ _ _] Hin Hfs. destruct (Htree Hfs) as [F Hs]. destruct (Hin Hfs) as (g & Hg & Hd).
  pose proof (whole_load _ _ _ _ (ginfo j) g F ltac:(cbn; by right)) as Hl.
  assert (fair_path r = path_groups (Fair.cells (env_tree e)) (Fair.gpath g)) as Hp by (unfold fair_path; rewrite Hj; cbn; by rewrite Hl).
  exists g. split_and!; try done.
  - unfold has_ginfo. pose proof (fair_addr _ _ _ _ (ginfo j) F ltac:(rewrite addrs_node; right; by apply elem_addrs in Hg)).
    unfold Fair.NULL. by rewrite (proj2 (Z.eqb_neq _ _)) by lia.
  - rewrite Hp. destruct (groups_sane _ _ _ _ _ _ F Hs Hg) as (H1 & _ & H2). split; [done|congruence].
Qed.

#[local] Instance orders_by_fairshare :
  Orders (comparable_job) (if fair_share (env_policy e) then by_fairshare else no_order).
Proof using Htree.
  destruct (fair_share (env_policy e)) eqn:Hfs; [|apply _].
  apply (orders_image _ (comparable d)); [|apply _]. intros r (j & Hs & Hin).
  by destruct (job_group r j Hs Hin Hfs) as (g & _ & _ & _ & _ & H).
Qed.

Lemma job_order_orders : Orders comparable_job job_order.
Proof using Htree.
  unfold job_order, by_runnable, by_preempt, by_preempted, by_formula, by_rank.
  destruct (help_starving_jobs (env_policy e)); apply _.
Qed.

(** *** The comparisons are the parts *)

Lemma or_else_lexi r1 r2 c1 (c k : sort_resv -> sort_resv -> Z) o : c1 = Some (c r1 r2) -> o = Some (k r1 r2) ->
  or_else c1 o = Some (lexi c k r1 r2).
Proof. intros -> ->. unfold or_else, lexi. cbn. by case_if. Qed.

Lemma preempt_ok r1 j1 r2 j2 : sortable r1 j1 -> sortable r2 j2 ->
  cmp_preemption (Some r1) (Some r2) = Some (by_preempt r1 r2).
Proof.
  intros H1 H2. unfold by_preempt, by_desc. rewrite (sortable_jz r1 j1), (sortable_jz r2 j2) by done.
  cbn. by rewrite (so_job _ _ H1), (so_job _ _ H2).
Qed.

Lemma preempted_ok r1 j1 r2 j2 : sortable r1 j1 -> sortable r2 j2 ->
  cmp_job_preemption_time_asc (Some r1) (Some r2) = Some (by_preempted r1 r2).
Proof.
  intros H1 H2. unfold by_preempted, lexi, by_asc. rewrite !(sortable_jz r1 j1), !(sortable_jz r2 j2) by done.
  cbn. rewrite (so_job _ _ H1), (so_job _ _ H2). f_equal.
  destruct (Z.eqb_spec (time_preempted j1) Data.UNSPECIFIED) as [E1|], (Z.eqb_spec (time_preempted j2) Data.UNSPECIFIED) as [E2|]; cbn; try done.
  rewrite E1, E2. done.
Qed.

Lemma starving_ok r1 j1 r2 j2 : sortable r1 j1 -> sortable r2 j2 ->
  (if rr_is_job (rr r1) && help_starving_jobs (env_policy e) then cmp_starving_jobs (Some r1) (Some r2) else Some 0)
  = Some ((if help_starving_jobs (env_policy e) then by_starving else no_order) r1 r2).
Proof.
  intros H1 H2. rewrite (so_is_job _ _ H1). cbn. destruct (help_starving_jobs (env_policy e)); [|done].
  unfold by_starving, lexi, by_desc. rewrite !(sortable_jz r1 j1), !(sortable_jz r2 j2) by done.
  rewrite (so_job _ _ H1), (so_job _ _ H2). f_equal. destruct (is_starving j1), (is_starving j2); cbn; try done.
  rewrite Z.gtb_ltb. destruct (Z.ltb_spec (sch_priority r2) (sch_priority r1)), (Z.ltb_spec (sch_priority r1) (sch_priority r2)); (done || lia).
Qed.

Lemma formula_ok r1 j1 r2 j2 : sortable r1 j1 -> sortable r2 j2 -> cmp_job_sort_formula r1 r2 = Some (by_formula r1 r2).
Proof.
  intros H1 H2. unfold cmp_job_sort_formula, by_formula, num_desc. rewrite (so_job _ _ H1), (so_job _ _ H2). cbn. f_equal.
  unfold flt_ltb. rewrite !num_lt by (apply H1 || apply H2). rewrite (num_cmp_sym (formula_value j1)).
  unfold num_cmp. by destruct (lex _ _).
Qed.

Lemma fairshare_ok r1 j1 r2 j2 : sortable r1 j1 -> sortable r2 j2 -> in_tree j1 -> in_tree j2 ->
  (if fair_share (env_policy e) then cmp_fairshare (env_tree e) r1 r2 else Some 0)
  = Some ((if fair_share (env_policy e) then by_fairshare else no_order) r1 r2).
Proof using Htree.
  intros H1 H2 T1 T2. destruct (fair_share (env_policy e)) eqn:Hfs; [|done].
  destruct (job_group r1 j1 H1 T1 Hfs) as (g1 & L1 & N1 & I1 & P1 & [S1 _]).
  destruct (job_group r2 j2 H2 T2 Hfs) as (g2 & L2 & N2 & I2 & P2 & _). destruct (Htree Hfs) as [F _].
  unfold cmp_fairshare, by_fairshare. rewrite (so_job _ _ H1), (so_job _ _ H2), N1, N2, L1, L2. cbn.
  rewrite (compare_groups _ _ _ _ _ _ _ _ F I1 I2). cbn. f_equal. rewrite P2, P1 in *.
  destruct (Z.eqb_spec (ginfo j1) (ginfo j2)) as [E|]; [|done]. assert (g1 = g2) as <- by congruence. by rewrite order_self.
Qed.

(** The amount of a key is a number, and the key compares by it. *)
Lemma key_ok si r1 j1 r2 j2 : sortable r1 j1 -> sortable r2 j2 -> si ∈ active (env_sort_by e) ->
  resresv_sort_cmp (env_tree e) (Some si) (Some r1) (Some r2) = Some (by_key si r1 r2).
Proof.
  intros H1 H2 Hin. cbn. destruct (si_res_name si) as [res|] eqn:Hn.
  2:{ clear -Hin Hn. induction (env_sort_by e) as [|si' l IH]; cbn in Hin; [by apply not_elem_of_nil in Hin|].
      destruct (si_res_name si') eqn:Hn'; [|by apply not_elem_of_nil in Hin].
      apply elem_of_cons in Hin as [->|Hin]; [congruence|auto]. }
  destruct (so_keys _ _ H1 si res Hin Hn) as (v1 & A1 & N1). destruct (so_keys _ _ H2 si res Hin Hn) as (v2 & A2 & N2).
  cbn. rewrite A1, A2. cbn. f_equal. unfold by_key, num_asc, num_desc, key_amount. rewrite Hn. cbn -[find_resresv_amount].
  unfold cmp_amount, dbl_eqb, dbl_ltb. rewrite num_eq, num_lt by done.
  case_bool_decide; rewrite A1, A2; cbn -[num_cmp]; rewrite ?(num_cmp_sym v1); unfold num_cmp; by destruct (lex _ _).
Qed.

(** The array of the keys has the length [init_config] gives it. *)
Definition keys_array : Prop := Z.of_nat (length (env_sort_by e)) = MAX_SORTS + 1.

Lemma by_keys_fold r1 r2 :
  foldr (fun si z => if by_key si r1 r2 =? 0 then z else by_key si r1 r2) 0 (active (env_sort_by e)) = by_keys r1 r2.
Proof. unfold by_keys. induction (active (env_sort_by e)) as [|si l IH]; [done|]. cbn. unfold lexi at 1. by rewrite IH. Qed.

Lemma multi_sort_ok r1 j1 r2 j2 : keys_array -> sortable r1 j1 -> sortable r2 j2 ->
  multi_sort e r1 r2 = Some (by_keys r1 r2).
Proof.
  intros Hk H1 H2. unfold multi_sort, over_keys. rewrite <-by_keys_fold.
  apply (keys_loop_ok _ (fun si => by_key si r1 r2) (env_sort_by e) []); [|done|].
  - intros si Hin. by apply (key_ok si r1 j1 r2 j2).
  - unfold keys_array, MAX_SORTS in *. lia.
Qed.

Lemma cmp_sort_ok : keys_array -> compares (opt_all comparable_job) (cmp_sort e) (opt_order job_order).
Proof using Htree.
  intros Hk. apply compares_null_last. intros r1 r2 (j1 & H1 & T1) (j2 & H2 & T2).
  unfold job_order. unfold lexi at 1. unfold by_runnable at 1 2, by_desc.
  destruct (runnable r1), (runnable r2); cbn -[or_else cmp_preemption cmp_job_preemption_time_asc cmp_starving_jobs];
    [..|]; try done;
    (repeat apply or_else_lexi; [by apply (preempt_ok r1 j1 r2 j2)|by apply (preempted_ok r1 j1 r2 j2)|
      by apply (starving_ok r1 j1 r2 j2)|by apply (formula_ok r1 j1 r2 j2)|by apply (fairshare_ok r1 j1 r2 j2)|
      by apply (multi_sort_ok r1 j1 r2 j2)|]);
    unfold by_rank, lexi, by_asc; f_equal; repeat case_if; (done || lia).
Qed.

End Tree.
End Order.
End JobOrder.
