(* ===== verification/JobSortProps.v ===== *)
(** * The jobs of a server sorted

    Module [JobSortProps]: what [sort_jobs] does under each policy, for any routine
    that sorts. *)

From Stdlib Require Import ZArith Lia Ascii String SpecFloat.
From stdpp Require Import gmap.
From S2P Require Import Prelude SchedData Doubles Counts TextFile FairTree FairShape FairWf FairOps FairOrder TimeData EventList EventSim Sorting JobSort JobOrder FairProps QsortProps.
Import Data Double Float Conf EventSim FairShape FairWf FairOps FairOrder JobSort JobOrder.

Module JobSortProps.

Lemma some_perm {A : Type} (l : list (option A)) : forall js : list A, l ≡ₚ Some <$> js ->
  exists js', l = Some <$> js' /\ js' ≡ₚ js.
Proof.
  induction l as [|o l IH]; intros js H.
  - apply Permutation_nil_l in H. exists []. by destruct js.
  - assert (o ∈ Some <$> js) as (r & -> & Hr)%list_elem_of_fmap by (rewrite <-H; by left).
    apply elem_of_Permutation in Hr as (js1 & Hp). rewrite Hp in H. cbn in H. apply Permutation_cons_inv in H.
    destruct (IH js1 H) as (js' & -> & Hp'). exists (r :: js'). split; [done|]. by rewrite Hp, Hp'.
Qed.

Section Sort.
Context {small : list (option sort_resv) -> Prop}
  {sort : (option sort_resv -> option sort_resv -> option Z) -> list (option sort_resv) -> option (list (option sort_resv))}
  `{!Sorter small sort}.
Context (e : sort_env) (root : Z) (g0 : Fair.group_info) (t : tree) (d : nat).
Hypothesis (Htree : good_tree e root g0 t) (Hkeys : keys_array e).
Implicit Types (js : list sort_resv) (arr : list (option sort_resv)) (q : sort_queue) (s : sort_server).

(** An array of jobs, its [NULL] and what is behind *)
Definition holds arr js (rest : list (option sort_resv)) : Prop := arr = (Some <$> js) ++ None :: rest.

(** The array can be sorted. *)
Record sortable_array arr js (rest : list (option sort_resv)) : Prop := {
  sa_holds : holds arr js rest;
  sa_jobs : Forall (comparable_job e t d) js;
  sa_small : small (Some <$> js) }.

(** The same jobs in order, and the rest of the array as it was *)
Definition sorted_to arr arr' : Prop :=
  exists js js' rest, holds arr js rest /\ holds arr' js' rest /\ js' ≡ₚ js /\ ordered (job_order e) js'.

Lemma count_array_ok arr js rest : holds arr js rest -> count_array arr = Some (Z.of_nat (length js)).
Proof.
  intros ->. induction js as [|r js IH]; [done|]. cbn. rewrite IH. cbn. f_equal. lia.
Qed.

Lemma ordered_opt js : ordered (opt_order (job_order e)) (Some <$> js) -> ordered (job_order e) js.
Proof.
  induction js as [|r js IH]; cbn; [done|]. intros [H1 H2]. split; [|by apply IH]. by rewrite Forall_fmap in H1.
Qed.

Lemma sort_first_ok arr js rest : sortable_array arr js rest ->
  exists js', sort_first sort e (Z.of_nat (length js)) arr = Some ((Some <$> js') ++ None :: rest) /\
    js' ≡ₚ js /\ ordered (job_order e) js'.
Proof using Htree Hkeys Sorter0.
  intros [Hh Hj Hs]. unfold sort_first. rewrite Hh.
  rewrite !(proj2 (Z.leb_le _ _)) by (rewrite ?length_app, ?length_fmap; lia). cbn [andb].
  rewrite Nat2Z.id, take_app_length', drop_app_length' by (by rewrite length_fmap).
  destruct (sorter_ok (opt_all (comparable_job e t d)) (cmp_sort e) (opt_order (job_order e)) (Some <$> js))
    as (l' & -> & Hp & Ho); [by eapply cmp_sort_ok|by rewrite Forall_fmap|done|].
  apply some_perm in Hp as (js' & -> & Hp). exists js'. split_and!; [done..|].
  apply ordered_opt, Ho, orders_opt. by eapply job_order_orders.
Qed.

Lemma sort_all_ok arr js rest : sortable_array arr js rest ->
  exists arr', sort_all sort e arr = Some arr' /\ sorted_to arr arr'.
Proof using Htree Hkeys Sorter0.
  intros H. destruct (sort_first_ok arr js rest H) as (js' & Hs & Hp & Ho). unfold sort_all.
  rewrite (count_array_ok arr js rest) by apply H. cbn. rewrite Hs. eexists. split; [done|].
  exists js, js', rest. split_and!; [apply H|done..].
Qed.

(** Jobs of different ranks are never in the same place. *)
Lemma job_order_tie (r1 r2 : sort_resv) : job_order e r1 r2 = 0 -> rank r1 = rank r2.
Proof.
  unfold job_order. intros H. repeat (apply lexi_tie in H as [_ H]).
  rewrite by_asc_sign in H. lia.
Qed.

(** ** The queues *)

(** A queue whose count is the number of jobs in its array *)
Definition sortable_queue q : Prop :=
  exists js rest, sortable_array (sq_jobs q) js rest /\ sq_total q = Z.of_nat (length js).

Definition queue_sorted q q' : Prop := sorted_to (sq_jobs q) (sq_jobs q') /\ sq_total q' = sq_total q.

Lemma sort_queue_jobs_ok q : sortable_queue q ->
  exists q', sort_queue_jobs sort e q = Some q' /\ queue_sorted q q'.
Proof using Htree Hkeys Sorter0.
  intros (js & rest & H & Ht). destruct (sort_all_ok _ _ _ H) as (arr' & Hs & Hr).
  unfold sort_queue_jobs. rewrite Hs. eexists. split; [done|]. by split.
Qed.

Lemma sort_queue_total_ok q : sortable_queue q ->
  exists q', sort_queue_total sort e q = Some q' /\ queue_sorted q q'.
Proof using Htree Hkeys Sorter0.
  intros (js & rest & H & Ht). unfold sort_queue_total. destruct (Z.gtb_spec (sq_total q) 0).
  - destruct (sort_first_ok _ _ _ H) as (js' & Hs & Hp & Ho). rewrite Ht, Hs. eexists. split; [done|].
    split; [|done]. exists js, js', rest. split_and!; [apply H|done..].
  - exists q. split; [done|]. split; [|done]. destruct js; [|cbn in Ht; lia]. exists [], [], rest.
    split_and!; [apply H|apply H|done..].
Qed.

Lemma sort_queues_ok (f : sort_queue -> option sort_queue) (qs : list sort_queue) :
  (forall q, sortable_queue q -> exists q', f q = Some q' /\ queue_sorted q q') ->
  Forall sortable_queue qs -> exists qs', mapM f qs = Some qs' /\ Forall2 queue_sorted qs qs'.
Proof.
  intros Hf. induction 1 as [|q qs Hq _ (qs' & IH & IH2)]; [by exists []|].
  destruct (Hf q Hq) as (q' & Hq' & Hs). cbn. rewrite Hq'. cbn. rewrite IH. eexists. split; [done|]. by constructor.
Qed.

(** *** The jobs of queues after one another *)

Lemma rd_middle {A : Type} (a b : list A) x : rd (a ++ x :: b) (Z.of_nat (length a)) = Some x.
Proof. unfold rd. rewrite (proj2 (Z.ltb_ge _ 0)) by lia. rewrite Nat2Z.id. by apply list_lookup_middle. Qed.

Lemma wr_middle {A : Type} (a b : list A) x y : wr (a ++ x :: b) (Z.of_nat (length a)) y = Some (a ++ y :: b).
Proof.
  rewrite wr_in by (rewrite length_app; cbn; lia). rewrite Nat2Z.id.
  rewrite <-(Nat.add_0_r (length a)), insert_app_r. done.
Qed.

Lemma copy_jobs_ok (xs : list (option sort_resv)) : forall (a b pre old post : list (option sort_resv)),
  length old = length xs ->
  copy_jobs (length xs) (Z.of_nat (length a)) (a ++ xs ++ b) (Z.of_nat (length pre)) (pre ++ old ++ post)
  = Some (Z.of_nat (length (pre ++ xs)), pre ++ xs ++ post).
Proof.
  induction xs as [|x xs IH]; intros a b pre old post Ho; (destruct old as [|o old]; try done).
  - cbn. by rewrite app_nil_r.
  - cbn [copy_jobs length]. injection Ho as Ho. cbn [app]. rewrite rd_middle. cbn [mbind option_bind].
    rewrite wr_middle. cbn [mbind option_bind].
    specialize (IH (a ++ [x]) b (pre ++ [x]) old post Ho). rewrite !length_app in IH. cbn in IH.
    rewrite <-!app_assoc in IH. cbn in IH. rewrite !Nat2Z.inj_add in IH. change (Z.of_nat 1) with 1 in IH. rewrite IH.
    rewrite length_app. cbn. f_equal. f_equal. lia.
Qed.

Definition queue_holds q js : Prop := sq_total q = Z.of_nat (length js) /\ exists rest, holds (sq_jobs q) js rest.

Lemma copy_queues_ok (qs : list sort_queue) (jss : list (list sort_resv)) : Forall2 queue_holds qs jss ->
  forall pre old post : list (option sort_resv), length old = length (concat jss) ->
  copy_queues qs (Z.of_nat (length pre)) (pre ++ old ++ post)
  = Some (Z.of_nat (length (pre ++ (Some <$> concat jss))), pre ++ (Some <$> concat jss) ++ post).
Proof.
  induction 1 as [|q js qs jss [Ht [rest Hq]] _ IH]; intros pre old post Ho.
  - destruct old; [|done]. cbn. by rewrite app_nil_r.
  - cbn in Ho. rewrite length_app in Ho. cbn [copy_queues].
    rewrite <-(take_drop (length js) old), <-app_assoc, Ht, Nat2Z.id, Hq.
    pose proof (copy_jobs_ok (Some <$> js) [] (None :: rest) pre (take (length js) old) (drop (length js) old ++ post)) as Hc.
    rewrite length_fmap, length_take in Hc. cbn [app length] in Hc. change (Z.of_nat 0) with 0 in Hc. rewrite Hc by lia.
    cbn [mbind option_bind].
    specialize (IH (pre ++ (Some <$> js)) (drop (length js) old) post). rewrite length_drop in IH.
    rewrite <-!app_assoc in IH. rewrite IH by lia. cbn [concat]. by rewrite fmap_app, <-!app_assoc.
Qed.

(** *** The queues of a round robin *)

Lemma sort_listed_ok (l : list nat) : forall qs : list sort_queue, NoDup l ->
  (forall i, i ∈ l -> exists q, qs !! i = Some q /\ sortable_queue q) ->
  exists qs', sort_listed sort e l qs = Some qs' /\
    forall i q, qs !! i = Some q -> exists q', qs' !! i = Some q' /\
      if decide (i ∈ l) then queue_sorted q q' else q' = q.
Proof using Htree Hkeys Sorter0.
  induction l as [|i l IH]; intros qs Hnd Hin.
  - exists qs. split; [done|]. intros i q Hq. exists q. split; [done|].
    by rewrite decide_False by apply not_elem_of_nil.
  - apply NoDup_cons in Hnd as [Hi Hnd]. destruct (Hin i ltac:(left)) as (q & Hq & Hs).
    destruct (sort_queue_jobs_ok q Hs) as (q' & Hq' & Hqq).
    destruct (IH (<[i := q']> qs) Hnd) as (qs' & E & H).
    { intros k Hk. rewrite list_lookup_insert_ne by congruence. apply Hin. by right. }
    exists qs'. split; [cbn; rewrite Hq; cbn; by rewrite Hq'|].
    intros k p Hk. destruct (decide (k = i)) as [->|Hne].
    + destruct (H i q') as (p' & Hp & Hd); [apply list_lookup_insert_eq; by eapply lookup_lt_Some|].
      rewrite decide_False in Hd by done. subst p'. exists q'. split; [done|]. rewrite decide_True by left. congruence.
    + destruct (H k p) as (p' & Hp & Hd); [by rewrite list_lookup_insert_ne|]. exists p'. split; [done|].
      destruct (decide (k ∈ l)) as [Hkl|Hkl]; [rewrite decide_True by (by right); done|].
      rewrite decide_False; [done|]. intros [->|]%elem_of_cons; done.
Qed.

(** ** The whole server *)

Definition sorted_as (policy : settings) s s' : Prop :=
  ss_queue_list s' = ss_queue_list s /\
  if fair_share policy then
    if by_queue policy || round_robin policy then
      Forall2 queue_sorted (ss_queues s) (ss_queues s') /\
      exists jss rest, Forall2 queue_holds (ss_queues s') jss /\ holds (ss_jobs s') (concat jss) rest
    else ss_queues s' = ss_queues s /\ sorted_to (ss_jobs s) (ss_jobs s')
  else if by_queue policy then Forall2 queue_sorted (ss_queues s) (ss_queues s') /\ sorted_to (ss_jobs s) (ss_jobs s')
  else if round_robin policy then
    ss_jobs s' = ss_jobs s /\
    forall i q, ss_queues s !! i = Some q -> exists q', ss_queues s' !! i = Some q' /\
      if decide (i ∈ concat (default [] (ss_queue_list s))) then queue_sorted q q' else q' = q
  else ss_queues s' = ss_queues s /\ sorted_to (ss_jobs s) (ss_jobs s').

(** A server whose arrays can be sorted: the queues count their jobs, the server's
    array has room for them, and every queue is listed once. *)
Record sortable_server s : Prop := {
  sv_queues : Forall sortable_queue (ss_queues s);
  sv_jobs : exists js rest, sortable_array (ss_jobs s) js rest;
  sv_room : foldr Z.add 0 (sq_total <$> ss_queues s) < Z.of_nat (length (ss_jobs s));
  sv_list : NoDup (concat (default [] (ss_queue_list s))) /\
    forall i, i ∈ concat (default [] (ss_queue_list s)) -> (i < length (ss_queues s))%nat }.

Lemma sorted_holds (qs qs' : list sort_queue) : Forall sortable_queue qs -> Forall2 queue_sorted qs qs' ->
  exists jss, Forall2 queue_holds qs' jss /\ Z.of_nat (length (concat jss)) = foldr Z.add 0 (sq_total <$> qs).
Proof.
  intros Hq H. induction H as [|q q' qs qs' [(js & js' & rest & H1 & H2 & Hp & _) Ht] _ IH]; [by exists []|].
  apply Forall_cons in Hq as [(js0 & rest0 & [H0 _ _] & Ht0) Hq]. destruct (IH Hq) as (jss & H & Hl).
  assert (length js0 = length js) as E.
  { apply Nat2Z.inj. pose proof (count_array_ok _ _ _ H0). pose proof (count_array_ok _ _ _ H1). congruence. }
  exists (js' :: jss). split.
  - constructor; [|done]. split; [|by exists rest]. rewrite Ht, Ht0. f_equal. by rewrite Hp.
  - cbn. rewrite length_app, Nat2Z.inj_add, Hl, Ht0, Hp. lia.
Qed.

(** C13. [sort_jobs] of a server whose jobs can be compared returns, and with any
    routine that sorts: under fairshare with queues every queue is sorted and the
    server has the jobs of the queues one queue after the other; by queue both the
    queues and the server are sorted; under a round robin the listed queues; else
    the server's jobs.  Sorted is: the same jobs, none before one that
    goes before it by [job_order]. *)
Theorem sort_jobs_sorts (policy : settings) s : sortable_server s ->
  exists s', sort_jobs sort e policy s = Some s' /\ sorted_as policy s s'.
Proof using Htree Hkeys Sorter0.
  intros [Hq (js & rest & Hj) Hroom [Hnd Hl]]. unfold sort_jobs, sorted_as.
  destruct (sort_all_ok _ _ _ Hj) as (arr' & Ha & Hs).
  destruct (fair_share policy); [destruct (by_queue policy || round_robin policy)|destruct (by_queue policy);
    [|destruct (round_robin policy)]].
  - destruct (sort_queues_ok _ _ sort_queue_total_ok Hq) as (qs' & E & H2). rewrite E. cbn [mbind option_bind].
    destruct (sorted_holds _ _ Hq H2) as (jss & Hh & Hlen). set (n := length (concat jss)) in *.
    pose proof (copy_queues_ok qs' jss Hh [] (take n (ss_jobs s)) (drop n (ss_jobs s))) as Hc.
    cbn [app length] in Hc. rewrite take_drop in Hc. change (Z.of_nat 0) with 0 in Hc.
    rewrite Hc by (rewrite length_take; lia). cbn [mbind option_bind].
    destruct (drop n (ss_jobs s)) as [|x post] eqn:Hd.
    { apply (f_equal length) in Hd. rewrite length_drop in Hd. cbn in Hd. lia. }
    rewrite wr_middle. cbn [mbind option_bind]. eexists. split; [done|]. cbn. split; [done|]. split; [done|].
    by exists jss, post.
  - rewrite Ha. cbn. eexists. split; [done|]. by cbn.
  - destruct (sort_queues_ok _ _ sort_queue_jobs_ok Hq) as (qs' & E & H2). rewrite E, Ha. cbn.
    eexists. split; [done|]. by cbn.
  - destruct (ss_queue_list s) as [l|] eqn:El; cbn in Hnd, Hl.
    + destruct (sort_listed_ok (concat l) (ss_queues s) Hnd) as (qs' & E & H).
      { intros i Hi. destruct (lookup_lt_is_Some_2 (ss_queues s) i (Hl i Hi)) as [q Hqi]. exists q.
        split; [done|]. by apply (Forall_lookup_1 _ _ _ _ Hq Hqi). }
      rewrite E. cbn. eexists. split; [done|]. by cbn.
    + exists s. rewrite El. split_and!; [done..|]. intros i q Hqi. exists q. split; [done|]. cbn.
      by rewrite decide_False by apply not_elem_of_nil.
  - rewrite Ha. cbn. eexists. split; [done|]. by cbn.
Qed.

End Sort.

(** ** The comparison *)

(** C14. [cmp_sort] of jobs with numbers as values and in fairshare groups of one
    depth returns and is the lexicographic order of: can run now, preemption
    level, time preempted, starving with its priority, formula, fairshare, the
    sort keys, queue rank, rank; it orders the jobs, with [NULL] last, and is 0 only
    for jobs of the same rank. *)
Theorem cmp_sort_orders (e : sort_env) (root : Z) (g0 : Fair.group_info) (t : tree) (d : nat) :
  good_tree e root g0 t -> keys_array e ->
  compares (opt_all (comparable_job e t d)) (cmp_sort e) (opt_order (job_order e)) /\
  Orders (opt_all (comparable_job e t d)) (opt_order (job_order e)) /\
  (forall r1 r2, job_order e r1 r2 = 0 -> rank r1 = rank r2).
Proof.
  intros Ht Hk. split_and!; [by eapply cmp_sort_ok|by eapply orders_opt, job_order_orders|apply job_order_tie].
Qed.

(** C15. When the ranks of the jobs differ, as the scheduler makes them, the sorted
    array does not depend on the routine: any two that sort give the same. *)
Theorem any_sort_same (small1 small2 : list (option sort_resv) -> Prop)
  (sort1 sort2 : (option sort_resv -> option sort_resv -> option Z) -> list (option sort_resv) -> option (list (option sort_resv)))
  `{!Sorter small1 sort1} `{!Sorter small2 sort2} (e : sort_env) (root : Z) (g0 : Fair.group_info) (t : tree) (d : nat)
  (arr : list (option sort_resv)) (js : list sort_resv) (rest : list (option sort_resv)) :
  good_tree e root g0 t -> keys_array e ->
  sortable_array (small := small1) e t d arr js rest -> small2 (Some <$> js) ->
  (forall r r', r ∈ js -> r' ∈ js -> rank r = rank r' -> r = r') ->
  exists arr', sort_all sort1 e arr = Some arr' /\ sort_all sort2 e arr = Some arr'.
Proof.
  intros Ht Hk [Hh Hj H1] H2 Hr. unfold sort_all. rewrite (count_array_ok _ _ _ Hh). cbn.
  destruct (sort_first_ok (sort := sort1) e root g0 t d Ht Hk arr js rest) as (js1 & -> & P1 & O1); [by split|].
  destruct (sort_first_ok (sort := sort2) (small := small2) e root g0 t d Ht Hk arr js rest) as (js2 & -> & P2 & O2); [by split|].
  eexists. split; [done|]. do 3 f_equal. symmetry.
  apply (ordered_unique (comparable_job e t d) (job_order e)); [by eapply job_order_orders|by rewrite P1| |done|done|by rewrite P1].
  intros r r'. rewrite P1. intros Hin Hin' Ht0. apply Hr; [done..|]. by apply (job_order_tie e).
Qed.

End JobSortProps.

(** * Jobs to sort

    Module [JobSortScenes]: three jobs of two users of a fairshare tree, on which the
    theorems on sorting are applied with the quicksort of [Qsort], and what the
    comparisons of [src/scheduler/sort.c] do besides. *)

Import QsortProps Data Double Float Conf EventSim FairShape FairWf FairOps FairOrder FairScenes JobSort JobOrder JobSortProps.

Module JobSortScenes.

Definition some_resv (is_job : bool) (id : Z) : resource_resv :=
  {| rr_addr := id; rr_name := lit "job"; rr_is_job := is_job; rr_is_resv := negb is_job; rr_user := None; rr_group := None;
     rr_project := None; rr_duration := 60; rr_hard_duration := 60; rr_resreq := []; rr_queue := Some 1;
     rr_used_walltime := 0; rr_start := -1; rr_end := -1; rr_min_duration := -1 |}.

Definition queued : job_state := JobState false [] false true false.

(** A queued job of a fairshare group *)
Definition some_job (id prio preempt when group : Z) : sort_resv :=
  SortResv (some_resv true id) (Some (JobInfo queued preempt when 0 false flt_zero prio group)) None 0 id id.

Definition u1_low : sort_resv := some_job 1 5 0 (-1) 8.
Definition u2_high : sort_resv := some_job 2 9 0 (-1) 12.
Definition u1_preempted : sort_resv := some_job 3 1 0 77 8.
Definition jobs3 : list sort_resv := [u1_low; u2_high; u1_preempted].

Definition no_key : sort_info := SortInfo None None NO_SORT_ORDER RF_NONE.
Definition prio_key : sort_info := SortInfo (Some SORT_JOB_PRIORITY) None DESC RF_NONE.

Definition fair_policy (fair queues : bool) : settings :=
  {| round_robin := false; by_queue := queues; strict_fifo := false; strict_ordering := false;
     sort_by := 0; fair_share := fair; load_balancing := false; help_starving_jobs := true;
     backfill := false; sort_nodes := false; load_balancing_rr := false; backfill_prime := false;
     preempting := false; node_sort := 0; smp_dist := 0 |}.

Definition env (fair : bool) : sort_env := SortEnv (fair_policy fair true) (prio_key :: replicate 21 no_key) scene.

Lemma env_keys fair : keys_array (env fair).
Proof. reflexivity. Qed.

#[local] Opaque scene scene_group scene_tree.

Lemma env_tree_good fair : good_tree (env fair) scene_root scene_group scene_tree.
Proof. intros _. split; [exact scene_fair|apply scene_sane]. Qed.

Definition depth : nat := length (Fair.gpath (group_at 8)).

Lemma priority_amount h id prio preempt when group :
  find_resresv_amount h (some_job id prio preempt when group) SORT_JOB_PRIORITY None = Some (dbl_of_Z prio).
Proof. reflexivity. Qed.

Lemma job_sortable e id prio preempt when group : active (env_sort_by e) = [prio_key] -> is_num (dbl_of_Z prio) = true ->
  exists j, sortable e (some_job id prio preempt when group) j /\ ginfo j = group.
Proof.
  intros Hk Hp. exists (JobInfo queued preempt when 0 false flt_zero prio group). split; [|reflexivity]. split; [reflexivity..|]. rewrite Hk.
  intros si res [->|Hin%not_elem_of_nil]%elem_of_cons; [|done]. cbn [si_res_name si_def prio_key]. intros [= <-].
  exists (dbl_of_Z prio). split; [apply priority_amount|done].
Qed.

Lemma in_group e (j : job_info) : ginfo j = 8 \/ ginfo j = 12 -> in_tree e scene_tree depth j.
Proof.
  intros Hg _. exists (group_at (ginfo j)).
  destruct Hg as [-> | ->]; (split; [apply at_scene; vm_compute; reflexivity|vm_compute; reflexivity]).
Qed.

Lemma job_comparable fair id prio preempt when group : group = 8 \/ group = 12 -> is_num (dbl_of_Z prio) = true ->
  comparable_job (env fair) scene_tree depth (some_job id prio preempt when group).
Proof.
  intros Hg Hp. destruct (job_sortable (env fair) id prio preempt when group eq_refl Hp) as (j & H & <-).
  exists j. split; [done|]. by apply in_group.
Qed.

(** A queue with its three jobs, and the server *)
Definition with_null (js : list sort_resv) : list (option sort_resv) := (Some <$> js) ++ [None].
Definition queue3 : sort_queue := SortQueue (with_null jobs3) 3.
Definition server3 : sort_server := SortServer [queue3] None (with_null jobs3).

Lemma jobs3_comparable fair : Forall (comparable_job (env fair) scene_tree depth) jobs3.
Proof. repeat constructor; apply job_comparable; auto. Qed.

Lemma array3 fair : sortable_array (small := fun l => fits 8 (len l)) (env fair) scene_tree depth (with_null jobs3) jobs3 [].
Proof. split; [reflexivity|apply jobs3_comparable|split; vm_compute; congruence]. Qed.

Lemma server3_ok fair : sortable_server (small := fun l => fits 8 (len l)) (env fair) scene_tree depth server3.
Proof.
  split.
  - constructor; [|constructor]. exists jobs3, []. split; [apply array3|reflexivity].
  - exists jobs3, []. apply array3.
  - reflexivity.
  - split; [constructor|]. intros i Hi. by apply not_elem_of_nil in Hi.
Qed.

Lemma sort_jobs_sorts_witness :
  exists s', sort_jobs (Qsort.sort 8) (env true) (fair_policy true true) server3 = Some s' /\
    sorted_as (env true) (fair_policy true true) server3 s'.
Proof.
  exact (sort_jobs_sorts (sort := Qsort.sort 8) (env true) scene_root scene_group scene_tree depth
    (env_tree_good true) (env_keys true) (fair_policy true true) server3 (server3_ok true)).
Defined.

Lemma cmp_sort_orders_witness :
  compares (opt_all (comparable_job (env true) scene_tree depth)) (cmp_sort (env true)) (opt_order (job_order (env true))) /\
  Orders (opt_all (comparable_job (env true) scene_tree depth)) (opt_order (job_order (env true))).
Proof.
  destruct (cmp_sort_orders (env true) scene_root scene_group scene_tree depth (env_tree_good true) (env_keys true)) as (H1 & H2 & _).
  by split.
Defined.

Lemma any_sort_same_witness :
  exists arr', sort_all (Qsort.sort 8) (env true) (with_null jobs3) = Some arr' /\
    sort_all insertion_sort (env true) (with_null jobs3) = Some arr'.
Proof.
  refine (any_sort_same (fun l => fits 8 (len l)) (fun _ => True) (Qsort.sort 8) insertion_sort (env true) scene_root scene_group
    scene_tree depth (with_null jobs3) jobs3 [] (env_tree_good true) (env_keys true) (array3 true) I _).
  intros r r' Hr Hr' E. unfold jobs3 in Hr, Hr'. rewrite !elem_of_cons in Hr, Hr'.
  destruct Hr as [->|[->|[->|Hr%not_elem_of_nil]]]; destruct Hr' as [->|[->|[->|Hr'%not_elem_of_nil]]]; done.
Defined.

(** The ranks of the sorted jobs: first the one that was preempted; then by the
    usage of the groups, or without fairshare by the key *)
Definition ranks (o : option (list (option sort_resv))) : option (list Z) :=
  map (fun r => from_option rank 0 r) <$> o.

Example sorted_by_fairshare : ranks (sort_all (Qsort.sort 8) (env true) (with_null jobs3)) = Some [3; 2; 1; 0].
Proof. vm_compute. reflexivity. Qed.
Example sorted_by_key : ranks (sort_all (Qsort.sort 8) (env false) (with_null [u1_low; some_job 4 7 0 (-1) 8; u2_high])) = Some [2; 4; 1; 0].
Proof. vm_compute. reflexivity. Qed.

(** A reservation among the jobs: the formula of its missing job is read. *)
Example reservation_crashes :
  sort_all (Qsort.sort 8) (env false) (with_null [u1_low; SortResv (some_resv false 5) None (Some 2) 0 5 5]) = None.
Proof. vm_compute. reflexivity. Qed.

End JobSortScenes.
