(* ===== verification/NodeSort.v ===== *)
(** * Sorting nodes: [src/scheduler/sort.c]

    Module [NodeSort]: the comparison functions of nodes, placement sets, buckets,
    chunks of a placement and queues; [find_resource] and
    [find_resource_by_str] of [src/scheduler/server_info.c], [dynamic_avail] of
    [src/scheduler/check.c], [compare_res_to_str] of [src/scheduler/resource_resv.c],
    [find_node_by_rank] and [reorder_nodes] of [src/scheduler/node_info.c].  The
    definitions of the resources [ncpus], [mem] and [host] ([getallres]), the keys of
    [cstat] and its distribution are in the environment. *)

From Stdlib Require Import ZArith Lia Ascii String.
From S2P Require Import Prelude AvlTree SchedData Doubles JobSort.
Import Data Double Float JobSort.

Module NodeSort.

Definition SORT_PRIORITY : cstring := lit "sort_priority".
Definition SORT_USED_TIME : cstring := lit "last_used_time".

(** ** Data *)

(** The fields of [schd_resource] that sorting reads; [indirect_res] is what it
    points at, its amounts. *)
Record sort_resource := SortResource {
  sres_name : cstring; sres_def : option resdef; orig_str_avail : option cstring; str_avail : option (list cstring);
  avail : double; assigned : double; indirect_res : option (double * double) }.

Record sort_node := SortNode {
  n_name : cstring; n_res : list sort_resource; n_priority : Z; last_used_time : Z; n_rank : Z; loadave : float;
  current_aoe : option cstring; to_be_sorted : bool }.
Definition set_to_be_sorted (b : bool) (n : sort_node) : sort_node :=
  SortNode (n_name n) (n_res n) (n_priority n) (last_used_time n) (n_rank n) (loadave n) (current_aoe n) b.

Record node_partition := NodePartition { np_res : list sort_resource; np_rank : Z }.
Record node_bucket := NodeBucket { res_spec : list sort_resource; b_priority : Z }.
Record nspec := Nspec { seq_num : Z; sub_seq_num : Z }.

Definition SMP_NODE_PACK : Z := 0.
Definition SMP_ROUND_ROBIN : Z := 1.
Definition SMP_LOWEST_LOAD : Z := 2.

Record node_env := NodeEnv {
  RES_NCPUS : option resdef; RES_MEM : option resdef; RES_HOST : option resdef;
  node_sort : list sort_info; cmp_aoename : cstring; smp_dist : Z; avoid_provision : bool }.

Definition set_cmp_aoename (a : cstring) (e : node_env) : node_env :=
  NodeEnv (RES_NCPUS e) (RES_MEM e) (RES_HOST e) (node_sort e) a (smp_dist e) (avoid_provision e).

(** ** Resources *)

Fixpoint find_resource_loop (reslist : list sort_resource) (def : option resdef) : option sort_resource :=
  match reslist with
  | [] => None
  | r :: next => if same_def (sres_def r) def then Some r else find_resource_loop next def
  end.
Definition find_resource (reslist : list sort_resource) (def : option resdef) : option sort_resource :=
  match def with None => None | Some _ => find_resource_loop reslist def end.

Fixpoint find_resource_by_str (reslist : list sort_resource) (name : cstring) : option sort_resource :=
  match reslist with
  | [] => None
  | r :: next => if streq (sres_name r) name then Some r else find_resource_by_str next name
  end.

Definition dynamic_avail (r : sort_resource) : double :=
  if dbl_eqb (avail r) (dbl_of_Z SCHD_INFINITY) then dbl_of_Z SCHD_INFINITY
  else if dbl_leb (dbl_sub (avail r) (assigned r)) (dbl_of_Z 0) then dbl_of_Z 0
  else dbl_sub (avail r) (assigned r).

Definition cmpres (r1 r2 : double) : Z :=
  let inf r := dbl_eqb r (dbl_of_Z SCHD_INFINITY) in
  if inf r1 && inf r2 then 0
  else if inf r1 then -1
  else if inf r2 then 1
  else if dbl_ltb r1 r2 then -1
  else if dbl_eqb r1 r2 then 0 else 1.

(** A field of the amounts of a resource *)
Definition field_amount (res_type : resource_fields) (amounts : double * double) : double :=
  match res_type with
  | RF_AVAIL => fst amounts
  | RF_ASSN => snd amounts
  | RF_UNUSED => dbl_sub (fst amounts) (snd amounts)
  | _ => dbl_of_Z 0
  end.
Definition amounts (r : sort_resource) : double * double := (avail r, assigned r).

Definition find_nodepart_amount (np : node_partition) (res : cstring) (def : option resdef) (res_type : resource_fields) : double :=
  let nres := match def with Some _ => find_resource (np_res np) def | None => find_resource_by_str (np_res np) res end in
  match nres with Some r => field_amount res_type (amounts r) | None => dbl_of_Z 0 end.

Definition find_bucket_amount (bkt : node_bucket) (res : cstring) (def : option resdef) (res_type : resource_fields) : double :=
  match def with
  | Some _ =>
      match find_resource (res_spec bkt) def with Some r => field_amount res_type (amounts r) | None => dbl_of_Z 0 end
  | None =>
      if streq res SORT_PRIORITY then dbl_of_Z (b_priority bkt)
      else match find_resource_by_str (res_spec bkt) res with Some r => field_amount res_type (amounts r) | None => dbl_of_Z 0 end
  end.

Definition find_node_amount (n : sort_node) (res : cstring) (def : option resdef) (res_type : resource_fields) : double :=
  match def with
  | Some _ =>
      match find_resource (n_res n) def with
      | Some r => field_amount res_type (match indirect_res r with Some a => a | None => amounts r end)
      | None => dbl_of_Z 0
      end
  | None =>
      if streq res SORT_PRIORITY then dbl_of_Z (n_priority n)
      else if streq res SORT_USED_TIME then dbl_of_Z (last_used_time n)
      else dbl_of_Z 0
  end.

(** ** Comparisons by the sort keys *)

Section Objects.
Context {A : Type} (find_amount : A -> cstring -> option resdef -> resource_fields -> double) (rank : A -> Z).

(** [node_sort_cmp] for one of the three kinds of objects.  The ranks decide where
    two amounts are neither equal nor one less. *)
Definition node_sort_cmp (si : option sort_info) : option A -> option A -> option Z :=
  null_last (fun x1 x2 =>
    match si with
    | None => Some 0
    | Some si =>
        res ← si_res_name si;
        let v1 := find_amount x1 res (si_def si) (si_res_type si) in
        let v2 := find_amount x2 res (si_def si) (si_res_type si) in
        Some (if dbl_eqb v1 v2 then 0
              else if bool_decide (si_order si = ASC) then
                (if dbl_ltb v1 v2 then -1 else if dbl_gtb v1 v2 then 1 else if rank x1 <? rank x2 then -1 else 1)
              else
                (if dbl_ltb v1 v2 then 1 else if dbl_gtb v1 v2 then -1 else if rank x1 <? rank x2 then 1 else -1))
    end).

Definition multi_obj_sort (e : node_env) (x1 x2 : A) : option Z :=
  over_keys (fun si => node_sort_cmp (Some si) (Some x1) (Some x2)) (node_sort e).
End Objects.

Definition multi_node_sort (e : node_env) (n1 n2 : sort_node) : option Z := multi_obj_sort find_node_amount n_rank e n1 n2.
Definition multi_nodepart_sort (e : node_env) (p1 p2 : node_partition) : option Z :=
  multi_obj_sort find_nodepart_amount np_rank e p1 p2.
(** A bucket has no rank. *)
Definition multi_bkt_sort (e : node_env) (b1 b2 : node_bucket) : option Z :=
  multi_obj_sort find_bucket_amount (fun _ => 0) e b1 b2.

(** ** Other comparisons *)

(** Where both have the resource *)
Definition both (k : sort_resource -> sort_resource -> Z) (r1 r2 : option sort_resource) : Z :=
  match r1, r2 with Some r1, Some r2 => k r1 r2 | _, _ => 0 end.

Definition cmp_parts (e : node_env) (np1 np2 : node_partition) : Z :=
  let ncpus1 := find_resource (np_res np1) (RES_NCPUS e) in
  let ncpus2 := find_resource (np_res np2) (RES_NCPUS e) in
  let rc := both (fun a b => cmpres (avail a) (avail b)) ncpus1 ncpus2 in
  if negb (rc =? 0) then rc
  else
    let mem1 := find_resource (np_res np1) (RES_MEM e) in
    let mem2 := find_resource (np_res np2) (RES_MEM e) in
    let rc := both (fun a b => cmpres (avail a) (avail b)) mem1 mem2 in
    if negb (rc =? 0) then rc
    else
      let rc := both (fun a b => cmpres (dynamic_avail a) (dynamic_avail b)) ncpus1 ncpus2 in
      if negb (rc =? 0) then rc
      else both (fun a b => cmpres (dynamic_avail a) (dynamic_avail b)) mem1 mem2.

(** [NULL] before a pointer *)
Definition null_first {A : Type} (k : A -> A -> Z) (x1 x2 : option A) : Z :=
  match x1, x2 with
  | None, None => 0
  | None, Some _ => -1
  | Some _, None => 1
  | Some x1, Some x2 => k x1 x2
  end.

Definition cmp_placement_sets (e : node_env) : option node_partition -> option node_partition -> Z :=
  null_first (cmp_parts e).

Definition cmp_nspec : option nspec -> option nspec -> Z :=
  null_first (fun a b =>
    if seq_num a <? seq_num b then -1 else if seq_num a >? seq_num b then 1
          else if sub_seq_num a <? sub_seq_num b then -1 else if sub_seq_num a >? sub_seq_num b then 1 else 0).

Definition cmp_low_load : option sort_node -> option sort_node -> Z :=
  null_first (fun n1 n2 =>
    if flt_ltb (loadave n1) (loadave n2) then -1 else if flt_ltb (loadave n2) (loadave n1) then 1 else 0).

(** By the priorities of two queues *)
Definition cmp_queue_prio_dsc (p1 p2 : Z) : Z := if p1 <? p2 then 1 else if p1 >? p2 then -1 else 0.

Definition strcmp (a b : cstring) : Z := match Avl.strcmp a b with Lt => -1 | Eq => 0 | Gt => 1 end.

(** Is there a key to sort nodes by? *)
Definition has_node_key (e : node_env) : option bool :=
  si ← rd (node_sort e) 0; Some (match si_res_name si with Some _ => true | None => false end).

Definition cmp_node_host (e : node_env) (n1 n2 : sort_node) : option Z :=
  rc ← match find_resource (n_res n1) (RES_HOST e), find_resource (n_res n2) (RES_HOST e) with
       | Some r1, Some r2 => h1 ← orig_str_avail r1; h2 ← orig_str_avail r2; Some (strcmp h1 h2)
       | _, _ => Some 0
       end;
  if rc =? 0 then
    k ← has_node_key e;
    if k : bool then multi_node_sort e n1 n2 else Some rc
  else Some rc.

Definition aoe_rank (e : node_env) (n : sort_node) : Z :=
  match current_aoe n with None => 0 | Some a => if streq a (cmp_aoename e) then 1 else -1 end.

Definition cmp_aoe (e : node_env) (n1 n2 : sort_node) : option Z :=
  let ret := aoe_rank e n2 - aoe_rank e n1 in
  if ret =? 0 then multi_node_sort e n1 n2 else Some ret.

Definition cmp_nodes_sort (n1 n2 : sort_node) : Z :=
  if to_be_sorted n1 && negb (to_be_sorted n2) then 1
  else if negb (to_be_sorted n1) && to_be_sorted n2 then -1 else 0.

(** ** The nodes in the order a job is to try them *)

(** Caseless *)
Definition compare_res_to_str (r : sort_resource) (str : option cstring) : bool :=
  match str, str_avail r with
  | Some str, Some l => existsb (fun s => strcaseeq s str) l
  | _, _ => false
  end.

(** Is a node of the rank in the array, which may be [NULL]? *)
Definition find_node_by_rank (ninfo_arr : option (list sort_node)) (rank : Z) : bool :=
  match ninfo_arr with None => false | Some l => existsb (fun n => n_rank n =? rank) l end.

(** A job or reservation: the nodes of a reservation that is being altered and looks
    for others ([check_alternate_nodes]), and the requested AOE *)
Record node_request := NodeRequest {
  check_alternate_nodes : bool; ninfo_arr : option (list sort_node); aoename : option cstring }.

Section Reorder.
Context (sort : (sort_node -> sort_node -> option Z) -> list sort_node -> option (list sort_node)) (e : node_env).

(** The position of the node of a name, or the end *)
Fixpoint find_last (name : cstring) (l : list sort_node) : nat :=
  match l with
  | [] => 0%nat
  | n :: l => if streq name (n_name n) then 0%nat else S (find_last name l)
  end.

(** How many nodes there are before the first of another host; [hostres->str_avail]
    is read for a node that has a host. *)
Fixpoint same_host (hostres : sort_resource) (l : list sort_node) : option nat :=
  match l with
  | [] => Some 0%nat
  | n :: l =>
      match find_resource (n_res n) (RES_HOST e) with
      | Some cur =>
          strs ← str_avail hostres;
          if compare_res_to_str cur (strs !! 0%nat) then k ← same_host hostres l; Some (S k) else Some 0%nat
      | None => k ← same_host hostres l; Some (S k)
      end
  end.

(** Where the round robin goes on in the nodes sorted by host *)
Definition round_robin_start (last_node_name : cstring) (l : list sort_node) : option nat :=
  let i := find_last last_node_name l in
  match l !! i with
  | None => Some i
  | Some n =>
      match find_resource (n_res n) (RES_HOST e) with
      | None => Some i
      | Some hostres => k ← same_host hostres (drop i l); Some (i + k)%nat
      end
  end.

(** The nodes, or [NULL], and [last_node_name] after *)
Definition reorder_nodes (last_node_name : cstring) (nodes : option (list sort_node)) (resresv : option node_request)
  : option (option (list sort_node) * cstring) :=
  match nodes with
  | None => Some (None, last_node_name)
  | Some nodes =>
      if negb (bool_decide (is_Some resresv)) && avoid_provision e then Some (None, last_node_name)
      else
        match (r ← resresv; if check_alternate_nodes r then Some r else None) with
        | Some r =>
            let marked := map (fun n => set_to_be_sorted (negb (find_node_by_rank (ninfo_arr r) (n_rank n))) n) nodes in
            l ← sort (fun x y => Some (cmp_nodes_sort x y)) marked; Some (Some l, last_node_name)
        | None =>
            last ← (match last_node_name with [] => n ← nodes !! 0%nat; Some (n_name n) | _ => Some last_node_name end);
            r ← resresv;
            match (if avoid_provision e then aoename r else None) with
            | Some aoe => l ← sort (cmp_aoe (set_cmp_aoename aoe e)) nodes; Some (Some l, last)
            | None =>
                if smp_dist e =? SMP_LOWEST_LOAD then
                  l ← sort (fun x y => Some (cmp_low_load (Some x) (Some y))) nodes; Some (Some l, last)
                else if smp_dist e =? SMP_ROUND_ROBIN then
                  l ← sort (cmp_node_host e) nodes;
                  i ← round_robin_start last l;
                  Some (Some (drop i l ++ take i l), last)
                else Some (Some nodes, last)
            end
        end
  end.

End Reorder.

End NodeSort.
