(* ===== verification/NodeOrder.v ===== *)
(** * The order of the nodes

    Module [NodeOrder]: the comparison functions of [NodeSort] order what they are
    used for, and [reorder_nodes] of [src/scheduler/node_info.c] gives every node
    once, a round robin starting behind the host that was used last. *)

From Stdlib Require Import ZArith Lia Ascii String SpecFloat.
From stdpp Require Import gmap.
From S2P Require Import Prelude AvlTree AvlProps SchedData Doubles Sorting JobSort JobOrder NodeSort ResNum QsortProps.
Import Data Double Float JobSort JobOrder NodeSort.

Module NodeOrder.

(** ** Simple orders *)

#[export] Instance orders_diff {A : Type} (P : A -> Prop) (f : A -> Z) : Orders P (fun x y => f y - f x).
Proof. split; intros; lia. Qed.

Lemma strcmp_sym a b : strcmp b a = - strcmp a b.
Proof. unfold strcmp. rewrite (AvlProps.strcmp_opp a b). by destruct (Avl.strcmp a b). Qed.

Lemma strcmp_le_trans a b c : strcmp a b <= 0 -> strcmp b c <= 0 -> strcmp a c <= 0.
Proof.
  unfold strcmp. destruct (Avl.strcmp a b) eqn:E1; [apply AvlProps.strcmp_eq in E1 as ->|..]; [done| |lia].
  destruct (Avl.strcmp b c) eqn:E2; [apply AvlProps.strcmp_eq in E2 as <-; by rewrite E1| |lia].
  by rewrite (AvlProps.strcmp_trans _ _ _ E1 E2).
Qed.

#[export] Instance orders_strcmp {A : Type} (P : A -> Prop) (f : A -> cstring) : Orders P (fun x y => strcmp (f x) (f y)).
Proof. split; intros x y; [rewrite (strcmp_sym (f x)); lia|]. intros z _ _ _. apply strcmp_le_trans. Qed.

(** [cmpres]: the infinite amount first, the others ascending *)
Definition infinite (v : double) : bool := dbl_eqb v (dbl_of_Z SCHD_INFINITY).
Definition res_order {A : Type} (f : A -> double) : A -> A -> Z :=
  lexi (by_desc (fun x => Z.b2z (infinite (f x))))
    (fun x y => if infinite (f x) then 0 else num_cmp (f x) (f y)).

Lemma cmpres_order {A : Type} (f : A -> double) x y : is_num (f x) = true -> is_num (f y) = true ->
  cmpres (f x) (f y) = res_order f x y.
Proof.
  intros Hx Hy. unfold cmpres, res_order, lexi, by_desc, infinite.
  destruct (dbl_eqb (f x) _), (dbl_eqb (f y) _); try done. cbn.
  unfold dbl_ltb, dbl_eqb. rewrite num_lt, num_eq by done. unfold num_cmp. by destruct (lex _ _).
Qed.

Lemma orders_res {A : Type} (P : A -> Prop) (f : A -> double) :
  (forall x, P x -> is_num (f x) = true) -> Orders P (fun x y => cmpres (f x) (f y)).
Proof.
  intros HP. apply (orders_ext P (res_order f)); [intros x y Hx Hy; by rewrite cmpres_order by auto|].
  unfold res_order. split.
  - intros x y _ _. unfold lexi, by_desc. destruct (infinite (f x)), (infinite (f y)); cbn; try lia.
    rewrite (num_cmp_sym (f x) (f y)). lia.
  - intros x y z _ _ _. unfold lexi, by_desc. destruct (infinite (f x)), (infinite (f y)), (infinite (f z)); cbn; try lia.
    apply num_cmp_trans.
Qed.

(** ** The sort keys of nodes, placement sets and buckets *)

Section Keys.
Context {A : Type} (find_amount : A -> cstring -> option resdef -> resource_fields -> double) (rank : A -> Z) (e : node_env).

Definition obj_amount (si : sort_info) (x : A) : double :=
  from_option (fun res => find_amount x res (si_def si) (si_res_type si)) S754_nan (si_res_name si).
Definition obj_key (si : sort_info) : A -> A -> Z :=
  if bool_decide (si_order si = ASC) then num_asc (obj_amount si) else num_desc (obj_amount si).
Definition obj_order : A -> A -> Z :=
  foldr (fun si c => lexi (obj_key si) c) (fun _ _ => 0) (active (node_sort e)).

(** Its amounts are numbers. *)
Definition with_amounts (x : A) : Prop := forall si, si ∈ active (node_sort e) -> is_num (obj_amount si x) = true.

Definition node_keys : Prop := Z.of_nat (length (node_sort e)) = MAX_SORTS + 1.

#[export] Instance orders_obj (P : A -> Prop) : Orders P obj_order.
Proof.
  unfold obj_order. induction (active (node_sort e)) as [|si l IH]; cbn; [split; lia|].
  apply orders_lexi; [|done]. unfold obj_key. case_bool_decide; apply _.
Qed.

Lemma active_named l si : si ∈ active l -> is_Some (si_res_name si).
Proof.
  induction l as [|si' l IH]; cbn; [by intros ?%not_elem_of_nil|].
  destruct (si_res_name si') eqn:E; [|by intros ?%not_elem_of_nil].
  intros [->|Hin]%elem_of_cons; [by rewrite E|by apply IH].
Qed.

Lemma obj_key_ok si x y : with_amounts x -> with_amounts y -> si ∈ active (node_sort e) ->
  node_sort_cmp find_amount rank (Some si) (Some x) (Some y) = Some (obj_key si x y).
Proof.
  intros Hx Hy Hin. destruct (active_named _ _ Hin) as [res Hres]. cbn. rewrite Hres. cbn. f_equal.
  specialize (Hx si Hin). specialize (Hy si Hin). unfold obj_key, num_asc, num_desc, obj_amount in *. rewrite Hres in *. cbn in *.
  unfold dbl_eqb, dbl_ltb, dbl_gtb. rewrite !num_lt, num_eq by done.
  set (v1 := find_amount x res (si_def si) (si_res_type si)) in *. set (v2 := find_amount y res (si_def si) (si_res_type si)) in *.
  case_bool_decide; cbn beta; fold v1 v2; rewrite (num_cmp_sym v1 v2); unfold num_cmp; by destruct (lex _ _).
Qed.

Lemma multi_obj_sort_ok : node_keys -> compares with_amounts (multi_obj_sort find_amount rank e) obj_order.
Proof.
  intros Hk x y Hx Hy. unfold multi_obj_sort, over_keys.
  assert (obj_order x y = foldr (fun si z => if obj_key si x y =? 0 then z else obj_key si x y) 0 (active (node_sort e))) as ->.
  { unfold obj_order. induction (active (node_sort e)) as [|si l IH]; [done|]. cbn. unfold lexi at 1. by rewrite IH. }
  apply (keys_loop_ok _ (fun si => obj_key si x y) (node_sort e) []); [|done|].
  - intros si Hin. by apply obj_key_ok.
  - unfold node_keys, MAX_SORTS in *. lia.
Qed.
End Keys.

(** ** Nodes *)

Section Nodes.
Context (e : node_env) (Hkeys : node_keys e).

Definition node_order : sort_node -> sort_node -> Z := obj_order find_node_amount e.
Definition numeric_node : sort_node -> Prop := with_amounts find_node_amount e.

Definition host (n : sort_node) : cstring :=
  from_option (fun r => default [] (orig_str_avail r)) [] (find_resource (n_res n) (RES_HOST e)).

(** A node with a host *)
Definition hosted (n : sort_node) : Prop :=
  numeric_node n /\ exists r h, find_resource (n_res n) (RES_HOST e) = Some r /\ orig_str_avail r = Some h.

Definition host_order : sort_node -> sort_node -> Z := lexi (fun x y => strcmp (host x) (host y)) node_order.
Definition aoe_order : sort_node -> sort_node -> Z := lexi (fun x y => aoe_rank e y - aoe_rank e x) node_order.

Lemma cmp_node_host_ok : compares hosted (cmp_node_host e) host_order.
Proof using Hkeys.
  intros x y [Nx (rx & hx & Rx & Hx)] [Ny (ry & hy & Ry & Hy)]. unfold cmp_node_host, host_order, host.
  rewrite Rx, Ry. cbn. rewrite Hx, Hy. cbn. unfold lexi. rewrite Rx, Ry. cbn. rewrite Hx, Hy. cbn.
  case_if; [|done]. pose proof Hkeys as Hk. unfold node_keys, MAX_SORTS in Hk. unfold has_node_key.
  destruct (node_sort e) as [|si l] eqn:El; [done|].
  unfold rd. change (Z.to_nat 0) with 0%nat. cbn. destruct (si_res_name si) eqn:En; cbn.
  - by apply multi_obj_sort_ok.
  - unfold node_order, obj_order. rewrite El. cbn. rewrite En. cbn. by rewrite E.
Qed.

Lemma cmp_aoe_ok : compares numeric_node (cmp_aoe e) aoe_order.
Proof using Hkeys.
  intros x y Hx Hy. unfold cmp_aoe, aoe_order, lexi. case_if; [|done]. by apply multi_obj_sort_ok.
Qed.

Lemma orders_host (P : sort_node -> Prop) : Orders P host_order.
Proof. unfold host_order, node_order. apply orders_lexi; apply _. Qed.
Lemma orders_aoe (P : sort_node -> Prop) : Orders P aoe_order.
Proof. unfold aoe_order, node_order. apply orders_lexi; apply _. Qed.

(** ** The round robin *)

(** A node whose host has names *)
Definition located (n : sort_node) : Prop :=
  exists r h s ss, find_resource (n_res n) (RES_HOST e) = Some r /\ orig_str_avail r = Some h /\ str_avail r = Some (s :: ss).

(** [m] is on the host of [n]: it has its first name among its names. *)
Definition on_host (n m : sort_node) : bool :=
  match find_resource (n_res n) (RES_HOST e), find_resource (n_res m) (RES_HOST e) with
  | Some r, Some r' => compare_res_to_str r' (strs ← str_avail r; strs !! 0%nat)
  | _, _ => false
  end.

Lemma on_host_self n : located n -> on_host n n = true.
Proof. intros (r & h & s & ss & H & _ & Hs). unfold on_host, compare_res_to_str. rewrite H, Hs. cbn. unfold strcaseeq. by rewrite bool_decide_true. Qed.

Lemma find_last_ok name l : (find_last name l <= length l)%nat /\
  forall n, l !! find_last name l = Some n -> n_name n = name.
Proof.
  induction l as [|m l [IH1 IH2]]; cbn; [split; [lia|done]|]. unfold streq. case_bool_decide; cbn.
  - split; [lia|]. intros n [= <-]. done.
  - split; [lia|]. done.
Qed.

Lemma same_host_ok n r : located n -> find_resource (n_res n) (RES_HOST e) = Some r -> forall l, Forall located l ->
  exists k, same_host e r l = Some k /\ (k <= length l)%nat /\
    Forall (fun m => on_host n m = true) (take k l) /\
    (forall m, l !! k = Some m -> on_host n m = false).
Proof.
  intros (r' & h & s & ss & Hr' & _ & Hs) Hr l. assert (r' = r) as -> by congruence.
  induction 1 as [|m l (rm & hm & sm & ssm & Hm & _) _ (k & IH & Hk & Hall & Hnext)].
  - exists 0%nat. split_and!; (done || constructor).
  - cbn [same_host]. rewrite Hm, Hs. cbn [mbind option_bind].
    assert (on_host n m = compare_res_to_str rm ((s :: ss) !! 0%nat)) as Hon by (unfold on_host; by rewrite Hr, Hm, Hs).
    destruct (compare_res_to_str rm ((s :: ss) !! 0%nat)) eqn:Hc.
    + rewrite IH. cbn. exists (S k). split_and!; [done|lia| |exact Hnext]. by constructor.
    + exists 0%nat. split_and!; [done|lia|constructor|]. intros m' [= <-]. done.
Qed.

(** Where the round robin goes on: behind the nodes of the last host *)
Lemma round_robin_ok name l : Forall located l ->
  exists i, round_robin_start e name l = Some i /\ (i <= length l)%nat /\
    (forall n, l !! find_last name l = Some n -> (find_last name l < i)%nat /\
      (forall j m, (find_last name l <= j < i)%nat -> l !! j = Some m -> on_host n m = true) /\
      (forall m, l !! i = Some m -> on_host n m = false)).
Proof.
  intros Hl. destruct (find_last_ok name l) as [Hlen _]. unfold round_robin_start.
  destruct (l !! find_last name l) as [n|] eqn:Hn; [|exists (find_last name l); split_and!; done].
  pose proof (Forall_lookup_1 _ _ _ _ Hl Hn) as Hloc. destruct Hloc as (r & h & s & ss & Hr & Hrest). rewrite Hr.
  assert (located n) as Hln by (exists r, h, s, ss; by split).
  destruct (same_host_ok n r Hln Hr (drop (find_last name l) l)) as (k & Hk & Hkl & Hall & Hnext); [by apply Forall_drop|].
  rewrite Hk. cbn. rewrite length_drop in Hkl. eexists. split; [done|]. split; [lia|]. intros n' [= <-].
  split_and!.
  - destruct k; [|lia]. exfalso. specialize (Hnext n). rewrite lookup_drop, Nat.add_0_r in Hnext.
    specialize (Hnext Hn). by rewrite on_host_self in Hnext.
  - intros j m Hj Hm. apply (Forall_lookup_1 _ _ (j - find_last name l)%nat m Hall).
    rewrite lookup_take_lt by lia. rewrite lookup_drop. by replace (find_last name l + (j - find_last name l))%nat with j by lia.
  - intros m Hm. apply Hnext. by rewrite lookup_drop.
Qed.

End Nodes.

(** ** Placement sets and chunks *)

(** A set with cpus and memory whose amounts are numbers *)
Definition measured (e : node_env) (np : node_partition) : Prop :=
  exists c m, find_resource (np_res np) (RES_NCPUS e) = Some c /\ find_resource (np_res np) (RES_MEM e) = Some m /\
    is_num (avail c) = true /\ is_num (avail m) = true /\
    is_num (dynamic_avail c) = true /\ is_num (dynamic_avail m) = true.

Definition part_amount (f : sort_resource -> double) (def : option resdef) (np : node_partition) : double :=
  from_option f S754_nan (find_resource (np_res np) def).

(** By the cpus, the memory, the free cpus and the free memory *)
Definition part_order (e : node_env) : node_partition -> node_partition -> Z :=
  let key f def := fun x y => cmpres (part_amount f def x) (part_amount f def y) in
  lexi (key avail (RES_NCPUS e)) (lexi (key avail (RES_MEM e))
    (lexi (key dynamic_avail (RES_NCPUS e)) (key dynamic_avail (RES_MEM e)))).

Lemma placement_sets_order e : Orders (measured e) (cmp_parts e).
Proof.
  apply (orders_ext _ (part_order e)).
  - intros x y (cx & mx & Cx & Mx & _) (cy & my & Cy & My & _). unfold cmp_parts, part_order, part_amount, lexi.
    rewrite Cx, Cy, Mx, My. cbn. by repeat case_if.
  - unfold part_order. repeat apply orders_lexi;
      apply (orders_res (measured e) (part_amount _ _)); unfold part_amount;
      intros x (c & m & C & M & N1 & N2 & N3 & N4); by rewrite ?C, ?M.
Qed.

#[export] Instance orders_first {A : Type} (P : A -> Prop) (k : A -> A -> Z) : Orders P k -> Orders (opt_all P) (null_first k).
Proof.
  intros [Hs Ht]. split.
  - intros [x|] [y|] Hx Hy; cbn; try lia. by apply Hs.
  - intros [x|] [y|] [z|] Hx Hy Hz; cbn; try lia. by apply Ht.
Qed.

Lemma nspec_order (P : nspec -> Prop) : Orders (opt_all P) cmp_nspec.
Proof.
  apply (orders_ext _ (null_first (lexi (by_asc seq_num) (by_asc sub_seq_num)))); [|apply _].
  intros [x|] [y|] _ _; try done. cbn. unfold lexi, by_asc. by repeat case_if.
Qed.

(** ** [reorder_nodes] *)

Section Reorder.
Context {small : list sort_node -> Prop} {sort : (sort_node -> sort_node -> option Z) -> list sort_node -> option (list sort_node)}
  `{!Sorter small sort}.
Context (e : node_env) (Hkeys : node_keys e).

(** A node whose amounts are numbers and whose host has names *)
Definition usable (n : sort_node) : Prop := numeric_node e n /\ located e n /\ is_num (loadave n) = true.

Lemma usable_hosted n : usable n -> hosted e n.
Proof. intros (H & (r & h & s & ss & Hr & Hh & _) & _). split; [done|]. eauto. Qed.

Definition by_load : sort_node -> sort_node -> Z := num_asc loadave.
Definition by_mark : sort_node -> sort_node -> Z := by_asc (fun n => Z.b2z (to_be_sorted n)).

Lemma low_load_ok : compares usable (fun x y => Some (cmp_low_load (Some x) (Some y))) by_load.
Proof.
  intros x y (_ & _ & Hx) (_ & _ & Hy). cbn. unfold flt_ltb, by_load, num_asc. rewrite !num_lt by done.
  rewrite (num_cmp_sym (loadave x)). unfold num_cmp. by destruct (lex _ _).
Qed.

Lemma nodes_sort_ok : compares (fun _ => True) (fun x y => Some (cmp_nodes_sort x y)) by_mark.
Proof. intros x y _ _. unfold cmp_nodes_sort, by_mark, by_asc. by destruct (to_be_sorted x), (to_be_sorted y). Qed.

(** The nodes in the order of a policy *)
Definition reordered (last : cstring) (nodes : list sort_node) (r : node_request) (l : list sort_node) : Prop :=
  if check_alternate_nodes r then
    let marked := map (fun n => set_to_be_sorted (negb (find_node_by_rank (ninfo_arr r) (n_rank n))) n) nodes in
    l ≡ₚ marked /\ ordered by_mark l
  else
    match (if avoid_provision e then aoename r else None) with
    | Some aoe => l ≡ₚ nodes /\ ordered (aoe_order (set_cmp_aoename aoe e)) l
    | None =>
        if smp_dist e =? SMP_LOWEST_LOAD then l ≡ₚ nodes /\ ordered by_load l
        else if smp_dist e =? SMP_ROUND_ROBIN then
          exists s i, s ≡ₚ nodes /\ ordered (host_order e) s /\ l = drop i s ++ take i s /\ (i <= length s)%nat /\
            forall n, s !! find_last last s = Some n -> (find_last last s < i)%nat /\
              (forall j m, (find_last last s <= j < i)%nat -> s !! j = Some m -> on_host e n m = true) /\
              (forall m, s !! i = Some m -> on_host e n m = false)
        else l = nodes
    end.

Definition last_of (last : cstring) (nodes : list sort_node) : cstring :=
  match last with [] => from_option n_name [] (nodes !! 0%nat) | _ => last end.

(** C16. [reorder_nodes] of nodes with numbers as amounts and a host returns every
    node once: for a reservation being altered the nodes it has come first, for a
    requested AOE those that have it, else by load, or one host after the other from
    the host behind the one used last on, or as they are. *)
Theorem reorder_nodes_spec (last : cstring) (nodes : list sort_node) (r : node_request) :
  nodes <> [] -> Forall usable nodes -> (forall l, length l = length nodes -> small l) ->
  exists l last', reorder_nodes sort e last (Some nodes) (Some r) = Some (Some l, last') /\
    reordered (last_of last nodes) nodes r l /\ map n_rank l ≡ₚ map n_rank nodes.
Proof using Hkeys Sorter0.
  intros Hne Hu Hsmall. unfold reorder_nodes, reordered.
  rewrite (bool_decide_eq_true_2 (is_Some (Some r))) by eauto. cbn [negb andb mbind option_bind].
  assert (forall P, (forall n, usable n -> P n) -> Forall P nodes) as Himp by (intros P HP; eapply Forall_impl; eauto).
  destruct (check_alternate_nodes r).
  - set (marked := map _ nodes).
    destruct (sorter_ok (fun _ => True) (fun x y => Some (cmp_nodes_sort x y)) by_mark marked nodes_sort_ok) as (l & Hl & Hp & Ho);
      [by apply Forall_true|apply Hsmall; unfold marked; by rewrite length_map|].
    rewrite Hl. cbn. exists l, last. split_and!; [done|done|apply Ho; apply _|].
    rewrite Hp. unfold marked. by rewrite map_map.
  - destruct nodes as [|n0 nodes0] eqn:En; [done|]. rewrite <-En in *.
    assert ((match last with [] => n ← nodes !! 0%nat; Some (n_name n) | _ :: _ => Some last end) = Some (last_of last nodes)) as ->
      by (rewrite En; by destruct last).
    cbn [mbind option_bind]. destruct (if avoid_provision e then aoename r else None) as [aoe|].
    + destruct (sorter_ok (numeric_node (set_cmp_aoename aoe e)) (cmp_aoe (set_cmp_aoename aoe e)) (aoe_order (set_cmp_aoename aoe e)) nodes)
        as (l & Hl & Hp & Ho); [by apply cmp_aoe_ok|apply Himp; intros n Hn; apply Hn|by apply Hsmall|].
      rewrite Hl. cbn. exists l, (last_of last nodes). split_and!; [done|done|apply Ho, orders_aoe|by rewrite Hp].
    + destruct (smp_dist e =? SMP_LOWEST_LOAD); [|destruct (smp_dist e =? SMP_ROUND_ROBIN)].
      * destruct (sorter_ok usable _ by_load nodes low_load_ok) as (l & Hl & Hp & Ho); [done|by apply Hsmall|].
        rewrite Hl. cbn. exists l, (last_of last nodes). split_and!; [done|done|apply Ho; apply _|by rewrite Hp].
      * destruct (sorter_ok (hosted e) (cmp_node_host e) (host_order e) nodes) as (s & Hl & Hp & Ho);
          [by apply cmp_node_host_ok|apply Himp, usable_hosted|by apply Hsmall|].
        destruct (round_robin_ok e (last_of last nodes) s) as (i & Hi & Hlen & Hrr).
        { rewrite Hp. apply Himp. intros n Hn. apply Hn. }
        rewrite Hl. cbn [mbind option_bind]. rewrite Hi. cbn [mbind option_bind].
        eexists _, _. split; [done|]. split.
        -- exists s, i. split_and!; [done|apply Ho, orders_host|done|done|done].
        -- rewrite (Permutation_app_comm (drop i s)), take_drop. by rewrite Hp.
      * eexists _, _. by split_and!.
Qed.

End Reorder.
End NodeOrder.

(** * Nodes to sort

    Module [NodeScenes]: four nodes on two hosts, on which the theorem on
    [reorder_nodes] is applied, and what the comparisons of nodes do besides. *)

Import QsortProps ResNum Data Double Float JobSort JobOrder NodeSort NodeOrder.

Module NodeScenes.

Definition def_of (a : Z) (n : string) : resdef := ResDef a (lit n) no_type.
Definition host_def : resdef := def_of 1 "host".
Definition ncpus_def : resdef := def_of 2 "ncpus".
Definition mem_def : resdef := def_of 3 "mem".

Definition host_res (h : string) : sort_resource :=
  SortResource (lit "host") (Some host_def) (Some (lit h)) (Some [lit h]) (dbl_of_Z 0) (dbl_of_Z 0) None.
Definition amount_res (d : resdef) (total used : Z) : sort_resource :=
  SortResource (def_name d) (Some d) None None (dbl_of_Z total) (dbl_of_Z used) None.

(** A vnode of a host with its rank and priority *)
Definition vnode (name h : string) (rank prio : Z) : sort_node :=
  SortNode (lit name) [host_res h] prio 0 rank flt_zero None false.
Definition nodes4 : list sort_node :=
  [vnode "a0" "a" 1 5; vnode "b0" "b" 2 9; vnode "a1" "a" 3 7; vnode "b1" "b" 4 1].

Definition no_key : sort_info := SortInfo None None NO_SORT_ORDER RF_NONE.
Definition prio_key : sort_info := SortInfo (Some SORT_PRIORITY) None DESC RF_AVAIL.
Definition env (dist : Z) : node_env :=
  NodeEnv (Some ncpus_def) (Some mem_def) (Some host_def) (prio_key :: replicate 21 no_key) [] dist false.
Definition a_job : node_request := NodeRequest false None None.

Lemma nodes4_usable dist : Forall (usable (env dist)) nodes4.
Proof.
  repeat constructor; try (by eexists _, _, _, _);
    (intros si [->|Hin%not_elem_of_nil]%elem_of_cons; [reflexivity|done]).
Qed.

Lemma reorder_nodes_spec_witness :
  exists l last', reorder_nodes (Qsort.sort 8) (env SMP_ROUND_ROBIN) (lit "a1") (Some nodes4) (Some a_job) = Some (Some l, last') /\
    reordered (env SMP_ROUND_ROBIN) (last_of (lit "a1") nodes4) nodes4 a_job l /\ map n_rank l ≡ₚ map n_rank nodes4.
Proof.
  apply (reorder_nodes_spec (small := fun l => fits 8 (len l)) (sort := Qsort.sort 8) (env SMP_ROUND_ROBIN) eq_refl (lit "a1") nodes4 a_job);
    [discriminate|apply nodes4_usable|].
  intros l Hl. unfold len. rewrite Hl. split; vm_compute; [reflexivity|discriminate].
Defined.

(** After a vnode of host a the round robin goes on with host b. *)
Example after_host_a :
  (fun o => map n_name <$> (o ≫= fst)) (reorder_nodes (Qsort.sort 8) (env SMP_ROUND_ROBIN) (lit "a1") (Some nodes4) (Some a_job))
  = Some [lit "b0"; lit "b1"; lit "a1"; lit "a0"].
Proof. vm_compute. reflexivity. Qed.

(** ** Findings *)

(** Without a job and with another provision policy, the job is read. *)
Example no_request_crashes : reorder_nodes (Qsort.sort 8) (env SMP_NODE_PACK) (lit "a1") (Some nodes4) None = None.
Proof. reflexivity. Qed.

(** Two nodes that differ in nothing but their ranks compare equal: the ranks are
    looked at only for an amount that is not a number. *)
Theorem rank_does_not_break_ties {A : Type} (find_amount : A -> cstring -> option resdef -> resource_fields -> double)
  (rank1 rank2 : A -> Z) (si : sort_info) (x y : A) res :
  si_res_name si = Some res -> is_num (find_amount x res (si_def si) (si_res_type si)) = true ->
  is_num (find_amount y res (si_def si) (si_res_type si)) = true ->
  node_sort_cmp find_amount rank1 (Some si) (Some x) (Some y) = node_sort_cmp find_amount rank2 (Some si) (Some x) (Some y).
Proof.
  intros Hn Hx Hy. cbn. rewrite Hn. cbn. f_equal. unfold dbl_eqb, dbl_ltb, dbl_gtb. rewrite !num_lt, num_eq by done.
  rewrite (num_cmp_sym (find_amount x res (si_def si) (si_res_type si))). unfold num_cmp. by destruct (lex _ _).
Qed.

(** A placement set without cpus ties with two sets one of which is before the
    other: the sets are not ordered. *)
Definition with_cpus (n m : Z) : node_partition := NodePartition [amount_res ncpus_def n 0; amount_res mem_def m 0] 0.
Definition without_cpus (m : Z) : node_partition := NodePartition [amount_res mem_def m 0] 0.
Example sets_in_a_circle :
  (cmp_parts (env 0) (with_cpus 1 9) (with_cpus 2 1), cmp_parts (env 0) (with_cpus 2 1) (without_cpus 5),
   cmp_parts (env 0) (without_cpus 5) (with_cpus 1 9)) = (-1, -1, -1).
Proof. vm_compute. reflexivity. Qed.

(** The node marked to be sorted goes behind. *)
Example marked_node_behind :
  cmp_nodes_sort (set_to_be_sorted true (vnode "a" "a" 1 1)) (set_to_be_sorted false (vnode "b" "b" 2 1)) = 1.
Proof. reflexivity. Qed.

End NodeScenes.
