(* ===== verification/Resources.v ===== *)
(** * Resources of servers, queues and nodes

    Module [Resources]: lists of resources ([src/scheduler/server_info.c]), the
    check of a request against a list ([check_avail_resources] of
    [src/scheduler/check.c], [compare_non_consumable] of
    [src/scheduler/resource_resv.c]), and the largest amounts assigned before a time of the
    calendar ([simulate_resmin] of [src/scheduler/simulate.c]).  NULL is the empty
    list of resources or requests.  [None] is a crash.  The text of a reason is any
    function of what the code prints. *)

From Stdlib Require Import ZArith Lia Ascii String.
From S2P Require Import Prelude Doubles ResNum SchedData Counts LimitCheck.
Import Double ResNum Data Calendar LimitCheck.

Module Resources.

(** ** Constants *)

Definition INSUFFICIENT_RESOURCE : Z := RET_BASE + 39.
Definition INSUFFICIENT_QUEUE_RESOURCE : Z := RET_BASE + 46.
Definition INSUFFICIENT_SERVER_RESOURCE : Z := RET_BASE + 47.

(** The flags of [is_ok_to_run] *)
Definition CHECK_ALL_BOOLS : Z := 8.
Definition UNSET_RES_ZERO : Z := 16.
Definition COMPARE_TOTAL : Z := 32.
Definition ONLY_COMP_NONCONS : Z := 64.
Definition ONLY_COMP_CONS : Z := 128.

Definition TRUE_FALSE : double := dbl_of_Z 2.
Definition INF : double := dbl_of_Z SCHD_INFINITY.
Definition RES_DEFAULT_AVAIL : double := INF.
Definition RES_DEFAULT_ASSN : double := dbl_of_Z 0.

(** ** Resources *)

(** [struct schd_resource]; a resource may stand for another one. *)
#[warnings="-register-all"]
Inductive schd_res := Resource {
  r_name : option cstring; r_type : resource_type; orig_str_avail : option cstring;
  indirect_res : option schd_res; avail : double; str_avail : option (list cstring);
  assigned : double; r_def : option resdef }.

Definition set_assigned (a : double) (r : schd_res) : schd_res :=
  Resource (r_name r) (r_type r) (orig_str_avail r) (indirect_res r) (avail r) (str_avail r) a (r_def r).

Fixpoint find_resource_loop (reslist : list schd_res) (def : option resdef) : option (nat * schd_res) :=
  match reslist with
  | [] => None
  | r :: next =>
      if same_def (r_def r) def then Some (O, r)
      else p ← find_resource_loop next def; Some (S (fst p), snd p)
  end.
Definition find_resource (reslist : list schd_res) (def : option resdef) : option schd_res :=
  match def with None => None | Some _ => snd <$> find_resource_loop reslist def end.

(** The list with the resource in it, and its position; NULL for a NULL definition *)
Definition find_alloc_resource (resplist : list schd_res) (def : option resdef) : option (list schd_res * nat) :=
  match def with
  | None => None
  | Some d =>
      match find_resource_loop resplist def with
      | Some (i, _) => Some (resplist, i)
      | None =>
          Some (resplist ++ [Resource (Some (def_name d)) (def_type d) None None RES_DEFAULT_AVAIL None
                               RES_DEFAULT_ASSN def], length resplist)
      end
  end.

Definition dup_resource (r : schd_res) : schd_res :=
  Resource (def_name <$> r_def r) (r_type r) (orig_str_avail r) None (avail r) (str_avail r)
    (assigned r) (r_def r).
Definition dup_resource_list (res : list schd_res) : list schd_res := map dup_resource res.

Definition resdef_exists_in_array (deflist : option (list resdef)) (def : option resdef) : bool :=
  match deflist, def with
  | Some l, Some _ => existsb (fun d => same_def (Some d) def) l
  | _, _ => false
  end.

(** The resources that stand for one that is not in the list *)
Definition boolean_type : resource_type := Build_resource_type true false true false false false false false false.
Definition string_type : resource_type := Build_resource_type true true false false false false false false false.
Definition number_type : resource_type := Build_resource_type false false false true true false false false false.
Definition false_res : schd_res :=
  Resource None boolean_type (Some (lit "False")) None (dbl_of_Z 0) None RES_DEFAULT_ASSN None.
Definition unset_str_res : schd_res :=
  Resource None string_type (Some []) None (dbl_of_Z 0) (Some [[]]) RES_DEFAULT_ASSN None.
Definition zero_res : schd_res :=
  Resource None number_type (Some (lit "0")) None (dbl_of_Z 0) None RES_DEFAULT_ASSN None.
Definition named_as (req : resource_req) (r : schd_res) : schd_res :=
  Resource (rq_name req) (r_type r) (orig_str_avail r) (indirect_res r) (avail r) (str_avail r)
    (assigned r) (rq_def req).

(** ** Matching strings *)

Inductive match_string_array_ret := SA_NO_MATCH | SA_PARTIAL_MATCH | SA_SUB_MATCH | SA_FULL_MATCH.

Definition find_string (strarr : list cstring) (str : cstring) : bool := existsb (fun s => streq s str) strarr.

Definition match_string_array (strarr1 strarr2 : option (list cstring)) : match_string_array_ret :=
  match strarr1, strarr2 with
  | Some l1, Some l2 =>
      let matches := length (List.filter (find_string l2) l1) in
      let all1 := Nat.eqb matches (length l1) in
      let all2 := Nat.eqb matches (length l2) in
      if all1 && all2 then SA_FULL_MATCH
      else if all1 || all2 then SA_SUB_MATCH
      else if Nat.eqb matches 0 then SA_NO_MATCH else SA_PARTIAL_MATCH
  | _, _ => SA_NO_MATCH
  end.
Definition match_string_to_array (str : option cstring) (strarr : option (list cstring)) : match_string_array_ret :=
  match_string_array strarr (Some (match str with Some s => [s] | None => [] end)).

Definition compare_res_to_str (res : schd_res) (str : option cstring) (caseless : bool) : bool :=
  match str, str_avail res with
  | Some str, Some l => existsb (fun s => if caseless then strcaseeq s str else streq s str) l
  | _, _ => false
  end.

Definition compare_non_consumable (res : option schd_res) (req : option resource_req) : option bool :=
  match req with
  | None => Some false
  | Some req =>
      let unfit := match res with
                   | Some r => negb (is_non_consumable (r_type r)) ||
                               is_string (r_type r) && bool_decide (str_avail r = None)
                   | None => false
                   end in
      if negb (is_non_consumable (rq_type req)) || unfit then Some false
      else if is_boolean (rq_type req) then
        Some (match res with
              | None => dbl_eqb (rq_amount req) (dbl_of_Z 0)
              | Some r => dbl_eqb (avail r) TRUE_FALSE || dbl_eqb (avail r) (rq_amount req)
              end)
      else
        match res with
        | Some r =>
            if is_string (rq_type req) then
              nm ← r_name r; Some (compare_res_to_str r (rq_res_str req) (streq nm (lit "host")))
            else Some false
        | None => Some false
        end
  end.

Definition dynamic_avail (res : schd_res) : double :=
  if dbl_eqb (avail res) INF then INF
  else if dbl_leb (dbl_sub (avail res) (assigned res)) (dbl_of_Z 0) then dbl_of_Z 0
  else dbl_sub (avail res) (assigned res).

(** [(long long) x]; out of its range the smallest, as on the hardware *)
Definition llong_of_dbl (x : double) : Z :=
  match dbl_trunc x with
  | Some v => if (LONG_MIN <=? v) && (v <=? LONG_MAX) then v else LONG_MIN
  | None => LONG_MIN
  end.

(** ** A request against a list of resources *)

Section Avail.
Context (ignore_res : option (list cstring)).
Context (reason : resource_req -> schd_res -> option double -> cstring).

(** Is a request checked at all? *)
Definition requested (flags : Z) (checklist : option (list resdef)) (req : resource_req) : bool :=
  has_flag flags CHECK_ALL_BOOLS && is_boolean (rq_type req) ||
  bool_decide (checklist = None) || resdef_exists_in_array checklist (rq_def req).

(** The resource a request is checked against; [None] where any amount will do *)
Definition target (reslist : list schd_res) (flags : Z) (req : resource_req) : option schd_res :=
  let res := find_resource reslist (rq_def req) in
  let unset := match res with None => true | Some r => bool_decide (orig_str_avail r = None) end in
  let ignored := match match_string_to_array (rq_name req) ignore_res with SA_NO_MATCH => false | _ => true end in
  if unset && ignored then None
  else
    let res := match res with
               | Some r => Some r
               | None =>
                   if is_boolean (rq_type req) then Some (named_as req false_res)
                   else if is_num_type (rq_type req) && has_flag flags UNSET_RES_ZERO then Some (named_as req zero_res)
                   else if is_string (rq_type req) && has_flag flags UNSET_RES_ZERO then Some (named_as req unset_str_res)
                   else None
               end in
    (fun r => default r (indirect_res r)) <$> res.

(** The check fails, or passes with the number of times the request fits *)
Inductive verdict := Fails (why : cstring) | Fits (chunks : option Z).

Definition amount_for (flags : Z) (res : schd_res) : double :=
  let a := if has_flag flags COMPARE_TOTAL then avail res else dynamic_avail res in
  if dbl_eqb a INF && has_flag flags UNSET_RES_ZERO then dbl_of_Z 0 else a.

Definition check_resource (flags : Z) (req : resource_req) (res : schd_res) : option verdict :=
  if is_non_consumable (r_type res) && negb (has_flag flags ONLY_COMP_CONS) then
    same ← compare_non_consumable (Some res) (Some req);
    Some (if same : bool then Fits None else Fails (reason req res None))
  else if is_consumable (r_type res) && negb (has_flag flags ONLY_COMP_NONCONS) then
    let a := amount_for flags res in
    Some (if negb (dbl_eqb a INF) && negb (dbl_eqb (rq_amount req) (dbl_of_Z 0)) then
            if dbl_ltb a (rq_amount req) then Fails (reason req res (Some a))
            else Fits (Some (llong_of_dbl (dbl_div a (rq_amount req))))
          else Fits None)
  else Some (Fits None).

Definition fewer (cur_chunk : option Z) (num_chunk : Z) : Z :=
  match cur_chunk with
  | Some c => if (c <? num_chunk) || (num_chunk =? SCHD_INFINITY) then c else num_chunk
  | None => num_chunk
  end.

(** The loop, with the errors so far and the one to be filled in, if there is one;
    [any_fail] is the result of the loop. *)
Fixpoint avail_loop (reslist : list schd_res) (flags : Z) (checklist : option (list resdef)) (fail_code : Z)
    (reqs : list resource_req) (num_chunk : Z) (any_fail : bool) (errs : list schd_error) (err : option schd_error)
  : option (Z * bool * list schd_error * option schd_error) :=
  match reqs with
  | [] => Some (num_chunk, any_fail, errs, err)
  | req :: reqs =>
      let go num_chunk := avail_loop reslist flags checklist fail_code reqs num_chunk in
      if requested flags checklist req then
        match target reslist flags req with
        | None => go num_chunk any_fail errs err
        | Some res =>
            v ← check_resource flags req res;
            match v with
            | Fits c => go (fewer c num_chunk) any_fail errs err
            | Fails why =>
                let err := (fun e => set_arg1 (set_schd_error_codes e NOT_RUN fail_code) (Some why)) <$> err in
                if has_flag flags RETURN_ALL_ERR then
                  e ← err; go num_chunk true (errs ++ [e]) (Some new_schd_error)
                else Some (num_chunk, true, errs, err)
            end
        end
      else go num_chunk any_fail errs err
  end.

(** The number of chunks and the errors [perr] leads, none when it is NULL *)
Definition check_avail_resources (reslist : list schd_res) (reqlist : list resource_req) (flags : Z)
    (checklist : option (list resdef)) (fail_code : Z) (perr : option schd_error) : option (Z * list schd_error) :=
  match reslist, reqlist with
  | [], _ | _, [] => Some (-1, option_list ((fun e => set_schd_error_codes e NOT_RUN SCHD_ERROR) <$> perr))
  | _, _ =>
      r ← avail_loop reslist flags checklist fail_code reqlist SCHD_INFINITY false [] perr;
      let '(num_chunk, any_fail, errs, err) := r in
      Some (if any_fail : bool then 0 else num_chunk,
            match errs with [] => option_list err | _ => errs end)
  end.

End Avail.

(** ** The largest amounts assigned before a time *)

Section Resmin.
(** The rank of a job or reservation *)
Context (rank : resource_resv -> Z).

Definition find_resource_resv_by_rank (resresv_arr : list resource_resv) (r : Z) : bool :=
  existsb (fun rr => rank rr =? r) resresv_arr.

(** One request of a job that runs or ends, in [res] and [resmin]; [None] is the
    error of a definition that is NULL. *)
Definition sim_req (run : bool) (req : resource_req) (st : list schd_res * list schd_res)
  : option (list schd_res * list schd_res) :=
  let '(res, resmin) := st in
  p ← find_alloc_resource res (rq_def req);
  cur_res ← p.1 !! p.2;
  let a := if run then dbl_add (assigned cur_res) (rq_amount req) else dbl_sub (assigned cur_res) (rq_amount req) in
  q ← find_alloc_resource resmin (rq_def req);
  cur_resmin ← q.1 !! q.2;
  Some (<[p.2 := set_assigned a cur_res]> p.1,
        if dbl_gtb a (assigned cur_resmin) then <[q.2 := set_assigned a cur_resmin]> q.1 else q.1).

Fixpoint sim_reqs (run : bool) (reqs : list resource_req) (st : list schd_res * list schd_res)
  : option (list schd_res * list schd_res) :=
  match reqs with
  | [] => Some st
  | req :: reqs =>
      if is_consumable (rq_type req) then st ← sim_req run req st; sim_reqs run reqs st
      else sim_reqs run reqs st
  end.

Definition RUN_END : Z := Z.lor TIMED_RUN_EVENT TIMED_END_EVENT.

Definition counted (incl_arr : option (list resource_resv)) (exclude : option resource_resv) (rr : resource_resv) : bool :=
  match incl_arr with None => true | Some l => find_resource_resv_by_rank l (rank rr) end &&
  negb (match exclude with Some x => rr_addr x =? rr_addr rr | None => false end).

(** The outer [None] is an event without a job, the inner one the error *)
Fixpoint resmin_loop (fuel : nat) (te : list timed_event) (end_ : Z) (incl_arr : option (list resource_resv))
    (exclude : option resource_resv) (st : list schd_res * list schd_res)
  : option (option (list schd_res * list schd_res)) :=
  match fuel, te with
  | S fuel, e :: _ =>
      if (end_ =? 0) || (te_time e <? end_) then
        rr ← te_ptr e;
        match (if counted incl_arr exclude rr then sim_reqs (te_type e =? TIMED_RUN_EVENT) (rr_resreq rr) st
               else Some st) with
        | None => Some None
        | Some st => resmin_loop fuel (find_next_timed_event te true RUN_END) end_ incl_arr exclude st
        end
      else Some (Some st)
  | _, _ => Some (Some st)
  end.

Definition simulate_resmin (reslist : list schd_res) (end_ : Z) (calendar : option (list timed_event))
    (incl_arr : option (list resource_resv)) (exclude : option resource_resv) : option (list schd_res) :=
  match reslist, calendar with
  | [], _ | _, None => Some reslist
  | _, Some cal =>
      if negb (exists_run_event calendar end_) then Some reslist
      else
        let res := dup_resource_list reslist in
        let te := find_init_timed_event cal true RUN_END in
        r ← resmin_loop (S (length cal)) te end_ incl_arr exclude (res, res);
        Some (match r with Some (_, resmin) => resmin | None => [] end)
  end.

End Resmin.
End Resources.
