(* ===== verification/ResourceProps.v ===== *)
(** * Resource checks

    Module [ResourceProps]: [check_avail_resources] returns how many times a request
    fits into a list of resources, with the requests that do not as errors; and
    the amounts [simulate_resmin] gives cover every moment before the end of a job. *)

From Stdlib Require Import ZArith Lia Ascii String.
From S2P Require Import Prelude Doubles ResNum SchedData Counts LimitCheck Resources.
Import Double ResNum Data ReqList Calendar LimitCheck Resources.

Module ResourceProps.

(** ** Whole amounts *)

Definition zval (x : double) : Z := default 0 (dbl_trunc x).

(** A number below 2^53 that is not negative *)
Definition whole (x : double) : Prop := x = dbl_of_Z (zval x) /\ 0 <= zval x < 2 ^ 53.

Lemma whole_of_Z (z : Z) : 0 <= z < 2 ^ 53 -> whole (dbl_of_Z z) /\ zval (dbl_of_Z z) = z.
Proof.
  intros Hz. assert (zval (dbl_of_Z z) = z) as E by (unfold zval; by rewrite dbl_trunc_exact by (unfold exact; lia)).
  unfold whole. rewrite E. split_and!; [done|lia|lia|done].
Qed.

Lemma whole_exact (x : double) : whole x -> exact (zval x).
Proof. unfold whole, exact. lia. Qed.

Lemma inf_exact : exact SCHD_INFINITY.
Proof. unfold exact, SCHD_INFINITY. lia. Qed.

Lemma whole_not_inf (x : double) : whole x -> dbl_eqb x INF = false.
Proof.
  intros Hw. pose proof Hw as [E Hz]. rewrite E. unfold INF. rewrite dbl_eqb_exact by auto using whole_exact, inf_exact.
  apply Z.eqb_neq. unfold SCHD_INFINITY. lia.
Qed.

(** The amounts of a resource are whole; as many as one likes are available, or a number. *)
Definition sound_res (r : schd_res) : Prop :=
  (avail r = INF \/ whole (avail r)) /\ whole (assigned r) /\ r_name r <> None.

(** What there is of a resource for the check; [None] is as much as one likes. *)
Definition units (flags : Z) (r : schd_res) : option Z :=
  if dbl_eqb (avail r) INF then (if has_flag flags UNSET_RES_ZERO then Some 0 else None)
  else Some (if has_flag flags COMPARE_TOTAL then zval (avail r) else Z.max 0 (zval (avail r) - zval (assigned r))).

Lemma dynamic_avail_whole (r : schd_res) : whole (avail r) -> whole (assigned r) ->
  dynamic_avail r = dbl_of_Z (Z.max 0 (zval (avail r) - zval (assigned r))).
Proof.
  intros Ha Hs. unfold dynamic_avail. rewrite whole_not_inf by done.
  pose proof Ha as [Ea Ra]. pose proof Hs as [Es Rs]. rewrite Ea, Es.
  rewrite (proj2 (whole_of_Z _ Ra)), (proj2 (whole_of_Z _ Rs)).
  rewrite dbl_sub_exact, dbl_leb_exact by (unfold exact; lia).
  destruct (Z.leb_spec (zval (avail r) - zval (assigned r)) 0); f_equal; lia.
Qed.

Lemma amount_for_units (flags : Z) (r : schd_res) : sound_res r ->
  amount_for flags r = match units flags r with Some n => dbl_of_Z n | None => INF end /\
  forall n, units flags r = Some n -> 0 <= n < 2 ^ 53.
Proof.
  intros ([Hi|Ha] & Hs & _); unfold amount_for, units.
  - assert (dynamic_avail r = INF) as Hd by (unfold dynamic_avail; by rewrite Hi).
    rewrite Hd, Hi. change (dbl_eqb INF INF) with true. cbn [andb].
    destruct (has_flag flags COMPARE_TOTAL), (has_flag flags UNSET_RES_ZERO); split; try done; intros n [= <-]; lia.
  - rewrite (whole_not_inf (avail r)) by done.
    pose proof Ha as [Ea Ra]. pose proof Hs as [Es Rs]. destruct (has_flag flags COMPARE_TOTAL).
    + rewrite (whole_not_inf (avail r)) by done. cbn [andb]. split; [done|]. by intros n [= <-].
    + rewrite dynamic_avail_whole by done.
      rewrite whole_not_inf by (apply whole_of_Z; lia). cbn [andb]. split; [done|]. intros n [= <-]. lia.
Qed.

(** ** What a request needs *)

Section Avail.
Context (ignore_res : option (list cstring)).
Context (reason : resource_req -> schd_res -> option double -> cstring).
Context (reslist : list schd_res) (flags : Z) (checklist : option (list resdef)) (fail_code : Z).

(** Does the resource hold the request [k] times? *)
Definition serves (k : Z) (req : resource_req) (r : schd_res) : bool :=
  if is_non_consumable (r_type r) && negb (has_flag flags ONLY_COMP_CONS) then
    bool_decide (compare_non_consumable (Some r) (Some req) = Some true)
  else if is_consumable (r_type r) && negb (has_flag flags ONLY_COMP_NONCONS) then
    match units flags r with None => true | Some n => k * zval (rq_amount req) <=? n end
  else true.

Definition satisfied (k : Z) (req : resource_req) : bool :=
  if requested flags checklist req then
    match target ignore_res reslist flags req with None => true | Some r => serves k req r end
  else true.

Definition sound_req (req : resource_req) : Prop :=
  whole (rq_amount req) /\ rq_name req <> None /\
  forall r, target ignore_res reslist flags req = Some r -> sound_res r.

Lemma check_resource_spec (req : resource_req) (r : schd_res) : whole (rq_amount req) -> sound_res r ->
  exists v, check_resource reason flags req r = Some v /\
    match v with
    | Fails _ => serves 1 req r = false
    | Fits None => forall k, serves k req r = true
    | Fits (Some c) => 1 <= c /\ forall k, serves k req r = (k <=? c)
    end.
Proof.
  intros Hq Hr. unfold check_resource, serves. destruct (_ && negb (has_flag flags ONLY_COMP_CONS)) eqn:E1.
  { assert (exists b, compare_non_consumable (Some r) (Some req) = Some b) as [b ->].
    { unfold compare_non_consumable. destruct (negb _ || _); [by eexists|]. destruct (is_boolean _); [by eexists|].
      destruct Hr as (_ & _ & Hn). destruct (r_name r); [|done]. destruct (is_string _); by eexists. }
    cbn. destruct b; eexists; (split; [done|]); cbn; intros; by rewrite ?bool_decide_true, ?bool_decide_false by done. }
  destruct (_ && negb (has_flag flags ONLY_COMP_NONCONS)); [|by exists (Fits None)].
  destruct (amount_for_units flags r Hr) as [-> Hn]. destruct (units flags r) as [n|]; cycle 1.
  { change (dbl_eqb INF INF) with true. by exists (Fits None). }
  specialize (Hn n eq_refl). pose proof (whole_of_Z n Hn) as [Wn Zn]. rewrite whole_not_inf by done.
  destruct Hq as [Eq Rq]. set (a := zval (rq_amount req)) in *. rewrite Eq, dbl_eqb_exact by (unfold exact; lia).
  destruct (Z.eqb_spec a 0) as [->|Ha]; cbn [negb andb].
  { exists (Fits None). split; [done|]. intros k. apply Z.leb_le. lia. }
  rewrite dbl_ltb_exact by (unfold exact; lia). destruct (Z.ltb_spec n a) as [Hlt|Hle].
  { eexists. split; [done|]. cbn. apply Z.leb_gt. lia. }
  assert (llong_of_dbl (dbl_div (dbl_of_Z n) (dbl_of_Z a)) = n / a) as ->.
  { unfold llong_of_dbl. rewrite dbl_div_trunc by lia.
    assert (0 <= n / a <= n) by (split; [apply Z.div_pos; lia|apply Z.div_le_upper_bound; nia]).
    by rewrite !(proj2 (Z.leb_le _ _)) by (unfold LONG_MIN, LONG_MAX; lia). }
  eexists. split; [done|]. cbn. split; [apply Z.div_le_lower_bound; lia|]. intros k.
  apply eq_true_iff_eq. rewrite !Z.leb_le. split; intros H.
  - apply Z.div_le_lower_bound; lia.
  - pose proof (Z.mul_div_le n a ltac:(lia)). nia.
Qed.

(** The number [n] of chunks admits [k]. *)
Definition admits (n k : Z) : bool := (n =? SCHD_INFINITY) || (k <=? n).
Definition count_ok (n : Z) : Prop := n = SCHD_INFINITY \/ 1 <= n.

Lemma fewer_admits (c n : Z) : 1 <= c -> count_ok n ->
  count_ok (fewer (Some c) n) /\ forall k, 1 <= k -> admits (fewer (Some c) n) k = admits n k && (k <=? c).
Proof.
  unfold count_ok, admits, fewer, SCHD_INFINITY. intros Hc Hn.
  destruct (Z.ltb_spec c n), (Z.eqb_spec n (-2)); cbn [orb]; (split; [lia|]); intros k Hk;
    apply eq_true_iff_eq; rewrite ?orb_true_iff, ?andb_true_iff, ?Z.eqb_eq, ?Z.leb_le; lia.
Qed.

(** The requests that do not fit once *)
Definition unfit (reqs : list resource_req) : list resource_req := List.filter (fun q => negb (satisfied 1 q)) reqs.

Definition failed (e : schd_error) : Prop := err_code e = fail_code /\ err_status e = NOT_RUN.

(** What is there several times is there once. *)
Lemma satisfied_once (k : Z) (q : resource_req) : 1 <= k -> whole (rq_amount q) -> satisfied k q = true -> satisfied 1 q = true.
Proof.
  intros Hk [_ Hz]. unfold satisfied, serves. repeat case_match; try done. rewrite !Z.leb_le. nia.
Qed.

Lemma unfit_some (k : Z) (reqs : list resource_req) : 1 <= k -> Forall sound_req reqs -> unfit reqs <> [] ->
  forallb (satisfied k) reqs = false.
Proof.
  intros Hk Hs Hu. apply not_true_is_false. intros Hall. rewrite forallb_forall in Hall. apply Hu. clear Hu.
  unfold unfit. induction Hs as [|q reqs Hq _ IH]; [done|]. cbn [List.filter].
  rewrite (satisfied_once k q Hk (proj1 Hq) (Hall q (or_introl eq_refl))). cbn [negb].
  apply IH. intros q' Hin. apply Hall. by right.
Qed.

(** The result of the loop over [reqs] *)
Record loop_done (reqs : list resource_req) (n : Z) (any : bool) (errs : list schd_error) (err : option schd_error)
    (n' : Z) (any' : bool) (errs' : list schd_error) (err' : option schd_error) : Prop := {
  ld_any : any' = any || negb (bool_decide (unfit reqs = []));
  ld_fits : unfit reqs = [] -> errs' = errs /\ err' = err /\ count_ok n' /\
    forall k, 1 <= k -> admits n' k = admits n k && forallb (satisfied k) reqs;
  ld_all : has_flag flags RETURN_ALL_ERR = true ->
    exists new, errs' = errs ++ new /\ length new = length (unfit reqs) /\ Forall failed new;
  ld_first : has_flag flags RETURN_ALL_ERR = false -> unfit reqs <> [] ->
    errs' = errs /\ length (option_list err') = length (option_list err) /\ Forall failed (option_list err') }.

Lemma loop_done_nil (n : Z) (any : bool) (errs : list schd_error) (err : option schd_error) : count_ok n ->
  loop_done [] n any errs err n any errs err.
Proof.
  intros Hn. split; cbn; [by rewrite orb_false_r| | |done].
  - intros _. split_and!; try done. intros k _. by rewrite andb_true_r.
  - intros _. exists []. by rewrite app_nil_r.
Qed.

Lemma loop_done_fits (q : resource_req) (reqs : list resource_req) (c : option Z) (n : Z) (any : bool)
    (errs : list schd_error) (err : option schd_error) (n' : Z) (any' : bool) (errs' : list schd_error) (err' : option schd_error) :
  (forall k, 1 <= k -> admits (fewer c n) k = admits n k && satisfied k q) -> satisfied 1 q = true ->
  loop_done reqs (fewer c n) any errs err n' any' errs' err' -> loop_done (q :: reqs) n any errs err n' any' errs' err'.
Proof.
  intros Hc Hq [H1 H2 H3 H4]. split; cbn [unfit List.filter]; rewrite Hq; cbn [negb]; try done.
  intros Hu. destruct (H2 Hu) as (J1 & J2 & J3 & J4). split_and!; try done.
  intros k Hk. cbn [forallb]. by rewrite J4, Hc, andb_assoc.
Qed.

Lemma loop_done_first (q : resource_req) (reqs : list resource_req) (n : Z) (any : bool) (errs : list schd_error)
    (err err' : option schd_error) : satisfied 1 q = false -> has_flag flags RETURN_ALL_ERR = false ->
  length (option_list err') = length (option_list err) -> Forall failed (option_list err') ->
  loop_done (q :: reqs) n any errs err n true errs err'.
Proof.
  intros Hq Hf Hl He. split; cbn [unfit List.filter]; rewrite Hq; cbn [negb]; [by rewrite orb_true_r|done| |done].
  by rewrite Hf.
Qed.

Lemma loop_done_all (q : resource_req) (reqs : list resource_req) (n : Z) (any : bool) (errs : list schd_error)
    (err err1 : option schd_error) (e : schd_error) (n' : Z) (any' : bool) (errs' : list schd_error) (err' : option schd_error) :
  satisfied 1 q = false -> has_flag flags RETURN_ALL_ERR = true -> failed e ->
  loop_done reqs n true (errs ++ [e]) err1 n' any' errs' err' -> loop_done (q :: reqs) n any errs err n' any' errs' err'.
Proof.
  intros Hq Hf He [H1 H2 H3 H4]. split; cbn [unfit List.filter]; rewrite Hq; cbn [negb]; [|done| |by rewrite Hf].
  - by rewrite H1, orb_true_r.
  - intros _. destruct (H3 Hf) as (new & -> & Hl & Hnew). exists (e :: new). rewrite <-app_assoc.
    split_and!; [done|cbn; by f_equal|by constructor].
Qed.

Lemma avail_loop_spec (reqs : list resource_req) : Forall sound_req reqs ->
  forall (n : Z) (any : bool) (errs : list schd_error) (err : option schd_error), count_ok n ->
  (has_flag flags RETURN_ALL_ERR = true -> err <> None) ->
  exists n' any' errs' err', avail_loop ignore_res reason reslist flags checklist fail_code reqs n any errs err =
    Some (n', any', errs', err') /\ loop_done reqs n any errs err n' any' errs' err'.
Proof.
  induction 1 as [|q reqs (Hw & _ & Ht) _ IH]; intros n any errs err Hn Hnull.
  { exists n, any, errs, err. split; [done|by apply loop_done_nil]. }
  cbn [avail_loop].
  assert (Hgo : forall c, (forall k, 1 <= k -> admits (fewer c n) k = admits n k && satisfied k q) -> count_ok (fewer c n) ->
    satisfied 1 q = true -> exists n' any' errs' err',
      avail_loop ignore_res reason reslist flags checklist fail_code reqs (fewer c n) any errs err = Some (n', any', errs', err') /\
      loop_done (q :: reqs) n any errs err n' any' errs' err').
  { intros c Hc Hok Hq. destruct (IH (fewer c n) any errs err Hok Hnull) as (n' & any' & errs' & err' & H1 & H2).
    exists n', any', errs', err'. split; [done|by eapply loop_done_fits]. }
  assert (Hany : (forall k, satisfied k q = true) -> exists n' any' errs' err',
      avail_loop ignore_res reason reslist flags checklist fail_code reqs n any errs err = Some (n', any', errs', err') /\
      loop_done (q :: reqs) n any errs err n' any' errs' err').
  { intros Hs. apply (Hgo None); [intros k _; by rewrite Hs, andb_true_r|done|done]. }
  assert (forall k, satisfied k q = if requested flags checklist q then
    match target ignore_res reslist flags q with None => true | Some r => serves k q r end else true) as Hs by done.
  destruct (requested flags checklist q); [|by apply Hany].
  destruct (target ignore_res reslist flags q) as [r|]; [|by apply Hany].
  destruct (check_resource_spec q r Hw (Ht r eq_refl)) as (v & -> & Hv). cbn [mbind option_bind].
  destruct v as [why|[c|]].
  - rewrite <-Hs in Hv. destruct (has_flag flags RETURN_ALL_ERR) eqn:Ef.
    + destruct err as [e|]; [|by destruct (Hnull eq_refl)]. cbn [fmap option_fmap option_map mbind option_bind].
      destruct (IH n true (errs ++ [set_arg1 (set_schd_error_codes e NOT_RUN fail_code) (Some why)]) (Some new_schd_error) Hn)
        as (n' & any' & errs' & err' & H1 & H2); [done|].
      exists n', any', errs', err'. split; [done|]. refine (loop_done_all _ _ _ _ _ _ _ _ _ _ _ _ Hv Ef _ H2). by split.
    + do 4 eexists. split; [done|]. apply loop_done_first; [done|done|by destruct err|].
      destruct err; [|constructor]. constructor; [by split|constructor].
  - destruct Hv as [Hc Hv]. destruct (fewer_admits c n Hc Hn) as [H1 H2]. apply (Hgo (Some c)); [|done|].
    + intros k Hk. by rewrite H2, Hs, Hv.
    + rewrite Hs, Hv. apply Z.leb_le. lia.
  - apply Hany. intros k. by rewrite Hs, Hv.
Qed.

(** C10. A request is checked against a list of resources: the result is
    [SCHD_INFINITY] or the number of times the whole request fits, 0 when something
    in it does not fit once.  Then an error of the code given leads the list, or,
    with [RETURN_ALL_ERR], there is one for each thing that does not fit. *)
Theorem check_avail_resources_spec (reqlist : list resource_req) (perr : option schd_error) :
  reslist <> [] -> reqlist <> [] -> Forall sound_req reqlist ->
  (has_flag flags RETURN_ALL_ERR = true -> perr <> None) ->
  exists n errs, check_avail_resources ignore_res reason reslist reqlist flags checklist fail_code perr = Some (n, errs) /\
    (n = SCHD_INFINITY \/ 0 <= n) /\
    (forall k, 1 <= k -> (n = SCHD_INFINITY \/ k <= n) <-> forallb (satisfied k) reqlist = true) /\
    (n <> 0 -> errs = option_list perr) /\
    (n = 0 -> Forall failed errs /\
       (has_flag flags RETURN_ALL_ERR = true -> length errs = length (unfit reqlist)) /\
       (has_flag flags RETURN_ALL_ERR = false -> length errs = length (option_list perr))).
Proof.
  intros Hr Hq Hs Hnull.
  destruct (avail_loop_spec reqlist Hs SCHD_INFINITY false [] perr ltac:(by left) Hnull) as (n & any & errs & err & Hrun & [H1 H2 H3 H4]).
  exists (if any then 0 else n), (match errs with [] => option_list err | _ => errs end).
  split. { unfold check_avail_resources. destruct reslist; [done|]. destruct reqlist; [done|]. by rewrite Hrun. }
  cbn [orb] in H1. destruct (decide (unfit reqlist = [])) as [Hu|Hu].
  - destruct (H2 Hu) as (-> & -> & Hn & Ha). subst any. rewrite bool_decide_true by done. cbn [negb].
    split_and!; [destruct Hn; [by left|right; lia]| |done|destruct Hn as [->|Hn]; [done|lia]].
    intros k Hk. specialize (Ha k Hk). cbn [admits] in Ha. unfold admits in Ha.
    change (SCHD_INFINITY =? SCHD_INFINITY) with true in Ha. cbn [orb andb] in Ha. rewrite <-Ha.
    by rewrite orb_true_iff, Z.eqb_eq, Z.leb_le.
  - subst any. rewrite bool_decide_false by done. cbn [negb].
    split_and!; [by right| |done|]; [|intros _].
    + intros k Hk. rewrite (unfit_some k) by done. split; [|done]. intros [?|?]; [done|lia].
    + destruct (has_flag flags RETURN_ALL_ERR) eqn:Ef.
      * destruct (H3 eq_refl) as (new & -> & Hl & Hnew). cbn [app]. destruct new; [by destruct (unfit reqlist)|done].
      * by destruct (H4 eq_refl Hu) as (-> & Hl & He).
Qed.
End Avail.

(** ** Lists of resources *)

Definition fresh (d : resdef) : schd_res :=
  Resource (Some (def_name d)) (def_type d) None None RES_DEFAULT_AVAIL None RES_DEFAULT_ASSN (Some d).

(** The resource of a definition, as it is found or made *)
Definition got (l : list schd_res) (d : resdef) : schd_res := default (fresh d) (find_resource l (Some d)).

Lemma find_resource_cons (r : schd_res) (l : list schd_res) (d : option resdef) : d <> None ->
  find_resource (r :: l) d = if same_def (r_def r) d then Some r else find_resource l d.
Proof.
  intros Hd. unfold find_resource. destruct d; [|done]. cbn [find_resource_loop].
  destruct (same_def _ _); [done|]. by destruct (find_resource_loop l _).
Qed.

Lemma find_loop_update (l : list schd_res) (d : option resdef) (i : nat) (r r1 : schd_res) : d <> None ->
  find_resource_loop l d = Some (i, r) -> same_def d (r_def r1) = true ->
  l !! i = Some r /\
  forall d', d' <> None -> find_resource (<[i := r1]> l) d' = if same_def d d' then Some r1 else find_resource l d'.
Proof.
  intros Hd Hf Hs. revert i Hf. induction l as [|q l IH]; intros i; cbn [find_resource_loop]; [done|].
  destruct (same_def (r_def q) d) eqn:E.
  - intros [= <- <-]. split; [done|]. intros d' Hd'. cbn. rewrite !find_resource_cons by done.
    rewrite <-(same_def_trans _ _ d' Hs). destruct (same_def d d') eqn:E'; [done|].
    rewrite (same_def_trans _ _ d' E), E'. done.
  - destruct (find_resource_loop l d) as [[j r']|] eqn:Ef; [|done]. intros [= <- <-].
    destruct (IH j eq_refl) as [H1 H2]. split; [done|]. intros d' Hd'. cbn. rewrite !find_resource_cons, H2 by done.
    destruct (same_def (r_def q) d') eqn:E'; [|done]. destruct (same_def d d') eqn:E''; [|done].
    rewrite same_def_sym in E''. rewrite (same_def_sym (r_def q)) in E'.
    rewrite (same_def_trans _ _ d E') in E''. by rewrite E in E''.
Qed.

Lemma find_resource_app (l1 l2 : list schd_res) (d : option resdef) : d <> None ->
  find_resource (l1 ++ l2) d = match find_resource l1 d with Some r => Some r | None => find_resource l2 d end.
Proof.
  intros Hd. induction l1 as [|q l1 IH]; [by destruct d|]. cbn [app]. rewrite !find_resource_cons, IH by done.
  by destruct (same_def _ d).
Qed.

Lemma find_alloc_got (l : list schd_res) (d : resdef) : exists l1 i,
  find_alloc_resource l (Some d) = Some (l1, i) /\ l1 !! i = Some (got l d) /\
  forall r d', same_def (Some d) (r_def r) = true ->
    find_resource (<[i := r]> l1) (Some d') = if same_def (Some d) (Some d') then Some r else find_resource l (Some d').
Proof.
  unfold find_alloc_resource, got. destruct (find_resource_loop l (Some d)) as [[i r0]|] eqn:E.
  - exists l, i. split; [done|]. unfold find_resource at 1. rewrite E. cbn [fmap option_fmap option_map snd default].
    assert (forall r d', same_def (Some d) (r_def r) = true -> find_resource (<[i := r]> l) (Some d') =
      if same_def (Some d) (Some d') then Some r else find_resource l (Some d')) as H2.
    { intros r d' Hr. destruct (find_loop_update l (Some d) i r0 r ltac:(done) E Hr) as [_ H]. by apply H. }
    split; [|done]. destruct (find_loop_update l (Some d) i r0 (fresh d) ltac:(done) E) as [H _]; [apply same_def_refl|done].
  - exists (l ++ [fresh d]), (length l). split; [done|]. unfold find_resource at 1. rewrite E. cbn [fmap option_fmap option_map default].
    split; [by apply list_lookup_middle|]. intros r d' Hr.
    assert (<[length l := r]> (l ++ [fresh d]) = l ++ [r]) as -> by (rewrite insert_app_r_alt, Nat.sub_diag by lia; done).
    rewrite find_resource_app, find_resource_cons by done. rewrite <-(same_def_trans _ _ (Some d') Hr).
    destruct (same_def (Some d) (Some d')) eqn:Es; [|by destruct (find_resource l _)].
    assert (find_resource l (Some d') = None) as ->; [|done].
    unfold find_resource. enough (find_resource_loop l (Some d') = None) as -> by done.
    assert (forall x, same_def x (Some d') = same_def x (Some d)) as Hx.
    { intros x. rewrite !(same_def_sym x). symmetry. by apply same_def_trans. }
    rewrite <-E. clear -Hx. induction l as [|q l IH]; [done|]. cbn [find_resource_loop]. by rewrite Hx, IH.
Qed.

Lemma find_loop_def (l : list schd_res) (d : option resdef) (i : nat) (r : schd_res) :
  find_resource_loop l d = Some (i, r) -> same_def (r_def r) d = true.
Proof.
  revert i. induction l as [|q l IH]; intros i; cbn [find_resource_loop]; [done|].
  destruct (same_def (r_def q) d) eqn:E; [by intros [= <- <-]|].
  destruct (find_resource_loop l d) as [[j r']|]; [|done]. intros [= <- <-]. by apply (IH j).
Qed.

Lemma got_def (l : list schd_res) (d : resdef) : same_def (Some d) (r_def (got l d)) = true.
Proof.
  rewrite same_def_sym. unfold got, find_resource. destruct (find_resource_loop l (Some d)) as [[i r]|] eqn:E.
  - exact (find_loop_def _ _ _ _ E).
  - apply same_def_refl.
Qed.

(** ** One request, one job, all jobs *)

(** An amount that is an integer *)
Lemma zval_of_Z (z : Z) : exact z -> zval (dbl_of_Z z) = z.
Proof. intros Hz. unfold zval. by rewrite dbl_trunc_exact. Qed.

Lemma find_res_same (l : list schd_res) (d d' : resdef) : same_def (Some d) (Some d') = true ->
  find_resource l (Some d) = find_resource l (Some d').
Proof.
  intros Hd. unfold find_resource. f_equal. induction l as [|q l IH]; [done|]. cbn [find_resource_loop].
  rewrite IH. enough (same_def (r_def q) (Some d) = same_def (r_def q) (Some d')) as -> by done.
  rewrite !(same_def_sym (r_def q)). by apply same_def_trans.
Qed.

Section Tracks.
Context (d : resdef) (g : schd_res).

(** The resource of [d] in the two lists: [v] is assigned now, [M] was at most. *)
Record tracks (st : list schd_res * list schd_res) (v M : Z) : Prop := {
  tr_now : exists r, find_resource st.1 (Some d) = Some r /\ assigned r = dbl_of_Z v;
  tr_max : find_resource st.2 (Some d) = Some (set_assigned (dbl_of_Z M) g);
  tr_le : v <= M }.

(** What a list of requests takes of the resource *)
Definition takes (req : resource_req) : Z :=
  if is_consumable (rq_type req) && same_def (rq_def req) (Some d) then zval (rq_amount req) else 0.
Definition need (reqs : list resource_req) : Z := foldr (fun q z => takes q + z) 0 reqs.

Definition sound_need (req : resource_req) : Prop :=
  is_consumable (rq_type req) = true -> whole (rq_amount req) /\ exists d', rq_def req = Some d'.

Lemma takes_nonneg (req : resource_req) : sound_need req -> 0 <= takes req.
Proof.
  unfold sound_need, takes. destruct (is_consumable _); [|done]. intros H. destruct (H eq_refl) as [[_ Hz] _].
  cbn [andb]. destruct (same_def _ _); lia.
Qed.

Lemma need_nonneg (reqs : list resource_req) : Forall sound_need reqs -> 0 <= need reqs.
Proof. induction 1 as [|q reqs Hq _ IH]; [done|]. pose proof (takes_nonneg q Hq). cbn. fold (need reqs). lia. Qed.

Definition signed (run : bool) (z : Z) : Z := if run then z else - z.

Lemma sim_req_tracks (run : bool) (q : resource_req) (st : list schd_res * list schd_res) (v M : Z) :
  is_consumable (rq_type q) = true -> sound_need q -> tracks st v M -> exact M -> exact v ->
  exact (v + signed run (takes q)) ->
  exists st', sim_req run q st = Some st' /\
    tracks st' (v + signed run (takes q)) (Z.max M (v + signed run (takes q))).
Proof.
  destruct st as [res resmin]. intros Hc Hq [(r & H1 & Hr) H2 H3] HM Hv Hv'. destruct (Hq Hc) as [Hw [d' Hd]].
  cbn [fst snd] in H1, H2. unfold sim_req. rewrite Hd.
  destruct (find_alloc_got res d') as (l1 & i & -> & E1 & F1). cbn [mbind option_bind fst snd]. rewrite E1.
  destruct (find_alloc_got resmin d') as (l2 & j & E2 & G2 & F2). cbn [mbind option_bind fst snd]. rewrite E2.
  cbn [mbind option_bind fst snd]. rewrite G2. cbn [mbind option_bind fst snd]. eexists. split; [done|].
  assert (same_def (Some d') (Some d) = false \/ same_def (Some d') (Some d) = true) as [Es|Es] by (destruct (same_def _ _); auto).
  - assert (takes q = 0) as -> by (unfold takes; by rewrite Hd, Es, andb_false_r).
    assert (v + signed run 0 = v) as -> by (destruct run; cbn; lia). rewrite Z.max_l by done.
    assert (forall r', same_def (Some d') (r_def r') = true -> find_resource (<[j := r']> l2) (Some d) = find_resource resmin (Some d)) as G3
      by (intros r' Hr'; by rewrite F2, Es).
    split; cbn [fst snd]; [exists r; split; [|done]; by rewrite F1, Es by apply got_def| |done].
    rewrite <-H2. destruct (dbl_gtb _ _); [by rewrite G3 by apply got_def|].
    rewrite <-(list_insert_id l2 j _ G2). by rewrite G3 by apply got_def.
  - assert (takes q = zval (rq_amount q)) as Et by (unfold takes; by rewrite Hc, Hd, Es).
    assert (got res d' = r) as E3 by (unfold got; by rewrite (find_res_same _ _ _ Es), H1).
    assert (got resmin d' = set_assigned (dbl_of_Z M) g) as E4 by (unfold got; by rewrite (find_res_same _ _ _ Es), H2).
    pose proof (got_def res d') as D3. pose proof (got_def resmin d') as D4. rewrite E3, E4 in *. rewrite Et in *.
    rewrite Hr. destruct Hw as [Ew Rw]. set (z := zval (rq_amount q)) in *. rewrite Ew.
    assert ((if run then dbl_add (dbl_of_Z v) (dbl_of_Z z) else dbl_sub (dbl_of_Z v) (dbl_of_Z z)) = dbl_of_Z (v + signed run z)) as ->.
    { destruct run; cbn [signed] in *; [by rewrite dbl_add_exact by (done || (unfold exact; lia))|].
      by rewrite dbl_sub_exact by (done || (unfold exact; lia)). }
    set (w := v + signed run z) in *. cbn [assigned set_assigned]. rewrite dbl_gtb_exact by done.
    split; cbn [fst snd]; [eexists; by rewrite F1, Es| |lia].
    destruct (Z.ltb_spec M w).
    + rewrite F2, Es by done. rewrite Z.max_r by lia. done.
    + rewrite Z.max_l by lia. rewrite <-(list_insert_id l2 j _ G2). by rewrite F2, Es.
Qed.

Lemma sim_reqs_tracks (run : bool) (reqs : list resource_req) : Forall sound_need reqs ->
  forall st v M B, tracks st v M -> Z.abs v + need reqs + B < 2 ^ 53 -> Z.abs M + need reqs + B < 2 ^ 53 -> 0 <= B ->
  exists st' M', sim_reqs run reqs st = Some st' /\ tracks st' (v + signed run (need reqs)) M' /\ M <= M' /\
    Z.abs M' + B < 2 ^ 53.
Proof.
  induction 1 as [|q reqs Hq Hqs IH]; intros st v M B T Hv HM HB.
  { exists st, M. cbn in *. split_and!; try done; [|lia]. assert (v + signed run 0 = v) as -> by (destruct run; cbn; lia). done. }
  pose proof (takes_nonneg q Hq) as Ht. pose proof (need_nonneg reqs Hqs) as Hn.
  assert (need (q :: reqs) = takes q + need reqs) as Hneed by done. rewrite Hneed in *. cbn [sim_reqs].
  destruct (is_consumable (rq_type q)) eqn:Ec.
  - destruct (sim_req_tracks run q st v M Ec Hq T) as (st1 & -> & T1); [unfold exact; lia|unfold exact; lia| |].
    { unfold exact, signed. destruct run; lia. }
    destruct (IH st1 _ _ B T1) as (st' & M' & Hrun & T' & HM' & HB').
    { unfold signed. destruct run; lia. } { unfold signed. destruct run; lia. } { done. }
    exists st', M'. cbn [mbind option_bind]. split_and!; [done| |lia|done].
    assert (v + signed run (takes q + need reqs) = v + signed run (takes q) + signed run (need reqs)) as -> by (destruct run; cbn; lia).
    done.
  - assert (takes q = 0) as E0 by (unfold takes; by rewrite Ec). rewrite E0 in *.
    destruct (IH st v M B T) as (st' & M' & Hrun & T' & HM' & HB'); [lia|lia|done|]. exists st', M'.
    by rewrite Z.add_0_l.
Qed.
(** ** The events of the calendar *)

(** A run or end event of a job with sound requests *)
Definition sound_event (e : timed_event) : Prop :=
  exists rr, te_ptr e = Some rr /\ Forall sound_need (rr_resreq rr).

Definition event_need (e : timed_event) : Z :=
  match te_ptr e with Some rr => need (rr_resreq rr) | None => 0 end.
Definition runs (e : timed_event) : bool := te_type e =? TIMED_RUN_EVENT.

(** What the events of a list take of the resource, less what they give back; and
    the amounts in all *)
Definition used (es : list timed_event) : Z := foldr (fun e z => signed (runs e) (event_need e) + z) 0 es.
Definition load (es : list timed_event) : Z := foldr (fun e z => event_need e + z) 0 es.

Fixpoint resmin_list (es : list timed_event) (st : list schd_res * list schd_res)
  : option (option (list schd_res * list schd_res)) :=
  match es with
  | [] => Some (Some st)
  | e :: es =>
      rr ← te_ptr e;
      match sim_reqs (runs e) (rr_resreq rr) st with None => Some None | Some st => resmin_list es st end
  end.

Lemma event_need_nonneg (e : timed_event) : sound_event e -> 0 <= event_need e.
Proof. intros (rr & Hp & Hs). unfold event_need. rewrite Hp. by apply need_nonneg. Qed.

Lemma load_nonneg (es : list timed_event) : Forall sound_event es -> 0 <= load es.
Proof. induction 1 as [|e es He _ IH]; [done|]. pose proof (event_need_nonneg e He). cbn. fold (load es). lia. Qed.

Lemma resmin_list_tracks (es : list timed_event) : Forall sound_event es ->
  forall st v M, tracks st v M -> Z.abs v + load es < 2 ^ 53 -> Z.abs M + load es < 2 ^ 53 ->
  exists st' M', resmin_list es st = Some (Some st') /\ tracks st' (v + used es) M' /\ M <= M' < 2 ^ 53 /\
    forall j, v + used (take j es) <= M'.
Proof.
  induction 1 as [|e es He Hes IH]; intros st v M T Hv HM.
  { exists st, M. cbn in *. rewrite Z.add_0_r. split_and!; try done; try lia. intros j. rewrite take_nil. cbn. destruct T. lia. }
  pose proof (event_need_nonneg e He) as Hn. pose proof (load_nonneg es Hes) as Hl. destruct He as (rr & Hp & Hs).
  assert (load (e :: es) = event_need e + load es) as E by done. rewrite E in *.
  assert (event_need e = need (rr_resreq rr)) as En by (unfold event_need; by rewrite Hp). rewrite En in *.
  destruct (sim_reqs_tracks (runs e) (rr_resreq rr) Hs st v M (load es) T) as (st1 & M1 & Hrun & T1 & HM1 & HB1); [lia|lia|done|].
  destruct (IH st1 _ _ T1) as (st' & M' & Hl' & T' & HM' & Hj).
  { unfold signed. destruct (runs e); lia. } { lia. }
  assert (forall es, used (e :: es) = signed (runs e) (need (rr_resreq rr)) + used es) as Hu by (intros l; cbn; by rewrite En).
  exists st', M'. cbn [resmin_list]. rewrite Hp. cbn [mbind option_bind]. rewrite Hrun, Hu, Z.add_assoc.
  split_and!; [done|done|lia|lia|]. intros [|j].
  - cbn. destruct T. lia.
  - cbn [take]. rewrite Hu, Z.add_assoc. apply Hj.
Qed.

Fixpoint before (end_ : Z) (es : list timed_event) : list timed_event :=
  match es with
  | [] => []
  | e :: es => if (end_ =? 0) || (te_time e <? end_) then e :: before end_ es else []
  end.

Section Events.
Context (rank : resource_resv -> Z) (end_ : Z) (incl_arr : option (list resource_resv)) (exclude : option resource_resv).

Definition counted_event (e : timed_event) : bool :=
  match te_ptr e with Some rr => counted rank incl_arr exclude rr | None => true end.

(** The events that change what is assigned before [end_] *)
Definition moves (cal : list timed_event) : list timed_event :=
  List.filter counted_event (before end_ (scan true RUN_END cal)).

Lemma resmin_loop_list (fuel : nat) : forall l st, (length l < fuel)%nat ->
  resmin_loop rank fuel (find_init_timed_event l true RUN_END) end_ incl_arr exclude st = resmin_list (moves l) st.
Proof.
  induction fuel as [|fuel IH]; intros l st Hl; [lia|]. unfold moves. cbn [resmin_loop].
  pose proof (find_init_scan l true RUN_END) as Hscan. pose proof (find_init_suffix l true RUN_END) as Hlen.
  destruct (find_init_timed_event l true RUN_END) as [|e r]; rewrite Hscan; [done|]. cbn [before].
  destruct (_ || _); [|done]. cbn [List.filter]. unfold counted_event at 1. destruct (te_ptr e) as [rr|] eqn:Hp.
  - cbn [mbind option_bind]. destruct (counted rank incl_arr exclude rr).
    + cbn [resmin_list]. rewrite Hp. cbn [mbind option_bind]. unfold runs. destruct (sim_reqs _ _ st) as [st1|]; [|done].
      cbn [find_next_timed_event]. apply IH. cbn in Hlen. lia.
    + cbn [find_next_timed_event]. apply IH. cbn in Hlen. lia.
  - cbn [resmin_list]. by rewrite Hp.
Qed.

(** Without a run event before the end, resources are only given back. *)
Lemma run_mask (ty : Z) : Z.land ty RUN_END = 0 -> Z.land ty TIMED_RUN_EVENT = 0.
Proof.
  intros E. apply Z.bits_inj_0. intros n.
  assert (Z.testbit (Z.land ty RUN_END) n = false) as H by by rewrite E, Z.bits_0.
  unfold RUN_END in H. rewrite Z.land_spec, Z.lor_spec in H. rewrite Z.land_spec.
  by destruct (Z.testbit ty n), (Z.testbit TIMED_RUN_EVENT n).
Qed.

Lemma no_run_before (cal : list timed_event) : exists_run_event (Some cal) end_ = false ->
  Forall (fun e => runs e = false) (before end_ (scan true RUN_END cal)).
Proof.
  unfold exists_run_event, scan. change (get_next_event (Some cal)) with cal.
  induction cal as [|e cal IH]; [constructor|]. cbn [find_init_timed_event List.filter].
  unfold wanted at 1. destruct (true && te_disabled e); cbn [negb andb]; [exact IH|].
  destruct (Z.land (te_type e) RUN_END =? 0) eqn:E1; cbn [negb].
  - apply Z.eqb_eq, run_mask in E1. by rewrite E1.
  - cbn [before]. destruct (Z.land (te_type e) TIMED_RUN_EVENT =? 0) eqn:E2.
    + intros Hno. destruct (_ || _); [|constructor]. constructor; [|by apply IH].
      unfold runs. apply Z.eqb_neq. intros Et. by rewrite Et in E2.
    + destruct (negb (end_ =? 0) && (te_time e >? end_)) eqn:E3; [|done]. intros _.
      apply andb_true_iff in E3 as [E3 E4]. apply negb_true_iff in E3. rewrite E3. apply Z.gtb_lt in E4.
      rewrite (proj2 (Z.ltb_ge _ _)) by lia. constructor.
Qed.

Lemma no_run_used (cal : list timed_event) (j : nat) : exists_run_event (Some cal) end_ = false ->
  Forall sound_event (moves cal) -> used (take j (moves cal)) <= 0.
Proof.
  intros Hno Hs. assert (Forall (fun e => runs e = false) (moves cal)) as Hr.
  { pose proof (no_run_before cal Hno) as H. rewrite Forall_forall in *. intros e He. apply H. unfold moves in He.
    rewrite list_elem_of_In in *. by apply filter_In in He as [? _]. }
  revert j. induction Hs as [|e es He _ IH]; intros [|j]; try done.
  apply Forall_cons_1 in Hr as [Hr Hrs]. cbn. rewrite Hr. pose proof (event_need_nonneg e He).
  specialize (IH Hrs j). unfold used in IH. cbn. lia.
Qed.

End Events.
End Tracks.

(** ** The whole simulation *)

Lemma find_dup (l : list schd_res) (d : resdef) (r : schd_res) : find_resource l (Some d) = Some r ->
  find_resource (dup_resource_list l) (Some d) = Some (dup_resource r).
Proof.
  induction l as [|q l IH]; [done|]. cbn [dup_resource_list map]. rewrite !find_resource_cons by done.
  cbn [r_def dup_resource]. destruct (same_def (r_def q) (Some d)); [by intros [= ->]|done].
Qed.

(** The resource of [d] after [simulate_resmin], with [M] the most assigned *)
Definition most (r r' : schd_res) (M : Z) : Prop :=
  r' = r /\ M = zval (assigned r) \/ r' = set_assigned (dbl_of_Z M) (dup_resource r).

(** [simulate_resmin] returns a list in which the amount assigned of a resource
    is at least what is assigned after any number of the events before the end,
    and nothing else of it has changed: each run of a counted job adds its
    requests, each end takes them off. *)
Lemma simulate_resmin_some (rank : resource_resv -> Z) (reslist : list schd_res) (end_ : Z) (cal : list timed_event)
    (incl_arr : option (list resource_resv)) (exclude : option resource_resv) (d : resdef) (r : schd_res) :
  let es := moves rank end_ incl_arr exclude cal in
  find_resource reslist (Some d) = Some r -> whole (assigned r) -> Forall sound_event es ->
  zval (assigned r) + load d es < 2 ^ 53 ->
  exists res' r' M, simulate_resmin rank reslist end_ (Some cal) incl_arr exclude = Some res' /\
    find_resource res' (Some d) = Some r' /\ most r r' M /\ 0 <= M < 2 ^ 53 /\
    forall j, zval (assigned r) + used d (take j es) <= M.
Proof.
  intros es Hf Hw Hes Hb. pose proof (load_nonneg d es Hes) as Hl. pose proof Hw as [Ew Rw].
  unfold simulate_resmin. destruct reslist as [|q reslist]; [done|].
  destruct (exists_run_event (Some cal) end_) eqn:Er; cbn [negb].
  - pose proof (find_dup _ _ _ Hf) as Hd. set (res := dup_resource_list (q :: reslist)) in *.
    assert (tracks d (dup_resource r) (res, res) (zval (assigned r)) (zval (assigned r))) as T.
    { split; [|rewrite <-Ew|done]; cbn [fst snd]; [by exists (dup_resource r)|by rewrite Hd]. }
    destruct (resmin_list_tracks d (dup_resource r) es Hes _ _ _ T) as (st' & M & Hrun & T' & HM & Hj); [lia|lia|].
    rewrite resmin_loop_list by lia. fold es. rewrite Hrun. cbn [mbind option_bind]. destruct st' as [res' resmin'].
    eexists _, _, M. split; [done|]. split; [apply T'|]. split_and!; [by right|lia|lia|done].
  - exists (q :: reslist), r, (zval (assigned r)). split_and!; [done|done|by left|lia|lia|].
    intros j. pose proof (no_run_used d rank end_ incl_arr exclude cal j Er Hes) as Hu. fold es in Hu. lia.
Qed.

End ResourceProps.
