(* ===== verification/RunCheck.v ===== *)
(** * May a job run now? [src/scheduler/check.c]

    Module [RunCheck]: [is_ok_to_run], which asks one check after the other, and
    [resresv_can_fit_nodepart] of [src/scheduler/node_partition.c].  The checks are
    those of [LimitCheck], [TimeCheck] and [Resources]; what comes last, the search of
    nodes, is any function of the error it is to fill in.  A chain of errors is a
    list; a pointer to an error whose [next] is NULL is one error.  [None] is a crash. *)

From Stdlib Require Import ZArith Lia Ascii String.
From S2P Require Import Prelude Doubles ResNum Index Entlim SchedData Counts LimitSet LimitCheck TextFile TimeData PrimeTime DedTime TimeCheck Ranges EventList EventSim Resources.
Import Double ResNum Data Calendar LimitCheck Conf Ded TimeCheck EventSim Resources.

Module RunCheck.

(** ** Constants *)

Definition NOT_QUEUED : Z := RET_BASE + 3.
Definition NO_FREE_NODES : Z := RET_BASE + 68.
Definition NO_TOTAL_NODES : Z := RET_BASE + 77.
Definition ERR_SPECIAL : Z := RET_BASE + 1000.
Definition RESV_UNCONFIRMED : Z := 1.
Definition IGNORE_EQUIV_CLASS : Z := 256.
Definition USE_BUCKETS : Z := 512.
Definition NO_ALLPART : Z := 1024.

(** ** Data *)

(** The fields of [node_partition] that the first check of a job reads *)
Record node_partition := NodePartition { free_nodes : Z; tot_nodes : Z; np_res : list schd_res }.

(** A job or reservation: the requests of its chunks are those of the specification
    [get_resresv_spec] takes. *)
Record candidate := Candidate {
  c_resv : timed_resv; ec_index : Z; c_in_resv : bool; resreq_rel : option (list resource_req);
  total_cpus : Z; total_chunks : Z; scatter : bool; vscatter : bool; chunks : list (list resource_req) }.

Definition c_rr (c : candidate) : resource_resv := tr (c_resv c).

(** The requests of the job, or those that are left of it *)
Definition requests (c : candidate) : list resource_req :=
  match resreq_rel c with
  | Some l => if rr_is_job (c_rr c) then l else rr_resreq (c_rr c)
  | None => rr_resreq (c_rr c)
  end.

(** A class of jobs that are alike: can they not run, and why? *)
Record resresv_set := ResresvSet { can_not_run : bool; set_err : schd_error }.

(** ** Errors *)

Definition clear_schd_error : schd_error := new_schd_error.

(** [set_schd_error_arg] leaves an argument alone when there is none *)
Definition or_old (new old : option cstring) : option cstring :=
  match new with Some _ => new | None => old end.
Definition copy_schd_error (err oerr : schd_error) : schd_error :=
  SchdErr (err_code oerr) (err_status oerr) (or_old (err_arg1 oerr) (err_arg1 err))
    (or_old (err_arg2 oerr) (err_arg2 err)) (or_old (err_arg3 oerr) (err_arg3 err)).

Definition set_status (st : schd_err_status) (err : schd_error) : schd_error :=
  SchdErr (err_code err) st (err_arg1 err) (err_arg2 err) (err_arg3 err).
Definition never (errs : list schd_error) : list schd_error :=
  match errs with [] => [] | e :: es => set_status NEVER_RUN e :: es end.

(** A check passes and leaves the error as it is now, or fails with a chain; [Fatal]
    ends all the checks. *)
Inductive verdict := Pass (err : schd_error) | Fail (errs : list schd_error) | Fatal (errs : list schd_error).
Definition check : Type := schd_error -> option verdict.

Definition head_of (errs : list schd_error) (err : schd_error) : schd_error :=
  match errs with [] => err | e :: _ => e end.

(** A code that is not zero is an error. *)
Definition code_check (rc : option Z) (st : schd_err_status) : check := fun err =>
  rc ← rc;
  Some (if rc =? 0 then Pass err else Fail [set_schd_error_codes err st rc]).

(** A check that fails is asked again with all there is, which tells whether the
    job can ever run. *)
Definition with_total (ask : Z -> schd_error -> option (bool * list schd_error)) (flags : Z) : check := fun err =>
  r ← ask flags err;
  let '(ok, errs) := r in
  if ok : bool then Some (Pass (head_of errs err))
  else
    t ← ask (Z.lor flags COMPARE_TOTAL) new_schd_error;
    let '(ever, toterrs) := t in
    Some (Fail (if ever : bool then errs else never toterrs)).

Section Run.
Context {I : Type} `{Index I cstring}.
Context (limres : list Data.schd_resource) (conf : config) (ignore_res : option (list cstring))
  (resv_conf_ignore : bool) (reason : resource_req -> schd_res -> option double -> cstring)
  (rank : resource_resv -> Z).
(** What is found on nodes: [check_node_buckets] or [check_nodes] *)
Context {N : Type} (find_nodes : bool -> schd_error -> option N * (schd_error * list schd_error)).

(** The policy, with the resources it checks *)
Record run_policy := RunPolicy {
  rp_status : status; resdef_to_check : option (list resdef); resdef_to_check_rassn_select : option (list resdef) }.

Record run_queue := RunQueue {
  rq_queue : queue_info I; q_has_nodes : bool; q_allpart : option node_partition; qres : list schd_res;
  q_jobs : option (list resource_resv) }.

Record run_server := RunServer {
  rs_server : server_info I; rs_res : list schd_res; rs_allpart : option node_partition; has_qrun_job : bool;
  has_nonCPU_licenses : Z; flt_lic : Z; equiv_classes : option (list resresv_set) }.

(** ** What all the nodes have *)

(** A check of [resresv_can_fit_nodepart] that fails: with [RETURN_ALL_ERR] only the
    head of its errors stays in the chain. *)
Definition part_fails (flags : Z) (errs : list schd_error) (err : schd_error) (failed : list schd_error)
  : (list schd_error * schd_error) + list schd_error :=
  if has_flag flags RETURN_ALL_ERR then inl (errs ++ [head_of failed err], new_schd_error) else inr failed.

Fixpoint fit_chunks (np : node_partition) (p : run_policy) (flags : Z) (cs : list (list resource_req))
    (errs : list schd_error) (err : schd_error) : option ((list schd_error * schd_error) + list schd_error) :=
  match cs with
  | [] => Some (inl (errs, err))
  | req :: cs =>
      r ← check_avail_resources ignore_res reason (np_res np) req
            (Z.lor (Z.lor flags UNSET_RES_ZERO) CHECK_ALL_BOOLS) (resdef_to_check p) INSUFFICIENT_RESOURCE (Some err);
      if r.1 =? 0 then
        match part_fails flags errs err r.2 with
        | inl (errs, err) => fit_chunks np p flags cs errs err
        | inr failed => Some (inr failed)
        end
      else fit_chunks np p flags cs errs (head_of r.2 err)
  end.

(** Does it fit, and the errors from [err] on *)
Definition resresv_can_fit_nodepart (p : run_policy) (np : node_partition) (c : candidate) (flags : Z)
    (err : schd_error) : option (bool * list schd_error) :=
  let total := has_flag flags COMPARE_TOTAL in
  let one (st : schd_err_status) (code : Z) (bad : bool) (s : list schd_error * schd_error) :=
    if bad then part_fails flags s.1 s.2 [set_schd_error_codes s.2 st code] else inl s in
  match one NOT_RUN NO_FREE_NODES (negb total && (free_nodes np =? 0)) ([], err) with
  | inr failed => Some (false, failed)
  | inl s =>
      let nodect := if total then tot_nodes np else free_nodes np in
      match one (if total then NEVER_RUN else NOT_RUN) (if total then NO_TOTAL_NODES else NO_FREE_NODES)
              ((scatter c || vscatter c) && (nodect <? total_chunks c)) s with
      | inr failed => Some (false, failed)
      | inl (errs, err) =>
          r ← check_avail_resources ignore_res reason (np_res np) (requests c) (Z.lor flags UNSET_RES_ZERO)
                (resdef_to_check_rassn_select p) INSUFFICIENT_RESOURCE (Some err);
          match (if r.1 =? 0 then part_fails flags errs err r.2 else inl (errs, head_of r.2 err)) with
          | inr failed => Some (false, failed)
          | inl (errs, err) =>
              t ← fit_chunks np p flags (chunks c) errs err;
              Some (match t with
                    | inr failed => (false, failed)
                    | inl ([], err) => (true, [err])
                    | inl (errs, _) => (false, errs)
                    end)
          end
      end
  end.

(** ** The checks *)

Definition runnable (c : candidate) : check := fun err =>
  Some (if negb (in_runnable_state (c_resv c)) && rr_is_job (c_rr c)
        then Fail [set_schd_error_codes err NOT_RUN NOT_QUEUED] else Pass err).
(** A reservation that is not confirmed yet or is altered can be confirmed. *)
Definition confirmable (c : candidate) : check := fun err =>
  if negb (in_runnable_state (c_resv c)) && rr_is_resv (c_rr c) then
    st ← tr_resv_state (c_resv c);
    Some (if negb (st =? RESV_UNCONFIRMED) && negb (st =? EventList.Events.RESV_BEING_ALTERED)
          then Fail [set_schd_error_codes err NOT_RUN NOT_QUEUED] else Pass err)
  else Some (Pass err).

Definition allpart_of (s : run_server) (q : option run_queue) (c : candidate) (flags : Z) : option node_partition :=
  if has_flag flags NO_ALLPART then None
  else if rr_is_job (c_rr c) && c_in_resv c then None
  else match q with
       | Some q => if q_has_nodes q then q_allpart q else rs_allpart s
       | None => rs_allpart s
       end.

Definition limits (s : run_server) (q : run_queue) (c : candidate) (flags : Z) : check := fun err =>
  r ← check_limits limres (Some (rs_server s)) (Some (rq_queue q)) (Some (c_rr c)) err (Z.lor flags CHECK_LIMIT);
  let '(rc, errs) := r in
  Some (if rc =? 0 then Pass (head_of errs err) else if rc =? SCHD_ERROR then Fatal errs else Fail errs).

Definition prime_boundary (p : run_policy) (s : run_server) (q : run_queue) (c : candidate) : check := fun err =>
  let '(rc, err) := check_prime_boundary conf (rp_status p) (rs_server s) (rq_queue q) (c_rr c) err in
  Some (if rc =? 0 then Pass err else Fail [err]).

(** [cstat] is the global status that [is_ded_time] reads. *)
Definition time_checks (cstat : status) (p : run_policy) (s : run_server) (q : run_queue) (c : candidate) : list check :=
  [ prime_boundary p s q c;
    code_check (check_ded_time_queue conf cstat (rs_server s) (rq_queue q)) NOT_RUN;
    code_check (Some (check_prime_queue (rp_status p) (rq_queue q))) NOT_RUN;
    code_check (Some (check_nonprime_queue (rp_status p) (rq_queue q)))
      (if prime_status_end (rp_status p) =? SCHD_INFINITY then NEVER_RUN else NOT_RUN) ].

Definition licenses (s : run_server) (c : candidate) : check := fun err =>
  Some (if (has_nonCPU_licenses s =? 0) && (total_cpus c >? flt_lic s) then
          Fail [set_schd_error_codes err NOT_RUN
                  (if rr_is_job (c_rr c) || rr_is_resv (c_rr c) then ERR_SPECIAL else SCHD_ERROR)]
        else Pass err).

(** The end of the job if it ran now is kept in an [int]. *)
Definition run_end (s : run_server) (rr : resource_resv) : Z :=
  let now := si_server_time (rs_server s) in
  int32 (now + calc_time_left rr (exists_resv_event (si_calendar (rs_server s)) (now + rr_hard_duration rr))).

Definition enough (reslist : option (list schd_res)) (p : run_policy) (c : candidate) (code : Z) (flags : Z) : check :=
  with_total (fun flags err =>
    res ← reslist;
    r ← check_avail_resources ignore_res reason res (requests c) flags (resdef_to_check p) code (Some err);
    Some (negb (r.1 =? 0), r.2)) flags.

Definition queue_resources (p : run_policy) (s : run_server) (q : run_queue) (c : candidate) (flags : Z) : check :=
  enough (if c_in_resv c then Some (qres q)
          else simulate_resmin rank (qres q) (run_end s (c_rr c)) (si_calendar (rs_server s)) (q_jobs q) (Some (c_rr c)))
    p c INSUFFICIENT_QUEUE_RESOURCE flags.

Definition server_resources (p : run_policy) (s : run_server) (c : candidate) (flags : Z) : check :=
  enough (simulate_resmin rank (rs_res s) (run_end s (c_rr c)) (si_calendar (rs_server s)) None (Some (c_rr c)))
    p c INSUFFICIENT_SERVER_RESOURCE flags.

(** The checks of a job with its queue, or of a reservation, in their order *)
Definition checks (cstat : status) (p : run_policy) (s : run_server) (q : option run_queue) (c : candidate)
    (flags : Z) : list check :=
  let rr := c_rr c in
  let job (f : run_queue -> list check) := match q with Some q => if rr_is_job rr then f q else [] | None => [] end in
  [runnable c; confirmable c] ++
  match allpart_of s q c flags with
  | Some np => [with_total (resresv_can_fit_nodepart p np c) flags]
  | None => []
  end ++
  (if has_qrun_job s then [] else job (fun q => limits s q c flags :: time_checks cstat p s q c)) ++
  (if rr_is_job rr || (rr_is_resv rr && negb resv_conf_ignore)
   then [code_check (check_ded_time_boundary conf cstat (rs_server s) rr) NOT_RUN] else []) ++
  [licenses s c] ++
  job (fun q => [queue_resources p s q c flags]) ++
  (if rr_is_resv rr || (rr_is_job rr && negb (c_in_resv c)) then [server_resources p s c flags] else []).

(** The checks in turn, with the errors in the chain; without [RETURN_ALL_ERR] the
    first that fails is the last. *)
Fixpoint run_checks (flags : Z) (cs : list check) (errs : list schd_error) (err : schd_error)
  : option ((list schd_error * schd_error) + list schd_error) :=
  match cs with
  | [] => Some (inl (errs, err))
  | c :: cs =>
      v ← c err;
      match v with
      | Pass err => run_checks flags cs errs err
      | Fatal failed => Some (inr (errs ++ failed))
      | Fail failed =>
          if has_flag flags RETURN_ALL_ERR then run_checks flags cs (errs ++ failed) new_schd_error
          else Some (inr (errs ++ failed))
      end
  end.

(** The nodes the job may run on, and the errors from [perr] on *)
Definition is_ok_to_run (cstat : status) (p : run_policy) (s : run_server) (q : option run_queue) (c : candidate)
    (flags : Z) (perr : schd_error) : option (option N * list schd_error) :=
  let rr := c_rr c in
  let class := match equiv_classes s with
               | Some l =>
                   if rr_is_job rr && negb (has_flag flags (Z.lor IGNORE_EQUIV_CLASS RETURN_ALL_ERR)) &&
                      negb (ec_index c =? UNSPECIFIED)
                   then rd l (ec_index c) ≫= fun e => Some (if can_not_run e then Some (set_err e) else None)
                   else Some None
               | None => Some None
               end in
  class ← class;
  match class with
  | Some e => Some (None, [copy_schd_error perr e])
  | None =>
      if match q with None => rr_is_job rr | Some _ => false end then
        if has_flag flags RETURN_ALL_ERR then None
        else Some (None, [set_schd_error_codes perr NOT_RUN SCHD_ERROR])
      else
        r ← run_checks flags (checks cstat p s q c flags) [] perr;
        Some (match r with
              | inr errs => (None, errs)
              | inl (errs, err) =>
                  let '(ns, (err, rest)) := find_nodes (has_flag flags USE_BUCKETS) err in
                  (ns, match errs with
                       | [] => err :: rest
                       | _ => if err_code err =? SUCCESS then errs else errs ++ err :: rest
                       end)
              end)
  end.

End Run.
End RunCheck.
