(* ===== verification/RunCheckProps.v ===== *)
(** * Jobs that may run

    Module [RunCheckProps]: [is_ok_to_run] answers, its answer is that of the first check
    that fails or of the search of nodes, and a job it accepts finds what it
    asks of the server and of its queue at every moment up to its end. *)

From Stdlib Require Import ZArith Lia Ascii String.
From S2P Require Import Prelude Doubles ResNum Index Entlim SchedData Counts LimitSet LimitCheck LimitPeak TextFile TimeData PrimeTime DedTime TimeCheck Ranges EventList EventSim Resources ResourceProps RunCheck.
Import Double ResNum Data Calendar LimitCheck Conf Ded DedProps TimeCheck EventSim Resources ResourceProps RunCheck.

Module RunCheckProps.

(** ** Checks in turn *)

Definition passed (c : check) : Prop := exists e e', c e = Some (Pass e').
Definition refused (c : check) (failed : list schd_error) : Prop :=
  exists e, c e = Some (Fail failed) \/ c e = Some (Fatal failed).
Definition answers (c : check) : Prop := forall e, exists v, c e = Some v.

(** How checks without [RETURN_ALL_ERR] end: all pass, or the first that fails says why *)
Definition all_pass (cs : list check) : Prop := Forall passed cs.
Definition first_refused (cs : list check) (failed : list schd_error) : Prop :=
  exists pre c post, cs = pre ++ c :: post /\ Forall passed pre /\ refused c failed.

Lemma run_checks_first (flags : Z) (cs : list check) : has_flag flags RETURN_ALL_ERR = false ->
  forall errs err r, run_checks flags cs errs err = Some r ->
  match r with
  | inl (errs', _) => errs' = errs /\ all_pass cs
  | inr errs' => exists failed, errs' = errs ++ failed /\ first_refused cs failed
  end.
Proof.
  intros Hf. induction cs as [|c cs IH]; intros errs err r; cbn [run_checks].
  { intros [= <-]. by split; [|constructor]. }
  destruct (c err) as [v|] eqn:Ec; cbn [mbind option_bind]; [|done]. rewrite Hf. destruct v as [e'|failed|failed].
  - intros Hr. specialize (IH _ _ _ Hr). destruct r as [[errs' ?]|errs'].
    + destruct IH as [-> Hall]. split; [done|]. constructor; [by exists err, e'|done].
    + destruct IH as (failed & -> & pre & c' & post & -> & Hpre & Href). exists failed. split; [done|].
      exists (c :: pre), c', post. split_and!; [done| |done]. constructor; [by exists err, e'|done].
  - intros [= <-]. exists failed. split; [done|]. exists [], c, cs. split_and!; [done|constructor|exists err; by left].
  - intros [= <-]. exists failed. split; [done|]. exists [], c, cs. split_and!; [done|constructor|exists err; by right].
Qed.

(** The errors of all checks that fail, in their order *)
Inductive collects : list check -> list schd_error -> Prop :=
  | collects_none : collects [] []
  | collects_pass c cs errs : passed c -> collects cs errs -> collects (c :: cs) errs
  | collects_fail c cs e failed errs : c e = Some (Fail failed) -> collects cs errs -> collects (c :: cs) (failed ++ errs).

(** A check that ends them all, after the errors of those before it *)
Definition broken_off (cs : list check) (errs : list schd_error) : Prop :=
  exists pre c post e es failed, cs = pre ++ c :: post /\ collects pre es /\ c e = Some (Fatal failed) /\ errs = es ++ failed.

Lemma run_checks_all (flags : Z) (cs : list check) : has_flag flags RETURN_ALL_ERR = true ->
  forall errs err r, run_checks flags cs errs err = Some r ->
  match r with
  | inl (errs', _) => exists es, errs' = errs ++ es /\ collects cs es
  | inr errs' => exists es, errs' = errs ++ es /\ broken_off cs es
  end.
Proof.
  intros Hf. induction cs as [|c cs IH]; intros errs err r; cbn [run_checks].
  { intros [= <-]. exists []. split; [by rewrite app_nil_r|constructor]. }
  destruct (c err) as [v|] eqn:Ec; cbn [mbind option_bind]; [|done]. rewrite Hf. destruct v as [e'|failed|failed].
  - intros Hr. specialize (IH _ _ _ Hr). destruct r as [[errs' ?]|errs']; destruct IH as (es & -> & H); exists es; (split; [done|]).
    + apply collects_pass; [by exists err, e'|done].
    + destruct H as (pre & c' & post & e & es' & failed & -> & H1 & H2 & H3).
      exists (c :: pre), c', post, e, es', failed. split_and!; [done| |done|done]. apply collects_pass; [by exists err, e'|done].
  - intros Hr. specialize (IH _ _ _ Hr). destruct r as [[errs' ?]|errs']; destruct IH as (es & -> & H);
      exists (failed ++ es); (split; [by rewrite app_assoc|]).
    + by eapply collects_fail.
    + destruct H as (pre & c' & post & e & es' & failed' & -> & H1 & H2 & ->).
      exists (c :: pre), c', post, e, (failed ++ es'), failed'. split_and!; [done| |done|by rewrite app_assoc]. by eapply collects_fail.
  - intros [= <-]. exists failed. split; [done|]. exists [], c, cs, err, [], failed. split_and!; [done|constructor|done|done].
Qed.

Lemma run_checks_answer (flags : Z) (cs : list check) : Forall answers cs ->
  forall errs err, exists r, run_checks flags cs errs err = Some r.
Proof.
  induction 1 as [|c cs Hc _ IH]; intros errs err; cbn [run_checks]; [by eexists|].
  destruct (Hc err) as [v ->]. cbn [mbind option_bind]. destruct v; [apply IH| |by eexists].
  destruct (has_flag flags RETURN_ALL_ERR); [apply IH|by eexists].
Qed.

Lemma code_check_passed (rc : option Z) (st : schd_err_status) : passed (code_check rc st) -> rc = Some 0.
Proof.
  intros (e & e' & H). unfold code_check in H. destruct rc as [rc|]; [|done]. cbn [mbind option_bind] in H.
  destruct (Z.eqb_spec rc 0) as [->|]; [done|discriminate].
Qed.

Lemma code_check_answers (rc : Z) (st : schd_err_status) : answers (code_check (Some rc) st).
Proof. intros e. by eexists. Qed.

Lemma with_total_passed (ask : Z -> schd_error -> option (bool * list schd_error)) (flags : Z) :
  passed (with_total ask flags) -> exists e errs, ask flags e = Some (true, errs).
Proof.
  intros (e & e' & H). unfold with_total in H. destruct (ask flags e) as [[[] errs]|] eqn:E; cbn [mbind option_bind] in H.
  - by exists e, errs.
  - destruct (ask _ new_schd_error) as [[]|]; discriminate.
  - done.
Qed.

Lemma with_total_answers (ask : Z -> schd_error -> option (bool * list schd_error)) (flags : Z) :
  (forall f e, exists r, ask f e = Some r) -> answers (with_total ask flags).
Proof.
  intros H e. unfold with_total. destruct (H flags e) as [[ok errs] ->]. cbn [mbind option_bind].
  destruct ok; [by eexists|]. destruct (H (Z.lor flags COMPARE_TOTAL) new_schd_error) as [[ever t] ->]. by eexists.
Qed.

(** ** Resources *)

Section Avail.
Context (ignore_res : option (list cstring)) (reason : resource_req -> schd_res -> option double -> cstring).

(** Every request of a check that does not fail fits. *)
Lemma avail_loop_fits (reslist : list schd_res) (flags : Z) (checklist : option (list resdef)) (code : Z)
    (reqs : list resource_req) : forall n any errs err n' errs' err',
  avail_loop ignore_res reason reslist flags checklist code reqs n any errs err = Some (n', false, errs', err') ->
  any = false /\
  forall q r, q ∈ reqs -> requested flags checklist q = true -> target ignore_res reslist flags q = Some r ->
    exists c, check_resource reason flags q r = Some (Fits c).
Proof.
  induction reqs as [|req reqs IH]; intros n any errs err n' errs' err'; cbn [avail_loop].
  { intros [= _ -> _ _]. split; [done|]. by intros q r ?%elem_of_nil. }
  assert (Hgo : forall n any errs err, avail_loop ignore_res reason reslist flags checklist code reqs n any errs err = Some (n', false, errs', err') ->
    (requested flags checklist req = true -> forall r, target ignore_res reslist flags req = Some r ->
       exists c, check_resource reason flags req r = Some (Fits c)) ->
    any = false /\ forall q r, q ∈ req :: reqs -> requested flags checklist q = true -> target ignore_res reslist flags q = Some r ->
      exists c, check_resource reason flags q r = Some (Fits c)).
  { intros n1 any1 errs1 err1 Hr Hreq. destruct (IH _ _ _ _ _ _ _ Hr) as [-> H]. split; [done|].
    intros q r [->|Hq]%elem_of_cons; [intros H1 H2; by apply Hreq|by apply H]. }
  destruct (requested flags checklist req) eqn:Er; [|intros H; by apply (Hgo _ _ _ _ H)].
  destruct (target ignore_res reslist flags req) as [r|] eqn:Et; [|intros H; by apply (Hgo _ _ _ _ H)].
  destruct (check_resource reason flags req r) as [v|] eqn:Ev; cbn [mbind option_bind]; [|done].
  destruct v as [why|c].
  - destruct (has_flag flags RETURN_ALL_ERR); [|intros H; discriminate].
    destruct (fmap _ err); cbn [mbind option_bind]; [|done]. intros H. destruct (IH _ _ _ _ _ _ _ H) as [? _]. discriminate.
  - intros H. apply (Hgo _ _ _ _ H). intros _ r0 [= <-]. by exists c.
Qed.

Lemma check_avail_fits (reslist : list schd_res) (reqs : list resource_req) (flags : Z) (checklist : option (list resdef))
    (code n : Z) (perr : option schd_error) (errs : list schd_error) :
  check_avail_resources ignore_res reason reslist reqs flags checklist code perr = Some (n, errs) -> n <> 0 ->
  reslist <> [] ->
  forall q r, q ∈ reqs -> requested flags checklist q = true -> target ignore_res reslist flags q = Some r ->
    exists c, check_resource reason flags q r = Some (Fits c).
Proof.
  unfold check_avail_resources. intros H Hn Hl. destruct reslist as [|r0 reslist]; [done|].
  destruct reqs as [|q0 reqs]; [by intros q r ?%elem_of_nil|].
  destruct (avail_loop _ _ _ _ _ _ _ _ _ _ _) as [[[[n' any] errs'] err']|] eqn:E; cbn [mbind option_bind] in H; [|done].
  injection H as H1 H2. destruct any; [done|]. by destruct (avail_loop_fits _ _ _ _ _ _ _ _ _ _ _ _ E) as [_ ?].
Qed.

(** Names are known: nothing is compared with NULL. *)
Definition named (r : schd_res) : Prop :=
  r_name r <> None /\ r_def r <> None /\ forall i, indirect_res r = Some i -> r_name i <> None.
Definition named_req (q : resource_req) : Prop := rq_name q <> None.

Lemma find_resource_in (l : list schd_res) (d : option resdef) (r : schd_res) : find_resource l d = Some r -> r ∈ l.
Proof.
  unfold find_resource. destruct d as [d|]; [|done]. induction l as [|x l IH]; [done|]. cbn [find_resource_loop].
  destruct (same_def _ _); [intros [= ->]; by left|]. destruct (find_resource_loop l _) as [[i x']|]; [|done].
  intros [= ->]. right. by apply IH.
Qed.

Lemma target_named (reslist : list schd_res) (flags : Z) (q : resource_req) (r : schd_res) : Forall named reslist -> named_req q ->
  target ignore_res reslist flags q = Some r -> r_name r <> None.
Proof.
  intros Hl Hq. unfold target. destruct (_ && _); [done|].
  destruct (find_resource reslist (rq_def q)) as [x|] eqn:E.
  - apply find_resource_in in E. rewrite Forall_forall in Hl. destruct (Hl x E) as (H1 & _ & H2).
    intros [= <-]. destruct (indirect_res x) as [i|]; [by apply H2|done].
  - repeat case_match; try done; by intros [= <-].
Qed.

Lemma check_resource_answers (flags : Z) (q : resource_req) (r : schd_res) : r_name r <> None ->
  exists v, check_resource reason flags q r = Some v.
Proof.
  intros Hn. unfold check_resource. destruct (_ && _).
  - assert (exists b, compare_non_consumable (Some r) (Some q) = Some b) as [b ->]; [|by eexists].
    unfold compare_non_consumable. destruct (negb _ || _); [by eexists|]. destruct (is_boolean _); [by eexists|].
    destruct (r_name r); [|done]. destruct (is_string _); by eexists.
  - destruct (_ && _); by eexists.
Qed.

Lemma avail_loop_answers (reslist : list schd_res) (flags : Z) (checklist : option (list resdef)) (code : Z)
    (reqs : list resource_req) : Forall named reslist -> Forall named_req reqs -> forall n any errs err,
  exists r, avail_loop ignore_res reason reslist flags checklist code reqs n any errs (Some err) = Some r.
Proof.
  intros Hl. induction 1 as [|q reqs Hq _ IH]; intros n any errs err; cbn [avail_loop]; [by eexists|].
  destruct (requested flags checklist q); [|apply IH].
  destruct (target ignore_res reslist flags q) as [r|] eqn:Et; [|apply IH].
  destruct (check_resource_answers flags q r) as [v ->]; [by eapply target_named|]. cbn [mbind option_bind].
  destruct v as [why|c]; [|apply IH]. cbn [fmap option_fmap option_map mbind option_bind].
  destruct (has_flag flags RETURN_ALL_ERR); [apply IH|by eexists].
Qed.

Lemma check_avail_answers (reslist : list schd_res) (reqs : list resource_req) (flags : Z) (checklist : option (list resdef))
    (code : Z) (err : schd_error) : Forall named reslist -> Forall named_req reqs ->
  exists r, check_avail_resources ignore_res reason reslist reqs flags checklist code (Some err) = Some r.
Proof.
  intros Hl Hq. unfold check_avail_resources. destruct reslist as [|r0 reslist]; [by eexists|].
  destruct reqs as [|q0 reqs]; [by eexists|].
  destruct (avail_loop_answers _ flags checklist code _ Hl Hq SCHD_INFINITY false [] err) as [[[[n any] errs] err'] ->].
  by eexists.
Qed.

(** A request that is checked against a consumable resource with a number available *)
Lemma fits_amount (flags : Z) (q : resource_req) (r : schd_res) (c : option Z) :
  whole (rq_amount q) -> whole (avail r) -> whole (assigned r) -> r_name r <> None ->
  is_non_consumable (r_type r) = false -> is_consumable (r_type r) = true ->
  has_flag flags ONLY_COMP_NONCONS = false -> has_flag flags COMPARE_TOTAL = false ->
  check_resource reason flags q r = Some (Fits c) -> 0 < zval (rq_amount q) ->
  zval (assigned r) + zval (rq_amount q) <= zval (avail r).
Proof.
  intros Hq Ha Hs Hn Hnc Hc Hf Ht Hck Hpos.
  destruct (check_resource_spec reason flags q r Hq) as (v & Hv & Hfit); [by split; [right|split]|].
  rewrite Hck in Hv. injection Hv as <-.
  assert (serves flags 1 q r = true) as Hserve.
  { destruct c as [n|]; [|apply Hfit]. destruct Hfit as [H1 H2]. rewrite H2. by apply Z.leb_le. }
  unfold serves, units in Hserve. rewrite Hnc, Hc, Hf, Ht, whole_not_inf in Hserve by done. cbn [andb negb] in Hserve.
  apply Z.leb_le in Hserve. lia.
Qed.
End Avail.

(** ** [simulate_resmin] returns *)

Lemma named_set (a : double) (r : schd_res) : named r -> named (set_assigned a r).
Proof. done. Qed.

Lemma find_alloc_named (l l1 : list schd_res) (d : option resdef) (i : nat) : Forall named l ->
  find_alloc_resource l d = Some (l1, i) -> Forall named l1.
Proof.
  intros Hl. unfold find_alloc_resource. destruct d as [d|]; [|done].
  destruct (find_resource_loop l (Some d)) as [[j r]|]; intros [= <- <-]; [done|].
  apply Forall_app. split; [done|]. by repeat constructor.
Qed.

Lemma insert_named (l : list schd_res) (i : nat) (a : double) (r : schd_res) : Forall named l -> l !! i = Some r ->
  Forall named (<[i := set_assigned a r]> l).
Proof.
  intros Hl Hr. apply Forall_insert; [done|]. rewrite Forall_lookup in Hl. exact (named_set a r (Hl i r Hr)).
Qed.

Lemma sim_req_named (run : bool) (q : resource_req) (st st' : list schd_res * list schd_res) :
  sim_req run q st = Some st' -> Forall named st.2 -> Forall named st'.2.
Proof.
  destruct st as [res resmin]. unfold sim_req. intros H Hn. cbn [snd] in Hn.
  destruct (find_alloc_resource res (rq_def q)) as [[l1 i]|]; cbn [mbind option_bind fst snd] in H; [|done].
  destruct (l1 !! i) as [r|]; cbn [mbind option_bind fst snd] in H; [|done].
  destruct (find_alloc_resource resmin (rq_def q)) as [[l2 k]|] eqn:E2; cbn [mbind option_bind fst snd] in H; [|done].
  destruct (l2 !! k) as [m|] eqn:E3; cbn [mbind option_bind fst snd] in H; [|done]. injection H as <-. cbn [snd].
  apply find_alloc_named in E2; [|done]. destruct (dbl_gtb _ _); [by apply insert_named|done].
Qed.

Lemma sim_reqs_named (run : bool) (reqs : list resource_req) : forall st st',
  sim_reqs run reqs st = Some st' -> Forall named st.2 -> Forall named st'.2.
Proof.
  induction reqs as [|q reqs IH]; intros st st'; cbn [sim_reqs]; [by intros [= <-]|].
  destruct (is_consumable _); [|apply IH]. destruct (sim_req run q st) as [st1|] eqn:E; cbn [mbind option_bind]; [|done].
  intros H Hn. eapply IH; [done|]. by eapply sim_req_named.
Qed.

Definition has_job (e : timed_event) : Prop := te_ptr e <> None.

Lemma resmin_list_returns (es : list timed_event) : Forall has_job es -> forall st, Forall named st.2 ->
  exists r, resmin_list es st = Some r /\ forall st', r = Some st' -> Forall named st'.2.
Proof.
  induction 1 as [|e es He _ IH]; intros st Hn; cbn [resmin_list]; [exists (Some st); split; [done|by intros st' [= <-]]|].
  destruct (te_ptr e) as [rr|] eqn:Ep; [|by destruct (He Ep)]. cbn [mbind option_bind].
  destruct (sim_reqs (runs e) (rr_resreq rr) st) as [st1|] eqn:E; [|by exists None].
  apply IH. by eapply sim_reqs_named.
Qed.

Lemma simulate_resmin_returns (rank : resource_resv -> Z) (reslist : list schd_res) (end_ : Z)
    (calendar : option (list timed_event)) (incl : option (list resource_resv)) (exclude : option resource_resv) :
  Forall named reslist -> (forall cal, calendar = Some cal -> Forall has_job (scan true RUN_END cal)) ->
  exists res', simulate_resmin rank reslist end_ calendar incl exclude = Some res' /\ Forall named res'.
Proof.
  intros Hn Hj. unfold simulate_resmin. destruct reslist as [|r reslist]; [by exists []|].
  destruct calendar as [cal|]; [|by eexists]. destruct (negb _); [by eexists|].
  rewrite resmin_loop_list by lia.
  destruct (resmin_list_returns (moves rank end_ incl exclude cal)) with
    (st := (dup_resource_list (r :: reslist), dup_resource_list (r :: reslist))) as (r' & -> & Hr').
  - specialize (Hj cal eq_refl). rewrite Forall_forall in *. intros e He. apply Hj. unfold moves in He.
    rewrite list_elem_of_In in He. apply filter_In in He as [He _]. rewrite <-list_elem_of_In in He.
    clear -He. induction (scan true RUN_END cal) as [|x l IH]; [done|]. cbn [before] in He.
    destruct (_ || _); [|by apply elem_of_nil in He]. apply elem_of_cons in He as [->|He]; [by left|right; by apply IH].
  - cbn [snd]. unfold dup_resource_list. rewrite Forall_map. eapply Forall_impl; [done|].
    intros x (H1 & H2 & H3). unfold named. cbn. by destruct (r_def x).
  - cbn [mbind option_bind]. destruct r' as [[res resmin]|]; eexists; (split; [done|]); [by apply (Hr' (res, resmin))|constructor].
Qed.

(** ** [is_ok_to_run] *)

Section Run.
Context {I : Type} `{Index I cstring}.
Context (limres : list Data.schd_resource) (conf : config) (ignore_res : option (list cstring))
  (resv_conf_ignore : bool) (reason : resource_req -> schd_res -> option double -> cstring)
  (rank : resource_resv -> Z).
Context {N : Type} (find_nodes : bool -> schd_error -> option N * (schd_error * list schd_error)).
Context (cstat : status) (p : run_policy) (s : run_server (I := I)) (q : option (run_queue (I := I))) (c : candidate).

Abbreviation is_ok_to_run := (is_ok_to_run limres conf ignore_res resv_conf_ignore reason rank find_nodes cstat p s q c).
Abbreviation checks := (checks limres conf ignore_res resv_conf_ignore reason rank cstat p s q c).

(** The job is not of a class that is known not to run, and has a queue. *)
Definition examined (flags : Z) : Prop :=
  (equiv_classes s = None \/ has_flag flags (Z.lor IGNORE_EQUIV_CLASS RETURN_ALL_ERR) = true \/ rr_is_job (c_rr c) = false) /\
  (rr_is_job (c_rr c) = true -> q <> None).

Lemma examined_runs (flags : Z) (perr : schd_error) : examined flags ->
  is_ok_to_run flags perr =
    (r ← run_checks flags (checks flags) [] perr;
     Some (match r with
           | inr errs => (None, errs)
           | inl (errs, err) =>
               let '(ns, (err, rest)) := find_nodes (has_flag flags USE_BUCKETS) err in
               (ns, match errs with
                    | [] => err :: rest
                    | _ => if err_code err =? SUCCESS then errs else errs ++ err :: rest
                    end)
           end)).
Proof.
  intros [Hc Hq]. unfold RunCheck.is_ok_to_run.
  assert (match equiv_classes s with
    | Some l => if rr_is_job (c_rr c) && negb (has_flag flags (Z.lor IGNORE_EQUIV_CLASS RETURN_ALL_ERR)) && negb (ec_index c =? UNSPECIFIED)
                then rd l (ec_index c) ≫= fun e => Some (if can_not_run e then Some (set_err e) else None) else Some None
    | None => Some None end = Some None) as ->.
  { destruct (equiv_classes s); [|done]. destruct Hc as [?|[->| ->]]; [done|by rewrite andb_false_r|done]. }
  cbn [mbind option_bind]. destruct q; [done|]. destruct (rr_is_job (c_rr c)); [by destruct Hq|done].
Qed.

Lemma accepted_passed (flags : Z) (perr : schd_error) (ns : N) (errs : list schd_error) :
  has_flag flags RETURN_ALL_ERR = false -> is_ok_to_run flags perr = Some (Some ns, errs) -> all_pass (checks flags).
Proof.
  intros Hf Hrun. unfold RunCheck.is_ok_to_run in Hrun.
  destruct (match equiv_classes s with Some _ => _ | None => _ end) as [[e|]|]; cbn [mbind option_bind] in Hrun; try done.
  destruct (match q with Some _ => false | None => _ end); [by rewrite Hf in Hrun|].
  destruct (run_checks flags (checks flags) [] perr) as [r|] eqn:Er; cbn [mbind option_bind] in Hrun; [|done].
  pose proof (run_checks_first _ _ Hf _ _ _ Er) as Hall. destruct r as [[errs' err']|errs']; [apply Hall|done].
Qed.

(** ** It answers *)

Abbreviation fit_nodepart := (resresv_can_fit_nodepart ignore_res reason).

Lemma fit_chunks_answers (np : RunCheck.node_partition) (flags : Z) (cs : list (list resource_req)) :
  Forall named (np_res np) -> Forall (Forall named_req) cs -> forall errs err,
  exists r, fit_chunks ignore_res reason np p flags cs errs err = Some r.
Proof.
  intros Hn. induction 1 as [|req cs Hr _ IH]; intros errs err; cbn [fit_chunks]; [by eexists|].
  edestruct (check_avail_answers ignore_res reason (np_res np) req) as [r ->]; [done|done|]. cbn [mbind option_bind].
  destruct (r.1 =? 0); [|apply IH]. unfold part_fails. destruct (has_flag flags RETURN_ALL_ERR); [apply IH|by eexists].
Qed.

Lemma fit_nodepart_answers (np : RunCheck.node_partition) (flags : Z) (err : schd_error) :
  Forall named (np_res np) -> Forall named_req (requests c) -> Forall (Forall named_req) (chunks c) ->
  exists r, fit_nodepart p np c flags err = Some r.
Proof.
  intros Hn Hr Hc. unfold resresv_can_fit_nodepart.
  destruct (if negb (has_flag flags COMPARE_TOTAL) && (free_nodes np =? 0) then _ else _) as [s1|failed]; [|by eexists].
  destruct (if _ && _ then _ else _) as [[errs err2]|failed]; [|by eexists].
  edestruct (check_avail_answers ignore_res reason (np_res np) (requests c)) as [r ->]; [done|done|]. cbn [mbind option_bind].
  destruct (if r.1 =? 0 then _ else _) as [[errs1 err1]|failed]; [|by eexists].
  destruct (fit_chunks_answers np flags (chunks c) Hn Hc errs1 err1) as [t ->]. by eexists.
Qed.

(** What the checks rely on: the dedicated times are in order, the limits can be
    read, a reservation has a state, names are known, and the run and end events
    are of jobs. *)
Record ready (flags : Z) : Prop := {
  ready_ded : ded_ok (ded_time conf);
  ready_limits : forall q', q = Some q' -> forall err, exists r,
    check_limits limres (Some (rs_server s)) (Some (rq_queue q')) (Some (c_rr c)) err (Z.lor flags CHECK_LIMIT) = Some r;
  ready_resv : rr_is_resv (c_rr c) = true -> tr_resv_state (c_resv c) <> None;
  ready_server : Forall named (rs_res s);
  ready_queue : forall q', q = Some q' -> Forall named (qres q');
  ready_nodes : forall np, allpart_of s q c flags = Some np -> Forall named (np_res np);
  ready_requests : Forall named_req (requests c);
  ready_chunks : Forall (Forall named_req) (chunks c);
  ready_calendar : forall cal, si_calendar (rs_server s) = Some cal -> Forall has_job (scan true RUN_END cal) }.

Lemma enough_answers (reslist : option (list schd_res)) (code flags : Z) : (exists res, reslist = Some res /\ Forall named res) ->
  Forall named_req (requests c) -> answers (enough ignore_res reason reslist p c code flags).
Proof.
  intros (res & -> & Hn) Hr. apply with_total_answers. intros f e. cbn [mbind option_bind].
  edestruct (check_avail_answers ignore_res reason res (requests c)) as [r ->]; [done|done|]. by eexists.
Qed.

Lemma ded_answers (flags : Z) : ready flags ->
  (forall q', exists rc, check_ded_time_queue conf cstat (rs_server s) q' = Some rc) /\
  exists rc, check_ded_time_boundary conf cstat (rs_server s) (c_rr c) = Some rc.
Proof.
  intros Hr. assert (forall date, exists d, find_next_dedtime conf date = Some d) as Hd.
  { intros date. destruct (find_next_loop_spec (ded_time conf) date (ready_ded _ Hr)) as (d & Hd & _). by exists d. }
  assert (forall date, exists b, is_ded_time conf cstat date = Some b) as Hb.
  { intros date. unfold is_ded_time. destruct (Hd (if date =? 0 then current_time cstat else date)) as [d ->]. by eexists. }
  split.
  - intros q'. unfold check_ded_time_queue. destruct (Hb (si_server_time (rs_server s))) as [b ->]. by eexists.
  - unfold check_ded_time_boundary. destruct (Hd (si_server_time (rs_server s))) as [d ->]. cbn [mbind option_bind].
    destruct (_ && _); [by eexists|]. destruct (Hb (si_server_time (rs_server s))) as [b ->]. cbn [mbind option_bind].
    destruct (negb b); [|by eexists]. unfold dedtime_conflict. destruct (dedtime_span _ _) as [[st en]|]; [|by eexists].
    destruct (Hd st) as [d' ->]. by eexists.
Qed.

Lemma time_checks_answer (flags : Z) (q' : run_queue) : ready flags -> Forall answers (time_checks conf cstat p s q' c).
Proof.
  intros Hr. destruct (ded_answers flags Hr) as [Hq _]. unfold time_checks. repeat constructor.
  - intros e. unfold prime_boundary. destruct (check_prime_boundary _ _ _ _ _ e) as [rc e']. by eexists.
  - destruct (Hq (rq_queue q')) as [rc ->]. apply code_check_answers.
  - apply code_check_answers.
  - apply code_check_answers.
Qed.

Lemma checks_answer (flags : Z) : ready flags -> Forall answers (checks flags).
Proof.
  intros Hr. pose proof Hr as [Hded Hlim Hresv Hsrv Hq Hnp Hreq Hch Hcal]. unfold RunCheck.checks. rewrite !Forall_app. split_and!.
  - repeat constructor; intros e; unfold runnable, confirmable; [by eexists|].
    destruct (_ && rr_is_resv _) eqn:E; [|by eexists]. apply andb_true_iff in E as [_ E]. specialize (Hresv E).
    destruct (tr_resv_state (c_resv c)); [by eexists|done].
  - destruct (allpart_of s q c flags) as [np|] eqn:En; [|constructor]. repeat constructor.
    apply with_total_answers. intros f e. apply fit_nodepart_answers; [by apply Hnp|done|done].
  - destruct (has_qrun_job s); [constructor|]. destruct q as [q'|]; [|constructor]. destruct (rr_is_job _); [|constructor].
    constructor; [|by apply (time_checks_answer flags)]. intros e. unfold limits. destruct (Hlim q' eq_refl e) as [[rc errs] ->].
    by eexists.
  - destruct (_ || _); [|constructor]. repeat constructor. destruct (ded_answers flags Hr) as [_ [rc ->]]. apply code_check_answers.
  - repeat constructor. intros e. by eexists.
  - destruct q as [q'|]; [|constructor]. destruct (rr_is_job _); [|constructor]. repeat constructor. apply enough_answers; [|done].
    destruct (c_in_resv c); [exists (qres q'); split; [done|by apply Hq]|]. apply simulate_resmin_returns; [by apply Hq|done].
  - destruct (_ || _); [|constructor]. repeat constructor. apply enough_answers; [|done].
    by apply simulate_resmin_returns.
Qed.


(** C9. Asked for all errors, [is_ok_to_run] gives those of every check that
    refuses the job, in their order, and then those of the search of nodes, which
    alone are given when every check passes, with the nodes it finds.  When the check
    of the limits itself fails, with [SCHD_ERROR], that ends the checks: the job is
    refused, and the errors are those up to it. *)
Theorem is_ok_to_run_collects (flags : Z) (perr : schd_error) :
  has_flag flags RETURN_ALL_ERR = true -> examined flags -> ready flags ->
  exists ns errs, is_ok_to_run flags perr = Some (ns, errs) /\
    (ns = None /\ broken_off (checks flags) errs \/
     exists es err found e rest, collects (checks flags) es /\
       find_nodes (has_flag flags USE_BUCKETS) err = (found, (e, rest)) /\ (all_pass (checks flags) -> ns = found) /\
       errs = match es with [] => e :: rest | _ => if err_code e =? SUCCESS then es else es ++ e :: rest end).
Proof.
  intros Hf He Hr. rewrite examined_runs by done.
  destruct (run_checks_answer flags _ (checks_answer flags Hr) [] perr) as [r Er]. rewrite Er. cbn [mbind option_bind].
  pose proof (run_checks_all _ _ Hf _ _ _ Er) as Hout. destruct r as [[errs err]|errs].
  - destruct Hout as (es & -> & Hall). cbn [app]. destruct (find_nodes _ err) as [ns [e rest]] eqn:En. do 2 eexists.
    split; [done|right]. by exists es, err, ns, e, rest.
  - destruct Hout as (es & -> & Hbr). eexists None, es. split; [done|by left].
Qed.

(** ** What an accepted job finds *)

(** The resources a job is checked against until its end, with the jobs whose
    events count: those of the server, and those of its queue *)
Definition pool (reslist : list schd_res) (jobs : option (list resource_resv)) : Prop :=
  reslist = rs_res s /\ jobs = None /\ (rr_is_resv (c_rr c) || rr_is_job (c_rr c) && negb (c_in_resv c)) = true \/
  exists q', q = Some q' /\ reslist = qres q' /\ jobs = q_jobs q' /\ rr_is_job (c_rr c) && negb (c_in_resv c) = true.

Lemma pool_checked (flags : Z) (reslist : list schd_res) (jobs : option (list resource_resv)) :
  pool reslist jobs -> all_pass (checks flags) ->
  exists code, passed (enough ignore_res reason
    (simulate_resmin rank reslist (run_end s (c_rr c)) (si_calendar (rs_server s)) jobs (Some (c_rr c))) p c code flags).
Proof.
  intros Hp Hall. unfold all_pass, RunCheck.checks in Hall. rewrite !Forall_app in Hall.
  destruct Hall as (_ & _ & _ & _ & _ & Hqueue & Hserver).
  destruct Hp as [(-> & -> & Hr)|(q' & Hq & -> & -> & Hr)].
  - rewrite Hr in Hserver. exists INSUFFICIENT_SERVER_RESOURCE. by apply Forall_cons_1 in Hserver as [? _].
  - rewrite Hq in Hqueue. apply andb_true_iff in Hr as [Hj Hi]. rewrite Hj in Hqueue.
    apply Forall_cons_1 in Hqueue as [Hqueue _]. exists INSUFFICIENT_QUEUE_RESOURCE.
    unfold queue_resources in Hqueue. apply negb_true_iff in Hi. by rewrite Hi in Hqueue.
Qed.

(** The job asks for a whole amount of the resource [d], which is checked. *)
Record asks (flags : Z) (req : resource_req) (d : resdef) : Prop := {
  asks_in : req ∈ requests c;
  asks_def : rq_def req = Some d;
  asks_checked : requested flags (resdef_to_check p) req = true;
  asks_whole : whole (rq_amount req);
  asks_some : 0 < zval (rq_amount req) }.

(** The list holds a whole amount of [d], as the consumable resource [r]. *)
Record holds (reslist : list schd_res) (d : resdef) (r : schd_res) : Prop := {
  holds_found : find_resource reslist (Some d) = Some r;
  holds_def : r_def r = Some d;
  holds_set : orig_str_avail r <> None;
  holds_direct : indirect_res r = None;
  holds_name : r_name r <> None;
  holds_kind : is_non_consumable (r_type r) = false /\ is_consumable (r_type r) = true;
  holds_avail : whole (avail r);
  holds_assigned : whole (assigned r) }.

(** C2. A job that is accepted finds what it asks for at every moment: after any
    number [j] of the runs and ends that the calendar has before the end of the job,
    what is assigned of a resource of the server, or of its queue, together with
    what the job asks, is no more than there is. *)
Theorem accepted_resources_hold (flags : Z) (perr : schd_error) (ns : N) (errs : list schd_error)
    (cal : list timed_event) (reslist : list schd_res) (jobs : option (list resource_resv))
    (req : resource_req) (d : resdef) (r : schd_res) (j : nat) :
  let es := moves rank (run_end s (c_rr c)) jobs (Some (c_rr c)) cal in
  has_flag flags RETURN_ALL_ERR = false -> has_flag flags COMPARE_TOTAL = false ->
  has_flag flags ONLY_COMP_NONCONS = false ->
  is_ok_to_run flags perr = Some (Some ns, errs) ->
  si_calendar (rs_server s) = Some cal -> Forall sound_event es ->
  pool reslist jobs -> asks flags req d -> holds reslist d r -> zval (assigned r) + load d es < 2 ^ 53 ->
  zval (assigned r) + used d (take j es) + zval (rq_amount req) <= zval (avail r).
Proof.
  intros es Hf Ht Ho Hrun Hcal Hes Hp [Hin Hd Hreq Hw Hpos] [Hfind Hdef Horig Hind Hname [Hnc Hc] Ha Hs] Hload.
  destruct (pool_checked flags _ _ Hp (accepted_passed _ _ _ _ Hf Hrun)) as (code & Hpass).
  rewrite Hcal in Hpass. unfold enough in Hpass. apply with_total_passed in Hpass as (e & failed & Hask).
  destruct (simulate_resmin_some rank reslist (run_end s (c_rr c)) cal jobs (Some (c_rr c)) d r Hfind Hs Hes Hload)
    as (res' & r' & M & Hsim & Hr' & Hmost & HM & Hj).
  rewrite Hsim in Hask. cbn [mbind option_bind] in Hask.
  destruct (check_avail_resources _ _ res' _ _ _ _ _) as [[n failed']|] eqn:Eck; cbn [mbind option_bind fst snd] in Hask; [|done].
  injection Hask as Hn _. apply negb_true_iff, Z.eqb_neq in Hn.
  assert (avail r' = avail r /\ r_type r' = r_type r /\ orig_str_avail r' = orig_str_avail r /\ r_name r' <> None /\
    indirect_res r' = None /\ whole (assigned r') /\ zval (assigned r') = M) as (E1 & E2 & E3 & E4 & E5 & E6 & E7).
  { destruct Hmost as [[-> ->]| ->]; [done|]. cbn. rewrite Hdef. by destruct (whole_of_Z M HM). }
  assert (target ignore_res res' flags req = Some r') as Htarget.
  { unfold target. rewrite Hd, Hr', E3, bool_decide_false by done. cbn [andb fmap option_fmap option_map]. by rewrite E5. }
  destruct (check_avail_fits ignore_res reason _ _ _ _ _ _ _ _ Eck Hn) with (q := req) (r := r') as (k & Hck);
    [by destruct res'|done|done|done|].
  assert (zval (assigned r') + zval (rq_amount req) <= zval (avail r')) as Hfit.
  { eapply (fits_amount reason flags req r'); try done; rewrite ?E1, ?E2; done. }
  rewrite E1, E7 in Hfit. specialize (Hj j). fold es in Hj. lia.
Qed.
End Run.
End RunCheckProps.

(** * A job, its queue and its server

    Module [RunCheckScenes]: a job on a server with eight cpus, on which the theorems on
    [is_ok_to_run] are applied, and what goes wrong. *)

Import Index ListIndex LimitPeak RunCheckProps.

Module RunCheckScenes.

Definition why (req : resource_req) (r : schd_res) (a : option double) : cstring := [].
Definition no_rank (rr : resource_resv) : Z := 0.
(** A search of nodes that finds some, and one that does not *)
Definition some_nodes (buckets : bool) (err : schd_error) : option unit * (schd_error * list schd_error) := (Some tt, (err, [])).

Definition conf1 : config := set_ded_time config0 [gap0].

Definition cpu_def : resdef := ResDef 1 (lit "ncpus") number_type.
Definition cpu_req (n : Z) : resource_req :=
  {| rq_name := Some (lit "ncpus"); rq_type := number_type; rq_amount := dbl_of_Z n; rq_res_str := None; rq_def := Some cpu_def |}.
Definition cpus (n a : Z) : schd_res :=
  Resource (Some (lit "ncpus")) number_type (Some (lit "8")) None (dbl_of_Z n) None (dbl_of_Z a) (Some cpu_def).

(** A job of a minute that asks for cpus, and the run of another one *)
Definition cpu_job (addr n : Z) : resource_resv :=
  ResourceResv addr (lit "1.svr") true false (Some (lit "bob")) (Some (lit "staff")) (Some (lit "p1"))
    60 60 [cpu_req n] (Some 1) 0 UNSPECIFIED UNSPECIFIED UNSPECIFIED.
Definition starts (time : Z) : list timed_event := [TimedEvent false TIMED_RUN_EVENT time (Some (cpu_job 8 1))].

Definition job (n : Z) : candidate :=
  Candidate (TimedResv (cpu_job 7 n) (Some (JobState false [] false true false)) None) UNSPECIFIED false None n 1 false false [].

Definition policy1 : run_policy := RunPolicy status0 None None.
Definition server (limit : Z) (now : Z) (res : list schd_res) : run_server (I := ListIndex.t cstring) :=
  let s := busy_server (dec_nat limit) one_running None in
  RunServer (ServerInfo (si_has_hard_limit s) false (si_liminfo s) 0 (si_counts s) no_counts [] (Some (starts (now + 10))) now [])
    res None false 1 0 None.
Definition queue (res : list schd_res) : run_queue (I := ListIndex.t cstring) := RunQueue plain_queue false None res None.

Definition ask (s : run_server) (q : run_queue) (n flags : Z) :=
  is_ok_to_run [] conf1 None false why no_rank some_nodes status0 policy1 s (Some q) (job n) flags new_schd_error.
Definition codes {A : Type} (r : option (option A * list schd_error)) : option (bool * list Z) :=
  (fun r => (bool_decide (is_Some r.1), map err_code r.2)) <$> r.

(** Two cpus are used and a job that starts at 10 takes one more: five can be asked, six not. *)
Example five_cpus : codes (ask (server 9 0 [cpus 8 2]) (queue [cpus 8 2]) 5 0) = Some (true, [SUCCESS]).
Proof. vm_compute. reflexivity. Qed.
Example six_cpus :
  codes (ask (server 9 0 [cpus 8 2]) (queue [cpus 8 0]) 6 0) = Some (false, [INSUFFICIENT_SERVER_RESOURCE]) /\
  codes (ask (server 1 0 [cpus 8 2]) (queue [cpus 8 0]) 6 0) = Some (false, [SERVER_USER_LIMIT_REACHED]) /\
  codes (ask (server 1 0 [cpus 8 2]) (queue [cpus 8 0]) 6 RETURN_ALL_ERR) =
    Some (true, [SERVER_USER_LIMIT_REACHED; INSUFFICIENT_SERVER_RESOURCE]).
Proof. vm_compute. done. Qed.

Lemma starts_sound (time : Z) : Forall sound_event (starts time).
Proof.
  constructor; [|constructor]. exists (cpu_job 8 1). split; [done|]. constructor; [|constructor]. intros _.
  split; [apply (whole_of_Z 1); lia|by exists cpu_def].
Qed.

(** Five cpus still fit when the other job has started. *)
Lemma accepted_resources_hold_witness :
  2 + used cpu_def (take 1 (starts 10)) + 5 <= 8.
Proof.
  exact (accepted_resources_hold [] conf1 None false why no_rank some_nodes status0 policy1
    (server 9 0 [cpus 8 2]) (Some (queue [cpus 8 2])) (job 5) 0 new_schd_error tt [new_schd_error] (starts 10)
    [cpus 8 2] None (cpu_req 5) cpu_def (cpus 8 2) 1 eq_refl eq_refl eq_refl eq_refl eq_refl
    (starts_sound 10)
    ltac:(left; by repeat split)
    ltac:(split; [by left|done|done|apply (whole_of_Z 5); lia|done])
    ltac:(by split)
    ltac:(done)).
Defined.

Lemma job_ready (limit flags : Z) : limit = 1 \/ limit = 9 -> flags = 0 \/ flags = RETURN_ALL_ERR ->
  ready [] conf1 (server limit 0 [cpus 8 2]) (Some (queue [cpus 8 0])) (job 6) flags.
Proof.
  intros Hl Hf. split.
  - repeat constructor; set_solver.
  - intros q' [= <-] err. destruct Hl as [-> | ->], Hf as [-> | ->]; eexists; vm_compute; reflexivity.
  - done.
  - by repeat constructor.
  - intros q' [= <-]. by repeat constructor.
  - intros np. by destruct Hf as [-> | ->].
  - by repeat constructor.
  - constructor.
  - intros cal [= <-]. by repeat constructor.
Qed.


Lemma is_ok_to_run_collects_witness :
  exists ns errs, ask (server 1 0 [cpus 8 2]) (queue [cpus 8 0]) 6 RETURN_ALL_ERR = Some (ns, errs) /\
    (ns = None /\ broken_off (checks [] conf1 None false why no_rank status0 policy1 (server 1 0 [cpus 8 2])
        (Some (queue [cpus 8 0])) (job 6) RETURN_ALL_ERR) errs \/
     exists es err found e rest, collects (checks [] conf1 None false why no_rank status0 policy1 (server 1 0 [cpus 8 2])
        (Some (queue [cpus 8 0])) (job 6) RETURN_ALL_ERR) es /\ some_nodes false err = (found, (e, rest)) /\
       (all_pass (checks [] conf1 None false why no_rank status0 policy1 (server 1 0 [cpus 8 2])
        (Some (queue [cpus 8 0])) (job 6) RETURN_ALL_ERR) -> ns = found) /\
       errs = match es with [] => e :: rest | _ => if err_code e =? SUCCESS then es else es ++ e :: rest end).
Proof.
  apply (is_ok_to_run_collects [] conf1 None false why no_rank some_nodes status0 policy1 (server 1 0 [cpus 8 2])
    (Some (queue [cpus 8 0])) (job 6) RETURN_ALL_ERR); [done|by split; [left|]|apply job_ready; [by left|by right]].
Defined.

Lemma check_avail_resources_spec_witness :
  exists n errs, check_avail_resources None why [cpus 8 2] [cpu_req 2] 0 None INSUFFICIENT_RESOURCE (Some new_schd_error) = Some (n, errs) /\
    (n = SCHD_INFINITY \/ 0 <= n) /\
    (forall k, 1 <= k -> (n = SCHD_INFINITY \/ k <= n) <->
       forallb (satisfied None [cpus 8 2] 0 None k) [cpu_req 2] = true) /\
    (n <> 0 -> errs = [new_schd_error]) /\
    (n = 0 -> Forall (failed INSUFFICIENT_RESOURCE) errs /\
       (has_flag 0 RETURN_ALL_ERR = true -> length errs = length (unfit None [cpus 8 2] 0 None [cpu_req 2])) /\
       (has_flag 0 RETURN_ALL_ERR = false -> length errs = 1%nat)).
Proof.
  apply (check_avail_resources_spec None why [cpus 8 2] 0 None INSUFFICIENT_RESOURCE [cpu_req 2] (Some new_schd_error));
    [done|done| |done].
  constructor; [|constructor]. split; [apply (whole_of_Z 2); lia|]. split; [done|]. intros r [= <-].
  split; [right; apply (whole_of_Z 8); lia|]. split; [apply (whole_of_Z 2); lia|done].
Defined.

(** Three times two cpus are free of the six. *)
Example three_chunks :
  fst <$> check_avail_resources None why [cpus 8 2] [cpu_req 2] 0 None INSUFFICIENT_RESOURCE None = Some 3.
Proof. vm_compute. reflexivity. Qed.

(** ** What goes wrong *)

(** Asked for all errors, nodes are returned for a job that a limit refuses. *)
Example refused_job_gets_nodes :
  codes (ask (server 1 0 [cpus 8 2]) (queue [cpus 8 0]) 5 RETURN_ALL_ERR) = Some (true, [SERVER_USER_LIMIT_REACHED]).
Proof. vm_compute. reflexivity. Qed.

(** A queue without resources leaves an error in the structure of a job that is
    accepted, and among the reasons of one that is not. *)
Example no_queue_resources :
  codes (ask (server 9 0 [cpus 8 2]) (queue []) 5 0) = Some (true, [SCHD_ERROR]) /\
  codes (ask (server 1 0 [cpus 8 2]) (queue []) 5 RETURN_ALL_ERR) = Some (true, [SERVER_USER_LIMIT_REACHED; SCHD_ERROR]).
Proof. vm_compute. done. Qed.

(** The end of a job after 2038 is negative, and the other job is not seen. *)
Example end_wraps :
  run_end (server 9 (2 ^ 31 - 30) [cpus 8 2]) (cpu_job 7 6) = - 2 ^ 31 + 30 /\
  codes (ask (server 9 (2 ^ 31 - 30) [cpus 8 2]) (queue [cpus 8 0]) 6 0) = Some (true, [SUCCESS]) /\
  codes (ask (server 9 0 [cpus 8 2]) (queue [cpus 8 0]) 6 0) = Some (false, [INSUFFICIENT_SERVER_RESOURCE]).
Proof. vm_compute. done. Qed.

(** Of two resources that are short, [resresv_can_fit_nodepart] reports one. *)
Definition mem_def : resdef := ResDef 2 (lit "mem") number_type.
Definition both : list resource_req :=
  [cpu_req 9; {| rq_name := Some (lit "mem"); rq_type := number_type; rq_amount := dbl_of_Z 9; rq_res_str := None; rq_def := Some mem_def |}].
Definition mem (n : Z) : schd_res :=
  Resource (Some (lit "mem")) number_type (Some (lit "8")) None (dbl_of_Z n) None (dbl_of_Z 0) (Some mem_def).
Definition wants_both : candidate :=
  Candidate (c_resv (job 9)) UNSPECIFIED false (Some both) 9 1 false false [].
Example nodes_lose_an_error :
  length ∘ snd <$> check_avail_resources None why [cpus 8 0; mem 8] both RETURN_ALL_ERR None INSUFFICIENT_RESOURCE (Some new_schd_error) = Some 2%nat /\
  length ∘ snd <$> resresv_can_fit_nodepart None why policy1 (NodePartition 1 1 [cpus 8 0; mem 8]) wants_both RETURN_ALL_ERR new_schd_error = Some 1%nat.
Proof. vm_compute. done. Qed.

(** A partition without resources fits every job. *)
Example no_resources_fit :
  fst <$> resresv_can_fit_nodepart None why policy1 (NodePartition 1 1 []) wants_both 0 new_schd_error = Some true.
Proof. vm_compute. reflexivity. Qed.
End RunCheckScenes.
