(* ===== verification/EventCalc.v ===== *)
(** * When will a job run? [src/scheduler/simulate.c]

    Module [Calc]: [calc_run_time] simulates one event after the other until the job
    can be run, [policy_change_info] tells whether a change of policy can be what
    it waits for, and a node has a list of the events that are on it.  What
    [is_ok_to_run] answers is any function of the universe.  Module [CalcProps]:
    the time is the first at which the job can be run. *)

From Stdlib Require Import ZArith Lia Ascii String.
From stdpp Require Import gmap sorting.
From S2P Require Import Prelude Ranges SchedData TimeData PrimeTime PrimeProps DedTime EventList EventSim EventHeap EventCal EventNext EventRun EventMake EventProps TimeScenes EventScenes RunCheck.
Import Range Data Conf Prime PrimeProps Ded Events EventSim EventHeap EventCal EventNext EventRun EventMake EventProps RunCheck.

Module Calc.

Definition SIM_RUN_JOB : Z := 2.
Definition RESV_RUNNING : Z := 5.

(** ** Jobs, queues and the server *)

(** What kind of queue it is, and whether it has jobs ([jobs != NULL]) *)
Record queue_kind := QueueKind {
  qk_is_ded_queue : bool; qk_is_prime_queue : bool; qk_is_nonprime_queue : bool; qk_jobs : bool }.

Record server_queues := ServerQueues {
  sq_queues : option (list queue_kind);
  sq_has_ded_queue : bool; sq_has_prime_queue : bool; sq_has_nonprime_queue : bool }.

(** A job with its queue, or a reservation, and which of its pointers are not NULL *)
Record sim_resv := SimResv {
  sv : timed_resv; job_queue : queue_kind; job_is_running : bool; est_start_time : Z;
  has_server : bool; has_select : bool; has_place_spec : bool; has_nspec_arr : bool; has_ninfo_arr : bool }.

Definition is_some {A : Type} (o : option A) : bool := match o with Some _ => true | None => false end.

Definition is_resresv_running (r : sim_resv) : bool :=
  let rr := tr (sv r) in
  if rr_is_job rr && negb (is_some (tr_job (sv r))) then false
  else if rr_is_job rr && job_is_running r then true
  else if rr_is_resv rr then bool_decide (tr_resv_state (sv r) = Some RESV_RUNNING)
  else false.

(** A name is never NULL here. *)
Definition is_resource_resv_valid (r : option sim_resv) : bool :=
  match r with
  | None => false
  | Some r =>
      let rr := tr (sv r) in
      has_server r && (negb (rr_is_job rr) || is_some (tr_job (sv r))) &&
      (negb (rr_is_resv rr) || is_some (tr_resv_state (sv r))) &&
      is_some (rr_user rr) && is_some (rr_group rr) && has_select r && has_place_spec r &&
      (rr_is_job rr || rr_is_resv rr) &&
      (negb (is_resresv_running r) || (has_nspec_arr r && has_ninfo_arr r)) &&
      (negb (has_ninfo_arr r) || has_nspec_arr r) && (negb (has_nspec_arr r) || has_ninfo_arr r)
  end.

Definition find_resource_resv (resresv_arr : list sim_resv) (name : cstring) : option sim_resv :=
  List.find (fun r => streq (rr_name (tr (sv r))) name) resresv_arr.

(** ** Does a change of policy matter? *)

Definition policy_change_info (conf : config) (policy : status) (sinfo : server_queues)
    (resresv : option sim_resv) : Z :=
  if negb (Bool.eqb (backfill (prime_settings conf)) (backfill (non_prime_settings conf))) then 1
  else if negb (prime_exempt_anytime_queues conf) &&
          (backfill_prime (prime_settings conf) || backfill_prime (non_prime_settings conf)) then 1
  else
    let open_now (q : queue_kind) :=
      (is_ded_time_bit policy && qk_is_ded_queue q) ||
      (is_prime policy && qk_is_prime_queue q) ||
      (negb (is_prime policy) && qk_is_nonprime_queue q) in
    match resresv with
    | Some r =>
        if rr_is_job (tr (sv r)) && is_some (tr_job (sv r)) && open_now (job_queue r) then 1 else 0
    | None =>
        match sq_queues sinfo with
        | None => 0
        | Some qs =>
            let some_queue (p : queue_kind -> bool) := existsb (fun q => p q && qk_jobs q) qs in
            if is_ded_time_bit policy && sq_has_ded_queue sinfo && some_queue qk_is_ded_queue then 1
            else if is_prime policy && sq_has_prime_queue sinfo && some_queue qk_is_prime_queue then 1
            else if negb (is_prime policy) && sq_has_nonprime_queue sinfo && some_queue qk_is_nonprime_queue then 1
            else 0
        end
    end.

(** ** The run time *)

Section Calc.
Context {C : Clock} (conf : config) (run_ok : list action -> resource_resv -> bool).
(** What [is_ok_to_run] finds with the flags, for the job, in the universe *)
Context {N : Type} (is_ok_to_run : Z -> sim_resv -> sim -> option N).

(** After events of the types [r] were simulated, is it worth asking? *)
Definition worth (sinfo : server_queues) (resresv : sim_resv) (r : Z) (policy : status) : bool :=
  let desc := describe_simret r in
  (desc >? 0) || ((desc =? 0) && negb (policy_change_info conf policy sinfo (Some resresv) =? 0)).

(** The loop until the job can be run, or there is no event left *)
Fixpoint calc_loop (fuel : nat) (sinfo : server_queues) (fuzzy_time ok_flags : Z) (resresv : sim_resv)
    (r event_time : Z) : M sim (option N * Z * Z) :=
  match fuel with
  | O => crash
  | S fuel =>
      let* s := get in
      match (if worth sinfo resresv r (sim_policy s) then is_ok_to_run ok_flags resresv s else None) with
      | Some ns => ret (Some ns, r, event_time)
      | None =>
          let* x := simulate_events conf run_ok fuel (SIM_NEXT_EVENT fuzzy_time) in
          let event_time := default event_time x.2 in
          if Z.land x.1 (Z.lor TIMED_NOEVENT TIMED_ERROR) =? 0
          then calc_loop fuel sinfo fuzzy_time ok_flags resresv x.1 event_time
          else ret (None, x.1, event_time)
      end
  end.

(** The job with its start and end *)
Definition set_span (event_time : Z) (r : sim_resv) : sim_resv :=
  let rr := tr (sv r) in
  let rr' := ResourceResv (rr_addr rr) (rr_name rr) (rr_is_job rr) (rr_is_resv rr) (rr_user rr) (rr_group rr)
    (rr_project rr) (rr_duration rr) (rr_hard_duration rr) (rr_resreq rr) (rr_queue rr) (rr_used_walltime rr)
    event_time (event_time + rr_duration rr) (rr_min_duration rr) in
  SimResv (TimedResv rr' (tr_job (sv r)) (tr_resv_state (sv r))) (job_queue r) (job_is_running r)
    (if rr_is_job rr then event_time else est_start_time r) (has_server r) (has_select r) (has_place_spec r)
    (has_nspec_arr r) (has_ninfo_arr r).

(** The events at the start and the end of the job, unless one cannot be made *)
Definition add_span (rr : resource_resv) : M sim bool :=
  let* te_start := create_event TIMED_RUN_EVENT (rr_start rr) (Some (PResv rr)) None None in
  if te_start =? NULL then ret false
  else
    let* te_end := create_event TIMED_END_EVENT (rr_end rr) (Some (PResv rr)) None None in
    if te_end =? NULL then let* _ := free te_start in ret false
    else
      let* _ := add_event te_start in
      let* _ := add_event te_end in
      ret true.

Definition ok_flags_of (flags : Z) (r : sim_resv) : Z :=
  Z.lor (Z.lor NO_ALLPART (if negb (Z.land flags USE_BUCKETS =? 0) then USE_BUCKETS else 0))
    (if rr_is_job (tr (sv r)) then IGNORE_EQUIV_CLASS else 0).

(** The time, and the job after it when it can be run *)
Definition calc_run_time (fuel : nat) (sinfo : server_queues) (fuzzy_time : Z) (all_resresv : list sim_resv)
    (name : cstring) (flags : Z) : M sim (Z * option sim_resv) :=
  let* s := get in
  match find_resource_resv all_resresv name with
  | None => ret (-1, None)
  | Some resresv =>
      if negb (is_resource_resv_valid (Some resresv)) then ret (-1, None)
      else
        let* x := calc_loop fuel sinfo fuzzy_time (ok_flags_of flags resresv) resresv TIMED_END_EVENT (server_time s) in
        let '(ns, r, event_time) := x in
        if negb (Z.land r TIMED_ERROR =? 0) then ret (-1, None)
        else match ns with
             | None => ret (0, None)
             | Some _ =>
                 let resresv := set_span event_time resresv in
                 let rr := tr (sv resresv) in
                 let* added := add_span rr in
                 if negb added then ret (-1, Some resresv)
                 else
                   let* s := get in
                   let* _ := if negb (Z.land flags SIM_RUN_JOB =? 0) && run_ok (actions s) rr
                             then modify (add_action (Ran rr)) else ret tt in
                   ret (event_time, Some resresv)
             end
  end.

End Calc.

(** ** Lists of events of a node

    A [te_list] is the list of the events it points at. *)

Definition dup_te_list (ote new_timed_event_list : Z) : M sim Z :=
  let* x := load ote in
  find_timed_event new_timed_event_list (Some (ev_name x)) (ev_type x) (ev_time x).

Fixpoint dup_te_lists_loop (ote : list Z) (new_timed_event_list : Z) : M sim (list Z) :=
  match ote with
  | [] => ret []
  | e :: ote =>
      let* n := dup_te_list e new_timed_event_list in
      let* l := dup_te_lists_loop ote new_timed_event_list in
      ret (n :: l)
  end.
Definition dup_te_lists (ote : list Z) (new_timed_event_list : Z) : M sim (list Z) :=
  if new_timed_event_list =? NULL then ret [] else dup_te_lists_loop ote new_timed_event_list.

(** The list and whether it worked; only an event that is not NULL is added. *)
Fixpoint add_te_loop (tel : list Z) (te tm : Z) : M sim (list Z) :=
  match tel with
  | [] => ret [te]
  | e :: tel' =>
      let* x := load e in
      if ev_time x <? tm then let* l := add_te_loop tel' te tm in ret (e :: l)
      else ret (te :: tel)
  end.
Definition add_te_list (tel : list Z) (te : Z) : M sim (list Z * Z) :=
  if te =? NULL then ret (tel, 0)
  else
    match tel with
    | [] => ret ([te], 1)
    | _ => let* x := load te in let* l := add_te_loop tel te (ev_time x) in ret (l, 1)
    end.

Fixpoint remove_te_loop (tel : list Z) (e : Z) : list Z * Z :=
  match tel with
  | [] => ([], 0)
  | c :: tel => if c =? e then (tel, 1) else let '(l, rc) := remove_te_loop tel e in (c :: l, rc)
  end.
Definition remove_te_list (tel : list Z) (e : Z) : list Z * Z :=
  if e =? NULL then (tel, 0) else remove_te_loop tel e.

End Calc.

Module CalcProps.
Import Calc.

Implicit Types (s : sim) (n k : entry) (e : event) (past ahead : list entry).

(** ** One event after the other *)

Section Trace.
Context {C : Clock} (conf : config) (run_ok : list action -> resource_resv -> bool).
(** The simulation begins at [start]; the last event is at [H], and a status of prime
    time lasts [W] at most. *)
Context (start H W Hmax : Z).
Hypothesis HW : 0 <= W.
Hypothesis Hm : H + 2 * W <= Hmax.
Hypothesis Hends : forall d, start <= d <= Hmax ->
  exists x : Z, end_prime_status conf d = Some x /\ (x = SCHD_INFINITY \/ d < x <= d + W).

Definition any_good (t : Z) (p : status) : Prop := True.
Abbreviation rests := (loop_ok start any_good).
Abbreviation goes := (can_step conf run_ok start Hmax any_good).

(** The events that are left end by [H], and the last of the policy soon after. *)
Definition in_time s ahead : Prop :=
  (forall e, e ∈ proper (todo ahead) -> ev_time e <= H) /\
  (ahead = [] \/ prime_status_end (sim_policy s) = SCHD_INFINITY \/ prime_status_end (sim_policy s) <= H + W \/
   eol (calendar s) = true /\ prime_status_end (sim_policy s) <= H + 2 * W).

Lemma progress (d : Z) : start <= d <= Hmax ->
  exists x : Z, end_prime_status conf d = Some x /\ (x = SCHD_INFINITY \/ d < x).
Proof. intros Hd. destruct (Hends d Hd) as (x & Hx & ?). exists x. split; [done|lia]. Qed.

(** After the event of the policy there is another one only before [H], or as the last. *)
Lemma only_policy s past n ahead : rests s past (n :: ahead) -> ev_type n.2 = TIMED_POLICY_EVENT ->
  proper (todo (n :: ahead)) = [] -> todo ahead = [].
Proof.
  intros L Hty Hp. rewrite (todo_step n ahead (loop_enabled _ _ _ _ _ L)) in Hp.
  pose proof (cal_policy _ _ _ (loop_cal _ _ _ _ _ L)) as Hpol.
  rewrite (todo_step n ahead (loop_enabled _ _ _ _ _ L)) in Hpol.
  destruct (todo ahead) as [|e es]; [done|exfalso]. unfold proper, of_policy in *.
  rewrite !filter_cons in Hp. rewrite !filter_cons in Hpol.
  repeat case_decide; naive_solver.
Qed.

Lemma policy_time s past n ahead : rests s past (n :: ahead) -> ev_type n.2 = TIMED_POLICY_EVENT ->
  ev_time n.2 = prime_status_end (sim_policy s) /\ prime_status_end (sim_policy s) <> SCHD_INFINITY.
Proof.
  intros L Hty. destruct (policy_ahead _ _ _ _ (loop_cal _ _ _ _ _ L) (todo_hd n ahead (loop_enabled _ _ _ _ _ L)) Hty)
    as [Hn Hi]. by rewrite Hn.
Qed.

Lemma hd_in_time s past n ahead : rests s past (n :: ahead) -> in_time s (n :: ahead) -> ev_time n.2 <= H + 2 * W.
Proof.
  intros L [Hp Hb]. pose proof (loop_enabled _ _ _ _ _ L) as He.
  destruct (decide (ev_type n.2 = TIMED_POLICY_EVENT)) as [Hty|Hty].
  - destruct (policy_time _ _ _ _ L Hty) as [-> Hi]. destruct Hb as [?|[?|[?|[_ ?]]]]; try done; lia.
  - enough (ev_time n.2 <= H) by lia. apply Hp, elem_proper. split; [done|]. by apply todo_hd.
Qed.

Lemma proper_tail s past n ahead e : rests s past (n :: ahead) -> e ∈ proper (todo ahead) -> e ∈ proper (todo (n :: ahead)).
Proof.
  intros L. rewrite (todo_step n ahead (loop_enabled _ _ _ _ _ L)). rewrite !elem_proper, elem_of_cons. naive_solver.
Qed.

Lemma stays_in_time s past n ahead s' past' ahead' : rests s past (n :: ahead) -> in_time s (n :: ahead) ->
  goes s n ahead s' past' ahead' -> in_time s' ahead'.
Proof.
  intros L [Hp Hb] (L' & _ & Hpr & Hlast & Hst & _). pose proof (loop_enabled _ _ _ _ _ L) as He. split.
  { intros e. rewrite Hpr. intros Hin. apply Hp. by eapply proper_tail. }
  case_decide as Hty; cycle 1.
  - rewrite Hst. destruct Hb as [?|[?|[?|[Heol Hle]]]]; [done|by right; left|by do 2 right; left|].
    exfalso. pose proof (cal_eol _ _ _ (loop_cal _ _ _ _ _ L) Heol) as Hno.
    assert (n.2 ∈ proper (todo (n :: ahead))) as Hin by (apply elem_proper; split; [done|by apply todo_hd]).
    rewrite Hno in Hin. by apply elem_of_nil in Hin.
  - destruct (policy_time _ _ _ _ L Hty) as [Ht Hi]. rewrite Ht in Hst.
    assert (start <= prime_status_end (sim_policy s) <= Hmax) as Hr.
    { pose proof (hd_in_time _ _ _ _ L (conj Hp Hb)). pose proof (loop_start _ _ _ _ _ L).
      destruct (cal_status_end _ _ _ (loop_cal _ _ _ _ _ L)); [done|]. lia. }
    destruct (Hends _ Hr) as (x & Hx & Hxb). rewrite Hst in Hx. injection Hx as <-.
    destruct Hxb as [Hinf|Hxb]; [by right; left|].
    destruct (Z.le_gt_cases (prime_status_end (sim_policy s)) H) as [Hle|Hgt]; [do 2 right; left; lia|].
    assert (proper (todo (n :: ahead)) = []) as Hno.
    { destruct (proper (todo (n :: ahead))) as [|e es] eqn:E; [done|exfalso].
      assert (e ∈ proper (todo (n :: ahead))) as Hin by (rewrite E; by left).
      pose proof (Hp e (list_elem_of_here _ _)) as Hle. apply elem_proper in Hin as [_ Hin].
      pose proof (cal_order _ _ _ (loop_cal _ _ _ _ _ L)) as Ho. apply in_order_app in Ho as (_ & Ho & _).
      pose proof (order_todo n ahead e Ho Hin). lia. }
    pose proof (only_policy _ _ _ _ L Hty Hno) as Hnil.
    destruct (Hlast Hnil) as [->|[Hf Ht']]; [by left|]. do 3 right. split; [done|].
    destruct Hb as [?|[?|[?|[Heol _]]]]; [done|done|lia|congruence].
Qed.

(** The next event is performed, or is a job that cannot be run. *)
Lemma tick s past n ahead : rests s past (n :: ahead) -> in_time s (n :: ahead) ->
  (exists s' past' ahead', goes s n ahead s' past' ahead' /\ in_time s' ahead') \/
  (forall stop fuel r t0, ev_time n.2 <= stop -> simulate_loop conf run_ok (S fuel) n.1 stop r t0 s =
     Some ((TIMED_ERROR, ev_time n.2), set_time (ev_time n.2) s)).
Proof.
  intros L Hin. pose proof (hd_in_time _ _ _ _ L Hin) as Ht.
  destruct (decide (ev_type n.2 = TIMED_POLICY_EVENT)) as [Hty|Hty].
  - left. destruct (step_policy conf run_ok start Hmax progress any_good) with s past n ahead
      as (s' & past' & ahead' & Hcan & _); try done; [lia|].
    exists s', past', ahead'. split; [done|]. by eapply stays_in_time.
  - pose proof (step_proper conf run_ok start Hmax any_good) as Hstep.
    specialize (Hstep ltac:(done) ltac:(done) s past n ahead L Hty).
    destruct (effect run_ok (actions s) n.2); [left|by right].
    destruct Hstep as (s' & past' & ahead' & Hcan & _). exists s', past', ahead'. split; [done|].
    by eapply stays_in_time.
Qed.

(** From one state the loop comes to another, however far it is to go beyond [stop]. *)
Definition leads (stop : Z) s ahead s' ahead' : Prop :=
  exists k : nat, forall lim fuel r t0, stop <= lim -> exists r' t',
    simulate_loop conf run_ok (k + fuel) (hd_addr ahead) lim r t0 s =
    simulate_loop conf run_ok fuel (hd_addr ahead') lim r' t' s'.

Lemma leads_here (stop : Z) s ahead : leads stop s ahead s ahead.
Proof. exists 0%nat. intros lim fuel r t0 _. by exists r, t0. Qed.

Lemma leads_trans (stop stop' : Z) s ahead s1 ahead1 s2 ahead2 : stop <= stop' ->
  leads stop s ahead s1 ahead1 -> leads stop' s1 ahead1 s2 ahead2 -> leads stop' s ahead s2 ahead2.
Proof.
  intros Hle [k Hk] [k' Hk']. exists (k + k')%nat. intros lim fuel r t0 Hl.
  destruct (Hk lim (k' + fuel)%nat r t0) as (r1 & t1 & H1); [lia|].
  destruct (Hk' lim fuel r1 t1 Hl) as (r2 & t2 & H2). exists r2, t2. by rewrite <-Nat.add_assoc, H1.
Qed.

Lemma leads_tick s n ahead s' past' ahead' : goes s n ahead s' past' ahead' -> leads (ev_time n.2) s (n :: ahead) s' ahead'.
Proof.
  intros (_ & _ & _ & _ & _ & _ & Hrun). exists 1%nat. intros lim fuel r t0 Hl.
  exists (Z.lor r (ev_type n.2)), (ev_time n.2). destruct n as [b e]. by apply Hrun.
Qed.

(** What the loop leaves when it performed an event: a state at rest at the time [u] of
    the last event, the one in which it stops at that time, and less to be done *)
Record left_by (fuel : nat) (r t0 : Z) s ahead (r' u : Z) s' past' ahead' : Prop := {
  lft_rests : rests s' past' ahead';
  lft_in_time : in_time s' ahead';
  lft_time : server_time s' = u;
  lft_steps : (steps Hmax s' ahead' < steps Hmax s ahead)%nat;
  lft_leads : leads u s ahead s' ahead';
  lft_same : simulate_loop conf run_ok fuel (hd_addr ahead) u r t0 s = Some ((r', u), s') }.

Lemma loop_stops (stop : Z) (fuel : nat) s past ahead (r t0 : Z) : rests s past ahead -> hd_later stop ahead ->
  simulate_loop conf run_ok (S fuel) (hd_addr ahead) stop r t0 s = Some ((r, t0), s).
Proof.
  intros L Ht. destruct ahead as [|n ahead]; [done|].
  destruct (step_entry start any_good s past n ahead L) as (Hb & (x & Hx & Hpx) & _ & _).
  assert (hd_addr (n :: ahead) = n.1) as -> by by destruct n. cbn [simulate_loop hd_later] in *.
  rewrite cell_not_null by done. mstep (load_cell n.1 x s Hx).
  change (ev_time x) with (ev_time (plain x)). rewrite Hpx. by rewrite (proj2 (Z.leb_gt _ _)) by lia.
Qed.

Lemma trace (stop : Z) (fuel : nat) : forall s past n ahead (r t0 : Z), rests s past (n :: ahead) ->
  in_time s (n :: ahead) -> ev_time n.2 <= stop -> (steps Hmax s (n :: ahead) < fuel)%nat ->
  exists r' u s', simulate_loop conf run_ok fuel n.1 stop r t0 s = Some ((r', u), s') /\
    (r' = TIMED_ERROR \/ ev_time n.2 <= u <= stop /\ u <= H + 2 * W /\
       exists past' ahead', left_by fuel r t0 s (n :: ahead) r' u s' past' ahead').
Proof.
  induction fuel as [|fuel IH]; intros s past n ahead r t0 L Hin Ht Hf; [lia|].
  assert (hd_addr (n :: ahead) = n.1) as Hhd by by destruct n.
  destruct (tick s past n ahead L Hin) as [(s1 & past1 & ahead1 & Hgo & Hin1)|Herr]; cycle 1.
  { eexists _, _, _. split; [by apply Herr|by left]. }
  pose proof Hgo as (L1 & Ht1 & _ & _ & _ & Hst & Hrun).
  set (r1 := Z.lor r (ev_type n.2)) in *. rewrite (Hrun stop fuel r t0 Ht).
  assert (hd_later stop ahead1 \/ exists k ahead2, ahead1 = k :: ahead2 /\ ev_time k.2 <= stop) as [Hl|(k & ahead2 & Ea & Hk)].
  { destruct ahead1 as [|k ahead2]; [by left|]. destruct (Z.le_gt_cases (ev_time k.2) stop); [right; eauto|left; cbn; lia]. }
  - exists r1, (ev_time n.2), s1. assert (fuel = S (pred fuel)) as -> by lia. split; [by eapply loop_stops|].
    right. pose proof (hd_in_time _ _ _ _ L Hin). split; [lia|]. split; [done|]. exists past1, ahead1. split; try done; [by eapply leads_tick|].
    rewrite Hhd, Hrun by lia. eapply loop_stops; [done|]. destruct ahead1; [done|]. cbn in *. lia.
  - subst ahead1. destruct (IH s1 past1 k ahead2 r1 (ev_time n.2) L1 Hin1 Hk) as (r' & u & s' & Hloop & Hres); [lia|].
    exists r', u, s'. assert (hd_addr (k :: ahead2) = k.1) as Hhk by by destruct k. rewrite Hhk. split; [done|].
    destruct Hres as [?|(Hu & Hu2 & past' & ahead' & [G1 G2 G3 G4 G5 G6])]; [by left|].
    pose proof (step_entry start any_good s1 past1 k ahead2 L1) as (_ & _ & _ & Hnow). right. split; [lia|].
    split; [done|]. exists past', ahead'. split; try done; [lia| |].
    + eapply leads_trans; [|by eapply leads_tick|done]. lia.
    + rewrite Hhd, Hrun by lia. exact G6.
Qed.

End Trace.

(** ** Events and their effects in order *)

Definition frees e : Prop :=
  ev_type e = TIMED_END_EVENT \/ ev_type e = TIMED_DED_END_EVENT \/ ev_type e = TIMED_NODE_UP_EVENT.

Lemma describe_frees (es : list event) e : e ∈ es -> frees e -> describe_simret (types es) = 1.
Proof.
  intros Hin Hf. unfold describe_simret.
  enough (Z.land (types es) (Z.lor (Z.lor TIMED_END_EVENT TIMED_DED_END_EVENT) TIMED_NODE_UP_EVENT) <> 0) as Hne
    by by rewrite (proj2 (Z.eqb_neq _ _) Hne).
  induction es as [|x es IH]; [by apply elem_of_nil in Hin|]. cbn [types foldr].
  rewrite Z.land_lor_distr_l. rewrite Z.lor_eq_0_iff. intros [H1 H2]. apply elem_of_cons in Hin as [->|Hin].
  - destruct Hf as [E|[E|E]]; rewrite E in H1; vm_compute in H1; done.
  - by apply IH.
Qed.

(** A result that is known up to the bit of the policy *)
Lemma same_bits (r x m : Z) : Z.lor r TIMED_POLICY_EVENT = Z.lor x TIMED_POLICY_EVENT ->
  Z.land TIMED_POLICY_EVENT m = 0 -> Z.land r m = Z.land x m.
Proof.
  intros H Hm. apply (f_equal (fun z => Z.land z m)) in H. by rewrite !Z.land_lor_distr_l, Hm, !Z.lor_0_r in H.
Qed.

Lemma same_describe (r x : Z) : Z.lor r TIMED_POLICY_EVENT = Z.lor x TIMED_POLICY_EVENT ->
  describe_simret r = describe_simret x.
Proof. intros H. unfold describe_simret. by rewrite !(same_bits r x) by done. Qed.

Lemma types_known (es : list event) : Forall (fun e => typed e = true) es ->
  Z.land (types es) (Z.lor TIMED_NOEVENT TIMED_ERROR) = 0.
Proof.
  induction 1 as [|e es He _ IH]; [done|]. cbn [types foldr]. rewrite Z.land_lor_distr_l.
  apply Z.lor_eq_0_iff. split; [|done]. unfold typed in He.
  repeat case_match; try done; rewrite ?orb_true_iff, ?Z.eqb_eq in He; destruct_or?; by rewrite He.
Qed.

Lemma perform_all_app (run_ok : list action -> resource_resv -> bool) (es1 es2 : list event) : forall acts,
  perform_all run_ok acts (es1 ++ es2) =
  let '(acts', ok) := perform_all run_ok acts es1 in if ok : bool then perform_all run_ok acts' es2 else (acts', false).
Proof. induction es1 as [|e es1 IH]; intros acts; [done|]. cbn. destruct (effect run_ok acts e); [apply IH|done]. Qed.

(** Times that do not fall *)
Definition rising (es : list event) : Prop := StronglySorted (fun x y => ev_time x <= ev_time y) es.

Lemma rising_filter (P : event -> Prop) `{!forall e, Decision (P e)} (es : list event) : rising es -> rising (filter P es).
Proof.
  induction 1 as [|e es _ IH He]; [constructor|]. rewrite filter_cons. case_decide; [|done]. constructor; [done|].
  rewrite Forall_forall in He |- *. intros x Hx. apply list_elem_of_filter in Hx as [_ Hx]. by apply He.
Qed.

Lemma in_order_rising (l : list entry) : in_order l -> rising (todo l).
Proof.
  intros Hl. apply rising_filter. induction Hl as [|n l _ IH Hn]; [constructor|]. cbn. constructor; [done|].
  apply Forall_forall. intros e He. apply list_elem_of_fmap in He as (k & -> & Hk).
  destruct (proj1 (Forall_forall _ _) Hn k Hk) as [|[? _]]; lia.
Qed.

Lemma due_split (u v : Z) (es : list event) : rising es -> u <= v ->
  due v es = due u es ++ filter (fun e => ev_time e <= v) (later u es).
Proof.
  intros Hr Huv. unfold due, later. assert (rising (proper es)) as Hp by by apply rising_filter.
  induction Hp as [|e l _ IH He]; [done|]. destruct (decide (ev_time e <= u)) as [Hu|Hu].
  - rewrite (filter_cons_True _ e) by lia. rewrite (filter_cons_True (fun e => ev_time e <= u) e) by lia.
    rewrite (filter_cons_False (fun e => u < ev_time e) e) by lia. cbn [app]. by rewrite IH.
  - assert (filter (fun e => ev_time e <= u) l = []) as Hnil.
    { clear IH. induction He as [|x l Hx _ IH]; [done|]. rewrite filter_cons_False by lia. apply IH. }
    rewrite (filter_cons_False (fun e => ev_time e <= u) e) by lia. rewrite Hnil in IH |- *.
    rewrite (filter_cons_True (fun e => u < ev_time e) e) by lia. cbn [app] in IH |- *.
    destruct (decide (ev_time e <= v)).
    + by rewrite !filter_cons_True, IH by done.
    + by rewrite !filter_cons_False, IH by done.
Qed.

Lemma later_later (u v : Z) (es es' : list event) : u <= v -> proper es' = later u es -> later v es' = later v es.
Proof.
  intros Huv Hp. unfold later at 1. rewrite Hp. unfold later. induction (proper es) as [|e l IH]; [done|].
  destruct (decide (u < ev_time e)) as [Hu|Hu].
  - rewrite (filter_cons_True (fun e => u < ev_time e) e) by done. destruct (decide (v < ev_time e)).
    + by rewrite !filter_cons_True, IH by done.
    + by rewrite !filter_cons_False, IH by done.
  - by rewrite (filter_cons_False (fun e => u < ev_time e) e), (filter_cons_False _ e), IH by lia.
Qed.

Lemma elem_of_due (u : Z) (es : list event) e : e ∈ due u es <-> ev_time e <= u /\ ev_type e <> TIMED_POLICY_EVENT /\ e ∈ es.
Proof. unfold due. by rewrite list_elem_of_filter, elem_proper. Qed.
Lemma elem_of_later (u : Z) (es : list event) e : e ∈ later u es <-> u < ev_time e /\ ev_type e <> TIMED_POLICY_EVENT /\ e ∈ es.
Proof. unfold later. by rewrite list_elem_of_filter, elem_proper. Qed.



(** At rest the next event is the first that is ahead. *)
Lemma next_event_rests (start : Z) (good : Z -> status -> Prop) s past ahead : loop_ok start good s past ahead ->
  EventSim.next_event false s = Some (hd_addr ahead, s).
Proof.
  intros [K Hnear He Hex _ _]. unfold EventSim.next_event. mstep (eq_refl (get s)). rewrite (cal_next _ _ _ K).
  assert ((let* _ := set_next_event (hd_addr ahead) in ret (hd_addr ahead)) s = Some (hd_addr ahead, s)) as Hstay.
  { mstep (set_next_event_ok (hd_addr ahead) s). rewrite <-(cal_next _ _ _ K). by rewrite moved_same. }
  destruct (eol (calendar s)) eqn:Heol; [exact Hstay|]. cbn [orb].
  destruct (Z.eqb_spec (prime_status_end (sim_policy s)) SCHD_INFINITY) as [Hi|Hi]; [exact Hstay|].
  destruct ahead as [|n ahead]; [by destruct (Hex eq_refl); congruence|].
  destruct (lseg_lookup _ _ _ n.1 n.2 (cal_list _ _ _ K)) as (Hb & x & Hx & Hpx);
    [apply elem_of_app; right; destruct n; by left|].
  assert (hd_addr (n :: ahead) = n.1) as Hhd by by destruct n. rewrite Hhd in *. rewrite cell_not_null by done.
  destruct (Hnear He) as [|Ht]; [done|]. destruct (cal_status_end _ _ _ K) as [|Hend]; [done|].
  assert ((let* x := load n.1 in ret (prime_status_end (sim_policy s) <? ev_time x)) s = Some (false, s)) as Hfits.
  { mstep (load_cell n.1 x s Hx). change (ev_time x) with (ev_time (plain x)). unfold ret.
    by rewrite Hpx, (proj2 (Z.ltb_ge _ _)) by done. }
  rewrite (proj2 (Z.leb_le _ _)) by done. mstep Hfits. exact Hstay.
Qed.

Section Rounds.
Context {C : Clock} (conf : config) (run_ok : list action -> resource_resv -> bool).
Context {N : Type} (is_ok_to_run : Z -> sim_resv -> sim -> option N).
Context (sinfo : server_queues) (fuzzy ok_flags : Z) (j : sim_resv).
(** The universe at the start, with the events ahead *)
Context (s0 : sim) (past0 ahead0 : list entry) (K0 : cal_ok s0 past0 ahead0).
Context (H W : Z).
Let start := server_time s0.
Let Hmax := H + 2 * W + fuzzy.
Hypothesis HW : 0 <= W.
Hypothesis Hfuzzy : 0 <= fuzzy.
Hypothesis Hlast : forall e, e ∈ proper (todo ahead0) -> ev_time e <= H.
Hypothesis Hstatus : prime_status_end (sim_policy s0) = SCHD_INFINITY \/ prime_status_end (sim_policy s0) <= H + W.
Hypothesis Hends : forall d, start <= d <= Hmax ->
  exists x : Z, end_prime_status conf d = Some x /\ (x = SCHD_INFINITY \/ d < x <= d + W).

Abbreviation rests := (loop_ok start any_good).
Abbreviation es0 := (todo ahead0).

(** The first state at rest *)
Context (s1 : sim) (past1 ahead1 : list entry).
Hypothesis Hbegin : forall cmd (fuel : nat), cmd <> SIM_NONE -> simulate_events conf run_ok fuel cmd s0 =
    if hd_addr ahead1 =? NULL then Some ((TIMED_NOEVENT, None), s1)
    else (let* r := simulate_loop conf run_ok fuel (hd_addr ahead1) (sim_until cmd ahead1) 0 (server_time s1) in
          sim_answer cmd r) s1.

(** The universe at a time: the one a simulation up to it from the start gives *)
Definition at_time (u : Z) (su : sim) : Prop :=
  exists fuel r, simulate_events conf run_ok fuel (SIM_TIME u) s0 = Some ((r, Some u), su).

(** A state at rest in which the events up to [u] have been performed *)
Record known (u : Z) s past ahead : Prop := {
  kn_rests : rests s past ahead;
  kn_in_time : in_time H W s ahead;
  kn_leads : leads conf run_ok u s1 ahead1 s ahead;
  kn_later : hd_later u ahead;
  kn_proper : proper (todo ahead) = later u es0;
  kn_done : perform_all run_ok (actions s0) (due u es0) = (actions s, true) }.

Lemma rising0 : rising es0.
Proof. apply in_order_rising. pose proof (cal_order _ _ _ K0) as Ho. by apply in_order_app in Ho as (_ & ? & _). Qed.

Lemma known_at_time (u : Z) s past ahead : ahead1 <> [] -> lseg (cells s1) (hd_addr ahead1) ahead1 ->
  known u s past ahead -> server_time s = u -> at_time u s.
Proof.
  intros Hne Hseg [L _ [k Hk] Hl _ _] Hu. destruct (Hk u 1%nat 0 (server_time s1)) as (r & t & Hrun); [lia|].
  exists (k + 1)%nat, r. rewrite Hbegin by done. destruct ahead1 as [|[b y] l]; [done|].
  cbn [hd_addr]. destruct Hseg as (_ & Hb & _). rewrite cell_not_null by done. cbn [hd_addr sim_until] in *.
  rewrite (loop_stops conf run_ok start u 0 s past ahead r t L Hl) in Hrun. mstep Hrun. unfold sim_answer, modify, bind, ret.
  cbn. subst u. by destruct s.
Qed.

Lemma known_due (u v : Z) s past ahead : known u s past ahead -> u <= v ->
  perform_all run_ok (actions s0) (due v es0) = perform_all run_ok (actions s) (due v (todo ahead)) /\
  due v es0 = due u es0 ++ due v (todo ahead) /\ later v (todo ahead) = later v es0.
Proof.
  intros [_ _ _ _ Hp Hd] Huv.
  assert (due v es0 = due u es0 ++ due v (todo ahead)) as Hs.
  { rewrite (due_split u v es0 rising0 Huv). unfold due at 3. by rewrite Hp. }
  split_and!; [|done|by apply (later_later u)]. by rewrite Hs, perform_all_app, Hd.
Qed.

Lemma typed_due (u : Z) s past ahead : cal_ok s past ahead -> Forall (fun e => typed e = true) (due u (todo ahead)).
Proof.
  intros K. apply Forall_forall. intros e He. apply elem_of_due in He as (_ & _ & He).
  apply elem_of_todo in He as (_ & b & He). pose proof (cal_typed _ _ _ K) as Ht. rewrite Forall_forall in Ht.
  apply (Ht (b, e)). apply elem_of_app. by right.
Qed.

(** A job that cannot be run stops the simulation. *)
Definition stuck_job : Prop := exists T, (perform_all run_ok (actions s0) (due T es0)).2 = false.

Lemma steps_mono (T T' : Z) s ahead : T <= T' -> (steps T s ahead <= steps T' s ahead)%nat.
Proof. intros HT. unfold steps. destruct (prime_status_end (sim_policy s) =? SCHD_INFINITY)%Z; lia. Qed.

(** All of the loop up to [T] *)
Lemma loop_to (T : Z) (fuel : nat) s past ahead (t0 : Z) : rests s past ahead -> server_time s <= T <= Hmax ->
  (steps Hmax s ahead < fuel)%nat ->
  exists r' t' s', simulate_loop conf run_ok fuel (hd_addr ahead) T 0 t0 s = Some ((r', t'), s') /\
    outcome run_ok start T any_good s 0 (todo ahead) s' r'.
Proof.
  intros L HT Hf. apply (loop_all conf run_ok start T) with past; try done; [|lia|].
  - intros d Hd. apply (progress conf start W Hmax Hends). lia.
  - pose proof (steps_mono T Hmax s ahead (proj2 HT)). lia.
Qed.

Lemma rests_same s past ahead past' ahead' : rests s past ahead -> rests s past' ahead' -> ahead = ahead'.
Proof.
  intros [K _ _ _ _ _] [K' _ _ _ _ _]. pose proof (cal_next _ _ _ K) as Hn. rewrite (cal_next _ _ _ K') in Hn.
  pose proof (lseg_suffix _ _ _ _ (cal_list _ _ _ K)) as Hl. pose proof (lseg_suffix _ _ _ _ (cal_list _ _ _ K')) as Hl'.
  rewrite Hn in Hl'. by apply (lseg_det _ _ _ _ Hl Hl').
Qed.

Lemma error_is_stuck (T : Z) s past ahead s' : rests s past ahead ->
  outcome run_ok start T any_good s 0 (todo ahead) s' TIMED_ERROR ->
  (perform_all run_ok (actions s) (due T (todo ahead))).2 = false.
Proof.
  intros L Ho. unfold outcome in Ho. destruct (perform_all _ _ _) as [acts []]; [|done]. exfalso.
  destruct Ho as (_ & past' & ahead' & [_ _ _ _ Ht]).
  pose proof (same_bits _ _ (Z.lor TIMED_NOEVENT TIMED_ERROR) Ht eq_refl) as Hb.
  rewrite Z.lor_0_l in Hb. rewrite (types_known _ (typed_due T s past ahead (loop_cal _ _ _ _ _ L))) in Hb. done.
Qed.

(** A round that ends without an error *)
Definition round_done (u v r' : Z) s n ahead s' : Prop :=
  u < v /\ ev_time n.2 <= v <= ev_time n.2 + fuzzy /\ server_time s' = v /\
  Z.lor r' TIMED_POLICY_EVENT = Z.lor (types (due v (todo (n :: ahead)))) TIMED_POLICY_EVENT /\
  exists past' ahead', known v s' past' ahead' /\ (steps Hmax s' ahead' < steps Hmax s (n :: ahead))%nat.

Lemma round (fuel : nat) (u : Z) s past n ahead (t0 : Z) : known u s past (n :: ahead) ->
  (steps Hmax s (n :: ahead) < fuel)%nat ->
  exists r' v s', simulate_loop conf run_ok fuel n.1 (ev_time n.2 + fuzzy) 0 t0 s = Some ((r', v), s') /\
    (r' = TIMED_ERROR /\ stuck_job \/ round_done u v r' s n ahead s').
Proof.
  intros Kn Hf. pose proof Kn as [L Hin Hlead Hl Hpr Hd]. cbn [hd_later] in Hl.
  pose proof (hd_in_time start H W HW s past n ahead L Hin) as Htn.
  pose proof (step_entry start any_good s past n ahead L) as (_ & _ & _ & Hnow).
  assert (hd_addr (n :: ahead) = n.1) as Hhd by by destruct n.
  assert (H + 2 * W <= Hmax) as HHm by (unfold Hmax; lia).
  destruct (trace conf run_ok start H W Hmax HW HHm Hends (ev_time n.2 + fuzzy) fuel s past n ahead 0 t0 L Hin)
    as (r' & v & s' & Hrun & Hres); [lia|done|]. exists r', v, s'. split; [done|].
  destruct Hres as [->|(Hv & Hv2 & past' & ahead' & [G1 G2 G3 G4 G5 G6])].
  - left. split; [done|]. exists (ev_time n.2 + fuzzy).
    rewrite (proj1 (known_due u (ev_time n.2 + fuzzy) s past (n :: ahead) Kn ltac:(lia))).
    destruct (loop_to (ev_time n.2 + fuzzy) fuel s past (n :: ahead) t0 L) as (r1 & t1 & s2 & Hrun1 & Ho);
      [unfold Hmax in *; lia|done|].
    rewrite Hhd, Hrun in Hrun1. injection Hrun1 as <- <- <-. by eapply error_is_stuck.
  - destruct (loop_to v fuel s past (n :: ahead) t0 L) as (r1 & t1 & s2 & Hrun1 & Ho); [unfold Hmax in *; lia|done|].
    rewrite G6 in Hrun1. injection Hrun1 as <- <- <-.
    destruct (known_due u v s past (n :: ahead) Kn ltac:(lia)) as (Hp & _ & Hlt). unfold outcome in Ho.
    destruct (perform_all run_ok (actions s) (due v (todo (n :: ahead)))) as [acts []] eqn:Ep; cycle 1.
    { left. destruct Ho as [_ ->]. split; [done|]. exists v. by rewrite Hp. }
    right. destruct Ho as (Hacts & past2 & ahead2 & [F1 F2 F3 F4 F5]).
    pose proof (rests_same _ _ _ _ _ G1 F1) as <-. split_and!; [lia|lia|lia|done|by rewrite Z.lor_0_l in F5|].
    exists past', ahead'. split; [|done]. split; try done.
    + eapply leads_trans; [|done|done]. lia.
    + by rewrite F2.
    + by rewrite Hp, Hacts.
Qed.

(** ** The loop *)

Abbreviation answer := (is_ok_to_run ok_flags j).
Abbreviation run_calc := (calc_loop conf run_ok is_ok_to_run).

(** The job cannot be run in the universe at the time. *)
Definition refused (u : Z) : Prop := exists su, at_time u su /\ answer su = None.

(** The job is refused at the event, or with others put together with it. *)
Definition tried e : Prop := exists w, ev_time e <= w <= ev_time e + fuzzy /\ refused w.

(** What the loop gives: the first universe the job can be run in, or none *)
Definition calc_result (ns : option N) (r' t' : Z) s' : Prop :=
  match ns with
  | Some x =>
      answer s' = Some x /\ server_time s' = t' /\ Z.land r' TIMED_ERROR = 0 /\
      (exists past ahead, cal_ok s' past ahead) /\
      (s' = s0 \/ at_time t' s' /\ answer s0 = None) /\
      (forall e, e ∈ es0 -> frees e -> ev_time e + fuzzy < t' -> tried e)
  | None =>
      r' = TIMED_ERROR /\ stuck_job \/
      r' = TIMED_NOEVENT /\ answer s0 = None /\ (forall e, e ∈ proper es0 -> ev_time e <= t') /\
      (forall e, e ∈ es0 -> frees e -> tried e)
  end.

(** What frees resources by [u] was refused, or is asked about now. *)
Definition asks (u r : Z) s : Prop :=
  forall e, e ∈ es0 -> frees e -> ev_time e <= u ->
    tried e \/ u <= ev_time e + fuzzy /\ worth conf sinfo j r (sim_policy s) = true.

Lemma frees_proper e : frees e -> ev_type e <> TIMED_POLICY_EVENT.
Proof. by intros [->|[->| ->]]. Qed.

Lemma next_asks (u v r' : Z) s past n ahead s' : known u s past (n :: ahead) ->
  (forall e, e ∈ es0 -> frees e -> ev_time e <= u -> tried e) ->
  round_done u v r' s n ahead s' -> asks v r' s'.
Proof.
  intros Kn Href (Huv & Hnv & _ & Hty & _) e He Hf Hle.
  destruct (Z.le_gt_cases (ev_time e) u) as [Hu|Hu]; [left; by apply Href|right].
  destruct (known_due u v s past (n :: ahead) Kn ltac:(lia)) as (_ & Hd & _).
  assert (e ∈ due v es0) as Hin by (apply elem_of_due; split_and!; [done|by apply frees_proper|done]).
  rewrite Hd in Hin. apply elem_of_app in Hin as [Hin|Hin]; [apply elem_of_due in Hin; lia|].
  pose proof Hin as (_ & _ & Ht)%elem_of_due.
  pose proof (cal_order _ _ _ (loop_cal _ _ _ _ _ (kn_rests _ _ _ _ Kn))) as Ho.
  apply in_order_app in Ho as (_ & Ho & _). pose proof (order_todo n ahead e Ho Ht). split; [lia|].
  unfold worth. by rewrite (same_describe _ _ Hty), (describe_frees _ e Hin Hf).
Qed.

(** The loop from a state at rest *)
Definition calc_returns (fuel : nat) : Prop := forall u r s past ahead, known u s past ahead -> server_time s = u ->
  Z.land r TIMED_ERROR = 0 -> asks u r s -> (S (steps Hmax s ahead) < fuel)%nat ->
  exists ns r' t' s', run_calc fuel sinfo fuzzy ok_flags j r u s = Some ((ns, r', t'), s') /\ calc_result ns r' t' s'.

(** The rest of a round after the job was refused in the universe [sc], which comes to
    rest as [s] *)
Lemma calc_go_on (fuel : nat) (u t0 : Z) (sc : sim) s past n ahead : calc_returns fuel -> known u s past (n :: ahead) ->
  (forall e, e ∈ es0 -> frees e -> ev_time e <= u -> tried e) ->
  (steps Hmax s (n :: ahead) < fuel)%nat ->
  simulate_events conf run_ok fuel (SIM_NEXT_EVENT fuzzy) sc =
    (let* r := simulate_loop conf run_ok fuel n.1 (ev_time n.2 + fuzzy) 0 (server_time s) in
     sim_answer (SIM_NEXT_EVENT fuzzy) r) s ->
  exists ns r' t' s',
    (let* x := simulate_events conf run_ok fuel (SIM_NEXT_EVENT fuzzy) in
     if Z.land x.1 (Z.lor TIMED_NOEVENT TIMED_ERROR) =? 0
     then run_calc fuel sinfo fuzzy ok_flags j x.1 (default t0 x.2)
     else ret (None, x.1, default t0 x.2)) sc = Some ((ns, r', t'), s') /\ calc_result ns r' t' s'.
Proof.
  intros IH Kn Href Hf Hsim.
  destruct (round fuel u s past n ahead (server_time s) Kn Hf) as (r' & v & s' & Hrun & Hres).
  assert (simulate_events conf run_ok fuel (SIM_NEXT_EVENT fuzzy) sc = Some ((r', Some v), s')) as Hsim'.
  { rewrite Hsim. by mstep Hrun. }
  mstep Hsim'. destruct Hres as [[-> Hst]|Hdone].
  { eexists None, _, _, _. split; [done|]. by left. }
  pose proof Hdone as (_ & _ & Hv & Hty & past' & ahead' & Kn' & Hst).
  pose proof (same_bits _ _ (Z.lor TIMED_NOEVENT TIMED_ERROR) Hty eq_refl) as Hbits.
  rewrite (types_known _ (typed_due v s past (n :: ahead) (loop_cal _ _ _ _ _ (kn_rests _ _ _ _ Kn)))) in Hbits.
  cbn [fst snd default]. rewrite Hbits. apply (IH v r' s' past' ahead' Kn' Hv); [|by eapply next_asks|lia].
  change (Z.lor TIMED_NOEVENT TIMED_ERROR) with 3 in Hbits. change TIMED_ERROR with (Z.land 3 2).
  by rewrite Z.land_assoc, Hbits.
Qed.

Lemma none_left (u : Z) s past : known u s past [] -> forall e, e ∈ proper es0 -> ev_time e <= u.
Proof.
  intros Kn e He. destruct (Z.le_gt_cases (ev_time e) u) as [|Hg]; [done|exfalso]. apply elem_proper in He as [Ht He].
  assert (e ∈ later u es0) as Hin by by apply elem_of_later.
  rewrite <-(kn_proper _ _ _ _ Kn) in Hin. by apply elem_of_nil in Hin.
Qed.

Lemma frees_in_proper e : e ∈ es0 -> frees e -> e ∈ proper es0.
Proof. intros He Hf. apply elem_proper. split; [by apply frees_proper|done]. Qed.

Lemma calc_known (Hne : ahead1 <> []) (Hseg : lseg (cells s1) (hd_addr ahead1) ahead1) (H0 : answer s0 = None)
    (fuel : nat) : calc_returns fuel.
Proof.
  induction fuel as [|fuel IH]; intros u r s past ahead Kn Hu Hr Hask Hf; [lia|]. pose proof Kn as [L _ _ Hl Hp _].
  pose proof (known_at_time u s past ahead Hne Hseg Kn Hu) as Hat. cbn [calc_loop]. mstep (eq_refl (get s)).
  destruct (if worth _ _ _ _ _ then _ else None) as [ns|] eqn:Ea.
  { exists (Some ns), r, u, s. split; [done|]. destruct (worth conf sinfo j r (sim_policy s)); [|done].
    split_and!; try done; [exists past, ahead; apply L|by right|]. intros e He Hfr Hlt.
    destruct (Hask e He Hfr) as [?|[? _]]; [lia|done|lia]. }
  assert (forall e, e ∈ es0 -> frees e -> ev_time e <= u -> tried e) as Href.
  { intros e He Hfr Hle. destruct (Hask e He Hfr Hle) as [?|[Hu' Hw]]; [done|]. rewrite Hw in Ea.
    exists u. split; [lia|by exists s]. }
  pose proof (enters_enabled conf run_ok s past ahead (loop_cal _ _ _ _ _ L) (loop_enabled _ _ _ _ _ L)) as Hsim.
  specialize (Hsim (SIM_NEXT_EVENT fuzzy) fuel ltac:(done) s (next_event_rests _ _ _ _ _ L)).
  destruct ahead as [|n ahead].
  { mstep Hsim. eexists None, _, _, _. split; [done|]. right. split_and!; [done|done|by eapply none_left|].
    intros e He Hfr. apply Href; try done. eapply none_left; [done|]. by apply frees_in_proper. }
  destruct (step_entry start any_good s past n ahead L) as (Hb & _).
  assert (hd_addr (n :: ahead) = n.1) as Hhd by by destruct n. rewrite Hhd, cell_not_null in Hsim by done.
  by apply (calc_go_on fuel u u s s past n ahead); [| | |lia|].
Qed.

End Rounds.

Section Run.
Context {C : Clock} (conf : config) (run_ok : list action -> resource_resv -> bool).
Context {N : Type} (is_ok_to_run : Z -> sim_resv -> sim -> option N).
Context (sinfo : server_queues) (fuzzy ok_flags : Z) (j : sim_resv).
Context (s0 : sim) (past0 ahead0 : list entry) (K0 : cal_ok s0 past0 ahead0) (H W : Z).
Hypothesis HW : 0 <= W.
Hypothesis Hfuzzy : 0 <= fuzzy.
Hypothesis Hlast : forall e, e ∈ proper (todo ahead0) -> ev_time e <= H.
Hypothesis Hstatus : prime_status_end (sim_policy s0) = SCHD_INFINITY \/ prime_status_end (sim_policy s0) <= H + W.
Hypothesis Hends : forall d, server_time s0 <= d <= H + 2 * W + fuzzy ->
  exists x : Z, end_prime_status conf d = Some x /\ (x = SCHD_INFINITY \/ d < x <= d + W).

Lemma calc_all (fuel : nat) :
  (length (proper (todo ahead0)) + Z.to_nat (H + 2 * W + fuzzy + 1 - server_time s0) + 2 < fuel)%nat ->
  exists ns r' t' s', calc_loop conf run_ok is_ok_to_run fuel sinfo fuzzy ok_flags j TIMED_END_EVENT (server_time s0) s0 =
    Some ((ns, r', t'), s') /\ calc_result conf run_ok is_ok_to_run fuzzy ok_flags j s0 ahead0 ns r' t' s'.
Proof.
  intros Hf. destruct fuel as [|fuel]; [lia|]. cbn [calc_loop]. mstep (eq_refl (get s0)).
  change (worth conf sinfo j TIMED_END_EVENT (sim_policy s0)) with true. cbn iota.
  destruct (is_ok_to_run ok_flags j s0) as [ns|] eqn:Ea.
  { exists (Some ns), TIMED_END_EVENT, (server_time s0), s0. split; [done|]. split_and!; try done; [by eauto|by left|].
    intros e He _ Hlt. pose proof (cal_ahead _ _ _ K0 e He). lia. }
  destruct (enter_any conf run_ok s0 past0 ahead0 K0) as (s1 & past1 & ahead1 & [K1 (H1 & H2 & H3) H4 H5 H6 H7] & He & Hbegin).
  assert (loop_ok (server_time s0) any_good s1 past1 ahead1) as L by (split; try done; by rewrite H1).
  pose proof (Hbegin (SIM_NEXT_EVENT fuzzy) fuel ltac:(done)) as Hsim. destruct ahead1 as [|n ahead1].
  { cbn in H4. mstep Hsim. eexists None, _, _, _. split; [done|]. right. split_and!; try done.
    - rewrite <-H4. by intros e ?%elem_of_nil.
    - intros e Hin Hfr. pose proof (frees_in_proper ahead0 e Hin Hfr) as Hp. rewrite <-H4 in Hp. by apply elem_of_nil in Hp. }
  destruct (step_entry _ any_good s1 past1 n ahead1 L) as (Hb & _ & _ & Hnow).
  assert (hd_addr (n :: ahead1) = n.1) as Hhd by by destruct n. rewrite Hhd, cell_not_null in Hsim by done.
  destruct (due_later (server_time s0 - 1) (todo ahead0)) as [Hd Hl].
  { intros e Hin. pose proof (cal_ahead _ _ _ K0 e Hin). lia. }
  assert (known conf run_ok s0 ahead0 H W s1 (n :: ahead1) (server_time s0 - 1) s1 past1 (n :: ahead1)) as Kn.
  { split; [done| |apply leads_here|cbn; lia|by rewrite Hl|by rewrite Hd, H3].
    split; [by rewrite H4|]. rewrite H2. destruct Hstatus; tauto. }
  eapply (calc_go_on conf run_ok is_ok_to_run sinfo fuzzy ok_flags j s0 past0 ahead0 K0 H W HW Hfuzzy Hends s1 (n :: ahead1))
    with (u := server_time s0 - 1) (n := n); try done.
  - apply (calc_known conf run_ok is_ok_to_run sinfo fuzzy ok_flags j s0 past0 ahead0 K0 H W HW Hfuzzy Hends); try done.
    apply (lseg_suffix _ _ past1 _ (cal_list _ _ _ K1)).
  - intros e Hin _ Hle. pose proof (cal_ahead _ _ _ K0 e Hin). lia.
  - unfold steps. rewrite H4. pose proof (cal_status_end _ _ _ K1) as Hend. rewrite H1 in Hend.
    destruct (prime_status_end (sim_policy s1) =? SCHD_INFINITY)%Z eqn:Ei; [lia|]. apply Z.eqb_neq in Ei. lia.
Qed.

End Run.

(** ** The events of the job *)

(** A list of events with one that is next *)
Record listed s past ahead : Prop := {
  lst_list : lseg (cells s) (events (calendar s)) (past ++ ahead);
  lst_next : Events.next_event (calendar s) = hd_addr ahead;
  lst_typed : Forall (fun n => typed n.2 = true) (past ++ ahead) }.

Lemma split_at (n : entry) (l : list entry) : n ∈ l -> exists l1 l2, l = l1 ++ n :: l2.
Proof. apply list_elem_of_split. Qed.

Lemma next_after_suffix (now : Z) past ahead n : exists past' ahead', ins n (past ++ ahead) = past' ++ ahead' /\
  next_after now past ahead n = hd_addr ahead'.
Proof.
  assert (forall k, k ∈ ins n (past ++ ahead) -> exists past' ahead', ins n (past ++ ahead) = past' ++ ahead' /\ k.1 = hd_addr ahead') as Hat.
  { intros k Hk. destruct (split_at k _ Hk) as (l1 & l2 & ->). exists l1, (k :: l2). split; [done|]. by destruct k. }
  assert (n ∈ ins n (past ++ ahead)) as Hn by (rewrite ins_perm; by left).
  unfold next_after. destruct ahead as [|k ahead].
  - destruct past as [|m past]; [exact (Hat n Hn)|]. destruct (ev_time n.2 >=? now); [exact (Hat n Hn)|].
    exists (ins n ((m :: past) ++ [])), []. split; [symmetry; apply app_nil_r|done].
  - assert (k ∈ ins n (past ++ k :: ahead)) as Hk by (rewrite ins_perm; right; apply elem_of_app; right; by left).
    destruct (ev_time n.2 >? now); [|exact (Hat k Hk)]. destruct (ev_time n.2 <? ev_time k.2); [exact (Hat n Hn)|].
    destruct (ev_time n.2 =? ev_time k.2); [|exact (Hat k Hk)].
    destruct (from_match_suffix None TIMED_NOEVENT (ev_time n.2) (ins n (past ++ k :: ahead))) as (l1 & Hl & _).
    by eexists l1, _.
Qed.

Lemma add_listed s past ahead te x : listed s past ahead -> typed x = true -> cells s !! te = Some x -> te <> NULL ->
  ev_next x = NULL -> ~ te ∈ (past ++ ahead).*1 ->
  exists s' past' ahead', add_event te s = Some (1, s') /\ listed s' past' ahead' /\
    past' ++ ahead' = ins (te, plain x) (past ++ ahead) /\ same_universe s s' /\
    forall b, b <> te -> ~ b ∈ (past ++ ahead).*1 -> cells s' !! b = cells s !! b.
Proof.
  intros [Hl Hnx Hty] Htx Hx Hte Hn Hin. destruct (add_event_ok s past ahead te x) as (m' & Hadd & Hseg & Hfr); try done.
  destruct (next_after_suffix (server_time s) past ahead (te, plain x)) as (past' & ahead' & Hl' & Hnx').
  eexists _, past', ahead'. split; [exact Hadd|]. split; [|by rewrite <-Hl'].
  split; [rewrite <-Hl'; exact Hseg|exact Hnx'|]. rewrite <-Hl', ins_perm. by constructor.
Qed.

Lemma add_span_ok s past ahead (r : timed_resv) : cal_ok s past ahead ->
  exists s' a b, add_span (tr r) s = Some (true, s') /\
    lseg (cells s') (events (calendar s')) (ins (b, end_event_of false r) (ins (a, run_event_of r) (past ++ ahead))) /\
    NoDup (a :: b :: (past ++ ahead).*1) /\ same_universe s s'.
Proof.
  intros K. unfold add_span.
  mstep (create_event_ok s TIMED_RUN_EVENT (rr_start (tr r)) (PResv (tr r)) None None _ eq_refl).
  rewrite brk_not_null by apply K. fold (run_event_of r). set (x := run_event_of r). set (sa := with_cell s x).
  destruct (cal_cell s past ahead x K) as (Ka & Hx & Hb & Hin). fold sa in Ka, Hx.
  mstep (create_event_ok sa TIMED_END_EVENT (rr_end (tr r)) (PResv (tr r)) None None _ eq_refl).
  rewrite brk_not_null by apply Ka. fold (end_event_of false r). set (y := end_event_of false r). set (sb := with_cell sa y).
  destruct (cal_cell sa past ahead y Ka) as (Kb & Hy & Hb1 & Hin1). fold sb in Kb, Hy.
  assert (brk sa <> brk s) as Hne by (cbn; lia).
  assert (cells sb !! brk s = Some x) as Hx2 by (cbn; rewrite lookup_insert_ne by done; exact Hx).
  assert (listed sb past ahead) as Ls by (split; apply Kb).
  destruct (add_listed sb past ahead (brk s) x Ls) as (s3 & past3 & ahead3 & Hrun3 & L3 & Hl3 & Hu3 & Hfr3); try done.
  mstep Hrun3.
  destruct (add_listed s3 past3 ahead3 (brk sa) y L3) as (s4 & past4 & ahead4 & Hrun4 & L4 & Hl4 & Hu4 & _); try done.
  { by rewrite Hfr3. }
  { rewrite Hl3, ins_perm. cbn. by rewrite not_elem_of_cons. }
  mstep Hrun4. exists s4, (brk s), (brk sa). split_and!.
  - done.
  - change x with (plain x). change y with (plain y). rewrite <-Hl3, <-Hl4. apply L4.
  - constructor; [rewrite not_elem_of_cons; by split|]. constructor; [done|]. apply (lseg_NoDup _ _ _ (cal_list _ _ _ K)).
  - destruct Hu3 as (A1 & A2 & A3), Hu4 as (B1 & B2 & B3). unfold same_universe. by rewrite B1, B2, B3, A1, A2, A3.
Qed.

Section FirstTime.
Context {C : Clock} (conf : config) (run_ok : list action -> resource_resv -> bool).
Context {N : Type} (is_ok_to_run : Z -> sim_resv -> sim -> option N).
Context (sinfo : server_queues) (fuzzy : Z) (all : list sim_resv) (name : cstring) (flags : Z).

(** What the run of the job does to the universe *)
Definition run_action (acts : list action) (rr : resource_resv) : list action :=
  if negb (Z.land flags SIM_RUN_JOB =? 0) && run_ok acts rr then [Ran rr] else [].

(** The universe [su] the job can be run in, and [s'] with the events of the job [j'] *)
Definition job_placed (su : sim) (j' : sim_resv) (s' : sim) : Prop :=
  (exists l a b, lseg (cells su) (events (calendar su)) l /\
     lseg (cells s') (events (calendar s')) (ins (b, end_event_of false (sv j')) (ins (a, run_event_of (sv j')) l))) /\
  server_time s' = server_time su /\ sim_policy s' = sim_policy su /\
  actions s' = actions su ++ run_action (actions su) (tr (sv j')).

Lemma placed su past ahead j' (t : Z) : cal_ok su past ahead ->
  exists s', (let* added := add_span (tr (sv j')) in
    if negb added then ret (-1, Some j')
    else
      let* s := get in
      let* _ := if negb (Z.land flags SIM_RUN_JOB =? 0) && run_ok (actions s) (tr (sv j'))
                then modify (add_action (Ran (tr (sv j')))) else ret tt in
      ret (t, Some j')) su = Some ((t, Some j'), s') /\ job_placed su j' s'.
Proof.
  intros K. destruct (add_span_ok su past ahead (sv j') K) as (s2 & a & b & Hadd & Hl & _ & H1 & H2 & H3).
  unfold job_placed, run_action. rewrite <-H3.
  set (go := negb (Z.land flags SIM_RUN_JOB =? 0) && run_ok (actions s2) (tr (sv j'))).
  exists (if go then add_action (Ran (tr (sv j'))) s2 else s2). split.
  - mstep Hadd. cbn [negb]. mstep (eq_refl (get s2)). fold go. by destruct go.
  - split; [|destruct go; cbn; by rewrite ?app_nil_r].
    exists (past ++ ahead), a, b. split; [apply K|]. by destruct go.
Qed.

(** C8. When the status of prime time always ends later, within [W], and the last event
    of the calendar is at [H], [calc_run_time] ends.  The time it gives is one at which
    [is_ok_to_run] accepts the job in the universe as a simulation up to that time
    leaves it, and the first up to the fuzziness of backfill: for every event that frees
    resources more than [fuzzy] before it, the job is refused in the universe at a time from
    that of the event to [fuzzy] later (at the time of the event, without fuzziness).  The
    events of the job are in the calendar then.  It gives 0 when the job is refused
    so for every event that frees resources.  Otherwise a job of the calendar cannot be
    run, and the job is not placed. *)
Theorem calc_run_time_first (s : sim) (past ahead : list entry) (j : sim_resv) (H W : Z) (fuel : nat) :
  cal_ok s past ahead -> find_resource_resv all name = Some j -> is_resource_resv_valid (Some j) = true ->
  0 <= W -> 0 <= fuzzy -> (forall e, e ∈ proper (todo ahead) -> ev_time e <= H) ->
  prime_status_end (sim_policy s) = SCHD_INFINITY \/ prime_status_end (sim_policy s) <= H + W ->
  (forall d, server_time s <= d <= H + 2 * W + fuzzy ->
     exists x : Z, end_prime_status conf d = Some x /\ (x = SCHD_INFINITY \/ d < x <= d + W)) ->
  (length (proper (todo ahead)) + Z.to_nat (H + 2 * W + fuzzy + 1 - server_time s) + 2 < fuel)%nat ->
  let answer := is_ok_to_run (ok_flags_of flags j) j in
  let no_at e := tried conf run_ok is_ok_to_run fuzzy (ok_flags_of flags j) j s e in
  exists t j' s', calc_run_time conf run_ok is_ok_to_run fuel sinfo fuzzy all name flags s = Some ((t, j'), s') /\
  match j' with
  | Some j' =>
      j' = set_span t j /\
      exists su, answer su <> None /\ server_time su = t /\
        (su = s \/ at_time conf run_ok s t su /\ answer s = None) /\
        (forall e, e ∈ todo ahead -> frees e -> ev_time e + fuzzy < t -> no_at e) /\
        job_placed su j' s'
  | None =>
      t = 0 /\ answer s = None /\ (forall e, e ∈ todo ahead -> frees e -> no_at e) \/
      stuck_job run_ok s ahead
  end.
Proof.
  intros K Hfind Hvalid HW Hfz Hlast Hst Hends Hf answer no_at.
  destruct (calc_all conf run_ok is_ok_to_run sinfo fuzzy (ok_flags_of flags j) j s past ahead K H W HW Hfz Hlast Hst Hends fuel Hf)
    as (ns & r & t & su & Hrun & Hres).
  unfold calc_run_time. mstep (eq_refl (get s)). rewrite Hfind, Hvalid. cbn [negb]. mstep Hrun.
  destruct ns as [ns|]; cbn [calc_result] in Hres.
  - destruct Hres as (Ha & Ht & Hr & (past' & ahead' & K') & Hsu & Hfirst). rewrite Hr. cbn [Z.eqb negb].
    destruct (placed su past' ahead' (set_span t j) t K') as (s' & Hplace & Hpl).
    exists t, (Some (set_span t j)), s'. split; [exact Hplace|]. split; [done|]. exists su.
    split_and!; [unfold answer; by rewrite Ha|done|done|done|done].
  - destruct Hres as [[-> Hstuck]|(-> & Ha & _ & Hall)]; eexists _, None, _; (split; [reflexivity|]); [by right|by left].
Qed.

End FirstTime.
(** ** Lists of events of a node *)

(** The event is put before the first that is not earlier. *)
Lemma add_te_list_ok (s : sim) (tel : list Z) (te : Z) (x : event) : te <> NULL -> cells s !! te = Some x ->
  (forall b, b ∈ tel -> exists y, cells s !! b = Some y) ->
  exists l1 l2, tel = l1 ++ l2 /\ add_te_list tel te s = Some ((l1 ++ te :: l2, 1), s) /\
    (forall b y, b ∈ l1 -> cells s !! b = Some y -> ev_time y < ev_time x) /\
    (forall b y, head l2 = Some b -> cells s !! b = Some y -> ev_time x <= ev_time y).
Proof.
  intros Hte Hx Hin. assert (exists l1 l2, tel = l1 ++ l2 /\ add_te_loop tel te (ev_time x) s = Some (l1 ++ te :: l2, s) /\
    (forall b y, b ∈ l1 -> cells s !! b = Some y -> ev_time y < ev_time x) /\
    (forall b y, head l2 = Some b -> cells s !! b = Some y -> ev_time x <= ev_time y)) as (l1 & l2 & Hl & Hrun & Hrest).
  { induction tel as [|c tel IH]; [exists [], []; split_and!; [done|done|by intros b y ?%elem_of_nil|done]|].
    destruct (Hin c (list_elem_of_here _ _)) as (y & Hy). cbn [add_te_loop]. mstep (load_cell c y s Hy).
    destruct (Z.ltb_spec (ev_time y) (ev_time x)) as [Hlt|Hle].
    - destruct IH as (l1 & l2 & -> & Hrun & H1 & H2); [intros b Hb; apply Hin; by right|]. exists (c :: l1), l2.
      split_and!; [done|by mstep Hrun| |done]. intros b z Hb Hz. apply elem_of_cons in Hb as [->|Hb]; [congruence|by eapply H1].
    - exists [], (c :: tel). split_and!; [done|done|by intros b z ?%elem_of_nil|]. intros b z [= <-] Hz. congruence. }
  exists l1, l2. split; [done|]. split; [|done]. unfold add_te_list. rewrite cell_not_null by done.
  destruct tel as [|c tel]; [by destruct l1, l2|]. mstep (load_cell te x s Hx). by mstep Hrun.
Qed.

(** Removing it again gives the list there was. *)
Lemma remove_te_list_ok (l1 l2 : list Z) (te : Z) : te <> NULL -> ~ te ∈ l1 -> remove_te_list (l1 ++ te :: l2) te = (l1 ++ l2, 1).
Proof.
  intros Hte Hin. unfold remove_te_list. rewrite cell_not_null by done. induction l1 as [|c l1 IH]; cbn.
  - by rewrite Z.eqb_refl.
  - rewrite (proj2 (Z.eqb_neq c te)) by (intros ->; apply Hin; by left). rewrite IH; [done|]. intros H. apply Hin. by right.
Qed.

End CalcProps.

(** ** A job on the day of [EventScenes]

    Module [CalcScenes]: the queued job is to run after the end of the job of the
    night, and outside of dedicated time. *)
Module CalcScenes.
Import TimeScenes EventScenes Calc CalcProps.

Definition queue0 : queue_kind := QueueKind false false false true.
Definition user_of (r : timed_resv) : timed_resv :=
  let rr := tr r in
  TimedResv (ResourceResv (rr_addr rr) (rr_name rr) (rr_is_job rr) (rr_is_resv rr) (Some (lit "u")) (Some (lit "g")) None
    (rr_duration rr) (rr_hard_duration rr) (rr_resreq rr) (rr_queue rr) (rr_used_walltime rr) (rr_start rr) (rr_end rr)
    (rr_min_duration rr)) (tr_job r) (tr_resv_state r).
Definition waiting (duration : Z) : sim_resv :=
  SimResv (user_of (TimedResv (ResourceResv 0 (lit "queued") true false None None None duration duration [] None 0
    UNSPECIFIED UNSPECIFIED UNSPECIFIED) (tr_job queued_job) None)) queue0 false 0 true true true false false.
Definition no_queues : server_queues := ServerQueues None false false false.

(** The job needs what the job of the night has. *)
Definition needs_night (flags : Z) (r : sim_resv) (s : sim) : option unit :=
  if existsb (fun a => match a with Ended rr => streq (rr_name rr) (lit "night") | _ => false end) (actions s) &&
     negb (is_ded_time_bit (sim_policy s))
  then Some tt else None.
Definition never_ok (flags : Z) (r : sim_resv) (s : sim) : option unit := None.

Definition ask (ok : Z -> sim_resv -> sim -> option unit) (fuel : nat) (flags : Z) : option (Z * list (string * Z) * list action) :=
  match calc_run_time office_conf all_run ok fuel no_queues 0 [waiting 3600] (lit "queued") flags day with
  | Some ((t, _), s) => Some (t, agenda (entries 30 (cells s) (events (calendar s))), actions s)
  | None => None
  end.

Example queued_at_eight :
  option_map (fun x => (x.1.1, drop 4 x.1.2)) (ask needs_night 20 0) =
    Some (june 12 + 20 * 3600,
      [("night", june 12 + 20 * 3600); ("queued", june 12 + 20 * 3600); ("queued", june 12 + 21 * 3600);
       ("dedtime_start", june 12 + 22 * 3600); ("dedtime_end", june 12 + 23 * 3600)]%string) /\
  option_map (fun x => x.1.1) (ask never_ok 20 0) = Some 0.
Proof. vm_compute. done. Qed.

(** The copy of a list of events has NULL for an event before the next one of the
    calendar, which the next addition uses. *)
Example te_list_null :
  option_map fst (dup_te_lists [nth_event 1 day] (nth_event 3 day) day) = Some [NULL] /\
  add_te_list [NULL] (nth_event 3 day) day = None.
Proof. vm_compute. done. Qed.

(** A job that is not in the universe: -1, which is no time. *)
Example no_such_job :
  option_map (fun x => x.1.1) (calc_run_time office_conf all_run never_ok 20 no_queues 0 [] (lit "queued") 0 day) = Some (-1).
Proof. vm_compute. done. Qed.

(** The last event of the day, and a week *)
Definition day_end : Z := june 12 + 23 * 3600.

Lemma office_all_weeks (d : Z) : wednesday <= d <= day_end + 2 * WEEK ->
  week_carries office_conf utc_yday (PrimeProps.day 0 d) = true.
Proof.
  intros Hd. assert (18059 <= PrimeProps.day 0 d < 18059 + 15) as Hday.
  { unfold PrimeProps.day, day_end, wednesday, june, WEEK, DAY in *. split; [apply Z.div_le_lower_bound|apply Z.div_lt_upper_bound]; lia. }
  assert (forallb (week_carries office_conf utc_yday) (seqZ 18059 15) = true) as Hall by (vm_compute; reflexivity).
  rewrite forallb_forall in Hall. apply Hall, list_elem_of_In, elem_of_seqZ. lia.
Qed.

(** Both statuses of prime time are met within a week. *)
Lemma office_both (d : Z) (p : prime_time) : wednesday <= d <= day_end + 2 * WEEK ->
  (forall date, d <= date <= d + WEEK -> is_prime_time office_conf date = Some p) -> False.
Proof.
  intros Hd H.
  assert (forall k, (k = 17 \/ k = 24 \/ k = 31) -> is_prime_time office_conf (june k) = Some NON_PRIME /\
    is_prime_time office_conf (june k + 12 * 3600) = Some PRIME) as Hk.
  { intros k [->|[->| ->]]; vm_compute; done. }
  assert (forall k k', (k = 17 \/ k = 24 \/ k = 31) -> (k' = 17 \/ k' = 24 \/ k' = 31) ->
    d <= june k <= d + WEEK -> d <= june k' + 12 * 3600 <= d + WEEK -> False) as Hno.
  { intros k k' H1 H2 H3 H4. apply H in H3, H4. destruct (Hk k H1) as [E1 _], (Hk k' H2) as [_ E2]. congruence. }
  pose proof (Hno 17 17 ltac:(lia) ltac:(lia)). pose proof (Hno 24 17 ltac:(lia) ltac:(lia)).
  pose proof (Hno 24 24 ltac:(lia) ltac:(lia)). pose proof (Hno 31 24 ltac:(lia) ltac:(lia)).
  pose proof (Hno 31 31 ltac:(lia) ltac:(lia)). clear Hno Hk H.
  unfold day_end, wednesday, june, WEEK, DAY in *. lia.
Qed.

Lemma office_ends_soon (d : Z) : wednesday <= d <= day_end + 2 * WEEK ->
  exists x, end_prime_status office_conf d = Some x /\ (x = SCHD_INFINITY \/ d < x <= d + WEEK).
Proof.
  intros Hd. assert (holiday_year office_conf <> 0) as Hy by (vm_compute; congruence).
  destruct (ends_right office_conf 0 utc_yday wednesday (day_end + 2 * WEEK) office_conf_fit Hy
    (fun date _ => utc_wall date) office_all_weeks d Hd) as (x & Hx & Hr).
  exists x. split; [exact Hx|]. destruct Hr as [[-> _]|(Hle & Hne & Hsame)]; [by left|right].
  destruct (is_prime_time_some office_conf d office_conf_fit) as (p & Hp & _).
  destruct (Z.eq_dec d x) as [->|Hdx]; [by destruct Hne|]. split; [lia|].
  destruct (Z.le_gt_cases x (d + WEEK)) as [|Hg]; [assumption|exfalso]. apply (office_both d p Hd).
  intros date Hdate. rewrite Hsame by lia. exact Hp.
Qed.

Lemma calc_run_time_first_witness :
  let answer := needs_night (ok_flags_of SIM_RUN_JOB (waiting 3600)) (waiting 3600) in
  let no_at e := tried office_conf all_run needs_night 0 (ok_flags_of SIM_RUN_JOB (waiting 3600)) (waiting 3600) day e in
  exists t j' s', calc_run_time office_conf all_run needs_night (Z.to_nat 2000000) no_queues 0 [waiting 3600]
      (lit "queued") SIM_RUN_JOB day = Some ((t, j'), s') /\
  match j' with
  | Some j' =>
      j' = set_span t (waiting 3600) /\
      exists su, answer su <> None /\ server_time su = t /\
        (su = day \/ at_time office_conf all_run day t su /\ answer day = None) /\
        (forall e, e ∈ todo (ahead_of day 0) -> frees e -> ev_time e + 0 < t -> no_at e) /\
        job_placed all_run SIM_RUN_JOB su j' s'
  | None =>
      t = 0 /\ answer day = None /\ (forall e, e ∈ todo (ahead_of day 0) -> frees e -> no_at e) \/
      stuck_job all_run day (ahead_of day 0)
  end.
Proof.
  apply (calc_run_time_first office_conf all_run needs_night no_queues 0 [waiting 3600] (lit "queued") SIM_RUN_JOB
    day (past_of day 0) (ahead_of day 0) (waiting 3600) day_end WEEK).
  - apply day_ok.
  - vm_compute. reflexivity.
  - vm_compute. reflexivity.
  - by vm_compute.
  - done.
  - intros e He. apply Z.leb_le. revert e He. apply Forall_forall, (bool_decide_unpack _). vm_compute. done.
  - right. by vm_compute.
  - intros d Hd. apply office_ends_soon. rewrite Z.add_0_r in Hd. exact Hd.
  - apply Nat.ltb_lt. vm_compute. reflexivity.
Defined.

End CalcScenes.
