(* ===== verification/NextJob.v ===== *)
(** * The cycle: [src/scheduler/fifo.c]

    Module [NextJob]: [next_job] with its static variables, and the searches it makes.
    The arrays of jobs are those [JobSort.sort_jobs] sorts; what changes of a job while the
    scheduler looks at one after the other is found by its rank.  Module
    [NextJobProps]: the order in which jobs are considered in a cycle; [NextJobScenes]:
    queues with jobs.  Module [MainLoop]: [main_sched_loop] and what it does to a job that
    was not run; [MainLoopProps]: what a cycle keeps to, with jobs in [MainLoopScenes]. *)

From Stdlib Require Import ZArith Lia Ascii String.
From stdpp Require Import gmap.
From S2P Require Import Prelude Ranges SchedData Doubles TextFile FairTree TimeData EventList EventSim Sorting JobSort JobOrder FairProps QsortProps JobSortProps.
Import Data Conf EventSim JobSort JobOrder JobSortProps.

Module NextJob.

(** ** Constants *)

Definition INITIALIZE : Z := -1.
Definition DONT_SORT_JOBS : Z := 0.
Definition MAY_RESORT_JOBS : Z := 1.
Definition MUST_RESORT_JOBS : Z := 2.
Definition SORTED : Z := 3.

Inductive skip := SKIP_NOTHING | SKIP_RESERVATIONS | SKIP_NON_NORMAL_JOBS.
#[export] Instance skip_eq_dec : EqDecision skip.
Proof. solve_decision. Defined.

Definition RESV_RUNNING : Z := 5.
Definition PREEMPT_NORMAL : Z := 0.
Definition PREEMPT_EXPRESS : Z := 5.

(** ** Data *)

(** An array of pointers to jobs: its memory, [None] where a pointer is [NULL] *)
Abbreviation jobs_array := (list (option sort_resv)).

(** What the searches read of a job that is not in [sort_resv] *)
Record job_flags := JobFlags { can_not_run : bool; is_preempted : bool; preempt_status : Z }.

(** A reservation: [resv] is [NULL] without a state, and [resv_queue] points at one of
    the server's queues, by its index, or is [NULL]. *)
Record next_resv := NextResv { nv_state : option Z; nv_queue : option nat }.

Record universe := Universe {
  srv : sort_server; flags_of : Z -> job_flags; qrun_job : option sort_resv; resvs : option (list next_resv) }.

(** The static variables of [next_job] *)
Record next_state := NextState {
  last_queue : Z; last_queue_index : Z; last_job_index : Z; st_skip : skip; sort_status : Z; queue_list_size : Z }.

Definition start_state : next_state := NextState 0 0 0 SKIP_NOTHING MAY_RESORT_JOBS 0.

(** ** Searches *)

Definition flags_at (u : universe) (r : sort_resv) : job_flags := flags_of u (rank r).
Definition eligible (u : universe) (r : sort_resv) : bool := negb (can_not_run (flags_at u r)) && runnable r.

(** A job is taken, passed by, or ends the search. *)
Inductive verdict := Take | Pass | Stop.

(** The index of the first job that is taken, or -1; reading over the [NULL] is a crash. *)
Fixpoint search (look : sort_resv -> verdict) (arr : jobs_array) (i : Z) : option Z :=
  match arr with
  | [] => None
  | None :: _ => Some (-1)
  | Some r :: arr =>
      match look r with
      | Take => Some i
      | Pass => search look arr (i + 1)
      | Stop => Some (-1)
      end
  end.
Definition search_from (look : sort_resv -> verdict) (arr : option jobs_array) (start_index : Z) : option Z :=
  match arr with
  | None => Some (-1)
  | Some arr => search look (drop (Z.to_nat start_index) arr) start_index
  end.

Definition find_runnable_resresv_ind (u : universe) : option jobs_array -> Z -> option Z :=
  search_from (fun r => if eligible u r then Take else Pass).

Definition PREEMPT_TO_BIT (p : Z) : Z := Z.shiftl 1 p.

Definition non_normal (u : universe) (r : sort_resv) (j : job_info) : bool :=
  negb (Z.land (preempt_status (flags_at u r)) (PREEMPT_TO_BIT PREEMPT_EXPRESS) =? 0) ||
  is_preempted (flags_at u r) || is_starving j.

Definition find_non_normal_job_ind (u : universe) : option jobs_array -> Z -> option Z :=
  search_from (fun r =>
    match job r with
    | None => Pass
    | Some j =>
        if non_normal u r j then (if can_not_run (flags_at u r) then Pass else Take)
        else if negb (Z.land (preempt_status (flags_at u r)) (PREEMPT_TO_BIT PREEMPT_NORMAL) =? 0) then Stop
        else Pass
    end).

(** The job at an index that was found *)
Definition at_index (arr : option jobs_array) (ind : Z) : option (option sort_resv) :=
  if ind =? -1 then Some None else arr ← arr; rd arr ind.

Definition jobs_of (u : universe) (i : nat) : option jobs_array := sq_jobs <$> ss_queues (srv u) !! i.

Fixpoint find_ready_loop (u : universe) (resvs : list next_resv) : option (option sort_resv) :=
  match resvs with
  | [] => Some None
  | v :: resvs =>
      let found :=
        if bool_decide (nv_state v = Some RESV_RUNNING) then
          match nv_queue v with
          | Some q => jobs ← jobs_of u q; ind ← find_runnable_resresv_ind u (Some jobs) 0; at_index (Some jobs) ind
          | None => Some None
          end
        else Some None in
      rjob ← found;
      match rjob with
      | Some _ => Some rjob
      | None => find_ready_loop u resvs
      end
  end.
Definition find_ready_resv_job (u : universe) : option (option sort_resv) :=
  match resvs u with None => Some None | Some l => find_ready_loop u l end.

(** ** The next job *)

Section Next.
Context (sort : (option sort_resv -> option sort_resv -> option Z) -> jobs_array -> option jobs_array).
Context (e : sort_env) (policy : settings).

(** The loop over the queues of a priority from [last_queue] on: the job, the next
    [last_queue], and the queues that were finished *)
Fixpoint rr_for (u : universe) (size : Z) (qs : list nat) (last_queue finished : Z)
  : option (option sort_resv * Z * Z) :=
  match qs with
  | [] => Some (None, last_queue, finished)
  | i :: qs =>
      jobs ← jobs_of u i;
      ind ← find_runnable_resresv_ind u (Some jobs) 0;
      rjob ← at_index (Some jobs) ind;
      let last_queue := if last_queue + 1 =? size then 0 else last_queue + 1 in
      match rjob with
      | None => if finished + 1 =? size then Some (None, last_queue, finished + 1)
                else rr_for u size qs last_queue (finished + 1)
      | Some r => Some (Some r, last_queue, 0)
      end
  end.

(** The loop over the priorities from [i] on: the job, and [last_queue] and
    [last_queue_index] *)
Fixpoint rr_while (fuel : nat) (u : universe) (queue_list : list (list nat)) (queue_list_size i last_queue last_queue_index : Z)
  : option (option sort_resv * Z * Z) :=
  match fuel with
  | O => None
  | S fuel =>
      if i <? queue_list_size then
        qs ← rd queue_list i;
        let size := Z.of_nat (length qs) in
        '(rjob, last_queue, finished) ← rr_for u size (drop (Z.to_nat last_queue) qs) last_queue 0;
        let '(last_queue, last_queue_index, i) :=
          if finished =? size then (0, last_queue_index + 1, i + 1) else (last_queue, last_queue_index, i) in
        match rjob with
        | Some _ => Some (rjob, last_queue, last_queue_index)
        | None => rr_while fuel u queue_list queue_list_size i last_queue last_queue_index
        end
      else Some (None, last_queue, last_queue_index)
  end.

(** The loop over the queues, by queue; [num_queues] is the number of queues. *)
Fixpoint bq_while (fuel : nat) (u : universe) (last_queue last_job_index : Z) : option (option sort_resv * Z * Z) :=
  match fuel with
  | O => None
  | S fuel =>
      if last_queue <? Z.of_nat (length (ss_queues (srv u))) then
        jobs ← jobs_of u (Z.to_nat last_queue);
        ind ← find_runnable_resresv_ind u (Some jobs) last_job_index;
        if ind =? -1 then bq_while fuel u (last_queue + 1) 0
        else rjob ← at_index (Some jobs) ind; Some (rjob, last_queue, ind)
      else Some (None, last_queue, last_job_index)
  end.

Definition with_srv (u : universe) (s : sort_server) : universe := Universe s (flags_of u) (qrun_job u) (resvs u).

(** The jobs sorted when they are to be *)
Definition next_sort (flag : Z) (st : next_state) (u : universe) : option (next_state * universe) :=
  if negb (sort_status st =? SORTED) || ((flag =? MAY_RESORT_JOBS) && fair_share policy) || (flag =? MUST_RESORT_JOBS) then
    s ← sort_jobs sort e policy (srv u);
    Some (NextState (last_queue st) (last_queue_index st) 0 (st_skip st) SORTED (queue_list_size st), with_srv u s)
  else Some (st, u).

Definition next_initialize (st : next_state) (u : universe) : option (next_state * universe) :=
  s ← sort_jobs sort e policy (srv u);
  let lists := Z.of_nat (length (default [] (ss_queue_list (srv u)))) in
  Some (if round_robin policy then NextState 0 0 0 SKIP_NOTHING SORTED lists
        else NextState (if by_queue policy then 0 else last_queue st) (last_queue_index st) 0 SKIP_NOTHING SORTED (queue_list_size st),
        with_srv u s).

(** The job of the policy, with the static variables after it *)
Definition next_by_policy (st : next_state) (u : universe) : option (option sort_resv * next_state) :=
  let s := srv u in
  if round_robin policy then
    let ql := default [] (ss_queue_list s) in
    '(rjob, lq, lqi) ← rr_while (S (2 * length ql)) u ql (queue_list_size st) (last_queue_index st) (last_queue st) (last_queue_index st);
    Some (rjob, NextState lq lqi (last_job_index st) (st_skip st) (sort_status st) (queue_list_size st))
  else if by_queue policy then
    '(rjob, skip, lji) ←
      (if decide (st_skip st = SKIP_NON_NORMAL_JOBS) then Some (None, SKIP_NON_NORMAL_JOBS, last_job_index st)
       else
         ind ← find_non_normal_job_ind u (Some (ss_jobs s)) (last_job_index st);
         if ind =? -1 then Some (None, SKIP_NON_NORMAL_JOBS, 0)
         else rjob ← at_index (Some (ss_jobs s)) ind; Some (rjob, st_skip st, ind));
    if decide (skip = SKIP_NON_NORMAL_JOBS) then
      '(rjob, lq, lji) ← bq_while (S (length (ss_queues s))) u (last_queue st) lji;
      Some (rjob, NextState lq (last_queue_index st) lji skip (sort_status st) (queue_list_size st))
    else Some (rjob, NextState (last_queue st) (last_queue_index st) lji skip (sort_status st) (queue_list_size st))
  else
    ind ← find_runnable_resresv_ind u (Some (ss_jobs s)) (last_job_index st);
    rjob ← at_index (Some (ss_jobs s)) ind;
    Some (rjob, if ind =? -1 then st
                else NextState (last_queue st) (last_queue_index st) ind (st_skip st) (sort_status st) (queue_list_size st)).

Definition set_skip (st : next_state) (k : skip) : next_state :=
  NextState (last_queue st) (last_queue_index st) (last_job_index st) k (sort_status st) (queue_list_size st).

Definition next_job (flag : Z) (st : next_state) (u : universe) : option (option sort_resv * (next_state * universe)) :=
  if flag =? INITIALIZE then r ← next_initialize st u; Some (None, r)
  else
    match qrun_job u with
    | Some r => Some (if eligible u r then Some r else None, (st, u))
    | None =>
        rjob ← (if decide (st_skip st = SKIP_RESERVATIONS) then Some None else find_ready_resv_job u);
        match rjob with
        | Some _ => Some (rjob, (st, u))
        | None =>
            '(st, u) ← next_sort flag (set_skip st SKIP_RESERVATIONS) u;
            '(rjob, st) ← next_by_policy st u;
            Some (rjob, (st, u))
        end
    end.

(** ** A cycle

    [main_sched_loop] marks a job that cannot run, [run_update_resresv] one that is run. *)
Definition mark (r : sort_resv) (u : universe) : universe :=
  Universe (srv u) (fun k => let f := flags_of u k in
    if k =? rank r then JobFlags true (is_preempted f) (preempt_status f) else f) (qrun_job u) (resvs u).

(** The jobs considered in a cycle; [again] is what is to be sorted after a job. *)
Fixpoint consider (fuel : nat) (again : sort_resv -> Z) (sort_again : Z) (st : next_state) (u : universe) : option (list sort_resv) :=
  match fuel with
  | O => None
  | S fuel =>
      '(rjob, (st, u)) ← next_job sort_again st u;
      match rjob with
      | None => Some []
      | Some r => l ← consider fuel again (again r) st (mark r u); Some (r :: l)
      end
  end.

End Next.
End NextJob.

(** * The order of a cycle

    Module [NextJobProps]: every eligible job is considered once: those of running
    reservations, then in the order of the server's array, of its queues one after
    the other, or of the queues of a priority in turn. *)
Module NextJobProps.
Import NextJob.

Implicit Types (r : sort_resv) (js : list sort_resv) (arr : jobs_array) (u : universe) (p : universe -> sort_resv -> bool).

(** ** Marking

    A predicate of what may be picked is lost by the job that is marked only. *)
Class Marked p := marked : forall r u r', p (mark r u) r' = p u r' && negb (rank r' =? rank r).

#[export] Instance eligible_marked : Marked eligible.
Proof.
  intros r u r'. unfold eligible, flags_at, mark. cbn.
  destruct (rank r' =? rank r); cbn; [by rewrite andb_false_r|by rewrite andb_true_r].
Qed.

(** A job that [find_non_normal_job_ind] takes, and one it stops at *)
Definition important u r : bool := from_option (non_normal u r) false (job r).
Definition urgent u r : bool := important u r && negb (can_not_run (flags_at u r)).
Definition stops u r : bool :=
  from_option (fun j => negb (non_normal u r j) && negb (Z.land (preempt_status (flags_at u r)) (PREEMPT_TO_BIT PREEMPT_NORMAL) =? 0))
    false (job r).

Lemma important_mark r u r' : important (mark r u) r' = important u r'.
Proof. unfold important, non_normal, flags_at, mark. destruct (job r'); [|done]. cbn. by destruct (rank r' =? rank r). Qed.
Lemma stops_mark r u r' : stops (mark r u) r' = stops u r'.
Proof. unfold stops, non_normal, flags_at, mark. destruct (job r'); [|done]. cbn. by destruct (rank r' =? rank r). Qed.

#[export] Instance urgent_marked : Marked urgent.
Proof.
  intros r u r'. unfold urgent. rewrite important_mark. unfold flags_at, mark. cbn.
  destruct (rank r' =? rank r); cbn; [by rewrite !andb_false_r|by rewrite andb_true_r].
Qed.

Definition picked p u js : list sort_resv := filter (fun r => p u r = true) js.
Abbreviation chosen := (picked eligible).

Lemma picked_cons p u r js : picked p u (r :: js) = (if p u r then [r] else []) ++ picked p u js.
Proof. unfold picked. rewrite filter_cons. by destruct (p u r). Qed.
Lemma picked_app p u js js' : picked p u (js ++ js') = picked p u js ++ picked p u js'.
Proof. apply filter_app. Qed.

Section Marking.
Context p `{!Marked p}.

Lemma picked_other r u js : ~ rank r ∈ rank <$> js -> picked p (mark r u) js = picked p u js.
Proof using Marked0.
  induction js as [|r' js IH]; [done|]. intros H. rewrite fmap_cons, not_elem_of_cons in H. destruct H as [H1 H2].
  rewrite !picked_cons, marked, IH by done. rewrite (proj2 (Z.eqb_neq _ _)) by congruence. by rewrite andb_true_r.
Qed.

Lemma picked_less r u js : picked p u js = [] -> picked p (mark r u) js = [].
Proof using Marked0.
  induction js as [|r' js IH]; [done|]. rewrite !picked_cons, marked. destruct (p u r'); [done|]. apply IH.
Qed.

(** The first job picked is the first of those that may be, and the others are those
    when it is marked. *)
Lemma picked_first r u l1 l2 : NoDup (rank <$> l1 ++ r :: l2) -> picked p u l1 = [] -> p u r = true ->
  picked p u (l1 ++ r :: l2) = r :: picked p (mark r u) (l1 ++ r :: l2).
Proof using Marked0.
  intros Hnd Hn He. rewrite fmap_app, fmap_cons in Hnd. apply NoDup_app in Hnd as (_ & Hd & Hnd).
  apply NoDup_cons in Hnd as [Hr _]. rewrite !picked_app, !picked_cons, Hn, He, marked, Z.eqb_refl, andb_false_r.
  rewrite (picked_less r u l1 Hn). cbn. by rewrite picked_other.
Qed.

End Marking.

Fixpoint mark_all js u : universe := match js with [] => u | r :: js => mark_all js (mark r u) end.

Lemma mark_all_srv js u : srv (mark_all js u) = srv u /\ qrun_job (mark_all js u) = qrun_job u /\ resvs (mark_all js u) = resvs u.
Proof. revert u. induction js as [|r js IH]; intros u; [done|]. cbn. destruct (IH (mark r u)) as (-> & -> & ->). done. Qed.

(** ** Arrays *)

(** The jobs before the [NULL] *)
Fixpoint jobs_in arr : list sort_resv := match arr with Some r :: arr => r :: jobs_in arr | _ => [] end.
Definition terminated arr : Prop := None ∈ arr.

Lemma jobs_in_split arr : terminated arr -> exists rest, arr = (Some <$> jobs_in arr) ++ None :: rest.
Proof.
  induction arr as [|[r|] arr IH]; intros Ht; [by apply elem_of_nil in Ht| |by exists arr].
  apply elem_of_cons in Ht as [|Ht]; [done|]. destruct (IH Ht) as (rest & Hr). exists rest. cbn. by rewrite <-Hr.
Qed.

(** A search that takes what may be picked and stops where nothing more may be *)
Definition looks p u (look : sort_resv -> verdict) js : Prop :=
  (forall r, look r = Take <-> p u r = true) /\
  (forall l1 r l2, js = l1 ++ r :: l2 -> look r = Stop -> picked p u l2 = []).

Lemma looks_tail p u look r js : looks p u look (r :: js) -> looks p u look js.
Proof. intros [H1 H2]. split; [done|]. intros l1 r' l2 ->. by apply (H2 (r :: l1)). Qed.

Lemma search_picks p u look js rest : looks p u look js -> forall i, exists ind,
  search look ((Some <$> js) ++ None :: rest) i = Some ind /\
  (ind = -1 /\ picked p u js = [] \/
   exists l1 r l2, js = l1 ++ r :: l2 /\ picked p u l1 = [] /\ p u r = true /\ ind = i + Z.of_nat (length l1)).
Proof.
  induction js as [|r js IH]; intros Hl i; [exists (-1); split; [done|by left]|]. cbn [fmap list_fmap app search].
  pose proof (proj1 Hl r) as Htake. destruct (look r) eqn:El.
  - exists i. split; [done|]. right. exists [], r, js. split_and!; [done|done|by apply Htake|cbn; lia].
  - destruct (IH (looks_tail p u look r js Hl) (i + 1)) as (ind & Hs & Hcase). exists ind. split; [exact Hs|].
    assert (p u r = false) as Hr by (destruct (p u r); [discriminate (proj2 Htake eq_refl)|done]).
    destruct Hcase as [[-> Hn]|(l1 & r' & l2 & -> & Hn & He & ->)].
    + left. by rewrite picked_cons, Hr, Hn.
    + right. exists (r :: l1), r', l2. split_and!; [done|by rewrite picked_cons, Hr, Hn|done|cbn; lia].
  - exists (-1). split; [done|]. left. split; [done|].
    assert (p u r = false) as Hr by (destruct (p u r); [discriminate (proj2 Htake eq_refl)|done]).
    rewrite picked_cons, Hr. by apply (proj2 Hl [] r js).
Qed.

(** A search from an index that passes over nothing *)
Lemma search_from_ok p u look arr (start : Z) : terminated arr -> looks p u look (jobs_in arr) ->
  0 <= start <= Z.of_nat (length (jobs_in arr)) -> picked p u (take (Z.to_nat start) (jobs_in arr)) = [] ->
  (search_from look (Some arr) start = Some (-1) /\ picked p u (jobs_in arr) = []) \/
  exists l1 r l2, jobs_in arr = l1 ++ r :: l2 /\ picked p u l1 = [] /\ p u r = true /\
    search_from look (Some arr) start = Some (Z.of_nat (length l1)) /\
    at_index (Some arr) (Z.of_nat (length l1)) = Some (Some r).
Proof.
  intros Ht Hl Hs Hz. destruct (jobs_in_split arr Ht) as (rest & Harr). set (js := jobs_in arr) in *. clearbody js. subst arr.
  unfold search_from. rewrite drop_app_le, <-fmap_drop by (rewrite length_fmap; lia).
  assert (length (take (Z.to_nat start) js) = Z.to_nat start) as Htk by (rewrite length_take; lia).
  assert (looks p u look (drop (Z.to_nat start) js)) as Hl'.
  { split; [apply Hl|]. intros l1 r l2 E. apply (proj2 Hl (take (Z.to_nat start) js ++ l1)). by rewrite <-app_assoc, <-E, take_drop. }
  destruct (search_picks p u look (drop (Z.to_nat start) js) rest Hl' start) as (ind & -> & Hcase).
  destruct Hcase as [[-> Hn]|(l1 & r & l2 & E & Hn & He & ->)].
  - left. split; [done|]. by rewrite <-(take_drop (Z.to_nat start) js), picked_app, Hz, Hn.
  - assert (js = (take (Z.to_nat start) js ++ l1) ++ r :: l2) as Hjs by by rewrite <-app_assoc, <-E, take_drop.
    assert (start + Z.of_nat (length l1) = Z.of_nat (length (take (Z.to_nat start) js ++ l1))) as Hlen by (rewrite length_app, Htk; lia).
    right. exists (take (Z.to_nat start) js ++ l1), r, l2. split_and!; [done|by rewrite picked_app, Hz, Hn|done|by rewrite Hlen|].
    unfold at_index, rd. rewrite (proj2 (Z.eqb_neq _ _)), (proj2 (Z.ltb_ge _ _)) by lia. cbn [mbind option_bind].
    assert (Some <$> js = (Some <$> take (Z.to_nat start) js ++ l1) ++ Some r :: (Some <$> l2)) as -> by by rewrite Hjs at 1; rewrite fmap_app.
    rewrite Nat2Z.id, <-app_assoc, lookup_app_r by (rewrite length_fmap; lia).
    by rewrite length_fmap, Nat.sub_diag.
Qed.

Lemma looks_runnable u js : looks eligible u (fun r => if eligible u r then Take else Pass) js.
Proof. split; [intros r|intros l1 r l2 _]; by destruct (eligible u r). Qed.

Lemma index_not_end (l : list sort_resv) : (Z.of_nat (length l) =? -1) = false.
Proof. apply Z.eqb_neq. lia. Qed.

(** ** Reservations *)

(** The queues of the reservations that run *)
Definition ready_queues (l : list next_resv) : list nat :=
  omap (fun v => if bool_decide (nv_state v = Some RESV_RUNNING) then nv_queue v else None) l.
(** The jobs of a queue *)
Definition queue_jobs u (q : nat) : list sort_resv := from_option jobs_in [] (jobs_of u q).
Definition queue_ok u (q : nat) : Prop := exists arr, jobs_of u q = Some arr /\ terminated arr.
Definition resv_jobs u : list sort_resv := concat (queue_jobs u <$> ready_queues (default [] (resvs u))).

Lemma search_queue u q : queue_ok u q -> exists arr ind, jobs_of u q = Some arr /\ find_runnable_resresv_ind u (Some arr) 0 = Some ind /\
  (ind = -1 /\ chosen u (queue_jobs u q) = [] \/
   exists l1 r l2, queue_jobs u q = l1 ++ r :: l2 /\ chosen u l1 = [] /\ eligible u r = true /\ at_index (Some arr) ind = Some (Some r)).
Proof.
  intros (arr & Ha & Ht). unfold queue_jobs. rewrite Ha. cbn [from_option].
  destruct (search_from_ok _ _ _ arr 0 Ht (looks_runnable u _) ltac:(lia) eq_refl) as [[Hrun Hn]|(l1 & r & l2 & Hl & Hn & He & Hrun & Hat)].
  - exists arr, (-1). split_and!; [done|done|]. by left.
  - exists arr, (Z.of_nat (length l1)). split_and!; [done|done|]. right. by exists l1, r, l2.
Qed.

Lemma find_ready_loop_ok u (l : list next_resv) : Forall (queue_ok u) (ready_queues l) ->
  let js := concat (queue_jobs u <$> ready_queues l) in
  (find_ready_loop u l = Some None /\ chosen u js = []) \/
  exists l1 r l2, js = l1 ++ r :: l2 /\ chosen u l1 = [] /\ eligible u r = true /\ find_ready_loop u l = Some (Some r).
Proof.
  induction l as [|v l IH]; intros Ha; [by left|]. cbn [find_ready_loop]. unfold ready_queues in Ha |- *. cbn [omap list_omap] in Ha |- *.
  destruct (bool_decide (nv_state v = Some RESV_RUNNING)); cbn [mbind option_bind]; [|exact (IH Ha)].
  destruct (nv_queue v) as [q|]; cbn [mbind option_bind]; [|exact (IH Ha)].
  apply Forall_cons in Ha as [Hq Ha]. cbn [fmap list_fmap concat].
  destruct (search_queue u q Hq) as (arr & ind & -> & Hrun & Hcase). cbn [mbind option_bind]. rewrite Hrun. cbn [mbind option_bind].
  destruct Hcase as [[-> Hn]|(l1 & r & l2 & Hl & Hn & He & Hat)].
  - unfold at_index. cbn. destruct (IH Ha) as [[-> Hr]|(l1 & r & l2 & Hr & H1 & H2 & H3)]; unfold ready_queues in Hr; cbn in Hr.
    + left. split; [done|]. by rewrite picked_app, Hn, Hr.
    + right. exists (queue_jobs u q ++ l1), r, l2.
      split_and!; [by rewrite Hr, <-app_assoc|by rewrite picked_app, Hn|done|exact H3].
  - right. rewrite Hat. cbn [mbind option_bind]. rewrite Hl. eexists l1, r, (l2 ++ _).
    split_and!; [by rewrite <-app_assoc|done|done|done].
Qed.

Definition resvs_held u : Prop := Forall (queue_ok u) (ready_queues (default [] (resvs u))).

Lemma find_ready_ok u : resvs_held u ->
  (find_ready_resv_job u = Some None /\ chosen u (resv_jobs u) = []) \/
  exists l1 r l2, resv_jobs u = l1 ++ r :: l2 /\ chosen u l1 = [] /\ eligible u r = true /\
    find_ready_resv_job u = Some (Some r).
Proof.
  unfold resvs_held, resv_jobs, find_ready_resv_job. destruct (resvs u) as [l|]; [|by left]. apply find_ready_loop_ok.
Qed.

(** ** Taking turns

    The first elements of all lists, then the second ones, and so on *)
Definition longest {A : Type} (ls : list (list A)) : nat := foldr Nat.max 0%nat (length <$> ls).
Definition rounds {A : Type} (ls : list (list A)) : list A :=
  concat ((fun k => omap (fun l : list A => l !! k) ls) <$> seq 0 (longest ls)).
(** The rest of a round that has come to [ahead], and what follows it *)
Definition turns {A : Type} (ahead behind : list (list A)) : list A := omap head ahead ++ rounds (behind ++ (tail <$> ahead)).

Lemma longest_tail {A : Type} (ls : list (list A)) : longest (tail <$> ls) = Nat.pred (longest ls).
Proof.
  unfold longest. induction ls as [|l ls IH]; [done|]. rewrite !fmap_cons. cbn [foldr]. rewrite IH. destruct l; cbn; lia.
Qed.

Lemma lookup_tails {A : Type} (k : nat) (ls : list (list A)) :
  omap (fun l : list A => l !! S k) ls = omap (fun l : list A => l !! k) (tail <$> ls).
Proof. induction ls as [|[|x l] ls IH]; [done|exact IH|]. cbn. rewrite IH. by destruct (l !! k). Qed.
Lemma lookup_heads {A : Type} (ls : list (list A)) : omap (fun l : list A => l !! 0%nat) ls = omap head ls.
Proof. induction ls as [|[|x l] ls IH]; [done|exact IH|]. cbn. by f_equal. Qed.

Lemma rounds_step {A : Type} (ls : list (list A)) : rounds ls = omap head ls ++ rounds (tail <$> ls).
Proof.
  unfold rounds. rewrite longest_tail. destruct (longest ls) as [|n] eqn:En.
  - assert (omap head ls = []) as ->; [|done]. unfold longest in En. induction ls as [|l ls IH]; [done|].
    rewrite fmap_cons in En. cbn [foldr] in En. destruct l; cbn in En |- *; [apply IH; lia|lia].
  - cbn [Nat.pred seq]. rewrite fmap_cons. cbn [concat]. rewrite lookup_heads, <-fmap_S_seq, <-list_fmap_compose. do 2 f_equal.
    apply list_fmap_ext. intros _ k _. apply lookup_tails.
Qed.

Lemma turns_all {A : Type} (ls : list (list A)) : turns [] ls = turns ls [].
Proof. unfold turns. cbn. rewrite app_nil_r. apply rounds_step. Qed.

Lemma rounds_turns {A : Type} (ls : list (list A)) : turns ls [] = rounds ls.
Proof. rewrite <-turns_all. unfold turns. cbn. by rewrite app_nil_r. Qed.

Lemma turns_empty {A : Type} (ls : list (list A)) : Forall (fun l => l = []) ls -> turns ls [] = [].
Proof.
  intros He. rewrite rounds_turns. unfold rounds. assert (longest ls = 0%nat) as ->; [|done].
  induction He as [|l ls -> _ IH] using Forall_ind; [done|exact IH].
Qed.

Lemma turns_next {A : Type} (empty : list (list A)) x l ahead behind : Forall (fun l => l = []) empty ->
  turns (empty ++ (x :: l) :: ahead) behind = x :: turns ahead (behind ++ empty ++ [l]).
Proof.
  intros He. unfold turns. rewrite omap_app, fmap_app. cbn.
  assert (omap head empty = []) as -> by (induction He as [|l' ls -> _ IH] using Forall_ind; [done|exact IH]).
  assert (tail <$> empty = empty) as -> by (induction He as [|l' ls -> _ IH] using Forall_ind; [done|cbn; by f_equal]).
  cbn. by rewrite <-!app_assoc.
Qed.

Lemma turns_end {A : Type} (ahead behind : list (list A)) : Forall (fun l => l = []) ahead ->
  turns ahead behind = turns (behind ++ ahead) [].
Proof.
  intros He. rewrite <-turns_all. unfold turns. cbn. rewrite app_nil_r.
  assert (omap head ahead = []) as -> by (induction He as [|l' ls -> _ IH] using Forall_ind; [done|exact IH]).
  assert (tail <$> ahead = ahead) as -> by (induction He as [|l' ls -> _ IH] using Forall_ind; [done|cbn; by f_equal]).
  done.
Qed.

Lemma heads_tails {A : Type} (ls : list (list A)) : omap head ls ++ concat (tail <$> ls) ≡ₚ concat ls.
Proof.
  induction ls as [|[|x l] ls IH]; [done|exact IH|]. cbn. rewrite <-IH. cbn. constructor. by rewrite Permutation_app_swap_app.
Qed.

Lemma rounds_perm {A : Type} (ls : list (list A)) : rounds ls ≡ₚ concat ls.
Proof.
  remember (longest ls) as n eqn:Hn. revert ls Hn. induction n as [|n IH]; intros ls Hn.
  - unfold rounds. rewrite <-Hn. cbn. unfold longest in Hn. induction ls as [|l ls IH]; [done|].
    rewrite fmap_cons in Hn. cbn [foldr] in Hn. destruct l; cbn in Hn |- *; [apply IH; lia|lia].
  - rewrite rounds_step, IH by (rewrite longest_tail; lia). apply heads_tails.
Qed.

(** ** Marking many *)

Lemma marked_all p `{!Marked p} js : forall u r, p (mark_all js u) r = true <-> p u r = true /\ ~ rank r ∈ rank <$> js.
Proof.
  induction js as [|r' js IH]; intros u r; cbn [mark_all].
  { rewrite fmap_nil, elem_of_nil. tauto. }
  rewrite IH, marked, andb_true_iff, negb_true_iff, Z.eqb_neq, fmap_cons, elem_of_cons. tauto.
Qed.

Lemma elem_picked p u r js : r ∈ picked p u js <-> p u r = true /\ r ∈ js.
Proof. unfold picked. apply (list_elem_of_filter (fun r => p u r = true)). Qed.

Lemma picked_once p u js : NoDup (rank <$> js) -> NoDup (rank <$> picked p u js).
Proof.
  induction js as [|r js IH]; [done|]. rewrite fmap_cons. intros [Hr Hnd]%NoDup_cons. rewrite picked_cons.
  destruct (p u r); [|by apply IH]. cbn. constructor; [|by apply IH]. intros (r' & E & Hr')%list_elem_of_fmap.
  apply Hr, list_elem_of_fmap. exists r'. split; [exact E|]. by apply elem_picked in Hr' as [_ ?].
Qed.

Lemma once_app js js' : NoDup (rank <$> js) -> NoDup (rank <$> js') -> (forall r, r ∈ js' -> ~ rank r ∈ rank <$> js) ->
  NoDup (rank <$> js ++ js').
Proof.
  intros H1 H2 H. rewrite fmap_app. apply NoDup_app. split_and!; [done| |done].
  intros k Hk (r & -> & Hr)%list_elem_of_fmap. by apply (H r).
Qed.

(** ** The calls of a cycle *)

Section Order.
Context (sort : (option sort_resv -> option sort_resv -> option Z) -> jobs_array -> option jobs_array).
Context (e : sort_env) (policy : settings) (again : sort_resv -> Z).
Abbreviation considered := (fun fuel => consider sort e policy fuel again).

(** Nothing is sorted again. *)
Definition stays (flag : Z) : Prop :=
  flag = DONT_SORT_JOBS \/ flag = SORTED \/ flag = MAY_RESORT_JOBS /\ fair_share policy = false.
Hypothesis Hagain : forall r, stays (again r).

Lemma next_after_resvs (flag : Z) (st : next_state) u : stays flag -> qrun_job u = None -> sort_status st = SORTED ->
  st_skip st = SKIP_RESERVATIONS \/ find_ready_resv_job u = Some None ->
  next_job sort e policy flag st u =
    '(rjob, st') ← next_by_policy policy (set_skip st SKIP_RESERVATIONS) u; Some (rjob, (st', u)).
Proof using Type.
  intros Hf Hq Hs Hr. unfold next_job. assert ((flag =? INITIALIZE) = false) as -> by by destruct Hf as [->|[->|[-> _]]].
  rewrite Hq.
  assert ((if decide (st_skip st = SKIP_RESERVATIONS) then Some None else find_ready_resv_job u) = Some None) as ->.
  { destruct Hr as [-> | ->]; [by rewrite decide_True|by destruct (decide _)]. }
  cbn [mbind option_bind]. unfold next_sort. cbn [set_skip sort_status]. rewrite Hs.
  assert (negb (SORTED =? SORTED) || (flag =? MAY_RESORT_JOBS) && fair_share policy || (flag =? MUST_RESORT_JOBS) = false) as ->
    by by destruct Hf as [->|[->|[-> ->]]].
  done.
Qed.

(** First the eligible jobs of the reservations that run *)
Lemma consider_resvs (fuel : nat) (flag : Z) (st : next_state) : st_skip st <> SKIP_RESERVATIONS ->
  forall (n : nat) u, stays flag -> length (chosen u (resv_jobs u)) = n -> qrun_job u = None -> resvs_held u ->
  NoDup (rank <$> resv_jobs u) -> let rs := chosen u (resv_jobs u) in
  exists flag', stays flag' /\
    considered (n + fuel)%nat flag st u = (l ← considered fuel flag' st (mark_all rs u); Some (rs ++ l)) /\
    chosen (mark_all rs u) (resv_jobs u) = [].
Proof using Hagain.
  intros Hst n. revert flag. induction n as [|n IH]; intros flag u Hfl Hn Hq Hh Hnd rs.
  { apply nil_length_inv in Hn. unfold rs. rewrite Hn. exists flag. split_and!; [done| |done]. cbn. by destruct (consider _ _ _ fuel _ _ _ _). }
  destruct (find_ready_ok u Hh) as [[_ Hz]|(l1 & r & l2 & Hl & Hz & He & Hf)]; [by rewrite Hz in Hn|].
  assert (rs = r :: chosen (mark r u) (resv_jobs (mark r u))) as Hrs.
  { unfold rs. change (resv_jobs (mark r u)) with (resv_jobs u). rewrite Hl in Hnd |- *. by apply picked_first; [apply _|..]. }
  destruct (IH (again r) (mark r u)) as (flag' & Hfl' & IH1 & IH2); [done| |done|done|done|].
  { fold rs in Hn. rewrite Hrs in Hn. cbn in Hn. by injection Hn. }
  exists flag'. rewrite Hrs. cbn [mark_all]. split_and!; [done| |exact IH2]. cbn [Nat.add consider].
  assert (next_job sort e policy flag st u = Some (Some r, (st, u))) as ->.
  { unfold next_job. assert ((flag =? INITIALIZE) = false) as -> by by destruct Hfl as [->|[->|[-> _]]].
    rewrite Hq, decide_False by done. by rewrite Hf. }
  cbn [mbind option_bind]. rewrite IH1. by destruct (consider _ _ _ fuel _ _ _ _).
Qed.

(** A cycle after the reservations: no job of theirs may be picked, all is sorted. *)
Record after_resvs (flag : Z) (st : next_state) u : Prop := {
  ar_flag : stays flag; ar_qrun : qrun_job u = None; ar_sorted : sort_status st = SORTED;
  ar_held : resvs_held u; ar_none : chosen u (resv_jobs u) = [] }.

Lemma after_none (flag : Z) (st : next_state) u : after_resvs flag st u -> find_ready_resv_job u = Some None.
Proof using Type.
  intros [_ _ _ Hh Hn]. destruct (find_ready_ok u Hh) as [[H _]|(l1 & r & l2 & Hl & _ & He & _)]; [done|].
  rewrite Hl, picked_app, picked_cons, He in Hn. by apply app_nil in Hn as [_ Hn].
Qed.

Lemma after_mark (flag : Z) (st st' : next_state) r u : after_resvs flag st u -> sort_status st' = SORTED ->
  after_resvs (again r) st' (mark r u).
Proof using Hagain.
  intros [Hf Hq _ Hh Hn] Hs. split; [done|done|done|done|]. change (resv_jobs (mark r u)) with (resv_jobs u).
  by apply picked_less; [apply _|].
Qed.

Lemma consider_next (fuel : nat) (flag : Z) (st : next_state) u : after_resvs flag st u ->
  considered (S fuel) flag st u =
    '(rjob, st') ← next_by_policy policy (set_skip st SKIP_RESERVATIONS) u;
    match rjob with None => Some [] | Some r => l ← considered fuel (again r) st' (mark r u); Some (r :: l) end.
Proof using Type.
  intros Ha. pose proof (after_none _ _ _ Ha). destruct Ha as [Hf Hq Hs _ _]. cbn [consider].
  rewrite next_after_resvs by (try done; by right). by destruct (next_by_policy _ _ _) as [[[r|] st']|].
Qed.

(** *** One array *)

Definition server_jobs u : list sort_resv := jobs_in (ss_jobs (srv u)).
Definition server_ok u : Prop := terminated (ss_jobs (srv u)) /\ NoDup (rank <$> server_jobs u).

(** The index of the last job is within an array, and nothing before it may be picked. *)
Definition passed p u js (i : Z) : Prop := 0 <= i <= Z.of_nat (length js) /\ picked p u (take (Z.to_nat i) js) = [].

Lemma passed_start p u js : passed p u js 0.
Proof using Type. split; [lia|done]. Qed.

Lemma passed_found p `{!Marked p} r u l1 l2 : picked p u l1 = [] -> passed p (mark r u) (l1 ++ r :: l2) (Z.of_nat (length l1)).
Proof using Type.
  intros Hn. split; [rewrite length_app; lia|]. rewrite Nat2Z.id, take_app_length. by apply picked_less.
Qed.

Lemma consider_plain (fuel : nat) : round_robin policy = false -> by_queue policy = false ->
  forall (flag : Z) (st : next_state) u, after_resvs flag st u -> server_ok u ->
  passed eligible u (server_jobs u) (last_job_index st) -> (length (chosen u (server_jobs u)) < fuel)%nat ->
  considered fuel flag st u = Some (chosen u (server_jobs u)).
Proof using Hagain.
  intros Hrr Hbq. induction fuel as [|fuel IH]; intros flag st u Ha [Ht Hnd] [Hi Hz] Hf; [lia|].
  rewrite consider_next by done. unfold next_by_policy. rewrite Hrr, Hbq. cbn [set_skip last_job_index].
  destruct (search_from_ok _ _ _ _ (last_job_index st) Ht (looks_runnable u _) Hi Hz)
    as [[Hrun Hn]|(l1 & r & l2 & Hl & Hn & He & Hrun & Hat)]; unfold find_runnable_resresv_ind; rewrite Hrun; cbn [mbind option_bind].
  { unfold server_jobs. by rewrite Hn. }
  rewrite Hat, index_not_end. cbn [mbind option_bind]. fold (server_jobs u) in Hl.
  assert (chosen u (server_jobs u) = r :: chosen (mark r u) (server_jobs u)) as Hc
    by (rewrite Hl in Hnd |- *; by apply picked_first; [apply _|..]).
  rewrite Hc in Hf |- *. rewrite IH; [done| |done| |].
  - eapply after_mark; [done|]. apply Ha.
  - change (server_jobs (mark r u)) with (server_jobs u). rewrite Hl. cbn. by apply passed_found; [apply _|].
  - change (server_jobs (mark r u)) with (server_jobs u). cbn in Hf. lia.
Qed.

(** *** By queue *)

Definition jobs_in_queue (q : sort_queue) : list sort_resv := jobs_in (sq_jobs q).
Definition all_queue_jobs u : list sort_resv := concat (jobs_in_queue <$> ss_queues (srv u)).

(** No job that [find_non_normal_job_ind] looks for is behind one it stops at. *)
Definition fronted u js : Prop :=
  forall l1 r l2, js = l1 ++ r :: l2 -> stops u r = true -> Forall (fun r => important u r = false) l2.

Record queues_ok u : Prop := {
  qo_server : server_ok u; qo_fronted : fronted u (server_jobs u);
  qo_ends : Forall (fun q => terminated (sq_jobs q) /\ (length (jobs_in_queue q) <= length (server_jobs u))%nat) (ss_queues (srv u));
  qo_once : NoDup (rank <$> all_queue_jobs u) }.

Definition non_normal_look u r : verdict :=
  match job r with
  | None => Pass
  | Some j =>
      if non_normal u r j then (if can_not_run (flags_at u r) then Pass else Take)
      else if negb (Z.land (preempt_status (flags_at u r)) (PREEMPT_TO_BIT PREEMPT_NORMAL) =? 0) then Stop
      else Pass
  end.

Lemma looks_non_normal u js : fronted u js -> looks urgent u (non_normal_look u) js.
Proof using Type.
  intros Hf. split.
  - intros r. unfold non_normal_look, urgent, important. destruct (job r) as [j|]; cbn; [|done].
    destruct (non_normal u r j), (can_not_run (flags_at u r)); cbn; try done; by destruct (negb _).
  - intros l1 r l2 E Hr. assert (stops u r = true) as Hs.
    { unfold non_normal_look in Hr. unfold stops. destruct (job r) as [j|]; cbn; [|done].
      destruct (non_normal u r j); cbn; [by destruct (can_not_run _)|]. by destruct (negb _). }
    pose proof (Hf _ _ _ E Hs) as Hall. clear -Hall. induction Hall as [|r' l Hr' Hall IH] using Forall_ind; [done|].
    rewrite picked_cons. unfold urgent at 1. by rewrite Hr'.
Qed.

Lemma fronted_mark r u js : fronted u js -> fronted (mark r u) js.
Proof using Type.
  intros H l1 r' l2 E. rewrite stops_mark. intros Hs. eapply Forall_impl; [by eapply H|]. intros r''. by rewrite important_mark.
Qed.

Lemma queues_ok_mark r u : queues_ok u -> queues_ok (mark r u).
Proof using Type. intros []. split; [done|by apply fronted_mark|done|done]. Qed.

(** The loop over the queues finds the first eligible job of those from [lq] on. *)
Lemma bq_while_ok u : forall (qs : list sort_queue) (fuel lq : nat), drop lq (ss_queues (srv u)) = qs ->
  Forall (fun q => terminated (sq_jobs q)) qs -> (lq <= length (ss_queues (srv u)))%nat -> (length qs < fuel)%nat ->
  (bq_while fuel u (Z.of_nat lq) 0 = Some (None, Z.of_nat (lq + length qs), 0) /\
   chosen u (concat (jobs_in_queue <$> qs)) = []) \/
  exists qs1 q qs2 l1 r l2, qs = qs1 ++ q :: qs2 /\ jobs_in_queue q = l1 ++ r :: l2 /\ eligible u r = true /\
    chosen u (concat (jobs_in_queue <$> qs1) ++ l1) = [] /\
    bq_while fuel u (Z.of_nat lq) 0 = Some (Some r, Z.of_nat (lq + length qs1), Z.of_nat (length l1)).
Proof using Type.
  induction qs as [|q qs IH]; intros fuel lq Hd Ht Hle Hf; (destruct fuel as [|fuel]; [cbn in Hf; lia|]); cbn [bq_while].
  - left. split; [|done]. apply (f_equal length) in Hd. rewrite length_drop in Hd. cbn in Hd.
    rewrite (proj2 (Z.ltb_ge _ _)) by lia. cbn [length]. do 3 f_equal. lia.
  - pose proof (f_equal length Hd) as Hlen. rewrite length_drop in Hlen. cbn in Hlen.
    assert (ss_queues (srv u) !! lq = Some q) as Hq by (rewrite <-(Nat.add_0_r lq), <-lookup_drop, Hd; done).
    rewrite (proj2 (Z.ltb_lt _ _)) by lia. unfold jobs_of. rewrite Nat2Z.id, Hq. cbn [fmap option_fmap option_map mbind option_bind].
    apply Forall_cons in Ht as [Htq Ht].
    destruct (search_from_ok _ _ _ _ 0 Htq (looks_runnable u _) ltac:(lia) eq_refl)
      as [[Hrun Hn]|(l1 & r & l2 & Hl & Hn & He & Hrun & Hat)]; fold (jobs_in_queue q) in *; unfold find_runnable_resresv_ind; rewrite Hrun; cbn [mbind option_bind].
    + change (-1 =? -1) with true. cbn iota. replace (Z.of_nat lq + 1) with (Z.of_nat (S lq)) by lia.
      destruct (IH fuel (S lq)) as [[-> Hz]|(qs1 & q' & qs2 & l1 & r & l2 & -> & Hl & He & Hz & ->)];
        [by rewrite <-Nat.add_1_r, <-drop_drop, Hd|done|lia|cbn in Hf; lia| |].
      * left. split; [do 3 f_equal; cbn; lia|]. rewrite fmap_cons. cbn [concat]. by rewrite picked_app, Hn, Hz.
      * right. exists (q :: qs1), q', qs2, l1, r, l2. split_and!; [done|done|done| |cbn [length]; by rewrite Nat.add_succ_r].
        rewrite fmap_cons. cbn [concat]. by rewrite <-app_assoc, picked_app, Hn.
    + rewrite index_not_end, Hat. cbn [mbind option_bind]. right. exists [], q, qs, l1, r, l2.
      split_and!; [done|done|done|done|by rewrite Nat.add_0_r].
Qed.

(** What is left of the queues from [lq] on is all there is. *)
Definition queues_passed u (lq : Z) : Prop :=
  0 <= lq <= Z.of_nat (length (ss_queues (srv u))) /\
  chosen u (concat (jobs_in_queue <$> take (Z.to_nat lq) (ss_queues (srv u)))) = [].

Lemma next_by_queue (st : next_state) u : round_robin policy = false -> by_queue policy = true -> queues_ok u ->
  st_skip st = SKIP_RESERVATIONS -> 0 <= last_job_index st <= Z.of_nat (length (server_jobs u)) ->
  picked urgent u (server_jobs u) = [] -> queues_passed u (last_queue st) ->
  exists st', sort_status st' = sort_status st /\
    ((next_by_policy policy st u = Some (None, st') /\ chosen u (all_queue_jobs u) = []) \/
     exists r, next_by_policy policy st u = Some (Some r, st') /\ eligible u r = true /\
       chosen u (all_queue_jobs u) = r :: chosen (mark r u) (all_queue_jobs u) /\
       0 <= last_job_index st' <= Z.of_nat (length (server_jobs u)) /\ queues_passed (mark r u) (last_queue st')).
Proof using Type.
  intros Hrr Hbq [[Ht _] Hfr Hends Hnd] Hs Hi Hnone [Hlq Hpass]. unfold next_by_policy. rewrite Hrr, Hbq, Hs, decide_False by done.
  assert (find_non_normal_job_ind u (Some (ss_jobs (srv u))) (last_job_index st) = Some (-1)) as ->.
  { change (find_non_normal_job_ind u) with (search_from (non_normal_look u)).
    destruct (search_from_ok _ _ _ _ (last_job_index st) Ht (looks_non_normal u _ Hfr) Hi) as [[H _]|(l1 & r & l2 & Hl & _ & He & _)]; [|done|].
    - unfold server_jobs in Hnone. rewrite <-(take_drop (Z.to_nat (last_job_index st)) (jobs_in _)), picked_app in Hnone. by apply app_nil in Hnone as [? _].
    - unfold server_jobs in Hnone. rewrite Hl, picked_app, picked_cons, He in Hnone. by apply app_nil in Hnone as [_ ?]. }
  cbn [mbind option_bind]. change (-1 =? -1) with true. cbn [mbind option_bind].
  rewrite decide_True by done.
  rewrite <-(Z2Nat.id (last_queue st)) by lia. set (lq := Z.to_nat (last_queue st)) in *.
  set (qj := fun q => jobs_in (sq_jobs q)) in *.
  assert (Forall (fun q => terminated (sq_jobs q)) (drop lq (ss_queues (srv u)))) as Htq.
  { apply Forall_drop. eapply Forall_impl; [exact Hends|]. by intros q []. }
  assert (all_queue_jobs u = concat (jobs_in_queue <$> take lq (ss_queues (srv u))) ++ concat (jobs_in_queue <$> drop lq (ss_queues (srv u)))) as Hall
    by by rewrite <-concat_app, <-fmap_app, take_drop.
  destruct (bq_while_ok u _ (S (length (ss_queues (srv u)))) lq eq_refl Htq ltac:(lia) ltac:(rewrite length_drop; lia))
    as [[-> Hn]|(qs1 & q & qs2 & l1 & r & l2 & Hq & Hl & He & Hn & ->)]; cbn [mbind option_bind].
  { eexists. split; [|left; split; [reflexivity|]]; [done|]. by rewrite Hall, picked_app, Hpass, Hn. }
  assert (all_queue_jobs u = (concat (jobs_in_queue <$> take lq (ss_queues (srv u)) ++ qs1) ++ l1) ++ r :: l2 ++ concat (jobs_in_queue <$> qs2)) as Hsplit.
  { rewrite Hall, Hq, !fmap_app, fmap_cons, !concat_app. cbn [concat]. by rewrite Hl, <-!app_assoc. }
  assert (chosen u (concat (jobs_in_queue <$> take lq (ss_queues (srv u)) ++ qs1) ++ l1) = []) as Hz
    by (rewrite fmap_app, concat_app, <-app_assoc, picked_app, Hpass; exact Hn).
  eexists. split; [|right; exists r; split_and!; [reflexivity|done| | | |]]; [done| | | |]; cbn [last_job_index last_queue].
  - rewrite Hsplit in Hnd |- *. by apply picked_first; [apply _|..].
  - lia.
  - assert (q ∈ ss_queues (srv u)) as Hin.
    { rewrite <-(take_drop lq (ss_queues (srv u))), Hq. apply elem_of_app. right. apply elem_of_app. right. by left. }
    pose proof (proj1 (Forall_forall _ _) Hends q Hin) as [_ Hlen]. rewrite Hl, length_app in Hlen. lia.
  - change (ss_queues (srv (mark r u))) with (ss_queues (srv u)). split.
    + apply (f_equal length) in Hq. rewrite length_drop, length_app in Hq. change (srv (mark r u)) with (srv u). cbn in Hq. lia.
    + rewrite Nat2Z.id. change (srv (mark r u)) with (srv u).
      assert (take (lq + length qs1) (ss_queues (srv u)) = take lq (ss_queues (srv u)) ++ qs1) as ->
        by (rewrite <-take_take_drop, Hq, take_app_length; done).
      apply picked_less; [apply _|]. rewrite picked_app in Hz. by apply app_nil in Hz as [? _].
Qed.

Section ByQueue.
Hypothesis Hrr : round_robin policy = false.
Hypothesis Hbq : by_queue policy = true.

Lemma consider_queues (fuel : nat) : forall (flag : Z) (st : next_state) u, after_resvs flag st u -> queues_ok u ->
  0 <= last_job_index st <= Z.of_nat (length (server_jobs u)) -> picked urgent u (server_jobs u) = [] ->
  queues_passed u (last_queue st) -> (length (chosen u (all_queue_jobs u)) < fuel)%nat ->
  considered fuel flag st u = Some (chosen u (all_queue_jobs u)).
Proof using Hagain Hrr Hbq.
  induction fuel as [|fuel IH]; intros flag st u Ha Hok Hi Hn Hp Hf; [lia|]. rewrite consider_next by done.
  destruct (next_by_queue (set_skip st SKIP_RESERVATIONS) u Hrr Hbq Hok eq_refl Hi Hn Hp)
    as (st' & Hs & [[-> Hnone]|(r & -> & He & Hc & Hi' & Hp')]); cbn [mbind option_bind]; [by rewrite Hnone|].
  rewrite Hc in Hf |- *. change (all_queue_jobs u) with (all_queue_jobs (mark r u)). rewrite IH; [done| |by apply queues_ok_mark|done| |done|].
  - eapply after_mark; [done|]. rewrite Hs. apply Ha.
  - change (server_jobs (mark r u)) with (server_jobs u). by apply picked_less; [apply _|].
  - change (all_queue_jobs (mark r u)) with (all_queue_jobs u). cbn [length] in Hf. lia.
Qed.

Definition by_queue_order u : list sort_resv :=
  let us := picked urgent u (server_jobs u) in us ++ chosen (mark_all us u) (all_queue_jobs u).

Lemma consider_urgent (fuel : nat) : forall (flag : Z) (st : next_state) u, after_resvs flag st u -> queues_ok u ->
  passed urgent u (server_jobs u) (last_job_index st) -> queues_passed u (last_queue st) ->
  (length (by_queue_order u) < fuel)%nat -> considered fuel flag st u = Some (by_queue_order u).
Proof using Hagain Hrr Hbq.
  unfold by_queue_order. induction fuel as [|fuel IH]; intros flag st u Ha Hok [Hi Hz] Hp Hf; [lia|].
  destruct (qo_server u Hok) as [Ht Hnd].
  destruct (search_from_ok _ _ _ _ (last_job_index st) Ht (looks_non_normal u _ (qo_fronted u Hok)) Hi Hz)
    as [[_ Hn]|(l1 & r & l2 & Hl & Hn & He & Hrun & Hat)]; fold (server_jobs u) in *.
  { rewrite Hn in Hf |- *. by apply consider_queues. }
  rewrite consider_next by done. unfold next_by_policy. rewrite Hrr, Hbq. cbn [set_skip st_skip last_job_index]. rewrite decide_False by done.
  change (find_non_normal_job_ind u) with (search_from (non_normal_look u)). rewrite Hrun. cbn [mbind option_bind].
  rewrite index_not_end, Hat. cbn [mbind option_bind]. rewrite decide_False by done. cbn [mbind option_bind].
  assert (picked urgent u (server_jobs u) = r :: picked urgent (mark r u) (server_jobs (mark r u))) as Hc
    by (change (server_jobs (mark r u)) with (server_jobs u); rewrite Hl in Hnd |- *; by apply picked_first; [apply _|..]).
  rewrite Hc in Hf |- *. cbn [mark_all app] in Hf |- *. change (all_queue_jobs u) with (all_queue_jobs (mark r u)) in Hf |- *.
  rewrite IH; [done| |by apply queues_ok_mark| | |cbn in Hf; lia].
  - eapply after_mark; [done|]. apply Ha.
  - change (server_jobs (mark r u)) with (server_jobs u). rewrite Hl. cbn. by apply passed_found; [apply _|].
  - destruct Hp as [Hle Hp]. split; [done|]. by apply picked_less; [apply _|].
Qed.

End ByQueue.

(** *** Round robin *)

Definition queue_list u : list (list nat) := default [] (ss_queue_list (srv u)).
(** What is left of each queue of a priority *)
Definition lanes u (level : list nat) : list (list sort_resv) := (fun q => chosen u (queue_jobs u q)) <$> level.

Record lanes_ok u : Prop := {
  lo_queues : Forall (queue_ok u) (concat (queue_list u));
  lo_once : NoDup (rank <$> concat (queue_jobs u <$> concat (queue_list u))) }.

(** Queues [lq] of priority [i] is next. *)
Definition at_queue u (i lq : nat) : Prop := lq = 0%nat \/ exists level, queue_list u !! i = Some level /\ (lq < length level)%nat.

Definition round_order u (i lq : nat) : list sort_resv :=
  match drop i (queue_list u) with
  | [] => []
  | level :: later => turns (lanes u (drop lq level)) (lanes u (take lq level)) ++ concat ((fun level => rounds (lanes u level)) <$> later)
  end.

Lemma round_order_start u (i : nat) : round_order u i 0 = concat ((fun level => rounds (lanes u level)) <$> drop i (queue_list u)).
Proof using Type.
  unfold round_order. destruct (drop i (queue_list u)) as [|level later]; [done|]. rewrite fmap_cons. cbn [concat]. f_equal. rewrite drop_0, take_0.
  apply rounds_turns.
Qed.

Definition next_of (size k : nat) : nat := if decide (S k = size) then 0%nat else S k.

Lemma next_of_z (size k : nat) :
  (if Z.of_nat k + 1 =? Z.of_nat size then 0 else Z.of_nat k + 1) = Z.of_nat (next_of size k).
Proof using Type.
  unfold next_of. destruct (decide (S k = size)) as [H|H]; [rewrite (proj2 (Z.eqb_eq _ _)) by lia; done|].
  rewrite (proj2 (Z.eqb_neq _ _)) by lia. lia.
Qed.

(** The loop over the queues of a priority finds the first queue with a job. *)
Lemma rr_for_ok u (size : nat) : forall (qs : list nat) (lq f : nat), Forall (queue_ok u) qs -> (lq + length qs = size)%nat -> (f <= lq)%nat ->
  (Forall (fun l => l = []) (lanes u qs) /\ exists lq', (qs <> [] -> lq' = 0%nat) /\
    rr_for u (Z.of_nat size) qs (Z.of_nat lq) (Z.of_nat f) = Some (None, Z.of_nat lq', Z.of_nat (f + length qs))) \/
  exists qs1 q qs2 l1 r l2, qs = qs1 ++ q :: qs2 /\ Forall (fun l => l = []) (lanes u qs1) /\
    queue_jobs u q = l1 ++ r :: l2 /\ chosen u l1 = [] /\ eligible u r = true /\
    rr_for u (Z.of_nat size) qs (Z.of_nat lq) (Z.of_nat f) = Some (Some r, Z.of_nat (next_of size (lq + length qs1)), 0).
Proof using Type.
  induction qs as [|q qs IH]; intros lq f Hok Hlen Hf; cbn [rr_for].
  { left. split; [constructor|]. exists lq. split; [done|]. by rewrite Nat.add_0_r. }
  apply Forall_cons in Hok as [Hq Hok]. destruct (search_queue u q Hq) as (arr & ind & -> & Hrun & Hcase). cbn [mbind option_bind].
  rewrite Hrun. cbn [mbind option_bind]. rewrite next_of_z.
  destruct Hcase as [[-> Hn]|(l1 & r & l2 & Hl & Hn & He & Hat)].
  - change (at_index (Some arr) (-1)) with (Some (@None sort_resv)). cbn [mbind option_bind].
    assert (Z.of_nat f + 1 = Z.of_nat (S f)) as -> by lia. cbn [length] in Hlen.
    destruct qs as [|q' qs].
    { left. split; [by repeat constructor|]. exists 0%nat. cbn [length] in Hlen |- *. split; [done|].
      unfold next_of. rewrite decide_True by lia. cbn [rr_for]. replace (f + 1)%nat with (S f) by lia. by destruct (_ =? _). }
    rewrite (proj2 (Z.eqb_neq _ _)) by (cbn in Hlen; lia). assert (next_of size lq = S lq) as -> by (unfold next_of; rewrite decide_False by (cbn in Hlen; lia); done).
    destruct (IH (S lq) (S f) Hok) as [(Hall & lq' & Hlq & ->)|(qs1 & q2 & qs2 & l1 & r & l2 & -> & Hall & Hl & Hn' & He & ->)];
      [lia|lia|left|right].
    + split; [by constructor|]. exists lq'. split; [intros _; by apply Hlq|]. cbn [length]. do 2 f_equal. lia.
    + exists (q :: qs1), q2, qs2, l1, r, l2. split_and!; try done; [by constructor|]. cbn [length]. by rewrite Nat.add_succ_r.
  - rewrite Hat. cbn [mbind option_bind]. right. exists [], q, qs, l1, r, l2. split_and!; try done.
    by rewrite Nat.add_0_r.
Qed.


Lemma lanes_other r u (qs : list nat) : Forall (fun q => ~ rank r ∈ rank <$> queue_jobs u q) qs ->
  lanes (mark r u) qs = lanes u qs.
Proof using Type.
  intros H. induction H as [|q qs Hq _ IH] using Forall_ind; [done|]. unfold lanes in *. rewrite !fmap_cons, IH. f_equal.
  by apply (picked_other eligible).
Qed.

(** The jobs of a queue are in no other one. *)
Lemma queue_apart r u (a b : list nat) (q : nat) : NoDup (rank <$> concat (queue_jobs u <$> a ++ q :: b)) -> r ∈ queue_jobs u q ->
  Forall (fun q => ~ rank r ∈ rank <$> queue_jobs u q) a /\ Forall (fun q => ~ rank r ∈ rank <$> queue_jobs u q) b.
Proof using Type.
  rewrite fmap_app, fmap_cons, concat_app, fmap_app. cbn [concat]. rewrite fmap_app. intros Hnd Hr.
  apply (list_elem_of_fmap_2 rank) in Hr. apply NoDup_app in Hnd as (_ & Ha & Hnd). apply NoDup_app in Hnd as (_ & Hb & _).
  assert (forall (c : list nat) (q' : nat), q' ∈ c -> rank r ∈ rank <$> queue_jobs u q' -> rank r ∈ rank <$> concat (queue_jobs u <$> c)) as Hin.
  { intros c q' Hq' Hin. induction c as [|q2 c IH]; [by apply elem_of_nil in Hq'|]. rewrite fmap_cons. cbn [concat]. rewrite fmap_app.
    apply elem_of_app. apply elem_of_cons in Hq' as [->|Hq']; [by left|right; by apply IH]. }
  split; apply Forall_forall; intros q' Hq' Hin'.
  - apply (Ha (rank r)); [by eapply Hin|]. apply elem_of_app. by left.
  - apply (Hb (rank r)); [done|]. by eapply Hin.
Qed.

Lemma split_after {A : Type} (l a b : list A) (x : A) : l = a ++ x :: b ->
  drop (S (length a)) l = b /\ take (S (length a)) l = a ++ [x].
Proof using Type.
  intros ->. rewrite (cons_middle x), app_assoc. split; [apply drop_app_length'|apply take_app_length']; rewrite length_app; cbn; lia.
Qed.

(** A job taken is the first of the order, and the rest is the order when it is marked. *)
Lemma round_order_next u (i lq : nat) (level qs1 qs2 : list nat) (q : nat) l1 r l2 : lanes_ok u ->
  queue_list u !! i = Some level -> drop lq level = qs1 ++ q :: qs2 -> Forall (fun l => l = []) (lanes u qs1) ->
  queue_jobs u q = l1 ++ r :: l2 -> chosen u l1 = [] -> eligible u r = true -> (lq <= length level)%nat ->
  round_order u i lq = r :: round_order (mark r u) i (next_of (length level) (lq + length qs1)).
Proof using Type.
  intros [_ Hnd] Hi Hq Hall Hl Hn He Hlq. unfold round_order. change (queue_list (mark r u)) with (queue_list u).
  rewrite (drop_S _ _ _ Hi). set (later := drop (S i) (queue_list u)).
  pose proof (take_drop_middle _ _ _ Hi) as Hql. fold later in Hql.
  assert (level = (take lq level ++ qs1) ++ q :: qs2) as Hlev by by rewrite <-app_assoc, <-Hq, take_drop.
  assert (length (take lq level ++ qs1) = (lq + length qs1)%nat) as Hk by (rewrite length_app, length_take; lia).
  assert (concat (queue_list u) = (concat (take i (queue_list u)) ++ take lq level ++ qs1) ++ q :: qs2 ++ concat later) as Hc.
  { rewrite <-Hql at 1. rewrite concat_app. cbn [concat]. rewrite Hlev at 1. by rewrite <-!app_assoc. }
  rewrite Hc in Hnd. pose proof (queue_apart r u _ _ _ Hnd ltac:(rewrite Hl; apply elem_of_app; right; by left)) as [Ha Hb].
  apply Forall_app in Ha as [_ Ha]. apply Forall_app in Hb as [Hb Hb'].
  assert (chosen u (queue_jobs u q) = r :: chosen (mark r u) (queue_jobs u q)) as Hcq.
  { rewrite fmap_app, fmap_cons, concat_app, fmap_app in Hnd. apply NoDup_app in Hnd as (_ & _ & Hnd). cbn [concat] in Hnd.
    rewrite fmap_app in Hnd. apply NoDup_app in Hnd as (Hnd & _ & _). rewrite Hl in Hnd |- *. by apply picked_first; [apply _|..]. }
  rewrite Hq. unfold lanes at 1. rewrite fmap_app, fmap_cons, Hcq, turns_next by exact Hall. cbn [app]. f_equal. f_equal.
  - change ((fun q => chosen u (queue_jobs u q)) <$> qs1) with (lanes u qs1). change ((fun q => chosen u (queue_jobs u q)) <$> qs2) with (lanes u qs2).
    assert (lanes u (take lq level) ++ lanes u qs1 ++ [chosen (mark r u) (queue_jobs u q)] = lanes (mark r u) ((take lq level ++ qs1) ++ [q])) as ->.
    { unfold lanes at 3. rewrite fmap_app. change ((fun q => chosen (mark r u) (queue_jobs (mark r u) q)) <$> take lq level ++ qs1)
        with (lanes (mark r u) (take lq level ++ qs1)). rewrite lanes_other by done. unfold lanes. by rewrite fmap_app, <-app_assoc. }
    rewrite <-(lanes_other r u qs2) by done. unfold next_of. destruct (decide (S (lq + length qs1) = length level)) as [Hend|Hend].
    + assert (qs2 = []) as -> by (apply (f_equal length) in Hlev; rewrite length_app, Hk in Hlev; destruct qs2; [done|cbn in Hlev; lia]).
      rewrite drop_0, take_0, <-Hlev. apply turns_all.
    + destruct (split_after _ _ _ _ Hlev) as [Hd Htk]. rewrite Hk in Hd, Htk. by rewrite Hd, Htk.
  - apply f_equal. apply list_fmap_ext. intros k lev Hk'. f_equal. symmetry. apply lanes_other.
    apply Forall_forall. intros q' Hq'. apply (proj1 (Forall_forall _ _) Hb'). apply list_elem_of_In, in_concat.
    exists lev. split; [|by apply list_elem_of_In]. apply list_elem_of_In. by eapply list_elem_of_lookup_2.
Qed.

Lemma round_order_skip u (i lq : nat) (level : list nat) : queue_list u !! i = Some level ->
  Forall (fun l => l = []) (lanes u (drop lq level)) -> round_order u i lq = round_order u i 0.
Proof using Type.
  intros Hi Hall. unfold round_order. rewrite (drop_S _ _ _ Hi), drop_0, take_0. f_equal. rewrite turns_end by done.
  unfold lanes. by rewrite <-fmap_app, take_drop.
Qed.

Lemma round_order_finished u (i : nat) (level : list nat) : queue_list u !! i = Some level ->
  Forall (fun l => l = []) (lanes u level) -> round_order u i 0 = round_order u (S i) 0.
Proof using Type.
  intros Hi Hall. rewrite !round_order_start, (drop_S _ _ _ Hi), fmap_cons. cbn [concat].
  by rewrite <-rounds_turns, turns_empty.
Qed.

(** The loop over the priorities finds the first job of the order, and leaves the rest. *)
Lemma rr_while_ok u : lanes_ok u -> forall (fuel i lq : nat), at_queue u i lq ->
  (length (queue_list u) - i + Nat.min lq 1 < fuel)%nat ->
  let run := rr_while fuel u (queue_list u) (Z.of_nat (length (queue_list u))) (Z.of_nat i) (Z.of_nat lq) (Z.of_nat i) in
  (round_order u i lq = [] /\ exists lq' i', run = Some (None, lq', i')) \/
  exists r i' lq', run = Some (Some r, Z.of_nat lq', Z.of_nat i') /\ at_queue (mark r u) i' lq' /\
    round_order u i lq = r :: round_order (mark r u) i' lq'.
Proof using Type.
  intros Hok. induction fuel as [|fuel IH]; intros i lq Hat Hf run; [lia|]. unfold run. cbn [rr_while].
  destruct (queue_list u !! i) as [level|] eqn:Hi.
  2: { left. apply lookup_ge_None in Hi. rewrite (proj2 (Z.ltb_ge _ _)) by lia. unfold round_order. rewrite drop_ge by lia. by eauto. }
  pose proof (lookup_lt_Some _ _ _ Hi) as Hlt. rewrite (proj2 (Z.ltb_lt _ _)) by lia.
  unfold rd. rewrite (proj2 (Z.ltb_ge _ _)), !Nat2Z.id, Hi by lia. cbn [mbind option_bind].
  assert (lq <= length level)%nat as Hle by (destruct Hat as [->|(level' & Hi' & Hlt')]; [lia|rewrite Hi in Hi'; injection Hi' as ->; lia]).
  assert (Forall (queue_ok u) (drop lq level)) as Hqs.
  { apply Forall_drop. exact (Forall_lookup_1 _ _ _ _ (proj1 (Forall_concat _ _) (lo_queues u Hok)) Hi). }
  pose proof (rr_for_ok u (length level) (drop lq level) lq 0 Hqs ltac:(rewrite length_drop; lia) ltac:(lia)) as Hfor.
  change (Z.of_nat 0) with 0 in Hfor. destruct Hfor
    as [(Hall & lq' & Hlq' & ->)|(qs1 & q & qs2 & l1 & r & l2 & Hq & Hall & Hl & Hn & He & ->)]; cbn [mbind option_bind].
  - destruct lq as [|lq].
    + cbn [Nat.add]. rewrite drop_0, Z.eqb_refl. rewrite (round_order_finished u i level Hi Hall).
      replace (Z.of_nat i + 1) with (Z.of_nat (S i)) by lia. apply (IH (S i) 0%nat); [by left|lia].
    + rewrite length_drop. cbn [Nat.add]. destruct Hat as [[=]|(level' & Hi' & Hlt')]. rewrite Hi in Hi'. injection Hi' as <-.
      rewrite (proj2 (Z.eqb_neq _ _)) by lia. rewrite Hlq' by (intros E; apply (f_equal length) in E; rewrite length_drop in E; cbn in E; lia).
      rewrite (round_order_skip u i (S lq) level Hi Hall). apply (IH i 0%nat); [by left|lia].
  - rewrite (proj2 (Z.eqb_neq _ _)) by (apply (f_equal length) in Hq; rewrite length_drop, length_app in Hq; cbn in Hq; lia).
    right. exists r, i, (next_of (length level) (lq + length qs1)). split_and!; [done| |by eapply round_order_next].
    unfold next_of. destruct (decide _) as [|Hend]; [by left|right]. exists level. split; [done|].
    apply (f_equal length) in Hq. rewrite length_drop, length_app in Hq. cbn in Hq. lia.
Qed.

Lemma lanes_ok_mark r u : lanes_ok u -> lanes_ok (mark r u).
Proof using Type. by intros []. Qed.

Lemma consider_round (fuel : nat) : round_robin policy = true ->
  forall (flag : Z) (st : next_state) u (i lq : nat), after_resvs flag st u -> lanes_ok u -> at_queue u i lq ->
  last_queue st = Z.of_nat lq -> last_queue_index st = Z.of_nat i -> queue_list_size st = Z.of_nat (length (queue_list u)) ->
  (length (round_order u i lq) < fuel)%nat -> considered fuel flag st u = Some (round_order u i lq).
Proof using Hagain.
  intros Hrr. induction fuel as [|fuel IH]; intros flag st u i lq Ha Hok Hat Hlq Hlqi Hsize Hf; [lia|].
  rewrite consider_next by done. unfold next_by_policy. rewrite Hrr. cbn [set_skip last_queue last_queue_index queue_list_size].
  rewrite Hlq, Hlqi, Hsize. fold (queue_list u).
  destruct (rr_while_ok u Hok (S (2 * length (queue_list u))) i lq Hat) as [[Hn (lq' & i' & ->)]|(r & i' & lq' & -> & Hat' & Ho)].
  { destruct Hat as [->|(level & Hi & _)]; [lia|]. pose proof (lookup_lt_Some _ _ _ Hi). lia. }
  { cbn. by rewrite Hn. }
  cbn [mbind option_bind]. rewrite Ho in Hf |- *. erewrite IH; [done| |by apply lanes_ok_mark|done|done|done|done|cbn in Hf; lia].
  eapply after_mark; [done|]. apply Ha.
Qed.

(** ** The order *)

Definition policy_ok u : Prop := if round_robin policy then lanes_ok u else if by_queue policy then queues_ok u else server_ok u.
Record cycle_ok u : Prop := { co_resvs : resvs_held u; co_once : NoDup (rank <$> resv_jobs u); co_policy : policy_ok u }.

(** What the policy considers: the jobs of each priority's queues in turn, the urgent
    jobs and then the queues one after the other, or the server's jobs *)
Definition policy_order u : list sort_resv :=
  if round_robin policy then concat ((fun level => rounds (lanes u level)) <$> queue_list u)
  else if by_queue policy then by_queue_order u
  else chosen u (server_jobs u).

Definition cycle_order u : list sort_resv :=
  match qrun_job u with
  | Some r => chosen u [r]
  | None => let rs := chosen u (resv_jobs u) in rs ++ policy_order (mark_all rs u)
  end.

Lemma policy_ok_mark_all js : forall u, policy_ok u -> policy_ok (mark_all js u).
Proof using Type.
  induction js as [|r js IH]; intros u Hok; [done|]. cbn. apply IH. unfold policy_ok in *.
  destruct (round_robin policy); [by apply lanes_ok_mark|]. destruct (by_queue policy); [by apply queues_ok_mark|done].
Qed.

(** The statics as [next_initialize] leaves them *)
Record initialized (st : next_state) u : Prop := {
  in_skip : st_skip st = SKIP_NOTHING; in_sorted : sort_status st = SORTED; in_index : last_job_index st = 0;
  in_round : round_robin policy = true ->
    last_queue st = 0 /\ last_queue_index st = 0 /\ queue_list_size st = Z.of_nat (length (queue_list u));
  in_queue : by_queue policy = true -> round_robin policy = false -> last_queue st = 0 }.

Lemma sort_jobs_queue_list (s s' : sort_server) : sort_jobs sort e policy s = Some s' -> ss_queue_list s' = ss_queue_list s.
Proof using Type.
  unfold sort_jobs. intros H. repeat case_match; simplify_option_eq; repeat case_match; simplify_option_eq; done.
Qed.

Lemma next_initialize_ok (st0 st : next_state) u0 u : next_initialize sort e policy st0 u0 = Some (st, u) -> initialized st u.
Proof using Type.
  unfold next_initialize. destruct (sort_jobs sort e policy (srv u0)) as [s|] eqn:Es; cbn; [|done]. intros [= <- <-].
  apply sort_jobs_queue_list in Es. destruct (round_robin policy) eqn:Er; split; try done; cbn.
  - intros _. unfold queue_list. cbn. by rewrite Es.
  - by rewrite Er.
  - by intros -> _.
Qed.

Lemma consider_policy (fuel : nat) (flag : Z) (st : next_state) u u1 : initialized st u1 -> queue_list u = queue_list u1 ->
  after_resvs flag st u -> policy_ok u -> (length (policy_order u) < fuel)%nat -> considered fuel flag st u = Some (policy_order u).
Proof using Hagain.
  intros Hinit Hql Ha Hok Hf. unfold policy_ok in Hok. unfold policy_order in Hf |- *.
  destruct (round_robin policy) eqn:Er; [|destruct (by_queue policy) eqn:Eq].
  - destruct (in_round _ _ Hinit Er) as (H1 & H2 & H3). rewrite <-Hql in H3. rewrite <-(drop_0 (queue_list u)) in Hf |- *.
    rewrite <-round_order_start in Hf |- *. apply consider_round; try done. by left.
  - apply consider_urgent; [done|done|done|done| | |done].
    + rewrite (in_index _ _ Hinit). apply passed_start.
    + rewrite (in_queue _ _ Hinit Eq Er). split; [lia|done].
  - apply consider_plain; [done|done|done|done| |done]. rewrite (in_index _ _ Hinit). apply passed_start.
Qed.

(** The jobs the policy looks at *)
Definition policy_jobs u : list sort_resv :=
  if round_robin policy then concat (queue_jobs u <$> concat (queue_list u))
  else if by_queue policy then all_queue_jobs u else server_jobs u.

Lemma round_perm u : concat ((fun level => rounds (lanes u level)) <$> queue_list u) ≡ₚ chosen u (concat (queue_jobs u <$> concat (queue_list u))).
Proof using Type.
  induction (queue_list u) as [|level l IH]; [done|]. rewrite fmap_cons. cbn [concat]. rewrite fmap_app, concat_app, picked_app, <-IH.
  apply Permutation_app_tail. rewrite rounds_perm. unfold lanes. clear IH. induction level as [|q level IH]; [done|].
  rewrite !fmap_cons. cbn [concat]. rewrite picked_app. by apply Permutation_app_head.
Qed.

(** A job that is considered *)
Definition may_be u r : Prop := eligible u r = true \/ round_robin policy = false /\ by_queue policy = true /\ urgent u r = true.

Lemma may_be_all js u r : may_be (mark_all js u) r -> may_be u r /\ ~ rank r ∈ rank <$> js.
Proof using Type.
  intros [H|(Hrr & Hbq & H)]; apply marked_all in H; try apply _; destruct H as [H Hn]; (split; [|done]); [by left|by right].
Qed.

Lemma policy_once u : policy_ok u -> NoDup (rank <$> policy_order u) /\ (forall r, r ∈ policy_order u -> may_be u r) /\
  (forall r, r ∈ policy_jobs u -> eligible u r = true -> rank r ∈ rank <$> policy_order u).
Proof using Type.
  unfold policy_ok, policy_order, policy_jobs, may_be. destruct (round_robin policy); [|destruct (by_queue policy)].
  - intros [_ Hnd]. rewrite round_perm. split_and!; [by apply picked_once| |].
    + intros r. rewrite round_perm, elem_picked. tauto.
    + intros r Hr He. apply list_elem_of_fmap_2. rewrite round_perm. by apply elem_picked.
  - intros [[_ Hnds] _ _ Hnd]. unfold by_queue_order. split_and!.
    + apply once_app; [by apply picked_once|by apply picked_once|]. intros r [Hr _]%elem_picked. by apply marked_all in Hr as [_ ?]; [|apply _].
    + intros r [Hr|Hr]%elem_of_app; apply elem_picked in Hr as [Hr _]; [by right|left].
      by apply marked_all in Hr as [? _]; [|apply _].
    + intros r Hr He. rewrite fmap_app. apply elem_of_app.
      destruct (decide (rank r ∈ rank <$> picked urgent u (server_jobs u))) as [|Hno]; [by left|right].
      apply list_elem_of_fmap_2, elem_picked. split; [|done]. by apply marked_all; [apply _|].
  - intros [_ Hnd]. split_and!; [by apply picked_once| |].
    + intros r [Hr _]%elem_picked. by left.
    + intros r Hr He. apply list_elem_of_fmap_2, elem_picked. done.
Qed.

Lemma cycle_once u : cycle_ok u -> qrun_job u = None ->
  NoDup (rank <$> cycle_order u) /\ (forall r, r ∈ cycle_order u -> may_be u r) /\
  (forall r, r ∈ resv_jobs u ++ policy_jobs u -> eligible u r = true -> rank r ∈ rank <$> cycle_order u).
Proof using Type.
  intros [_ Hnd Hok] Hq. unfold cycle_order. rewrite Hq. set (rs := chosen u (resv_jobs u)).
  destruct (policy_once (mark_all rs u) (policy_ok_mark_all rs u Hok)) as (Hn & Hm & He).
  assert (policy_jobs (mark_all rs u) = policy_jobs u) as Hj.
  { unfold policy_jobs, queue_list, all_queue_jobs, server_jobs, queue_jobs, jobs_of. by destruct (mark_all_srv rs u) as (-> & _). }
  rewrite Hj in He. split_and!.
  - apply once_app; [by apply picked_once|done|]. intros r Hr. by apply Hm, may_be_all in Hr as [_ ?].
  - intros r [Hr|Hr]%elem_of_app; [apply elem_picked in Hr as [? _]; by left|]. by apply Hm, may_be_all in Hr as [? _].
  - intros r Hr Hel. rewrite fmap_app. apply elem_of_app. destruct (decide (rank r ∈ rank <$> rs)) as [|Hno]; [by left|right].
    apply elem_of_app in Hr as [Hr|Hr].
    + destruct Hno. apply list_elem_of_fmap_2, elem_picked. done.
    + apply He; [done|]. by apply marked_all; [apply _|].
Qed.

Lemma picked_length p u js : (length (picked p u js) <= length js)%nat.
Proof using Type. apply length_filter. Qed.

Lemma cycle_order_length u : cycle_ok u -> qrun_job u = None ->
  (length (cycle_order u) <= length (resv_jobs u) + length (server_jobs u) + length (policy_jobs u))%nat.
Proof using Type.
  intros _ Hq. unfold cycle_order. rewrite Hq. set (rs := chosen u (resv_jobs u)). rewrite length_app.
  assert (length rs <= length (resv_jobs u))%nat by apply picked_length.
  enough (forall u', srv u' = srv u -> (length (policy_order u') <= length (server_jobs u) + length (policy_jobs u))%nat) as H'.
  { pose proof (H' _ (proj1 (mark_all_srv rs u))). lia. }
  intros u' Hs. unfold policy_order, policy_jobs. destruct (round_robin policy); [|destruct (by_queue policy)].
  - rewrite round_perm. etrans; [apply picked_length|]. unfold queue_list, queue_jobs, jobs_of. rewrite Hs. lia.
  - unfold by_queue_order. rewrite length_app. set (us := picked urgent u' (server_jobs u')).
    assert (length us <= length (server_jobs u))%nat by (unfold server_jobs at 1; rewrite <-Hs; apply picked_length).
    pose proof (picked_length eligible (mark_all us u') (all_queue_jobs u')) as H2. unfold all_queue_jobs in H2 |- *. rewrite Hs in H2 |- *. lia.
  - etrans; [apply picked_length|]. unfold server_jobs. rewrite Hs. lia.
Qed.

Lemma consider_cycle (fuel : nat) (st0 st : next_state) u0 u :
  next_initialize sort e policy st0 u0 = Some (st, u) -> cycle_ok u -> (length (cycle_order u) < fuel)%nat ->
  considered fuel DONT_SORT_JOBS st u = Some (cycle_order u).
Proof using Hagain.
  intros Hinit%next_initialize_ok [Hh Hnd Hok] Hf. assert (stays DONT_SORT_JOBS) as Hst by by left. unfold cycle_order in *.
  destruct (qrun_job u) as [r|] eqn:Eq.
  - destruct fuel as [|fuel]; [lia|]. rewrite picked_cons in Hf |- *. cbn [consider]. unfold next_job. rewrite Eq. cbn.
    destruct (eligible u r) eqn:Ee; [|done]. destruct fuel as [|fuel]; [cbn in Hf; lia|]. cbn. unfold next_job.
    assert ((again r =? INITIALIZE) = false) as -> by by destruct (Hagain r) as [->|[->|[-> _]]].
    cbn. rewrite Eq. rewrite (eligible_marked r u r), Z.eqb_refl, andb_false_r. done.
  - set (rs := chosen u (resv_jobs u)) in *. rewrite length_app in Hf.
    assert (st_skip st <> SKIP_RESERVATIONS) as Hs by by rewrite (in_skip _ _ Hinit).
    destruct (consider_resvs (fuel - length rs) DONT_SORT_JOBS st Hs (length rs) u Hst eq_refl Eq Hh Hnd) as (flag & Hfl & Hc & Hz).
    fold rs in Hc, Hz. replace (length rs + (fuel - length rs))%nat with fuel in Hc by lia. cbv beta in Hc |- *. rewrite Hc.
    destruct (mark_all_srv rs u) as (Hsrv & Hq & Hr).
    assert (resv_jobs (mark_all rs u) = resv_jobs u) as Hrj by (unfold resv_jobs, queue_jobs, jobs_of; by rewrite Hr, Hsrv).
    rewrite (consider_policy _ flag st (mark_all rs u) u); [done|done| | |by apply policy_ok_mark_all|lia].
    + unfold queue_list. by rewrite Hsrv.
    + split; [done|by rewrite Hq|apply Hinit| |by rewrite Hrj]. unfold resvs_held. rewrite Hr.
      eapply Forall_impl; [exact Hh|]. intros q. unfold queue_ok, jobs_of. by rewrite Hsrv.
Qed.



End Order.
End NextJobProps.

(** * Cycles

    Module [NextJobScenes]: the queues of the picture in [next_job] with a reservation
    that runs, and what its searches do besides. *)

Module NextJobScenes.
Import Double Float JobSortScenes NextJob NextJobProps.

Definition policy_of (round queues fair : bool) : settings :=
  {| round_robin := round; by_queue := queues; strict_fifo := false; strict_ordering := false;
     sort_by := 0; fair_share := fair; load_balancing := false; help_starving_jobs := true;
     backfill := false; sort_nodes := false; load_balancing_rr := false; backfill_prime := false;
     preempting := false; node_sort := 0; smp_dist := 0 |}.

(** Queued jobs of one priority, a queue of some, and the marks of a normal job *)
Definition plain (id : Z) : sort_resv := some_job id 0 0 (-1) 8.
Definition queue_of (js : list sort_resv) : sort_queue := SortQueue (with_null js) (Z.of_nat (length js)).
Definition normal (_ : Z) : job_flags := JobFlags false false (PREEMPT_TO_BIT PREEMPT_NORMAL).

(** Queues 1, 2 and 4 have one priority and 3 and 5 another; queue 6 is that of a reservation. *)
Definition in_queues : list (list sort_resv) :=
  [plain <$> [1; 3]; plain <$> [2; 5]; [plain 7]; plain <$> [4; 6]; plain <$> [8; 9]; [plain 10]].
Definition picture : universe :=
  Universe (SortServer (queue_of <$> in_queues) (Some [[0; 1; 3]; [2; 4]]%nat) (with_null (concat in_queues)))
    normal None (Some [NextResv (Some RESV_RUNNING) (Some 5%nat)]).

Definition cycle (policy : settings) (u : universe) : option (list Z) :=
  '(st, u) ← next_initialize (Qsort.sort 8) (env false) policy start_state u;
  l ← consider (Qsort.sort 8) (env false) policy 20 (fun _ => SORTED) DONT_SORT_JOBS st u; Some (map rank l).

(** The order of the comment, after the job of the reservation *)
Example picture_in_turn : cycle (policy_of true false false) picture = Some [10; 1; 2; 4; 3; 5; 6; 7; 8; 9].
Proof. vm_compute. reflexivity. Qed.
Example picture_by_queue : cycle (policy_of false true false) picture = Some [10; 1; 3; 2; 5; 7; 4; 6; 8; 9].
Proof. vm_compute. reflexivity. Qed.
Example picture_as_one : cycle (policy_of false false false) picture = Some [10; 1; 2; 3; 4; 5; 6; 7; 8; 9].
Proof. vm_compute. reflexivity. Qed.

Lemma ends_with_null (js : list sort_resv) : terminated (with_null js).
Proof. apply elem_of_app. right. by left. Qed.

Lemma picture_queue (q : nat) : (q < 6)%nat -> queue_ok picture q.
Proof. intros Hq. do 6 (destruct q as [|q]; [eexists; split; [reflexivity|apply ends_with_null]|]). lia. Qed.

Ltac by_value := apply (bool_decide_unpack _); vm_compute; exact I.

Lemma picture_lanes : lanes_ok picture.
Proof. split; [|by_value]. repeat (constructor; [apply picture_queue; lia|]). constructor. Qed.

Lemma picture_queues : queues_ok picture.
Proof.
  split.
  - split; [apply ends_with_null|by_value].
  - intros l1 r l2 E _. assert (Forall (fun r => important picture r = false) (server_jobs picture)) as H by (repeat constructor).
    rewrite E in H. by apply Forall_app in H as [_ [_ H]%Forall_cons].
  - repeat (constructor; [split; [apply ends_with_null|vm_compute; lia]|]). constructor.
  - by_value.
Qed.

Lemma picture_ok (policy : settings) : round_robin policy || by_queue policy = true -> cycle_ok policy picture.
Proof.
  intros Hp. split; [|by_value|].
  - constructor; [apply picture_queue; lia|constructor].
  - unfold policy_ok. destruct (round_robin policy); [apply picture_lanes|]. cbn in Hp. rewrite Hp. apply picture_queues.
Qed.

Definition first_state : next_state := NextState 0 0 0 SKIP_NOTHING SORTED 2.



(** *** What the searches do besides *)

(** A starving job of the second queue *)
Definition starving (id : Z) (state : job_state) : sort_resv :=
  SortResv (some_resv true id) (Some (JobInfo state 0 (-1) 0 true flt_zero 0 8)) None 0 id id.
Definition two_queues (fst snd : list sort_resv) : universe :=
  Universe (SortServer [queue_of fst; queue_of snd] None (with_null (fst ++ snd))) normal None None.

(** Starving jobs are first, but not with fairshare: the server's array is then queue by
    queue, and the search for them ends at the first normal job. *)
Example starving_first : cycle (policy_of false true false) (two_queues [plain 1] [starving 2 queued]) = Some [2; 1].
Proof. vm_compute. reflexivity. Qed.
Example starving_behind : cycle (policy_of false true true) (two_queues [plain 1] [starving 2 queued]) = Some [1; 2].
Proof. vm_compute. reflexivity. Qed.

(** A starving job that runs already is considered. *)
Example running_considered :
  cycle (policy_of false true false) (two_queues [] [starving 2 (JobState false [] false false false)]) = Some [2].
Proof. vm_compute. reflexivity. Qed.

(** Reservations are not searched again once they are done; but when the non-normal jobs
    are done too this is forgotten, the mark being one for both. *)
Definition from_skip (k : skip) : option (option Z) :=
  '(r, _) ← next_job (Qsort.sort 8) (env false) (policy_of false true false) SORTED (NextState 0 0 0 k SORTED 0) picture;
  Some (option_map rank r).
Example skip_overwritten : from_skip SKIP_RESERVATIONS = Some (Some 1) /\ from_skip SKIP_NON_NORMAL_JOBS = Some (Some 10).
Proof. split; vm_compute; reflexivity. Qed.

End NextJobScenes.

(** * The loop of a cycle

    Module [MainLoop]: [main_sched_loop], which takes the next job until there is none,
    [update_jobs_cant_run] of [src/scheduler/job_info.c] and
    [should_backfill_with_job].  What it calls is a record of functions of the world. *)

Module MainLoop.
Import NextJob.

Definition RUN_FAILURE : Z := RET_BASE + 65.
Definition PBSE_PROTOCOL : Z := 15031.

(** What the loop reads of a job that is not in [sort_resv]: its queue, by its index, and
    whether it is in a reservation *)
Record loop_job := LoopJob {
  lj_queue : nat; lj_resv : bool; lj_is_array : bool; lj_aoename : bool; lj_topjob_ineligible : bool; lj_ec_index : Z }.

(** Of the configuration, the policy, the server and the queues *)
Record loop_conf := LoopConf {
  max_jobs_to_check : Z; allow_aoe_calendar : bool; preempt_normal : Z; backfill_depth : Z;
  enforce_prmptd_job_resumption : bool; eligible_time_enable : bool; queue_backfill_depth : nat -> Z; cycle_end_time : Z }.

Section Loop.
(** Everything else the calls change *)
Context {W : Type}.

(** The jobs with what the loop notes of them: which can never run, whose equivalence
    class cannot run, and the top jobs of each queue *)
Record world := World {
  jobs_now : universe; can_never_run : Z -> bool; ec_can_not_run : Z -> bool; q_num_topjobs : nat -> Z; rest : W }.

(** A call on a job: its result, and what it leaves of the jobs and the rest *)
Definition call (A : Type) : Type := world -> sort_resv -> A * (universe * W).

(** [is_ok_to_run] gives whether there is a solution, and the status and code of the
    error; [queue_subjob] a subjob of an array job; [run_update_resresv] and
    [find_and_preempt_jobs] their result and the code of the error. *)
Record calls := Calls {
  is_ok_to_run : call (bool * schd_err_status * Z);
  queue_subjob : call (option sort_resv);
  run_update_resresv : call (Z * Z);
  find_and_preempt_jobs : call (Z * Z);
  add_job_to_calendar : call Z;
  update_accruetype : call unit;
  got_sigpipe : W -> bool;
  time : W -> Z * W;
  restart_cycle : W -> bool * W }.

Context (c : calls) (conf : loop_conf) (links : Z -> loop_job).
Context (sort : (option sort_resv -> option sort_resv -> option Z) -> jobs_array -> option jobs_array).
Context (e : sort_env) (policy : settings).

Definition with_jobs (x : world) (u : universe) : world :=
  World u (can_never_run x) (ec_can_not_run x) (q_num_topjobs x) (rest x).
Definition with_rest (x : world) (w : W) : world :=
  World (jobs_now x) (can_never_run x) (ec_can_not_run x) (q_num_topjobs x) w.
Definition after {A : Type} (x : world) (r : A * (universe * W)) : A * world :=
  (r.1, World r.2.1 (can_never_run x) (ec_can_not_run x) (q_num_topjobs x) r.2.2).
Definition mark_job (r : sort_resv) (x : world) : world := with_jobs x (mark r (jobs_now x)).

Definition link (r : sort_resv) : loop_job := links (rank r).

(** The jobs of an array from its front on *)
Fixpoint update_jobs_cant_run (arr : jobs_array) (u : universe) : option universe :=
  match arr with
  | [] => None
  | None :: _ => Some u
  | Some r :: arr => update_jobs_cant_run arr (if can_not_run (flags_at u r) then u else mark r u)
  end.

Definition should_backfill_with_job (x : world) (r : sort_resv) (num_topjobs : Z) : bool :=
  match job r with
  | None => false
  | Some j =>
      let preempted := is_preempted (flags_at (jobs_now x) r) in
      let q := lj_queue (link r) in
      let '(bf_depth, num_tj) :=
        if negb (queue_backfill_depth conf q =? UNSPECIFIED) then (queue_backfill_depth conf q, q_num_topjobs x q)
        else if negb (backfill_depth conf =? UNSPECIFIED) then (backfill_depth conf, num_topjobs)
        else (1, num_topjobs) in
      if negb (backfill policy) then false
      else if lj_resv (link r) then false
      else if negb preempted && (num_tj >=? bf_depth) then false
      else if negb (allow_aoe_calendar conf) && lj_aoename (link r) then false
      else if can_never_run x (rank r) then false
      else if preempted && enforce_prmptd_job_resumption conf && (preempt j >=? preempt_normal conf) then true
      else if lj_topjob_ineligible (link r) then false
      else if strict_ordering policy then true
      else help_starving_jobs policy && is_starving j
  end.

(** The attempt to run a job: [rc], [sort_again] and the code of the error *)
Definition try_job (x : world) (r : sort_resv) (sort_again : Z) : Z * Z * Z * world :=
  let '((ok, status, code), x) := after x (is_ok_to_run c x r) in
  let x := match status with
           | NEVER_RUN => World (jobs_now x) (fun k => (k =? rank r) || can_never_run x k) (ec_can_not_run x) (q_num_topjobs x) (rest x)
           | _ => x
           end in
  if ok : bool then
    let '(tj, x) := if lj_is_array (link r) then after x (queue_subjob c x r) else (Some r, x) in
    match tj with
    | None => (SCHD_ERROR, sort_again, code, mark_job r x)
    | Some tj =>
        let '((res, code), x) := after x (run_update_resresv c x tj) in
        if res >? 0 then (SUCCESS, MAY_RESORT_JOBS, code, x) else (code, SORTED, code, x)
    end
  else if preempting policy && runnable r && negb (can_never_run x (rank r)) then
    let '((res, code), x) := after x (find_and_preempt_jobs c x r) in
    if res >? 0 then (SUCCESS, MUST_RESORT_JOBS, code, x) else (0, SORTED, code, x)
  else (0, sort_again, code, x).

(** The job is added to the calendar: [num_topjobs], [end_cycle] and [rc] *)
Definition backfill_job (x : world) (r : sort_resv) (num_topjobs rc : Z) : Z * bool * Z * world :=
  if should_backfill_with_job x r num_topjobs then
    let '(cal_rc, x) := after x (add_job_to_calendar c x r) in
    if cal_rc >? 0 then
      let q := lj_queue (link r) in
      if negb (is_preempted (flags_at (jobs_now x) r)) || negb (enforce_prmptd_job_resumption conf) then
        if queue_backfill_depth conf q =? UNSPECIFIED then (num_topjobs + 1, false, rc, x)
        else (num_topjobs, false, rc,
              World (jobs_now x) (can_never_run x) (ec_can_not_run x)
                (fun k => if Nat.eqb k q then q_num_topjobs x k + 1 else q_num_topjobs x k) (rest x))
      else (num_topjobs, false, rc, x)
    else if cal_rc =? -1 then (num_topjobs, true, -1, x)
    else (num_topjobs, false, rc, x)
  else (num_topjobs, false, rc, x).

(** What becomes of a job that was not run: [end_cycle], [sort_again], [num_topjobs] and [rc] *)
Definition settle_job (x : world) (r : sort_resv) (rc sort_again num_topjobs : Z) : bool * Z * Z * Z * world :=
  if (rc =? SCHD_ERROR) || (rc =? PBSE_PROTOCOL) || got_sigpipe c (rest x) then (true, sort_again, num_topjobs, rc, x)
  else if negb (rc =? SUCCESS) && negb (rc =? RUN_FAILURE) then
    let '(num_topjobs, end_cycle, rc, x) := backfill_job x r num_topjobs rc in
    let x := if eligible_time_enable conf then (after x (update_accruetype c x r)).2 else x in
    (end_cycle, SORTED, num_topjobs, rc, mark_job r x)
  else (false, sort_again, num_topjobs, rc, x).

Definition mark_class (x : world) (r : sort_resv) (rc code : Z) : world :=
  let ec := lj_ec_index (link r) in
  if negb (rc =? SUCCESS) && negb (code =? 0) && negb (ec =? UNSPECIFIED) && negb (rc =? RUN_FAILURE) then
    World (jobs_now x) (can_never_run x) (fun k => (k =? ec) || ec_can_not_run x k) (q_num_topjobs x) (rest x)
  else x.

(** Jobs that are not to overtake one that was not run *)
Definition hold_others (x : world) (r : sort_resv) (rc : Z) : option world :=
  if negb (rc =? SUCCESS) && negb (lj_resv (link r)) then
    let all := u ← update_jobs_cant_run (ss_jobs (srv (jobs_now x))) (jobs_now x); Some (with_jobs x u) in
    if strict_fifo policy then
      jobs ← jobs_of (jobs_now x) (lj_queue (link r));
      u ← update_jobs_cant_run jobs (jobs_now x); Some (with_jobs x u)
    else if negb (backfill policy) && strict_ordering policy then all
    else if negb (backfill policy) && help_starving_jobs policy && from_option is_starving false (job r) then all
    else Some x
  else Some x.

(** The ends of a cycle after [i] jobs before this one *)
Definition ends_cycle (x : world) (i : Z) (end_cycle : bool) : bool * world :=
  let '(now, w) := time c (rest x) in
  let x := with_rest x w in
  let end_cycle := end_cycle || (now >=? cycle_end_time conf) ||
    (negb (max_jobs_to_check conf =? SCHD_INFINITY) && (i + 1 >=? max_jobs_to_check conf)) in
  if end_cycle then (true, x) else let '(restart, w) := restart_cycle c (rest x) in (restart, with_rest x w).

(** The body of the loop: [rc], [end_cycle], [sort_again] and [num_topjobs] *)
Definition loop_body (x : world) (r : sort_resv) (i sort_again num_topjobs : Z) : option (Z * bool * Z * Z * world) :=
  let '(rc, sort_again, code, x) := try_job x r sort_again in
  let '(end_cycle, sort_again, num_topjobs, rc, x) := settle_job x r rc sort_again num_topjobs in
  x ← hold_others (mark_class x r rc code) r rc;
  let '(end_cycle, x) := ends_cycle x i end_cycle in
  Some (rc, end_cycle, sort_again, num_topjobs, x).

(** The first [n] jobs the loop takes, each with its [rc]; fewer if it ends or crashes *)
Fixpoint main_sched_loop (n : nat) (st : next_state) (x : world) (i sort_again num_topjobs : Z) : list (sort_resv * Z) :=
  match n with
  | O => []
  | S n =>
      match next_job sort e policy sort_again st (jobs_now x) with
      | Some (Some r, (st, u)) =>
          match loop_body (with_jobs x u) r i sort_again num_topjobs with
          | Some (rc, end_cycle, sort_again, num_topjobs, x) =>
              (r, rc) :: if end_cycle : bool then [] else main_sched_loop n st x (i + 1) sort_again num_topjobs
          | None => [(r, 0)]
          end
      | _ => []
      end
  end.

End Loop.
Arguments world : clear implicits.
Arguments calls : clear implicits.
End MainLoop.

(** * What a cycle keeps to

    Module [MainLoopProps]: no job is considered twice, and none after one that was not
    run where the order is strict. *)

Module MainLoopProps.
Import NextJob NextJobProps MainLoop.

Implicit Types (r : sort_resv) (arr : jobs_array) (u : universe) (st : next_state).

(** ** The job that is returned *)

(** A job of the arrays, or the one the server asks for *)
Definition held u r : Prop :=
  qrun_job u = Some r \/ Some r ∈ ss_jobs (srv u) \/ exists q : sort_queue, q ∈ ss_queues (srv u) /\ Some r ∈ sq_jobs q.
Definition free u r : Prop := held u r /\ can_not_run (flags_at u r) = false.

Lemma search_taken (look : sort_resv -> verdict) arr : forall i ind : Z, 0 <= i -> search look arr i = Some ind ->
  ind = -1 \/ i <= ind /\ exists r, arr !! Z.to_nat (ind - i) = Some (Some r) /\ look r = Take.
Proof.
  induction arr as [|[r|] arr IH]; intros i ind Hi; cbn [search]; [done| |intros [= <-]; by left].
  destruct (look r) eqn:El; [| |intros [= <-]; by left].
  - intros [= <-]. right. split; [lia|]. exists r. rewrite Z.sub_diag. done.
  - intros [->|(Hle & r' & Hr' & Ht)]%IH; [by left| |lia]. right. split; [lia|]. exists r'. split; [|done].
    replace (Z.to_nat (ind - i)) with (S (Z.to_nat (ind - (i + 1)))) by lia. done.
Qed.

(** What a search from an index finds is at that index. *)
Lemma search_at (look : sort_resv -> verdict) arr (start ind : Z) (r : sort_resv) : 0 <= start ->
  search_from look (Some arr) start = Some ind -> at_index (Some arr) ind = Some (Some r) ->
  0 <= ind /\ Some r ∈ arr /\ look r = Take.
Proof.
  intros Hs. unfold search_from. intros [->|(Hle & r' & Hr' & Ht)]%search_taken; [done| |done].
  unfold at_index, rd. rewrite (proj2 (Z.eqb_neq _ _)), (proj2 (Z.ltb_ge _ _)) by lia. cbn [mbind option_bind].
  rewrite lookup_drop in Hr'. replace (Z.to_nat start + Z.to_nat (ind - start))%nat with (Z.to_nat ind) in Hr' by lia.
  rewrite Hr'. intros [= ->]. split; [lia|]. split; [by eapply list_elem_of_lookup_2|done].
Qed.

Lemma search_bound (look : sort_resv -> verdict) arr (start ind : Z) : 0 <= start ->
  search_from look (Some arr) start = Some ind -> ind <> -1 -> 0 <= ind.
Proof. intros Hs. unfold search_from. intros [->|(Hle & _)]%search_taken; [done|lia|done]. Qed.

Lemma runnable_free u r : (if eligible u r then Take else Pass) = Take -> can_not_run (flags_at u r) = false.
Proof. unfold eligible. by destruct (can_not_run (flags_at u r)). Qed.

Lemma queue_free u (q : nat) arr (start ind : Z) (r : sort_resv) : 0 <= start -> jobs_of u q = Some arr ->
  find_runnable_resresv_ind u (Some arr) start = Some ind -> at_index (Some arr) ind = Some (Some r) -> 0 <= ind /\ free u r.
Proof.
  intros Hs Hq Hrun Hat. destruct (search_at _ _ _ _ _ Hs Hrun Hat) as (Hi & Hin & Ht). split; [done|].
  split; [|by apply runnable_free]. right; right. unfold jobs_of in Hq. destruct (ss_queues (srv u) !! q) as [sq|] eqn:El; [|done].
  injection Hq as <-. exists sq. split; [by eapply list_elem_of_lookup_2|done].
Qed.

Lemma find_ready_free u (l : list next_resv) r : find_ready_loop u l = Some (Some r) -> free u r.
Proof.
  induction l as [|v l IH]; cbn [find_ready_loop]; [done|]. destruct (bool_decide _); [|exact IH].
  destruct (nv_queue v) as [q|]; [|exact IH]. cbn [mbind option_bind].
  destruct (jobs_of u q) as [arr|] eqn:Eq; [|done]. cbn [mbind option_bind].
  destruct (find_runnable_resresv_ind u (Some arr) 0) as [ind|] eqn:Er; [|done]. cbn [mbind option_bind].
  destruct (at_index (Some arr) ind) as [[r'|]|] eqn:Ea; cbn [mbind option_bind]; [|exact IH|done].
  intros [= ->]. by eapply queue_free.
Qed.

Lemma rr_for_free u (size : Z) (qs : list nat) r (lq' f' : Z) : forall lq f : Z,
  rr_for u size qs lq f = Some (Some r, lq', f') -> free u r.
Proof.
  induction qs as [|q qs IH]; intros lq f; cbn [rr_for]; [done|].
  destruct (jobs_of u q) as [arr|] eqn:Eq; [|done]. cbn [mbind option_bind].
  destruct (find_runnable_resresv_ind u (Some arr) 0) as [ind|] eqn:Er; [|done]. cbn [mbind option_bind].
  destruct (at_index (Some arr) ind) as [[r'|]|] eqn:Ea; cbn [mbind option_bind]; [| |done].
  - intros [= -> _ _]. by eapply queue_free.
  - destruct (_ =? size); [|apply IH]. by destruct (f + 1 =? size).
Qed.

Lemma rr_while_free u (ql : list (list nat)) (size : Z) (fuel : nat) r (lq' lqi' : Z) : forall i lq lqi : Z,
  rr_while fuel u ql size i lq lqi = Some (Some r, lq', lqi') -> free u r.
Proof.
  induction fuel as [|fuel IH]; intros i lq lqi; cbn [rr_while]; [done|]. destruct (i <? size); [|done].
  destruct (rd ql i) as [qs|]; [|done]. cbn [mbind option_bind].
  destruct (rr_for u _ _ lq 0) as [[[[r'|] lq2] f]|] eqn:Ef; cbn [mbind option_bind]; [| |done].
  - destruct (f =? _); intros [= -> _ _]; by eapply rr_for_free.
  - destruct (f =? _); apply IH.
Qed.

Lemma bq_while_free u (fuel : nat) (o : option sort_resv) (lq' lji' : Z) : forall lq lji : Z, 0 <= lji ->
  bq_while fuel u lq lji = Some (o, lq', lji') -> 0 <= lji' /\ forall r, o = Some r -> free u r.
Proof.
  induction fuel as [|fuel IH]; intros lq lji Hlji; cbn [bq_while]; [done|].
  destruct (lq <? _); [|by intros [= <- _ <-]].
  destruct (jobs_of u (Z.to_nat lq)) as [arr|] eqn:Eq; [|done]. cbn [mbind option_bind].
  destruct (find_runnable_resresv_ind u (Some arr) lji) as [ind|] eqn:Er; [|done]. cbn [mbind option_bind].
  destruct (ind =? -1) eqn:Ei; [by apply IH|]. apply Z.eqb_neq in Ei. pose proof (search_bound _ _ _ _ Hlji Er Ei) as Hind.
  destruct (at_index (Some arr) ind) as [o'|] eqn:Ea; [|done]. cbn [mbind option_bind]. intros [= <- _ <-].
  split; [done|]. intros r ->. eapply (queue_free u (Z.to_nat lq) arr lji ind); done.
Qed.

(** The statics of a cycle *)
Definition st_fine st : Prop := 0 <= last_job_index st /\ sort_status st = SORTED.

Lemma next_by_policy_free (policy : settings) (st st' : next_state) u (o : option sort_resv) : st_fine st ->
  next_by_policy policy st u = Some (o, st') -> st_fine st' /\ forall r, o = Some r -> free u r.
Proof.
  intros [Hi Hs]. unfold next_by_policy. destruct (round_robin policy); [|destruct (by_queue policy)].
  - destruct (rr_while _ _ _ _ _ _ _) as [[[o' lq] lqi]|] eqn:Er; [|done]. cbn. intros [= <- <-].
    split; [by split|]. intros r ->. by eapply rr_while_free.
  - assert (forall (o : option sort_resv) (lq lji : Z) (k : skip), 0 <= lji -> ('(rjob, lq, lji) ← bq_while (S (length (ss_queues (srv u)))) u lq lji;
      Some (rjob, NextState lq (last_queue_index st) lji k (sort_status st) (queue_list_size st))) = Some (o, st') ->
      st_fine st' /\ forall r, o = Some r -> free u r) as Hbq.
    { intros o' lq lji k Hlji. destruct (bq_while _ _ _ _) as [[[o2 lq2] lji2]|] eqn:Eb; [|done]. cbn. intros [= <- <-].
      apply bq_while_free in Eb as [H1 H2]; [|done]. by split. }
    destruct (decide (st_skip st = SKIP_NON_NORMAL_JOBS)).
    { cbn [mbind option_bind]. rewrite decide_True by done. by apply Hbq. }
    destruct (find_non_normal_job_ind u _ _) as [ind|] eqn:Ef; [|done]. cbn [mbind option_bind].
    destruct (ind =? -1) eqn:Ei; cbn [mbind option_bind]; [rewrite decide_True by done; by apply Hbq|]. apply Z.eqb_neq in Ei.
    pose proof (search_bound _ _ _ _ Hi Ef Ei) as Hind.
    destruct (at_index _ ind) as [o'|] eqn:Ea; [|done]. cbn [mbind option_bind]. rewrite decide_False by done.
    intros [= <- <-]. split; [by split|]. intros r ->. destruct (search_at _ _ _ _ _ Hi Ef Ea) as (_ & Hin & Ht). split; [by right; left|].
    destruct (job r); [|done]. destruct (non_normal u r _); [|by destruct (negb _)]. by destruct (can_not_run _).
  - destruct (find_runnable_resresv_ind u _ _) as [ind|] eqn:Ef; [|done]. cbn [mbind option_bind].
    destruct (at_index _ ind) as [o'|] eqn:Ea; [|done]. cbn [mbind option_bind]. intros [= <- <-]. split.
    + destruct (ind =? -1) eqn:Ei; [by split|]. apply Z.eqb_neq in Ei. split; [by apply (search_bound _ _ _ _ Hi Ef Ei)|done].
    + intros r ->. destruct (search_at _ _ _ _ _ Hi Ef Ea) as (_ & Hin & Ht). split; [by right; left|by apply runnable_free].
Qed.

Section Loop.
Context {W : Type} (c : calls W) (conf : loop_conf) (links : Z -> loop_job).
Context (sort : (option sort_resv -> option sort_resv -> option Z) -> jobs_array -> option jobs_array).
Context (e : sort_env) (policy : settings).

(** The jobs are as before, or they were sorted, which is not done when they are sorted. *)
Definition resorted u u' : Prop := u' = u \/ exists s', sort_jobs sort e policy (srv u) = Some s' /\ u' = with_srv u s'.

Lemma next_job_free (flag : Z) st st' u u' r : st_fine st -> next_job sort e policy flag st u = Some (Some r, (st', u')) ->
  st_fine st' /\ resorted u u' /\ free u' r /\ (flag = SORTED -> u' = u).
Proof using Type.
  intros Hst. unfold next_job. destruct (flag =? INITIALIZE).
  { by destruct (next_initialize sort e policy st u) as [[]|]. }
  destruct (qrun_job u) as [q|] eqn:Eq.
  { destruct (eligible u q) eqn:Ee; [|done]. intros [= -> <- <-]. split_and!; [done|by left| |done]. split; [by left|].
    apply runnable_free. by rewrite Ee. }
  set (ready := if decide _ then _ else _). destruct ready as [[q|]|] eqn:Er; cbn [mbind option_bind]; [| |done]; unfold ready in Er.
  { intros [= -> <- <-]. split_and!; [done|by left| |done]. destruct (decide _); [done|]. unfold find_ready_resv_job in Er.
    destruct (resvs u); [|done]. by eapply find_ready_free. }
  unfold next_sort. assert (sort_status (set_skip st SKIP_RESERVATIONS) = SORTED) as -> by apply Hst.
  change (negb (SORTED =? SORTED)) with false. cbn [orb].
  destruct ((flag =? MAY_RESORT_JOBS) && fair_share policy || (flag =? MUST_RESORT_JOBS)) eqn:Ef.
  - destruct (sort_jobs sort e policy (srv u)) as [s'|] eqn:Es; [|done]. cbn [mbind option_bind].
    destruct (next_by_policy policy _ _) as [[o st2]|] eqn:En; [|done]. cbn. intros [= -> <- <-].
    apply next_by_policy_free in En as [H1 H2]; [|split; [done|done]]. split_and!; [done|right; by exists s'|by apply H2|].
    intros ->. done.
  - cbn [mbind option_bind]. destruct (next_by_policy policy _ u) as [[o st2]|] eqn:En; [|done]. cbn. intros [= -> <- <-].
    apply next_by_policy_free in En as [H1 H2]; [|exact Hst]. split_and!; [done|by left|by apply H2|done].
Qed.

(** ** What the body keeps *)

(** A property of the jobs that the calls of the body and marking keep *)
Record keeps (P : universe -> Prop) : Prop := {
  k_mark : forall r u, P u -> P (mark r u);
  k_ok : forall (x : world W) r, P (jobs_now x) -> P (is_ok_to_run c x r).2.1;
  k_subjob : forall (x : world W) r, P (jobs_now x) -> P (queue_subjob c x r).2.1;
  k_run : forall (x : world W) r, P (jobs_now x) -> P (run_update_resresv c x r).2.1;
  k_preempt : forall (x : world W) r, preempting policy = true -> P (jobs_now x) -> P (find_and_preempt_jobs c x r).2.1;
  k_calendar : forall (x : world W) r, P (jobs_now x) -> P (add_job_to_calendar c x r).2.1;
  k_accrue : forall (x : world W) r, P (jobs_now x) -> P (update_accruetype c x r).2.1 }.

Definition marked_at (k : Z) u : Prop := can_not_run (flags_of u k) = true.

Lemma mark_marks r u : marked_at (rank r) (mark r u).
Proof using Type. unfold marked_at, mark. cbn. by rewrite Z.eqb_refl. Qed.
Lemma mark_keeps (k : Z) r u : marked_at k u -> marked_at k (mark r u).
Proof using Type. unfold marked_at, mark. cbn. by destruct (k =? rank r). Qed.

Lemma cant_run_ok arr : forall u u', update_jobs_cant_run arr u = Some u' ->
  srv u' = srv u /\ (forall k, marked_at k u -> marked_at k u') /\ Forall (fun r => marked_at (rank r) u') (jobs_in arr) /\
  (forall P : universe -> Prop, (forall r u, P u -> P (mark r u)) -> P u -> P u').
Proof using Type.
  induction arr as [|[r|] arr IH]; intros u u'; cbn [update_jobs_cant_run]; [done| |by intros [= ->]].
  set (u1 := if can_not_run (flags_at u r) then u else mark r u). intros (Hs & Hm & Ha & HP)%IH.
  assert (marked_at (rank r) u1) as Hr by (unfold u1; destruct (can_not_run (flags_at u r)) eqn:E; [exact E|apply mark_marks]).
  split_and!.
  - rewrite Hs. unfold u1. by destruct (can_not_run _).
  - intros k Hk. apply Hm. unfold u1. destruct (can_not_run _); [done|by apply mark_keeps].
  - constructor; [by apply Hm|done].
  - intros P HPm HPu. apply HP; [done|]. unfold u1. destruct (can_not_run _); [done|by apply HPm].
Qed.

Section Body.
Context (P : universe -> Prop) (HP : keeps P).

Lemma try_keeps (x x' : world W) r (sa rc sa' code : Z) : P (jobs_now x) ->
  try_job c links policy x r sa = (rc, sa', code, x') -> P (jobs_now x').
Proof using HP.
  destruct HP. unfold try_job, after. intros Hx. pose proof (k_ok0 x r Hx) as H1.
  destruct (is_ok_to_run c x r) as [[[ok status] code0] [u1 w1]]. cbn in H1 |- *.
  set (x1 := match status with NEVER_RUN => _ | _ => _ end).
  assert (P (jobs_now x1)) as H1' by (unfold x1; by destruct status). clearbody x1.
  destruct ok.
  - assert (forall (o : option sort_resv) (x2 : world W), P (jobs_now x2) ->
      match o with
      | None => (SCHD_ERROR, sa, code0, mark_job r x2)
      | Some tj =>
          let '(res, code, x) := ((run_update_resresv c x2 tj).1, World (run_update_resresv c x2 tj).2.1 (can_never_run x2) (ec_can_not_run x2)
            (q_num_topjobs x2) (run_update_resresv c x2 tj).2.2) in
          if res >? 0 then (SUCCESS, MAY_RESORT_JOBS, code, x) else (code, SORTED, code, x)
      end = (rc, sa', code, x') -> P (jobs_now x')) as Hrun.
    { intros [tj|] x2 Hx2; [|intros [= _ _ _ <-]; by apply k_mark0]. pose proof (k_run0 x2 tj Hx2) as H3.
      destruct (run_update_resresv c x2 tj) as [[res code2] [u3 w3]]. cbn in H3 |- *. destruct (res >? 0); intros [= _ _ _ <-]; exact H3. }
    destruct (lj_is_array (link links r)); [|by apply (Hrun (Some r) x1)]. pose proof (k_subjob0 x1 r H1') as H2.
    destruct (queue_subjob c x1 r) as [tj [u2 w2]]. cbn in H2 |- *. by apply (Hrun tj (World u2 _ _ _ w2)).
  - destruct (preempting policy && runnable r && negb (can_never_run x1 (rank r))) eqn:Ep; [|by intros [= _ _ _ <-]].
    apply andb_prop in Ep as [[Ep _]%andb_prop _]. pose proof (k_preempt0 x1 r Ep H1') as H2.
    destruct (find_and_preempt_jobs c x1 r) as [[res code2] [u3 w3]]. cbn in H2 |- *. destruct (res >? 0); intros [= _ _ _ <-]; exact H2.
Qed.

Lemma backfill_keeps (x x' : world W) r (nt rc nt' rc' : Z) (b : bool) : P (jobs_now x) ->
  backfill_job c conf links policy x r nt rc = (nt', b, rc', x') -> P (jobs_now x').
Proof using HP.
  destruct HP. unfold backfill_job, after. intros Hx. destruct (should_backfill_with_job _ _ _ _ _ _); [|by intros [= _ _ _ <-]].
  pose proof (k_calendar0 x r Hx) as H1. destruct (add_job_to_calendar c x r) as [cal [u1 w1]]. cbn in H1 |- *.
  repeat case_match; intros [= _ _ _ <-]; exact H1.
Qed.

Lemma settle_keeps (x x' : world W) r (rc sa nt rc' sa' nt' : Z) (b : bool) : P (jobs_now x) ->
  settle_job c conf links policy x r rc sa nt = (b, sa', nt', rc', x') -> P (jobs_now x').
Proof using HP.
  unfold settle_job. intros Hx. destruct (_ || got_sigpipe c (rest x)); [by intros [= _ _ _ _ <-]|].
  destruct (negb (rc =? SUCCESS) && negb (rc =? RUN_FAILURE)); [|by intros [= _ _ _ _ <-]].
  destruct (backfill_job _ _ _ _ _ _ _ _) as [[[nt1 b1] rc1] x1] eqn:Eb. apply backfill_keeps in Eb; [|done]. destruct HP.
  intros [= _ _ _ _ <-]. cbn. apply k_mark0. destruct (eligible_time_enable conf); [|done]. by apply k_accrue0.
Qed.

Lemma hold_keeps (x x' : world W) r (rc : Z) : P (jobs_now x) -> hold_others links policy x r rc = Some x' -> P (jobs_now x').
Proof using HP.
  destruct HP. intros Hx. assert (forall arr u, update_jobs_cant_run arr (jobs_now x) = Some u -> P u) as Hcant.
  { intros arr u (_ & _ & _ & H)%cant_run_ok. by apply H. }
  unfold hold_others. intros H. repeat case_match; simplify_option_eq; by eauto.
Qed.

Lemma ends_keeps (x x' : world W) (i : Z) (b b' : bool) : ends_cycle c conf x i b = (b', x') -> jobs_now x' = jobs_now x.
Proof using Type.
  unfold ends_cycle. destruct (time c (rest x)) as [now w]. destruct (_ || _); [by intros [= _ <-]|].
  destruct (restart_cycle c _) as [rs w2]. by intros [= _ <-].
Qed.

Lemma class_keeps (x : world W) r (rc code : Z) : jobs_now (mark_class links x r rc code) = jobs_now x.
Proof using Type. unfold mark_class. by destruct (_ && _). Qed.

Lemma body_keeps (x x' : world W) r (i sa nt rc sa' nt' : Z) (b : bool) : P (jobs_now x) ->
  loop_body c conf links policy x r i sa nt = Some (rc, b, sa', nt', x') -> P (jobs_now x').
Proof using HP.
  unfold loop_body. intros Hx. destruct (try_job _ _ _ _ _ _) as [[[rc1 sa1] code] x1] eqn:Et. apply try_keeps in Et; [|done].
  destruct (settle_job _ _ _ _ _ _ _ _ _) as [[[[b1 sa2] nt1] rc2] x2] eqn:Es. apply settle_keeps in Es; [|done].
  destruct (hold_others _ _ _ _ _) as [x3|] eqn:Eh; [|done]. apply hold_keeps in Eh; [|by rewrite class_keeps].
  cbn [mbind option_bind]. destruct (ends_cycle _ _ _ _ _) as [b2 x4] eqn:Ee. apply ends_keeps in Ee. intros [= _ _ _ _ <-]. by rewrite Ee.
Qed.

End Body.

(** ** Strict order *)

Lemma try_sorted (x x' : world W) r (sa rc sa' code : Z) : try_job c links policy x r sa = (rc, sa', code, x') ->
  sa' = SORTED \/ rc = SUCCESS \/ rc = SCHD_ERROR \/ rc = 0.
Proof using Type.
  unfold try_job, after. destruct (is_ok_to_run c x r) as [[[ok status] code0] [u1 w1]]. cbn.
  set (x1 := match status with NEVER_RUN => _ | _ => _ end). clearbody x1. destruct ok.
  - destruct (if lj_is_array _ then _ else _) as [[tj|] x2]; [|intros [= <- _ _ _]; tauto].
    destruct (run_update_resresv c x2 tj) as [[res code2] [u3 w3]]. cbn. destruct (res >? 0); intros [= <- <- _ _]; tauto.
  - destruct (_ && _); [|intros [= <- _ _ _]; tauto].
    destruct (find_and_preempt_jobs c x1 r) as [[res code2] [u3 w3]]. cbn. destruct (res >? 0); intros [= <- <- _ _]; tauto.
Qed.

(** After a job that was not run the cycle ends or sorts nothing. *)
Lemma body_sorted (x x' : world W) r (i sa nt rc sa' nt' : Z) (b : bool) :
  loop_body c conf links policy x r i sa nt = Some (rc, b, sa', nt', x') -> rc <> SUCCESS -> b = true \/ sa' = SORTED.
Proof using Type.
  unfold loop_body. destruct (try_job _ _ _ _ _ _) as [[[rc1 sa1] code] x1] eqn:Et. apply try_sorted in Et.
  unfold settle_job. destruct ((rc1 =? SCHD_ERROR) || (rc1 =? PBSE_PROTOCOL) || got_sigpipe c (rest x1)) eqn:Ee.
  { destruct (hold_others _ _ _ _ _) as [x3|]; [|done]. cbn [mbind option_bind]. unfold ends_cycle. destruct (time c _). cbn.
    intros [= _ <- _ _ _]. by left. }
  destruct (negb (rc1 =? SUCCESS) && negb (rc1 =? RUN_FAILURE)) eqn:En.
  - destruct (backfill_job _ _ _ _ _ _ _ _) as [[[nt1 b1] rc2] x2]. destruct (hold_others _ _ _ _ _) as [x3|]; [|done]. cbn [mbind option_bind].
    destruct (ends_cycle _ _ _ _ _). intros [= _ _ <- _ _]. by right.
  - destruct (hold_others _ _ _ _ _) as [x3|]; [|done]. cbn [mbind option_bind]. destruct (ends_cycle _ _ _ _ _). intros [= <- _ <- _ _] Hne.
    right. destruct Et as [->|[->|[->| ->]]]; done.
Qed.

(** A job that was not run holds all jobs of the server. *)
Lemma body_holds (x x' : world W) r (i sa nt rc sa' nt' : Z) (b : bool) :
  loop_body c conf links policy x r i sa nt = Some (rc, b, sa', nt', x') -> rc <> SUCCESS -> lj_resv (link links r) = false ->
  strict_fifo policy = false -> backfill policy = false -> strict_ordering policy = true ->
  Forall (fun r => marked_at (rank r) (jobs_now x')) (server_jobs (jobs_now x')).
Proof using Type.
  unfold loop_body. destruct (try_job _ _ _ _ _ _) as [[[rc1 sa1] code] x1].
  destruct (settle_job _ _ _ _ _ _ _ _ _) as [[[[b1 sa2] nt1] rc2] x2]. set (x2' := mark_class _ _ _ _ _). clearbody x2'.
  destruct (hold_others _ _ x2' _ _) as [x3|] eqn:Eh; [|done]. cbn [mbind option_bind]. destruct (ends_cycle _ _ _ _ _) as [b2 x4] eqn:Ee.
  apply ends_keeps in Ee. intros [= <- _ _ _ <-] Hne Hresv Hsf Hbf Hso. rewrite Ee.
  unfold hold_others in Eh. rewrite (proj2 (Z.eqb_neq _ _) Hne), Hresv, Hsf, Hbf, Hso in Eh. cbn in Eh.
  destruct (update_jobs_cant_run _ _) as [u|] eqn:Eu; [|done]. injection Eh as <-. cbn.
  apply cant_run_ok in Eu as (Hs & _ & Ha & _). unfold server_jobs. by rewrite Hs.
Qed.

(** An invariant of the jobs of a cycle: a job held anywhere is one of the server's array. *)
Class CycleInv (good : universe -> Prop) : Prop := {
  ci_keeps : keeps good;
  ci_sort : forall u u', good u -> resorted u u' -> good u';
  ci_listed : forall u r, good u -> held u r -> rank r ∈ rank <$> server_jobs u }.

(** C5. Where the order is strict and there is no backfilling, nothing overtakes a job that
    was not run: if [main_sched_loop] considers one outside of reservations that is not
    run, it is the last job of the cycle. *)
Theorem strict_order_holds (good : universe -> Prop) `{!CycleInv good} (n : nat) :
  strict_fifo policy = false -> backfill policy = false -> strict_ordering policy = true ->
  forall st (x : world W) (i sa nt : Z) (a b : list (sort_resv * Z)) r (rc : Z), st_fine st -> good (jobs_now x) ->
  main_sched_loop c conf links sort e policy n st x i sa nt = a ++ (r, rc) :: b ->
  rc <> SUCCESS -> lj_resv (link links r) = false -> b = [].
Proof using Type.
  intros Hsf Hbf Hso. induction n as [|n IH]; intros st x i sa nt a b r rc Hst Hg; cbn [main_sched_loop]; [by destruct a|].
  destruct (next_job sort e policy sa st (jobs_now x)) as [[[r1|] [st1 u1]]|] eqn:En; [|by destruct a..].
  apply next_job_free in En as (Hst1 & Hre & _ & _); [|done]. apply (ci_sort _ _ Hg) in Hre.
  destruct (loop_body _ _ _ _ _ _ _ _ _) as [[[[[rc1 b1] sa1] nt1] x1]|] eqn:Eb.
  2: { destruct a as [|? [|]]; [|done..]. by intros [= _ _ <-]. }
  pose proof (body_keeps good ci_keeps _ _ _ _ _ _ _ _ _ _ (Hre : good (jobs_now (with_jobs x u1))) Eb) as Hg1.
  destruct a as [|p a]; cbn [app].
  2: { intros [= _ E2]. destruct b1; [by destruct a|]. by apply (IH _ _ _ _ _ _ _ _ _ Hst1 Hg1 E2). }
  intros [= -> -> <-] Hne Hresv. destruct b1; [done|].
  destruct (body_sorted _ _ _ _ _ _ _ _ _ _ Eb Hne) as [[=]| ->].
  pose proof (body_holds _ _ _ _ _ _ _ _ _ _ Eb Hne Hresv Hsf Hbf Hso) as Hall.
  destruct n as [|n]; [done|]. cbn [main_sched_loop].
  destruct (next_job sort e policy SORTED st1 (jobs_now x1)) as [[[r2|] [st2 u2]]|] eqn:En; [|done..].
  apply next_job_free in En as (_ & _ & [Hheld Hfree] & Hsame); [|done]. rewrite Hsame in Hheld, Hfree by done.
  pose proof (ci_listed _ _ Hg1 Hheld) as Hin. apply list_elem_of_fmap in Hin as (r3 & Hr & Hr3).
  pose proof (proj1 (Forall_forall _ _) Hall r3 Hr3) as Hm. unfold marked_at in Hm. unfold flags_at in Hfree. rewrite Hr in Hfree. congruence.
Qed.

(** ** No job twice *)

(** No call makes a job eligible again, and a job that was run, or failed to, is marked. *)
Class RunMarks : Prop := {
  rm_keeps : forall k, keeps (marked_at k);
  rm_run : forall (x : world W) r, let '((res, code), (u, _)) := run_update_resresv c x r in
    res > 0 \/ code = SUCCESS \/ code = RUN_FAILURE -> marked_at (rank r) u }.

Lemma try_marks `{!RunMarks} (x x' : world W) r (sa rc sa' code : Z) : preempting policy = false -> lj_is_array (link links r) = false ->
  try_job c links policy x r sa = (rc, sa', code, x') -> rc = SUCCESS \/ rc = RUN_FAILURE -> marked_at (rank r) (jobs_now x').
Proof using Type.
  intros Hp Ha. unfold try_job, after. rewrite Hp, Ha. destruct (is_ok_to_run c x r) as [[[ok status] code0] [u1 w1]]. cbn.
  set (x1 := match status with NEVER_RUN => _ | _ => _ end). clearbody x1. destruct ok; [|intros [= <- _ _ _]; by intros []].
  pose proof (rm_run x1 r) as Hm. destruct (run_update_resresv c x1 r) as [[res code2] [u3 w3]]. cbn.
  destruct (res >? 0) eqn:Er; intros [= <- _ _ <-] Hrc; cbn; apply Hm; [left; lia|by right].
Qed.

Lemma body_marks `{!RunMarks} (x x' : world W) r (i sa nt rc sa' nt' : Z) (b : bool) : preempting policy = false ->
  lj_is_array (link links r) = false -> loop_body c conf links policy x r i sa nt = Some (rc, b, sa', nt', x') ->
  b = true \/ marked_at (rank r) (jobs_now x').
Proof using Type.
  intros Hp Ha. unfold loop_body. destruct (try_job _ _ _ _ _ _) as [[[rc1 sa1] code] x1] eqn:Et.
  pose proof (try_marks _ _ _ _ _ _ _ Hp Ha Et) as Hm.
  assert (forall x2 x3 b1 b2 x4 rc2, marked_at (rank r) (jobs_now x2) -> hold_others links policy (mark_class links x2 r rc2 code) r rc2 = Some x3 ->
    ends_cycle c conf x3 i b1 = (b2, x4) -> marked_at (rank r) (jobs_now x4)) as Hend.
  { intros x2 x3 b1 b2 x4 rc2 H2 Hh He. apply ends_keeps in He. rewrite He. apply (hold_keeps _ (rm_keeps (rank r))) in Hh; [done|]. by rewrite class_keeps. }
  unfold settle_job. destruct ((rc1 =? SCHD_ERROR) || (rc1 =? PBSE_PROTOCOL) || got_sigpipe c (rest x1)) eqn:Ee.
  { destruct (hold_others _ _ _ _ _) as [x3|]; [|done]. cbn [mbind option_bind]. unfold ends_cycle. destruct (time c _). cbn.
    intros [= _ <- _ _ _]. by left. }
  destruct (negb (rc1 =? SUCCESS) && negb (rc1 =? RUN_FAILURE)) eqn:En.
  - destruct (backfill_job _ _ _ _ _ _ _ _) as [[[nt1 b1] rc2] x2]. set (x2' := mark_job r _).
    destruct (hold_others _ _ _ _ _) as [x3|] eqn:Eh; [|done]. cbn [mbind option_bind].
    destruct (ends_cycle _ _ _ _ _) as [b2 x4] eqn:Ec. intros [= _ _ _ _ <-]. right. apply (Hend x2' x3 b1 b2 x4 rc2); [apply mark_marks|done|done].
  - destruct (hold_others _ _ _ _ _) as [x3|] eqn:Eh; [|done]. cbn [mbind option_bind].
    destruct (ends_cycle _ _ _ _ _) as [b2 x4] eqn:Ec. intros [= _ _ _ _ <-]. right. apply (Hend x1 x3 false b2 x4 rc1); [|done|done].
    apply Hm. destruct (rc1 =? SUCCESS) eqn:E1; [left; lia|]. destruct (rc1 =? RUN_FAILURE) eqn:E2; [right; lia|done].
Qed.

Lemma resorted_flags u u' : resorted u u' -> flags_of u' = flags_of u.
Proof using Type. by intros [->|(s' & _ & ->)]. Qed.

(** What is marked is not considered any more. *)
Lemma considered_unmarked `{!RunMarks} (n : nat) : forall st (x : world W) (i sa nt : Z) r, st_fine st ->
  r ∈ (main_sched_loop c conf links sort e policy n st x i sa nt).*1 -> ~ marked_at (rank r) (jobs_now x).
Proof using Type.
  induction n as [|n IH]; intros st x i sa nt r Hst; cbn [main_sched_loop]; [by intros ?%elem_of_nil|].
  destruct (next_job sort e policy sa st (jobs_now x)) as [[[r1|] [st1 u1]]|] eqn:En; [|by intros ?%elem_of_nil..].
  apply next_job_free in En as (Hst1 & Hre & [_ Hfree] & _); [|done]. apply resorted_flags in Hre.
  assert (r = r1 -> ~ marked_at (rank r) (jobs_now x)) as Hhead.
  { intros -> Hm. unfold flags_at in Hfree. unfold marked_at in Hm. rewrite <-Hre in Hm. congruence. }
  destruct (loop_body _ _ _ _ _ _ _ _ _) as [[[[[rc1 b1] sa1] nt1] x1]|] eqn:Eb.
  2: { by intros [->|?%elem_of_nil]%elem_of_cons; [apply Hhead|]. }
  rewrite fmap_cons. intros [->|Hin]%elem_of_cons; [by apply Hhead|]. destruct b1; [by apply elem_of_nil in Hin|].
  intros Hm. apply (IH _ _ _ _ _ _ Hst1 Hin). eapply (body_keeps _ (rm_keeps (rank r))); [|exact Eb].
  cbn. unfold marked_at. by rewrite Hre.
Qed.

Definition single (p : sort_resv * Z) : Prop := lj_is_array (link links p.1) = false.
#[local] Instance single_dec p : Decision (single p).
Proof using Type. apply _. Defined.

(** The ranks of the jobs that are no array jobs, in the order they were considered *)
Definition single_ranks (t : list (sort_resv * Z)) : list Z := (fun p => rank p.1) <$> filter single t.

Lemma loop_ranks (good : universe -> Prop) `{!CycleInv good} (n : nat) : forall st (x : world W) (i sa nt : Z) (R : list Z) r, st_fine st ->
  good (jobs_now x) -> (forall u r, good u -> held u r -> rank r ∈ R) ->
  r ∈ (main_sched_loop c conf links sort e policy n st x i sa nt).*1 -> rank r ∈ R.
Proof using Type.
  induction n as [|n IH]; intros st x i sa nt R r Hst Hg HR; cbn [main_sched_loop]; [by intros ?%elem_of_nil|].
  destruct (next_job sort e policy sa st (jobs_now x)) as [[[r1|] [st1 u1]]|] eqn:En; [|by intros ?%elem_of_nil..].
  apply next_job_free in En as (Hst1 & Hre & [Hheld _] & _); [|done]. apply (ci_sort _ _ Hg) in Hre.
  destruct (loop_body _ _ _ _ _ _ _ _ _) as [[[[[rc1 b1] sa1] nt1] x1]|] eqn:Eb.
  2: { intros [->|?%elem_of_nil]%elem_of_cons; [|done]. by apply (HR u1). }
  pose proof (body_keeps good ci_keeps _ _ _ _ _ _ _ _ _ _ (Hre : good (jobs_now (with_jobs x u1))) Eb) as Hg1.
  rewrite fmap_cons. intros [->|Hin]%elem_of_cons; [by apply (HR u1)|]. destruct b1; [by apply elem_of_nil in Hin|].
  by apply (IH _ _ _ _ _ _ _ Hst1 Hg1 HR Hin).
Qed.

(** C6. Without preemption [main_sched_loop] considers no job twice, array jobs aside, even
    when jobs are run and the jobs are sorted again in between; so it considers at most as
    many as there are. *)
Theorem loop_considers_once (good : universe -> Prop) `{!CycleInv good} `{!RunMarks} (n : nat) st (x : world W) (i sa nt : Z) (R : list Z) :
  preempting policy = false -> st_fine st -> good (jobs_now x) -> (forall u r, good u -> held u r -> rank r ∈ R) ->
  let t := single_ranks (main_sched_loop c conf links sort e policy n st x i sa nt) in NoDup t /\ (length t <= length R)%nat.
Proof using Type.
  intros Hp Hst Hg HR t. assert (NoDup t) as Hnd.
  { unfold t, single_ranks. clear t HR Hg. revert st x i sa nt Hst. induction n as [|n IH]; intros st x i sa nt Hst; cbn [main_sched_loop]; [constructor|].
    destruct (next_job sort e policy sa st (jobs_now x)) as [[[r1|] [st1 u1]]|] eqn:En; [|by constructor..].
    apply next_job_free in En as (Hst1 & _ & _ & _); [|done].
    destruct (loop_body _ _ _ _ _ _ _ _ _) as [[[[[rc1 b1] sa1] nt1] x1]|] eqn:Eb.
    2: { rewrite filter_cons. destruct (decide _); [apply NoDup_singleton|constructor]. }
    specialize (IH st1 x1 (i + 1) sa1 nt1 Hst1). rewrite filter_cons. destruct (decide (single (r1, rc1))) as [Ha|Ha].
    2: { destruct b1; [constructor|exact IH]. }
    rewrite fmap_cons. destruct b1; [apply NoDup_singleton|]. constructor; [|exact IH].
    destruct (body_marks _ _ _ _ _ _ _ _ _ _ Hp Ha Eb) as [[=]|Hm]. intros (p & Hr & Hin)%list_elem_of_fmap.
    apply list_elem_of_filter in Hin as [_ Hin]. apply (list_elem_of_fmap_2 fst) in Hin.
    apply (considered_unmarked _ _ _ _ _ _ _ Hst1 Hin). cbn in Hr. by rewrite <-Hr. }
  split; [done|]. apply NoDup_incl_length; [by apply NoDup_ListNoDup|]. intros k Hk%list_elem_of_In.
  apply list_elem_of_fmap in Hk as (p & -> & Hin). apply list_elem_of_filter in Hin as [_ Hin]. apply (list_elem_of_fmap_2 fst) in Hin.
  apply list_elem_of_In. by apply (loop_ranks good n st x i sa nt R p.1 Hst Hg HR).
Qed.

End Loop.
End MainLoopProps.

(** * Cycles with answers

    Module [MainLoopScenes]: three queued jobs, of which some can be run, and calls that
    answer so. *)

Module MainLoopScenes.
Import QsortProps FairScenes JobSortScenes NextJob NextJobProps NextJobScenes MainLoop MainLoopProps.

Definition three : list sort_resv := plain <$> [1; 2; 3].
Definition three_queues : list sort_queue := [queue_of [plain 1; plain 2]; queue_of [plain 3]].
Definition server_of (js : list sort_resv) : sort_server := SortServer three_queues None (with_null js).
Definition waiting : universe := Universe (server_of three) normal None None.
Definition start (u : universe) : world unit := World u (fun _ => false) (fun _ => false) (fun _ => 0) tt.

(** The jobs of some ranks can be run; a job that is run is marked. *)
Definition answers (can_run : list Z) : calls unit :=
  Calls (fun x r => ((bool_decide (rank r ∈ can_run), NOT_RUN, if bool_decide (rank r ∈ can_run) then 0 else 15), (jobs_now x, tt)))
    (fun x r => (None, (jobs_now x, tt)))
    (fun x r => ((1, 0), (mark r (jobs_now x), tt)))
    (fun x r => ((0, 0), (jobs_now x, tt)))
    (fun x r => (1, (jobs_now x, tt)))
    (fun x r => (tt, (jobs_now x, tt)))
    (fun _ => false) (fun _ => (0, tt)) (fun _ => (false, tt)).

Definition a_job (_ : Z) : loop_job := LoopJob 0 false false false false (-1).
Definition cycle_conf : loop_conf := LoopConf SCHD_INFINITY true 0 (-1) false false (fun _ => -1) 1000.

Definition ordered_policy (strict filling : bool) : settings :=
  {| round_robin := false; by_queue := false; strict_fifo := false; strict_ordering := strict;
     sort_by := 0; fair_share := false; load_balancing := false; help_starving_jobs := false;
     backfill := filling; sort_nodes := false; load_balancing_rr := false; backfill_prime := false;
     preempting := false; node_sort := 0; smp_dist := 0 |}.

Definition loop (policy : settings) (can_run : list Z) (n : nat) : list (sort_resv * Z) :=
  main_sched_loop (answers can_run) cycle_conf a_job (Qsort.sort 8) (env false) policy n
    (NextState 0 0 0 SKIP_NOTHING SORTED 0) (start waiting) 0 DONT_SORT_JOBS 0.
Definition seen (t : list (sort_resv * Z)) : list (Z * Z) := map (fun p => (rank p.1, p.2)) t.

(** Without strict order the jobs after one that cannot run are considered; with it they
    are not, unless there is backfilling. *)
Example not_strict : seen (loop (ordered_policy false false) [1; 3] 9) = [(1, SUCCESS); (2, 0); (3, SUCCESS)].
Proof. vm_compute. reflexivity. Qed.
Example strict : seen (loop (ordered_policy true false) [1; 3] 9) = [(1, SUCCESS); (2, 0)].
Proof. vm_compute. reflexivity. Qed.
Example backfilled : seen (loop (ordered_policy true true) [1; 3] 9) = [(1, SUCCESS); (2, 0); (3, SUCCESS)].
Proof. vm_compute. reflexivity. Qed.

(** The server's array in any order *)
Definition good (u : universe) : Prop :=
  qrun_job u = None /\ exists js, srv u = server_of js /\ js ≡ₚ three.

Lemma jobs_in_null (js : list sort_resv) : jobs_in (with_null js) = js.
Proof. unfold with_null. induction js as [|r js IH]; [done|cbn; by f_equal]. Qed.

Lemma good_held u r : good u -> held u r -> rank r ∈ rank <$> server_jobs u.
Proof.
  intros (Hq & js & Hs & Hp) Hr. unfold server_jobs, held in *. rewrite Hq, Hs in *. cbn [ss_jobs server_of ss_queues].
  rewrite jobs_in_null.
  assert (forall r, r ∈ three -> rank r ∈ rank <$> js) as Hthree by (intros r' Hr'; rewrite Hp; by apply list_elem_of_fmap_2).
  assert (forall l, Some r ∈ with_null l -> r ∈ l) as Hin.
  { intros l [(r' & [= ->] & H)%list_elem_of_fmap|[=]%list_elem_of_singleton]%elem_of_app. exact H. }
  destruct Hr as [[=]|[H|(q & Hq' & H)]].
  - apply list_elem_of_fmap_2. by apply Hin.
  - apply Hthree. unfold three_queues in Hq'. apply elem_of_cons in Hq' as [->|Hq']; [|apply list_elem_of_singleton in Hq' as ->];
      apply Hin in H; unfold three; cbn in H |- *; rewrite !elem_of_cons in *; naive_solver.
Qed.

Lemma good_sort policy u u' : fair_share policy = false -> by_queue policy = false -> round_robin policy = false ->
  good u -> resorted (Qsort.sort 8) (env false) policy u u' -> good u'.
Proof.
  intros Hf Hb Hr Hg [->|(s' & Hs' & ->)]; [done|]. destruct Hg as (Hq & js & Hs & Hp). split; [done|]. cbn.
  unfold sort_jobs in Hs'. rewrite Hf, Hb, Hr, Hs in Hs'. cbn [ss_jobs server_of ss_queues ss_queue_list] in Hs'.
  assert (sortable_array (small := fun l => fits 8 (len l)) (env false) scene_tree depth (with_null js) js []) as Ha.
  { split; [done| |].
    - rewrite Hp. repeat constructor; apply job_comparable; auto.
    - unfold fits, len. rewrite length_fmap, (Permutation_length Hp). cbn. split; vm_compute; congruence. }
  destruct (sort_first_ok (sort := Qsort.sort 8) (env false) scene_root scene_group scene_tree depth (env_tree_good false) (env_keys false)
    (with_null js) js [] Ha) as (js' & He & Hp' & _).
  unfold sort_all in Hs'. rewrite (count_array_ok (with_null js) js []) in Hs' by apply Ha. cbn [mbind option_bind] in Hs'.
  rewrite He in Hs'. cbn in Hs'. injection Hs' as <-. exists js'. split; [done|]. by rewrite Hp'.
Qed.

Lemma answers_keep (can_run : list Z) (policy : settings) (P : universe -> Prop) : (forall r u, P u -> P (mark r u)) ->
  keeps (answers can_run) policy P.
Proof. intros Hm. split; try done. intros x r Hx. by apply Hm. Qed.

#[local] Instance good_cycle (can_run : list Z) (strict filling : bool) :
  CycleInv (answers can_run) (Qsort.sort 8) (env false) (ordered_policy strict filling) good.
Proof.
  split.
  - by apply answers_keep.
  - intros u u'. by apply good_sort.
  - apply good_held.
Qed.

#[local] Instance answers_mark (can_run : list Z) (policy : settings) : RunMarks (answers can_run) policy.
Proof. split; [intros k; apply answers_keep; intros r u; apply mark_keeps|]. intros x r _. apply mark_marks. Qed.

Lemma loop_fine : st_fine (NextState 0 0 0 SKIP_NOTHING SORTED 0).
Proof. by split. Qed.

Lemma waiting_good : good waiting.
Proof. split; [done|]. by exists three. Qed.

Lemma strict_order_holds_witness : exists b : list (sort_resv * Z),
  loop (ordered_policy true false) [1; 3] 9 = [(plain 1, SUCCESS)] ++ (plain 2, 0) :: b /\ b = [].
Proof.
  exists []. assert (loop (ordered_policy true false) [1; 3] 9 = [(plain 1, SUCCESS)] ++ (plain 2, 0) :: []) as H by (vm_compute; reflexivity).
  split; [exact H|].
  exact (strict_order_holds (answers [1; 3]) cycle_conf a_job (Qsort.sort 8) (env false) (ordered_policy true false) good 9 eq_refl eq_refl eq_refl
    _ (start waiting) 0 DONT_SORT_JOBS 0 _ _ _ _ loop_fine waiting_good H ltac:(done) eq_refl).
Defined.

Lemma loop_considers_once_witness :
  NoDup (single_ranks a_job (loop (ordered_policy false false) [1; 3] 9)) /\
  (length (single_ranks a_job (loop (ordered_policy false false) [1; 3]%Z 9)) <= 3)%nat.
Proof.
  apply (loop_considers_once (answers [1; 3]) cycle_conf a_job (Qsort.sort 8) (env false) (ordered_policy false false) good 9
    (NextState 0 0 0 SKIP_NOTHING SORTED 0) (start waiting) 0 DONT_SORT_JOBS 0 [1; 2; 3] eq_refl loop_fine waiting_good).
  intros u r Hg Hr. pose proof (good_held u r Hg Hr) as Hin. destruct Hg as (_ & js & Hs & Hp).
  unfold server_jobs in Hin. rewrite Hs in Hin. cbn [ss_jobs server_of] in Hin.
  rewrite jobs_in_null, Hp in Hin. exact Hin.
Defined.

End MainLoopScenes.
